(* ===== verification/_CoqProject ===== *)
-Q . S2P
Prelude.v
Threads.v
Gf256.v
ReedSolomon.v
EcArray.v
Declustered.v
BlockAllocator.v
AllocLog.v
MemberManifest.v
Superblock.v
SafeBdev.v
SafeBdevIO.v
SafeBdevAdmin.v
SafeBdevRecovery.v
SafeBdevSafety.v
SafeBdevGaps.v
Text.v
TxnLog.v
BlobMeta.v
TagNames.v
TagNamespace.v
MetaLog.v
MetaReplay.v
RestartLog.v
PoolQuery.v
PoolManager.v
Routing.v
Run2Run.v
BatchManager.v
Swim.v
RingBuffer.v
RingMachine.v
Telemetry.v
Extents.v
BuddyAllocator.v
BuddySafety.v
BuddyHistory.v
BlobDevice.v
BlobStore.v
BlobBlocks.v
BlobSafety.v
BlobPut.v
BlobCopies.v
BlobStep.v
BlobMove.v
MemBdev.v
BlobRefine.v
Placement.v
BlobLog.v
BlobTheorems.v
BlobGaps.v
BlobRestart.v
BlobLock.v
ChainMap.v
TicketLock.v
RwLock.v
ShmMap.v
ShmSeqlock.v
