(* ===== verification/Prelude.v ===== *)
(** * CLIO Core: a verification development

    CLIO Core is a storage runtime in C++. This development models the parts of
    it that decide whether stored data and metadata survive, and whether the tasks
    that carry them run and end: the allocators and logs of the block devices, the
    erasure codes and the fault-tolerant container built on them, the data path and
    the metadata of the context transfer engine (CTE) with its snapshot, its logs
    and its restart, the shared data structures and locks all of it stands on, and
    the runtime's routing, gathering, batching and failure detection. Paths below
    are under [src/]; [runtime/] abbreviates [context-runtime/], [cte/]
    abbreviates [context-transfer-engine/core/] and [ctp/] abbreviates
    [context-transport-primitives/include/clio_ctp/].

    ** The parts and how they interact

    An application stores blobs under tags in the CTE. The CTE keeps the maps from
    names to tags and from keys to blobs in memory, logs each change per worker,
    and from time to time writes a snapshot; a blob's bytes live in blocks of
    target pools, chosen by a placement engine. A pool is a block device ([bdev]),
    whose allocator hands out the blocks and whose allocation log makes them
    survive a restart, or a [safe_bdev], which stripes its address space over
    member devices and keeps parity on others. [safe_bdev] stands on the
    Reed-Solomon code, on the member manifest and superblocks that make its
    membership durable, and on the same allocation log. Two further layouts over
    the code, the striped [EcArray] and the [DeclusteredArray], are libraries of the
    module.

    Requests are tasks of the runtime. A task's query says which containers of its
    pool run it; the pool manager knows which node has which container. A task
    for other nodes is sent as copies, whose answers are gathered; a collective task
    waits with its neighborhood's leader and runs once for all of them. A failure
    detector decides which nodes are dead, and the leader has their containers
    recovered elsewhere. Queues, hash maps, allocator and locks of the transport
    primitives carry all this within a node.

    ** The files

    Block devices:
    - [BlockAllocator]: [runtime/modules/bdev/.../block_allocator.{h,cc}].
      [WorkerBlockMap], [GlobalBlockMap], [Heap] and [StandardBlockAllocator] as
      records and lists; an operation is one step, except that [heap_race] splits
      the heap's [fetch_add] and [fetch_sub].
    - [AllocLog]: [runtime/modules/bdev/.../bdev_alloc_log.h]. The file is its
      bytes; opening, flushing, compaction and its temporary file are functions on
      [AllocatorLog] and those bytes.
    - [MemBdev]: the memory-backed device ([bdev_runtime.cc],
      [transports/mem_bdev_transport.{h,cc}]), an instance of [BlobDevice]'s class.

    Erasure coding ([runtime/modules/safe-bdev/.../ec/]):
    - [Gf256] ([gf256.h]), [ReedSolomon] ([reed_solomon.h]): the tables as the
      constructor builds them, row-major byte matrices, encoding, inversion,
      decoding.
    - [EcArray] ([ec_array.h]), [Declustered] ([declustered.h]): the arrays over a
      class [MemberStore] of devices with a class of laws; [MemoryStore] is an
      instance of both. Stores live in a heap indexed by pointer.

    The [safe_bdev] container ([safe_bdev_runtime.{h,cc}]):
    - [MemberManifest] and [Superblock]: the container's durable membership.
    - [SafeBdev]: the state [Runtime], the slot allocators, the allocation
      handlers and the restart from the allocation log.
    - [SafeBdevIO]: [Read], [Write], [BuildParity] over a class [MemberBdev] of
      devices whose every call can fail; the invariant of the data plane.
    - [SafeBdevAdmin]: [AddBdev], [RemoveBdev], [RecoverBdev], [RebuildMember],
      [ResumeRecoveries], [Create].
    - [SafeBdevRecovery], [SafeBdevSafety]: proofs; the container as a transition
      system with ghost contents. [SafeBdevGaps]: runs that show what the handlers
      do not guarantee.

    The CTE's metadata ([cte/]):
    - [TxnLog] ([include/clio_cte/core/transaction_log.h]): record format, buffered
      stream, sync, truncation, loading.
    - [BlobMeta] ([core_tasks.h], [core_runtime.h]): tags, blobs, blocks, replicas
      and the maps.
    - [TagNames], [TagNamespace] ([src/core_runtime.cc]): hierarchical names, and
      creation, renaming, aliasing and deletion of tags.
    - [MetaLog], [MetaReplay] ([src/core_runtime.cc]): [FlushMetadata],
      [RestoreMetadataFromLog], [ReplayTransactionLogs] and the whole restart.
    - [Telemetry]: the circular log of operations.

    The CTE's data path ([src/core_runtime.cc], [core_tasks.h]):
    - [BlobDevice]: the interfaces to devices, placement engine and buffer pool,
      as classes with laws. [Extents]: who owns which bytes.
    - [BlobStore]: [PutBlob], [GetBlob], [TruncateBlob], [DelBlob],
      [ReorganizeBlob], [ReclaimCacheReplica] and their helpers, each run alone.
    - [BlobBlocks], [BlobSafety], [BlobPut], [BlobCopies], [BlobStep], [BlobMove]:
      proofs, from one block list up to the whole store. [BlobRefine]: the store as
      a map from keys to byte strings. [BlobTheorems]: what clients may rely on, on
      an example store.
    - [BlobLog], [BlobRestart]: the data path, its log and a crash together.
      [BlobLock]: the write token and the reader pins, with requests interleaved.
      [BlobGaps]: what is not guaranteed.
    - [Placement] ([src/dpe/]): the placement engines as instances of [Dpe].

    The transport primitives ([ctp/]):
    - [RingBuffer] ([data_structures/ipc/ring_buffer.h]) under every flag;
      [RingMachine]: its lock-free path, one atomic access a step.
    - [BuddyAllocator], [BuddySafety], [BuddyHistory]
      ([memory/allocator/buddy_allocator.h]): operations on addressed memory, the
      invariant, histories of callers.
    - [ChainMap] ([data_structures/priv/unordered_map_ll.h]): the growing hash map.
      [ShmMap], [ShmSeqlock] ([data_structures/ipc/unordered_map.h]): the table in
      shared memory, its operations and its readers while the writer works.
    - [TicketLock] ([thread/lock/mutex.h], with [runtime/.../comutex.h]), [RwLock]
      ([thread/lock/rwlock.h], with [corwlock.h]): one access a step.

    The runtime ([runtime/]):
    - [RestartLog] ([src/restart_log.cc]): what to compose again after a restart.
    - [PoolQuery] ([pool_query.{h,cc}]): modes, factories, text form.
    - [PoolManager] ([pool_manager.{h,cc}], [modules/admin/src/admin_runtime.cc]):
      the table of pools, the address map and its log, recovery of containers.
    - [Routing] ([src/ipc_manager.cc], [src/ipc/ipc_run2run.cc]): from a query to
      the containers that run the task, across nodes.
    - [Run2Run] ([src/ipc/ipc_run2run.cc]): the accounting of a task's copies, one
      critical section or counter access a step.
    - [BatchManager] ([batch_manager.{h,cc}]): collective tasks.
    - [Swim] ([admin_runtime.cc], [ipc_manager.cc]): the failure detector.

    This file holds what they share: little-endian integers and their parsers,
    wrap-around arithmetic, counted loops ([for_], [for_opt], [for_ok]) with their
    invariant rules, sums, and lemmas on list updates and copies. [Text] adds byte
    strings and decimal numbers, [Threads] the counting arguments of the machines.

    ** How the code is translated

    A 64-bit integer is a [Z] with [u64] written where the code can wrap; bytes are
    [Byte.byte]; [std::map] and [std::unordered_map] are [gmap], and a list where
    order matters. A counted loop is [for_]; [for_opt] and [for_ok] stop as the
    source's early returns do. A handler is a function from state to state and
    result. [bool] results and early exits stay results; [None] is used only for
    running out of fuel, and for what C++ leaves undefined where a comment at the
    definition says so. A float is its 32-bit pattern. Devices, allocators of
    memory, clocks, shuffles and hash functions are arguments or class instances.

    Stateful histories are relations: [sa_step] for the block allocator, the log
    machines of [AllocLog], [MemberManifest] and [TxnLog] with crashes as steps, the
    array machines, [sb_step] for the container, the histories of [MetaReplay] and
    [BlobRestart], and the clients of [BuddyHistory]. Where threads or coroutines
    interleave, a step is one atomic access or one critical section: [RingMachine],
    [BlobLock], [TicketLock], [RwLock], [ShmSeqlock], [Run2Run], [BatchManager].
    [Swim] is a run of ticks and arrivals. Their theorems quantify over every
    reachable state.

    ** What the theorems show

    - Reads: over every history of operations, device faults and membership
      changes, a read of [EcArray], [DeclusteredArray] or [safe_bdev] returns what
      was last written or fails; rebuilding restores every stripe; with enough
      survivors a degraded read and a rebuild succeed.
    - Blobs: the store is a map from keys to byte strings whatever is placed where
      and whatever fails; no two blobs share a byte of a device; what is put is
      got; blobs survive a crash; a get that overlaps a change reads extents that
      are not freed under it, and every request finishes.
    - Codes: [GfMul] is polynomial multiplication modulo 0x11d and GF(2^8) is a
      field; any [k] shards decode; inversion is exact; parity is incremental.
    - Allocation: blocks never overlap and no byte is lost; a request succeeds
      exactly when there is room, and a failure changes nothing; the buddy
      allocator never gives a byte twice and never touches a caller's.
    - Durability: a reopened allocation log, manifest, transaction log, snapshot,
      address log and restart log each recover exactly a state that had been made
      durable, torn tails included; a restart of the CTE recovers the metadata of
      the crash and leaves it well-formed whatever the files hold.
    - Names: a created path resolves to its tag, a rename moves the subtree and a
      deletion removes exactly the subtree, and each of these loops ends.
    - Shared structures: the ring buffer delivers in the order of reservation,
      once; both hash maps are finite maps; a read that succeeds beside the writer
      returns an entry that was there, in a bounded number of steps; the locks
      exclude, and serve in order.
    - Tasks: a task runs once on each node its query reaches; the copies of a task
      end it at most once, and end it when all are in; a collective task is
      completed once; a container of a dead node is re-homed.
    - Failure detection: a death follows an unanswered probe and a long silence, and
      a node that stays silent is declared dead.

    Where the code does less than it means to, a theorem exhibits a run
    ([SafeBdevGaps], [BlobGaps], and the last section of the other files): what is
    stated of such a component excludes exactly those runs, by a hypothesis that
    names them.

    ** Fuel

    A loop that consumes input ([TxnLog], [AllocLog], [MetaLog], [RestartLog],
    [PoolManager]) takes the input's length as fuel: each iteration consumes at
    least one byte, so it never runs out. [SafeBdev.AllocateBlocks] takes one more
    than the number of chunks, [BlockAllocator.assemble] one more than the number
    of free extents; both are proved to return. The buddy allocator's searches take
    one more than the length of the list they walk, and the cutting of a page one
    more than its bytes; [BuddySafety] proves that they return. The degraded read
    takes what it has to read, and is proved to return. The loop over the pages of
    a device takes [page_fuel], enough by [page_fuel_enough]; rounding a table's
    capacity up takes that capacity, enough by [round_up_enough]. Name
    resolution is cut at depth 256 by the code itself. The two loops of [DelTag]
    take a fuel argument: [DelTag_terminates] shows that enough fuel exists on a
    cycle-free namespace, and [rename_below_itself_never_deleted] that no fuel is
    enough on a cyclic one.

    ** Not modelled

    - Concurrency beyond the machines above, [heap_race], the order of
      [BuildParity] and a write, and the order of the logs of several workers:
      elsewhere the code holds a lock across, or runs on one worker, each operation
      treated as one step. Memory is sequentially consistent throughout.
    - Of the data path: invalidation of copies on other nodes, the mirrors in GPU
      memory, emulated times, time stamps and access counts, eviction and the
      target registry. The data organizers, whose scores are floating-point.
    - Of the bdev: the file and GPU transports, which are system calls and
      third-party libraries, and the [kNoop] device.
    - Of the transport primitives: the buddy allocator's [Compact], which only
      tests call, and private mode; [unordered_map_lhash], which nothing uses;
      lightbeam, codecs, solvers, introspection.
    - Of the runtime: worker lanes and schedulers, shared-memory and socket
      transports, wire formats, the timeouts of the retry queue (a schedule's
      choice), constructing and migrating containers, configuration, dynamic
      modules. What a container does to combine and split a batch is its own.
    - The search index over tag names and its regular expressions.
    - Adapters, wrappers, the client modules of the CTE, the assimilation,
      exploration and visualization engines, vendored code, benchmarks and tests. *)
From Stdlib Require Import ZArith Lia.
From coqutil Require Import Byte.
From stdpp Require Import base list numbers option.

(** Decide a closed decidable proposition by computation. *)
Ltac by_decide := apply (bool_decide_unpack _); vm_compute; exact I.

(** ** Machine integers

    A [uint8_t] is a [Byte.byte]; wider unsigned integers are [Z] values with
    the C++ wrap-around written out where the source computes. *)

Abbreviation u8 := Corelib.Init.Byte.byte (only parsing).

Definition u32 (z : Z) : Z := z mod 2 ^ 32.
Definition u64 (z : Z) : Z := z mod 2 ^ 64.

Lemma u32_small z : (0 <= z < 2 ^ 32)%Z -> u32 z = z.
Proof. apply Z.mod_small. Qed.

Lemma u64_small z : (0 <= z < 2 ^ 64)%Z -> u64 z = z.
Proof. apply Z.mod_small. Qed.

Lemma u32_range z : (0 <= u32 z < 2 ^ 32)%Z.
Proof. apply Z.mod_pos_bound. lia. Qed.

Lemma u64_range z : (0 <= u64 z < 2 ^ 64)%Z.
Proof. apply Z.mod_pos_bound. lia. Qed.

(** [uint64_t] indices kept as naturals. *)
Definition u64n (n : nat) : nat := Z.to_nat (u64 (Z.of_nat n)).

(** Tests of a range. *)
Lemma between_true (a i e : Z) : (a <= i < e)%Z -> ((a <=? i)%Z && (i <? e)%Z = true).
Proof. lia. Qed.

Lemma between_false (a i e : Z) : (~ a <= i < e)%Z -> ((a <=? i)%Z && (i <? e)%Z = false).
Proof. lia. Qed.

Lemma u64n_small n : (Z.of_nat n < 2 ^ 64)%Z -> u64n n = n.
Proof. intros H. unfold u64n. rewrite u64_small by lia. lia. Qed.

#[export] Instance byte_eq_dec : EqDecision Corelib.Init.Byte.byte := Stdlib.Strings.Byte.byte_eq_dec.

#[export] Instance byte_inhabited : Inhabited Corelib.Init.Byte.byte := populate Byte.x00.

(** ** Byte buffers: [buf[i]] with the C++ read of an in-range index. *)

Definition bget (l : list u8) (i : nat) : u8 := nth i l Byte.x00.

Lemma bget_lookup (l : list u8) i : i < length l -> l !! i = Some (bget l i).
Proof. intros H. unfold bget. rewrite nth_lookup. by destruct (lookup_lt_is_Some_2 l i H) as [x ->]. Qed.

Lemma bget_insert (l : list u8) i j x :
  i < length l -> bget (<[i:=x]> l) j = if decide (i = j) then x else bget l j.
Proof.
  intros H. unfold bget. rewrite !nth_lookup.
  case_decide as E; [subst; by rewrite list_lookup_insert_eq|].
  by rewrite list_lookup_insert_ne.
Qed.

Lemma bget_replicate n i : bget (replicate n Byte.x00) i = Byte.x00.
Proof. unfold bget. rewrite nth_lookup. destruct (_ !! i) eqn:E; [|done]. by apply lookup_replicate in E as [-> _]. Qed.

Lemma bget_eq (l l' : list u8) :
  length l = length l' -> (forall i, i < length l -> bget l i = bget l' i) -> l = l'.
Proof.
  intros Hlen H. apply list_eq. intros i.
  destruct (decide (i < length l)) as [Hi|Hi].
  - rewrite !bget_lookup by lia. by rewrite H.
  - rewrite !lookup_ge_None_2 by lia. done.
Qed.

(** ** Counted loops

    [for (i = 0; i < n; ++i) s = f(i, s)], and the same loop with an early
    [return false] ([None]). *)

Definition for_ {S : Type} (n : nat) (f : nat -> S -> S) (s : S) : S :=
  fold_left (fun s i => f i s) (seq 0 n) s.

Fixpoint for_from {S : Type} (i n : nat) (f : nat -> S -> option S) (s : S) : option S :=
  match n with
  | O => Some s
  | Datatypes.S n => match f i s with
                     | Some s' => for_from (Datatypes.S i) n f s'
                     | None => None
                     end
  end.

Definition for_opt {S : Type} (n : nat) (f : nat -> S -> option S) (s : S) : option S :=
  for_from 0 n f s.

Lemma for_S {S : Type} n (f : nat -> S -> S) s : for_ (Datatypes.S n) f s = f n (for_ n f s).
Proof. unfold for_. by rewrite seq_S, fold_left_app. Qed.

Lemma for_ind {S : Type} (P : nat -> S -> Prop) n f (s : S) :
  P 0 s -> (forall i s, i < n -> P i s -> P (Datatypes.S i) (f i s)) -> P n (for_ n f s).
Proof.
  intros H0 HS.
  assert (forall m, m <= n -> P m (for_ m f s)) as H; [|by apply H].
  induction m as [|m IH]; intros Hm; [done|].
  rewrite for_S. apply HS; [lia|]. apply IH. lia.
Qed.

Lemma for_from_ind {S : Type} (P : nat -> S -> Prop) n f (s s' : S) i :
  for_from i n f s = Some s' ->
  P i s ->
  (forall j s s', i <= j < i + n -> P j s -> f j s = Some s' -> P (Datatypes.S j) s') ->
  P (i + n) s'.
Proof.
  revert i s. induction n as [|n IH]; intros i s Hf H0 HS; simpl in Hf.
  - simplify_eq. by rewrite Nat.add_0_r.
  - destruct (f i s) as [s1|] eqn:E; [|done].
    replace (i + Datatypes.S n) with (Datatypes.S i + n) by lia.
    apply (IH _ s1 Hf).
    + apply (HS i s s1); [lia|done|done].
    + intros j t t' Hj. apply HS. lia.
Qed.

(** Partial correctness of a loop that may return early. *)
Lemma for_opt_ind {S : Type} (P : nat -> S -> Prop) n f (s s' : S) :
  for_opt n f s = Some s' ->
  P 0 s ->
  (forall i s s', i < n -> P i s -> f i s = Some s' -> P (Datatypes.S i) s') ->
  P n s'.
Proof.
  intros Hf H0 HS. apply (for_from_ind P n f s s' 0 Hf H0).
  intros j t t' Hj. apply HS. lia.
Qed.

(** Total correctness: the loop runs to its end. *)
Lemma for_opt_total {S : Type} (P : nat -> S -> Prop) n f (s : S) :
  P 0 s ->
  (forall i s, i < n -> P i s -> exists s', f i s = Some s' /\ P (Datatypes.S i) s') ->
  exists s', for_opt n f s = Some s' /\ P n s'.
Proof.
  unfold for_opt. intros H0 HS.
  enough (forall m i t, i + m = n -> P i t -> exists s', for_from i m f t = Some s' /\ P n s') as H.
  { by apply (H n 0). }
  induction m as [|m IH]; intros i t Hm Ht; simpl.
  - exists t. split; [done|]. by replace n with i by lia.
  - destruct (HS i t) as (t' & -> & Ht'); [lia|done|]. apply IH; [lia|done].
Qed.

(** A loop whose body mutates the state and may [return false]: the state
    reached at the return is kept. *)
Fixpoint for_ok_from {S : Type} (i n : nat) (f : nat -> S -> bool * S) (s : S) : bool * S :=
  match n with
  | O => (true, s)
  | Datatypes.S n => match f i s with
                     | (true, s') => for_ok_from (Datatypes.S i) n f s'
                     | (false, s') => (false, s')
                     end
  end.

Definition for_ok {S : Type} (n : nat) (f : nat -> S -> bool * S) (s : S) : bool * S :=
  for_ok_from 0 n f s.

(** Whatever the outcome, [P] holds if every step keeps it; a loop that ended
    with [true] went through all its steps. *)
Lemma for_ok_from_ind {S : Type} (P : nat -> S -> Prop) n f (s s' : S) i :
  for_ok_from i n f s = (true, s') ->
  P i s ->
  (forall j s s', i <= j < i + n -> P j s -> f j s = (true, s') -> P (Datatypes.S j) s') ->
  P (i + n) s'.
Proof.
  revert i s. induction n as [|n IH]; intros i s Hf H0 HS; simpl in Hf.
  - simplify_eq. by rewrite Nat.add_0_r.
  - destruct (f i s) as [[] s1] eqn:E; [|done].
    replace (i + Datatypes.S n) with (Datatypes.S i + n) by lia.
    apply (IH _ s1 Hf).
    + apply (HS i s s1); [lia|done|done].
    + intros j t t' Hj. apply HS. lia.
Qed.

Lemma for_ok_ind {S : Type} (P : nat -> S -> Prop) n f (s s' : S) :
  for_ok n f s = (true, s') ->
  P 0 s ->
  (forall i s s', i < n -> P i s -> f i s = (true, s') -> P (Datatypes.S i) s') ->
  P n s'.
Proof.
  intros Hf H0 HS. apply (for_ok_from_ind P n f s s' 0 Hf H0).
  intros j t t' Hj. apply HS. lia.
Qed.

(** An invariant of every step, kept whether or not the loop finished. *)
Lemma for_ok_inv {S : Type} (P : S -> Prop) n f (s s' : S) b :
  for_ok n f s = (b, s') -> P s ->
  (forall i s s' b, i < n -> P s -> f i s = (b, s') -> P s') -> P s'.
Proof.
  unfold for_ok. intros Hf H0 HS.
  enough (forall m i t, i + m = n -> P t -> for_ok_from i m f t = (b, s') -> P s') as H
    by (by apply (H n 0 s)).
  clear s Hf H0. induction m as [|m IH]; intros i t Hm Ht Hf; simpl in Hf; [by simplify_eq|].
  destruct (f i t) as [[] t'] eqn:E; [|simplify_eq].
  - apply (IH (Datatypes.S i) t'); [lia| |done]. eapply HS; [|exact Ht|exact E]. lia.
  - eapply HS; [|exact Ht|exact E]. lia.
Qed.

Lemma for_ok_total {S : Type} (P : nat -> S -> Prop) n f (s : S) :
  P 0 s ->
  (forall i s, i < n -> P i s -> exists s', f i s = (true, s') /\ P (Datatypes.S i) s') ->
  exists s', for_ok n f s = (true, s') /\ P n s'.
Proof.
  unfold for_ok. intros H0 HS.
  enough (forall m i t, i + m = n -> P i t -> exists s', for_ok_from i m f t = (true, s') /\ P n s') as H.
  { by apply (H n 0). }
  induction m as [|m IH]; intros i t Hm Ht; simpl.
  - exists t. split; [done|]. by replace n with i by lia.
  - destruct (HS i t) as (t' & -> & Ht'); [lia|done|]. apply IH; [lia|done].
Qed.

Lemma for_ok_ext {S : Type} n (f g : nat -> S -> bool * S) s :
  (forall i s, i < n -> f i s = g i s) -> for_ok n f s = for_ok n g s.
Proof.
  unfold for_ok. intros H. enough (forall m i s, i + m = n -> for_ok_from i m f s = for_ok_from i m g s) as Hm
    by (by apply Hm).
  clear s. induction m as [|m IH]; intros i s Hi; simpl; [done|].
  rewrite H by lia. destruct (g i s) as [[] s']; [|done]. apply IH. lia.
Qed.

Lemma for_opt_ext {S : Type} n (f g : nat -> S -> option S) s :
  (forall i s, i < n -> f i s = g i s) -> for_opt n f s = for_opt n g s.
Proof.
  unfold for_opt. intros H. enough (forall m i s, i + m = n -> for_from i m f s = for_from i m g s) as Hm
    by (by apply Hm).
  clear s. induction m as [|m IH]; intros i s Hi; simpl; [done|].
  rewrite H by lia. destruct (g i s) as [s'|]; [|done]. apply IH. lia.
Qed.

Lemma forallb_ext_in {A} (f g : A -> bool) l :
  (forall x, In x l -> f x = g x) -> forallb f l = forallb g l.
Proof.
  induction l as [|x l IH]; intros H; [done|]. cbn. rewrite H by (by left).
  f_equal. apply IH. intros y Hy. apply H. by right.
Qed.

Lemma filter_all {A} (P : A -> Prop) `{!forall x, Decision (P x)} (l : list A) :
  Forall P l -> filter P l = l.
Proof. induction 1 as [|x l Hx _ IH]; [done|]. rewrite filter_cons, decide_True by done. by rewrite IH. Qed.

(** ** Sums over lists *)

Definition zsum {A} (f : A -> Z) (l : list A) : Z := foldr (fun x acc => (f x + acc)%Z) 0%Z l.

Lemma zsum_app {A} (f : A -> Z) l l' : zsum f (l ++ l') = (zsum f l + zsum f l')%Z.
Proof. unfold zsum. induction l as [|x l IH]; cbn; [done|]. rewrite IH. lia. Qed.

Lemma zsum_cons {A} (f : A -> Z) x l : zsum f (x :: l) = (f x + zsum f l)%Z.
Proof. done. Qed.

Lemma zsum_Permutation {A} (f : A -> Z) l l' : l ≡ₚ l' -> zsum f l = zsum f l'.
Proof. unfold zsum. induction 1; cbn; lia. Qed.

Lemma zsum_ext {A} (f g : A -> Z) l : Forall (fun x => f x = g x) l -> zsum f l = zsum g l.
Proof. unfold zsum. induction 1 as [|x l E _ IH]; cbn; [done|]. by rewrite E, IH. Qed.

Lemma zsum_nonneg {A} (f : A -> Z) l : Forall (fun x => (0 <= f x)%Z) l -> (0 <= zsum f l)%Z.
Proof. unfold zsum. induction 1; cbn; lia. Qed.

(** ** Little-endian integers *)

Fixpoint le_bytes (n : nat) (z : Z) : list u8 :=
  match n with
  | O => []
  | Datatypes.S n => byte.of_Z z :: le_bytes n (z / 256)%Z
  end.

Fixpoint le_value (bs : list u8) : Z :=
  match bs with
  | [] => 0
  | b :: bs => (byte.unsigned b + 256 * le_value bs)%Z
  end.

Lemma length_le_bytes n z : length (le_bytes n z) = n.
Proof. revert z. induction n as [|n IH]; intros z; cbn; [done|]. by rewrite IH. Qed.

Lemma le_value_range bs : (0 <= le_value bs < 256 ^ Z.of_nat (length bs))%Z.
Proof.
  induction bs as [|b bs IH]; [cbn; lia|]. cbn [le_value length]. pose proof (byte.unsigned_range b).
  rewrite Nat2Z.inj_succ, Z.pow_succ_r by lia. lia.
Qed.

Lemma le_value_bytes n z : (0 <= z < 256 ^ Z.of_nat n)%Z -> le_value (le_bytes n z) = z.
Proof.
  revert z. induction n as [|n IH]; intros z Hz; [cbn in *; lia|].
  rewrite Nat2Z.inj_succ, Z.pow_succ_r in Hz by lia. cbn [le_bytes le_value].
  rewrite byte.unsigned_of_Z, IH by (split; [apply Z.div_pos; lia|apply Z.div_lt_upper_bound; lia]).
  unfold byte.wrap. change (2 ^ 8)%Z with 256%Z. pose proof (Z.div_mod z 256). lia.
Qed.

Lemma le_bytes_value bs : le_bytes (length bs) (le_value bs) = bs.
Proof.
  induction bs as [|b bs IH]; [done|]. cbn [length le_bytes le_value]. pose proof (byte.unsigned_range b).
  f_equal.
  - apply byte.unsigned_inj. rewrite byte.unsigned_of_Z. unfold byte.wrap. change (2 ^ 8)%Z with 256%Z.
    rewrite Z.mul_comm, Z.mod_add by lia. apply Z.mod_small. lia.
  - rewrite Z.mul_comm, Z.div_add, Z.div_small by lia. exact IH.
Qed.

(** ** Reading a byte stream: a short read fails and consumes nothing. *)

Definition get_bytes (n : nat) (bs : list u8) : option (list u8 * list u8) :=
  if decide (n <= length bs) then Some (take n bs, drop n bs) else None.

Definition get_le (n : nat) (bs : list u8) : option (Z * list u8) :=
  match get_bytes n bs with
  | Some (b, bs) => Some (le_value b, bs)
  | None => None
  end.

Lemma get_bytes_app n b rest : length b = n -> get_bytes n (b ++ rest) = Some (b, rest).
Proof.
  intros <-. unfold get_bytes. rewrite decide_True by (rewrite length_app; lia).
  by rewrite take_app_length, drop_app_length.
Qed.

Lemma get_bytes_Some n bs b rest : get_bytes n bs = Some (b, rest) -> bs = b ++ rest /\ length b = n.
Proof.
  unfold get_bytes. case_decide; [|done]. intros [= <- <-]. rewrite take_drop, length_take. split; [done|lia].
Qed.

Lemma get_bytes_short n bs : length bs < n -> get_bytes n bs = None.
Proof. intros H. unfold get_bytes. by rewrite decide_False by lia. Qed.

Lemma get_le_app n z rest :
  (0 <= z < 256 ^ Z.of_nat n)%Z -> get_le n (le_bytes n z ++ rest) = Some (z, rest).
Proof. intros Hz. unfold get_le. by rewrite get_bytes_app, le_value_bytes by (done || apply length_le_bytes). Qed.

Lemma get_le_Some n bs z rest :
  get_le n bs = Some (z, rest) -> bs = le_bytes n z ++ rest /\ (0 <= z < 256 ^ Z.of_nat n)%Z.
Proof.
  unfold get_le. destruct (get_bytes n bs) as [[b r]|] eqn:E; [|done]. intros [= <- <-].
  apply get_bytes_Some in E as [-> <-]. rewrite le_bytes_value. split; [done|apply le_value_range].
Qed.

Lemma get_le_short n bs : length bs < n -> get_le n bs = None.
Proof. intros H. unfold get_le. by rewrite get_bytes_short. Qed.

Lemma get_le_length n bs z rest : get_le n bs = Some (z, rest) -> length bs = n + length rest.
Proof. intros H. apply get_le_Some in H as [-> _]. by rewrite length_app, length_le_bytes. Qed.

Lemma get_bytes_total n bs :
  n <= length bs -> exists b rest, get_bytes n bs = Some (b, rest) /\ length bs = n + length rest.
Proof.
  intros H. unfold get_bytes. rewrite decide_True by done. do 2 eexists. split; [done|]. rewrite length_drop. lia.
Qed.

Lemma get_le_total n bs :
  n <= length bs -> exists z rest, get_le n bs = Some (z, rest) /\ length bs = n + length rest.
Proof.
  intros H. unfold get_le. destruct (get_bytes_total n bs H) as (b & rest & -> & Hl). eauto.
Qed.

(** A prefix of a concatenation: whole pieces, then part of the next one. *)
Lemma take_concat_map {A} (f : A -> list u8) (l : list A) (n : nat) :
  exists j, let m := length (concat (map f (take j l))) in
    j <= length l /\ m <= n /\
    take n (concat (map f l)) = concat (map f (take j l)) ++ match l !! j with Some x => take (n - m) (f x) | None => [] end /\
    forall x, l !! j = Some x -> n - m < length (f x).
Proof.
  revert n. induction l as [|x l IH]; intros n.
  - exists 0. cbn. rewrite take_nil. repeat split; lia || done.
  - cbn [map concat]. destruct (decide (n < length (f x))) as [Hn|Hn].
    + exists 0. cbn. rewrite Nat.sub_0_r, take_app_le by lia. repeat split; [lia|lia|]. by intros y [= <-].
    + destruct (IH (n - length (f x))) as (j & Hj & Hm & E & Hlt). exists (Datatypes.S j).
      cbn [take map concat length lookup list_lookup]. rewrite length_app. split; [lia|]. split; [lia|].
      replace (n - (length (f x) + length (concat (map f (take j l)))))
        with (n - length (f x) - length (concat (map f (take j l)))) by lia.
      split; [|exact Hlt]. rewrite take_app_ge by lia. by rewrite E, <- app_assoc.
Qed.
