(* ===== verification/Threads.v ===== *)
(** What the step machines share: how many threads of a list are in a given part of
    the code, and how the number moves when one thread does. *)
From Stdlib Require Import ZArith Lia.
From stdpp Require Import base list.
From S2P Require Import Prelude.

Section Count.
Context {T : Type}.
Implicit Types (p : T -> bool) (ts : list T) (t : T).

Definition count p ts : nat := length (List.filter p ts).

Lemma count_insert p ts i t t' : ts !! i = Some t ->
  (count p (<[i := t']> ts) + Nat.b2n (p t) = count p ts + Nat.b2n (p t'))%nat.
Proof.
  intros Hi. rewrite <- (take_drop_middle ts i t Hi) at 2. rewrite insert_take_drop by by eapply lookup_lt_Some.
  unfold count. rewrite !List.filter_app. cbn. destruct (p t), (p t'); rewrite ?length_app; cbn; lia.
Qed.

Lemma count_length p ts : (count p ts <= length ts)%nat.
Proof. unfold count. induction ts as [|t ts IH]; cbn; [lia|]. destruct (p t); cbn; lia. Qed.

Lemma count_zero p ts i t : count p ts = 0%nat -> ts !! i = Some t -> p t = false.
Proof.
  unfold count. intros H Hi. apply length_zero_iff_nil in H. destruct (p t) eqn:E; [|done].
  assert (In t (List.filter p ts)) as Hin by (apply filter_In; split; [by apply list_elem_of_In; eapply list_elem_of_lookup_2|done]).
  by rewrite H in Hin.
Qed.

Lemma count_pos p ts : count p ts <> 0%nat -> exists i t, ts !! i = Some t /\ p t = true.
Proof.
  unfold count. intros H. destruct (List.filter p ts) as [|t l] eqn:E; [done|].
  assert (In t (List.filter p ts)) as Hin by (rewrite E; by left). apply filter_In in Hin as [Hin Hp].
  apply list_elem_of_In, list_elem_of_lookup_1 in Hin as [i Hi]. eauto.
Qed.

Lemma count_none p ts : (forall i t, ts !! i = Some t -> p t = false) -> count p ts = 0%nat.
Proof.
  intros Hp. destruct (decide (count p ts = 0%nat)) as [|Hc]; [done|]. apply count_pos in Hc as (i & t & Hi & Ht).
  by rewrite (Hp i t Hi) in Ht.
Qed.

Lemma count_mono p p' ts : (forall t, p t = true -> p' t = true) -> (count p ts <= count p' ts)%nat.
Proof.
  intros Hp. unfold count. induction ts as [|t ts IH]; [done|]. cbn. specialize (Hp t).
  destruct (p t), (p' t); cbn; try lia; by specialize (Hp eq_refl).
Qed.

(** There is room to count one more thread. *)
Lemma count_room p ts i t t' : ts !! i = Some t -> p t' = true -> (count p ts + 1 <= length ts + Nat.b2n (p t))%nat.
Proof.
  intros Hi Ht. pose proof (count_insert p ts i t t' Hi) as E. pose proof (count_length p (<[i := t']> ts)) as L.
  rewrite length_insert, Ht in *. cbn in E. lia.
Qed.

(** Looking up a thread after thread [i] has moved. *)
Lemma lookup_moved ts i t t' j u : ts !! i = Some t -> <[i := t']> ts !! j = Some u -> (j = i /\ u = t') \/ (j <> i /\ ts !! j = Some u).
Proof.
  intros Hi Hj. destruct (decide (i = j)) as [<-|Hne].
  - rewrite list_lookup_insert_eq in Hj by by eapply lookup_lt_Some. left. by injection Hj.
  - rewrite list_lookup_insert_ne in Hj by done. right. auto.
Qed.
End Count.
Arguments count : simpl never.
