(* ===== verification/Gf256.v ===== *)
(** Arithmetic over GF(2^8): [safe_bdev/ec/gf256.h].

    The log/exp tables are built by the constructor's own loops; the field
    operations read them as the code does. The laws of the field are derived
    from the table's recurrence (multiplication by [x] is linear), and the
    multiplication is shown to be carry-less polynomial multiplication modulo
    0x11d, which is what the header promises. *)
From Stdlib Require Import ZArith Lia Ring Field.
From coqutil Require Import Byte.
From stdpp Require Import base list.
From S2P Require Import Prelude.
Local Open Scope Z_scope.

Definition kGfPrimitivePoly : Z := 0x11d.

(** [struct GfTables]. *)
Record GfTables := mkGfTables { tbl_exp : list u8; tbl_log : list u8 }.

(** The loop state of the constructor: [x] and the two arrays. *)
Definition GfTables_step (i : nat) (st : Z * GfTables) : Z * GfTables :=
  let '(x, t) := st in
  let e := <[i := byte.of_Z x]> (tbl_exp t) in
  let l := <[Z.to_nat x := byte.of_Z (Z.of_nat i)]> (tbl_log t) in
  let x := Z.shiftl x 1 in
  let x := if Z.land x 0x100 =? 0 then x else Z.lxor x kGfPrimitivePoly in
  (x, mkGfTables e l).

Definition GfTables_dup (i : nat) (t : GfTables) : GfTables :=
  mkGfTables (<[(255 + i)%nat := bget (tbl_exp t) i]> (tbl_exp t)) (tbl_log t).

Definition GfTables_build : GfTables :=
  let init := mkGfTables (replicate 512 Byte.x00) (replicate 256 Byte.x00) in
  let '(_, t) := for_ 255 GfTables_step (1, init) in
  let t := for_ 257 GfTables_dup t in
  mkGfTables (tbl_exp t) (<[0%nat := Byte.x00]> (tbl_log t)).

(** The shared instance: the tables, evaluated once. *)
Definition GfTablesInstance : GfTables := Eval vm_compute in GfTables_build.

Definition t_exp (i : nat) : u8 := bget (tbl_exp GfTablesInstance) i.
Definition t_log (a : u8) : nat :=
  Z.to_nat (byte.unsigned (bget (tbl_log GfTablesInstance) (Z.to_nat (byte.unsigned a)))).

Definition GfAdd (a b : u8) : u8 := byte.xor a b.

Definition GfMul (a b : u8) : u8 :=
  if decide (a = Byte.x00) then Byte.x00
  else if decide (b = Byte.x00) then Byte.x00
  else t_exp (t_log a + t_log b).

Definition GfInv (a : u8) : u8 := t_exp (255 - t_log a).

Definition GfDiv (a b : u8) : u8 :=
  if decide (a = Byte.x00) then Byte.x00
  else t_exp (Z.to_nat (Z.of_nat (t_log a) - Z.of_nat (t_log b) + 255)).

(** [GfMulAddRegion(dst, src, coeff, len)] returns the updated [dst]. *)
Definition GfMulAddRegion (dst src : list u8) (coeff : u8) (len : nat) : list u8 :=
  if decide (coeff = Byte.x00) then dst
  else
    let log_c := t_log coeff in
    for_ len (fun i dst =>
      let s := bget src i in
      if decide (s = Byte.x00) then dst
      else <[i := byte.xor (bget dst i) (t_exp (log_c + t_log s))]> dst) dst.

(** * The tables *)

Lemma GfTablesInstance_eq : GfTablesInstance = GfTables_build.
Proof. vm_compute. reflexivity. Qed.

(** Every byte, for finite case checks. *)
Definition all_bytes : list u8 := map (fun i => byte.of_Z (Z.of_nat i)) (seq 0 256).

Lemma all_bytes_in (b : u8) : In b all_bytes.
Proof.
  unfold all_bytes. apply in_map_iff. exists (Z.to_nat (byte.unsigned b)).
  pose proof (byte.unsigned_range b).
  split; [rewrite Z2Nat.id by lia; apply byte.of_Z_unsigned|]. apply in_seq. lia.
Qed.

Lemma byte_forall (P : u8 -> bool) : forallb P all_bytes = true -> forall b, P b = true.
Proof. intros H b. rewrite forallb_forall in H. apply H, all_bytes_in. Qed.

Definition byte_eqb (a b : u8) : bool := bool_decide (a = b).

(** Multiplication by the generator [x]. *)
Definition xtime (b : u8) : u8 :=
  let x := Z.shiftl (byte.unsigned b) 1 in
  byte.of_Z (if Z.land x 0x100 =? 0 then x else Z.lxor x kGfPrimitivePoly).

Definition gpow (n : nat) : u8 := Nat.iter n xtime Byte.x01.

Ltac byte_cases := apply byte_forall; vm_compute; reflexivity.

(** * Linearity of [xtime] *)

Lemma byte_xor_unsigned a b :
  byte.unsigned (byte.xor a b) = Z.lxor (byte.unsigned a) (byte.unsigned b).
Proof.
  unfold byte.xor. rewrite byte.unsigned_of_Z. unfold byte.wrap.
  rewrite <- (byte.wrap_unsigned a), <- (byte.wrap_unsigned b). unfold byte.wrap.
  rewrite <- !(Z.land_ones _ 8) by lia.
  apply Z.bits_inj'; intros n Hn.
  rewrite ?Z.land_spec, ?Z.lxor_spec, ?Z.land_spec.
  destruct (Z.testbit (Z.ones 8) n); by rewrite ?andb_true_r, ?andb_false_r.
Qed.

Lemma byte_xor_assoc a b c : byte.xor a (byte.xor b c) = byte.xor (byte.xor a b) c.
Proof. apply byte.unsigned_inj. rewrite !byte_xor_unsigned. symmetry. apply Z.lxor_assoc. Qed.

Lemma byte_xor_comm a b : byte.xor a b = byte.xor b a.
Proof. unfold byte.xor. by rewrite Z.lxor_comm. Qed.

Lemma byte_xor_0_l a : byte.xor Byte.x00 a = a.
Proof. apply byte.of_Z_unsigned. Qed.

Lemma byte_xor_nilpotent a : byte.xor a a = Byte.x00.
Proof. apply byte.unsigned_inj. by rewrite byte_xor_unsigned, Z.lxor_nilpotent. Qed.

(** [xtime] is a shift and a conditional reduction by the polynomial. *)
Definition carry (b : u8) : bool := Z.testbit (byte.unsigned b) 7.

Lemma xtime_unsigned b :
  byte.unsigned (xtime b) =
  Z.lxor (Z.shiftl (byte.unsigned b) 1) (if carry b then kGfPrimitivePoly else 0).
Proof.
  apply Z.eqb_eq.
  apply (byte_forall (fun b => byte.unsigned (xtime b) =?
    Z.lxor (Z.shiftl (byte.unsigned b) 1) (if carry b then kGfPrimitivePoly else 0))).
  vm_compute. reflexivity.
Qed.

Lemma xtime_xor a b : xtime (byte.xor a b) = byte.xor (xtime a) (xtime b).
Proof.
  apply byte.unsigned_inj. rewrite byte_xor_unsigned, !xtime_unsigned.
  assert (carry (byte.xor a b) = xorb (carry a) (carry b)) as ->.
  { unfold carry. by rewrite byte_xor_unsigned, Z.lxor_spec. }
  rewrite byte_xor_unsigned, Z.shiftl_lxor.
  destruct (carry a), (carry b); simpl xorb; cbn iota;
    apply Z.bits_inj'; intros n _; rewrite ?Z.lxor_spec, ?Z.bits_0;
    generalize (Z.testbit kGfPrimitivePoly n); intros p;
    destruct (Z.testbit _ n), (Z.testbit _ n), p; reflexivity.
Qed.

Lemma iter_xtime_xor n a b :
  Nat.iter n xtime (byte.xor a b) = byte.xor (Nat.iter n xtime a) (Nat.iter n xtime b).
Proof. induction n as [|n IH]; [done|]. by rewrite !Nat.iter_succ, IH, xtime_xor. Qed.

Lemma iter_xtime_0 n : Nat.iter n xtime Byte.x00 = Byte.x00.
Proof. induction n as [|n IH]; [done|]. by rewrite Nat.iter_succ, IH. Qed.

Lemma xtime_nonzero b : xtime b = Byte.x00 -> b = Byte.x00.
Proof.
  assert (forall b, implb (byte_eqb (xtime b) Byte.x00) (byte_eqb b Byte.x00) = true) as H by byte_cases.
  specialize (H b). unfold byte_eqb in H. intros E.
  rewrite bool_decide_true in H by done. cbn in H. by apply bool_decide_eq_true in H.
Qed.

Lemma gpow_nonzero n : gpow n <> Byte.x00.
Proof.
  induction n as [|n IH]; [done|]. intros E. by apply xtime_nonzero in E.
Qed.

Lemma gpow_add i j : gpow (i + j) = Nat.iter i xtime (gpow j).
Proof. unfold gpow. by rewrite Nat.iter_add. Qed.

(** * What the tables hold *)

Lemma t_exp_gpow i : (i < 512)%nat -> t_exp i = gpow i.
Proof.
  assert (forallb (fun i => byte_eqb (t_exp (S i)) (xtime (t_exp i))) (seq 0 511) = true) as H
    by (vm_compute; reflexivity).
  rewrite forallb_forall in H.
  induction i as [|i IH]; intros Hi; [reflexivity|].
  specialize (H i). rewrite in_seq in H. unfold byte_eqb in H. rewrite bool_decide_eq_true in H.
  rewrite H, IH by lia. reflexivity.
Qed.

Lemma t_log_lt a : (t_log a < 255)%nat.
Proof.
  apply Nat.ltb_lt. apply (byte_forall (fun a => (t_log a <? 255)%nat)). vm_compute. reflexivity.
Qed.

Lemma t_exp_log a : a <> Byte.x00 -> t_exp (t_log a) = a.
Proof.
  assert (forall a, byte_eqb a Byte.x00 || byte_eqb (t_exp (t_log a)) a = true) as H by byte_cases.
  intros Ha. specialize (H a). apply orb_true_iff in H as [H|H];
    unfold byte_eqb in H; by apply bool_decide_eq_true in H.
Qed.

Lemma gpow_log a : a <> Byte.x00 -> gpow (t_log a) = a.
Proof. intros H. rewrite <- t_exp_gpow by (pose proof (t_log_lt a); lia). by apply t_exp_log. Qed.

Lemma gpow_255 : gpow 255 = Byte.x01.
Proof. vm_compute. reflexivity. Qed.

(** * The operations in terms of [gpow] *)

Lemma GfMul_iter a b : a <> Byte.x00 -> GfMul a b = Nat.iter (t_log a) xtime b.
Proof.
  intros Ha. unfold GfMul. rewrite decide_False by done. case_decide as Hb.
  - subst. by rewrite iter_xtime_0.
  - pose proof (t_log_lt a). pose proof (t_log_lt b).
    rewrite t_exp_gpow by lia. rewrite gpow_add. by rewrite gpow_log.
Qed.

Lemma GfMul_gpow i b : GfMul (gpow i) b = Nat.iter i xtime b.
Proof.
  rewrite GfMul_iter by apply gpow_nonzero.
  destruct (decide (b = Byte.x00)) as [->|Hb]; [by rewrite !iter_xtime_0|].
  rewrite <- (gpow_log b Hb), <- !gpow_add, !(Nat.add_comm _ (t_log b)), !gpow_add.
  f_equal. apply gpow_log, gpow_nonzero.
Qed.

Lemma GfMul_0_l b : GfMul Byte.x00 b = Byte.x00.
Proof. reflexivity. Qed.

Lemma GfMul_0_r a : GfMul a Byte.x00 = Byte.x00.
Proof. unfold GfMul. by destruct (decide (a = _)). Qed.

Lemma GfMul_1_l a : GfMul Byte.x01 a = a.
Proof. change Byte.x01 with (gpow 0). by rewrite GfMul_gpow. Qed.

Lemma GfMul_comm a b : GfMul a b = GfMul b a.
Proof. unfold GfMul. do 2 case_decide; try done. by rewrite Nat.add_comm. Qed.

Lemma gf_nonzero_gpow a : a = Byte.x00 \/ exists i, a = gpow i.
Proof.
  destruct (decide (a = Byte.x00)) as [->|Ha]; [by left|].
  right. exists (t_log a). by rewrite gpow_log.
Qed.

Lemma GfMul_assoc a b c : GfMul a (GfMul b c) = GfMul (GfMul a b) c.
Proof.
  destruct (gf_nonzero_gpow a) as [->|[i ->]]; [by rewrite !GfMul_0_l|].
  destruct (gf_nonzero_gpow b) as [->|[j ->]]; [by rewrite GfMul_0_l, !GfMul_0_r|].
  by rewrite (GfMul_gpow i (gpow j)), <- gpow_add, !GfMul_gpow, Nat.iter_add.
Qed.

Lemma GfMul_add_r a b c : GfMul a (GfAdd b c) = GfAdd (GfMul a b) (GfMul a c).
Proof.
  destruct (gf_nonzero_gpow a) as [->|[i ->]]; [reflexivity|].
  rewrite !GfMul_gpow. apply iter_xtime_xor.
Qed.

Lemma GfMul_add_l a b c : GfMul (GfAdd a b) c = GfAdd (GfMul a c) (GfMul b c).
Proof. by rewrite !(GfMul_comm _ c), GfMul_add_r. Qed.

Lemma GfInv_l a : a <> Byte.x00 -> GfMul (GfInv a) a = Byte.x01.
Proof.
  intros Ha. unfold GfInv. pose proof (t_log_lt a).
  rewrite t_exp_gpow by lia. rewrite <- (gpow_log a Ha) at 2.
  rewrite GfMul_gpow, <- gpow_add. replace (255 - t_log a + t_log a)%nat with 255%nat by lia.
  apply gpow_255.
Qed.

Lemma GfDiv_mul a b : GfDiv a b = GfMul a (GfInv b).
Proof.
  unfold GfDiv, GfInv. case_decide as Ha; [by subst|].
  pose proof (t_log_lt a). pose proof (t_log_lt b).
  rewrite !t_exp_gpow by lia. rewrite GfMul_iter by done. rewrite <- gpow_add. f_equal. lia.
Qed.

Lemma GfMul_integral a b : GfMul a b = Byte.x00 -> a = Byte.x00 \/ b = Byte.x00.
Proof.
  intros E. destruct (gf_nonzero_gpow a) as [->|[i ->]]; [by left|].
  destruct (gf_nonzero_gpow b) as [->|[j ->]]; [by right|].
  rewrite GfMul_gpow, <- gpow_add in E. by apply gpow_nonzero in E.
Qed.

(** * GF(2^8) as a field, for [ring] and [field]

    Coefficients are booleans (characteristic 2), so [ring] knows [x + x = 0]. *)

Definition GfOpp (a : u8) : u8 := a.
Definition GfSub (a b : u8) : u8 := GfAdd a b.

Lemma GfAdd_0_l a : GfAdd Byte.x00 a = a.
Proof. apply byte_xor_0_l. Qed.
Lemma GfAdd_comm a b : GfAdd a b = GfAdd b a.
Proof. apply byte_xor_comm. Qed.
Lemma GfAdd_0_r a : GfAdd a Byte.x00 = a.
Proof. by rewrite GfAdd_comm, GfAdd_0_l. Qed.
Lemma GfAdd_assoc a b c : GfAdd a (GfAdd b c) = GfAdd (GfAdd a b) c.
Proof. apply byte_xor_assoc. Qed.
Lemma GfAdd_self a : GfAdd a a = Byte.x00.
Proof. apply byte_xor_nilpotent. Qed.
Lemma GfAdd_eq_0 a b : GfAdd a b = Byte.x00 -> a = b.
Proof.
  intros E. rewrite <- (GfAdd_0_r a), <- (GfAdd_self b), GfAdd_assoc, E. apply GfAdd_0_l.
Qed.

Lemma gf_ring_theory : ring_theory Byte.x00 Byte.x01 GfAdd GfMul GfSub GfOpp eq.
Proof.
  constructor.
  - apply GfAdd_0_l.
  - apply GfAdd_comm.
  - apply GfAdd_assoc.
  - apply GfMul_1_l.
  - apply GfMul_comm.
  - apply GfMul_assoc.
  - intros. apply GfMul_add_l.
  - reflexivity.
  - apply GfAdd_self.
Qed.

Lemma gf_field_theory :
  field_theory Byte.x00 Byte.x01 GfAdd GfMul GfSub GfOpp GfDiv GfInv eq.
Proof.
  constructor; [apply gf_ring_theory|discriminate|apply GfDiv_mul|apply GfInv_l].
Qed.

Definition gf_of_bool (b : bool) : u8 := if b then Byte.x01 else Byte.x00.

Lemma gf_morph :
  ring_morph Byte.x00 Byte.x01 GfAdd GfMul GfSub GfOpp eq
             false true xorb andb xorb (fun b => b) Bool.eqb gf_of_bool.
Proof.
  constructor; try reflexivity;
    try (intros [] []; reflexivity).
  - intros x y E. by apply eqb_prop in E as ->.
Qed.

Ltac gf_const t :=
  match t with
  | Byte.x00 => constr:(false)
  | Byte.x01 => constr:(true)
  | _ => InitialRing.NotConstant
  end.

Add Field GfField : gf_field_theory (morphism gf_morph, constants [gf_const]).

Declare Scope gf_scope.
Delimit Scope gf_scope with gf.
Infix "+" := GfAdd : gf_scope.
Infix "*" := GfMul : gf_scope.
Infix "-" := GfSub : gf_scope.
Infix "/" := GfDiv : gf_scope.
Notation "0" := Byte.x00 : gf_scope.
Notation "1" := Byte.x01 : gf_scope.

Lemma GfSub_eq_0 a b : GfSub a b = Byte.x00 -> a = b.
Proof. apply GfAdd_eq_0. Qed.

Lemma GfInv_nonzero a : a <> Byte.x00 -> GfInv a <> Byte.x00.
Proof. intros Ha E. pose proof (GfInv_l a Ha) as H. rewrite E in H. discriminate H. Qed.

Create HintDb gf.
Create Rewrite HintDb gf.
#[export] Hint Resolve GfInv_nonzero : gf.
#[export] Hint Rewrite GfAdd_0_l GfAdd_0_r GfMul_0_l GfMul_0_r GfMul_1_l GfAdd_self : gf.


(** * The specification: polynomials over GF(2)

    A polynomial is the integer whose bits are its coefficients. [clmul] is the
    carry-less product; [gf_congr z r] says that [r] is [z] reduced modulo
    0x11d: they differ by a multiple of the polynomial. *)

Fixpoint clmul_pos (a : Z) (b : positive) : Z :=
  match b with
  | xH => a
  | xO p => Z.shiftl (clmul_pos a p) 1
  | xI p => Z.lxor a (Z.shiftl (clmul_pos a p) 1)
  end.

Definition clmul (a b : Z) : Z :=
  match b with Zpos p => clmul_pos a p | _ => 0 end.

Definition gf_congr (z r : Z) : Prop := exists q, 0 <= q /\ Z.lxor z r = clmul kGfPrimitivePoly q.

Lemma clmul_shiftl a q : 0 <= q -> clmul a (2 * q) = Z.shiftl (clmul a q) 1.
Proof. destruct q as [|p|p]; [reflexivity|reflexivity|lia]. Qed.

Lemma clmul_bit a q (b : bool) :
  0 <= q -> clmul a (2 * q + Z.b2z b) = Z.lxor (if b then a else 0) (Z.shiftl (clmul a q) 1).
Proof.
  intros Hq. destruct b; cbn [Z.b2z].
  - destruct q as [|p|p]; [|reflexivity|lia]. cbn. by rewrite Z.lxor_0_r.
  - by rewrite Z.add_0_r, clmul_shiftl, Z.lxor_0_l by lia.
Qed.

Lemma Z_bit_split z : z = 2 * Z.div2 z + Z.b2z (Z.odd z).
Proof. apply Z.div2_odd. Qed.

Ltac xor_bits :=
  apply Z.bits_inj'; intros n _; rewrite ?Z.lxor_spec, ?Z.bits_0;
  repeat match goal with |- context [Z.testbit ?x n] => generalize (Z.testbit x n); intros [] end;
  reflexivity.

Lemma clmul_lxor a q q' : 0 <= q -> 0 <= q' -> clmul a (Z.lxor q q') = Z.lxor (clmul a q) (clmul a q').
Proof.
  intros Hq. revert q'. pattern q. apply Zlt_0_ind; [|done]. clear q Hq.
  intros q IH Hq q' Hq'.
  destruct (decide (q = 0)) as [->|Hnz]; [by rewrite !Z.lxor_0_l|].
  assert (0 <= Z.div2 q < q) as Hd.
  { rewrite Z.div2_div. pose proof (Z.div_pos q 2). pose proof (Z.div_lt q 2). lia. }
  assert (0 <= Z.div2 q') as Hd' by (rewrite Z.div2_div; apply Z.div_pos; lia).
  assert (Z.lxor q q' = 2 * Z.lxor (Z.div2 q) (Z.div2 q') + Z.b2z (xorb (Z.odd q) (Z.odd q'))) as ->.
  { rewrite (Z_bit_split (Z.lxor q q')). f_equal.
    - f_equal. by rewrite Z.div2_spec, Z.shiftr_lxor, <- !Z.div2_spec.
    - by rewrite <- !Z.bit0_odd, Z.lxor_spec. }
  rewrite clmul_bit by (apply Z.lxor_nonneg; lia). rewrite IH by lia.
  rewrite (Z_bit_split q) at 3. rewrite (Z_bit_split q') at 3. rewrite !clmul_bit by lia.
  rewrite Z.shiftl_lxor. destruct (Z.odd q), (Z.odd q'); cbn [xorb]; xor_bits.
Qed.

Lemma gf_congr_refl z : gf_congr z z.
Proof. exists 0. split; [lia|]. apply Z.lxor_nilpotent. Qed.

Lemma gf_congr_lxor z r z' r' : gf_congr z r -> gf_congr z' r' -> gf_congr (Z.lxor z z') (Z.lxor r r').
Proof.
  intros (q & Hq & E) (q' & Hq' & E'). exists (Z.lxor q q').
  split; [apply Z.lxor_nonneg; lia|]. rewrite clmul_lxor by done. rewrite <- E, <- E'. xor_bits.
Qed.

Lemma gf_congr_xtime z b : gf_congr z (byte.unsigned b) -> gf_congr (Z.shiftl z 1) (byte.unsigned (xtime b)).
Proof.
  intros (q & Hq & E). exists (2 * q + Z.b2z (carry b)).
  split; [destruct (carry b); cbn; lia|].
  rewrite clmul_bit, <- E, xtime_unsigned, Z.shiftl_lxor by done. xor_bits.
Qed.

(** Russian-peasant evaluation of the table product. *)
Lemma GfMul_double a b : byte.unsigned b < 128 ->
  GfMul a (byte.of_Z (2 * byte.unsigned b)) = xtime (GfMul a b).
Proof.
  intros Hb. assert (byte.of_Z (2 * byte.unsigned b) = xtime b) as ->.
  { apply byte.unsigned_inj. rewrite byte.unsigned_of_Z, xtime_unsigned. unfold carry.
    pose proof (byte.unsigned_range b).
    assert (Z.testbit (byte.unsigned b) 7 = false) as ->.
    { rewrite Z.testbit_false, Z.div_small by lia. done. }
    rewrite Z.lxor_0_r, Z.shiftl_mul_pow2 by lia. unfold byte.wrap. rewrite Z.mod_small; lia. }
  destruct (gf_nonzero_gpow a) as [->|[i ->]]; [reflexivity|].
  by rewrite !GfMul_gpow, <- Nat.iter_succ, Nat.iter_succ_r.
Qed.

Lemma GfMul_peasant a b : 0 <= b < 256 -> gf_congr (clmul (byte.unsigned a) b) (byte.unsigned (GfMul a (byte.of_Z b))).
Proof.
  intros [Hb0 Hb]. revert Hb. pattern b. apply Zlt_0_ind; [|done]. clear b Hb0.
  intros b IH Hb0 Hb.
  destruct (decide (b = 0)) as [->|Hnz].
  { change (byte.of_Z 0) with Byte.x00. rewrite GfMul_0_r. apply gf_congr_refl. }
  assert (0 <= Z.div2 b < b /\ 2 * Z.div2 b <= b) as [Hd Hd2].
  { rewrite Z.div2_div. pose proof (Z.div_pos b 2). pose proof (Z.div_lt b 2).
    pose proof (Z.mul_div_le b 2). lia. }
  specialize (IH (Z.div2 b) Hd ltac:(lia)).
  apply gf_congr_xtime in IH. rewrite <- GfMul_double in IH.
  2: { rewrite byte.unsigned_of_Z. unfold byte.wrap. rewrite Z.mod_small; lia. }
  rewrite byte.unsigned_of_Z in IH. unfold byte.wrap in IH. rewrite (Z.mod_small (Z.div2 b)) in IH by lia.
  assert (byte.of_Z b = GfAdd (byte.of_Z (2 * Z.div2 b)) (if Z.odd b then Byte.x01 else Byte.x00)) as ->.
  { apply byte.unsigned_inj. unfold GfAdd. rewrite byte_xor_unsigned, !byte.unsigned_of_Z.
    unfold byte.wrap. rewrite !Z.mod_small by lia.
    rewrite (Z_bit_split b) at 1. destruct (Z.odd b); cbn [Z.b2z].
    - change (byte.unsigned Byte.x01) with (Z.b2z true). rewrite <- (Z.add_nocarry_lxor _ (Z.b2z true)); [done|].
      apply Z.bits_inj'; intros n Hn. rewrite Z.land_spec, Z.bits_0.
      destruct (decide (n = 0)) as [->|]; [by rewrite Z.testbit_even_0|].
      change (Z.b2z true) with (2 ^ 0). rewrite (Z.pow2_bits_false 0) by lia. apply andb_false_r.
    - change (byte.unsigned Byte.x00) with 0. by rewrite Z.lxor_0_r, Z.add_0_r. }
  rewrite GfMul_add_r. unfold GfAdd at 1. rewrite byte_xor_unsigned.
  rewrite (Z_bit_split b) at 1. rewrite clmul_bit by lia. rewrite Z.lxor_comm.
  apply gf_congr_lxor; [done|].
  destruct (Z.odd b); [|rewrite GfMul_0_r; apply gf_congr_refl].
  rewrite GfMul_comm, GfMul_1_l. apply gf_congr_refl.
Qed.

(** * Region multiply-accumulate *)

Lemma GfMulAddRegion_length dst src c len : length (GfMulAddRegion dst src c len) = length dst.
Proof.
  unfold GfMulAddRegion. case_decide; [done|].
  apply (for_ind (fun _ d => length d = length dst)); [done|].
  intros i d _ Hd. case_decide; [done|]. by rewrite length_insert.
Qed.

Lemma GfMulAddRegion_get dst src c len i :
  (len <= length dst)%nat ->
  bget (GfMulAddRegion dst src c len) i =
  if decide (i < len)%nat then GfAdd (bget dst i) (GfMul c (bget src i)) else bget dst i.
Proof.
  intros Hlen. unfold GfMulAddRegion. case_decide as Hc.
  { subst. case_decide; [|done]. by rewrite GfMul_0_l, GfAdd_0_r. }
  pose (P := fun n (d : list u8) => length d = length dst /\ forall j,
    bget d j = if decide (j < n)%nat then GfAdd (bget dst j) (GfMul c (bget src j)) else bget dst j).
  enough (P len (for_ len (fun i dst => let s := bget src i in
      if decide (s = Byte.x00) then dst
      else <[i := byte.xor (bget dst i) (t_exp (t_log c + t_log s))]> dst) dst)) as [_ H] by apply H.
  apply for_ind; [split; [done|]; intros j; by rewrite decide_False by lia|].
  intros n d Hn [Hl Hd]. split; [cbv zeta; case_decide; by rewrite ?length_insert|].
  intros j. cbv zeta. case_decide as Hs.
  - rewrite Hd. destruct (decide (j = n)) as [->|Hj].
    + rewrite decide_False, decide_True by lia. by rewrite Hs, GfMul_0_r, GfAdd_0_r.
    + do 2 case_decide; try done; lia.
  - rewrite bget_insert by lia. case_decide as Hj.
    + subst. rewrite Hd, decide_False, decide_True by lia.
      unfold GfMul. by rewrite !decide_False by done.
    + rewrite Hd. do 2 case_decide; try done; lia.
Qed.

(** * Properties *)

Lemma clmul_poly_large q : 0 < q -> 256 <= clmul kGfPrimitivePoly q.
Proof.
  destruct q as [|p|p]; [lia| |lia]. intros _. cbn [clmul].
  assert (forall x, 256 <= x -> 512 <= Z.shiftl x 1) as Hsh
    by (intros x Hx; rewrite Z.shiftl_mul_pow2 by lia; lia).
  induction p as [p IH|p IH|]; cbn [clmul_pos]; [|specialize (Hsh _ IH); lia|vm_compute; discriminate].
  specialize (Hsh _ IH). revert Hsh. generalize (Z.shiftl (clmul_pos kGfPrimitivePoly p) 1). intros y Hsh.
  assert (Z.lxor kGfPrimitivePoly y / 2 ^ 9 = y / 2 ^ 9) as E.
  { rewrite <- !Z.shiftr_div_pow2, Z.shiftr_lxor by lia. apply Z.lxor_0_l. }
  assert (0 <= Z.lxor kGfPrimitivePoly y) as H0 by (apply Z.lxor_nonneg; unfold kGfPrimitivePoly; lia).
  destruct (decide (Z.lxor kGfPrimitivePoly y < 256)) as [H|H]; [|lia].
  rewrite Z.div_small in E by lia.
  assert (1 <= y / 2 ^ 9) by (apply Z.div_le_lower_bound; lia). lia.
Qed.

Lemma gf_congr_unique z r r' :
  0 <= r < 256 -> 0 <= r' < 256 -> gf_congr z r -> gf_congr z r' -> r = r'.
Proof.
  intros Hr Hr' (q & Hq & E) (q' & Hq' & E').
  assert (clmul kGfPrimitivePoly (Z.lxor q q') = Z.lxor r r') as H.
  { rewrite clmul_lxor by done. rewrite <- E, <- E'. xor_bits. }
  assert (Z.lxor r r' < 256) as Hlt.
  { replace r with (byte.unsigned (byte.of_Z r)) by (rewrite byte.unsigned_of_Z; apply Z.mod_small; lia).
    replace r' with (byte.unsigned (byte.of_Z r')) by (rewrite byte.unsigned_of_Z; apply Z.mod_small; lia).
    rewrite <- byte_xor_unsigned. apply byte.unsigned_range. }
  assert (0 <= Z.lxor q q') as H0 by (apply Z.lxor_nonneg; lia).
  apply Z.lxor_eq. destruct (decide (Z.lxor q q' = 0)) as [Hz|Hnz].
  - rewrite <- H, Hz. reflexivity.
  - pose proof (clmul_poly_large (Z.lxor q q')). lia.
Qed.

(** [GfMul] (through the log/exp tables) computes the product of the two
    operands as polynomials over GF(2), reduced modulo 0x11d: its result is the
    only byte congruent to the carry-less product. *)
Theorem GfMul_polynomial_product (a b : u8) (r : Z) :
  0 <= r < 256 ->
  (gf_congr (clmul (byte.unsigned a) (byte.unsigned b)) r <-> r = byte.unsigned (GfMul a b)).
Proof.
  pose proof (GfMul_peasant a (byte.unsigned b) (byte.unsigned_range b)) as H.
  rewrite byte.of_Z_unsigned in H. intros Hr. split.
  - intros Hc. eapply gf_congr_unique; eauto. apply byte.unsigned_range.
  - by intros ->.
Qed.

Lemma GfMul_polynomial_product_witness :
  0 <= 0x8f < 256 /\
  (gf_congr (clmul (byte.unsigned (byte.of_Z 0x53)) (byte.unsigned (byte.of_Z 0xca))) 0x8f <->
   0x8f = byte.unsigned (GfMul (byte.of_Z 0x53) (byte.of_Z 0xca))).
Proof. split; [lia|]. apply (GfMul_polynomial_product _ _ 0x8f). lia. Defined.

(** The four operations make the bytes a field: addition is XOR and its own
    inverse, [GfInv] inverts every non-zero byte, [GfDiv] is multiplication by
    the inverse, and multiplication distributes. *)
Theorem gf256_is_a_field :
  field_theory Byte.x00 Byte.x01 GfAdd GfMul GfSub GfOpp GfDiv GfInv eq /\
  (forall a, GfAdd a a = Byte.x00).
Proof. split; [apply gf_field_theory|apply GfAdd_self]. Qed.
