(* ===== verification/ReedSolomon.v ===== *)
(** Systematic Reed-Solomon erasure coding over GF(2^8):
    [safe_bdev/ec/reed_solomon.h].

    Matrices and the Cauchy table are the source's row-major byte vectors,
    indexed [row * n + col]; every loop of the source is a [for_] or [for_opt].
    The [int] parameters [k], [m_max] and shard indices are [nat] (the class is
    only used with non-negative ones). *)
From Stdlib Require Import ZArith Lia Ring Field.
From coqutil Require Import Byte.
From stdpp Require Import base list.
From S2P Require Import Prelude Gf256.

(** * Definitions *)

Record ReedSolomon := mkRS { k_ : nat; m_max_ : nat; cauchy_ : list u8 }.

Definition ReedSolomon_new (k m_max : nat) : ReedSolomon :=
  let table :=
    for_ m_max (fun r t =>
      let x := byte.of_Z (Z.of_nat (k + r)) in
      for_ k (fun c t =>
        let y := byte.of_Z (Z.of_nat c) in
        <[r * k + c := GfInv (GfAdd x y)]> t) t)
      (replicate (m_max * k) Byte.x00) in
  mkRS k m_max table.

Definition CauchyCoeff (rs : ReedSolomon) (r c : nat) : u8 :=
  bget (cauchy_ rs) (r * k_ rs + c).

(** A shard buffer of a vector of buffers. *)
Definition shard (data : list (list u8)) (c : nat) : list u8 := nth c data [].

Definition EncodeParityShard (rs : ReedSolomon) (r : nat) (data : list (list u8)) (len : nat) : list u8 :=
  for_ (k_ rs) (fun c out => GfMulAddRegion out (shard data c) (CauchyCoeff rs r c) len)
       (replicate len Byte.x00).

Definition Encode (rs : ReedSolomon) (data : list (list u8)) (len m : nat) : list (list u8) :=
  for_ m (fun r parity_out => <[r := EncodeParityShard rs r data len]> parity_out)
       (replicate m (replicate len Byte.x00)).

Definition SwapRows (m : list u8) (n a b : nat) : list u8 :=
  for_ n (fun c m =>
    let x := bget m (a * n + c) in
    let y := bget m (b * n + c) in
    <[b * n + c := x]> (<[a * n + c := y]> m)) m.

Definition ScaleRow (m : list u8) (n row : nat) (s : u8) : list u8 :=
  for_ n (fun c m => <[row * n + c := GfMul (bget m (row * n + c)) s]> m) m.

Definition AddScaledRow (m : list u8) (n src_row dst_row : nat) (factor : u8) : list u8 :=
  for_ n (fun c m =>
    <[dst_row * n + c := byte.xor (bget m (dst_row * n + c))
                                  (GfMul (bget m (src_row * n + c)) factor)]> m) m.

(** The pivot scan: the first row of [row, row + cnt) with a non-zero entry in
    column [col]. *)
Fixpoint find_pivot (m : list u8) (n col row cnt : nat) : option nat :=
  match cnt with
  | O => None
  | S cnt => if decide (bget m (row * n + col) = Byte.x00)
             then find_pivot m n col (S row) cnt
             else Some row
  end.

Definition eliminate (n col row : nat) (st : list u8 * list u8) : list u8 * list u8 :=
  let '(m, out) := st in
  if decide (row = col) then (m, out)
  else
    let factor := bget m (row * n + col) in
    if decide (factor = Byte.x00) then (m, out)
    else (AddScaledRow m n col row factor, AddScaledRow out n col row factor).

Definition invert_column (n col : nat) (st : list u8 * list u8) : option (list u8 * list u8) :=
  let '(m, out) := st in
  match find_pivot m n col col (n - col) with
  | None => None
  | Some pivot =>
      let '(m, out) := if decide (pivot = col) then (m, out)
                       else (SwapRows m n pivot col, SwapRows out n pivot col) in
      let inv := GfInv (bget m (col * n + col)) in
      let m := ScaleRow m n col inv in
      let out := ScaleRow out n col inv in
      Some (for_ n (eliminate n col) (m, out))
  end.

Definition identity_matrix (n : nat) : list u8 :=
  for_ n (fun i out => <[i * n + i := Byte.x01]> out) (replicate (n * n) Byte.x00).

Definition InvertMatrix (m : list u8) (n : nat) : option (list u8) :=
  match for_opt n (invert_column n) (m, identity_matrix n) with
  | Some (_, out) => Some out
  | None => None
  end.

(** The k x k matrix of generator rows of the first k survivors. *)
Definition survivor_matrix (rs : ReedSolomon) (survivor_index : list nat) : list u8 :=
  let k := k_ rs in
  for_ k (fun i a =>
    let g := nth i survivor_index 0 in
    if decide (g < k) then <[i * k + g := Byte.x01]> a
    else
      let r := g - k in
      for_ k (fun c a => <[i * k + c := CauchyCoeff rs r c]> a) a)
    (replicate (k * k) Byte.x00).

Definition DecodeData (rs : ReedSolomon) (survivor_index : list nat)
    (survivor_shard : list (list u8)) (len : nat) : option (list (list u8)) :=
  let k := k_ rs in
  if decide (length survivor_index < k) then None
  else
    match InvertMatrix (survivor_matrix rs survivor_index) k with
    | None => None
    | Some a_inv =>
        Some (for_ k (fun i data_out =>
          let out :=
            for_ k (fun j out =>
              GfMulAddRegion out (shard survivor_shard j) (bget a_inv (i * k + j)) len)
              (shard data_out i) in
          <[i := out]> data_out)
          (replicate k (replicate len Byte.x00)))
    end.

(** * Sums over GF(2^8) *)

Local Open Scope gf_scope.

Fixpoint lsum {A} (f : A -> u8) (l : list A) : u8 :=
  match l with
  | [] => 0
  | x :: l => f x + lsum f l
  end.

Abbreviation gsum n f := (lsum f (seq 0 n)) (only parsing).

Section Sums.
Context {A : Type}.
Implicit Types (f g : A -> u8) (l : list A).

Lemma lsum_ext f g l : (forall x, In x l -> f x = g x) -> lsum f l = lsum g l.
Proof.
  induction l as [|x l IH]; intros H; [done|]. cbn.
  rewrite H by (by left). f_equal. apply IH. intros y Hy. apply H. by right.
Qed.

Lemma lsum_0 f l : (forall x, In x l -> f x = 0) -> lsum f l = 0.
Proof.
  intros H. induction l as [|x l IH]; [done|]. cbn.
  rewrite H by (by left). rewrite IH by (intros; apply H; by right). reflexivity.
Qed.

Lemma lsum_app f l l' : lsum f (l ++ l') = lsum f l + lsum f l'.
Proof. induction l as [|x l IH]; cbn; [ring|]. rewrite IH. ring. Qed.

Lemma lsum_add f g l : lsum (fun x => f x + g x) l = lsum f l + lsum g l.
Proof. induction l as [|x l IH]; cbn; [ring|]. rewrite IH. ring. Qed.

Lemma lsum_scale a f l : lsum (fun x => a * f x) l = a * lsum f l.
Proof. induction l as [|x l IH]; cbn; [ring|]. rewrite IH. ring. Qed.

(** Terms outside [P] vanish. *)
Lemma lsum_filter (P : A -> Prop) `{!forall x, Decision (P x)} f l :
  (forall x, In x l -> ~ P x -> f x = 0) -> lsum f l = lsum f (filter P l).
Proof.
  induction l as [|x l IH]; intros Hf; [done|].
  rewrite filter_cons. cbn [lsum]. rewrite IH by (intros; apply Hf; [by right|done]).
  case_decide; [done|]. rewrite Hf by (done || by left). ring.
Qed.
End Sums.

Lemma lsum_swap {A B} (f : A -> B -> u8) l l' :
  lsum (fun x => lsum (f x) l') l = lsum (fun y => lsum (fun x => f x y) l) l'.
Proof.
  induction l as [|x l IH]; cbn.
  - symmetry. by apply lsum_0.
  - by rewrite IH, lsum_add.
Qed.

Definition delta (i j : nat) : u8 := if decide (i = j) then 1 else 0.

Lemma lsum_delta_seq f s n j : s <= j < s + n -> lsum (fun i => delta j i * f i) (seq s n) = f j.
Proof.
  revert s. induction n as [|n IH]; intros s Hj; [lia|]. cbn [seq lsum].
  unfold delta at 1. case_decide as E.
  - subst. rewrite lsum_0; [ring|]. intros i Hi. apply in_seq in Hi.
    unfold delta. rewrite decide_False by lia. ring.
  - rewrite IH by lia. ring.
Qed.

Lemma gsum_delta f n j : j < n -> gsum n (fun i => delta j i * f i) = f j.
Proof. intros Hj. apply lsum_delta_seq. lia. Qed.

Lemma gsum_ext n f g : (forall i, i < n -> f i = g i) -> gsum n f = gsum n g.
Proof. intros H. apply lsum_ext. intros i Hi. apply in_seq in Hi. apply H. lia. Qed.

Lemma gsum_S n f : gsum (S n) f = gsum n f + f n.
Proof. rewrite seq_S, lsum_app. cbn. ring. Qed.

(** * Row-major indexing *)

Local Close Scope gf_scope.

Definition mget (m : list u8) (n r c : nat) : u8 := bget m (r * n + c).

Lemma row_major_row n r c d : c < n -> (d * n <= r * n + c < d * n + n <-> r = d).
Proof. nia. Qed.

Lemma row_major_inj n r c r' c' : c < n -> c' < n -> r * n + c = r' * n + c' -> r = r' /\ c = c'.
Proof. intros. assert (r = r') by nia. subst. lia. Qed.

Lemma row_major_lt n rows r c : r < rows -> c < n -> r * n + c < rows * n.
Proof. nia. Qed.

#[export] Hint Resolve row_major_lt : gf.

(** A loop that overwrites row [d], each entry computed from entries the loop
    has not overwritten yet. *)
Lemma row_loop m n d (f : nat -> list u8 -> u8) (F : nat -> u8) :
  d * n + n <= length m ->
  (forall c m', c < n -> length m' = length m ->
     (forall i, (forall j, j < c -> i <> d * n + j) -> bget m' i = bget m i) -> f c m' = F c) ->
  let m' := for_ n (fun c m => <[d * n + c := f c m]> m) m in
  length m' = length m /\
  forall i, bget m' i = if decide (d * n <= i < d * n + n) then F (i - d * n) else bget m i.
Proof.
  intros Hd Hf.
  pose (P := fun k m' => length m' = length m /\
    forall i, bget m' i = if decide (d * n <= i < d * n + k) then F (i - d * n) else bget m i).
  change (P n (for_ n (fun c m => <[d * n + c := f c m]> m) m)). apply for_ind.
  { split; [done|]. intros i. by rewrite decide_False by lia. }
  intros c s Hc [Hl Hs]. split; [by rewrite length_insert|].
  intros i. rewrite bget_insert by lia.
  rewrite (Hf c s Hc Hl); [|intros j Hj; rewrite Hs; rewrite decide_False; [done|];
    intros Hr; apply (Hj (j - d * n)); lia].
  case_decide as Hi; [subst; rewrite decide_True by lia; f_equal; lia|].
  rewrite Hs. do 2 case_decide; try done; lia.
Qed.

Lemma row_loop_mget m n rows d f F :
  d < rows -> length m = rows * n ->
  (forall c m', c < n -> length m' = length m ->
     (forall r c', c' < n -> (r = d -> c <= c') -> mget m' n r c' = mget m n r c') -> f c m' = F c) ->
  let m' := for_ n (fun c m => <[d * n + c := f c m]> m) m in
  length m' = rows * n /\
  forall r c, c < n -> mget m' n r c = if decide (r = d) then F c else mget m n r c.
Proof.
  intros Hd Hm Hf m'.
  destruct (row_loop m n d f F) as [Hl Hg]; [nia| |].
  - intros c s Hc Hs Hi. apply Hf; [done|done|]. intros r c' Hc' Hr. apply Hi. intros j Hj E.
    apply row_major_inj in E as [-> ->]; lia.
  - split; [by rewrite <- Hm|]. intros r c Hc. unfold mget. rewrite Hg.
    destruct (row_major_row n r c d Hc). do 2 case_decide; try tauto.
    subst. f_equal. lia.
Qed.

Lemma ScaleRow_spec m n rows row s :
  row < rows -> length m = rows * n ->
  length (ScaleRow m n row s) = rows * n /\
  forall r c, c < n ->
    mget (ScaleRow m n row s) n r c = if decide (r = row) then (mget m n r c * s)%gf else mget m n r c.
Proof.
  intros Hr Hm.
  destruct (row_loop_mget m n rows row (fun c m => GfMul (bget m (row * n + c)) s)
              (fun c => (mget m n row c * s)%gf) Hr Hm) as [Hl Hg].
  { intros c m' Hc _ H. f_equal. apply (H row c Hc). lia. }
  split; [exact Hl|]. intros r c Hc. unfold ScaleRow. rewrite Hg by done.
  case_decide; by subst.
Qed.

Lemma AddScaledRow_spec m n rows src dst f :
  src < rows -> dst < rows -> src <> dst -> length m = rows * n ->
  length (AddScaledRow m n src dst f) = rows * n /\
  forall r c, c < n ->
    mget (AddScaledRow m n src dst f) n r c =
    if decide (r = dst) then (mget m n r c + mget m n src c * f)%gf else mget m n r c.
Proof.
  intros Hs Hd Hne Hm.
  destruct (row_loop_mget m n rows dst
    (fun c m => byte.xor (bget m (dst * n + c)) (GfMul (bget m (src * n + c)) f))
    (fun c => (mget m n dst c + mget m n src c * f)%gf) Hd Hm) as [Hl Hg].
  { intros c m' Hc _ H. unfold GfAdd. f_equal; [|f_equal]; apply H; lia. }
  split; [exact Hl|]. intros r c Hc. unfold AddScaledRow. rewrite Hg by done.
  case_decide; by subst.
Qed.

Lemma SwapRows_spec m n rows a b :
  a < rows -> b < rows -> a <> b -> length m = rows * n ->
  length (SwapRows m n a b) = rows * n /\
  forall r c, c < n ->
    mget (SwapRows m n a b) n r c =
    if decide (r = a) then mget m n b c else if decide (r = b) then mget m n a c else mget m n r c.
Proof.
  intros Ha Hb Hab Hm.
  pose (P := fun k m' => length m' = rows * n /\ forall r c, c < n ->
    mget m' n r c =
    if decide (c < k) then
      if decide (r = a) then mget m n b c else if decide (r = b) then mget m n a c else mget m n r c
    else mget m n r c).
  assert (P n (SwapRows m n a b)) as [Hl Hg].
  2: { split; [done|]. intros r c Hc. rewrite Hg by done. by rewrite decide_True. }
  apply (for_ind P).
  { split; [done|]. intros r c _. by rewrite decide_False by lia. }
  intros k m' Hk [Hl Hg]. split; [by rewrite !length_insert|].
  intros r c Hc. unfold mget at 1.
  rewrite !bget_insert by (rewrite ?length_insert, Hl; by apply row_major_lt).
  fold (mget m' n a k) (mget m' n b k) (mget m' n r c).
  rewrite !Hg by done. rewrite !(decide_False (P := k < k)) by lia.
  case_decide as E1; [apply row_major_inj in E1 as [<- <-]; try done;
    by rewrite decide_True, decide_False, decide_True by lia|].
  case_decide as E2; [apply row_major_inj in E2 as [<- <-]; try done; by rewrite !decide_True by lia|].
  destruct (decide (c = k)) as [->|Hck].
  - rewrite (decide_False (P := k < k)), (decide_True (P := k < S k)) by lia.
    rewrite !decide_False by congruence. done.
  - destruct (decide (c < k)); [rewrite (decide_True (P := c < S k)) by lia|
      rewrite (decide_False (P := c < S k)) by lia]; done.
Qed.

(** * Gauss-Jordan elimination

    [GJ A n m out]: the working pair [(m, out)] of [InvertMatrix A n]. Every row
    operation keeps [m = out * A], and keeps the kernel from growing. *)

Definition dot (n : nat) (row v : nat -> u8) : u8 := gsum n (fun c => (row c * v c)%gf).

Definition in_kernel (m : list u8) (n : nat) (v : nat -> u8) : Prop :=
  forall r, r < n -> dot n (mget m n r) v = Byte.x00.

Definition kernel_trivial (m : list u8) (n : nat) : Prop :=
  forall v, in_kernel m n v -> forall c, c < n -> v c = Byte.x00.

Record GJ (A : list u8) (n : nat) (m out : list u8) : Prop := {
  gj_len : length m = n * n;
  gj_len_out : length out = n * n;
  gj_prod : forall r c, r < n -> c < n ->
    mget m n r c = gsum n (fun j => (mget out n r j * mget A n j c)%gf);
  gj_ker : forall v, in_kernel m n v -> in_kernel A n v
}.

Lemma dot_ext n row row' v : (forall c, c < n -> row c = row' c) -> dot n row v = dot n row' v.
Proof. intros H. apply gsum_ext. intros c Hc. by rewrite H. Qed.

Lemma dot_scale n row s v : dot n (fun c => (row c * s)%gf) v = (s * dot n row v)%gf.
Proof. unfold dot. rewrite <- lsum_scale. apply lsum_ext. intros. ring. Qed.

Lemma dot_add n row row' s v :
  dot n (fun c => (row c + row' c * s)%gf) v = (dot n row v + s * dot n row' v)%gf.
Proof. unfold dot. rewrite <- lsum_scale, <- lsum_add. apply lsum_ext. intros. ring. Qed.

Lemma GJ_swap A n m out a b :
  a < n -> b < n -> a <> b -> GJ A n m out -> GJ A n (SwapRows m n a b) (SwapRows out n a b).
Proof.
  intros Ha Hb Hab [Hl Ho Hp Hk].
  destruct (SwapRows_spec m n n a b) as [Hl' Hm']; try done.
  destruct (SwapRows_spec out n n a b) as [Ho' Hout']; try done.
  split; [done|done| |].
  - intros r c Hr Hc. rewrite Hm' by done.
    erewrite (gsum_ext n) by (intros j Hj; by rewrite Hout').
    repeat case_decide; by rewrite Hp.
  - intros v Hv. apply Hk. intros r Hr.
    destruct (decide (r = a)) as [->|Hra]; [|destruct (decide (r = b)) as [->|Hrb]].
    + rewrite <- (Hv b Hb). apply dot_ext. intros c Hc. rewrite Hm' by done.
      by rewrite decide_False, decide_True by done.
    + rewrite <- (Hv a Ha). apply dot_ext. intros c Hc. rewrite Hm' by done. by rewrite decide_True.
    + rewrite <- (Hv r Hr). apply dot_ext. intros c Hc. rewrite Hm' by done. by rewrite !decide_False.
Qed.

Lemma GJ_scale A n m out row s :
  row < n -> s <> Byte.x00 -> GJ A n m out -> GJ A n (ScaleRow m n row s) (ScaleRow out n row s).
Proof.
  intros Hrow Hs [Hl Ho Hp Hk].
  destruct (ScaleRow_spec m n n row s) as [Hl' Hm']; try done.
  destruct (ScaleRow_spec out n n row s) as [Ho' Hout']; try done.
  split; [done|done| |].
  - intros r c Hr Hc. rewrite Hm' by done.
    erewrite (gsum_ext n) by (intros j Hj; by rewrite Hout').
    case_decide; rewrite Hp by done; [|done].
    rewrite GfMul_comm, <- lsum_scale. apply lsum_ext. intros. ring.
  - intros v Hv. apply Hk. intros r Hr. specialize (Hv r Hr).
    rewrite (dot_ext _ _ (fun c => if decide (r = row) then (mget m n r c * s)%gf else mget m n r c)) in Hv
      by (intros c Hc; by apply Hm').
    destruct (decide (r = row)); [|exact Hv].
    rewrite dot_scale in Hv. by apply GfMul_integral in Hv as [?|?].
Qed.

Lemma GJ_add A n m out src dst f :
  src < n -> dst < n -> src <> dst -> GJ A n m out ->
  GJ A n (AddScaledRow m n src dst f) (AddScaledRow out n src dst f).
Proof.
  intros Hs Hd Hne [Hl Ho Hp Hk].
  destruct (AddScaledRow_spec m n n src dst f) as [Hl' Hm']; try done.
  destruct (AddScaledRow_spec out n n src dst f) as [Ho' Hout']; try done.
  split; [done|done| |].
  - intros r c Hr Hc. rewrite Hm' by done.
    erewrite (gsum_ext n) by (intros j Hj; by rewrite Hout').
    case_decide; rewrite !Hp by done; [|done].
    rewrite (GfMul_comm _ f), <- lsum_scale, <- lsum_add. apply lsum_ext. intros. ring.
  - intros v Hv. apply Hk.
    assert (forall r, r < n -> dot n (fun c => if decide (r = dst)
      then (mget m n r c + mget m n src c * f)%gf else mget m n r c) v = Byte.x00) as Hv'.
    { intros r Hr. rewrite <- (Hv r Hr). apply dot_ext. intros c Hc. by rewrite Hm'. }
    assert (dot n (mget m n src) v = Byte.x00) as Hsrc.
    { specialize (Hv' src Hs). by destruct (decide (src = dst)). }
    intros r Hr. specialize (Hv' r Hr). destruct (decide (r = dst)); [|exact Hv'].
    rewrite dot_add, Hsrc in Hv'. rewrite <- Hv'. ring.
Qed.

(** The first [col] columns are those of the identity. *)
Definition cols_done (m : list u8) (n col : nat) : Prop :=
  forall r j, r < n -> j < col -> mget m n r j = delta r j.

Lemma find_pivot_Some m n col row cnt p :
  find_pivot m n col row cnt = Some p ->
  row <= p < row + cnt /\ mget m n p col <> Byte.x00.
Proof.
  revert row. induction cnt as [|cnt IH]; intros row H; [done|]. cbn in H.
  case_decide as E; [apply IH in H; intuition lia|].
  simplify_eq. split; [lia|exact E].
Qed.

Lemma find_pivot_None m n col row cnt :
  find_pivot m n col row cnt = None -> forall r, row <= r < row + cnt -> mget m n r col = Byte.x00.
Proof.
  revert row. induction cnt as [|cnt IH]; intros row H r Hr; [lia|]. cbn in H.
  case_decide as E; [|done].
  destruct (decide (r = row)) as [->|]; [exact E|]. apply (IH _ H). lia.
Qed.

(** No pivot: the column is a combination of the finished ones. *)
Lemma no_pivot_kernel m n col :
  col < n -> cols_done m n col -> (forall r, col <= r < n -> mget m n r col = Byte.x00) ->
  ~ kernel_trivial m n.
Proof.
  intros Hcol Hdone Hz Hk.
  pose (v := fun c => (delta c col + (if decide (c < col) then mget m n c col else Byte.x00))%gf).
  assert (v col = Byte.x00) as E.
  { apply Hk; [|done]. intros r Hr. unfold dot, v.
    rewrite (gsum_ext n _ (fun c => (delta col c * mget m n r c +
      delta r c * (if decide (r < col) then mget m n r col else Byte.x00))%gf)).
    - rewrite lsum_add, gsum_delta by done.
      rewrite (gsum_delta (fun _ => if decide (r < col) then mget m n r col else Byte.x00)) by done.
      case_decide; [ring|]. rewrite Hz by lia. ring.
    - intros c Hc. unfold delta. destruct (decide (c = col)) as [->|Hcc].
      + rewrite (decide_True (P := col = col)) by done.
        rewrite (decide_False (P := col < col)) by lia.
        destruct (decide (r = col)) as [->|]; [rewrite (decide_False (P := col < col)) by lia|]; ring.
      + rewrite (decide_False (P := col = c)) by done.
        destruct (decide (c < col)) as [Hlt|].
        * rewrite (Hdone r c Hr Hlt). unfold delta.
          destruct (decide (r = c)) as [->|]; [rewrite decide_True by done|]; ring.
        * destruct (decide (r = c)) as [->|]; [rewrite decide_False by done|]; ring. }
  unfold v, delta in E. rewrite decide_True, decide_False in E by lia. discriminate E.
Qed.

Lemma eliminate_step A n col row m out :
  col < n -> row < n ->
  GJ A n m out -> cols_done m n col -> mget m n col col = Byte.x01 ->
  let '(m', out') := eliminate n col row (m, out) in
  GJ A n m' out' /\ cols_done m' n col /\ mget m' n col col = Byte.x01 /\
  (row <> col -> mget m' n row col = Byte.x00) /\
  (forall r, r <> row -> mget m' n r col = mget m n r col).
Proof.
  intros Hcol Hrow HGJ Hdone H1. unfold eliminate.
  case_decide as Hrc; [by split_and!|].
  case_decide as Hf; [by split_and!|].
  set (f := bget m (row * n + col)).
  destruct (AddScaledRow_spec m n n col row f) as [Hl Hm]; try done; [apply HGJ|].
  split_and!; [apply GJ_add; done| | | |].
  - intros r j Hr Hj. rewrite Hm by lia.
    case_decide as E; [|by apply Hdone]. subst r. rewrite !Hdone by done.
    unfold delta at 2. rewrite decide_False by lia. ring.
  - rewrite Hm by done. by rewrite decide_False by done.
  - intros _. rewrite Hm, decide_True, H1 by done. unfold f. fold (mget m n row col). ring.
  - intros r Hr. rewrite Hm by done. by rewrite decide_False.
Qed.

Lemma eliminate_loop A n col m out :
  col < n -> GJ A n m out -> cols_done m n col -> mget m n col col = Byte.x01 ->
  let '(m', out') := for_ n (eliminate n col) (m, out) in
  GJ A n m' out' /\ cols_done m' n (S col).
Proof.
  intros Hcol HGJ Hdone H1.
  pose (P := fun i st => let '(m', out') := st in
    GJ A n m' out' /\ cols_done m' n col /\ mget m' n col col = Byte.x01 /\
    forall r, r < i -> r <> col -> mget m' n r col = Byte.x00).
  assert (P n (for_ n (eliminate n col) (m, out))) as H.
  { apply (for_ind P).
    - split_and!; [done|done|done|lia].
    - intros i [m' out'] Hi (HGJ' & Hdone' & H1' & Hz).
      pose proof (eliminate_step A n col i m' out' Hcol Hi HGJ' Hdone' H1') as Hs.
      destruct (eliminate n col i (m', out')) as [m2 out2]. destruct Hs as (? & ? & ? & Hi0 & Ho).
      split_and!; [done|done|done|].
      intros r Hr Hrc. destruct (decide (r = i)) as [->|]; [by apply Hi0|].
      rewrite Ho by done. apply Hz; [lia|done]. }
  destruct (for_ n (eliminate n col) (m, out)) as [m' out']. destruct H as (HGJ' & Hdone' & H1' & Hz).
  split; [done|]. intros r j Hr Hj.
  destruct (decide (j = col)) as [->|]; [|apply Hdone'; lia].
  unfold delta. case_decide; [by subst|]. by apply Hz.
Qed.

Definition GJ_state (A : list u8) (n col : nat) (st : list u8 * list u8) : Prop :=
  GJ A n st.1 st.2 /\ cols_done st.1 n col.

Lemma invert_column_step A n col st st' :
  col < n -> GJ_state A n col st -> invert_column n col st = Some st' -> GJ_state A n (S col) st'.
Proof.
  destruct st as [m out]. intros Hcol [HGJ Hdone]. cbn [fst snd] in *. unfold invert_column.
  destruct (find_pivot _ _ _ _ _) as [p|] eqn:Hp; [|done].
  apply find_pivot_Some in Hp as [Hp Hnz].
  destruct (if decide (p = col) then (m, out) else _) as [m1 out1] eqn:E1.
  assert (GJ A n m1 out1 /\ cols_done m1 n col /\ mget m1 n col col <> Byte.x00) as (HGJ1 & Hdone1 & Hnz1).
  { case_decide as Ep; simplify_eq; [done|].
    destruct (SwapRows_spec m n n p col) as [_ Hm]; try (done || lia); [apply HGJ|].
    split; [apply GJ_swap; (done || lia)|]. split.
    - intros r j Hr Hj. rewrite Hm by lia. unfold delta.
      repeat case_decide; subst; rewrite ?Hdone by lia; unfold delta; repeat case_decide; try done; lia.
    - rewrite Hm, decide_False, decide_True by lia. done. }
  clear HGJ Hdone Hnz E1. intros [= <-].
  set (s := GfInv (bget m1 (col * n + col))).
  destruct (ScaleRow_spec m1 n n col s) as [_ Hm]; [done|apply HGJ1|].
  pose proof (eliminate_loop A n col (ScaleRow m1 n col s) (ScaleRow out1 n col s) Hcol) as H.
  destruct (for_ n _ _) as [m' out']. apply H; clear H.
  - apply GJ_scale; [done| |done]. by apply GfInv_nonzero.
  - intros r j Hr Hj. rewrite Hm by lia. rewrite Hdone1 by done.
    case_decide; [|done]. subst. unfold delta. rewrite decide_False by lia. ring.
  - rewrite Hm, decide_True by done. rewrite GfMul_comm. by apply GfInv_l.
Qed.

Lemma invert_column_total A n col st :
  col < n -> kernel_trivial A n -> GJ_state A n col st -> exists st', invert_column n col st = Some st'.
Proof.
  destruct st as [m out]. intros Hcol Hk [HGJ Hdone]. cbn [fst snd] in *. unfold invert_column.
  destruct (find_pivot _ _ _ _ _) as [p|] eqn:Hp; [by destruct (if decide _ then _ else _); eauto|].
  exfalso. apply (no_pivot_kernel m n col Hcol Hdone).
  - intros r Hr. eapply find_pivot_None; [done|lia].
  - intros v Hv. apply Hk. by apply (gj_ker _ _ _ _ HGJ).
Qed.

(** A loop that fills a zero matrix row by row. *)
Lemma rows_loop n rows (body : nat -> list u8 -> list u8) (G : nat -> nat -> u8) :
  (forall i a, i < rows -> length a = rows * n ->
     (forall c, c < n -> mget a n i c = Byte.x00) ->
     length (body i a) = rows * n /\
     forall r c, c < n -> mget (body i a) n r c = if decide (r = i) then G i c else mget a n r c) ->
  let a := for_ rows body (replicate (rows * n) Byte.x00) in
  length a = rows * n /\ forall r c, r < rows -> c < n -> mget a n r c = G r c.
Proof.
  intros Hb.
  pose (P := fun i a => length a = rows * n /\ forall r c, c < n ->
    mget a n r c = if decide (r < i) then G r c else Byte.x00).
  assert (P rows (for_ rows body (replicate (rows * n) Byte.x00))) as [Hl H].
  2: { split; [done|]. intros r c Hr Hc. by rewrite H, decide_True. }
  apply (for_ind P).
  - split; [apply length_replicate|]. intros r c _. rewrite decide_False by lia. apply bget_replicate.
  - intros i a Hi [Hl H]. destruct (Hb i a Hi Hl) as [Hl' H'].
    { intros c Hc. by rewrite H, decide_False by lia. }
    split; [done|]. intros r c Hc. rewrite H' by done.
    destruct (decide (r = i)) as [->|]; [by rewrite decide_True by lia|].
    rewrite H by done. destruct (decide (r < i)), (decide (r < S i)); try done; lia.
Qed.

Lemma identity_matrix_spec n :
  length (identity_matrix n) = n * n /\
  forall r c, r < n -> c < n -> mget (identity_matrix n) n r c = delta r c.
Proof.
  apply (rows_loop n n (fun i out => <[i * n + i := Byte.x01]> out) delta).
  intros i a Hi Hl Hz. split; [by rewrite length_insert|]. intros r c Hc.
  unfold mget. rewrite bget_insert by (rewrite Hl; by apply row_major_lt).
  fold (mget a n r c). unfold delta. case_decide as E.
  - apply row_major_inj in E as [<- <-]; [|done|done]. by rewrite !decide_True by lia.
  - case_decide as Er; [|done]. subst. rewrite decide_False; [by apply Hz|]. by intros ->.
Qed.

Lemma GJ_init A n : length A = n * n -> GJ_state A n 0 (A, identity_matrix n).
Proof.
  intros Hl. destruct (identity_matrix_spec n) as [Hil Hi].
  split; [|intros r j _ Hj; lia]. split; cbn [fst snd]; [done|done| |by intros v].
  intros r c Hr Hc.
  rewrite (gsum_ext n _ (fun j => (delta r j * mget A n j c)%gf)) by (intros; by rewrite Hi).
  by rewrite gsum_delta.
Qed.

(** What a successful inversion returns is a left inverse. *)
Lemma InvertMatrix_left_inverse A n out :
  length A = n * n -> InvertMatrix A n = Some out ->
  length out = n * n /\
  forall r c, r < n -> c < n -> gsum n (fun j => (mget out n r j * mget A n j c)%gf) = delta r c.
Proof.
  intros Hl. unfold InvertMatrix.
  destruct (for_opt _ _ _) as [[m out']|] eqn:E; [|done]. intros [= <-].
  assert (GJ_state A n n (m, out')) as [HGJ Hdone].
  { eapply for_opt_ind; [exact E|by apply GJ_init|].
    intros i s s' Hi Hs Hstep. by eapply invert_column_step. }
  split; [apply HGJ|]. intros r c Hr Hc. cbn in *.
  rewrite <- (gj_prod _ _ _ _ HGJ) by done. by apply Hdone.
Qed.

Lemma InvertMatrix_total A n :
  length A = n * n -> kernel_trivial A n -> exists out, InvertMatrix A n = Some out.
Proof.
  intros Hl Hk. unfold InvertMatrix.
  destruct (for_opt_total (GJ_state A n) n (invert_column n) (A, identity_matrix n))
    as ([m out] & -> & _); [by apply GJ_init| |eauto].
  intros i s Hi Hs. destruct (invert_column_total A n i s Hi Hk Hs) as [s' Hs'].
  exists s'. split; [done|]. by eapply invert_column_step.
Qed.

(** A left inverse leaves no room in the kernel. *)
Lemma left_inverse_kernel A out n :
  (forall r c, r < n -> c < n -> gsum n (fun j => (mget out n r j * mget A n j c)%gf) = delta r c) ->
  kernel_trivial A n.
Proof.
  intros H v Hv i Hi. rewrite <- (gsum_delta v n i Hi).
  rewrite (gsum_ext n _ (fun c => gsum n (fun j => (mget out n i j * (mget A n j c * v c))%gf))).
  - rewrite (lsum_swap (fun c j => (mget out n i j * (mget A n j c * v c))%gf)).
    apply lsum_0. intros j Hj. apply in_seq in Hj.
    rewrite lsum_scale. change (gsum n _) with (dot n (mget A n j) v).
    rewrite Hv by lia. apply GfMul_0_r.
  - intros c Hc. rewrite <- (H i c Hi Hc), GfMul_comm, <- lsum_scale.
    apply lsum_ext. intros. ring.
Qed.

(** * The generator matrix *)

Lemma row_store_loop n rows d a (F : nat -> u8) :
  d < rows -> length a = rows * n ->
  length (for_ n (fun c a => <[d * n + c := F c]> a) a) = rows * n /\
  forall r c, c < n ->
    mget (for_ n (fun c a => <[d * n + c := F c]> a) a) n r c =
    if decide (r = d) then F c else mget a n r c.
Proof. intros Hd Ha. by apply (row_loop_mget a n rows d (fun c _ => F c)). Qed.

Definition byte_of_nat (n : nat) : u8 := byte.of_Z (Z.of_nat n).

Lemma byte_of_nat_inj i j : i < 256 -> j < 256 -> byte_of_nat i = byte_of_nat j -> i = j.
Proof.
  intros Hi Hj E. apply (f_equal byte.unsigned) in E. unfold byte_of_nat in E.
  rewrite !byte.unsigned_of_Z in E. unfold byte.wrap in E. rewrite !Z.mod_small in E; lia.
Qed.

Lemma CauchyCoeff_new k m r c :
  r < m -> c < k ->
  CauchyCoeff (ReedSolomon_new k m) r c = GfInv (GfAdd (byte_of_nat (k + r)) (byte_of_nat c)).
Proof.
  intros Hr Hc. unfold CauchyCoeff, ReedSolomon_new. cbn [cauchy_ k_].
  apply (rows_loop k m (fun r t => for_ k (fun c t =>
    <[r * k + c := GfInv (GfAdd (byte_of_nat (k + r)) (byte_of_nat c))]> t) t)
    (fun r c => GfInv (GfAdd (byte_of_nat (k + r)) (byte_of_nat c)))); [|done|done].
  intros i a Hi Ha _. by apply row_store_loop.
Qed.

(** Row [g] of the (k + m_max) x k generator matrix. *)
Definition generator (rs : ReedSolomon) (g c : nat) : u8 :=
  if decide (g < k_ rs) then delta g c else CauchyCoeff rs (g - k_ rs) c.

Lemma survivor_matrix_spec rs idx :
  length (survivor_matrix rs idx) = k_ rs * k_ rs /\
  forall i c, i < k_ rs -> c < k_ rs ->
    mget (survivor_matrix rs idx) (k_ rs) i c = generator rs (nth i idx 0) c.
Proof.
  apply (rows_loop (k_ rs) (k_ rs) _ (fun i c => generator rs (nth i idx 0) c)).
  intros i a Hi Hl Hz. unfold generator. case_decide as Hg.
  - split; [by rewrite length_insert|]. intros r c Hc.
    unfold mget. rewrite bget_insert by (rewrite Hl; by apply row_major_lt).
    fold (mget a (k_ rs) r c). unfold delta. case_decide as E.
    + apply row_major_inj in E as [<- <-]; [|done|done]. by rewrite !decide_True.
    + case_decide as Er; [|done]. subst. rewrite decide_False; [by apply Hz|].
      intros Hgc. apply E. by rewrite Hgc.
  - apply (row_store_loop (k_ rs) (k_ rs) i a); done.
Qed.

(** * Any square submatrix of a Cauchy matrix is invertible *)

Local Open Scope gf_scope.

Lemma cauchy_eliminate x x0 y y0 v :
  x + y <> 0 -> x0 + y <> 0 ->
  (x + y0) * (v / (x + y)) + (x0 + y0) * (v / (x0 + y)) =
  (x + x0) * ((v * ((y0 + y) / (x0 + y))) / (x + y)).
Proof. intros. field. done. Qed.

Lemma cauchy_kernel (ys xs : list u8) (v : u8 -> u8) :
  NoDup ys -> NoDup xs -> length ys = length xs ->
  (forall x y, In x xs -> In y ys -> x + y <> 0) ->
  (forall x, In x xs -> lsum (fun y => v y / (x + y)) ys = 0) ->
  forall y, In y ys -> v y = 0.
Proof.
  revert xs v. induction ys as [|y0 ys IH]; intros xs v Hys Hxs Hlen Hne Hsum; [by intros y []|].
  destruct xs as [|x0 xs]; [done|].
  apply NoDup_cons in Hys as [Hy0 Hys]. apply NoDup_cons in Hxs as [Hx0 Hxs].
  rewrite list_elem_of_In in Hy0, Hx0.
  pose (w := fun y => v y * ((y0 + y) / (x0 + y))).
  assert (forall y, In y ys -> w y = 0) as Hw.
  { apply (IH xs w); [done|done|by injection Hlen|intros; apply Hne; by right|].
    intros x Hx.
    pose proof (Hsum x (or_intror Hx)) as E. pose proof (Hsum x0 (or_introl eq_refl)) as E0.
    cbn [lsum] in E, E0.
    assert ((x + x0) * lsum (fun y => w y / (x + y)) ys = 0) as E1.
    2: { apply GfMul_integral in E1 as [E1|E1]; [|done].
         exfalso. apply GfAdd_eq_0 in E1. by subst. }
    rewrite <- lsum_scale.
    rewrite (lsum_ext _ (fun y => (x + y0) * (v y / (x + y)) + (x0 + y0) * (v y / (x0 + y)))).
    2: { intros y Hy. symmetry. apply cauchy_eliminate; apply Hne; auto using in_cons, in_eq. }
    rewrite lsum_add, !lsum_scale.
    assert (x + y0 <> 0) as N by (apply Hne; auto using in_cons, in_eq).
    assert (x0 + y0 <> 0) as N0 by (apply Hne; auto using in_cons, in_eq).
    apply GfAdd_eq_0 in E. apply GfAdd_eq_0 in E0. rewrite <- E, <- E0. field. done. }
  assert (forall y, In y ys -> v y = 0) as Hv.
  { intros y Hy. specialize (Hw y Hy). unfold w in Hw.
    apply GfMul_integral in Hw as [Hw|Hw]; [done|]. exfalso.
    assert (x0 + y <> 0) as N by (apply Hne; auto using in_cons, in_eq).
    rewrite GfDiv_mul in Hw. apply GfMul_integral in Hw as [Hw|Hw].
    - apply GfAdd_eq_0 in Hw. by subst.
    - by apply (GfInv_nonzero _ N). }
  intros y [<-|Hy]; [|by apply Hv].
  pose proof (Hsum x0 (or_introl eq_refl)) as E. cbn in E.
  rewrite (lsum_0 _ ys) in E by (intros y Hy; rewrite (Hv y Hy); reflexivity).
  rewrite GfAdd_0_r, GfDiv_mul in E. apply GfMul_integral in E as [E|E]; [done|].
  exfalso. apply GfInv_nonzero in E; [done|]. apply Hne; by left.
Qed.

Local Close Scope gf_scope.

(** * Encoding *)

Lemma region_loop k len (src : nat -> list u8) (coef : nat -> u8) out0 :
  length out0 = len ->
  let out := for_ k (fun c out => GfMulAddRegion out (src c) (coef c) len) out0 in
  length out = len /\
  forall p, p < len ->
    bget out p = GfAdd (bget out0 p) (gsum k (fun c => GfMul (coef c) (bget (src c) p))).
Proof.
  intros Hl.
  pose (P := fun c out => length out = len /\ forall p, p < len ->
    bget out p = GfAdd (bget out0 p) (gsum c (fun c => GfMul (coef c) (bget (src c) p)))).
  apply (for_ind P).
  - split; [done|]. intros p _. cbn. by rewrite GfAdd_0_r.
  - intros c out Hc [Hol Ho]. split; [by rewrite GfMulAddRegion_length|].
    intros p Hp. rewrite GfMulAddRegion_get by lia. rewrite decide_True by done.
    rewrite Ho by done. rewrite gsum_S. ring.
Qed.

Lemma EncodeParityShard_length rs r data len : length (EncodeParityShard rs r data len) = len.
Proof. apply region_loop. apply length_replicate. Qed.

Lemma EncodeParityShard_get rs r data len p :
  p < len ->
  bget (EncodeParityShard rs r data len) p =
  gsum (k_ rs) (fun c => GfMul (CauchyCoeff rs r c) (bget (shard data c) p)).
Proof.
  intros Hp. unfold EncodeParityShard.
  destruct (region_loop (k_ rs) len (shard data) (CauchyCoeff rs r) (replicate len Byte.x00)) as [_ H];
    [apply length_replicate|].
  rewrite H by done. by rewrite bget_replicate, GfAdd_0_l.
Qed.

(** The shard with global index [g]: data shards verbatim, then parity. *)
Definition codeword_shard (rs : ReedSolomon) (data : list (list u8)) (len g : nat) : list u8 :=
  if decide (g < k_ rs) then shard data g else EncodeParityShard rs (g - k_ rs) data len.

Definition data_ok (k len : nat) (data : list (list u8)) : Prop :=
  length data = k /\ Forall (fun s => length s = len) data.

Lemma data_ok_shard k len data c : data_ok k len data -> c < k -> length (shard data c) = len.
Proof.
  intros [Hk Hf] Hc. unfold shard. rewrite nth_lookup.
  destruct (lookup_lt_is_Some_2 data c) as [x E]; [lia|]. rewrite E.
  eapply Forall_lookup_1 in Hf; [|exact E]. done.
Qed.

Lemma data_ok_eq k len d d' :
  data_ok k len d -> data_ok k len d' ->
  (forall c p, c < k -> p < len -> bget (shard d c) p = bget (shard d' c) p) -> d = d'.
Proof.
  intros Hd Hd' H. apply (nth_ext _ _ [] []); [by rewrite (proj1 Hd), (proj1 Hd')|].
  intros c Hc. rewrite (proj1 Hd) in Hc. apply bget_eq.
  - rewrite (data_ok_shard k len d c Hd Hc : length (nth c d []) = len).
    by rewrite (data_ok_shard k len d' c Hd' Hc : length (nth c d' []) = len).
  - intros p Hp. rewrite (data_ok_shard k len d c Hd Hc : length (nth c d []) = len) in Hp.
    by apply H.
Qed.

Lemma codeword_shard_length rs data len g :
  data_ok (k_ rs) len data -> length (codeword_shard rs data len g) = len.
Proof.
  intros Hd. unfold codeword_shard. case_decide; [by eapply data_ok_shard|].
  apply EncodeParityShard_length.
Qed.

Lemma codeword_shard_get rs data len g p :
  p < len -> bget (codeword_shard rs data len g) p =
  gsum (k_ rs) (fun c => GfMul (generator rs g c) (bget (shard data c) p)).
Proof.
  intros Hp. unfold codeword_shard, generator. case_decide as Hg.
  - symmetry. by rewrite (gsum_delta (fun c => bget (shard data c) p)).
  - by apply EncodeParityShard_get.
Qed.

(** Whatever it decodes, [DecodeData] returns k buffers of [len] bytes. *)
Lemma DecodeData_data_ok rs idx shards len d :
  DecodeData rs idx shards len = Some d -> data_ok (k_ rs) len d.
Proof.
  unfold DecodeData. case_decide; [done|]. destruct (InvertMatrix _ _) as [inv|]; [|done].
  intros [= <-]. apply (for_ind (fun _ d => data_ok (k_ rs) len d)).
  - split; [apply length_replicate|]. apply Forall_replicate, length_replicate.
  - intros i d' Hi Hd. split; [rewrite length_insert; apply Hd|].
    apply Forall_insert; [apply Hd|]. apply region_loop. by eapply data_ok_shard.
Qed.

(** * The code is MDS: any k survivors determine the data *)

Definition survivors_ok (k m_max : nat) (idx : list nat) : Prop :=
  k <= length idx /\ NoDup (take k idx) /\ Forall (fun g => g < k + m_max) (take k idx).

Lemma NoDup_map_inj {A B} (f : A -> B) (l : list A) :
  (forall x y, In x l -> In y l -> f x = f y -> x = y) -> NoDup l -> NoDup (map f l).
Proof.
  intros Hf. induction 1 as [|x l Hx Hl IH]; cbn; constructor.
  - rewrite list_elem_of_In, in_map_iff. intros (y & E & Hy). apply Hx.
    rewrite list_elem_of_In. replace x with y; [done|]. apply Hf; [by right|by left|done].
  - apply IH. intros; apply Hf; auto using in_cons.
Qed.

Lemma filter_split_length {A} (P : A -> Prop) `{!forall x, Decision (P x)} (l : list A) :
  length (filter P l) + length (filter (fun x => ~ P x) l) = length l.
Proof.
  induction l as [|x l IH]; [done|]. rewrite !filter_cons.
  repeat case_decide; try tauto; cbn; lia.
Qed.

(** The columns no survivor stores verbatim. *)
Definition missing_columns (k : nat) (idx : list nat) : list nat :=
  filter (fun c => ~ c ∈ idx) (seq 0 k).

Lemma missing_columns_length k idx :
  NoDup idx -> length idx = k ->
  length (missing_columns k idx) = length (filter (fun g => ~ g < k) idx).
Proof.
  intros Hnd Hl.
  assert (Permutation (filter (fun c => c ∈ idx) (seq 0 k)) (filter (fun g => g < k) idx)) as Hp.
  { apply NoDup_Permutation; [apply NoDup_filter, NoDup_ListNoDup, seq_NoDup|by apply NoDup_filter|].
    intros x. rewrite !list_elem_of_filter, (list_elem_of_In (seq 0 k)), in_seq. intuition lia. }
  apply Permutation_length in Hp.
  pose proof (filter_split_length (fun c => c ∈ idx) (seq 0 k)) as H1. rewrite length_seq in H1.
  pose proof (filter_split_length (fun g => g < k) idx) as H2.
  unfold missing_columns. lia.
Qed.

Section MDS.
Context (k m_max : nat) (Hfit : k + m_max <= 256).
Abbreviation rs := (ReedSolomon_new k m_max).

(** A kernel vector is orthogonal to the generator row of every survivor. *)
Definition orthogonal (v : nat -> u8) (g : nat) : Prop :=
  gsum k (fun c => GfMul (generator rs g c) (v c)) = Byte.x00.

Lemma survivor_rows idx v :
  k <= length idx -> in_kernel (survivor_matrix rs idx) k v ->
  forall g, g ∈ take k idx -> orthogonal v g.
Proof using k m_max Hfit.
  intros Hlen Hv g Hg. apply list_elem_of_lookup in Hg as [i Hi].
  assert (i < k) as Hik by (apply lookup_lt_Some in Hi; rewrite length_take in Hi; lia).
  destruct (survivor_matrix_spec rs idx) as [_ Hm]. change (k_ rs) with k in Hm.
  unfold orthogonal. rewrite <- (Hv i Hik). unfold dot. apply gsum_ext. intros c Hc.
  rewrite (Hm i c Hik Hc). do 2 f_equal.
  rewrite lookup_take in Hi. destruct (decide (i < k)); [|done].
  by rewrite nth_lookup, Hi.
Qed.

Lemma orthogonal_data v c : c < k -> orthogonal v c -> v c = Byte.x00.
Proof using k m_max Hfit.
  intros Hc. unfold orthogonal, generator. change (k_ rs) with k.
  destruct (decide (c < k)); [|lia]. by rewrite gsum_delta.
Qed.

Lemma byte_of_nat_unsigned c : c < 256 -> Z.to_nat (byte.unsigned (byte_of_nat c)) = c.
Proof using k m_max Hfit.
  intros Hc. unfold byte_of_nat. rewrite byte.unsigned_of_Z. unfold byte.wrap.
  rewrite Z.mod_small by lia. lia.
Qed.

Lemma missing_columns_in idx c : In c (missing_columns k idx) <-> c < k /\ ~ c ∈ idx.
Proof using k m_max Hfit.
  unfold missing_columns. rewrite <- list_elem_of_In, list_elem_of_filter, (list_elem_of_In (seq 0 k)), in_seq.
  intuition lia.
Qed.

(** A parity survivor's equation, as a Cauchy sum over the missing columns. *)
Lemma orthogonal_parity idx v g :
  k <= g < k + m_max -> orthogonal v g -> (forall c, c < k -> c ∈ idx -> v c = Byte.x00) ->
  lsum (fun y => GfDiv (v (Z.to_nat (byte.unsigned y))) (GfAdd (byte_of_nat g) y))
       (map byte_of_nat (missing_columns k idx)) = Byte.x00.
Proof using k m_max Hfit.
  intros Hg Ho Hv. rewrite <- Ho.
  rewrite (lsum_filter (fun c => ~ c ∈ idx) _ (seq 0 k)).
  2: { intros c Hc Hn. apply in_seq in Hc. apply dec_stable in Hn.
       rewrite (Hv c ltac:(lia) Hn). apply GfMul_0_r. }
  fold (missing_columns k idx).
  assert (forall c, In c (missing_columns k idx) -> c < k) as Hck
    by (intros c Hc; apply missing_columns_in in Hc; tauto).
  revert Hck. generalize (missing_columns k idx). intros l Hck.
  induction l as [|c l IH]; [done|].
  cbn [map lsum]. rewrite IH by (intros; apply Hck; by right). f_equal.
  specialize (Hck c (or_introl eq_refl)). rewrite byte_of_nat_unsigned by lia.
  unfold generator. change (k_ rs) with k. rewrite decide_False by lia.
  rewrite CauchyCoeff_new by lia. replace (k + (g - k)) with g by lia.
  rewrite GfDiv_mul. ring.
Qed.

Lemma missing_columns_zero idx v c :
  NoDup idx -> length idx = k -> Forall (fun g => g < k + m_max) idx ->
  (forall g, g ∈ idx -> orthogonal v g) ->
  In c (missing_columns k idx) -> v c = Byte.x00.
Proof using k m_max Hfit.
  intros Hnd Hl Hlt Ho Hc.
  assert (forall g, In g (filter (fun g => ~ g < k) idx) -> g ∈ idx /\ k <= g < k + m_max) as Hgk.
  { intros g. rewrite <- list_elem_of_In, list_elem_of_filter. intros [Hgk Hin].
    rewrite Forall_forall in Hlt. specialize (Hlt g Hin). split; [done|lia]. }
  assert (c < k) as Hck by (apply missing_columns_in in Hc; tauto).
  rewrite <- (byte_of_nat_unsigned c) by lia.
  apply (cauchy_kernel (map byte_of_nat (missing_columns k idx))
           (map byte_of_nat (filter (fun g => ~ g < k) idx))
           (fun y => v (Z.to_nat (byte.unsigned y)))); [| | | | |by apply in_map].
  - apply NoDup_map_inj; [|apply NoDup_filter, NoDup_ListNoDup, seq_NoDup].
    intros x y Hx Hy. apply missing_columns_in in Hx, Hy. apply byte_of_nat_inj; lia.
  - apply NoDup_map_inj; [|by apply NoDup_filter].
    intros x y Hx Hy. apply Hgk in Hx, Hy. apply byte_of_nat_inj; lia.
  - rewrite !length_map. by apply missing_columns_length.
  - intros x y Hx Hy E. apply in_map_iff in Hx as (g & <- & Hg1), Hy as (c' & <- & Hc').
    apply Hgk in Hg1. apply missing_columns_in in Hc'. apply GfAdd_eq_0, byte_of_nat_inj in E; lia.
  - intros x Hx. apply in_map_iff in Hx as (g & <- & Hg1). apply Hgk in Hg1 as [Hin Hgr].
    apply orthogonal_parity; [done|by apply Ho|].
    intros c' Hc' Hin'. apply orthogonal_data; [done|by apply Ho].
Qed.

Lemma survivor_matrix_kernel idx :
  survivors_ok k m_max idx -> kernel_trivial (survivor_matrix rs idx) k.
Proof using k m_max Hfit.
  intros (Hlen & Hnd & Hlt) v Hv c Hc.
  pose proof (survivor_rows idx v Hlen Hv) as Ho.
  destruct (decide (c ∈ take k idx)) as [Hin|Hin].
  - apply orthogonal_data; [done|by apply Ho].
  - apply (missing_columns_zero (take k idx)); try done.
    + rewrite length_take. lia.
    + by apply missing_columns_in.
Qed.

(** Decoding from any k distinct shards of a codeword returns its data. *)
Lemma DecodeData_codeword idx shards len data :
  survivors_ok k m_max idx -> data_ok k len data ->
  (forall i, i < k -> shard shards i = codeword_shard rs data len (nth i idx 0)) ->
  DecodeData rs idx shards len = Some data.
Proof using k m_max Hfit.
  intros Hok Hdata Hsh. unfold DecodeData. change (k_ rs) with k.
  rewrite decide_False by (destruct Hok; lia).
  destruct (survivor_matrix_spec rs idx) as [Hl Hm]. change (k_ rs) with k in Hl, Hm.
  destruct (InvertMatrix_total _ _ Hl (survivor_matrix_kernel idx Hok)) as [inv E].
  rewrite E. destruct (InvertMatrix_left_inverse _ _ _ Hl E) as [Hil Hinv]. f_equal.
  pose (P := fun i d => data_ok k len d /\ (forall j, i <= j < k -> shard d j = replicate len Byte.x00) /\
    forall c, c < i -> shard d c = shard data c).
  assert (P k (for_ k (fun i data_out =>
      <[i := for_ k (fun j out => GfMulAddRegion out (shard shards j) (bget inv (i * k + j)) len)
               (shard data_out i)]> data_out) (replicate k (replicate len Byte.x00)))) as (Hd & _ & Hall).
  2: { apply (data_ok_eq k len); [done|done|]. intros c p Hc _. by rewrite Hall. }
  apply (for_ind P).
  - split; [|split; [|lia]].
    + split; [apply length_replicate|]. apply Forall_replicate, length_replicate.
    + intros j Hj. unfold shard. rewrite nth_lookup, lookup_replicate_2 by lia. done.
  - intros i d Hi (Hd & Hz & Hdone).
    destruct (region_loop k len (shard shards) (fun j => bget inv (i * k + j)) (shard d i)) as [Hol Ho];
      [by eapply data_ok_shard|].
    set (out := for_ k _ (shard d i)) in *.
    assert (out = shard data i) as ->.
    { apply bget_eq; [by rewrite Hol, (data_ok_shard k len data i)|].
      intros p Hp. rewrite Hol in Hp. rewrite Ho, Hz, bget_replicate, GfAdd_0_l by lia.
      rewrite (gsum_ext k _ (fun j => gsum k (fun c =>
        GfMul (GfMul (mget inv k i j) (mget (survivor_matrix rs idx) k j c)) (bget (shard data c) p)))).
      - rewrite (lsum_swap (fun j c =>
          GfMul (GfMul (mget inv k i j) (mget (survivor_matrix rs idx) k j c)) (bget (shard data c) p))).
        rewrite <- (gsum_delta (fun c => bget (shard data c) p) k i Hi).
        apply gsum_ext. intros c Hc. rewrite <- (Hinv i c Hi Hc), GfMul_comm, <- lsum_scale.
        apply lsum_ext. intros. ring.
      - intros j Hj. rewrite Hsh, codeword_shard_get by done. change (k_ rs) with k.
        rewrite <- lsum_scale. apply gsum_ext. intros c Hc. rewrite Hm by done.
        unfold mget. ring. }
    assert (i < length d) as Hid by (rewrite (proj1 Hd); done).
    assert (forall j, shard (<[i := shard data i]> d) j = if decide (i = j) then shard data i else shard d j) as Hs.
    { intros j. unfold shard. rewrite !nth_lookup. case_decide as Ej.
      - subst j. by rewrite list_lookup_insert_eq.
      - by rewrite list_lookup_insert_ne. }
    split; [split|split].
    + rewrite length_insert. apply Hd.
    + apply Forall_insert; [apply Hd|]. by eapply data_ok_shard.
    + intros j Hj. rewrite Hs, decide_False by lia. apply Hz. lia.
    + intros c Hc. rewrite Hs. case_decide; [by subst|]. apply Hdone. lia.
Qed.
End MDS.

Lemma Encode_map rs data len m :
  Encode rs data len m = map (fun r => EncodeParityShard rs r data len) (seq 0 m).
Proof.
  pose (P := fun r out => length out = m /\ forall i, i < m ->
    out !! i = Some (if decide (i < r) then EncodeParityShard rs i data len else replicate len Byte.x00)).
  assert (P m (Encode rs data len m)) as [Hl H].
  { apply (for_ind P).
    - split; [apply length_replicate|]. intros i Hi. rewrite decide_False by lia. by apply lookup_replicate_2.
    - intros r out Hr [Hl H]. split; [by rewrite length_insert|]. intros i Hi.
      destruct (decide (r = i)) as [->|].
      + by rewrite list_lookup_insert_eq, decide_True by lia.
      + rewrite list_lookup_insert_ne, H by done.
        destruct (decide (i < r)), (decide (i < S r)); try done; lia. }
  apply list_eq. intros i. destruct (decide (i < m)) as [Hi|Hi].
  - rewrite H, decide_True by done. change (map ?f ?l) with (f <$> l).
    rewrite list_lookup_fmap, lookup_seq_lt by done. done.
  - rewrite !lookup_ge_None_2; [done| |]; rewrite ?length_map, ?length_seq; lia.
Qed.

(** All [k + m] shards of a codeword: the data, then the parity. *)
Definition codeword (rs : ReedSolomon) (data : list (list u8)) (len m : nat) : list (list u8) :=
  data ++ Encode rs data len m.

Lemma codeword_nth rs data len m g :
  length data = k_ rs -> g < k_ rs + m ->
  shard (codeword rs data len m) g = codeword_shard rs data len g.
Proof.
  intros Hk Hg. unfold codeword, codeword_shard, shard. rewrite <- Hk in *.
  case_decide; [by rewrite app_nth1|]. rewrite app_nth2, Encode_map by lia.
  rewrite (nth_indep _ _ (EncodeParityShard rs 0 data len)) by (rewrite length_map, length_seq; lia).
  rewrite (map_nth (fun r => EncodeParityShard rs r data len)), seq_nth by lia. done.
Qed.

(** * Properties *)

(** Gauss-Jordan inversion over GF(2^8) succeeds exactly on the matrices
    with a trivial kernel, and what it returns is a left inverse. *)
Theorem InvertMatrix_correct (A : list u8) (n : nat) :
  length A = n * n ->
  ((exists out, InvertMatrix A n = Some out) <-> kernel_trivial A n) /\
  forall out, InvertMatrix A n = Some out ->
    length out = n * n /\
    forall r c, r < n -> c < n ->
      gsum n (fun j => GfMul (mget out n r j) (mget A n j c)) = delta r c.
Proof.
  intros Hl. split; [split|].
  - intros [out E]. eapply left_inverse_kernel, InvertMatrix_left_inverse; eauto.
  - by apply InvertMatrix_total.
  - intros out. by apply InvertMatrix_left_inverse.
Qed.

Definition example_matrix : list u8 := map byte_of_nat [2; 1; 3; 7].

Lemma InvertMatrix_correct_witness :
  length example_matrix = 2 * 2 /\
  exists out, InvertMatrix example_matrix 2 = Some out /\ length out = 2 * 2.
Proof.
  split; [reflexivity|].
  destruct (InvertMatrix example_matrix 2) as [out|] eqn:E; [|vm_compute in E; discriminate E].
  exists out. split; [reflexivity|].
  exact (proj1 (proj2 (InvertMatrix_correct example_matrix 2 eq_refl) out E)).
Defined.

(** C13. MDS reconstruction, the contract of the erasure code: with
    k + m_max <= 256, decoding from any k distinct shards of a codeword (data or
    parity, in any order) succeeds and returns the data. *)
Theorem DecodeData_any_k_shards (k m_max len : nat) (data : list (list u8)) (idx : list nat) :
  k + m_max <= 256 -> data_ok k len data -> survivors_ok k m_max idx ->
  let rs := ReedSolomon_new k m_max in
  DecodeData rs idx (map (shard (codeword rs data len m_max)) idx) len = Some data.
Proof.
  intros Hfit Hd Hok rs. apply DecodeData_codeword; try done.
  intros i Hi. destruct Hok as (Hlen & _ & Hlt).
  unfold shard at 1.
  rewrite (nth_indep _ _ (shard (codeword rs data len m_max) 0)) by (rewrite length_map; lia).
  rewrite (map_nth (shard (codeword rs data len m_max))).
  apply codeword_nth; [apply Hd|]. rewrite Forall_forall in Hlt. apply Hlt.
  apply list_elem_of_lookup. exists i. rewrite lookup_take, decide_True by done.
  rewrite nth_lookup. by destruct (lookup_lt_is_Some_2 idx i ltac:(lia)) as [x ->].
Qed.

Definition example_data : list (list u8) := [map byte_of_nat [1; 2; 3]; map byte_of_nat [250; 0; 77]].

Lemma DecodeData_any_k_shards_witness :
  let rs := ReedSolomon_new 2 2 in
  DecodeData rs [3; 0] (map (shard (codeword rs example_data 3 2)) [3; 0]) 3 = Some example_data /\
  (2 + 2 <= 256 /\ data_ok 2 3 example_data /\ survivors_ok 2 2 [3; 0]).
Proof.
  assert (data_ok 2 3 example_data) as Hd by (split; [reflexivity|repeat constructor]).
  assert (survivors_ok 2 2 [3; 0]) as Hs.
  { split; [simpl; lia|]. split; [by_decide|].
    repeat constructor; simpl; lia. }
  split; [apply (DecodeData_any_k_shards 2 2 3); [lia|exact Hd|exact Hs]|].
  split; [lia|]. split; [exact Hd|exact Hs].
Defined.

(** Incremental resilience: raising the parity count from [m] to [m + 1]
    appends one freshly encoded row and leaves every earlier row as it was; the
    rows are those of [EncodeParityShard]. *)
Theorem Encode_incremental (rs : ReedSolomon) (data : list (list u8)) (len m : nat) :
  Encode rs data len (S m) = Encode rs data len m ++ [EncodeParityShard rs m data len] /\
  length (Encode rs data len m) = m.
Proof.
  rewrite !Encode_map, seq_S, map_app. split; [done|]. by rewrite length_map, length_seq.
Qed.
