(* ===== verification/EcArray.v ===== *)
(** The striping and recovery layer: [safe_bdev/ec/ec_array.h].

    [MemberStore] (an abstract byte device in the source) is a type class of
    operations with a class of laws; [MemoryStore], the in-memory device of the
    source, is an instance of both. Members hold pointers to stores, so the
    stores live in a heap indexed by pointer and every operation threads that
    heap. A failing operation keeps the heap it had reached. *)
From Stdlib Require Import ZArith Lia.
From stdpp Require Import base list gmap.
From S2P Require Import Prelude Gf256 ReedSolomon.

(** * Member devices *)

Class MemberStore (S : Type) := {
  ms_Read : S -> Z -> nat -> option (list u8);
  ms_Write : S -> Z -> list u8 -> bool * S;
  ms_Capacity : S -> Z
}.

(** What the array relies on, for byte ranges that do not wrap around 2^64. A
    write touches only its own range, and promises nothing about that range when
    it returns false. *)
Class MemberStoreSpec (S : Type) `{MemberStore S} := {
  ms_read_length s off len l :
    (0 <= off)%Z -> (off + Z.of_nat len < 2 ^ 64)%Z ->
    ms_Read s off len = Some l -> length l = len;
  ms_read_write_same s off bs s' :
    (0 <= off)%Z -> (off + Z.of_nat (length bs) < 2 ^ 64)%Z ->
    ms_Write s off bs = (true, s') -> ms_Read s' off (length bs) = Some bs;
  ms_read_write_other s off bs ok s' off' len :
    (0 <= off)%Z -> (off + Z.of_nat (length bs) < 2 ^ 64)%Z ->
    (0 <= off')%Z -> (off' + Z.of_nat len < 2 ^ 64)%Z ->
    (off' + Z.of_nat len <= off)%Z \/ (off + Z.of_nat (length bs) <= off')%Z ->
    ms_Write s off bs = (ok, s') -> ms_Read s' off' len = ms_Read s off' len
}.

(** [class MemoryStore]: a byte vector. *)
Record MemoryStore := mkMemoryStore { buf_ : list u8 }.

Definition MemoryStore_new (capacity : nat) : MemoryStore := mkMemoryStore (replicate capacity Byte.x00).

Definition MemoryStore_Read (s : MemoryStore) (offset : Z) (len : nat) : option (list u8) :=
  if (Z.of_nat (length (buf_ s)) <? u64 (offset + Z.of_nat len))%Z then None
  else Some (take len (drop (Z.to_nat offset) (buf_ s))).

Definition MemoryStore_Write (s : MemoryStore) (offset : Z) (bs : list u8) : bool * MemoryStore :=
  if (Z.of_nat (length (buf_ s)) <? u64 (offset + Z.of_nat (length bs)))%Z then (false, s)
  else
    let o := Z.to_nat offset in
    (true, mkMemoryStore (take o (buf_ s) ++ bs ++ drop (o + length bs) (buf_ s))).

Definition MemoryStore_Capacity (s : MemoryStore) : Z := Z.of_nat (length (buf_ s)).

#[export] Instance MemoryStore_ops : MemberStore MemoryStore := {
  ms_Read := MemoryStore_Read;
  ms_Write := MemoryStore_Write;
  ms_Capacity := MemoryStore_Capacity
}.

(** * The array's data *)

Inductive EcRole := kData | kParity.
Inductive EcState := kActive | kFaulty | kRemoved.

#[export] Instance EcRole_eq_dec : EqDecision EcRole.
Proof. solve_decision. Defined.
#[export] Instance EcState_eq_dec : EqDecision EcState.
Proof. solve_decision. Defined.

(** [store] is the pointer: a key of the store heap. *)
Record EcMember := mkEcMember { em_store : nat; em_role : EcRole; em_state : EcState; em_index : nat }.

Record EcArray := mkEcArray {
  ec_shard_len : nat;
  ec_num_stripes : nat;
  ec_k : nat;
  ec_m_max : nat;
  ec_rs : ReedSolomon;
  ec_parity_level : nat;
  ec_members : list EcMember
}.

Definition set_members (a : EcArray) (ms : list EcMember) : EcArray :=
  mkEcArray (ec_shard_len a) (ec_num_stripes a) (ec_k a) (ec_m_max a) (ec_rs a) (ec_parity_level a) ms.

Definition set_parity_level (a : EcArray) (p : nat) : EcArray :=
  mkEcArray (ec_shard_len a) (ec_num_stripes a) (ec_k a) (ec_m_max a) (ec_rs a) p (ec_members a).

Definition set_state (m : EcMember) (st : EcState) : EcMember :=
  mkEcMember (em_store m) (em_role m) st (em_index m).

Definition EcArray_new (shard_len num_stripes k m_max : nat) (data_stores : list nat) : EcArray :=
  mkEcArray shard_len num_stripes k m_max (ReedSolomon_new k m_max) 0
    (for_ k (fun c members => members ++ [mkEcMember (nth c data_stores 0) kData kActive c]) []).

Definition DataMemberIndex (a : EcArray) (c : nat) : nat := c.
Definition ParityMemberIndex (a : EcArray) (r : nat) : nat := ec_k a + r.

(** Byte offset of slot [s] for shards of [len] bytes. *)
Definition slot_off (len s : nat) : Z := u64 (Z.of_nat s * Z.of_nat len).

Definition stripe_off (a : EcArray) (stripe : nat) : Z := slot_off (ec_shard_len a) stripe.

(** The survivor scan shared by the two array layouts: skip some members, read
    the others, stop at the k-th buffer; a failing read aborts. *)
Fixpoint collect_survivors {M} (k : nat) (skip : nat -> M -> bool) (read : M -> option (list u8))
    (global : nat -> M -> nat) (i : nat) (ms : list M) (idx : list nat) (bufs : list (list u8))
    : option (list nat * list (list u8)) :=
  match ms with
  | [] => Some (idx, bufs)
  | m :: ms =>
      if skip i m then collect_survivors k skip read global (S i) ms idx bufs
      else
        match read m with
        | None => None
        | Some b =>
            let idx := idx ++ [global i m] in
            let bufs := bufs ++ [b] in
            if decide (length idx = k) then Some (idx, bufs)
            else collect_survivors k skip read global (S i) ms idx bufs
        end
  end.

Section EcArrayOps.
Context {S : Type} {HMS : MemberStore S}.
Implicit Types (h : gmap nat S) (a : EcArray).

(** [store->Read] and [store->Write] through the pointer. *)
Definition store_read h (p : nat) (off : Z) (len : nat) : option (list u8) :=
  match h !! p with
  | Some s => ms_Read s off len
  | None => None
  end.

Definition store_write h (p : nat) (off : Z) (bs : list u8) : bool * gmap nat S :=
  match h !! p with
  | Some s => let '(ok, s') := ms_Write s off bs in (ok, <[p := s']> h)
  | None => (false, h)
  end.

Definition WriteParityForStripe h a (stripe : nat) (data_shards : list (list u8)) : bool * gmap nat S :=
  if decide (ec_parity_level a = 0) then (true, h)
  else
    let off := stripe_off a stripe in
    for_ok (ec_parity_level a) (fun r h =>
      match ec_members a !! ParityMemberIndex a r with
      | None => (false, h)
      | Some pm =>
          if decide (em_state pm = kActive) then
            store_write h (em_store pm) off
              (EncodeParityShard (ec_rs a) r data_shards (ec_shard_len a))
          else (true, h)
      end) h.

Definition WriteStripe h a (stripe : nat) (data_shards : list (list u8)) : bool * gmap nat S :=
  if decide (ec_num_stripes a <= stripe \/ length data_shards <> ec_k a) then (false, h)
  else
    let off := stripe_off a stripe in
    let '(ok, h) :=
      for_ok (ec_k a) (fun c h =>
        match ec_members a !! c with
        | None => (false, h)
        | Some m =>
            if decide (em_state m = kActive) then
              store_write h (em_store m) off (take (ec_shard_len a) (shard data_shards c))
            else (true, h)
        end) h in
    if ok then WriteParityForStripe h a stripe data_shards else (false, h).

Definition ReconstructStripeData h a (stripe : nat) (exclude : option nat) : option (list (list u8)) :=
  let off := stripe_off a stripe in
  match collect_survivors (ec_k a)
          (fun i m => bool_decide (exclude = Some i) || bool_decide (em_state m <> kActive))
          (fun m => store_read h (em_store m) off (ec_shard_len a))
          (fun _ m => match em_role m with kData => em_index m | kParity => ec_k a + em_index m end)
          0 (ec_members a) [] [] with
  | None => None
  | Some (idx, bufs) =>
      if decide (length idx < ec_k a) then None
      else DecodeData (ec_rs a) idx bufs (ec_shard_len a)
  end.

Definition member_active (ms : list EcMember) (i : nat) : bool :=
  match ms !! i with
  | Some m => bool_decide (em_state m = kActive)
  | None => false
  end.

Definition ReadStripeData h a (stripe : nat) : option (list (list u8)) :=
  if decide (ec_num_stripes a <= stripe) then None
  else if forallb (member_active (ec_members a)) (seq 0 (ec_k a)) then
    let off := stripe_off a stripe in
    for_opt (ec_k a) (fun c out =>
      match ec_members a !! c with
      | None => None
      | Some m =>
          match store_read h (em_store m) off (ec_shard_len a) with
          | None => None
          | Some b => Some (<[c := b]> out)
          end
      end) (replicate (ec_k a) (replicate (ec_shard_len a) Byte.x00))
  else ReconstructStripeData h a stripe None.

Definition ReadDataShard h a (stripe c : nat) : option (list u8) :=
  match ec_members a !! c with
  | None => None
  | Some m =>
      if decide (em_state m = kActive) then
        store_read h (em_store m) (stripe_off a stripe) (ec_shard_len a)
      else
        match ReconstructStripeData h a stripe None with
        | None => None
        | Some data => Some (shard data c)
        end
  end.

(** Returns the new parity level ([None] for -1), the heap and the array. *)
Definition AddParityDrive h a (store : nat) : option nat * gmap nat S * EcArray :=
  if decide (ec_m_max a <= ec_parity_level a) then (None, h, a)
  else
    let r := ec_parity_level a in
    let a1 := set_members a (ec_members a ++ [mkEcMember store kParity kActive r]) in
    let '(ok, h) :=
      for_ok (ec_num_stripes a) (fun s h =>
        match ReadStripeData h a1 s with
        | None => (false, h)
        | Some data =>
            store_write h store (stripe_off a s) (EncodeParityShard (ec_rs a) r data (ec_shard_len a))
        end) h in
    if ok then (Some (Datatypes.S r), h, set_parity_level a1 (Datatypes.S r)) else (None, h, a).

Definition MarkFaulty a (member_index : nat) : EcArray :=
  set_members a (alter (fun m => set_state m kFaulty) member_index (ec_members a)).

Definition RemoveDrive a (member_index : nat) (was_faulty : bool) : EcArray :=
  set_members a (alter (fun m => set_state m (if was_faulty then kFaulty else kRemoved))
                       member_index (ec_members a)).

Definition RecoverMember h a (member_index new_store : nat) : bool * gmap nat S * EcArray :=
  match ec_members a !! member_index with
  | None => (false, h, a)
  | Some m =>
      let '(ok, h) :=
        for_ok (ec_num_stripes a) (fun s h =>
          match ReconstructStripeData h a s (Some member_index) with
          | None => (false, h)
          | Some data =>
              let sh := match em_role m with
                        | kData => shard data (em_index m)
                        | kParity => EncodeParityShard (ec_rs a) (em_index m) data (ec_shard_len a)
                        end in
              store_write h new_store (stripe_off a s) sh
          end) h in
      if ok then
        (true, h, set_members a (<[member_index :=
           mkEcMember new_store (em_role m) kActive (em_index m)]> (ec_members a)))
      else (false, h, a)
  end.
End EcArrayOps.

(** * The in-memory device satisfies the interface *)

Lemma MemoryStore_Read_ok s off len :
  (0 <= off)%Z -> (off + Z.of_nat len < 2 ^ 64)%Z ->
  MemoryStore_Read s off len =
  if decide (Z.to_nat off + len <= length (buf_ s)) then Some (take len (drop (Z.to_nat off) (buf_ s)))
  else None.
Proof.
  intros H0 H1. unfold MemoryStore_Read. rewrite u64_small by lia.
  destruct (Z.ltb_spec (Z.of_nat (length (buf_ s))) (off + Z.of_nat len)); case_decide; try done; lia.
Qed.

Lemma MemoryStore_Write_ok s off bs :
  (0 <= off)%Z -> (off + Z.of_nat (length bs) < 2 ^ 64)%Z ->
  MemoryStore_Write s off bs =
  if decide (Z.to_nat off + length bs <= length (buf_ s)) then
    (true, mkMemoryStore (take (Z.to_nat off) (buf_ s) ++ bs ++ drop (Z.to_nat off + length bs) (buf_ s)))
  else (false, s).
Proof.
  intros H0 H1. unfold MemoryStore_Write. rewrite u64_small by lia.
  destruct (Z.ltb_spec (Z.of_nat (length (buf_ s))) (off + Z.of_nat (length bs))); case_decide; try done; lia.
Qed.

Lemma splice_length {A} (l bs : list A) o :
  o + length bs <= length l -> length (take o l ++ bs ++ drop (o + length bs) l) = length l.
Proof. intros H. rewrite !length_app, length_take, length_drop. lia. Qed.

Lemma splice_same {A} (l bs : list A) o :
  o + length bs <= length l -> take (length bs) (drop o (take o l ++ bs ++ drop (o + length bs) l)) = bs.
Proof.
  intros H. rewrite drop_app_length' by (rewrite length_take; lia). apply take_app_length.
Qed.

Lemma splice_other {A} (l bs : list A) o o' n :
  o + length bs <= length l -> o' + n <= length l -> o' + n <= o \/ o + length bs <= o' ->
  take n (drop o' (take o l ++ bs ++ drop (o + length bs) l)) = take n (drop o' l).
Proof.
  intros H1 H2 H3. apply list_eq. intros i.
  destruct (decide (i < n)) as [Hi|Hi].
  2: { rewrite !lookup_take, !decide_False by done. done. }
  rewrite !lookup_take, !decide_True, !lookup_drop by done.
  destruct H3 as [H3|H3].
  - rewrite lookup_app_l by (rewrite length_take; lia). rewrite lookup_take, decide_True by lia. done.
  - rewrite lookup_app_r by (rewrite length_take; lia).
    rewrite lookup_app_r by (rewrite length_take; lia). rewrite lookup_drop, length_take.
    f_equal. lia.
Qed.

#[export] Instance MemoryStore_spec : MemberStoreSpec MemoryStore.
Proof.
  split; cbn [ms_Read ms_Write MemoryStore_ops].
  - intros s off len l H0 H1. rewrite MemoryStore_Read_ok by done. case_decide; [|done].
    intros [= <-]. rewrite length_take, length_drop. lia.
  - intros s off bs s' H0 H1. rewrite MemoryStore_Write_ok by done. case_decide; [|done].
    intros [= <-]. rewrite MemoryStore_Read_ok by done. cbn [buf_].
    rewrite splice_length, decide_True, splice_same by done. done.
  - intros s off bs ok s' off' len H0 H1 H0' H1' Hd. rewrite MemoryStore_Write_ok by done.
    case_decide; [|by intros [= _ <-]]. intros [= _ <-]. rewrite !MemoryStore_Read_ok by done. cbn [buf_].
    rewrite splice_length by done. case_decide; [|done]. rewrite splice_other; [done|done|done|lia].
Qed.

(** * Heaps *)

Section Heap.
Context {S : Type} {HMS : MemberStore S} {MS : MemberStoreSpec S}.
Implicit Types (h : gmap nat S).

(** The heaps agree everywhere but at store [p]. *)
Definition heap_frame (p : nat) h h' : Prop := forall q, q <> p -> h' !! q = h !! q.

Lemma heap_frame_refl p h : heap_frame p h h.
Proof using. done. Qed.

Lemma heap_frame_trans p h h1 h2 : heap_frame p h h1 -> heap_frame p h1 h2 -> heap_frame p h h2.
Proof using. intros H1 H2 q Hq. by rewrite H2, H1. Qed.

Lemma store_write_frame h p off bs ok h' : store_write h p off bs = (ok, h') -> heap_frame p h h'.
Proof using.
  unfold store_write. destruct (h !! p) as [s|]; [|by intros [= _ <-]].
  destruct (ms_Write s off bs) as [ok' s']. intros [= _ <-] q Hq. by rewrite lookup_insert_ne.
Qed.

Lemma store_read_frame p h h' q off len :
  heap_frame p h h' -> q <> p -> store_read h' q off len = store_read h q off len.
Proof using. intros Hf Hq. unfold store_read. by rewrite Hf. Qed.

Lemma store_write_same h p off bs h' :
  (0 <= off)%Z -> (off + Z.of_nat (length bs) < 2 ^ 64)%Z ->
  store_write h p off bs = (true, h') -> store_read h' p off (length bs) = Some bs.
Proof using MS.
  intros H0 H1. unfold store_write, store_read. destruct (h !! p) as [s|]; [|done].
  destruct (ms_Write s off bs) as [ok' s'] eqn:E. intros [= -> <-].
  rewrite lookup_insert_eq. by eapply ms_read_write_same.
Qed.

Lemma store_write_other h p off bs ok h' q off' len :
  (0 <= off)%Z -> (off + Z.of_nat (length bs) < 2 ^ 64)%Z ->
  (0 <= off')%Z -> (off' + Z.of_nat len < 2 ^ 64)%Z ->
  (off' + Z.of_nat len <= off)%Z \/ (off + Z.of_nat (length bs) <= off')%Z ->
  store_write h p off bs = (ok, h') -> store_read h' q off' len = store_read h q off' len.
Proof using MS.
  intros H0 H1 H0' H1' Hd Hw. destruct (decide (q = p)) as [->|Hq].
  - revert Hw. unfold store_write, store_read. destruct (h !! p) as [s|] eqn:Hp; [|by intros [= _ <-]; rewrite Hp].
    destruct (ms_Write s off bs) as [ok' s'] eqn:E. intros [= -> <-].
    rewrite lookup_insert_eq. exact (ms_read_write_other s off bs ok s' off' len H0 H1 H0' H1' Hd E).
  - by eapply store_read_frame; [eapply store_write_frame|].
Qed.

(** ** Slots: shard [s] of [num] lives in [s * len, (s + 1) * len) *)

Lemma slot_off_nonneg len s : (0 <= slot_off len s)%Z.
Proof using. apply u64_range. Qed.

Lemma slot_off_eq len num s :
  (Z.of_nat num * Z.of_nat len < 2 ^ 64)%Z -> s < num ->
  slot_off len s = (Z.of_nat s * Z.of_nat len)%Z /\ (slot_off len s + Z.of_nat len < 2 ^ 64)%Z.
Proof using.
  intros Hcap Hs.
  destruct (decide (len = 0)) as [->|Hlen].
  { unfold slot_off. rewrite Z.mul_0_r. split; [done|]. vm_compute. done. }
  assert (Z.of_nat s * Z.of_nat len + Z.of_nat len <= Z.of_nat num * Z.of_nat len)%Z by nia.
  unfold slot_off. rewrite u64_small by lia. split; [done|lia].
Qed.

Lemma slots_disjoint len num s s' :
  (Z.of_nat num * Z.of_nat len < 2 ^ 64)%Z -> s < num -> s' < num -> s' <> s ->
  (slot_off len s' + Z.of_nat len <= slot_off len s)%Z \/
  (slot_off len s + Z.of_nat len <= slot_off len s')%Z.
Proof using.
  intros Hcap Hs Hs' Hne.
  destruct (slot_off_eq len num s Hcap Hs) as [-> _], (slot_off_eq len num s' Hcap Hs') as [-> _]. nia.
Qed.

Definition slot_read h (len p s : nat) : option (list u8) := store_read h p (slot_off len s) len.

Lemma slot_write_same h len num p s bs h' :
  (Z.of_nat num * Z.of_nat len < 2 ^ 64)%Z -> s < num -> length bs = len ->
  store_write h p (slot_off len s) bs = (true, h') -> slot_read h' len p s = Some bs.
Proof using MS.
  intros Hcap Hs Hl Hw. destruct (slot_off_eq len num s Hcap Hs) as [_ Hb].
  unfold slot_read. rewrite <- Hl at 2. eapply store_write_same; [apply slot_off_nonneg|lia|done].
Qed.

Lemma slot_write_other h len num p s bs ok h' q s' :
  (Z.of_nat num * Z.of_nat len < 2 ^ 64)%Z -> s < num -> s' < num -> s' <> s -> length bs = len ->
  store_write h p (slot_off len s) bs = (ok, h') -> slot_read h' len q s' = slot_read h len q s'.
Proof using MS.
  intros Hcap Hs Hs' Hne Hl Hw.
  destruct (slot_off_eq len num s Hcap Hs) as [_ Hb], (slot_off_eq len num s' Hcap Hs') as [_ Hb'].
  pose proof (slots_disjoint len num s s' Hcap Hs Hs' Hne).
  refine (store_write_other h p _ bs ok h' q _ _ _ _ _ _ _ Hw); try apply slot_off_nonneg;
    rewrite ?Hl; [done|done|tauto].
Qed.
End Heap.

(** * The survivor scan *)

Section Survivors.
Context {M : Type} (k : nat) (skip : nat -> M -> bool) (read : M -> option (list u8))
        (global : nat -> M -> nat).

Fixpoint surv_list (i : nat) (ms : list M) : list nat :=
  match ms with
  | [] => []
  | m :: ms => if skip i m then surv_list (S i) ms else global i m :: surv_list (S i) ms
  end.

(** Every member the scan may read holds the buffer [B] of its global index. *)
Definition reads_ok (B : nat -> list u8) (i : nat) (ms : list M) : Prop :=
  forall j m, ms !! j = Some m -> skip (i + j) m = false -> read m = Some (B (global (i + j) m)).

Lemma reads_ok_cons B i m ms :
  reads_ok B i (m :: ms) -> (skip i m = false -> read m = Some (B (global i m))) /\ reads_ok B (S i) ms.
Proof using.
  intros H. split.
  - intros Hs. specialize (H 0 m eq_refl). rewrite Nat.add_0_r in H. by apply H.
  - intros j m' Hm. specialize (H (S j) m' Hm). by rewrite Nat.add_succ_r in H.
Qed.

Lemma collect_survivors_spec B i ms idx :
  length idx < k -> reads_ok B i ms ->
  let idx' := idx ++ take (k - length idx) (surv_list i ms) in
  collect_survivors k skip read global i ms idx (map B idx) = Some (idx', map B idx').
Proof using.
  revert i idx. induction ms as [|m ms IH]; intros i idx Hlt Hr; cbn [collect_survivors surv_list].
  - by rewrite take_nil, app_nil_r.
  - apply reads_ok_cons in Hr as [Hm Hr]. destruct (skip i m) eqn:Hs; [by apply IH|].
    rewrite (Hm eq_refl). rewrite length_app. cbn [length].
    assert (map B idx ++ [B (global i m)] = map B (idx ++ [global i m])) as -> by by rewrite map_app.
    case_decide as Hk.
    + replace (k - length idx) with 1 by lia. done.
    + rewrite IH by (done || rewrite length_app; cbn; lia). rewrite length_app. cbn [length].
      replace (k - length idx) with (S (k - (length idx + 1))) by lia.
      cbn [take]. by rewrite <- app_assoc.
Qed.

(** Members behind a prefix that already yields k survivors are not looked at. *)
Lemma collect_survivors_app B i ms ms' idx bufs :
  length idx < k -> reads_ok B i ms -> k <= length idx + length (surv_list i ms) ->
  collect_survivors k skip read global i (ms ++ ms') idx bufs =
  collect_survivors k skip read global i ms idx bufs.
Proof using.
  revert i idx bufs. induction ms as [|m ms IH]; intros i idx bufs Hlt Hr Hk; cbn in *; [lia|].
  apply reads_ok_cons in Hr as [Hm Hr]. destruct (skip i m) eqn:Hs; [by apply IH|].
  rewrite (Hm eq_refl). case_decide as E; [done|].
  rewrite length_app in E. cbn in E, Hk. apply IH; [|done|]; rewrite length_app; cbn; lia.
Qed.

Lemma surv_list_filter (Q : nat -> Prop) `{!forall i, Decision (Q i)} i ms :
  (forall j m, ms !! j = Some m -> global (i + j) m = i + j /\ (skip (i + j) m = false <-> Q (i + j))) ->
  surv_list i ms = filter Q (seq i (length ms)).
Proof using.
  revert i. induction ms as [|m ms IH]; intros i Hi; [done|]. cbn [surv_list length seq].
  rewrite filter_cons. rewrite IH.
  - destruct (Hi 0 m eq_refl) as [Hg Hq]. rewrite Nat.add_0_r in Hg, Hq.
    destruct (skip i m); case_decide as HQ; try done.
    + by apply Hq in HQ.
    + by rewrite Hg.
    + exfalso. by apply HQ, Hq.
  - intros j m' Hj. specialize (Hi (S j) m' Hj). by rewrite Nat.add_succ_r in Hi.
Qed.
End Survivors.

(** A decode of the first k of a list of good survivors. *)
Lemma DecodeData_survivors k m_max len data L :
  0 < k -> k + m_max <= 256 -> data_ok k len data ->
  k <= length L -> NoDup L -> Forall (fun g => g < k + m_max) L ->
  let rs := ReedSolomon_new k m_max in
  DecodeData rs (take k L) (map (codeword_shard rs data len) (take k L)) len = Some data.
Proof.
  intros Hk Hfit Hd Hl Hnd Hlt rs. apply DecodeData_codeword; [done| |done|].
  - unfold survivors_ok. rewrite take_take, Nat.min_id, length_take.
    split; [lia|]. split; [eapply sublist_NoDup; [done|apply sublist_take]|by apply Forall_take].
  - intros i Hi. unfold shard at 1.
    rewrite (nth_indep _ _ (codeword_shard rs data len 0)) by (rewrite length_map, length_take; lia).
    by rewrite (map_nth (codeword_shard rs data len)).
Qed.

(** * The invariant *)

(** [available a excl]: the indices of the active members, in order, leaving
    out [excl]. *)
Definition available (a : EcArray) (excl : option nat) : list nat :=
  filter (fun i => excl <> Some i /\ member_active (ec_members a) i = true)
         (seq 0 (length (ec_members a))).

Record ec_wf (a : EcArray) : Prop := {
  wf_k : 0 < ec_k a;
  wf_fit : ec_k a + ec_m_max a <= 256;
  wf_rs : ec_rs a = ReedSolomon_new (ec_k a) (ec_m_max a);
  wf_level : ec_parity_level a <= ec_m_max a;
  wf_len : length (ec_members a) = ec_k a + ec_parity_level a;
  wf_roles : forall i m, ec_members a !! i = Some m ->
    if decide (i < ec_k a) then em_role m = kData /\ em_index m = i
    else em_role m = kParity /\ em_index m = i - ec_k a;
  wf_stores : NoDup (map em_store (ec_members a));
  wf_cap : (Z.of_nat (ec_num_stripes a) * Z.of_nat (ec_shard_len a) < 2 ^ 64)%Z
}.

(** What a stripe holds; [None] when it was never (completely) written. *)
Abbreviation contents := (nat -> option (list (list u8))) (only parsing).

Section Invariant.
Context {S : Type} {HMS : MemberStore S} {MS : MemberStoreSpec S}.
Implicit Types (h : gmap nat S) (a : EcArray) (D : contents).

(** Every active member (but [excl]) stores its shard of every written stripe. *)
Definition ec_holds (excl : option nat) h a D : Prop :=
  forall s d, D s = Some d ->
    s < ec_num_stripes a /\ data_ok (ec_k a) (ec_shard_len a) d /\
    forall i m, ec_members a !! i = Some m -> excl <> Some i -> em_state m = kActive ->
      store_read h (em_store m) (stripe_off a s) (ec_shard_len a) =
      Some (codeword_shard (ec_rs a) d (ec_shard_len a) i).

Definition ec_inv h a D : Prop := ec_wf a /\ ec_holds None h a D.

Lemma ec_holds_excl excl h a D : ec_holds None h a D -> ec_holds excl h a D.
Proof using. intros H s d Hd. destruct (H s d Hd) as (? & ? & Hr). split_and!; try done. intros. by apply Hr. Qed.

Lemma stripe_off_eq a s :
  ec_wf a -> s < ec_num_stripes a ->
  stripe_off a s = (Z.of_nat s * Z.of_nat (ec_shard_len a))%Z /\
  (stripe_off a s + Z.of_nat (ec_shard_len a) < 2 ^ 64)%Z.
Proof using. intros Hwf. by apply slot_off_eq, wf_cap. Qed.

Lemma stripe_off_nonneg a s : (0 <= stripe_off a s)%Z.
Proof using. apply slot_off_nonneg. Qed.

Lemma ec_rs_k a : ec_wf a -> k_ (ec_rs a) = ec_k a.
Proof using. intros Hwf. by rewrite (wf_rs a Hwf). Qed.

(** Distinct members have distinct stores. *)
Lemma stores_inj a i j m m' :
  ec_wf a -> ec_members a !! i = Some m -> ec_members a !! j = Some m' ->
  em_store m = em_store m' -> i = j.
Proof using.
  intros Hwf Hi Hj E. eapply NoDup_lookup; [apply (wf_stores a Hwf)| |].
  - change (map em_store ?l) with (em_store <$> l). by rewrite list_lookup_fmap, Hi.
  - change (map em_store ?l) with (em_store <$> l). by rewrite list_lookup_fmap, Hj, E.
Qed.

(** ** Reading *)

Abbreviation ec_skip excl := (fun i (m : EcMember) =>
  bool_decide (excl = Some i) || bool_decide (em_state m <> kActive)) (only parsing).
Abbreviation ec_global a := (fun (_ : nat) (m : EcMember) =>
  match em_role m with kData => em_index m | kParity => ec_k a + em_index m end) (only parsing).

Lemma ec_global_eq a i m : ec_wf a -> ec_members a !! i = Some m -> ec_global a i m = i.
Proof using.
  intros Hwf Hi. pose proof (wf_roles a Hwf i m Hi) as Hr.
  case_decide; destruct Hr as [-> ->]; lia.
Qed.

Lemma surv_list_available a excl :
  ec_wf a -> surv_list (ec_skip excl) (ec_global a) 0 (ec_members a) = available a excl.
Proof using.
  intros Hwf. apply surv_list_filter. intros j m Hj. rewrite Nat.add_0_l.
  split; [by apply ec_global_eq|]. unfold member_active. rewrite Hj.
  rewrite orb_false_iff, bool_decide_eq_false, bool_decide_eq_false, bool_decide_eq_true.
  split; [intros [? ?%dec_stable]; done|intros [? ?]; split; [done|]; by intros Hn].
Qed.

Lemma available_ok a excl :
  ec_wf a -> NoDup (available a excl) /\ Forall (fun g => g < ec_k a + ec_m_max a) (available a excl).
Proof using.
  intros Hwf. split; [apply NoDup_filter, NoDup_ListNoDup, seq_NoDup|].
  apply Forall_forall. intros g Hg. apply list_elem_of_filter in Hg as [_ Hg].
  rewrite list_elem_of_In, in_seq, (wf_len a Hwf) in Hg. pose proof (wf_level a Hwf). lia.
Qed.

Lemma ec_reads_ok excl h a D s d :
  ec_wf a -> ec_holds excl h a D -> D s = Some d ->
  reads_ok (ec_skip excl)
    (fun m => store_read h (em_store m) (stripe_off a s) (ec_shard_len a)) (ec_global a)
    (codeword_shard (ec_rs a) d (ec_shard_len a)) 0 (ec_members a).
Proof using.
  intros Hwf Hh Hd j m Hj Hs. rewrite Nat.add_0_l in *.
  apply orb_false_iff in Hs as [He%bool_decide_eq_false Ha%bool_decide_eq_false].
  apply dec_stable in Ha. rewrite (ec_global_eq a j m Hwf Hj).
  by apply (Hh s d Hd).
Qed.

Lemma ReconstructStripeData_eq excl h a D s d :
  ec_wf a -> ec_holds excl h a D -> D s = Some d ->
  ReconstructStripeData h a s excl =
  if decide (ec_k a <= length (available a excl)) then Some d else None.
Proof using.
  intros Hwf Hh Hd. unfold ReconstructStripeData.
  pose proof (collect_survivors_spec (ec_k a) _ _ _ _ _ _ [] (wf_k a Hwf) (ec_reads_ok excl h a D s d Hwf Hh Hd))
    as Hc.
  cbn [length map app] in Hc. rewrite Nat.sub_0_r, surv_list_available in Hc by done.
  rewrite Hc. rewrite length_take.
  destruct (decide (ec_k a <= _)) as [Hle|Hle]; [|by rewrite decide_True by lia].
  rewrite decide_False by lia. destruct (available_ok a excl Hwf).
  rewrite (wf_rs a Hwf) at 1 2. apply DecodeData_survivors; try done; try apply Hwf.
  apply (Hh s d Hd).
Qed.

Lemma ReadStripeData_eq h a D s d :
  ec_inv h a D -> D s = Some d -> ec_k a <= length (available a None) ->
  ReadStripeData h a s = Some d.
Proof using.
  intros [Hwf Hh] Hd Hav. destruct (Hh s d Hd) as (Hs & Hok & Hr). unfold ReadStripeData.
  rewrite decide_False by lia. destruct (forallb _ _) eqn:Hall.
  2: { rewrite (ReconstructStripeData_eq None h a D s d) by done. by rewrite decide_True. }
  rewrite forallb_forall in Hall.
  pose (P := fun c (out : list (list u8)) => length out = ec_k a /\
    forall j, j < c -> out !! j = Some (shard d j)).
  destruct (for_opt_total P (ec_k a) (fun c out =>
      match ec_members a !! c with
      | None => None
      | Some m => match store_read h (em_store m) (stripe_off a s) (ec_shard_len a) with
                  | None => None | Some b => Some (<[c := b]> out) end
      end) (replicate (ec_k a) (replicate (ec_shard_len a) Byte.x00))) as (out & -> & Hl & Ho).
  - split; [apply length_replicate|lia].
  - intros c out Hc [Hl Ho]. specialize (Hall c). rewrite in_seq in Hall. specialize (Hall ltac:(lia)).
    unfold member_active in Hall. destruct (ec_members a !! c) as [m|] eqn:Hm; [|done].
    apply bool_decide_eq_true in Hall. rewrite (Hr c m) by done.
    unfold codeword_shard. rewrite (ec_rs_k a Hwf).
    rewrite decide_True by done. eexists. split; [done|]. split; [by rewrite length_insert|].
    intros j Hj. destruct (decide (c = j)) as [->|].
    + by rewrite list_lookup_insert_eq by lia.
    + rewrite list_lookup_insert_ne by done. apply Ho. lia.
  - f_equal. apply list_eq. intros i. destruct (decide (i < ec_k a)) as [Hi|Hi].
    + rewrite Ho by done. unfold shard. rewrite nth_lookup.
      by destruct (lookup_lt_is_Some_2 d i ltac:(destruct Hok; lia)) as [x ->].
    + rewrite !lookup_ge_None_2; [done| |]; destruct Hok; lia.
Qed.
End Invariant.

(** * Writing *)

Section Writing.
Context {S : Type} {HMS : MemberStore S} {MS : MemberStoreSpec S}.
Implicit Types (h : gmap nat S) (a : EcArray) (D : contents).

(** The loop both halves of [WriteStripe] run: members [base, base + n). *)
Definition write_members h a (s base n : nat) (content : nat -> list u8) : bool * gmap nat S :=
  for_ok n (fun r h =>
    match ec_members a !! (base + r) with
    | None => (false, h)
    | Some m =>
        if decide (em_state m = kActive) then store_write h (em_store m) (stripe_off a s) (content r)
        else (true, h)
    end) h.

(** Reads of stripe [s] of array [a]. *)
Definition stripe_read h a (p s : nat) : option (list u8) := slot_read h (ec_shard_len a) p s.

Lemma stripe_write_same h a p s bs h' :
  ec_wf a -> s < ec_num_stripes a -> length bs = ec_shard_len a ->
  store_write h p (stripe_off a s) bs = (true, h') -> stripe_read h' a p s = Some bs.
Proof using MS. intros Hwf. by apply slot_write_same, wf_cap. Qed.

Lemma stripe_write_other h a p s bs ok h' q s' :
  ec_wf a -> s < ec_num_stripes a -> s' < ec_num_stripes a -> s' <> s ->
  length bs = ec_shard_len a ->
  store_write h p (stripe_off a s) bs = (ok, h') -> stripe_read h' a q s' = stripe_read h a q s'.
Proof using MS. intros Hwf. by apply slot_write_other, wf_cap. Qed.

Lemma write_members_spec h a s base n content h' :
  ec_wf a -> s < ec_num_stripes a ->
  (forall r, r < n -> length (content r) = ec_shard_len a) ->
  write_members h a s base n content = (true, h') ->
  (forall p s', s' < ec_num_stripes a -> s' <> s -> stripe_read h' a p s' = stripe_read h a p s') /\
  forall i m, ec_members a !! i = Some m -> em_state m = kActive ->
    stripe_read h' a (em_store m) s =
    if decide (base <= i < base + n) then Some (content (i - base)) else stripe_read h a (em_store m) s.
Proof using MS.
  intros Hwf Hs Hc Hw.
  pose (P := fun r h' =>
    (forall p s', s' < ec_num_stripes a -> s' <> s -> stripe_read h' a p s' = stripe_read h a p s') /\
    forall i m, ec_members a !! i = Some m -> em_state m = kActive ->
      stripe_read h' a (em_store m) s =
      if decide (base <= i < base + r) then Some (content (i - base)) else stripe_read h a (em_store m) s).
  apply (for_ok_ind P _ _ _ _ Hw).
  { split; [done|]. intros i m _ _. by rewrite decide_False by lia. }
  clear Hw h'. intros r h1 h2 Hr [Hoth Hsame]. destruct (ec_members a !! (base + r)) as [m|] eqn:Hm; [|done].
  case_decide as Hact.
  - intros Hw. split.
    + intros p s' Hs' Hne. rewrite <- Hoth by done.
      apply (stripe_write_other h1 a (em_store m) s (content r) true); auto.
    + intros i m' Hi Ha'. destruct (decide (i = base + r)) as [->|Hir].
      * simplify_eq. rewrite decide_True by lia. replace (base + r - base) with r by lia.
        apply (stripe_write_same h1 a (em_store m) s (content r)); auto.
      * assert (em_store m' <> em_store m) as Hne by (intros E; apply Hir; by eapply stores_inj).
        unfold stripe_read at 1, slot_read at 1. rewrite (store_read_frame (em_store m) h1) by
          (done || by eapply store_write_frame).
        change (stripe_read h1 a (em_store m') s = if decide (base <= i < base + Datatypes.S r)
          then Some (content (i - base)) else stripe_read h a (em_store m') s).
        rewrite (Hsame i m') by done.
        destruct (decide (base <= i < base + r)), (decide (base <= i < base + Datatypes.S r)); try done; lia.
  - intros [= <-]. split; [done|]. intros i m' Hi Ha'.
    rewrite (Hsame i m') by done.
    destruct (decide (i = base + r)) as [->|Hir]; [by simplify_eq|].
    destruct (decide (base <= i < base + r)), (decide (base <= i < base + Datatypes.S r)); try done; lia.
Qed.

(** Other stripes survive even a write that fails part-way. *)
Lemma write_members_other h a s base n content b h' :
  ec_wf a -> s < ec_num_stripes a ->
  (forall r, r < n -> length (content r) = ec_shard_len a) ->
  write_members h a s base n content = (b, h') ->
  forall p s', s' < ec_num_stripes a -> s' <> s -> stripe_read h' a p s' = stripe_read h a p s'.
Proof using MS.
  intros Hwf Hs Hc Hw p s' Hs' Hne. unfold write_members in Hw.
  apply (for_ok_inv (fun h' => stripe_read h' a p s' = stripe_read h a p s') _ _ _ _ _ Hw); [done|].
  intros r h1 h2 ok Hr H1. destruct (ec_members a !! (base + r)) as [m|]; [|by intros [= _ <-]].
  case_decide; [|by intros [= _ <-]]. intros Hw1. rewrite <- H1.
  apply (stripe_write_other h1 a (em_store m) s (content r) ok); auto.
Qed.

Lemma WriteStripe_eq h a s d :
  s < ec_num_stripes a -> data_ok (ec_k a) (ec_shard_len a) d ->
  WriteStripe h a s d =
  let '(ok, h) := write_members h a s 0 (ec_k a) (fun c => shard d c) in
  if ok then
    write_members h a s (ec_k a) (ec_parity_level a)
      (fun r => EncodeParityShard (ec_rs a) r d (ec_shard_len a))
  else (false, h).
Proof using.
  intros Hs Hok. unfold WriteStripe, WriteParityForStripe.
  rewrite decide_False by (destruct Hok; lia).
  assert (for_ok (ec_k a) (fun c h =>
        match ec_members a !! c with
        | None => (false, h)
        | Some m => if decide (em_state m = kActive)
                    then store_write h (em_store m) (stripe_off a s) (take (ec_shard_len a) (shard d c))
                    else (true, h)
        end) h = write_members h a s 0 (ec_k a) (fun c => shard d c)) as ->.
  { unfold write_members. apply for_ok_ext. intros c h0 Hc. rewrite Nat.add_0_l.
    destruct (ec_members a !! c); [|done]. case_decide; [|done].
    by rewrite firstn_all2 by (rewrite (data_ok_shard _ _ _ _ Hok Hc); lia). }
  destruct (write_members _ _ _ _ _ _) as [[] h1]; [|done].
  case_decide as E; [|done]. rewrite E. done.
Qed.

Lemma WriteStripe_holds h a D s d h' :
  ec_inv h a D -> s < ec_num_stripes a -> data_ok (ec_k a) (ec_shard_len a) d ->
  WriteStripe h a s d = (true, h') ->
  ec_inv h' a (fun s' => if decide (s' = s) then Some d else D s').
Proof using MS.
  intros [Hwf Hh] Hs Hok. rewrite WriteStripe_eq by done.
  destruct (write_members h a s 0 _ _) as [[] h1] eqn:Hw1; [|done]. intros Hw2.
  apply write_members_spec in Hw1 as [Ho1 Hs1]; [|done|done|intros; by eapply data_ok_shard].
  apply write_members_spec in Hw2 as [Ho2 Hs2]; [|done|done|intros; apply EncodeParityShard_length].
  split; [done|]. intros s' d' Hd'. case_decide as E.
  - simplify_eq. split_and!; [done|done|]. intros i m Hi _ Ha.
    change (stripe_read h' a (em_store m) s = Some (codeword_shard (ec_rs a) d' (ec_shard_len a) i)).
    rewrite (Hs2 i m) by done. rewrite (Hs1 i m) by done.
    unfold codeword_shard. rewrite (ec_rs_k a Hwf).
    pose proof (lookup_lt_Some _ _ _ Hi) as Hil. rewrite (wf_len a Hwf) in Hil.
    destruct (decide (i < ec_k a)), (decide (ec_k a <= i < ec_k a + ec_parity_level a)),
      (decide (0 <= i < 0 + ec_k a)); try lia; [by rewrite Nat.sub_0_r|done].
  - destruct (Hh s' d' Hd') as (Hs' & Hok' & Hr). split_and!; [done|done|]. intros i m Hi _ Ha.
    change (stripe_read h' a (em_store m) s' = Some (codeword_shard (ec_rs a) d' (ec_shard_len a) i)).
    rewrite Ho2, Ho1 by done. by apply Hr.
Qed.

(** A rejected or failed write loses at most its own stripe. *)
Lemma WriteStripe_fails h a D s d b h' :
  ec_inv h a D -> data_ok (ec_k a) (ec_shard_len a) d ->
  WriteStripe h a s d = (b, h') ->
  ec_inv h' a (fun s' => if decide (s' = s) then None else D s').
Proof using MS.
  intros [Hwf Hh] Hok Hw. split; [done|]. intros s' d' Hd'. case_decide as E; [done|].
  destruct (Hh s' d' Hd') as (Hs' & Hok' & Hr). split_and!; [done|done|]. intros i m Hi _ Ha.
  enough (stripe_read h' a (em_store m) s' = stripe_read h a (em_store m) s') as Hsame
    by (etransitivity; [exact Hsame|by apply Hr]).
  destruct (decide (s < ec_num_stripes a)) as [Hs|Hs].
  2: { unfold WriteStripe in Hw. rewrite decide_True in Hw by lia. by simplify_eq. }
  rewrite WriteStripe_eq in Hw by done.
  destruct (write_members h a s 0 _ _) as [b1 h1] eqn:Hw1.
  assert (stripe_read h1 a (em_store m) s' = stripe_read h a (em_store m) s') as H1
    by (eapply write_members_other; eauto; intros; by eapply data_ok_shard).
  rewrite <- H1. destruct b1; [|by simplify_eq].
  eapply write_members_other; eauto. intros. apply EncodeParityShard_length.
Qed.
End Writing.

(** * Reconfiguration *)

Section Reconfigure.
Context {S : Type} {HMS : MemberStore S} {MS : MemberStoreSpec S}.
Implicit Types (h : gmap nat S) (a : EcArray) (D : contents).

(** Taking a member out of service. *)
Lemma set_state_inv h a D i st :
  st <> kActive -> ec_inv h a D ->
  ec_inv h (set_members a (alter (fun m => set_state m st) i (ec_members a))) D.
Proof using.
  intros Hst [Hwf Hh]. split.
  - destruct Hwf. split; cbn; try done.
    + by rewrite length_alter.
    + intros j m. destruct (decide (j = i)) as [->|Hj].
      * rewrite list_lookup_alter_eq. destruct (ec_members a !! i) as [m'|] eqn:Hm; [|done].
        intros [= <-]. exact (wf_roles0 i m' Hm).
      * rewrite list_lookup_alter_ne by done. apply wf_roles0.
    + assert (map em_store (alter (fun m => set_state m st) i (ec_members a)) =
              map em_store (ec_members a)) as ->; [|done].
      change (map ?f ?l) with (f <$> l). apply list_eq. intros j. rewrite !list_lookup_fmap.
      destruct (decide (j = i)) as [->|]; [|by rewrite list_lookup_alter_ne].
      rewrite list_lookup_alter_eq. by destruct (ec_members a !! i).
  - intros s d Hd. destruct (Hh s d Hd) as (Hs & Hok & Hr). split_and!; [done|done|].
    intros j m Hj _ Ha. cbn in Hj. destruct (decide (j = i)) as [->|Hne].
    + rewrite list_lookup_alter_eq in Hj. destruct (ec_members a !! i); simplify_eq/=.
    + rewrite list_lookup_alter_ne in Hj by done. by apply Hr.
Qed.

Lemma heap_frame_ok p n (f : nat -> gmap nat S -> bool * gmap nat S) h b h' :
  (forall i h b h', f i h = (b, h') -> heap_frame p h h') ->
  for_ok n f h = (b, h') -> heap_frame p h h'.
Proof using.
  intros Hf Hl. apply (for_ok_inv (heap_frame p h) _ _ _ _ _ Hl); [apply heap_frame_refl|].
  intros i h1 h2 b1 _ H1 H2. eapply heap_frame_trans; [exact H1|]. by eapply Hf.
Qed.

Definition fresh_store a (p : nat) (excl : option nat) : Prop :=
  forall i m, ec_members a !! i = Some m -> excl <> Some i -> em_store m <> p.

Lemma ec_holds_frame excl h h' a D p :
  fresh_store a p excl -> heap_frame p h h' -> ec_holds excl h a D -> ec_holds excl h' a D.
Proof using.
  intros Hfr Hf Hh s d Hd. destruct (Hh s d Hd) as (Hs & Hok & Hr). split_and!; [done|done|].
  intros i m Hi He Ha. rewrite (store_read_frame p h) by (done || by eapply Hfr). by apply Hr.
Qed.

(** ** Adding a parity drive *)

Definition with_parity a (p : nat) : EcArray :=
  set_members a (ec_members a ++ [mkEcMember p kParity kActive (ec_parity_level a)]).

Lemma lookup_with_parity a p i m :
  ec_wf a -> ec_members a !! i = Some m -> ec_members (with_parity a p) !! i = Some m.
Proof using. intros Hwf Hi. cbn. rewrite lookup_app_l; [done|]. by eapply lookup_lt_Some. Qed.

(** The half-attached drive is not read while k old members are active. *)
Lemma ReadStripeData_with_parity h a D p s d :
  ec_inv h a D -> D s = Some d -> ec_k a <= length (available a None) ->
  ReadStripeData h (with_parity a p) s = Some d.
Proof using.
  intros Hinv Hd Hav. rewrite <- (ReadStripeData_eq h a D s d Hinv Hd Hav).
  destruct Hinv as [Hwf Hh]. unfold ReadStripeData.
  change (ec_num_stripes (with_parity a p)) with (ec_num_stripes a).
  change (ec_k (with_parity a p)) with (ec_k a).
  change (ec_shard_len (with_parity a p)) with (ec_shard_len a).
  change (stripe_off (with_parity a p) s) with (stripe_off a s).
  assert (forall c, c < ec_k a -> ec_members (with_parity a p) !! c = ec_members a !! c) as Hl.
  { intros c Hc. cbn. apply lookup_app_l. rewrite (wf_len a Hwf). lia. }
  case_decide; [done|].
  assert (forallb (member_active (ec_members (with_parity a p))) (seq 0 (ec_k a)) =
          forallb (member_active (ec_members a)) (seq 0 (ec_k a))) as ->.
  { apply forallb_ext_in. intros c Hc. apply in_seq in Hc. unfold member_active. by rewrite Hl by lia. }
  destruct (forallb _ _).
  - apply for_opt_ext. intros c out Hc. by rewrite Hl.
  - unfold ReconstructStripeData.
    change (ec_k (with_parity a p)) with (ec_k a).
    change (ec_shard_len (with_parity a p)) with (ec_shard_len a).
    change (stripe_off (with_parity a p) s) with (stripe_off a s).
    change (ec_rs (with_parity a p)) with (ec_rs a).
    change (ec_members (with_parity a p)) with
      (ec_members a ++ [mkEcMember p kParity kActive (ec_parity_level a)]).
    erewrite collect_survivors_app; [done|apply Hwf|by eapply ec_reads_ok|].
    cbn [length]. rewrite surv_list_available by done. lia.
Qed.

Lemma codeword_parity_new a d r :
  ec_wf a -> EncodeParityShard (ec_rs a) r d (ec_shard_len a) =
             codeword_shard (ec_rs a) d (ec_shard_len a) (ec_k a + r).
Proof using.
  intros Hwf. unfold codeword_shard. rewrite (ec_rs_k a Hwf).
  rewrite decide_False by lia. f_equal. lia.
Qed.

Lemma with_parity_wf a p :
  ec_wf a -> ec_parity_level a < ec_m_max a -> fresh_store a p None ->
  ec_wf (set_parity_level (with_parity a p) (Datatypes.S (ec_parity_level a))).
Proof using.
  intros Hwf Hlt Hfr. split; cbn; try apply Hwf.
  - done.
  - rewrite length_app, (wf_len a Hwf). cbn. lia.
  - intros i m Hi. rewrite lookup_app_Some in Hi. destruct Hi as [Hi|[Hge Hi]]; [by apply (wf_roles a Hwf)|].
    rewrite (wf_len a Hwf) in Hge, Hi. apply list_lookup_singleton_Some in Hi as [Hi0 <-].
    rewrite decide_False by lia. cbn. split; [done|lia].
  - rewrite map_app. cbn. apply NoDup_app. split_and!; [apply Hwf| |apply NoDup_singleton].
    intros q Hq Hp. apply list_elem_of_singleton in Hp as ->.
    rewrite list_elem_of_In, in_map_iff in Hq. destruct Hq as (m & Hm & Hin).
    rewrite <- list_elem_of_In, list_elem_of_lookup in Hin. destruct Hin as [i Hi].
    by apply (Hfr i m Hi).
Qed.

(** What the encoding loop has put on the new store after [n] stripes. *)
Lemma AddParityDrive_inv h a D p lvl h' a' :
  ec_inv h a D -> fresh_store a p None -> ec_k a <= length (available a None) ->
  AddParityDrive h a p = (Some lvl, h', a') ->
  ec_inv h' a' D /\ lvl = Datatypes.S (ec_parity_level a) /\ ec_parity_level a' = lvl /\ heap_frame p h h'.
Proof using MS.
  intros [Hwf Hh] Hfr Hav. unfold AddParityDrive. case_decide as Hcap; [done|].
  fold (with_parity a p).
  destruct (for_ok _ _ h) as [[] h1] eqn:Hloop; [|done]. intros [= <- <- <-].
  pose (P := fun n h' => heap_frame p h h' /\ forall s d, s < n -> D s = Some d ->
    stripe_read h' a p s = Some (codeword_shard (ec_rs a) d (ec_shard_len a) (ec_k a + ec_parity_level a))).
  assert (P (ec_num_stripes a) h1) as [Hf Hp].
  { apply (for_ok_ind P _ _ _ _ Hloop); [split; [apply heap_frame_refl|lia]|].
    intros s h2 h3 Hs [Hf Hp]. destruct (ReadStripeData h2 _ s) as [data|] eqn:Hrd; [|done]. intros Hw.
    split; [eapply heap_frame_trans; [exact Hf|]; by eapply store_write_frame|].
    intros s' d Hs' Hd. destruct (decide (s' = s)) as [->|Hne].
    - rewrite (ReadStripeData_with_parity h2 a D p s d) in Hrd; [|split; [done|]|done|done].
      + simplify_eq. rewrite codeword_parity_new in Hw by done.
        eapply stripe_write_same; [done|done| |exact Hw].
        rewrite <- codeword_parity_new by done. apply EncodeParityShard_length.
      + by eapply ec_holds_frame.
    - rewrite (stripe_write_other h2 a p s _ _ h3 p s' Hwf Hs) by
        (done || lia || (exact Hw) || apply EncodeParityShard_length). apply Hp; [lia|done]. }
  split_and!; [|done|done|done]. split; [apply with_parity_wf; (done || lia)|].
  intros s d Hd. destruct (Hh s d Hd) as (Hs & Hok & Hr). split_and!; [done|done|].
  intros i m Hi _ Ha. cbn in Hi. rewrite lookup_app_Some in Hi. destruct Hi as [Hi|[Hge Hi]].
  - change (stripe_read h1 a (em_store m) s = Some (codeword_shard (ec_rs a) d (ec_shard_len a) i)).
    unfold stripe_read, slot_read. rewrite (store_read_frame p h) by (done || by eapply Hfr). by apply Hr.
  - apply list_lookup_singleton_Some in Hi as [Hi0 <-]. rewrite (wf_len a Hwf) in Hi0, Hge.
    replace i with (ec_k a + ec_parity_level a) by lia. by apply Hp.
Qed.

(** ** Recovering a member *)

Lemma ReconstructStripeData_data_ok h a s excl d :
  ec_wf a -> ReconstructStripeData h a s excl = Some d -> data_ok (ec_k a) (ec_shard_len a) d.
Proof using.
  intros Hwf. unfold ReconstructStripeData. destruct (collect_survivors _ _ _ _ _ _ _ _) as [[idx bufs]|]; [|done].
  case_decide; [done|]. intros Hd. apply DecodeData_data_ok in Hd. by rewrite ec_rs_k in Hd.
Qed.

(** The shard [RecoverMember] writes. *)
Definition recovered_shard a (m : EcMember) (data : list (list u8)) : list u8 :=
  match em_role m with
  | kData => shard data (em_index m)
  | kParity => EncodeParityShard (ec_rs a) (em_index m) data (ec_shard_len a)
  end.

Lemma recovered_shard_eq a idx m data :
  ec_wf a -> ec_members a !! idx = Some m ->
  recovered_shard a m data = codeword_shard (ec_rs a) data (ec_shard_len a) idx.
Proof using.
  intros Hwf Hm. unfold recovered_shard, codeword_shard. rewrite (ec_rs_k a Hwf).
  pose proof (wf_roles a Hwf idx m Hm) as Hro. case_decide; by destruct Hro as [-> ->].
Qed.

Lemma recovered_shard_length a idx m data :
  ec_wf a -> ec_members a !! idx = Some m -> data_ok (ec_k a) (ec_shard_len a) data ->
  length (recovered_shard a m data) = ec_shard_len a.
Proof using.
  intros Hwf Hm Hok. rewrite (recovered_shard_eq a idx m data Hwf Hm).
  apply codeword_shard_length. by rewrite ec_rs_k.
Qed.

Lemma replace_member_wf a idx m p :
  ec_wf a -> ec_members a !! idx = Some m -> fresh_store a p (Some idx) ->
  ec_wf (set_members a (<[idx := mkEcMember p (em_role m) kActive (em_index m)]> (ec_members a))).
Proof using.
  intros Hwf Hm Hfr. pose proof (lookup_lt_Some _ _ _ Hm) as Hlt. split; cbn; try apply Hwf.
  - by rewrite length_insert, (wf_len a Hwf).
  - intros i m' Hi. destruct (decide (idx = i)) as [->|Hne].
    + rewrite list_lookup_insert_eq in Hi by done. simplify_eq. exact (wf_roles a Hwf i m Hm).
    + rewrite list_lookup_insert_ne in Hi by done. exact (wf_roles a Hwf i m' Hi).
  - change (map ?f ?l) with (f <$> l). apply NoDup_alt. intros i j q.
    rewrite !list_lookup_fmap, !fmap_Some. intros (m1 & Hi & Eq1) (m2 & Hj & Eq2).
    destruct (decide (idx = i)) as [<-|Hni], (decide (idx = j)) as [<-|Hnj]; [done| | |].
    + rewrite list_lookup_insert_eq in Hi by done. rewrite list_lookup_insert_ne in Hj by done.
      simplify_eq. exfalso. eapply (Hfr j m2); [done|congruence|done].
    + rewrite list_lookup_insert_eq in Hj by done. rewrite list_lookup_insert_ne in Hi by done.
      simplify_eq. exfalso. eapply (Hfr i m1); [done|congruence|done].
    + rewrite list_lookup_insert_ne in Hi, Hj by done. eapply stores_inj; [done..|congruence].
Qed.

(** The loop of [RecoverMember]: every written stripe's shard reaches the new store. *)
Lemma recover_loop h a D idx m p h' :
  ec_inv h a D -> fresh_store a p (Some idx) -> ec_members a !! idx = Some m ->
  for_ok (ec_num_stripes a) (fun s h =>
    match ReconstructStripeData h a s (Some idx) with
    | None => (false, h)
    | Some data => store_write h p (stripe_off a s) (recovered_shard a m data)
    end) h = (true, h') ->
  heap_frame p h h' /\ forall s d, D s = Some d ->
    stripe_read h' a p s = Some (codeword_shard (ec_rs a) d (ec_shard_len a) idx).
Proof using MS.
  intros [Hwf Hh] Hfr Hm Hloop.
  pose (P := fun n h' => heap_frame p h h' /\ forall s d, s < n -> D s = Some d ->
    stripe_read h' a p s = Some (codeword_shard (ec_rs a) d (ec_shard_len a) idx)).
  assert (P (ec_num_stripes a) h') as [Hf Hp].
  2: { split; [done|]. intros s d Hd. apply Hp; [|done]. by destruct (Hh s d Hd). }
  apply (for_ok_ind P _ _ _ _ Hloop); [split; [apply heap_frame_refl|lia]|].
  intros s h2 h3 Hs [Hf Hp]. destruct (ReconstructStripeData h2 a s _) as [data|] eqn:Hrd; [|done].
  intros Hw. split; [eapply heap_frame_trans; [exact Hf|]; by eapply store_write_frame|].
  pose proof (recovered_shard_length a idx m data Hwf Hm (ReconstructStripeData_data_ok _ _ _ _ _ Hwf Hrd)) as Hlen.
  intros s' d Hs' Hd. destruct (decide (s' = s)) as [->|Hne].
  - assert (ec_holds (Some idx) h2 a D) as Hh2 by (eapply ec_holds_frame; [done|done|by apply ec_holds_excl]).
    rewrite (ReconstructStripeData_eq (Some idx) h2 a D s d) in Hrd by done.
    case_decide; [|done]. simplify_eq.
    rewrite <- (recovered_shard_eq a idx m data Hwf Hm).
    by eapply stripe_write_same.
  - rewrite (stripe_write_other h2 a p s _ true h3 p s') by (done || lia). apply Hp; [lia|done].
Qed.

Lemma RecoverMember_inv h a D idx p h' a' :
  ec_inv h a D -> fresh_store a p (Some idx) ->
  RecoverMember h a idx p = (true, h', a') ->
  ec_inv h' a' D /\ heap_frame p h h' /\ member_active (ec_members a') idx = true.
Proof using MS.
  intros Hinv Hfr. unfold RecoverMember. destruct (ec_members a !! idx) as [m|] eqn:Hm; [|done].
  destruct (for_ok _ _ h) as [[] h1] eqn:Hloop; [|done]. intros [= <- <-].
  destruct (recover_loop h a D idx m p h1 Hinv Hfr Hm Hloop) as [Hf Hp]. destruct Hinv as [Hwf Hh].
  pose proof (lookup_lt_Some _ _ _ Hm) as Hlt.
  split_and!; [split; [by apply replace_member_wf|]|done|].
  2: { unfold member_active. cbn. by rewrite list_lookup_insert_eq. }
  intros s d Hd. destruct (Hh s d Hd) as (Hs & Hok & Hr). split_and!; [done|done|].
  intros i m' Hi _ Ha. cbn in Hi. destruct (decide (idx = i)) as [<-|Hne].
  - rewrite list_lookup_insert_eq in Hi by done. simplify_eq. by apply Hp.
  - rewrite list_lookup_insert_ne in Hi by done.
    change (stripe_read h1 a (em_store m') s = Some (codeword_shard (ec_rs a) d (ec_shard_len a) i)).
    unfold stripe_read, slot_read. rewrite (store_read_frame p h) by
      (done || (eapply Hfr; [exact Hi|congruence])). by apply Hr.
Qed.

(** A failed reconfiguration changes nothing but the store it was given. *)
Lemma AddParityDrive_fails h a p h' a' :
  AddParityDrive h a p = (None, h', a') -> a' = a /\ heap_frame p h h'.
Proof using.
  unfold AddParityDrive. case_decide; [by intros [= <- <-]|].
  destruct (for_ok _ _ h) as [[] h1] eqn:Hloop; [done|]. intros [= <- <-]. split; [done|].
  eapply heap_frame_ok; [|exact Hloop]. intros i h2 b h3. cbn beta.
  destruct (ReadStripeData _ _ _); [apply store_write_frame|by intros [= _ <-]].
Qed.

Lemma RecoverMember_fails h a idx p h' a' :
  RecoverMember h a idx p = (false, h', a') -> a' = a /\ heap_frame p h h'.
Proof using.
  unfold RecoverMember. destruct (ec_members a !! idx) as [m|]; [|by intros [= <- <-]].
  destruct (for_ok _ _ h) as [[] h1] eqn:Hloop; [done|]. intros [= <- <-]. split; [done|].
  eapply heap_frame_ok; [|exact Hloop]. intros i h2 b h3. cbn beta.
  destruct (ReconstructStripeData _ _ _ _); [apply store_write_frame|by intros [= _ <-]].
Qed.
End Reconfigure.

(** * The array as a state machine

    A state is the store heap, the array and the abstract contents. The contents
    follow the specification: a successful write sets its stripe, a failed one
    loses it, and no other operation changes anything. *)

Section Machine.
Context {S : Type} {HMS : MemberStore S} {MS : MemberStoreSpec S}.

Definition set_content (D : contents) (s : nat) (v : option (list (list u8))) : contents :=
  fun s' => if decide (s' = s) then v else D s'.

Definition ec_state : Type := gmap nat S * EcArray * contents.

Inductive ec_step : ec_state -> ec_state -> Prop :=
| step_write h a D s d ok h' :
    data_ok (ec_k a) (ec_shard_len a) d ->
    WriteStripe h a s d = (ok, h') ->
    ec_step (h, a, D) (h', a, set_content D s (if ok then Some d else None))
| step_mark_faulty h a D i : ec_step (h, a, D) (h, MarkFaulty a i, D)
| step_remove h a D i was_faulty : ec_step (h, a, D) (h, RemoveDrive a i was_faulty, D)
| step_add_parity h a D p r h' a' :
    fresh_store a p None -> ec_k a <= length (available a None) ->
    AddParityDrive h a p = (r, h', a') -> ec_step (h, a, D) (h', a', D)
| step_recover h a D i p ok h' a' :
    fresh_store a p None ->
    RecoverMember h a i p = (ok, h', a') -> ec_step (h, a, D) (h', a', D).

Definition ec_state_inv (st : ec_state) : Prop := let '(h, a, D) := st in ec_inv h a D.

Lemma WriteStripe_true_in_range h a s d h' :
  WriteStripe h a s d = (true, h') -> s < ec_num_stripes a.
Proof using. unfold WriteStripe. case_decide; [done|]. intros _. lia. Qed.

Lemma ec_inv_frame h h' a D p :
  ec_inv h a D -> fresh_store a p None -> heap_frame p h h' -> ec_inv h' a D.
Proof using. intros [Hwf Hh] Hfr Hf. split; [done|]. by eapply ec_holds_frame. Qed.

Lemma ec_step_inv st st' : ec_step st st' -> ec_state_inv st -> ec_state_inv st'.
Proof using MS.
  destruct 1 as [h a D s d [] h' Hok Hw|h a D i|h a D i []|h a D p [r|] h' a' Hfr Hav Hadd
                |h a D i p [] h' a' Hfr Hrec]; cbn; intros Hinv.
  - eapply WriteStripe_holds; eauto. by eapply WriteStripe_true_in_range.
  - by eapply WriteStripe_fails.
  - by apply set_state_inv.
  - by apply set_state_inv.
  - by apply set_state_inv.
  - by eapply AddParityDrive_inv.
  - apply AddParityDrive_fails in Hadd as [-> Hf]. by eapply ec_inv_frame.
  - eapply RecoverMember_inv; [done| |done]. intros j m Hj _. by eapply Hfr.
  - apply RecoverMember_fails in Hrec as [-> Hf]. by eapply ec_inv_frame.
Qed.

Lemma EcArray_new_members shard_len num_stripes k m_max stores :
  ec_members (EcArray_new shard_len num_stripes k m_max stores) =
  map (fun c => mkEcMember (nth c stores 0) kData kActive c) (seq 0 k).
Proof using.
  apply (for_ind (fun n ms => ms = map (fun c => mkEcMember (nth c stores 0) kData kActive c) (seq 0 n)));
    [done|]. intros i ms _ ->. by rewrite seq_S, map_app.
Qed.

Definition ec_params_ok (shard_len num_stripes k m_max : nat) (stores : list nat) : Prop :=
  0 < k /\ k + m_max <= 256 /\ length stores = k /\ NoDup stores /\
  (Z.of_nat num_stripes * Z.of_nat shard_len < 2 ^ 64)%Z.

Lemma EcArray_new_inv h shard_len num_stripes k m_max stores :
  ec_params_ok shard_len num_stripes k m_max stores ->
  ec_state_inv (h, EcArray_new shard_len num_stripes k m_max stores, fun _ => None).
Proof using.
  intros (Hk & Hfit & Hl & Hnd & Hcap). split; [|done].
  pose proof (EcArray_new_members shard_len num_stripes k m_max stores) as Hm.
  split; rewrite ?Hm; cbn; try done; try lia.
  - rewrite length_map, length_seq. lia.
  - intros i m Hi. change (map ?f ?l) with (f <$> l) in Hi.
    rewrite list_lookup_fmap in Hi. apply fmap_Some in Hi as (c & Hc & ->).
    apply lookup_seq in Hc as [-> Hc]. by rewrite decide_True by done.
  - rewrite map_map. cbn. replace (map _ (seq 0 k)) with stores; [done|].
    apply (nth_ext _ _ 0 0); [by rewrite length_map, length_seq|]. intros i Hi.
    rewrite (nth_indep (map _ (seq 0 k)) _ (nth 0 stores 0)) by (rewrite length_map, length_seq; lia).
    rewrite (map_nth (fun c => nth c stores 0)), seq_nth by lia. done.
Qed.

Lemma ec_reachable_inv st st' : rtc ec_step st st' -> ec_state_inv st -> ec_state_inv st'.
Proof using MS. induction 1; [done|]. intros. eauto using ec_step_inv. Qed.

(** The number of members out of service. *)
Definition inactive (a : EcArray) : nat :=
  length (filter (fun m => em_state m <> kActive) (ec_members a)).

Lemma available_count a :
  ec_wf a -> length (available a None) + inactive a = ec_k a + ec_parity_level a.
Proof using.
  intros Hwf. rewrite <- (wf_len a Hwf), <- surv_list_available by done. unfold inactive.
  generalize 0. induction (ec_members a) as [|m ms IH]; intros i; [done|].
  cbn [surv_list length]. rewrite filter_cons. rewrite (bool_decide_false (None = Some i)) by done.
  cbn [orb]. destruct (decide (em_state m <> kActive)) as [Hn|Hn].
  - rewrite bool_decide_true by done. cbn [length]. specialize (IH (Datatypes.S i)). lia.
  - rewrite bool_decide_false by done. cbn [length]. specialize (IH (Datatypes.S i)). lia.
Qed.

Lemma data_members_available a :
  ec_wf a -> forallb (member_active (ec_members a)) (seq 0 (ec_k a)) = true ->
  ec_k a <= length (available a None).
Proof using.
  intros Hwf Hall. rewrite forallb_forall in Hall.
  unfold available. rewrite (wf_len a Hwf), seq_app, filter_app, length_app.
  rewrite (filter_all _ (seq 0 (ec_k a))); [rewrite length_seq; lia|].
  apply Forall_forall. intros i Hi%list_elem_of_In. split; [done|]. by apply Hall.
Qed.

Lemma ReadStripeData_exact h a D s d :
  ec_inv h a D -> D s = Some d ->
  ReadStripeData h a s = if decide (ec_k a <= length (available a None)) then Some d else None.
Proof using.
  intros Hinv Hd. case_decide as Hav; [by eapply ReadStripeData_eq|].
  destruct Hinv as [Hwf Hh]. destruct (Hh s d Hd) as (Hs & _ & _). unfold ReadStripeData.
  rewrite decide_False by lia. destruct (forallb _ _) eqn:Hall.
  - exfalso. by apply Hav, data_members_available.
  - rewrite (ReconstructStripeData_eq None h a D s d) by done. by rewrite decide_False.
Qed.

Lemma ReadDataShard_eq h a D s d c :
  ec_inv h a D -> D s = Some d -> c < ec_k a -> ec_k a <= length (available a None) ->
  ReadDataShard h a s c = Some (shard d c).
Proof using.
  intros [Hwf Hh] Hd Hc Hav. destruct (Hh s d Hd) as (Hs & Hok & Hr). unfold ReadDataShard.
  destruct (lookup_lt_is_Some_2 (ec_members a) c) as [m Hm]; [rewrite (wf_len a Hwf); lia|]. rewrite Hm.
  case_decide.
  - rewrite (Hr c m) by done. unfold codeword_shard. by rewrite (ec_rs_k a Hwf), decide_True.
  - rewrite (ReconstructStripeData_eq None h a D s d) by done. by rewrite decide_True.
Qed.
End Machine.

(** * In-memory devices never fail inside their capacity *)

Section MemoryTotal.
Implicit Types (h : gmap nat MemoryStore) (a : EcArray) (D : contents).

(** Store [p] exists and can hold every stripe of the array. *)
Definition store_fits h a (p : nat) : Prop :=
  exists s, h !! p = Some s /\ ec_num_stripes a * ec_shard_len a <= length (buf_ s).

Lemma store_fits_bound a s :
  s < ec_num_stripes a -> s * ec_shard_len a + ec_shard_len a <= ec_num_stripes a * ec_shard_len a.
Proof. nia. Qed.

Lemma memory_stripe_read h a p s :
  ec_wf a -> s < ec_num_stripes a -> store_fits h a p ->
  exists b, store_read h p (stripe_off a s) (ec_shard_len a) = Some b.
Proof.
  intros Hwf Hs (st & Hst & Hcap). pose proof (store_fits_bound a s Hs).
  destruct (stripe_off_eq a s Hwf Hs) as [He Hb].
  unfold store_read. rewrite Hst. cbn [ms_Read MemoryStore_ops].
  rewrite MemoryStore_Read_ok by (apply stripe_off_nonneg || done).
  rewrite decide_True by (rewrite He; lia). eauto.
Qed.

Lemma memory_stripe_write h a p s bs :
  ec_wf a -> s < ec_num_stripes a -> length bs = ec_shard_len a -> store_fits h a p ->
  exists h', store_write h p (stripe_off a s) bs = (true, h') /\ forall q, store_fits h a q -> store_fits h' a q.
Proof.
  intros Hwf Hs Hl (st & Hst & Hcap). pose proof (store_fits_bound a s Hs).
  destruct (stripe_off_eq a s Hwf Hs) as [He Hb].
  unfold store_write. rewrite Hst. cbn [ms_Write MemoryStore_ops].
  rewrite MemoryStore_Write_ok by (rewrite ?Hl; apply stripe_off_nonneg || done).
  rewrite decide_True by (rewrite He; lia). eexists. split; [done|].
  intros q (st' & Hst' & Hcap'). unfold store_fits.
  destruct (decide (q = p)) as [->|Hq]; [|rewrite lookup_insert_ne by done; eauto].
  rewrite lookup_insert_eq. eexists. split; [done|]. cbn [buf_].
  rewrite splice_length by (rewrite He; lia). lia.
Qed.

(** With k active members left, reconstruction cannot fail, whatever the
    stores hold. *)
Lemma memory_reconstruct h a s excl :
  ec_wf a -> s < ec_num_stripes a ->
  (forall i m, ec_members a !! i = Some m -> em_state m = kActive -> excl <> Some i -> store_fits h a (em_store m)) ->
  ec_k a <= length (available a excl) ->
  exists d, ReconstructStripeData h a s excl = Some d.
Proof.
  intros Hwf Hs Hfits Hav. unfold ReconstructStripeData.
  pose (B := fun g => match ec_members a !! g with
    | Some m => match store_read h (em_store m) (stripe_off a s) (ec_shard_len a) with Some b => b | None => [] end
    | None => [] end).
  pose proof (collect_survivors_spec (ec_k a)
    (fun i (m : EcMember) => bool_decide (excl = Some i) || bool_decide (em_state m <> kActive))
    (fun m => store_read h (em_store m) (stripe_off a s) (ec_shard_len a))
    (fun _ m => match em_role m with kData => em_index m | kParity => ec_k a + em_index m end)
    B 0 (ec_members a) [] (wf_k a Hwf)) as Hc.
  cbn [length map app] in Hc. rewrite Nat.sub_0_r, surv_list_available in Hc by done.
  rewrite Hc.
  2: { intros j m Hj Hskip. rewrite Nat.add_0_l in *. rewrite (ec_global_eq a j m Hwf Hj).
       apply orb_false_iff in Hskip as [He%bool_decide_eq_false Ha%bool_decide_eq_false].
       apply dec_stable in Ha. unfold B. rewrite Hj.
       destruct (memory_stripe_read h a (em_store m) s Hwf Hs) as [b ->]; [by eapply Hfits|done]. }
  rewrite length_take, decide_False by lia. destruct (available_ok a excl Hwf) as [Hnd Hlt].
  rewrite (wf_rs a Hwf). unfold DecodeData. change (k_ (ReedSolomon_new ?k _)) with k.
  rewrite decide_False by (rewrite length_take; lia).
  destruct (survivor_matrix_spec (ReedSolomon_new (ec_k a) (ec_m_max a)) (take (ec_k a) (available a excl))) as [Hl _].
  destruct (InvertMatrix_total _ (ec_k a) Hl) as [inv ->]; [|eauto].
  apply (survivor_matrix_kernel _ (ec_m_max a) (wf_fit a Hwf)).
  unfold survivors_ok. rewrite take_take, Nat.min_id, length_take.
  split; [lia|]. split; [eapply sublist_NoDup; [done|apply sublist_take]|by apply Forall_take].
Qed.
End MemoryTotal.

(** * Properties *)

(** C7. Refinement: over any sequence of writes, failures, removals, parity
    additions and recoveries, on any devices that satisfy the interface, a
    stripe reads back as its last successful write as long as no more members
    are out of service than there are parity members; so does each of its
    shards. *)
Theorem EcArray_reads_last_write {S : Type} {HMS : MemberStore S} {MS : MemberStoreSpec S}
    (shard_len num_stripes k m_max : nat) (stores : list nat) (h0 h : gmap nat S)
    (a : EcArray) (D : contents) (s : nat) (d : list (list u8)) :
  ec_params_ok shard_len num_stripes k m_max stores ->
  rtc ec_step (h0, EcArray_new shard_len num_stripes k m_max stores, fun _ => None) (h, a, D) ->
  D s = Some d -> inactive a <= ec_parity_level a ->
  ReadStripeData h a s = Some d /\
  forall c, c < ec_k a -> ReadDataShard h a s c = Some (shard d c).
Proof.
  intros Hp Hr Hd Hin.
  pose proof (ec_reachable_inv _ _ Hr (EcArray_new_inv h0 _ _ _ _ _ Hp)) as Hinv. cbn in Hinv.
  pose proof (available_count a (proj1 Hinv)).
  split; [eapply ReadStripeData_eq; eauto; lia|]. intros c Hc. eapply ReadDataShard_eq; eauto. lia.
Qed.

Definition example_heap : gmap nat MemoryStore :=
  list_to_map (map (fun i => (i, MemoryStore_new 6)) (seq 0 5)).
Definition example_array : EcArray := EcArray_new 3 2 2 2 [0; 1].
Definition example_add := Eval vm_compute in AddParityDrive example_heap example_array 2.
Definition example_write := Eval vm_compute in WriteStripe example_add.1.2 example_add.2 1 example_data.
Definition example_contents : contents := set_content (fun _ => None) 1 (Some example_data).

Lemma example_params : ec_params_ok 3 2 2 2 [0; 1].
Proof.
  repeat split; try (simpl; lia). by_decide.
Qed.

Lemma example_reachable :
  rtc ec_step (example_heap, example_array, fun _ => None)
      (example_write.2, MarkFaulty example_add.2 0, example_contents).
Proof.
  eapply rtc_l; [eapply (step_add_parity _ _ _ 2)|].
  - intros [|[|i]] m Hm _; vm_compute in Hm; try discriminate Hm; injection Hm as <-; discriminate.
  - vm_compute. lia.
  - vm_compute. reflexivity.
  - eapply rtc_l; [eapply (step_write _ _ _ 1 example_data)|].
    + split; [reflexivity|]. repeat constructor.
    + vm_compute. reflexivity.
    + apply rtc_once, (step_mark_faulty _ _ _ 0).
Qed.

Lemma EcArray_reads_last_write_witness :
  ReadStripeData example_write.2 (MarkFaulty example_add.2 0) 1 = Some example_data.
Proof.
  refine (proj1 (EcArray_reads_last_write 3 2 2 2 [0; 1] example_heap _ _ example_contents 1 example_data
    example_params example_reachable eq_refl _)).
  vm_compute. lia.
Defined.

(** No fabricated data: in every reachable state, reading a written stripe
    returns exactly its contents when k members are active and fails when fewer
    are. *)
Theorem EcArray_read_exact {S : Type} {HMS : MemberStore S} {MS : MemberStoreSpec S}
    (shard_len num_stripes k m_max : nat) (stores : list nat) (h0 h : gmap nat S)
    (a : EcArray) (D : contents) (s : nat) (d : list (list u8)) :
  ec_params_ok shard_len num_stripes k m_max stores ->
  rtc ec_step (h0, EcArray_new shard_len num_stripes k m_max stores, fun _ => None) (h, a, D) ->
  D s = Some d ->
  ReadStripeData h a s = if decide (ec_k a <= length (available a None)) then Some d else None.
Proof.
  intros Hp Hr Hd. eapply ReadStripeData_exact; [|done].
  exact (ec_reachable_inv _ _ Hr (EcArray_new_inv h0 _ _ _ _ _ Hp)).
Qed.

Lemma example_reachable_twice :
  rtc ec_step (example_heap, example_array, fun _ => None)
      (example_write.2, MarkFaulty (MarkFaulty example_add.2 0) 1, example_contents).
Proof. eapply rtc_r; [apply example_reachable|]. apply (step_mark_faulty _ _ _ 1). Qed.

Lemma EcArray_read_exact_witness :
  ReadStripeData example_write.2 (MarkFaulty (MarkFaulty example_add.2 0) 1) 1 = None.
Proof.
  exact (EcArray_read_exact 3 2 2 2 [0; 1] example_heap _ _ example_contents 1 example_data
    example_params example_reachable_twice eq_refl).
Defined.

(** Rebuild: when [RecoverMember] returns true, the member is back in
    service on its new store, every written stripe is intact, and no other store
    was touched. *)
Theorem RecoverMember_rebuilds {S : Type} {HMS : MemberStore S} {MS : MemberStoreSpec S}
    (h h' : gmap nat S) (a a' : EcArray) (D : contents) (i p : nat) :
  ec_inv h a D -> fresh_store a p (Some i) -> RecoverMember h a i p = (true, h', a') ->
  ec_inv h' a' D /\ member_active (ec_members a') i = true /\ (forall q, q <> p -> h' !! q = h !! q).
Proof. intros Hinv Hf Hr. destruct (RecoverMember_inv h a D i p h' a') as (? & ? & ?); auto. Qed.

Lemma example_inv : ec_inv example_write.2 (MarkFaulty example_add.2 0) example_contents.
Proof. exact (ec_reachable_inv _ _ example_reachable (EcArray_new_inv _ _ _ _ _ _ example_params)). Qed.

Lemma RecoverMember_rebuilds_witness :
  exists h' a', RecoverMember example_write.2 (MarkFaulty example_add.2 0) 0 4 = (true, h', a') /\
    ec_inv h' a' example_contents.
Proof.
  destruct (RecoverMember example_write.2 (MarkFaulty example_add.2 0) 0 4) as [[ok h'] a'] eqn:E.
  assert (ok = true) as -> by (apply (f_equal (fun r => r.1.1)) in E; vm_compute in E; by symmetry).
  exists h', a'. split; [reflexivity|].
  refine (proj1 (RecoverMember_rebuilds _ h' _ a' example_contents 0 4 example_inv _ E)).
  intros [|[|[|i]]] m Hm _; vm_compute in Hm; try discriminate Hm; injection Hm as <-; discriminate.
Defined.

(** Rebuild terminates successfully on in-memory devices: if every active
    member other than [i] and the new store can hold the array, and k such
    members are left, [RecoverMember] returns true. *)
Theorem RecoverMember_memory_succeeds (h : gmap nat MemoryStore) (a : EcArray) (i p : nat) :
  ec_wf a -> i < length (ec_members a) -> fresh_store a p (Some i) ->
  (forall j m, ec_members a !! j = Some m -> em_state m = kActive -> Some i <> Some j ->
     store_fits h a (em_store m)) ->
  store_fits h a p -> ec_k a <= length (available a (Some i)) ->
  exists h' a', RecoverMember h a i p = (true, h', a').
Proof.
  intros Hwf Hi Hfr Hfits Hp Hav. unfold RecoverMember.
  destruct (lookup_lt_is_Some_2 _ _ Hi) as [m Hm]. rewrite Hm.
  pose (P := fun (_ : nat) (h' : gmap nat MemoryStore) =>
    store_fits h' a p /\ forall j m, ec_members a !! j = Some m -> em_state m = kActive -> Some i <> Some j ->
      store_fits h' a (em_store m)).
  destruct (for_ok_total P (ec_num_stripes a) (fun s h =>
      match ReconstructStripeData h a s (Some i) with
      | None => (false, h)
      | Some data => store_write h p (stripe_off a s) (recovered_shard a m data)
      end) h) as (h' & Hl & _).
  - done.
  - intros s h1 Hs [Hp1 Hf1].
    destruct (memory_reconstruct h1 a s (Some i) Hwf Hs Hf1 Hav) as [d Hd]. rewrite Hd.
    destruct (memory_stripe_write h1 a p s (recovered_shard a m d) Hwf Hs) as (h2 & Hw & Hfit); [|done|].
    + eapply recovered_shard_length; [done|exact Hm|]. by eapply ReconstructStripeData_data_ok.
    + exists h2. split; [exact Hw|]. split; [by apply Hfit|]. intros j m' Hj Ha Hne.
      by apply Hfit, (Hf1 j m').
  - unfold recovered_shard in Hl. rewrite Hl. eauto.
Qed.

Lemma RecoverMember_memory_succeeds_witness :
  exists h' a', RecoverMember example_write.2 (MarkFaulty example_add.2 0) 0 4 = (true, h', a').
Proof.
  apply RecoverMember_memory_succeeds.
  - exact (proj1 example_inv).
  - vm_compute. lia.
  - intros [|[|[|i]]] m Hm _; vm_compute in Hm; try discriminate Hm; injection Hm as <-; discriminate.
  - intros [|[|[|j]]] m Hm Ha _; vm_compute in Hm; try discriminate Hm; injection Hm as <-;
      try discriminate Ha; eexists; (split; [vm_compute; reflexivity|vm_compute; lia]).
  - eexists; (split; [vm_compute; reflexivity|vm_compute; lia]).
  - vm_compute. lia.
Defined.

(** Raising fault tolerance by one: when [AddParityDrive] succeeds while k
    members are active, the parity level grows by one, all written stripes stay
    intact under the new geometry, and no existing store was written. *)
Theorem AddParityDrive_incremental {S : Type} {HMS : MemberStore S} {MS : MemberStoreSpec S}
    (h h' : gmap nat S) (a a' : EcArray) (D : contents) (p lvl : nat) :
  ec_inv h a D -> fresh_store a p None -> ec_k a <= length (available a None) ->
  AddParityDrive h a p = (Some lvl, h', a') ->
  ec_inv h' a' D /\ lvl = ec_parity_level a + 1 /\ ec_parity_level a' = lvl /\
  (forall q, q <> p -> h' !! q = h !! q).
Proof.
  intros Hinv Hf Hav Hr. destruct (AddParityDrive_inv h a D p lvl h' a') as (? & -> & ? & ?); auto.
  split_and!; [done|lia|done|done].
Qed.

Lemma AddParityDrive_incremental_witness :
  exists lvl h' a', AddParityDrive example_heap example_array 2 = (Some lvl, h', a') /\
    ec_inv h' a' (fun _ => None) /\ lvl = 1.
Proof.
  destruct (AddParityDrive example_heap example_array 2) as [[[lvl|] h'] a'] eqn:E.
  2: { apply (f_equal (fun r => r.1.1)) in E. vm_compute in E. discriminate E. }
  exists lvl, h', a'. split; [reflexivity|].
  refine (let H := AddParityDrive_incremental _ h' _ a' (fun _ => None) 2 lvl
    (EcArray_new_inv example_heap _ _ _ _ _ example_params) _ _ E in
    conj (proj1 H) (eq_trans (proj1 (proj2 H)) eq_refl)).
  - intros [|[|i]] m Hm _; vm_compute in Hm; try discriminate Hm; injection Hm as <-; discriminate.
  - vm_compute. lia.
Defined.

(** Without k active members [AddParityDrive] does not fail: the scan reads
    the half-attached drive as a survivor. After a write to an array without
    parity, losing a data member and adding a parity drive reports success, and
    the stripe then reads back with fabricated bytes instead of an error. *)
Theorem AddParityDrive_reads_unwritten_drive :
  exists h a h1 h2 a2 d,
    EcArray_new 3 2 2 2 [0; 1] = a /\
    WriteStripe h a 0 example_data = (true, h1) /\
    ReadStripeData h1 (MarkFaulty a 0) 0 = None /\
    AddParityDrive h1 (MarkFaulty a 0) 2 = (Some 1, h2, a2) /\
    ReadStripeData h2 a2 0 = Some d /\ d <> example_data.
Proof.
  exists example_heap, example_array.
  do 4 eexists. split; [reflexivity|].
  split; [vm_compute; reflexivity|]. split; [vm_compute; reflexivity|].
  split; [vm_compute; reflexivity|]. split; [vm_compute; reflexivity|].
  vm_compute. discriminate.
Qed.
