(* ===== verification/Declustered.v ===== *)
(** The declustered, variable-width layout: [safe_bdev/ec/declustered.h].

    Generations are frozen (k, m, member set) configurations that partition the
    global stripe range; inside a generation the shard each member stores
    rotates with the stripe index. Stripe indices are naturals with the source's
    [uint64_t] wrap-around written as [u64n] / [u64]. *)
From Stdlib Require Import ZArith Lia.
From stdpp Require Import base list gmap.
From S2P Require Import Prelude Gf256 ReedSolomon EcArray.

(** * Data *)

Record Generation := mkGeneration {
  g_k : nat;
  g_m : nat;
  g_first_stripe : nat;
  g_num_stripes : nat;
  g_seed : nat;
  g_members : list nat;
  g_rs : ReedSolomon
}.

Record DeclusteredArray := mkDeclusteredArray {
  da_shard_len : nat;
  da_next_stripe : nat;
  da_members : list nat;         (** store pointers *)
  da_member_state : list EcState;
  da_gens : list Generation
}.

Definition DeclusteredArray_new (shard_len : nat) : DeclusteredArray :=
  mkDeclusteredArray shard_len 0 [] [] [].

Definition AddMemberStore (a : DeclusteredArray) (store : nat) : nat * DeclusteredArray :=
  let members := da_members a ++ [store] in
  (length members - 1,
   mkDeclusteredArray (da_shard_len a) (da_next_stripe a) members (da_member_state a ++ [kActive]) (da_gens a)).

Definition OpenGeneration (a : DeclusteredArray) (k m : nat) (gen_members : list nat) (num_stripes : nat)
    : nat * DeclusteredArray :=
  let g := mkGeneration k m (da_next_stripe a) num_stripes (length (da_gens a)) gen_members
                        (ReedSolomon_new k m) in
  let gens := da_gens a ++ [g] in
  (length gens - 1,
   mkDeclusteredArray (da_shard_len a) (u64n (da_next_stripe a + num_stripes))
                      (da_members a) (da_member_state a) gens).

Definition in_gen (g : nat) (gen : Generation) : bool :=
  (g_first_stripe gen <=? g) && (g <? u64n (g_first_stripe gen + g_num_stripes gen)).

(** [for e in [0, size): if in range return e; return -1]. *)
Fixpoint epoch_from (e : nat) (gens : list Generation) (g : nat) : option nat :=
  match gens with
  | [] => None
  | gen :: gens => if in_gen g gen then Some e else epoch_from (S e) gens g
  end.

Definition EpochOf (a : DeclusteredArray) (g : nat) : option nat := epoch_from 0 (da_gens a) g.

Definition gen_default : Generation := mkGeneration 0 0 0 0 0 [] (ReedSolomon_new 0 0).
Definition gen_at (a : DeclusteredArray) (epoch : nat) : Generation := nth epoch (da_gens a) gen_default.

(** [(local + seed) % N]. *)
Definition rotation (gen : Generation) (g : nat) : Z :=
  let N := Z.of_nat (length (g_members gen)) in
  let local := u64 (Z.of_nat g - Z.of_nat (g_first_stripe gen)) in
  u64 (local + Z.of_nat (g_seed gen)) mod N.

(** C++ [%] truncates: [Z.rem]. *)
Definition ShardOfPosition (a : DeclusteredArray) (epoch g p : nat) : nat :=
  let gen := gen_at a epoch in
  let N := Z.of_nat (length (g_members gen)) in
  Z.to_nat (Z.rem (Z.rem (Z.of_nat p - rotation gen g) N + N) N).

Definition PositionOfShard (a : DeclusteredArray) (epoch g q : nat) : nat :=
  let gen := gen_at a epoch in
  let N := Z.of_nat (length (g_members gen)) in
  Z.to_nat (Z.rem (Z.of_nat q + rotation gen g) N).

Definition MemberOfShard (a : DeclusteredArray) (epoch g q : nat) : nat :=
  nth (PositionOfShard a epoch g q) (g_members (gen_at a epoch)) 0.

(** Position of global member [mid], or -1. *)
Fixpoint position_from (p : nat) (members : list nat) (mid : nat) : option nat :=
  match members with
  | [] => None
  | m :: ms => if decide (m = mid) then Some p else position_from (S p) ms mid
  end.

Definition PositionInGen (a : DeclusteredArray) (epoch mid : nat) : option nat :=
  position_from 0 (g_members (gen_at a epoch)) mid.

Definition mid_active (a : DeclusteredArray) (mid : nat) : bool :=
  bool_decide (da_member_state a !! mid = Some kActive).

(** The store pointer of a global member id. *)
Definition mid_store (a : DeclusteredArray) (mid : nat) : nat := nth mid (da_members a) 0.

Definition da_MarkFaulty (a : DeclusteredArray) (mid : nat) : DeclusteredArray :=
  mkDeclusteredArray (da_shard_len a) (da_next_stripe a) (da_members a)
    (<[mid := kFaulty]> (da_member_state a)) (da_gens a).

Definition ParityCountForMember (a : DeclusteredArray) (epoch mid count : nat) : nat :=
  let gen := gen_at a epoch in
  match PositionInGen a epoch mid with
  | None => 0
  | Some p =>
      for_ count (fun i n =>
        let g := u64n (g_first_stripe gen + i) in
        if decide (g_k gen <= ShardOfPosition a epoch g p) then S n else n) 0
  end.

Section DeclusteredOps.
Context {S : Type} {HMS : MemberStore S}.
Implicit Types (h : gmap nat S) (a : DeclusteredArray).

Definition da_WriteStripe h a (g : nat) (data_shards : list (list u8)) : bool * gmap nat S :=
  match EpochOf a g with
  | None => (false, h)
  | Some e =>
      let gen := gen_at a e in
      if decide (length data_shards <> g_k gen) then (false, h)
      else
        let off := slot_off (da_shard_len a) g in
        let '(ok, h) :=
          for_ok (g_k gen) (fun c h =>
            let mid := MemberOfShard a e g c in
            if mid_active a mid then
              store_write h (mid_store a mid) off (take (da_shard_len a) (shard data_shards c))
            else (true, h)) h in
        if ok then
          for_ok (g_m gen) (fun pr h =>
            let mid := MemberOfShard a e g (g_k gen + pr) in
            if mid_active a mid then
              store_write h (mid_store a mid) off
                (EncodeParityShard (g_rs gen) pr data_shards (da_shard_len a))
            else (true, h)) h
        else (false, h)
  end.

Definition ReconstructStripe h a (g : nat) (exclude_mid : option nat) : option (list (list u8)) :=
  match EpochOf a g with
  | None => None
  | Some e =>
      let gen := gen_at a e in
      let off := slot_off (da_shard_len a) g in
      match collect_survivors (g_k gen)
              (fun _ mid => bool_decide (exclude_mid = Some mid) || negb (mid_active a mid))
              (fun mid => store_read h (mid_store a mid) off (da_shard_len a))
              (fun p _ => ShardOfPosition a e g p)
              0 (g_members gen) [] [] with
      | None => None
      | Some (idx, bufs) =>
          if decide (length idx < g_k gen) then None
          else DecodeData (g_rs gen) idx bufs (da_shard_len a)
      end
  end.

Definition da_ReadStripe h a (g : nat) : option (list (list u8)) :=
  match EpochOf a g with
  | None => None
  | Some e =>
      let gen := gen_at a e in
      if forallb (fun c => mid_active a (MemberOfShard a e g c)) (seq 0 (g_k gen)) then
        let off := slot_off (da_shard_len a) g in
        for_opt (g_k gen) (fun c out =>
          match store_read h (mid_store a (MemberOfShard a e g c)) off (da_shard_len a) with
          | None => None
          | Some b => Some (<[c := b]> out)
          end) (replicate (g_k gen) (replicate (da_shard_len a) Byte.x00))
      else ReconstructStripe h a g None
  end.

(** The shard of [q] computed from the stripe's data. *)
Definition rebuilt_shard a (gen : Generation) (q : nat) (data : list (list u8)) : list u8 :=
  if decide (q < g_k gen) then shard data q
  else EncodeParityShard (g_rs gen) (q - g_k gen) data (da_shard_len a).

Definition recover_generation h a (mid new_store e : nat) : bool * gmap nat S :=
  let gen := gen_at a e in
  match PositionInGen a e mid with
  | None => (true, h)
  | Some p =>
      for_ok (u64n (g_first_stripe gen + g_num_stripes gen) - g_first_stripe gen) (fun i h =>
        let g := g_first_stripe gen + i in
        match ReconstructStripe h a g (Some mid) with
        | None => (false, h)
        | Some data =>
            store_write h new_store (slot_off (da_shard_len a) g)
              (rebuilt_shard a gen (ShardOfPosition a e g p) data)
        end) h
  end.

Definition da_RecoverMember h a (mid new_store : nat) : bool * gmap nat S * DeclusteredArray :=
  let '(ok, h) := for_ok (length (da_gens a)) (fun e h => recover_generation h a mid new_store e) h in
  if ok then
    (true, h, mkDeclusteredArray (da_shard_len a) (da_next_stripe a)
                (<[mid := new_store]> (da_members a)) (<[mid := kActive]> (da_member_state a)) (da_gens a))
  else (false, h, a).
End DeclusteredOps.

(** * The rotation *)

Section Rotation.
Context (a : DeclusteredArray) (e g : nat).
Abbreviation gen := (gen_at a e).
Abbreviation N := (length (g_members gen)).

Lemma rotation_range : 0 < N -> (0 <= rotation gen g < Z.of_nat N)%Z.
Proof using. intros HN. unfold rotation. apply Z.mod_pos_bound. lia. Qed.

Lemma ShardOfPosition_mod p :
  0 < N -> p < N ->
  Z.of_nat (ShardOfPosition a e g p) = ((Z.of_nat p - rotation gen g) mod Z.of_nat N)%Z.
Proof using.
  intros HN Hp. unfold ShardOfPosition. pose proof (rotation_range HN) as Hr.
  set (r := rotation _ _) in *. set (n := Z.of_nat N) in *.
  assert (Z.rem (Z.rem (Z.of_nat p - r) n + n) n = (Z.of_nat p - r) mod n)%Z as ->.
  { destruct (decide (0 <= Z.of_nat p - r)%Z) as [Hs|Hs].
    - rewrite (Z.rem_small (Z.of_nat p - r)), (Z.mod_small (Z.of_nat p - r)) by lia.
      rewrite Z.rem_mod_nonneg by lia. rewrite <- (Z.mod_add _ (-1)) by lia.
      rewrite Z.mod_small by lia. lia.
    - replace (Z.of_nat p - r)%Z with (- (r - Z.of_nat p))%Z by lia.
      rewrite Z.rem_opp_l, (Z.rem_small (r - _)) by lia.
      rewrite Z.rem_small by lia. rewrite <- (Z.mod_add _ 1) by lia. rewrite Z.mod_small by lia. lia. }
  rewrite Z2Nat.id; [done|]. apply Z.mod_pos_bound. lia.
Qed.

Lemma PositionOfShard_mod q :
  0 < N -> q < N ->
  Z.of_nat (PositionOfShard a e g q) = ((Z.of_nat q + rotation gen g) mod Z.of_nat N)%Z.
Proof using.
  intros HN Hq. unfold PositionOfShard. pose proof (rotation_range HN).
  rewrite Z.rem_mod_nonneg by lia. rewrite Z2Nat.id; [done|]. apply Z.mod_pos_bound. lia.
Qed.

Lemma ShardOfPosition_lt p : 0 < N -> p < N -> ShardOfPosition a e g p < N.
Proof using.
  intros HN Hp. pose proof (ShardOfPosition_mod p HN Hp).
  pose proof (Z.mod_pos_bound (Z.of_nat p - rotation gen g) (Z.of_nat N)). lia.
Qed.

Lemma PositionOfShard_lt q : 0 < N -> q < N -> PositionOfShard a e g q < N.
Proof using.
  intros HN Hq. pose proof (PositionOfShard_mod q HN Hq).
  pose proof (Z.mod_pos_bound (Z.of_nat q + rotation gen g) (Z.of_nat N)). lia.
Qed.

Lemma PositionOfShard_of_position p :
  0 < N -> p < N -> PositionOfShard a e g (ShardOfPosition a e g p) = p.
Proof using.
  intros HN Hp. pose proof (ShardOfPosition_lt p HN Hp) as Hlt.
  apply Nat2Z.inj. rewrite PositionOfShard_mod, ShardOfPosition_mod by done.
  rewrite Zplus_mod_idemp_l. replace (_ - _ + _)%Z with (Z.of_nat p) by lia.
  apply Z.mod_small. lia.
Qed.

Lemma ShardOfPosition_of_shard q :
  0 < N -> q < N -> ShardOfPosition a e g (PositionOfShard a e g q) = q.
Proof using.
  intros HN Hq. pose proof (PositionOfShard_lt q HN Hq) as Hlt.
  apply Nat2Z.inj. rewrite ShardOfPosition_mod, PositionOfShard_mod by done.
  rewrite Zminus_mod_idemp_l. replace (_ + _ - _)%Z with (Z.of_nat q) by lia.
  apply Z.mod_small. lia.
Qed.
End Rotation.

(** * Positions and generations *)

Lemma position_from_spec p members mid :
  position_from p members mid =
  match list_find (eq mid) members with Some (i, _) => Some (p + i) | None => None end.
Proof.
  revert p. induction members as [|m ms IH]; intros p; [done|]. cbn [position_from list_find].
  destruct (decide (m = mid)) as [->|Hne].
  - rewrite decide_True by done. f_equal. lia.
  - rewrite decide_False by congruence. rewrite IH.
    destruct (list_find (eq mid) ms) as [[i x]|]; cbn; [f_equal; lia|done].
Qed.

Lemma PositionInGen_Some a e mid p :
  NoDup (g_members (gen_at a e)) ->
  (PositionInGen a e mid = Some p <-> g_members (gen_at a e) !! p = Some mid).
Proof.
  intros Hnd. unfold PositionInGen. rewrite position_from_spec.
  destruct (list_find (eq mid) _) as [[i x]|] eqn:E.
  - apply list_find_Some in E as (Hi & -> & _). cbn. split; [by intros [= <-]|].
    intros Hp. f_equal. by eapply NoDup_lookup.
  - split; [done|]. intros Hp. apply list_find_None in E. rewrite Forall_forall in E.
    exfalso. by apply (E mid); [eapply list_elem_of_lookup_2|].
Qed.

Lemma PositionInGen_None a e mid :
  PositionInGen a e mid = None -> mid ∉ g_members (gen_at a e).
Proof.
  unfold PositionInGen. rewrite position_from_spec.
  destruct (list_find (eq mid) _) as [[i x]|] eqn:E; [done|]. intros _ Hin.
  apply list_find_None in E. rewrite Forall_forall in E. by apply (E mid).
Qed.

(** The generations tile [first, next). *)
Fixpoint gens_chain (first : nat) (gens : list Generation) (next : nat) : Prop :=
  match gens with
  | [] => first = next
  | gen :: gens => g_first_stripe gen = first /\ gens_chain (first + g_num_stripes gen) gens next
  end.

Lemma gens_chain_app first gens gens' next :
  gens_chain first (gens ++ gens') next <-> exists mid, gens_chain first gens mid /\ gens_chain mid gens' next.
Proof.
  revert first. induction gens as [|gen gens IH]; intros first; cbn.
  - split; [eauto|]. by intros (mid & -> & ?).
  - rewrite IH. split; [intros (? & mid & ?); exists mid; tauto|intros (mid & ? & ?); eauto].
    split; [tauto|]. exists mid. tauto.
Qed.

Lemma gens_chain_le first gens next : gens_chain first gens next -> first <= next.
Proof.
  revert first. induction gens as [|gen gens IH]; intros first; cbn; [lia|].
  intros [_ H]. apply IH in H. lia.
Qed.

Lemma in_gen_iff g gen :
  (Z.of_nat (g_first_stripe gen + g_num_stripes gen) < 2 ^ 64)%Z ->
  in_gen g gen = true <-> g_first_stripe gen <= g < g_first_stripe gen + g_num_stripes gen.
Proof.
  intros H. unfold in_gen. rewrite u64n_small by done.
  rewrite andb_true_iff, Nat.leb_le, Nat.ltb_lt. done.
Qed.

(** A stripe of the [e]-th generation is found there, and nowhere earlier. *)
Lemma epoch_from_lookup i first gens next e gen g :
  gens_chain first gens next -> (Z.of_nat next < 2 ^ 64)%Z -> gens !! e = Some gen ->
  g_first_stripe gen <= g < g_first_stripe gen + g_num_stripes gen ->
  epoch_from i gens g = Some (i + e).
Proof.
  revert i first e. induction gens as [|gen0 gens IH]; intros i first e Hc Hn He Hg; [done|].
  cbn in Hc. destruct Hc as [Hf Hc]. pose proof (gens_chain_le _ _ _ Hc) as Hle.
  cbn [epoch_from]. destruct e as [|e]; simpl in He.
  - simplify_eq. rewrite (proj2 (in_gen_iff g gen ltac:(lia))) by done. f_equal. lia.
  - assert (g_first_stripe gen0 + g_num_stripes gen0 <= g_first_stripe gen) as Hge.
    { apply list_elem_of_split_length in He as (l1 & l2 & -> & _).
      apply gens_chain_app in Hc as (mid & Hc1 & Hc2). apply gens_chain_le in Hc1.
      cbn in Hc2. lia. }
    destruct (in_gen g gen0) eqn:E; [apply in_gen_iff in E; lia|].
    rewrite (IH (S i) _ e Hc Hn He Hg). f_equal. lia.
Qed.

Lemma epoch_from_Some i gens g e :
  epoch_from i gens g = Some e -> exists gen, i <= e /\ gens !! (e - i) = Some gen /\ in_gen g gen = true.
Proof.
  revert i. induction gens as [|gen gens IH]; intros i H; [done|]. cbn in H.
  destruct (in_gen g gen) eqn:E.
  - simplify_eq. exists gen. by rewrite Nat.sub_diag.
  - apply IH in H as (gen' & Hle & Hl & Hin). exists gen'. split; [lia|].
    replace (e - i) with (S (e - S i)) by lia. done.
Qed.

(** * The invariant *)

Record gen_wf (n : nat) (gen : Generation) : Prop := {
  gwf_k : 0 < g_k gen;
  gwf_fit : g_k gen + g_m gen <= 256;
  gwf_len : length (g_members gen) = g_k gen + g_m gen;
  gwf_nodup : NoDup (g_members gen);
  gwf_members : Forall (fun mid => mid < n) (g_members gen);
  gwf_rs : g_rs gen = ReedSolomon_new (g_k gen) (g_m gen)
}.

Record da_wf (a : DeclusteredArray) : Prop := {
  dwf_states : length (da_member_state a) = length (da_members a);
  dwf_stores : NoDup (da_members a);
  dwf_gens : Forall (gen_wf (length (da_members a))) (da_gens a);
  dwf_chain : gens_chain 0 (da_gens a) (da_next_stripe a);
  dwf_next : (Z.of_nat (da_next_stripe a) < 2 ^ 64)%Z;
  dwf_cap : (Z.of_nat (da_next_stripe a) * Z.of_nat (da_shard_len a) < 2 ^ 64)%Z
}.

Lemma gen_at_lookup a e gen : da_gens a !! e = Some gen -> gen_at a e = gen.
Proof. intros H. unfold gen_at. by rewrite nth_lookup, H. Qed.

Lemma gen_at_wf a e gen : da_wf a -> da_gens a !! e = Some gen -> gen_wf (length (da_members a)) (gen_at a e).
Proof.
  intros Hwf He. rewrite (gen_at_lookup a e gen He). pose proof (dwf_gens a Hwf) as Hf.
  by eapply Forall_lookup_1 in Hf.
Qed.

Lemma EpochOf_Some a g e :
  da_wf a -> EpochOf a g = Some e ->
  exists gen, da_gens a !! e = Some gen /\ gen_wf (length (da_members a)) (gen_at a e) /\
    g_first_stripe gen <= g < g_first_stripe gen + g_num_stripes gen /\ g < da_next_stripe a.
Proof.
  intros Hwf H. apply epoch_from_Some in H as (gen & _ & Hl & Hin). rewrite Nat.sub_0_r in Hl.
  pose proof (dwf_chain a Hwf) as Hc. pose proof (dwf_next a Hwf).
  destruct (list_elem_of_split_length _ _ _ Hl) as (l1 & l2 & E & _). rewrite E in Hc.
  apply gens_chain_app in Hc as (mid & _ & Hc). cbn in Hc. destruct Hc as [Hf Hc].
  apply gens_chain_le in Hc. apply in_gen_iff in Hin; [|lia].
  exists gen. split_and!; [done|by eapply gen_at_wf|lia|lia|lia].
Qed.

Lemma EpochOf_gen a g e gen :
  da_wf a -> da_gens a !! e = Some gen ->
  g_first_stripe gen <= g < g_first_stripe gen + g_num_stripes gen -> EpochOf a g = Some e.
Proof.
  intros Hwf He Hg. unfold EpochOf.
  by rewrite (epoch_from_lookup 0 0 _ _ e gen g (dwf_chain a Hwf) (dwf_next a Hwf) He Hg).
Qed.

Lemma mid_store_inj a i j :
  da_wf a -> i < length (da_members a) -> j < length (da_members a) ->
  mid_store a i = mid_store a j -> i = j.
Proof.
  intros Hwf Hi Hj E. unfold mid_store in E. rewrite !nth_lookup in E.
  destruct (lookup_lt_is_Some_2 _ _ Hi) as [x Hx], (lookup_lt_is_Some_2 _ _ Hj) as [y Hy].
  rewrite Hx, Hy in E. cbn in E. subst. eapply NoDup_lookup; [apply (dwf_stores a Hwf)|done|done].
Qed.

(** The active members of a generation, leaving out [excl]. *)
Definition active_members (a : DeclusteredArray) (e : nat) (excl : option nat) : list nat :=
  filter (fun mid => excl <> Some mid /\ mid_active a mid = true) (g_members (gen_at a e)).

Section DeclusteredInv.
Context {S : Type} {HMS : MemberStore S} {MS : MemberStoreSpec S}.
Implicit Types (h : gmap nat S) (a : DeclusteredArray) (D : contents).

Definition da_holds (excl : option nat) h a D : Prop :=
  forall g d, D g = Some d -> exists e, EpochOf a g = Some e /\
    data_ok (g_k (gen_at a e)) (da_shard_len a) d /\
    forall p mid, g_members (gen_at a e) !! p = Some mid -> excl <> Some mid -> mid_active a mid = true ->
      slot_read h (da_shard_len a) (mid_store a mid) g =
      Some (codeword_shard (g_rs (gen_at a e)) d (da_shard_len a) (ShardOfPosition a e g p)).

Definition da_inv h a D : Prop := da_wf a /\ da_holds None h a D.

Abbreviation da_skip a excl := (fun (_ : nat) mid =>
  bool_decide (excl = Some mid) || negb (mid_active a mid)) (only parsing).

Lemma da_skip_false a excl p mid :
  da_skip a excl p mid = false <-> excl <> Some mid /\ mid_active a mid = true.
Proof using. rewrite orb_false_iff, bool_decide_eq_false, negb_false_iff. done. Qed.

Lemma surv_list_map {M} (sk : nat -> M -> bool) (f : nat -> nat) i ms :
  surv_list sk (fun p _ => f p) i ms = map f (surv_list sk (fun p _ => p) i ms).
Proof using.
  revert i. induction ms as [|m ms IH]; intros i; [done|]. cbn.
  destruct (sk i m); [done|]. cbn. by rewrite IH.
Qed.

Lemma surv_list_positions {M} (sk : nat -> M -> bool) i ms :
  NoDup (surv_list sk (fun p _ => p) i ms) /\
  Forall (fun p => i <= p < i + length ms) (surv_list sk (fun p _ => p) i ms).
Proof using.
  revert i. induction ms as [|m ms IH]; intros i; [by split; constructor|]. cbn [surv_list length].
  destruct (IH (Datatypes.S i)) as [Hnd Hf].
  assert (Forall (fun p => i <= p < i + Datatypes.S (length ms)) (surv_list sk (fun p _ => p) (Datatypes.S i) ms)) as Hf'
    by (eapply Forall_impl; [exact Hf|]; cbn; intros; lia).
  destruct (sk i m); [done|]. split; constructor; [|done|lia|done].
  intros Hin. rewrite Forall_forall in Hf. specialize (Hf i Hin). lia.
Qed.

Lemma surv_list_length a excl f i ms :
  length (surv_list (da_skip a excl) f i ms) =
  length (filter (fun mid => excl <> Some mid /\ mid_active a mid = true) ms).
Proof using.
  revert i. induction ms as [|mid ms IH]; intros i; [done|]. cbn [surv_list]. rewrite filter_cons.
  pose proof (da_skip_false a excl i mid) as Hs. cbn beta in Hs.
  destruct (bool_decide (excl = Some mid) || negb (mid_active a mid)) eqn:E.
  - rewrite decide_False by (by rewrite <- Hs). apply IH.
  - rewrite decide_True by (by apply Hs). cbn. by rewrite IH.
Qed.

Lemma survivors_good a e g excl :
  gen_wf (length (da_members a)) (gen_at a e) ->
  let L := surv_list (da_skip a excl) (fun p _ => ShardOfPosition a e g p) 0 (g_members (gen_at a e)) in
  NoDup L /\ Forall (fun q => q < g_k (gen_at a e) + g_m (gen_at a e)) L /\
  length L = length (active_members a e excl).
Proof using.
  intros Hg. cbn zeta. rewrite surv_list_length. rewrite surv_list_map.
  destruct (surv_list_positions (da_skip a excl) 0 (g_members (gen_at a e))) as [Hnd Hf].
  pose proof (gwf_len _ _ Hg) as Hl. pose proof (gwf_k _ _ Hg).
  rewrite Forall_forall in Hf. split_and!; [| |done].
  - apply NoDup_map_inj; [|done]. intros x y Hx%list_elem_of_In Hy%list_elem_of_In E.
    apply Hf in Hx, Hy. rewrite <- (PositionOfShard_of_position a e g x), E by lia.
    apply PositionOfShard_of_position; lia.
  - apply Forall_forall. intros q Hq%list_elem_of_In. apply in_map_iff in Hq as (p & <- & Hp%list_elem_of_In).
    apply Hf in Hp. rewrite <- Hl. apply ShardOfPosition_lt; lia.
Qed.

Lemma ReconstructStripe_eq excl h a D g d e :
  da_wf a -> da_holds excl h a D -> D g = Some d -> EpochOf a g = Some e ->
  ReconstructStripe h a g excl =
  if decide (g_k (gen_at a e) <= length (active_members a e excl)) then Some d else None.
Proof using.
  intros Hwf Hh Hd He. destruct (EpochOf_Some a g e Hwf He) as (gen & Hgen & Hg & _).
  destruct (Hh g d Hd) as (e' & He' & Hok & Hr). rewrite He in He'. injection He' as <-.
  destruct (survivors_good a e g excl Hg) as (Hnd & Hlt & Hlen).
  unfold ReconstructStripe. rewrite He.
  pose proof (collect_survivors_spec (g_k (gen_at a e)) (da_skip a excl)
    (fun mid => store_read h (mid_store a mid) (slot_off (da_shard_len a) g) (da_shard_len a))
    (fun p _ => ShardOfPosition a e g p)
    (codeword_shard (g_rs (gen_at a e)) d (da_shard_len a)) 0 (g_members (gen_at a e)) [] (gwf_k _ _ Hg)) as Hc.
  cbn [length map app] in Hc. rewrite Nat.sub_0_r in Hc. rewrite Hc.
  2: { intros p mid Hp Hs. rewrite Nat.add_0_l in *. apply (da_skip_false a excl p) in Hs as [? ?].
       by apply Hr. }
  rewrite length_take, Hlen.
  destruct (decide (g_k (gen_at a e) <= _)) as [Hle|Hle]; [|by rewrite decide_True by lia].
  rewrite decide_False by lia. rewrite (gwf_rs _ _ Hg) at 1 2.
  apply DecodeData_survivors; [apply Hg|apply Hg|done|lia|done|done].
Qed.
End DeclusteredInv.

(** * Writing and reading a stripe *)

Section DeclusteredWriting.
Context {S : Type} {HMS : MemberStore S} {MS : MemberStoreSpec S}.
Implicit Types (h : gmap nat S) (a : DeclusteredArray) (D : contents).

Definition write_shards h a (e g base n : nat) (content : nat -> list u8) : bool * gmap nat S :=
  for_ok n (fun r h =>
    let mid := MemberOfShard a e g (base + r) in
    if mid_active a mid then store_write h (mid_store a mid) (slot_off (da_shard_len a) g) (content r)
    else (true, h)) h.

(** Shard [q] belongs to position [p] exactly when [p] stores [q]. *)
Lemma MemberOfShard_lookup a e g q :
  gen_wf (length (da_members a)) (gen_at a e) -> q < g_k (gen_at a e) + g_m (gen_at a e) ->
  g_members (gen_at a e) !! PositionOfShard a e g q = Some (MemberOfShard a e g q).
Proof using.
  intros Hg Hq. pose proof (gwf_len _ _ Hg) as Hl. pose proof (gwf_k _ _ Hg).
  unfold MemberOfShard. rewrite nth_lookup.
  destruct (lookup_lt_is_Some_2 (g_members (gen_at a e)) (PositionOfShard a e g q)) as [x ->]; [|done].
  apply PositionOfShard_lt; lia.
Qed.

Lemma gen_member_store_inj a e p p' mid mid' :
  da_wf a -> gen_wf (length (da_members a)) (gen_at a e) ->
  g_members (gen_at a e) !! p = Some mid -> g_members (gen_at a e) !! p' = Some mid' ->
  mid_store a mid = mid_store a mid' -> p = p'.
Proof using.
  intros Hwf Hg Hp Hp' E. pose proof (gwf_members _ _ Hg) as Hm. rewrite Forall_lookup in Hm.
  apply mid_store_inj in E as ->; [|done|by eapply Hm|by eapply Hm].
  eapply NoDup_lookup; [apply (gwf_nodup _ _ Hg)|done|done].
Qed.

Lemma write_shards_other h a e g base n content b h' :
  da_wf a -> g < da_next_stripe a -> (forall r, r < n -> length (content r) = da_shard_len a) ->
  write_shards h a e g base n content = (b, h') ->
  forall p s', s' < da_next_stripe a -> s' <> g ->
    slot_read h' (da_shard_len a) p s' = slot_read h (da_shard_len a) p s'.
Proof using MS.
  intros Hwf Hg Hc Hw p s' Hs' Hne. unfold write_shards in Hw.
  apply (for_ok_inv (fun h' => slot_read h' (da_shard_len a) p s' = slot_read h (da_shard_len a) p s')
           _ _ _ _ _ Hw); [done|].
  intros r h1 h2 ok Hr H1. cbn zeta. destruct (mid_active a _); [|by intros [= _ <-]].
  intros Hw1. rewrite <- H1.
  exact (slot_write_other h1 _ _ _ g _ _ _ p s' (dwf_cap a Hwf) Hg Hs' Hne (Hc r Hr) Hw1).
Qed.

Lemma write_shards_spec h a e g base n content h' :
  da_wf a -> EpochOf a g = Some e -> base + n <= g_k (gen_at a e) + g_m (gen_at a e) ->
  (forall r, r < n -> length (content r) = da_shard_len a) ->
  write_shards h a e g base n content = (true, h') ->
  forall p mid, g_members (gen_at a e) !! p = Some mid -> mid_active a mid = true ->
    let q := ShardOfPosition a e g p in
    slot_read h' (da_shard_len a) (mid_store a mid) g =
    if decide (base <= q < base + n) then Some (content (q - base))
    else slot_read h (da_shard_len a) (mid_store a mid) g.
Proof using MS.
  intros Hwf He Hbn Hc Hw. destruct (EpochOf_Some a g e Hwf He) as (gen & _ & Hgw & _ & Hlt).
  pose proof (gwf_len _ _ Hgw) as Hl. pose proof (gwf_k _ _ Hgw) as Hk.
  pose (P := fun r h' => forall p mid, g_members (gen_at a e) !! p = Some mid -> mid_active a mid = true ->
    slot_read h' (da_shard_len a) (mid_store a mid) g =
    if decide (base <= ShardOfPosition a e g p < base + r) then Some (content (ShardOfPosition a e g p - base))
    else slot_read h (da_shard_len a) (mid_store a mid) g).
  apply (for_ok_ind P _ _ _ _ Hw).
  { intros p mid _ _. by rewrite decide_False by lia. }
  clear Hw h'. intros r h1 h2 Hr IH. cbn zeta.
  pose proof (MemberOfShard_lookup a e g (base + r) Hgw ltac:(lia)) as Hmid.
  set (mid0 := MemberOfShard a e g (base + r)) in *.
  assert (forall p mid, g_members (gen_at a e) !! p = Some mid ->
    ShardOfPosition a e g p = base + r <-> p = PositionOfShard a e g (base + r)) as Hiff.
  { intros p mid Hp. apply lookup_lt_Some in Hp. split.
    - intros <-. by rewrite PositionOfShard_of_position by lia.
    - intros ->. apply ShardOfPosition_of_shard; lia. }
  destruct (mid_active a mid0) eqn:Hact0.
  - intros Hw p mid Hp Ha. specialize (Hiff p mid Hp).
    destruct (decide (p = PositionOfShard a e g (base + r))) as [Hpe|Hpe].
    + rewrite (proj2 Hiff Hpe). rewrite decide_True by lia. rewrite Hpe, Hmid in Hp. injection Hp as <-.
      replace (base + r - base) with r by lia.
      eapply (slot_write_same h1 _ (da_next_stripe a)); [apply (dwf_cap a Hwf)|done|by apply Hc|exact Hw].
    + assert (mid_store a mid <> mid_store a mid0) as Hns
        by (intros E; apply Hpe; by eapply gen_member_store_inj).
      unfold slot_read at 1. rewrite (store_read_frame (mid_store a mid0) h1) by
        (done || by eapply store_write_frame).
      change (store_read h1 ?p _ _) with (slot_read h1 (da_shard_len a) p g). rewrite (IH p mid Hp Ha).
      destruct (decide (base <= _ < base + r)), (decide (base <= _ < base + Datatypes.S r)); try done; try lia.
  - intros [= <-] p mid Hp Ha. specialize (Hiff p mid Hp). rewrite (IH p mid Hp Ha).
    destruct (decide (p = PositionOfShard a e g (base + r))) as [->|Hpe].
    { rewrite Hmid in Hp. congruence. }
    destruct (decide (base <= _ < base + r)), (decide (base <= _ < base + Datatypes.S r)); try done; try lia.
Qed.

Lemma da_WriteStripe_eq h a g e d :
  EpochOf a g = Some e -> data_ok (g_k (gen_at a e)) (da_shard_len a) d ->
  da_WriteStripe h a g d =
  let '(ok, h) := write_shards h a e g 0 (g_k (gen_at a e)) (fun c => shard d c) in
  if ok then write_shards h a e g (g_k (gen_at a e)) (g_m (gen_at a e))
               (fun r => EncodeParityShard (g_rs (gen_at a e)) r d (da_shard_len a))
  else (false, h).
Proof using.
  intros He Hok. unfold da_WriteStripe. rewrite He. rewrite decide_False by (destruct Hok; lia).
  unfold write_shards at 1. cbn zeta.
  erewrite for_ok_ext; [reflexivity|]. intros c h0 Hc. cbn beta. rewrite Nat.add_0_l.
  destruct (mid_active a _); [|done].
  by rewrite firstn_all2 by (rewrite (data_ok_shard _ _ _ _ Hok Hc); lia).
Qed.

Lemma da_WriteStripe_holds h a D g e d h' :
  da_inv h a D -> EpochOf a g = Some e -> data_ok (g_k (gen_at a e)) (da_shard_len a) d ->
  da_WriteStripe h a g d = (true, h') ->
  da_inv h' a (fun s' => if decide (s' = g) then Some d else D s').
Proof using MS.
  intros [Hwf Hh] He Hok. rewrite (da_WriteStripe_eq h a g e d He Hok).
  destruct (EpochOf_Some a g e Hwf He) as (gen & _ & Hgw & _ & Hlt).
  destruct (write_shards h a e g 0 _ _) as [[] h1] eqn:Hw1; [|done]. intros Hw2.
  assert (forall c, c < g_k (gen_at a e) -> length (shard d c) = da_shard_len a) as Hdl
    by (intros; by eapply data_ok_shard).
  pose proof (EncodeParityShard_length (g_rs (gen_at a e))) as Hpl.
  split; [done|]. intros s' d' Hd'. case_decide as E.
  - simplify_eq. exists e. split_and!; [done|done|]. intros p mid Hp _ Ha.
    rewrite (write_shards_spec _ _ _ _ _ _ _ _ Hwf He (le_n _) (fun r _ => Hpl r d' _) Hw2 p mid Hp Ha).
    rewrite (write_shards_spec _ _ _ _ 0 _ _ _ Hwf He (Nat.le_add_r _ _) Hdl Hw1 p mid Hp Ha).
    unfold codeword_shard. rewrite (gwf_rs _ _ Hgw).
    change (k_ (ReedSolomon_new ?k _)) with k.
    pose proof (ShardOfPosition_lt a e g p) as Hq. rewrite (gwf_len _ _ Hgw) in Hq.
    pose proof (lookup_lt_Some _ _ _ Hp) as Hpl'. rewrite (gwf_len _ _ Hgw) in Hpl'.
    specialize (Hq ltac:(lia) Hpl').
    destruct (decide (ShardOfPosition a e g p < g_k (gen_at a e))),
      (decide (g_k (gen_at a e) <= ShardOfPosition a e g p < g_k (gen_at a e) + g_m (gen_at a e))),
      (decide (0 <= ShardOfPosition a e g p < 0 + g_k (gen_at a e))); try lia; [by rewrite Nat.sub_0_r|done].
  - destruct (Hh s' d' Hd') as (e' & He' & Hok' & Hr). exists e'. split_and!; [done|done|].
    intros p mid Hp Hx Ha. destruct (EpochOf_Some a s' e' Hwf He') as (gen' & _ & _ & _ & Hlt').
    rewrite (write_shards_other _ _ _ _ _ _ _ _ _ Hwf Hlt (fun r _ => Hpl r d _) Hw2) by done.
    rewrite (write_shards_other _ _ _ _ _ _ _ _ _ Hwf Hlt Hdl Hw1) by done. by apply Hr.
Qed.

(** A rejected or failed write loses at most its own stripe. *)
Lemma da_WriteStripe_fails h a D g d b h' :
  da_inv h a D -> Forall (fun s => length s = da_shard_len a) d ->
  da_WriteStripe h a g d = (b, h') ->
  da_inv h' a (fun s' => if decide (s' = g) then None else D s').
Proof using MS.
  intros [Hwf Hh] Hlen Hw. split; [done|]. intros s' d' Hd'. case_decide as E; [done|].
  destruct (Hh s' d' Hd') as (e' & He' & Hok' & Hr). exists e'. split_and!; [done|done|].
  intros p mid Hp Hx Ha. rewrite <- (Hr p mid Hp Hx Ha).
  destruct (EpochOf_Some a s' e' Hwf He') as (gen' & _ & _ & _ & Hlt').
  destruct (EpochOf a g) as [e|] eqn:He.
  2: { unfold da_WriteStripe in Hw. rewrite He in Hw. by simplify_eq. }
  destruct (EpochOf_Some a g e Hwf He) as (gen & _ & Hgw & _ & Hlt).
  destruct (decide (length d = g_k (gen_at a e))) as [Hk|Hk].
  2: { unfold da_WriteStripe in Hw. rewrite He, decide_True in Hw by done. by simplify_eq. }
  assert (data_ok (g_k (gen_at a e)) (da_shard_len a) d) as Hok by done.
  rewrite (da_WriteStripe_eq h a g e d He Hok) in Hw.
  destruct (write_shards h a e g 0 _ _) as [b1 h1] eqn:Hw1.
  eapply write_shards_other in Hw1; [|done|done|intros; by eapply data_ok_shard|exact Hlt'|done].
  rewrite <- Hw1. destruct b1; [|by simplify_eq].
  eapply write_shards_other in Hw; [exact Hw|done|done| |done|done].
  intros. apply EncodeParityShard_length.
Qed.

(** A read is exact: the last written data, or failure when fewer than [k]
    of the generation's members are active. *)
Lemma da_ReadStripe_eq h a D g d e :
  da_inv h a D -> D g = Some d -> EpochOf a g = Some e ->
  da_ReadStripe h a g =
  if decide (g_k (gen_at a e) <= length (active_members a e None)) then Some d else None.
Proof using MS.
  intros [Hwf Hh] Hd He. unfold da_ReadStripe. rewrite He.
  destruct (EpochOf_Some a g e Hwf He) as (gen & _ & Hgw & _ & Hlt).
  pose proof (gwf_len _ _ Hgw) as Hl. pose proof (gwf_k _ _ Hgw) as Hk.
  destruct (forallb _ _) eqn:Hall; [|by eapply ReconstructStripe_eq].
  rewrite forallb_forall in Hall.
  destruct (Hh g d Hd) as (e' & He' & Hok & Hr). rewrite He in He'. injection He' as <-.
  rewrite decide_True.
  2: { assert (map (fun c => MemberOfShard a e g c) (seq 0 (g_k (gen_at a e))) ⊆+ active_members a e None) as Hsub.
       { apply NoDup_submseteq.
         - apply NoDup_map_inj; [|apply NoDup_seq]. intros x y Hx Hy E.
           apply in_seq in Hx, Hy.
           pose proof (MemberOfShard_lookup a e g x Hgw ltac:(lia)) as Lx.
           pose proof (MemberOfShard_lookup a e g y Hgw ltac:(lia)) as Ly. rewrite <- E in Ly.
           pose proof (NoDup_lookup _ _ _ _ (gwf_nodup _ _ Hgw) Lx Ly) as Ep.
           rewrite <- (ShardOfPosition_of_shard a e g x), Ep by lia. apply ShardOfPosition_of_shard; lia.
         - intros mid Hm. apply list_elem_of_In, in_map_iff in Hm as (c & <- & Hc).
           apply list_elem_of_filter. split; [split; [done|by apply Hall]|].
           apply in_seq in Hc. eapply list_elem_of_lookup_2, MemberOfShard_lookup; [done|lia]. }
       apply submseteq_length in Hsub. by rewrite length_map, length_seq in Hsub. }
  pose (P := fun c (out : list (list u8)) => length out = g_k (gen_at a e) /\
    forall j, j < c -> out !! j = Some (shard d j)).
  destruct (for_opt_total P (g_k (gen_at a e)) (fun c out =>
      match store_read h (mid_store a (MemberOfShard a e g c)) (slot_off (da_shard_len a) g) (da_shard_len a) with
      | None => None | Some b => Some (<[c := b]> out) end)
      (replicate (g_k (gen_at a e)) (replicate (da_shard_len a) Byte.x00))) as (out & -> & Hlo & Ho).
  - split; [apply length_replicate|lia].
  - intros c out Hc [Hlo Ho]. specialize (Hall c). rewrite in_seq in Hall. specialize (Hall ltac:(lia)).
    pose proof (MemberOfShard_lookup a e g c Hgw ltac:(lia)) as Hm.
    change (store_read h ?p _ _) with (slot_read h (da_shard_len a) p g).
    rewrite (Hr _ _ Hm) by done. rewrite ShardOfPosition_of_shard by lia.
    unfold codeword_shard. rewrite (gwf_rs _ _ Hgw). change (k_ (ReedSolomon_new ?k _)) with k.
    rewrite decide_True by done. eexists. split; [done|]. split; [by rewrite length_insert|].
    intros j Hj. destruct (decide (c = j)) as [->|].
    + by rewrite list_lookup_insert_eq by lia.
    + rewrite list_lookup_insert_ne by done. apply Ho. lia.
  - f_equal. apply list_eq. intros i. destruct (decide (i < g_k (gen_at a e))) as [Hi|Hi].
    + rewrite Ho by done. unfold shard. rewrite nth_lookup.
      by destruct (lookup_lt_is_Some_2 d i ltac:(destruct Hok; lia)) as [x ->].
    + rewrite !lookup_ge_None_2; [done| |]; destruct Hok; lia.
Qed.
End DeclusteredWriting.

(** * Reconfiguration *)

Section DeclusteredReconfigure.
Context {S : Type} {HMS : MemberStore S} {MS : MemberStoreSpec S}.
Implicit Types (h : gmap nat S) (a : DeclusteredArray) (D : contents).

(** The parameters [OpenGeneration] is called with. *)
Definition generation_params_ok a (k m : nat) (gen_members : list nat) (num_stripes : nat) : Prop :=
  0 < k /\ k + m <= 256 /\ length gen_members = k + m /\ NoDup gen_members /\
  Forall (fun mid => mid < length (da_members a)) gen_members /\
  (Z.of_nat (da_next_stripe a + num_stripes) < 2 ^ 64)%Z /\
  (Z.of_nat (da_next_stripe a + num_stripes) * Z.of_nat (da_shard_len a) < 2 ^ 64)%Z.

Lemma epoch_from_app i gens gens' g e :
  epoch_from i gens g = Some e -> epoch_from i (gens ++ gens') g = Some e.
Proof using.
  revert i. induction gens as [|gen gens IH]; intros i; cbn; [done|].
  destruct (in_gen g gen); [done|apply IH].
Qed.

Lemma gen_at_app a a' e gen :
  (exists gens, da_gens a' = da_gens a ++ gens) -> da_gens a !! e = Some gen -> gen_at a' e = gen_at a e.
Proof using.
  intros [gens E] He. rewrite (gen_at_lookup a e gen He). apply gen_at_lookup. rewrite E.
  by rewrite lookup_app_l; [|eapply lookup_lt_Some].
Qed.

Lemma gen_wf_mono n n' gen : n <= n' -> gen_wf n gen -> gen_wf n' gen.
Proof using.
  intros Hn []. split; try done. eapply Forall_impl; [done|]. cbn. lia.
Qed.

(** The layout of a generation depends on its parameters only. *)
Lemma ShardOfPosition_gen a a' e g p : gen_at a' e = gen_at a e -> ShardOfPosition a' e g p = ShardOfPosition a e g p.
Proof using. intros E. unfold ShardOfPosition. by rewrite E. Qed.

Lemma OpenGeneration_wf a k m ms n :
  da_wf a -> generation_params_ok a k m ms n -> da_wf (snd (OpenGeneration a k m ms n)).
Proof using.
  intros Hwf (Hk & Hfit & Hl & Hnd & Hms & Hn & Hcap). destruct Hwf. split; cbn; rewrite ?u64n_small by done; try done.
  - apply Forall_app. split; [done|]. apply Forall_singleton. by split.
  - apply gens_chain_app. exists (da_next_stripe a). by split.
Qed.

(** Opening a generation leaves every stripe of the older ones in place. *)
Lemma OpenGeneration_holds a h D k m ms n :
  da_inv h a D -> generation_params_ok a k m ms n -> da_inv h (snd (OpenGeneration a k m ms n)) D.
Proof using.
  intros [Hwf Hh] Hp. split; [by apply OpenGeneration_wf|]. intros g d Hd.
  destruct (Hh g d Hd) as (e & He & Hok & Hr).
  destruct (EpochOf_Some a g e Hwf He) as (gen & Hgen & _).
  assert (gen_at (snd (OpenGeneration a k m ms n)) e = gen_at a e) as Eg
    by (eapply gen_at_app; [cbn; eauto|done]).
  exists e. rewrite Eg. split_and!; [by apply epoch_from_app|done|].
  intros p mid Hm Hx Ha. rewrite (ShardOfPosition_gen a _ e g p Eg). by apply Hr.
Qed.

Lemma AddMemberStore_holds a h D p :
  da_inv h a D -> p ∉ da_members a -> da_inv h (snd (AddMemberStore a p)) D.
Proof using.
  intros [Hwf Hh] Hp. split.
  - destruct Hwf. split; cbn; rewrite ?length_app; cbn; [lia| | |done..].
    + apply NoDup_app. split_and!; [done| |apply NoDup_singleton].
      intros x Hx Hx'. apply list_elem_of_singleton in Hx' as ->. done.
    + eapply Forall_impl; [done|]. intros gen. apply gen_wf_mono. lia.
  - intros g d Hd. destruct (Hh g d Hd) as (e & He & Hok & Hr).
    destruct (EpochOf_Some a g e Hwf He) as (gen & _ & Hgw & _).
    exists e. split_and!; [done|done|]. intros q mid Hm Hx Ha.
    pose proof (gwf_members _ _ Hgw) as Hms. eapply Forall_lookup_1 in Hms; [|exact Hm].
    assert (mid_store (snd (AddMemberStore a p)) mid = mid_store a mid) as ->.
    { unfold mid_store. cbn. by rewrite app_nth1. }
    apply Hr; [done..|]. unfold mid_active in *. cbn in Ha.
    rewrite lookup_app_l in Ha; [done|]. by rewrite (dwf_states a Hwf).
Qed.

Lemma da_MarkFaulty_holds a h D mid : da_inv h a D -> da_inv h (da_MarkFaulty a mid) D.
Proof using.
  intros [Hwf Hh]. split; [destruct Hwf; split; cbn; rewrite ?length_insert; done|].
  intros g d Hd. destruct (Hh g d Hd) as (e & He & Hok & Hr). exists e. split_and!; [done|done|].
  intros q mid' Hm Hx Ha. apply Hr; [done..|]. unfold mid_active in *. cbn in Ha.
  apply bool_decide_eq_true in Ha. apply bool_decide_eq_true.
  destruct (decide (mid = mid')) as [->|Hne]; [|by rewrite list_lookup_insert_ne in Ha].
  destruct (decide (mid' < length (da_member_state a))) as [Hlt|Hlt].
  - by rewrite list_lookup_insert_eq in Ha.
  - rewrite lookup_ge_None_2 in Ha; [done|]. rewrite length_insert. lia.
Qed.

(** ** Recovering a member *)

Lemma da_holds_frame excl h h' a D p :
  da_wf a -> (forall mid, mid < length (da_members a) -> excl <> Some mid -> mid_store a mid <> p) ->
  heap_frame p h h' -> da_holds excl h a D -> da_holds excl h' a D.
Proof using.
  intros Hwf Hfr Hf Hh g d Hd. destruct (Hh g d Hd) as (e & He & Hok & Hr).
  destruct (EpochOf_Some a g e Hwf He) as (gen & _ & Hgw & _).
  exists e. split_and!; [done|done|]. intros q mid Hm Hx Ha. unfold slot_read.
  pose proof (gwf_members _ _ Hgw) as Hms. eapply Forall_lookup_1 in Hms; [|exact Hm].
  rewrite (store_read_frame p h h') by (done || by apply Hfr). by apply Hr.
Qed.

Lemma da_holds_excl mid h a D : da_holds None h a D -> da_holds (Some mid) h a D.
Proof using.
  intros Hh g d Hd. destruct (Hh g d Hd) as (e & He & Hok & Hr). exists e. split_and!; [done|done|].
  intros p mid' Hm _ Ha. by apply Hr.
Qed.

Lemma mid_store_fresh a p mid : p ∉ da_members a -> mid < length (da_members a) -> mid_store a mid <> p.
Proof using.
  intros Hp Hm E. apply Hp. rewrite <- E. unfold mid_store. rewrite nth_lookup.
  destruct (lookup_lt_is_Some_2 _ _ Hm) as [x Hx]. rewrite Hx. cbn. by eapply list_elem_of_lookup_2.
Qed.

Lemma rebuilt_shard_eq a e data q :
  gen_wf (length (da_members a)) (gen_at a e) ->
  rebuilt_shard a (gen_at a e) q data = codeword_shard (g_rs (gen_at a e)) data (da_shard_len a) q.
Proof using. intros Hg. unfold rebuilt_shard, codeword_shard. by rewrite (gwf_rs _ _ Hg). Qed.

Lemma ReconstructStripe_data_ok h a g e excl d :
  da_wf a -> EpochOf a g = Some e -> ReconstructStripe h a g excl = Some d ->
  data_ok (g_k (gen_at a e)) (da_shard_len a) d.
Proof using.
  intros Hwf He. destruct (EpochOf_Some a g e Hwf He) as (gen & _ & Hgw & _).
  unfold ReconstructStripe. rewrite He. destruct (collect_survivors _ _ _ _ _ _ _ _) as [[idx bufs]|]; [|done].
  case_decide; [done|]. intros Hd. apply DecodeData_data_ok in Hd. by rewrite (gwf_rs _ _ Hgw) in Hd.
Qed.

Lemma rebuilt_shard_length a e q data :
  gen_wf (length (da_members a)) (gen_at a e) -> data_ok (g_k (gen_at a e)) (da_shard_len a) data ->
  length (rebuilt_shard a (gen_at a e) q data) = da_shard_len a.
Proof using.
  intros Hg Hok. rewrite rebuilt_shard_eq by done. apply codeword_shard_length. by rewrite (gwf_rs _ _ Hg).
Qed.

(** What the recovery of [mid] onto [p] has put there for the stripes in [X]. *)
Definition rebuilt_on h a D (mid p : nat) (X : nat -> Prop) : Prop :=
  forall g d e pos, X g -> D g = Some d -> EpochOf a g = Some e ->
    g_members (gen_at a e) !! pos = Some mid ->
    slot_read h (da_shard_len a) p g =
    Some (codeword_shard (g_rs (gen_at a e)) d (da_shard_len a) (ShardOfPosition a e g pos)).

Lemma recover_generation_spec h0 h a D mid p e gen h' X :
  da_inv h0 a D -> p ∉ da_members a -> da_gens a !! e = Some gen ->
  (forall g, X g -> g < g_first_stripe gen) ->
  heap_frame p h0 h -> rebuilt_on h a D mid p X ->
  recover_generation h a mid p e = (true, h') ->
  heap_frame p h0 h' /\
  rebuilt_on h' a D mid p (fun g => X g \/ g_first_stripe gen <= g < g_first_stripe gen + g_num_stripes gen).
Proof using MS.
  intros [Hwf Hh] Hp Hgen HX Hf HR. unfold recover_generation.
  pose proof (gen_at_wf a e gen Hwf Hgen) as Hgw. pose proof (gen_at_lookup a e gen Hgen) as Eg.
  assert (forall g, g_first_stripe gen <= g < g_first_stripe gen + g_num_stripes gen -> EpochOf a g = Some e) as He
    by (intros; by eapply EpochOf_gen).
  assert (g_first_stripe gen + g_num_stripes gen <= da_next_stripe a) as Hnext.
  { destruct (list_elem_of_split_length _ _ _ Hgen) as (l1 & l2 & E & _). pose proof (dwf_chain a Hwf) as Hc.
    rewrite E in Hc. apply gens_chain_app in Hc as (x & _ & Hc). cbn in Hc. destruct Hc as [Hfst Hc].
    apply gens_chain_le in Hc. lia. }
  destruct (PositionInGen a e mid) as [pos|] eqn:Hpos.
  2: { intros [= <-]. split; [done|]. intros g d e' pos [Hx|Hx] Hd He' Hm; [by eapply HR|].
       rewrite (He g Hx) in He'. injection He' as <-. apply PositionInGen_None in Hpos.
       exfalso. apply Hpos. by eapply list_elem_of_lookup_2. }
  apply PositionInGen_Some in Hpos; [|apply Hgw]. rewrite Eg.
  pose proof (dwf_next a Hwf). rewrite u64n_small by lia.
  intros Hloop.
  pose (P := fun i h' => heap_frame p h0 h' /\
    rebuilt_on h' a D mid p (fun g => X g \/ g_first_stripe gen <= g < g_first_stripe gen + i)).
  assert (P (g_first_stripe gen + g_num_stripes gen - g_first_stripe gen) h') as [Hf' HR'].
  2: { split; [done|]. intros g d e' q Hx. apply (HR' g d e' q). destruct Hx; [by left|right; lia]. }
  apply (for_ok_ind P _ _ _ _ Hloop).
  { split; [done|]. intros g d e' q [Hx|Hx]; [by apply HR|lia]. }
  clear Hloop. intros i h1 h2 Hi [Hf1 HR1]. set (gi := g_first_stripe gen + i).
  assert (EpochOf a gi = Some e) as Hei by (apply He; lia).
  destruct (ReconstructStripe h1 a gi (Some mid)) as [data|] eqn:Hrd; [|done]. intros Hw.
  split; [eapply heap_frame_trans; [exact Hf1|by eapply store_write_frame]|].
  pose proof (rebuilt_shard_length a e (ShardOfPosition a e gi pos) data Hgw
    (ReconstructStripe_data_ok _ _ _ _ _ _ Hwf Hei Hrd)) as Hlen. rewrite Eg in Hlen.
  intros g d e' q Hx Hd He' Hm.
  destruct (decide (g = gi)) as [->|Hne].
  - rewrite Hei in He'. injection He' as <-.
    assert (q = pos) as -> by (eapply NoDup_lookup; [apply (gwf_nodup _ _ Hgw)|done|done]).
    assert (da_holds (Some mid) h1 a D) as Hh1.
    { eapply (da_holds_frame (Some mid) h0 h1 a D p); [done| |done|by apply da_holds_excl].
      intros m' Hm' _. by apply mid_store_fresh. }
    rewrite (ReconstructStripe_eq (Some mid) h1 a D gi d e) in Hrd by done.
    case_decide; [|done]. injection Hrd as <-.
    rewrite <- rebuilt_shard_eq by done.
    assert (gi < da_next_stripe a) as Hgi by (subst gi; lia).
    refine (slot_write_same h1 _ _ p gi _ h2 (dwf_cap a Hwf) Hgi _ _); by rewrite Eg.
  - assert (X g \/ g_first_stripe gen <= g < g_first_stripe gen + i) as Hx'
      by (destruct Hx; [by left|right; lia]).
    destruct (EpochOf_Some a g e' Hwf He') as (gen' & _ & _ & _ & Hgl).
    rewrite (slot_write_other h1 _ (da_next_stripe a) p gi _ true h2 p g (dwf_cap a Hwf)) by
      (done || lia || exact Hw). by apply (HR1 g d e' q Hx').
Qed.

(** The generations before the [e]-th cover exactly the stripes below its first. *)
Lemma gens_chain_take a e :
  da_wf a -> e <= length (da_gens a) ->
  exists first, gens_chain 0 (take e (da_gens a)) first /\ gens_chain first (drop e (da_gens a)) (da_next_stripe a).
Proof using. intros Hwf He. apply gens_chain_app. rewrite take_drop. apply (dwf_chain a Hwf). Qed.

Lemma recover_all_spec h a D mid p h' :
  da_inv h a D -> p ∉ da_members a ->
  for_ok (length (da_gens a)) (fun e h => recover_generation h a mid p e) h = (true, h') ->
  heap_frame p h h' /\ rebuilt_on h' a D mid p (fun _ => True).
Proof using MS.
  intros Hinv Hp Hloop. pose proof Hinv as [Hwf Hh].
  pose (P := fun e h' => heap_frame p h h' /\ exists first,
    gens_chain first (drop e (da_gens a)) (da_next_stripe a) /\ rebuilt_on h' a D mid p (fun g => g < first)).
  assert (P (length (da_gens a)) h') as (Hf & first & Hc & HR).
  2: { split; [done|]. intros g d e q _ Hd He Hm. rewrite drop_all in Hc. cbn in Hc. subst.
       eapply HR; [|done..]. by destruct (EpochOf_Some a g e Hwf He) as (? & ? & ? & ? & ?). }
  apply (for_ok_ind P _ _ _ _ Hloop).
  { split; [apply heap_frame_refl|]. exists 0. split; [apply (dwf_chain a Hwf)|]. intros ???? Hlt. lia. }
  clear Hloop. intros e h1 h2 He (Hf & first & Hc & HR) Hrec.
  destruct (lookup_lt_is_Some_2 _ _ He) as [gen Hgen].
  rewrite (drop_S _ _ _ Hgen) in Hc. cbn in Hc. destruct Hc as [Hfst Hc].
  destruct (recover_generation_spec h h1 a D mid p e gen h2 (fun g => g < first) Hinv Hp Hgen) as [Hf2 HR2];
    [intros; lia|done|done|done|].
  split; [done|]. exists (first + g_num_stripes gen). split; [done|].
  intros g d e' q Hlt. apply (HR2 g d e' q). lia.
Qed.

Lemma da_RecoverMember_holds h a D mid p h' a' :
  da_inv h a D -> p ∉ da_members a -> mid < length (da_members a) ->
  da_RecoverMember h a mid p = (true, h', a') ->
  da_inv h' a' D /\ heap_frame p h h' /\ mid_active a' mid = true.
Proof using MS.
  intros Hinv Hp Hmid. unfold da_RecoverMember.
  destruct (for_ok _ _ h) as [[] h1] eqn:Hloop; [|done]. intros [= <- <-].
  destruct (recover_all_spec h a D mid p h1 Hinv Hp Hloop) as [Hf HR]. destruct Hinv as [Hwf Hh].
  pose proof (dwf_states a Hwf) as Hst.
  split_and!; [split|done|].
  - destruct Hwf. split; cbn; rewrite ?length_insert; try done.
    apply NoDup_alt. intros i j q Hi Hj.
    destruct (decide (mid = i)) as [<-|Hni], (decide (mid = j)) as [<-|Hnj]; [done| | |].
    + rewrite list_lookup_insert_eq in Hi by done. rewrite list_lookup_insert_ne in Hj by done.
      simplify_eq. exfalso. apply Hp. by eapply list_elem_of_lookup_2.
    + rewrite list_lookup_insert_eq in Hj by done. rewrite list_lookup_insert_ne in Hi by done.
      simplify_eq. exfalso. apply Hp. by eapply list_elem_of_lookup_2.
    + rewrite list_lookup_insert_ne in Hi, Hj by done. by eapply NoDup_lookup.
  - intros g d Hd. destruct (Hh g d Hd) as (e & He & Hok & Hr). exists e. split_and!; [done|done|].
    destruct (EpochOf_Some a g e Hwf He) as (gen & _ & Hgw & _).
    intros q mid' Hm _ Ha. destruct (decide (mid = mid')) as [<-|Hne].
    + assert (mid_store (mkDeclusteredArray (da_shard_len a) (da_next_stripe a) (<[mid:=p]> (da_members a))
        (<[mid:=kActive]> (da_member_state a)) (da_gens a)) mid = p) as ->.
      { unfold mid_store. cbn. by rewrite nth_lookup, list_lookup_insert_eq. }
      by apply HR.
    + pose proof (gwf_members _ _ Hgw) as Hms. eapply Forall_lookup_1 in Hms; [|exact Hm].
      assert (mid_store (mkDeclusteredArray (da_shard_len a) (da_next_stripe a) (<[mid:=p]> (da_members a))
        (<[mid:=kActive]> (da_member_state a)) (da_gens a)) mid' = mid_store a mid') as ->.
      { unfold mid_store. cbn. by rewrite !nth_lookup, list_lookup_insert_ne. }
      unfold slot_read. cbn [da_shard_len].
      rewrite (store_read_frame p h h1) by (done || by apply mid_store_fresh).
      apply Hr; [done..|]. unfold mid_active in *. cbn in Ha. by rewrite list_lookup_insert_ne in Ha.
  - unfold mid_active. cbn. rewrite list_lookup_insert_eq by lia. done.
Qed.

Lemma recover_generation_frame h a mid p e b h' :
  recover_generation h a mid p e = (b, h') -> heap_frame p h h'.
Proof using.
  unfold recover_generation. destruct (PositionInGen a e mid); [|by intros [= _ <-]].
  apply heap_frame_ok. intros i h1 b1 h2. cbn beta zeta.
  destruct (ReconstructStripe _ _ _ _); [apply store_write_frame|by intros [= _ <-]].
Qed.

Lemma da_RecoverMember_fails h a mid p h' a' :
  da_RecoverMember h a mid p = (false, h', a') -> a' = a /\ heap_frame p h h'.
Proof using.
  unfold da_RecoverMember. destruct (for_ok _ _ h) as [[] h1] eqn:Hloop; [done|]. intros [= <- <-].
  split; [done|]. eapply heap_frame_ok; [|exact Hloop]. cbn beta. intros. by eapply recover_generation_frame.
Qed.
End DeclusteredReconfigure.

(** * The array as a state machine *)

Section DeclusteredMachine.
Context {S : Type} {HMS : MemberStore S} {MS : MemberStoreSpec S}.
Implicit Types (h : gmap nat S) (a : DeclusteredArray) (D : contents).

Definition da_state : Type := gmap nat S * DeclusteredArray * contents.

Inductive da_step : da_state -> da_state -> Prop :=
| da_step_write h a D g d ok h' :
    Forall (fun s => length s = da_shard_len a) d ->
    da_WriteStripe h a g d = (ok, h') ->
    da_step (h, a, D) (h', a, set_content D g (if ok then Some d else None))
| da_step_add h a D p :
    p ∉ da_members a -> da_step (h, a, D) (h, (AddMemberStore a p).2, D)
| da_step_open h a D k m ms n :
    generation_params_ok a k m ms n -> da_step (h, a, D) (h, (OpenGeneration a k m ms n).2, D)
| da_step_mark_faulty h a D mid : da_step (h, a, D) (h, da_MarkFaulty a mid, D)
| da_step_recover h a D mid p ok h' a' :
    p ∉ da_members a -> mid < length (da_members a) ->
    da_RecoverMember h a mid p = (ok, h', a') -> da_step (h, a, D) (h', a', D).

Definition da_state_inv (st : da_state) : Prop := let '(h, a, D) := st in da_inv h a D.

Lemma da_WriteStripe_true h a g d h' :
  da_WriteStripe h a g d = (true, h') ->
  exists e, EpochOf a g = Some e /\ length d = g_k (gen_at a e).
Proof using.
  unfold da_WriteStripe. destruct (EpochOf a g) as [e|]; [|done]. case_decide as Hk; [done|].
  intros _. exists e. split; [done|lia].
Qed.

Lemma da_step_inv st st' : da_step st st' -> da_state_inv st -> da_state_inv st'.
Proof using MS.
  destruct 1 as [h a D g d [] h' Hlen Hw|h a D p Hp|h a D k m ms n Hp|h a D mid|h a D mid p [] h' a' Hp Hm Hrec];
    cbn; intros Hinv.
  - destruct (da_WriteStripe_true _ _ _ _ _ Hw) as (e & He & Hk). by eapply da_WriteStripe_holds.
  - by eapply da_WriteStripe_fails.
  - by apply AddMemberStore_holds.
  - by apply OpenGeneration_holds.
  - by apply da_MarkFaulty_holds.
  - by eapply da_RecoverMember_holds.
  - apply da_RecoverMember_fails in Hrec as [-> Hf]. destruct Hinv as [Hwf Hh]. split; [done|].
    eapply da_holds_frame; [done| |done|done]. intros m Hm' _. by apply mid_store_fresh.
Qed.

Lemma DeclusteredArray_new_inv h shard_len : da_state_inv (h, DeclusteredArray_new shard_len, fun _ => None).
Proof using. split; [|done]. split; cbn; try done; try constructor. Qed.

Lemma da_reachable_inv st st' : rtc da_step st st' -> da_state_inv st -> da_state_inv st'.
Proof using MS. induction 1; [done|]. intros. eauto using da_step_inv. Qed.
End DeclusteredMachine.

(** * Parity spread *)

Section ParitySpread.
(** How many of [l] satisfy [f]. *)
Definition count (f : nat -> bool) (l : list nat) : nat := length (List.filter f l).

Lemma count_app f l l' : count f (l ++ l') = count f l + count f l'.
Proof using. unfold count. by rewrite List.filter_app, length_app. Qed.

Lemma count_map f (g : nat -> nat) l : count f (map g l) = count (fun x => f (g x)) l.
Proof using.
  unfold count. induction l as [|x l IH]; [done|]. cbn. by destruct (f (g x)); cbn; rewrite IH.
Qed.

Lemma count_Permutation f l l' : l ≡ₚ l' -> count f l = count f l'.
Proof using.
  unfold count. induction 1; cbn; [done| | |congruence].
  - by destruct (f x); cbn; rewrite IHPermutation.
  - by destruct (f x), (f y).
Qed.

Lemma count_le f l : count f l <= length l.
Proof using. unfold count. induction l as [|x l IH]; cbn; [done|]. destruct (f x); cbn; lia. Qed.

Lemma count_ext f g l : (forall x, In x l -> f x = g x) -> count f l = count g l.
Proof using. intros H. unfold count. by rewrite (filter_ext_in f g). Qed.

Lemma for_count n f : for_ n (fun i c => if (f i : bool) then S c else c) 0 = count f (seq 0 n).
Proof using.
  apply (for_ind (fun n c => c = count f (seq 0 n))); [done|]. intros i c _ ->.
  rewrite seq_S, count_app, Nat.add_0_l. unfold count at 4. cbn. destruct (f i); cbn; lia.
Qed.

Lemma count_ge_seq k m : count (fun q => k <=? q) (seq 0 (k + m)) = m.
Proof using.
  rewrite seq_app, count_app, Nat.add_0_l.
  rewrite (count_ext _ (fun _ => false) (seq 0 k)).
  2: { intros x Hx. apply in_seq in Hx. apply Nat.leb_gt. lia. }
  rewrite (count_ext _ (fun _ => true) (seq k m)).
  2: { intros x Hx. apply in_seq in Hx. apply Nat.leb_le. lia. }
  unfold count. assert (forall l : list nat, List.filter (fun _ => false) l = []) as -> by (by induction l).
  assert (forall l : list nat, List.filter (fun _ => true) l = l) as ->
    by (induction l as [|x l IH]; cbn; [done|by rewrite IH]). by rewrite length_seq.
Qed.

(** The shard of a position that starts at phase [x] and steps down. *)
Definition phase (N : nat) (x : Z) (i : nat) : nat := Z.to_nat ((x - Z.of_nat i) mod Z.of_nat N).

Lemma phase_lt N x i : 0 < N -> phase N x i < N.
Proof using. intros HN. unfold phase. pose proof (Z.mod_pos_bound (x - Z.of_nat i) (Z.of_nat N)). lia. Qed.

Lemma phase_shift N x i c : 0 < N -> phase N x (c * N + i) = phase N x i.
Proof using.
  intros HN. unfold phase. f_equal.
  replace (x - Z.of_nat (c * N + i))%Z with (x - Z.of_nat i + (- Z.of_nat c) * Z.of_nat N)%Z by lia.
  apply Z.mod_add. lia.
Qed.

(** N consecutive stripes visit every shard once. *)
Lemma phase_window N x : 0 < N -> map (phase N x) (seq 0 N) ≡ₚ seq 0 N.
Proof using.
  intros HN. symmetry. apply submseteq_length_Permutation; [|by rewrite length_map].
  assert (NoDup (map (phase N x) (seq 0 N))) as Hnd.
  { apply NoDup_map_inj; [|apply NoDup_seq]. intros i j Hi%in_seq Hj%in_seq E. unfold phase in E.
    pose proof (Z.mod_pos_bound (x - Z.of_nat i) (Z.of_nat N) ltac:(lia)).
    pose proof (Z.mod_pos_bound (x - Z.of_nat j) (Z.of_nat N) ltac:(lia)).
    apply Z2Nat.inj in E; [|lia|lia].
    assert ((Z.of_nat j - Z.of_nat i) mod Z.of_nat N = 0)%Z as Hmod0.
    { replace (Z.of_nat j - Z.of_nat i)%Z with ((x - Z.of_nat i) - (x - Z.of_nat j))%Z by lia.
      rewrite Zminus_mod, E, Z.sub_diag. apply Z.mod_0_l. lia. }
    apply Z.mod_divide in Hmod0 as [z Hz]; [|lia].
    clear E. destruct (Z.lt_trichotomy z 0) as [Hz0|[->|Hz0]]; [|lia|]; exfalso; nia. }
  assert (map (phase N x) (seq 0 N) ⊆+ seq 0 N) as Hsub.
  { apply NoDup_submseteq; [done|]. intros q Hq. rewrite list_elem_of_In, in_map_iff in Hq.
    destruct Hq as (i & <- & _). apply list_elem_of_In, in_seq. pose proof (phase_lt N x i HN). lia. }
  by rewrite (submseteq_length_Permutation _ _ Hsub) by (by rewrite length_map).
Qed.

Lemma count_windows N x f c :
  0 < N -> count (fun i => f (phase N x i)) (seq 0 (c * N)) = c * count f (seq 0 N).
Proof using.
  intros HN. induction c as [|c IH]; [done|].
  replace (S c * N) with (c * N + N) by lia. rewrite seq_app, count_app, IH, Nat.add_0_l.
  assert (seq (c * N) N = map (fun i => c * N + i) (seq 0 N)) as ->.
  { pose proof (fmap_add_seq (c * N) 0 N) as Hf. rewrite Nat.add_0_r in Hf. by rewrite <- Hf. }
  rewrite count_map. rewrite (count_ext (fun i => f (phase N x (c * N + i))) (fun i => f (phase N x i))) by (intros y _; by rewrite phase_shift).
  rewrite <- (count_map f (phase N x)), (count_Permutation f _ _ (phase_window N x HN)). lia.
Qed.

(** Over [n] stripes the count is [m] per full window, plus at most [m] (and
    at most the remainder) for a partial one. *)
Lemma count_parity_bounds N k m x n :
  N = k + m -> 0 < N ->
  m * (n / N) <= count (fun i => k <=? phase N x i) (seq 0 n) <= m * (n / N) + min m (n mod N).
Proof using.
  intros EN HN. pose proof (Nat.div_mod_eq n N) as En. pose proof (Nat.mod_upper_bound n N).
  set (c := n / N) in *. set (r := n mod N) in *.
  replace (seq 0 n) with (seq 0 (c * N) ++ seq (c * N) r) by (rewrite <- seq_app; f_equal; lia).
  rewrite count_app, (count_windows N x (fun q => k <=? q) c HN). subst N. rewrite count_ge_seq.
  assert (seq (c * (k + m)) r = map (fun i => c * (k + m) + i) (seq 0 r)) as ->.
  { pose proof (fmap_add_seq (c * (k + m)) 0 r) as Hf. rewrite Nat.add_0_r in Hf. by rewrite <- Hf. }
  rewrite count_map.
  rewrite (count_ext (fun i => k <=? phase (k + m) x (c * (k + m) + i)) (fun i => k <=? phase (k + m) x i)) by (intros y _; by rewrite phase_shift).
  pose proof (count_le (fun i => k <=? phase (k + m) x i) (seq 0 r)) as Hle. rewrite length_seq in Hle.
  pose proof (count_windows (k + m) x (fun q => k <=? q) 1 HN) as Hw. rewrite Nat.mul_1_l, count_ge_seq in Hw.
  replace (seq 0 (k + m)) with (seq 0 r ++ seq r (k + m - r)) in Hw by (rewrite <- seq_app; f_equal; lia).
  rewrite count_app in Hw. lia.
Qed.

Lemma ShardOfPosition_phase a e p i :
  let gen := gen_at a e in
  0 < length (g_members gen) -> p < length (g_members gen) ->
  (Z.of_nat (g_first_stripe gen + i + g_seed gen) < 2 ^ 64)%Z ->
  ShardOfPosition a e (g_first_stripe gen + i) p =
  phase (length (g_members gen)) (Z.of_nat p - Z.of_nat (g_seed gen)) i.
Proof using.
  cbn zeta. intros HN Hp Hb. unfold phase. apply Nat2Z.inj. rewrite ShardOfPosition_mod by done.
  rewrite Z2Nat.id by (apply Z.mod_pos_bound; lia). unfold rotation.
  rewrite !u64_small by (try lia; rewrite u64_small; lia).
  rewrite Zminus_mod_idemp_r. f_equal. lia.
Qed.

Lemma ParityCountForMember_count a e mid p n :
  let gen := gen_at a e in
  PositionInGen a e mid = Some p -> p < length (g_members gen) ->
  (Z.of_nat (g_first_stripe gen + n + g_seed gen) < 2 ^ 64)%Z ->
  ParityCountForMember a e mid n =
  count (fun i => g_k gen <=? phase (length (g_members gen)) (Z.of_nat p - Z.of_nat (g_seed gen)) i) (seq 0 n).
Proof using.
  cbn zeta. intros Hpos Hp Hb. unfold ParityCountForMember. rewrite Hpos, <- for_count.
  apply (for_ind (fun i c => c = for_ i _ 0)); [done|].
  intros i c Hi ->. rewrite for_S. rewrite u64n_small by lia.
  rewrite ShardOfPosition_phase by lia. case_decide as E.
  - by rewrite (proj2 (Nat.leb_le _ _) E).
  - rewrite (proj2 (Nat.leb_gt _ _)) by lia. done.
Qed.
End ParitySpread.

(** * Properties *)

(** C12. Refinement: over any sequence of member and generation additions,
    writes, failures and recoveries, on any devices that satisfy the interface,
    every stripe reads back as its last successful write while at least k
    members of its generation are active, and fails otherwise. Generations of
    different widths coexist. *)
Theorem DeclusteredArray_reads_last_write {S : Type} {HMS : MemberStore S} {MS : MemberStoreSpec S}
    (shard_len : nat) (h0 h : gmap nat S) (a : DeclusteredArray) (D : contents) (g : nat) (d : list (list u8)) :
  rtc da_step (h0, DeclusteredArray_new shard_len, fun _ => None) (h, a, D) ->
  D g = Some d ->
  exists e, EpochOf a g = Some e /\
    da_ReadStripe h a g =
    if decide (g_k (gen_at a e) <= length (active_members a e None)) then Some d else None.
Proof.
  intros Hr Hd. pose proof (da_reachable_inv _ _ Hr (DeclusteredArray_new_inv h0 shard_len)) as Hinv.
  destruct Hinv as [Hwf Hh]. destruct (Hh g d Hd) as (e & He & _). exists e. split; [done|].
  by eapply da_ReadStripe_eq.
Qed.

Definition da_example_heap : gmap nat MemoryStore :=
  list_to_map (map (fun i => (i, MemoryStore_new 12)) (seq 0 5)).
Definition da_example_array : DeclusteredArray :=
  let a := (AddMemberStore (DeclusteredArray_new 3) 0).2 in
  let a := (AddMemberStore a 1).2 in
  let a := (AddMemberStore a 2).2 in
  let a := (OpenGeneration a 2 1 [0; 1; 2] 2).2 in
  let a := (AddMemberStore a 3).2 in
  (OpenGeneration a 2 2 [0; 1; 2; 3] 2).2.
Definition example_data2 : list (list u8) := [[Byte.x11; Byte.x22; Byte.x33]; [Byte.x00; Byte.xff; Byte.x7e]].
Definition da_example_write := Eval vm_compute in da_WriteStripe da_example_heap da_example_array 1 example_data.
Definition da_example_write2 := Eval vm_compute in da_WriteStripe da_example_write.2 da_example_array 3 example_data2.
Definition da_example_contents : contents :=
  set_content (set_content (fun _ => None) 1 (Some example_data)) 3 (Some example_data2).

Ltac solve_params :=
  split_and!; cbn; try lia; try by_decide;
  repeat constructor; cbn; lia.

Lemma da_example_reachable :
  rtc da_step (da_example_heap, DeclusteredArray_new 3, fun _ => None)
      (da_example_write2.2, da_MarkFaulty da_example_array 0, da_example_contents).
Proof.
  eapply rtc_l; [apply (da_step_add _ _ _ 0); by_decide|].
  eapply rtc_l; [apply (da_step_add _ _ _ 1); by_decide|].
  eapply rtc_l; [apply (da_step_add _ _ _ 2); by_decide|].
  eapply rtc_l; [apply (da_step_open _ _ _ 2 1 [0; 1; 2] 2); solve_params|].
  eapply rtc_l; [apply (da_step_add _ _ _ 3); by_decide|].
  eapply rtc_l; [apply (da_step_open _ _ _ 2 2 [0; 1; 2; 3] 2); solve_params|].
  eapply rtc_l; [eapply (da_step_write _ _ _ 1 example_data); [repeat constructor|vm_compute; reflexivity]|].
  eapply rtc_l; [eapply (da_step_write _ _ _ 3 example_data2); [repeat constructor|vm_compute; reflexivity]|].
  apply rtc_once, (da_step_mark_faulty _ _ _ 0).
Qed.

Lemma DeclusteredArray_reads_last_write_witness :
  da_ReadStripe da_example_write2.2 (da_MarkFaulty da_example_array 0) 3 = Some example_data2.
Proof.
  destruct (DeclusteredArray_reads_last_write 3 da_example_heap _ _ da_example_contents 3 example_data2
    da_example_reachable eq_refl) as (e & He & Hr).
  rewrite Hr. vm_compute in He. injection He as <-. vm_compute. reflexivity.
Defined.

(** Placement: in every well-formed generation the rotated layout is a
    bijection between member positions and shard indices, for every stripe, and
    [MemberOfShard] names the member that holds the shard; so the k + m shards
    of a stripe always lie on distinct members. *)
Theorem rotated_placement_bijective (a : DeclusteredArray) (e g : nat) (gen : Generation) :
  da_wf a -> da_gens a !! e = Some gen ->
  (forall p, p < g_k gen + g_m gen ->
     ShardOfPosition a e g p < g_k gen + g_m gen /\ PositionOfShard a e g (ShardOfPosition a e g p) = p) /\
  (forall q, q < g_k gen + g_m gen ->
     PositionOfShard a e g q < g_k gen + g_m gen /\ ShardOfPosition a e g (PositionOfShard a e g q) = q /\
     PositionInGen a e (MemberOfShard a e g q) = Some (PositionOfShard a e g q)).
Proof.
  intros Hwf He. pose proof (gen_at_wf a e gen Hwf He) as Hg. pose proof (gen_at_lookup a e gen He) as E.
  pose proof (gwf_len _ _ Hg) as Hl. pose proof (gwf_k _ _ Hg). rewrite E in Hl.
  split; intros x Hx; rewrite <- Hl in *; rewrite <- E in *.
  - split; [apply ShardOfPosition_lt|apply PositionOfShard_of_position]; lia.
  - split_and!; [apply PositionOfShard_lt; lia|apply ShardOfPosition_of_shard; lia|].
    apply PositionInGen_Some; [apply Hg|]. apply MemberOfShard_lookup; [done|].
    rewrite <- (gwf_len _ _ Hg). lia.
Qed.

Lemma da_example_wf : da_wf (da_MarkFaulty da_example_array 0).
Proof. exact (proj1 (da_reachable_inv _ _ da_example_reachable (DeclusteredArray_new_inv _ 3))). Qed.

Lemma rotated_placement_bijective_witness :
  ShardOfPosition da_example_array 1 3 2 = 0 /\
  PositionOfShard (da_MarkFaulty da_example_array 0) 1 3 (ShardOfPosition (da_MarkFaulty da_example_array 0) 1 3 2) = 2.
Proof.
  split; [vm_compute; reflexivity|].
  refine (proj2 (proj1 (rotated_placement_bijective (da_MarkFaulty da_example_array 0) 1 3 _ da_example_wf eq_refl) 2 _)).
  vm_compute. lia.
Defined.

(** Parity is spread evenly: over any [n] consecutive stripes of a
    generation a member holds parity m times per k + m stripes, plus at most
    min(m, n mod (k + m)) times in the last partial round. *)
Theorem ParityCountForMember_balanced (a : DeclusteredArray) (e p mid n : nat) (gen : Generation) :
  da_wf a -> da_gens a !! e = Some gen -> g_members gen !! p = Some mid ->
  (Z.of_nat (g_first_stripe gen + n + g_seed gen) < 2 ^ 64)%Z ->
  let N := g_k gen + g_m gen in
  g_m gen * (n / N) <= ParityCountForMember a e mid n <= g_m gen * (n / N) + min (g_m gen) (n mod N).
Proof.
  intros Hwf He Hp Hb. cbn zeta. pose proof (gen_at_wf a e gen Hwf He) as Hg.
  pose proof (gen_at_lookup a e gen He) as E. pose proof (lookup_lt_Some _ _ _ Hp) as Hpl. rewrite <- E in *.
  rewrite (ParityCountForMember_count a e mid p n); [| |done|done].
  2: { apply PositionInGen_Some; [apply Hg|done]. }
  rewrite <- (gwf_len _ _ Hg). apply count_parity_bounds; [apply Hg|lia].
Qed.

Lemma ParityCountForMember_balanced_witness :
  ParityCountForMember (da_MarkFaulty da_example_array 0) 1 3 8 = 4 /\
  2 * (8 / 4) <= ParityCountForMember (da_MarkFaulty da_example_array 0) 1 3 8.
Proof.
  split; [vm_compute; reflexivity|].
  refine (proj1 (ParityCountForMember_balanced (da_MarkFaulty da_example_array 0) 1 3 3 8 _ da_example_wf eq_refl eq_refl _)).
  vm_compute. reflexivity.
Defined.

(** Rebuild across generations: when [RecoverMember] returns true, the
    member is active on its new store, every written stripe of every generation
    is intact, and no other store was touched. *)
Theorem DeclusteredArray_RecoverMember_rebuilds {S : Type} {HMS : MemberStore S} {MS : MemberStoreSpec S}
    (h h' : gmap nat S) (a a' : DeclusteredArray) (D : contents) (mid p : nat) :
  da_inv h a D -> p ∉ da_members a -> mid < length (da_members a) ->
  da_RecoverMember h a mid p = (true, h', a') ->
  da_inv h' a' D /\ mid_active a' mid = true /\ (forall q, q <> p -> h' !! q = h !! q).
Proof. intros Hinv Hp Hm Hr. destruct (da_RecoverMember_holds h a D mid p h' a') as (? & ? & ?); auto. Qed.

Lemma DeclusteredArray_RecoverMember_rebuilds_witness :
  exists h' a', da_RecoverMember da_example_write2.2 (da_MarkFaulty da_example_array 0) 0 4 = (true, h', a') /\
    mid_active a' 0 = true.
Proof.
  destruct (da_RecoverMember da_example_write2.2 (da_MarkFaulty da_example_array 0) 0 4) as [[ok h'] a'] eqn:E.
  assert (ok = true) as -> by (apply (f_equal (fun r => r.1.1)) in E; vm_compute in E; by symmetry).
  exists h', a'. split; [reflexivity|].
  refine (proj1 (proj2 (DeclusteredArray_RecoverMember_rebuilds _ h' _ a' da_example_contents 0 4
    (da_reachable_inv _ _ da_example_reachable (DeclusteredArray_new_inv _ 3)) _ _ E))).
  - by_decide.
  - vm_compute. lia.
Defined.
