(* ===== verification/BlockAllocator.v ===== *)
(** The block allocator of the bdev module: [bdev/transports/block_allocator.h],
    [bdev/src/transports/block_allocator.cc].

    Per-worker free lists bucketed by size category, a bump heap and the
    allocator that combines them. [uint64_t] and [size_t] values are [Z] with
    their wrap-around ([u64]). [AllocateBlocks] runs under the per-worker locks
    one map at a time, so the file first treats an operation as one step; the
    heap's lock-free [fetch_add]/[fetch_sub] pair is then split into its atomic
    steps. *)
From Stdlib Require Import ZArith Lia Permutation.
From stdpp Require Import base list gmap.
From S2P Require Import Prelude.

Open Scope Z_scope.

(** * Data *)

Record Block := mkBlock { b_offset : Z; b_size : Z; b_type : Z }.

#[export] Instance Block_eq_dec : EqDecision Block.
Proof. solve_decision. Defined.

Definition Block_new : Block := mkBlock 0 0 0.

Definition kMaxCategories : nat := 9.

Definition kBlockSizes : list Z :=
  [512; 1024; 2048; 4096; 16384; 32768; 65536; 131072; 1048576].

(** One free list per category. *)
Abbreviation WorkerBlockMap := (list (list Block)) (only parsing).
Abbreviation GlobalBlockMap := (list (list (list Block))) (only parsing).

Record Heap := mkHeap { heap_ : Z; total_size_ : Z; h_alignment_ : Z }.

Record StandardBlockAllocator := mkAllocator {
  global_block_map_ : GlobalBlockMap;
  sa_heap_ : Heap;
  alignment_ : Z;
  capacity_ : Z;
  allocated_bytes_ : Z
}.

(** * The free lists *)

Definition WorkerBlockMap_new : WorkerBlockMap := replicate kMaxCategories [].

(** The first list element that satisfies [P], and the list without it. *)
Fixpoint extract (P : Block -> bool) (l : list Block) : option (Block * list Block) :=
  match l with
  | [] => None
  | b :: l =>
      if P b then Some (b, l)
      else match extract P l with
           | Some (b', l') => Some (b', b :: l')
           | None => None
           end
  end.

Definition Worker_AllocateBlock (w : WorkerBlockMap) (block_type : Z) (min_size : Z)
    : option (Block * WorkerBlockMap) :=
  if (block_type <? 0) || (Z.of_nat kMaxCategories <=? block_type) then None
  else
    match extract (fun b => min_size <=? b_size b) (nth (Z.to_nat block_type) w []) with
    | Some (b, l) => Some (b, <[Z.to_nat block_type := l]> w)
    | None => None
    end.

(** The 4 KiB footprint written out in [AllocateAnyUpTo]. *)
Definition footprint4k (size : Z) : Z := u64 (u64 (size + 4095) / 4096 * 4096).

Fixpoint any_up_to (bts : list nat) (w : WorkerBlockMap) (max_bytes : Z)
    : option (Block * WorkerBlockMap) :=
  match bts with
  | [] => None
  | bt :: bts =>
      match extract (fun b => (0 <? b_size b) && (footprint4k (b_size b) <=? max_bytes)) (nth bt w []) with
      | Some (b, l) => Some (b, <[bt := l]> w)
      | None => any_up_to bts w max_bytes
      end
  end.

Definition Worker_AllocateAnyUpTo (w : WorkerBlockMap) (max_bytes : Z) : option (Block * WorkerBlockMap) :=
  any_up_to (rev (seq 0 kMaxCategories)) w max_bytes.

Definition Worker_FreeBlock (w : WorkerBlockMap) (b : Block) : WorkerBlockMap :=
  if (0 <=? b_type b) && (b_type b <? Z.of_nat kMaxCategories) then
    alter (fun l => l ++ [b]) (Z.to_nat (b_type b)) w
  else w.

(** [for i: if io_size <= kBlockSizes[i] return i; return -1]. *)
Fixpoint find_block_type (i : Z) (sizes : list Z) (io_size : Z) : Z :=
  match sizes with
  | [] => -1
  | s :: sizes => if io_size <=? s then i else find_block_type (i + 1) sizes io_size
  end.

Definition FindBlockType (io_size : Z) : Z := find_block_type 0 kBlockSizes io_size.

(** [static_cast<size_t>(worker) % n]. *)
Definition worker_index (gm : GlobalBlockMap) (worker : Z) : nat :=
  Z.to_nat (u64 worker mod Z.of_nat (length gm)).

(** This worker's map first, then the others in ring order. *)
Definition probe_order (gm : GlobalBlockMap) (worker : Z) : list nat :=
  let idx := worker_index gm worker in
  idx :: map (fun i => Nat.modulo (idx + i) (length gm)) (seq 1 (length gm - 1)).

Fixpoint probe (ws : list nat) (f : WorkerBlockMap -> option (Block * WorkerBlockMap)) (gm : GlobalBlockMap)
    : option (Block * GlobalBlockMap) :=
  match ws with
  | [] => None
  | i :: ws =>
      match f (nth i gm []) with
      | Some (b, w) => Some (b, <[i := w]> gm)
      | None => probe ws f gm
      end
  end.

Definition GlobalBlockMap_Init (num_workers : nat) : GlobalBlockMap := replicate num_workers WorkerBlockMap_new.

Definition clamp_type (t : Z) : Z := if t =? -1 then Z.of_nat kMaxCategories - 1 else t.

Definition Global_AllocateBlock (gm : GlobalBlockMap) (worker io_size : Z) : option (Block * GlobalBlockMap) :=
  let block_type := clamp_type (FindBlockType io_size) in
  probe (probe_order gm worker) (fun w => Worker_AllocateBlock w block_type io_size) gm.

Definition Global_AllocateAnyUpTo (gm : GlobalBlockMap) (worker max_bytes : Z) : option (Block * GlobalBlockMap) :=
  match gm with
  | [] => None
  | _ => probe (probe_order gm worker) (fun w => Worker_AllocateAnyUpTo w max_bytes) gm
  end.

Definition Global_FreeBlock (gm : GlobalBlockMap) (worker : Z) (b : Block) : bool * GlobalBlockMap :=
  match gm with
  | [] => (false, gm)
  | _ => (true, alter (fun w => Worker_FreeBlock w b) (worker_index gm worker) gm)
  end.

(** * The heap *)

Definition Heap_Init (total_size alignment : Z) : Heap := mkHeap 0 total_size alignment.

Definition default_alignment (al : Z) : Z := if al =? 0 then 4096 else al.

(** [((n + al - 1) / al) * al] in 64 bits. *)
Definition round_up (al n : Z) : Z := u64 (u64 (n + al - 1) / al * al).

(** The two atomic instructions and the test between them. *)
Definition heap_fetch_add (h : Heap) (n : Z) : Z * Heap :=
  (heap_ h, mkHeap (u64 (heap_ h + n)) (total_size_ h) (h_alignment_ h)).
Definition heap_fetch_sub (h : Heap) (n : Z) : Heap :=
  mkHeap (u64 (heap_ h - n)) (total_size_ h) (h_alignment_ h).
Definition heap_overflows (h : Heap) (old n : Z) : bool :=
  (0 <? total_size_ h) && (total_size_ h <? u64 (old + n)).

Definition Heap_Allocate (h : Heap) (block_size block_type : Z) : option Block * Heap :=
  let aligned_size := round_up (default_alignment (h_alignment_ h)) block_size in
  let '(old_heap, h) := heap_fetch_add h aligned_size in
  if heap_overflows h old_heap aligned_size then (None, heap_fetch_sub h aligned_size)
  else (Some (mkBlock old_heap block_size block_type), h).

Definition Heap_GetRemainingSize (h : Heap) : Z :=
  if heap_ h <? total_size_ h then total_size_ h - heap_ h else 0.

(** * The allocator *)

Definition Allocator_Init (num_workers : nat) (capacity alignment : Z) : StandardBlockAllocator :=
  mkAllocator (GlobalBlockMap_Init num_workers) (Heap_Init capacity alignment) alignment capacity 0.

(** [AlignSize] also stores the default into [alignment_] when it is 0; only
    [AlignSize] reads the field, so reading it through [default_alignment] is
    the same. *)
Definition AlignSize (a : StandardBlockAllocator) (size : Z) : Z :=
  round_up (default_alignment (alignment_ a)) size.

Definition set_map (a : StandardBlockAllocator) (gm : GlobalBlockMap) : StandardBlockAllocator :=
  mkAllocator gm (sa_heap_ a) (alignment_ a) (capacity_ a) (allocated_bytes_ a).
Definition set_heap (a : StandardBlockAllocator) (h : Heap) : StandardBlockAllocator :=
  mkAllocator (global_block_map_ a) h (alignment_ a) (capacity_ a) (allocated_bytes_ a).
Definition set_allocated (a : StandardBlockAllocator) (n : Z) : StandardBlockAllocator :=
  mkAllocator (global_block_map_ a) (sa_heap_ a) (alignment_ a) (capacity_ a) (u64 n).

(** Step 3: the [while] loop that assembles a request from freed extents. Each
    iteration takes a block off a free list; [None] when the fuel runs out. *)
Fixpoint assemble (fuel : nat) (a : StandardBlockAllocator) (worker remaining : Z) (blocks : list Block)
    : option (Z * list Block * StandardBlockAllocator) :=
  match fuel with
  | O => None
  | S fuel =>
      if remaining <=? 0 then Some (remaining, blocks, a)
      else
        match Global_AllocateAnyUpTo (global_block_map_ a) worker remaining with
        | None => Some (remaining, blocks, a)
        | Some (fb, gm) =>
            let fp := AlignSize a (b_size fb) in
            let fp := if remaining <? fp then remaining else fp in
            assemble fuel (set_allocated (set_map a gm) (allocated_bytes_ a + fp)) worker
              (u64 (remaining - fp)) (blocks ++ [mkBlock (b_offset fb) fp (b_type fb)])
        end
  end.

(** The rollback of a failed request. *)
Definition roll_back (a : StandardBlockAllocator) (worker : Z) (blocks : list Block) : StandardBlockAllocator :=
  fold_left (fun a b =>
    set_allocated (set_map a (snd (Global_FreeBlock (global_block_map_ a) worker b)))
                  (allocated_bytes_ a - AlignSize a (b_size b))) blocks a.

(** All freed extents. *)
Definition free_blocks (gm : GlobalBlockMap) : list Block := concat (map (fun w => concat w) gm).

(** [bool AllocateBlocks(size, worker_id, blocks)]; the loop's fuel is one more
    than the number of freed extents. *)
Definition AllocateBlocks (a : StandardBlockAllocator) (size worker : Z) (blocks : list Block)
    : option (bool * list Block * StandardBlockAllocator) :=
  if size =? 0 then Some (true, [], a)
  else
    match Global_AllocateBlock (global_block_map_ a) worker size with
    | Some (block, gm) =>
        Some (true, blocks ++ [block], set_allocated (set_map a gm) (allocated_bytes_ a + b_size block))
    | None =>
        let aligned := AlignSize a size in
        let whole_type := clamp_type (FindBlockType aligned) in
        match Heap_Allocate (sa_heap_ a) aligned whole_type with
        | (Some block, h) =>
            Some (true, blocks ++ [mkBlock (b_offset block) size (b_type block)],
                  set_allocated (set_heap a h) (allocated_bytes_ a + aligned))
        | (None, h) =>
            let a := set_heap a h in
            match assemble (S (length (free_blocks (global_block_map_ a)))) a worker aligned blocks with
            | None => None
            | Some (remaining, blocks, a) =>
                if remaining =? 0 then Some (true, blocks, a)
                else Some (false, [], roll_back a worker blocks)
            end
        end
    end.

(** One iteration of [FreeBlocks]. *)
Definition free_one (worker : Z) (st : Z * StandardBlockAllocator) (block : Block) : Z * StandardBlockAllocator :=
  let '(freed, a) := st in
  let aligned := AlignSize a (b_size block) in
  let copy := mkBlock (b_offset block) aligned (clamp_type (FindBlockType aligned)) in
  (u64 (freed + aligned), set_map a (snd (Global_FreeBlock (global_block_map_ a) worker copy))).

Definition FreeBlocks (a : StandardBlockAllocator) (worker : Z) (blocks : list Block) : StandardBlockAllocator :=
  let '(freed, a) := fold_left (free_one worker) blocks (0, a) in
  set_allocated a (allocated_bytes_ a - Z.min (allocated_bytes_ a) freed).

Definition GetRemainingSize (a : StandardBlockAllocator) : Z :=
  if allocated_bytes_ a <? capacity_ a then capacity_ a - allocated_bytes_ a else 0.

(** * Alignment *)

Lemma round_up_spec al n :
  0 < al -> 0 <= n -> n + al <= 2 ^ 64 ->
  exists q, round_up al n = q * al /\ n <= q * al < n + al.
Proof.
  intros Hal Hn Hb. unfold round_up. rewrite (u64_small (n + al - 1)) by lia.
  pose proof (Z.div_mod (n + al - 1) al ltac:(lia)) as E.
  pose proof (Z.mod_pos_bound (n + al - 1) al Hal) as Hm.
  exists ((n + al - 1) / al). rewrite u64_small by nia. split; [done|nia].
Qed.

Lemma round_up_multiple al q : 0 < al -> 0 <= q -> q * al + al <= 2 ^ 64 -> round_up al (q * al) = q * al.
Proof.
  intros Hal Hq Hb. destruct (round_up_spec al (q * al)) as (q' & -> & Hle); [lia|nia|lia|].
  assert (q' = q) as -> by nia. done.
Qed.

Lemma round_up_idem al n :
  0 < al -> 0 <= n -> n + al + al <= 2 ^ 64 -> round_up al (round_up al n) = round_up al n.
Proof.
  intros Hal Hn Hb. destruct (round_up_spec al n) as (q & -> & Hle); [lia..|].
  apply round_up_multiple; nia.
Qed.

Lemma default_alignment_pos al : 0 <= al -> 0 < default_alignment al.
Proof. intros H. unfold default_alignment. destruct (Z.eqb_spec al 0); lia. Qed.

Lemma find_block_type_range i sizes n :
  0 <= i -> find_block_type i sizes n = -1 \/ i <= find_block_type i sizes n < i + Z.of_nat (length sizes).
Proof.
  revert i. induction sizes as [|s sizes IH]; intros i Hi; cbn -[Z.of_nat]; [by left|].
  destruct (n <=? s); [right; cbn; lia|]. destruct (IH (i + 1)) as [?|?]; [lia|by left|right; lia].
Qed.

Lemma clamp_type_range n : 0 <= clamp_type (FindBlockType n) < Z.of_nat kMaxCategories.
Proof.
  unfold clamp_type, FindBlockType. pose proof (find_block_type_range 0 kBlockSizes n ltac:(lia)) as H.
  set (t := find_block_type 0 kBlockSizes n) in *. change (Z.of_nat (length kBlockSizes)) with 9 in H.
  change (Z.of_nat kMaxCategories) with 9. destruct (Z.eqb_spec t (-1)); lia.
Qed.

(** * What the free-list operations do to the pool of freed extents *)

Lemma extract_Some P l b l' : extract P l = Some (b, l') -> l ≡ₚ b :: l' /\ P b = true.
Proof.
  revert l'. induction l as [|x l IH]; intros l' H; [done|]. cbn in H. destruct (P x) eqn:E; [by simplify_eq|].
  destruct (extract P l) as [[b' l0]|]; [|done]. injection H as <- <-.
  destruct (IH l0 eq_refl) as [-> ?]. split; [apply Permutation_swap|done].
Qed.

Lemma extract_None P l : extract P l = None -> Forall (fun b => P b = false) l.
Proof.
  induction l as [|x l IH]; intros H; [constructor|]. cbn in H. destruct (P x) eqn:E; [done|].
  constructor; [done|]. apply IH. by destruct (extract P l) as [[]|].
Qed.

(** Taking a block out of one component of a family of lists. *)
Lemma concat_insert {A} (ls : list (list A)) i l b l' :
  ls !! i = Some l -> l ≡ₚ b :: l' -> concat ls ≡ₚ b :: concat (<[i:=l']> ls).
Proof.
  revert i. induction ls as [|l0 ls IH]; intros i Hi Hp; [done|]. destruct i as [|i]; cbn in *.
  - injection Hi as ->. by rewrite Hp.
  - rewrite (IH i Hi Hp). by rewrite Permutation_middle.
Qed.

(** Free lists are well formed: every bucket exists and holds blocks of its own
    category whose size satisfies [Q]. *)
Definition worker_ok (Q : Z -> Prop) (w : WorkerBlockMap) : Prop :=
  length w = kMaxCategories /\
  forall t l, w !! t = Some l -> Forall (fun b => b_type b = Z.of_nat t /\ Q (b_size b)) l.

Definition map_ok (Q : Z -> Prop) (gm : GlobalBlockMap) : Prop := (0 < length gm)%nat /\ Forall (worker_ok Q) gm.

Section FreeLists.
Context (Q : Z -> Prop).

Lemma worker_ok_take w t l b l' :
  worker_ok Q w -> w !! t = Some l -> l ≡ₚ b :: l' ->
  worker_ok Q (<[t:=l']> w) /\ concat w ≡ₚ b :: concat (<[t:=l']> w) /\
  b_type b = Z.of_nat t /\ Q (b_size b).
Proof using.
  intros [Hl Hw] Ht Hp. pose proof (Hw t l Ht) as Hf. rewrite Hp in Hf. apply Forall_cons in Hf as [[Hb Hq] Hf].
  split; [|split_and!; [by eapply concat_insert|done|done]]. split; [by rewrite length_insert|].
  intros t' l0 Ht'. destruct (decide (t = t')) as [<-|Hne].
  - rewrite list_lookup_insert_eq in Ht' by (by eapply lookup_lt_Some). by injection Ht' as <-.
  - rewrite list_lookup_insert_ne in Ht' by done. by eapply Hw.
Qed.

Lemma Worker_AllocateBlock_Some w t n b w' :
  worker_ok Q w -> Worker_AllocateBlock w t n = Some (b, w') ->
  worker_ok Q w' /\ concat w ≡ₚ b :: concat w' /\ n <= b_size b /\ Q (b_size b) /\
  0 <= b_type b < Z.of_nat kMaxCategories.
Proof using.
  intros Hw. unfold Worker_AllocateBlock. destruct ((t <? 0) || _) eqn:E; [done|].
  apply orb_false_iff in E as [E1%Z.ltb_ge E2%Z.leb_gt].
  destruct (lookup_lt_is_Some_2 w (Z.to_nat t)) as [l Hl]; [rewrite (proj1 Hw); lia|].
  rewrite nth_lookup, Hl. cbn [from_option id].
  match goal with |- context [extract ?P l] => destruct (extract P l) as [[b' l']|] eqn:Ex; [|done] end. intros [= <- <-].
  apply extract_Some in Ex as [Hp Hn%Z.leb_le].
  destruct (worker_ok_take w _ l b' l' Hw Hl Hp) as (Hok & Hc & Ht & Hq).
  split; [done|]. split_and!; [done..|lia|lia].
Qed.

Lemma any_up_to_Some bts w n b w' :
  worker_ok Q w -> Forall (fun t => (t < kMaxCategories)%nat) bts -> any_up_to bts w n = Some (b, w') ->
  worker_ok Q w' /\ concat w ≡ₚ b :: concat w' /\ footprint4k (b_size b) <= n /\ 0 < b_size b /\
  Q (b_size b) /\ 0 <= b_type b < Z.of_nat kMaxCategories.
Proof using.
  intros Hw. induction bts as [|t bts IH]; intros Hf H; [done|]. apply Forall_cons in Hf as [Ht Hf]. cbn in H.
  destruct (lookup_lt_is_Some_2 w t) as [l Hl]; [rewrite (proj1 Hw); lia|].
  rewrite nth_lookup, Hl in H. cbn [from_option id] in H.
  match type of H with context [extract ?P l] =>
    destruct (extract P l) as [[b' l']|] eqn:Ex; [|by apply IH] end. injection H as <- <-.
  apply extract_Some in Ex as [Hp [H0%Z.ltb_lt Hn%Z.leb_le]%andb_true_iff].
  destruct (worker_ok_take w _ l b' l' Hw Hl Hp) as (Hok & Hc & Hty & Hq).
  split; [done|]. split_and!; [done..|lia|lia].
Qed.

Lemma any_up_to_None bts w n :
  any_up_to bts w n = None -> forall t l, In t bts -> w !! t = Some l ->
  Forall (fun b => ~ (0 < b_size b /\ footprint4k (b_size b) <= n)) l.
Proof using.
  induction bts as [|t bts IH]; intros H t' l Hin Hl; [done|]. cbn in H.
  match type of H with context [extract ?P ?l] => destruct (extract P l) as [[]|] eqn:Ex; [done|] end. destruct Hin as [->|Hin]; [|by eapply IH].
  rewrite nth_lookup, Hl in Ex. cbn in Ex. apply extract_None in Ex.
  eapply Forall_impl; [exact Ex|]. cbn. intros b Hb [H0 H1].
  apply andb_false_iff in Hb as [Hb%Z.ltb_ge|Hb%Z.leb_gt]; lia.
Qed.

Lemma Worker_FreeBlock_spec w b :
  worker_ok Q w -> 0 <= b_type b < Z.of_nat kMaxCategories -> Q (b_size b) ->
  worker_ok Q (Worker_FreeBlock w b) /\ concat (Worker_FreeBlock w b) ≡ₚ b :: concat w.
Proof using.
  intros [Hl Hw] Ht Hq. unfold Worker_FreeBlock.
  rewrite (proj2 (Z.leb_le _ _)), (proj2 (Z.ltb_lt _ _)) by lia. cbn [andb].
  destruct (lookup_lt_is_Some_2 w (Z.to_nat (b_type b))) as [l Hlk]; [rewrite Hl; lia|].
  set (t := Z.to_nat (b_type b)) in *.
  split; [split; [by rewrite length_alter|]|].
  - intros t' l' Ht'. destruct (decide (t = t')) as [<-|Hne].
    + rewrite list_lookup_alter_eq, Hlk in Ht'. injection Ht' as <-. apply Forall_app. split; [by apply Hw|].
      apply Forall_singleton. split; [unfold t; lia|done].
    + rewrite list_lookup_alter_ne in Ht' by done. by apply Hw.
  - assert (alter (fun l => l ++ [b]) t w = <[t := l ++ [b]]> w) as ->.
    { apply list_eq. intros i. destruct (decide (t = i)) as [<-|Hne].
      - rewrite list_lookup_alter_eq, Hlk, list_lookup_insert_eq; [done|]. by eapply lookup_lt_Some.
      - by rewrite list_lookup_alter_ne, list_lookup_insert_ne. }
    rewrite (concat_insert (<[t := l ++ [b]]> w) t (l ++ [b]) b l).
    + by rewrite list_insert_insert_eq, list_insert_id.
    + apply list_lookup_insert_eq. by eapply lookup_lt_Some.
    + by rewrite Permutation_app_comm.
Qed.

(** ** Over all workers *)

Lemma free_blocks_insert gm i w w' b :
  gm !! i = Some w -> concat w ≡ₚ b :: concat w' -> free_blocks gm ≡ₚ b :: free_blocks (<[i:=w']> gm).
Proof using.
  intros Hi Hc. unfold free_blocks.
  assert (map (fun w => concat w) (<[i:=w']> gm) = <[i:=concat w']> (map (fun w => concat w) gm)) as ->.
  { change (map ?f ?l) with (f <$> l). by rewrite list_fmap_insert. }
  apply (concat_insert _ i (concat w)); [|done]. change (map ?f ?l) with (f <$> l).
  by rewrite list_lookup_fmap, Hi.
Qed.

(** A probe takes one block that [f] accepts, from some worker. *)
Lemma probe_Some (R : Block -> Prop) ws f gm b gm' :
  map_ok Q gm -> Forall (fun i => (i < length gm)%nat) ws ->
  (forall w b w', worker_ok Q w -> f w = Some (b, w') ->
     worker_ok Q w' /\ concat w ≡ₚ b :: concat w' /\ R b) ->
  probe ws f gm = Some (b, gm') ->
  map_ok Q gm' /\ free_blocks gm ≡ₚ b :: free_blocks gm' /\ R b.
Proof using.
  intros [Hn Hgm] Hws Hf. induction Hws as [|i ws Hi Hws IH]; intros H; [done|]. cbn in H.
  destruct (lookup_lt_is_Some_2 gm i Hi) as [w Hw]. rewrite nth_lookup, Hw in H. cbn [from_option id] in H.
  pose proof (Forall_lookup_1 _ _ _ _ Hgm Hw) as Hok.
  destruct (f w) as [[b' w']|] eqn:E; [|by apply IH]. injection H as <- <-.
  destruct (Hf w b' w' Hok E) as (Hok' & Hc & HR).
  split; [|split; [by eapply free_blocks_insert|done]]. split; [by rewrite length_insert|]. by apply Forall_insert.
Qed.

Lemma probe_None ws f gm i w :
  probe ws f gm = None -> In i ws -> gm !! i = Some w -> f w = None.
Proof using.
  induction ws as [|j ws IH]; intros H Hin Hw; [done|]. cbn in H.
  destruct (f (nth j gm [])) as [[]|] eqn:E; [done|]. destruct Hin as [->|Hin]; [|by apply IH].
  by rewrite nth_lookup, Hw in E.
Qed.

Lemma worker_index_lt gm worker : (0 < length gm)%nat -> (worker_index gm worker < length gm)%nat.
Proof using.
  intros H. unfold worker_index. pose proof (Z.mod_pos_bound (u64 worker) (Z.of_nat (length gm))). lia.
Qed.

Lemma probe_order_lt gm worker :
  (0 < length gm)%nat -> Forall (fun i => (i < length gm)%nat) (probe_order gm worker).
Proof using.
  intros H. constructor; [by apply worker_index_lt|]. apply Forall_map, Forall_forall. intros i _. cbn.
  apply Nat.mod_upper_bound. lia.
Qed.

(** Every worker is probed. *)
Lemma probe_order_complete gm worker i : (i < length gm)%nat -> In i (probe_order gm worker).
Proof using.
  intros Hi. unfold probe_order. set (n := length gm) in *.
  pose proof (worker_index_lt gm worker ltac:(lia)) as Hlt. set (w := worker_index gm worker) in *.
  fold n in Hlt. destruct (decide (i = w)) as [->|Hne]; [by left|right].
  apply in_map_iff. exists (Nat.modulo (i + n - w) n). rewrite in_seq.
  destruct (decide (w < i)%nat) as [Hwi|Hwi].
  - replace (i + n - w)%nat with ((i - w) + 1 * n)%nat by lia. rewrite Nat.Div0.mod_add, (Nat.mod_small (i - w)) by lia.
    rewrite Nat.mod_small by lia. lia.
  - rewrite (Nat.mod_small (i + n - w)) by lia. replace (w + (i + n - w))%nat with (i + 1 * n)%nat by lia.
    rewrite Nat.Div0.mod_add, Nat.mod_small by lia. lia.
Qed.

Lemma Global_AllocateBlock_Some gm worker n b gm' :
  map_ok Q gm -> Global_AllocateBlock gm worker n = Some (b, gm') ->
  map_ok Q gm' /\ free_blocks gm ≡ₚ b :: free_blocks gm' /\
  n <= b_size b /\ Q (b_size b) /\ 0 <= b_type b < Z.of_nat kMaxCategories.
Proof using.
  intros Hgm.
  apply (probe_Some (fun b => n <= b_size b /\ Q (b_size b) /\ 0 <= b_type b < Z.of_nat kMaxCategories));
    [done|apply probe_order_lt, Hgm|]. intros w b' w' Hw. by apply Worker_AllocateBlock_Some.
Qed.

Lemma Global_AllocateAnyUpTo_Some gm worker n b gm' :
  map_ok Q gm -> Global_AllocateAnyUpTo gm worker n = Some (b, gm') ->
  map_ok Q gm' /\ free_blocks gm ≡ₚ b :: free_blocks gm' /\
  footprint4k (b_size b) <= n /\ 0 < b_size b /\ Q (b_size b) /\ 0 <= b_type b < Z.of_nat kMaxCategories.
Proof using.
  intros Hgm. unfold Global_AllocateAnyUpTo. destruct gm as [|w0 gm0] eqn:Eg; [done|]. rewrite <- Eg in *.
  apply (probe_Some (fun b => footprint4k (b_size b) <= n /\ 0 < b_size b /\ Q (b_size b) /\
    0 <= b_type b < Z.of_nat kMaxCategories)); [done|apply probe_order_lt, Hgm|].
  intros w b' w' Hw. apply any_up_to_Some; [done|].
  apply Forall_rev, Forall_forall. intros t Ht%list_elem_of_In. apply in_seq in Ht. lia.
Qed.

Lemma Global_AllocateAnyUpTo_None gm worker n :
  map_ok Q gm -> Global_AllocateAnyUpTo gm worker n = None ->
  Forall (fun b => ~ (0 < b_size b /\ footprint4k (b_size b) <= n)) (free_blocks gm).
Proof using.
  intros [Hlen Hgm] H. unfold Global_AllocateAnyUpTo in H. destruct gm as [|w0 gm0] eqn:Eg; [done|]. rewrite <- Eg in *.
  apply Forall_forall. intros b Hb. unfold free_blocks in Hb.
  rewrite list_elem_of_In, in_concat in Hb. destruct Hb as (l & Hl & Hb). apply in_map_iff in Hl as (w & <- & Hw).
  rewrite <- list_elem_of_In, list_elem_of_lookup in Hw. destruct Hw as [i Hi].
  apply in_concat in Hb as (l & Hl & Hb). rewrite <- list_elem_of_In, list_elem_of_lookup in Hl. destruct Hl as [t Ht].
  pose proof (probe_None _ _ _ i w H (probe_order_complete gm worker i (lookup_lt_Some _ _ _ Hi)) Hi) as Hn.
  pose proof (Forall_lookup_1 _ _ _ _ Hgm Hi) as [Hwl _].
  pose proof (any_up_to_None _ _ _ Hn t l) as Hf. rewrite Forall_forall in Hf. apply Hf; [|done|by apply list_elem_of_In].
  rewrite <- in_rev. apply in_seq. apply lookup_lt_Some in Ht. lia.
Qed.

Lemma Global_FreeBlock_spec gm worker b :
  map_ok Q gm -> 0 <= b_type b < Z.of_nat kMaxCategories -> Q (b_size b) ->
  map_ok Q (snd (Global_FreeBlock gm worker b)) /\
  free_blocks (snd (Global_FreeBlock gm worker b)) ≡ₚ b :: free_blocks gm.
Proof using.
  intros [Hlen Hgm] Ht Hq. unfold Global_FreeBlock. destruct gm as [|w0 gm0] eqn:Eg; [cbn in Hlen; lia|]. rewrite <- Eg in *.
  cbn [snd]. set (i := worker_index gm worker).
  destruct (lookup_lt_is_Some_2 gm i (worker_index_lt gm worker Hlen)) as [w Hw].
  destruct (Worker_FreeBlock_spec w b (Forall_lookup_1 _ _ _ _ Hgm Hw) Ht Hq) as [Hok Hc].
  assert (alter (fun w => Worker_FreeBlock w b) i gm = <[i := Worker_FreeBlock w b]> gm) as ->.
  { apply list_eq. intros j. destruct (decide (i = j)) as [<-|Hne].
    - rewrite list_lookup_alter_eq, Hw, list_lookup_insert_eq; [done|]. by eapply lookup_lt_Some.
    - by rewrite list_lookup_alter_ne, list_lookup_insert_ne. }
  split; [split; [by rewrite length_insert|by apply Forall_insert]|].
  rewrite (free_blocks_insert (<[i := Worker_FreeBlock w b]> gm) i (Worker_FreeBlock w b) w b).
  - by rewrite list_insert_insert_eq, list_insert_id.
  - apply list_lookup_insert_eq. by eapply lookup_lt_Some.
  - done.
Qed.
End FreeLists.

(** * The invariant: live and freed extents tile the heap's prefix *)

Section Pool.
Context (al : Z).

(** Bytes a block occupies on the device. *)
Definition footprint (b : Block) : Z := round_up al (b_size b).

Definition covers (x : Z) (b : Block) : bool := (b_offset b <=? x) && (x <? b_offset b + footprint b).

Definition cover_count (x : Z) (l : list Block) : nat := length (List.filter (covers x) l).

(** Every byte below [heap] belongs to exactly one block, no byte above to any. *)
Definition pool_ok (heap : Z) (l : list Block) : Prop :=
  (forall x, cover_count x l = if decide (0 <= x < heap) then 1%nat else 0%nat) /\ zsum footprint l = heap.

Lemma cover_count_Permutation x l l' : l ≡ₚ l' -> cover_count x l = cover_count x l'.
Proof using.
  unfold cover_count. induction 1; cbn; [done| | |congruence].
  - by destruct (covers x x0); cbn; rewrite IHPermutation.
  - by destruct (covers x x0), (covers x y).
Qed.

Lemma pool_perm heap l l' : l ≡ₚ l' -> pool_ok heap l -> pool_ok heap l'.
Proof using.
  intros Hp [Hc Hs]. split; [intros x; by rewrite <- (cover_count_Permutation x l l')|].
  by rewrite <- (zsum_Permutation footprint l l').
Qed.

Lemma covers_iff x b : covers x b = true <-> b_offset b <= x < b_offset b + footprint b.
Proof using. unfold covers. rewrite andb_true_iff, Z.leb_le, Z.ltb_lt. done. Qed.

(** Bumping the heap. *)
Lemma pool_bump heap l b :
  0 <= heap -> 0 <= footprint b -> b_offset b = heap -> pool_ok heap l -> pool_ok (heap + footprint b) (b :: l).
Proof using.
  intros H0 Hf Hb [Hc Hs]. split; [|rewrite zsum_cons; lia]. intros x. unfold cover_count in *. cbn.
  specialize (Hc x). destruct (covers x b) eqn:E; cbn; rewrite Hc.
  - apply covers_iff in E. rewrite !(decide_False (P := 0 <= x < heap)) by lia. by rewrite decide_True by lia.
  - assert (~ (heap <= x < heap + footprint b)) as Hn by (rewrite <- Hb; by rewrite <- covers_iff, E).
    destruct (decide (0 <= x < heap)), (decide (0 <= x < heap + footprint b)); try done; lia.
Qed.

(** A block may be relabelled as long as it keeps its extent. *)
Lemma pool_relabel heap b b' l :
  b_offset b' = b_offset b -> footprint b' = footprint b -> pool_ok heap (b :: l) -> pool_ok heap (b' :: l).
Proof using.
  intros Ho Hf [Hc Hs]. split; [|by rewrite zsum_cons, Hf]. intros x. rewrite <- Hc.
  unfold cover_count. cbn.
  assert (covers x b' = covers x b) as -> by (unfold covers; by rewrite Ho, Hf). by destruct (covers x b).
Qed.

Lemma pool_range heap l b :
  pool_ok heap l -> b ∈ l -> 0 < footprint b -> 0 <= b_offset b /\ b_offset b + footprint b <= heap.
Proof using.
  intros [Hc _] Hb Hf. assert (forall x, covers x b = true -> 0 <= x < heap) as Hin.
  { intros x Hx. specialize (Hc x). unfold cover_count in Hc.
    assert (In b (List.filter (covers x) l)) as Hi by (apply filter_In; by rewrite <- list_elem_of_In).
    destruct (List.filter (covers x) l); [done|]. case_decide; [done|]. cbn in Hc. lia. }
  pose proof (Hin (b_offset b)) as H1. pose proof (Hin (b_offset b + footprint b - 1)) as H2.
  rewrite covers_iff in H1, H2. lia.
Qed.

(** Distinct blocks of the pool do not share a byte. *)
Lemma pool_disjoint heap l i j b b' :
  pool_ok heap l -> l !! i = Some b -> l !! j = Some b' -> i <> j ->
  0 < footprint b -> 0 < footprint b' ->
  b_offset b + footprint b <= b_offset b' \/ b_offset b' + footprint b' <= b_offset b.
Proof using.
  intros [Hc _] Hi Hj Hne Hf Hf'.
  destruct (decide (b_offset b + footprint b <= b_offset b' \/ b_offset b' + footprint b' <= b_offset b)) as [|Hn]; [done|].
  exfalso. set (x := Z.max (b_offset b) (b_offset b')).
  assert (covers x b = true) as Hx by (apply covers_iff; lia).
  assert (covers x b' = true) as Hx' by (apply covers_iff; lia).
  assert (exists l', l ≡ₚ b :: b' :: l') as [l' Hp].
  { pose proof (delete_Permutation l i b Hi) as Hp1.
    assert (b' ∈ delete i l) as Hin.
    { apply list_elem_of_lookup. destruct (decide (j < i)%nat).
      - exists j. by rewrite list_lookup_delete_lt.
      - exists (j - 1)%nat. rewrite list_lookup_delete_ge by lia. by replace (S (j - 1)) with j by lia. }
    apply elem_of_Permutation in Hin as [l' Hl']. exists l'. by rewrite Hp1, Hl'. }
  specialize (Hc x). rewrite (cover_count_Permutation x _ _ Hp) in Hc. unfold cover_count in Hc. cbn in Hc.
  rewrite Hx, Hx' in Hc. cbn in Hc. case_decide; lia.
Qed.
End Pool.

(** Sizes on the free lists: positive multiples of the alignment. *)
Definition free_size_ok (al cap s : Z) : Prop := 0 < s <= cap /\ exists q, s = q * al.

Abbreviation sa_align a := (default_alignment (alignment_ a)) (only parsing).

(** The geometry of the allocator with the live blocks [live]. *)
Record sa_pool (a : StandardBlockAllocator) (live : list Block) : Prop := {
  sp_align : 0 <= alignment_ a < 2 ^ 32;
  sp_heap_align : h_alignment_ (sa_heap_ a) = alignment_ a;
  sp_cap : 0 < capacity_ a <= 2 ^ 62;
  sp_total : total_size_ (sa_heap_ a) = capacity_ a;
  sp_map : map_ok (free_size_ok (sa_align a) (capacity_ a)) (global_block_map_ a);
  sp_live : Forall (fun b => 0 < b_size b <= capacity_ a) live;
  sp_heap : 0 <= heap_ (sa_heap_ a) <= capacity_ a;
  sp_pool : pool_ok (sa_align a) (heap_ (sa_heap_ a)) (live ++ free_blocks (global_block_map_ a))
}.

Definition sa_inv (a : StandardBlockAllocator) (live : list Block) : Prop :=
  sa_pool a live /\ allocated_bytes_ a = zsum (footprint (sa_align a)) live.

(** Equal up to the order of the free lists. *)
Definition same_state (a a' : StandardBlockAllocator) : Prop :=
  alignment_ a' = alignment_ a /\ capacity_ a' = capacity_ a /\ sa_heap_ a' = sa_heap_ a /\
  allocated_bytes_ a' = allocated_bytes_ a /\
  free_blocks (global_block_map_ a') ≡ₚ free_blocks (global_block_map_ a).

Section AllocatorInv.
Implicit Types (a : StandardBlockAllocator) (live : list Block).

Lemma map_ok_free Q gm : map_ok Q gm -> Forall (fun b => Q (b_size b) /\ 0 <= b_type b < Z.of_nat kMaxCategories) (free_blocks gm).
Proof using.
  intros [_ Hgm]. apply Forall_concat, Forall_map. eapply Forall_impl; [exact Hgm|]. cbn. intros w [Hl Hw].
  apply Forall_concat, Forall_lookup. intros t l Ht. eapply Forall_impl; [by apply Hw|]. cbn. intros b [-> Hq].
  apply lookup_lt_Some in Ht. split; [done|lia].
Qed.

Lemma sa_align_range a live : sa_pool a live -> 0 < sa_align a < 2 ^ 32.
Proof using.
  intros Hp. pose proof (sp_align _ _ Hp). split; [by apply default_alignment_pos; lia|].
  unfold default_alignment. destruct (Z.eqb_spec (alignment_ a) 0); lia.
Qed.

(** The footprint of a request: aligned, at least the request, positive. *)
Lemma AlignSize_spec a live n :
  sa_pool a live -> 0 <= n <= 2 ^ 62 ->
  exists q, AlignSize a n = q * sa_align a /\ 0 <= n <= AlignSize a n /\ AlignSize a n < n + sa_align a /\
    (0 < n -> 0 < AlignSize a n) /\ AlignSize a (AlignSize a n) = AlignSize a n.
Proof using.
  intros Hp Hn. pose proof (sa_align_range _ _ Hp). unfold AlignSize.
  destruct (round_up_spec (sa_align a) n) as (q & E & Hle); [lia..|]. exists q. rewrite E.
  split_and!; try done; try lia. rewrite <- E. apply round_up_idem; lia.
Qed.

Lemma AlignSize_free a live s :
  sa_pool a live -> free_size_ok (sa_align a) (capacity_ a) s -> AlignSize a s = s.
Proof using.
  intros Hp [Hs [q ->]]. pose proof (sa_align_range _ _ Hp). pose proof (sp_cap _ _ Hp).
  unfold AlignSize. apply round_up_multiple; [lia|nia|lia].
Qed.

Lemma footprint4k_ge s : 0 <= s <= 2 ^ 62 -> s <= footprint4k s.
Proof using.
  intros Hs. assert (footprint4k s = round_up 4096 s) as ->
    by (unfold footprint4k, round_up; by replace (s + 4096 - 1) with (s + 4095) by lia).
  destruct (round_up_spec 4096 s) as (q & -> & Hle); lia.
Qed.

(** The sum of the footprints never exceeds the heap. *)
Lemma live_bound a live l :
  sa_pool a live -> live ++ free_blocks (global_block_map_ a) ≡ₚ l ->
  Forall (fun b => 0 < footprint (sa_align a) b) l /\
  forall l1 l2, l = l1 ++ l2 -> 0 <= zsum (footprint (sa_align a)) l1 <= heap_ (sa_heap_ a).
Proof using.
  intros Hp Hl. pose proof (sp_pool _ _ Hp) as [_ Hs]. pose proof (sp_cap _ _ Hp).
  assert (Forall (fun b => 0 < footprint (sa_align a) b) l) as Hf.
  { rewrite <- Hl. apply Forall_app. split.
    - eapply Forall_impl; [apply (sp_live _ _ Hp)|]. cbn. intros b Hb.
      destruct (AlignSize_spec a live (b_size b)) as (q & _ & _ & _ & Hpos & _); [done|lia|]. apply Hpos. lia.
    - eapply Forall_impl; [apply (map_ok_free _ _ (sp_map _ _ Hp))|]. cbn. intros b [Hb _].
      change (footprint (sa_align a) b) with (AlignSize a (b_size b)).
      rewrite (AlignSize_free a live) by done. apply Hb. }
  split; [done|]. intros l1 l2 ->. rewrite (zsum_Permutation _ _ _ Hl), zsum_app in Hs.
  apply Forall_app in Hf as [Hf1 Hf2].
  assert (forall l, Forall (fun b => 0 < footprint (sa_align a) b) l -> 0 <= zsum (footprint (sa_align a)) l) as Hz
    by (intros l Hf; apply zsum_nonneg; eapply Forall_impl; [exact Hf|]; cbn; lia).
  pose proof (Hz l1 Hf1). pose proof (Hz l2 Hf2). lia.
Qed.

Lemma inv_allocated_bound a live : sa_inv a live -> 0 <= allocated_bytes_ a <= heap_ (sa_heap_ a).
Proof using.
  intros [Hp ->]. destruct (live_bound a live _ Hp (reflexivity _)) as [_ H]. by eapply H.
Qed.

(** ** Taking a freed extent *)

Lemma take_free a live gm b b' n :
  sa_pool a live ->
  map_ok (free_size_ok (sa_align a) (capacity_ a)) gm ->
  free_blocks (global_block_map_ a) ≡ₚ b :: free_blocks gm ->
  b_offset b' = b_offset b -> b_size b' = b_size b -> 0 < b_size b <= capacity_ a ->
  sa_pool (set_allocated (set_map a gm) n) (b' :: live).
Proof using.
  intros Hp Hgm Hf Ho Hs Hb. destruct Hp. split; cbn; try done.
  - constructor; [by rewrite Hs|done].
  - apply (pool_relabel _ _ b); [done|unfold footprint; by rewrite Hs|].
    eapply pool_perm; [|exact sp_pool0]. rewrite Hf. by rewrite <- Permutation_middle.
Qed.

(** Returning an extent to the free lists. *)
Lemma give_free a live worker b b' :
  sa_pool a (b :: live) ->
  b_offset b' = b_offset b -> footprint (sa_align a) b' = footprint (sa_align a) b ->
  free_size_ok (sa_align a) (capacity_ a) (b_size b') -> 0 <= b_type b' < Z.of_nat kMaxCategories ->
  sa_pool (set_map a (snd (Global_FreeBlock (global_block_map_ a) worker b'))) live /\
  free_blocks (snd (Global_FreeBlock (global_block_map_ a) worker b')) ≡ₚ b' :: free_blocks (global_block_map_ a).
Proof using.
  intros Hp Ho Hf Hs Ht. pose proof (sp_live _ _ Hp) as Hl. apply Forall_cons in Hl as [_ Hl].
  destruct (Global_FreeBlock_spec _ (global_block_map_ a) worker b' (sp_map _ _ Hp) Ht Hs) as [Hok Hfree].
  split; [|done]. pose proof (sp_pool _ _ Hp) as Hpool. cbn [app] in Hpool. destruct Hp. split; cbn; try done.
  apply (pool_relabel _ _ b b') in Hpool; [|done|done]. eapply pool_perm; [|exact Hpool].
  rewrite Hfree. apply Permutation_middle.
Qed.
End AllocatorInv.

(** * Requests and releases keep the invariant *)

Section Operations.
Implicit Types (a : StandardBlockAllocator) (live : list Block).

Lemma sa_pool_perm a live live' : live ≡ₚ live' -> sa_pool a live -> sa_pool a live'.
Proof using.
  intros Hp []. split; try done; [by rewrite <- Hp|]. eapply pool_perm; [|done]. by rewrite Hp.
Qed.

Lemma sa_inv_perm a live live' : live ≡ₚ live' -> sa_inv a live -> sa_inv a live'.
Proof using.
  intros Hp [Hpool Ha]. split; [by eapply sa_pool_perm|]. by rewrite <- (zsum_Permutation _ _ _ Hp).
Qed.

Lemma sa_pool_ext a a' live :
  alignment_ a' = alignment_ a -> capacity_ a' = capacity_ a -> sa_heap_ a' = sa_heap_ a ->
  global_block_map_ a' = global_block_map_ a -> sa_pool a live -> sa_pool a' live.
Proof using. intros E1 E2 E3 E4 []. split; by rewrite ?E1, ?E2, ?E3, ?E4. Qed.

(** A freed extent handed out whole. *)
Lemma take_free_inv a live gm b b' :
  sa_inv a live -> map_ok (free_size_ok (sa_align a) (capacity_ a)) gm ->
  free_blocks (global_block_map_ a) ≡ₚ b :: free_blocks gm ->
  b_offset b' = b_offset b -> b_size b' = b_size b -> free_size_ok (sa_align a) (capacity_ a) (b_size b) ->
  sa_inv (set_allocated (set_map a gm) (allocated_bytes_ a + b_size b)) (b' :: live) /\
  u64 (allocated_bytes_ a + b_size b) = allocated_bytes_ a + b_size b.
Proof using.
  intros [Hp Ha] Hgm Hf Ho Hs Hb.
  assert (footprint (sa_align a) b' = b_size b) as Hfp.
  { unfold footprint. change (round_up (sa_align a) (b_size b')) with (AlignSize a (b_size b')).
    rewrite Hs. by apply (AlignSize_free a live). }
  pose proof (take_free a live gm b b' (allocated_bytes_ a + b_size b) Hp Hgm Hf Ho Hs (proj1 Hb)) as Hp'.
  destruct (live_bound _ _ _ Hp' (reflexivity _)) as [_ Hz]. specialize (Hz (b' :: live) _ eq_refl).
  cbn [set_allocated set_map sa_heap_ alignment_] in Hz. rewrite zsum_cons, Hfp in Hz.
  pose proof (sp_heap _ _ Hp). pose proof (sp_cap _ _ Hp). rewrite Ha.
  assert (u64 (zsum (footprint (sa_align a)) live + b_size b) = zsum (footprint (sa_align a)) live + b_size b) as E
    by (apply u64_small; lia).
  split; [|done]. split; [by rewrite Ha in Hp'|]. cbn [set_allocated set_map allocated_bytes_ alignment_].
  rewrite zsum_cons, Hfp, E. lia.
Qed.

Definition reusable (al cap : Z) (b : Block) : Prop :=
  free_size_ok al cap (b_size b) /\ 0 <= b_type b < Z.of_nat kMaxCategories.

Lemma assemble_spec fuel a live worker rem acc :
  sa_inv a (acc ++ live) -> (length (free_blocks (global_block_map_ a)) < fuel)%nat -> 0 <= rem <= 2 ^ 63 ->
  exists new a', assemble fuel a worker rem acc = Some (rem - zsum b_size new, acc ++ new, a') /\
    sa_inv a' ((acc ++ new) ++ live) /\ sa_heap_ a' = sa_heap_ a /\ alignment_ a' = alignment_ a /\
    capacity_ a' = capacity_ a /\
    free_blocks (global_block_map_ a) ≡ₚ new ++ free_blocks (global_block_map_ a') /\
    0 <= rem - zsum b_size new /\ Forall (reusable (sa_align a) (capacity_ a)) new /\
    (rem - zsum b_size new = 0 \/
     Forall (fun b => ~ footprint4k (b_size b) <= rem - zsum b_size new) (free_blocks (global_block_map_ a'))).
Proof using.
  revert a rem acc. induction fuel as [|fuel IH]; intros a rem acc Hinv Hfuel Hrem; [lia|]. cbn [assemble].
  destruct (Z.leb_spec rem 0) as [H0|H0].
  { exists [], a. cbn [zsum foldr]. rewrite app_nil_r, Z.sub_0_r. split_and!; try done; lia. }
  pose proof (proj1 Hinv) as Hp. pose proof (sp_cap _ _ Hp).
  destruct (Global_AllocateAnyUpTo (global_block_map_ a) worker rem) as [[fb gm]|] eqn:E.
  2: { exists [], a. cbn [zsum foldr]. rewrite app_nil_r, Z.sub_0_r.
       split_and!; try done; [lia|right].
       pose proof (Global_AllocateAnyUpTo_None _ _ _ _ (sp_map _ _ Hp) E) as Hn.
       pose proof (map_ok_free _ _ (sp_map _ _ Hp)) as Hs. rewrite Forall_forall in Hn, Hs |- *.
       intros b Hb Hle. apply (Hn b Hb). destruct (Hs b Hb) as [[Hpos _] _]. split; [lia|done]. }
  destruct (Global_AllocateAnyUpTo_Some _ _ _ _ _ _ (sp_map _ _ Hp) E) as (Hgm & Hf & Hle & Hpos & Hs & Ht).
  rewrite (AlignSize_free a (acc ++ live)) by done.
  pose proof (footprint4k_ge (b_size fb)) as Hge. specialize (Hge ltac:(destruct Hs; lia)).
  rewrite (proj2 (Z.ltb_ge rem (b_size fb))) by lia. rewrite u64_small by lia.
  set (b' := mkBlock (b_offset fb) (b_size fb) (b_type fb)).
  destruct (take_free_inv a (acc ++ live) gm fb b' Hinv Hgm Hf eq_refl eq_refl Hs) as [Hinv' _].
  destruct (IH (set_allocated (set_map a gm) (allocated_bytes_ a + b_size fb)) (rem - b_size fb) (acc ++ [b']))
    as (new & a' & Ha & Hi & Hh & Hal & Hc & Hfr & H1 & H2 & H3).
  - eapply sa_inv_perm; [|exact Hinv']. rewrite <- app_assoc. apply Permutation_middle.
  - cbn [set_allocated set_map global_block_map_]. apply Permutation_length in Hf. cbn [length] in Hf. lia.
  - lia.
  - exists (b' :: new), a'. rewrite zsum_cons. replace (rem - (b_size b' + zsum b_size new))
      with (rem - b_size fb - zsum b_size new) by (cbn; lia).
    assert ((acc ++ [b']) ++ new = acc ++ b' :: new) as Eacc by (by rewrite <- app_assoc).
    rewrite Eacc in Ha, Hi.
    cbn [set_allocated set_map sa_heap_ alignment_ capacity_ global_block_map_] in *.
    split; [done|]. split; [done|]. split_and!; try done; [|by constructor].
    assert (b' = fb) as -> by (subst b'; by destruct fb). cbn [app]. by rewrite <- Hfr.
Qed.

(** Rolling back restores the pool of freed extents. *)
Lemma roll_back_spec a live worker bs :
  sa_inv a (bs ++ live) -> Forall (reusable (sa_align a) (capacity_ a)) bs ->
  let a' := roll_back a worker bs in
  sa_inv a' live /\ sa_heap_ a' = sa_heap_ a /\ alignment_ a' = alignment_ a /\ capacity_ a' = capacity_ a /\
  free_blocks (global_block_map_ a') ≡ₚ bs ++ free_blocks (global_block_map_ a).
Proof using.
  cbn zeta. unfold roll_back. revert a. induction bs as [|b bs IH]; intros a Hinv Hf; cbn [fold_left]; [done|].
  apply Forall_cons in Hf as [[Hs Ht] Hf]. destruct Hinv as [Hp Ha]. cbn [app] in Hp, Ha.
  destruct (give_free a (bs ++ live) worker b b Hp eq_refl eq_refl Hs Ht) as [Hp' Hfr].
  set (gm := snd (Global_FreeBlock (global_block_map_ a) worker b)) in *.
  assert (AlignSize a (b_size b) = b_size b) as Hal by (by eapply AlignSize_free).
  rewrite zsum_cons in Ha. unfold footprint at 1 in Ha.
  change (round_up (sa_align a) (b_size b)) with (AlignSize a (b_size b)) in Ha. rewrite Hal in *.
  pose proof (inv_allocated_bound a (b :: bs ++ live)) as Hb.
  destruct (live_bound a _ _ Hp (reflexivity _)) as [_ Hz]. specialize (Hz (b :: bs ++ live) _ eq_refl).
  destruct (live_bound _ _ _ Hp' (reflexivity _)) as [_ Hz']. specialize (Hz' (bs ++ live) _ eq_refl).
  cbn [set_map sa_heap_ alignment_] in Hz'. pose proof (sp_heap _ _ Hp). pose proof (sp_cap _ _ Hp).
  destruct (IH (set_allocated (set_map a gm) (allocated_bytes_ a - b_size b))) as (Hi & Hh & He & Hc & Hfr').
  - split; [by eapply sa_pool_ext; [..|exact Hp']|]. cbn. rewrite u64_small by lia. lia.
  - exact Hf.
  - cbn [set_allocated set_map sa_heap_ alignment_ capacity_ global_block_map_] in *.
    split_and!; try done; [apply Hi..|]. rewrite Hfr', Hfr. by rewrite <- Permutation_middle.
Qed.

Lemma Heap_Allocate_spec a live n t :
  sa_pool a live -> 0 < n <= 2 ^ 62 + 2 ^ 32 -> AlignSize a n = n ->
  Heap_Allocate (sa_heap_ a) n t =
  if decide (heap_ (sa_heap_ a) + n <= capacity_ a) then
    (Some (mkBlock (heap_ (sa_heap_ a)) n t),
     mkHeap (heap_ (sa_heap_ a) + n) (capacity_ a) (alignment_ a))
  else (None, sa_heap_ a).
Proof using.
  intros Hp Hn Hal. pose proof (sp_heap _ _ Hp). pose proof (sp_cap _ _ Hp). pose proof (sp_total _ _ Hp) as Ht.
  pose proof (sp_heap_align _ _ Hp) as Hha. unfold Heap_Allocate. rewrite Hha.
  change (round_up (sa_align a) n) with (AlignSize a n). rewrite Hal. unfold heap_fetch_add, heap_overflows.
  cbn [total_size_]. rewrite Ht, (proj2 (Z.ltb_lt 0 _)) by lia. rewrite !u64_small by lia. cbn [andb].
  case_decide as Hd.
  - rewrite (proj2 (Z.ltb_ge _ _)) by lia. by rewrite Hha.
  - rewrite (proj2 (Z.ltb_lt _ _)) by lia. unfold heap_fetch_sub. cbn. rewrite u64_small by lia.
    f_equal. destruct (sa_heap_ a). cbn in *. f_equal; lia.
Qed.
End Operations.

Section Requests.
Implicit Types (a : StandardBlockAllocator) (live : list Block).

(** What a request promises. *)
Definition alloc_post a live size (r : bool * list Block * StandardBlockAllocator) : Prop :=
  let '(ok, bs, a') := r in
  if ok then
    sa_inv a' (bs ++ live) /\ alignment_ a' = alignment_ a /\ capacity_ a' = capacity_ a /\ size <= zsum b_size bs
  else
    bs = [] /\ sa_inv a' live /\ same_state a a' /\ capacity_ a < heap_ (sa_heap_ a) + AlignSize a size.

Lemma set_heap_pool_same a live : sa_pool a live -> sa_pool (set_heap a (sa_heap_ a)) live.
Proof using. apply sa_pool_ext; done. Qed.

(** Step 1: a freed extent that fits. *)
Lemma reuse_post a live size worker b gm :
  sa_inv a live -> Global_AllocateBlock (global_block_map_ a) worker size = Some (b, gm) ->
  alloc_post a live size (true, [b], set_allocated (set_map a gm) (allocated_bytes_ a + b_size b)).
Proof using.
  intros Hinv E. pose proof (proj1 Hinv) as Hp.
  destruct (Global_AllocateBlock_Some _ _ _ _ _ _ (sp_map _ _ Hp) E) as (Hgm & Hf & Hle & Hs & Ht).
  destruct (take_free_inv a live gm b b Hinv Hgm Hf eq_refl eq_refl Hs) as [Hinv' _].
  split; [exact Hinv'|]. split_and!; [done|done|]. cbn. lia.
Qed.

(** Step 2: the heap. *)
Lemma bump_post a live size t :
  sa_inv a live -> 0 < size <= 2 ^ 62 -> heap_ (sa_heap_ a) + AlignSize a size <= capacity_ a ->
  let aligned := AlignSize a size in
  alloc_post a live size
    (true, [mkBlock (heap_ (sa_heap_ a)) size t],
     set_allocated (set_heap a (mkHeap (heap_ (sa_heap_ a) + aligned) (capacity_ a) (alignment_ a)))
                   (allocated_bytes_ a + aligned)).
Proof using.
  intros Hinv Hsz Hcap. cbn zeta. pose proof Hinv as [Hp Ha]. pose proof (sp_cap _ _ Hp). pose proof (sp_heap _ _ Hp).
  destruct (AlignSize_spec a live size Hp ltac:(lia)) as (q & _ & Hge & _ & Hpos & _). specialize (Hpos ltac:(lia)).
  pose proof (inv_allocated_bound a live Hinv) as Hab.
  split; [split|split_and!; [done|done|cbn; lia]].
  - destruct Hp. split; cbn; try done; [constructor; [cbn; lia|done]|lia|].
    apply (pool_bump _ _ (live ++ free_blocks (global_block_map_ a)) (mkBlock (heap_ (sa_heap_ a)) size t)); try done;
      [lia|].
    change (footprint (sa_align a) (mkBlock (heap_ (sa_heap_ a)) size t)) with (AlignSize a size). lia.
  - cbn [set_allocated set_heap allocated_bytes_ alignment_]. rewrite u64_small by lia.
    cbn [app]. rewrite zsum_cons, <- Ha.
    change (footprint (sa_align a) (mkBlock (heap_ (sa_heap_ a)) size t)) with (AlignSize a size). lia.
Qed.

Lemma AllocateBlocks_spec a live size worker :
  sa_inv a live -> 0 <= size <= 2 ^ 62 ->
  exists r, AllocateBlocks a size worker [] = Some r /\ alloc_post a live size r.
Proof using.
  intros Hinv Hsz. pose proof (proj1 Hinv) as Hp. unfold AllocateBlocks.
  destruct (Z.eqb_spec size 0) as [->|Hn0].
  { eexists. split; [done|]. split; [done|]. split_and!; [done|done|]. cbn. lia. }
  destruct (Global_AllocateBlock _ _ _) as [[b gm]|] eqn:E1.
  { eexists. split; [done|]. by eapply reuse_post. }
  destruct (AlignSize_spec a live size Hp ltac:(lia)) as (q & Hq & Hge & Hlt & Hpos & Hidem).
  pose proof (sa_align_range a live Hp).
  rewrite (Heap_Allocate_spec a live) by (done || lia). case_decide as Hc.
  { cbn [b_offset b_type]. eexists. split; [done|]. apply bump_post; [done|lia|done]. }
  assert (sa_inv (set_heap a (sa_heap_ a)) ([] ++ live)) as Hinv'
    by (split; [by apply set_heap_pool_same, Hinv|apply Hinv]).
  destruct (assemble_spec (S (length (free_blocks (global_block_map_ a)))) (set_heap a (sa_heap_ a)) live worker
    (AlignSize a size) [] Hinv') as (new & a' & Ha & Hi & Hh & Hal & Hcap & Hfr & Hr & Hre & _).
  { cbn [set_heap global_block_map_]. lia. } { lia. }
  cbv beta iota zeta. change (global_block_map_ (set_heap a (sa_heap_ a))) with (global_block_map_ a).
  rewrite Ha. cbn [app] in *.
  destruct (Z.eqb_spec (AlignSize a size - zsum b_size new) 0) as [Hz|Hz]; eexists; (split; [done|]).
  { split; [done|]. split_and!; [done|done|lia]. }
  cbn [set_heap alignment_ capacity_ sa_heap_ global_block_map_] in *.
  destruct (roll_back_spec a' live worker new Hi) as (Hri & Hrh & Hral & Hrc & Hrf).
  { by rewrite Hal, Hcap. }
  split; [done|]. split; [done|]. split; [|lia]. split_and!; [congruence|congruence|congruence| |].
  - destruct Hri as [_ ->], Hinv as [_ ->]. by rewrite Hral, Hal.
  - by rewrite Hrf, Hfr.
Qed.

(** ** Releasing *)

Lemma free_one_spec a live worker freed b rest :
  sa_pool a (b :: rest ++ live) -> 0 <= freed -> freed + footprint (sa_align a) b < 2 ^ 64 ->
  exists a', free_one worker (freed, a) b = (freed + footprint (sa_align a) b, a') /\
    sa_pool a' (rest ++ live) /\ alignment_ a' = alignment_ a /\ capacity_ a' = capacity_ a /\
    allocated_bytes_ a' = allocated_bytes_ a /\ sa_heap_ a' = sa_heap_ a.
Proof using.
  intros Hp H0 Hb. unfold free_one. change (footprint (sa_align a) b) with (AlignSize a (b_size b)) in *.
  pose proof (sp_live _ _ Hp) as Hl. apply Forall_cons in Hl as [Hl _]. pose proof (sp_cap _ _ Hp).
  destruct (AlignSize_spec a (b :: rest ++ live) (b_size b) Hp ltac:(lia)) as (q & Hq & Hge & Hlt & Hpos & Hidem).
  destruct (live_bound _ _ _ Hp (reflexivity _)) as [_ Hz]. specialize (Hz [b] _ eq_refl).
  cbn [zsum foldr] in Hz. change (footprint (sa_align a) b) with (AlignSize a (b_size b)) in Hz.
  pose proof (sp_heap _ _ Hp). pose proof (clamp_type_range (AlignSize a (b_size b))) as Ht.
  destruct (give_free a (rest ++ live) worker b (mkBlock (b_offset b) (AlignSize a (b_size b))
    (clamp_type (FindBlockType (AlignSize a (b_size b))))) Hp eq_refl) as [Hp' _].
  - unfold footprint. cbn [b_size]. exact Hidem.
  - cbn [b_size]. split; [lia|by exists q].
  - exact Ht.
  - eexists. rewrite u64_small by lia. split; [done|]. by split_and!.
Qed.

Lemma free_all_spec a live worker freed bs :
  sa_pool a (bs ++ live) -> 0 <= freed -> freed + zsum (footprint (sa_align a)) bs < 2 ^ 64 ->
  exists a', fold_left (free_one worker) bs (freed, a) = (freed + zsum (footprint (sa_align a)) bs, a') /\
    sa_pool a' live /\ alignment_ a' = alignment_ a /\ capacity_ a' = capacity_ a /\
    allocated_bytes_ a' = allocated_bytes_ a /\ sa_heap_ a' = sa_heap_ a.
Proof using.
  revert a freed. induction bs as [|b bs IH]; intros a freed Hp H0 Hb; cbn [fold_left].
  { exists a. cbn. by rewrite Z.add_0_r. }
  rewrite zsum_cons in *. destruct (live_bound a _ _ Hp (reflexivity _)) as [Hpos Hz].
  pose proof (Hz [b] (bs ++ live ++ free_blocks (global_block_map_ a))) as Hb0. cbn in Hb0. rewrite <- app_assoc in Hb0.
  specialize (Hb0 eq_refl). cbn in Hpos. apply Forall_cons in Hpos as [_ Hpos]. rewrite <- app_assoc in Hpos.
  apply Forall_app in Hpos as [Hpos _].
  assert (0 <= zsum (footprint (sa_align a)) bs) as Hbs
    by (apply zsum_nonneg; eapply Forall_impl; [exact Hpos|]; cbn; lia).
  destruct (free_one_spec a live worker freed b bs Hp H0) as (a1 & -> & Hp1 & Hal & Hc & Ha & Hh); [lia|].
  destruct (IH a1 (freed + footprint (sa_align a) b) Hp1) as (a2 & Hf & Hp2 & Hal2 & Hc2 & Ha2 & Hh2);
    [lia|rewrite Hal; lia|].
  exists a2. rewrite Hf, Hal. split; [f_equal; lia|]. split; [done|]. split_and!; congruence.
Qed.

Lemma FreeBlocks_spec a live worker bs :
  sa_inv a (bs ++ live) ->
  sa_inv (FreeBlocks a worker bs) live /\ capacity_ (FreeBlocks a worker bs) = capacity_ a /\
  alignment_ (FreeBlocks a worker bs) = alignment_ a.
Proof using.
  intros Hinv. pose proof Hinv as [Hp Ha]. pose proof (inv_allocated_bound _ _ Hinv) as Hab.
  pose proof (sp_heap _ _ Hp). pose proof (sp_cap _ _ Hp).
  destruct (live_bound a _ _ Hp (reflexivity _)) as [Hpos Hz].
  pose proof (Hz bs (live ++ free_blocks (global_block_map_ a))) as Hbs. rewrite <- app_assoc in Hbs.
  specialize (Hbs eq_refl).
  assert (0 <= zsum (footprint (sa_align a)) live) as Hl.
  { apply Forall_app in Hpos as [Hpos _]. apply Forall_app in Hpos as [_ Hpos].
    apply zsum_nonneg. eapply Forall_impl; [exact Hpos|]. cbn. lia. }
  destruct (free_all_spec a live worker 0 bs Hp) as (a' & Hf & Hp' & Hal & Hc & Ha' & Hh); [lia|lia|].
  unfold FreeBlocks. rewrite Hf. rewrite zsum_app in Ha. split; [|by split].
  split; [by eapply sa_pool_ext; [..|exact Hp']|]. cbn [set_allocated allocated_bytes_ alignment_].
  rewrite Ha', Z.min_r, u64_small by lia. rewrite Hal. lia.
Qed.

Lemma Allocator_Init_inv workers cap al :
  (0 < workers)%nat -> 0 < cap <= 2 ^ 62 -> 0 <= al < 2 ^ 32 -> sa_inv (Allocator_Init workers cap al) [].
Proof using.
  intros Hw Hcap Hal.
  assert (free_blocks (GlobalBlockMap_Init workers) = []) as Hf.
  { unfold free_blocks, GlobalBlockMap_Init. clear Hw. induction workers; [done|]. cbn. done. }
  split; [|done]. split; cbn [Allocator_Init alignment_ capacity_ sa_heap_ global_block_map_ Heap_Init heap_ total_size_ h_alignment_];
    try done; try lia.
  - split; [unfold GlobalBlockMap_Init; by rewrite length_replicate|]. apply Forall_replicate. split; [done|].
    intros t l Ht. apply lookup_replicate in Ht as [-> _]. constructor.
  - rewrite Hf. split; [|done]. intros x. by rewrite decide_False by lia.
Qed.
End Requests.

(** * The allocator as a state machine

    A state is the allocator with the blocks its callers hold. *)

Inductive sa_step : StandardBlockAllocator * list Block -> StandardBlockAllocator * list Block -> Prop :=
| sa_alloc a live size worker ok bs a' :
    0 <= size <= 2 ^ 62 -> AllocateBlocks a size worker [] = Some (ok, bs, a') ->
    sa_step (a, live) (a', bs ++ live)
| sa_free a live worker bs rest :
    live ≡ₚ bs ++ rest -> sa_step (a, live) (FreeBlocks a worker bs, rest).

Lemma sa_free_eq a live worker bs rest a' :
  live ≡ₚ bs ++ rest -> FreeBlocks a worker bs = a' -> sa_step (a, live) (a', rest).
Proof. intros Hp <-. by apply sa_free. Qed.

Lemma sa_step_inv s s' : sa_step s s' -> sa_inv (fst s) (snd s) -> sa_inv (fst s') (snd s').
Proof.
  destruct 1 as [a live size worker ok bs a' Hsz Ha|a live worker bs rest Hp]; cbn [fst snd]; intros Hinv.
  - destruct (AllocateBlocks_spec a live size worker Hinv Hsz) as (r & Hr & Hpost). rewrite Ha in Hr.
    injection Hr as <-. destruct ok; [by destruct Hpost|]. by destruct Hpost as (-> & ? & _).
  - apply FreeBlocks_spec. by eapply sa_inv_perm.
Qed.

Lemma sa_reachable_inv s s' : rtc sa_step s s' -> sa_inv (fst s) (snd s) -> sa_inv (fst s') (snd s').
Proof. induction 1; [done|]. intros. eauto using sa_step_inv. Qed.

(** * The heap under concurrency

    [Heap::Allocate] takes no lock: its [fetch_add] and, on overflow, its
    [fetch_sub] are separate atomic steps that other workers' steps may fall
    between. *)

Inductive heap_pc := HIdle | HUndo (n : Z).

Record heap_race := mkHeapRace { hr_heap : Heap; hr_pcs : list heap_pc; hr_granted : list Block }.

Inductive heap_race_step : heap_race -> heap_race -> Prop :=
| hr_grant h pcs bs t size type n old h' :
    pcs !! t = Some HIdle -> n = round_up (default_alignment (h_alignment_ h)) size ->
    heap_fetch_add h n = (old, h') -> heap_overflows h' old n = false ->
    heap_race_step (mkHeapRace h pcs bs) (mkHeapRace h' pcs (bs ++ [mkBlock old size type]))
| hr_overflow h pcs bs t size n old h' :
    pcs !! t = Some HIdle -> n = round_up (default_alignment (h_alignment_ h)) size ->
    heap_fetch_add h n = (old, h') -> heap_overflows h' old n = true ->
    heap_race_step (mkHeapRace h pcs bs) (mkHeapRace h' (<[t := HUndo n]> pcs) bs)
| hr_undo h pcs bs t n :
    pcs !! t = Some (HUndo n) ->
    heap_race_step (mkHeapRace h pcs bs) (mkHeapRace (heap_fetch_sub h n) (<[t := HIdle]> pcs) bs).

(** * Properties *)

(** C15. Blocks never overlap: after any sequence of requests and releases of
    held blocks, the footprints of the blocks in callers' hands and on the free
    lists are pairwise disjoint, lie within the capacity, and add up to exactly
    the heap's high-water mark, so no byte is lost either. *)
Theorem allocator_blocks_disjoint (workers : nat) (cap al : Z) (a : StandardBlockAllocator) (live : list Block) :
  (0 < workers)%nat -> 0 < cap <= 2 ^ 62 -> 0 <= al < 2 ^ 32 ->
  rtc sa_step (Allocator_Init workers cap al, []) (a, live) ->
  let all := live ++ free_blocks (global_block_map_ a) in
  let fp := footprint (default_alignment (alignment_ a)) in
  (forall i j b b', all !! i = Some b -> all !! j = Some b' -> i <> j ->
     b_offset b + fp b <= b_offset b' \/ b_offset b' + fp b' <= b_offset b) /\
  (forall b, b ∈ all -> b_size b <= fp b /\ 0 <= b_offset b /\ b_offset b + fp b <= capacity_ a) /\
  zsum fp all = heap_ (sa_heap_ a) /\ heap_ (sa_heap_ a) <= capacity_ a.
Proof.
  intros Hw Hcap Hal Hr. cbn zeta.
  pose proof (sa_reachable_inv _ _ Hr (Allocator_Init_inv workers cap al Hw Hcap Hal)) as [Hp _]. cbn [fst snd] in Hp.
  destruct (live_bound _ _ _ Hp (reflexivity _)) as [Hpos _]. rewrite Forall_forall in Hpos.
  pose proof (sp_pool _ _ Hp) as Hpool. pose proof (sp_heap _ _ Hp). pose proof (sp_cap _ _ Hp).
  split_and!; [| |apply Hpool|lia].
  - intros i j b b' Hi Hj Hne.
    eapply pool_disjoint; [exact Hpool|done..| |]; apply Hpos; by eapply list_elem_of_lookup_2.
  - intros b Hb. pose proof (pool_range _ _ _ b Hpool Hb (Hpos b Hb)).
    assert (0 < b_size b <= capacity_ a) as Hs.
    { apply elem_of_app in Hb as [Hb|Hb].
      - pose proof (sp_live _ _ Hp) as Hl. rewrite Forall_forall in Hl. by apply Hl.
      - pose proof (map_ok_free _ _ (sp_map _ _ Hp)) as Hl. rewrite Forall_forall in Hl. by apply Hl. }
    destruct (AlignSize_spec a live (b_size b) Hp ltac:(lia)) as (q & _ & Hge & _).
    change (footprint (sa_align a) b) with (AlignSize a (b_size b)) in *. split_and!; lia.
Qed.

Definition sa_example_run : option (StandardBlockAllocator * list Block) :=
  let a := Allocator_Init 2 20480 4096 in
  match AllocateBlocks a 5000 0 [] with
  | Some (true, bs, a) =>
      match AllocateBlocks a 100 1 [] with
      | Some (true, bs', a) => Some (FreeBlocks a 1 bs, bs')
      | _ => None
      end
  | _ => None
  end.
Definition sa_example : StandardBlockAllocator * list Block :=
  Eval vm_compute in match sa_example_run with Some s => s | None => (Allocator_Init 0 0 0, []) end.

Lemma sa_example_reachable : rtc sa_step (Allocator_Init 2 20480 4096, []) sa_example.
Proof.
  eapply rtc_l; [eapply (sa_alloc _ _ 5000 0 true); [lia|vm_compute; reflexivity]|].
  eapply rtc_l; [eapply (sa_alloc _ _ 100 1 true); [lia|vm_compute; reflexivity]|].
  apply rtc_once. apply (sa_free_eq _ _ 1 [mkBlock 0 5000 4]); [apply Permutation_swap|vm_compute; reflexivity].
Qed.

Lemma allocator_blocks_disjoint_witness :
  snd sa_example ++ free_blocks (global_block_map_ (fst sa_example)) = [mkBlock 8192 100 3; mkBlock 0 8192 4] /\
  zsum (footprint 4096) [mkBlock 8192 100 3; mkBlock 0 8192 4] = heap_ (sa_heap_ (fst sa_example)).
Proof.
  split; [vm_compute; reflexivity|].
  refine (proj1 (proj2 (proj2 (allocator_blocks_disjoint 2 20480 4096 (fst sa_example) (snd sa_example) _ _ _ _)))).
  - lia.
  - lia.
  - lia.
  - exact sa_example_reachable.
Defined.

(** All or nothing: in every reachable state a request terminates. If it
    succeeds, the blocks it returns hold at least [size] bytes and are added to
    the callers' blocks; if it fails, it returns no block, the heap has no room
    for it, and the allocator is as before up to the order of the free lists. *)
Theorem AllocateBlocks_all_or_nothing (workers : nat) (cap al size worker : Z)
    (a : StandardBlockAllocator) (live : list Block) :
  (0 < workers)%nat -> 0 < cap <= 2 ^ 62 -> 0 <= al < 2 ^ 32 -> 0 <= size <= 2 ^ 62 ->
  rtc sa_step (Allocator_Init workers cap al, []) (a, live) ->
  exists ok bs a', AllocateBlocks a size worker [] = Some (ok, bs, a') /\
    (ok = true -> sa_inv a' (bs ++ live) /\ size <= zsum b_size bs) /\
    (ok = false -> bs = [] /\ same_state a a' /\ capacity_ a < heap_ (sa_heap_ a) + AlignSize a size).
Proof.
  intros Hw Hcap Hal Hsz Hr.
  pose proof (sa_reachable_inv _ _ Hr (Allocator_Init_inv workers cap al Hw Hcap Hal)) as Hinv.
  destruct (AllocateBlocks_spec a live size worker Hinv Hsz) as ([[ok bs] a'] & Ha & Hpost).
  exists ok, bs, a'. split; [done|]. destruct ok; split; try done; intros _.
  - by destruct Hpost as (? & _ & _ & ?).
  - by destruct Hpost as (? & _ & ? & ?).
Qed.

Lemma AllocateBlocks_all_or_nothing_witness :
  exists ok bs a', AllocateBlocks (fst sa_example) 16384 0 [] = Some (ok, bs, a') /\ bs = [] /\
    same_state (fst sa_example) a'.
Proof.
  destruct (AllocateBlocks_all_or_nothing 2 20480 4096 16384 0 (fst sa_example) (snd sa_example))
    as (ok & bs & a' & Ha & _ & Hf); [lia|lia|lia|lia|exact sa_example_reachable|].
  exists ok, bs, a'. split; [exact Ha|]. assert (ok = false) as Hok.
  { apply (f_equal (fun r => match r with Some (o, _, _) => o | None => true end)) in Ha.
    vm_compute in Ha. by symmetry. }
  exact (conj (proj1 (Hf Hok)) (proj1 (proj2 (Hf Hok)))).
Defined.

(** Accounting: in every reachable state the reported remaining size is
    the capacity less the footprints of the blocks in callers' hands. *)
Theorem GetRemainingSize_exact (workers : nat) (cap al : Z) (a : StandardBlockAllocator) (live : list Block) :
  (0 < workers)%nat -> 0 < cap <= 2 ^ 62 -> 0 <= al < 2 ^ 32 ->
  rtc sa_step (Allocator_Init workers cap al, []) (a, live) ->
  GetRemainingSize a = capacity_ a - zsum (footprint (default_alignment (alignment_ a))) live.
Proof.
  intros Hw Hcap Hal Hr.
  pose proof (sa_reachable_inv _ _ Hr (Allocator_Init_inv workers cap al Hw Hcap Hal)) as Hinv. cbn [fst snd] in Hinv.
  pose proof (inv_allocated_bound _ _ Hinv). destruct Hinv as [Hp Ha]. pose proof (sp_heap _ _ Hp).
  unfold GetRemainingSize. rewrite Ha in *. destruct (Z.ltb_spec (zsum (footprint (sa_align a)) live) (capacity_ a)); lia.
Qed.

Lemma GetRemainingSize_exact_witness : GetRemainingSize (fst sa_example) = 16384.
Proof.
  rewrite (GetRemainingSize_exact 2 20480 4096 (fst sa_example) (snd sa_example));
    [vm_compute; reflexivity|lia|lia|lia|exact sa_example_reachable].
Defined.

(** With the 512-byte alignment of the RAM transport, freed fragments below
    4 KiB cannot be assembled: [AllocateAnyUpTo] tests a 4 KiB footprint. Two
    freed 512-byte blocks that are the whole device do not serve a request for
    1024 bytes, although nothing is allocated. *)
Theorem sub_page_fragments_not_reused :
  exists a live a',
    rtc sa_step (Allocator_Init 1 1024 512, []) (a, live) /\ live = [] /\
    GetRemainingSize a = 1024 /\ AllocateBlocks a 1024 0 [] = Some (false, [], a').
Proof.
  do 3 eexists. split.
  - eapply rtc_l; [eapply (sa_alloc _ _ 512 0 true); [lia|vm_compute; reflexivity]|].
    eapply rtc_l; [eapply (sa_alloc _ _ 512 0 true); [lia|vm_compute; reflexivity]|].
    apply rtc_once. apply (sa_free _ _ 0 [mkBlock 512 512 0; mkBlock 0 512 0] []). reflexivity.
  - split; [reflexivity|]. split; vm_compute; reflexivity.
Qed.

(** The lock-free heap is not atomic: two workers whose requests overflow
    and retry can interleave so that two granted blocks share bytes, because a
    pending [fetch_add] is undone below a block granted after it. *)
Theorem Heap_Allocate_race_overlaps :
  exists s b b',
    rtc heap_race_step (mkHeapRace (Heap_Init 40960 4096) [HIdle; HIdle] []) s /\
    In b (hr_granted s) /\ In b' (hr_granted s) /\
    b_offset b < b_offset b' /\ b_offset b' + b_size b' <= b_offset b + b_size b /\ 0 < b_size b'.
Proof.
  exists (mkHeapRace (mkHeap 28672 40960 4096) [HIdle; HIdle]
    [mkBlock 0 16384 4; mkBlock 24576 4096 3; mkBlock 20480 8192 4]),
    (mkBlock 20480 8192 4), (mkBlock 24576 4096 3).
  split.
  - pose (H := fun n => mkHeap n 40960 4096).
    eapply rtc_l; [apply (hr_grant _ _ _ 0 16384 4 16384 0 (H 16384)); reflexivity|].
    eapply rtc_l; [apply (hr_overflow _ _ _ 0 28672 28672 16384 (H 45056)); reflexivity|].
    eapply rtc_l; [apply (hr_overflow _ _ _ 1 8192 8192 45056 (H 53248)); reflexivity|].
    eapply rtc_l; [apply (hr_undo _ _ _ 0 28672); reflexivity|].
    eapply rtc_l; [apply (hr_grant _ _ _ 0 4096 3 4096 24576 (H 28672)); reflexivity|].
    eapply rtc_l; [apply (hr_undo _ _ _ 1 8192); reflexivity|].
    eapply rtc_l; [apply (hr_grant _ _ _ 1 8192 4 8192 20480 (H 28672)); reflexivity|].
    apply rtc_refl.
  - cbn. split_and!; auto; lia.
Qed.
