(* ===== verification/AllocLog.v ===== *)
(** The allocator's write-ahead log: [bdev/bdev_alloc_log.h].

    The log file and the compaction's temporary file are byte lists; whether a
    file can be opened or renamed is an argument of the operation. The in-memory
    model, the append buffer and the lazily rebuilt cache are the fields of
    [AllocatorLog]. *)
From Stdlib Require Import ZArith Lia Sorted.
From stdpp Require Import base list gmap sorting.
From S2P Require Import Prelude.

Open Scope Z_scope.

(** * Records *)

Inductive AllocLogType := kAlloc | kFree | kGroupOpen | kGroupFreeze.

Definition AllocLogType_to_u32 (t : AllocLogType) : Z :=
  match t with kAlloc => 1 | kFree => 2 | kGroupOpen => 3 | kGroupFreeze => 4 end.

(** [None]: the [default] branch of the switch on a foreign tag. *)
Definition AllocLogType_of_u32 (z : Z) : option AllocLogType :=
  if z =? 1 then Some kAlloc else if z =? 2 then Some kFree
  else if z =? 3 then Some kGroupOpen else if z =? 4 then Some kGroupFreeze else None.

Record AllocLogRecord := mkAllocLogRecord {
  rec_type : Z;
  rec_group_id : Z;
  rec_block_type : Z;
  rec_reserved : Z;
  rec_offset : Z;
  rec_size : Z;
  rec_row : Z
}.

Record LiveBlock := mkLiveBlock { lb_offset : Z; lb_size : Z; lb_block_type : Z }.

Record GroupRec := mkGroupRec {
  gr_group_id : Z; gr_k : Z; gr_first_row : Z; gr_num_rows : Z; gr_logical_base : Z
}.

(** The packed 40-byte layout, in little-endian host order. *)
Definition record_bytes (r : AllocLogRecord) : list u8 :=
  le_bytes 4 (rec_type r) ++ le_bytes 4 (rec_group_id r) ++ le_bytes 4 (rec_block_type r) ++
  le_bytes 4 (rec_reserved r) ++ le_bytes 8 (rec_offset r) ++ le_bytes 8 (rec_size r) ++ le_bytes 8 (rec_row r).

(** [fread(&rec, sizeof(rec), 1, f)]. *)
Definition read_record (bs : list u8) : option (AllocLogRecord * list u8) :=
  '(type, bs) ← get_le 4 bs;
  '(group_id, bs) ← get_le 4 bs;
  '(block_type, bs) ← get_le 4 bs;
  '(reserved, bs) ← get_le 4 bs;
  '(offset, bs) ← get_le 8 bs;
  '(size, bs) ← get_le 8 bs;
  '(row, bs) ← get_le 8 bs;
  Some (mkAllocLogRecord type group_id block_type reserved offset size row, bs).

(** * State *)

Record AllocatorLog := mkAllocatorLog {
  al_enabled : bool;
  al_buffer : list AllocLogRecord;
  al_records_on_disk : Z;
  al_live : gmap Z (gmap Z LiveBlock);
  al_groups : gmap Z GroupRec;
  al_live_cache_valid : bool;
  al_live_cache : gmap Z (list LiveBlock)
}.

(** The log file and the compaction's temporary file, when they exist. *)
Record LogDisk := mkLogDisk { ld_file : option (list u8); ld_tmp : option (list u8) }.

Definition AllocatorLog_new : AllocatorLog := mkAllocatorLog false [] 0 ∅ ∅ false ∅.

(** [std::map] iterates in key order. *)
Definition key_le {A} (p q : Z * A) : Prop := fst p <= fst q.

#[export] Instance key_le_dec {A} : RelDecision (@key_le A).
Proof. intros p q. unfold key_le. apply _. Defined.

Definition in_key_order {A} (m : gmap Z A) : list (Z * A) := merge_sort key_le (map_to_list m).

(** * The recovered model *)

Definition apply_live (live : gmap Z (gmap Z LiveBlock)) (r : AllocLogRecord) : gmap Z (gmap Z LiveBlock) :=
  match AllocLogType_of_u32 (rec_type r) with
  | Some kAlloc =>
      <[rec_group_id r := <[rec_offset r := mkLiveBlock (rec_offset r) (rec_size r) (rec_block_type r)]>
                             (default ∅ (live !! rec_group_id r))]> live
  | Some kFree =>
      match live !! rec_group_id r with
      | Some m => <[rec_group_id r := delete (rec_offset r) m]> live
      | None => live
      end
  | _ => live
  end.

Definition apply_groups (groups : gmap Z GroupRec) (r : AllocLogRecord) : gmap Z GroupRec :=
  match AllocLogType_of_u32 (rec_type r) with
  | Some kGroupOpen =>
      <[rec_group_id r := mkGroupRec (rec_group_id r) (rec_block_type r) (rec_row r) (rec_size r) (rec_offset r)]> groups
  | Some kGroupFreeze =>
      match groups !! rec_group_id r with
      | Some g => <[rec_group_id r := mkGroupRec (gr_group_id g) (gr_k g) (gr_first_row g) (rec_size r) (gr_logical_base g)]> groups
      | None => <[rec_group_id r := mkGroupRec (rec_group_id r) 0 0 (rec_size r) 0]> groups
      end
  | _ => groups
  end.

Definition ApplyRecordLocked (l : AllocatorLog) (r : AllocLogRecord) : AllocatorLog :=
  mkAllocatorLog (al_enabled l) (al_buffer l) (al_records_on_disk l)
    (apply_live (al_live l) r) (apply_groups (al_groups l) r) false (al_live_cache l).

Definition set_buffer (l : AllocatorLog) (b : list AllocLogRecord) : AllocatorLog :=
  mkAllocatorLog (al_enabled l) b (al_records_on_disk l) (al_live l) (al_groups l)
    (al_live_cache_valid l) (al_live_cache l).

Definition set_records_on_disk (l : AllocatorLog) (n : Z) : AllocatorLog :=
  mkAllocatorLog (al_enabled l) (al_buffer l) n (al_live l) (al_groups l)
    (al_live_cache_valid l) (al_live_cache l).

(** The [while (fread(...) == 1)] loop; a file of [n] bytes has fuel [n]. *)
Fixpoint replay_loop (fuel : nat) (bs : list u8) (st : AllocatorLog * Z) : AllocatorLog * Z :=
  match fuel with
  | O => st
  | S fuel =>
      match read_record bs with
      | Some (r, bs) => replay_loop fuel bs (ApplyRecordLocked (fst st) r, u64 (snd st + 1))
      | None => st
      end
  end.

Definition ReplayFileLocked (l : AllocatorLog) (file : list u8) : AllocatorLog :=
  let '(l, count) := replay_loop (length file) file (l, 0) in
  set_records_on_disk l count.

(** * Operations *)

(** [path_empty]: no path was given; [can_open]: [fopen(path, "ab")] succeeds. *)
Definition AllocatorLog_Open (l : AllocatorLog) (disk : LogDisk) (path_empty recover can_open : bool)
    : bool * AllocatorLog * LogDisk :=
  let l := mkAllocatorLog (negb path_empty) [] (al_records_on_disk l) ∅ ∅ false (al_live_cache l) in
  if path_empty then (true, l, disk)
  else
    let l := match ld_file disk with
             | Some file => if recover then ReplayFileLocked l file else l
             | None => l
             end in
    if can_open then (true, l, mkLogDisk (Some (default [] (ld_file disk))) (ld_tmp disk))
    else (false, mkAllocatorLog false (al_buffer l) (al_records_on_disk l) (al_live l) (al_groups l)
                   (al_live_cache_valid l) (al_live_cache l), disk).

Definition log_record (l : AllocatorLog) (r : AllocLogRecord) : AllocatorLog :=
  if al_enabled l then set_buffer l (al_buffer l ++ [r]) else l.

Definition LogAlloc (l : AllocatorLog) (group_id offset size block_type : Z) : AllocatorLog :=
  log_record l (mkAllocLogRecord (AllocLogType_to_u32 kAlloc) group_id block_type 0 offset size 0).

Definition LogFree (l : AllocatorLog) (group_id offset size block_type : Z) : AllocatorLog :=
  log_record l (mkAllocLogRecord (AllocLogType_to_u32 kFree) group_id block_type 0 offset size 0).

Definition LogGroupOpen (l : AllocatorLog) (group_id k first_row num_rows logical_base : Z) : AllocatorLog :=
  log_record l (mkAllocLogRecord (AllocLogType_to_u32 kGroupOpen) group_id k 0 logical_base num_rows first_row).

Definition LogGroupFreeze (l : AllocatorLog) (group_id num_rows : Z) : AllocatorLog :=
  log_record l (mkAllocLogRecord (AllocLogType_to_u32 kGroupFreeze) group_id 0 0 0 num_rows 0).

Definition records_bytes (rs : list AllocLogRecord) : list u8 := concat (map record_bytes rs).

Definition Flush (l : AllocatorLog) (disk : LogDisk) (can_open : bool) : AllocatorLog * LogDisk :=
  if negb (al_enabled l) || bool_decide (al_buffer l = []) then (l, disk)
  else if negb can_open then (l, disk)
  else
    let disk := mkLogDisk (Some (default [] (ld_file disk) ++ records_bytes (al_buffer l))) (ld_tmp disk) in
    let n := Z.of_nat (length (al_buffer l)) in
    let l := fold_left ApplyRecordLocked (al_buffer l) l in
    (set_buffer (set_records_on_disk l (u64 (al_records_on_disk l + n))) [], disk).

(** The minimal record set: group opens, then live blocks. *)
Definition group_record (g : GroupRec) : AllocLogRecord :=
  mkAllocLogRecord (AllocLogType_to_u32 kGroupOpen) (gr_group_id g) (gr_k g) 0
    (gr_logical_base g) (gr_num_rows g) (gr_first_row g).

Definition live_record (group_id : Z) (b : LiveBlock) : AllocLogRecord :=
  mkAllocLogRecord (AllocLogType_to_u32 kAlloc) group_id (lb_block_type b) 0 (lb_offset b) (lb_size b) 0.

Definition compact_records (l : AllocatorLog) : list AllocLogRecord :=
  map (fun '(_, g) => group_record g) (in_key_order (al_groups l)) ++
  concat (map (fun '(group_id, m) => map (fun '(_, b) => live_record group_id b) (in_key_order m))
              (in_key_order (al_live l))).

(** [can_open]: the temporary file opens; [can_rename]: the rename succeeds. *)
Definition Compact (l : AllocatorLog) (disk : LogDisk) (can_open can_rename : bool) : AllocatorLog * LogDisk :=
  if negb (al_enabled l) then (l, disk)
  else
    let l := set_buffer (fold_left ApplyRecordLocked (al_buffer l) l) [] in
    if negb can_open then (l, disk)
    else
      let rs := compact_records l in
      if can_rename then
        (mkAllocatorLog (al_enabled l) (al_buffer l) (u64 (Z.of_nat (length rs))) (al_live l) (al_groups l) false
           (al_live_cache l), mkLogDisk (Some (records_bytes rs)) None)
      else (l, mkLogDisk (ld_file disk) None).

Definition RebuildLiveCacheLocked (l : AllocatorLog) : AllocatorLog :=
  if al_live_cache_valid l then l
  else mkAllocatorLog (al_enabled l) (al_buffer l) (al_records_on_disk l) (al_live l) (al_groups l) true
         ((fun m => map snd (in_key_order m)) <$> al_live l).

Definition AllocatorLog_live (l : AllocatorLog) (group_id : Z) : list LiveBlock * AllocatorLog :=
  let l := RebuildLiveCacheLocked l in (default [] (al_live_cache l !! group_id), l).

Definition AllocatorLog_groups (l : AllocatorLog) : list GroupRec := map snd (in_key_order (al_groups l)).

Definition live_block_count (l : AllocatorLog) : Z :=
  u64 (zsum (fun '(_, m) => Z.of_nat (size (m : gmap Z LiveBlock))) (map_to_list (al_live l))).

Definition file_size (disk : LogDisk) : Z := Z.of_nat (length (default [] (ld_file disk))).

(** * Records and files *)

Definition record_ok (r : AllocLogRecord) : Prop :=
  (0 <= rec_type r < 2 ^ 32) /\ (0 <= rec_group_id r < 2 ^ 32) /\ (0 <= rec_block_type r < 2 ^ 32) /\
  (0 <= rec_reserved r < 2 ^ 32) /\ (0 <= rec_offset r < 2 ^ 64) /\ (0 <= rec_size r < 2 ^ 64) /\
  (0 <= rec_row r < 2 ^ 64).

Lemma length_record_bytes r : length (record_bytes r) = 40%nat.
Proof. unfold record_bytes. by rewrite !length_app, !length_le_bytes. Qed.

Lemma read_record_app r rest : record_ok r -> read_record (record_bytes r ++ rest) = Some (r, rest).
Proof.
  intros (H1 & H2 & H3 & H4 & H5 & H6 & H7). unfold read_record, record_bytes. rewrite <- !app_assoc.
  do 7 (rewrite get_le_app by done; cbn [mbind option_bind]). by destruct r.
Qed.

(** A record is read exactly when 40 bytes are left. *)
Lemma read_record_Some bs r rest :
  read_record bs = Some (r, rest) -> bs = record_bytes r ++ rest /\ record_ok r.
Proof.
  unfold read_record. intros H.
  repeat match type of H with
         | context [get_le ?n ?b] =>
             let z := fresh "z" in let rs := fresh "rs" in let E := fresh "E" in
             destruct (get_le n b) as [[z rs]|] eqn:E; cbn [mbind option_bind] in H; [|done];
             apply get_le_Some in E as [-> ?]
         end.
  injection H as <- <-. unfold record_bytes.
  cbn [rec_type rec_group_id rec_block_type rec_reserved rec_offset rec_size rec_row]. rewrite <- !app_assoc. split; [done|].
  unfold record_ok. cbn [rec_type rec_group_id rec_block_type rec_reserved rec_offset rec_size rec_row].
  change (2 ^ 32) with (256 ^ Z.of_nat 4). change (2 ^ 64) with (256 ^ Z.of_nat 8). tauto.
Qed.

Lemma read_record_short bs : (length bs < 40)%nat -> read_record bs = None.
Proof.
  intros Hl. destruct (read_record bs) as [[r rest]|] eqn:E; [|done].
  apply read_record_Some in E as [-> _]. rewrite length_app, length_record_bytes in Hl. lia.
Qed.

Lemma length_records_bytes rs : length (records_bytes rs) = (40 * length rs)%nat.
Proof.
  induction rs as [|r rs IH]; [done|]. unfold records_bytes in *. cbn [map concat length].
  rewrite length_app, length_record_bytes, IH. lia.
Qed.

Lemma records_bytes_app rs rs' : records_bytes (rs ++ rs') = records_bytes rs ++ records_bytes rs'.
Proof. unfold records_bytes. by rewrite map_app, concat_app. Qed.

(** Replaying whole records followed by a torn tail. *)
Lemma replay_loop_records fuel rs tail l n :
  Forall record_ok rs -> (length tail < 40)%nat -> (length (records_bytes rs ++ tail) <= fuel)%nat ->
  replay_loop fuel (records_bytes rs ++ tail) (l, n) =
  (fold_left ApplyRecordLocked rs l, Nat.iter (length rs) (fun n => u64 (n + 1)) n).
Proof.
  intros Hok Ht. revert fuel l n. induction Hok as [|r rs Hr Hok IH]; intros fuel l n Hf.
  - cbn [records_bytes map concat app] in *. destruct fuel; cbn; [done|]. by rewrite read_record_short.
  - unfold records_bytes in *. cbn [map concat] in *. rewrite <- app_assoc in *.
    rewrite length_app, length_record_bytes in Hf. destruct fuel as [|fuel]; [lia|]. cbn [replay_loop].
    rewrite read_record_app by done. cbn [fst snd]. rewrite IH by lia. cbn [fold_left length].
    by rewrite Nat.iter_succ_r.
Qed.

Lemma iter_count k n : 0 <= n -> n + Z.of_nat k < 2 ^ 64 -> Nat.iter k (fun n => u64 (n + 1)) n = n + Z.of_nat k.
Proof.
  intros Hn. induction k as [|k IH]; intros Hb; [cbn; lia|]. rewrite Nat.iter_succ, IH by lia.
  rewrite u64_small by lia. lia.
Qed.

(** * The abstract log: the state a record sequence describes *)

Definition log_state : Type := gmap Z (gmap Z LiveBlock) * gmap Z GroupRec.

Definition apply_state (st : log_state) (r : AllocLogRecord) : log_state :=
  (apply_live (fst st) r, apply_groups (snd st) r).

Definition replay (rs : list AllocLogRecord) : log_state := fold_left apply_state rs (∅, ∅).

(** The block a group holds at an offset. *)
Definition lookup2 (live : gmap Z (gmap Z LiveBlock)) (g o : Z) : option LiveBlock :=
  match live !! g with Some m => m !! o | None => None end.

(** Two states a reader cannot tell apart: a group without blocks is the same
    as no group. *)
Definition log_equiv (s s' : log_state) : Prop :=
  (forall g o, lookup2 (fst s) g o = lookup2 (fst s') g o) /\ snd s = snd s'.

#[export] Instance log_equiv_equivalence : Equivalence log_equiv.
Proof.
  split.
  - by intros s.
  - intros s s' [H1 H2]. by split.
  - intros s s' s'' [H1 H2] [H3 H4]. split; [|congruence]. intros g o. by rewrite H1.
Qed.

Ltac pair_neq := first [congruence | intros [? ?]; congruence].

Lemma lookup2_apply_live live r g o :
  lookup2 (apply_live live r) g o =
  match AllocLogType_of_u32 (rec_type r) with
  | Some kAlloc =>
      if decide (g = rec_group_id r /\ o = rec_offset r)
      then Some (mkLiveBlock (rec_offset r) (rec_size r) (rec_block_type r)) else lookup2 live g o
  | Some kFree => if decide (g = rec_group_id r /\ o = rec_offset r) then None else lookup2 live g o
  | _ => lookup2 live g o
  end.
Proof.
  unfold apply_live, lookup2. destruct (AllocLogType_of_u32 (rec_type r)) as [[]|]; try done.
  - destruct (decide (g = rec_group_id r)) as [->|Hg].
    + rewrite lookup_insert_eq. destruct (decide (o = rec_offset r)) as [->|Ho].
      * by rewrite lookup_insert_eq, decide_True.
      * rewrite lookup_insert_ne, decide_False by pair_neq.
        destruct (live !! rec_group_id r); [done|]. cbn. by rewrite lookup_empty.
    + by rewrite lookup_insert_ne, decide_False by pair_neq.
  - destruct (live !! rec_group_id r) as [m|] eqn:E.
    + destruct (decide (g = rec_group_id r)) as [->|Hg].
      * rewrite lookup_insert_eq. destruct (decide (o = rec_offset r)) as [->|Ho].
        -- by rewrite lookup_delete_eq, decide_True.
        -- by rewrite lookup_delete_ne, decide_False, E by pair_neq.
      * by rewrite lookup_insert_ne, decide_False by pair_neq.
    + case_decide as Hd; [|done]. destruct Hd as [-> ->]. by rewrite E.
Qed.

#[export] Instance apply_state_proper : Proper (log_equiv ==> eq ==> log_equiv) apply_state.
Proof.
  intros s s' [H1 H2] r ? <-. split; cbn; [|by rewrite H2]. intros g o. rewrite !lookup2_apply_live.
  destruct (AllocLogType_of_u32 (rec_type r)) as [[]|]; try apply H1; case_decide; done || apply H1.
Qed.

#[export] Instance fold_apply_proper rs : Proper (log_equiv ==> log_equiv) (fold_left apply_state rs).
Proof. induction rs as [|r rs IH]; intros s s' H; cbn; [done|]. apply IH. by rewrite H. Qed.

Definition state_of (l : AllocatorLog) : log_state := (al_live l, al_groups l).

Lemma state_of_apply l rs : state_of (fold_left ApplyRecordLocked rs l) = fold_left apply_state rs (state_of l).
Proof. revert l. induction rs as [|r rs IH]; intros l; cbn; [done|]. by rewrite IH. Qed.

Lemma fold_apply_fields l rs :
  al_enabled (fold_left ApplyRecordLocked rs l) = al_enabled l /\
  al_records_on_disk (fold_left ApplyRecordLocked rs l) = al_records_on_disk l.
Proof. revert l. induction rs as [|r rs IH]; intros l; cbn; [done|]. by destruct (IH (ApplyRecordLocked l r)). Qed.

Lemma replay_app rs rs' : replay (rs ++ rs') = fold_left apply_state rs' (replay rs).
Proof. unfold replay. by rewrite fold_left_app. Qed.

(** ** Well-formed states: keys agree with the records, fields fit *)

Definition block_ok (g o : Z) (b : LiveBlock) : Prop :=
  lb_offset b = o /\ 0 <= g < 2 ^ 32 /\ 0 <= o < 2 ^ 64 /\ 0 <= lb_size b < 2 ^ 64 /\ 0 <= lb_block_type b < 2 ^ 32.

Definition group_ok (k : Z) (g : GroupRec) : Prop :=
  gr_group_id g = k /\ 0 <= k < 2 ^ 32 /\ 0 <= gr_k g < 2 ^ 32 /\ 0 <= gr_first_row g < 2 ^ 64 /\
  0 <= gr_num_rows g < 2 ^ 64 /\ 0 <= gr_logical_base g < 2 ^ 64.

Definition state_ok (s : log_state) : Prop :=
  (forall g o b, lookup2 (fst s) g o = Some b -> block_ok g o b) /\ map_Forall group_ok (snd s).

Lemma apply_state_ok s r : state_ok s -> record_ok r -> state_ok (apply_state s r).
Proof.
  intros [Hl Hg] (H1 & H2 & H3 & H4 & H5 & H6 & H7). split; cbn.
  - intros g o b. rewrite lookup2_apply_live. destruct (AllocLogType_of_u32 (rec_type r)) as [[]|]; try apply Hl.
    + case_decide as Hd; [|apply Hl]. destruct Hd as [-> ->]. intros [= <-]. by unfold block_ok.
    + case_decide; [done|apply Hl].
  - unfold apply_groups. destruct (AllocLogType_of_u32 (rec_type r)) as [[]|]; try done.
    + apply map_Forall_insert_2; [by unfold group_ok|done].
    + destruct (snd s !! rec_group_id r) as [g|] eqn:E; (apply map_Forall_insert_2; [|done]).
      * destruct (Hg _ _ E) as (? & ? & ? & ? & ? & ?). by unfold group_ok.
      * unfold group_ok. cbn. lia.
Qed.

Lemma fold_apply_ok s rs : state_ok s -> Forall record_ok rs -> state_ok (fold_left apply_state rs s).
Proof. intros Hs Hf. revert s Hs. induction Hf as [|r rs Hr _ IH]; intros s Hs; cbn; [done|]. by apply IH, apply_state_ok. Qed.

Lemma state_ok_equiv s s' : log_equiv s s' -> state_ok s -> state_ok s'.
Proof. intros [H1 H2] [Hl Hg]. split; [|by rewrite <- H2]. intros g o b. rewrite <- H1. apply Hl. Qed.

(** * Compaction *)

Section CompactState.
Implicit Types (l : AllocatorLog).

Lemma elem_of_key_order {A} (m : gmap Z A) k x : (k, x) ∈ in_key_order m <-> m !! k = Some x.
Proof using. unfold in_key_order. rewrite merge_sort_Permutation. apply elem_of_map_to_list. Qed.

(** The live blocks of all groups, in the order compaction writes them. *)
Definition live_pairs (live : gmap Z (gmap Z LiveBlock)) : list (Z * LiveBlock) :=
  concat (map (fun '(g, m) => map (fun '(_, b) => (g, b)) (in_key_order m)) (in_key_order live)).

Lemma elem_of_live_pairs live g b :
  (g, b) ∈ live_pairs live <-> exists o, lookup2 live g o = Some b.
Proof using.
  unfold live_pairs, lookup2. rewrite list_elem_of_In, in_concat. split.
  - intros (ps & Hps & Hin). apply in_map_iff in Hps as ([g' m] & <- & Hgm). apply in_map_iff in Hin as ([o b'] & E & Hob).
    injection E as -> ->. apply list_elem_of_In, elem_of_key_order in Hgm, Hob. exists o. by rewrite Hgm.
  - intros [o Ho]. destruct (live !! g) as [m|] eqn:Hg; [|done].
    exists (map (fun '(_, b) => (g, b)) (in_key_order m)). split.
    + apply in_map_iff. exists (g, m). split; [done|]. by apply list_elem_of_In, elem_of_key_order.
    + apply in_map_iff. exists (o, b). split; [done|]. by apply list_elem_of_In, elem_of_key_order.
Qed.

Lemma compact_records_eq l :
  compact_records l = map group_record (AllocatorLog_groups l) ++
                      map (fun '(g, b) => live_record g b) (live_pairs (al_live l)).
Proof using.
  unfold compact_records, AllocatorLog_groups, live_pairs. f_equal.
  - rewrite map_map. apply map_ext. by intros [k g].
  - rewrite concat_map, map_map. f_equal. apply map_ext. intros [g m]. rewrite map_map. apply map_ext. by intros [o b].
Qed.

(** Group records leave the live blocks alone, and conversely. *)
Lemma fold_group_records gs s :
  fst (fold_left apply_state (map group_record gs) s) = fst s /\
  forall k, snd (fold_left apply_state (map group_record gs) s) !! k =
            match list_find (fun g => gr_group_id g = k) (reverse gs) with
            | Some (_, g) => Some g
            | None => snd s !! k
            end.
Proof using.
  induction gs as [|g gs IH] using rev_ind; [done|].
  rewrite map_app, fold_left_app, reverse_app. cbn [map fold_left reverse app]. destruct IH as [IH1 IH2].
  split; [exact IH1|]. intros k. cbn [apply_state snd group_record rec_type AllocLogType_of_u32].
  unfold apply_groups. cbn [group_record rec_type rec_group_id rec_block_type rec_row rec_size rec_offset].
  change (AllocLogType_of_u32 (AllocLogType_to_u32 kGroupOpen)) with (Some kGroupOpen). cbv iota.
  rewrite reverse_singleton. cbn [app list_find]. destruct (decide (gr_group_id g = k)) as [<-|Hk].
  - rewrite lookup_insert_eq. by destruct g.
  - rewrite lookup_insert_ne, IH2 by done.
    by destruct (list_find (fun g => gr_group_id g = k) (reverse gs)) as [[]|].
Qed.

Lemma fold_live_records ps s :
  (forall g b b', (g, b) ∈ ps -> (g, b') ∈ ps -> lb_offset b = lb_offset b' -> b = b') ->
  snd (fold_left apply_state (map (fun '(g, b) => live_record g b) ps) s) = snd s /\
  forall g o, lookup2 (fst (fold_left apply_state (map (fun '(g, b) => live_record g b) ps) s)) g o =
    match list_find (fun p => fst p = g /\ lb_offset (snd p) = o) (reverse ps) with
    | Some (_, p) => Some (snd p)
    | None => lookup2 (fst s) g o
    end.
Proof using.
  induction ps as [|[g0 b0] ps IH] using rev_ind; intros Hfun; [done|].
  rewrite map_app, fold_left_app, reverse_app. cbn [map fold_left].
  destruct IH as [IH1 IH2]; [intros g b b' Hb Hb'; apply (Hfun g); rewrite elem_of_app; by left|].
  split; [exact IH1|]. intros g o. cbn [apply_state fst]. rewrite lookup2_apply_live.
  cbn [live_record rec_type rec_group_id rec_block_type rec_row rec_size rec_offset].
  change (AllocLogType_of_u32 (AllocLogType_to_u32 kAlloc)) with (Some kAlloc). cbv iota.
  rewrite reverse_singleton. cbn [app list_find fst snd].
  destruct (decide (g = g0 /\ o = lb_offset b0)) as [[-> ->]|Hne].
  - rewrite decide_True by done. cbn. by destruct b0.
  - rewrite decide_False by (intros [? ?]; apply Hne; by split). rewrite IH2.
    by destruct (list_find (fun p => fst p = g /\ lb_offset (snd p) = o) (reverse ps)) as [[]|].
Qed.

(** The minimal record set reproduces the state it was computed from. *)
Lemma replay_compact_records l :
  state_ok (state_of l) -> log_equiv (replay (compact_records l)) (state_of l).
Proof using.
  intros [Hl Hg]. cbn in Hl, Hg. rewrite compact_records_eq, replay_app. unfold replay.
  destruct (fold_group_records (AllocatorLog_groups l) (∅, ∅)) as [Hg1 Hg2].
  set (s := fold_left apply_state _ (∅, ∅)) in *.
  destruct (fold_live_records (live_pairs (al_live l)) s) as [Hl1 Hl2].
  { intros g b b' [o Ho]%elem_of_live_pairs [o' Ho']%elem_of_live_pairs E.
    destruct (Hl g o b Ho) as [<- _], (Hl g o' b' Ho') as [<- _]. rewrite E in Ho. congruence. }
  split.
  - intros g o. rewrite Hl2. cbn [state_of fst].
    destruct (list_find _ _) as [[i [g' b]]|] eqn:E.
    + apply list_find_Some in E as (Hi & [Hgb Hob] & _). cbn in Hgb, Hob. subst.
      apply list_elem_of_lookup_2 in Hi. rewrite elem_of_reverse, elem_of_live_pairs in Hi. destruct Hi as [o Ho].
      cbn. destruct (Hl _ _ _ Ho) as [-> _]. by rewrite Ho.
    + destruct (lookup2 (al_live l) g o) as [b|] eqn:Hb.
      * exfalso. apply list_find_None in E. rewrite Forall_forall in E. apply (E (g, b)).
        -- rewrite elem_of_reverse, elem_of_live_pairs. by exists o.
        -- split; [done|]. cbn. by destruct (Hl _ _ _ Hb).
      * by rewrite Hg1.
  - rewrite Hl1. apply map_eq. intros k. rewrite Hg2. cbn [state_of snd].
    destruct (list_find _ _) as [[i g]|] eqn:E.
    + apply list_find_Some in E as (Hi & Hgk & _). apply list_elem_of_lookup_2 in Hi.
      rewrite elem_of_reverse in Hi. unfold AllocatorLog_groups in Hi.
      rewrite list_elem_of_In, in_map_iff in Hi. destruct Hi as ([k' g'] & <- & Hin). cbn in Hgk |- *.
      apply list_elem_of_In, elem_of_key_order in Hin. destruct (Hg _ _ Hin) as [Hid _]. cbn. congruence.
    + destruct (al_groups l !! k) as [g|] eqn:Hk; [|done]. exfalso.
      apply list_find_None in E. rewrite Forall_forall in E. apply (E g).
      * rewrite elem_of_reverse. unfold AllocatorLog_groups. rewrite list_elem_of_In, in_map_iff.
        exists (k, g). split; [done|]. by apply list_elem_of_In, elem_of_key_order.
      * by destruct (Hg _ _ Hk).
Qed.

Lemma compact_records_ok l : state_ok (state_of l) -> Forall record_ok (compact_records l).
Proof using.
  intros [Hl Hg]. rewrite compact_records_eq. apply Forall_app. split; apply Forall_map, Forall_forall.
  - intros g Hin. unfold AllocatorLog_groups in Hin. rewrite list_elem_of_In, in_map_iff in Hin.
    destruct Hin as ([k g'] & <- & Hin). apply list_elem_of_In, elem_of_key_order in Hin.
    destruct (Hg _ _ Hin) as (Hid & ? & ? & ? & ? & ?). unfold record_ok. cbn. rewrite Hid. lia.
  - intros [g b] [o Ho]%elem_of_live_pairs. destruct (Hl _ _ _ Ho) as (Hid & ? & ? & ? & ?).
    unfold record_ok. cbn. rewrite Hid. lia.
Qed.
End CompactState.

(** * The log as a state machine

    A state is the log object, the disk, the records that are durable and the
    records that the in-memory model reflects. The two histories agree unless a
    compaction failed half-way. *)

Record al_world := mkWorld {
  w_log : AllocatorLog;
  w_disk : LogDisk;
  w_durable : list AllocLogRecord;
  w_model : list AllocLogRecord
}.

Inductive al_step : al_world -> al_world -> Prop :=
| al_log l disk H M r :
    record_ok r -> al_step (mkWorld l disk H M) (mkWorld (log_record l r) disk H M)
| al_flush l disk H M can_open l' disk' :
    Flush l disk can_open = (l', disk') ->
    al_step (mkWorld l disk H M)
      (mkWorld l' disk' (if can_open then H ++ al_buffer l else H) (if can_open then M ++ al_buffer l else M))
| al_compact l disk H M can_open can_rename l' disk' :
    Compact l disk can_open can_rename = (l', disk') ->
    al_step (mkWorld l disk H M)
      (mkWorld l' disk' (if can_open && can_rename then M ++ al_buffer l else H) (M ++ al_buffer l))
| al_query l disk H M g :
    al_step (mkWorld l disk H M) (mkWorld (snd (AllocatorLog_live l g)) disk H M)
| al_crash l disk H M l' disk' :
    AllocatorLog_Open AllocatorLog_new disk false true true = (true, l', disk') ->
    al_step (mkWorld l disk H M) (mkWorld l' disk' H H).

Definition live_lists (live : gmap Z (gmap Z LiveBlock)) : gmap Z (list LiveBlock) :=
  (fun m => map snd (in_key_order m)) <$> live.

Record al_inv (w : al_world) : Prop := {
  ai_enabled : al_enabled (w_log w) = true;
  ai_buffer : Forall record_ok (al_buffer (w_log w));
  ai_durable : Forall record_ok (w_durable w);
  ai_model : Forall record_ok (w_model w);
  ai_file : exists rs, ld_file (w_disk w) = Some (records_bytes rs) /\ Forall record_ok rs /\
              log_equiv (replay rs) (replay (w_durable w)) /\
              al_records_on_disk (w_log w) = u64 (Z.of_nat (length rs));
  ai_state : log_equiv (state_of (w_log w)) (replay (w_model w));
  ai_cache : al_live_cache_valid (w_log w) = true -> al_live_cache (w_log w) = live_lists (al_live (w_log w))
}.

Lemma replay_state_ok rs : Forall record_ok rs -> state_ok (replay rs).
Proof.
  intros H. apply fold_apply_ok; [|done]. split; cbn; [|apply map_Forall_empty].
  intros g o b. unfold lookup2. by rewrite lookup_empty.
Qed.

Lemma iter_u64 k n : Nat.iter k (fun n => u64 (n + 1)) (u64 n) = u64 (n + Z.of_nat k).
Proof.
  induction k as [|k IH]; [by rewrite Z.add_0_r|]. rewrite Nat.iter_succ, IH. unfold u64.
  rewrite Zplus_mod_idemp_l. f_equal. lia.
Qed.

(** Opening replays the whole records of the file. *)
Lemma Open_replays rs tail tmp :
  Forall record_ok rs -> (length tail < 40)%nat ->
  exists l', AllocatorLog_Open AllocatorLog_new (mkLogDisk (Some (records_bytes rs ++ tail)) tmp) false true true =
    (true, l', mkLogDisk (Some (records_bytes rs ++ tail)) tmp) /\
    al_enabled l' = true /\ al_buffer l' = [] /\ state_of l' = replay rs /\
    al_records_on_disk l' = u64 (Z.of_nat (length rs)) /\
    (al_live_cache_valid l' = true -> al_live_cache l' = live_lists (al_live l')).
Proof.
  intros Hok Ht. unfold AllocatorLog_Open. cbn [negb ld_file ld_tmp].
  set (l0 := mkAllocatorLog true [] (al_records_on_disk AllocatorLog_new) ∅ ∅ false (al_live_cache AllocatorLog_new)).
  unfold ReplayFileLocked. rewrite replay_loop_records by done.
  eexists. split; [reflexivity|]. destruct (fold_apply_fields l0 rs) as [He _].
  split; [exact He|].
  assert (forall rs l, al_buffer (fold_left ApplyRecordLocked rs l) = al_buffer l) as Hb
    by (clear; induction rs as [|r rs IH]; intros l; cbn; [done|by rewrite IH]).
  assert (forall rs l, al_live_cache_valid l = false -> al_live_cache_valid (fold_left ApplyRecordLocked rs l) = false) as Hv
    by (clear; induction rs as [|r rs IH]; intros l Hl; cbn; [done|by rewrite IH]).
  split; [exact (Hb rs l0)|]. split; [exact (state_of_apply l0 rs)|]. split; [exact (iter_u64 (length rs) 0)|].
  cbn [set_records_on_disk al_live_cache_valid]. by rewrite Hv.
Qed.

Lemma fold_apply_buffer l rs : al_buffer (fold_left ApplyRecordLocked rs l) = al_buffer l.
Proof. revert l. induction rs as [|r rs IH]; intros l; cbn; [done|by rewrite IH]. Qed.

Lemma fold_apply_cache l rs :
  rs <> [] -> al_live_cache_valid (fold_left ApplyRecordLocked rs l) = false.
Proof.
  destruct rs as [|r rs]; [done|]. intros _. cbn.
  assert (forall rs l, al_live_cache_valid l = false -> al_live_cache_valid (fold_left ApplyRecordLocked rs l) = false) as Hv
    by (clear; induction rs as [|r rs IH]; intros l Hl; cbn; [done|by rewrite IH]).
  by apply Hv.
Qed.

(** Folding the buffer in keeps the model and the cache coherent. *)
Lemma fold_buffer_state l M :
  log_equiv (state_of l) (replay M) ->
  log_equiv (state_of (fold_left ApplyRecordLocked (al_buffer l) l)) (replay (M ++ al_buffer l)).
Proof. intros H. by rewrite state_of_apply, replay_app, H. Qed.

Lemma fold_buffer_cache l :
  (al_live_cache_valid l = true -> al_live_cache l = live_lists (al_live l)) ->
  let l' := fold_left ApplyRecordLocked (al_buffer l) l in
  al_live_cache_valid l' = true -> al_live_cache l' = live_lists (al_live l').
Proof.
  intros H. cbn zeta. destruct (al_buffer l) as [|r b] eqn:E; [done|]. by rewrite fold_apply_cache.
Qed.

Lemma al_inv_flush l disk H M can_open l' disk' :
  al_inv (mkWorld l disk H M) -> Flush l disk can_open = (l', disk') ->
  al_inv (mkWorld l' disk' (if can_open then H ++ al_buffer l else H) (if can_open then M ++ al_buffer l else M)).
Proof.
  intros [He Hb Hd Hm (rs & Hf & Hrs & Heq & Hn) Hs Hc]. cbn in *. unfold Flush. rewrite He. cbn [negb orb].
  case_bool_decide as Hnil.
  { intros [= <- <-]. rewrite Hnil, !app_nil_r. split; cbn; destruct can_open; try done; by exists rs. }
  destruct can_open; cbn [negb]; intros [= <- <-].
  2: { split; cbn; try done. by exists rs. }
  destruct (fold_apply_fields l (al_buffer l)) as [He' Hn'].
  split; cbn [w_log w_disk w_durable w_model set_buffer set_records_on_disk al_enabled al_buffer al_records_on_disk
              al_live_cache_valid al_live_cache al_live ld_file].
  - by rewrite He'.
  - done.
  - by apply Forall_app.
  - by apply Forall_app.
  - exists (rs ++ al_buffer l). rewrite Hf. cbn. split_and!.
    + by rewrite records_bytes_app.
    + by apply Forall_app.
    + by rewrite !replay_app, Heq.
    + rewrite Hn', Hn, length_app, Nat2Z.inj_add. unfold u64. by rewrite Zplus_mod_idemp_l.
  - by apply fold_buffer_state.
  - by apply fold_buffer_cache.
Qed.

Lemma al_inv_compact l disk H M can_open can_rename l' disk' :
  al_inv (mkWorld l disk H M) -> Compact l disk can_open can_rename = (l', disk') ->
  al_inv (mkWorld l' disk' (if can_open && can_rename then M ++ al_buffer l else H) (M ++ al_buffer l)).
Proof.
  intros [He Hb Hd Hm (rs & Hf & Hrs & Heq & Hn) Hs Hc]. cbn in *. unfold Compact. rewrite He. cbn [negb].
  destruct (fold_apply_fields l (al_buffer l)) as [He' Hn'].
  pose proof (fold_buffer_state l M Hs) as Hs'. pose proof (fold_buffer_cache l Hc) as Hc'. cbn zeta in Hc'.
  set (l1 := fold_left ApplyRecordLocked (al_buffer l) l) in *.
  assert (Forall record_ok (M ++ al_buffer l)) as HM by (by apply Forall_app).
  assert (state_ok (state_of l1)) as Hok by (eapply state_ok_equiv; [symmetry; exact Hs'|by apply replay_state_ok]).
  destruct can_open; cbn [negb andb]; [destruct can_rename|]; intros [= <- <-];
    (split; cbn [w_log w_disk w_durable w_model set_buffer al_enabled al_buffer al_records_on_disk
                 al_live_cache_valid al_live_cache al_live ld_file]; try done; try congruence).
  - exists (compact_records (set_buffer l1 [])). split_and!.
    + done.
    + by apply compact_records_ok.
    + etransitivity; [by apply replay_compact_records|exact Hs'].
    + done.
  - exists rs. split_and!; try done. congruence.
  - exists rs. split_and!; try done. congruence.
Qed.

Lemma al_step_inv w w' : al_step w w' -> al_inv w -> al_inv w'.
Proof.
  destruct 1 as [l disk H M r Hr|l disk H M can_open l' disk' E|l disk H M can_open can_rename l' disk' E
                |l disk H M g|l disk H M l' disk' E]; intros Hinv.
  - destruct Hinv as [He Hb Hd Hm Hf Hs Hc]. unfold log_record. cbn in *. rewrite He. split; cbn; try done.
    apply Forall_app. split; [done|]. by constructor.
  - by eapply al_inv_flush.
  - by eapply al_inv_compact.
  - destruct Hinv as [He Hb Hd Hm Hf Hs Hc]. cbn in *. unfold RebuildLiveCacheLocked.
    destruct (al_live_cache_valid l) eqn:Ev; split; cbn; try done. by rewrite Ev.
  - destruct Hinv as [He Hb Hd Hm (rs & Hf & Hrs & Heq & Hn) Hs Hc]. cbn [w_log w_disk w_durable w_model] in *.
    destruct disk as [file tmp]. cbn [ld_file] in Hf. subst file.
    destruct (Open_replays rs [] tmp Hrs) as (l1 & Ho & He1 & Hb1 & Hs1 & Hn1 & Hc1); [cbn; lia|].
    rewrite app_nil_r in Ho. rewrite Ho in E. injection E as <- <-.
    split; cbn; try done; [by rewrite Hb1|by exists rs|]. by rewrite Hs1.
Qed.

Definition al_fresh : al_world :=
  mkWorld (mkAllocatorLog true [] 0 ∅ ∅ false ∅) (mkLogDisk (Some []) None) [] [].

Lemma al_fresh_open : AllocatorLog_Open AllocatorLog_new (mkLogDisk None None) false true true =
  (true, w_log al_fresh, w_disk al_fresh).
Proof. done. Qed.

Lemma al_reachable_inv w : rtc al_step al_fresh w -> al_inv w.
Proof.
  intros Hr. enough (forall w w', rtc al_step w w' -> al_inv w -> al_inv w') as H.
  { eapply H; [exact Hr|]. split; cbn; try done; try constructor. exists []. by repeat constructor. }
  clear. induction 1; [done|]. intros. eauto using al_step_inv.
Qed.

(** The accessor lists the model. *)
Lemma AllocatorLog_live_spec l g b :
  (al_live_cache_valid l = true -> al_live_cache l = live_lists (al_live l)) ->
  b ∈ fst (AllocatorLog_live l g) <-> exists o, lookup2 (al_live l) g o = Some b.
Proof.
  intros Hc. unfold AllocatorLog_live. cbn [fst].
  assert (al_live_cache (RebuildLiveCacheLocked l) = live_lists (al_live l)) as ->.
  { unfold RebuildLiveCacheLocked. destruct (al_live_cache_valid l); [by apply Hc|done]. }
  unfold live_lists, lookup2. rewrite lookup_fmap. destruct (al_live l !! g) as [m|]; cbn.
  - rewrite list_elem_of_In, in_map_iff. split.
    + intros ([o b'] & <- & Hin). exists o. by apply list_elem_of_In, elem_of_key_order in Hin.
    + intros [o Ho]. exists (o, b). split; [done|]. by apply list_elem_of_In, elem_of_key_order.
  - split; [by intros ?%elem_of_nil|by intros [? ?]].
Qed.

(** * Properties *)


Definition al_example_records : list AllocLogRecord :=
  [mkAllocLogRecord 1 0 3 0 4096 100 0; mkAllocLogRecord 1 0 3 0 8192 200 0; mkAllocLogRecord 2 0 3 0 4096 100 0].

Definition al_logged : AllocatorLog := fold_left log_record al_example_records (w_log al_fresh).

Definition al_example : al_world :=
  mkWorld (fst (Flush al_logged (w_disk al_fresh) true)) (snd (Flush al_logged (w_disk al_fresh) true))
    al_example_records al_example_records.

Lemma al_example_reachable : rtc al_step al_fresh al_example.
Proof.
  eapply rtc_l; [apply (al_log _ _ _ _ (mkAllocLogRecord 1 0 3 0 4096 100 0)); unfold record_ok; cbn; lia|].
  eapply rtc_l; [apply (al_log _ _ _ _ (mkAllocLogRecord 1 0 3 0 8192 200 0)); unfold record_ok; cbn; lia|].
  eapply rtc_l; [apply (al_log _ _ _ _ (mkAllocLogRecord 2 0 3 0 4096 100 0)); unfold record_ok; cbn; lia|].
  apply rtc_once. apply (al_flush al_logged _ [] [] true). apply surjective_pairing.
Qed.


(** Compaction is minimal and lossless: from every reachable state, a
    successful compaction leaves a file of exactly one record per live group and
    one per live block, which replays to the state before it, buffered records
    included; the buffer is then empty. *)
Theorem Compact_minimal_lossless (w : al_world) :
  rtc al_step al_fresh w ->
  let '(l', disk') := Compact (w_log w) (w_disk w) true true in
  exists rs, ld_file disk' = Some (records_bytes rs) /\
    log_equiv (replay rs) (replay (w_model w ++ al_buffer (w_log w))) /\
    length rs = (length (AllocatorLog_groups l') + length (live_pairs (al_live l')))%nat /\
    file_size disk' = 40 * Z.of_nat (length rs) /\ al_buffer l' = [].
Proof.
  intros Hr. pose proof (al_reachable_inv w Hr) as Hinv.
  destruct w as [l disk H M]. destruct Hinv as [He Hb Hd Hm _ Hs _]. cbn [w_log w_disk w_durable w_model] in *.
  unfold Compact. rewrite He. cbn [negb]. pose proof (fold_buffer_state l M Hs) as Hs'.
  set (l1 := set_buffer (fold_left ApplyRecordLocked (al_buffer l) l) []).
  assert (state_ok (state_of l1)) as Hok.
  { eapply state_ok_equiv; [symmetry; exact Hs'|]. apply replay_state_ok. by apply Forall_app. }
  exists (compact_records l1). split; [done|]. split; [etransitivity; [by apply replay_compact_records|exact Hs']|].
  split; [by rewrite compact_records_eq, length_app, !length_map|]. split; [|done].
  unfold file_size. cbn [ld_file from_option id]. rewrite length_records_bytes. lia.
Qed.

Lemma Compact_minimal_lossless_witness :
  exists rs, ld_file (snd (Compact (w_log al_example) (w_disk al_example) true true)) = Some (records_bytes rs) /\
    log_equiv (replay rs) (replay al_example_records).
Proof.
  pose proof (Compact_minimal_lossless al_example al_example_reachable) as H.
  destruct (Compact (w_log al_example) (w_disk al_example) true true) as [l' disk'].
  destruct H as (rs & Hf & Heq & _). exists rs. split; [exact Hf|]. exact Heq.
Defined.

(** A torn append is ignored: opening any prefix of a log file recovers the
    state of the whole records in it. *)
Theorem torn_tail_ignored (rs : list AllocLogRecord) (n : nat) (tmp : option (list u8)) :
  Forall record_ok rs -> (n <= length (records_bytes rs))%nat ->
  exists l', AllocatorLog_Open AllocatorLog_new (mkLogDisk (Some (take n (records_bytes rs))) tmp) false true true =
    (true, l', mkLogDisk (Some (take n (records_bytes rs))) tmp) /\
    state_of l' = replay (take (Nat.div n 40) rs).
Proof.
  intros Hok Hn. rewrite length_records_bytes in Hn.
  pose proof (Nat.div_mod_eq n 40) as En. pose proof (Nat.mod_upper_bound n 40 ltac:(lia)) as Hm.
  set (q := Nat.div n 40) in *. set (r := Nat.modulo n 40) in *.
  assert (take n (records_bytes rs) = records_bytes (take q rs) ++ take r (records_bytes (drop q rs))) as E.
  { rewrite <- (take_drop q rs) at 1. rewrite records_bytes_app, take_app.
    rewrite length_records_bytes, length_take. rewrite take_ge by (rewrite length_records_bytes, length_take; lia).
    f_equal. f_equal. lia. }
  rewrite E. destruct (Open_replays (take q rs) (take r (records_bytes (drop q rs))) tmp) as (l' & Ho & _ & _ & Hs & _).
  - by apply Forall_take.
  - rewrite length_take. lia.
  - exists l'. split; [exact Ho|exact Hs].
Qed.

Lemma al_example_records_ok : Forall record_ok al_example_records.
Proof. repeat constructor; cbn; lia. Qed.

Lemma torn_tail_ignored_witness :
  exists l', AllocatorLog_Open AllocatorLog_new (mkLogDisk (Some (take 59 (records_bytes al_example_records))) None)
      false true true = (true, l', mkLogDisk (Some (take 59 (records_bytes al_example_records))) None) /\
    state_of l' = replay [mkAllocLogRecord 1 0 3 0 4096 100 0].
Proof. apply (torn_tail_ignored al_example_records 59 None al_example_records_ok). vm_compute. lia. Defined.

(** ... but nothing removes the torn bytes: after a reopen, records that
    are appended and flushed start in the middle of a slot, and the next reopen
    misreads them. Here the block logged and flushed after the crash is gone. *)
Theorem append_after_torn_tail_is_lost :
  let r1 := mkAllocLogRecord 1 0 3 0 4096 100 0 in
  let r2 := mkAllocLogRecord 1 0 3 0 8192 200 0 in
  let r3 := mkAllocLogRecord 1 0 3 0 12288 300 0 in
  exists l disk l' disk' l'' disk'',
    AllocatorLog_Open AllocatorLog_new (mkLogDisk (Some (take 60 (records_bytes [r1; r2]))) None) false true true
      = (true, l, disk) /\
    Flush (LogAlloc l 0 12288 300 3) disk true = (l', disk') /\ al_buffer l' = [] /\
    mkLiveBlock 12288 300 3 ∈ fst (AllocatorLog_live l' 0) /\
    AllocatorLog_Open AllocatorLog_new disk' false true true = (true, l'', disk'') /\
    ~ mkLiveBlock 12288 300 3 ∈ fst (AllocatorLog_live l'' 0).
Proof.
  cbn zeta. do 6 eexists. split; [vm_compute; reflexivity|]. split; [vm_compute; reflexivity|].
  split; [vm_compute; reflexivity|]. split.
  - vm_compute. right. left.
  - split; [vm_compute; reflexivity|]. vm_compute. intros H. repeat (inversion H as [|? ? ? H']; clear H; rename H' into H).
Qed.

(** A compaction that fails to open or rename its temporary file has already
    emptied the buffer: the buffered records are never written, and a later
    flush reports nothing to do. *)
Theorem failed_Compact_drops_buffer :
  exists w w',
    rtc al_step al_fresh w /\ al_step w w' /\
    al_buffer (w_log w) = [mkAllocLogRecord 1 0 3 0 4096 100 0] /\
    Flush (w_log w') (w_disk w') true = (w_log w', w_disk w') /\
    file_size (w_disk w') = 0 /\ lookup2 (al_live (w_log w')) 0 4096 = Some (mkLiveBlock 4096 100 3).
Proof.
  eexists (mkWorld (log_record (w_log al_fresh) (mkAllocLogRecord 1 0 3 0 4096 100 0)) (w_disk al_fresh) [] []), _.
  split.
  - apply rtc_once, (al_log _ _ _ _ (mkAllocLogRecord 1 0 3 0 4096 100 0)). unfold record_ok. cbn. lia.
  - split; [eapply (al_compact _ _ _ _ false false), surjective_pairing|]. cbn. by split_and!.
Qed.
