(* ===== verification/MemberManifest.v ===== *)
(** The member manifest of the safe_bdev container: the write-ahead log of
    member records in [safe_bdev_runtime.cc].

    Every membership change appends a snapshot of all members; a restart keeps
    the last record of each (role, index) slot and stops at the first record it
    cannot read. *)
From Stdlib Require Import ZArith Lia.
From stdpp Require Import base list gmap sorting.
From S2P Require Import Prelude Gf256 ReedSolomon EcArray AllocLog.

Open Scope Z_scope.

(** * Data *)

Record MemberSlot := mkMemberSlot {
  slot_pool_id : Z * Z;
  slot_pool_name : list u8;
  slot_node_id : Z;
  slot_role : EcRole;
  slot_state : EcState;
  slot_index : Z;
  slot_recovering : bool
}.

Record MemberManifestEntry := mkEntry {
  me_role : Z;
  me_index : Z;
  me_pool_major : Z;
  me_pool_minor : Z;
  me_node_id : Z;
  me_state : Z;
  me_recovering : Z;
  me_pool_name : list u8
}.

(** [mm_enabled]: [members_manifest_path_] is not empty; [mm_records]:
    [member_log_records_]. *)
Record Manifest := mkManifest { mm_enabled : bool; mm_records : Z; mm_disk : LogDisk }.

Definition EcState_to_u32 (s : EcState) : Z :=
  match s with kActive => 0 | kFaulty => 1 | kRemoved => 2 end.

(** * Operations *)

Definition put_u32 (v : Z) : list u8 := le_bytes 4 v.

Definition WriteMemberRecord (role : Z) (m : MemberSlot) : list u8 :=
  put_u32 role ++ put_u32 (u32 (slot_index m)) ++ put_u32 (fst (slot_pool_id m)) ++
  put_u32 (snd (slot_pool_id m)) ++ put_u32 (slot_node_id m) ++ put_u32 (EcState_to_u32 (slot_state m)) ++
  put_u32 (if slot_recovering m then 1 else 0) ++ put_u32 (u32 (Z.of_nat (length (slot_pool_name m)))) ++
  slot_pool_name m.

(** One record per current member. *)
Definition snapshot_bytes (data parity : list MemberSlot) : list u8 :=
  concat (map (WriteMemberRecord 0) data) ++ concat (map (WriteMemberRecord 1) parity).

Definition PersistMemberManifest (mm : Manifest) (data parity : list MemberSlot) (can_open : bool) : Manifest :=
  if negb (mm_enabled mm) || negb can_open then mm
  else
    mkManifest (mm_enabled mm) (u64 (mm_records mm + Z.of_nat (length data) + Z.of_nat (length parity)))
      (mkLogDisk (Some (default [] (ld_file (mm_disk mm)) ++ snapshot_bytes data parity)) (ld_tmp (mm_disk mm))).

Definition CompactMemberManifest (mm : Manifest) (data parity : list MemberSlot) (can_open can_rename : bool) : Manifest :=
  if negb (mm_enabled mm) || negb can_open then mm
  else if can_rename then
    mkManifest (mm_enabled mm) (Z.of_nat (length data) + Z.of_nat (length parity))
      (mkLogDisk (Some (snapshot_bytes data parity)) None)
  else mkManifest (mm_enabled mm) (mm_records mm) (mkLogDisk (ld_file (mm_disk mm)) None).

Definition MemberManifestNeedsCompaction (mm : Manifest) (data parity : list MemberSlot) : bool :=
  let live := Z.of_nat (length data) + Z.of_nat (length parity) in
  Z.max 64 (live * 8) <? mm_records mm.

(** One turn of the replay loop; [None] is any of its [break]s. *)
Definition read_entry (bs : list u8) : option (MemberManifestEntry * list u8) :=
  '(role, bs) ← get_le 4 bs;
  if 1 <? role then None
  else
    '(index, bs) ← get_le 4 bs;
    '(pool_major, bs) ← get_le 4 bs;
    '(pool_minor, bs) ← get_le 4 bs;
    '(node_id, bs) ← get_le 4 bs;
    '(state, bs) ← get_le 4 bs;
    '(recovering, bs) ← get_le 4 bs;
    '(name_len, bs) ← get_le 4 bs;
    if 2 ^ 20 <? name_len then None
    else
      '(pool_name, bs) ← get_bytes (Z.to_nat name_len) bs;
      Some (mkEntry role index pool_major pool_minor node_id state recovering pool_name, bs).

Definition entry_key (e : MemberManifestEntry) : Z := Z.lor (Z.shiftl (me_role e) 32) (me_index e).

(** [latest] and [total]; a log of [n] bytes has fuel [n]. *)
Fixpoint load_loop (fuel : nat) (bs : list u8) (latest : gmap Z MemberManifestEntry) (total : Z)
    : gmap Z MemberManifestEntry * Z :=
  match fuel with
  | O => (latest, total)
  | S fuel =>
      match read_entry bs with
      | Some (e, bs) => load_loop fuel bs (<[entry_key e := e]> latest) (u64 (total + 1))
      | None => (latest, total)
      end
  end.

(** The log is absent and a complete temporary file is there: the rename is
    finished. *)
Definition roll_forward (disk : LogDisk) (can_rename : bool) : LogDisk :=
  match ld_file disk, ld_tmp disk with
  | None, Some t => if can_rename then mkLogDisk (Some t) None else disk
  | _, _ => disk
  end.

Definition LoadMemberManifest (mm : Manifest) (can_open can_rename : bool)
    : bool * list MemberManifestEntry * Manifest :=
  if negb (mm_enabled mm) then (false, [], mm)
  else
    let disk := roll_forward (mm_disk mm) can_rename in
    match ld_file disk with
    | Some file =>
        if can_open then
          let '(latest, total) := load_loop (length file) file ∅ 0 in
          let out := map snd (in_key_order latest) in
          (match out with [] => false | _ => true end, out, mkManifest (mm_enabled mm) total disk)
        else (false, [], mkManifest (mm_enabled mm) (mm_records mm) disk)
    | None => (false, [], mkManifest (mm_enabled mm) (mm_records mm) disk)
    end.

(** * The abstract log *)

(** The entry a member's record reads back as. *)
Definition entry_of (role : Z) (m : MemberSlot) : MemberManifestEntry :=
  mkEntry role (u32 (slot_index m)) (fst (slot_pool_id m)) (snd (slot_pool_id m)) (slot_node_id m)
    (EcState_to_u32 (slot_state m)) (if slot_recovering m then 1 else 0) (slot_pool_name m).

Definition member_ok (m : MemberSlot) : Prop :=
  (0 <= fst (slot_pool_id m) < 2 ^ 32) /\ (0 <= snd (slot_pool_id m) < 2 ^ 32) /\
  (0 <= slot_node_id m < 2 ^ 32) /\ Z.of_nat (length (slot_pool_name m)) <= 2 ^ 20.

(** The records of a log, oldest first. *)
Definition tagged : Type := Z * MemberSlot.
Definition tagged_ok (t : tagged) : Prop := (fst t = 0 \/ fst t = 1) /\ member_ok (snd t).
Definition tagged_bytes (t : tagged) : list u8 := WriteMemberRecord (fst t) (snd t).
Definition tagged_entry (t : tagged) : MemberManifestEntry := entry_of (fst t) (snd t).
Definition snapshot (data parity : list MemberSlot) : list tagged := map (pair 0) data ++ map (pair 1) parity.

Definition last_records (ts : list tagged) (latest : gmap Z MemberManifestEntry) : gmap Z MemberManifestEntry :=
  fold_left (fun l t => <[entry_key (tagged_entry t) := tagged_entry t]> l) ts latest.

Definition log_bytes (ts : list tagged) : list u8 := concat (map tagged_bytes ts).

(** * Lemmas *)

Lemma log_bytes_app ts ts' : log_bytes (ts ++ ts') = log_bytes ts ++ log_bytes ts'.
Proof. unfold log_bytes. by rewrite map_app, concat_app. Qed.

Lemma snapshot_log_bytes data parity : snapshot_bytes data parity = log_bytes (snapshot data parity).
Proof. unfold snapshot_bytes, snapshot. rewrite log_bytes_app. unfold log_bytes. by rewrite !map_map. Qed.

Lemma length_WriteMemberRecord role m :
  length (WriteMemberRecord role m) = (32 + length (slot_pool_name m))%nat.
Proof. unfold WriteMemberRecord, put_u32. rewrite !length_app, !length_le_bytes. lia. Qed.

Lemma EcState_to_u32_range s : 0 <= EcState_to_u32 s < 2 ^ 32.
Proof. destruct s; cbn; lia. Qed.

Lemma read_entry_record t rest :
  tagged_ok t -> read_entry (tagged_bytes t ++ rest) = Some (tagged_entry t, rest).
Proof.
  destruct t as [role m]. intros [Hr (Hmaj & Hmin & Hnode & Hname)]. cbn [fst snd] in *.
  unfold tagged_bytes, tagged_entry, read_entry, WriteMemberRecord, put_u32. cbn [fst snd].
  rewrite <- !app_assoc.
  pose proof (u32_range (slot_index m)). pose proof (EcState_to_u32_range (slot_state m)).
  rewrite (u32_small (Z.of_nat (length (slot_pool_name m)))) by lia.
  rewrite get_le_app by (change (256 ^ Z.of_nat 4) with (2 ^ 32); lia). cbn [mbind option_bind].
  destruct (Z.ltb_spec 1 role); [lia|].
  do 7 (rewrite get_le_app by (change (256 ^ Z.of_nat 4) with (2 ^ 32);
                               first [lia | destruct (slot_recovering m); lia]); cbn [mbind option_bind]).
  destruct (Z.ltb_spec (2 ^ 20) (Z.of_nat (length (slot_pool_name m)))); [lia|].
  by rewrite Nat2Z.id, get_bytes_app by done.
Qed.

Lemma get_bytes_extend n bs b rest more :
  get_bytes n bs = Some (b, rest) -> get_bytes n (bs ++ more) = Some (b, rest ++ more).
Proof. intros E. apply get_bytes_Some in E as [-> <-]. rewrite <- app_assoc. by apply get_bytes_app. Qed.

Lemma get_le_extend n bs z rest more :
  get_le n bs = Some (z, rest) -> get_le n (bs ++ more) = Some (z, rest ++ more).
Proof.
  unfold get_le. destruct (get_bytes n bs) as [[b r]|] eqn:E; [|done]. intros [= <- <-].
  by rewrite (get_bytes_extend _ _ _ _ more E).
Qed.

(** A record that reads from a prefix reads the same from the whole log. *)
Lemma read_entry_extend bs e rest more :
  read_entry bs = Some (e, rest) -> read_entry (bs ++ more) = Some (e, rest ++ more).
Proof.
  unfold read_entry. intros H.
  destruct (get_le 4 bs) as [[role bs0]|] eqn:E0; cbn [mbind option_bind] in H; [|done].
  rewrite (get_le_extend _ _ _ _ more E0). cbn [mbind option_bind]. destruct (1 <? role); [done|].
  repeat match type of H with
         | context [get_le 4 ?b] =>
             let z := fresh "z" in let rs := fresh "rs" in let E := fresh "E" in
             destruct (get_le 4 b) as [[z rs]|] eqn:E; cbn [mbind option_bind] in H; [|done];
             rewrite (get_le_extend _ _ _ _ more E); cbn [mbind option_bind]
         end.
  destruct (2 ^ 20 <? _); [done|].
  destruct (get_bytes _ _) as [[b rs']|] eqn:Eb; cbn [mbind option_bind] in H; [|done].
  rewrite (get_bytes_extend _ _ _ _ more Eb). cbn [mbind option_bind]. by injection H as <- <-.
Qed.

(** A record cut short by a crash does not read. *)
Lemma read_entry_torn t n :
  tagged_ok t -> (n < length (tagged_bytes t))%nat -> read_entry (take n (tagged_bytes t)) = None.
Proof.
  intros Ht Hn. destruct (read_entry (take n (tagged_bytes t))) as [[e rest]|] eqn:E; [|done].
  apply (read_entry_extend _ _ _ (drop n (tagged_bytes t))) in E. rewrite take_drop in E.
  pose proof (read_entry_record t [] Ht) as E'. rewrite app_nil_r, E in E'.
  injection E' as _ Hnil. apply app_eq_nil in Hnil as [_ Hd].
  apply (f_equal length) in Hd. rewrite length_drop in Hd. cbn [length] in Hd. lia.
Qed.

Lemma load_loop_log fuel ts tail latest total :
  Forall tagged_ok ts -> read_entry tail = None -> (length (log_bytes ts ++ tail) <= fuel)%nat ->
  load_loop fuel (log_bytes ts ++ tail) latest total =
  (last_records ts latest, Nat.iter (length ts) (fun n => u64 (n + 1)) total).
Proof.
  intros Hok Ht. revert fuel latest total.
  induction Hok as [|t ts Hr Hok IH]; intros fuel latest total Hf.
  - cbn [log_bytes map concat app]. destruct fuel; cbn [load_loop]; [done|]. by rewrite Ht.
  - change (log_bytes (t :: ts)) with (tagged_bytes t ++ log_bytes ts) in *. rewrite <- app_assoc in *.
    rewrite length_app in Hf. unfold tagged_bytes at 1 in Hf. rewrite length_WriteMemberRecord in Hf.
    destruct fuel as [|fuel]; [lia|]. cbn [load_loop]. rewrite read_entry_record by done.
    rewrite IH by lia. cbn [length]. by rewrite Nat.iter_succ_r.
Qed.

(** Keys: (role, index) slots do not collide. *)
Lemma entry_key_eq e :
  0 <= me_role e -> 0 <= me_index e < 2 ^ 32 -> entry_key e = me_role e * 2 ^ 32 + me_index e.
Proof.
  intros Hr Hi. unfold entry_key. rewrite Z.shiftl_mul_pow2 by lia.
  rewrite <- Z.add_lor_land.
  assert (Z.land (me_role e * 2 ^ 32) (me_index e) = 0) as ->; [|lia].
  apply Z.bits_inj'. intros n Hn. rewrite Z.land_spec, Z.bits_0, <- Z.shiftl_mul_pow2, Z.shiftl_spec by lia.
  destruct (decide (n < 32)).
  - rewrite Z.testbit_neg_r by lia. done.
  - rewrite (Z.bits_above_log2 (me_index e) n); [apply andb_false_r|lia|].
    destruct (decide (me_index e = 0)) as [->|]; [cbn; lia|]. apply Z.log2_lt_pow2; [lia|].
    apply Z.lt_le_trans with (2 ^ 32); [lia|]. apply Z.pow_le_mono_r; lia.
Qed.

Lemma tagged_key t : fst t = 0 \/ fst t = 1 -> entry_key (tagged_entry t) = fst t * 2 ^ 32 + u32 (slot_index (snd t)).
Proof.
  intros Hr. unfold tagged_entry, entry_of. rewrite entry_key_eq; cbn [me_role me_index]; [done|lia|apply u32_range].
Qed.

(** Members sit at the position their index names. *)
Definition seated (l : list MemberSlot) : Prop :=
  Z.of_nat (length l) < 2 ^ 32 /\
  forall i m, l !! i = Some m -> slot_index m = Z.of_nat i /\ member_ok m.

Definition snapshot_entries (data parity : list MemberSlot) : list MemberManifestEntry :=
  map (entry_of 0) data ++ map (entry_of 1) parity.

Definition keyed (t : tagged) : Z * MemberManifestEntry := (entry_key (tagged_entry t), tagged_entry t).

(** Slot keys of [n] members of a role. *)
Definition role_keys (role : Z) (n : nat) : list Z := map (fun i => role * 2 ^ 32 + Z.of_nat i) (seq 0 n).

Lemma role_keys_lookup role n i : (i < n)%nat -> role_keys role n !! i = Some (role * 2 ^ 32 + Z.of_nat i).
Proof.
  intros Hi. unfold role_keys. change (map ?f ?l) with (f <$> l).
  by rewrite list_lookup_fmap, lookup_seq_lt by done.
Qed.

Lemma seated_keys role l :
  role = 0 \/ role = 1 -> seated l ->
  map (fun m => entry_key (tagged_entry (role, m))) l = role_keys role (length l).
Proof.
  intros Hr [Hlen Hs]. apply list_eq. intros i. change (map ?f l) with (f <$> l). rewrite list_lookup_fmap.
  destruct (l !! i) as [m|] eqn:E; cbn [fmap option_fmap option_map].
  - pose proof (lookup_lt_Some _ _ _ E). rewrite role_keys_lookup by done. destruct (Hs i m E) as [Hi _].
    rewrite tagged_key by done. cbn [fst snd]. by rewrite Hi, u32_small by lia.
  - symmetry. apply lookup_ge_None_2. unfold role_keys. rewrite length_map, length_seq.
    by apply lookup_ge_None_1.
Qed.

Lemma snapshot_keys data parity :
  seated data -> seated parity ->
  map fst (map keyed (snapshot data parity)) = role_keys 0 (length data) ++ role_keys 1 (length parity).
Proof.
  intros Hd Hp. unfold snapshot. rewrite !map_app, !map_map. cbn [keyed fst].
  rewrite <- (seated_keys 0 data) by tauto. by rewrite <- (seated_keys 1 parity) by tauto.
Qed.

Lemma elem_of_role_keys role n k : k ∈ role_keys role n <-> exists i, (i < n)%nat /\ k = role * 2 ^ 32 + Z.of_nat i.
Proof.
  unfold role_keys. rewrite list_elem_of_In, in_map_iff. setoid_rewrite in_seq.
  split; intros (i & H1 & H2); exists i; intuition lia.
Qed.

Lemma role_keys_mono role n n' : (n <= n')%nat -> role_keys role n ⊆ role_keys role n'.
Proof. intros Hn k. rewrite !elem_of_role_keys. intros (i & Hi & ->). exists i. split; [lia|done]. Qed.

Lemma role_keys_sorted role n : StronglySorted Z.lt (role_keys role n).
Proof.
  unfold role_keys. generalize 0%nat. induction n as [|n IH]; intros b; cbn; constructor; [apply IH|].
  apply Forall_forall. intros x. rewrite list_elem_of_In, in_map_iff. intros (i & <- & Hi).
  apply in_seq in Hi. lia.
Qed.

Lemma snapshot_keys_sorted n p :
  Z.of_nat n < 2 ^ 32 -> StronglySorted Z.lt (role_keys 0 n ++ role_keys 1 p).
Proof.
  intros Hn. apply StronglySorted_app_2.
  - intros x y. rewrite !elem_of_role_keys. intros (i & Hi & ->) (j & Hj & ->). lia.
  - apply role_keys_sorted.
  - apply role_keys_sorted.
Qed.

Lemma StronglySorted_lt_NoDup l : StronglySorted Z.lt l -> NoDup l.
Proof.
  induction 1 as [|x l Hs IH Hf]; constructor; [|done]. intros Hx.
  rewrite Forall_forall in Hf. specialize (Hf x Hx). lia.
Qed.

(** A map that holds exactly a key-sorted association list reads back as it. *)
Lemma in_key_order_sorted {A} (l : list (Z * A)) :
  StronglySorted Z.lt (map fst l) -> in_key_order (list_to_map l) = l.
Proof.
  intros Hs. pose proof (StronglySorted_lt_NoDup _ Hs) as Hnd. unfold in_key_order.
  assert (Permutation (map_to_list (list_to_map l : gmap Z A)) l) as Hperm by (by apply map_to_list_to_map).
  assert (Permutation (merge_sort key_le (map_to_list (list_to_map l : gmap Z A))) l) as Hperm'
    by (by rewrite merge_sort_Permutation).
  apply (StronglySorted_unique_strong key_le); [| | |exact Hperm'].
  - intros [k1 v1] [k2 v2] H1 H2 H12 H21. unfold key_le in *. cbn [fst] in *.
    rewrite Hperm' in H1. assert (k1 = k2) as -> by lia. f_equal.
    apply (elem_of_list_to_map_1 l) in H1; [|done]. apply (elem_of_list_to_map_1 l) in H2; [|done].
    congruence.
  - apply StronglySorted_merge_sort; [intros [] [] [] ? ?; unfold key_le in *; cbn in *; lia|].
    intros [] []; unfold key_le; cbn; lia.
  - clear -Hs. induction l as [|[k v] l IH]; [constructor|]. cbn in Hs. apply StronglySorted_inv in Hs as [Hs Hf].
    constructor; [by apply IH|]. apply Forall_forall. intros [k' v'] Hin. unfold key_le. cbn.
    apply Z.lt_le_incl. apply (proj1 (Forall_forall _ _) Hf). apply list_elem_of_In, in_map_iff. exists (k', v').
    by rewrite <- list_elem_of_In.
Qed.

Lemma last_records_app ts ts' l : last_records (ts ++ ts') l = last_records ts' (last_records ts l).
Proof. apply fold_left_app. Qed.

Lemma last_records_lookup_old ts l k :
  k ∉ map fst (map keyed ts) -> last_records ts l !! k = l !! k.
Proof.
  revert l. induction ts as [|t ts IH]; intros l Hk; [done|]. cbn [map keyed fst] in Hk.
  apply not_elem_of_cons in Hk as [Hk1 Hk]. change (last_records (t :: ts) l)
    with (last_records ts (<[entry_key (tagged_entry t) := tagged_entry t]> l)).
  rewrite IH by done. by rewrite lookup_insert_ne.
Qed.

Lemma last_records_lookup_new ts l k :
  NoDup (map fst (map keyed ts)) -> k ∈ map fst (map keyed ts) ->
  last_records ts l !! k = list_to_map (M := gmap Z MemberManifestEntry) (map keyed ts) !! k.
Proof.
  revert l. induction ts as [|t ts IH]; intros l Hnd Hk; [by apply not_elem_of_nil in Hk|].
  cbn [map keyed fst] in *. apply NoDup_cons in Hnd as [Hn Hnd].
  change (last_records (t :: ts) l) with (last_records ts (<[entry_key (tagged_entry t) := tagged_entry t]> l)).
  cbn [list_to_map foldr]. destruct (decide (k = entry_key (tagged_entry t))) as [->|Hne].
  - rewrite last_records_lookup_old by done. cbn. by rewrite !lookup_insert_eq.
  - apply elem_of_cons in Hk as [|Hk]; [done|]. cbn. rewrite lookup_insert_ne by done. by apply IH.
Qed.

(** A log of distinct keys that covers the older records replaces them. *)
Lemma last_records_cover ts l :
  NoDup (map fst (map keyed ts)) -> (forall k, is_Some (l !! k) -> k ∈ map fst (map keyed ts)) ->
  last_records ts l = list_to_map (map keyed ts).
Proof.
  intros Hnd Hcov. apply map_eq. intros k.
  destruct (decide (k ∈ map fst (map keyed ts))) as [Hk|Hk]; [by apply last_records_lookup_new|].
  rewrite last_records_lookup_old by done. rewrite (not_elem_of_list_to_map_1 _ _ Hk).
  destruct (l !! k) eqn:E; [|done]. exfalso. apply Hk, Hcov. by rewrite E.
Qed.

(** A log that replaces the first part of an association list. *)
Lemma last_records_prefix ts o1 o2 :
  map fst (map keyed ts) = map fst (map keyed o1) -> NoDup (map fst (map keyed (o1 ++ o2))) ->
  last_records ts (list_to_map (map keyed (o1 ++ o2))) = list_to_map (map keyed (ts ++ o2)).
Proof.
  intros Hk Hnd. rewrite !map_app in Hnd. apply NoDup_app in Hnd as (Hnd1 & Hdisj & _).
  rewrite !map_app, !list_to_map_app. apply map_eq. intros k.
  destruct (decide (k ∈ map fst (map keyed ts))) as [Hin|Hin].
  - rewrite last_records_lookup_new by first [exact Hin | by rewrite Hk]. symmetry. apply lookup_union_l'.
    assert (NoDup (map fst (map keyed ts))) as Hndt by (by rewrite Hk).
    apply list_elem_of_In, in_map_iff in Hin as ((k' & v) & <- & Hv). exists v.
    apply elem_of_list_to_map_1; [exact Hndt|by apply list_elem_of_In].
  - rewrite last_records_lookup_old by done. pose proof Hin as Hin'. rewrite Hk in Hin'.
    rewrite !lookup_union_r; [done| |]; apply not_elem_of_list_to_map_1; first [exact Hin | exact Hin'].
Qed.

Lemma last_records_dom ts l k :
  is_Some (last_records ts l !! k) -> k ∈ map fst (map keyed ts) \/ is_Some (l !! k).
Proof.
  intros H. destruct (decide (k ∈ map fst (map keyed ts))) as [|Hk]; [by left|right].
  by rewrite last_records_lookup_old in H.
Qed.

Lemma snapshot_tagged_ok data parity : seated data -> seated parity -> Forall tagged_ok (snapshot data parity).
Proof.
  intros [_ Hd] [_ Hp]. unfold snapshot. apply Forall_app. split; apply Forall_forall; intros t;
    rewrite list_elem_of_In, in_map_iff; intros (m & <- & Hm);
    apply list_elem_of_In, list_elem_of_lookup in Hm as [i Hi].
  - split; [by left|]. by apply (Hd i m).
  - split; [by right|]. by apply (Hp i m).
Qed.

(** * Histories *)

(** The manifest with the members of its last complete snapshot. *)
Definition mm_state : Type := Manifest * list MemberSlot * list MemberSlot.

(** Members are only ever appended; each snapshot is of the current members. A
    compaction can fail to open its file or to rename it. *)
Inductive mm_step : mm_state -> mm_state -> Prop :=
| mm_persist mm d p d' p' :
    seated d' -> seated p' -> (length d <= length d')%nat -> (length p <= length p')%nat ->
    mm_step (mm, d, p) (PersistMemberManifest mm d' p' true, d', p')
| mm_persist_unopened mm d p d' p' :
    mm_step (mm, d, p) (PersistMemberManifest mm d' p' false, d, p)
| mm_compact mm d p d' p' can_open can_rename :
    seated d' -> seated p' -> (length d <= length d')%nat -> (length p <= length p')%nat ->
    mm_step (mm, d, p)
      (CompactMemberManifest mm d' p' can_open can_rename,
       if can_open && can_rename then d' else d, if can_open && can_rename then p' else p).

Definition mm_fresh : mm_state := (mkManifest true 0 (mkLogDisk None None), [], []).

(** The file is a log of whole records whose last records are the snapshot's. *)
Record mm_inv (st : mm_state) : Prop := {
  mi_enabled : mm_enabled (st.1.1) = true;
  mi_data : seated st.1.2;
  mi_parity : seated st.2;
  mi_log : exists ts, default [] (ld_file (mm_disk st.1.1)) = log_bytes ts /\ Forall tagged_ok ts /\
             last_records ts ∅ = list_to_map (map keyed (snapshot st.1.2 st.2)) /\
             (ld_file (mm_disk st.1.1) = None -> st.1.2 = [] /\ st.2 = [])
}.

Lemma seated_nil : seated [].
Proof. split; [cbn; lia|]. intros i m E. by rewrite lookup_nil in E. Qed.

Lemma mm_fresh_inv : mm_inv mm_fresh.
Proof. split; cbn; [done|apply seated_nil|apply seated_nil|]. exists []. by repeat split. Qed.

Lemma snapshot_keys_NoDup d p : seated d -> seated p -> NoDup (map fst (map keyed (snapshot d p))).
Proof.
  intros Hd Hp. rewrite snapshot_keys by done. apply StronglySorted_lt_NoDup, snapshot_keys_sorted, Hd.
Qed.

Lemma snapshot_replaces ts d p d' p' :
  last_records ts ∅ = list_to_map (map keyed (snapshot d p)) ->
  seated d -> seated p -> seated d' -> seated p' -> (length d <= length d')%nat -> (length p <= length p')%nat ->
  last_records (ts ++ snapshot d' p') ∅ = list_to_map (map keyed (snapshot d' p')).
Proof.
  intros Hts Hd Hp Hd' Hp' Hld Hlp. rewrite last_records_app, Hts.
  apply last_records_cover; [by apply snapshot_keys_NoDup|].
  intros k [e He]. apply elem_of_list_to_map_2 in He.
  assert (k ∈ map fst (map keyed (snapshot d p))) as Hk
    by (apply list_elem_of_In, in_map_iff; exists (k, e); by rewrite <- list_elem_of_In).
  rewrite snapshot_keys in * by done. apply elem_of_app in Hk as [Hk|Hk]; apply elem_of_app.
  - left. by apply (role_keys_mono 0 (length d)).
  - right. by apply (role_keys_mono 1 (length p)).
Qed.

Lemma mm_step_inv st st' : mm_step st st' -> mm_inv st -> mm_inv st'.
Proof.
  intros Hstep [Hen Hd Hp (ts & Hf & Hok & Hts & Hnone)].
  destruct Hstep as [mm d p d' p' Hd' Hp' Hld Hlp|mm d p d' p'|mm d p d' p' o r Hd' Hp' Hld Hlp]; cbn [fst snd] in *.
  - unfold PersistMemberManifest. rewrite Hen. cbn. split; cbn; [done|done|done|].
    exists (ts ++ snapshot d' p'). rewrite log_bytes_app, Hf, snapshot_log_bytes. split; [done|].
    split; [apply Forall_app; split; [done|by apply snapshot_tagged_ok]|].
    split; [by eapply snapshot_replaces|done].
  - unfold PersistMemberManifest. rewrite orb_true_r. split; cbn; [done|done|done|]. by exists ts.
  - unfold CompactMemberManifest. rewrite Hen. destruct o, r; cbn; split; cbn; try done; try by exists ts.
    exists (snapshot d' p'). rewrite snapshot_log_bytes. split; [done|].
    split; [by apply snapshot_tagged_ok|]. split; [|done].
    apply last_records_cover; [by apply snapshot_keys_NoDup|]. intros k [e He]. by rewrite lookup_empty in He.
Qed.

Lemma mm_reachable_inv st : rtc mm_step mm_fresh st -> mm_inv st.
Proof. intros H. pattern st. eapply rtc_ind_r; [apply mm_fresh_inv| |exact H]. intros s s' _ Hs. by apply mm_step_inv. Qed.

Lemma snapshot_in_key_order d p :
  seated d -> seated p -> map snd (in_key_order (list_to_map (map keyed (snapshot d p)))) = snapshot_entries d p.
Proof.
  intros Hd Hp. rewrite in_key_order_sorted by (rewrite snapshot_keys by done; apply snapshot_keys_sorted, Hd).
  unfold snapshot, snapshot_entries. by rewrite !map_app, !map_map.
Qed.

(** Loading a log with an unreadable tail. *)
Lemma Load_log mm ts tail r :
  mm_enabled mm = true -> ld_file (mm_disk mm) = Some (log_bytes ts ++ tail) ->
  Forall tagged_ok ts -> read_entry tail = None ->
  fst (LoadMemberManifest mm true r) =
  (match map snd (in_key_order (last_records ts ∅)) with [] => false | _ => true end,
   map snd (in_key_order (last_records ts ∅))).
Proof.
  intros Hen Hf Hok Ht. unfold LoadMemberManifest. rewrite Hen. cbn [negb]. unfold roll_forward. rewrite Hf.
  rewrite Hf. by rewrite load_loop_log.
Qed.

(** A prefix of a log is whole records and an unreadable tail. *)
Lemma log_prefix ts n :
  Forall tagged_ok ts ->
  exists j tail, take n (log_bytes ts) = log_bytes (take j ts) ++ tail /\ read_entry tail = None.
Proof.
  intros Hok. destruct (take_concat_map tagged_bytes ts n) as (j & _ & _ & E & Hlt). exists j; eexists. split; [exact E|].
  destruct (ts !! j) as [t|] eqn:Et; [|done]. apply read_entry_torn; [|by apply Hlt].
  rewrite Forall_lookup in Hok. by apply (Hok j).
Qed.

(** * Properties *)


Definition example_member (i : Z) (s : EcState) : MemberSlot :=
  mkMemberSlot (512, i) (map byte_of_nat [100; 105; 115; 107]%nat) 3 kData s i false.

Definition example_data0 : list MemberSlot := [example_member 0 kActive].
Definition example_data1 : list MemberSlot := [example_member 0 kFaulty; example_member 1 kActive].
Definition example_parity : list MemberSlot := [mkMemberSlot (512, 9) [] 3 kParity kActive 0 true].

Lemma example_seated : seated example_data0 /\ seated example_data1 /\ seated example_parity.
Proof.
  split; [|split]; (split; [cbn; lia|]); intros i m E;
    repeat (destruct i as [|i]; [injection E as <-; cbn; unfold member_ok; cbn; lia|]); by destruct i.
Qed.

Definition example_manifest : Manifest :=
  PersistMemberManifest (PersistMemberManifest (fst (fst mm_fresh)) example_data0 [] true)
    example_data1 example_parity true.

Lemma example_manifest_reachable : rtc mm_step mm_fresh (example_manifest, example_data1, example_parity).
Proof.
  destruct example_seated as (H0 & H1 & Hp).
  eapply rtc_l; [apply (mm_persist _ [] [] example_data0 []); [done|apply seated_nil|cbn; lia|cbn; lia]|].
  eapply rtc_l; [apply (mm_persist _ example_data0 [] example_data1 example_parity); [done|done|cbn; lia|cbn; lia]|].
  apply rtc_refl.
Qed.


(** A crash in the middle of an append, at any byte, loses nothing: the
    snapshot is replaced member by member, so that a restart sees the new
    record of the members before some position and the old record of the others. *)
Theorem Persist_torn_mixes_snapshots (mm : Manifest) (data parity data' parity' : list MemberSlot) (n : nat) (r : bool) :
  rtc mm_step mm_fresh (mm, data, parity) ->
  seated data' -> seated parity' -> length data' = length data -> length parity' = length parity ->
  let disk := mkLogDisk (Some (default [] (ld_file (mm_disk mm)) ++ take n (snapshot_bytes data' parity')))
                (ld_tmp (mm_disk mm)) in
  exists j, snd (fst (LoadMemberManifest (mkManifest true 0 disk) true r)) =
    take j (snapshot_entries data' parity') ++ drop j (snapshot_entries data parity).
Proof.
  intros Hr Hd' Hp' Hld Hlp. rewrite snapshot_log_bytes. intros disk.
  destruct (mm_reachable_inv _ Hr) as [Hen Hd Hp (ts & Hf & Hok & Hts & _)]. cbn [fst snd] in *.
  pose proof (snapshot_tagged_ok _ _ Hd' Hp') as Hok'.
  destruct (log_prefix _ n Hok') as (j & tail & E & Htail).
  exists j. rewrite (Load_log _ (ts ++ take j (snapshot data' parity')) tail); [|done| | |done].
  2: { cbn. by rewrite Hf, E, log_bytes_app, app_assoc. }
  2: { apply Forall_app. split; [done|by apply Forall_take]. }
  cbn [snd]. rewrite last_records_app, Hts, <- (take_drop j (snapshot data parity)), last_records_prefix.
  2: { pose proof (snapshot_keys _ _ Hd' Hp') as Hk. rewrite Hld, Hlp, <- (snapshot_keys _ _ Hd Hp) in Hk.
       apply (f_equal (take j)) in Hk. by rewrite !firstn_map in Hk. }
  2: { rewrite take_drop. by apply snapshot_keys_NoDup. }
  rewrite in_key_order_sorted.
  - rewrite !map_app, <- !firstn_map, <- !skipn_map. unfold snapshot, snapshot_entries. by rewrite !map_app, !map_map.
  - pose proof (snapshot_keys _ _ Hd Hp) as Hk. pose proof (snapshot_keys _ _ Hd' Hp') as Hk'.
    rewrite Hld, Hlp, <- Hk in Hk'. rewrite !map_app, <- !firstn_map, <- !skipn_map, Hk', take_drop, Hk.
    apply snapshot_keys_sorted, Hd.
Qed.

Lemma Persist_torn_mixes_snapshots_witness :
  exists j, snd (fst (LoadMemberManifest
    (mkManifest true 0 (mkLogDisk (Some (default [] (ld_file (mm_disk example_manifest)) ++
       take 50 (snapshot_bytes [example_member 0 kActive; example_member 1 kFaulty] example_parity)))
       (ld_tmp (mm_disk example_manifest)))) true false)) =
    take j (snapshot_entries [example_member 0 kActive; example_member 1 kFaulty] example_parity) ++
    drop j (snapshot_entries example_data1 example_parity).
Proof.
  destruct example_seated as (_ & _ & Hp).
  assert (seated [example_member 0 kActive; example_member 1 kFaulty]) as Hd.
  { split; [cbn; lia|]. intros i m E.
    repeat (destruct i as [|i]; [injection E as <-; cbn; unfold member_ok; cbn; lia|]); by destruct i. }
  apply (Persist_torn_mixes_snapshots example_manifest example_data1 example_parity
    [example_member 0 kActive; example_member 1 kFaulty] example_parity 50 false example_manifest_reachable);
    [exact Hd|exact Hp|reflexivity|reflexivity].
Defined.
