(* ===== verification/Superblock.v ===== *)
(** The member superblock: [safe_bdev/safe_bdev_superblock.h] and the superblock
    helpers of [safe_bdev_runtime.cc].

    The struct is copied to and from the device as raw little-endian bytes; the
    four bytes of tail padding are an argument, since C++ leaves them
    unspecified. *)
From Stdlib Require Import ZArith Lia.
From coqutil Require Import Byte.
From stdpp Require Import base list.
From S2P Require Import Prelude.

Open Scope Z_scope.

Definition kMemberSuperblockMagic : Z := 0x53414645424456.
Definition kMemberSuperblockVersion : Z := 1.

Record MemberSuperblock := mkSuperblock {
  sb_magic : Z;
  sb_format_version : Z;
  sb_flags : Z;
  sb_array_major : Z;
  sb_array_minor : Z;
  sb_member_slot : Z;
  sb_role : Z;
  sb_index : Z;
  sb_max_failures : Z;
  sb_shard_len : Z;
  sb_epoch : Z;
  sb_checksum : Z
}.

(** The 64 bytes before the checksum field. *)
Definition prefix_bytes (sb : MemberSuperblock) : list u8 :=
  le_bytes 8 (sb_magic sb) ++ le_bytes 4 (sb_format_version sb) ++ le_bytes 4 (sb_flags sb) ++
  le_bytes 8 (sb_array_major sb) ++ le_bytes 8 (sb_array_minor sb) ++ le_bytes 4 (sb_member_slot sb) ++
  le_bytes 4 (sb_role sb) ++ le_bytes 4 (sb_index sb) ++ le_bytes 4 (sb_max_failures sb) ++
  le_bytes 8 (sb_shard_len sb) ++ le_bytes 8 (sb_epoch sb).

(** [uint32_t sum; for each byte: sum += byte]. *)
Definition additive_sum (bs : list u8) : Z := fold_left (fun sum b => u32 (sum + byte.unsigned b)) bs 0.

Definition ComputeChecksum (sb : MemberSuperblock) : Z := additive_sum (prefix_bytes sb).

Definition Validate (sb : MemberSuperblock) : bool :=
  (sb_magic sb =? kMemberSuperblockMagic) && (sb_format_version sb =? kMemberSuperblockVersion) &&
  (sb_checksum sb =? ComputeChecksum sb).

Definition superblock_bytes (sb : MemberSuperblock) (padding : list u8) : list u8 :=
  prefix_bytes sb ++ le_bytes 4 (sb_checksum sb) ++ padding.

(** [memcpy(&sb, buf, sizeof(sb))]. *)
Definition parse_superblock (bs : list u8) : option MemberSuperblock :=
  '(magic, bs) ← get_le 8 bs;
  '(format_version, bs) ← get_le 4 bs;
  '(flags, bs) ← get_le 4 bs;
  '(array_major, bs) ← get_le 8 bs;
  '(array_minor, bs) ← get_le 8 bs;
  '(member_slot, bs) ← get_le 4 bs;
  '(role, bs) ← get_le 4 bs;
  '(index, bs) ← get_le 4 bs;
  '(max_failures, bs) ← get_le 4 bs;
  '(shard_len, bs) ← get_le 8 bs;
  '(epoch, bs) ← get_le 8 bs;
  '(checksum, bs) ← get_le 4 bs;
  '(padding, bs) ← get_bytes 4 bs;
  Some (mkSuperblock magic format_version flags array_major array_minor member_slot role index
          max_failures shard_len epoch checksum).

(** What [WriteSuperblock] puts in the member's superblock area. *)
Definition stamp (array_major array_minor member_slot role index max_failures shard_len : Z) : MemberSuperblock :=
  let sb := mkSuperblock kMemberSuperblockMagic kMemberSuperblockVersion 0 array_major array_minor
              member_slot role index max_failures shard_len 0 0 in
  mkSuperblock (sb_magic sb) (sb_format_version sb) (sb_flags sb) (sb_array_major sb) (sb_array_minor sb)
    (sb_member_slot sb) (sb_role sb) (sb_index sb) (sb_max_failures sb) (sb_shard_len sb) (sb_epoch sb)
    (ComputeChecksum sb).

Definition superblock_buffer (area : nat) (sb : MemberSuperblock) (padding : list u8) : list u8 :=
  superblock_bytes sb padding ++ replicate (area - 72) Byte.x00.

(** What [ReadSuperblock] does with the bytes it read: the superblock, and
    whether one is present. *)
Definition superblock_of_buffer (buf : list u8) : option (MemberSuperblock * bool) :=
  match parse_superblock buf with
  | Some sb => Some (sb, Validate sb)
  | None => None
  end.

(** * Lemmas *)

Definition superblock_ok (sb : MemberSuperblock) : Prop :=
  (0 <= sb_magic sb < 2 ^ 64) /\ (0 <= sb_format_version sb < 2 ^ 32) /\ (0 <= sb_flags sb < 2 ^ 32) /\
  (0 <= sb_array_major sb < 2 ^ 64) /\ (0 <= sb_array_minor sb < 2 ^ 64) /\ (0 <= sb_member_slot sb < 2 ^ 32) /\
  (0 <= sb_role sb < 2 ^ 32) /\ (0 <= sb_index sb < 2 ^ 32) /\ (0 <= sb_max_failures sb < 2 ^ 32) /\
  (0 <= sb_shard_len sb < 2 ^ 64) /\ (0 <= sb_epoch sb < 2 ^ 64) /\ (0 <= sb_checksum sb < 2 ^ 32).

Lemma length_prefix_bytes sb : length (prefix_bytes sb) = 64%nat.
Proof. unfold prefix_bytes. by rewrite !length_app, !length_le_bytes. Qed.

Lemma parse_superblock_bytes sb padding rest :
  superblock_ok sb -> length padding = 4%nat ->
  parse_superblock (superblock_bytes sb padding ++ rest) = Some sb.
Proof.
  intros (? & ? & ? & ? & ? & ? & ? & ? & ? & ? & ? & ?) Hp.
  unfold parse_superblock, superblock_bytes, prefix_bytes. rewrite <- !app_assoc.
  do 12 (rewrite get_le_app by done; cbn [mbind option_bind]).
  rewrite get_bytes_app by done. cbn [mbind option_bind]. by destruct sb.
Qed.

(** Parsing is injective: the bytes are those of the parsed superblock. *)
Lemma parse_superblock_Some bs sb :
  parse_superblock bs = Some sb ->
  exists padding rest, bs = superblock_bytes sb padding ++ rest /\ superblock_ok sb /\ length padding = 4%nat.
Proof.
  unfold parse_superblock. intros H.
  repeat match type of H with
         | context [get_le ?n ?b] =>
             let z := fresh "z" in let rs := fresh "rs" in let E := fresh "E" in
             destruct (get_le n b) as [[z rs]|] eqn:E; cbn [mbind option_bind] in H; [|done];
             apply get_le_Some in E as [-> ?]
         end.
  match type of H with
  | context [get_bytes 4 ?b] => destruct (get_bytes 4 b) as [[padding rest]|] eqn:E; cbn [mbind option_bind] in H; [|done]
  end.
  apply get_bytes_Some in E as [-> Hp]. injection H as <-. exists padding, rest.
  unfold superblock_bytes, prefix_bytes, superblock_ok.
  cbn [sb_magic sb_format_version sb_flags sb_array_major sb_array_minor sb_member_slot sb_role sb_index
       sb_max_failures sb_shard_len sb_epoch sb_checksum].
  rewrite <- !app_assoc. split; [done|].
  change (2 ^ 32) with (256 ^ Z.of_nat 4). change (2 ^ 64) with (256 ^ Z.of_nat 8). tauto.
Qed.

Lemma parse_superblock_total bs : (72 <= length bs)%nat -> exists sb, parse_superblock bs = Some sb.
Proof.
  intros Hl. unfold parse_superblock.
  repeat match goal with
         | |- context [get_le ?n ?b] =>
             let z := fresh "z" in let rs := fresh "rs" in let Hl' := fresh "Hl" in
             destruct (get_le_total n b) as (z & rs & -> & Hl'); [lia|]; cbn [mbind option_bind]
         end.
  match goal with
  | |- context [get_bytes ?n ?b] =>
      destruct (get_bytes_total n b) as (pad & rest & -> & _); [lia|]; cbn [mbind option_bind]
  end.
  eauto.
Qed.

Lemma additive_sum_spec bs : additive_sum bs = u32 (zsum byte.unsigned bs).
Proof.
  unfold additive_sum. enough (forall s, fold_left (fun sum b => u32 (sum + byte.unsigned b)) bs (u32 s) =
    u32 (s + zsum byte.unsigned bs)) as H by exact (H 0).
  induction bs as [|b bs IH]; intros s; cbn [fold_left]; [by rewrite Z.add_0_r|].
  assert (u32 (u32 s + byte.unsigned b) = u32 (s + byte.unsigned b)) as -> by (unfold u32; apply Zplus_mod_idemp_l).
  rewrite IH, zsum_cons. f_equal. lia.
Qed.

Lemma zsum_insert (bs : list u8) i x b :
  bs !! i = Some b -> zsum byte.unsigned (<[i:=x]> bs) = zsum byte.unsigned bs + byte.unsigned x - byte.unsigned b.
Proof.
  revert i. induction bs as [|b0 bs IH]; intros i Hi; [done|]. destruct i as [|i]; cbn in Hi |- *.
  - simplify_eq. unfold zsum. cbn. lia.
  - change (zsum byte.unsigned (b0 :: <[i:=x]> bs) = zsum byte.unsigned (b0 :: bs) + byte.unsigned x - byte.unsigned b).
    rewrite !zsum_cons, IH by done. lia.
Qed.

(** A byte that changes changes the sum modulo 2^32. *)
Lemma additive_sum_insert (bs : list u8) i x b :
  bs !! i = Some b -> x <> b -> additive_sum (<[i:=x]> bs) <> additive_sum bs.
Proof.
  intros Hi Hx. rewrite !additive_sum_spec, (zsum_insert bs i x b) by done. unfold u32. intros E.
  pose proof (byte.unsigned_range x). pose proof (byte.unsigned_range b).
  assert (byte.unsigned x <> byte.unsigned b) as Hne by (intros E'; by apply Hx, byte.unsigned_inj).
  set (s := zsum byte.unsigned bs) in *.
  pose proof (Z.div_mod (s + byte.unsigned x - byte.unsigned b) (2 ^ 32) ltac:(lia)).
  pose proof (Z.div_mod s (2 ^ 32) ltac:(lia)).
  assert (2 ^ 32 * ((s + byte.unsigned x - byte.unsigned b) / 2 ^ 32 - s / 2 ^ 32) =
          byte.unsigned x - byte.unsigned b) as Hd by lia.
  destruct (Z.lt_trichotomy ((s + byte.unsigned x - byte.unsigned b) / 2 ^ 32 - s / 2 ^ 32) 0) as [?|[E0|?]]; lia.
Qed.

Lemma Validate_bytes sb : Validate sb = true -> sb_checksum sb = additive_sum (prefix_bytes sb).
Proof. unfold Validate. rewrite !andb_true_iff, !Z.eqb_eq. by intros [_ ->]. Qed.

Lemma Validate_stamp major minor slot role index m len : Validate (stamp major minor slot role index m len) = true.
Proof.
  unfold Validate. apply andb_true_iff. split; [apply andb_true_iff; split; by apply Z.eqb_eq|]. apply Z.eqb_eq.
  unfold stamp at 1. cbn [sb_checksum]. unfold ComputeChecksum. f_equal.
Qed.

Lemma stamp_ok major minor slot role index m len :
  0 <= major < 2 ^ 64 -> 0 <= minor < 2 ^ 64 -> 0 <= slot < 2 ^ 32 -> 0 <= role < 2 ^ 32 ->
  0 <= index < 2 ^ 32 -> 0 <= m < 2 ^ 32 -> 0 <= len < 2 ^ 64 ->
  superblock_ok (stamp major minor slot role index m len).
Proof.
  intros. unfold superblock_ok, stamp. cbn [sb_magic sb_format_version sb_flags sb_array_major sb_array_minor
    sb_member_slot sb_role sb_index sb_max_failures sb_shard_len sb_epoch sb_checksum].
  unfold kMemberSuperblockMagic, kMemberSuperblockVersion. split_and!; try lia;
    unfold ComputeChecksum; rewrite additive_sum_spec; apply u32_range.
Qed.

(** * Properties *)

(** Superblock round trip: the buffer [WriteSuperblock] writes reads back as
    a present superblock with the array's identity, whatever the struct's padding
    holds, and a blank member (all zeros) has none. *)
Theorem superblock_roundtrip (area : nat) (major minor slot role index m len : Z) (padding : list u8) :
  0 <= major < 2 ^ 64 -> 0 <= minor < 2 ^ 64 -> 0 <= slot < 2 ^ 32 -> 0 <= role < 2 ^ 32 ->
  0 <= index < 2 ^ 32 -> 0 <= m < 2 ^ 32 -> 0 <= len < 2 ^ 64 -> length padding = 4%nat -> (72 <= area)%nat ->
  let sb := stamp major minor slot role index m len in
  superblock_of_buffer (superblock_buffer area sb padding) = Some (sb, true) /\
  length (superblock_buffer area sb padding) = area /\
  exists sb0, superblock_of_buffer (replicate area Byte.x00) = Some (sb0, false).
Proof.
  intros Hmaj Hmin Hslot Hrole Hidx Hm Hlen Hp Ha. cbn zeta. split; [|split].
  - unfold superblock_of_buffer, superblock_buffer.
    rewrite parse_superblock_bytes; [|apply stamp_ok; assumption|exact Hp]. do 2 f_equal.
    apply Validate_stamp.
  - unfold superblock_buffer, superblock_bytes. rewrite !length_app, length_prefix_bytes, length_le_bytes, Hp, length_replicate. lia.
  - assert (replicate area Byte.x00 = superblock_bytes (mkSuperblock 0 0 0 0 0 0 0 0 0 0 0 0) (replicate 4 Byte.x00)
      ++ replicate (area - 72) Byte.x00) as ->.
    { replace area with (72 + (area - 72))%nat at 1 by lia. rewrite replicate_add. apply (f_equal (fun l => l ++ _)). vm_compute. reflexivity. }
    eexists. unfold superblock_of_buffer. rewrite parse_superblock_bytes; [reflexivity| |done].
    unfold superblock_ok. cbn. lia.
Qed.

Lemma superblock_roundtrip_witness :
  superblock_of_buffer (superblock_buffer 128 (stamp 7 9 1 0 1 2 65536) (replicate 4 Byte.x00)) =
  Some (stamp 7 9 1 0 1 2 65536, true).
Proof. refine (proj1 (superblock_roundtrip 128 7 9 1 0 1 2 65536 (replicate 4 Byte.x00) _ _ _ _ _ _ _ eq_refl _)); lia. Defined.

(** C28. Corruption is detected: changing any one byte of the identity or of the
    checksum in a valid superblock makes [ReadSuperblock] report none present. *)
Theorem superblock_detects_byte_change (sb : MemberSuperblock) (padding rest : list u8) (i : nat) (x b : u8) :
  superblock_ok sb -> Validate sb = true -> length padding = 4%nat -> (i < 68)%nat ->
  (superblock_bytes sb padding ++ rest) !! i = Some b -> x <> b ->
  exists sb', superblock_of_buffer (<[i:=x]> (superblock_bytes sb padding ++ rest)) = Some (sb', false).
Proof.
  intros Hok Hv Hp Hi Hb Hx. unfold superblock_of_buffer.
  set (buf := superblock_bytes sb padding ++ rest) in *.
  assert (length (superblock_bytes sb padding) = 72%nat) as Hl
    by (unfold superblock_bytes; rewrite !length_app, length_prefix_bytes, length_le_bytes, Hp; lia).
  assert (exists sb', parse_superblock (<[i:=x]> buf) = Some sb') as [sb' Hsb'].
  { assert (exists b1 b2, <[i:=x]> buf = b1 ++ b2 /\ length b1 = 72%nat) as (b1 & b2 & -> & Hb1).
    { exists (<[i:=x]> (superblock_bytes sb padding)), rest. rewrite length_insert. split; [|done].
      unfold buf. by rewrite insert_app_l by lia. }
    apply parse_superblock_total. rewrite length_app. lia. }
  rewrite Hsb'. exists sb'. f_equal. f_equal. apply not_true_is_false. intros Hv'.
  apply parse_superblock_Some in Hsb' as (padding' & rest' & E & Hok' & Hp').
  apply Validate_bytes in Hv, Hv'. unfold buf, superblock_bytes in E. rewrite <- !app_assoc in E.
  destruct (decide (i < 64)%nat) as [Hi64|Hi64].
  - rewrite insert_app_l in E by (rewrite length_prefix_bytes; lia).
    apply app_inj_1 in E as [Epre E]; [|by rewrite length_insert, !length_prefix_bytes].
    apply app_inj_1 in E as [Ec _]; [|by rewrite !length_le_bytes].
    assert (sb_checksum sb' = sb_checksum sb) as Ecs.
    { destruct Hok as (_ & _ & _ & _ & _ & _ & _ & _ & _ & _ & _ & Hc), Hok' as (_ & _ & _ & _ & _ & _ & _ & _ & _ & _ & _ & Hc').
      rewrite <- (le_value_bytes 4 (sb_checksum sb')), <- (le_value_bytes 4 (sb_checksum sb)) by done. by rewrite Ec. }
    unfold buf, superblock_bytes in Hb. rewrite <- !app_assoc, lookup_app_l in Hb by (rewrite length_prefix_bytes; lia).
    apply (additive_sum_insert (prefix_bytes sb) i x b Hb Hx). rewrite Epre. congruence.
  - rewrite insert_app_r_alt in E by (rewrite length_prefix_bytes; lia). rewrite length_prefix_bytes in E.
    apply app_inj_1 in E as [Epre E]; [|by rewrite !length_prefix_bytes].
    rewrite insert_app_l in E by (rewrite length_le_bytes; lia).
    apply app_inj_1 in E as [Ec _]; [|by rewrite length_insert, !length_le_bytes].
    assert (sb_checksum sb' = sb_checksum sb) as Ecs by congruence.
    unfold buf, superblock_bytes in Hb.
    rewrite <- !app_assoc, lookup_app_r, length_prefix_bytes in Hb by (rewrite length_prefix_bytes; lia).
    rewrite lookup_app_l in Hb by (rewrite length_le_bytes; lia).
    rewrite Ecs in Ec. apply Hx. rewrite <- Ec in Hb. rewrite list_lookup_insert_eq in Hb; [by injection Hb|].
    rewrite length_le_bytes. lia.
Qed.

Lemma superblock_detects_byte_change_witness :
  exists sb', superblock_of_buffer
    (<[20%nat := Byte.xff]> (superblock_bytes (stamp 7 9 1 0 1 2 65536) (replicate 4 Byte.x00) ++ [])) = Some (sb', false).
Proof.
  apply (superblock_detects_byte_change _ _ _ 20%nat Byte.xff Byte.x00).
  - apply stamp_ok; lia.
  - vm_compute. reflexivity.
  - reflexivity.
  - lia.
  - vm_compute. reflexivity.
  - discriminate.
Defined.
