(* ===== verification/SafeBdev.v ===== *)
(** The state and the slot allocation of the safe_bdev container:
    [safe_bdev_runtime.h] and the allocation handlers of [safe_bdev_runtime.cc].

    A growable set of data members with per-member slot allocators, dedicated
    parity members, a dirty-slot set that drives the parity builder, and a
    write-ahead log of the allocations. Handlers are functions on the container's
    state. *)
From Stdlib Require Import ZArith Lia Permutation.
From stdpp Require Import base list gmap sorting.
From S2P Require Import Prelude Gf256 ReedSolomon EcArray BlockAllocator AllocLog MemberManifest.

Open Scope Z_scope.

(** * Data *)

(** The container's compile-time constants. *)
Record Geometry := mkGeometry { kChunkLen : nat; kSuperblockSize : nat; kSlotsPerMember : Z }.

Definition source_geometry : Geometry := mkGeometry (Z.to_nat 65536) (Z.to_nat 65536) (2 ^ 32).

Record MemberAlloc := mkMemberAlloc {
  ma_high_water : Z;
  ma_cap_slots : Z;
  ma_free : list Z;       (** back is last *)
  ma_live : gset Z
}.

Record Runtime := mkRuntime {
  rt_pool_id : Z * Z;
  data_members : list MemberSlot;
  parity_members : list MemberSlot;
  data_clients : list nat;          (** device of each data member *)
  parity_clients : list nat;
  data_alloc : list MemberAlloc;
  rr_cursor : nat;
  alloc_log : AllocatorLog;
  max_failures : nat;
  parity_level : nat;
  dirty_slots : gset Z;
  written_slots : gset Z;
  manifest : Manifest
}.

Definition kAllocGroup : Z := 0.

(** * Per-member slot allocator *)

Definition RemainingSlots (a : MemberAlloc) : Z :=
  (if ma_high_water a <? ma_cap_slots a then ma_cap_slots a - ma_high_water a else 0) +
  Z.of_nat (length (ma_free a)).

Definition Full (a : MemberAlloc) : bool := RemainingSlots a =? 0.

Definition Take (a : MemberAlloc) : Z * MemberAlloc :=
  match reverse (ma_free a) with
  | s :: free => (s, mkMemberAlloc (ma_high_water a) (ma_cap_slots a) (reverse free) ({[s]} ∪ ma_live a))
  | [] =>
      let s := ma_high_water a in
      (s, mkMemberAlloc (u64 (s + 1)) (ma_cap_slots a) (ma_free a) ({[s]} ∪ ma_live a))
  end.

Definition Release (a : MemberAlloc) (s : Z) : MemberAlloc :=
  if decide (s ∈ ma_live a) then
    mkMemberAlloc (ma_high_water a) (ma_cap_slots a) (ma_free a ++ [s]) (ma_live a ∖ {[s]})
  else a.

Definition alloc_default : MemberAlloc := mkMemberAlloc 0 0 [] ∅.
Definition member_default : MemberSlot := mkMemberSlot (0, 0) [] 0 kData kRemoved (-1) false.

Definition alloc_at (st : Runtime) (d : nat) : MemberAlloc := nth d (data_alloc st) alloc_default.
Definition data_at (st : Runtime) (d : nat) : MemberSlot := nth d (data_members st) member_default.
Definition parity_at (st : Runtime) (j : nat) : MemberSlot := nth j (parity_members st) member_default.
Definition data_client (st : Runtime) (d : nat) : nat := nth d (data_clients st) 0%nat.
Definition parity_client (st : Runtime) (j : nat) : nat := nth j (parity_clients st) 0%nat.

(** * Field updates *)

Definition set_alloc (st : Runtime) (l : list MemberAlloc) : Runtime :=
  mkRuntime (rt_pool_id st) (data_members st) (parity_members st) (data_clients st) (parity_clients st) l (rr_cursor st)
    (alloc_log st) (max_failures st) (parity_level st) (dirty_slots st) (written_slots st) (manifest st).
Definition set_rr (st : Runtime) (r : nat) : Runtime :=
  mkRuntime (rt_pool_id st) (data_members st) (parity_members st) (data_clients st) (parity_clients st) (data_alloc st) r
    (alloc_log st) (max_failures st) (parity_level st) (dirty_slots st) (written_slots st) (manifest st).
Definition set_log (st : Runtime) (l : AllocatorLog) : Runtime :=
  mkRuntime (rt_pool_id st) (data_members st) (parity_members st) (data_clients st) (parity_clients st) (data_alloc st) (rr_cursor st)
    l (max_failures st) (parity_level st) (dirty_slots st) (written_slots st) (manifest st).
Definition set_slots (st : Runtime) (dirty written : gset Z) : Runtime :=
  mkRuntime (rt_pool_id st) (data_members st) (parity_members st) (data_clients st) (parity_clients st) (data_alloc st) (rr_cursor st)
    (alloc_log st) (max_failures st) (parity_level st) dirty written (manifest st).
Definition set_data (st : Runtime) (l : list MemberSlot) : Runtime :=
  mkRuntime (rt_pool_id st) l (parity_members st) (data_clients st) (parity_clients st) (data_alloc st) (rr_cursor st)
    (alloc_log st) (max_failures st) (parity_level st) (dirty_slots st) (written_slots st) (manifest st).
Definition set_parity (st : Runtime) (l : list MemberSlot) : Runtime :=
  mkRuntime (rt_pool_id st) (data_members st) l (data_clients st) (parity_clients st) (data_alloc st) (rr_cursor st)
    (alloc_log st) (max_failures st) (parity_level st) (dirty_slots st) (written_slots st) (manifest st).
Definition set_data_clients (st : Runtime) (l : list nat) : Runtime :=
  mkRuntime (rt_pool_id st) (data_members st) (parity_members st) l (parity_clients st) (data_alloc st) (rr_cursor st)
    (alloc_log st) (max_failures st) (parity_level st) (dirty_slots st) (written_slots st) (manifest st).
Definition set_parity_clients (st : Runtime) (l : list nat) : Runtime :=
  mkRuntime (rt_pool_id st) (data_members st) (parity_members st) (data_clients st) l (data_alloc st) (rr_cursor st)
    (alloc_log st) (max_failures st) (parity_level st) (dirty_slots st) (written_slots st) (manifest st).
Definition set_level (st : Runtime) (m : nat) : Runtime :=
  mkRuntime (rt_pool_id st) (data_members st) (parity_members st) (data_clients st) (parity_clients st) (data_alloc st) (rr_cursor st)
    (alloc_log st) (max_failures st) m (dirty_slots st) (written_slots st) (manifest st).
Definition set_manifest (st : Runtime) (mm : Manifest) : Runtime :=
  mkRuntime (rt_pool_id st) (data_members st) (parity_members st) (data_clients st) (parity_clients st) (data_alloc st) (rr_cursor st)
    (alloc_log st) (max_failures st) (parity_level st) (dirty_slots st) (written_slots st) mm.

Definition with_state (m : MemberSlot) (s : EcState) : MemberSlot :=
  mkMemberSlot (slot_pool_id m) (slot_pool_name m) (slot_node_id m) (slot_role m) s (slot_index m) (slot_recovering m).

Definition set_data_state (st : Runtime) (d : nat) (s : EcState) : Runtime :=
  set_data st (alter (fun m => with_state m s) d (data_members st)).
Definition set_parity_state (st : Runtime) (j : nat) (s : EcState) : Runtime :=
  set_parity st (alter (fun m => with_state m s) j (parity_members st)).

(** * Dirty-slot bookkeeping *)

Definition MarkSlotDirty (st : Runtime) (s : Z) : Runtime :=
  set_slots st ({[s]} ∪ dirty_slots st) ({[s]} ∪ written_slots st).

Definition slot_live_in (s : Z) (a : MemberAlloc) : bool := bool_decide (s ∈ ma_live a).

Definition ForgetSlotIfEmpty (st : Runtime) (s : Z) : Runtime :=
  if existsb (slot_live_in s) (data_alloc st) then st
  else set_slots st (dirty_slots st ∖ {[s]}) (written_slots st ∖ {[s]}).

Definition IsSlotDirty (st : Runtime) (s : Z) : bool := bool_decide (s ∈ dirty_slots st).

Definition StripeMembers (st : Runtime) (s : Z) : list nat :=
  List.filter (fun d => slot_live_in s (alloc_at st d)) (seq 0 (length (data_alloc st))).

Definition GetCodec (st : Runtime) (k : nat) : ReedSolomon := ReedSolomon_new k (max_failures st).

Definition data_active (st : Runtime) (d : nat) : bool := bool_decide (slot_state (data_at st d) = kActive).
Definition parity_active (st : Runtime) (j : nat) : bool := bool_decide (slot_state (parity_at st j) = kActive).

(** * Banding *)

Section Banding.
Context (G : Geometry).

Definition BandOffset (d : nat) (s : Z) : Z :=
  u64 ((Z.of_nat d * kSlotsPerMember G + s) * Z.of_nat (kChunkLen G)).

(** Member, slot, offset within the chunk. *)
Definition Unband (off : Z) : nat * Z * nat :=
  let chunk := off / Z.of_nat (kChunkLen G) in
  (Z.to_nat (u32 (chunk / kSlotsPerMember G)), chunk mod kSlotsPerMember G,
   Z.to_nat (off mod Z.of_nat (kChunkLen G))).

Definition SlotPhysOffset (s : Z) : Z := u64 (Z.of_nat (kSuperblockSize G) + s * Z.of_nat (kChunkLen G)).
End Banding.

(** * Allocation *)

Section Allocation.
Context (G : Geometry).

(** The round-robin sweep: at most one visit per member. *)
Fixpoint scan_members (scanned : nat) (st : Runtime) : option nat * Runtime :=
  match scanned with
  | O => (None, st)
  | S scanned =>
      let n := length (data_members st) in
      let d := Nat.modulo (rr_cursor st) n in
      let st := set_rr st (Nat.modulo (d + 1) n) in
      if data_active st d && negb (Full (alloc_at st d)) then (Some d, st)
      else scan_members scanned st
  end.

(** One chunk per iteration; [None] when the fuel runs out. *)
Fixpoint alloc_loop (fuel : nat) (st : Runtime) (remaining : Z) (blocks : list Block)
    : option (Z * list Block * Runtime) :=
  match fuel with
  | O => None
  | S fuel =>
      if remaining <=? 0 then Some (0, blocks, st)
      else
        match scan_members (length (data_members st)) st with
        | (None, st) => Some (1, [], st)
        | (Some d, st) =>
            let '(s, a) := Take (alloc_at st d) in
            let st := set_alloc st (<[d := a]> (data_alloc st)) in
            let seg := Z.min (Z.of_nat (kChunkLen G)) remaining in
            let off := BandOffset G d s in
            let st := set_log st (LogAlloc (alloc_log st) kAllocGroup off seg 0) in
            alloc_loop fuel st (remaining - seg) (blocks ++ [mkBlock off seg 0])
        end
  end.

(** The fuel is one more than the number of chunks of the request. *)
Definition rt_AllocateBlocks (st : Runtime) (size : Z) : option (Z * list Block * Runtime) :=
  if size =? 0 then Some (0, [], st)
  else
    match data_members st with
    | [] => Some (1, [], st)
    | _ => alloc_loop (S (S (Z.to_nat (size / Z.of_nat (kChunkLen G))))) st size []
    end.

Definition free_block (st : Runtime) (b : Block) : Runtime :=
  let '(d, s, _) := Unband G (b_offset b) in
  if decide (length (data_alloc st) <= d)%nat then st
  else if negb (slot_live_in s (alloc_at st d)) then st
  else
    let st := set_alloc st (alter (fun a => Release a s) d (data_alloc st)) in
    let st := set_log st (LogFree (alloc_log st) kAllocGroup (b_offset b) (b_size b) 0) in
    match StripeMembers st s with
    | [] => ForgetSlotIfEmpty st s
    | _ => MarkSlotDirty st s
    end.

Definition rt_FreeBlocks (st : Runtime) (blocks : list Block) : Z * Runtime := (0, fold_left free_block blocks st).

Definition rt_GetStats (st : Runtime) : Z :=
  fold_left (fun remaining d =>
    if data_active st d then u64 (remaining + RemainingSlots (alloc_at st d) * Z.of_nat (kChunkLen G)) else remaining)
    (seq 0 (length (data_alloc st))) 0.

(** The part of [Create] that rebuilds the slot allocators from the log's live
    blocks. *)
Definition restore_live (st : Runtime) (b : LiveBlock) : Runtime :=
  let '(d, s, _) := Unband G (lb_offset b) in
  if decide (d < length (data_alloc st))%nat then
    set_alloc st (alter (fun a => mkMemberAlloc (ma_high_water a) (ma_cap_slots a) (ma_free a) ({[s]} ∪ ma_live a))
                        d (data_alloc st))
  else st.

Definition restore_bump (a : MemberAlloc) : MemberAlloc :=
  let high := if decide (ma_live a = ∅) then 0
              else u64 (foldr Z.max 0 (elements (ma_live a)) + 1) in
  mkMemberAlloc high (ma_cap_slots a)
    (filter (fun s => s ∉ ma_live a) (map Z.of_nat (seq 0 (Z.to_nat high)))) (ma_live a).

Definition restore_allocators (st : Runtime) (live : list LiveBlock) : Runtime :=
  let st := fold_left restore_live live st in
  let st := set_alloc st (map restore_bump (data_alloc st)) in
  set_slots st (dirty_slots st) (fold_left (fun w a => ma_live a ∪ w) (data_alloc st) (written_slots st)).
End Allocation.

(** * The slot allocator of one member *)

(** Slots below the high-water mark are live or free, never both. *)
Record alloc_ok (G : Geometry) (a : MemberAlloc) : Prop := {
  ao_hw : 0 <= ma_high_water a;
  ao_cap : Z.max (ma_high_water a) (ma_cap_slots a) <= kSlotsPerMember G;
  ao_free : NoDup (ma_free a);
  ao_disjoint : forall s, s ∈ ma_free a -> s ∉ ma_live a;
  ao_cover : forall s, 0 <= s < ma_high_water a <-> s ∈ ma_live a \/ s ∈ ma_free a
}.

Section SlotAllocator.
Context (G : Geometry).
Hypothesis Hslots : kSlotsPerMember G < 2 ^ 64.

Lemma RemainingSlots_nonneg a : 0 <= RemainingSlots a.
Proof using. unfold RemainingSlots. destruct (Z.ltb_spec (ma_high_water a) (ma_cap_slots a)); lia. Qed.

(** [Take] on a member that is not full: a slot that was not live, in the
    member's band; one slot less remains. *)
Lemma Take_spec a s a' :
  alloc_ok G a -> Full a = false -> Take a = (s, a') ->
  alloc_ok G a' /\ 0 <= s < kSlotsPerMember G /\ (s ∉ ma_live a) /\ ma_live a' = {[s]} ∪ ma_live a /\
  RemainingSlots a' = RemainingSlots a - 1 /\ ma_cap_slots a' = ma_cap_slots a.
Proof using Hslots.
  intros [Hhw Hcap Hnd Hdisj Hcov] Hfull. unfold Take. unfold Full in Hfull. apply Z.eqb_neq in Hfull.
  destruct (reverse (ma_free a)) as [|s0 free] eqn:E.
  - assert (ma_free a = []) as Hnil by (by apply (f_equal reverse) in E; rewrite reverse_involutive in E).
    unfold RemainingSlots in *. rewrite Hnil in *. cbn [length] in *.
    destruct (Z.ltb_spec (ma_high_water a) (ma_cap_slots a)); [|lia].
    intros [= <- <-]. cbn [ma_high_water ma_cap_slots ma_free ma_live]. rewrite u64_small by lia.
    assert (ma_high_water a ∉ ma_live a) as Hnew by (intros H'; assert (0 <= ma_high_water a < ma_high_water a) by (apply Hcov; by left); lia).
    split_and!; try done; try lia.
    + split; cbn [ma_high_water ma_cap_slots ma_free ma_live]; try done; try lia.
      * intros s Hs. by apply not_elem_of_nil in Hs.
      * intros s. rewrite elem_of_union, elem_of_singleton. specialize (Hcov s).
        destruct (decide (s = ma_high_water a)) as [->|Hne]; [split; [tauto|lia]|]. split.
        -- intros Hr. destruct (proj1 Hcov) as [|Hx]; [lia|by left; right|by apply not_elem_of_nil in Hx].
        -- intros [[->|Hl]|Hx]; [done| |by apply not_elem_of_nil in Hx].
           assert (0 <= s < ma_high_water a) by (apply Hcov; by left). lia.
    + cbn [length]. destruct (Z.ltb_spec (ma_high_water a + 1) (ma_cap_slots a)); lia.
  - assert (ma_free a = reverse free ++ [s0]) as Hf
      by (by rewrite <- reverse_cons, <- E, reverse_involutive).
    intros [= <- <-]. cbn [ma_high_water ma_cap_slots ma_free ma_live].
    assert (s0 ∈ ma_free a) as Hin by (rewrite Hf; apply elem_of_app; right; by apply list_elem_of_singleton).
    pose proof (proj2 (Hcov s0) (or_intror Hin)) as Hrange.
    rewrite Hf in Hnd. apply NoDup_app in Hnd as (Hnd & Hd & _).
    split_and!; try done; try lia; [|by apply Hdisj|].
    + split; cbn [ma_high_water ma_cap_slots ma_free ma_live]; try done.
      * intros s Hs. rewrite elem_of_union, elem_of_singleton. intros [->|Hl].
        -- apply (Hd s0); [done|by apply list_elem_of_singleton].
        -- apply (Hdisj s); [|done]. rewrite Hf. apply elem_of_app. by left.
      * intros s. rewrite Hcov, Hf, elem_of_app, elem_of_union, elem_of_singleton, list_elem_of_singleton. tauto.
    + unfold RemainingSlots. cbn [ma_high_water ma_cap_slots ma_free]. rewrite Hf, length_app. cbn [length].
      destruct (_ <? _); lia.
Qed.

Lemma Release_spec a s :
  alloc_ok G a -> alloc_ok G (Release a s) /\ ma_live (Release a s) = ma_live a ∖ {[s]} /\
  RemainingSlots (Release a s) = RemainingSlots a + (if decide (s ∈ ma_live a) then 1 else 0).
Proof using Hslots.
  intros [Hhw Hcap Hnd Hdisj Hcov]. unfold Release. case_decide as Hs.
  2: { split; [by split|]. split; [set_solver|lia]. }
  split; [|split; [done|]].
  - split; cbn [ma_high_water ma_cap_slots ma_free ma_live]; try done.
    + apply NoDup_app. split; [done|]. split; [|apply NoDup_singleton].
      intros x Hx Hx'. apply list_elem_of_singleton in Hx' as ->. by apply (Hdisj s).
    + intros x. rewrite elem_of_app, list_elem_of_singleton. set_solver.
    + intros x. rewrite Hcov, elem_of_app, list_elem_of_singleton, elem_of_difference, elem_of_singleton.
      destruct (decide (x = s)) as [->|]; tauto.
  - unfold RemainingSlots. cbn [ma_high_water ma_cap_slots ma_free]. rewrite length_app. cbn [length].
    destruct (_ <? _); lia.
Qed.
End SlotAllocator.

(** * Banding is a bijection below 2^64 *)

Section BandLemmas.
Context (G : Geometry).
Hypothesis Hchunk : (0 < kChunkLen G)%nat.
Hypothesis Hslots : 0 < kSlotsPerMember G.

Lemma BandOffset_exact d s :
  0 <= s < kSlotsPerMember G -> (Z.of_nat d + 1) * kSlotsPerMember G * Z.of_nat (kChunkLen G) <= 2 ^ 64 ->
  BandOffset G d s = (Z.of_nat d * kSlotsPerMember G + s) * Z.of_nat (kChunkLen G) /\
  BandOffset G d s + Z.of_nat (kChunkLen G) <= 2 ^ 64.
Proof using Hchunk Hslots. intros Hs Hd. unfold BandOffset. rewrite u64_small by nia. split; [done|nia]. Qed.

Lemma Unband_within d s w :
  0 <= s < kSlotsPerMember G -> (Z.of_nat d + 1) * kSlotsPerMember G * Z.of_nat (kChunkLen G) <= 2 ^ 64 ->
  Z.of_nat d < 2 ^ 32 -> (w < kChunkLen G)%nat ->
  Unband G (BandOffset G d s + Z.of_nat w) = (d, s, w).
Proof using Hchunk Hslots.
  intros Hs Hd Hd32 Hw. destruct (BandOffset_exact d s Hs Hd) as [E _]. rewrite E. unfold Unband.
  set (C := Z.of_nat (kChunkLen G)). set (K := kSlotsPerMember G) in *.
  assert (((Z.of_nat d * K + s) * C + Z.of_nat w) / C = Z.of_nat d * K + s) as ->.
  { rewrite Z.add_comm, Z.div_add, Z.div_small by lia. lia. }
  assert (((Z.of_nat d * K + s) * C + Z.of_nat w) mod C = Z.of_nat w) as ->.
  { rewrite Z.add_comm, Z.mod_add, Z.mod_small by lia. lia. }
  assert ((Z.of_nat d * K + s) / K = Z.of_nat d) as -> by (rewrite Z.add_comm, Z.div_add, Z.div_small by lia; lia).
  assert ((Z.of_nat d * K + s) mod K = s) as -> by (rewrite Z.add_comm, Z.mod_add, Z.mod_small by lia; lia).
  rewrite u32_small by lia. by rewrite !Nat2Z.id.
Qed.

Lemma BandOffset_Unband off d s w :
  0 <= off -> Unband G off = (d, s, w) -> off / Z.of_nat (kChunkLen G) / kSlotsPerMember G < 2 ^ 32 ->
  off = (Z.of_nat d * kSlotsPerMember G + s) * Z.of_nat (kChunkLen G) + Z.of_nat w /\
  0 <= s < kSlotsPerMember G /\ (w < kChunkLen G)%nat.
Proof using Hchunk Hslots.
  intros Hoff. unfold Unband. set (C := Z.of_nat (kChunkLen G)). set (K := kSlotsPerMember G) in *.
  intros [= <- <- <-] Hd.
  assert (0 <= off / C) by (apply Z.div_pos; lia). assert (0 <= off / C / K) by (apply Z.div_pos; lia).
  rewrite u32_small by lia. rewrite !Z2Nat.id by (try apply Z.mod_pos_bound; lia).
  pose proof (Z.div_mod off C ltac:(lia)). pose proof (Z.div_mod (off / C) K ltac:(lia)).
  pose proof (Z.mod_pos_bound off C ltac:(lia)). pose proof (Z.mod_pos_bound (off / C) K ltac:(lia)).
  split; [nia|]. split; [done|]. apply Nat2Z.inj_lt. rewrite Z2Nat.id by lia. fold C. lia.
Qed.
End BandLemmas.

(** * The slot allocators of the array *)

Definition slot_live (st : Runtime) (d : nat) (s : Z) : Prop := s ∈ ma_live (alloc_at st d).

#[export] Instance slot_live_dec st d s : Decision (slot_live st d s) := decide (s ∈ ma_live (alloc_at st d)).

Definition members_count (st : Runtime) : nat := length (data_members st).

Record array_ok (G : Geometry) (st : Runtime) : Prop := {
  ar_len : length (data_alloc st) = length (data_members st);
  ar_alloc : Forall (alloc_ok G) (data_alloc st);
  ar_band : Z.of_nat (length (data_members st)) * kSlotsPerMember G * Z.of_nat (kChunkLen G) <= 2 ^ 64;
  ar_num : Z.of_nat (length (data_members st)) < 2 ^ 32
}.

Record geometry_ok (G : Geometry) : Prop := {
  geo_chunk : (0 < kChunkLen G)%nat;
  geo_slots : 0 < kSlotsPerMember G < 2 ^ 64
}.

(** Slots still free on active members. *)
Definition member_remaining (st : Runtime) (d : nat) : Z :=
  if data_active st d then RemainingSlots (alloc_at st d) else 0.
Definition active_remaining (st : Runtime) : Z := zsum (member_remaining st) (seq 0 (members_count st)).

(** Chunks of a request. *)
Definition chunks (G : Geometry) (size : Z) : Z := (size + Z.of_nat (kChunkLen G) - 1) / Z.of_nat (kChunkLen G).

(** The block list of a request served by [slots]. *)
Fixpoint taken_blocks (G : Geometry) (slots : list (nat * Z)) (size : Z) : list Block :=
  match slots with
  | [] => []
  | (d, s) :: slots =>
      let seg := Z.min (Z.of_nat (kChunkLen G)) size in
      mkBlock (BandOffset G d s) seg 0 :: taken_blocks G slots (size - seg)
  end.

Definition log_blocks (l : AllocatorLog) (bs : list Block) : AllocatorLog :=
  fold_left (fun l b => LogAlloc l kAllocGroup (b_offset b) (b_size b) 0) bs l.

Lemma alloc_at_insert st d a d' :
  (d < length (data_alloc st))%nat ->
  alloc_at (set_alloc st (<[d := a]> (data_alloc st))) d' = if decide (d = d') then a else alloc_at st d'.
Proof.
  intros Hd. unfold alloc_at. cbn [set_alloc data_alloc]. rewrite !nth_lookup.
  case_decide as E; [subst; by rewrite list_lookup_insert_eq|]. by rewrite list_lookup_insert_ne.
Qed.

Lemma alloc_at_ok G st d : array_ok G st -> (d < members_count st)%nat -> alloc_ok G (alloc_at st d).
Proof.
  intros [Hl Ha _ _] Hd. unfold members_count in Hd. unfold alloc_at. rewrite nth_lookup.
  destruct (lookup_lt_is_Some_2 (data_alloc st) d) as [a E]; [lia|]. rewrite E. by eapply Forall_lookup_1.
Qed.

Lemma scan_members_frame cnt st o st' : scan_members cnt st = (o, st') -> exists r, st' = set_rr st r.
Proof.
  revert st. induction cnt as [|cnt IH]; intros st; cbn; [intros [= _ <-]; exists (rr_cursor st); by destruct st|].
  destruct (_ && _); [intros [= _ <-]; eauto|]. intros H. apply IH in H as [r ->]. by exists r.
Qed.

Lemma scan_members_Some cnt st d st' :
  (0 < members_count st)%nat -> scan_members cnt st = (Some d, st') ->
  (d < members_count st)%nat /\ data_active st d = true /\ Full (alloc_at st d) = false.
Proof.
  intros Hn. unfold members_count in *. revert st Hn. induction cnt as [|cnt IH]; intros st Hn; [done|].
  cbn [scan_members]. destruct (_ && _) eqn:E; [|intros H; by apply IH in H].
  intros [= <- _]. apply andb_true_iff in E as [E1 E2]. apply negb_true_iff in E2.
  split; [apply Nat.mod_upper_bound; lia|]. done.
Qed.

Lemma scan_members_None cnt st st' i :
  (0 < members_count st)%nat -> scan_members cnt st = (None, st') -> (i < cnt)%nat ->
  let d := ((rr_cursor st + i) mod members_count st)%nat in
  data_active st d && negb (Full (alloc_at st d)) = false.
Proof.
  intros Hn. unfold members_count in *. revert st i Hn. induction cnt as [|cnt IH]; intros st i Hn; [lia|].
  cbn [scan_members]. destruct (_ && _) eqn:E; [done|]. intros H Hi. destruct i as [|i].
  - rewrite Nat.add_0_r. exact E.
  - specialize (IH (set_rr st ((rr_cursor st mod length (data_members st) + 1) mod length (data_members st))%nat)
                i Hn H ltac:(lia)). cbn [rr_cursor set_rr data_members] in IH.
    replace ((rr_cursor st + S i) mod length (data_members st))%nat
      with (((rr_cursor st mod length (data_members st) + 1) mod length (data_members st) + i) mod
            length (data_members st))%nat; [exact IH|].
    rewrite Nat.Div0.add_mod_idemp_l. replace (rr_cursor st mod length (data_members st) + 1 + i)%nat
      with (rr_cursor st mod length (data_members st) + S i)%nat by lia.
    by rewrite Nat.Div0.add_mod_idemp_l.
Qed.

(** A sweep that finds no member visited them all. *)
Lemma scan_members_all st st' d :
  (d < members_count st)%nat -> scan_members (members_count st) st = (None, st') -> member_remaining st d = 0.
Proof.
  intros Hd H. set (n := members_count st) in *. set (r := (rr_cursor st mod n)%nat).
  assert (r < n)%nat as Hr by (apply Nat.mod_upper_bound; lia).
  assert ((d + n - r) mod n < n)%nat as Hi by (apply Nat.mod_upper_bound; lia).
  pose proof (scan_members_None n st st' ((d + n - r) mod n)%nat ltac:(lia) H Hi) as Hs.
  cbn zeta in Hs. rewrite Nat.Div0.add_mod_idemp_r, <- Nat.Div0.add_mod_idemp_l in Hs. fold n r in Hs.
  clearbody r. replace (r + (d + n - r))%nat with (d + 1 * n)%nat in Hs by (clear -Hr Hd; lia).
  rewrite Nat.Div0.mod_add, Nat.mod_small in Hs by done.
  unfold member_remaining. destruct (data_active st d); [|done]. cbn [andb] in Hs.
  apply negb_false_iff in Hs. by apply Z.eqb_eq.
Qed.

Lemma member_remaining_nonneg st d : 0 <= member_remaining st d.
Proof. unfold member_remaining. destruct (data_active st d); [apply RemainingSlots_nonneg|lia]. Qed.

Lemma active_remaining_nonneg st : 0 <= active_remaining st.
Proof. apply zsum_nonneg, Forall_forall. intros d _. apply member_remaining_nonneg. Qed.

Lemma zsum_point (f g : nat -> Z) n d delta :
  (d < n)%nat -> f d = g d + delta -> (forall i, (i < n)%nat -> i <> d -> f i = g i) ->
  zsum f (seq 0 n) = zsum g (seq 0 n) + delta.
Proof.
  intros Hd Hfd Hne. replace n with (d + (1 + (n - d - 1)))%nat by lia. rewrite !seq_app, !zsum_app. cbn [seq Nat.add].
  rewrite !zsum_cons. rewrite (zsum_ext f g (seq 0 d)), (zsum_ext f g (seq (d + 1) (n - d - 1))).
  - rewrite Hfd. cbn [zsum foldr]. lia.
  - apply Forall_forall. intros i Hi. apply list_elem_of_In, in_seq in Hi. apply Hne; lia.
  - apply Forall_forall. intros i Hi. apply list_elem_of_In, in_seq in Hi. apply Hne; lia.
Qed.

Section ArrayAllocation.
Context (G : Geometry) (HG : geometry_ok G).

Lemma Take_array st d s a st' :
  array_ok G st -> (d < members_count st)%nat -> data_active st d = true -> Full (alloc_at st d) = false ->
  Take (alloc_at st d) = (s, a) -> st' = set_alloc st (<[d := a]> (data_alloc st)) ->
  array_ok G st' /\ 0 <= s < kSlotsPerMember G /\ ~ slot_live st d s /\
  (forall d' s', slot_live st' d' s' <-> slot_live st d' s' \/ (d', s') = (d, s)) /\
  active_remaining st' = active_remaining st - 1.
Proof using HG.
  intros Hok Hd Hact Hfull HT ->. destruct HG as [_ HK].
  destruct (Take_spec G (proj2 HK) _ _ _ (alloc_at_ok G st d Hok Hd) Hfull HT) as (Ha & Hs & Hnew & Hlive & Hrem & Hcap).
  assert (d < length (data_alloc st))%nat as Hd' by (rewrite (ar_len G st Hok); exact Hd).
  split; [|split; [done|split; [done|split]]].
  - destruct Hok as [H1 H2 H3 H4]. split; cbn; try done; [by rewrite length_insert|by apply Forall_insert].
  - intros d' s'. unfold slot_live. rewrite alloc_at_insert by done. case_decide as E.
    + subst. rewrite Hlive, elem_of_union, elem_of_singleton. split; [intros [->|]; tauto|].
      intros [|[= ->]]; tauto.
    + split; [tauto|]. intros [|[= -> ->]]; done.
  - unfold active_remaining, members_count. cbn [data_members set_alloc].
    apply Z.add_cancel_r with (p := 1). rewrite Z.sub_add. symmetry.
    apply zsum_point with (d := d); [exact Hd| |].
    + unfold member_remaining. rewrite alloc_at_insert, decide_True by done.
      change (data_active (set_alloc _ _) d) with (data_active st d). rewrite Hact. lia.
    + intros i Hi Hne. unfold member_remaining. rewrite alloc_at_insert, decide_False by done. done.
Qed.

(** What an allocation run did: [slots] were taken, the log got their blocks. *)
Record alloc_run (st : Runtime) (slots : list (nat * Z)) (size : Z) (st' : Runtime) : Prop := {
  run_ok : array_ok G st';
  run_members : data_members st' = data_members st;
  run_nodup : NoDup slots;
  run_slots : forall d s, (d, s) ∈ slots ->
    (d < members_count st)%nat /\ data_active st d = true /\ 0 <= s < kSlotsPerMember G /\ ~ slot_live st d s;
  run_live : forall d s, slot_live st' d s <-> slot_live st d s \/ (d, s) ∈ slots;
  run_remaining : active_remaining st' = active_remaining st - Z.of_nat (length slots);
  run_log : alloc_log st' = log_blocks (alloc_log st) (taken_blocks G slots size);
  run_marks : dirty_slots st' = dirty_slots st /\ written_slots st' = written_slots st
}.

Lemma chunks_step size :
  0 < size -> chunks G size = 1 + chunks G (size - Z.min (Z.of_nat (kChunkLen G)) size).
Proof using HG.
  intros Hs. destruct HG as [HC _]. unfold chunks. set (C := Z.of_nat (kChunkLen G)) in *.
  assert (0 < C) by lia. destruct (Z.min_spec C size) as [[Hlt ->]|[Hle ->]].
  - replace (size + C - 1) with (size - C + C - 1 + 1 * C) by lia. rewrite Z.div_add by lia. lia.
  - replace (size + C - 1) with (size - 1 + 1 * C) by lia. rewrite Z.div_add by lia.
    rewrite !Z.div_small by lia. lia.
Qed.

Lemma chunks_nonpos size : 0 <= size -> (chunks G size <= 0 <-> size = 0).
Proof using HG.
  intros Hs. destruct HG as [HC _]. unfold chunks. set (C := Z.of_nat (kChunkLen G)) in *. split; [|intros ->].
  - intros Hd. destruct (decide (size = 0)) as [|Hne]; [done|exfalso].
    assert (1 <= (size + C - 1) / C) by (apply Z.div_le_lower_bound; lia). lia.
  - rewrite Z.div_small; lia.
Qed.

Lemma alloc_loop_spec fuel st size blocks rc blocks' st' :
  array_ok G st -> 0 <= size -> (0 < members_count st)%nat ->
  alloc_loop G fuel st size blocks = Some (rc, blocks', st') ->
  exists slots, alloc_run st slots size st' /\
    (rc = 0 /\ blocks' = blocks ++ taken_blocks G slots size /\ Z.of_nat (length slots) = chunks G size \/
     rc = 1 /\ blocks' = [] /\ active_remaining st' = 0 /\ Z.of_nat (length slots) < chunks G size).
Proof using HG.
  revert st size blocks. induction fuel as [|fuel IH]; intros st size blocks Hok Hsize Hn; [done|]. cbn [alloc_loop].
  destruct (Z.leb_spec size 0) as [H0|H0].
  - intros [= <- <- <-]. exists []. split.
    + split; cbn; try done; [constructor|set_solver|intros; set_solver|lia].
    + left. rewrite app_nil_r. split; [done|]. split; [done|]. cbn [length].
      assert (size = 0) as -> by lia. pose proof (proj2 (chunks_nonpos 0 ltac:(lia)) eq_refl).
      assert (0 <= chunks G 0) by (unfold chunks; destruct HG; apply Z.div_pos; lia). lia.
  - destruct (scan_members (length (data_members st)) st) as [[d|] st1] eqn:Hscan.
    + destruct (scan_members_Some _ _ _ _ Hn Hscan) as (Hd & Hact & Hfull).
      destruct (scan_members_frame _ _ _ _ Hscan) as [r ->].
      change (alloc_at (set_rr st r) d) with (alloc_at st d). destruct (Take (alloc_at st d)) as [s a] eqn:HT.
      destruct (Take_array st d s a _ Hok Hd Hact Hfull HT eq_refl) as (Hok1 & Hs & Hnew & Hlive & Hrem).
      set (st2 := set_log _ _). intros Hloop.
      assert (array_ok G st2) as Hok2 by (destruct Hok1; by split).
      destruct (IH st2 (size - Z.min (Z.of_nat (kChunkLen G)) size) _ Hok2 ltac:(lia) Hn Hloop) as (slots & [] & Hres).
      exists ((d, s) :: slots). split; [|].
      * split; try done.
        -- constructor; [|done]. intros Hin. apply run_slots0 in Hin as (_ & _ & _ & Hx). apply Hx.
           change (slot_live (set_alloc st (<[d := a]> (data_alloc st))) d s). apply Hlive. by right.
        -- intros d' s'. rewrite elem_of_cons. intros [[= -> ->]|Hin]; [done|].
           apply run_slots0 in Hin as (Hd' & Ha' & Hs' & Hx). split; [done|]. split; [done|]. split; [done|].
           intros Hl. apply Hx. change (slot_live (set_alloc st (<[d := a]> (data_alloc st))) d' s').
           apply Hlive. by left.
        -- intros d' s'. rewrite run_live0, elem_of_cons.
           change (slot_live st2 d' s') with (slot_live (set_alloc st (<[d := a]> (data_alloc st))) d' s').
           rewrite Hlive. tauto.
        -- rewrite run_remaining0. change (active_remaining st2)
             with (active_remaining (set_alloc st (<[d := a]> (data_alloc st)))).
           rewrite Hrem. cbn [length]. lia.
      * rewrite (chunks_step size) by lia. cbn [taken_blocks length]. destruct Hres as [(-> & -> & Hlen)|(-> & -> & Hz & Hlen)].
        -- left. split; [done|]. split; [by rewrite <- app_assoc|]. lia.
        -- right. split; [done|]. split; [done|]. split; [done|]. lia.
    + destruct (scan_members_frame _ _ _ _ Hscan) as [r ->]. intros [= <- <- <-]. exists [].
      assert (active_remaining st = 0) as Hz.
      { unfold active_remaining. erewrite zsum_ext with (g := fun _ => 0).
        - generalize (members_count st) 0%nat. induction n as [|n IHn]; intros b; [done|].
          cbn [seq]. by rewrite zsum_cons, IHn.
        - apply Forall_forall. intros d Hd. apply list_elem_of_In, in_seq in Hd. eapply scan_members_all; [|exact Hscan]. lia. }
      split.
      * destruct Hok. split; try done; [constructor|set_solver|intros; set_solver|].
        cbn [length]. change (active_remaining (set_rr st r)) with (active_remaining st). lia.
      * right. split; [done|]. split; [done|]. split; [done|]. cbn [length].
        destruct (Z.ltb_spec 0 (chunks G size)); [lia|]. assert (size = 0) by (by apply chunks_nonpos; lia). lia.
Qed.

Lemma alloc_loop_total fuel st size blocks :
  0 <= size -> chunks G size < Z.of_nat fuel -> exists r, alloc_loop G fuel st size blocks = Some r.
Proof using HG.
  revert st size blocks. induction fuel as [|fuel IH]; intros st size blocks Hs Hf.
  { exfalso. assert (0 <= chunks G size); [|lia]. unfold chunks. destruct HG. apply Z.div_pos; lia. }
  cbn [alloc_loop]. destruct (Z.leb_spec size 0); [eauto|].
  destruct (scan_members _ _) as [[d|] st1]; [|eauto]. destruct (Take _) as [s a].
  apply IH; [lia|]. rewrite chunks_step in Hf by done. lia.
Qed.
End ArrayAllocation.

(** ** Freeing *)

Definition stripe_empty (st : Runtime) (s : Z) : Prop :=
  forall d, (d < length (data_alloc st))%nat -> ~ slot_live st d s.

Lemma slot_live_in_spec st d s : slot_live_in s (alloc_at st d) = true <-> slot_live st d s.
Proof. unfold slot_live_in, slot_live. by rewrite bool_decide_eq_true. Qed.

Lemma elem_of_StripeMembers st s d :
  d ∈ StripeMembers st s <-> (d < length (data_alloc st))%nat /\ slot_live st d s.
Proof. unfold StripeMembers. rewrite list_elem_of_In, filter_In, in_seq, slot_live_in_spec. intuition lia. Qed.

Lemma StripeMembers_nil st s : StripeMembers st s = [] <-> stripe_empty st s.
Proof.
  split.
  - intros E d Hd Hl. assert (d ∈ StripeMembers st s) as Hin by (by apply elem_of_StripeMembers).
    rewrite E in Hin. by apply not_elem_of_nil in Hin.
  - intros He. destruct (StripeMembers st s) as [|d l] eqn:E; [done|exfalso].
    assert (d ∈ StripeMembers st s) as Hin by (rewrite E; by left).
    apply elem_of_StripeMembers in Hin as [Hd Hl]. by apply (He d).
Qed.

Lemma ForgetSlot_empty st s :
  stripe_empty st s -> ForgetSlotIfEmpty st s = set_slots st (dirty_slots st ∖ {[s]}) (written_slots st ∖ {[s]}).
Proof.
  intros He. unfold ForgetSlotIfEmpty. destruct (existsb (slot_live_in s) (data_alloc st)) eqn:E; [exfalso|done].
  apply existsb_exists in E as (a & Ha & Hl). apply list_elem_of_In, list_elem_of_lookup in Ha as [d Hd].
  apply (He d); [by eapply lookup_lt_Some|]. apply slot_live_in_spec. unfold alloc_at. by rewrite nth_lookup, Hd.
Qed.

(** The state a block's release leads to, when its slot is live. *)
Definition freed_state (st : Runtime) (d : nat) (s : Z) (b : Block) : Runtime :=
  let st' := set_log (set_alloc st (alter (fun a => Release a s) d (data_alloc st)))
               (LogFree (alloc_log st) kAllocGroup (b_offset b) (b_size b) 0) in
  match StripeMembers st' s with
  | [] => set_slots st' (dirty_slots st ∖ {[s]}) (written_slots st ∖ {[s]})
  | _ => set_slots st' ({[s]} ∪ dirty_slots st) ({[s]} ∪ written_slots st)
  end.

Lemma free_block_eq G st b d s w :
  Unband G (b_offset b) = (d, s, w) ->
  free_block G st b = if decide ((d < length (data_alloc st))%nat /\ slot_live st d s)
                      then freed_state st d s b else st.
Proof.
  intros E. unfold free_block. rewrite E. destruct (decide (length (data_alloc st) <= d)%nat) as [Hd|Hd].
  { rewrite decide_False; [done|]. intros [? _]; lia. }
  destruct (slot_live_in s (alloc_at st d)) eqn:El; cbn [negb].
  - apply slot_live_in_spec in El. rewrite decide_True by (split; [lia|done]). unfold freed_state.
    destruct (StripeMembers _ s) as [|d0 l] eqn:Es; [|done]. apply StripeMembers_nil in Es. by rewrite (ForgetSlot_empty _ s Es).
  - rewrite decide_False; [done|]. intros [_ Hl]. apply slot_live_in_spec in Hl. congruence.
Qed.

Lemma alloc_at_release st d s d' :
  (d < length (data_alloc st))%nat ->
  alloc_at (set_alloc st (alter (fun a => Release a s) d (data_alloc st))) d' =
  if decide (d = d') then Release (alloc_at st d) s else alloc_at st d'.
Proof.
  intros Hd. unfold alloc_at. cbn [set_alloc data_alloc]. rewrite !nth_lookup. case_decide as E.
  - subst. rewrite list_lookup_alter_eq. by destruct (lookup_lt_is_Some_2 _ _ Hd) as [a ->].
  - by rewrite list_lookup_alter_ne.
Qed.

Lemma freed_state_alloc st d s b d' :
  (d < length (data_alloc st))%nat ->
  alloc_at (freed_state st d s b) d' = if decide (d = d') then Release (alloc_at st d) s else alloc_at st d'.
Proof.
  intros Hd. rewrite <- (alloc_at_release st d s d') by done. unfold freed_state. by destruct (StripeMembers _ s).
Qed.

Lemma freed_state_spec G st d s b :
  geometry_ok G -> array_ok G st -> (d < members_count st)%nat -> slot_live st d s ->
  array_ok G (freed_state st d s b) /\
  data_members (freed_state st d s b) = data_members st /\
  (forall d' s', slot_live (freed_state st d s b) d' s' <-> slot_live st d' s' /\ (d', s') <> (d, s)) /\
  alloc_log (freed_state st d s b) = LogFree (alloc_log st) kAllocGroup (b_offset b) (b_size b) 0.
Proof.
  intros HG Hok Hd Hl. pose proof (alloc_at_ok G st d Hok Hd) as Ha.
  destruct (Release_spec G (proj2 (geo_slots G HG)) _ s Ha) as (Ha' & Hlive & _).
  assert (d < length (data_alloc st))%nat as Hd' by (rewrite (ar_len G st Hok); exact Hd).
  split; [|split; [|split]].
  - assert (array_ok G (set_alloc st (alter (fun a => Release a s) d (data_alloc st)))) as Hok'.
    { destruct Hok as [H1 H2 H3 H4]. split; cbn; try done; [by rewrite length_alter|].
      apply Forall_alter; [done|]. intros a E _. unfold alloc_at in Ha'. by rewrite nth_lookup, E in Ha'. }
    unfold freed_state. destruct Hok' as [H1 H2 H3 H4]. by destruct (StripeMembers _ s); split.
  - unfold freed_state. by destruct (StripeMembers _ s).
  - intros d' s'. unfold slot_live. rewrite freed_state_alloc by done. case_decide as E.
    + subst. rewrite Hlive, elem_of_difference, elem_of_singleton. split; intros [H1 H2]; (split; [done|]); congruence.
    + split; [|tauto]. intros H. split; [done|]. congruence.
  - unfold freed_state. by destruct (StripeMembers _ s).
Qed.

(** * The write-ahead log mirrors the live slots *)

Definition log_offset_live (l : AllocatorLog) (M : list AllocLogRecord) (o : Z) : Prop :=
  is_Some (lookup2 (fst (replay (M ++ al_buffer l))) kAllocGroup o).

Lemma log_offset_live_alloc l M off size o :
  al_enabled l = true ->
  log_offset_live (LogAlloc l kAllocGroup off size 0) M o <-> o = off \/ log_offset_live l M o.
Proof.
  intros He. unfold log_offset_live, LogAlloc, log_record. rewrite He. cbn [set_buffer al_buffer].
  rewrite app_assoc, replay_app. cbn [fold_left apply_state fst]. rewrite lookup2_apply_live.
  cbn. case_decide as E; [|].
  - destruct E as [_ ->]. split; [by left|done].
  - split; [by right|]. intros [->|H]; [by contradict E|done].
Qed.

Lemma log_offset_live_free l M off size o :
  al_enabled l = true ->
  log_offset_live (LogFree l kAllocGroup off size 0) M o <-> o <> off /\ log_offset_live l M o.
Proof.
  intros He. unfold log_offset_live, LogFree, log_record. rewrite He. cbn [set_buffer al_buffer].
  rewrite app_assoc, replay_app. cbn [fold_left apply_state fst]. rewrite lookup2_apply_live.
  cbn. case_decide as E.
  - destruct E as [_ ->]. split; [by intros [? ?]|by intros [? _]].
  - split; [|tauto]. intros H. split; [|done]. intros ->. by contradict E.
Qed.

Lemma log_blocks_live l bs M o :
  al_enabled l = true ->
  log_offset_live (log_blocks l bs) M o <-> log_offset_live l M o \/ o ∈ map b_offset bs.
Proof.
  revert l. induction bs as [|b bs IH]; intros l He; cbn [log_blocks fold_left map].
  - rewrite elem_of_nil. tauto.
  - change (fold_left _ bs ?l') with (log_blocks l' bs). rewrite IH.
    + rewrite log_offset_live_alloc by done. rewrite elem_of_cons. tauto.
    + unfold LogAlloc, log_record. by rewrite He.
Qed.

Section Restart.
Context (G : Geometry) (HG : geometry_ok G).

(** A new array: empty allocators over members of given capacities. *)
Definition fresh_allocs (caps : list Z) : list MemberAlloc := map (fun c => mkMemberAlloc 0 c [] ∅) caps.

(** The container and the files of its allocator log. *)
Definition sb_world : Type := Runtime * LogDisk.

Definition banded_free (st : Runtime) (b : Block) : Prop :=
  exists d s, (d < members_count st)%nat /\ 0 <= s < kSlotsPerMember G /\ b_offset b = BandOffset G d s /\
              0 <= b_size b < 2 ^ 64.

Inductive sb_step : sb_world -> sb_world -> Prop :=
| sb_allocate st disk size rc blocks st' :
    0 <= size < 2 ^ 64 -> rt_AllocateBlocks G st size = Some (rc, blocks, st') ->
    sb_step (st, disk) (st', disk)
| sb_free st disk blocks :
    Forall (banded_free st) blocks -> sb_step (st, disk) (snd (rt_FreeBlocks G st blocks), disk)
| sb_flush st disk can_open l' disk' :
    Flush (alloc_log st) disk can_open = (l', disk') -> sb_step (st, disk) (set_log st l', disk')
| sb_compact st disk l' disk' :
    Compact (alloc_log st) disk true true = (l', disk') -> sb_step (st, disk) (set_log st l', disk').

Definition log_mirrors (st : Runtime) (M : list AllocLogRecord) : Prop :=
  forall o, log_offset_live (alloc_log st) M o <->
    exists d s, (d < members_count st)%nat /\ slot_live st d s /\ o = BandOffset G d s.

Definition sb_inv (w : sb_world) : Prop :=
  array_ok G (fst w) /\
  exists M, al_inv (mkWorld (alloc_log (fst w)) (snd w) M M) /\ log_mirrors (fst w) M.

Lemma slot_live_range st d s :
  array_ok G st -> (d < members_count st)%nat -> slot_live st d s -> 0 <= s < kSlotsPerMember G.
Proof using G.
  intros Hok Hd Hl. destruct (alloc_at_ok G st d Hok Hd) as [_ Hcap _ _ Hcov].
  assert (0 <= s < ma_high_water (alloc_at st d)) by (apply Hcov; by left). lia.
Qed.

Lemma member_band st d :
  array_ok G st -> (d < members_count st)%nat ->
  (Z.of_nat d + 1) * kSlotsPerMember G * Z.of_nat (kChunkLen G) <= 2 ^ 64 /\ Z.of_nat d < 2 ^ 32.
Proof using HG.
  intros [_ _ Hb Hn] Hd. unfold members_count in Hd. destruct HG as [HC HK]. split; [|lia].
  etransitivity; [|exact Hb]. repeat apply Z.mul_le_mono_nonneg_r; lia.
Qed.

Lemma BandOffset_inj st d s d' s' :
  array_ok G st -> (d < members_count st)%nat -> 0 <= s < kSlotsPerMember G ->
  (d' < members_count st)%nat -> 0 <= s' < kSlotsPerMember G ->
  BandOffset G d s = BandOffset G d' s' -> (d, s) = (d', s').
Proof using HG.
  intros Hok Hd Hs Hd' Hs' E. destruct HG as [HC HK].
  destruct (member_band st d Hok Hd) as [Hb Hn]. destruct (member_band st d' Hok Hd') as [Hb' Hn'].
  pose proof (Unband_within G HC ltac:(lia) d s 0 Hs Hb Hn ltac:(lia)) as U.
  pose proof (Unband_within G HC ltac:(lia) d' s' 0 Hs' Hb' Hn' ltac:(lia)) as U'.
  rewrite E in U. rewrite U in U'. congruence.
Qed.

Lemma Unband_base st d s :
  array_ok G st -> (d < members_count st)%nat -> 0 <= s < kSlotsPerMember G ->
  Unband G (BandOffset G d s) = (d, s, 0%nat).
Proof using HG.
  intros Hok Hd Hs. destruct HG as [HC HK]. destruct (member_band st d Hok Hd) as [Hb Hn].
  rewrite <- (Unband_within G HC ltac:(lia) d s 0 Hs Hb Hn ltac:(lia)). by rewrite Z.add_0_r.
Qed.

Lemma al_inv_log l disk M r :
  record_ok r -> al_inv (mkWorld l disk M M) -> al_inv (mkWorld (log_record l r) disk M M).
Proof using. intros Hr. apply al_step_inv. by constructor. Qed.

Lemma taken_blocks_offsets slots size :
  map b_offset (taken_blocks G slots size) = map (fun '(d, s) => BandOffset G d s) slots.
Proof using. revert size. induction slots as [|[d s] slots IH]; intros size; cbn; [done|]. by rewrite IH. Qed.

Lemma taken_blocks_ok slots size :
  0 <= size < 2 ^ 64 ->
  Forall (fun b => 0 <= b_offset b < 2 ^ 64 /\ 0 <= b_size b < 2 ^ 64) (taken_blocks G slots size).
Proof using.
  revert size. induction slots as [|[d s] slots IH]; intros size Hs; cbn; constructor.
  - cbn. split; [apply u64_range|lia].
  - apply IH. lia.
Qed.

Lemma al_inv_log_blocks bs l disk M :
  Forall (fun b => 0 <= b_offset b < 2 ^ 64 /\ 0 <= b_size b < 2 ^ 64) bs ->
  al_inv (mkWorld l disk M M) -> al_inv (mkWorld (log_blocks l bs) disk M M).
Proof using.
  intros H. revert l. induction H as [|b bs [Ho Hs] _ IH]; intros l Hinv; [done|]. cbn. apply IH.
  apply al_inv_log; [|done]. unfold record_ok, kAllocGroup. cbn. lia.
Qed.

Lemma AllocateBlocks_run st size rc blocks st' :
  array_ok G st -> 0 <= size -> rt_AllocateBlocks G st size = Some (rc, blocks, st') ->
  exists slots, alloc_run G st slots size st' /\
    (rc = 0 /\ blocks = taken_blocks G slots size /\ Z.of_nat (length slots) = chunks G size \/
     rc = 1 /\ blocks = [] /\ active_remaining st' = 0 /\ Z.of_nat (length slots) < chunks G size).
Proof using HG.
  intros Hok Hsize. unfold rt_AllocateBlocks.
  assert (alloc_run G st [] size st) as Hrefl
    by (split; cbn; try done; [constructor|set_solver|intros; set_solver|lia]).
  destruct (Z.eqb_spec size 0) as [->|Hne].
  - intros [= <- <- <-]. exists []. split; [done|]. left. split; [done|]. split; [done|].
    pose proof (proj2 (chunks_nonpos G HG 0 ltac:(lia)) eq_refl).
    assert (0 <= chunks G 0) by (unfold chunks; destruct HG; apply Z.div_pos; lia). cbn; lia.
  - destruct (data_members st) as [|m ms] eqn:E.
    + intros [= <- <- <-]. exists []. split; [done|]. right. split; [done|]. split; [done|].
      split; [unfold active_remaining, members_count; by rewrite E|]. cbn [length].
      destruct (Z.ltb_spec 0 (chunks G size)); [lia|]. assert (size = 0) by (apply (chunks_nonpos G HG); lia). lia.
    + intros H. apply (alloc_loop_spec G HG) in H as (slots & Hrun & H); try done; [|unfold members_count; rewrite E; cbn; lia].
      exists slots. by split.
Qed.

Lemma log_mirrors_alloc st slots size st' M :
  array_ok G st -> al_enabled (alloc_log st) = true -> alloc_run G st slots size st' ->
  log_mirrors st M -> log_mirrors st' M.
Proof using G.
  intros Hok He [Hok' Hmem _ Hslots Hlive _ Hlog _] Hm o. rewrite Hlog, log_blocks_live, taken_blocks_offsets, (Hm o) by done.
  unfold members_count in *. rewrite Hmem. split.
  - intros [(d & s & Hd & Hl & ->)|Hin].
    + exists d, s. split; [done|]. split; [apply Hlive; by left|done].
    + apply list_elem_of_In, in_map_iff in Hin as ([d s] & <- & Hin). apply list_elem_of_In in Hin.
      exists d, s. split; [by apply Hslots in Hin as (? & _)|]. split; [apply Hlive; by right|done].
  - intros (d & s & Hd & Hl & ->). apply Hlive in Hl as [Hl|Hin]; [left; eauto|right].
    apply list_elem_of_In, in_map_iff. exists (d, s). split; [done|]. by apply list_elem_of_In.
Qed.

Lemma free_block_inv st disk b :
  sb_inv (st, disk) -> banded_free st b ->
  sb_inv (free_block G st b, disk) /\ data_members (free_block G st b) = data_members st.
Proof using HG.
  intros (Hok & M & Hinv & Hm) (d & s & Hd & Hs & Hoff & Hsize). cbn [fst snd] in *.
  rewrite (free_block_eq G st b d s 0) by (rewrite Hoff; by apply (Unband_base st)).
  case_decide as Hl; [|by split; [split; [|exists M]|]]. destruct Hl as [_ Hl].
  destruct (freed_state_spec G st d s b HG Hok Hd Hl) as (Hok' & Hmem & Hlive & Hlog). split; [|done].
  pose proof (ai_enabled _ Hinv) as He. cbn in He.
  split; [done|]. exists M. cbn [fst snd]. rewrite Hlog. split.
  - apply al_inv_log; [|done]. unfold record_ok, kAllocGroup. cbn. rewrite Hoff. pose proof (u64_range ((Z.of_nat d * kSlotsPerMember G + s) * Z.of_nat (kChunkLen G))). unfold BandOffset. lia.
  - intros o. rewrite Hlog, log_offset_live_free, (Hm o) by done. unfold members_count in *. rewrite Hmem, Hoff.
    split.
    + intros (Hne & d' & s' & Hd' & Hl' & ->). exists d', s'. split; [done|]. split; [|done]. apply Hlive.
      split; [done|]. intros [= -> ->]. done.
    + intros (d' & s' & Hd' & Hl' & ->). apply Hlive in Hl' as [Hl' Hne]. split; [|eauto].
      intros E. apply Hne. apply (BandOffset_inj st); try done. by apply (slot_live_range st d').
Qed.

Lemma FreeBlocks_inv st disk blocks :
  sb_inv (st, disk) -> Forall (banded_free st) blocks -> sb_inv (snd (rt_FreeBlocks G st blocks), disk).
Proof using HG.
  intros Hinv H. unfold rt_FreeBlocks. cbn [snd].
  revert st Hinv H. induction blocks as [|b blocks IH]; intros st Hinv H; [done|].
  apply Forall_cons in H as [Hb H]. cbn [fold_left]. destruct (free_block_inv st disk b Hinv Hb) as [Hinv' Hmem].
  apply IH; [done|]. eapply Forall_impl; [exact H|]. intros b' (d & s & Hd & ?). exists d, s.
  unfold members_count in *. by rewrite Hmem.
Qed.

Lemma log_mirrors_buffer st l' M M' :
  M ++ al_buffer (alloc_log st) = M' ++ al_buffer l' -> log_mirrors st M -> log_mirrors (set_log st l') M'.
Proof using. intros E Hm o. unfold log_offset_live. cbn [alloc_log set_log]. rewrite <- E. apply Hm. Qed.

Lemma sb_step_inv w w' : sb_step w w' -> sb_inv w -> sb_inv w'.
Proof using HG.
  destruct 1 as [st disk size rc blocks st' Hsize HA|st disk blocks Hb|st disk o l' disk' HF|st disk l' disk' HF].
  - intros (Hok & M & Hinv & Hm). cbn [fst snd] in *.
    destruct (AllocateBlocks_run st size rc blocks st' Hok ltac:(lia) HA) as (slots & Hrun & _).
    split; [by destruct Hrun|]. exists M. cbn [fst snd]. split.
    + rewrite (run_log _ _ _ _ _ Hrun). apply al_inv_log_blocks; [by apply taken_blocks_ok|done].
    + by eapply log_mirrors_alloc; [|exact (ai_enabled _ Hinv)|exact Hrun|].
  - intros Hinv. by apply FreeBlocks_inv.
  - intros (Hok & M & Hinv & Hm). cbn [fst snd] in *. split; [by destruct Hok; split|].
    exists (if o then M ++ al_buffer (alloc_log st) else M). split.
    + pose proof (al_step_inv _ _ (al_flush _ _ M M o l' disk' HF) Hinv) as H. by destruct o.
    + apply (log_mirrors_buffer st l' M); [|done]. unfold Flush in HF. pose proof (ai_enabled _ Hinv) as He. cbn in He. rewrite He in HF. cbn [negb orb] in HF.
      case_bool_decide as Hnil; [injection HF as <- _; rewrite Hnil, !app_nil_r; by destruct o|].
      destruct o; injection HF as <- _; [|done]. cbn [set_buffer al_buffer]. by rewrite app_nil_r.
  - intros (Hok & M & Hinv & Hm). cbn [fst snd] in *. split; [by destruct Hok; split|].
    exists (M ++ al_buffer (alloc_log st)). split.
    + exact (al_step_inv _ _ (al_compact _ _ M M true true l' disk' HF) Hinv).
    + apply (log_mirrors_buffer st l' M); [|done]. unfold Compact in HF. pose proof (ai_enabled _ Hinv) as He. cbn in He. rewrite He in HF. cbn [negb] in HF.
      injection HF as <- _. cbn [al_buffer set_buffer]. by rewrite app_nil_r.
Qed.
End Restart.

(** ** Rebuilding the allocators *)

Section Restore.
Context (G : Geometry) (HG : geometry_ok G).

Lemma restore_live_fold blocks st d s :
  length (data_alloc (fold_left (restore_live G) blocks st)) = length (data_alloc st) /\
  data_members (fold_left (restore_live G) blocks st) = data_members st /\
  dirty_slots (fold_left (restore_live G) blocks st) = dirty_slots st /\
  written_slots (fold_left (restore_live G) blocks st) = written_slots st /\
  (slot_live (fold_left (restore_live G) blocks st) d s <->
   slot_live st d s \/ ((d < length (data_alloc st))%nat /\
                        exists b, b ∈ blocks /\ fst (Unband G (lb_offset b)) = (d, s))) /\
  ma_cap_slots (alloc_at (fold_left (restore_live G) blocks st) d) = ma_cap_slots (alloc_at st d).
Proof using.
  revert st. induction blocks as [|b blocks IH]; intros st; cbn [fold_left].
  { split_and!; try done. split; [by left|]. intros [|(_ & b & Hb & _)]; [done|]. by apply not_elem_of_nil in Hb. }
  specialize (IH (restore_live G st b)). destruct IH as (IH1 & IH2 & IH3 & IH4 & IH5 & IH6).
  destruct (Unband G (lb_offset b)) as [[d0 s0] w0] eqn:EU.
  assert (restore_live G st b = if decide (d0 < length (data_alloc st))%nat then
    set_alloc st (alter (fun a => mkMemberAlloc (ma_high_water a) (ma_cap_slots a) (ma_free a) ({[s0]} ∪ ma_live a)) d0 (data_alloc st))
    else st) as E by (unfold restore_live; by rewrite EU).
  assert (forall P : Prop, (exists b', b' ∈ b :: blocks /\ fst (Unband G (lb_offset b')) = (d, s)) <->
           (d0, s0) = (d, s) \/ exists b', b' ∈ blocks /\ fst (Unband G (lb_offset b')) = (d, s)) as Hex.
  { intros _. split.
    - intros (b' & Hb' & HU). apply elem_of_cons in Hb' as [->|Hb']; [left; by rewrite EU in HU|right; eauto].
    - intros [Heq|(b' & Hb' & HU)]; [exists b; rewrite EU; split; [by left|done]|exists b'; split; [by right|done]]. }
  specialize (Hex True). rewrite IH1, IH2, IH3, IH4, IH5, IH6, Hex. rewrite E. case_decide as Hd0.
  2: { split_and!; try done. split; [tauto|]. intros [|[Hd [[= -> ->]|]]]; tauto. }
  cbn [set_alloc data_alloc data_members dirty_slots written_slots]. rewrite length_alter. split_and!; try done.
  - unfold slot_live, alloc_at. cbn [set_alloc data_alloc]. rewrite !nth_lookup, list_lookup_alter. case_decide as Ed.
    + subst. destruct (lookup_lt_is_Some_2 _ _ Hd0) as [a ->]. cbn. rewrite elem_of_union, elem_of_singleton.
      split; [intros [[->|]|]; tauto|]. intros [|[_ [[= ->]|]]]; tauto.
    + split; [tauto|]. intros [|[Hd [[= -> ->]|]]]; tauto.
  - unfold alloc_at. cbn [set_alloc data_alloc]. rewrite !nth_lookup, list_lookup_alter. case_decide as Ed; [|done].
    subst. by destruct (lookup_lt_is_Some_2 _ _ Hd0) as [a ->].
Qed.

Lemma foldr_max_spec l : Forall (fun s => s <= foldr Z.max 0 l) l /\ 0 <= foldr Z.max 0 l /\
  (forall b, 0 <= b -> Forall (fun s => s <= b) l -> foldr Z.max 0 l <= b).
Proof using.
  induction l as [|x l (IH1 & IH2 & IH3)]; cbn; [split_and!; [constructor|done|done]|]. split_and!.
  - constructor; [lia|]. eapply Forall_impl; [exact IH1|]. cbn. lia.
  - lia.
  - intros b Hb H. apply Forall_cons in H as [Hx H]. specialize (IH3 b Hb H). lia.
Qed.

Lemma restore_bump_spec a :
  (forall s, s ∈ ma_live a -> 0 <= s < kSlotsPerMember G) -> ma_cap_slots a <= kSlotsPerMember G ->
  alloc_ok G (restore_bump a) /\ ma_live (restore_bump a) = ma_live a.
Proof using HG.
  intros Hr Hcap. destruct HG as [_ HK]. split; [|done].
  set (hw := ma_high_water (restore_bump a)).
  assert (0 <= hw <= kSlotsPerMember G /\ forall s, s ∈ ma_live a -> s < hw) as [Hhw Hlt].
  { unfold hw, restore_bump. cbn [ma_high_water]. case_decide as He; [rewrite He; split; [lia|set_solver]|].
    destruct (foldr_max_spec (elements (ma_live a))) as (Hf & H0 & Hb).
    assert (foldr Z.max 0 (elements (ma_live a)) <= kSlotsPerMember G - 1).
    { apply Hb; [lia|]. apply Forall_forall. intros s Hs. apply elem_of_elements, Hr in Hs. lia. }
    rewrite u64_small by lia. split; [lia|]. intros s Hs. apply elem_of_elements in Hs.
    rewrite Forall_forall in Hf. specialize (Hf s Hs). cbn in Hf. lia. }
  assert (forall s, s ∈ ma_free (restore_bump a) <-> (s ∉ ma_live a) /\ 0 <= s < hw) as Hfree.
  { intros s. unfold restore_bump. cbn [ma_free]. rewrite list_elem_of_filter.
    change (if decide (ma_live a = ∅) then 0 else _) with hw. rewrite list_elem_of_In, in_map_iff.
    setoid_rewrite in_seq. split.
    - intros (Hn & i & <- & Hi). split; [done|lia].
    - intros (Hn & H0). split; [done|]. exists (Z.to_nat s). lia. }
  split; fold hw.
  - lia.
  - cbn [ma_cap_slots restore_bump]. lia.
  - cbn [ma_free restore_bump]. apply NoDup_filter, NoDup_map_inj; [intros x y _ _; lia|apply NoDup_ListNoDup, seq_NoDup].
  - intros s Hs. by apply Hfree in Hs as [Hs _].
  - intros s. rewrite Hfree. change (ma_live (restore_bump a)) with (ma_live a). split.
    + intros Hs. destruct (decide (s ∈ ma_live a)); tauto.
    + intros [Hs|[_ Hs]]; [|done]. specialize (Hlt s Hs). specialize (Hr s Hs). lia.
Qed.

Lemma alloc_at_map st f d :
  f alloc_default = alloc_default -> alloc_at (set_alloc st (map f (data_alloc st))) d = f (alloc_at st d).
Proof using.
  intros Hf. unfold alloc_at. cbn [set_alloc data_alloc]. change (map f ?l) with (f <$> l).
  rewrite !nth_lookup, list_lookup_fmap. by destruct (data_alloc st !! d).
Qed.

Lemma written_fold (l : list MemberAlloc) (w : gset Z) s :
  s ∈ fold_left (fun w a => ma_live a ∪ w) l w <-> s ∈ w \/ exists a, a ∈ l /\ s ∈ ma_live a.
Proof using.
  revert w. induction l as [|a l IH]; intros w; cbn [fold_left].
  - split; [by left|]. intros [|(a & Ha & _)]; [done|]. by apply not_elem_of_nil in Ha.
  - rewrite IH, elem_of_union. setoid_rewrite elem_of_cons. split.
    + intros [[Ha|Hw]|(a' & Ha' & Hs)]; [right; exists a; tauto|tauto|right; exists a'; tauto].
    + intros [Hw|(a' & [->|Ha'] & Hs)]; [tauto|tauto|right; eauto].
Qed.

(** Rebuilding from blocks that are the banded offsets of [live]. *)
Lemma restore_allocators_spec st blocks (live : nat -> Z -> Prop) :
  length (data_alloc st) = members_count st -> (forall d s, ~ slot_live st d s) ->
  Forall (fun a => ma_cap_slots a <= kSlotsPerMember G) (data_alloc st) ->
  Z.of_nat (length (data_members st)) * kSlotsPerMember G * Z.of_nat (kChunkLen G) <= 2 ^ 64 ->
  Z.of_nat (length (data_members st)) < 2 ^ 32 ->
  (forall d s, live d s -> (d < members_count st)%nat /\ 0 <= s < kSlotsPerMember G) ->
  (forall d s, live d s <-> exists b, b ∈ blocks /\ fst (Unband G (lb_offset b)) = (d, s) /\ (d < members_count st)%nat) ->
  array_ok G (restore_allocators G st blocks) /\
  (forall d s, slot_live (restore_allocators G st blocks) d s <-> live d s) /\
  (forall s, s ∈ written_slots (restore_allocators G st blocks) <->
             s ∈ written_slots st \/ exists d, live d s) /\
  dirty_slots (restore_allocators G st blocks) = dirty_slots st.
Proof using HG.
  intros Hlen Hempty Hcap Hband Hnum Hrange Hlive. unfold restore_allocators.
  set (st1 := fold_left (restore_live G) blocks st).
  assert (forall d s, slot_live st1 d s <-> live d s) as Hlive1.
  { intros d s. pose proof (restore_live_fold blocks st d s) as (_ & _ & _ & _ & Hl & _). fold st1 in Hl.
    rewrite Hl, Hlive, Hlen. split.
    - intros [H|(Hd & b & Hb & HU)]; [by apply Hempty in H|eauto].
    - intros (b & Hb & HU & Hd). right. eauto. }
  pose proof (restore_live_fold blocks st 0 0) as (Hl1 & Hm1 & Hd1 & Hw1 & _ & _). fold st1 in Hl1, Hm1, Hd1, Hw1.
  assert (restore_bump alloc_default = alloc_default) as Hdef.
  { unfold restore_bump. cbn [ma_live alloc_default]. rewrite decide_True by done. done. }
  assert (forall d s, slot_live (set_alloc st1 (map restore_bump (data_alloc st1))) d s <-> live d s) as Hlive2.
  { intros d s. unfold slot_live. rewrite alloc_at_map by done. apply Hlive1. }
  assert (Forall (alloc_ok G) (map restore_bump (data_alloc st1))) as Hok.
  { apply Forall_forall. intros a Ha. apply list_elem_of_In, in_map_iff in Ha as (a0 & <- & Ha).
    apply list_elem_of_In, list_elem_of_lookup in Ha as [d Hd].
    assert (alloc_at st1 d = a0) as Ea by (unfold alloc_at; by rewrite nth_lookup, Hd).
    apply restore_bump_spec.
    - intros s Hs. rewrite <- Ea in Hs. apply (Hlive1 d s), Hrange in Hs. tauto.
    - rewrite <- Ea. pose proof (restore_live_fold blocks st d 0) as (_ & _ & _ & _ & _ & Hc). fold st1 in Hc. rewrite Hc.
      assert (d < length (data_alloc st))%nat as Hlt by (rewrite <- Hl1; by eapply lookup_lt_Some).
      unfold alloc_at. rewrite nth_lookup. destruct (lookup_lt_is_Some_2 _ _ Hlt) as [a1 E]. rewrite E.
      by eapply (Forall_lookup_1 _ _ _ _ Hcap). }
  split; [|split; [|split]].
  - split; cbn [set_slots set_alloc data_alloc data_members].
    + rewrite length_map, Hl1, Hm1. exact Hlen.
    + exact Hok.
    + by rewrite Hm1.
    + by rewrite Hm1.
  - exact Hlive2.
  - intros s. cbn [set_slots set_alloc written_slots data_alloc]. rewrite written_fold, Hw1. apply or_iff_compat_l.
    split.
    + intros (a & Ha & Hs). apply list_elem_of_lookup in Ha as [d Hd]. exists d. apply Hlive2.
      unfold slot_live, alloc_at. cbn [set_alloc data_alloc]. by rewrite nth_lookup, Hd.
    + intros [d Hl]. pose proof (Hrange d s Hl) as [Hd _]. apply Hlive2 in Hl.
      unfold slot_live, alloc_at in Hl. cbn [set_alloc data_alloc] in Hl. rewrite nth_lookup in Hl.
      destruct (lookup_lt_is_Some_2 (map restore_bump (data_alloc st1)) d) as [a E].
      { rewrite length_map, Hl1. by rewrite Hlen. }
      rewrite E in Hl. exists a. split; [by eapply list_elem_of_lookup_2|done].
  - exact Hd1.
Qed.
End Restore.

(** * Properties *)

(** An array as [Create] leaves it on fresh members: empty allocators, the log
    opened with its single group. *)
Definition fresh_array (G : Geometry) (st : Runtime) : Prop :=
  array_ok G st /\
  Forall (fun a => a = mkMemberAlloc 0 (ma_cap_slots a) [] ∅) (data_alloc st) /\
  alloc_log st = LogGroupOpen (w_log al_fresh) kAllocGroup 0 0 0 0 /\
  dirty_slots st = ∅ /\ written_slots st = ∅.

Lemma fresh_not_live G st d s : fresh_array G st -> ~ slot_live st d s.
Proof.
  intros (_ & Hf & _). unfold slot_live, alloc_at. rewrite nth_lookup. destruct (data_alloc st !! d) as [a|] eqn:E.
  - eapply Forall_lookup_1 in Hf; [|exact E]. rewrite Hf. set_solver.
  - set_solver.
Qed.

Lemma fresh_inv G st : fresh_array G st -> sb_inv G (st, w_disk al_fresh).
Proof.
  intros Hf. pose proof Hf as (Hok & _ & Hlog & _). split; [done|]. exists []. cbn [fst snd]. split.
  - rewrite Hlog. unfold LogGroupOpen. apply al_inv_log; [unfold record_ok, kAllocGroup; cbn; lia|].
    by apply (al_reachable_inv al_fresh), rtc_refl.
  - intros o. rewrite Hlog. split; [intros [b Hb]; vm_compute in Hb; discriminate|].
    intros (d & s & _ & Hl & _). by apply (fresh_not_live G st) in Hl.
Qed.

Lemma sb_step_members G w w' :
  geometry_ok G -> sb_step G w w' -> sb_inv G w -> data_members (fst w') = data_members (fst w).
Proof.
  intros HG. destruct 1 as [st disk size rc blocks st' Hsize HA|st disk blocks Hb|st disk o l' disk' HF|st disk l' disk' HF];
    intros Hinv; cbn [fst]; try done.
  - destruct Hinv as (Hok & _). apply (AllocateBlocks_run G HG) in HA as (slots & [] & _); [done|done|lia].
  - unfold rt_FreeBlocks. cbn [snd].
    revert st Hinv Hb. induction blocks as [|b blocks IH]; intros st Hinv Hb; [done|].
    apply Forall_cons in Hb as [Hb Hbs]. cbn [fold_left].
    destruct (free_block_inv G HG st disk b Hinv Hb) as [Hinv' Hmem]. rewrite IH; [done|done|].
    eapply Forall_impl; [exact Hbs|]. intros b' (d & s & Hd & ?). exists d, s. unfold members_count in *. by rewrite Hmem.
Qed.

Lemma sb_reachable G w w' :
  geometry_ok G -> rtc (sb_step G) w w' -> sb_inv G w -> sb_inv G w' /\ data_members (fst w') = data_members (fst w).
Proof.
  intros HG. induction 1 as [w|w w1 w2 Hstep _ IH]; intros Hinv; [done|].
  pose proof (sb_step_inv G HG w w1 Hstep Hinv) as Hinv1. pose proof (sb_step_members G w w1 HG Hstep Hinv) as Hm.
  destruct (IH Hinv1) as [H1 H2]. split; [done|]. by rewrite H2.
Qed.

(** Allocation is exact. [AllocateBlocks] always terminates; it succeeds
    exactly when the active members have a free slot for every chunk of the
    request; the blocks it returns then cover the request chunk by chunk on
    pairwise distinct (member, slot) pairs of active members, none of which was
    live; exactly these become live and the free capacity shrinks by their
    number. Otherwise it returns no block. The allocators stay well formed. *)
Theorem AllocateBlocks_exact (G : Geometry) (st : Runtime) (size : Z) :
  geometry_ok G -> array_ok G st -> 0 <= size < 2 ^ 64 ->
  exists rc blocks slots st',
    rt_AllocateBlocks G st size = Some (rc, blocks, st') /\ array_ok G st' /\
    NoDup slots /\
    (forall d s, (d, s) ∈ slots ->
       (d < members_count st)%nat /\ data_active st d = true /\ 0 <= s < kSlotsPerMember G /\ ~ slot_live st d s) /\
    (forall d s, slot_live st' d s <-> slot_live st d s \/ (d, s) ∈ slots) /\
    active_remaining st' = active_remaining st - Z.of_nat (length slots) /\
    if decide (chunks G size <= active_remaining st)
    then rc = 0 /\ blocks = taken_blocks G slots size /\ Z.of_nat (length slots) = chunks G size
    else rc = 1 /\ blocks = [].
Proof.
  intros HG Hok Hsize.
  assert (exists r, rt_AllocateBlocks G st size = Some r) as [[[rc blocks] st'] E].
  { unfold rt_AllocateBlocks. destruct (size =? 0); [eauto|]. destruct (data_members st); [eauto|].
    apply alloc_loop_total; [done|lia|]. unfold chunks. destruct HG as [HC _].
    set (C := Z.of_nat (kChunkLen G)) in *. replace (size + C - 1) with (size - 1 + 1 * C) by lia.
    rewrite Z.div_add by lia. assert ((size - 1) / C <= size / C) by (apply Z.div_le_mono; lia).
    assert (0 <= size / C) by (apply Z.div_pos; lia). lia. }
  destruct (AllocateBlocks_run G HG st size rc blocks st' Hok ltac:(lia) E) as (slots & [] & Hres).
  exists rc, blocks, slots, st'. split; [done|]. split; [done|]. split; [done|]. split; [done|]. split; [done|].
  split; [done|]. pose proof (active_remaining_nonneg st'). destruct Hres as [(-> & -> & Hlen)|(-> & -> & Hz & Hlen)].
  - rewrite decide_True by lia. done.
  - rewrite decide_False by lia. done.
Qed.

Definition tiny : Geometry := mkGeometry 4 80 16.

Definition tiny_member (i : Z) : MemberSlot := mkMemberSlot (7, i) [] 0 kData kActive i false.

(** Members of capacities [caps] over devices [0, 1, ...], M parity failures. *)
Definition tiny_array (caps : list Z) (parity : nat) : Runtime :=
  mkRuntime (1, 2) (map tiny_member (map Z.of_nat (seq 0 (length caps)))) [] (seq 0 (length caps)) []
    (fresh_allocs caps) 0 (LogGroupOpen (w_log al_fresh) kAllocGroup 0 0 0 0) parity 0 ∅ ∅
    (mkManifest false 0 (mkLogDisk None None)).

Lemma tiny_ok : geometry_ok tiny.
Proof. split; cbn; lia. Qed.

Lemma fresh_alloc_ok G c : 0 <= c <= kSlotsPerMember G -> alloc_ok G (mkMemberAlloc 0 c [] ∅).
Proof.
  intros Hc. split; cbn; try lia; [constructor|set_solver|]. intros s. split; [lia|].
  intros [H|H]; [set_solver|by apply not_elem_of_nil in H].
Qed.

Lemma tiny_array_fresh caps parity :
  (length caps <= 4)%nat -> Forall (fun c => 0 <= c <= 16) caps -> fresh_array tiny (tiny_array caps parity).
Proof.
  intros Hn Hc. split; [|split; [|done]].
  - split; cbn [tiny_array data_alloc data_members]; unfold fresh_allocs; rewrite ?length_map, ?length_seq; cbn; try lia.
    apply Forall_forall. intros a Ha. apply list_elem_of_In, in_map_iff in Ha as (c & <- & Hin).
    apply fresh_alloc_ok. rewrite Forall_forall in Hc. apply Hc. by apply list_elem_of_In.
  - apply Forall_forall. intros a Ha. by apply list_elem_of_In, in_map_iff in Ha as (c & <- & Hin).
Qed.

Lemma AllocateBlocks_exact_witness :
  array_ok tiny (tiny_array [1; 3] 1) /\
  exists slots st', rt_AllocateBlocks tiny (tiny_array [1; 3] 1) 10 =
    Some (0, [mkBlock 0 4 0; mkBlock 64 4 0; mkBlock 68 2 0], st') /\
    NoDup slots /\ Z.of_nat (length slots) = 3 /\
    forall d s, slot_live st' d s <-> slot_live (tiny_array [1; 3] 1) d s \/ (d, s) ∈ slots.
Proof.
  assert (array_ok tiny (tiny_array [1; 3] 1)) as Hok
    by (apply (tiny_array_fresh [1; 3] 1); [cbn; lia|repeat constructor; lia]).
  split; [exact Hok|].
  destruct (AllocateBlocks_exact tiny (tiny_array [1; 3] 1) 10 tiny_ok Hok ltac:(lia))
    as (rc & blocks & slots & st' & E & _ & Hnd & _ & Hl & _ & Hres).
  destruct (rt_AllocateBlocks tiny (tiny_array [1; 3] 1) 10) as [[[rc0 b0] st0]|] eqn:E0; [|discriminate E].
  injection E as -> -> ->. vm_compute in E0. rewrite decide_True in Hres by (vm_compute; discriminate).
  destruct Hres as (_ & _ & Hlen). exists slots, st'.
  split; [|split; [exact Hnd|split; [exact Hlen|exact Hl]]].
  injection E0 as <- <- <-. reflexivity.
Defined.

(** Restart: from a fresh array and after any allocations (also failed
    ones), frees, log flushes (also failed ones) and compactions, followed by a
    flush, a restart that opens the log and rebuilds the slot allocators from
    the live blocks it lists obtains exactly the live slots of the running
    container, in well-formed allocators that reuse every freed slot; the
    written slots are the live ones and no slot is dirty. *)
Theorem restart_recovers_live_slots (G : Geometry) (st0 st : Runtime) (disk disk1 : LogDisk) (l1 : AllocatorLog) :
  geometry_ok G -> fresh_array G st0 ->
  rtc (sb_step G) (st0, w_disk al_fresh) (st, disk) ->
  Flush (alloc_log st) disk true = (l1, disk1) ->
  exists l2, AllocatorLog_Open AllocatorLog_new disk1 false true true = (true, l2, disk1) /\
    let st1 := restore_allocators G st0 (fst (AllocatorLog_live l2 kAllocGroup)) in
    array_ok G st1 /\
    (forall d s, slot_live st1 d s <-> (d < members_count st)%nat /\ slot_live st d s) /\
    (forall s, s ∈ written_slots st1 <-> ~ stripe_empty st s) /\
    dirty_slots st1 = ∅.
Proof.
  intros HG Hf Hr HF. destruct (sb_reachable G _ _ HG Hr (fresh_inv G st0 Hf)) as [Hinv Hmem].
  assert (sb_inv G (set_log st l1, disk1)) as (_ & M & Hal & Hm)
    by (eapply sb_step_inv; [done|by eapply sb_flush|exact Hinv]).
  destruct Hinv as (Hok & _). cbn [fst snd] in *.
  assert (al_buffer l1 = []) as Hbuf.
  { unfold Flush in HF. pose proof (ai_enabled _ Hal) as He. cbn in He.
    destruct (negb (al_enabled (alloc_log st)) || bool_decide (al_buffer (alloc_log st) = [])) eqn:E.
    - injection HF as <- <-. rewrite He in E. cbn [negb orb] in E. by apply bool_decide_eq_true in E.
    - cbn [negb] in HF. by injection HF as <- _. }
  destruct Hal as [He Hb Hd _ (rs & Hfile & Hrs & Heq & Hn) Hs Hc]. cbn [w_log w_disk w_durable w_model set_log alloc_log] in *.
  destruct disk1 as [file tmp]. cbn [ld_file] in Hfile. subst file.
  destruct (Open_replays rs [] tmp Hrs) as (l2 & Ho & _ & _ & Hs2 & _ & Hc2); [cbn; lia|].
  rewrite app_nil_r in Ho. exists l2. split; [exact Ho|].
  pose proof Hf as (Hok0 & Hfresh & _ & Hdirty & Hwritten).
  assert (forall b, b ∈ fst (AllocatorLog_live l2 kAllocGroup) <->
            exists o, lookup2 (fst (replay rs)) kAllocGroup o = Some b) as Hlist.
  { intros b. rewrite (AllocatorLog_live_spec l2 kAllocGroup b Hc2). change (al_live l2) with (fst (state_of l2)). by rewrite Hs2. }
  assert (state_ok (replay rs)) as [Hkeys _] by (by apply replay_state_ok).
  assert (forall o, (exists b, b ∈ fst (AllocatorLog_live l2 kAllocGroup) /\ lb_offset b = o) <->
            exists d s, (d < members_count st)%nat /\ slot_live st d s /\ o = BandOffset G d s) as Hoff.
  { intros o. rewrite <- (Hm o). unfold log_offset_live. cbn [alloc_log set_log]. rewrite Hbuf, app_nil_r, <- (proj1 Heq).
    split.
    - intros (b & Hb' & <-). apply Hlist in Hb' as [o Ho']. destruct (Hkeys _ _ _ Ho') as (-> & _). by exists b.
    - intros [b Hb']. exists b. split; [apply Hlist; eauto|]. by destruct (Hkeys _ _ _ Hb') as (-> & _). }
  assert (members_count st = members_count st0) as Hcount by (unfold members_count; by rewrite Hmem).
  destruct (restore_allocators_spec G HG st0 (fst (AllocatorLog_live l2 kAllocGroup))
              (fun d s => (d < members_count st)%nat /\ slot_live st d s)) as (H1 & H2 & H3 & H4).
  - exact (ar_len G st0 Hok0).
  - intros d s. by apply (fresh_not_live G).
  - eapply Forall_impl; [exact (ar_alloc G st0 Hok0)|]. intros a []. lia.
  - exact (ar_band G st0 Hok0).
  - exact (ar_num G st0 Hok0).
  - intros d s [Hd' Hl]. split; [lia|]. by apply (slot_live_range G st d).
  - intros d s. split.
    + intros [Hd' Hl]. destruct (proj2 (Hoff (BandOffset G d s))) as (b & Hb' & Eb); [by exists d, s|].
      exists b. split; [done|]. rewrite Eb, (Unband_base G HG st) by (done || by apply (slot_live_range G st d)).
      split; [done|lia].
    + intros (b & Hb' & HU & Hd'). destruct (proj1 (Hoff (lb_offset b))) as (d1 & s1 & Hd1 & Hl1 & E); [eauto|].
      rewrite E, (Unband_base G HG st) in HU by (done || by apply (slot_live_range G st d1)).
      injection HU as <- <-. done.
  - split; [exact H1|]. split; [exact H2|]. split; [|by rewrite H4].
    intros s. rewrite H3, Hwritten. split.
    + intros [Hx|(d & Hd' & Hl)]; [set_solver|]. intros He'. apply (He' d); [|done]. by rewrite (ar_len G st Hok).
    + intros Hne. right. destruct (StripeMembers st s) as [|d l] eqn:E; [by apply StripeMembers_nil in E|].
      assert (d ∈ StripeMembers st s) as Hin by (rewrite E; by left). apply elem_of_StripeMembers in Hin as [Hd' Hl].
      exists d. split; [|done]. by rewrite (ar_len G st Hok) in Hd'.
Qed.

Definition restart_example0 : Runtime := tiny_array [2; 3] 1.
Definition restart_example1 : Runtime :=
  match rt_AllocateBlocks tiny restart_example0 14 with Some (_, _, st) => st | None => restart_example0 end.
Definition restart_example : Runtime := snd (rt_FreeBlocks tiny restart_example1 [mkBlock 64 4 0]).

Lemma restart_example_reachable :
  rtc (sb_step tiny) (restart_example0, w_disk al_fresh) (restart_example, w_disk al_fresh).
Proof.
  eapply rtc_l.
  { apply (sb_allocate tiny restart_example0 (w_disk al_fresh) 14 0
             [mkBlock 0 4 0; mkBlock 64 4 0; mkBlock 4 4 0; mkBlock 68 2 0] restart_example1); [lia|].
    vm_compute. reflexivity. }
  eapply rtc_l; [|apply rtc_refl]. apply sb_free. constructor; [|constructor].
  exists 1%nat, 0. vm_compute. repeat split; try lia; discriminate.
Qed.

Lemma restart_recovers_live_slots_witness :
  fresh_array tiny restart_example0 /\
  exists l1 disk1 l2, Flush (alloc_log restart_example) (w_disk al_fresh) true = (l1, disk1) /\
    AllocatorLog_Open AllocatorLog_new disk1 false true true = (true, l2, disk1) /\
    let st1 := restore_allocators tiny restart_example0 (fst (AllocatorLog_live l2 kAllocGroup)) in
    (forall d s, slot_live st1 d s <-> (d < members_count restart_example)%nat /\ slot_live restart_example d s) /\
    map ma_free (data_alloc st1) = [[]; [0]].
Proof.
  assert (fresh_array tiny restart_example0) as Hf by (apply tiny_array_fresh; [cbn; lia|repeat constructor; lia]).
  split; [exact Hf|].
  destruct (Flush (alloc_log restart_example) (w_disk al_fresh) true) as [l1 disk1] eqn:EF.
  destruct (restart_recovers_live_slots tiny restart_example0 restart_example (w_disk al_fresh) disk1 l1
              tiny_ok Hf restart_example_reachable EF) as (l2 & Ho & _ & Hl & _).
  exists l1, disk1, l2. split; [reflexivity|]. split; [exact Ho|]. split; [exact Hl|].
  clear Hl. vm_compute in EF. injection EF as <- <-. vm_compute in Ho. injection Ho as <-. vm_compute. reflexivity.
Defined.

Lemma stripe_empty_ext st st' s :
  length (data_alloc st') = length (data_alloc st) -> (forall d, slot_live st' d s <-> slot_live st d s) ->
  stripe_empty st' s <-> stripe_empty st s.
Proof. intros Hl H. unfold stripe_empty. rewrite Hl. by setoid_rewrite H. Qed.

Lemma freed_state_marks st d s b s' :
  (s' ∈ dirty_slots (freed_state st d s b) <->
   if decide (s' = s) then ~ stripe_empty (freed_state st d s b) s else s' ∈ dirty_slots st) /\
  (s' ∈ written_slots (freed_state st d s b) <->
   if decide (s' = s) then ~ stripe_empty (freed_state st d s b) s else s' ∈ written_slots st).
Proof.
  assert (stripe_empty (freed_state st d s b) s <->
          StripeMembers (set_log (set_alloc st (alter (fun a => Release a s) d (data_alloc st)))
            (LogFree (alloc_log st) kAllocGroup (b_offset b) (b_size b) 0)) s = []) as Hse.
  { rewrite StripeMembers_nil. unfold freed_state. destruct (StripeMembers _ s); by apply stripe_empty_ext. }
  destruct (decide (s' = s)) as [->|Hne]; [rewrite Hse|]; unfold freed_state; destruct (StripeMembers _ s) as [|d0 l];
    cbn [set_slots dirty_slots written_slots]; set_solver.
Qed.

(** The marks of slot [s] after some frees took [st] to [st']. *)
Definition marks_follow (st st' : Runtime) (s : Z) : Prop :=
  let freed := exists d, slot_live st d s /\ ~ slot_live st' d s in
  (freed -> (s ∈ dirty_slots st' <-> ~ stripe_empty st' s) /\ (s ∈ written_slots st' <-> ~ stripe_empty st' s)) /\
  (~ freed -> (s ∈ dirty_slots st' <-> s ∈ dirty_slots st) /\ (s ∈ written_slots st' <-> s ∈ written_slots st)).

Lemma marks_follow_step G st st1 d s0 b s :
  geometry_ok G -> array_ok G st1 -> (d < members_count st1)%nat -> slot_live st1 d s0 ->
  (forall d' s', slot_live st1 d' s' -> slot_live st d' s') ->
  marks_follow st st1 s -> marks_follow st (freed_state st1 d s0 b) s.
Proof.
  intros HG Hok Hd Hl Hsub Hm.
  destruct (freed_state_spec G st1 d s0 b HG Hok Hd Hl) as (Hok' & Hmem & Hlive & _).
  destruct (freed_state_marks st1 d s0 b s) as [Hdm Hwm]. unfold marks_follow in *. cbv zeta in *.
  rewrite Hdm, Hwm.
  destruct (decide (s = s0)) as [->|Hne].
  - split; [tauto|]. intros Hn. exfalso. apply Hn. exists d. split; [by apply Hsub|]. rewrite Hlive. tauto.
  - assert (forall d', slot_live (freed_state st1 d s0 b) d' s <-> slot_live st1 d' s) as Hs.
    { intros d'. rewrite Hlive. split; [tauto|]. intros H. split; [done|]. congruence. }
    rewrite (stripe_empty_ext st1) by (done || by rewrite (ar_len G _ Hok'), Hmem, (ar_len G _ Hok)).
    setoid_rewrite Hs. exact Hm.
Qed.

(** Freeing is exact: a block whose slot is not live, or whose member does
    not exist, is skipped; the slots of the others stop being live and nothing
    else changes. A freed slot is left dirty exactly when its stripe still has
    a member (its parity must shrink) and is otherwise forgotten. *)
Theorem FreeBlocks_exact (G : Geometry) (st : Runtime) (blocks : list Block) :
  geometry_ok G -> array_ok G st ->
  let st' := snd (rt_FreeBlocks G st blocks) in
  array_ok G st' /\ fst (rt_FreeBlocks G st blocks) = 0 /\ data_members st' = data_members st /\
  (forall d s, (d < members_count st)%nat ->
     slot_live st' d s <->
     slot_live st d s /\ ~ exists b, b ∈ blocks /\ fst (Unband G (b_offset b)) = (d, s)) /\
  forall s, marks_follow st st' s.
Proof.
  intros HG Hok. cbn zeta. unfold rt_FreeBlocks. cbn [fst snd].
  enough (array_ok G (fold_left (free_block G) blocks st) /\
          data_members (fold_left (free_block G) blocks st) = data_members st /\
          (forall d s, slot_live (fold_left (free_block G) blocks st) d s -> slot_live st d s) /\
          (forall d s, (d < members_count st)%nat -> slot_live (fold_left (free_block G) blocks st) d s <->
             slot_live st d s /\ ~ exists b, b ∈ blocks /\ fst (Unband G (b_offset b)) = (d, s)) /\
          forall s, marks_follow st (fold_left (free_block G) blocks st) s) as H by tauto.
  induction blocks as [|b blocks (IHok & IHm & IHsub & IHl & IHmarks)] using rev_ind.
  { cbn [fold_left]. split_and!; try done.
    - intros d s _. split; [|tauto]. intros H. split; [done|]. intros (b & Hb & _). by apply not_elem_of_nil in Hb.
    - intros s. split; [|done]. intros (d & H1 & H2). done. }
  rewrite fold_left_app. cbn [fold_left]. set (st1 := fold_left (free_block G) blocks st) in *.
  destruct (Unband G (b_offset b)) as [[d0 s0] w] eqn:EU. rewrite (free_block_eq G st1 b d0 s0 w EU).
  assert (forall d s, (exists b', b' ∈ blocks ++ [b] /\ fst (Unband G (b_offset b')) = (d, s)) <->
            (exists b', b' ∈ blocks /\ fst (Unband G (b_offset b')) = (d, s)) \/ (d0, s0) = (d, s)) as Hex.
  { intros d s. setoid_rewrite elem_of_app. setoid_rewrite list_elem_of_singleton. split.
    - intros (b' & [Hb| ->] & HU); [left; eauto|right]. by rewrite EU in HU.
    - intros [(b' & Hb & HU)|E]; [eauto|]. exists b. rewrite EU. split; [by right|done]. }
  case_decide as Hd.
  - destruct Hd as [Hd Hl]. assert (d0 < members_count st1)%nat as Hd1
      by (unfold members_count; by rewrite <- (ar_len G _ IHok)).
    destruct (freed_state_spec G st1 d0 s0 b HG IHok Hd1 Hl) as (Hok' & Hmem & Hlive & _).
    split; [done|]. split; [congruence|]. split; [intros d s Hx; apply Hlive in Hx as [Hx _]; eauto|]. split.
    + intros d s Hds. rewrite Hlive, IHl, Hex by done. intuition congruence.
    + intros s. by apply (marks_follow_step G).
  - split; [done|]. split; [done|]. split; [done|]. split; [|done].
    intros d s Hds. rewrite Hex. rewrite IHl by done. split; [|tauto]. intros [H1 H2]. split; [done|].
    intros [H3|[= -> ->]]; [done|]. apply Hd. split; [|by apply IHl].
    rewrite (ar_len G _ IHok), IHm. exact Hds.
Qed.

Lemma FreeBlocks_exact_witness :
  array_ok tiny restart_example1 /\
  let st' := snd (rt_FreeBlocks tiny restart_example1 [mkBlock 64 4 0; mkBlock 4 4 0; mkBlock 64 4 0]) in
  (forall d s, (d < 2)%nat -> slot_live st' d s <-> slot_live restart_example1 d s /\
     ~ exists b, b ∈ [mkBlock 64 4 0; mkBlock 4 4 0; mkBlock 64 4 0] /\ fst (Unband tiny (b_offset b)) = (d, s)) /\
  dirty_slots st' = {[0; 1]}.
Proof.
  assert (array_ok tiny restart_example1) as Hok.
  { assert (array_ok tiny restart_example0) as H0
      by (apply (tiny_array_fresh [2; 3] 1); [cbn; lia|repeat constructor; lia]).
    destruct (AllocateBlocks_run tiny tiny_ok restart_example0 14 0
                [mkBlock 0 4 0; mkBlock 64 4 0; mkBlock 4 4 0; mkBlock 68 2 0] restart_example1 H0 ltac:(lia)
                ltac:(vm_compute; reflexivity)) as (slots & Hrun & _).
    exact (run_ok _ _ _ _ _ Hrun). }
  split; [exact Hok|].
  destruct (FreeBlocks_exact tiny restart_example1 [mkBlock 64 4 0; mkBlock 4 4 0; mkBlock 64 4 0] tiny_ok Hok)
    as (_ & _ & _ & Hl & _).
  split; [exact Hl|]. vm_compute. reflexivity.
Defined.

(** An allocation that fails keeps the slots it had taken: the caller gets
    no block, so nothing can free them. On an array with one free chunk, a
    two-chunk request fails and a one-chunk request fails after it. *)
Theorem failed_AllocateBlocks_leaks :
  let st := tiny_array [1] 1 in
  active_remaining st = 1 /\
  (exists st1, rt_AllocateBlocks tiny st 4 = Some (0, [mkBlock 0 4 0], st1)) /\
  exists st2 st3, rt_AllocateBlocks tiny st 8 = Some (1, [], st2) /\ active_remaining st2 = 0 /\
    slot_live st2 0 0 /\ rt_AllocateBlocks tiny st2 4 = Some (1, [], st3).
Proof.
  split; [reflexivity|]. split; [eexists; vm_compute; reflexivity|].
  do 2 eexists. split; [vm_compute; reflexivity|]. split; [vm_compute; reflexivity|].
  split; [apply (bool_decide_unpack _); vm_compute; exact I|vm_compute; reflexivity].
Qed.
