(* ===== verification/SafeBdevIO.v ===== *)
(** The data plane of the safe_bdev container: the I/O handlers of
    [safe_bdev_runtime.cc].

    A handler is a function on the container's state and the heap of member
    devices; the tasks it awaits run to completion inside it. Devices satisfy
    the [MemberStore] interface of the array layouts; whether an I/O completed
    with a fatal device error is a further operation of the device. Host buffers
    can always be allocated. *)
From Stdlib Require Import ZArith Lia.
From stdpp Require Import base list gmap sorting.
From S2P Require Import Prelude Gf256 ReedSolomon EcArray BlockAllocator AllocLog MemberManifest SafeBdev.

Open Scope Z_scope.

(** A device and the [io_error_] classification of its completed I/O. *)
Class MemberBdev (S : Type) := {
  mb_store :: MemberStore S;
  mb_read_fatal : S -> Z -> nat -> bool;
  mb_write_fatal : S -> Z -> list u8 -> bool
}.

(** A memory device never reports a device error. *)
#[export] Instance MemoryBdev : MemberBdev MemoryStore := {
  mb_store := MemoryStore_ops;
  mb_read_fatal := fun _ _ _ => false;
  mb_write_fatal := fun _ _ _ => false
}.

Section DataPlane.
Context (G : Geometry) {S : Type} {MB : MemberBdev S}.
Implicit Types (st : Runtime) (h : gmap nat S).

Definition read_fatal h (p : nat) (off : Z) (len : nat) : bool :=
  match h !! p with Some s => mb_read_fatal s off len | None => false end.
Definition write_fatal h (p : nat) (off : Z) (bs : list u8) : bool :=
  match h !! p with Some s => mb_write_fatal s off bs | None => false end.

Definition MaybeFaultData st (d : nat) (fatal : bool) : Runtime :=
  if fatal && bool_decide (d < length (data_members st))%nat && data_active st d
  then set_data_state st d kFaulty else st.

Definition MaybeFaultParity st (j : nat) (fatal : bool) : Runtime :=
  if fatal && bool_decide (j < length (parity_members st))%nat && parity_active st j
  then set_parity_state st j kFaulty else st.

Definition ReadDataSegment st h (d : nat) (off : Z) (len : nat) : option (list u8) * Runtime :=
  (store_read h (data_client st d) off len,
   MaybeFaultData st d (read_fatal h (data_client st d) off len)).

Definition WriteDataSegment st h (d : nat) (off : Z) (bs : list u8) : bool * Runtime * gmap nat S :=
  let '(ok, h') := store_write h (data_client st d) off bs in
  (ok, MaybeFaultData st d (write_fatal h (data_client st d) off bs), h').

(** * Reconstruction *)

(** The first gather loop: the stripe's data survivors, up to [k]. *)
Fixpoint gather_data st h (off : Z) (k exclude pos : nat) (stripe idx : list nat) (bufs : list (list u8))
    : list nat * list (list u8) * Runtime :=
  match stripe with
  | [] => (idx, bufs, st)
  | d :: stripe =>
      if decide (d = exclude) then gather_data st h off k exclude (Datatypes.S pos) stripe idx bufs
      else if negb (data_active st d) then gather_data st h off k exclude (Datatypes.S pos) stripe idx bufs
      else
        match ReadDataSegment st h d off (kChunkLen G) with
        | (None, st) => gather_data st h off k exclude (Datatypes.S pos) stripe idx bufs
        | (Some b, st) =>
            let idx := idx ++ [pos] in
            let bufs := bufs ++ [b] in
            if decide (length idx = k) then (idx, bufs, st)
            else gather_data st h off k exclude (Datatypes.S pos) stripe idx bufs
        end
  end.

(** The second one: [n] parity members from [j] on, while fewer than [k]. *)
Fixpoint gather_parity st h (off : Z) (k j n : nat) (idx : list nat) (bufs : list (list u8))
    : list nat * list (list u8) * Runtime :=
  match n with
  | O => (idx, bufs, st)
  | Datatypes.S n =>
      if decide (k <= length idx)%nat then (idx, bufs, st)
      else if negb (parity_active st j) then gather_parity st h off k (Datatypes.S j) n idx bufs
      else
        let r := store_read h (parity_client st j) off (kChunkLen G) in
        let st := MaybeFaultParity st j (read_fatal h (parity_client st j) off (kChunkLen G)) in
        match r with
        | None => gather_parity st h off k (Datatypes.S j) n idx bufs
        | Some b => gather_parity st h off k (Datatypes.S j) n (idx ++ [(k + j)%nat]) (bufs ++ [b])
        end
  end.

Definition ReconstructStripe st h (s : Z) (stripe : list nat) (exclude : nat) : option (list (list u8)) * Runtime :=
  let k := length stripe in
  if decide (k = 0)%nat then (None, st)
  else
    let off := SlotPhysOffset G s in
    let '(idx, bufs, st) := gather_data st h off k exclude 0 stripe [] [] in
    let '(idx, bufs, st) := gather_parity st h off k 0 (parity_level st) idx bufs in
    if decide (length idx < k)%nat then (None, st)
    else (DecodeData (GetCodec st k) idx bufs (kChunkLen G), st).

(** * Write *)

(** Slots of the chunks [off, off + len) spans. *)
Definition touched_slots (off len : Z) : gset Z :=
  let C := Z.of_nat (kChunkLen G) in
  let first := off / C in
  let last := u64 (off + len - 1) / C in
  list_to_set (map (fun i => (first + Z.of_nat i) mod kSlotsPerMember G) (seq 0 (Z.to_nat (last - first + 1)))).

(** The dispatch loop and the awaits, in dispatch order: whether every dispatch
    and every device write succeeded, the devices, the touched slots, and the
    byte count. *)
Fixpoint write_blocks st h (data : list u8) (blocks : list Block) (pos : nat) (bytes : Z) (touched : gset Z) (ok : bool)
    : bool * gmap nat S * gset Z * Z :=
  match blocks with
  | [] => (ok, h, touched, bytes)
  | b :: blocks =>
      let off := b_offset b in
      let len := b_size b in
      if len =? 0 then write_blocks st h data blocks pos bytes touched ok
      else
        let '(d, s0, within) := Unband G off in
        if decide (length (data_members st) <= d)%nat then (false, h, touched, bytes)
        else
          let phys := u64 (SlotPhysOffset G s0 + Z.of_nat within) in
          let '(okw, h) :=
            if data_active st d
            then store_write h (data_client st d) phys (take (Z.to_nat len) (drop pos data))
            else (true, h) in
          write_blocks st h data blocks (pos + Z.to_nat len) (u64 (bytes + len))
            (touched ∪ touched_slots off len) (ok && okw)
  end.

(** Return code, [bytes_written_], state, devices. *)
Definition rt_Write st h (blocks : list Block) (data : list u8) : Z * Z * Runtime * gmap nat S :=
  if decide (data_members st = [] \/ blocks = []) then (1, 0, st, h)
  else
    let '(ok, h, touched, bytes) := write_blocks st h data blocks 0 0 ∅ true in
    if ok then (0, bytes, fold_left MarkSlotDirty (elements touched) st, h)
    else (1, 0, st, h).

(** * Read *)

Fixpoint find_pos (d pos : nat) (stripe : list nat) : option nat :=
  match stripe with
  | [] => None
  | d' :: stripe => if decide (d' = d) then Some pos else find_pos d (Datatypes.S pos) stripe
  end.

(** The degraded loop over [cur, hi): success, bytes appended, state; [None]
    when the fuel runs out. *)
Fixpoint read_degraded (fuel : nat) st h (cur hi : Z) (out : list u8) : option (bool * list u8 * Runtime) :=
  match fuel with
  | O => None
  | Datatypes.S fuel =>
      if hi <=? cur then Some (true, out, st)
      else
        let '(dd, s, within) := Unband G cur in
        let C := Z.of_nat (kChunkLen G) in
        let chunk_base := cur / C * C in
        let seg_end := Z.min hi (u64 (chunk_base + C)) in
        let seg_len := seg_end - cur in
        if IsSlotDirty st s then Some (false, out, st)
        else
          let stripe := StripeMembers st s in
          match find_pos dd 0 stripe with
          | None => Some (false, out, st)
          | Some pos =>
              match ReconstructStripe st h s stripe dd with
              | (None, st) => Some (false, out, st)
              | (Some chunks, st) =>
                  read_degraded fuel st h seg_end hi
                    (out ++ take (Z.to_nat seg_len) (drop within (shard chunks pos)))
              end
          end
  end.

(** Enough for the chunks that [len] bytes can straddle, and the last test. *)
Definition read_fuel (len : Z) : nat := (3 + Z.to_nat (len / Z.of_nat (kChunkLen G)))%nat.

(** Return code, [bytes_read_], the bytes put in the caller's buffer, state. *)
Fixpoint read_blocks st h (blocks : list Block) (bytes : Z) (out : list u8) : option (Z * Z * list u8 * Runtime) :=
  match blocks with
  | [] => Some (0, bytes, out, st)
  | b :: blocks =>
      let off := b_offset b in
      let len := b_size b in
      if len =? 0 then read_blocks st h blocks bytes out
      else
        let '(d, s0, within) := Unband G off in
        if decide (length (data_members st) <= d)%nat then Some (1, bytes, out, st)
        else if data_active st d then
          let phys := u64 (SlotPhysOffset G s0 + Z.of_nat within) in
          match ReadDataSegment st h d phys (Z.to_nat len) with
          | (None, st) => Some (1, bytes, out, st)
          | (Some bs, st) => read_blocks st h blocks (u64 (bytes + len)) (out ++ bs)
          end
        else
          match read_degraded (read_fuel len) st h off (u64 (off + len)) out with
          | None => None
          | Some (false, out, st) => Some (1, bytes, out, st)
          | Some (true, out, st) => read_blocks st h blocks (u64 (bytes + len)) out
          end
  end.

Definition rt_Read st h (blocks : list Block) : option (Z * Z * list u8 * Runtime) :=
  if decide (data_members st = [] \/ blocks = []) then Some (1, 0, [], st)
  else read_blocks st h blocks 0 [].

(** * Parity *)

(** The chunks of a stripe whose members must all be active. *)
Fixpoint read_stripe st h (off : Z) (stripe : list nat) (acc : list (list u8)) : option (list (list u8)) * Runtime :=
  match stripe with
  | [] => (Some acc, st)
  | d :: stripe =>
      if negb (data_active st d) then (None, st)
      else match ReadDataSegment st h d off (kChunkLen G) with
           | (None, st) => (None, st)
           | (Some b, st) => read_stripe st h off stripe (acc ++ [b])
           end
  end.

Definition write_parity st h (s : Z) (k : nat) (data : list (list u8)) : bool * (Runtime * gmap nat S) :=
  for_ok (parity_level st) (fun j '(st, h) =>
    if negb (parity_active st j) then (true, (st, h))
    else
      let bs := EncodeParityShard (GetCodec st k) j data (kChunkLen G) in
      let p := parity_client st j in
      let '(ok, h') := store_write h p (SlotPhysOffset G s) bs in
      (ok, (MaybeFaultParity st j (write_fatal h p (SlotPhysOffset G s) bs), h'))) (st, h).

Definition clear_dirty st (s : Z) : Runtime := set_slots st (dirty_slots st ∖ {[s]}) (written_slots st).

Definition build_slot (st_h : Runtime * gmap nat S) (s : Z) : Runtime * gmap nat S :=
  let '(st, h) := st_h in
  let stripe := StripeMembers st s in
  match stripe with
  | [] => (clear_dirty st s, h)
  | _ =>
      match read_stripe st h (SlotPhysOffset G s) stripe [] with
      | (None, st) => (st, h)
      | (Some data, st) =>
          let '(ok, (st, h)) := write_parity st h s (length stripe) data in
          if ok then (clear_dirty st s, h) else (st, h)
      end
  end.

(** [std::set] iterates in increasing order. *)
Definition in_order (X : gset Z) : list Z := merge_sort Z.le (elements X).

Definition rt_BuildParity st h (max_batch : nat) : Z * Runtime * gmap nat S :=
  if decide (parity_level st = 0)%nat then (0, set_slots st ∅ (written_slots st), h)
  else
    let all := in_order (dirty_slots st) in
    let batch := if decide (max_batch = 0)%nat then all else take max_batch all in
    let '(st, h) := fold_left build_slot batch (st, h) in
    (0, st, h).
End DataPlane.

(** * What the data plane relies on *)

(** Beyond the laws of a member store: a successful read agrees with the reads
    of its single bytes. *)
Class MemberBdevSpec (S : Type) {MB : MemberBdev S} := {
  mbs_spec :: MemberStoreSpec S;
  mb_read_byte (s : S) (off : Z) (len : nat) (l : list u8) (i : nat) :
    0 <= off -> off + Z.of_nat len < 2 ^ 64 ->
    ms_Read s off len = Some l -> (i < len)%nat -> ms_Read s (off + Z.of_nat i) 1 = Some [bget l i]
}.

#[export] Instance MemoryBdev_spec : MemberBdevSpec MemoryStore.
Proof.
  split; [apply MemoryStore_spec|]. cbn [ms_Read mb_store MemoryBdev MemoryStore_ops].
  intros s off len l i H0 H1. rewrite (MemoryStore_Read_ok s off len) by lia. case_decide; [|done]. intros [= <-] Hi.
  rewrite MemoryStore_Read_ok, decide_True by lia. f_equal. apply list_eq. intros j.
  destruct j as [|j]; [|rewrite !lookup_ge_None_2; [done|cbn; lia|rewrite length_take; lia]].
  unfold bget. rewrite nth_lookup, !lookup_take, !decide_True, !lookup_drop by lia. cbn [lookup list_lookup].
  replace (Z.to_nat (off + Z.of_nat i) + 0)%nat with (Z.to_nat off + i)%nat by lia.
  destruct (lookup_lt_is_Some_2 (buf_ s) (Z.to_nat off + i)) as [x E]; [lia|]. by rewrite E.
Qed.

(** * Faulting members *)

(** [st'] is [st] but for members ejected by device errors. *)
Record faulted (st st' : Runtime) : Prop := {
  fl_pool : rt_pool_id st' = rt_pool_id st;
  fl_data : length (data_members st') = length (data_members st);
  fl_parity : length (parity_members st') = length (parity_members st);
  fl_data_clients : data_clients st' = data_clients st;
  fl_parity_clients : parity_clients st' = parity_clients st;
  fl_alloc : data_alloc st' = data_alloc st;
  fl_log : alloc_log st' = alloc_log st;
  fl_max : max_failures st' = max_failures st;
  fl_level : parity_level st' = parity_level st;
  fl_dirty : dirty_slots st' = dirty_slots st;
  fl_written : written_slots st' = written_slots st;
  fl_data_active : forall d, data_active st' d = true -> data_active st d = true;
  fl_parity_active : forall j, parity_active st' j = true -> parity_active st j = true
}.

#[export] Instance faulted_preorder : PreOrder faulted.
Proof.
  split; [intros st; by split|]. intros st1 st2 st3 [] []. split; try congruence; auto.
Qed.

Lemma nth_alter {A} (f : A -> A) (l : list A) i j x :
  (i < length l)%nat -> nth j (alter f i l) x = if decide (i = j) then f (nth j l x) else nth j l x.
Proof.
  intros Hi. rewrite !nth_lookup, list_lookup_alter. case_decide as E; [|done]. subst.
  by destruct (lookup_lt_is_Some_2 l j Hi) as [y ->].
Qed.

Lemma MaybeFaultData_faulted st d b : faulted st (MaybeFaultData st d b).
Proof.
  unfold MaybeFaultData. destruct (b && bool_decide _ && _) eqn:E; [|reflexivity].
  apply andb_true_iff in E as [E Ha]. apply andb_true_iff in E as [_ Hd]. apply bool_decide_eq_true in Hd.
  split; cbn; try done; [by rewrite length_alter|]. intros d'. unfold data_active, data_at. cbn [data_members set_data_state set_data].
  rewrite nth_alter by done. case_decide; [|done]. subst. by rewrite bool_decide_eq_true.
Qed.

Lemma MaybeFaultParity_faulted st j b : faulted st (MaybeFaultParity st j b).
Proof.
  unfold MaybeFaultParity. destruct (b && bool_decide _ && _) eqn:E; [|reflexivity].
  apply andb_true_iff in E as [E Ha]. apply andb_true_iff in E as [_ Hd]. apply bool_decide_eq_true in Hd.
  split; cbn; try done; [by rewrite length_alter|]. intros j'. unfold parity_active, parity_at. cbn [parity_members set_parity_state set_parity].
  rewrite nth_alter by done. case_decide; [|done]. subst. by rewrite bool_decide_eq_true.
Qed.

Lemma faulted_StripeMembers st st' s : faulted st st' -> StripeMembers st' s = StripeMembers st s.
Proof. intros [_ _ _ _ _ Ha _ _ _ _ _ _ _]. unfold StripeMembers, alloc_at. by rewrite Ha. Qed.

Lemma faulted_slot_live st st' d s : faulted st st' -> slot_live st' d s <-> slot_live st d s.
Proof. intros [_ _ _ _ _ Ha _ _ _ _ _ _ _]. unfold slot_live, alloc_at. by rewrite Ha. Qed.

(** * The invariant *)

(** The chunk stored in each (member, slot). *)
Abbreviation chunk_contents := (nat -> Z -> list u8) (only parsing).

Definition splice (l : list u8) (w : nat) (bs : list u8) : list u8 := take w l ++ bs ++ drop (w + length bs) l.

Lemma splice_bget l w bs i :
  (w + length bs <= length l)%nat ->
  bget (splice l w bs) i = if decide (w <= i < w + length bs)%nat then bget bs (i - w) else bget l i.
Proof.
  intros Hl. unfold bget, splice. rewrite !nth_lookup. case_decide as Hi.
  - rewrite lookup_app_r by (rewrite length_take; lia). rewrite length_take, lookup_app_l by lia.
    by replace (i - w `min` length l)%nat with (i - w)%nat by lia.
  - destruct (decide (i < w)%nat).
    + rewrite lookup_app_l by (rewrite length_take; lia). by rewrite lookup_take, decide_True by lia.
    + rewrite lookup_app_r by (rewrite length_take; lia). rewrite length_take, lookup_app_r, lookup_drop by lia.
      by replace (w + length bs + (i - w `min` length l - length bs))%nat with i by lia.
Qed.

Lemma length_splice l w bs : (w + length bs <= length l)%nat -> length (splice l w bs) = length l.
Proof. intros H. unfold splice. rewrite !length_app, length_take, length_drop. lia. Qed.

Record io_geometry (G : Geometry) : Prop := {
  ig_ok : geometry_ok G;
  ig_band : 257 * kSlotsPerMember G * Z.of_nat (kChunkLen G) <= 2 ^ 64;
  ig_phys : Z.of_nat (kSuperblockSize G) + kSlotsPerMember G * Z.of_nat (kChunkLen G) < 2 ^ 64
}.

Section Invariant.
Context (G : Geometry) (HG : io_geometry G) {S : Type} {MB : MemberBdev S} {MS : MemberBdevSpec S}.
Implicit Types (st : Runtime) (h : gmap nat S) (D : chunk_contents) (stale : gset Z).

Definition reads_byte h (p : nat) (a : Z) (v : u8) : Prop :=
  forall l, store_read h p a 1 = Some l -> l = [v].

(** The parity row [j] of stripe [s] over the contents [D]. *)
Definition stripe_parity st D (s : Z) (j : nat) : list u8 :=
  EncodeParityShard (GetCodec st (length (StripeMembers st s))) j
    (map (fun d => D d s) (StripeMembers st s)) (kChunkLen G).

Record devices_ok st : Prop := {
  dv_data : length (data_clients st) = length (data_members st);
  dv_parity : length (parity_clients st) = length (parity_members st);
  dv_level : parity_level st = length (parity_members st);
  dv_distinct : NoDup (data_clients st ++ parity_clients st);
  dv_codec : (length (data_members st) + max_failures st <= 256)%nat;
  dv_max : (parity_level st <= max_failures st)%nat
}.

(** What is read from active members is the contents; the parity of a slot that
    is neither dirty nor in [stale] is current. *)
Record io_inv st h D stale : Prop := {
  io_array : array_ok G st;
  io_devices : devices_ok st;
  io_len : forall d s, length (D d s) = kChunkLen G;
  io_data : forall d s i, (d < members_count st)%nat -> slot_live st d s -> data_active st d = true ->
    (i < kChunkLen G)%nat ->
    reads_byte h (data_client st d) (SlotPhysOffset G s + Z.of_nat i) (bget (D d s) i);
  io_parity : forall s j l, s ∉ dirty_slots st -> s ∉ stale -> 0 <= s < kSlotsPerMember G ->
    (j < parity_level st)%nat -> parity_active st j = true ->
    StripeMembers st s <> [] ->
    store_read h (parity_client st j) (SlotPhysOffset G s) (kChunkLen G) = Some l -> l = stripe_parity st D s j;
  io_written : forall s, s ∉ stale -> StripeMembers st s <> [] -> s ∈ written_slots st
}.

Lemma SlotPhysOffset_exact s :
  0 <= s < kSlotsPerMember G ->
  SlotPhysOffset G s = Z.of_nat (kSuperblockSize G) + s * Z.of_nat (kChunkLen G) /\
  0 <= SlotPhysOffset G s /\ SlotPhysOffset G s + Z.of_nat (kChunkLen G) < 2 ^ 64.
Proof using HG.
  intros Hs. destruct HG as [[HC HK] _ HP]. unfold SlotPhysOffset. rewrite u64_small by nia. split; [done|]. nia.
Qed.

Lemma slots_phys_disjoint s s' :
  0 <= s < kSlotsPerMember G -> 0 <= s' < kSlotsPerMember G -> s <> s' ->
  SlotPhysOffset G s + Z.of_nat (kChunkLen G) <= SlotPhysOffset G s' \/
  SlotPhysOffset G s' + Z.of_nat (kChunkLen G) <= SlotPhysOffset G s.
Proof using HG.
  intros Hs Hs' Hne. destruct (SlotPhysOffset_exact s Hs) as [-> _], (SlotPhysOffset_exact s' Hs') as [-> _]. nia.
Qed.

Lemma store_read_byte h p off len l i :
  0 <= off -> off + Z.of_nat len < 2 ^ 64 -> store_read h p off len = Some l -> (i < len)%nat ->
  store_read h p (off + Z.of_nat i) 1 = Some [bget l i].
Proof using MS.
  unfold store_read. destruct (h !! p) as [s|]; [|done]. intros H0 H1 Hr Hi. by eapply mb_read_byte.
Qed.

Lemma store_read_length h p off len l :
  0 <= off -> off + Z.of_nat len < 2 ^ 64 -> store_read h p off len = Some l -> length l = len.
Proof using MS. unfold store_read. destruct (h !! p) as [s|]; [|done]. intros H0 H1. by apply ms_read_length. Qed.

(** A read inside a chunk of an active member. *)
Lemma chunk_read st h D stale d s w len l :
  io_inv st h D stale -> (d < members_count st)%nat -> slot_live st d s -> data_active st d = true ->
  (w + len <= kChunkLen G)%nat ->
  store_read h (data_client st d) (SlotPhysOffset G s + Z.of_nat w) len = Some l ->
  l = take len (drop w (D d s)).
Proof using HG MS.
  intros Hinv Hd Hl Ha Hw Hr.
  destruct (SlotPhysOffset_exact s (slot_live_range G st d s (io_array _ _ _ _ Hinv) Hd Hl)) as (_ & H0 & H1).
  pose proof (store_read_length h _ (SlotPhysOffset G s + Z.of_nat w) len l ltac:(lia) ltac:(lia) Hr) as Hlen.
  pose proof (io_len _ _ _ _ Hinv d s) as HD.
  apply bget_eq; [rewrite length_take, length_drop; lia|]. intros i Hi.
  pose proof (store_read_byte h _ (SlotPhysOffset G s + Z.of_nat w) len l i ltac:(lia) ltac:(lia) Hr ltac:(lia)) as Hb.
  replace (SlotPhysOffset G s + Z.of_nat w + Z.of_nat i) with (SlotPhysOffset G s + Z.of_nat (w + i)) in Hb by lia.
  pose proof (io_data _ _ _ _ Hinv d s (w + i) Hd Hl Ha ltac:(lia) _ Hb) as [= ->].
  unfold bget. by rewrite !nth_lookup, lookup_take, decide_True, lookup_drop by lia.
Qed.

Lemma chunk_read_whole st h D stale d s l :
  io_inv st h D stale -> (d < members_count st)%nat -> slot_live st d s -> data_active st d = true ->
  store_read h (data_client st d) (SlotPhysOffset G s) (kChunkLen G) = Some l -> l = D d s.
Proof using HG MS.
  intros Hinv Hd Hl Ha Hr.
  rewrite (chunk_read st h D stale d s 0 (kChunkLen G) l Hinv Hd Hl Ha ltac:(lia)) by (by rewrite Z.add_0_r).
  rewrite drop_0. apply take_ge. by rewrite (io_len _ _ _ _ Hinv).
Qed.

Lemma faulted_inv st st' h D stale : faulted st st' -> io_inv st h D stale -> io_inv st' h D stale.
Proof using.
  intros Hf [[A1 A2 A3 A4] [V1 V2 V3 V4 V5 V6] HL Hdat Hpar Hwr].
  pose proof (faulted_StripeMembers st st') as HSM. pose proof Hf as [P Fd Fp Fdc Fpc Fa Flog Fm Flv Fdirty Fw Fda Fpa].
  split.
  - split; rewrite ?Fa, ?Fd; done.
  - split; rewrite ?Fdc, ?Fpc, ?Fd, ?Fp, ?Flv, ?Fm; done.
  - done.
  - unfold members_count, slot_live, alloc_at, data_client. rewrite Fd, Fa, Fdc. intros d s i Hd Hl Ha Hi.
    apply Hdat; auto.
  - unfold parity_client, stripe_parity, GetCodec. rewrite Fdirty, Flv, Fpc, Fm. intros s j l Hs Hst Hr Hj Ha.
    rewrite (HSM s Hf). intros Hne Hl. by apply Hpar; auto.
  - intros s Hs. rewrite (HSM s Hf), Fw. by apply Hwr.
Qed.
End Invariant.

(** * Reconstruction *)

Section Reconstruct.
Context (G : Geometry) (HG : io_geometry G) {S : Type} {MB : MemberBdev S} {MS : MemberBdevSpec S}.
Implicit Types (st : Runtime) (h : gmap nat S) (D : chunk_contents) (stale : gset Z).

Lemma ReadDataSegment_spec st h d off len r st' :
  ReadDataSegment st h d off len = (r, st') -> r = store_read h (data_client st d) off len /\ faulted st st'.
Proof using. intros [= <- <-]. split; [done|]. apply MaybeFaultData_faulted. Qed.

(** Survivors gathered so far: distinct shards of the stripe's codeword. *)
Record gathered (rs : ReedSolomon) (data : list (list u8)) (len lim : nat) (idx : list nat) (bufs : list (list u8)) : Prop := {
  ga_len : length bufs = length idx;
  ga_nodup : NoDup idx;
  ga_shard : forall i g, idx !! i = Some g -> (g < lim)%nat /\ shard bufs i = codeword_shard rs data len g
}.

Lemma gathered_mono rs data len lim lim' idx bufs :
  (lim <= lim')%nat -> gathered rs data len lim idx bufs -> gathered rs data len lim' idx bufs.
Proof using. intros Hl [H1 H2 H3]. split; [done|done|]. intros i g E. destruct (H3 i g E). split; [lia|done]. Qed.

Lemma gathered_snoc rs data len lim idx bufs b :
  gathered rs data len lim idx bufs -> b = codeword_shard rs data len lim ->
  gathered rs data len (Datatypes.S lim) (idx ++ [lim]) (bufs ++ [b]).
Proof using.
  intros [H1 H2 H3] ->. split.
  - rewrite !length_app, H1. done.
  - apply NoDup_app. split; [done|]. split; [|apply NoDup_singleton].
    intros g Hg ->%list_elem_of_singleton. apply list_elem_of_lookup in Hg as [i E]. destruct (H3 i _ E). lia.
  - intros i g E. unfold shard in *. apply lookup_app_Some in E as [E|[Hi E]].
    + pose proof (lookup_lt_Some _ _ _ E). destruct (H3 i g E) as [Hg Hs]. split; [lia|].
      by rewrite app_nth1 by lia.
    + destruct (i - length idx)%nat as [|n] eqn:En; [|done]. cbn in E. injection E as <-. split; [lia|].
      rewrite app_nth2 by lia. replace (i - length bufs)%nat with 0%nat by lia. done.
Qed.

(** The stripe's data and its code, fixed while members may be faulted. *)
Record stripe_of st (s : Z) (stripe : list nat) (M : nat) : Prop := {
  so_stripe : StripeMembers st s = stripe;
  so_max : max_failures st = M
}.

Lemma stripe_of_faulted st st' s stripe M : faulted st st' -> stripe_of st s stripe M -> stripe_of st' s stripe M.
Proof using. intros Hf [H1 H2]. split; [by rewrite (faulted_StripeMembers _ _ _ Hf)|]. by rewrite (fl_max _ _ Hf). Qed.

Lemma stripe_member st h D stale s d :
  io_inv G st h D stale -> d ∈ StripeMembers st s ->
  (d < members_count st)%nat /\ slot_live st d s.
Proof using.
  intros Hinv Hd. apply elem_of_StripeMembers in Hd as [Hd Hl]. split; [|done].
  unfold members_count. by rewrite <- (ar_len G _ (io_array _ _ _ _ _ Hinv)).
Qed.

Lemma gather_data_spec st h D stale s stripe0 M exclude pos stripe idx bufs idx' bufs' st' :
  io_inv G st h D stale -> stripe_of st s stripe0 M ->
  stripe = drop pos stripe0 -> (pos + length stripe = length stripe0)%nat ->
  gathered (ReedSolomon_new (length stripe0) M) (map (fun d => D d s) stripe0) (kChunkLen G) pos idx bufs ->
  gather_data G st h (SlotPhysOffset G s) (length stripe0) exclude pos stripe idx bufs = (idx', bufs', st') ->
  faulted st st' /\
  gathered (ReedSolomon_new (length stripe0) M) (map (fun d => D d s) stripe0) (kChunkLen G) (length stripe0) idx' bufs'.
Proof using HG MS.
  revert st pos idx bufs. induction stripe as [|d stripe IH];
    intros st pos idx bufs Hinv Hso Hdrop Hpos Hga Hg; cbn [gather_data length] in Hg, Hpos.
  { injection Hg as <- <- <-. split; [reflexivity|]. eapply gathered_mono; [|exact Hga]. lia. }
  assert (stripe0 !! pos = Some d) as Hd by (rewrite <- (Nat.add_0_r pos), <- lookup_drop; by rewrite <- Hdrop).
  assert (stripe = drop (Datatypes.S pos) stripe0) as Hdrop'.
  { replace (Datatypes.S pos) with (pos + 1)%nat by lia. rewrite <- drop_drop, <- Hdrop. by rewrite drop_0 || done. }
  assert (gathered (ReedSolomon_new (length stripe0) M) (map (fun d => D d s) stripe0) (kChunkLen G)
            (Datatypes.S pos) idx bufs) as Hskip by (eapply gathered_mono; [|exact Hga]; lia).
  case_decide; [by apply (IH _ (Datatypes.S pos) idx bufs); try done; lia|].
  destruct (negb (data_active st d)) eqn:Ea; [by apply (IH _ (Datatypes.S pos) idx bufs); try done; lia|].
  apply negb_false_iff in Ea. destruct (ReadDataSegment st h d (SlotPhysOffset G s) (kChunkLen G)) as [r st1] eqn:Er.
  apply ReadDataSegment_spec in Er as [-> Hf1].
  pose proof (faulted_inv G _ _ h D stale Hf1 Hinv) as Hinv1. pose proof (stripe_of_faulted _ _ _ _ _ Hf1 Hso) as Hso1.
  destruct (store_read h (data_client st d) (SlotPhysOffset G s) (kChunkLen G)) as [b|] eqn:Eb.
  - assert (b = D d s) as ->.
    { destruct (stripe_member st h D stale s d Hinv) as [Hdn Hl]; [rewrite (so_stripe _ _ _ _ Hso); by eapply list_elem_of_lookup_2|].
      exact (chunk_read_whole G HG st h D stale d s b Hinv Hdn Hl Ea Eb). }
    assert (gathered (ReedSolomon_new (length stripe0) M) (map (fun d => D d s) stripe0) (kChunkLen G)
              (Datatypes.S pos) (idx ++ [pos]) (bufs ++ [D d s])) as Hga'.
    { apply gathered_snoc; [done|]. unfold codeword_shard. rewrite decide_True by (cbn; lia).
      unfold shard. rewrite nth_lookup. change (map ?f ?l) with (f <$> l). by rewrite list_lookup_fmap, Hd. }
    case_decide.
    + injection Hg as <- <- <-. split; [done|]. eapply gathered_mono; [|exact Hga']. lia.
    + destruct (IH _ (Datatypes.S pos) (idx ++ [pos]) (bufs ++ [D d s]) Hinv1 Hso1 Hdrop' ltac:(lia) Hga' Hg) as [Hf2 Hr].
      split; [by transitivity st1|done].
  - destruct (IH _ (Datatypes.S pos) idx bufs Hinv1 Hso1 Hdrop' ltac:(lia) Hskip Hg) as [Hf2 Hr].
    split; [by transitivity st1|done].
Qed.

Lemma gather_parity_spec st h D stale s stripe0 M j n idx bufs idx' bufs' st' :
  io_inv G st h D stale -> stripe_of st s stripe0 M -> stripe0 <> [] ->
  s ∉ dirty_slots st -> s ∉ stale -> 0 <= s < kSlotsPerMember G -> (j + n <= parity_level st)%nat ->
  gathered (ReedSolomon_new (length stripe0) M) (map (fun d => D d s) stripe0) (kChunkLen G) (length stripe0 + j) idx bufs ->
  gather_parity G st h (SlotPhysOffset G s) (length stripe0) j n idx bufs = (idx', bufs', st') ->
  faulted st st' /\
  gathered (ReedSolomon_new (length stripe0) M) (map (fun d => D d s) stripe0) (kChunkLen G)
    (length stripe0 + j + n) idx' bufs'.
Proof using.
  revert st j idx bufs. induction n as [|n IH];
    intros st j idx bufs Hinv Hso Hne Hdirty Hstale Hs Hj Hga Hg; cbn [gather_parity] in Hg.
  { injection Hg as <- <- <-. split; [reflexivity|]. by rewrite Nat.add_0_r. }
  assert (gathered (ReedSolomon_new (length stripe0) M) (map (fun d => D d s) stripe0) (kChunkLen G)
            (length stripe0 + Datatypes.S j) idx bufs) as Hskip by (eapply gathered_mono; [|exact Hga]; lia).
  case_decide; [injection Hg as <- <- <-; split; [reflexivity|]; eapply gathered_mono; [|exact Hga]; lia|].
  replace (length stripe0 + j + Datatypes.S n)%nat with (length stripe0 + Datatypes.S j + n)%nat by lia.
  destruct (negb (parity_active st j)) eqn:Ea; [apply (IH _ (Datatypes.S j) idx bufs); try done; lia|].
  apply negb_false_iff in Ea.
  pose proof (MaybeFaultParity_faulted st j (read_fatal h (parity_client st j) (SlotPhysOffset G s) (kChunkLen G))) as Hf1.
  set (st1 := MaybeFaultParity st j _) in *.
  pose proof (faulted_inv G _ _ h D stale Hf1 Hinv) as Hinv1. pose proof (stripe_of_faulted _ _ _ _ _ Hf1 Hso) as Hso1.
  rewrite <- (fl_dirty _ _ Hf1) in Hdirty. 
  destruct (store_read h (parity_client st j) (SlotPhysOffset G s) (kChunkLen G)) as [b|] eqn:Eb.
  - assert (b = stripe_parity G st D s j) as ->.
    { eapply (io_parity G st h D stale Hinv s j b); try done; [by rewrite <- (fl_dirty _ _ Hf1)|lia|by rewrite (so_stripe _ _ _ _ Hso)]. }
    edestruct (IH st1 (Datatypes.S j)) as [Hf2 Hr]; [done|done|done|done|done|done| | |exact Hg|].
    + rewrite (fl_level _ _ Hf1). lia.
    + replace (length stripe0 + Datatypes.S j)%nat with (Datatypes.S (length stripe0 + j)) by lia.
      apply gathered_snoc; [done|]. unfold codeword_shard. rewrite decide_False by (cbn; lia). cbn [k_ ReedSolomon_new].
      replace (length stripe0 + j - length stripe0)%nat with j by lia.
      unfold stripe_parity, GetCodec. by rewrite (so_stripe _ _ _ _ Hso), (so_max _ _ _ _ Hso).
    + split; [by transitivity st1|done].
  - edestruct (IH st1 (Datatypes.S j)) as [Hf2 Hr]; [done|done|done|done|done|done| |exact Hskip|exact Hg|].
    + rewrite (fl_level _ _ Hf1). lia.
    + split; [by transitivity st1|done].
Qed.

Lemma gather_data_faulted st h off k exclude pos stripe idx bufs idx' bufs' st' :
  gather_data G st h off k exclude pos stripe idx bufs = (idx', bufs', st') -> faulted st st'.
Proof using.
  revert st pos idx bufs. induction stripe as [|d stripe IH]; intros st pos idx bufs; cbn [gather_data].
  { by intros [= _ _ <-]. }
  case_decide; [apply IH|]. destruct (negb _); [apply IH|]. destruct (ReadDataSegment _ _ _ _ _) as [r st1] eqn:Er.
  apply ReadDataSegment_spec in Er as [_ Hf]. destruct r as [b|]; [case_decide|].
  - by intros [= _ _ <-].
  - intros Hg. apply IH in Hg. by transitivity st1.
  - intros Hg. apply IH in Hg. by transitivity st1.
Qed.

Lemma gather_parity_faulted st h off k j n idx bufs idx' bufs' st' :
  gather_parity G st h off k j n idx bufs = (idx', bufs', st') -> faulted st st'.
Proof using.
  revert st j idx bufs. induction n as [|n IH]; intros st j idx bufs; cbn [gather_parity].
  { by intros [= _ _ <-]. }
  case_decide; [by intros [= _ _ <-]|]. destruct (negb _); [apply IH|].
  pose proof (MaybeFaultParity_faulted st j (read_fatal h (parity_client st j) off (kChunkLen G))) as Hf.
  destruct (store_read _ _ _ _); intros Hg; apply IH in Hg; (etransitivity; [exact Hf|exact Hg]).
Qed.

Lemma ReconstructStripe_faulted st h s stripe exclude r st' :
  ReconstructStripe G st h s stripe exclude = (r, st') -> faulted st st'.
Proof using.
  unfold ReconstructStripe. case_decide; [by intros [= _ <-]|].
  destruct (gather_data G _ _ _ _ _ _ _ _ _) as [[idx bufs] st1] eqn:E1.
  destruct (gather_parity G _ _ _ _ _ _ _ _) as [[idx' bufs'] st2] eqn:E2.
  apply gather_data_faulted in E1. apply gather_parity_faulted in E2.
  case_decide; intros [= _ <-]; by transitivity st1.
Qed.

(** The shards reconstruction gathers. *)
Definition survivors st h (s : Z) (exclude : nat) : list nat :=
  let stripe := StripeMembers st s in
  let '(idx, bufs, st) := gather_data G st h (SlotPhysOffset G s) (length stripe) exclude 0 stripe [] [] in
  fst (fst (gather_parity G st h (SlotPhysOffset G s) (length stripe) 0 (parity_level st) idx bufs)).

(** What reconstruction returns is the contents of the whole stripe; it fails
    only for lack of survivors. *)
Lemma ReconstructStripe_spec st h D stale s exclude r st' :
  io_inv G st h D stale -> s ∉ dirty_slots st -> s ∉ stale -> 0 <= s < kSlotsPerMember G ->
  ReconstructStripe G st h s (StripeMembers st s) exclude = (r, st') ->
  faulted st st' /\ (forall chunks, r = Some chunks -> chunks = map (fun d => D d s) (StripeMembers st s)) /\
  (r = None -> (length (survivors st h s exclude) < length (StripeMembers st s))%nat \/ StripeMembers st s = []).
Proof using HG MS.
  intros Hinv Hdirty Hstale Hs. unfold ReconstructStripe, survivors. set (stripe := StripeMembers st s).
  case_decide as Hk.
  { intros [= <- <-]. split; [reflexivity|]. split; [done|]. intros _. right. by destruct stripe. }
  assert (stripe_of st s stripe (max_failures st)) as Hso by (by split).
  destruct (gather_data G st h _ _ exclude 0 stripe [] []) as [[idx bufs] st1] eqn:E1.
  destruct (gather_data_spec st h D stale s stripe (max_failures st) exclude 0 stripe [] [] idx bufs st1
              Hinv Hso (eq_sym (drop_0 _)) eq_refl) as [Hf1 Hga1]; [by split; [|constructor|]|exact E1|].
  pose proof (faulted_inv G _ _ h D stale Hf1 Hinv) as Hinv1. pose proof (stripe_of_faulted _ _ _ _ _ Hf1 Hso) as Hso1.
  destruct (gather_parity G st1 h _ _ 0 (parity_level st1) idx bufs) as [[idx' bufs'] st2] eqn:E2.
  destruct (gather_parity_spec st1 h D stale s stripe (max_failures st) 0 (parity_level st1) idx bufs idx' bufs' st2 Hinv1 Hso1)
    as [Hf2 [Hlen Hnd Hsh]]; try done; [by destruct stripe|by rewrite (fl_dirty _ _ Hf1)|by rewrite Nat.add_0_r|].
  assert (faulted st st2) as Hf by (by transitivity st1).
  cbn [fst]. case_decide as Hn; [intros [= <- <-]; split; [done|]; split; [done|]; intros _; by left|].
  intros [= <- <-]. split; [done|]. enough (DecodeData (GetCodec st2 (length stripe)) idx' bufs' (kChunkLen G) =
    Some (map (fun d => D d s) stripe)) as -> by (split; [congruence|done]).
  unfold GetCodec. rewrite (fl_max _ _ Hf).
  destruct (io_devices G _ _ _ _ Hinv) as [_ _ _ _ Hcodec Hmax].
  assert (length stripe <= members_count st)%nat as Hwidth.
  { unfold stripe, StripeMembers. etransitivity; [apply List.filter_length_le|]. rewrite length_seq.
    unfold members_count. by rewrite (ar_len G _ (io_array G _ _ _ _ Hinv)). }
  unfold members_count in Hwidth.
  apply (DecodeData_codeword (length stripe) (max_failures st)); [lia| | |].
  - split; [lia|]. split; [by rewrite <- (take_drop (length stripe) idx'), NoDup_app in Hnd; destruct Hnd|]. apply Forall_take, Forall_forall. intros g Hg.
    apply list_elem_of_lookup in Hg as [i E]. destruct (Hsh i g E) as [Hlt _].
    pose proof (fl_level _ _ Hf1). lia.
  - split; [by rewrite length_map|]. apply Forall_forall. intros l Hl.
    apply list_elem_of_In, in_map_iff in Hl as (d & <- & _). by apply (io_len G _ _ _ _ Hinv).
  - intros i Hi. destruct (lookup_lt_is_Some_2 idx' i ltac:(lia)) as [g E]. destruct (Hsh i g E) as [_ ->].
    by rewrite nth_lookup, E.
Qed.
End Reconstruct.

(** * Reading *)

Section Reading.
Context (G : Geometry) (HG : io_geometry G) {S : Type} {MB : MemberBdev S} {MS : MemberBdevSpec S}.
Implicit Types (st : Runtime) (h : gmap nat S) (D : chunk_contents) (stale : gset Z).

(** A block inside one live chunk, as [AllocateBlocks] hands them out. *)
Definition valid_block st (b : Block) : Prop :=
  exists d s w, (d < members_count st)%nat /\ slot_live st d s /\ b_offset b = BandOffset G d s + Z.of_nat w /\
    0 <= b_size b /\ Z.of_nat w + b_size b <= Z.of_nat (kChunkLen G).

Definition block_contents D (b : Block) : list u8 :=
  let '(d, s, w) := Unband G (b_offset b) in take (Z.to_nat (b_size b)) (drop w (D d s)).

Lemma io_band st h D stale d s :
  io_inv G st h D stale -> (d < members_count st)%nat -> 0 <= s < kSlotsPerMember G ->
  BandOffset G d s = (Z.of_nat d * kSlotsPerMember G + s) * Z.of_nat (kChunkLen G) /\
  0 <= BandOffset G d s /\ BandOffset G d s + 2 * Z.of_nat (kChunkLen G) <= 2 ^ 64 /\
  forall w, (w < kChunkLen G)%nat -> Unband G (BandOffset G d s + Z.of_nat w) = (d, s, w).
Proof using HG.
  intros Hinv Hd Hs. destruct HG as [[HC HK] Hband _]. pose proof (dv_codec _ (io_devices _ _ _ _ _ Hinv)) as Hn.
  unfold members_count in Hd. set (C := Z.of_nat (kChunkLen G)) in *. set (K := kSlotsPerMember G) in *.
  assert (Z.of_nat d < 256) as Hd' by lia.
  assert ((Z.of_nat d + 2) * K * C <= 2 ^ 64) as Hb.
  { etransitivity; [|exact Hband]. repeat apply Z.mul_le_mono_nonneg_r; lia. }
  assert ((Z.of_nat d + 1) * K * C <= 2 ^ 64) as Hb1 by nia.
  destruct (BandOffset_exact G HC ltac:(unfold K in *; lia) d s Hs Hb1) as [E _]. split; [exact E|].
  split; [apply u64_range|]. split; [rewrite E; fold C K; nia|].
  intros w Hw. by apply Unband_within; try done; lia.
Qed.

Lemma valid_block_Unband st h D stale b :
  io_inv G st h D stale -> valid_block st b -> b_size b <> 0 ->
  exists d s w, Unband G (b_offset b) = (d, s, w) /\ (d < members_count st)%nat /\ slot_live st d s /\
    0 <= s < kSlotsPerMember G /\ b_offset b = BandOffset G d s + Z.of_nat w /\ 0 < b_size b /\
    (w + Z.to_nat (b_size b) <= kChunkLen G)%nat.
Proof using HG.
  intros Hinv (d & s & w & Hd & Hl & Hoff & Hsz & Hw) Hne. exists d, s, w.
  pose proof (slot_live_range G st d s (io_array _ _ _ _ _ Hinv) Hd Hl) as Hs.
  destruct (io_band st h D stale d s Hinv Hd Hs) as (_ & _ & _ & HU). rewrite Hoff. rewrite HU by lia.
  split_and!; try done; lia.
Qed.

Lemma find_pos_Some d pos stripe p :
  find_pos d pos stripe = Some p -> (pos <= p)%nat /\ stripe !! (p - pos)%nat = Some d.
Proof using.
  revert pos. induction stripe as [|d' stripe IH]; intros pos; cbn [find_pos]; [done|]. case_decide as E.
  - intros [= <-]. rewrite Nat.sub_diag, E. done.
  - intros H. apply IH in H as [Hp H]. split; [lia|]. by replace (p - pos)%nat with (Datatypes.S (p - Datatypes.S pos)) by lia.
Qed.

(** The degraded read of a block inside one chunk: two turns of the loop. *)
Lemma read_degraded_chunk fuel st h D stale b d s w out :
  io_inv G st h D stale -> (d < members_count st)%nat -> 0 <= s < kSlotsPerMember G ->
  b_offset b = BandOffset G d s + Z.of_nat w -> 0 < b_size b -> (w + Z.to_nat (b_size b) <= kChunkLen G)%nat ->
  read_degraded G (2 + fuel) st h (b_offset b) (u64 (b_offset b + b_size b)) out =
  if IsSlotDirty st s then Some (false, out, st)
  else match find_pos d 0 (StripeMembers st s) with
       | None => Some (false, out, st)
       | Some pos =>
           match ReconstructStripe G st h s (StripeMembers st s) d with
           | (None, st) => Some (false, out, st)
           | (Some chunks, st) =>
               Some (true, out ++ take (Z.to_nat (b_size b)) (drop w (shard chunks pos)), st)
           end
       end.
Proof using HG.
  intros Hinv Hd Hs Hoff Hsz Hw. destruct (io_band st h D stale d s Hinv Hd Hs) as (E & H0 & H1 & HU).
  assert (0 < kChunkLen G)%nat as HC by (destruct HG as [[? ?] _ _]; lia).
  set (C := Z.of_nat (kChunkLen G)) in *.
  assert (u64 (b_offset b + b_size b) = b_offset b + b_size b) as -> by (rewrite u64_small; lia).
  change (2 + fuel)%nat with (Datatypes.S (Datatypes.S fuel)).
  cbn [read_degraded]. destruct (Z.leb_spec (b_offset b + b_size b) (b_offset b)); [lia|].
  rewrite Hoff at 1. rewrite HU by lia. fold C.
  assert (b_offset b / C * C = BandOffset G d s) as ->.
  { rewrite Hoff, E, Z.add_comm, Z.div_add, Z.div_small by lia. done. }
  rewrite u64_small by lia. rewrite Z.min_l by lia.
  replace (b_offset b + b_size b - b_offset b) with (b_size b) by lia.
  destruct (IsSlotDirty st s); [done|]. destruct (find_pos d 0 (StripeMembers st s)) as [pos|]; [|done].
  destruct (ReconstructStripe G st h s (StripeMembers st s) d) as [[chunks|] st1]; [|done].
  destruct (Z.leb_spec (b_offset b + b_size b) (b_offset b + b_size b)); [done|lia].
Qed.

(** The block's slot is not stale, or its member is still active. *)
Definition trusted st stale (b : Block) : Prop :=
  let '(d, s, _) := Unband G (b_offset b) in s ∉ stale \/ data_active st d = true.

Lemma faulted_valid_block st st' b : faulted st st' -> valid_block st b -> valid_block st' b.
Proof using.
  intros Hf (d & s & w & Hd & Hl & H). exists d, s, w. unfold members_count in *. rewrite (fl_data _ _ Hf).
  split; [done|]. split; [by apply (faulted_slot_live st)|done].
Qed.

Lemma read_blocks_spec st h D stale blocks bytes out :
  io_inv G st h D stale -> Forall (valid_block st) blocks ->
  exists rc bytes' out' st', read_blocks G st h blocks bytes out = Some (rc, bytes', out', st') /\ faulted st st' /\
    (rc = 0 \/ rc = 1) /\
    (rc = 0 -> Forall (trusted st' stale) blocks -> out' = out ++ concat (map (block_contents D) blocks)).
Proof using HG MS.
  revert st bytes out. induction blocks as [|b blocks IH]; intros st bytes out Hinv Hv; cbn [read_blocks].
  { exists 0, bytes, out, st. split; [done|]. split; [reflexivity|]. split; [by left|]. by rewrite app_nil_r. }
  apply Forall_cons in Hv as [Hb Hv].
  assert (forall st1, faulted st st1 -> Forall (valid_block st1) blocks) as Hv'
    by (intros st1 Hf; eapply Forall_impl; [exact Hv|]; intros; by eapply faulted_valid_block).
  destruct (Z.eqb_spec (b_size b) 0) as [Hz|Hne].
  { destruct (IH st bytes out Hinv Hv) as (rc & by' & out' & st' & E & Hf & Hrc & H).
    exists rc, by', out', st'. split; [done|]. split; [done|]. split; [done|]. intros H0 Ht.
    apply Forall_cons in Ht as [_ Ht]. rewrite (H H0 Ht). cbn [map concat]. unfold block_contents at 2.
    rewrite Hz. by destruct (Unband G (b_offset b)) as [[d s] w]. }
  destruct (valid_block_Unband st h D stale b Hinv Hb Hne) as (d & s & w & HU & Hd & Hl & Hs & Hoff & Hsz & Hw).
  rewrite HU. rewrite decide_False by (unfold members_count in Hd; lia).
  destruct (data_active st d) eqn:Ea.
  - destruct (SlotPhysOffset_exact G HG s Hs) as (_ & P0 & P1). rewrite u64_small by lia.
    destruct (ReadDataSegment st h d _ _) as [r st1] eqn:Er. apply ReadDataSegment_spec in Er as [-> Hf1].
    destruct (store_read h _ _ _) as [bs|] eqn:Eb.
    + destruct (IH st1 (u64 (bytes + b_size b)) (out ++ bs) (faulted_inv _ _ _ _ _ _ Hf1 Hinv) (Hv' st1 Hf1))
        as (rc & by' & out' & st' & E & Hf & Hrc & H).
      exists rc, by', out', st'. split; [done|]. split; [by transitivity st1|]. split; [done|]. intros H0 Ht.
      apply Forall_cons in Ht as [_ Ht]. rewrite (H H0 Ht), <- app_assoc. f_equal. cbn [map concat]. f_equal.
      unfold block_contents. rewrite HU.
      exact (chunk_read G HG st h D stale d s w _ bs Hinv Hd Hl Ea Hw Eb).
    + exists 1, bytes, out, st1. split; [done|]. split; [done|]. split; [by right|done].
  - unfold read_fuel. change (3 + ?n)%nat with (2 + (1 + n))%nat.
    rewrite (read_degraded_chunk _ st h D stale b d s w out Hinv Hd Hs Hoff Hsz Hw).
    destruct (IsSlotDirty st s) eqn:Edirty; [exists 1, bytes, out, st; split; [done|split; [reflexivity|split; [by right|done]]]|].
    unfold IsSlotDirty in Edirty. apply bool_decide_eq_false in Edirty.
    destruct (find_pos d 0 (StripeMembers st s)) as [pos|] eqn:Ep;
      [|exists 1, bytes, out, st; split; [done|split; [reflexivity|split; [by right|done]]]].
    apply find_pos_Some in Ep as [_ Ep]. rewrite Nat.sub_0_r in Ep.
    destruct (ReconstructStripe G st h s (StripeMembers st s) d) as [r st1] eqn:Er.
    pose proof (ReconstructStripe_faulted _ _ _ _ _ _ _ _ Er) as Hf1.
    destruct r as [chunks|]; [|exists 1, bytes, out, st1; split; [done|split; [done|split; [by right|done]]]].
    destruct (IH st1 (u64 (bytes + b_size b)) (out ++ take (Z.to_nat (b_size b)) (drop w (shard chunks pos)))
                (faulted_inv _ _ _ _ _ _ Hf1 Hinv) (Hv' st1 Hf1)) as (rc & by' & out' & st' & E & Hf & Hrc & H).
    exists rc, by', out', st'. split; [done|]. split; [by transitivity st1|]. split; [done|]. intros H0 Ht.
    apply Forall_cons in Ht as [Htb Ht]. rewrite (H H0 Ht), <- app_assoc. f_equal. cbn [map concat]. f_equal.
    unfold trusted in Htb. rewrite HU in Htb. destruct Htb as [Hst|Hact].
    + destruct (ReconstructStripe_spec G HG st h D stale s d _ st1 Hinv Edirty Hst Hs Er) as (_ & Hch & _).
      rewrite (Hch chunks eq_refl). unfold block_contents. rewrite HU. unfold shard. rewrite nth_lookup.
      change (map ?f ?l) with (f <$> l). by rewrite list_lookup_fmap, Ep.
    + apply (fl_data_active _ _ Hf), (fl_data_active _ _ Hf1) in Hact. congruence.
Qed.
End Reading.

(** * Writing *)

Lemma MarkSlotDirty_fold l st :
  let st' := fold_left MarkSlotDirty l st in
  data_members st' = data_members st /\ parity_members st' = parity_members st /\ data_clients st' = data_clients st /\
  parity_clients st' = parity_clients st /\ data_alloc st' = data_alloc st /\ max_failures st' = max_failures st /\
  parity_level st' = parity_level st /\ dirty_slots st' = list_to_set l ∪ dirty_slots st /\
  written_slots st' = list_to_set l ∪ written_slots st.
Proof.
  revert st. induction l as [|s l IH]; intros st; cbn [fold_left].
  - split_and!; try done; set_solver.
  - destruct (IH (MarkSlotDirty st s)) as (-> & -> & -> & -> & -> & -> & -> & -> & ->). cbn [MarkSlotDirty set_slots].
    split_and!; try done; cbn; set_solver.
Qed.


Section Writing.
Context (G : Geometry) (HG : io_geometry G) {S : Type} {MB : MemberBdev S} {MS : MemberBdevSpec S}.
Implicit Types (st : Runtime) (h : gmap nat S) (D : chunk_contents) (stale : gset Z).

Definition put_chunk D (d : nat) (s : Z) (w : nat) (seg : list u8) : chunk_contents :=
  fun d' s' => if decide ((d', s') = (d, s)) then splice (D d s) w seg else D d' s'.

(** The byte an address holds, where it can be read. *)
Definition observe h (p : nat) (a : Z) : u8 :=
  match store_read h p a 1 with Some (b :: _) => b | _ => Byte.x00 end.

Definition observe_range h (p : nat) (a : Z) (len : nat) : list u8 :=
  map (fun i => observe h p (a + Z.of_nat i)) (seq 0 len).

(** What a device holds after a write: the bytes, or anything when it failed. *)
Definition written_bytes h' (p : nat) (a : Z) (ok : bool) (seg : list u8) : list u8 :=
  if ok then seg else observe_range h' p a (length seg).

Lemma observe_range_bget h p a len i : (i < len)%nat -> bget (observe_range h p a len) i = observe h p (a + Z.of_nat i).
Proof using.
  intros Hi. unfold bget, observe_range. rewrite nth_lookup. change (map ?f ?l) with (f <$> l).
  by rewrite list_lookup_fmap, lookup_seq_lt by done.
Qed.

Lemma length_written_bytes h' p a ok seg : length (written_bytes h' p a ok seg) = length seg.
Proof using. unfold written_bytes, observe_range. destruct ok; [done|]. by rewrite length_map, length_seq. Qed.

Definition data_inv st h D : Prop :=
  (forall d s, length (D d s) = kChunkLen G) /\
  forall d s i, (d < members_count st)%nat -> slot_live st d s -> data_active st d = true ->
    (i < kChunkLen G)%nat ->
    reads_byte h (data_client st d) (SlotPhysOffset G s + Z.of_nat i) (bget (D d s) i).

(** The parity devices read the same. *)
Definition parity_frame st h h' : Prop :=
  forall j off len, (j < length (parity_clients st))%nat ->
    store_read h' (parity_client st j) off len = store_read h (parity_client st j) off len.

Lemma put_chunk_length D d s w seg d' s' :
  (forall d s, length (D d s) = kChunkLen G) -> (w + length seg <= kChunkLen G)%nat ->
  length (put_chunk D d s w seg d' s') = kChunkLen G.
Proof using. intros HL Hw. unfold put_chunk. case_decide; [rewrite length_splice; rewrite HL; done|done]. Qed.

Lemma data_client_inj st d d' :
  devices_ok st -> (d < members_count st)%nat -> (d' < members_count st)%nat ->
  data_client st d = data_client st d' -> d = d'.
Proof using.
  intros Hdv Hd Hd' E. unfold members_count in *. pose proof (dv_data _ Hdv) as Hl.
  pose proof (dv_distinct _ Hdv) as Hnd. apply NoDup_app in Hnd as (Hnd & _ & _).
  unfold data_client in E. rewrite !nth_lookup in E.
  destruct (lookup_lt_is_Some_2 (data_clients st) d ltac:(lia)) as [x Ex].
  destruct (lookup_lt_is_Some_2 (data_clients st) d' ltac:(lia)) as [y Ey]. rewrite Ex, Ey in E. cbn in E. subst.
  exact (NoDup_lookup _ _ _ _ Hnd Ex Ey).
Qed.

Lemma parity_client_inj st j j' :
  devices_ok st -> (j < length (parity_clients st))%nat -> (j' < length (parity_clients st))%nat ->
  parity_client st j = parity_client st j' -> j = j'.
Proof using.
  intros Hdv Hd Hd' E. pose proof (dv_distinct _ Hdv) as Hnd. apply NoDup_app in Hnd as (_ & _ & Hnd).
  unfold parity_client in E. rewrite !nth_lookup in E.
  destruct (lookup_lt_is_Some_2 (parity_clients st) j ltac:(lia)) as [x Ex].
  destruct (lookup_lt_is_Some_2 (parity_clients st) j' ltac:(lia)) as [y Ey]. rewrite Ex, Ey in E. cbn in E. subst.
  exact (NoDup_lookup _ _ _ _ Hnd Ex Ey).
Qed.

Lemma data_parity_distinct st d j :
  devices_ok st -> (d < members_count st)%nat -> (j < length (parity_clients st))%nat ->
  data_client st d <> parity_client st j.
Proof using.
  intros Hdv Hd Hj E. unfold members_count in *. pose proof (dv_data _ Hdv) as Hl.
  pose proof (dv_distinct _ Hdv) as Hnd. apply NoDup_app in Hnd as (_ & Hdisj & _).
  unfold data_client, parity_client in E. rewrite !nth_lookup in E.
  destruct (lookup_lt_is_Some_2 (data_clients st) d ltac:(lia)) as [x Ex].
  destruct (lookup_lt_is_Some_2 (parity_clients st) j ltac:(lia)) as [y Ey]. rewrite Ex, Ey in E. cbn in E. subst.
  apply (Hdisj y); by eapply list_elem_of_lookup_2.
Qed.

(** One device write of a chunk range. *)
Lemma write_chunk st h D d s w seg ok h' :
  array_ok G st -> devices_ok st -> data_inv st h D -> (d < members_count st)%nat -> 0 <= s < kSlotsPerMember G ->
  (w + length seg <= kChunkLen G)%nat ->
  store_write h (data_client st d) (SlotPhysOffset G s + Z.of_nat w) seg = (ok, h') ->
  data_inv st h' (put_chunk D d s w (written_bytes h' (data_client st d) (SlotPhysOffset G s + Z.of_nat w) ok seg)) /\
  parity_frame st h h'.
Proof using HG MS.
  intros Hok Hdv [HL Hdat] Hd Hs Hw Hwr. pose proof (store_write_frame _ _ _ _ _ _ Hwr) as Hframe.
  set (seg' := written_bytes _ _ _ _ _).
  assert (length seg' = length seg) as Hlen' by apply length_written_bytes.
  destruct (SlotPhysOffset_exact G HG s Hs) as (_ & P0 & P1).
  split.
  2: { intros j off len Hj. eapply store_read_frame; [exact Hframe|]. symmetry. by apply data_parity_distinct. }
  split; [intros; apply put_chunk_length; [done|by rewrite Hlen']|].
  intros d' s' i Hd' Hl' Ha' Hi.
  destruct (decide (d' = d)) as [->|Hne].
  2: { unfold reads_byte. rewrite (store_read_frame _ _ _ _ _ _ Hframe)
         by (intros E; apply Hne; by apply (data_client_inj st)).
       unfold put_chunk. rewrite decide_False by congruence. by apply Hdat. }
  pose proof (slot_live_range G st d s' Hok Hd' Hl') as Hs'.
  destruct (SlotPhysOffset_exact G HG s' Hs') as (_ & P0' & P1').
  assert (forall a, 0 <= a -> a + 1 < 2 ^ 64 ->
            a + 1 <= SlotPhysOffset G s + Z.of_nat w \/ SlotPhysOffset G s + Z.of_nat w + Z.of_nat (length seg) <= a ->
            store_read h' (data_client st d) a 1 = store_read h (data_client st d) a 1) as Hother.
  { intros a Ha0 Ha1 Hdj. refine (store_write_other h _ _ seg ok h' _ a 1 _ _ _ _ _ Hwr); lia. }
  destruct (decide (s' = s)) as [->|Hsne].
  - unfold put_chunk. rewrite decide_True by done. rewrite splice_bget by (rewrite HL, Hlen'; done).
    rewrite Hlen'. case_decide as Hin.
    + replace (SlotPhysOffset G s + Z.of_nat i) with (SlotPhysOffset G s + Z.of_nat w + Z.of_nat (i - w)) by lia.
      unfold seg', written_bytes. destruct ok.
      * intros l Hr. apply store_write_same in Hwr; [|lia|lia].
        rewrite (store_read_byte h' _ _ (length seg) seg (i - w)) in Hr by (done || lia). congruence.
      * rewrite observe_range_bget by lia. unfold observe. intros l Hr. rewrite Hr.
        apply store_read_length in Hr; [|lia|lia]. destruct l as [|b [|]]; done.
    + unfold reads_byte. rewrite Hother by lia. by apply Hdat.
  - unfold put_chunk. rewrite decide_False by congruence. unfold reads_byte.
    pose proof (slots_phys_disjoint G HG s s' Hs Hs' ltac:(congruence)). rewrite Hother by lia. by apply Hdat.
Qed.

(** A block's slots: the one slot of its chunk. *)
Lemma touched_slots_chunk st h D stale b d s w :
  io_inv G st h D stale -> (d < members_count st)%nat -> 0 <= s < kSlotsPerMember G ->
  b_offset b = BandOffset G d s + Z.of_nat w -> 0 < b_size b -> (w + Z.to_nat (b_size b) <= kChunkLen G)%nat ->
  touched_slots G (b_offset b) (b_size b) = {[s]}.
Proof using HG MS.
  intros Hinv Hd Hs Hoff Hsz Hw. destruct (io_band G HG st h D stale d s Hinv Hd Hs) as (E & H0 & H1 & _).
  assert (0 < kChunkLen G)%nat as HC by (destruct HG as [[? ?] _ _]; lia).
  unfold touched_slots. set (C := Z.of_nat (kChunkLen G)) in *.
  rewrite u64_small by lia. rewrite Hoff, E.
  assert (((Z.of_nat d * kSlotsPerMember G + s) * C + Z.of_nat w) / C = Z.of_nat d * kSlotsPerMember G + s) as ->
    by (rewrite Z.add_comm, Z.div_add, Z.div_small by lia; lia).
  assert (((Z.of_nat d * kSlotsPerMember G + s) * C + Z.of_nat w + b_size b - 1) / C = Z.of_nat d * kSlotsPerMember G + s) as ->.
  { replace ((Z.of_nat d * kSlotsPerMember G + s) * C + Z.of_nat w + b_size b - 1)
      with (Z.of_nat w + b_size b - 1 + (Z.of_nat d * kSlotsPerMember G + s) * C) by lia.
    rewrite Z.div_add, Z.div_small by lia. lia. }
  rewrite Z.sub_diag. change (Z.to_nat (0 + 1)) with 1%nat. cbn [seq map list_to_set foldr Z.of_nat].
  rewrite Z.add_0_r, Z.add_comm, Z.mod_add, Z.mod_small by lia. set_solver.
Qed.
(** The contents a successful write leaves. *)
Fixpoint write_spec D (data : list u8) (blocks : list Block) (pos : nat) : chunk_contents :=
  match blocks with
  | [] => D
  | b :: blocks =>
      if b_size b =? 0 then write_spec D data blocks pos
      else
        let '(d, s, w) := Unband G (b_offset b) in
        write_spec (put_chunk D d s w (take (Z.to_nat (b_size b)) (drop pos data))) data blocks
          (pos + Z.to_nat (b_size b))
  end.

(** The contents any write leaves: what its failed parts left on the devices. *)
Fixpoint write_effect st h D (data : list u8) (blocks : list Block) (pos : nat) : chunk_contents :=
  match blocks with
  | [] => D
  | b :: blocks =>
      if b_size b =? 0 then write_effect st h D data blocks pos
      else
        let '(d, s, w) := Unband G (b_offset b) in
        let seg := take (Z.to_nat (b_size b)) (drop pos data) in
        let p := data_client st d in
        let a := SlotPhysOffset G s + Z.of_nat w in
        let '(ok, h') := if data_active st d then store_write h p a seg else (true, h) in
        write_effect st h' (put_chunk D d s w (written_bytes h' p a ok seg)) data blocks
          (pos + Z.to_nat (b_size b))
  end.

Definition written_slots_of (blocks : list Block) : gset Z :=
  ⋃ map (fun b => if b_size b =? 0 then ∅ else touched_slots G (b_offset b) (b_size b)) blocks.

Lemma data_inv_of_io st h D stale : io_inv G st h D stale -> data_inv st h D.
Proof using. intros []. by split. Qed.

Lemma put_chunk_inactive st h D d s w seg :
  data_inv st h D -> data_active st d = false -> (w + length seg <= kChunkLen G)%nat ->
  data_inv st h (put_chunk D d s w seg).
Proof using.
  intros [HL Hdat] Ha Hw. split; [intros; by apply put_chunk_length|]. intros d' s' i Hd' Hl' Ha' Hi.
  unfold put_chunk. rewrite decide_False; [by apply Hdat|]. intros [= -> ->]. congruence.
Qed.

Lemma parity_frame_trans st h h1 h2 : parity_frame st h h1 -> parity_frame st h1 h2 -> parity_frame st h h2.
Proof using. intros H1 H2 j off len Hj. by rewrite H2, H1. Qed.

(** The parts of the invariant that fix where a block lives. *)
Definition block_location st (b : Block) : Prop :=
  b_size b = 0 \/
  exists d s w, Unband G (b_offset b) = (d, s, w) /\ (d < members_count st)%nat /\ 0 <= s < kSlotsPerMember G /\
    0 < b_size b /\ (w + Z.to_nat (b_size b) <= kChunkLen G)%nat /\
    touched_slots G (b_offset b) (b_size b) = {[s]}.

Lemma valid_block_location st h D stale b :
  io_inv G st h D stale -> valid_block G st b -> block_location st b.
Proof using HG MS.
  intros Hinv Hv. destruct (decide (b_size b = 0)) as [|Hne]; [by left|right].
  destruct (valid_block_Unband G HG st h D stale b Hinv Hv Hne) as (d & s & w & HU & Hd & Hl & Hs & Hoff & Hsz & Hw).
  exists d, s, w. split_and!; try done; try lia. by eapply touched_slots_chunk.
Qed.

Lemma write_blocks_spec st h D data blocks pos bytes touched ok ok' h' touched' bytes' :
  array_ok G st -> devices_ok st -> data_inv st h D -> Forall (block_location st) blocks ->
  (pos + Z.to_nat (zsum b_size blocks) <= length data)%nat ->
  write_blocks G st h data blocks pos bytes touched ok = (ok', h', touched', bytes') ->
  data_inv st h' (write_effect st h D data blocks pos) /\ parity_frame st h h' /\
  touched' = touched ∪ written_slots_of blocks /\
  (forall d s, s ∉ written_slots_of blocks -> write_effect st h D data blocks pos d s = D d s) /\
  (ok' = true -> ok = true /\ write_effect st h D data blocks pos = write_spec D data blocks pos).
Proof using HG MS.
  intros Hok Hdv. revert h D pos bytes touched ok. induction blocks as [|b blocks IH];
    intros h D pos bytes touched ok Hdat Hloc Hlen; cbn [write_blocks write_effect write_spec].
  { intros [= <- <- <- <-]. split; [done|]. split; [done|]. unfold written_slots_of. cbn. split; [set_solver|]. done. }
  apply Forall_cons in Hloc as [Hb Hloc].
  assert (0 <= zsum b_size blocks) as Hz.
  { apply zsum_nonneg. eapply Forall_impl; [exact Hloc|]. intros b' [->|(d & s & w & _ & _ & _ & H & _)]; lia. }
  rewrite zsum_cons in Hlen.
  assert (written_slots_of (b :: blocks) = (if b_size b =? 0 then ∅ else touched_slots G (b_offset b) (b_size b)) ∪ written_slots_of blocks)
    as -> by done.
  destruct Hb as [Hzero|(d & s & w & HU & Hd & Hs & Hsz & Hw & Htouch)].
  { rewrite Hzero in Hlen. rewrite Hzero, Z.eqb_refl. rewrite (left_id_L ∅ (∪)). apply IH; [done|done|lia]. }
  destruct (Z.eqb_spec (b_size b) 0) as [|_]; [lia|]. rewrite HU. rewrite decide_False by (unfold members_count in Hd; lia).
  destruct (SlotPhysOffset_exact G HG s Hs) as (_ & P0 & P1). rewrite u64_small by lia. rewrite Htouch.
  set (seg := take (Z.to_nat (b_size b)) (drop pos data)).
  assert (length seg = Z.to_nat (b_size b)) as Hseg by (unfold seg; rewrite length_take, length_drop; lia).
  destruct (if data_active st d then _ else _) as [okw h1] eqn:Ew.
  set (D1 := put_chunk D d s w (written_bytes h1 (data_client st d) (SlotPhysOffset G s + Z.of_nat w) okw seg)).
  assert (data_inv st h1 D1 /\ parity_frame st h h1) as [Hdat1 Hpf1].
  { destruct (data_active st d) eqn:Ea.
    - apply write_chunk with (h := h) (D := D); try done. by rewrite Hseg.
    - injection Ew as <- <-. split; [|done]. apply put_chunk_inactive; [done|done|]. cbn [written_bytes]. by rewrite Hseg. }
  intros Hwr. destruct (IH h1 D1 (pos + Z.to_nat (b_size b))%nat _ _ _ Hdat1 Hloc ltac:(lia) Hwr) as (H1 & H2 & H3 & H4 & H5).
  split; [done|]. split; [by eapply parity_frame_trans|]. split; [rewrite H3; set_solver|]. split.
  - intros d' s' Hn. rewrite H4 by set_solver. unfold D1, put_chunk. rewrite decide_False; [done|]. intros [= -> ->]. set_solver.
  - intros Ht. destruct (H5 Ht) as [Hok2 HE]. apply andb_true_iff in Hok2 as [-> ->]. by split.
Qed.

(** The whole handler. The slots it touched are dirty when it succeeds, and
    stale when it fails. *)
Lemma rt_Write_inv st h D stale blocks data rc bytes st' h' :
  io_inv G st h D stale -> Forall (valid_block G st) blocks ->
  (Z.to_nat (zsum b_size blocks) <= length data)%nat ->
  rt_Write G st h blocks data = (rc, bytes, st', h') -> blocks <> [] ->
  (rc = 0 \/ rc = 1) /\
  io_inv G st' h' (write_effect st h D data blocks 0)
    (if rc =? 0 then stale ∖ written_slots_of blocks else stale ∪ written_slots_of blocks) /\
  (rc = 0 -> write_effect st h D data blocks 0 = write_spec D data blocks 0).
Proof using HG MS.
  intros Hinv Hv Hlen Hwr Hne.
  assert (Forall (block_location st) blocks) as Hloc
    by (eapply Forall_impl; [exact Hv|]; intros b; by apply (valid_block_location st h D stale)).
  unfold rt_Write in Hwr. rewrite decide_False in Hwr.
  2: { intros [Hnil|]; [|done]. destruct blocks as [|b ?]; [done|]. apply Forall_cons in Hv as [(d & ? & ? & Hd & _) _].
       unfold members_count in Hd. rewrite Hnil in Hd. cbn in Hd. lia. }
  destruct (write_blocks G st h data blocks 0 0 ∅ true) as [[[ok h1] touched] bytes1] eqn:E.
  destruct (write_blocks_spec st h D data blocks 0 0 ∅ true ok h1 touched bytes1
              (io_array _ _ _ _ _ Hinv) (io_devices _ _ _ _ _ Hinv) (data_inv_of_io _ _ _ _ Hinv) Hloc Hlen E)
    as ([HL Hdat] & Hpf & -> & Hsame & Hspec).
  rewrite (left_id_L ∅ (∪)) in Hwr. destruct Hinv as [Harr Hdv _ _ Hpar Hwritten].
  assert (forall s j l (X : gset Z), s ∉ X -> s ∉ written_slots_of blocks -> s ∉ dirty_slots st -> s ∉ stale ->
            0 <= s < kSlotsPerMember G -> (j < parity_level st)%nat -> parity_active st j = true ->
            StripeMembers st s <> [] ->
            store_read h1 (parity_client st j) (SlotPhysOffset G s) (kChunkLen G) = Some l ->
            l = stripe_parity G st (write_effect st h D data blocks 0) s j) as Hpar'.
  { intros s j l _ _ Hnw Hnd Hns Hs Hj Ha Hst Hr. rewrite Hpf in Hr
      by (rewrite (dv_parity _ Hdv), <- (dv_level _ Hdv); done).
    rewrite (Hpar s j l) by done. unfold stripe_parity. f_equal. apply map_ext. intros d. symmetry. by apply Hsame. }
  destruct ok; injection Hwr as <- <- <- <-; (split; [tauto|split; [|intros; try lia; by apply Hspec]]); cbn [Z.eqb].
  - destruct (MarkSlotDirty_fold (elements (written_slots_of blocks)) st) as (M1 & M2 & M3 & M4 & M5 & M6 & M7 & M8 & M9).
    set (st1 := fold_left MarkSlotDirty _ st) in *. rewrite list_to_set_elements_L in M8, M9.
    assert (forall s, StripeMembers st1 s = StripeMembers st s) as HSM by (intros; unfold StripeMembers, alloc_at; by rewrite M5).
    split.
    + destruct Harr as [A1 A2 A3 A4]. split; by rewrite ?M1, ?M5.
    + destruct Hdv as [V1 V2 V3 V4 V5 V6]. split; by rewrite ?M1, ?M2, ?M3, ?M4, ?M6, ?M7.
    + exact HL.
    + unfold members_count, slot_live, alloc_at, data_active, data_at, data_client. rewrite M1, M3, M5. exact Hdat.
    + unfold parity_active, parity_at, parity_client, stripe_parity, GetCodec. rewrite M2, M4, M6, M7, M8.
      intros s j l Hd Hs Hr Hj Ha. rewrite !HSM. intros Hst Hl. apply (Hpar' s j l ∅); try done; set_solver.
    + intros s Hs. rewrite HSM, M9. intros Hst. apply elem_of_union.
      destruct (decide (s ∈ written_slots_of blocks)); [by left|right]. apply Hwritten; [set_solver|done].
  - split; [done|done|exact HL|exact Hdat| |].
    + intros s j l Hd Hs. apply (Hpar' s j l ∅); set_solver.
    + intros s Hs. apply Hwritten. set_solver.
Qed.
End Writing.

(** * Building parity *)

Section Parity.
Context (G : Geometry) (HG : io_geometry G) {S : Type} {MB : MemberBdev S} {MS : MemberBdevSpec S}.
Implicit Types (st : Runtime) (h : gmap nat S) (D : chunk_contents) (stale : gset Z).

Lemma read_stripe_spec st h D stale s stripe acc r st' :
  io_inv G st h D stale -> (forall d, d ∈ stripe -> (d < members_count st)%nat /\ slot_live st d s) ->
  read_stripe G st h (SlotPhysOffset G s) stripe acc = (r, st') ->
  faulted st st' /\ forall data, r = Some data -> data = acc ++ map (fun d => D d s) stripe.
Proof using HG MS.
  revert st acc. induction stripe as [|d stripe IH]; intros st acc Hinv Hst; cbn [read_stripe].
  { intros [= <- <-]. split; [reflexivity|]. intros data [= <-]. by rewrite app_nil_r. }
  destruct (data_active st d) eqn:Ea; cbn [negb]; [|intros [= <- <-]; split; [reflexivity|done]].
  destruct (ReadDataSegment st h d _ _) as [r1 st1] eqn:Er. apply ReadDataSegment_spec in Er as [-> Hf1].
  destruct (Hst d) as [Hd Hl]; [by left|].
  destruct (store_read h _ _ _) as [b|] eqn:Eb; [|intros [= <- <-]; split; [done|done]].
  rewrite (chunk_read_whole G HG st h D stale d s b Hinv Hd Hl Ea Eb). intros Hr.
  destruct (IH st1 (acc ++ [D d s]) (faulted_inv _ _ _ _ _ _ Hf1 Hinv)) as [Hf Hdata]; [|exact Hr|].
  - intros d' Hd'. unfold members_count. rewrite (fl_data _ _ Hf1), (faulted_slot_live st) by done. apply Hst. by right.
  - split; [by transitivity st1|]. intros data E. rewrite (Hdata data E), <- app_assoc. done.
Qed.

(** The devices after parity writes of slot [s]: only its parity chunks moved. *)
Record parity_writes st (s : Z) h h' : Prop := {
  pw_data : forall d off len, (d < members_count st)%nat ->
    store_read h' (data_client st d) off len = store_read h (data_client st d) off len;
  pw_other : forall j s', (j < parity_level st)%nat -> 0 <= s' < kSlotsPerMember G -> s' <> s ->
    store_read h' (parity_client st j) (SlotPhysOffset G s') (kChunkLen G) =
    store_read h (parity_client st j) (SlotPhysOffset G s') (kChunkLen G)
}.

Lemma parity_write_step st s j bs ok h h' :
  devices_ok st -> 0 <= s < kSlotsPerMember G -> (j < parity_level st)%nat -> length bs = kChunkLen G ->
  store_write h (parity_client st j) (SlotPhysOffset G s) bs = (ok, h') ->
  parity_writes st s h h' /\
  (ok = true -> store_read h' (parity_client st j) (SlotPhysOffset G s) (kChunkLen G) = Some bs) /\
  forall j' off len, (j' < parity_level st)%nat -> j' <> j ->
    store_read h' (parity_client st j') off len = store_read h (parity_client st j') off len.
Proof using HG MS.
  intros Hdv Hs Hj Hlen Hw. pose proof (store_write_frame _ _ _ _ _ _ Hw) as Hframe.
  assert (length (parity_clients st) = parity_level st) as Hpc by (by rewrite (dv_parity _ Hdv), (dv_level _ Hdv)).
  destruct (SlotPhysOffset_exact G HG s Hs) as (_ & P0 & P1).
  assert (forall j' off len, (j' < parity_level st)%nat -> j' <> j ->
    store_read h' (parity_client st j') off len = store_read h (parity_client st j') off len) as Hothers.
  { intros j' off len Hj' Hne. eapply store_read_frame; [exact Hframe|]. intros E. apply Hne.
    by apply (parity_client_inj st); rewrite ?Hpc. }
  split; [split|split].
  - intros d off len Hd. eapply store_read_frame; [exact Hframe|]. apply data_parity_distinct; [done|done|by rewrite Hpc].
  - intros j' s' Hj' Hs' Hne. destruct (decide (j' = j)) as [->|Hjne]; [|by apply Hothers].
    destruct (SlotPhysOffset_exact G HG s' Hs') as (_ & P0' & P1').
    pose proof (slots_phys_disjoint G HG s s' Hs Hs' ltac:(congruence)).
    refine (store_write_other h _ _ bs ok h' _ _ _ _ _ _ _ _ Hw); rewrite ?Hlen; try lia.
  - intros ->. apply store_write_same in Hw; rewrite ?Hlen in *; [exact Hw|lia|lia].
  - exact Hothers.
Qed.

Lemma parity_writes_trans st s h h1 h2 : parity_writes st s h h1 -> parity_writes st s h1 h2 -> parity_writes st s h h2.
Proof using. intros [A B] [A' B']. split; intros; [by rewrite A', A|by rewrite B', B]. Qed.

Lemma write_parity_spec st h s data ok st' h' :
  devices_ok st -> 0 <= s < kSlotsPerMember G ->
  write_parity G st h s (length (StripeMembers st s)) data = (ok, (st', h')) ->
  faulted st st' /\ parity_writes st s h h' /\
  (ok = true -> forall j l, (j < parity_level st)%nat -> parity_active st' j = true ->
     store_read h' (parity_client st j) (SlotPhysOffset G s) (kChunkLen G) = Some l ->
     l = EncodeParityShard (GetCodec st (length (StripeMembers st s))) j data (kChunkLen G)).
Proof using HG MS.
  intros Hdv Hs. set (k := length (StripeMembers st s)). unfold write_parity. intros Hloop.
  assert (forall j st1 h1, faulted st st1 -> (j < parity_level st)%nat ->
    forall ok st2 h2,
    (if negb (parity_active st1 j) then (true, (st1, h1))
     else let bs := EncodeParityShard (GetCodec st1 k) j data (kChunkLen G) in
          let p := parity_client st1 j in
          let '(ok, h') := store_write h1 p (SlotPhysOffset G s) bs in
          (ok, (MaybeFaultParity st1 j (write_fatal h1 p (SlotPhysOffset G s) bs), h'))) = (ok, (st2, h2)) ->
    faulted st1 st2 /\ parity_writes st s h1 h2 /\
    (ok = true -> parity_active st2 j = true ->
       store_read h2 (parity_client st j) (SlotPhysOffset G s) (kChunkLen G) =
       Some (EncodeParityShard (GetCodec st k) j data (kChunkLen G))) /\
    forall j' off len, (j' < parity_level st)%nat -> j' <> j ->
      store_read h2 (parity_client st j') off len = store_read h1 (parity_client st j') off len) as Hstep.
  { intros j st1 h1 Hf Hj ok1 st2 h2. destruct (parity_active st1 j) eqn:Ea; cbn [negb].
    2: { intros [= <- <- <-]. split; [reflexivity|]. split; [done|]. split; [intros _; congruence|done]. }
    cbn zeta. unfold GetCodec, parity_client. rewrite (fl_max _ _ Hf), (fl_parity_clients _ _ Hf).
    destruct (store_write _ _ _ _) as [okw h3] eqn:Ew. intros [= <- <- <-].
    destruct (parity_write_step st s j _ okw h1 h3 Hdv Hs Hj (EncodeParityShard_length _ _ _ _) Ew) as (H1 & H2 & H3).
    split; [apply MaybeFaultParity_faulted|]. split; [done|]. split; [intros Hok _; by apply H2|done]. }
  pose (Q := fun (x : Runtime * gmap nat S) => faulted st (fst x) /\ parity_writes st s h (snd x)).
  assert (Q (st', h')) as [Hf Hpw].
  { refine (for_ok_inv Q (parity_level st) _ (st, h) (st', h') ok Hloop _ _); [by split; [reflexivity|]|].
    intros j [st1 h1] [st2 h2] ok1 Hj [Hf1 Hp1] E. destruct (Hstep j st1 h1 Hf1 Hj ok1 st2 h2 E) as (Hf2 & Hp2 & _).
    split; cbn [fst snd] in *; [by transitivity st1|by eapply parity_writes_trans]. }
  split; [done|]. split; [done|]. intros ->.
  pose (P := fun (i : nat) (x : Runtime * gmap nat S) => faulted st (fst x) /\
    forall j, (j < i)%nat -> (j < parity_level st)%nat -> parity_active (fst x) j = true ->
      store_read (snd x) (parity_client st j) (SlotPhysOffset G s) (kChunkLen G) =
      Some (EncodeParityShard (GetCodec st k) j data (kChunkLen G))).
  assert (P (parity_level st) (st', h')) as [_ HP].
  { refine (for_ok_ind P (parity_level st) _ (st, h) (st', h') Hloop _ _); [split; [reflexivity|lia]|].
    intros j [st1 h1] [st2 h2] Hj [Hf1 Hp1] E. destruct (Hstep j st1 h1 Hf1 Hj true st2 h2 E) as (Hf2 & _ & Hj2 & Hoth).
    cbn [fst snd] in *. split; [by transitivity st1|]. intros j' Hj' Hlv Ha'.
    destruct (decide (j' = j)) as [->|Hne]; [by apply Hj2|]. cbn [fst snd]. rewrite Hoth by done.
    apply Hp1; [lia|done|]. by apply (fl_parity_active _ _ Hf2). }
  intros j l Hj Ha Hr. cbn [fst snd] in HP. rewrite (HP j Hj Hj Ha) in Hr. congruence.
Qed.

(** Building one slot keeps the invariant; a slot it cleans is no more stale. *)
Lemma build_slot_inv st h D stale s st' h' :
  io_inv G st h D stale -> s ∈ dirty_slots st -> s ∈ written_slots st -> build_slot G (st, h) s = (st', h') ->
  io_inv G st' h' D (if decide (s ∈ dirty_slots st') then stale else stale ∖ {[s]}) /\
  (dirty_slots st' = dirty_slots st \/ dirty_slots st' = dirty_slots st ∖ {[s]}) /\
  written_slots st' = written_slots st.
Proof using HG MS.
  intros Hinv Hdirty Hwritten. unfold build_slot. destruct (StripeMembers st s) as [|d0 stripe0] eqn:Est.
  - intros [= <- <-]. split; [|split; [by right|done]]. cbn [clear_dirty set_slots dirty_slots].
    rewrite decide_False by set_solver. destruct Hinv as [[A1 A2 A3 A4] [] HL Hdat Hpar Hwr]. split; try done.
    + intros s' j l Hnd Hns Hr Hj Ha Hne Hl. cbn [clear_dirty set_slots dirty_slots] in Hnd.
      destruct (decide (s' = s)) as [->|Hs]; [|apply Hpar; try done; set_solver].
      change (StripeMembers (clear_dirty st s) s) with (StripeMembers st s) in Hne. congruence.
    + intros s' Hns Hne. change (StripeMembers (clear_dirty st s) s') with (StripeMembers st s') in Hne.
      destruct (decide (s' = s)) as [->|Hs]; [congruence|]. apply Hwr; [set_solver|done].
  - rewrite <- Est. assert (StripeMembers st s <> []) as Hne0 by (by rewrite Est). clear d0 stripe0 Est.
    assert (forall d, d ∈ StripeMembers st s -> (d < members_count st)%nat /\ slot_live st d s) as Hmem
      by (intros d; by apply (stripe_member G st h D stale)).
    assert (0 <= s < kSlotsPerMember G) as Hs.
    { destruct (StripeMembers st s) as [|d l]; [done|]. destruct (Hmem d) as [Hd Hl]; [by left|].
      exact (slot_live_range G st d s (io_array _ _ _ _ _ Hinv) Hd Hl). }
    destruct (read_stripe G st h _ _ []) as [r st1] eqn:Er.
    destruct (read_stripe_spec st h D stale s _ [] r st1 Hinv Hmem Er) as [Hf1 Hdata].
    pose proof (faulted_inv _ _ _ _ _ _ Hf1 Hinv) as Hinv1.
    destruct r as [data|].
    2: { intros [= <- <-]. rewrite (fl_dirty _ _ Hf1), decide_True by done. split; [done|].
         split; [by left|apply (fl_written _ _ Hf1)]. }
    rewrite (Hdata data eq_refl) in *. cbn [app] in *. clear Hdata.
    rewrite <- (faulted_StripeMembers _ _ s Hf1) in *.
    destruct (write_parity G st1 h s _ _) as [ok [st2 h2]] eqn:Ew.
    destruct (write_parity_spec st1 h s _ ok st2 h2 (io_devices _ _ _ _ _ Hinv1) Hs Ew) as (Hf2 & [Hpd Hpo] & Hnew).
    assert (faulted st st2) as Hf by (by transitivity st1).
    pose proof (faulted_inv _ _ _ _ _ _ Hf2 Hinv1) as [Harr Hdv HL Hdat Hpar Hwr].
    assert (dirty_slots st2 = dirty_slots st) as Ed by (apply (fl_dirty _ _ Hf)).
    assert (forall s', StripeMembers st2 s' = StripeMembers st1 s') as HSM by (intros; by apply faulted_StripeMembers).
    assert (forall d s' i, (d < members_count st2)%nat -> slot_live st2 d s' -> data_active st2 d = true ->
      (i < kChunkLen G)%nat -> reads_byte h2 (data_client st2 d) (SlotPhysOffset G s' + Z.of_nat i) (bget (D d s') i)) as Hdat2.
    { intros d s' i Hd Hl Ha Hi l Hr. apply (Hdat d s' i Hd Hl Ha Hi). unfold data_client in *.
      rewrite (fl_data_clients _ _ Hf2) in *. rewrite <- Hpd; [exact Hr|].
      unfold members_count in *. by rewrite <- (fl_data _ _ Hf2). }
    assert (forall s' j l, s' <> s -> (s' ∉ dirty_slots st2) -> (s' ∉ stale) -> 0 <= s' < kSlotsPerMember G ->
      (j < parity_level st2)%nat -> parity_active st2 j = true -> StripeMembers st2 s' <> [] ->
      store_read h2 (parity_client st2 j) (SlotPhysOffset G s') (kChunkLen G) = Some l ->
      l = stripe_parity G st2 D s' j) as Hpar2.
    { intros s' j l Hne Hnd Hns Hr Hj Ha Hnn Hl. apply Hpar; try done. unfold parity_client in *.
      rewrite (fl_parity_clients _ _ Hf2) in *. rewrite <- Hpo; [exact Hl| |done|done]. by rewrite <- (fl_level _ _ Hf2). }
    destruct ok; intros [= <- <-].
    + split; [|split; [right; cbn; by rewrite Ed|apply (fl_written _ _ Hf)]].
      cbn [clear_dirty set_slots dirty_slots]. rewrite decide_False by set_solver.
      destruct Harr as [A1 A2 A3 A4], Hdv as [V1 V2 V3 V4 V5 V6]. split; try done.
      * intros s' j l Hnd Hns Hr Hj Ha Hnn Hl. cbn [clear_dirty set_slots dirty_slots] in Hnd.
        destruct (decide (s' = s)) as [->|Hne]; [|apply (Hpar2 s' j l Hne); try done; set_solver].
        change (l = stripe_parity G st2 D s j). unfold stripe_parity, GetCodec. rewrite HSM, (fl_max _ _ Hf2).
        change (parity_active st2 j = true) in Ha. change (j < parity_level st2)%nat in Hj.
        change (parity_client (clear_dirty st2 s) j) with (parity_client st2 j) in Hl.
        unfold parity_client in Hl. rewrite (fl_parity_clients _ _ Hf2) in Hl. rewrite (fl_level _ _ Hf2) in Hj.
        exact (Hnew eq_refl j l Hj Ha Hl).
      * intros s' Hns Hnn. change (StripeMembers (clear_dirty st2 s) s') with (StripeMembers st2 s') in Hnn.
        cbn [clear_dirty set_slots written_slots]. destruct (decide (s' = s)) as [->|Hne].
        -- by rewrite (fl_written _ _ Hf).
        -- apply Hwr; [set_solver|done].
    + rewrite Ed, decide_True by done. split; [|split; [by left|apply (fl_written _ _ Hf)]].
      split; try done. intros s' j l Hnd Hns Hr Hj Ha Hnn Hl.
      destruct (decide (s' = s)) as [->|Hne]; [rewrite Ed in Hnd; done|]. by apply Hpar2.
Qed.
End Parity.
