(* ===== verification/SafeBdevAdmin.v ===== *)
(** Membership of the safe_bdev container: superblocks, adding, removing,
    rebuilding and recovering members, and [Create], from
    [safe_bdev_runtime.cc]. The periodic tasks that [Create] starts are the
    handlers [rt_FlushAllocLog] and [rt_BuildParity]; the progress counters that
    [Monitor] reports are not part of the state. *)
From Stdlib Require Import ZArith Lia.
From stdpp Require Import base list gmap sorting.
From S2P Require Import Prelude Gf256 ReedSolomon EcArray BlockAllocator AllocLog MemberManifest Superblock SafeBdev SafeBdevIO.

Open Scope Z_scope.

(** What the handlers ask of their surroundings. *)
Record Env := mkEnv {
  env_device : Z * Z -> nat;            (** the device behind a member pool *)
  env_stats : nat -> option (Z * Z);    (** its [GetStats]: remaining size, predicted days to live *)
  env_can_open : bool;
  env_can_rename : bool;
  env_max_rows : Z;                     (** CLIO_SAFE_BDEV_RECOVER_MAX_ROWS, 0 when unset *)
  env_padding : list u8                 (** the padding bytes of a superblock *)
}.

Record MemberDesc := mkMemberDesc { md_pool_id : Z * Z; md_pool_name : list u8; md_node_id : Z }.

Section Admin.
Context (G : Geometry) {S : Type} {MB : MemberBdev S} (E : Env).
Implicit Types (st : Runtime) (h : gmap nat S).

Definition EcRole_to_u32 (r : EcRole) : Z := match r with kData => 0 | kParity => 1 end.

(** * Superblocks *)

Definition member_at st (is_parity : bool) (idx : nat) : MemberSlot :=
  if is_parity then parity_at st idx else data_at st idx.
Definition client_at st (is_parity : bool) (idx : nat) : nat :=
  if is_parity then parity_client st idx else data_client st idx.

Definition superblock_of st (is_parity : bool) (idx : nat) : MemberSuperblock :=
  let m := member_at st is_parity idx in
  stamp (fst (rt_pool_id st)) (snd (rt_pool_id st)) (Z.of_nat idx) (EcRole_to_u32 (slot_role m))
    (u32 (slot_index m)) (Z.of_nat (max_failures st)) (Z.of_nat (kChunkLen G)).

Definition WriteSuperblock st h (is_parity : bool) (idx : nat) : bool * Runtime * gmap nat S :=
  let bs := superblock_buffer (kSuperblockSize G) (superblock_of st is_parity idx) (env_padding E) in
  let p := client_at st is_parity idx in
  let '(ok, h') := store_write h p 0 bs in
  (ok, (if is_parity then MaybeFaultParity else MaybeFaultData) st idx (write_fatal h p 0 bs), h').

(** [None]: the read failed; otherwise the superblock and whether it is there. *)
Definition ReadSuperblock st h (is_parity : bool) (idx : nat) : option (MemberSuperblock * bool) :=
  match store_read h (client_at st is_parity idx) 0 (kSuperblockSize G) with
  | Some buf => superblock_of_buffer buf
  | None => None
  end.

Definition ours st (sb : MemberSuperblock) : bool :=
  (sb_array_major sb =? fst (rt_pool_id st)) && (sb_array_minor sb =? snd (rt_pool_id st)).

Definition persist st : Runtime :=
  set_manifest st (PersistMemberManifest (manifest st) (data_members st) (parity_members st) (env_can_open E)).
Definition compact_manifest st : Runtime :=
  set_manifest st (CompactMemberManifest (manifest st) (data_members st) (parity_members st)
                     (env_can_open E) (env_can_rename E)).

(** * Removing *)

Fixpoint find_member (pool : Z * Z) (i : nat) (l : list MemberSlot) : option nat :=
  match l with
  | [] => None
  | m :: l => if decide (slot_pool_id m = pool) then Some i else find_member pool (Datatypes.S i) l
  end.

Definition rt_RemoveBdev st (target : Z * Z) (was_faulty : bool) : Z * Runtime :=
  let s := if was_faulty then kFaulty else kRemoved in
  match find_member target 0 (data_members st) with
  | Some d => (0, persist (set_data_state st d s))
  | None =>
      match find_member target 0 (parity_members st) with
      | Some j => (0, persist (set_parity_state st j s))
      | None => (0, st)
      end
  end.

(** * Rebuilding and recovering *)

Definition rebuild_data_chunk st h (idx : nat) (s : Z) : option (list u8) * Runtime :=
  let stripe := StripeMembers st s in
  match find_pos idx 0 stripe with
  | None => (None, st)
  | Some pos =>
      match ReconstructStripe G st h s stripe idx with
      | (Some chunks, st) => (Some (shard chunks pos), st)
      | (None, st) => (None, st)
      end
  end.

Definition rebuild_parity_chunk st h (idx : nat) (s : Z) : option (list u8) * Runtime :=
  let stripe := StripeMembers st s in
  match read_stripe G st h (SlotPhysOffset G s) stripe [] with
  | (Some data, st) => (Some (EncodeParityShard (GetCodec st (length stripe)) idx data (kChunkLen G)), st)
  | (None, st) => (None, st)
  end.

(** [ok], [completed], state, devices. *)
Fixpoint rebuild_loop st h (is_data : bool) (idx : nat) (slots : list Z) (done : Z) : bool * bool * Runtime * gmap nat S :=
  match slots with
  | [] => (true, true, st, h)
  | s :: slots =>
      if negb (env_max_rows E =? 0) && (env_max_rows E <=? done) then (true, false, st, h)
      else if is_data && IsSlotDirty st s then (false, true, st, h)
      else
        match StripeMembers st s with
        | [] => rebuild_loop st h is_data idx slots (done + 1)
        | _ =>
            match (if is_data then rebuild_data_chunk else rebuild_parity_chunk) st h idx s with
            | (None, st) => (false, true, st, h)
            | (Some bs, st) =>
                match store_write h (client_at st (negb is_data) idx) (SlotPhysOffset G s) bs with
                | (false, h) => (false, true, st, h)
                | (true, h) => rebuild_loop st h is_data idx slots (done + 1)
                end
            end
        end
  end.

Definition RebuildMember st h (is_data : bool) (idx : nat) : bool * bool * Runtime * gmap nat S :=
  let slots := in_order (if is_data then ma_live (alloc_at st idx) else written_slots st) in
  rebuild_loop st h is_data idx slots 0.

(** Seat the replacement pool: not active until the rebuild completes. *)
Definition seat_replacement (m : MemberSlot) (pool : Z * Z) (name : list u8) (node : Z) : MemberSlot :=
  mkMemberSlot pool name node (slot_role m) kFaulty (slot_index m) true.

Definition bring_online (m : MemberSlot) : MemberSlot :=
  mkMemberSlot (slot_pool_id m) (slot_pool_name m) (slot_node_id m) (slot_role m) kActive (slot_index m) false.

Definition update_member st (is_data : bool) (idx : nat) (f : MemberSlot -> MemberSlot) : Runtime :=
  if is_data then set_data st (alter f idx (data_members st)) else set_parity st (alter f idx (parity_members st)).

Definition replace_client st (is_data : bool) (idx : nat) (p : nat) : Runtime :=
  if is_data then set_data_clients st (<[idx := p]> (data_clients st))
  else set_parity_clients st (<[idx := p]> (parity_clients st)).

Definition finish_recovery st h (is_data : bool) (idx : nat) : Runtime * gmap nat S :=
  let st := update_member st is_data idx bring_online in
  let '(_, st, h) := WriteSuperblock st h (negb is_data) idx in
  (persist st, h).

Definition rt_RecoverBdev st h (old_pool new_pool : Z * Z) (name : list u8) (node : Z) : Z * Runtime * gmap nat S :=
  match (match find_member old_pool 0 (data_members st) with
         | Some d => Some (true, d)
         | None => match find_member old_pool 0 (parity_members st) with
                   | Some j => Some (false, j)
                   | None => None
                   end
         end) with
  | None => (1, st, h)
  | Some (is_data, idx) =>
      let st := replace_client st is_data idx (env_device E new_pool) in
      let st := persist (update_member st is_data idx (fun m => seat_replacement m new_pool name node)) in
      let '(ok, completed, st, h) := RebuildMember st h is_data idx in
      if negb ok then (1, st, h)
      else if negb completed then (0, st, h)
      else let '(st, h) := finish_recovery st h is_data idx in (0, st, h)
  end.

Definition resume_member (is_data : bool) (st_h : Runtime * gmap nat S) (idx : nat) : Runtime * gmap nat S :=
  let '(st, h) := st_h in
  if negb (slot_recovering (member_at st (negb is_data) idx)) then (st, h)
  else
    let '(ok, completed, st, h) := RebuildMember st h is_data idx in
    if ok && completed then finish_recovery st h is_data idx else (st, h).

Definition ResumeRecoveries st h : Runtime * gmap nat S :=
  let st_h := fold_left (resume_member true) (seq 0 (length (data_members st))) (st, h) in
  fold_left (resume_member false) (seq 0 (length (parity_members (fst st_h)))) st_h.

(** * Adding *)

Definition capacity_slots (remaining : Z) : Z :=
  (if Z.of_nat (kSuperblockSize G) <? remaining then remaining - Z.of_nat (kSuperblockSize G) else 0) /
  Z.of_nat (kChunkLen G).

(** The scan for an active member predicted to fail within a week: the lowest
    time to live seen and its member (data or parity, index). *)
Definition ttl_scan (active : nat -> bool) (client : nat -> nat) (is_data : bool) (n : nat)
    (acc : Z * option (bool * nat)) : Z * option (bool * nat) :=
  for_ n (fun i acc =>
    if negb (active i) then acc
    else match env_stats E (client i) with
         | Some (_, ttl) => if ttl <? fst acc then (ttl, Some (is_data, i)) else acc
         | None => acc
         end) acc.

Definition failing_member st : option (bool * nat) :=
  snd (ttl_scan (parity_active st) (parity_client st) false (length (parity_clients st))
         (ttl_scan (data_active st) (data_client st) true (length (data_clients st)) (7, None))).

Definition push_data st (m : MemberSlot) (p : nat) (a : MemberAlloc) : Runtime :=
  set_alloc (set_data_clients (set_data st (data_members st ++ [m])) (data_clients st ++ [p])) (data_alloc st ++ [a]).
Definition push_parity st (m : MemberSlot) (p : nat) : Runtime :=
  set_parity_clients (set_parity st (parity_members st ++ [m])) (parity_clients st ++ [p]).

Definition add_data st h (pool : Z * Z) (name : list u8) (node : Z) : Z * Runtime * gmap nat S :=
  let p := env_device E pool in
  match env_stats E p with
  | None => (1, st, h)
  | Some (remaining, _) =>
      let new_col := length (data_members st) in
      let m := mkMemberSlot pool name node kData kActive (Z.of_nat new_col) false in
      let st1 := push_data st m p (mkMemberAlloc 0 (capacity_slots remaining) [] ∅) in
      match ReadSuperblock st1 h false new_col with
      | None => (1, st, h)
      | Some (sb, present) =>
          if present && negb (ours st1 sb) then (2, st, h)
          else
            let '(st1, h) := if present then (st1, h)
                             else let '(_, st1, h) := WriteSuperblock st1 h false new_col in (st1, h) in
            (0, persist st1, h)
      end
  end.

Definition add_parity st h (pool : Z * Z) (name : list u8) (node : Z) : Z * Runtime * gmap nat S :=
  if decide (max_failures st <= parity_level st)%nat then (1, st, h)
  else
    let m := mkMemberSlot pool name node kParity kActive (Z.of_nat (parity_level st)) false in
    let new_j := length (parity_members st) in
    let st := set_level (push_parity st m (env_device E pool)) (parity_level st + 1) in
    let st := set_slots st (written_slots st ∪ dirty_slots st) (written_slots st) in
    let '(_, st, h) := WriteSuperblock st h true new_j in
    (0, persist st, h).

Definition rt_AddBdev st h (pool : Z * Z) (name : list u8) (node : Z) (as_parity : bool) : Z * Runtime * gmap nat S :=
  if as_parity then add_parity st h pool name node
  else
    match failing_member st with
    | None => add_data st h pool name node
    | Some (is_data, idx) =>
        let failed_pool := slot_pool_id (member_at st (negb is_data) idx) in
        let st := if is_data then set_data_state st idx kFaulty else set_parity_state st idx kFaulty in
        let '(rc, st, h) := rt_RecoverBdev st h failed_pool pool name node in
        (if rc =? 0 then 0 else 1, st, h)
    end.

(** * The allocator log's periodic pass *)

Definition kMinCompactRecords : Z := 1024.
Definition kCompactGrowthFactor : Z := 4.

Definition rt_FlushAllocLog st (disk : LogDisk) : Runtime * LogDisk :=
  let '(l, disk) := Flush (alloc_log st) disk (env_can_open E) in
  let live := live_block_count l in
  let threshold := Z.max kMinCompactRecords (u64 (live * kCompactGrowthFactor)) in
  let '(l, disk) := if threshold <? al_records_on_disk l then Compact l disk (env_can_open E) (env_can_rename E)
                    else (l, disk) in
  let st := set_log st l in
  (if MemberManifestNeedsCompaction (manifest st) (data_members st) (parity_members st) then compact_manifest st else st,
   disk).

(** * Create *)

Record CreateParams := mkCreateParams {
  cp_members : list MemberDesc;
  cp_max_failures : nat;
  cp_log_path_empty : bool
}.

(** Seat the data members in order; the first error returns its code. *)
Fixpoint seat_data st h (col : nat) (members : list MemberDesc) : Z * Runtime * gmap nat S :=
  match members with
  | [] => (0, st, h)
  | desc :: members =>
      let p := env_device E (md_pool_id desc) in
      match env_stats E p with
      | None => (1, set_data_clients st (data_clients st ++ [p]), h)
      | Some (remaining, _) =>
          let m := mkMemberSlot (md_pool_id desc) (md_pool_name desc) (md_node_id desc) kData kActive (Z.of_nat col) false in
          let st := push_data st m p (mkMemberAlloc 0 (capacity_slots remaining) [] ∅) in
          match ReadSuperblock st h false col with
          | None => (1, st, h)
          | Some (sb, present) =>
              if negb present then
                let '(ok, st, h) := WriteSuperblock st h false col in
                if ok then seat_data st h (Datatypes.S col) members else (1, st, h)
              else if ours st sb then seat_data st h (Datatypes.S col) members
              else (2, st, h)
          end
      end
  end.

Definition mark_recovering (recovering : list bool) (i : nat) (m : MemberSlot) : MemberSlot :=
  if nth i recovering false
  then mkMemberSlot (slot_pool_id m) (slot_pool_name m) (slot_node_id m) (slot_role m) kFaulty (slot_index m) true
  else m.

(** One manifest parity entry: seated, or skipped when it is not ours. *)
Definition restore_parity h st (e : MemberManifestEntry) : Runtime :=
  let pool := (me_pool_major e, me_pool_minor e) in
  let m := mkMemberSlot pool (me_pool_name e) (me_node_id e) kParity kActive (me_index e) false in
  let st1 := push_parity st m (env_device E pool) in
  let pj := length (parity_members st) in
  let is_ours := match ReadSuperblock st1 h true pj with
                 | Some (sb, present) => present && ours st1 sb
                 | None => false
                 end in
  if negb (me_recovering e =? 0) then
    set_parity st1 (alter (fun m => seat_replacement m (slot_pool_id m) (slot_pool_name m) (slot_node_id m)) pj (parity_members st1))
  else if is_ours then st1
  else st.

Definition entry_index_le (a b : MemberManifestEntry) : Prop := me_index a <= me_index b.
#[export] Instance entry_index_le_dec : RelDecision entry_index_le.
Proof. intros a b. unfold entry_index_le. apply _. Defined.

Definition recovering_columns (n : nat) (entries : list MemberManifestEntry) : list bool :=
  map (fun i => existsb (fun e => negb (me_role e =? 1) && negb (me_recovering e =? 0) && (me_index e =? Z.of_nat i)) entries)
      (seq 0 n).

(** Return code, state, devices, allocator-log files. *)
Definition rt_Create (pool_id : Z * Z) (files : Manifest) (params : CreateParams) h (disk : LogDisk)
    : Z * Runtime * gmap nat S * LogDisk :=
  let files := mkManifest (negb (cp_log_path_empty params)) (mm_records files) (mm_disk files) in
  let '(have_manifest, entries, mm) := LoadMemberManifest files (env_can_open E) (env_can_rename E) in
  let entries := if have_manifest then entries else [] in
  let eff_parity := merge_sort entry_index_le (filter (fun e => me_role e = 1) entries) in
  let n := length (cp_members params) in
  let recovering := recovering_columns n entries in
  let st := mkRuntime pool_id [] [] [] [] [] 0 AllocatorLog_new (cp_max_failures params) 0 ∅ ∅ mm in
  if decide (n = 0)%nat then (1, st, h, disk)
  else
    let '(_, l, disk) := AllocatorLog_Open AllocatorLog_new disk (cp_log_path_empty params) true (env_can_open E) in
    let st := set_log st l in
    let recovered := al_enabled l && negb (bool_decide (AllocatorLog_groups l = [])) in
    match seat_data st h 0 (cp_members params) with
    | (0, st, h) =>
        let st := set_data st (imap (mark_recovering recovering) (data_members st)) in
        let st := if recovered then
                    let '(live, l) := AllocatorLog_live (alloc_log st) kAllocGroup in
                    restore_allocators G (set_log st l) live
                  else set_log st (LogGroupOpen (alloc_log st) kAllocGroup 0 0 0 0) in
        let st := fold_left (restore_parity h) eff_parity st in
        let st := set_level st (length (parity_members st)) in
        let '(st, h) := ResumeRecoveries st h in
        (0, compact_manifest st, h, disk)
    | (rc, st, h) => (rc, st, h, disk)
    end.
End Admin.
