(* ===== verification/SafeBdevRecovery.v ===== *)
(** Membership changes of the safe_bdev container keep its data.

    Frame lemmas of allocation and freeing, the member rebuild loop,
    [RecoverBdev] and [AddBdev] against the invariant of the data plane. *)
From Stdlib Require Import ZArith Lia.
From stdpp Require Import base list gmap sorting.
From S2P Require Import Prelude Gf256 ReedSolomon EcArray BlockAllocator AllocLog MemberManifest SafeBdev SafeBdevIO.
From S2P Require Import Superblock SafeBdevAdmin.

Open Scope Z_scope.


Section Frames.
Context (G : Geometry).

(** Allocation and freeing leave the membership, the devices and M alone. *)
Record same_members (st st' : Runtime) : Prop := {
  sm_data : data_members st' = data_members st;
  sm_parity : parity_members st' = parity_members st;
  sm_data_clients : data_clients st' = data_clients st;
  sm_parity_clients : parity_clients st' = parity_clients st;
  sm_max : max_failures st' = max_failures st;
  sm_level : parity_level st' = parity_level st
}.

#[export] Instance same_members_preorder : PreOrder same_members.
Proof using. split; [by intros st|]. intros a b c [] []. split; congruence. Qed.

Lemma scan_members_same cnt st o st' : scan_members cnt st = (o, st') -> same_members st st'.
Proof using. intros H. apply scan_members_frame in H as [r ->]. by split. Qed.

Lemma alloc_loop_same fuel st size blocks r st' :
  alloc_loop G fuel st size blocks = Some (r, st') -> same_members st st'.
Proof using.
  revert st size blocks. induction fuel as [|fuel IH]; intros st size blocks; [done|]. cbn [alloc_loop].
  destruct (size <=? 0); [by intros [= _ <-]|].
  destruct (scan_members _ st) as [[d|] st1] eqn:Hs; apply scan_members_same in Hs; [|by intros [= _ <-]].
  destruct (Take _) as [s a]. intros H. apply IH in H. etransitivity; [exact Hs|]. etransitivity; [|exact H]. by split.
Qed.

Lemma AllocateBlocks_same st size r st' : rt_AllocateBlocks G st size = Some (r, st') -> same_members st st'.
Proof using.
  unfold rt_AllocateBlocks. destruct (size =? 0); [by intros [= _ <-]|].
  destruct (data_members st) eqn:E; [by intros [= _ <-]|]. apply alloc_loop_same.
Qed.

Lemma free_block_same st b : same_members st (free_block G st b).
Proof using.
  destruct (Unband G (b_offset b)) as [[d s] w] eqn:E. rewrite (free_block_eq G st b d s w E). case_decide; [|by split].
  unfold freed_state. destruct (StripeMembers _ s); by split.
Qed.

Lemma FreeBlocks_same st blocks : same_members st (snd (rt_FreeBlocks G st blocks)).
Proof using.
  unfold rt_FreeBlocks. cbn [snd]. revert st. induction blocks as [|b blocks IH]; intros st; [by split|].
  cbn [fold_left]. etransitivity; [apply free_block_same|apply IH].
Qed.
End Frames.

(** * Rebuilding a member *)

Section Recovery.
Context (G : Geometry) (HG : io_geometry G) {S : Type} {MB : MemberBdev S} {MS : MemberBdevSpec S} (E : Env).
Implicit Types (st : Runtime) (h : gmap nat S) (D : chunk_contents) (stale : gset Z).

Definition member_active_at st (is_data : bool) (idx : nat) : bool :=
  if is_data then data_active st idx else parity_active st idx.
Definition seats st (is_data : bool) : nat :=
  if is_data then length (data_members st) else length (parity_members st).

(** The devices of two seats are distinct. *)
Lemma clients_distinct st is_data idx is_data' idx' :
  devices_ok st -> (idx < seats st is_data)%nat -> (idx' < seats st is_data')%nat ->
  (is_data, idx) <> (is_data', idx') -> client_at st (negb is_data) idx <> client_at st (negb is_data') idx'.
Proof using.
  intros Hdv H1 H2 Hne Ec.
  pose proof (dv_data _ Hdv) as Hd. pose proof (dv_parity _ Hdv) as Hp.
  unfold seats, client_at in *. destruct is_data, is_data'; cbn [negb] in *.
  - apply Hne. f_equal. by apply (data_client_inj st).
  - apply (data_parity_distinct st idx idx' Hdv) in Ec; [done|done|lia].
  - symmetry in Ec. apply (data_parity_distinct st idx' idx Hdv) in Ec; [done|done|lia].
  - apply Hne. f_equal. apply (parity_client_inj st); [done|lia|lia|done].
Qed.

(** Writing to the device of a member that is down disturbs nothing. *)
Lemma inactive_frame st h h' D stale is_data idx :
  io_inv G st h D stale -> (idx < seats st is_data)%nat -> member_active_at st is_data idx = false ->
  heap_frame (client_at st (negb is_data) idx) h h' -> io_inv G st h' D stale.
Proof using.
  intros [Harr Hdv HL Hdat Hpar Hwr] Hidx Ha Hf. split; try done.
  - intros d s i Hd Hl Had Hi. unfold reads_byte. rewrite (store_read_frame _ _ _ _ _ _ Hf); [by apply Hdat|].
    change (data_client st d) with (client_at st (negb true) d). apply clients_distinct; try done.
    intros [= <- ->]. unfold member_active_at in Ha. congruence.
  - intros s j l Hnd Hns Hr Hj Hap Hne Hl. apply (Hpar s j l); try done.
    rewrite (store_read_frame _ _ _ _ _ _ Hf) in Hl; [done|].
    change (parity_client st j) with (client_at st (negb false) j).
    apply clients_distinct; try done; [unfold seats; by rewrite <- (dv_level _ Hdv)|].
    intros [= <- ->]. unfold member_active_at in Ha. congruence.
Qed.

Lemma faulted_member st st' is_data idx :
  faulted st st' -> seats st' is_data = seats st is_data /\
  client_at st' (negb is_data) idx = client_at st (negb is_data) idx /\
  (member_active_at st is_data idx = false -> member_active_at st' is_data idx = false).
Proof using.
  intros Hf. unfold seats, client_at, member_active_at, data_client, parity_client.
  destruct is_data; cbn [negb].
  - rewrite (fl_data _ _ Hf), (fl_data_clients _ _ Hf). split; [done|]. split; [done|]. intros Ha.
    destruct (data_active st' idx) eqn:E1; [|done]. apply (fl_data_active _ _ Hf) in E1. congruence.
  - rewrite (fl_parity _ _ Hf), (fl_parity_clients _ _ Hf). split; [done|]. split; [done|]. intros Ha.
    destruct (parity_active st' idx) eqn:E1; [|done]. apply (fl_parity_active _ _ Hf) in E1. congruence.
Qed.

(** The chunk a rebuild should produce; nothing is known of a stale one. *)
Definition rebuilt_chunk st D stale (is_data : bool) (idx : nat) (s : Z) (bs : list u8) : Prop :=
  length bs = kChunkLen G /\
  (if is_data then s ∉ stale -> bs = D idx s else bs = stripe_parity G st D s idx).

Lemma rebuild_chunk_spec st h D stale is_data idx s r st' :
  io_inv G st h D stale -> 0 <= s < kSlotsPerMember G ->
  (is_data = true -> s ∉ dirty_slots st) ->
  (if is_data then rebuild_data_chunk G else rebuild_parity_chunk G) st h idx s = (r, st') ->
  faulted st st' /\ forall bs, r = Some bs -> rebuilt_chunk st D stale is_data idx s bs.
Proof using HG MS.
  intros Hinv Hs Hd. destruct is_data.
  - unfold rebuild_data_chunk. destruct (find_pos idx 0 (StripeMembers st s)) as [pos|] eqn:Ep; [|intros [= <- <-]; split; [reflexivity|done]].
    apply find_pos_Some in Ep as [_ Ep]. rewrite Nat.sub_0_r in Ep. pose proof (lookup_lt_Some _ _ _ Ep) as Hpos.
    destruct (ReconstructStripe G st h s (StripeMembers st s) idx) as [r1 st1] eqn:Er.
    pose proof (ReconstructStripe_faulted _ _ _ _ _ _ _ _ Er) as Hf.
    destruct r1 as [chunks|]; intros [= <- <-]; (split; [done|]); intros bs [= <-]. split.
    + assert (data_ok (length (StripeMembers st s)) (kChunkLen G) chunks) as Hok.
      { revert Er. unfold ReconstructStripe. case_decide; [done|]. destruct (gather_data _ _ _ _ _ _ _ _ _ _) as [[? ?] ?].
        destruct (gather_parity _ _ _ _ _ _ _ _ _) as [[? ?] ?]. case_decide; [done|]. intros [= Er _].
        by apply DecodeData_data_ok in Er. }
      by eapply data_ok_shard.
    + intros Hst. destruct (ReconstructStripe_spec G HG st h D stale s idx _ st1 Hinv (Hd eq_refl) Hst Hs Er) as (_ & Hch & _).
      rewrite (Hch chunks eq_refl). unfold shard. rewrite nth_lookup. change (map ?f ?l) with (f <$> l).
      by rewrite list_lookup_fmap, Ep.
  - unfold rebuild_parity_chunk. destruct (read_stripe G st h _ _ []) as [r1 st1] eqn:Er.
    destruct (read_stripe_spec G HG st h D stale s (StripeMembers st s) [] r1 st1 Hinv) as [Hf Hdata]; [|exact Er|].
    { intros d. by apply (stripe_member G st h D stale). }
    destruct r1 as [data|]; intros [= <- <-]; (split; [done|]); intros bs [= <-]. split; [apply EncodeParityShard_length|].
    rewrite (Hdata data eq_refl). unfold stripe_parity, GetCodec. by rewrite (fl_max _ _ Hf).
Qed.

Lemma rebuilt_chunk_faulted st st' D stale is_data idx s bs :
  faulted st st' -> rebuilt_chunk st' D stale is_data idx s bs -> rebuilt_chunk st D stale is_data idx s bs.
Proof using.
  intros Hf [Hl H]. split; [done|]. destruct is_data; [done|]. rewrite H. unfold stripe_parity, GetCodec.
  by rewrite (faulted_StripeMembers _ _ _ Hf), (fl_max _ _ Hf).
Qed.

(** What a run of the loop achieved: it wrote only to the target device and
    only to chunks of [slots]; if it completed, every slot with a stripe holds
    its rebuilt chunk. *)
Record rebuild_post st h D stale (is_data : bool) (idx : nat) (slots : list Z) (ok completed : bool) st' h' : Prop := {
  rb_faulted : faulted st st';
  rb_frame : heap_frame (client_at st (negb is_data) idx) h h';
  rb_other : forall s, s ∉ slots -> 0 <= s < kSlotsPerMember G ->
    store_read h' (client_at st (negb is_data) idx) (SlotPhysOffset G s) (kChunkLen G) =
    store_read h (client_at st (negb is_data) idx) (SlotPhysOffset G s) (kChunkLen G);
  rb_done : ok = true -> completed = true -> forall s, s ∈ slots -> StripeMembers st s <> [] ->
    exists bs, rebuilt_chunk st D stale is_data idx s bs /\
      store_read h' (client_at st (negb is_data) idx) (SlotPhysOffset G s) (kChunkLen G) = Some bs
}.

Lemma rebuild_stop st st1 h h1 D stale is_data idx s slots ok completed :
  faulted st st1 -> heap_frame (client_at st (negb is_data) idx) h h1 ->
  (forall s', s' ∉ s :: slots -> 0 <= s' < kSlotsPerMember G ->
    store_read h1 (client_at st (negb is_data) idx) (SlotPhysOffset G s') (kChunkLen G) =
    store_read h (client_at st (negb is_data) idx) (SlotPhysOffset G s') (kChunkLen G)) ->
  ok && completed = false -> rebuild_post st h D stale is_data idx (s :: slots) ok completed st1 h1.
Proof using. intros Hf Hh Ho Hb. split; [done|done|done|]. intros -> ->. done. Qed.

Lemma stripe_in_range st h D stale s : io_inv G st h D stale -> StripeMembers st s <> [] -> 0 <= s < kSlotsPerMember G.
Proof using.
  intros Hinv Hne. destruct (StripeMembers st s) as [|d l] eqn:E1; [done|].
  destruct (stripe_member G st h D stale s d Hinv) as [Hd Hl]; [rewrite E1; by left|].
  exact (slot_live_range G st d s (io_array _ _ _ _ _ Hinv) Hd Hl).
Qed.

Lemma rebuild_loop_spec st h D stale is_data idx slots n ok completed st' h' :
  io_inv G st h D stale -> (idx < seats st is_data)%nat -> member_active_at st is_data idx = false ->
  NoDup slots ->
  rebuild_loop G E st h is_data idx slots n = (ok, completed, st', h') ->
  rebuild_post st h D stale is_data idx slots ok completed st' h'.
Proof using HG MS.
  revert st h n. induction slots as [|s slots IH]; intros st h n Hinv Hidx Hact Hnd; cbn [rebuild_loop].
  { intros [= <- <- <- <-]. split; [reflexivity|apply heap_frame_refl|done|].
    intros _ _ s Hs. by apply not_elem_of_nil in Hs. }
  apply NoDup_cons in Hnd as [Hs Hnd]. set (p := client_at st (negb is_data) idx).
  assert (forall st1 h1, faulted st st1 -> heap_frame p h h1 ->
    (forall s', s' <> s -> 0 <= s' < kSlotsPerMember G ->
       store_read h1 p (SlotPhysOffset G s') (kChunkLen G) = store_read h p (SlotPhysOffset G s') (kChunkLen G)) ->
    (StripeMembers st s <> [] -> exists bs, rebuilt_chunk st D stale is_data idx s bs /\
       store_read h1 p (SlotPhysOffset G s) (kChunkLen G) = Some bs) ->
    rebuild_loop G E st1 h1 is_data idx slots (n + 1) = (ok, completed, st', h') ->
    rebuild_post st h D stale is_data idx (s :: slots) ok completed st' h') as Hnext.
  { intros st1 h1 Hf1 Hh1 Ho1 Hc1 Hloop. destruct (faulted_member st st1 is_data idx Hf1) as (Hseats & Hclient & Hact1).
    destruct (IH st1 h1 (n + 1)) as [Hf2 Hh2 Ho2 Hd2]; [| | |done|exact Hloop|].
    { apply (inactive_frame st1 h h1 D stale is_data idx); [by eapply faulted_inv| |by apply Hact1|by rewrite Hclient].
      by rewrite Hseats. }
    { by rewrite Hseats. } { by apply Hact1. }
    rewrite Hclient in Hh2, Ho2, Hd2. fold p in Hh2, Ho2, Hd2. split; fold p.
    - by transitivity st1.
    - by eapply heap_frame_trans.
    - intros s' Hs' Hr. apply not_elem_of_cons in Hs' as [Hne Hs']. by rewrite Ho2, Ho1.
    - intros Hok Hc s' Hs' Hne. rewrite (faulted_StripeMembers _ _ _ Hf1) in Hd2 || idtac.
      apply elem_of_cons in Hs' as [->|Hs'].
      + destruct (Hc1 Hne) as (bs & Hb & Hr). exists bs. split; [done|]. rewrite Ho2; [done|done|].
        by eapply stripe_in_range.
      + destruct (Hd2 Hok Hc s' Hs') as (bs & Hb & Hr); [by rewrite (faulted_StripeMembers _ _ _ Hf1)|].
        exists bs. split; [by eapply rebuilt_chunk_faulted|done]. }
  destruct (negb (env_max_rows E =? 0) && (env_max_rows E <=? n)).
  { intros [= <- <- <- <-]. by apply rebuild_stop; [reflexivity|apply heap_frame_refl| |]. }
  destruct (is_data && IsSlotDirty st s) eqn:Edirty.
  { intros [= <- <- <- <-]. by apply rebuild_stop; [reflexivity|apply heap_frame_refl| |]. }
  destruct (StripeMembers st s) as [|d0 l0] eqn:Est.
  { apply Hnext; [reflexivity|apply heap_frame_refl|done|done]. }
  pose proof (stripe_in_range st h D stale s Hinv ltac:(by rewrite Est)) as Hr.
  destruct ((if is_data then rebuild_data_chunk G else rebuild_parity_chunk G) st h idx s) as [[bs|] st1] eqn:Ec.
  2: { destruct (rebuild_chunk_spec st h D stale is_data idx s None st1 Hinv Hr) as [Hf1 _]; [|exact Ec|].
       { intros ->. unfold IsSlotDirty in Edirty. by apply bool_decide_eq_false in Edirty. }
       intros [= <- <- <- <-]. by apply rebuild_stop; [done|apply heap_frame_refl| |]. }
  destruct (rebuild_chunk_spec st h D stale is_data idx s (Some bs) st1 Hinv Hr) as [Hf1 Hbs]; [|exact Ec|].
  { intros ->. unfold IsSlotDirty in Edirty. by apply bool_decide_eq_false in Edirty. }
  specialize (Hbs bs eq_refl). destruct (faulted_member st st1 is_data idx Hf1) as (_ & Hclient & _). rewrite Hclient. fold p.
  destruct (SlotPhysOffset_exact G HG s Hr) as (_ & P0 & P1). destruct Hbs as [Hlen Hbs].
  destruct (store_write h p (SlotPhysOffset G s) bs) as [okw h1] eqn:Ew.
  pose proof (store_write_frame _ _ _ _ _ _ Ew) as Hh1.
  assert (forall s', s' <> s -> 0 <= s' < kSlotsPerMember G ->
    store_read h1 p (SlotPhysOffset G s') (kChunkLen G) = store_read h p (SlotPhysOffset G s') (kChunkLen G)) as Ho1.
  { intros s' Hne Hr'. destruct (SlotPhysOffset_exact G HG s' Hr') as (_ & P0' & P1').
    pose proof (slots_phys_disjoint G HG s s' Hr Hr' ltac:(congruence)).
    refine (store_write_other h p _ bs okw h1 p _ _ _ _ _ _ _ Ew); rewrite ?Hlen; lia. }
  destruct okw.
  - apply Hnext; try done. intros _. exists bs. split; [done|]. apply store_write_same in Ew; rewrite ?Hlen in *; [done|lia|lia].
  - intros [= <- <- <- <-]. apply rebuild_stop; try done. intros s' Hs'. apply not_elem_of_cons in Hs' as [Hne _]. by apply Ho1.
Qed.
Lemma persist_faulted st : faulted st (persist E st).
Proof using. by split. Qed.

Lemma WriteSuperblock_spec st h is_parity idx ok st' h' :
  WriteSuperblock G E st h is_parity idx = (ok, st', h') ->
  faulted st st' /\ heap_frame (client_at st is_parity idx) h h'.
Proof using.
  unfold WriteSuperblock. destruct (store_write _ _ _ _) as [ok1 h1] eqn:Ew. intros [= <- <- <-].
  split; [|by eapply store_write_frame]. destruct is_parity; [apply MaybeFaultParity_faulted|apply MaybeFaultData_faulted].
Qed.

(** A device that backs no member. *)
Definition fresh_device st (p : nat) : Prop := p ∉ data_clients st ++ parity_clients st.

(** A write below the slots, to the superblock area, leaves every slot. *)
Lemma below_slots_other h p bs ok h' q a len :
  Z.of_nat (length bs) <= Z.of_nat (kSuperblockSize G) -> store_write h p 0 bs = (ok, h') ->
  Z.of_nat (kSuperblockSize G) <= a -> a + Z.of_nat len < 2 ^ 64 -> store_read h' q a len = store_read h q a len.
Proof using MS. intros Hlen Hw Ha Hb. refine (store_write_other h p 0 bs ok h' q a len _ _ _ _ _ Hw); lia. Qed.

Lemma superblock_write_inv st h D stale p bs ok h' :
  io_inv G st h D stale -> Z.of_nat (length bs) <= Z.of_nat (kSuperblockSize G) ->
  store_write h p 0 bs = (ok, h') -> io_inv G st h' D stale.
Proof using HG MS.
  intros [Harr Hdv HL Hdat Hpar Hwr] Hlen Hw. pose proof (below_slots_other h p bs ok h') as Ho.
  split; try done.
  - intros d s i Hd Hl Ha Hi. pose proof (slot_live_range G st d s Harr Hd Hl) as Hs.
    destruct (SlotPhysOffset_exact G HG s Hs) as (Ee & P0 & P1). unfold reads_byte.
    rewrite Ho; [by apply Hdat|done|done|nia|lia].
  - intros s j l Hnd Hns Hr Hj Ha Hne Hl. destruct (SlotPhysOffset_exact G HG s Hr) as (Ee & P0 & P1).
    apply (Hpar s j l); try done. rewrite Ho in Hl; [done|done|done|nia|lia].
Qed.

Definition superblock_fits : Prop := (72 <= kSuperblockSize G)%nat /\ length (env_padding E) = 4%nat.

Lemma length_superblock_buffer sb padding :
  superblock_fits -> length padding = 4%nat -> length (superblock_buffer (kSuperblockSize G) sb padding) = kSuperblockSize G.
Proof using.
  intros [Hsb _] Hp. unfold superblock_buffer, superblock_bytes.
  rewrite !length_app, length_prefix_bytes, length_le_bytes, length_replicate, Hp. lia.
Qed.

Lemma WriteSuperblock_inv st h D stale is_parity idx ok st' h' :
  superblock_fits -> io_inv G st h D stale -> WriteSuperblock G E st h is_parity idx = (ok, st', h') ->
  io_inv G st' h' D stale /\ faulted st st' /\
  forall q s, 0 <= s < kSlotsPerMember G ->
    store_read h' q (SlotPhysOffset G s) (kChunkLen G) = store_read h q (SlotPhysOffset G s) (kChunkLen G).
Proof using HG MS.
  intros Hfit Hinv Hw. destruct (WriteSuperblock_spec _ _ _ _ _ _ _ Hw) as [Hf _].
  unfold WriteSuperblock in Hw. destruct (store_write _ _ _ _) as [ok1 h1] eqn:Ew. injection Hw as <- <- <-.
  assert (Z.of_nat (length (superblock_buffer (kSuperblockSize G) (superblock_of G st is_parity idx) (env_padding E))) <=
          Z.of_nat (kSuperblockSize G)) as Hlen by (rewrite length_superblock_buffer; [lia|done|apply Hfit]).
  split; [eapply faulted_inv; [exact Hf|]; by eapply superblock_write_inv|]. split; [done|].
  intros q s Hs. destruct (SlotPhysOffset_exact G HG s Hs) as (Ee & P0 & P1).
  eapply below_slots_other; [exact Hlen|exact Ew|nia|lia].
Qed.

(** The replacement device is seated, and its member is down. *)
Definition seated_state st (is_data : bool) (idx : nat) (pool : Z * Z) (name : list u8) (node : Z) : Runtime :=
  persist E (update_member (replace_client st is_data idx (env_device E pool)) is_data idx
               (fun m => seat_replacement m pool name node)).

Lemma NoDup_insert_fresh (l : list nat) i p : NoDup l -> p ∉ l -> NoDup (<[i := p]> l).
Proof using.
  intros Hnd Hp. destruct (decide (i < length l)%nat) as [Hi|Hi]; [|by rewrite list_insert_ge by lia].
  rewrite insert_take_drop by done. rewrite <- (take_drop i l) in Hnd, Hp.
  destruct (drop i l) as [|x l2] eqn:Ed; [apply (f_equal length) in Ed; rewrite length_drop in Ed; cbn in Ed; lia|].
  replace (drop (Datatypes.S i) l) with l2 by (replace (Datatypes.S i) with (i + 1)%nat by lia; rewrite <- drop_drop, Ed; done).
  apply NoDup_app in Hnd as (H1 & H2 & H3). apply NoDup_cons in H3 as [H3 H4]. rewrite elem_of_app, elem_of_cons in Hp.
  apply NoDup_app. split; [done|]. split.
  - intros y Hy Hy'. apply elem_of_cons in Hy' as [->|Hy']; [tauto|]. apply (H2 y Hy). by right.
  - apply NoDup_cons. split; [tauto|done].
Qed.

Lemma seated_inv st h D stale is_data idx pool name node :
  io_inv G st h D stale -> (idx < seats st is_data)%nat -> fresh_device st (env_device E pool) ->
  let st1 := seated_state st is_data idx pool name node in
  io_inv G st1 h D stale /\ seats st1 is_data = seats st is_data /\ member_active_at st1 is_data idx = false /\
  client_at st1 (negb is_data) idx = env_device E pool /\
  data_alloc st1 = data_alloc st /\ dirty_slots st1 = dirty_slots st /\ written_slots st1 = written_slots st.
Proof using.
  intros [[A1 A2 A3 A4] [V1 V2 V3 V4 V5 V6] HL Hdat Hpar Hwr] Hidx Hfresh st1. unfold fresh_device in Hfresh.
  set (p := env_device E pool) in *. destruct is_data; cbn [seats] in Hidx.
  - assert (forall d, data_active st1 d = true -> d <> idx /\ data_active st d = true) as Ha.
    { intros d. unfold data_active, data_at, st1, seated_state. cbn [persist set_manifest update_member replace_client set_data set_data_clients data_members].
      rewrite nth_alter by done. case_decide as Ed; [intros H; by apply bool_decide_eq_true in H|]. split; [congruence|done]. }
    assert (forall d, d <> idx -> data_client st1 d = data_client st d) as Hc.
    { intros d Hne. unfold data_client, st1, seated_state. cbn [persist set_manifest update_member replace_client set_data set_data_clients data_clients].
      rewrite !nth_lookup. by rewrite list_lookup_insert_ne. }
    split; [|split; [|split; [|split; [|done]]]].
    + unfold st1. split; cbn [seated_state]; try done.
      * split; cbn; rewrite ?length_alter; done.
      * split; cbn; rewrite ?length_alter, ?length_insert; try done.
        apply NoDup_app in V4 as (N1 & N2 & N3). apply NoDup_app. rewrite elem_of_app in Hfresh. split; [apply NoDup_insert_fresh; tauto|].
        split; [|done]. intros x Hx Hx'. apply list_elem_of_lookup in Hx as [i Hi]. apply list_lookup_insert_Some in Hi as [(-> & <- & _)|(_ & Hi)].
        -- tauto.
        -- apply (N2 x); [by eapply list_elem_of_lookup_2|done].
      * intros d s i Hd Hl Had Hi. fold st1 in Had |- *. apply Ha in Had as [Hne Had]. rewrite Hc by done.
        apply Hdat; try done. unfold members_count in *. cbn in Hd. by rewrite length_alter in Hd.
    + cbn. by rewrite length_alter.
    + cbn [member_active_at]. destruct (data_active st1 idx) eqn:E1; [|done]. by apply Ha in E1 as [? _].
    + cbn [negb client_at]. unfold data_client, st1, seated_state.
      cbn [persist set_manifest update_member replace_client set_data set_data_clients data_clients].
      rewrite nth_lookup, list_lookup_insert_eq by lia. done.
  - assert (forall j, parity_active st1 j = true -> j <> idx /\ parity_active st j = true) as Ha.
    { intros j. unfold parity_active, parity_at, st1, seated_state. cbn [persist set_manifest update_member replace_client set_parity set_parity_clients parity_members].
      rewrite nth_alter by done. case_decide as Ed; [intros H; by apply bool_decide_eq_true in H|]. split; [congruence|done]. }
    assert (forall j, j <> idx -> parity_client st1 j = parity_client st j) as Hc.
    { intros j Hne. unfold parity_client, st1, seated_state. cbn [persist set_manifest update_member replace_client set_parity set_parity_clients parity_clients].
      rewrite !nth_lookup. by rewrite list_lookup_insert_ne. }
    split; [|split; [|split; [|split; [|done]]]].
    + unfold st1. split; cbn [seated_state]; try done.
      * split; cbn; rewrite ?length_alter, ?length_insert; try done.
        apply NoDup_app in V4 as (N1 & N2 & N3). apply NoDup_app. rewrite elem_of_app in Hfresh. split; [done|].
        split; [|apply NoDup_insert_fresh; tauto]. intros x Hx' Hx. apply list_elem_of_lookup in Hx as [i Hi].
        apply list_lookup_insert_Some in Hi as [(-> & <- & _)|(_ & Hi)].
        -- tauto.
        -- apply (N2 x); [done|by eapply list_elem_of_lookup_2].
      * intros s j l Hnd Hns Hr Hj Had Hne Hl. fold st1 in Had, Hl. apply Ha in Had as [Hne' Had]. rewrite Hc in Hl by done.
        by apply (Hpar s j l).
    + cbn. by rewrite length_alter.
    + cbn [member_active_at]. destruct (parity_active st1 idx) eqn:E1; [|done]. by apply Ha in E1 as [? _].
    + cbn [negb client_at]. unfold parity_client, st1, seated_state.
      cbn [persist set_manifest update_member replace_client set_parity set_parity_clients parity_clients].
      rewrite nth_lookup, list_lookup_insert_eq by lia. done.
Qed.

(** What a rebuilt member holds: its contents, or for a stale slot whatever the
    survivors decoded to. *)
Definition recovered_contents st h' D stale (is_data : bool) (idx : nat) : chunk_contents := fun d s =>
  if is_data && bool_decide (d = idx) && bool_decide (s ∈ stale)
  then observe_range h' (client_at st (negb is_data) idx) (SlotPhysOffset G s) (kChunkLen G) else D d s.

Lemma recovered_contents_eq st h' D stale is_data idx d s :
  s ∉ stale -> recovered_contents st h' D stale is_data idx d s = D d s.
Proof using. intros Hs. unfold recovered_contents. rewrite (bool_decide_false (s ∈ stale)) by done. by rewrite andb_false_r. Qed.

Lemma observe_reads h p a : 0 <= a -> a + 1 < 2 ^ 64 -> reads_byte h p a (observe h p a).
Proof using MS.
  intros H0 H1 l Hr. unfold observe. rewrite Hr. apply store_read_length in Hr; [|lia|lia]. by destruct l as [|b [|]].
Qed.

(** The ghost contents of stale chunks may be replaced by what is observed. *)
Lemma observed_inv st h D D' stale :
  io_inv G st h D stale ->
  (forall d s, D' d s = D d s \/ (s ∈ stale /\ D' d s = observe_range h (data_client st d) (SlotPhysOffset G s) (kChunkLen G))) ->
  io_inv G st h D' stale.
Proof using HG MS.
  intros [Harr Hdv HL Hdat Hpar Hwr] HD. split; try done.
  - intros d s. destruct (HD d s) as [->|[_ ->]]; [done|]. unfold observe_range. by rewrite length_map, length_seq.
  - intros d s i Hd Hl Ha Hi. destruct (HD d s) as [->|[_ ->]]; [by apply Hdat|]. rewrite observe_range_bget by done.
    destruct (SlotPhysOffset_exact G HG s (slot_live_range G st d s Harr Hd Hl)) as (_ & P0 & P1). apply observe_reads; lia.
  - intros s j l Hnd Hns Hr Hj Ha Hne Hl. rewrite (Hpar s j l) by done. unfold stripe_parity. f_equal. apply map_ext.
    intros d. destruct (HD d s) as [->|[Hs _]]; [done|]. by destruct Hns.
Qed.

(** Bringing a completely rebuilt member online. *)
Lemma online_inv st h D stale is_data idx (rebuilt : Z -> Prop) :
  io_inv G st h D stale -> (idx < seats st is_data)%nat ->
  (forall s, rebuilt s -> StripeMembers st s <> [] -> exists bs, rebuilt_chunk st D stale is_data idx s bs /\
     store_read h (client_at st (negb is_data) idx) (SlotPhysOffset G s) (kChunkLen G) = Some bs) ->
  (if is_data then forall s, slot_live st idx s -> rebuilt s else forall s, s ∈ written_slots st -> rebuilt s) ->
  io_inv G (update_member st is_data idx bring_online) h (recovered_contents st h D stale is_data idx) stale.
Proof using HG MS.
  intros [[A1 A2 A3 A4] [V1 V2 V3 V4 V5 V6] HL Hdat Hpar Hwr] Hidx Hreb Hcov.
  assert (array_ok G st) as Harr by done.
  assert (forall s j, s ∉ stale -> stripe_parity G (update_member st is_data idx bring_online)
            (recovered_contents st h D stale is_data idx) s j = stripe_parity G st D s j) as Hsp.
  { intros s j Hs. unfold stripe_parity. destruct is_data; (f_equal; apply map_ext; intros d; by apply recovered_contents_eq). }
  destruct is_data; cbn [seats client_at negb] in *.
  - split.
    + split; cbn; rewrite ?length_alter; done.
    + split; cbn; rewrite ?length_alter; done.
    + intros d s. unfold recovered_contents. destruct (_ && _); [|done]. unfold observe_range. by rewrite length_map, length_seq.
    + intros d s i Hd Hl Ha Hi. unfold members_count in Hd. cbn in Hd. rewrite length_alter in Hd.
      change (slot_live st d s) in Hl. change (data_client (update_member st true idx bring_online) d) with (data_client st d).
      pose proof (slot_live_range G st d s Harr Hd Hl) as Hs. destruct (SlotPhysOffset_exact G HG s Hs) as (_ & P0 & P1).
      unfold recovered_contents. cbn [andb client_at negb]. destruct (decide (d = idx)) as [->|Hne].
      * rewrite (bool_decide_true (idx = idx)) by done. cbn [andb]. destruct (decide (s ∈ stale)) as [Hst|Hst].
        -- rewrite bool_decide_true by done. rewrite observe_range_bget by done. apply observe_reads; lia.
        -- rewrite bool_decide_false by done.
           destruct (Hreb s (Hcov s Hl)) as (bs & (Hlen & Hbs) & Hr).
           { intros Hnil. apply (StripeMembers_nil st s) in Hnil. apply (Hnil idx); [by rewrite A1|done]. }
           rewrite <- (Hbs Hst). intros l Hl'.
           rewrite (store_read_byte h _ (SlotPhysOffset G s) (kChunkLen G) bs i ltac:(lia) ltac:(lia) Hr Hi) in Hl'. congruence.
      * rewrite (bool_decide_false (d = idx)) by done. cbn [andb]. apply Hdat; try done.
        revert Ha. unfold data_active, data_at. cbn [update_member set_data data_members]. rewrite nth_alter by done.
        rewrite decide_False by congruence. done.
    + intros s j l Hnd Hns Hr Hj Ha Hne Hl. rewrite Hsp by done. by apply (Hpar s j l).
    + exact Hwr.
  - split.
    + done.
    + split; cbn; rewrite ?length_alter; done.
    + done.
    + exact Hdat.
    + intros s j l Hnd Hns Hr Hj Ha Hne Hl. rewrite Hsp by done.
      change (StripeMembers st s <> []) in Hne. change (store_read h (parity_client st j) (SlotPhysOffset G s) (kChunkLen G) = Some l) in Hl.
      destruct (decide (j = idx)) as [->|Hji].
      * destruct (Hreb s (Hcov s (Hwr s Hns Hne)) Hne) as (bs & (_ & Hbs) & Hr1). congruence.
      * apply (Hpar s j l); try done. revert Ha. unfold parity_active, parity_at. cbn [update_member set_parity parity_members].
        rewrite nth_alter by done. rewrite decide_False by congruence. done.
    + exact Hwr.
Qed.

Lemma in_order_spec (X : gset Z) : NoDup (in_order X) /\ forall s, s ∈ in_order X <-> s ∈ X.
Proof using.
  unfold in_order. split.
  - rewrite merge_sort_Permutation. apply NoDup_elements.
  - intros s. rewrite merge_sort_Permutation. apply elem_of_elements.
Qed.

Lemma find_member_Some pool i l k : find_member pool i l = Some k -> (i <= k < i + length l)%nat.
Proof using.
  revert i. induction l as [|m l IH]; intros i; cbn [find_member]; [done|].
  case_decide; [intros [= <-]; cbn; lia|]. intros H1. apply IH in H1. cbn [length]. lia.
Qed.

(** The seat [RecoverBdev] recovers. *)
Definition recovery_target st (pool : Z * Z) : option (bool * nat) :=
  match find_member pool 0 (data_members st) with
  | Some d => Some (true, d)
  | None => match find_member pool 0 (parity_members st) with Some j => Some (false, j) | None => None end
  end.

Lemma rebuild_loop_completes st h is_data idx slots n ok completed st' h' :
  env_max_rows E = 0 -> rebuild_loop G E st h is_data idx slots n = (ok, completed, st', h') -> completed = true.
Proof using.
  intros E0. revert st h n. induction slots as [|s slots IH]; intros st h n; cbn [rebuild_loop]; [by intros [= _ <- _ _]|].
  rewrite E0. cbn [Z.eqb negb andb]. destruct (is_data && _); [by intros [= _ <- _ _]|].
  destruct (StripeMembers st s); [apply IH|].
  destruct ((if is_data then rebuild_data_chunk G else rebuild_parity_chunk G) st h idx s) as [[bs|] st1]; [|by intros [= _ <- _ _]].
  destruct (store_write h _ _ bs) as [[|] h1]; [apply IH|by intros [= _ <- _ _]].
Qed.

Definition rebuild_slots st (is_data : bool) (idx : nat) : gset Z :=
  if is_data then ma_live (alloc_at st idx) else written_slots st.

Lemma RebuildMember_inv st h D stale is_data idx ok completed st' h' :
  io_inv G st h D stale -> (idx < seats st is_data)%nat -> member_active_at st is_data idx = false ->
  RebuildMember G E st h is_data idx = (ok, completed, st', h') ->
  io_inv G st' h' D stale /\ faulted st st' /\
  (ok = true -> completed = true ->
   io_inv G (update_member st' is_data idx bring_online) h' (recovered_contents st' h' D stale is_data idx) stale /\
   forall s, s ∈ rebuild_slots st is_data idx -> StripeMembers st s <> [] ->
     exists bs, rebuilt_chunk st D stale is_data idx s bs /\
       store_read h' (client_at st (negb is_data) idx) (SlotPhysOffset G s) (kChunkLen G) = Some bs).
Proof using HG MS.
  intros Hinv Hidx Hact Hreb. unfold RebuildMember in Hreb. fold (rebuild_slots st is_data idx) in Hreb.
  destruct (in_order_spec (rebuild_slots st is_data idx)) as [Hnd Hin].
  destruct (rebuild_loop_spec st h D stale is_data idx _ 0 ok completed st' h' Hinv Hidx Hact Hnd Hreb) as [Hf Hh Ho Hd].
  assert (io_inv G st' h' D stale) as Hinv'.
  { eapply faulted_inv; [exact Hf|]. by apply (inactive_frame st h h' D stale is_data idx). }
  split; [done|]. split; [done|]. intros Hok Hc. split.
  2: { intros s Hs. apply (Hd Hok Hc). by apply Hin. }
  destruct (faulted_member st st' is_data idx Hf) as (Hseats & Hclient & _).
  apply (online_inv st' h' D stale is_data idx (fun s => s ∈ in_order (rebuild_slots st is_data idx))); [done|by rewrite Hseats| |].
  - intros s Hs Hne. rewrite Hclient. rewrite (faulted_StripeMembers _ _ _ Hf) in Hne.
    destruct (Hd Hok Hc s Hs Hne) as (bs & (Hlen & Hb) & Hr). exists bs. split; [|done]. split; [done|].
    destruct is_data; [done|]. rewrite Hb. unfold stripe_parity, GetCodec.
    by rewrite (faulted_StripeMembers _ _ _ Hf), (fl_max _ _ Hf).
  - unfold rebuild_slots in *. destruct is_data; intros s Hs; apply Hin.
    + by apply (faulted_slot_live _ _ _ _ Hf) in Hs.
    + by rewrite <- (fl_written _ _ Hf).
Qed.

Lemma finish_recovery_inv st h D stale is_data idx st' h' :
  superblock_fits -> io_inv G (update_member st is_data idx bring_online) h D stale ->
  finish_recovery G E st h is_data idx = (st', h') ->
  io_inv G st' h' D stale /\ faulted (update_member st is_data idx bring_online) st' /\
  forall q s, 0 <= s < kSlotsPerMember G ->
    store_read h' q (SlotPhysOffset G s) (kChunkLen G) = store_read h q (SlotPhysOffset G s) (kChunkLen G).
Proof using HG MS.
  intros Hfit Hinv. unfold finish_recovery. destruct (WriteSuperblock G E _ h (negb is_data) idx) as [[ok st2] h2] eqn:Ew.
  destruct (WriteSuperblock_inv _ _ _ _ _ _ _ _ _ Hfit Hinv Ew) as (Hinv2 & Hf2 & Ho). intros [= <- <-].
  split; [eapply faulted_inv; [apply persist_faulted|done]|]. split; [|done].
  etransitivity; [exact Hf2|apply persist_faulted].
Qed.

(** The member is active again unless writing its superblock was fatal. *)
Lemma finish_recovery_active st h is_data idx st' h' :
  (idx < seats st is_data)%nat -> finish_recovery G E st h is_data idx = (st', h') ->
  member_active_at st' is_data idx = true \/
  exists bs, write_fatal h (client_at st (negb is_data) idx) 0 bs = true.
Proof using.
  intros Hidx. unfold finish_recovery, WriteSuperblock. set (st1 := update_member st is_data idx bring_online).
  set (bs := superblock_buffer _ _ _). assert (client_at st1 (negb is_data) idx = client_at st (negb is_data) idx) as -> by by destruct is_data.
  set (p := client_at st (negb is_data) idx). destruct (store_write h p 0 bs) as [ok h1].
  destruct (write_fatal h p 0 bs) eqn:Ef; [by right; exists bs|]. intros [= <- <-]. left.
  destruct is_data; cbn [negb member_active_at seats] in *; unfold MaybeFaultData, MaybeFaultParity; cbn [andb].
  - unfold data_active, data_at, st1. cbn [persist set_manifest update_member set_data data_members].
    rewrite nth_alter, decide_True by done. by apply bool_decide_eq_true.
  - unfold parity_active, parity_at, st1. cbn [persist set_manifest update_member set_parity parity_members].
    rewrite nth_alter, decide_True by done. by apply bool_decide_eq_true.
Qed.

Lemma recovery_target_range st pool is_data idx :
  recovery_target st pool = Some (is_data, idx) -> (idx < seats st is_data)%nat.
Proof using.
  unfold recovery_target. destruct (find_member pool 0 (data_members st)) as [d|] eqn:E1.
  - intros [= <- <-]. apply find_member_Some in E1. cbn [seats]. lia.
  - destruct (find_member pool 0 (parity_members st)) as [j|] eqn:E2; [|done].
    intros [= <- <-]. apply find_member_Some in E2. cbn [seats]. lia.
Qed.

(** The contents after a recovery: the stale chunks of the rebuilt member are
    what its new device holds. *)
Definition recovery_contents st st' h' D stale (pool : Z * Z) : chunk_contents :=
  match recovery_target st pool with
  | Some (is_data, idx) => recovered_contents st' h' D stale is_data idx
  | None => D
  end.

Lemma recovery_contents_eq st st' h' D stale pool d s : s ∉ stale -> recovery_contents st st' h' D stale pool d s = D d s.
Proof using.
  intros Hs. unfold recovery_contents. destruct (recovery_target st pool) as [[is_data idx]|]; [|done]. by apply recovered_contents_eq.
Qed.

Lemma recovered_contents_cases st h D stale is_data idx d s :
  recovered_contents st h D stale is_data idx d s = D d s \/
  (s ∈ stale /\ recovered_contents st h D stale is_data idx d s = observe_range h (data_client st d) (SlotPhysOffset G s) (kChunkLen G)).
Proof using.
  unfold recovered_contents. destruct is_data; [|by left]. cbn [andb negb client_at].
  case_bool_decide as Hd; [|by left]. case_bool_decide as Hs; [|by left]. subst. by right.
Qed.

(** What a successful recovery achieved. *)
Record recovered st st' h' D stale (pool new_pool : Z * Z) (is_data : bool) (idx : nat) : Prop := {
  rv_target : recovery_target st pool = Some (is_data, idx);
  rv_client : client_at st' (negb is_data) idx = env_device E new_pool;
  rv_active : member_active_at st' is_data idx = true \/
    exists h2 bs, write_fatal h2 (env_device E new_pool) 0 bs = true;
  rv_chunks : forall s, s ∉ stale -> StripeMembers st s <> [] -> (is_data = true -> slot_live st idx s) ->
    store_read h' (env_device E new_pool) (SlotPhysOffset G s) (kChunkLen G) =
    Some (if is_data then D idx s else stripe_parity G st D s idx)
}.

(** The whole handler, whatever its outcome. *)
Lemma RecoverBdev_inv st h D stale old_pool new_pool name node rc st' h' :
  superblock_fits -> io_inv G st h D stale -> fresh_device st (env_device E new_pool) ->
  rt_RecoverBdev G E st h old_pool new_pool name node = (rc, st', h') ->
  io_inv G st' h' (recovery_contents st st' h' D stale old_pool) stale /\
  dirty_slots st' = dirty_slots st /\ written_slots st' = written_slots st /\ (rc = 0 \/ rc = 1) /\
  (rc = 0 -> env_max_rows E = 0 -> exists is_data idx, recovered st st' h' D stale old_pool new_pool is_data idx).
Proof using HG MS.
  intros Hfit Hinv Hfresh. unfold rt_RecoverBdev, recovery_contents. fold (recovery_target st old_pool).
  destruct (recovery_target st old_pool) as [[is_data idx]|] eqn:Et.
  2: { intros [= <- <- <-]. split_and!; try done. by right. }
  pose proof (recovery_target_range st old_pool is_data idx Et) as Hidx.
  destruct (seated_inv st h D stale is_data idx new_pool name node Hinv Hidx Hfresh)
    as (Hinv1 & Hseats & Hact & Hclient & Ha1 & Hd1 & Hw1).
  unfold seated_state in *. set (st1 := persist E _) in *.
  assert (forall s, StripeMembers st1 s = StripeMembers st s) as HSM1 by (intros s; unfold StripeMembers, alloc_at; by rewrite Ha1).
  assert (forall s D, stripe_parity G st1 D s idx = stripe_parity G st D s idx) as Hsp1.
  { intros s D1. unfold stripe_parity, GetCodec. rewrite HSM1. unfold st1. by destruct is_data. }
  destruct (RebuildMember G E st1 h is_data idx) as [[[ok completed] st2] h2] eqn:Er.
  destruct (RebuildMember_inv st1 h D stale is_data idx ok completed st2 h2 Hinv1 ltac:(lia) Hact Er) as (Hinv2 & Hf2 & Hon).
  destruct ok; cbn [negb].
  2: { intros [= <- <- <-]. rewrite (fl_dirty _ _ Hf2), (fl_written _ _ Hf2). split; [|split_and!; try done; by right].
       eapply observed_inv; [exact Hinv2|]. apply recovered_contents_cases. }
  destruct completed; cbn [negb].
  2: { intros [= <- <- <-]. rewrite (fl_dirty _ _ Hf2), (fl_written _ _ Hf2). split; [|split_and!; try done; [by left|]].
       - eapply observed_inv; [exact Hinv2|]. apply recovered_contents_cases.
       - intros _ E0. unfold RebuildMember in Er. by apply rebuild_loop_completes in Er. }
  destruct (Hon eq_refl eq_refl) as [Hinv3 Hchunks].
  destruct (finish_recovery G E st2 h2 is_data idx) as [st3 h3] eqn:Ef. intros [= <- <- <-].
  destruct (finish_recovery_inv _ _ _ _ _ _ _ _ Hfit Hinv3 Ef) as (Hinv4 & Hf4 & Ho).
  assert (dirty_slots st3 = dirty_slots st /\ written_slots st3 = written_slots st) as [-> ->].
  { rewrite (fl_dirty _ _ Hf4), (fl_written _ _ Hf4). unfold update_member.
    destruct is_data; cbn [set_data set_parity dirty_slots written_slots];
      by rewrite (fl_dirty _ _ Hf2), (fl_written _ _ Hf2). }
  assert (client_at st3 (negb is_data) idx = env_device E new_pool) as Hc3.
  { destruct (faulted_member _ _ is_data idx Hf4) as (_ & -> & _). destruct (faulted_member _ _ is_data idx Hf2) as (_ & Hc2 & _).
    rewrite Hclient in Hc2. rewrite <- Hc2. by destruct is_data. }
  split; [|split_and!; try done; [by left|]].
  - eapply observed_inv; [exact Hinv4|]. intros d s. unfold recovered_contents.
    destruct is_data; [|by left]. cbn [andb negb client_at] in *.
    case_bool_decide as Hd; [|by left]. case_bool_decide as Hs; [|by left]. subst d. by right.
  - intros _ _. exists is_data, idx. split; [done|done| |].
    { destruct (faulted_member _ _ is_data idx Hf2) as (Hs2 & Hc2 & _).
      destruct (finish_recovery_active st2 h2 is_data idx st3 h3 ltac:(lia) Ef) as [|(bs & Hbs)]; [by left|right].
      exists h2, bs. by rewrite Hc2, Hclient in Hbs. }
    intros s Hs Hne Hl.
    rewrite Ho by (by eapply (stripe_in_range st h D stale)).
    destruct (Hchunks s) as (bs & (_ & Hbs) & Hr); [|by rewrite HSM1|].
    { unfold rebuild_slots. destruct is_data.
      - specialize (Hl eq_refl). unfold slot_live in Hl. unfold alloc_at in *. by rewrite Ha1.
      - rewrite Hw1. by apply (io_written _ _ _ _ _ Hinv). }
    rewrite Hclient in Hr. rewrite Hr. destruct is_data; [by rewrite (Hbs Hs)|]. by rewrite Hbs, Hsp1.
Qed.

Lemma RemoveBdev_faulted st pool b rc st' :
  rt_RemoveBdev E st pool b = (rc, st') -> faulted st st'.
Proof using.
  assert (forall i l k, find_member pool i l = Some k -> (i <= k < i + length l)%nat) as Hfind.
  { intros i l. revert i. induction l as [|m l IH]; intros i k; cbn [find_member]; [done|].
    case_decide; [intros [= <-]; cbn; lia|]. intros H1. apply IH in H1. cbn [length]. lia. }
  unfold rt_RemoveBdev. destruct (find_member pool 0 (data_members st)) as [d|] eqn:Ed.
  - apply Hfind in Ed. intros [= _ <-]. split; cbn; try done; [by rewrite length_alter|]. intros d'.
    unfold data_active, data_at. cbn [persist set_manifest set_data_state set_data data_members].
    rewrite nth_alter by lia. case_decide; [|done]. rewrite bool_decide_eq_true. by destruct b.
  - destruct (find_member pool 0 (parity_members st)) as [j|] eqn:Ej; [|by intros [= _ <-]].
    apply Hfind in Ej. intros [= _ <-]. split; cbn; try done; [by rewrite length_alter|]. intros j'.
    unfold parity_active, parity_at. cbn [persist set_manifest set_parity_state set_parity parity_members].
    rewrite nth_alter by lia. case_decide; [|done]. rewrite bool_decide_eq_true. by destruct b.
Qed.

(** ** Adding members *)

Lemma add_parity_inv st h D stale pool name node rc st' h' :
  io_inv G st h D stale -> dirty_slots st ⊆ written_slots st -> fresh_device st (env_device E pool) ->
  add_parity G E st h pool name node = (rc, st', h') ->
  io_inv G st' h' D stale /\ dirty_slots st' ⊆ written_slots st'.
Proof using HG MS.
  intros Hinv Hdw Hfresh. unfold add_parity. case_decide as Hlv; [by intros [= _ <- <-]|].
  set (p := env_device E pool) in *. set (m := mkMemberSlot _ _ _ _ _ _ _).
  set (st1 := set_slots _ _ _). destruct (WriteSuperblock G E st1 h true _) as [[ok st2] h2] eqn:Ew.
  intros [= _ <- <-]. destruct Hinv as [[A1 A2 A3 A4] Hdv HL Hdat Hpar Hwr].
  destruct (WriteSuperblock_spec _ _ _ _ _ _ _ Ew) as [Hf Hframe].
  assert (client_at st1 true (length (parity_members st)) = p) as Hp.
  { unfold client_at, parity_client, st1. cbn [set_slots set_level push_parity set_parity_clients parity_clients].
    rewrite <- (dv_parity _ Hdv), app_nth2, Nat.sub_diag by lia. done. }
  rewrite Hp in Hframe.
  enough (io_inv G st1 h2 D stale /\ dirty_slots st1 ⊆ written_slots st1) as [Hinv1 Hdw1].
  { split; [eapply faulted_inv; [|exact Hinv1]; etransitivity; [exact Hf|apply persist_faulted]|].
    change (dirty_slots st2 ⊆ written_slots st2). by rewrite (fl_dirty _ _ Hf), (fl_written _ _ Hf). }
  split; [|cbn; set_solver]. split.
  - by split.
  - destruct Hdv as [V1 V2 V3 V4 V5 V6]. unfold st1. split;
      cbn [set_slots set_level push_parity set_parity set_parity_clients parity_clients parity_members data_clients data_members
           max_failures parity_level]; rewrite ?length_app; cbn [length]; try lia; try done.
    rewrite app_assoc. apply NoDup_app. split; [done|]. split; [|apply NoDup_singleton].
    intros x Hx ->%list_elem_of_singleton. by apply Hfresh.
  - done.
  - intros d s i Hd Hl Ha Hi. unfold reads_byte. rewrite (store_read_frame p h h2).
    + exact (Hdat d s i Hd Hl Ha Hi).
    + done.
    + intros Ep. unfold fresh_device in Hfresh. apply Hfresh, elem_of_app. left. rewrite <- Ep.
      change (data_client st1 d) with (data_client st d). unfold data_client. rewrite nth_lookup.
      change (members_count st1) with (length (data_members st)) in Hd. rewrite <- (dv_data _ Hdv) in Hd.
      destruct (lookup_lt_is_Some_2 _ _ Hd) as [q Eq]. rewrite Eq. by eapply list_elem_of_lookup_2.
  - intros s j l Hnd Hns _ _ _ Hne _. exfalso. apply Hnd. cbn. apply elem_of_union. left. by apply Hwr.
  - exact Hwr.
Qed.

(** There is room for one more data member on device [p]. *)
Definition data_room st (p : nat) : Prop :=
  (Datatypes.S (length (data_members st)) + max_failures st <= 256)%nat /\
  forall r t, env_stats E p = Some (r, t) -> capacity_slots G r <= kSlotsPerMember G.

Lemma push_data_inv st h D stale m p cap :
  io_inv G st h D stale -> fresh_device st p ->
  (Datatypes.S (length (data_members st)) + max_failures st <= 256)%nat -> cap <= kSlotsPerMember G ->
  io_inv G (push_data st m p (mkMemberAlloc 0 cap [] ∅)) h D stale.
Proof using HG.
  intros [[A1 A2 A3 A4] [V1 V2 V3 V4 V5 V6] HL Hdat Hpar Hwr] Hfresh Hroom Hcap.
  set (a := mkMemberAlloc 0 cap [] ∅). set (st1 := push_data st m p a).
  assert (alloc_ok G a) as Ha.
  { split; cbn [ma_high_water ma_cap_slots ma_free ma_live a].
    - done.
    - destruct (geo_slots G (ig_ok G HG)). lia.
    - apply NoDup_nil_2.
    - intros s Hs. by apply not_elem_of_nil in Hs.
    - intros s. rewrite elem_of_empty, elem_of_nil. lia. }
  assert (forall d, alloc_at st1 d = if decide (d = length (data_alloc st)) then a else alloc_at st d) as Hal.
  { intros d. unfold alloc_at, st1. cbn [push_data set_alloc data_alloc]. case_decide as Hd.
    - subst d. by rewrite app_nth2, Nat.sub_diag by lia.
    - destruct (decide (d < length (data_alloc st))%nat); [by rewrite app_nth1 by lia|].
      rewrite !nth_overflow; [done|lia|rewrite length_app; cbn; lia]. }
  assert (forall d s, slot_live st1 d s <-> slot_live st d s) as Hlive.
  { intros d s. unfold slot_live. rewrite Hal. case_decide as Hd; [|done]. subst d.
    unfold alloc_at. rewrite nth_overflow by lia. done. }
  assert (forall s, StripeMembers st1 s = StripeMembers st s) as HSM.
  { intros s. unfold StripeMembers. replace (length (data_alloc st1)) with (length (data_alloc st) + 1)%nat
      by (unfold st1; cbn [push_data set_alloc data_alloc]; by rewrite length_app).
    rewrite seq_app, List.filter_app. cbn [seq List.filter]. unfold slot_live_in at 2. rewrite bool_decide_false.
    2: { rewrite Hal, decide_True by done. apply not_elem_of_empty. }
    rewrite app_nil_r. apply filter_ext_in. intros d Hd%in_seq. apply bool_decide_ext. apply Hlive. }
  assert (forall d, (d < length (data_members st))%nat -> data_client st1 d = data_client st d /\ data_active st1 d = data_active st d) as Hold.
  { intros d Hd. unfold data_client, data_active, data_at, st1. cbn [push_data set_alloc set_data_clients set_data data_clients data_members].
    rewrite !app_nth1 by lia. done. }
  split; try done.
  - unfold st1. split; cbn [push_data set_alloc data_alloc set_data_clients set_data data_members]; rewrite ?length_app; cbn [length].
    + lia.
    + apply Forall_app_2; [done|by apply Forall_singleton].
    + pose proof (ig_band G HG). assert (Z.of_nat (length (data_members st) + 1) <= 257) as Hn by lia. nia.
    + lia.
  - unfold st1. split; cbn [push_data set_alloc set_data_clients set_data data_members data_clients parity_clients parity_members parity_level max_failures];
      rewrite ?length_app; cbn [length]; try lia; try done.
    rewrite <- app_assoc. apply NoDup_app in V4 as (N1 & N2 & N3). unfold fresh_device in Hfresh. rewrite elem_of_app in Hfresh.
    apply NoDup_app. split; [done|]. split.
    + intros x Hx. rewrite elem_of_app, list_elem_of_singleton. intros [->|Hx']; [tauto|by apply (N2 x)].
    + apply NoDup_app. split; [apply NoDup_singleton|]. split; [|done]. intros x ->%list_elem_of_singleton. tauto.
  - intros d s i Hd Hl Had Hi. apply Hlive in Hl.
    assert (d < length (data_members st))%nat as Hd'.
    { destruct (decide (d < length (data_members st))%nat); [done|]. exfalso. revert Hl. unfold slot_live, alloc_at.
      rewrite nth_overflow by lia. apply not_elem_of_empty. }
    destruct (Hold d Hd') as [Hc Hac]. fold st1 in Had |- *. rewrite Hc. rewrite Hac in Had. by apply Hdat.
  - intros s j l Hnd Hns Hr Hj Hac Hne Hl. fold st1 in Hne |- *. rewrite HSM in Hne.
    rewrite (Hpar s j l) by done. unfold stripe_parity, GetCodec. by rewrite HSM.
  - intros s Hns. fold st1. rewrite HSM. by apply Hwr.
Qed.

Lemma add_data_inv st h D stale pool name node rc st' h' :
  superblock_fits -> io_inv G st h D stale -> fresh_device st (env_device E pool) -> data_room st (env_device E pool) ->
  add_data G E st h pool name node = (rc, st', h') ->
  io_inv G st' h' D stale /\ dirty_slots st' = dirty_slots st /\ written_slots st' = written_slots st.
Proof using HG MS.
  intros Hfit Hinv Hfresh [Hroom Hcap]. unfold add_data.
  destruct (env_stats E (env_device E pool)) as [[remaining ttl]|] eqn:Es; [|by intros [= _ <- <-]].
  set (m := mkMemberSlot _ _ _ _ _ _ _). set (st1 := push_data _ _ _ _).
  destruct (ReadSuperblock G st1 h false _) as [[sb present]|]; [|by intros [= _ <- <-]].
  destruct (present && negb (ours st1 sb)); [by intros [= _ <- <-]|].
  pose proof (push_data_inv st h D stale m _ _ Hinv Hfresh Hroom (Hcap _ _ eq_refl)) as Hinv1. fold st1 in Hinv1.
  destruct present.
  - intros [= _ <- <-]. split; [|done]. eapply faulted_inv; [apply persist_faulted|done].
  - destruct (WriteSuperblock G E st1 h false _) as [[ok st2] h2] eqn:Ew. intros [= _ <- <-].
    destruct (WriteSuperblock_inv _ _ _ _ _ _ _ _ _ Hfit Hinv1 Ew) as (Hinv2 & Hf2 & _).
    split; [eapply faulted_inv; [apply persist_faulted|done]|].
    change (dirty_slots st2 = dirty_slots st /\ written_slots st2 = written_slots st).
    by rewrite (fl_dirty _ _ Hf2), (fl_written _ _ Hf2).
Qed.

(** The degrading member a migration replaces, put aside. *)
Definition degrade st (is_data : bool) (idx : nat) : Runtime :=
  if is_data then set_data_state st idx kFaulty else set_parity_state st idx kFaulty.

Lemma list_alter_ge {A} (f : A -> A) (l : list A) i : (length l <= i)%nat -> alter f i l = l.
Proof using.
  intros Hi. apply list_eq. intros j. rewrite list_lookup_alter. case_decide; [|done]. subst j.
  by rewrite lookup_ge_None_2.
Qed.

Lemma degrade_faulted st is_data idx : faulted st (degrade st is_data idx).
Proof using.
  destruct is_data; split; cbn; rewrite ?length_alter; try done.
  - intros d. unfold data_active, data_at. cbn [set_data_state set_data data_members].
    destruct (decide (idx < length (data_members st))%nat) as [Hi|Hi].
    + rewrite nth_alter by done. case_decide; [|done]. by rewrite bool_decide_eq_true.
    + by rewrite list_alter_ge by lia.
  - intros j. unfold parity_active, parity_at. cbn [set_parity_state set_parity parity_members].
    destruct (decide (idx < length (parity_members st))%nat) as [Hi|Hi].
    + rewrite nth_alter by done. case_decide; [|done]. by rewrite bool_decide_eq_true.
    + by rewrite list_alter_ge by lia.
Qed.

Definition failed_pool st (is_data : bool) (idx : nat) : Z * Z := slot_pool_id (member_at st (negb is_data) idx).

(** The contents after adding: a migration rebuilds the degrading member. *)
Definition add_contents st st' h' D stale (as_parity : bool) : chunk_contents :=
  match (if as_parity then None else failing_member E st) with
  | Some (is_data, idx) => recovery_contents (degrade st is_data idx) st' h' D stale (failed_pool st is_data idx)
  | None => D
  end.

Lemma add_contents_eq st st' h' D stale as_parity d s : s ∉ stale -> add_contents st st' h' D stale as_parity d s = D d s.
Proof using.
  intros Hs. unfold add_contents. destruct (if as_parity then None else _) as [[is_data idx]|]; [|done].
  by apply recovery_contents_eq.
Qed.

Lemma AddBdev_inv st h D stale pool name node as_parity rc st' h' :
  superblock_fits -> io_inv G st h D stale -> dirty_slots st ⊆ written_slots st ->
  fresh_device st (env_device E pool) -> (as_parity = false -> data_room st (env_device E pool)) ->
  rt_AddBdev G E st h pool name node as_parity = (rc, st', h') ->
  io_inv G st' h' (add_contents st st' h' D stale as_parity) stale /\ dirty_slots st' ⊆ written_slots st'.
Proof using HG MS.
  intros Hfit Hinv Hdw Hfresh Hroom. unfold rt_AddBdev, add_contents. destruct as_parity.
  { by apply add_parity_inv. }
  destruct (failing_member E st) as [[is_data idx]|] eqn:Ef.
  2: { intros Ha. destruct (add_data_inv _ _ _ _ _ _ _ _ _ _ Hfit Hinv Hfresh (Hroom eq_refl) Ha) as (H1 & -> & ->). done. }
  fold (degrade st is_data idx). fold (failed_pool st is_data idx).
  destruct (rt_RecoverBdev _ _ _ _ _ _ _ _) as [[rc1 st1] h1] eqn:Er. intros [= _ <- <-].
  pose proof (degrade_faulted st is_data idx) as Hf.
  destruct (RecoverBdev_inv (degrade st is_data idx) h D stale _ _ _ _ _ _ _ Hfit (faulted_inv _ _ _ _ _ _ Hf Hinv)
    ltac:(unfold fresh_device; by rewrite (fl_data_clients _ _ Hf), (fl_parity_clients _ _ Hf)) Er) as (H1 & -> & -> & _).
  split; [done|]. by rewrite (fl_dirty _ _ Hf), (fl_written _ _ Hf).
Qed.
End Recovery.
