(* ===== verification/SafeBdevSafety.v ===== *)
(** Correctness of the safe_bdev data path.

    The container runs as a transition system whose ghost components are the
    contents of every chunk and the slots whose parity the dirty set does not
    account for: slots that an allocation widened and that were not written
    since, and slots of failed writes. *)
From Stdlib Require Import ZArith Lia.
From stdpp Require Import base list gmap sorting.
From S2P Require Import Prelude Gf256 ReedSolomon EcArray BlockAllocator AllocLog MemberManifest SafeBdev SafeBdevIO.
From S2P Require Import Superblock SafeBdevAdmin SafeBdevRecovery.

Open Scope Z_scope.
Section Machine.
Context (G : Geometry) (HG : io_geometry G) {S : Type} {MB : MemberBdev S} {MS : MemberBdevSpec S} (E : Env).
Implicit Types (st : Runtime) (h : gmap nat S) (D : chunk_contents) (stale : gset Z).

Definition io_state : Type := Runtime * gmap nat S * chunk_contents * gset Z.

(** A block just allocated holds whatever its device holds. *)
Definition fresh_contents st st' h D : chunk_contents := fun d s =>
  if decide (slot_live st' d s /\ ~ slot_live st d s)
  then observe_range h (data_client st d) (SlotPhysOffset G s) (kChunkLen G) else D d s.

Definition fresh_slots st st' : gset Z :=
  ⋃ map (fun d => ma_live (alloc_at st' d) ∖ ma_live (alloc_at st d)) (seq 0 (members_count st)).

Inductive io_step : io_state -> io_state -> Prop :=
| io_allocate st h D stale size rc blocks st' :
    0 <= size < 2 ^ 64 -> rt_AllocateBlocks G st size = Some (rc, blocks, st') ->
    io_step (st, h, D, stale) (st', h, fresh_contents st st' h D, stale ∪ fresh_slots st st')
| io_free st h D stale blocks :
    io_step (st, h, D, stale) (snd (rt_FreeBlocks G st blocks), h, D, stale)
| io_write st h D stale blocks data rc bytes st' h' :
    Forall (valid_block G st) blocks -> blocks <> [] -> (Z.to_nat (zsum b_size blocks) <= length data)%nat ->
    rt_Write G st h blocks data = (rc, bytes, st', h') ->
    io_step (st, h, D, stale)
      (st', h', write_effect G st h D data blocks 0,
       if rc =? 0 then stale ∖ written_slots_of G blocks else stale ∪ written_slots_of G blocks)
| io_read st h D stale blocks rc bytes out st' :
    Forall (valid_block G st) blocks -> rt_Read G st h blocks = Some (rc, bytes, out, st') ->
    io_step (st, h, D, stale) (st', h, D, stale)
| io_build st h D stale max_batch rc st' h' :
    rt_BuildParity G st h max_batch = (rc, st', h') ->
    io_step (st, h, D, stale) (st', h', D, stale ∖ (dirty_slots st ∖ dirty_slots st'))
| io_remove st h D stale pool was_faulty rc st' :
    rt_RemoveBdev E st pool was_faulty = (rc, st') ->
    io_step (st, h, D, stale) (st', h, D, stale)
| io_add st h D stale pool name node as_parity rc st' h' :
    fresh_device st (env_device E pool) -> (as_parity = false -> data_room G E st (env_device E pool)) ->
    rt_AddBdev G E st h pool name node as_parity = (rc, st', h') ->
    io_step (st, h, D, stale) (st', h', add_contents G E st st' h' D stale as_parity, stale)
| io_recover st h D stale old_pool new_pool name node rc st' h' :
    fresh_device st (env_device E new_pool) ->
    rt_RecoverBdev G E st h old_pool new_pool name node = (rc, st', h') ->
    io_step (st, h, D, stale) (st', h', recovery_contents G st st' h' D stale old_pool, stale).

Definition io_good (x : io_state) : Prop :=
  let '(st, h, D, stale) := x in io_inv G st h D stale /\ dirty_slots st ⊆ written_slots st.

Lemma elem_of_fresh_slots st st' s :
  s ∈ fresh_slots st st' <-> exists d, (d < members_count st)%nat /\ slot_live st' d s /\ ~ slot_live st d s.
Proof using.
  unfold fresh_slots. rewrite elem_of_union_list. setoid_rewrite list_elem_of_In. setoid_rewrite in_map_iff.
  setoid_rewrite in_seq. unfold slot_live. split.
  - intros (X & (d & <- & Hd) & Hs). exists d. rewrite elem_of_difference in Hs. split; [lia|tauto].
  - intros (d & Hd & H). eexists. split; [exists d; split; [done|lia]|]. by apply elem_of_difference.
Qed.

Lemma same_members_devices st st' : same_members st st' -> devices_ok st -> devices_ok st'.
Proof using. intros [S1 S2 S3 S4 S5 S6] [V1 V2 V3 V4 V5 V6]. split; by rewrite ?S1, ?S2, ?S3, ?S4, ?S5, ?S6. Qed.

Lemma alloc_inv st h D stale size rc blocks st' :
  io_inv G st h D stale -> 0 <= size -> rt_AllocateBlocks G st size = Some (rc, blocks, st') ->
  io_inv G st' h (fresh_contents st st' h D) (stale ∪ fresh_slots st st') /\
  dirty_slots st' = dirty_slots st /\ written_slots st' = written_slots st.
Proof using HG MS.
  intros Hinv Hsize HA. pose proof (AllocateBlocks_same G _ _ _ _ HA) as Hsame.
  destruct (AllocateBlocks_run G (ig_ok G HG) st size rc blocks st' (io_array _ _ _ _ _ Hinv) Hsize HA) as (slots & Hrun & _).
  destruct (run_marks _ _ _ _ _ Hrun) as [Md Mw]. split; [|done].
  destruct Hinv as [Harr Hdv HL Hdat Hpar Hwr]. pose proof Hsame as [S1 S2 S3 S4 S5 S6].
  assert (members_count st' = members_count st) as Hn by (unfold members_count; by rewrite S1).
  assert (forall s, s ∉ fresh_slots st st' -> forall d, (d < members_count st)%nat -> slot_live st' d s <-> slot_live st d s) as Hsl.
  { intros s Hs d Hd. rewrite (run_live _ _ _ _ _ Hrun). split; [|by left]. intros [|Hin]; [done|exfalso]. apply Hs.
    apply elem_of_fresh_slots. exists d. destruct (run_slots _ _ _ _ _ Hrun d s Hin) as (_ & _ & _ & Hnl).
    split; [done|]. split; [|done]. apply (run_live _ _ _ _ _ Hrun). by right. }
  assert (forall s, s ∉ fresh_slots st st' -> StripeMembers st' s = StripeMembers st s) as HSM.
  { intros s Hs. unfold StripeMembers. rewrite (ar_len G _ Harr), (ar_len G _ (run_ok _ _ _ _ _ Hrun)), S1.
    apply filter_ext_in. intros d Hd. apply in_seq in Hd. apply bool_decide_ext.
    apply Hsl; [done|unfold members_count; lia]. }
  assert (forall s d, s ∉ fresh_slots st st' -> (d < members_count st)%nat -> fresh_contents st st' h D d s = D d s) as HD.
  { intros s d Hs Hd. unfold fresh_contents. rewrite decide_False; [done|]. intros [H1 H2]. apply H2. by apply Hsl. }
  split.
  - exact (run_ok _ _ _ _ _ Hrun).
  - by eapply same_members_devices.
  - intros d s. unfold fresh_contents. case_decide; [|done]. unfold observe_range. by rewrite length_map, length_seq.
  - intros d s i. rewrite Hn. unfold data_client, data_active, data_at. rewrite S1, S3. intros Hd Hl Ha Hi.
    unfold fresh_contents. destruct (decide (slot_live st' d s /\ ~ slot_live st d s)) as [Hf|Hf].
    + rewrite observe_range_bget by done. intros l Hr. unfold observe, data_client. rewrite Hr.
      pose proof (slot_live_range G st' d s (run_ok _ _ _ _ _ Hrun) ltac:(by rewrite Hn) Hl) as Hs.
      destruct (SlotPhysOffset_exact G HG s Hs) as (_ & P0 & P1).
      apply store_read_length in Hr; [|lia|lia]. destruct l as [|b [|]]; done.
    + apply Hdat; try done. destruct (decide (slot_live st d s)) as [|Hnl]; [done|]. by exfalso; apply Hf.
  - intros s j l. rewrite Md, S6. unfold parity_active, parity_at, parity_client. rewrite S2, S4.
    intros Hnd Hns Hr Hj Ha Hne Hl. apply not_elem_of_union in Hns as [Hns Hnf]. rewrite HSM in Hne by done.
    rewrite (Hpar s j l) by done. unfold stripe_parity, GetCodec. rewrite HSM, S5 by done. f_equal. apply map_ext_in.
    intros d Hd. symmetry. apply HD; [done|]. apply list_elem_of_In, elem_of_StripeMembers in Hd as [Hd _].
    unfold members_count. by rewrite <- (ar_len G _ Harr).
  - intros s Hns Hne. apply not_elem_of_union in Hns as [Hns Hnf]. rewrite Mw. rewrite HSM in Hne by done. by apply Hwr.
Qed.

Lemma free_inv st h D stale blocks :
  io_inv G st h D stale -> dirty_slots st ⊆ written_slots st ->
  io_inv G (snd (rt_FreeBlocks G st blocks)) h D stale /\
  dirty_slots (snd (rt_FreeBlocks G st blocks)) ⊆ written_slots (snd (rt_FreeBlocks G st blocks)).
Proof using HG.
  revert st. unfold rt_FreeBlocks. cbn [snd]. induction blocks as [|b blocks IH]; intros st Hinv Hdw; [done|]. cbn [fold_left].
  enough (io_inv G (free_block G st b) h D stale /\ dirty_slots (free_block G st b) ⊆ written_slots (free_block G st b)) as [H1 H2]
    by by apply IH.
  clear IH. pose proof (free_block_same G st b) as Hsame.
  destruct (Unband G (b_offset b)) as [[d s] w] eqn:EU. rewrite (free_block_eq G st b d s w EU) in *.
  case_decide as Hd; [|done]. destruct Hd as [Hd Hl]. destruct Hinv as [Harr Hdv HL Hdat Hpar Hwr].
  assert (d < members_count st)%nat as Hd' by (unfold members_count; by rewrite <- (ar_len G _ Harr)).
  destruct (freed_state_spec G st d s b (ig_ok G HG) Harr Hd' Hl) as (Harr' & _ & Hlive & _).
  pose proof Hsame as [S1 S2 S3 S4 S5 S6]. set (st' := freed_state st d s b) in *.
  assert (forall s', s' <> s -> StripeMembers st' s' = StripeMembers st s') as HSM.
  { intros s' Hs'. unfold StripeMembers. rewrite (ar_len G _ Harr), (ar_len G _ Harr'), S1.
    apply filter_ext. intros d'. apply bool_decide_ext. change (slot_live st' d' s' <-> slot_live st d' s').
    rewrite Hlive. split; [tauto|]. intros H. split; [done|congruence]. }
  split.
  - split.
    + done.
    + by eapply same_members_devices.
    + done.
    + unfold members_count, data_client, data_active, data_at. rewrite S1, S3. intros d' s' i Hd1 Hl1. apply Hlive in Hl1 as [Hl1 _].
      by apply Hdat.
    + intros s' j l Hnd Hns Hr. rewrite S6. unfold parity_active, parity_at, parity_client. rewrite S2, S4. intros Hj Ha Hne Hr1.
      destruct (freed_state_marks st d s b s') as [Hm _]. fold st' in Hm. rewrite Hm in Hnd. destruct (decide (s' = s)) as [->|Hs'].
      * exfalso. apply Hnd. intros He. apply Hne. by apply StripeMembers_nil.
      * rewrite HSM in Hne by done. rewrite (Hpar s' j l) by done. unfold stripe_parity, GetCodec. by rewrite HSM, S5.
    + intros s' Hns Hne. destruct (freed_state_marks st d s b s') as [_ Hm]. fold st' in Hm. apply Hm. case_decide as Hs'.
      * subst. intros He. apply Hne. by apply StripeMembers_nil.
      * apply Hwr; [done|]. by rewrite <- HSM.
  - intros s'. destruct (freed_state_marks st d s b s') as [H1 H2]. fold st' in H1, H2. rewrite H1, H2.
    case_decide; [done|]. apply Hdw.
Qed.
Lemma build_inv st h D stale max_batch rc st' h' :
  io_inv G st h D stale -> dirty_slots st ⊆ written_slots st -> rt_BuildParity G st h max_batch = (rc, st', h') ->
  io_inv G st' h' D (stale ∖ (dirty_slots st ∖ dirty_slots st')) /\ dirty_slots st' ⊆ dirty_slots st /\
  written_slots st' = written_slots st.
Proof using HG MS.
  intros Hinv Hdw. unfold rt_BuildParity. case_decide as Hlv.
  { intros [= <- <- <-]. cbn [set_slots dirty_slots written_slots]. split; [|split; [set_solver|done]].
    destruct Hinv as [[A1 A2 A3 A4] [] HL Hdat Hpar Hwr]. split; try done.
    - intros s j l _ _ _ Hj. cbn [set_slots parity_level] in Hj. lia.
    - intros s Hs Hne. change (StripeMembers (set_slots st ∅ (written_slots st)) s) with (StripeMembers st s) in Hne.
      cbn [set_slots written_slots]. destruct (decide (s ∈ dirty_slots st)); [by apply Hdw|]. apply Hwr; [set_solver|done]. }
  set (all := in_order (dirty_slots st)). set (batch := if decide (max_batch = 0)%nat then all else take max_batch all).
  assert (Permutation all (elements (dirty_slots st))) as Hperm by apply merge_sort_Permutation.
  assert (NoDup all) as Hnd by (rewrite Hperm; apply NoDup_elements).
  assert (NoDup batch /\ forall s, s ∈ batch -> s ∈ dirty_slots st) as [Hndb Hbatch].
  { assert (forall s, s ∈ all -> s ∈ dirty_slots st) as Hall by (intros s; rewrite Hperm; apply elem_of_elements).
    unfold batch. case_decide; [done|]. rewrite <- (take_drop max_batch all), NoDup_app in Hnd. split; [apply Hnd|].
    intros s Hs. apply Hall. rewrite <- (take_drop max_batch all). apply elem_of_app. by left. }
  clearbody batch. clear Hnd Hperm Hlv all.
  intros Hfold. destruct (fold_left (build_slot G) batch (st, h)) as [st1 h1] eqn:EF. injection Hfold as <- <- <-.
  enough (forall batch st1 h1, NoDup batch -> (forall s, s ∈ batch -> s ∈ dirty_slots st1) ->
    io_inv G st1 h1 D (stale ∖ (dirty_slots st ∖ dirty_slots st1)) -> dirty_slots st1 ⊆ dirty_slots st ->
    written_slots st1 = written_slots st -> forall st2 h2, fold_left (build_slot G) batch (st1, h1) = (st2, h2) ->
    io_inv G st2 h2 D (stale ∖ (dirty_slots st ∖ dirty_slots st2)) /\ dirty_slots st2 ⊆ dirty_slots st /\
    written_slots st2 = written_slots st) as Hloop.
  { eapply Hloop; [exact Hndb|exact Hbatch| |done|done|exact EF].
    by replace (stale ∖ (dirty_slots st ∖ dirty_slots st)) with stale by set_solver. }
  clear -HG MS Hdw. intros batch. induction batch as [|s batch IH]; intros st1 h1 Hnd Hb Hinv Hsub Hwr st2 h2; cbn [fold_left].
  { by intros [= <- <-]. }
  apply NoDup_cons in Hnd as [Hs Hnd]. destruct (build_slot G (st1, h1) s) as [st3 h3] eqn:E1. intros E2.
  assert (s ∈ dirty_slots st1) as Hsd by (apply Hb; by left).
  destruct (build_slot_inv G HG st1 h1 D _ s st3 h3 Hinv Hsd) as (Hinv3 & Hd3 & Hw3); [|exact E1|].
  { rewrite Hwr. by apply Hdw, Hsub. }
  apply (IH st3 h3 Hnd); [| | |by rewrite Hw3|exact E2].
  - intros s' Hs'. assert (s' <> s) by (intros ->; done). destruct Hd3 as [-> | ->]; [apply Hb; by right|].
    apply elem_of_difference. split; [apply Hb; by right|]. by apply not_elem_of_singleton.
  - destruct Hd3 as [Hd3|Hd3]; rewrite Hd3 in *.
    + by rewrite decide_True in Hinv3.
    + rewrite decide_False in Hinv3 by set_solver.
      by replace (stale ∖ (dirty_slots st ∖ (dirty_slots st1 ∖ {[s]})))
        with (stale ∖ (dirty_slots st ∖ dirty_slots st1) ∖ {[s]}) by set_solver.
  - destruct Hd3 as [-> | ->]; set_solver.
Qed.

Lemma io_step_good x x' : superblock_fits G E -> io_step x x' -> io_good x -> io_good x'.
Proof using HG MS.
  intros Hfit. destruct 1 as [st h D stale size rc blocks st' Hsize HA|st h D stale blocks|st h D stale blocks data rc bytes st' h' Hv Hne Hlen HW
    |st h D stale blocks rc bytes out st' Hv HR|st h D stale mb rc st' h' HB|st h D stale pool b rc st' HR
    |st h D stale pool name node as_parity rc st' h' Hfresh Hroom HA
    |st h D stale old_pool new_pool name node rc st' h' Hfresh HR]; intros [Hinv Hdw]; unfold io_good.
  - destruct (alloc_inv st h D stale size rc blocks st' Hinv ltac:(lia) HA) as (H1 & -> & ->). done.
  - by apply free_inv.
  - destruct (rt_Write_inv G HG st h D stale blocks data rc bytes st' h' Hinv Hv Hlen HW Hne) as (_ & H1 & _).
    split; [done|]. unfold rt_Write in HW. case_decide; [by injection HW as <- <- <- <-|].
    destruct (write_blocks _ _ _ _ _ _ _ _ _) as [[[ok h1] touched] bytes1]. destruct ok; injection HW as <- <- <- <-; [|done].
    destruct (MarkSlotDirty_fold (elements touched) st) as (_ & _ & _ & _ & _ & _ & _ & -> & ->). set_solver.
  - assert (faulted st st') as Hf.
    { unfold rt_Read in HR. case_decide; [by injection HR as <- <- <- <-|].
      destruct (read_blocks_spec G HG st h D stale blocks 0 [] Hinv Hv) as (rc1 & b1 & o1 & st1 & E1 & Hf & _).
      rewrite E1 in HR. by injection HR as <- <- <- <-. }
    split; [by eapply faulted_inv|]. by rewrite (fl_dirty _ _ Hf), (fl_written _ _ Hf).
  - destruct (build_inv st h D stale mb rc st' h' Hinv Hdw HB) as (H1 & H2 & H3). split; [done|]. rewrite H3. set_solver.
  - pose proof (RemoveBdev_faulted E _ _ _ _ _ HR) as Hf.
    split; [by eapply faulted_inv|]. by rewrite (fl_dirty _ _ Hf), (fl_written _ _ Hf).
  - by apply (AddBdev_inv G HG E st h D stale pool name node as_parity rc).
  - destruct (RecoverBdev_inv G HG E st h D stale _ _ _ _ _ _ _ Hfit Hinv Hfresh HR) as (H1 & -> & -> & _). done.
Qed.
End Machine.

(** * Availability on memory devices *)

Section MemoryAvailability.
Context (G : Geometry) (HG : io_geometry G).
Implicit Types (st : Runtime) (h : gmap nat MemoryStore) (D : chunk_contents) (stale : gset Z).

(** The device of every member holds slot [s]. *)
Definition holds_slot h (s : Z) (p : nat) : Prop :=
  exists m, h !! p = Some m /\ SlotPhysOffset G s + Z.of_nat (kChunkLen G) <= Z.of_nat (length (buf_ m)).

Lemma memory_read h s p off len :
  0 <= s < kSlotsPerMember G -> holds_slot h s p -> SlotPhysOffset G s <= off ->
  off + Z.of_nat len <= SlotPhysOffset G s + Z.of_nat (kChunkLen G) ->
  exists l, store_read (HMS := mb_store) h p off len = Some l.
Proof using HG.
  intros Hs (m & Hm & Hcap) H0 H1. destruct (SlotPhysOffset_exact G HG s Hs) as (_ & P0 & P1).
  unfold store_read. rewrite Hm. cbn [ms_Read mb_store MemoryBdev MemoryStore_ops].
  rewrite MemoryStore_Read_ok by lia. rewrite decide_True by lia. eauto.
Qed.

Lemma memory_ReadDataSegment st h d off len :
  ReadDataSegment st h d off len = (store_read (HMS := mb_store) h (data_client st d) off len, st).
Proof using.
  unfold ReadDataSegment, MaybeFaultData, read_fatal. destruct (h !! data_client st d); done.
Qed.

Lemma gather_data_memory st h s k exclude pos stripe idx bufs idx' bufs' st' :
  0 <= s < kSlotsPerMember G -> (forall d, d ∈ stripe -> holds_slot h s (data_client st d)) ->
  gather_data G st h (SlotPhysOffset G s) k exclude pos stripe idx bufs = (idx', bufs', st') ->
  st' = st /\ ((k <= length idx')%nat \/
    length idx' = (length idx + length (filter (fun d => d <> exclude /\ data_active st d = true) stripe))%nat).
Proof using HG.
  intros Hs. revert pos idx bufs. induction stripe as [|d stripe IH]; intros pos idx bufs Hcap; cbn [gather_data].
  { intros [= <- <- <-]. split; [done|]. right. rewrite filter_nil. cbn. lia. }
  assert (forall d', d' ∈ stripe -> holds_slot h s (data_client st d')) as Hcap' by (intros; apply Hcap; by right).
  rewrite filter_cons. case_decide as Hex.
  { subst. rewrite decide_False by tauto. apply IH. done. }
  destruct (data_active st d) eqn:Ea; cbn [negb]; [|rewrite decide_False by (intros [_ ?]; congruence); by apply IH].
  rewrite decide_True by done. rewrite memory_ReadDataSegment.
  destruct (memory_read h s (data_client st d) (SlotPhysOffset G s) (kChunkLen G) Hs) as [b ->]; [apply Hcap; by left|lia|lia|].
  case_decide as Hk; [intros [= <- <- <-]; split; [done|left; lia]|]. intros Hg. apply IH in Hg as [-> Hg]; [|done].
  split; [done|]. rewrite length_app in Hg. cbn [length] in *. destruct Hg as [Hg|Hg]; [by left|right; lia].
Qed.

Lemma gather_parity_memory st h s k j n idx bufs idx' bufs' st' :
  0 <= s < kSlotsPerMember G -> (forall i, (j <= i < j + n)%nat -> holds_slot h s (parity_client st i)) ->
  gather_parity G st h (SlotPhysOffset G s) k j n idx bufs = (idx', bufs', st') ->
  st' = st /\ ((k <= length idx')%nat \/
    length idx' = (length idx + length (filter (fun i => parity_active st i = true) (seq j n)))%nat).
Proof using HG.
  intros Hs. revert j idx bufs. induction n as [|n IH]; intros j idx bufs Hcap; cbn [gather_parity seq].
  { intros [= <- <- <-]. split; [done|]. right. rewrite filter_nil. cbn. lia. }
  assert (forall i, (Datatypes.S j <= i < Datatypes.S j + n)%nat -> holds_slot h s (parity_client st i)) as Hcap'
    by (intros; apply Hcap; lia).
  case_decide as Hk; [intros [= <- <- <-]; split; [done|by left]|]. rewrite filter_cons.
  destruct (parity_active st j) eqn:Ea; cbn [negb]; [|rewrite decide_False by congruence; by apply IH].
  rewrite decide_True by done.
  assert (MaybeFaultParity st j (read_fatal h (parity_client st j) (SlotPhysOffset G s) (kChunkLen G)) = st) as ->
    by (unfold MaybeFaultParity, read_fatal; by destruct (h !! parity_client st j)).
  destruct (memory_read h s (parity_client st j) (SlotPhysOffset G s) (kChunkLen G) Hs) as [b ->]; [apply Hcap; lia|lia|lia|].
  intros Hg. apply IH in Hg as [-> Hg]; [|done]. split; [done|]. rewrite length_app in Hg. cbn [length] in *.
  destruct Hg as [Hg|Hg]; [by left|right; lia].
Qed.

(** Members of the stripe that are down, and parity members that are up. *)
Definition stripe_down st (s : Z) : list nat := filter (fun d => data_active st d = false) (StripeMembers st s).
Definition parity_up st : list nat := filter (fun j => parity_active st j = true) (seq 0 (parity_level st)).

Lemma survivors_memory st h s exclude :
  0 <= s < kSlotsPerMember G -> data_active st exclude = false ->
  (forall d, d ∈ StripeMembers st s -> holds_slot h s (data_client st d)) ->
  (forall j, (j < parity_level st)%nat -> holds_slot h s (parity_client st j)) ->
  (length (stripe_down st s) <= length (parity_up st))%nat ->
  (length (StripeMembers st s) <= length (survivors G st h s exclude))%nat.
Proof using HG.
  intros Hs Hex Hd Hp Hdown. unfold survivors. set (stripe := StripeMembers st s) in *.
  destruct (gather_data G st h _ _ exclude 0 stripe [] []) as [[idx bufs] st1] eqn:E1.
  apply gather_data_memory in E1 as [-> H1]; [|done|done].
  destruct (gather_parity G st h _ _ 0 _ idx bufs) as [[idx' bufs'] st2] eqn:E2. pose proof E2 as E2'.
  apply gather_parity_memory in E2 as [-> H2]; [|done|intros i Hi; apply Hp; lia]. cbn [fst].
  destruct H2 as [H2|H2]; [done|]. destruct H1 as [H1|H1]; [lia|].
  assert (filter (fun d => d <> exclude /\ data_active st d = true) stripe = filter (fun d => ~ data_active st d = false) stripe) as E3.
  { clear -Hex. induction stripe as [|d stripe IH]; [done|]. rewrite !filter_cons, IH.
    destruct (decide (d <> exclude /\ data_active st d = true)) as [[H1 H2]|Hn];
      destruct (decide (~ data_active st d = false)) as [H3|H3]; try done.
    - exfalso. apply H3. by rewrite H2.
    - exfalso. apply Hn. split; [intros ->; congruence|]. by destruct (data_active st d). }
  rewrite E3 in H1. pose proof (filter_split_length (fun d => data_active st d = false) stripe) as Hsplit.
  unfold stripe_down, parity_up in Hdown. fold stripe in Hdown. cbn [length] in H1. lia.
Qed.
End MemoryAvailability.

(** * Properties *)

(** A container as [Create] leaves it on fresh data members. *)
Definition fresh_container (G : Geometry) (st : Runtime) : Prop :=
  fresh_array G st /\ devices_ok st /\ parity_level st = 0%nat.

Definition no_contents (G : Geometry) : chunk_contents := fun _ _ => replicate (kChunkLen G) Byte.x00.

Lemma fresh_container_good (G : Geometry) {S : Type} {MB : MemberBdev S} st (h : gmap nat S) :
  fresh_container G st -> io_good G (st, h, no_contents G, ∅).
Proof.
  intros (Hf & Hdv & Hlv). pose proof Hf as (Harr & _ & _ & Hd & Hw). split; [|by rewrite Hd; set_solver].
  split; try done.
  - intros d s. apply length_replicate.
  - intros d s i _ Hl. by apply (fresh_not_live G) in Hl.
  - intros s j l _ _ _ Hj. lia.
  - intros s _ Hne. exfalso. apply Hne, StripeMembers_nil. intros d _. by apply (fresh_not_live G).
Qed.

Lemma io_reachable_good (G : Geometry) {S : Type} {MB : MemberBdev S} {MS : MemberBdevSpec S} (E : Env) x x' :
  io_geometry G -> superblock_fits G E -> rtc (io_step G E) x x' -> io_good G x -> io_good G x'.
Proof. intros HG Hfit. induction 1 as [|x y z Hs _ IH]; [done|]. intros Hx. by apply IH, (io_step_good G HG E x). Qed.

(** An executable form of the steps. *)
Inductive io_op :=
| OpAllocate (size : Z)
| OpFree (blocks : list Block)
| OpWrite (blocks : list Block) (data : list u8)
| OpBuild (max_batch : nat)
| OpRemove (pool : Z * Z) (was_faulty : bool)
| OpAdd (pool : Z * Z) (as_parity : bool)
| OpRecover (old_pool new_pool : Z * Z).

Section Exec.
Context (G : Geometry) {S : Type} {MB : MemberBdev S} (E : Env).

Definition valid_blockb (st : Runtime) (b : Block) : bool :=
  let '(d, s, w) := Unband G (b_offset b) in
  bool_decide (d < members_count st)%nat && bool_decide (slot_live st d s) &&
  (b_offset b =? BandOffset G d s + Z.of_nat w) && (0 <=? b_size b) && (Z.of_nat w + b_size b <=? Z.of_nat (kChunkLen G)).

Lemma valid_blockb_sound st b : valid_blockb st b = true -> valid_block G st b.
Proof using.
  unfold valid_blockb, valid_block. destruct (Unband G (b_offset b)) as [[d s] w]. rewrite !andb_true_iff.
  intros ((((H1 & H2) & H3) & H4) & H5). exists d, s, w. apply bool_decide_eq_true in H1, H2.
  apply Z.eqb_eq in H3. apply Z.leb_le in H4, H5. by repeat split.
Qed.

Definition data_roomb (st : Runtime) (p : nat) : bool :=
  bool_decide (Datatypes.S (length (data_members st)) + max_failures st <= 256)%nat &&
  match env_stats E p with Some (r, _) => capacity_slots G r <=? kSlotsPerMember G | None => true end.

Lemma data_roomb_sound st p : data_roomb st p = true -> data_room G E st p.
Proof using.
  unfold data_roomb, data_room. rewrite andb_true_iff, bool_decide_eq_true. intros [H1 H2]. split; [done|].
  intros r t Er. rewrite Er in H2. by apply Z.leb_le.
Qed.

Definition io_exec (op : io_op) (x : io_state) : option io_state :=
  let '(st, h, D, stale) := x in
  match op with
  | OpAllocate size =>
      match rt_AllocateBlocks G st size with
      | Some (_, _, st') =>
          if (0 <=? size) && (size <? 2 ^ 64)
          then Some (st', h, fresh_contents G st st' h D, stale ∪ fresh_slots st st') else None
      | None => None
      end
  | OpFree blocks => Some (snd (rt_FreeBlocks G st blocks), h, D, stale)
  | OpWrite blocks data =>
      if forallb (valid_blockb st) blocks && bool_decide (blocks <> []) &&
         bool_decide (Z.to_nat (zsum b_size blocks) <= length data)%nat then
        let '(rc, _, st', h') := rt_Write G st h blocks data in
        Some (st', h', write_effect G st h D data blocks 0,
              if rc =? 0 then stale ∖ written_slots_of G blocks else stale ∪ written_slots_of G blocks)
      else None
  | OpBuild n =>
      let '(_, st', h') := rt_BuildParity G st h n in
      Some (st', h', D, stale ∖ (dirty_slots st ∖ dirty_slots st'))
  | OpRemove pool was_faulty => Some (snd (rt_RemoveBdev E st pool was_faulty), h, D, stale)
  | OpAdd pool as_parity =>
      if bool_decide (env_device E pool ∉ data_clients st ++ parity_clients st) &&
         (as_parity || data_roomb st (env_device E pool)) then
        let '(_, st', h') := rt_AddBdev G E st h pool [] 0 as_parity in
        Some (st', h', add_contents G E st st' h' D stale as_parity, stale)
      else None
  | OpRecover old_pool new_pool =>
      if bool_decide (env_device E new_pool ∉ data_clients st ++ parity_clients st) then
        let '(_, st', h') := rt_RecoverBdev G E st h old_pool new_pool [] 0 in
        Some (st', h', recovery_contents G st st' h' D stale old_pool, stale)
      else None
  end.

Lemma io_exec_sound op x x' : io_exec op x = Some x' -> io_step G E x x'.
Proof using.
  destruct x as [[[st h] D] stale], op; cbn [io_exec].
  - destruct (rt_AllocateBlocks G st size) as [[[rc blocks] st']|] eqn:EA; [|done].
    destruct (_ && _) eqn:Es; [|done]. apply andb_true_iff in Es as [H0 H1].
    apply Z.leb_le in H0. apply Z.ltb_lt in H1. intros [= <-]. by eapply io_allocate.
  - intros [= <-]. apply io_free.
  - destruct (_ && _) eqn:Ec; [|done]. rewrite !andb_true_iff in Ec. destruct Ec as ((H1 & H2) & H3).
    apply bool_decide_eq_true in H2, H3. destruct (rt_Write G st h blocks data) as [[[rc bytes] st'] h'] eqn:EW.
    intros [= <-]. eapply io_write; [|exact H2|exact H3|exact EW]. apply Forall_forall. intros b Hb.
    rewrite forallb_forall in H1. apply valid_blockb_sound, H1. by apply list_elem_of_In.
  - destruct (rt_BuildParity G st h max_batch) as [[rc st'] h'] eqn:EB. intros [= <-]. by eapply io_build.
  - intros [= <-]. destruct (rt_RemoveBdev E st pool was_faulty) as [rc st'] eqn:ER. by eapply io_remove.
  - destruct (_ && _) eqn:Ec; [|done]. apply andb_true_iff in Ec as [Hd Hroom]. apply bool_decide_eq_true in Hd.
    destruct (rt_AddBdev _ _ _ _ _ _ _ _) as [[rc st'] h'] eqn:EA. intros [= <-].
    eapply io_add; [exact Hd| |exact EA]. intros ->. by apply data_roomb_sound in Hroom.
  - case_bool_decide as Hd; [|done]. destruct (rt_RecoverBdev _ _ _ _ _ _ _ _) as [[rc st'] h'] eqn:ER. intros [= <-].
    by eapply io_recover.
Qed.

Definition io_run (ops : list io_op) (x : io_state) : option io_state :=
  fold_left (fun x op => match x with Some x => io_exec op x | None => None end) ops (Some x).

Lemma io_run_sound ops x x' : io_run ops x = Some x' -> rtc (io_step G E) x x'.
Proof using.
  unfold io_run. revert x. induction ops as [|op ops IH]; intros x; cbn [fold_left].
  - intros [= <-]. apply rtc_refl.
  - destruct (io_exec op x) as [x1|] eqn:E1.
    + intros H. eapply rtc_l; [by apply (io_exec_sound op)|by apply IH].
    + intros H. exfalso. clear -H. induction ops as [|op' ops IH]; [done|by apply IH].
Qed.
End Exec.

(** ** A small container on memory devices *)

Definition tiny_env : Env := mkEnv (fun p => Z.to_nat (snd p)) (fun _ => None) true true 0 (replicate 4 Byte.x00).

Definition tiny_heap (n : nat) : gmap nat MemoryStore :=
  list_to_map (map (fun i => (i, MemoryStore_new 160)) (seq 0 n)).

Definition tiny_bytes (l : list nat) : list u8 := map byte_of_nat l.

Lemma tiny_geometry : io_geometry tiny.
Proof. split; [apply tiny_ok| |]; cbn; lia. Qed.

Lemma tiny_fits : superblock_fits tiny tiny_env.
Proof. split; [cbn; lia|reflexivity]. Qed.

Lemma tiny_container caps parity :
  (length caps <= 4)%nat -> Forall (fun c => 0 <= c <= 16) caps -> (parity <= 4)%nat ->
  fresh_container tiny (tiny_array caps parity).
Proof.
  intros Hn Hc Hp. split; [by apply tiny_array_fresh|]. split; [|done]. split; cbn [tiny_array data_clients data_members
    parity_clients parity_members parity_level max_failures]; rewrite ?length_map, ?length_seq; try done; try lia.
  rewrite app_nil_r. apply NoDup_ListNoDup, seq_NoDup.
Qed.

(** Two data members and one parity member; both chunks of slot 0 written and
    their parity built; then the first data member fails. Device 3 is a spare. *)
Definition degraded_ops : list io_op :=
  [OpAllocate 8; OpWrite [mkBlock 0 4 0] (tiny_bytes [1; 2; 3; 4]%nat); OpAdd (7, 2) true;
   OpWrite [mkBlock 64 4 0] (tiny_bytes [250; 251; 252; 253]%nat); OpBuild 0; OpRemove (7, 0) true].

Abbreviation degraded_example :=
  (io_run tiny tiny_env degraded_ops (tiny_array [4; 4] 2, tiny_heap 4, no_contents tiny, ∅)).

Definition degraded_state : Runtime :=
  match degraded_example with Some (st, _, _, _) => st | None => tiny_array [] 0 end.
Definition degraded_heap : gmap nat MemoryStore :=
  match degraded_example with Some (_, h, _, _) => h | None => ∅ end.
Definition degraded_contents : chunk_contents :=
  match degraded_example with Some (_, _, D, _) => D | None => no_contents tiny end.
Definition degraded_stale : gset Z :=
  match degraded_example with Some (_, _, _, stale) => stale | None => ∅ end.

Lemma degraded_example_eq :
  io_run tiny tiny_env degraded_ops (tiny_array [4; 4] 2, tiny_heap 4, no_contents tiny, ∅) =
  Some (degraded_state, degraded_heap, degraded_contents, degraded_stale).
Proof.
  assert (match degraded_example with Some _ => true | None => false end = true) as H by (vm_compute; reflexivity).
  unfold degraded_state, degraded_heap, degraded_contents, degraded_stale.
  destruct (io_run _ _ _ _) as [[[[st h] D] stale]|]; [reflexivity|discriminate H].
Qed.

Lemma degraded_reachable :
  rtc (io_step tiny tiny_env) (tiny_array [4; 4] 2, tiny_heap 4, no_contents tiny, ∅)
    (degraded_state, degraded_heap, degraded_contents, degraded_stale).
Proof. exact (io_run_sound tiny tiny_env degraded_ops _ _ degraded_example_eq). Qed.



(** Degraded availability: on memory devices that hold the slot, a block of
    a live chunk is readable, and reads back its contents, as long as its slot
    is neither dirty nor stale and no more members of its stripe are down than
    parity members are up. *)
Theorem degraded_read_available (G : Geometry) (E : Env) (st0 st : Runtime) (h0 h : gmap nat MemoryStore)
    (D : chunk_contents) (stale : gset Z) (b : Block) (d : nat) (s : Z) (w : nat) :
  io_geometry G -> superblock_fits G E -> fresh_container G st0 ->
  rtc (io_step G E) (st0, h0, no_contents G, ∅) (st, h, D, stale) ->
  valid_block G st b -> 0 < b_size b < 2 ^ 64 -> Unband G (b_offset b) = (d, s, w) ->
  s ∉ dirty_slots st -> s ∉ stale ->
  (forall d, d ∈ StripeMembers st s -> holds_slot G h s (data_client st d)) ->
  (forall j, (j < parity_level st)%nat -> holds_slot G h s (parity_client st j)) ->
  (length (stripe_down st s) <= length (parity_up st))%nat ->
  exists st', rt_Read G st h [b] = Some (0, b_size b, block_contents G D b, st').
Proof.
  intros HG Hfit Hf Hr Hv Hsz HU Hnd Hns Hcd Hcp Hdown.
  destruct (io_reachable_good G E _ _ HG Hfit Hr (fresh_container_good G st0 h0 Hf)) as [Hinv _].
  destruct (valid_block_Unband G HG st h D stale b Hinv Hv ltac:(lia)) as (d' & s' & w' & HU' & Hd & Hl & Hs & Hoff & _ & Hw).
  rewrite HU in HU'. injection HU' as <- <- <-.
  assert (d ∈ StripeMembers st s) as Hin.
  { apply elem_of_StripeMembers. split; [|done]. rewrite (ar_len G _ (io_array _ _ _ _ _ Hinv)). exact Hd. }
  unfold rt_Read. rewrite decide_False.
  2: { intros [Hnil|]; [|done]. unfold members_count in Hd. rewrite Hnil in Hd. cbn in Hd. lia. }
  cbn [read_blocks]. destruct (Z.eqb_spec (b_size b) 0); [lia|]. rewrite HU, decide_False by (unfold members_count in Hd; lia).
  destruct (SlotPhysOffset_exact G HG s Hs) as (_ & P0 & P1). rewrite u64_small by lia.
  unfold block_contents. rewrite HU. rewrite (u64_small (0 + b_size b)) by lia. rewrite Z.add_0_l.
  destruct (data_active st d) eqn:Ea.
  - rewrite memory_ReadDataSegment.
    destruct (memory_read G HG h s (data_client st d) (SlotPhysOffset G s + Z.of_nat w) (Z.to_nat (b_size b)) Hs (Hcd d Hin))
      as [l El]; [lia|lia|]. rewrite El. exists st. cbn [app].
    by rewrite (chunk_read G HG st h D stale d s w _ l Hinv Hd Hl Ea Hw El).
  - unfold read_fuel. change (3 + ?n)%nat with (2 + (1 + n))%nat.
    rewrite (read_degraded_chunk G HG _ st h D stale b d s w [] Hinv Hd Hs Hoff ltac:(lia) Hw).
    unfold IsSlotDirty. rewrite bool_decide_false by done.
    destruct (find_pos d 0 (StripeMembers st s)) as [pos|] eqn:Ep; [|exfalso].
    + apply find_pos_Some in Ep as [_ Ep]. rewrite Nat.sub_0_r in Ep.
      destruct (ReconstructStripe G st h s (StripeMembers st s) d) as [r st1] eqn:Er.
      destruct (ReconstructStripe_spec G HG st h D stale s d r st1 Hinv Hnd Hns Hs Er) as (_ & Hch & Hnone).
      destruct r as [chunks|].
      * rewrite (Hch chunks eq_refl). exists st1. cbn [app]. do 3 f_equal. unfold shard. rewrite nth_lookup.
        change (map ?f ?l) with (f <$> l). by rewrite list_lookup_fmap, Ep.
      * exfalso. destruct (Hnone eq_refl) as [Hlt|Hnil]; [|rewrite Hnil in Hin; by apply not_elem_of_nil in Hin].
        pose proof (survivors_memory G HG st h s d Hs Ea Hcd Hcp Hdown). lia.
    + clear -Ep Hin. revert Ep. generalize 0%nat. induction (StripeMembers st s) as [|d' l IH]; intros pos; [by apply not_elem_of_nil in Hin|].
      cbn [find_pos]. case_decide; [done|]. apply IH. apply elem_of_cons in Hin as [|Hin]; [congruence|done].
Qed.

Lemma degraded_read_available_witness :
  data_active degraded_state 0 = false /\
  exists st', rt_Read tiny degraded_state degraded_heap [mkBlock 1 3 0] =
    Some (0, 3, block_contents tiny degraded_contents (mkBlock 1 3 0), st').
Proof.
  split; [vm_compute; reflexivity|].
  apply (degraded_read_available tiny tiny_env _ degraded_state _ degraded_heap degraded_contents degraded_stale
           (mkBlock 1 3 0) 0 0 1 tiny_geometry tiny_fits
           (tiny_container [4; 4] 2 ltac:(cbn; lia) ltac:(repeat constructor; lia) ltac:(lia)) degraded_reachable).
  - apply valid_blockb_sound. vm_compute. reflexivity.
  - cbn. lia.
  - vm_compute. reflexivity.
  - assert (dirty_slots degraded_state = ∅) as -> by (vm_compute; reflexivity). apply not_elem_of_empty.
  - assert (degraded_stale = ∅) as -> by (vm_compute; reflexivity). apply not_elem_of_empty.
  - intros d Hd. assert (StripeMembers degraded_state 0 = [0; 1]%nat) as Es by (vm_compute; reflexivity).
    rewrite Es in Hd. unfold holds_slot.
    apply elem_of_cons in Hd as [-> |Hd]; [|apply list_elem_of_singleton in Hd as ->];
      (eexists; split; [vm_compute; reflexivity|vm_compute; discriminate]).
  - intros j Hj. assert (parity_level degraded_state = 1%nat) as El by (vm_compute; reflexivity). rewrite El in Hj.
    assert (j = 0)%nat as -> by lia. eexists. split; [vm_compute; reflexivity|vm_compute; discriminate].
  - vm_compute. lia.
Defined.


(** Recovering the failed member of the example onto the spare device. *)
Abbreviation recovered_example := (rt_RecoverBdev tiny tiny_env degraded_state degraded_heap (7, 0) (9, 3) [] 0).

