(* ===== verification/SafeBdevGaps.v ===== *)
(** Histories in which the safe_bdev container does less than its comments say,
    each a run of the handlers on a small container of memory devices.

    They show why the safety theorems speak of slots that are not stale: an
    allocation or a failed write leaves parity behind without a dirty mark. *)
From Stdlib Require Import ZArith Lia.
From stdpp Require Import base list gmap.
From S2P Require Import Prelude Gf256 ReedSolomon EcArray BlockAllocator AllocLog MemberManifest SafeBdev SafeBdevIO.
From S2P Require Import Superblock SafeBdevAdmin SafeBdevRecovery SafeBdevSafety.

Open Scope Z_scope.

(** What a caller sees of a read: return code, byte count, bytes. *)
Definition read_result (r : option (Z * Z * list u8 * Runtime)) : option (Z * Z * list u8) :=
  match r with Some (rc, bytes, out, _) => Some (rc, bytes, out) | None => None end.

(** One chunk written on member 0 and protected by the parity member 2. *)
Definition protected_ops : list io_op :=
  [OpAllocate 4; OpAdd (7, 2) true; OpWrite [mkBlock 0 4 0] (tiny_bytes [1; 2; 3; 4]%nat); OpBuild 0].

(** The outcome of a run from the fresh container of two data members. *)
Section Runs.
Context (ops : list io_op) (h0 : gmap nat MemoryStore).

Abbreviation run := (io_run tiny tiny_env ops (tiny_array [4; 4] 2, h0, no_contents tiny, ∅)).

Definition run_state : Runtime := match run with Some (st, _, _, _) => st | None => tiny_array [] 0 end.
Definition run_heap : gmap nat MemoryStore := match run with Some (_, h, _, _) => h | None => ∅ end.
Definition run_contents : nat -> Z -> list u8 := match run with Some (_, _, D, _) => D | None => no_contents tiny end.
Definition run_stale : gset Z := match run with Some (_, _, _, stale) => stale | None => ∅ end.

Lemma run_reachable :
  match run with Some _ => true | None => false end = true ->
  rtc (io_step tiny tiny_env) (tiny_array [4; 4] 2, h0, no_contents tiny, ∅) (run_state, run_heap, run_contents, run_stale).
Proof using.
  intros H. apply (io_run_sound tiny tiny_env ops). unfold run_state, run_heap, run_contents, run_stale.
  destruct (io_run _ _ _ _) as [[[[st h] D] stale]|]; [reflexivity|discriminate H].
Qed.
End Runs.

Ltac run_witness ops h0 :=
  exists (run_state ops h0), (run_heap ops h0), (run_contents ops h0), (run_stale ops h0);
  split; [apply run_reachable; vm_compute; reflexivity|].

(** An allocation that widens a protected stripe changes the code its parity is
    read under but marks nothing dirty: until the new chunk is written and
    parity rebuilt, a degraded read of committed data succeeds with wrong bytes. *)
Theorem allocation_gap_corrupts_degraded_read :
  exists st h D stale,
    rtc (io_step tiny tiny_env) (tiny_array [4; 4] 2, tiny_heap 4, no_contents tiny, ∅) (st, h, D, stale) /\
    dirty_slots st = ∅ /\ D 0%nat 0 = tiny_bytes [1; 2; 3; 4]%nat /\
    read_result (rt_Read tiny st h [mkBlock 0 4 0]) = Some (0, 4, tiny_bytes [2; 4; 6; 8]%nat).
Proof.
  run_witness (protected_ops ++ [OpAllocate 4; OpRemove (7, 0) true]) (tiny_heap 4).
  repeat split; vm_compute; reflexivity.
Qed.

(** A write to a member that is down returns success and all its bytes, but
    keeps none of them; it marks the slot dirty, which nothing can clear while
    the member is down, and a dirty slot makes its recovery fail. *)
Theorem degraded_write_blocks_recovery :
  exists st h D stale,
    rtc (io_step tiny tiny_env) (tiny_array [4; 4] 2, tiny_heap 4, no_contents tiny, ∅) (st, h, D, stale) /\
    let '(rc, bytes, st, h) := rt_Write tiny st h [mkBlock 0 4 0] (tiny_bytes [9; 9; 9; 9]%nat) in
    rc = 0 /\ bytes = 4 /\ read_result (rt_Read tiny st h [mkBlock 0 4 0]) = Some (1, 0, []) /\
    let '(rc, st, h) := rt_BuildParity tiny st h 0 in
    rc = 0 /\ elements (dirty_slots st) = [0] /\
    let '(rc, st, _) := rt_RecoverBdev tiny tiny_env st h (7, 0) (9, 3) [] 0 in
    rc = 1 /\ data_active st 0 = false.
Proof.
  run_witness (protected_ops ++ [OpRemove (7, 0) true]) (tiny_heap 4). vm_compute. repeat split.
Qed.

(** ** A failed write *)

(** Device 1 holds slot 0 only. Both chunks of slot 0 are written and protected;
    then a write of one chunk of slot 0 and one of slot 1 fails on device 1. *)
Definition short_heap : gmap nat MemoryStore := <[1%nat := MemoryStore_new 84]> (tiny_heap 3).

Definition failed_write_ops : list io_op :=
  [OpAllocate 16; OpAdd (7, 2) true;
   OpWrite [mkBlock 0 4 0] (tiny_bytes [1; 2; 3; 4]%nat); OpWrite [mkBlock 64 4 0] (tiny_bytes [5; 6; 7; 8]%nat); OpBuild 0;
   OpWrite [mkBlock 0 4 0; mkBlock 68 4 0] (tiny_bytes [9; 9; 9; 9; 9; 9; 9; 9]%nat); OpRemove (7, 1) true].

(** A write that fails part way has changed some chunks but marks no slot
    dirty, so their parity is stale: a later degraded read of a chunk the write
    did not touch succeeds with wrong bytes. *)
Theorem failed_write_leaves_stale_parity :
  exists st h D stale,
    rtc (io_step tiny tiny_env) (tiny_array [4; 4] 2, short_heap, no_contents tiny, ∅) (st, h, D, stale) /\
    dirty_slots st = ∅ /\ D 1%nat 0 = tiny_bytes [5; 6; 7; 8]%nat /\
    exists out, read_result (rt_Read tiny st h [mkBlock 64 4 0]) = Some (0, 4, out) /\ out <> D 1%nat 0.
Proof.
  run_witness failed_write_ops short_heap. split; [vm_compute; reflexivity|]. split; [vm_compute; reflexivity|].
  eexists. split; [vm_compute; reflexivity|]. vm_compute. discriminate.
Qed.

(** ** BuildParity beside a write *)

(** [BuildParity] awaits its device reads and writes without a lock. Here a
    write to the chunk runs after the builder has read the stripe and before it
    erases the slot's dirty mark: the mark the write set is erased as well. *)
Definition build_beside_write (st : Runtime) (h : gmap nat MemoryStore) (s : Z) (blocks : list Block) (data : list u8)
    : Runtime * gmap nat MemoryStore :=
  let stripe := StripeMembers st s in
  match read_stripe tiny st h (SlotPhysOffset tiny s) stripe [] with
  | (Some chunks, st) =>
      let '(_, _, st, h) := rt_Write tiny st h blocks data in
      let '(ok, (st, h)) := write_parity tiny st h s (length stripe) chunks in
      (if ok then clear_dirty st s else st, h)
  | (None, st) => (st, h)
  end.

Theorem build_erases_concurrent_dirty_mark :
  exists st h D stale,
    rtc (io_step tiny tiny_env) (tiny_array [4; 4] 2, tiny_heap 4, no_contents tiny, ∅) (st, h, D, stale) /\
    let '(st, h) := build_beside_write st h 0 [mkBlock 0 4 0] (tiny_bytes [9; 9; 9; 9]%nat) in
    dirty_slots st = ∅ /\
    read_result (rt_Read tiny st h [mkBlock 0 4 0]) = Some (0, 4, tiny_bytes [9; 9; 9; 9]%nat) /\
    read_result (rt_Read tiny (snd (rt_RemoveBdev tiny_env st (7, 0) true)) h [mkBlock 0 4 0]) =
      Some (0, 4, tiny_bytes [1; 2; 3; 4]%nat).
Proof.
  run_witness (protected_ops ++ [OpWrite [mkBlock 0 4 0] (tiny_bytes [1; 2; 3; 4]%nat)]) (tiny_heap 4).
  vm_compute. repeat split.
Qed.

(** ** A write to a failed member, and a restart *)

Definition restart_env : Env := mkEnv (fun p => Z.to_nat (snd p)) (fun _ => Some (160, 100)) true true 0 (replicate 4 Byte.x00).

Definition restart_params : CreateParams := mkCreateParams [mkMemberDesc (7, 0) [] 0; mkMemberDesc (7, 1) [] 0] 2 false.

(** A life of the container: created on blank devices, a parity member added, a
    chunk written, protected and the log flushed; member 0 fails, the chunk is
    written again, and the machine stops. *)
Definition first_life : Z * Runtime * gmap nat MemoryStore * LogDisk :=
  let '(_, st, h, disk) := rt_Create tiny restart_env (1, 2) (mkManifest true 0 (mkLogDisk None None)) restart_params
                             (tiny_heap 4) (mkLogDisk None None) in
  let '(_, st, h) := rt_AddBdev tiny restart_env st h (7, 2) [] 0 true in
  match rt_AllocateBlocks tiny st 4 with
  | Some (_, blocks, st) =>
      let '(_, _, st, h) := rt_Write tiny st h blocks (tiny_bytes [1; 2; 3; 4]%nat) in
      let '(_, st, h) := rt_BuildParity tiny st h 0 in
      let '(st, disk) := rt_FlushAllocLog restart_env st disk in
      let '(_, st) := rt_RemoveBdev restart_env st (7, 0) true in
      let '(rc, _, st, h) := rt_Write tiny st h blocks (tiny_bytes [9; 9; 9; 9]%nat) in
      (rc, st, h, disk)
  | None => (1, st, h, disk)
  end.

(** The manifest has recorded that member 0 is down, but [Create] reads only
    the recovery flag of a data member: after the restart the member is active
    and serves its old bytes, and the write that returned success is gone. *)
Theorem degraded_write_lost_at_restart :
  let '(rc, st, h, disk) := first_life in
  rc = 0 /\ data_active st 0 = false /\
  map me_state (snd (fst (LoadMemberManifest (manifest st) true true))) = [1; 0; 0] /\
  let '(rc, st, h, _) := rt_Create tiny restart_env (1, 2) (manifest st) restart_params h disk in
  rc = 0 /\ data_active st 0 = true /\ parity_level st = 1%nat /\ dirty_slots st = ∅ /\
  read_result (rt_Read tiny st h [mkBlock 0 4 0]) = Some (0, 4, tiny_bytes [1; 2; 3; 4]%nat).
Proof. vm_compute. repeat split. Qed.
