(* ===== verification/Text.v ===== *)
(** Byte strings: literals, decimal numbers as [std::to_string] writes and
    [std::stoul] reads them, and searching for a byte. Shared by the files that
    model names, keys and the text forms of queries. *)
From Stdlib Require Import ZArith Lia Strings.String Strings.Byte.
From coqutil Require Import Byte.
From stdpp Require Import base list gmap.
From S2P Require Import Prelude.

Open Scope Z_scope.

(** * Numbers as text *)

#[export] Instance u8_countable : Countable u8 := inj_countable Byte.to_N Byte.of_N Byte.of_to_N.

Abbreviation str := (list u8).

(** A string literal. *)
Definition lit (s : String.string) : str := String.list_byte_of_string s.
Arguments lit s%_string_scope.

Definition digit (d : Z) : u8 := byte.of_Z (48 + d).

(** [std::to_string] of an unsigned value; 20 digits hold 64 bits. *)
Fixpoint digits (fuel : nat) (z : Z) (acc : str) : str :=
  match fuel with
  | O => acc
  | S fuel =>
      let acc := digit (z mod 10) :: acc in
      if z / 10 =? 0 then acc else digits fuel (z / 10) acc
  end.
Definition to_string (z : Z) : str := digits 20 z [].

Definition dot : u8 := Byte.x2e.

Definition is_digit (b : u8) : bool := (48 <=? byte.unsigned b) && (byte.unsigned b <=? 57).
(** The value of a run of digits read after the value [v]. *)
Definition digits_value (v : Z) (s : str) : Z := fold_left (fun v b => 10 * v + (byte.unsigned b - 48)) s v.

Lemma digit_unsigned d : 0 <= d < 10 -> byte.unsigned (digit d) = 48 + d.
Proof. intros Hd. unfold digit. rewrite byte.unsigned_of_Z. unfold byte.wrap. apply Z.mod_small. lia. Qed.

Lemma digits_spec fuel z acc :
  0 <= z < 10 ^ Z.of_nat fuel -> Forall (fun b => is_digit b = true) acc ->
  Forall (fun b => is_digit b = true) (digits fuel z acc) /\ digits_value 0 (digits fuel z acc) = digits_value z acc /\
  (fuel <> 0%nat -> digits fuel z acc <> []).
Proof.
  revert z acc. induction fuel as [|fuel IH]; intros z acc Hz Hacc.
  - cbn in *. by replace z with 0 by lia.
  - rewrite Nat2Z.inj_succ, Z.pow_succ_r in Hz by lia. cbn [digits]. pose proof (Z.mod_pos_bound z 10 ltac:(lia)) as Hm.
    assert (Forall (fun b => is_digit b = true) (digit (z mod 10) :: acc)) as Hacc'.
    { constructor; [|done]. unfold is_digit. rewrite digit_unsigned by lia. lia. }
    pose proof (Z.div_mod z 10 ltac:(lia)) as Hd. destruct (Z.eqb_spec (z / 10) 0) as [E|E].
    + split; [done|]. split; [|done]. unfold digits_value. cbn [fold_left]. rewrite digit_unsigned by lia. f_equal. lia.
    + destruct (IH (z / 10) (digit (z mod 10) :: acc)) as (H1 & H2 & H3); [|done|].
      { split; [apply Z.div_pos; lia|apply Z.div_lt_upper_bound; lia]. }
      split; [done|]. rewrite H2. split.
      * unfold digits_value. cbn [fold_left]. rewrite digit_unsigned by lia. f_equal. lia.
      * intros _. destruct fuel; [|by apply H3]. cbn in Hz. rewrite Z.div_small in E by lia. done.
Qed.

Lemma to_string_spec z :
  0 <= z < 2 ^ 64 ->
  Forall (fun b => is_digit b = true) (to_string z) /\ digits_value 0 (to_string z) = z /\ to_string z <> [].
Proof.
  intros Hz. destruct (digits_spec 20 z []) as (H1 & H2 & H3); [cbn; lia|constructor|]. split; [done|]. split; [done|by apply H3].
Qed.

Lemma to_string_no c z : is_digit c = false -> 0 <= z < 2 ^ 64 -> c ∉ to_string z.
Proof.
  intros Hc Hz H. destruct (to_string_spec z Hz) as [Hd _]. rewrite Forall_forall in Hd. specialize (Hd _ H). congruence.
Qed.

Lemma to_string_inj a b : 0 <= a < 2 ^ 64 -> 0 <= b < 2 ^ 64 -> to_string a = to_string b -> a = b.
Proof.
  intros Ha Hb E. destruct (to_string_spec a Ha) as (_ & <- & _), (to_string_spec b Hb) as (_ & <- & _). by rewrite E.
Qed.

Lemma split_at_sep (sep : u8) a a' b b' :
  sep ∉ a -> sep ∉ a' -> a ++ sep :: b = a' ++ sep :: b' -> a = a' /\ b = b'.
Proof.
  revert a'. induction a as [|x a IH]; intros [|x' a'] Ha Ha' E; cbn in E.
  - by injection E as ->.
  - injection E as <- _. destruct Ha'. left.
  - injection E as -> _. destruct Ha. left.
  - injection E as -> E. apply not_elem_of_cons in Ha as [_ Ha]. apply not_elem_of_cons in Ha' as [_ Ha'].
    destruct (IH a' Ha Ha' E) as [-> ->]. done.
Qed.

(** * Searching and reading *)

(** [s.find(c)] *)
Fixpoint find_char (c : u8) (s : str) : option nat :=
  match s with
  | [] => None
  | x :: s => if decide (x = c) then Some 0%nat else S <$> find_char c s
  end.

(** The longest prefix of bytes that [p] accepts, and the rest. *)
Fixpoint span (p : u8 -> bool) (s : str) : str * str :=
  match s with
  | [] => ([], [])
  | x :: s' => if p x then let '(a, b) := span p s' in (x :: a, b) else ([], s)
  end.

Definition is_space (b : u8) : bool :=
  (byte.unsigned b =? 32) || ((9 <=? byte.unsigned b) && (byte.unsigned b <=? 13)).

(** [std::stoul(s)]: blanks, a sign, digits; [None] is an exception. *)
Definition stoul (s : str) : option Z :=
  let '(_, s) := span is_space s in
  let '(neg, s) := match s with
                   | x :: s' => if decide (x = Byte.x2d) then (true, s') else if decide (x = Byte.x2b) then (false, s') else (false, s)
                   | [] => (false, s)
                   end in
  let '(ds, _) := span is_digit s in
  match ds with
  | [] => None
  | _ => let v := digits_value 0 ds in
         if 2 ^ 64 <=? v then None else Some (if neg : bool then u64 (- v) else v)
  end.

Lemma span_app p a b : Forall (fun c => p c = true) a -> match b with [] => True | c :: _ => p c = false end -> span p (a ++ b) = (a, b).
Proof.
  intros Ha Hb. induction Ha as [|c a Hc _ IH]; cbn [app].
  - destruct b as [|c b]; [done|]. cbn [span]. by rewrite Hb.
  - cbn [span]. by rewrite Hc, IH.
Qed.

Lemma span_spec p s : let '(a, b) := span p s in s = a ++ b /\ Forall (fun c => p c = true) a /\ match b with [] => True | c :: _ => p c = false end.
Proof.
  induction s as [|c s IH]; cbn [span]; [done|]. destruct (p c) eqn:E; [|done]. destruct (span p s) as [a b].
  destruct IH as (-> & Ha & Hb). split; [done|]. split; [by constructor|done].
Qed.

Lemma find_char_app c a b : c ∉ a -> find_char c (a ++ c :: b) = Some (length a).
Proof.
  induction a as [|x a IH]; cbn [app find_char length]; intros H; [by rewrite decide_True|].
  apply not_elem_of_cons in H as [Hx H]. rewrite decide_False by done. by rewrite IH.
Qed.

(** [stoul] reads what [to_string] writes. *)
Lemma stoul_to_string z : 0 <= z < 2 ^ 64 -> stoul (to_string z) = Some z.
Proof.
  intros Hz. destruct (to_string_spec z Hz) as (Hd & Hv & Hn). unfold stoul.
  destruct (to_string z) as [|x s] eqn:E; [done|]. pose proof Hd as [Hx _]%Forall_cons.
  assert (48 <= byte.unsigned x <= 57) as Hr by (unfold is_digit in Hx; lia).
  assert (span is_space (x :: s) = ([], x :: s)) as -> by (apply (span_app is_space [] (x :: s)); [constructor|unfold is_space; lia]).
  rewrite decide_False by (intros ->; cbn in Hr; lia). rewrite decide_False by (intros ->; cbn in Hr; lia).
  rewrite <- (app_nil_r (x :: s)), span_app by done. rewrite Hv. rewrite (proj2 (Z.leb_gt _ _)) by lia. done.
Qed.

Lemma stoul_range s z : stoul s = Some z -> 0 <= z < 2 ^ 64.
Proof.
  unfold stoul. destruct (span is_space s) as [sp s1]. clear sp s.
  set (sg := match s1 with [] => (false, s1) | _ => _ end). destruct sg as [neg s2].
  pose proof (span_spec is_digit s2) as Hs. destruct (span is_digit s2) as [ds s3]. destruct Hs as (_ & Hd & _).
  assert (0 <= digits_value 0 ds) as Hp.
  { assert (forall v, 0 <= v -> 0 <= digits_value v ds) as H; [|by apply H].
    induction Hd as [|d ds Hd _ IH]; intros v Hv; [done|]. apply IH. cbv beta. unfold is_digit in Hd. lia. }
  destruct ds as [|d ds]; [done|]. destruct (2 ^ 64 <=? _) eqn:E; [done|]. intros [= <-]. destruct neg; [apply u64_range|]. apply Z.leb_gt in E. split; [exact Hp|exact E].
Qed.

Lemma find_char_none c s : c ∉ s -> find_char c s = None.
Proof.
  induction s as [|x s IH]; cbn; [done|]. intros [Hx H]%not_elem_of_cons. rewrite decide_False by done. by rewrite IH.
Qed.
