(* ===== verification/TxnLog.v ===== *)
(** The write-ahead transaction log of the context transfer engine
    ([context-transfer-engine/core/include/clio_cte/core/transaction_log.h]).

    A log file is a sequence of records: a type byte, a 32-bit payload size and
    the payload. Writes are buffered by the stream until a flush. A float is its
    32-bit pattern; a [PoolQuery] is its [query_size] raw bytes. *)
From Stdlib Require Import ZArith Lia.
From stdpp Require Import base list.
From S2P Require Import Prelude.

Open Scope Z_scope.

(** * Data *)

Inductive TxnType :=
| kCreateNewBlob | kExtendBlob | kClearBlob | kDelBlob | kCreateTag | kDelTag | kSetBlobTransform | kExtendReplica.

Definition TxnType_to_u8 (t : TxnType) : Z :=
  match t with
  | kCreateNewBlob => 0 | kExtendBlob => 1 | kClearBlob => 2 | kDelBlob => 3
  | kCreateTag => 4 | kDelTag => 5 | kSetBlobTransform => 6 | kExtendReplica => 7
  end.

Record TxnExtendBlobBlock := mkTxnBlock {
  tb_bdev_major : Z; tb_bdev_minor : Z; tb_target_query : list u8; tb_target_offset : Z; tb_size : Z
}.

(** A tag id and a blob name: the payload of [kClearBlob] and [kDelBlob], and
    the first fields of the other blob payloads. *)
Record TxnBlobRef := mkBlobRef { tx_tag_major : Z; tx_tag_minor : Z; tx_blob_name : list u8 }.

Record TxnCreateNewBlob := mkTxnCreateNewBlob { cb_ref : TxnBlobRef; cb_score : Z }.
Record TxnExtendBlob := mkTxnExtendBlob { xb_ref : TxnBlobRef; xb_new_blocks : list TxnExtendBlobBlock }.
Record TxnExtendReplica := mkTxnExtendReplica {
  xr_ref : TxnBlobRef; xr_replica : Z; xr_replica_name : list u8; xr_score : Z; xr_flags : Z;
  xr_transform_flags : Z; xr_min_score : Z; xr_new_blocks : list TxnExtendBlobBlock
}.
Record TxnSetBlobTransform := mkTxnSetBlobTransform { sx_ref : TxnBlobRef; sx_transform_flags : Z }.
(** The payload of [kCreateTag] and [kDelTag]. *)
Record TxnTag := mkTxnTag { tt_tag_name : list u8; tt_tag_major : Z; tt_tag_minor : Z }.

(** A transaction with its type. *)
Inductive Txn :=
| CreateNewBlob (t : TxnCreateNewBlob)
| ExtendBlob (t : TxnExtendBlob)
| ClearBlob (t : TxnBlobRef)
| DelBlob (t : TxnBlobRef)
| CreateTag (t : TxnTag)
| DelTag (t : TxnTag)
| SetBlobTransform (t : TxnSetBlobTransform)
| ExtendReplica (t : TxnExtendReplica).

Definition txn_type (t : Txn) : TxnType :=
  match t with
  | CreateNewBlob _ => kCreateNewBlob | ExtendBlob _ => kExtendBlob | ClearBlob _ => kClearBlob
  | DelBlob _ => kDelBlob | CreateTag _ => kCreateTag | DelTag _ => kDelTag
  | SetBlobTransform _ => kSetBlobTransform | ExtendReplica _ => kExtendReplica
  end.

(** The stream and its file: [tl_pending] was written and not yet flushed. *)
Record TransactionLog := mkTransactionLog {
  tl_open : bool; tl_capacity : Z; tl_pending : list u8; tl_file : option (list u8)
}.

(** * Serialization *)

Definition WriteU32 (buf : list u8) (val : Z) : list u8 := buf ++ le_bytes 4 val.
Definition WriteU64 (buf : list u8) (val : Z) : list u8 := buf ++ le_bytes 8 val.
Definition WriteFloat (buf : list u8) (val : Z) : list u8 := buf ++ le_bytes 4 val.
Definition WriteString (buf s : list u8) : list u8 := WriteU32 buf (u32 (Z.of_nat (length s))) ++ s.
Definition WriteRaw (buf p : list u8) : list u8 := buf ++ p.

Definition write_block (buf : list u8) (blk : TxnExtendBlobBlock) : list u8 :=
  WriteU64 (WriteU64 (WriteRaw (WriteU32 (WriteU32 buf (tb_bdev_major blk)) (tb_bdev_minor blk)) (tb_target_query blk))
    (tb_target_offset blk)) (tb_size blk).

Definition write_blocks (buf : list u8) (blocks : list TxnExtendBlobBlock) : list u8 :=
  fold_left write_block blocks (WriteU32 buf (u32 (Z.of_nat (length blocks)))).

Definition write_ref (r : TxnBlobRef) : list u8 :=
  WriteString (WriteU32 (WriteU32 [] (tx_tag_major r)) (tx_tag_minor r)) (tx_blob_name r).

Definition payload_CreateNewBlob (t : TxnCreateNewBlob) : list u8 := WriteFloat (write_ref (cb_ref t)) (cb_score t).
Definition payload_ExtendBlob (t : TxnExtendBlob) : list u8 := write_blocks (write_ref (xb_ref t)) (xb_new_blocks t).
Definition payload_ExtendReplica (t : TxnExtendReplica) : list u8 :=
  let buf := WriteString (WriteU32 (write_ref (xr_ref t)) (xr_replica t)) (xr_replica_name t) in
  let buf := WriteU32 (WriteU32 (WriteFloat buf (xr_score t)) (xr_flags t)) (xr_transform_flags t) in
  write_blocks (WriteFloat buf (xr_min_score t)) (xr_new_blocks t).
Definition payload_SetBlobTransform (t : TxnSetBlobTransform) : list u8 := WriteU32 (write_ref (sx_ref t)) (sx_transform_flags t).
Definition payload_Tag (t : TxnTag) : list u8 :=
  WriteU32 (WriteU32 (WriteString [] (tt_tag_name t)) (tt_tag_major t)) (tt_tag_minor t).

Definition txn_payload (t : Txn) : list u8 :=
  match t with
  | CreateNewBlob t => payload_CreateNewBlob t
  | ExtendBlob t => payload_ExtendBlob t
  | ClearBlob r | DelBlob r => write_ref r
  | CreateTag t | DelTag t => payload_Tag t
  | SetBlobTransform t => payload_SetBlobTransform t
  | ExtendReplica t => payload_ExtendReplica t
  end.

(** The payload's size field is 32 bits, and that many bytes are written. *)
Definition record_bytes (ty : Z) (payload : list u8) : list u8 :=
  let n := u32 (Z.of_nat (length payload)) in
  le_bytes 1 ty ++ le_bytes 4 n ++ take (Z.to_nat n) payload.

(** * Operations on the log *)

Definition Open (l : TransactionLog) (capacity : Z) (can_open : bool) : TransactionLog :=
  mkTransactionLog can_open capacity (tl_pending l) (if can_open then Some (default [] (tl_file l)) else tl_file l).

Definition WriteRecord (l : TransactionLog) (ty : TxnType) (payload : list u8) : TransactionLog :=
  if tl_open l
  then mkTransactionLog true (tl_capacity l) (tl_pending l ++ record_bytes (TxnType_to_u8 ty) payload) (tl_file l)
  else l.

Definition Log (l : TransactionLog) (t : Txn) : TransactionLog := WriteRecord l (txn_type t) (txn_payload t).

Definition Sync (l : TransactionLog) : TransactionLog :=
  if tl_open l
  then mkTransactionLog true (tl_capacity l) [] (Some (default [] (tl_file l) ++ tl_pending l))
  else l.

Definition Size (l : TransactionLog) : Z := Z.of_nat (length (default [] (tl_file l))).

Definition Close (l : TransactionLog) : TransactionLog :=
  if tl_open l then let l := Sync l in mkTransactionLog false (tl_capacity l) (tl_pending l) (tl_file l) else l.

(** Reopened for truncation, closed, and reopened for appending. *)
Definition Truncate (l : TransactionLog) (can_open : bool) : TransactionLog :=
  let l := Close l in
  mkTransactionLog can_open (tl_capacity l) [] (if can_open then Some [] else tl_file l).

(** The [while (ifs.peek() != EOF)] loop; a file of [n] bytes has fuel [n]. *)
Fixpoint load_loop (fuel : nat) (bs : list u8) : list (Z * list u8) :=
  match fuel with
  | O => []
  | S fuel =>
      match get_le 1 bs with
      | None => []
      | Some (ty, bs) =>
          match get_le 4 bs with
          | None => []
          | Some (n, bs) =>
              match get_bytes (Z.to_nat n) bs with
              | None => []
              | Some (payload, bs) => (ty, payload) :: load_loop fuel bs
              end
          end
      end
  end.

Definition Load (l : TransactionLog) : list (Z * list u8) :=
  match tl_file l with
  | Some file => load_loop (length file) file
  | None => []
  end.

(** * Deserialization

    A reader takes the bytes from the current offset on; [None] is a read past
    the end of the payload, which the source does not check. *)
Section Deserialize.
Context (query_size : nat).

Definition ReadU32 (data : list u8) : option (Z * list u8) := get_le 4 data.
Definition ReadU64 (data : list u8) : option (Z * list u8) := get_le 8 data.
Definition ReadFloat (data : list u8) : option (Z * list u8) := get_le 4 data.
Definition ReadString (data : list u8) : option (list u8 * list u8) :=
  '(len, data) ← ReadU32 data; get_bytes (Z.to_nat len) data.

Definition read_block (data : list u8) : option (TxnExtendBlobBlock * list u8) :=
  '(major, data) ← ReadU32 data;
  '(minor, data) ← ReadU32 data;
  '(query, data) ← get_bytes query_size data;
  '(offset, data) ← ReadU64 data;
  '(size, data) ← ReadU64 data;
  Some (mkTxnBlock major minor query offset size, data).

Fixpoint read_n_blocks (n : nat) (data : list u8) : option (list TxnExtendBlobBlock * list u8) :=
  match n with
  | O => Some ([], data)
  | S n =>
      '(b, data) ← read_block data;
      '(bs, data) ← read_n_blocks n data;
      Some (b :: bs, data)
  end.

Definition read_blocks (data : list u8) : option (list TxnExtendBlobBlock * list u8) :=
  '(n, data) ← ReadU32 data; read_n_blocks (Z.to_nat n) data.

Definition read_ref (data : list u8) : option (TxnBlobRef * list u8) :=
  '(major, data) ← ReadU32 data;
  '(minor, data) ← ReadU32 data;
  '(name, data) ← ReadString data;
  Some (mkBlobRef major minor name, data).

Definition DeserializeCreateNewBlob (data : list u8) : option TxnCreateNewBlob :=
  '(r, data) ← read_ref data;
  '(score, _) ← ReadFloat data;
  Some (mkTxnCreateNewBlob r score).

Definition DeserializeExtendBlob (data : list u8) : option TxnExtendBlob :=
  '(r, data) ← read_ref data;
  '(blocks, _) ← read_blocks data;
  Some (mkTxnExtendBlob r blocks).

Definition DeserializeExtendReplica (data : list u8) : option TxnExtendReplica :=
  '(r, data) ← read_ref data;
  '(replica, data) ← ReadU32 data;
  '(name, data) ← ReadString data;
  '(score, data) ← ReadFloat data;
  '(flags, data) ← ReadU32 data;
  '(transform, data) ← ReadU32 data;
  '(min_score, data) ← ReadFloat data;
  '(blocks, _) ← read_blocks data;
  Some (mkTxnExtendReplica r replica name score flags transform min_score blocks).

Definition DeserializeSetBlobTransform (data : list u8) : option TxnSetBlobTransform :=
  '(r, data) ← read_ref data;
  '(flags, _) ← ReadU32 data;
  Some (mkTxnSetBlobTransform r flags).

Definition DeserializeClearBlob (data : list u8) : option TxnBlobRef := fst <$> read_ref data.
Definition DeserializeDelBlob (data : list u8) : option TxnBlobRef := fst <$> read_ref data.

Definition read_tag (data : list u8) : option TxnTag :=
  '(name, data) ← ReadString data;
  '(major, data) ← ReadU32 data;
  '(minor, _) ← ReadU32 data;
  Some (mkTxnTag name major minor).
Definition DeserializeCreateTag (data : list u8) : option TxnTag := read_tag data.
Definition DeserializeDelTag (data : list u8) : option TxnTag := read_tag data.

(** The deserializer of each type. *)
Definition Deserialize (ty : TxnType) (data : list u8) : option Txn :=
  match ty with
  | kCreateNewBlob => CreateNewBlob <$> DeserializeCreateNewBlob data
  | kExtendBlob => ExtendBlob <$> DeserializeExtendBlob data
  | kClearBlob => ClearBlob <$> DeserializeClearBlob data
  | kDelBlob => DelBlob <$> DeserializeDelBlob data
  | kCreateTag => CreateTag <$> DeserializeCreateTag data
  | kDelTag => DelTag <$> DeserializeDelTag data
  | kSetBlobTransform => SetBlobTransform <$> DeserializeSetBlobTransform data
  | kExtendReplica => ExtendReplica <$> DeserializeExtendReplica data
  end.

(** ** Values in the range of their fields *)

Definition is_u32 (z : Z) : Prop := 0 <= z < 2 ^ 32.
Definition is_u64 (z : Z) : Prop := 0 <= z < 2 ^ 64.
Definition is_name (s : list u8) : Prop := Z.of_nat (length s) < 2 ^ 32.

Definition block_ok (b : TxnExtendBlobBlock) : Prop :=
  is_u32 (tb_bdev_major b) /\ is_u32 (tb_bdev_minor b) /\ length (tb_target_query b) = query_size /\
  is_u64 (tb_target_offset b) /\ is_u64 (tb_size b).
Definition blocks_ok (bs : list TxnExtendBlobBlock) : Prop := Z.of_nat (length bs) < 2 ^ 32 /\ Forall block_ok bs.
Definition ref_ok (r : TxnBlobRef) : Prop := is_u32 (tx_tag_major r) /\ is_u32 (tx_tag_minor r) /\ is_name (tx_blob_name r).
Definition tag_ok (t : TxnTag) : Prop := is_name (tt_tag_name t) /\ is_u32 (tt_tag_major t) /\ is_u32 (tt_tag_minor t).

Definition fields_ok (t : Txn) : Prop :=
  match t with
  | CreateNewBlob t => ref_ok (cb_ref t) /\ is_u32 (cb_score t)
  | ExtendBlob t => ref_ok (xb_ref t) /\ blocks_ok (xb_new_blocks t)
  | ClearBlob r | DelBlob r => ref_ok r
  | CreateTag t | DelTag t => tag_ok t
  | SetBlobTransform t => ref_ok (sx_ref t) /\ is_u32 (sx_transform_flags t)
  | ExtendReplica t =>
      ref_ok (xr_ref t) /\ is_u32 (xr_replica t) /\ is_name (xr_replica_name t) /\ is_u32 (xr_score t) /\
      is_u32 (xr_flags t) /\ is_u32 (xr_transform_flags t) /\ is_u32 (xr_min_score t) /\ blocks_ok (xr_new_blocks t)
  end.

(** A record whose payload fits its 32-bit size field. *)
Definition txn_ok (t : Txn) : Prop := fields_ok t /\ Z.of_nat (length (txn_payload t)) < 2 ^ 32.

(** ** Reading back what was written *)

Lemma ReadU32_app z rest : is_u32 z -> ReadU32 (le_bytes 4 z ++ rest) = Some (z, rest).
Proof using. intros Hz. by apply get_le_app. Qed.
Lemma ReadU64_app z rest : is_u64 z -> ReadU64 (le_bytes 8 z ++ rest) = Some (z, rest).
Proof using. intros Hz. by apply get_le_app. Qed.
Lemma ReadFloat_app z rest : is_u32 z -> ReadFloat (le_bytes 4 z ++ rest) = Some (z, rest).
Proof using. intros Hz. by apply get_le_app. Qed.

Lemma u32_length (s : list u8) : is_name s -> u32 (Z.of_nat (length s)) = Z.of_nat (length s).
Proof using. unfold is_name. intros H. apply u32_small. lia. Qed.

Lemma ReadString_app s rest :
  is_name s -> ReadString (le_bytes 4 (u32 (Z.of_nat (length s))) ++ s ++ rest) = Some (s, rest).
Proof using.
  intros Hs. unfold ReadString. rewrite ReadU32_app by apply u32_range. cbn [mbind option_bind].
  rewrite u32_length by done. rewrite Nat2Z.id. by apply get_bytes_app.
Qed.

Definition block_bytes (b : TxnExtendBlobBlock) : list u8 :=
  le_bytes 4 (tb_bdev_major b) ++ le_bytes 4 (tb_bdev_minor b) ++ tb_target_query b ++
  le_bytes 8 (tb_target_offset b) ++ le_bytes 8 (tb_size b).

Lemma write_block_app buf b : write_block buf b = buf ++ block_bytes b.
Proof using. unfold write_block, block_bytes, WriteU64, WriteRaw, WriteU32. by rewrite <- !app_assoc. Qed.

Definition blocks_bytes (bs : list TxnExtendBlobBlock) : list u8 :=
  le_bytes 4 (u32 (Z.of_nat (length bs))) ++ concat (map block_bytes bs).

Lemma write_blocks_app buf bs : write_blocks buf bs = buf ++ blocks_bytes bs.
Proof using.
  unfold write_blocks, blocks_bytes, WriteU32. rewrite app_assoc. generalize (buf ++ le_bytes 4 (u32 (Z.of_nat (length bs)))).
  induction bs as [|b bs IH]; intros buf'; cbn [fold_left map concat]; [by rewrite app_nil_r|].
  by rewrite IH, write_block_app, <- app_assoc.
Qed.

Lemma read_block_app b rest : block_ok b -> read_block (block_bytes b ++ rest) = Some (b, rest).
Proof using.
  intros (H1 & H2 & H3 & H4 & H5). unfold read_block, block_bytes. rewrite <- !app_assoc.
  do 2 (rewrite ReadU32_app by done; cbn [mbind option_bind]). rewrite get_bytes_app by done. cbn [mbind option_bind].
  do 2 (rewrite ReadU64_app by done; cbn [mbind option_bind]). by destruct b.
Qed.

Lemma read_blocks_app bs rest : blocks_ok bs -> read_blocks (blocks_bytes bs ++ rest) = Some (bs, rest).
Proof using.
  intros [Hn Hbs]. unfold read_blocks, blocks_bytes. rewrite <- app_assoc, ReadU32_app by apply u32_range.
  cbn [mbind option_bind]. rewrite u32_small by lia. rewrite Nat2Z.id. clear Hn.
  induction Hbs as [|b bs Hb Hbs IH]; [done|]. cbn [length map concat read_n_blocks]. rewrite <- app_assoc, read_block_app by done.
  cbn [mbind option_bind]. rewrite IH. done.
Qed.

Definition ref_bytes (r : TxnBlobRef) : list u8 :=
  le_bytes 4 (tx_tag_major r) ++ le_bytes 4 (tx_tag_minor r) ++
  le_bytes 4 (u32 (Z.of_nat (length (tx_blob_name r)))) ++ tx_blob_name r.

Lemma write_ref_eq r : write_ref r = ref_bytes r.
Proof using. unfold write_ref, ref_bytes, WriteString, WriteU32. cbn [app]. by rewrite <- !app_assoc. Qed.

Lemma read_ref_app r rest : ref_ok r -> read_ref (ref_bytes r ++ rest) = Some (r, rest).
Proof using.
  intros (H1 & H2 & H3). unfold read_ref, ref_bytes. rewrite <- !app_assoc.
  do 2 (rewrite ReadU32_app by done; cbn [mbind option_bind]). rewrite ReadString_app by done. by destruct r.
Qed.

Lemma read_tag_payload t : tag_ok t -> read_tag (payload_Tag t) = Some t.
Proof using.
  intros (H1 & H2 & H3). unfold read_tag, payload_Tag, WriteString, WriteU32. cbn [app]. rewrite <- !app_assoc.
  rewrite ReadString_app by done. cbn [mbind option_bind]. rewrite ReadU32_app by done. cbn [mbind option_bind].
  rewrite <- (app_nil_r (le_bytes 4 (tt_tag_minor t))), ReadU32_app by done. by destruct t.
Qed.

Lemma Deserialize_payload t : fields_ok t -> Deserialize (txn_type t) (txn_payload t) = Some t.
Proof using.
  destruct t as [t|t|t|t|t|t|t|t]; cbn [fields_ok txn_type txn_payload Deserialize].
  - intros [Hr Hs]. unfold DeserializeCreateNewBlob, payload_CreateNewBlob, WriteFloat. rewrite write_ref_eq, read_ref_app by done.
    cbn [mbind option_bind]. rewrite <- (app_nil_r (le_bytes 4 _)), ReadFloat_app by done. by destruct t.
  - intros [Hr Hb]. unfold DeserializeExtendBlob, payload_ExtendBlob. rewrite write_blocks_app, write_ref_eq, read_ref_app by done.
    cbn [mbind option_bind]. rewrite <- (app_nil_r (blocks_bytes _)), read_blocks_app by done. by destruct t.
  - intros Hr. unfold DeserializeClearBlob. by rewrite write_ref_eq, <- (app_nil_r (ref_bytes _)), read_ref_app.
  - intros Hr. unfold DeserializeDelBlob. by rewrite write_ref_eq, <- (app_nil_r (ref_bytes _)), read_ref_app.
  - intros Ht. unfold DeserializeCreateTag. by rewrite read_tag_payload.
  - intros Ht. unfold DeserializeDelTag. by rewrite read_tag_payload.
  - intros [Hr Hs]. unfold DeserializeSetBlobTransform, payload_SetBlobTransform, WriteU32. rewrite write_ref_eq, read_ref_app by done.
    cbn [mbind option_bind]. rewrite <- (app_nil_r (le_bytes 4 _)), ReadU32_app by done. by destruct t.
  - intros (Hr & H1 & H2 & H3 & H4 & H5 & H6 & Hb). unfold DeserializeExtendReplica, payload_ExtendReplica.
    rewrite write_blocks_app, write_ref_eq. unfold WriteString, WriteFloat, WriteU32. rewrite <- !app_assoc, read_ref_app by done.
    cbn [mbind option_bind]. rewrite ReadU32_app by done. cbn [mbind option_bind]. rewrite ReadString_app by done.
    cbn [mbind option_bind]. rewrite ReadFloat_app by done. cbn [mbind option_bind].
    do 2 (rewrite ReadU32_app by done; cbn [mbind option_bind]). rewrite ReadFloat_app by done. cbn [mbind option_bind].
    rewrite <- (app_nil_r (blocks_bytes _)), read_blocks_app by done. by destruct t.
Qed.

(** * The records of a log *)

Definition txn_record (t : Txn) : Z * list u8 := (TxnType_to_u8 (txn_type t), txn_payload t).
Definition txn_bytes (t : Txn) : list u8 := record_bytes (TxnType_to_u8 (txn_type t)) (txn_payload t).
Definition txns_bytes (ts : list Txn) : list u8 := concat (map txn_bytes ts).

Lemma TxnType_to_u8_range ty : 0 <= TxnType_to_u8 ty < 256 ^ Z.of_nat 1.
Proof using. destruct ty; cbn; lia. Qed.

Lemma txn_bytes_eq t :
  txn_ok t -> txn_bytes t = le_bytes 1 (TxnType_to_u8 (txn_type t)) ++ le_bytes 4 (Z.of_nat (length (txn_payload t))) ++ txn_payload t.
Proof using.
  intros [_ Hn]. unfold txn_bytes, record_bytes. rewrite u32_small by lia. rewrite Nat2Z.id. by rewrite take_ge by lia.
Qed.

Lemma load_loop_nil fuel : load_loop fuel [] = [].
Proof using. by destruct fuel. Qed.

(** A torn record is not loaded. *)
Lemma load_loop_torn fuel t k : txn_ok t -> (k < length (txn_bytes t))%nat -> load_loop fuel (take k (txn_bytes t)) = [].
Proof using.
  intros Ht Hk. destruct fuel as [|fuel]; [done|]. rewrite txn_bytes_eq in * by done. rewrite !length_app, !length_le_bytes in Hk.
  cbn [load_loop]. destruct (decide (k < 1)%nat) as [H1|H1].
  { rewrite get_le_short; [done|]. rewrite length_take. lia. }
  rewrite take_app_ge, length_le_bytes by (rewrite length_le_bytes; lia). rewrite get_le_app by apply TxnType_to_u8_range.
  destruct (decide (k < 5)%nat) as [H5|H5].
  { rewrite get_le_short; [done|]. rewrite length_take. lia. }
  rewrite take_app_ge, length_le_bytes by (rewrite length_le_bytes; lia). rewrite get_le_app by (destruct Ht as [_ Ht]; cbn; lia).
  rewrite Nat2Z.id, get_bytes_short; [done|]. rewrite length_take. lia.
Qed.

Lemma load_loop_records fuel ts tail :
  Forall txn_ok ts -> (length (txns_bytes ts ++ tail) <= fuel)%nat -> (forall fuel, load_loop fuel tail = []) ->
  load_loop fuel (txns_bytes ts ++ tail) = map txn_record ts.
Proof using.
  intros Hok. revert fuel. induction Hok as [|t ts Ht Hok IH]; intros fuel Hf Htail; [apply Htail|].
  unfold txns_bytes in *. cbn [map concat] in *. rewrite <- app_assoc in *. rewrite txn_bytes_eq in * by done.
  rewrite <- !app_assoc in *. rewrite !length_app, !length_le_bytes in Hf. destruct fuel as [|fuel]; [lia|]. cbn [load_loop].
  rewrite get_le_app by apply TxnType_to_u8_range. rewrite get_le_app by (destruct Ht as [_ Ht]; cbn; lia).
  rewrite Nat2Z.id, get_bytes_app by done. rewrite IH; [done| |done]. rewrite length_app. lia.
Qed.

(** Logging a list of transactions. *)
Lemma Log_all l ts :
  tl_open l = true ->
  fold_left Log ts l = mkTransactionLog true (tl_capacity l) (tl_pending l ++ txns_bytes ts) (tl_file l).
Proof using.
  revert l. induction ts as [|t ts IH]; intros l Ho; cbn [fold_left].
  - cbn. rewrite app_nil_r. destruct l. cbn in *. by subst.
  - rewrite IH by (unfold Log, WriteRecord; by rewrite Ho). unfold Log, WriteRecord. rewrite Ho.
    cbn [tl_capacity tl_pending tl_file]. unfold txns_bytes. cbn [map concat]. by rewrite <- app_assoc.
Qed.
End Deserialize.

(** * Properties *)

(** A crash: the file keeps some prefix of the pending bytes. *)
Definition crash (l : TransactionLog) (n : nat) : TransactionLog :=
  mkTransactionLog false (tl_capacity l) [] (Some (default [] (tl_file l) ++ take n (tl_pending l))).

(** C24. What is logged is what is replayed. Transactions logged to a fresh log
    and synced, followed by others that are still in the stream's buffer when
    the process dies, are loaded back in order: all the synced ones and exactly
    those of the others whose bytes reached the file whole. Each loaded payload
    deserializes to its transaction, without a read past its end. *)
Theorem transaction_log_roundtrip (query_size : nat) (capacity : Z) (synced pending : list Txn) (n : nat) :
  Forall (txn_ok query_size) (synced ++ pending) ->
  let l := fold_left Log pending (Sync (fold_left Log synced (Open (mkTransactionLog false 0 [] None) capacity true))) in
  exists j, Load (crash l n) = map txn_record (synced ++ take j pending) /\
    (length (txns_bytes (take j pending)) <= n)%nat /\
    (forall t, pending !! j = Some t -> n < length (txns_bytes (take j pending)) + length (txn_bytes t))%nat /\
    Forall (fun t => Deserialize query_size (txn_type t) (txn_payload t) = Some t) (synced ++ take j pending).
Proof.
  intros Hok l. pose proof Hok as [Hs Hp]%Forall_app.
  assert (crash l n = mkTransactionLog false capacity [] (Some (txns_bytes synced ++ take n (txns_bytes pending)))) as ->.
  { unfold l. rewrite (Log_all (Open _ _ _) synced) by done. cbn [Open tl_capacity tl_pending tl_file Sync tl_open default app].
    rewrite Log_all by done. done. }
  destruct (take_concat_map txn_bytes pending n) as (j & Hj & Hm & E & Hlt). exists j.
  unfold Load. cbn [tl_file]. fold (txns_bytes pending) in E. rewrite E, app_assoc.
  assert (txns_bytes synced ++ concat (map txn_bytes (take j pending)) = txns_bytes (synced ++ take j pending)) as ->
    by (unfold txns_bytes; by rewrite map_app, concat_app).
  split; [|split; [exact Hm|split]].
  - apply (load_loop_records query_size).
    + apply Forall_app_2; [done|by apply Forall_take].
    + lia.
    + intros fuel. destruct (pending !! j) as [t|] eqn:Et; [|apply load_loop_nil].
      apply (load_loop_torn query_size); [|by apply Hlt]. rewrite Forall_lookup in Hp. by apply (Hp j).
  - intros t Ht. specialize (Hlt t Ht). unfold txns_bytes. lia.
  - eapply Forall_impl; [apply Forall_app_2; [exact Hs|by apply Forall_take]|]. intros t [Ht _]. by apply Deserialize_payload.
Qed.

Definition example_name : list u8 := [Byte.x62; Byte.x30].
Definition example_synced : list Txn :=
  [CreateTag (mkTxnTag example_name 1 2); CreateNewBlob (mkTxnCreateNewBlob (mkBlobRef 1 2 example_name) 0)].
Definition example_pending : list Txn :=
  [ExtendBlob (mkTxnExtendBlob (mkBlobRef 1 2 example_name) [mkTxnBlock 7 1 (replicate 4 Byte.x01) 4096 100]);
   DelBlob (mkBlobRef 1 2 example_name)].

Lemma example_txns_ok : Forall (txn_ok 4) (example_synced ++ example_pending).
Proof.
  repeat (apply Forall_cons; split; [split; [cbn; unfold ref_ok, blocks_ok, tag_ok, is_u32, is_u64, is_name; cbn; repeat split;
    try lia; repeat constructor; cbn; unfold is_u32, is_u64; cbn; lia|vm_compute; reflexivity]|]).
  apply Forall_nil_2.
Qed.

Lemma transaction_log_roundtrip_witness :
  exists j, Load (crash (fold_left Log example_pending (Sync (fold_left Log example_synced
                   (Open (mkTransactionLog false 0 [] None) 4096 true)))) 60) =
    map txn_record (example_synced ++ take j example_pending) /\ j = 1%nat.
Proof.
  destruct (transaction_log_roundtrip 4 4096 example_synced example_pending 60 example_txns_ok) as (j & E & Hm & Hlt & _).
  exists j. split; [exact E|]. destruct j as [|[|j]].
  - specialize (Hlt _ eq_refl). vm_compute in Hlt. lia.
  - reflexivity.
  - assert (60 < length (txns_bytes (take 2 example_pending)))%nat as Hb by (vm_compute; lia).
    assert (take (S (S j)) example_pending = take 2 example_pending) as Ht by (by destruct j).
    rewrite Ht in Hm. lia.
Defined.

(** Opening for append keeps a torn record, so the records logged after a
    restart follow it and are not loaded by the next one. *)
Theorem append_after_torn_record_is_lost :
  let t1 := ClearBlob (mkBlobRef 1 2 example_name) in
  let t2 := DelBlob (mkBlobRef 1 2 example_name) in
  let l := crash (fold_left Log [t1; t1] (Open (mkTransactionLog false 0 [] None) 0 true)) 30 in
  Load l = [txn_record t1] /\
  let l' := Sync (Log (Open l 0 true) t2) in
  tl_pending l' = [] /\ ~ txn_record t2 ∈ Load l'.
Proof.
  split; [vm_compute; reflexivity|]. split; [vm_compute; reflexivity|].
  apply (bool_decide_unpack _). vm_compute. exact I.
Qed.
