(* ===== verification/BlobMeta.v ===== *)
(** The metadata of the context transfer engine
    ([context-transfer-engine/core/include/clio_cte/core/core_tasks.h], and the
    maps of [core_runtime.h]): tags, blobs, blocks and replicas, and the keys
    blobs are stored under.

    Strings are [list u8]; a float or a signed 32-bit field is its 32-bit
    pattern; ids are pairs of 32-bit values. Time stamps, access counts, lock
    words, node registrations and placement generations are left out: no
    operation modelled here reads them. *)
From Stdlib Require Import ZArith Lia Strings.String Strings.Byte.
From coqutil Require Import Byte.
From stdpp Require Import base list gmap.
From S2P Require Import Prelude Text.

Open Scope Z_scope.

Abbreviation TagId := (Z * Z)%type.

(** * Blob keys *)

Definition valid_id (id : TagId) : Prop := 0 <= fst id < 2 ^ 32 /\ 0 <= snd id < 2 ^ 32.

Definition tag_prefix (id : TagId) : str := to_string (fst id) ++ dot :: to_string (snd id) ++ [dot].
Definition composite_key (id : TagId) (blob_name : str) : str := tag_prefix id ++ blob_name.
(** [key.compare(0, tag_prefix.length(), tag_prefix) == 0] *)
Definition has_tag_prefix (id : TagId) (key : str) : bool := bool_decide (tag_prefix id `prefix_of` key).

Lemma tag_prefix_app_inj id id' a b :
  valid_id id -> valid_id id' -> tag_prefix id ++ a = tag_prefix id' ++ b -> id = id' /\ a = b.
Proof.
  intros [H1 H2] [H3 H4] E. unfold tag_prefix in E. rewrite <- !app_assoc in E. cbn in E. rewrite <- !app_assoc in E. cbn in E.
  apply split_at_sep in E as [E1 E]; [|apply to_string_no; [done|lia]..].
  apply split_at_sep in E as [E2 E]; [|apply to_string_no; [done|lia]..].
  apply to_string_inj in E1; [|lia..]. apply to_string_inj in E2; [|lia..].
  split; [|done]. destruct id, id'. cbn in *. by subst.
Qed.

Lemma has_tag_prefix_key id id' name :
  valid_id id -> valid_id id' -> has_tag_prefix id (composite_key id' name) = true <-> id = id'.
Proof.
  intros H H'. unfold has_tag_prefix, composite_key. rewrite bool_decide_eq_true. split.
  - intros [k E]. symmetry in E. by apply tag_prefix_app_inj in E as [-> _].
  - intros ->. by exists name.
Qed.

Lemma has_tag_prefix_Some id key : has_tag_prefix id key = true <-> exists name, key = composite_key id name.
Proof. unfold has_tag_prefix, composite_key. rewrite bool_decide_eq_true. unfold prefix. naive_solver. Qed.

(** * Data *)

Record BlobBlock := mkBlobBlock {
  bb_pool : TagId; bb_query : str; bb_offset : Z; bb_size : Z; bb_capacity : Z
}.

(** The four-argument constructor: no spare capacity. *)
Definition BlobBlock_new (pool : TagId) (query : str) (offset size : Z) : BlobBlock :=
  mkBlobBlock pool query offset size size.

Record Replica := mkReplica {
  rp_name : str; rp_blocks : list BlobBlock; rp_total : Z; rp_score : Z; rp_flags : Z;
  rp_transform : Z; rp_min_score : Z
}.

(** The bits of [-1.0f]. *)
Definition float_minus_one : Z := 3212836864.
Definition Replica_new : Replica := mkReplica [] [] 0 float_minus_one 0 0 float_minus_one.

Definition REPLICA_CACHE : Z := 4.
Definition kCacheReplica : Z := -2.

Record BlobInfo := mkBlobInfo {
  bi_name : str; bi_blocks : list BlobBlock; bi_replicas : list Replica; bi_score : Z; bi_transform : Z;
  bi_lib : Z; bi_preset : Z; bi_trace : Z; bi_total : Z
}.

Definition BlobInfo_new : BlobInfo := mkBlobInfo [] [] [] 0 0 0 2 0 0.

Record TagInfo := mkTagInfo { ti_name : str; ti_id : TagId; ti_total : Z; ti_aliases : list str }.
Definition TagInfo_new (name : str) (id : TagId) : TagInfo := mkTagInfo name id 0 [].

Definition kBlobTransformed : Z := 1.
Definition kBlobTransformCompressed : Z := 2.

(** * Operations on a blob *)

Definition set_transform (b : BlobInfo) (f : Z) : BlobInfo :=
  mkBlobInfo (bi_name b) (bi_blocks b) (bi_replicas b) (bi_score b) f (bi_lib b) (bi_preset b) (bi_trace b) (bi_total b).
Definition set_replicas (b : BlobInfo) (rs : list Replica) : BlobInfo :=
  mkBlobInfo (bi_name b) (bi_blocks b) rs (bi_score b) (bi_transform b) (bi_lib b) (bi_preset b) (bi_trace b) (bi_total b).

Definition MarkTransformed (b : BlobInfo) (kind : Z) : BlobInfo :=
  set_transform b (Z.lor (bi_transform b) (Z.lor kBlobTransformed kind)).
Definition IsTransformed (b : BlobInfo) : bool := negb (bi_transform b =? 0).

Definition ComputeTotalSizeSlow (blocks : list BlobBlock) : Z :=
  fold_left (fun total blk => u64 (total + bb_size blk)) blocks 0.

(** The block list and the maintained size. *)
Definition set_blocks (b : BlobInfo) (blocks : list BlobBlock) : BlobInfo :=
  mkBlobInfo (bi_name b) blocks (bi_replicas b) (bi_score b) (bi_transform b) (bi_lib b) (bi_preset b) (bi_trace b)
    (ComputeTotalSizeSlow blocks).

(** [GetReplica(idx, create)]: the list after the call and the slot it names. *)
Definition GetReplica (rs : list Replica) (idx : Z) (create : bool) : list Replica * option nat :=
  if idx <=? 0 then (rs, None)
  else if (length rs <? Z.to_nat idx)%nat
  then if create then (rs ++ replicate (Z.to_nat idx - length rs) Replica_new, Some (Z.to_nat idx - 1)%nat)
       else (rs, None)
  else (rs, Some (Z.to_nat idx - 1)%nat).

Definition is_cache (r : Replica) : bool := negb (Z.land (rp_flags r) REPLICA_CACHE =? 0).

(** The first [i] with [replicas_[i].flags_ & REPLICA_CACHE], as a 1-based index. *)
Fixpoint find_cache (i : Z) (rs : list Replica) : option Z :=
  match rs with
  | [] => None
  | r :: rs => if is_cache r then Some (i + 1) else find_cache (i + 1) rs
  end.

Definition CacheReplicaIndex (rs : list Replica) (create : bool) : list Replica * Z :=
  match find_cache 0 rs with
  | Some i => (rs, i)
  | None =>
      if create
      then (rs ++ [mkReplica [] [] 0 float_minus_one REPLICA_CACHE 0 float_minus_one], Z.of_nat (length rs) + 1)
      else (rs, 0)
  end.

(** The loop over the slots: the 1-based index of the [sel]-th one that is not
    a cache, or how many there are. *)
Fixpoint find_sel (i seen sel : Z) (rs : list Replica) : Z + Z :=
  match rs with
  | [] => inr seen
  | r :: rs =>
      if is_cache r then find_sel (i + 1) seen sel rs
      else if seen + 1 =? sel then inl (i + 1) else find_sel (i + 1) (seen + 1) sel rs
  end.

Definition ResolveReplicaSel (rs : list Replica) (sel : Z) (create : bool) : list Replica * Z :=
  if sel =? kCacheReplica then CacheReplicaIndex rs create
  else if sel <=? 0 then (rs, 0)
  else match find_sel 0 0 sel rs with
       | inl i => (rs, i)
       | inr seen =>
           if create
           then let rs := rs ++ replicate (Z.to_nat (sel - seen)) Replica_new in (rs, Z.of_nat (length rs))
           else (rs, 0)
       end.

(** * The maps of the runtime *)

Record Meta := mkMeta {
  mt_names : gmap str TagId;
  mt_tags : gmap TagId TagInfo;
  mt_blobs : gmap str BlobInfo;
  mt_next_minor : Z
}.

Definition set_names (m : Meta) n : Meta := mkMeta n (mt_tags m) (mt_blobs m) (mt_next_minor m).
Definition set_tags (m : Meta) t : Meta := mkMeta (mt_names m) t (mt_blobs m) (mt_next_minor m).
Definition set_blobs (m : Meta) b : Meta := mkMeta (mt_names m) (mt_tags m) b (mt_next_minor m).
Definition set_next (m : Meta) n : Meta := mkMeta (mt_names m) (mt_tags m) (mt_blobs m) n.

Definition put_tag (m : Meta) (id : TagId) (t : TagInfo) : Meta :=
  mkMeta (<[ti_name t := id]> (mt_names m)) (<[id := t]> (mt_tags m)) (mt_blobs m) (mt_next_minor m).
Definition put_blob (m : Meta) (key : str) (b : BlobInfo) : Meta := set_blobs m (<[key := b]> (mt_blobs m)).

Definition empty_meta (next_minor : Z) : Meta := mkMeta ∅ ∅ ∅ next_minor.

(** * Filling a map entry by entry *)

Section FoldInsert.
Context {K : Type} `{Countable K} {A V : Type} (key : A -> K) (val : A -> V).

Definition fold_insert (m : gmap K V) (l : list A) : gmap K V := foldl (fun m x => <[key x := val x]> m) m l.

Lemma lookup_fold_insert m l k v :
  NoDup (key <$> l) ->
  fold_insert m l !! k = Some v <->
  (exists x, x ∈ l /\ key x = k /\ val x = v) \/ (k ∉ key <$> l /\ m !! k = Some v).
Proof using.
  revert m. induction l as [|x l IH]; intros m Hnd; cbn.
  - split; [|set_solver]. intros Hm. right. split; [apply not_elem_of_nil|done].
  - apply NoDup_cons in Hnd as [Hx Hnd]. rewrite IH by done. destruct (decide (key x = k)) as [<-|Hk].
    + rewrite lookup_insert_eq. split.
      * intros [(y & Hy & E & _)|[_ [= <-]]]; [|left; exists x; set_solver].
        destruct Hx. rewrite <- E. by apply list_elem_of_fmap_2.
      * intros [(y & [->|Hy]%elem_of_cons & E & <-)|[Hn _]]; [by right| |set_solver].
        destruct Hx. rewrite <- E. by apply list_elem_of_fmap_2.
    + rewrite lookup_insert_ne by done. set_solver.
Qed.

(** The entries of a map, in any order. *)
Lemma fold_insert_map_to_list (M : gmap K V) (l : list A) :
  NoDup (key <$> l) -> (forall k v, M !! k = Some v <-> exists x, x ∈ l /\ key x = k /\ val x = v) ->
  fold_insert ∅ l = M.
Proof using.
  intros Hnd HM. apply map_eq. intros k. apply option_eq. intros v. rewrite lookup_fold_insert, HM by done.
  rewrite lookup_empty. naive_solver.
Qed.
End FoldInsert.

(** * Replica selectors *)

Lemma find_cache_Some i rs j :
  find_cache i rs = Some j -> exists k r, j = i + Z.of_nat k + 1 /\ rs !! k = Some r /\ is_cache r = true /\
    (forall k' r', (k' < k)%nat -> rs !! k' = Some r' -> is_cache r' = false).
Proof.
  revert i. induction rs as [|r rs IH]; intros i; cbn [find_cache]; [done|]. destruct (is_cache r) eqn:E.
  - intros [= <-]. exists 0%nat, r. split; [lia|]. repeat split; [done|lia].
  - intros (k & r' & -> & Hk & Hc & Hb)%IH. exists (S k), r'. split; [lia|]. split; [done|]. split; [done|].
    intros [|k'] r'' Hk'; cbn; [by intros [= <-]|]. apply Hb. lia.
Qed.

Lemma find_cache_None i rs : find_cache i rs = None -> Forall (fun r => is_cache r = false) rs.
Proof.
  revert i. induction rs as [|r rs IH]; intros i; cbn [find_cache]; [constructor|]. destruct (is_cache r) eqn:E; [done|].
  intros H. constructor; [done|by apply (IH (i + 1))].
Qed.

(** The slots of a replica list that are addressed by number. *)
Definition numbered (rs : list Replica) : list Replica := filter (fun r => is_cache r = false) rs.

Lemma find_sel_inl i seen sel rs j :
  seen < sel -> find_sel i seen sel rs = inl j ->
  exists k r, j = i + Z.of_nat k + 1 /\ rs !! k = Some r /\ is_cache r = false /\
    seen + Z.of_nat (length (numbered (take k rs))) + 1 = sel.
Proof.
  revert i seen. induction rs as [|r rs IH]; intros i seen Hs; cbn [find_sel]; [done|]. destruct (is_cache r) eqn:E.
  - intros H. destruct (IH _ _ Hs H) as (k & r' & -> & Hk & Hc & Hn). exists (S k), r'. split; [lia|]. split; [done|]. split; [done|].
    unfold numbered in *. cbn [take]. rewrite filter_cons, decide_False by congruence. lia.
  - destruct (Z.eqb_spec (seen + 1) sel) as [Heq|Hne].
    + intros [= <-]. exists 0%nat, r. split; [lia|]. split; [done|]. split; [done|]. change (length (numbered (take 0 (r :: rs)))) with 0%nat. lia.
    + intros H. destruct (IH (i + 1) (seen + 1) ltac:(lia) H) as (k & r' & -> & Hk & Hc & Hn). exists (S k), r'.
      split; [lia|]. split; [done|]. split; [done|].
      unfold numbered in *. cbn [take]. rewrite filter_cons, decide_True by done. cbn [length]. lia.
Qed.

Lemma find_sel_inr i seen sel rs n :
  seen < sel -> find_sel i seen sel rs = inr n -> n = seen + Z.of_nat (length (numbered rs)) /\ n < sel.
Proof.
  revert i seen. induction rs as [|r rs IH]; intros i seen Hs; cbn [find_sel].
  - intros [= <-]. change (length (numbered [])) with 0%nat. lia.
  - unfold numbered in *. rewrite filter_cons. destruct (is_cache r) eqn:E.
    + rewrite decide_False by congruence. by apply IH.
    + rewrite decide_True by done. destruct (Z.eqb_spec (seen + 1) sel) as [|Hne]; [done|]. intros H.
      destruct (IH (i + 1) (seen + 1) ltac:(lia) H) as [-> Hn]. cbn [length]. lia.
Qed.

Lemma numbered_app a b : numbered (a ++ b) = numbered a ++ numbered b.
Proof. apply filter_app. Qed.

Lemma numbered_new n : numbered (replicate n Replica_new) = replicate n Replica_new.
Proof. unfold numbered. apply filter_all, Forall_replicate. done. Qed.

Lemma numbered_lt rs i j r :
  rs !! i = Some r -> is_cache r = false -> (i < j)%nat -> (length (numbered (take i rs)) < length (numbered (take j rs)))%nat.
Proof.
  intros Hr Hc Hij. assert (take j rs = take i rs ++ r :: take (j - S i) (drop (S i) rs)) as ->.
  { replace j with (S i + (j - S i))%nat at 1 by lia. rewrite <- (take_drop_middle _ _ _ Hr) at 1.
    assert (length (take i rs) = i) as Hl by (apply lookup_lt_Some in Hr; rewrite length_take; lia).
    rewrite take_app_ge by lia. rewrite Hl. by replace (S i + (j - S i) - i)%nat with (S (j - S i)) by lia. }
  rewrite numbered_app. unfold numbered at 3. rewrite filter_cons, decide_True by done. rewrite length_app. cbn [length]. lia.
Qed.

Lemma numbered_inj rs i j r r' :
  rs !! i = Some r -> is_cache r = false -> rs !! j = Some r' -> is_cache r' = false ->
  length (numbered (take i rs)) = length (numbered (take j rs)) -> i = j.
Proof.
  intros Hi Hci Hj Hcj E. destruct (lt_eq_lt_dec i j) as [[H|H]|H]; [|done|].
  - pose proof (numbered_lt _ _ _ _ Hi Hci H). lia.
  - pose proof (numbered_lt _ _ _ _ Hj Hcj H). lia.
Qed.

(** Where a selector leads. [kCacheReplica] leads to the first cache slot, and
    to a new one at the end when a write finds none; [N > 0] leads to the [N]-th
    slot that is not a cache, and a write creates the slots up to it. So a
    number never leads to the cache copy, two selectors never lead to the same
    slot, a write keeps all slots before it where they are, and a later read of
    the same selector finds the slot the write got. *)
Theorem ResolveReplicaSel_selects (rs rs' : list Replica) (sel idx : Z) (create : bool) :
  ResolveReplicaSel rs sel create = (rs', idx) ->
  (exists new, rs' = rs ++ new) /\ (create = false -> rs' = rs) /\
  (idx = 0 /\ (create = true -> sel <= 0 /\ sel <> kCacheReplica) \/
   exists i r, idx = Z.of_nat i + 1 /\ rs' !! i = Some r /\
     if sel =? kCacheReplica then is_cache r = true /\ Forall (fun r => is_cache r = false) (take i rs')
     else is_cache r = false /\ Z.of_nat (length (numbered (take i rs'))) + 1 = sel) /\
  ResolveReplicaSel rs' sel false = (rs', idx).
Proof.
  unfold ResolveReplicaSel. destruct (Z.eqb_spec sel kCacheReplica) as [->|Hk].
  - unfold CacheReplicaIndex. destruct (find_cache 0 rs) as [j|] eqn:E.
    + intros [= <- <-]. split; [exists []; by rewrite app_nil_r|]. split; [done|].
      rewrite E. split; [|done]. right. destruct (find_cache_Some _ _ _ E) as (k & r & -> & Hr & Hc & Hb). exists k, r.
      split; [lia|]. split; [done|]. split; [done|]. apply Forall_lookup. intros i r' Hi.
      apply lookup_take_Some in Hi as [Hi Hlt]. by apply (Hb i).
    + destruct create; [|intros [= <- <-]; split; [exists []; by rewrite app_nil_r|]; split; [done|]; rewrite E; split; [by left|done]].
      intros [= <- <-]. apply find_cache_None in E. set (c := mkReplica _ _ _ _ _ _ _).
      split; [by exists [c]|]. split; [done|]. split.
      * right. exists (length rs), c. split; [done|]. split; [by rewrite lookup_app_r, Nat.sub_diag|]. split; [done|].
        by rewrite take_app_length.
      * assert (forall i, find_cache i (rs ++ [c]) = Some (i + Z.of_nat (length rs) + 1)) as ->; [|f_equal; lia].
        induction E as [|r rs Hr _ IH]; intros i; cbn [app find_cache length]; [f_equal; cbn; lia|]. rewrite Hr, IH. f_equal. lia.
  - destruct (Z.leb_spec sel 0) as [H0|H0].
    { intros [= <- <-]. split; [exists []; by rewrite app_nil_r|]. split; [done|]. split; [by left|done]. }
    destruct (find_sel 0 0 sel rs) as [j|n] eqn:E.
    + intros [= <- <-]. split; [exists []; by rewrite app_nil_r|]. split; [done|]. rewrite E. split; [|done].
      right. destruct (find_sel_inl _ _ _ _ _ H0 E) as (k & r & -> & Hr & Hc & Hn). exists k, r. split; [lia|]. split; [done|]. split; [done|lia].
    + destruct create; [|intros [= <- <-]; split; [exists []; by rewrite app_nil_r|]; split; [done|]; rewrite E; split; [by left|done]].
      destruct (find_sel_inr _ _ _ _ _ H0 E) as [-> Hn]. rewrite Z.add_0_l in *. intros [= <- <-].
      set (k := Z.to_nat (sel - Z.of_nat (length (numbered rs)))).
      set (rs' := rs ++ replicate k Replica_new). set (i := (length rs + (k - 1))%nat).
      assert (rs' !! i = Some Replica_new) as Hlast.
      { unfold rs', i. rewrite lookup_app_r, Nat.add_comm, Nat.add_sub by lia. apply lookup_replicate. split; [done|unfold k; lia]. }
      assert (Z.of_nat (length (numbered (take i rs'))) + 1 = sel) as Hcount.
      { unfold rs', i. rewrite take_app_add, take_replicate, numbered_app, numbered_new, length_app, length_replicate. unfold k. lia. }
      assert (Z.of_nat (length rs') = Z.of_nat i + 1) as -> by (unfold rs', i; rewrite length_app, length_replicate; unfold k; lia).
      split; [by eexists|]. split; [done|]. split; [right; by exists i, Replica_new|].
      destruct (find_sel 0 0 sel rs') as [j|n'] eqn:E'.
      * f_equal. destruct (find_sel_inl _ _ _ _ _ H0 E') as (i' & r & -> & Hr & Hc & Hi).
        rewrite (numbered_inj rs' i' i r Replica_new Hr Hc Hlast eq_refl); lia.
      * destruct (find_sel_inr _ _ _ _ _ H0 E') as [-> Hlt].
        pose proof (numbered_lt rs' i (length rs') _ Hlast eq_refl (lookup_lt_Some _ _ _ Hlast)) as Hn'.
        rewrite firstn_all in Hn'. lia.
Qed.

Lemma ResolveReplicaSel_selects_witness :
  let cache := mkReplica [] [] 0 0 REPLICA_CACHE 0 0 in
  ResolveReplicaSel [Replica_new; cache] 2 true = ([Replica_new; cache; Replica_new], 3) /\
  ResolveReplicaSel [Replica_new; cache; Replica_new] 2 false = ([Replica_new; cache; Replica_new], 3).
Proof.
  intros cache. split; [reflexivity|].
  by destruct (ResolveReplicaSel_selects [Replica_new; cache] [Replica_new; cache; Replica_new] 2 3 true eq_refl) as (_ & _ & _ & H).
Defined.
