(* ===== verification/TagNames.v ===== *)
(** Tag names of the context transfer engine
    ([context-transfer-engine/core/src/core_runtime.cc], the helpers at the top
    of the file).

    An absolute path is a chain of tags: the root is stored as ["/"], a child
    under its parent's id as ["$tagid{<major>.<minor>}/<leaf>"]. Any other name
    is stored as it is. *)
From Stdlib Require Import ZArith Lia Strings.String Strings.Byte.
From coqutil Require Import Byte.
From stdpp Require Import base list gmap.
From S2P Require Import Prelude Text BlobMeta.

Open Scope Z_scope.

(** * Literals of a regular expression *)

(** The metacharacters that [EscapeRegexLiteral] escapes; all but the slash
    stop [TryParseAnchoredLiteral]. *)
Definition is_meta (c : u8) : bool :=
  bool_decide (c ∈ lit ".[](){}+*?\^$|").
Definition backslash : u8 := Byte.x5c.
Definition slash : u8 := Byte.x2f.

Definition EscapeRegexLiteral (s : str) : str :=
  concat (map (fun c => if is_meta c || bool_decide (c = slash) then [backslash; c] else [c]) s).

(** The loop over [re[i .. size - 1)]: the body without the closing anchor. *)
Fixpoint parse_literal (body : str) : option str :=
  match body with
  | [] => Some []
  | c :: body =>
      if decide (c = backslash)
      then match body with
           | [] => None
           | d :: body => (d ::.) <$> parse_literal body
           end
      else if is_meta c then None
      else (c ::.) <$> parse_literal body
  end.

Definition TryParseAnchoredLiteral (re : str) : option str :=
  match re with
  | first :: rest =>
      match rest with
      | [] => None
      | _ => if decide (first = Byte.x5e /\ last rest = Some Byte.x24) then parse_literal (removelast rest) else None
      end
  | [] => None
  end.

(** * Names *)

Definition kTagRefPrefix : str := lit "$tagid{".
Definition rbrace : u8 := Byte.x7d.

Definition IsHierPath (name : str) : bool :=
  match name with c :: _ => bool_decide (c = slash) | [] => false end.

Definition MakeRelativeName (parent : TagId) (leaf : str) : str :=
  kTagRefPrefix ++ to_string (fst parent) ++ dot :: to_string (snd parent) ++ rbrace :: slash :: leaf.

Definition not_slash (c : u8) : bool := negb (bool_decide (c = slash)).
Definition is_slash (c : u8) : bool := bool_decide (c = slash).

(** The loop of [SplitPathComponents]; a string of [n] bytes has fuel [n]. *)
Fixpoint split_loop (fuel : nat) (s : str) : list str :=
  match fuel, s with
  | O, _ | _, [] => []
  | S fuel, _ =>
      let '(_, s) := span is_slash s in
      let '(comp, s) := span not_slash s in
      (match comp with [] => [] | _ => [comp] end) ++ split_loop fuel s
  end.
Definition SplitPathComponents (path : str) : list str := split_loop (length path) path.

(** The parent and the leaf of a reference; [None] is [false]. *)
Definition ParseTagRef (stored : str) : option (TagId * str) :=
  let plen := length kTagRefPrefix in
  if negb (bool_decide (take plen stored = kTagRefPrefix)) then None
  else
    let s := drop plen stored in
    match find_char rbrace s with
    | None => None
    | Some close =>
        let id_str := take close s in
        match find_char dot id_str with
        | None => None
        | Some d =>
            major ← stoul (take d id_str);
            minor ← stoul (drop (S d) id_str);
            let suffix := drop (S close) s in
            Some ((u32 major, u32 minor), match suffix with c :: rest => if decide (c = slash) then rest else suffix | [] => [] end)
        end
    end.

Definition JoinPath (parent_full leaf : str) : str :=
  if decide (parent_full = [slash]) then slash :: leaf else parent_full ++ slash :: leaf.

(** The [parent_out] loop: ["/" + c0 + "/" + c1 + ...]. *)
Definition join_components (comps : list str) : str :=
  match comps with
  | [] => [slash]
  | c :: cs => fold_left (fun p c => p ++ slash :: c) cs (slash :: c)
  end.

Definition SplitParentLeaf (path : str) : option (str * str) :=
  let comps := SplitPathComponents path in
  match last comps with
  | None => None
  | Some leaf => Some (join_components (removelast comps), leaf)
  end.

(** * Facts *)

Lemma ParseTagRef_parts a b major minor leaf :
  rbrace ∉ a -> rbrace ∉ b -> dot ∉ a -> stoul a = Some major -> stoul b = Some minor ->
  ParseTagRef (kTagRefPrefix ++ a ++ dot :: b ++ rbrace :: slash :: leaf) = Some ((u32 major, u32 minor), leaf).
Proof.
  intros Ha Hb Hda Ea Eb. unfold ParseTagRef. rewrite take_app_length, drop_app_length, bool_decide_eq_true_2 by done.
  cbn [negb]. replace (a ++ dot :: b ++ rbrace :: slash :: leaf) with ((a ++ dot :: b) ++ rbrace :: slash :: leaf) by (by rewrite <- app_assoc).
  rewrite find_char_app.
  2: { rewrite elem_of_app, elem_of_cons. intros [Hi|[Hi|Hi]]; [exact (Ha Hi)|discriminate Hi|exact (Hb Hi)]. }
  rewrite take_app_length, find_char_app by exact Hda. rewrite take_app_length.
  replace (drop (S (length a)) (a ++ dot :: b)) with b by (by rewrite <- (Nat.add_1_r), drop_app_add).
  rewrite Ea, Eb. cbn [mbind option_bind]. rewrite <- Nat.add_1_r, drop_app_add. cbn [drop]. by rewrite decide_True.
Qed.

Lemma ParseTagRef_MakeRelativeName parent leaf :
  valid_id parent -> ParseTagRef (MakeRelativeName parent leaf) = Some (parent, leaf).
Proof.
  intros [H1 H2]. unfold MakeRelativeName.
  assert (0 <= fst parent < 2 ^ 64) as H1' by lia. assert (0 <= snd parent < 2 ^ 64) as H2' by lia.
  rewrite (ParseTagRef_parts _ _ (fst parent) (snd parent) leaf (to_string_no rbrace _ eq_refl H1') (to_string_no rbrace _ eq_refl H2')
    (to_string_no dot _ eq_refl H1') (stoul_to_string _ H1') (stoul_to_string _ H2')).
  rewrite !u32_small by lia. by destruct parent.
Qed.

Lemma MakeRelativeName_inj p q a b : valid_id p -> valid_id q -> MakeRelativeName p a = MakeRelativeName q b -> p = q /\ a = b.
Proof.
  intros Hp Hq E. apply (f_equal ParseTagRef) in E. rewrite !ParseTagRef_MakeRelativeName in E by done. by injection E as -> ->.
Qed.

Lemma ParseTagRef_root : ParseTagRef [slash] = None.
Proof. reflexivity. Qed.

(** ** Components *)

(** A path component: not empty, no slash. *)
Definition component (c : str) : Prop := c <> [] /\ Forall (fun x => not_slash x = true) c.

Lemma not_slash_is c : not_slash c = negb (is_slash c).
Proof. done. Qed.

Lemma split_loop_components fuel s : Forall component (split_loop fuel s).
Proof.
  revert s. induction fuel as [|fuel IH]; intros s; cbn [split_loop]; [constructor|]. destruct s as [|x s]; [constructor|].
  destruct (span is_slash (x :: s)) as [sl s1]. pose proof (span_spec not_slash s1) as Hs. destruct (span not_slash s1) as [comp s2].
  destruct Hs as (_ & Hc & _). apply Forall_app_2; [|apply IH]. destruct comp; [constructor|]. constructor; [by split|constructor].
Qed.

Lemma SplitPathComponents_components path : Forall component (SplitPathComponents path).
Proof. apply split_loop_components. Qed.

(** A path with these components. *)
Definition path_of (comps : list str) : str := concat (map (fun c => slash :: c) comps).

Lemma split_loop_path fuel comps :
  Forall component comps -> (length (path_of comps) <= fuel)%nat -> split_loop fuel (path_of comps) = comps.
Proof.
  intros H. revert fuel. induction H as [|c comps [Hne Hc] Hcs IH]; intros fuel Hf; [by destruct fuel|].
  unfold path_of in *. cbn [map concat] in *. rewrite length_app in Hf. cbn [length] in Hf. destruct fuel as [|fuel]; [lia|].
  cbn [split_loop app]. set (rest := concat _) in *.
  assert (span is_slash (slash :: c ++ rest) = ([slash], c ++ rest)) as ->.
  { apply (span_app is_slash [slash]); [by repeat constructor|]. destruct c as [|x c]; [done|]. cbn.
    apply Forall_cons in Hc as [Hx _]. rewrite not_slash_is in Hx. by apply negb_true_iff. }
  rewrite span_app; [|done|].
  - destruct c; [done|]. rewrite IH by (cbn in Hf; lia). done.
  - subst rest. by destruct comps.
Qed.

Lemma SplitPathComponents_path comps : Forall component comps -> SplitPathComponents (path_of comps) = comps.
Proof. intros H. by apply split_loop_path. Qed.

Lemma join_components_path comps : comps <> [] -> join_components comps = path_of comps.
Proof.
  destruct comps as [|c cs]; [done|]. intros _. unfold join_components, path_of. cbn [map concat].
  generalize (slash :: c). induction cs as [|d cs IH]; intros p; cbn [fold_left map concat]; [by rewrite app_nil_r|].
  rewrite IH. by rewrite <- app_assoc.
Qed.

Lemma SplitPathComponents_root : SplitPathComponents [slash] = [].
Proof. reflexivity. Qed.

Lemma SplitPathComponents_join comps : Forall component comps -> SplitPathComponents (join_components comps) = comps.
Proof.
  intros H. destruct comps as [|c cs]; [reflexivity|]. rewrite join_components_path by done. by apply SplitPathComponents_path.
Qed.

(** * Regular expressions of a literal *)

Lemma parse_literal_escape s : parse_literal (EscapeRegexLiteral s) = Some s.
Proof.
  induction s as [|c s IH]; [done|]. unfold EscapeRegexLiteral in *. cbn [map concat].
  destruct (is_meta c || bool_decide (c = slash)) eqn:E; cbn [app parse_literal].
  - rewrite decide_True by done. by rewrite IH.
  - apply orb_false_iff in E as [E _]. rewrite decide_False by (intros ->; by vm_compute in E). by rewrite E, IH.
Qed.

(** The strings that the body of a pattern matches, for the patterns without
    metacharacters: a byte matches itself, a backslash and a byte that byte. *)
Inductive literal_matches : str -> str -> Prop :=
| match_nil : literal_matches [] []
| match_escape d body s : literal_matches body s -> literal_matches (backslash :: d :: body) (d :: s)
| match_char c body s : c <> backslash -> is_meta c = false -> literal_matches body s -> literal_matches (c :: body) (c :: s).

Lemma parse_literal_sound n body s : (length body <= n)%nat -> parse_literal body = Some s -> literal_matches body s.
Proof.
  revert body s. induction n as [|n IH]; intros body s Hn H.
  - destruct body; cbn in Hn; [|lia]. injection H as <-. constructor.
  - destruct body as [|c body]; cbn in Hn, H; [injection H as <-; constructor|]. destruct (decide (c = backslash)) as [->|Hc].
    + destruct body as [|d body]; [done|]. apply fmap_Some in H as (s' & H & ->). constructor. apply IH; [cbn in Hn; lia|done].
    + destruct (is_meta c) eqn:Em; [done|]. apply fmap_Some in H as (s' & H & ->). constructor; [done|done|]. apply IH; [lia|done].
Qed.

Lemma parse_literal_complete body s : literal_matches body s -> parse_literal body = Some s.
Proof.
  induction 1 as [|d body s _ IH|c body s Hc Hm _ IH]; cbn; [done|by rewrite IH|]. rewrite decide_False by done. by rewrite Hm, IH.
Qed.

(** * Properties *)

(** An exact query. The pattern built for a name, anchored on both sides, is
    recognised as a literal and decodes to that name; and any pattern that is
    recognised is an anchored one whose body matches the decoded string and no
    other, so answering it from the name table is right. *)
Theorem TryParseAnchoredLiteral_escape (s re lit_ : str) :
  TryParseAnchoredLiteral (Byte.x5e :: EscapeRegexLiteral s ++ [Byte.x24]) = Some s /\
  (TryParseAnchoredLiteral re = Some lit_ ->
   exists body, re = Byte.x5e :: body ++ [Byte.x24] /\ forall t, literal_matches body t <-> t = lit_).
Proof.
  split.
  - unfold TryParseAnchoredLiteral. destruct (EscapeRegexLiteral s ++ [Byte.x24]) eqn:E; [by destruct (EscapeRegexLiteral s)|].
    rewrite <- E, decide_True by (by rewrite last_snoc). rewrite removelast_last. apply parse_literal_escape.
  - unfold TryParseAnchoredLiteral. destruct re as [|first rest]; [done|]. destruct rest as [|x rest']; [done|].
    set (rest := x :: rest'). destruct (decide _) as [[-> Hl]|]; [|done]. intros H. exists (removelast rest).
    apply last_Some in Hl as [body Hb]. rewrite Hb, removelast_last in *. split; [done|]. intros t. split.
    + intros Ht. apply parse_literal_complete in Ht. congruence.
    + intros ->. by apply (parse_literal_sound (length body)).
Qed.

Lemma TryParseAnchoredLiteral_escape_witness :
  exists body, lit "^a\.b$" = Byte.x5e :: body ++ [Byte.x24] /\ forall t, literal_matches body t <-> t = lit "a.b".
Proof. apply (TryParseAnchoredLiteral_escape [] (lit "^a\.b$") (lit "a.b")). reflexivity. Defined.
