(* ===== verification/TagNamespace.v ===== *)
(** The tag namespace of the context transfer engine
    ([context-transfer-engine/core/src/core_runtime.cc]: [GetOrCreateTag],
    [RenameTag], [GetOrCreateTagAlias], [DelTag], [GetTagName] and their
    helpers).

    [tag_name_to_id_] binds stored names, [tag_id_to_info_] holds the tags under
    their ids. The search index [tag_search_], which mirrors the absolute names
    for regular-expression queries, is not modelled, nor are time stamps. *)
From Stdlib Require Import ZArith Lia Strings.String.
From stdpp Require Import base list gmap relations.
From S2P Require Import Prelude Text BlobMeta TagNames.

Open Scope Z_scope.

Definition null_id : TagId := (0, 0).
Definition IsNull (id : TagId) : bool := bool_decide (id = null_id).

Definition root_name : str := [slash].

Section Namespace.
(** The node id of this container, the major of the ids it generates. *)
Context (node : Z).

(** * Creating and resolving *)

Definition GenerateNewTagId (m : Meta) : TagId * Meta :=
  ((node, mt_next_minor m), set_next m (u32 (mt_next_minor m + 1))).

Definition GetOrAssignTagId (m : Meta) (tag_name : str) (preferred_id : TagId) : Meta * TagId :=
  match mt_names m !! tag_name with
  | Some id => (m, id)
  | None =>
      let '(id, m) := if negb (IsNull preferred_id) && bool_decide (mt_tags m !! preferred_id = None)
                      then (preferred_id, m) else GenerateNewTagId m in
      (put_tag m id (TagInfo_new tag_name id), id)
  end.

(** The name at [depth] is resolved with fuel [257 - depth]: past depth 256 it
    is returned as it is. *)
Fixpoint resolve_name (fuel : nat) (m : Meta) (stored_name : str) : str :=
  match fuel with
  | O => stored_name
  | S fuel =>
      match ParseTagRef stored_name with
      | None => stored_name
      | Some (parent, leaf) =>
          match mt_tags m !! parent with
          | None => slash :: leaf
          | Some pinfo => JoinPath (resolve_name fuel m (ti_name pinfo)) leaf
          end
      end
  end.
Definition ResolveTagName (m : Meta) (stored_name : str) : str := resolve_name 257 m stored_name.

(** The walk from a tag along relative keys. *)
Fixpoint walk (m : Meta) (cur : TagId) (comps : list str) : option TagId :=
  match comps with
  | [] => Some cur
  | c :: cs => child ← mt_names m !! MakeRelativeName cur c; walk m child cs
  end.

Definition ResolvePathToIdLocked (m : Meta) (path : str) : TagId :=
  match mt_names m !! root_name with
  | None => null_id
  | Some root => default null_id (walk m root (SplitPathComponents path))
  end.

Fixpoint chain_loop (m : Meta) (parent : TagId) (comps : list str) (preferred_id : TagId) : Meta * TagId :=
  match comps with
  | [] => (m, parent)
  | c :: cs =>
      let '(m, id) := GetOrAssignTagId m (MakeRelativeName parent c) (match cs with [] => preferred_id | _ => null_id end) in
      chain_loop m id cs preferred_id
  end.

Definition GetOrCreateTagChain (m : Meta) (name : str) (preferred_id : TagId) : Meta * TagId :=
  if negb (IsHierPath name) then GetOrAssignTagId m name preferred_id
  else
    let '(m, parent) := GetOrAssignTagId m root_name null_id in
    chain_loop m parent (SplitPathComponents name) preferred_id.

Definition GetOrCreateTag (m : Meta) (tag_name : str) (preferred_id : TagId) : Meta * TagId :=
  if negb (fst preferred_id =? 0) && negb (fst preferred_id =? node)
  then (match mt_names m !! tag_name with
        | None => set_names m (<[tag_name := preferred_id]> (mt_names m))
        | Some _ => m
        end, preferred_id)
  else GetOrCreateTagChain m tag_name preferred_id.

(** [GetTagName]: [None] is not found. *)
Definition GetTagName (m : Meta) (id : TagId) : option str := (fun info => ResolveTagName m (ti_name info)) <$> mt_tags m !! id.

(** The exact branch of [TagQuery]; [None] when the pattern is not a literal. *)
Definition TagQuery_exact (m : Meta) (tag_regex : str) : option TagId :=
  exact ← TryParseAnchoredLiteral tag_regex;
  Some (if IsHierPath exact then ResolvePathToIdLocked m exact else default null_id (mt_names m !! exact)).

(** * Renaming and aliases *)

Definition set_tag_name (t : TagInfo) (name : str) : TagInfo := mkTagInfo name (ti_id t) (ti_total t) (ti_aliases t).
Definition set_aliases (t : TagInfo) (aliases : list str) : TagInfo := mkTagInfo (ti_name t) (ti_id t) (ti_total t) aliases.

(** The hierarchical move, from the destination's parent on. *)
Definition rename_move (m : Meta) (tag_id : TagId) (old_name new_rel : str) : Z * TagId * Meta :=
  let tag_id := if IsNull tag_id then ResolvePathToIdLocked m old_name else tag_id in
  if IsNull tag_id then (1, tag_id, m)
  else
    match mt_tags m !! tag_id with
    | None => (1, tag_id, m)
    | Some info =>
        let cur_rel := ti_name info in
        let names := if decide (cur_rel = new_rel) then mt_names m else delete cur_rel (mt_names m) in
        (0, tag_id, mkMeta (<[new_rel := tag_id]> names) (<[tag_id := set_tag_name info new_rel]> (mt_tags m))
                      (mt_blobs m) (mt_next_minor m))
    end.

Definition rename_flat (m : Meta) (tag_id : TagId) (old_name new_name : str) : Z * TagId * Meta :=
  let '(tag_id, m) := match mt_names m !! old_name with
                      | Some bound => (if IsNull tag_id then bound else tag_id,
                                       set_names m (<[new_name := bound]> (delete old_name (mt_names m))))
                      | None => (tag_id, m)
                      end in
  (0, tag_id, if IsNull tag_id then m
              else match mt_tags m !! tag_id with
                   | Some info => set_tags m (<[tag_id := set_tag_name info new_name]> (mt_tags m))
                   | None => m
                   end).

Definition RenameTag (m : Meta) (tag_id : TagId) (old_name new_name : str) : Z * TagId * Meta :=
  match old_name, new_name with
  | [], _ | _, [] => (1, tag_id, m)
  | _, _ =>
      if decide (old_name = new_name) then (0, tag_id, m)
      else if IsHierPath old_name && IsHierPath new_name then
        match SplitParentLeaf new_name with
        | None => (1, tag_id, m)
        | Some (new_parent_path, new_leaf) =>
            let '(m, new_parent_id) := GetOrCreateTagChain m new_parent_path null_id in
            rename_move m tag_id old_name (MakeRelativeName new_parent_id new_leaf)
        end
      else rename_flat m tag_id old_name new_name
  end.

(** The return code, whether the target was found, the id, and the maps. *)
Definition GetOrCreateTagAlias (m : Meta) (tag_id : TagId) (existing_name alias_name : str) : Z * bool * TagId * Meta :=
  match alias_name with
  | [] => (1, false, tag_id, m)
  | _ =>
      let tag_id :=
        if IsNull tag_id && negb (bool_decide (existing_name = [])) then
          let id := if IsHierPath existing_name then ResolvePathToIdLocked m existing_name else tag_id in
          if IsNull id then default id (mt_names m !! existing_name) else id
        else tag_id in
      if IsNull tag_id || bool_decide (mt_tags m !! tag_id = None) then (0, false, null_id, m)
      else
        let keyed := if IsHierPath alias_name then
                       match SplitParentLeaf alias_name with
                       | None => None
                       | Some (parent_path, leaf) =>
                           let '(m, parent_id) := GetOrCreateTagChain m parent_path null_id in
                           Some (m, MakeRelativeName parent_id leaf)
                       end
                     else Some (m, alias_name) in
        match keyed with
        | None => (1, true, tag_id, m)
        | Some (m, alias_key) =>
            match mt_names m !! alias_key with
            | Some existing => (0, true, existing, m)
            | None =>
                let m := set_names m (<[alias_key := tag_id]> (mt_names m)) in
                match mt_tags m !! tag_id with
                | Some info =>
                    let present := bool_decide (alias_key = ti_name info) || bool_decide (alias_key ∈ ti_aliases info) in
                    (0, true, tag_id,
                     if present then m else set_tags m (<[tag_id := set_aliases info (ti_aliases info ++ [alias_key])]> (mt_tags m)))
                | None => (0, true, tag_id, m)
                end
            end
        end
  end.

(** * Deleting *)

(** Step 1: the tag, and the key the request resolves through. *)
Definition resolve_request (m : Meta) (tag_id : TagId) (tag_name : str) : option (TagId * str) :=
  if negb (IsNull tag_id) then Some (tag_id, [])
  else match tag_name with
       | [] => None
       | _ =>
           let hier :=
             if IsHierPath tag_name then
               if decide (tag_name = root_name) then (fun r => (r, root_name)) <$> mt_names m !! root_name
               else '(parent_path, leaf) ← SplitParentLeaf tag_name;
                    let parent_id := ResolvePathToIdLocked m parent_path in
                    if IsNull parent_id then None
                    else (fun p => (p, MakeRelativeName parent_id leaf)) <$> mt_names m !! MakeRelativeName parent_id leaf
             else None in
           match hier with
           | Some (id, key) => if IsNull id then (fun p => (p, tag_name)) <$> mt_names m !! tag_name else Some (id, key)
           | None => (fun p => (p, tag_name)) <$> mt_names m !! tag_name
           end
       end.

(** The loop that collects the ancestors below the root; [None] is out of fuel. *)
Fixpoint ancestor_chain (fuel : nat) (m : Meta) (root_id : TagId) (name : str) : option (list TagId) :=
  match fuel with
  | O => None
  | S fuel =>
      match ParseTagRef name with
      | None => Some []
      | Some (parent, _) =>
          if negb (IsNull root_id) && bool_decide (parent = root_id) then Some []
          else match mt_tags m !! parent with
               | None => Some []
               | Some pinfo => (parent ::.) <$> ancestor_chain fuel m root_id (ti_name pinfo)
               end
      end
  end.

Definition parent_of (t : TagInfo) : option TagId := fst <$> ParseTagRef (ti_name t).

Definition children (m : Meta) (cur : TagId) : list TagId :=
  map fst (filter (fun it => parent_of (snd it) = Some cur) (map_to_list (mt_tags m))).

(** The [while (!frontier.empty())] loop; the list's head is the back. *)
Fixpoint subtree_loop (fuel : nat) (m : Meta) (frontier : list TagId) : option (list TagId) :=
  match frontier with
  | [] => Some []
  | cur :: rest =>
      match fuel with
      | O => None
      | S fuel => (cur ::.) <$> subtree_loop fuel m (reverse (children m cur) ++ rest)
      end
  end.

(** The bytes of a key up to its second dot. *)
Definition compound_prefix (key : str) : str :=
  match find_char dot key with
  | None => []
  | Some d1 => match find_char dot (drop (S d1) key) with
               | None => []
               | Some d2 => take (S d1 + S d2) key
               end
  end.

Definition erase_tag (m : Meta) (id : TagId) : Meta :=
  match mt_tags m !! id with
  | None => m
  | Some info =>
      let names := match ti_name info with [] => mt_names m | _ => delete (ti_name info) (mt_names m) end in
      mkMeta (fold_left (fun names a => delete a names) (ti_aliases info) names) (delete id (mt_tags m)) (mt_blobs m) (mt_next_minor m)
  end.

(** Steps 4 to 7: the blobs of the tags, then the tags. *)
Definition delete_tags (m : Meta) (to_delete : list TagId) : Meta :=
  let m := set_blobs m (filter (fun kb => compound_prefix (fst kb) ∉ map tag_prefix to_delete) (mt_blobs m)) in
  fold_left erase_tag to_delete m.

(** Step 7b: the ancestors left without children, bottom-up. *)
Fixpoint prune (m : Meta) (chain : list TagId) : Meta :=
  match chain with
  | [] => m
  | anc :: rest =>
      match mt_tags m !! anc with
      | None => prune m rest
      | Some _ => match children m anc with
                  | [] => prune (erase_tag m anc) rest
                  | _ => m
                  end
      end
  end.

(** [DelTag]: the return code and the maps; [None] is out of fuel. *)
Definition DelTag (fuel : nat) (m : Meta) (tag_id : TagId) (tag_name : str) (posix_unlink : bool) : option (Z * Meta) :=
  match resolve_request m tag_id tag_name with
  | None => Some (1, m)
  | Some (tag_id, resolved_key) =>
      match mt_tags m !! tag_id with
      | None => Some (1, m)
      | Some info =>
          let canonical := ti_name info in
          chain ← ancestor_chain fuel m (default null_id (mt_names m !! root_name)) canonical;
          if negb (bool_decide (resolved_key = [])) && negb (bool_decide (resolved_key = canonical)) then
            let m := set_names m (delete resolved_key (mt_names m)) in
            Some (0, set_tags m (<[tag_id := set_aliases info (match list_find (fun a => a = resolved_key) (ti_aliases info) with
                                                             | Some (i, _) => delete i (ti_aliases info)
                                                             | None => ti_aliases info
                                                             end)]> (mt_tags m)))
          else
            match (if posix_unlink && negb (bool_decide (resolved_key = [])) then ti_aliases info else []) with
            | new_canonical :: aliases =>
                let m := set_names m (delete resolved_key (mt_names m)) in
                Some (0, set_tags m (<[tag_id := set_aliases (set_tag_name info new_canonical) aliases]> (mt_tags m)))
            | [] =>
                to_delete ← subtree_loop fuel m [tag_id];
                Some (0, prune (delete_tags m to_delete) chain)
            end
      end
  end.

(** * Well-formed namespaces *)

(** Every tag is under its id and bound under its canonical name; ids fit their
    fields, and those of this node were generated. *)
Record wf_ns (m : Meta) : Prop := {
  ns_tag : forall id t, mt_tags m !! id = Some t -> ti_id t = id /\ mt_names m !! ti_name t = Some id;
  ns_name : forall n id, mt_names m !! n = Some id -> valid_id id /\ id <> null_id;
  ns_fresh : forall id, is_Some (mt_tags m !! id) -> fst id = node -> snd id < mt_next_minor m;
  ns_next : 0 < mt_next_minor m < 2 ^ 32
}.

(** No aliases and no bindings to other nodes' tags: every binding is canonical,
    and no tag is named by the empty string. *)
Record plain (m : Meta) : Prop := {
  pl_name : forall n id, mt_names m !! n = Some id -> exists t, mt_tags m !! id = Some t /\ ti_name t = n;
  pl_aliases : forall id t, mt_tags m !! id = Some t -> ti_aliases t = [];
  pl_empty : mt_names m !! [] = None
}.

(** Every reference names a tag, and following references goes down. *)
Definition tree (m : Meta) : Prop :=
  exists depth : TagId -> nat, forall id t p, mt_tags m !! id = Some t -> parent_of t = Some p ->
    is_Some (mt_tags m !! p) /\ (depth p < depth id)%nat.

(** An id a caller may prefer: none, or one this node will not generate. *)
Definition preferred_ok (m : Meta) (id : TagId) : Prop :=
  id = null_id \/ valid_id id /\ (fst id = node -> snd id < mt_next_minor m).

(** [m'] has the bindings and tags of [m] and its blobs. *)
Record extends (m m' : Meta) : Prop := {
  ex_names : mt_names m ⊆ mt_names m';
  ex_tags : mt_tags m ⊆ mt_tags m';
  ex_blobs : mt_blobs m' = mt_blobs m;
  ex_next : mt_next_minor m <= mt_next_minor m'
}.

#[global] Instance extends_preorder : PreOrder extends.
Proof using.
  split; [intros m; by split|]. intros m1 m2 m3 [H1 H2 H3 H4] [H5 H6 H7 H8]. split; [by trans (mt_names m2)|by trans (mt_tags m2)|congruence|lia].
Qed.

Lemma preferred_ok_extends m m' id : mt_next_minor m <= mt_next_minor m' -> preferred_ok m id -> preferred_ok m' id.
Proof using. intros H [->|[H1 H2]]; [by left|right]. split; [done|]. intros E. specialize (H2 E). lia. Qed.

Context (node_range : 0 <= node < 2 ^ 32).

(** A new tag. *)
Lemma put_tag_wf m id name :
  wf_ns m -> valid_id id -> id <> null_id -> mt_tags m !! id = None -> mt_names m !! name = None ->
  (fst id = node -> snd id < mt_next_minor m) ->
  let m' := put_tag m id (TagInfo_new name id) in
  wf_ns m' /\ extends m m' /\ (name <> [] -> plain m -> plain m').
Proof using.
  intros [Ht Hn Hf Hx] Hv Hnull Hid Hname Hfr m'. split; [|split].
  - split.
    + intros id' t Hid'. unfold m' in *. cbn in *. apply lookup_insert_Some in Hid' as [[<- <-]|[Hne Hid']].
      * cbn. by rewrite lookup_insert_eq.
      * destruct (Ht _ _ Hid') as [E1 E2]. split; [done|]. rewrite lookup_insert_ne; [done|congruence].
    + intros n id' Hn'. unfold m' in *. cbn in *. apply lookup_insert_Some in Hn' as [[<- <-]|[_ Hn']]; [done|by apply (Hn n)].
    + intros id' [t Hid'] E. unfold m' in *. cbn in *. apply lookup_insert_Some in Hid' as [[<- _]|[_ Hid']]; [by apply Hfr|].
      apply Hf; [by eexists|done].
    + done.
  - split; cbn; [by apply insert_subseteq|by apply insert_subseteq|done|lia].
  - intros Hname' [Hp Ha He]. unfold m' in *. split; cbn.
    + intros n id' Hn'. apply lookup_insert_Some in Hn' as [[<- <-]|[Hne Hn']].
      * exists (TagInfo_new name id). by rewrite lookup_insert_eq.
      * destruct (Hp _ _ Hn') as (t & Ht' & En). exists t. rewrite lookup_insert_ne; [done|congruence].
    + intros id' t Hid'. apply lookup_insert_Some in Hid' as [[<- <-]|[_ Hid']]; [done|by apply (Ha id')].
    + by rewrite lookup_insert_ne.
Qed.

Lemma GetOrAssignTagId_spec m name pref m' id :
  wf_ns m -> preferred_ok m pref -> mt_next_minor m + 1 < 2 ^ 32 ->
  GetOrAssignTagId m name pref = (m', id) ->
  wf_ns m' /\ extends m m' /\ mt_next_minor m' <= mt_next_minor m + 1 /\ mt_names m' !! name = Some id /\ (name <> [] -> plain m -> plain m') /\
  (mt_names m !! name = None -> mt_tags m !! id = None /\ mt_tags m' = <[id := TagInfo_new name id]> (mt_tags m)) /\
  (is_Some (mt_names m !! name) -> m' = m).
Proof using node_range.
  intros Hwf Hp Hx. unfold GetOrAssignTagId. destruct (mt_names m !! name) as [id'|] eqn:E.
  { intros [= <- <-]. split; [done|]. split; [done|]. split; [lia|]. by split. }
  destruct (negb (IsNull pref) && bool_decide (mt_tags m !! pref = None)) eqn:Ep.
  - intros [= <- <-]. apply andb_true_iff in Ep as [Ep1 Ep2]. apply negb_true_iff, bool_decide_eq_false in Ep1.
    apply bool_decide_eq_true in Ep2. destruct Hp as [->|[Hv Hfr]]; [done|].
    destruct (put_tag_wf m pref name Hwf Hv Ep1 Ep2 E Hfr) as (H1 & H2 & H3).
    split; [done|]. split; [done|]. split; [cbn; lia|]. split; [cbn; by rewrite lookup_insert_eq|]. split; [done|].
    split; [done|]. by intros [? ?].
  - intros [= <- <-]. clear Ep Hp. pose proof (ns_next _ Hwf) as Hnx. rewrite u32_small by lia.
    set (m1 := set_next m (mt_next_minor m + 1)).
    assert (mt_tags m !! (node, mt_next_minor m) = None) as Hfree.
    { destruct (mt_tags m !! _) as [t|] eqn:Et; [|done]. pose proof (ns_fresh _ Hwf _ (mk_is_Some _ _ Et) eq_refl). cbn in *. lia. }
    assert (wf_ns m1) as Hwf1.
    { destruct Hwf as [Ht Hn Hf _]. split; [done|done| |cbn; lia]. intros id H Hid. specialize (Hf id H Hid). cbn. lia. }
    destruct (put_tag_wf m1 (node, mt_next_minor m) name Hwf1) as (H1 & H2 & H3).
    + split; cbn; lia.
    + intros [= _ ?]. lia.
    + done.
    + done.
    + cbn. lia.
    + split; [done|]. split; [destruct H2 as [I1 I2 I3 I4]; split; [done|done|done|cbn in *; lia]|].
      split; [cbn; lia|]. split; [cbn; by rewrite lookup_insert_eq|].
      split; [intros Hne [? ? ?]; apply H3; [done|by split]|]. split; [done|]. by intros [? ?].
Qed.

Lemma walk_extends m m' cur comps id : mt_names m ⊆ mt_names m' -> walk m cur comps = Some id -> walk m' cur comps = Some id.
Proof using.
  intros Hs. revert cur. induction comps as [|c cs IH]; intros cur; cbn [walk]; [done|].
  destruct (mt_names m !! MakeRelativeName cur c) as [child|] eqn:E; [|done]. rewrite (lookup_weaken _ _ _ _ E Hs). apply IH.
Qed.

Lemma walk_app m cur a b : walk m cur (a ++ b) = walk m cur a ≫= fun id => walk m id b.
Proof using.
  revert cur. induction a as [|c cs IH]; intros cur; cbn [app walk]; [done|].
  destruct (mt_names m !! MakeRelativeName cur c) as [child|]; [|done]. apply IH.
Qed.

Lemma chain_loop_spec m parent comps pref m' id :
  wf_ns m -> preferred_ok m pref -> mt_next_minor m + Z.of_nat (length comps) < 2 ^ 32 ->
  chain_loop m parent comps pref = (m', id) ->
  wf_ns m' /\ extends m m' /\ mt_next_minor m' <= mt_next_minor m + Z.of_nat (length comps) /\
  walk m' parent comps = Some id /\ (plain m -> plain m').
Proof using node_range.
  revert m parent. induction comps as [|c cs IH]; intros m parent Hwf Hp Hx; cbn [chain_loop length].
  { intros [= <- <-]. split; [done|]. split; [done|]. split; [lia|done]. }
  destruct (GetOrAssignTagId m (MakeRelativeName parent c) _) as [m1 id1] eqn:E1. intros E2.
  destruct (GetOrAssignTagId_spec _ _ _ _ _ Hwf (match cs as l return preferred_ok m (match l with [] => pref | _ => null_id end) with
      [] => Hp | _ => or_introl eq_refl end) ltac:(cbn [length] in Hx; lia) E1) as (W1 & X1 & N1 & B1 & P1 & _).
  cbn [length] in Hx.
  destruct (IH m1 id1 W1 (preferred_ok_extends _ _ _ (ex_next _ _ X1) Hp) ltac:(lia) E2) as (W2 & X2 & N2 & B2 & P2).
  split; [done|]. split; [by trans m1|]. split; [lia|]. split; [|by auto].
  cbn [walk]. rewrite (lookup_weaken _ _ _ _ B1 (ex_names _ _ X2)). exact B2.
Qed.

(** ** Absolute names *)

Lemma parent_of_child p c id total aliases : valid_id p -> parent_of (mkTagInfo (MakeRelativeName p c) id total aliases) = Some p.
Proof using. intros Hp. unfold parent_of. cbn [ti_name]. by rewrite ParseTagRef_MakeRelativeName. Qed.

Lemma JoinPath_components comps c :
  Forall component comps -> JoinPath (join_components comps) c = join_components (comps ++ [c]).
Proof using.
  intros H. destruct comps as [|x cs]; [done|]. rewrite !join_components_path by (done || by destruct cs).
  unfold JoinPath, path_of. rewrite decide_False.
  - rewrite map_app, concat_app. cbn [map concat]. by rewrite app_nil_r.
  - apply Forall_cons in H as [[Hx _] _]. destruct x as [|y x]; [done|]. cbn. by intros [=].
Qed.

(** The walk to a tag spells its absolute name. *)
Lemma resolve_walk m root comps id fuel :
  wf_ns m -> plain m -> mt_names m !! root_name = Some root -> Forall component comps -> (length comps < fuel)%nat ->
  walk m root comps = Some id -> exists t, mt_tags m !! id = Some t /\ resolve_name fuel m (ti_name t) = join_components comps.
Proof using.
  intros Hwf Hp Hroot. revert id fuel. induction comps as [|c cs IH] using rev_ind; intros id fuel Hc Hf Hw.
  - injection Hw as <-. destruct (pl_name _ Hp _ _ Hroot) as (t & Ht & Et). exists t. split; [done|]. destruct fuel as [|fuel]; [cbn in Hf; lia|].
    cbn [resolve_name]. rewrite Et. change root_name with [slash]. by rewrite ParseTagRef_root.
  - apply Forall_app in Hc as [Hcs _]. rewrite length_app in Hf. cbn in Hf. rewrite walk_app in Hw.
    destruct (walk m root cs) as [p|] eqn:Ew; [|done].
    cbn [mbind option_bind walk] in Hw.
    destruct (mt_names m !! MakeRelativeName p c) as [child|] eqn:En; [|discriminate Hw]. injection Hw as ->.
    destruct fuel as [|fuel]; [lia|]. destruct (IH p fuel Hcs ltac:(lia) eq_refl) as (tp & Htp & Er).
    destruct (pl_name _ Hp _ _ En) as (t & Ht & Et). exists t. split; [done|]. cbn [resolve_name]. rewrite Et.
    destruct (ns_tag _ Hwf _ _ Htp) as [_ Hb]. destruct (ns_name _ Hwf _ _ Hb) as [Hv _].
    rewrite ParseTagRef_MakeRelativeName by done. rewrite Htp, Er. by apply JoinPath_components.
Qed.

Lemma ResolvePath_walk m root path id :
  mt_names m !! root_name = Some root -> walk m root (SplitPathComponents path) = Some id -> ResolvePathToIdLocked m path = id.
Proof using. intros Hr Hw. unfold ResolvePathToIdLocked. by rewrite Hr, Hw. Qed.

Lemma GetOrCreateTagChain_spec m path pref m' id :
  wf_ns m -> preferred_ok m pref -> IsHierPath path = true ->
  mt_next_minor m + Z.of_nat (length (SplitPathComponents path)) + 1 < 2 ^ 32 ->
  GetOrCreateTagChain m path pref = (m', id) ->
  wf_ns m' /\ extends m m' /\ (plain m -> plain m') /\
  exists root, mt_names m' !! root_name = Some root /\ walk m' root (SplitPathComponents path) = Some id.
Proof using node_range.
  intros Hwf Hp Hh Hx. unfold GetOrCreateTagChain. rewrite Hh. cbn [negb].
  destruct (GetOrAssignTagId m root_name null_id) as [m1 root] eqn:E1. intros E2.
  destruct (GetOrAssignTagId_spec _ _ _ _ _ Hwf (or_introl eq_refl) ltac:(lia) E1) as (W1 & X1 & N1 & B1 & P1 & _).
  destruct (chain_loop_spec m1 root (SplitPathComponents path) pref m' id W1 (preferred_ok_extends _ _ _ (ex_next _ _ X1) Hp) ltac:(lia) E2) as (W2 & X2 & N2 & B2 & P2).
  split; [done|]. split; [by trans m1|]. split; [by auto|]. exists root. split; [|done].
  by apply (lookup_weaken _ _ _ _ B1 (ex_names _ _ X2)).
Qed.

(** A chain that is there is walked, not created again. *)
Lemma chain_loop_again m parent comps pref id : walk m parent comps = Some id -> chain_loop m parent comps pref = (m, id).
Proof using.
  revert parent. induction comps as [|c cs IH]; intros parent; cbn [walk chain_loop]; [by intros [= <-]|].
  unfold GetOrAssignTagId. destruct (mt_names m !! MakeRelativeName parent c) as [child|] eqn:E; [|done]. apply IH.
Qed.

Lemma GetOrCreateTagChain_again m path pref root id :
  IsHierPath path = true -> mt_names m !! root_name = Some root -> walk m root (SplitPathComponents path) = Some id ->
  GetOrCreateTagChain m path pref = (m, id).
Proof using.
  intros Hh Hr Hw. unfold GetOrCreateTagChain. rewrite Hh. cbn [negb]. unfold GetOrAssignTagId at 1. rewrite Hr.
  by apply chain_loop_again.
Qed.

(** ** Trees *)

Lemma GetOrAssignTagId_tree m name pref m' id :
  wf_ns m -> preferred_ok m pref -> mt_next_minor m + 1 < 2 ^ 32 -> tree m ->
  (forall p, fst <$> ParseTagRef name = Some p -> is_Some (mt_tags m !! p)) ->
  GetOrAssignTagId m name pref = (m', id) -> tree m'.
Proof using node_range.
  intros Hwf Hp Hx [depth Htree] Hpar E. destruct (GetOrAssignTagId_spec _ _ _ _ _ Hwf Hp Hx E) as (_ & _ & _ & _ & _ & Hnew & Hold).
  destruct (mt_names m !! name) eqn:En; [rewrite Hold by (by eexists); by exists depth|]. destruct (Hnew eq_refl) as [Hfree Htags].
  exists (fun x => if decide (x = id) then match fst <$> ParseTagRef name with Some p => S (depth p) | None => 0%nat end else depth x).
  intros x t p Hxt Hpt. rewrite Htags in *. apply lookup_insert_Some in Hxt as [[<- <-]|[Hne Hxt]].
  - unfold parent_of in Hpt. cbn [TagInfo_new ti_name] in Hpt. destruct (Hpar _ Hpt) as [tp Htp].
    assert (p <> id) as Hne by (intros ->; congruence). rewrite lookup_insert_ne by done. split; [by eexists|].
    rewrite decide_False, decide_True by done. rewrite Hpt. lia.
  - destruct (Htree _ _ _ Hxt Hpt) as [[tp Htp] Hd]. assert (p <> id) as Hpne by (intros ->; congruence).
    rewrite lookup_insert_ne by done. split; [by eexists|]. by rewrite !decide_False by done.
Qed.

Lemma chain_loop_tree m parent comps pref m' id :
  wf_ns m -> preferred_ok m pref -> mt_next_minor m + Z.of_nat (length comps) < 2 ^ 32 -> plain m -> tree m ->
  valid_id parent -> is_Some (mt_tags m !! parent) -> chain_loop m parent comps pref = (m', id) -> tree m'.
Proof using node_range.
  revert m parent. induction comps as [|c cs IH]; intros m parent Hwf Hp Hx Hpl Ht Hv Hpar; cbn [chain_loop length]; [by intros [= <- <-]|].
  destruct (GetOrAssignTagId m (MakeRelativeName parent c) _) as [m1 id1] eqn:E1. intros E2. cbn [length] in Hx.
  assert (preferred_ok m (match cs with [] => pref | _ => null_id end)) as Hp' by (destruct cs; [done|by left]).
  destruct (GetOrAssignTagId_spec _ _ _ _ _ Hwf Hp' ltac:(lia) E1) as (W1 & X1 & N1 & B1 & P1 & _).
  assert (plain m1) as Hpl1 by (by apply P1).
  apply (IH m1 id1 W1 (preferred_ok_extends _ _ _ (ex_next _ _ X1) Hp) ltac:(lia) Hpl1); [| | |exact E2].
  - apply (GetOrAssignTagId_tree _ _ _ _ _ Hwf Hp' ltac:(lia) Ht) with (2 := E1).
    intros p. rewrite ParseTagRef_MakeRelativeName by done. by intros [= <-].
  - by apply (ns_name _ W1 _ _ B1).
  - destruct (pl_name _ Hpl1 _ _ B1) as (t & Hid & _). by eexists.
Qed.

Lemma GetOrCreateTagChain_tree m path pref m' id :
  wf_ns m -> preferred_ok m pref -> IsHierPath path = true -> plain m -> tree m ->
  mt_next_minor m + Z.of_nat (length (SplitPathComponents path)) + 1 < 2 ^ 32 ->
  GetOrCreateTagChain m path pref = (m', id) -> tree m'.
Proof using node_range.
  intros Hwf Hp Hh Hpl Ht Hx. unfold GetOrCreateTagChain. rewrite Hh. cbn [negb].
  destruct (GetOrAssignTagId m root_name null_id) as [m1 root] eqn:E1. intros E2.
  destruct (GetOrAssignTagId_spec _ _ _ _ _ Hwf (or_introl eq_refl) ltac:(lia) E1) as (W1 & X1 & N1 & B1 & P1 & _).
  assert (plain m1) as Hpl1 by (by apply P1).
  apply (chain_loop_tree m1 root (SplitPathComponents path) pref m' id W1 (preferred_ok_extends _ _ _ (ex_next _ _ X1) Hp) ltac:(lia) Hpl1);
    [| | |exact E2].
  - apply (GetOrAssignTagId_tree _ _ _ _ _ Hwf (or_introl eq_refl) ltac:(lia) Ht) with (2 := E1). by intros p.
  - by apply (ns_name _ W1 _ _ B1).
  - destruct (pl_name _ Hpl1 _ _ B1) as (t & Hid & _). by eexists.
Qed.

(** * Deleting *)

(** [b] is a child of [a], and a descendant. *)
Definition child (m : Meta) (a b : TagId) : Prop := exists t, mt_tags m !! b = Some t /\ parent_of t = Some a.
Definition desc (m : Meta) : relation TagId := rtc (child m).

Lemma elem_of_children m a b : b ∈ children m a <-> child m a b.
Proof using.
  unfold children, child. rewrite list_elem_of_fmap. split.
  - intros ([b' t] & -> & H). apply list_elem_of_filter in H as [Hp H]. apply elem_of_map_to_list in H. by exists t.
  - intros (t & Ht & Hp). exists (b, t). split; [done|]. apply list_elem_of_filter. by rewrite elem_of_map_to_list.
Qed.

Lemma length_children m a : (length (children m a) <= size (mt_tags m))%nat.
Proof using. unfold children. rewrite length_map, <- length_map_to_list. apply length_filter. Qed.

Lemma subtree_loop_desc fuel m frontier l :
  subtree_loop fuel m frontier = Some l -> forall x, x ∈ l <-> exists f, f ∈ frontier /\ desc m f x.
Proof using.
  revert frontier l. induction fuel as [|fuel IH]; intros frontier l; destruct frontier as [|cur rest]; cbn [subtree_loop]; try done.
  1, 2: intros [= <-] x; split; [by intros ?%elem_of_nil|by intros (f & ?%elem_of_nil & _)].
  intros (l' & Hl & ->)%fmap_Some x. rewrite elem_of_cons, (IH _ _ Hl). split.
  - intros [->|(f & Hf & Hd)]; [exists cur; split; [left|apply rtc_refl]|].
    apply elem_of_app in Hf as [Hf|Hf]; [|exists f; split; [by right|done]].
    rewrite elem_of_reverse, elem_of_children in Hf. exists cur. split; [left|by apply rtc_l with f].
  - intros (f & [->|Hf]%elem_of_cons & Hd).
    + apply rtc_inv in Hd as [<-|(c & Hc & Hd)]; [by left|]. right. exists c. split; [|done]. apply elem_of_app. left.
      by rewrite elem_of_reverse, elem_of_children.
    + right. exists f. split; [|done]. apply elem_of_app. by right.
Qed.

(** Each tag weighs more than its children together. *)
Section Weight.
Context (m : Meta) (depth : TagId -> nat) (D : nat).
Context (depth_child : forall a b, child m a b -> (depth a < depth b)%nat) (depth_bound : forall a, is_Some (mt_tags m !! a) -> (depth a <= D)%nat).

Definition weight (a : TagId) : nat := (size (mt_tags m) + 1) ^ (D - depth a).
Definition weights (l : list TagId) : nat := list_sum (map weight l).

Lemma weights_app a b : weights (a ++ b) = (weights a + weights b)%nat.
Proof using. unfold weights. by rewrite map_app, list_sum_app. Qed.

Lemma weights_le l w : Forall (fun a => (weight a <= w)%nat) l -> (weights l <= length l * w)%nat.
Proof using. unfold weights. induction 1 as [|a l Ha Hl IH]; cbn [map list_sum foldr length Nat.mul]; [done|]. by apply Nat.add_le_mono. Qed.

Lemma children_weight a : is_Some (mt_tags m !! a) -> (weights (reverse (children m a)) < weight a)%nat.
Proof using depth_child depth_bound.
  intros Ha. destruct (children m a) as [|c cs] eqn:E.
  { cbn. unfold weight. pose proof (Nat.pow_nonzero (size (mt_tags m) + 1) (D - depth a) ltac:(lia)). lia. }
  assert (forall x, x ∈ reverse (children m a) -> child m a x) as Hch by (intros x; by rewrite elem_of_reverse, elem_of_children).
  assert (depth a < D)%nat as Hlt.
  { assert (child m a c) as Hc by (apply elem_of_children; rewrite E; left). pose proof (depth_child _ _ Hc).
    destruct Hc as (t & Ht & _). pose proof (depth_bound c (mk_is_Some _ _ Ht)). lia. }
  rewrite <- E. clear E c cs. pose proof (length_children m a) as Hlen.
  assert (weights (reverse (children m a)) <= length (reverse (children m a)) * (size (mt_tags m) + 1) ^ (D - depth a - 1))%nat as Hw.
  { apply weights_le, Forall_forall. intros x Hx. unfold weight. apply Nat.pow_le_mono_r; [lia|]. specialize (depth_child _ _ (Hch x Hx)). lia. }
  rewrite length_reverse in Hw. unfold weight. replace (D - depth a)%nat with (S (D - depth a - 1)) at 1 by lia. cbn [Nat.pow].
  pose proof (Nat.pow_nonzero (size (mt_tags m) + 1) (D - depth a - 1) ltac:(lia)). nia.
Qed.

Lemma subtree_loop_total fuel frontier :
  Forall (fun a => is_Some (mt_tags m !! a)) frontier -> (weights frontier <= fuel)%nat -> is_Some (subtree_loop fuel m frontier).
Proof using depth_child depth_bound.
  revert frontier. induction fuel as [|fuel IH]; intros frontier Hf Hw; destruct frontier as [|cur rest]; cbn [subtree_loop]; try (by eexists).
  - pose proof (Nat.pow_nonzero (size (mt_tags m) + 1) (D - depth cur) ltac:(lia)). change (weights (cur :: rest)) with (weight cur + weights rest)%nat in Hw. unfold weight at 1 in Hw. lia.
  - apply Forall_cons in Hf as [Hcur Hrest]. destruct (IH (reverse (children m cur) ++ rest)) as [l ->]; [| |by eexists].
    + apply Forall_app_2; [|done]. apply Forall_forall. intros x. rewrite elem_of_reverse, elem_of_children. intros (t & Ht & _). by eexists.
    + rewrite weights_app. pose proof (children_weight cur Hcur). change (weights (cur :: rest)) with (weight cur + weights rest)%nat in Hw. lia.
Qed.
End Weight.

Lemma depth_bound_exists (m : Meta) (depth : TagId -> nat) : exists D, forall a, is_Some (mt_tags m !! a) -> (depth a <= D)%nat.
Proof using.
  exists (max_list (map depth (map fst (map_to_list (mt_tags m))))). intros a [t Ha]. apply max_list_elem_of_le.
  apply list_elem_of_fmap. exists a. split; [done|]. apply list_elem_of_fmap. exists (a, t). split; [done|]. by apply elem_of_map_to_list.
Qed.

Lemma ancestor_chain_total m root (depth : TagId -> nat) :
  (forall id t p, mt_tags m !! id = Some t -> parent_of t = Some p -> is_Some (mt_tags m !! p) /\ (depth p < depth id)%nat) ->
  forall fuel id t, mt_tags m !! id = Some t -> (depth id < fuel)%nat ->
  exists l, ancestor_chain fuel m root (ti_name t) = Some l /\ Forall (fun a => desc m a id /\ a <> id) l.
Proof using.
  intros Htree. induction fuel as [|fuel IH]; intros id t Hid Hf; [lia|]. cbn [ancestor_chain].
  destruct (ParseTagRef (ti_name t)) as [[parent leaf]|] eqn:Ep; [|by exists []].
  destruct (_ && _); [by exists []|]. assert (parent_of t = Some parent) as Hpar by (unfold parent_of; by rewrite Ep).
  destruct (Htree _ _ _ Hid Hpar) as [[tp Htp] Hd]. rewrite Htp. destruct (IH parent tp Htp ltac:(lia)) as (l & -> & Hl).
  exists (parent :: l). split; [done|]. assert (child m parent id) as Hc by (by exists t). constructor.
  - split; [by apply rtc_once|]. intros ->. lia.
  - eapply Forall_impl; [exact Hl|]. intros a [Ha Hne]. split; [by apply rtc_r with parent|]. intros ->.
    clear -Ha Hd Htree. assert (forall a b, desc m a b -> (depth a <= depth b)%nat) as Hle.
    { induction 1 as [|x y z (t & Ht & Hp) _ IH]; [lia|]. destruct (Htree _ _ _ Ht Hp). lia. }
    specialize (Hle _ _ Ha). lia.
Qed.

Lemma erase_tag_spec m x :
  wf_ns m -> plain m ->
  let m' := erase_tag m x in
  wf_ns m' /\ plain m' /\ mt_tags m' = delete x (mt_tags m) /\ mt_blobs m' = mt_blobs m /\ mt_next_minor m' = mt_next_minor m.
Proof using.
  intros Hwf Hpl. cbv zeta. unfold erase_tag. destruct (mt_tags m !! x) as [info|] eqn:E.
  2: { split; [done|]. split; [done|]. split; [by rewrite delete_id|done]. }
  rewrite (pl_aliases _ Hpl _ _ E). cbn [fold_left].
  assert (match ti_name info with [] => mt_names m | _ => delete (ti_name info) (mt_names m) end = delete (ti_name info) (mt_names m)) as ->.
  { destruct (ti_name info) eqn:En; [|done]. by rewrite delete_id by apply (pl_empty _ Hpl). }
  destruct (ns_tag _ Hwf _ _ E) as [_ Ename]. split; [|split; [|done]]; split; cbn.
  - intros id t Hid. apply lookup_delete_Some in Hid as [Hne Hid]. destruct (ns_tag _ Hwf _ _ Hid) as [E1 E2]. split; [done|].
    rewrite lookup_delete_ne; [done|]. intros En. rewrite En in Ename. congruence.
  - intros n id Hn. apply lookup_delete_Some in Hn as [_ Hn]. by apply (ns_name _ Hwf n).
  - intros id [t Hid] Hm. apply lookup_delete_Some in Hid as [_ Hid]. by apply (ns_fresh _ Hwf); [eexists|].
  - apply (ns_next _ Hwf).
  - intros n id Hn. apply lookup_delete_Some in Hn as [Hne Hn]. destruct (pl_name _ Hpl _ _ Hn) as (t & Ht & En). exists t.
    rewrite lookup_delete_ne; [done|]. intros <-. congruence.
  - intros id t Hid. apply lookup_delete_Some in Hid as [_ Hid]. by apply (pl_aliases _ Hpl id).
  - rewrite lookup_delete_None. right. apply (pl_empty _ Hpl).
Qed.

Lemma erase_tags_spec l m :
  wf_ns m -> plain m ->
  let m' := fold_left erase_tag l m in
  wf_ns m' /\ plain m' /\ mt_blobs m' = mt_blobs m /\
  forall x, (x ∈ l -> mt_tags m' !! x = None) /\ (x ∉ l -> mt_tags m' !! x = mt_tags m !! x).
Proof using.
  revert m. induction l as [|y l IH]; intros m Hwf Hpl; cbv zeta; cbn [fold_left].
  { split; [done|]. split; [done|]. split; [done|]. intros x. split; [by intros ?%elem_of_nil|done]. }
  destruct (erase_tag_spec m y Hwf Hpl) as (W1 & P1 & T1 & B1 & _). destruct (IH _ W1 P1) as (W2 & P2 & B2 & T2).
  split; [done|]. split; [done|]. split; [congruence|]. intros x. destruct (T2 x) as [Hin Hout]. split.
  - intros [->|Hx]%elem_of_cons; [|by apply Hin]. destruct (decide (y ∈ l)) as [Hy|Hy]; [by apply Hin|].
    rewrite Hout, T1 by done. apply lookup_delete_eq.
  - intros [Hne Hx]%not_elem_of_cons. rewrite Hout, T1 by done. by rewrite lookup_delete_ne.
Qed.

Lemma compound_prefix_key id name : valid_id id -> compound_prefix (composite_key id name) = tag_prefix id.
Proof using.
  intros [H1 H2]. assert (0 <= fst id < 2 ^ 64) as H1' by lia. assert (0 <= snd id < 2 ^ 64) as H2' by lia.
  pose proof (to_string_no dot _ eq_refl H1') as Ha. pose proof (to_string_no dot _ eq_refl H2') as Hb.
  unfold composite_key, tag_prefix. revert Ha Hb. generalize (to_string (fst id)), (to_string (snd id)). intros a b Ha Hb.
  unfold compound_prefix. rewrite <- !app_assoc. cbn [app]. rewrite <- !app_assoc. cbn [app]. rewrite find_char_app by exact Ha.
  replace (drop (S (length a)) (a ++ dot :: b ++ dot :: name)) with (b ++ dot :: name) by (by rewrite <- Nat.add_1_r, drop_app_add).
  rewrite find_char_app by exact Hb. replace (S (length a) + S (length b))%nat with (length a + S (length b + 1))%nat by lia.
  rewrite take_app_add. cbn [take]. by rewrite take_app_add.
Qed.

(** A tree stays one when a set of tags closed under descendants goes. *)
Lemma tree_delete m m' :
  tree m -> (forall x t, mt_tags m' !! x = Some t -> mt_tags m !! x = Some t) ->
  (forall p x, child m p x -> mt_tags m' !! p = None -> mt_tags m' !! x = None) -> tree m'.
Proof using.
  intros [depth Ht] Hsub Hclosed. exists depth. intros id t p Hid Hp. pose proof (Hsub _ _ Hid) as Hid0.
  destruct (Ht _ _ _ Hid0 Hp) as [_ Hd]. split; [|done]. destruct (mt_tags m' !! p) eqn:E; [by eexists|].
  rewrite (Hclosed p id) in Hid; [done|by exists t|done].
Qed.

Lemma child_mono m m' a b : (forall x t, mt_tags m' !! x = Some t -> mt_tags m !! x = Some t) -> child m' a b -> child m a b.
Proof using. intros Hs (t & Ht & Hp). exists t. split; [by apply Hs|done]. Qed.

Lemma prune_spec m chain :
  wf_ns m -> plain m -> tree m ->
  let m' := prune m chain in
  wf_ns m' /\ plain m' /\ tree m' /\ mt_blobs m' = mt_blobs m /\
  (forall x t, mt_tags m' !! x = Some t -> mt_tags m !! x = Some t) /\
  (forall x, is_Some (mt_tags m !! x) -> mt_tags m' !! x = None -> x ∈ chain /\ children m' x = []).
Proof using.
  revert m. induction chain as [|anc rest IH]; intros m Hwf Hpl Ht; cbv zeta; cbn [prune].
  { repeat (split; [done|]). intros x [t Hx]. congruence. }
  destruct (mt_tags m !! anc) as [info|] eqn:E.
  2: { destruct (IH m Hwf Hpl Ht) as (W & P & T & B & S1 & S2). repeat (split; [done|]). intros x Hx Hn.
       destruct (S2 x Hx Hn). split; [by right|done]. }
  destruct (children m anc) eqn:Ec.
  2: { repeat (split; [done|]). intros x [t Hx]. congruence. }
  destruct (erase_tag_spec m anc Hwf Hpl) as (W1 & P1 & T1 & B1 & _).
  assert (forall x t, mt_tags (erase_tag m anc) !! x = Some t -> mt_tags m !! x = Some t) as Hsub.
  { intros x t. rewrite T1. by intros [_ H]%lookup_delete_Some. }
  assert (tree (erase_tag m anc)) as Ht1.
  { apply (tree_delete m); [done|done|]. intros p x Hc Hp. rewrite T1, lookup_delete_None in Hp. destruct Hp as [<-|Hp].
    - apply elem_of_children in Hc. rewrite Ec in Hc. by apply elem_of_nil in Hc.
    - destruct Hc as (t & Hx & Hpt). destruct Ht as [depth Ht]. destruct (Ht _ _ _ Hx Hpt) as [[? ?] _]. congruence. }
  destruct (IH _ W1 P1 Ht1) as (W2 & P2 & T2 & B2 & S1 & S2).
  split; [done|]. split; [done|]. split; [done|]. split; [congruence|]. split; [by auto|].
  intros x [t Hx] Hn. destruct (decide (x = anc)) as [->|Hne].
  - split; [left|]. destruct (children (prune _ _) anc) as [|c cs] eqn:Ec'; [done|exfalso].
    assert (child m anc c) as Hc.
    { apply (child_mono m (prune (erase_tag m anc) rest)); [by auto|]. apply elem_of_children. rewrite Ec'. left. }
    apply elem_of_children in Hc. rewrite Ec in Hc. by apply elem_of_nil in Hc.
  - destruct (S2 x) as [H1 H2]; [exists t; rewrite T1; by rewrite lookup_delete_ne|done|]. split; [by right|done].
Qed.

(** What a recursive deletion leaves. *)
Record deleted (m : Meta) (id : TagId) (m' : Meta) : Prop := {
  dl_wf : wf_ns m' /\ plain m' /\ tree m';
  dl_sub : forall x t, mt_tags m' !! x = Some t -> mt_tags m !! x = Some t /\ ~ desc m id x;
  dl_kept : forall x t, mt_tags m !! x = Some t -> ~ desc m id x ->
    mt_tags m' !! x = Some t \/ (desc m x id /\ x <> id /\ children m' x = [] /\ mt_tags m' !! x = None);
  dl_blobs : forall x name, valid_id x -> (desc m id x -> mt_blobs m' !! composite_key x name = None) /\
    (~ desc m id x -> mt_blobs m' !! composite_key x name = mt_blobs m !! composite_key x name)
}.

Lemma tag_prefix_inj x y : valid_id x -> valid_id y -> tag_prefix x = tag_prefix y -> x = y.
Proof using. intros Hx Hy E. eapply (tag_prefix_app_inj x y [] []); [done|done|]. by rewrite E. Qed.

Lemma delete_subtree m id t l chain :
  wf_ns m -> plain m -> tree m -> mt_tags m !! id = Some t ->
  (forall x, x ∈ l <-> desc m id x) -> Forall (fun a => desc m a id /\ a <> id) chain ->
  deleted m id (prune (delete_tags m l) chain).
Proof using.
  intros Hwf Hpl Htree Hid Hl Hchain. unfold delete_tags.
  set (m0 := set_blobs m (filter (fun kb => compound_prefix (fst kb) ∉ map tag_prefix l) (mt_blobs m))).
  assert (wf_ns m0) as W0 by (destruct Hwf; by split). assert (plain m0) as P0 by (destruct Hpl; by split).
  destruct (erase_tags_spec l m0 W0 P0) as (W1 & P1 & B1 & T1). set (m1 := fold_left erase_tag l m0) in *.
  assert (forall x u, mt_tags m1 !! x = Some u -> mt_tags m !! x = Some u) as Hsub1.
  { intros x u Hx. destruct (T1 x) as [Hin Hout]. destruct (decide (x ∈ l)) as [Hx'|Hx']; [by rewrite Hin in Hx|by rewrite Hout in Hx]. }
  assert (tree m1) as Ht1.
  { apply (tree_delete m); [done|done|]. intros p x Hc Hp. destruct (decide (p ∈ l)) as [Hpl'|Hpl'].
    - apply (T1 x), Hl. apply Hl in Hpl'. by apply rtc_r with p.
    - rewrite (proj2 (T1 p) Hpl') in Hp. destruct Hc as (u & Hx & Hpu). destruct Htree as [depth Ht].
      destruct (Ht _ _ _ Hx Hpu) as [[? E] _]. cbn in Hp. congruence. }
  destruct (prune_spec m1 chain W1 P1 Ht1) as (W2 & P2 & Ht2 & B2 & S1 & S2). split.
  - done.
  - intros x u Hx. apply S1 in Hx. split; [by apply Hsub1|]. intros Hd. rewrite (proj1 (T1 x)) in Hx; [done|by apply Hl].
  - intros x u Hx Hd. assert (mt_tags m1 !! x = Some u) as Hx1 by (rewrite (proj2 (T1 x)); [done|by rewrite Hl]).
    destruct (mt_tags (prune m1 chain) !! x) as [u'|] eqn:E; [left; apply S1 in E; congruence|right].
    destruct (S2 x (mk_is_Some _ _ Hx1) E) as [Hin Hch]. rewrite Forall_forall in Hchain. by destruct (Hchain _ Hin).
  - intros x name Hv. rewrite B2, B1. unfold m0. cbn [set_blobs mt_blobs].
    assert (compound_prefix (composite_key x name) ∈ map tag_prefix l <-> desc m id x) as Hiff.
    { rewrite compound_prefix_key by done. rewrite <- Hl, list_elem_of_fmap. split; [|by exists x]. intros (y & E & Hy).
      assert (valid_id y) as Hvy.
      { apply Hl in Hy. assert (is_Some (mt_tags m !! y)) as [u Hu].
        { apply rtc_inv_r in Hy as [<-|(z & _ & (u & Hu & _))]; by eexists. }
        destruct (ns_tag _ Hwf _ _ Hu) as [_ Hn]. by apply (ns_name _ Hwf _ _ Hn). }
      by rewrite (tag_prefix_inj x y Hv Hvy E). }
    split; intros Hd.
    + apply map_lookup_filter_None. right. intros b _. cbn. intros Hn. by apply Hn, Hiff.
    + destruct (mt_blobs m !! composite_key x name) as [b|] eqn:Eb.
      * apply map_lookup_filter_Some. split; [done|]. cbn. by rewrite Hiff.
      * apply map_lookup_filter_None. by left.
Qed.

Lemma DelTag_by_id m id t :
  wf_ns m -> plain m -> tree m -> mt_tags m !! id = Some t ->
  exists fuel m', (forall fuel', (fuel <= fuel')%nat -> DelTag fuel' m id [] false = Some (0, m')) /\ deleted m id m'.
Proof using.
  intros Hwf Hpl Htree Hid. pose proof Htree as [depth Ht]. destruct (depth_bound_exists m depth) as [D HD].
  destruct (ns_tag _ Hwf _ _ Hid) as [_ Hname]. destruct (ns_name _ Hwf _ _ Hname) as [_ Hnull].
  set (fuel := (S (depth id) + weights m depth D [id])%nat).
  assert (exists l chain, (forall x, x ∈ l <-> desc m id x) /\ Forall (fun a => desc m a id /\ a <> id) chain /\
    forall fuel', (fuel <= fuel')%nat -> DelTag fuel' m id [] false = Some (0, prune (delete_tags m l) chain)) as (l & chain & Hl & Hc & Hdel).
  2: { exists fuel. eexists. split; [exact Hdel|]. by apply (delete_subtree m id t). }
  assert (forall f frontier l, subtree_loop f m frontier = Some l -> forall f', (f <= f')%nat -> subtree_loop f' m frontier = Some l) as Mono1.
  { induction f as [|f IH]; intros frontier l H f' Hf; destruct frontier as [|c r]; cbn in H; try done; [by destruct f'..|].
    destruct f' as [|f']; [lia|]. cbn. apply fmap_Some in H as (l' & H & ->). by rewrite (IH _ _ H f' ltac:(lia)). }
  assert (forall f root n l, ancestor_chain f m root n = Some l -> forall f', (f <= f')%nat -> ancestor_chain f' m root n = Some l) as Mono2.
  { induction f as [|f IH]; intros root n l H f' Hf; [done|]. destruct f' as [|f']; [lia|]. cbn in *.
    destruct (ParseTagRef n) as [[p lf]|]; [|done]. destruct (_ && _); [done|]. destruct (mt_tags m !! p); [|done].
    apply fmap_Some in H as (l' & H & ->). by rewrite (IH _ _ _ H f' ltac:(lia)). }
  destruct (ancestor_chain_total m (default null_id (mt_names m !! root_name)) depth Ht (S (depth id)) id t Hid ltac:(lia)) as (chain & Hch & Hanc).
  destruct (subtree_loop_total m depth D) with (fuel := weights m depth D [id]) (frontier := [id]) as [l Hsub].
  { intros a b (u & Hu & Hp). by destruct (Ht _ _ _ Hu Hp). }
  { done. }
  { repeat constructor. by eexists. }
  { done. }
  exists l, chain. split; [|split; [done|]].
  - intros x. rewrite (subtree_loop_desc _ _ _ _ Hsub). split; [by intros (f & ->%list_elem_of_singleton & Hd)|].
    intros Hd. exists id. split; [by apply list_elem_of_singleton|done].
  - intros fuel' Hf. unfold DelTag, resolve_request. unfold IsNull. rewrite bool_decide_eq_false_2 by done. cbn [negb]. rewrite Hid.
    rewrite (Mono2 _ _ _ _ Hch) by lia. cbn [mbind option_bind bool_decide andb negb].
    rewrite bool_decide_eq_true_2 by done. cbn [negb andb]. rewrite (Mono1 _ _ _ Hsub) by lia. done.
Qed.

(** * Moving *)

Definition moved (m : Meta) (x : TagId) (info : TagInfo) (new_rel : str) : Meta :=
  mkMeta (<[new_rel := x]> (delete (ti_name info) (mt_names m))) (<[x := set_tag_name info new_rel]> (mt_tags m))
    (mt_blobs m) (mt_next_minor m).

Section Move.
Context (m : Meta) (x p : TagId) (info : TagInfo) (leaf : str).
Context (Hwf : wf_ns m) (Hpl : plain m) (Htree : tree m) (Hx : mt_tags m !! x = Some info).
Context (Hp : is_Some (mt_tags m !! p)) (Hfree : mt_names m !! MakeRelativeName p leaf = None) (Hnd : ~ desc m x p).

Local Abbreviation new_rel := (MakeRelativeName p leaf).
Local Abbreviation m2 := (moved m x info new_rel).

Lemma valid_tag id : is_Some (mt_tags m !! id) -> valid_id id.
Proof using Hwf. intros [t Ht]. destruct (ns_tag _ Hwf _ _ Ht) as [_ Hn]. by apply (ns_name _ Hwf _ _ Hn). Qed.

Lemma moved_wf : wf_ns m2.
Proof using Hwf Hpl Hx Hfree.
  destruct (ns_tag _ Hwf _ _ Hx) as [Ex En]. split; cbn [moved mt_names mt_tags mt_blobs mt_next_minor].
  - intros id t Hid. apply lookup_insert_Some in Hid as [[<- <-]|[Hne Hid]].
    + cbn [set_tag_name ti_id ti_name]. by rewrite lookup_insert_eq.
    + destruct (ns_tag _ Hwf _ _ Hid) as [E1 E2]. split; [done|]. rewrite lookup_insert_ne by congruence.
      rewrite lookup_delete_ne; [done|congruence].
  - intros n id Hn. apply lookup_insert_Some in Hn as [[_ <-]|[_ Hn]]; [by apply (ns_name _ Hwf _ _ En)|].
    apply lookup_delete_Some in Hn as [_ Hn]. by apply (ns_name _ Hwf n).
  - intros id [t Hid] Hnode. apply lookup_insert_Some in Hid as [[<- _]|[_ Hid]]; apply (ns_fresh _ Hwf); by try eexists.
  - apply (ns_next _ Hwf).
Qed.

Lemma moved_plain : plain m2.
Proof using Hwf Hpl Hx Hfree.
  destruct (ns_tag _ Hwf _ _ Hx) as [Ex En]. split; cbn [moved mt_names mt_tags mt_blobs mt_next_minor].
  - intros n id Hn. apply lookup_insert_Some in Hn as [[<- <-]|[Hne Hn]]; [eexists; by rewrite lookup_insert_eq|].
    apply lookup_delete_Some in Hn as [Hne' Hn]. destruct (pl_name _ Hpl _ _ Hn) as (t & Ht & Et). exists t.
    rewrite lookup_insert_ne; [done|]. intros <-. congruence.
  - intros id t Hid. apply lookup_insert_Some in Hid as [[<- <-]|[_ Hid]]; [by apply (pl_aliases _ Hpl _ _ Hx)|by apply (pl_aliases _ Hpl id)].
  - rewrite lookup_insert_ne by done. rewrite lookup_delete_None. right. apply (pl_empty _ Hpl).
Qed.

(** Below [x], or not: decidable through the deletion loop's list. *)
Lemma desc_list : exists l : list TagId, forall y, y ∈ l <-> desc m x y.
Proof using Htree Hx.
  destruct Htree as [depth Ht]. destruct (depth_bound_exists m depth) as [D HD].
  destruct (subtree_loop_total m depth D) with (fuel := weights m depth D [x]) (frontier := [x]) as [l Hl].
  { intros a b (u & Hu & Hpu). by destruct (Ht _ _ _ Hu Hpu). }
  { done. }
  { repeat constructor. by eexists. }
  { done. }
  exists l. intros y. rewrite (subtree_loop_desc _ _ _ _ Hl). split; [by intros (f & ->%list_elem_of_singleton & Hd)|].
  intros Hd. exists x. split; [by apply list_elem_of_singleton|done].
Qed.

Lemma moved_parent y q : child m2 q y -> (y = x /\ q = p) \/ (y <> x /\ child m q y).
Proof using Hwf Hp.
  intros (t & Ht & Hq). cbn [moved mt_tags] in Ht. apply lookup_insert_Some in Ht as [[<- <-]|[Hne Ht]].
  - left. split; [done|]. unfold parent_of in Hq. cbn [set_tag_name ti_name] in Hq. rewrite ParseTagRef_MakeRelativeName in Hq by (by apply valid_tag).
    by injection Hq as <-.
  - right. split; [done|]. by exists t.
Qed.

Lemma moved_tree : tree m2.
Proof using Hwf Htree Hx Hp Hnd.
  destruct desc_list as [l Hl]. destruct Htree as [depth Ht].
  exists (fun y => if decide (y ∈ l) then (depth y + S (depth p))%nat else depth y). intros y t q Hy Hq.
  assert (is_Some (mt_tags m2 !! q) <-> is_Some (mt_tags m !! q)) as Hiff.
  { cbn. destruct (decide (x = q)) as [<-|Hne]; [rewrite lookup_insert_eq, Hx; by split; eexists|by rewrite lookup_insert_ne]. }
  destruct (moved_parent y q) as [[-> ->]|[Hne Hc]]; [by exists t|..].
  - split; [by apply Hiff|]. assert (p ∉ l) as Hpl' by (by rewrite Hl).
      assert (x ∈ l) as Hxl by (apply Hl, rtc_refl). rewrite (decide_False (P := p ∈ l)), (decide_True (P := x ∈ l)) by done. lia.
  - pose proof Hc as (u & Hu & Hqu). destruct (Ht _ _ _ Hu Hqu) as [Hq' Hd]. split; [by apply Hiff|].
    destruct (decide (q ∈ l)) as [Hql|Hql].
    + rewrite decide_True by (apply Hl, rtc_r with q; [by apply Hl|done]). lia.
    + rewrite decide_False; [done|]. intros Hyl%Hl. apply rtc_inv_r in Hyl as [->|(z & Hz & (u' & Hu' & Hz'))]; [done|].
      apply Hql, Hl. by replace q with z by congruence.
Qed.

Lemma walk_desc a cs b : valid_id a -> walk m a cs = Some b -> desc m a b.
Proof using Hwf Hpl.
  revert a. induction cs as [|c cs IH]; intros a Ha; cbn [walk]; [intros [= ->]; apply rtc_refl|].
  destruct (mt_names m !! MakeRelativeName a c) as [child_id|] eqn:E; [|done]. intros Hw.
  destruct (pl_name _ Hpl _ _ E) as (t & Ht & Et). apply rtc_l with child_id; [|apply IH; [by apply (ns_name _ Hwf _ _ E)|exact Hw]].
  exists t. split; [done|]. unfold parent_of. rewrite Et. by rewrite ParseTagRef_MakeRelativeName.
Qed.

(** Walks that do not come through [x] are as before. *)
Lemma moved_walk a cs b : ~ desc m x b -> walk m a cs = Some b -> walk m2 a cs = Some b.
Proof using Hwf Hpl Hx Hfree.
  destruct (ns_tag _ Hwf _ _ Hx) as [_ En]. intros Hb. revert a. induction cs as [|c cs IH]; intros a; cbn [walk]; [done|].
  destruct (mt_names m !! MakeRelativeName a c) as [y|] eqn:E; [|done]. intros Hw. cbn [moved mt_names].
  rewrite lookup_insert_ne by congruence. rewrite lookup_delete_ne; [rewrite E; by apply IH|]. intros Eq. rewrite Eq in En.
  assert (y = x) as -> by congruence. apply Hb. apply (walk_desc _ cs); [by apply (ns_name _ Hwf _ _ E)|exact Hw].
Qed.

Lemma desc_acyclic a b : child m a b -> ~ desc m b a.
Proof using Htree.
  destruct Htree as [depth Ht]. intros (t & Hb & Ha) Hd. destruct (Ht _ _ _ Hb Ha) as [_ Hlt].
  assert (forall a b, desc m a b -> (depth a <= depth b)%nat) as Hle.
  { induction 1 as [|u v w (t' & Ht' & Hp') _ IH]; [lia|]. destruct (Ht _ _ _ Ht' Hp'). lia. }
  specialize (Hle _ _ Hd). lia.
Qed.

(** Walks that start below [x] are as before. *)
Lemma moved_walk_below a cs b : desc m x a -> walk m a cs = Some b -> walk m2 a cs = Some b.
Proof using Hwf Hpl Htree Hx Hfree.
  destruct (ns_tag _ Hwf _ _ Hx) as [_ En]. revert a. induction cs as [|c cs IH]; intros a Ha; cbn [walk]; [done|].
  destruct (mt_names m !! MakeRelativeName a c) as [y|] eqn:E; [|done]. intros Hw. cbn [moved mt_names].
  assert (is_Some (mt_tags m !! a)) as Hat.
  { apply rtc_inv_r in Ha as [<-|(z & _ & (u & Hu & _))]; by eexists. }
  assert (child m a y) as Hc.
  { destruct (pl_name _ Hpl _ _ E) as (t & Ht & Et). exists t. split; [done|]. unfold parent_of. rewrite Et.
    by rewrite ParseTagRef_MakeRelativeName by (by apply valid_tag). }
  rewrite lookup_insert_ne by congruence. rewrite lookup_delete_ne; [rewrite E; apply IH; [by apply rtc_r with a|exact Hw]|].
  intros Eq. rewrite Eq in En. assert (y = x) as -> by congruence. by apply (desc_acyclic a x).
Qed.
End Move.

(** The move of [RenameTag], from the state that has the new parent on. *)
Lemma rename_move_spec m x p info leaf root old tag_id :
  wf_ns m -> plain m -> mt_tags m !! x = Some info -> mt_names m !! MakeRelativeName p leaf = None ->
  mt_names m !! root_name = Some root -> walk m root (SplitPathComponents old) = Some x ->
  tag_id = null_id \/ tag_id = x ->
  rename_move m tag_id old (MakeRelativeName p leaf) = (0, x, moved m x info (MakeRelativeName p leaf)).
Proof using.
  intros Hwf Hpl Hx Hfree Hroot Hw Hid. destruct (ns_tag _ Hwf _ _ Hx) as [_ En]. destruct (ns_name _ Hwf _ _ En) as [_ Hnull].
  unfold rename_move. assert ((if IsNull tag_id then ResolvePathToIdLocked m old else tag_id) = x) as ->.
  { rewrite (ResolvePath_walk m root old x Hroot Hw). unfold IsNull. destruct Hid as [-> | ->]; [by rewrite bool_decide_eq_true_2|].
    by destruct (bool_decide _). }
  unfold IsNull. rewrite bool_decide_eq_false_2 by done. rewrite Hx. unfold moved. rewrite decide_False; [done|].
  intros E. congruence.
Qed.

(** Where the move takes the paths. *)
Record moved_to (m m2 : Meta) (root x : TagId) (old new : str) : Prop := {
  mv_wf : wf_ns m2 /\ plain m2 /\ tree m2;
  mv_blobs : mt_blobs m2 = mt_blobs m;
  mv_tags : forall y t, mt_tags m !! y = Some t -> mt_tags m2 !! y = Some (if decide (y = x) then set_tag_name t (default [] (ti_name <$> mt_tags m2 !! x)) else t);
  mv_new : forall cs y, Forall component cs -> walk m x cs = Some y ->
    ResolvePathToIdLocked m2 (join_components (SplitPathComponents new ++ cs)) = y;
  mv_old : ResolvePathToIdLocked m2 old = null_id;
  mv_name : (length (SplitPathComponents new) <= 256)%nat -> GetTagName m2 x = Some (join_components (SplitPathComponents new))
}.

Lemma last_snoc_removelast (l : list str) x : last l = Some x -> l = removelast l ++ [x].
Proof using. intros [l' ->]%last_Some. by rewrite removelast_last. Qed.

Lemma GetTagName_walk m root comps id :
  wf_ns m -> plain m -> mt_names m !! root_name = Some root -> Forall component comps -> (length comps <= 256)%nat ->
  walk m root comps = Some id -> GetTagName m id = Some (join_components comps).
Proof using.
  intros Hwf Hpl Hr Hc Hl Hw. destruct (resolve_walk m root comps id 257 Hwf Hpl Hr Hc ltac:(lia) Hw) as (t & Ht & E).
  unfold GetTagName. rewrite Ht. cbn [fmap option_fmap option_map]. f_equal. exact E.
Qed.

(** The walk of the old path ends at the name that goes. *)
Lemma moved_walk_old m m2 x info p leaf root os oc :
  wf_ns m -> plain m -> tree m -> mt_tags m !! x = Some info -> mt_names m !! MakeRelativeName p leaf = None ->
  m2 = moved m x info (MakeRelativeName p leaf) -> valid_id root ->
  walk m root (os ++ [oc]) = Some x -> walk m2 root (os ++ [oc]) = None.
Proof using.
  intros Hwf Hpl Htree Hx Hfree -> Hvr Hw. rewrite walk_app in Hw. destruct (walk m root os) as [q|] eqn:Eq; [|done].
  cbn [mbind option_bind walk] in Hw. destruct (mt_names m !! MakeRelativeName q oc) as [y|] eqn:En; [|discriminate Hw]. injection Hw as ->.
  destruct (pl_name _ Hpl _ _ En) as (t & Ht & Et). assert (t = info) as -> by congruence.
  assert (valid_id q) as Hvq.
  { destruct os as [|o os _] using rev_ind; [by injection Eq as <-|]. rewrite walk_app in Eq. destruct (walk m root os); [|done].
    cbn [mbind option_bind walk] in Eq. destruct (mt_names m !! MakeRelativeName _ o) eqn:Eo; [|discriminate Eq]. injection Eq as ->.
    by apply (ns_name _ Hwf _ _ Eo). }
  assert (child m q x) as Hc by (exists info; split; [done|]; unfold parent_of; rewrite Et; by rewrite ParseTagRef_MakeRelativeName).
  rewrite walk_app. rewrite (moved_walk m x p info leaf Hwf Hpl Hx Hfree root os q (desc_acyclic m Htree q x Hc) Eq).
  cbn [mbind option_bind walk moved mt_names]. rewrite lookup_insert_ne by congruence. rewrite Et, lookup_delete_eq. done.
Qed.

Lemma moved_spec m m1 x p info leaf root old new :
  wf_ns m1 -> plain m1 -> tree m1 -> extends m m1 -> plain m -> wf_ns m -> mt_tags m !! x = Some info -> is_Some (mt_tags m1 !! p) ->
  mt_names m1 !! MakeRelativeName p leaf = None -> ~ desc m1 x p ->
  mt_names m !! root_name = Some root -> walk m root (SplitPathComponents old) = Some x -> x <> root ->
  walk m1 root (removelast (SplitPathComponents new)) = Some p -> last (SplitPathComponents new) = Some leaf ->
  moved_to m (moved m1 x info (MakeRelativeName p leaf)) root x old new.
Proof using.
  intros W1 P1 T1 X1 Hpl Hwf Hx Hp Hfree Hnd Hroot Hold Hxr Hpw Hlast.
  pose proof (lookup_weaken _ _ _ _ Hx (ex_tags _ _ X1)) as Hx1. pose proof (lookup_weaken _ _ _ _ Hroot (ex_names _ _ X1)) as Hroot1.
  pose proof (walk_extends _ _ _ _ _ (ex_names _ _ X1) Hold) as Hold1.
  set (m2 := moved m1 x info (MakeRelativeName p leaf)). destruct (ns_tag _ W1 _ _ Hx1) as [_ En].
  assert (mt_names m2 !! root_name = Some root) as Hroot2.
  { unfold m2. cbn [moved mt_names]. rewrite lookup_insert_ne by congruence. rewrite lookup_delete_ne; [done|]. intros E. rewrite E in En. congruence. }
  assert (walk m2 root (SplitPathComponents new) = Some x) as Hnew.
  { rewrite (last_snoc_removelast _ _ Hlast), walk_app. unfold m2. rewrite (moved_walk m1 x p info leaf W1 P1 Hx1 Hfree root _ p Hnd Hpw).
    cbn [mbind option_bind walk moved mt_names]. by rewrite lookup_insert_eq. }
  assert (wf_ns m2 /\ plain m2 /\ tree m2) as (W2 & P2 & T2).
  { split; [by apply moved_wf|]. split; [by apply moved_plain|]. by apply moved_tree. }
  split.
  - done.
  - apply (ex_blobs _ _ X1).
  - intros y t Hy. pose proof (lookup_weaken _ _ _ _ Hy (ex_tags _ _ X1)) as Hy1. unfold m2. cbn [moved mt_tags].
    rewrite lookup_insert_eq. destruct (decide (y = x)) as [->|Hne]; [|by rewrite lookup_insert_ne].
    rewrite lookup_insert_eq. assert (t = info) as -> by congruence. done.
  - intros cs y Hcs Hw. apply (ResolvePath_walk m2 root); [done|].
    rewrite SplitPathComponents_join by (apply Forall_app; split; [apply SplitPathComponents_components|done]).
    rewrite walk_app, Hnew. apply (moved_walk_below m1 x p info leaf); try done.
    by apply (walk_extends m); [apply X1|].
  - unfold ResolvePathToIdLocked. rewrite Hroot2. destruct (SplitPathComponents old) as [|oc os _] using rev_ind; [by injection Hold as ->|].
    by rewrite (moved_walk_old m1 m2 x info p leaf root os oc W1 P1 T1 Hx1 Hfree eq_refl (proj1 (ns_name _ Hwf _ _ Hroot)) Hold1).
  - intros Hl. apply (GetTagName_walk m2 root); try done. apply SplitPathComponents_components.
Qed.
End Namespace.

(** * Properties *)

(** Paths and tags. Creating a path in a namespace without aliases gives a tag
    that the path then resolves to, whose absolute name is the path with its
    slashes collapsed (up to the 256 levels that are resolved), and which
    creating the path again finds. Every tag, name and blob that was there is
    still there, and the namespace stays well formed, with no alias and no cycle. *)
Theorem GetOrCreateTagChain_resolves (node : Z) (m m' : Meta) (path : str) (pref id : TagId) :
  0 <= node < 2 ^ 32 -> wf_ns node m -> plain m -> tree m -> preferred_ok node m pref -> IsHierPath path = true ->
  mt_next_minor m + Z.of_nat (length (SplitPathComponents path)) + 1 < 2 ^ 32 ->
  GetOrCreateTagChain node m path pref = (m', id) ->
  (wf_ns node m' /\ plain m' /\ tree m') /\ extends m m' /\
  ResolvePathToIdLocked m' path = id /\ id <> null_id /\
  ((length (SplitPathComponents path) <= 256)%nat -> GetTagName m' id = Some (join_components (SplitPathComponents path))) /\
  (forall pref', GetOrCreateTagChain node m' path pref' = (m', id)).
Proof.
  intros Hnode Hwf Hpl Ht Hp Hh Hx E.
  destruct (GetOrCreateTagChain_spec node Hnode _ _ _ _ _ Hwf Hp Hh Hx E) as (W & X & P & root & Hr & Hw). specialize (P Hpl).
  pose proof (GetOrCreateTagChain_tree node Hnode _ _ _ _ _ Hwf Hp Hh Hpl Ht Hx E) as T.
  pose proof (SplitPathComponents_components path) as Hc.
  split; [done|]. split; [done|]. split; [by apply (ResolvePath_walk m' root)|]. split; [|split].
  - destruct (resolve_walk node m' root _ id (S (length (SplitPathComponents path))) W P Hr Hc ltac:(lia) Hw) as (t & Hid & _).
    destruct (ns_tag _ _ W _ _ Hid) as [_ Hn]. by apply (ns_name _ _ W _ _ Hn).
  - intros Hl. by apply (GetTagName_walk node m' root).
  - intros pref'. by apply (GetOrCreateTagChain_again node m' path pref' root id).
Qed.



(** ** A small namespace *)

Lemma empty_ns (node next : Z) : 0 < next < 2 ^ 32 -> wf_ns node (empty_meta next) /\ plain (empty_meta next) /\ tree (empty_meta next).
Proof.
  intros Hn. split; [|split].
  - split; cbn; try done. by intros id [? ?].
  - split; done.
  - by exists (fun _ => 0%nat).
Qed.

(** Node 7 creates ["/a/b"], with a blob in each of the tags. *)
Definition ex_ns : Meta :=
  let m := fst (GetOrCreateTagChain 7 (empty_meta 1) (lit "/a/b") null_id) in
  put_blob (put_blob m (composite_key (7, 2) (lit "x")) BlobInfo_new) (composite_key (7, 3) (lit "y")) BlobInfo_new.

Lemma ex_ns_wf : wf_ns 7 ex_ns /\ plain ex_ns /\ tree ex_ns.
Proof.
  destruct (empty_ns 7 1 ltac:(lia)) as (W & P & T).
  destruct (GetOrCreateTagChain 7 (empty_meta 1) (lit "/a/b") null_id) as [m id] eqn:E.
  assert (ex_ns = put_blob (put_blob m (composite_key (7, 2) (lit "x")) BlobInfo_new) (composite_key (7, 3) (lit "y")) BlobInfo_new) as ->
    by (unfold ex_ns; by rewrite E).
  destruct (GetOrCreateTagChain_spec 7 ltac:(lia) (empty_meta 1) (lit "/a/b") null_id m id W (or_introl eq_refl) eq_refl ltac:(vm_compute; reflexivity) E) as (W1 & _ & P1 & _).
  pose proof (GetOrCreateTagChain_tree 7 ltac:(lia) (empty_meta 1) (lit "/a/b") null_id m id W (or_introl eq_refl) eq_refl P T ltac:(vm_compute; reflexivity) E) as T1.
  specialize (P1 P). destruct W1, P1. by split; [split|split; [split|]].
Qed.

Lemma GetOrCreateTagChain_resolves_witness :
  exists m', GetOrCreateTagChain 7 (empty_meta 1) (lit "//a/b/") null_id = (m', (7, 3)) /\
    ResolvePathToIdLocked m' (lit "//a/b/") = (7, 3) /\ GetTagName m' (7, 3) = Some (lit "/a/b").
Proof.
  destruct (empty_ns 7 1 ltac:(lia)) as (W & P & T).
  destruct (GetOrCreateTagChain 7 (empty_meta 1) (lit "//a/b/") null_id) as [m' id] eqn:E.
  destruct (GetOrCreateTagChain_resolves 7 (empty_meta 1) m' (lit "//a/b/") null_id id ltac:(lia) W P T (or_introl eq_refl) eq_refl
    ltac:(vm_compute; reflexivity) E) as (_ & _ & R & _ & Hname & _).
  assert (id = (7, 3)) as -> by (assert (snd (GetOrCreateTagChain 7 (empty_meta 1) (lit "//a/b/") null_id) = (7, 3)) as H
    by (vm_compute; reflexivity); rewrite E in H; exact H).
  exists m'. split; [done|]. split; [exact R|]. apply Hname. vm_compute. lia.
Defined.



(** ** Gaps *)

(** A tag renamed to a path below itself becomes its own parent: no path leads
    to it any more, and deleting it never ends. *)
Theorem rename_below_itself_never_deleted :
  exists m2, RenameTag 7 ex_ns null_id (lit "/a") (lit "/a/c") = (0, (7, 2), m2) /\
    parent_of <$> mt_tags m2 !! (7, 2) = Some (Some (7, 2)) /\
    ResolvePathToIdLocked m2 (lit "/a/c") = null_id /\
    forall fuel posix, DelTag fuel m2 (7, 2) [] posix = None.
Proof.
  eexists. split; [vm_compute; reflexivity|]. split; [vm_compute; reflexivity|]. split; [vm_compute; reflexivity|].
  match goal with |- forall _ _, DelTag _ ?m _ _ _ = None => set (m2 := m) end. intros fuel posix.
  set (name := MakeRelativeName (7, 2) (lit "c")).
  assert (mt_tags m2 !! (7, 2) = Some (TagInfo_new name (7, 2))) as Ht by (vm_compute; reflexivity).
  assert (default null_id (mt_names m2 !! root_name) = (7, 1)) as Hr by (vm_compute; reflexivity).
  assert (ancestor_chain fuel m2 (7, 1) name = None) as Hloop.
  { assert (ParseTagRef name = Some ((7, 2), lit "c")) as Hp by (vm_compute; reflexivity).
    induction fuel as [|fuel IH]; [done|]. cbn [ancestor_chain]. rewrite Hp, Ht. cbn [ti_name TagInfo_new].
    rewrite IH. by rewrite (bool_decide_eq_false_2 ((7, 2) = (7, 1))) by done. }
  unfold DelTag, resolve_request. assert (IsNull (7, 2) = false) as -> by reflexivity. cbn [negb]. rewrite Ht, Hr. cbn [ti_name TagInfo_new]. by rewrite Hloop.
Qed.

(** A preferred id of this node that was not generated yet is generated later:
    two names then share one tag, which keeps only the second one. *)
Theorem preferred_id_collides :
  let '(m1, id1) := GetOrCreateTag 7 (empty_meta 1) (lit "t") (7, 1) in
  let '(m2, id2) := GetOrCreateTag 7 m1 (lit "u") null_id in
  id1 = id2 /\ ti_name <$> mt_tags m2 !! id1 = Some (lit "u") /\ mt_names m2 !! lit "t" = Some id2.
Proof. vm_compute. done. Qed.

(** Renaming onto a name that another tag has takes the name over: the other
    tag and its blobs stay, but no path leads to them. *)
Theorem rename_onto_other_orphans :
  let m := fst (GetOrCreateTagChain 7 ex_ns (lit "/c") null_id) in
  let r := RenameTag 7 m null_id (lit "/a/b") (lit "/c") in
  fst (fst r) = 0 /\ ResolvePathToIdLocked m (lit "/c") = (7, 4) /\ is_Some (mt_tags (snd r) !! (7, 4)) /\
  map_Forall (fun _ id => id <> (7, 4)) (mt_names (snd r)).
Proof.
  cbv zeta. split; [vm_compute; reflexivity|]. split; [vm_compute; reflexivity|]. split; [vm_compute; by eexists|].
  apply (bool_decide_unpack _). vm_compute. exact I.
Qed.
