(* ===== verification/MetaLog.v ===== *)
(** The metadata snapshot of the context transfer engine
    ([context-transfer-engine/core/src/core_runtime.cc]: [FlushMetadata] and
    [RestoreMetadataFromLog]).

    A snapshot is a sequence of entries, each a type byte and its fields: 0 a
    tag, 2 a blob (1 in logs written before transforms were recorded), 3 one
    replica of the blob before it. A restore reads entries until the first one
    it cannot read. *)
From Stdlib Require Import ZArith Lia Strings.String.
From stdpp Require Import base list gmap.
From S2P Require Import Prelude TxnLog Text BlobMeta.

Open Scope Z_scope.

(** * Writing a snapshot *)

Definition put_str (s : str) : list u8 :=
  let n := u32 (Z.of_nat (length s)) in le_bytes 4 n ++ take (Z.to_nat n) s.

Definition put_block (b : BlobBlock) : list u8 :=
  le_bytes 4 (fst (bb_pool b)) ++ le_bytes 4 (snd (bb_pool b)) ++ bb_query b ++ le_bytes 8 (bb_offset b) ++ le_bytes 8 (bb_size b).

Definition put_blocks (bs : list BlobBlock) : list u8 :=
  le_bytes 4 (u32 (Z.of_nat (length bs))) ++ concat (map put_block bs).

Definition tag_record (id : TagId) (info : TagInfo) : list u8 :=
  le_bytes 1 0 ++ put_str (ti_name info) ++ le_bytes 4 (fst id) ++ le_bytes 4 (snd id) ++ le_bytes 8 (ti_total info).

Definition blob_record (key : str) (b : BlobInfo) : list u8 :=
  le_bytes 1 2 ++ put_str key ++ put_str (bi_name b) ++ le_bytes 4 (bi_score b) ++ le_bytes 4 (bi_transform b) ++
  le_bytes 4 (bi_lib b) ++ le_bytes 4 (bi_preset b) ++ le_bytes 8 (bi_trace b) ++ put_blocks (bi_blocks b).

Definition replica_record (key : str) (idx : Z) (r : Replica) : list u8 :=
  le_bytes 1 3 ++ put_str key ++ le_bytes 4 idx ++ put_str (rp_name r) ++ le_bytes 4 (rp_score r) ++ le_bytes 4 (rp_flags r) ++
  le_bytes 4 (rp_transform r) ++ le_bytes 4 (rp_min_score r) ++ put_blocks (rp_blocks r).

Definition no_blocks (r : Replica) : bool := match rp_blocks r with [] => true | _ => false end.

(** The loop over [replicas_] from the index [i] on: empty ones are skipped. *)
Fixpoint replica_records (key : str) (i : Z) (rs : list Replica) : list (list u8) :=
  match rs with
  | [] => []
  | r :: rs => (if no_blocks r then [] else [replica_record key (i + 1) r]) ++ replica_records key (i + 1) rs
  end.

Definition blob_records (kb : str * BlobInfo) : list (list u8) :=
  blob_record (fst kb) (snd kb) :: replica_records (fst kb) 0 (bi_replicas (snd kb)).

(** [tags] and [blobs] list the two maps in the order of [for_each]. *)
Definition snapshot_records (tags : list (TagId * TagInfo)) (blobs : list (str * BlobInfo)) : list (list u8) :=
  map (fun it => tag_record (fst it) (snd it)) tags ++ concat (map blob_records blobs).

(** The snapshot file and the shards of the write-ahead logs. *)
Record MetaFiles := mkMetaFiles {
  mf_snapshot : option (list u8);
  mf_blob_logs : list TransactionLog;
  mf_tag_logs : list TransactionLog
}.

Definition wal_size (logs : list TransactionLog) (total : Z) : Z :=
  fold_left (fun total l => u64 (total + Size l)) logs total.

(** [FlushMetadata]: the return code, the entries written and the files. The
    snapshot is rewritten in place; [can_truncate] is whether the logs reopen. *)
Definition FlushMetadata (tags : list (TagId * TagInfo)) (blobs : list (str * BlobInfo)) (wal_capacity : Z)
    (can_open can_truncate : bool) (f : MetaFiles) : Z * nat * MetaFiles :=
  if negb can_open then (1, 0%nat, f)
  else
    let records := snapshot_records tags blobs in
    let f := mkMetaFiles (Some (concat records)) (mf_blob_logs f) (mf_tag_logs f) in
    match mf_blob_logs f with
    | [] => (0, length records, f)
    | _ =>
        let blob_logs := map Sync (mf_blob_logs f) in
        let tag_logs := map Sync (mf_tag_logs f) in
        if wal_capacity <? wal_size tag_logs (wal_size blob_logs 0)
        then (0, length records, mkMetaFiles (mf_snapshot f) (map (fun l => Truncate l can_truncate) blob_logs)
                                   (map (fun l => Truncate l can_truncate) tag_logs))
        else (0, length records, mkMetaFiles (mf_snapshot f) blob_logs tag_logs)
    end.

(** * Restoring a snapshot *)

Section Restore.
Context (query_size : nat).
(** The targets registered as volatile. *)
Context (is_volatile : TagId -> bool).

Definition get_str (bs : list u8) : option (str * list u8) :=
  '(n, bs) ← get_le 4 bs; get_bytes (Z.to_nat n) bs.

Definition get_id (bs : list u8) : option (TagId * list u8) :=
  '(major, bs) ← get_le 4 bs; '(minor, bs) ← get_le 4 bs; Some ((major, minor), bs).

Definition get_block (bs : list u8) : option (BlobBlock * list u8) :=
  '(pool, bs) ← get_id bs;
  '(query, bs) ← get_bytes query_size bs;
  '(offset, bs) ← get_le 8 bs;
  '(size, bs) ← get_le 8 bs;
  Some (BlobBlock_new pool query offset size, bs).

(** The loop over the blocks: those of volatile targets are dropped; a short
    read ends the loop with the blocks read so far and a failed stream. *)
Fixpoint get_blocks (n : nat) (bs : list u8) : list BlobBlock * option (list u8) :=
  match n with
  | O => ([], Some bs)
  | S n =>
      match get_block bs with
      | None => ([], None)
      | Some (b, bs) =>
          let '(l, rest) := get_blocks n bs in
          (if is_volatile (bb_pool b) then l else b :: l, rest)
      end
  end.

Definition get_tag (bs : list u8) : option (str * TagId * Z * list u8) :=
  '(name, bs) ← get_str bs;
  '(id, bs) ← get_id bs;
  '(total, bs) ← get_le 8 bs;
  Some (name, id, total, bs).

(** A blob without its blocks, its key and their number. *)
Definition get_blob (has_transform_flags : bool) (bs : list u8) : option (str * BlobInfo * Z * list u8) :=
  '(key, bs) ← get_str bs;
  '(name, bs) ← get_str bs;
  '(score, bs) ← get_le 4 bs;
  '(flags, bs) ← (if has_transform_flags then get_le 4 bs else Some (0, bs));
  '(lib, bs) ← get_le 4 bs;
  '(preset, bs) ← get_le 4 bs;
  '(trace, bs) ← get_le 8 bs;
  '(n, bs) ← get_le 4 bs;
  let b := mkBlobInfo name [] [] score flags lib preset trace 0 in
  let b := if negb has_transform_flags && negb (lib =? 0) then MarkTransformed b kBlobTransformCompressed else b in
  Some (key, b, n, bs).

Definition get_replica (bs : list u8) : option (str * Z * Replica * Z * list u8) :=
  '(key, bs) ← get_str bs;
  '(idx, bs) ← get_le 4 bs;
  '(name, bs) ← get_str bs;
  '(score, bs) ← get_le 4 bs;
  '(flags, bs) ← get_le 4 bs;
  '(transform, bs) ← get_le 4 bs;
  '(min_score, bs) ← get_le 4 bs;
  '(n, bs) ← get_le 4 bs;
  Some (key, idx, mkReplica name [] 0 score flags transform min_score, n, bs).

(** A new block list of a replica, and its maintained size. *)
Definition set_rep_blocks (r : Replica) (blocks : list BlobBlock) : Replica :=
  mkReplica (rp_name r) blocks (ComputeTotalSizeSlow blocks) (rp_score r) (rp_flags r) (rp_transform r) (rp_min_score r).

(** Slot [idx] of a blob becomes [r]; the slots before it are created. *)
Definition put_replica (b : BlobInfo) (idx : Z) (r : Replica) : BlobInfo :=
  match GetReplica (bi_replicas b) idx true with
  | (rs, Some i) => set_replicas b (<[i := r]> rs)
  | (rs, None) => b
  end.

(** The maps and the next tag minor seen so far. *)
Definition restore_tag (s : Meta * Z) (name : str) (id : TagId) (total : Z) : Meta * Z :=
  (put_tag (fst s) id (mkTagInfo name id total []), if snd s <=? snd id then u32 (snd id + 1) else snd s).

(** One entry: the new state, and the rest of a stream that is still good. *)
Definition restore_entry (s : Meta * Z) (bs : list u8) : (Meta * Z) * option (list u8) :=
  match get_le 1 bs with
  | None => (s, None)
  | Some (ty, bs) =>
      if ty =? 0 then
        match get_tag bs with
        | None => (s, None)
        | Some (name, id, total, bs) => (restore_tag s name id total, Some bs)
        end
      else if (ty =? 1) || (ty =? 2) then
        match get_blob (ty =? 2) bs with
        | None => (s, None)
        | Some (key, b, n, bs) =>
            let '(blocks, rest) := get_blocks (Z.to_nat n) bs in
            ((put_blob (fst s) key (set_blocks b blocks), snd s), rest)
        end
      else if ty =? 3 then
        match get_replica bs with
        | None => (s, None)
        | Some (key, idx, r, n, bs) =>
            let '(blocks, rest) := get_blocks (Z.to_nat n) bs in
            match mt_blobs (fst s) !! key with
            | Some b => ((put_blob (fst s) key (put_replica b idx (set_rep_blocks r blocks)), snd s), rest)
            | None => (s, rest)
            end
        end
      else (s, None)
  end.

(** [while (ifs.peek() != EOF)]; a file of [n] bytes has fuel [n]. *)
Fixpoint restore_loop (fuel : nat) (s : Meta * Z) (bs : list u8) : Meta * Z :=
  match fuel, bs with
  | O, _ | _, [] => s
  | S fuel, _ =>
      match restore_entry s bs with
      | (s, Some rest) => restore_loop fuel s rest
      | (s, None) => s
      end
  end.

Definition RestoreMetadataFromLog (file : option (list u8)) (m : Meta) : Meta :=
  match file with
  | None => m
  | Some bs =>
      let '(m, max_minor) := restore_loop (length bs) (m, 0) bs in
      if mt_next_minor m <? max_minor then set_next m max_minor else m
  end.

(** * Entries *)

Inductive Entry :=
| EntTag (id : TagId) (info : TagInfo)
| EntBlob (key : str) (b : BlobInfo)
| EntReplica (key : str) (idx : Z) (r : Replica).

Definition entry_bytes (e : Entry) : list u8 :=
  match e with
  | EntTag id info => tag_record id info
  | EntBlob key b => blob_record key b
  | EntReplica key idx r => replica_record key idx r
  end.

(** The blocks a restore keeps: those of the lasting targets, without spare
    capacity. *)
Definition restored_blocks (bs : list BlobBlock) : list BlobBlock :=
  map (fun b => BlobBlock_new (bb_pool b) (bb_query b) (bb_offset b) (bb_size b))
      (filter (fun b => is_volatile (bb_pool b) = false) bs).

Definition apply_entry (s : Meta * Z) (e : Entry) : Meta * Z :=
  match e with
  | EntTag id info => restore_tag s (ti_name info) id (ti_total info)
  | EntBlob key b => (put_blob (fst s) key (set_blocks (set_replicas b []) (restored_blocks (bi_blocks b))), snd s)
  | EntReplica key idx r =>
      match mt_blobs (fst s) !! key with
      | Some b => (put_blob (fst s) key (put_replica b idx (set_rep_blocks r (restored_blocks (rp_blocks r)))), snd s)
      | None => s
      end
  end.

(** ** Values in the range of their fields *)

Definition block_fits (b : BlobBlock) : Prop :=
  valid_id (bb_pool b) /\ length (bb_query b) = query_size /\ is_u64 (bb_offset b) /\ is_u64 (bb_size b).
Definition blocks_fit (bs : list BlobBlock) : Prop := Z.of_nat (length bs) < 2 ^ 32 /\ Forall block_fits bs.
Definition replica_fits (r : Replica) : Prop :=
  is_name (rp_name r) /\ is_u32 (rp_score r) /\ is_u32 (rp_flags r) /\ is_u32 (rp_transform r) /\
  is_u32 (rp_min_score r) /\ blocks_fit (rp_blocks r).
Definition blob_fits (b : BlobInfo) : Prop :=
  is_name (bi_name b) /\ is_u32 (bi_score b) /\ is_u32 (bi_transform b) /\ is_u32 (bi_lib b) /\ is_u32 (bi_preset b) /\
  is_u64 (bi_trace b) /\ blocks_fit (bi_blocks b).
Definition tag_fits (id : TagId) (t : TagInfo) : Prop := valid_id id /\ is_name (ti_name t) /\ is_u64 (ti_total t).

Definition entry_fits (e : Entry) : Prop :=
  match e with
  | EntTag id t => tag_fits id t
  | EntBlob key b => is_name key /\ blob_fits b
  | EntReplica key idx r => is_name key /\ is_u32 idx /\ replica_fits r
  end.

(** ** Reading back an entry *)

Lemma get_str_app s rest : is_name s -> get_str (put_str s ++ rest) = Some (s, rest).
Proof using.
  unfold is_name. intros Hs. unfold get_str, put_str. rewrite u32_small by lia. rewrite Nat2Z.id, firstn_all, <- app_assoc.
  rewrite get_le_app by lia. cbn [mbind option_bind]. rewrite Nat2Z.id. by apply get_bytes_app.
Qed.

Lemma get_u32_app z rest : is_u32 z -> get_le 4 (le_bytes 4 z ++ rest) = Some (z, rest).
Proof using. intros Hz. by apply get_le_app. Qed.
Lemma get_u64_app z rest : is_u64 z -> get_le 8 (le_bytes 8 z ++ rest) = Some (z, rest).
Proof using. intros Hz. by apply get_le_app. Qed.

Lemma get_id_app id rest : valid_id id -> get_id (le_bytes 4 (fst id) ++ le_bytes 4 (snd id) ++ rest) = Some (id, rest).
Proof using.
  intros [H1 H2]. unfold get_id. do 2 (rewrite get_u32_app by done; cbn [mbind option_bind]). by destruct id.
Qed.

Ltac read_field :=
  first [rewrite get_str_app by done | rewrite get_u32_app by done | rewrite get_u64_app by done
        |rewrite get_id_app by done | rewrite get_bytes_app by done];
  cbn [mbind option_bind].

Lemma get_block_app b rest :
  block_fits b -> get_block (put_block b ++ rest) = Some (BlobBlock_new (bb_pool b) (bb_query b) (bb_offset b) (bb_size b), rest).
Proof using.
  intros (H1 & H2 & H3 & H4). unfold get_block, put_block. rewrite <- !app_assoc. by repeat read_field.
Qed.

Lemma get_blocks_app bs rest :
  blocks_fit bs ->
  exists n, get_le 4 (put_blocks bs ++ rest) = Some (n, concat (map put_block bs) ++ rest) /\
    get_blocks (Z.to_nat n) (concat (map put_block bs) ++ rest) = (restored_blocks bs, Some rest).
Proof using.
  intros [Hn Hbs]. exists (u32 (Z.of_nat (length bs))). unfold put_blocks. rewrite <- app_assoc.
  split; [apply get_u32_app, u32_range|]. rewrite u32_small, Nat2Z.id by lia. clear Hn. unfold restored_blocks.
  induction Hbs as [|b bs Hb Hbs IH]; [done|]. cbn [length get_blocks map concat]. rewrite <- app_assoc, get_block_app by done.
  rewrite IH. cbn [bb_pool BlobBlock_new]. rewrite filter_cons. destruct (is_volatile (bb_pool b)).
  - by rewrite decide_False.
  - by rewrite decide_True.
Qed.

Lemma restore_entry_app s e rest :
  entry_fits e -> restore_entry s (entry_bytes e ++ rest) = (apply_entry s e, Some rest).
Proof using.
  destruct e as [id t|key b|key idx r]; cbn [entry_fits entry_bytes]; unfold restore_entry.
  - intros (H1 & H2 & H3). unfold tag_record. rewrite <- !app_assoc, get_le_app by lia. cbn [Z.eqb]. unfold get_tag.
    by repeat read_field.
  - intros [Hk (H1 & H2 & H3 & H4 & H5 & H6 & H7)]. unfold blob_record. rewrite <- !app_assoc, get_le_app by lia.
    cbn [Z.eqb Pos.eqb orb]. unfold get_blob. repeat read_field.
    destruct (get_blocks_app (bi_blocks b) rest H7) as (n & -> & E). cbn [mbind option_bind negb andb]. by rewrite E.
  - intros (Hk & Hi & H1 & H2 & H3 & H4 & H5 & H6). unfold replica_record. rewrite <- !app_assoc, get_le_app by lia.
    cbn [Z.eqb Pos.eqb orb]. unfold get_replica. repeat read_field.
    destruct (get_blocks_app (rp_blocks r) rest H6) as (n & -> & E). cbn [mbind option_bind]. rewrite E.
    cbn [apply_entry]. by destruct (mt_blobs s.1 !! key).
Qed.

Lemma entry_bytes_nonempty e : (1 <= length (entry_bytes e))%nat.
Proof using. destruct e; cbn [entry_bytes]; unfold tag_record, blob_record, replica_record; rewrite length_app, length_le_bytes; lia. Qed.

Lemma restore_loop_entries es s fuel :
  Forall entry_fits es -> (length (concat (map entry_bytes es)) <= fuel)%nat ->
  restore_loop fuel s (concat (map entry_bytes es)) = fold_left apply_entry es s.
Proof using.
  intros Hes. revert s fuel. induction Hes as [|e es He Hes IH]; intros s fuel Hf; cbn [map concat fold_left].
  - by destruct fuel.
  - cbn [map concat] in Hf. rewrite length_app in Hf. pose proof (entry_bytes_nonempty e) as Hn.
    destruct fuel as [|fuel]; [lia|]. cbn [restore_loop]. rewrite restore_entry_app by done.
    destruct (entry_bytes e ++ _) eqn:E; [destruct (entry_bytes e); cbn in *; [lia|done]|]. apply IH. lia.
Qed.

(** * What a restore gives back *)

Definition restored_replica (r : Replica) : Replica :=
  if no_blocks r then Replica_new else set_rep_blocks r (restored_blocks (rp_blocks r)).

(** The replicas up to the last one with blocks. *)
Fixpoint strip_empty (rs : list Replica) : list Replica :=
  match rs with
  | [] => []
  | r :: rs => match strip_empty rs with [] => if no_blocks r then [] else [r] | l => r :: l end
  end.

Definition restored_replicas (rs : list Replica) : list Replica := map restored_replica (strip_empty rs).

Definition restored_blob (b : BlobInfo) : BlobInfo :=
  set_blocks (set_replicas b (restored_replicas (bi_replicas b))) (restored_blocks (bi_blocks b)).

Lemma strip_empty_snoc rs r : strip_empty (rs ++ [r]) = if no_blocks r then strip_empty rs else rs ++ [r].
Proof using.
  induction rs as [|x rs IH]; cbn [app strip_empty]; [done|]. rewrite IH.
  destruct (no_blocks r); [done|]. by destruct rs.
Qed.

Lemma strip_empty_length rs : (length (strip_empty rs) <= length rs)%nat.
Proof using.
  induction rs as [|r rs IH]; cbn; [lia|]. destruct (strip_empty rs); cbn in *; [destruct (no_blocks r); cbn; lia|lia].
Qed.

Lemma strip_empty_pad rs :
  map restored_replica rs = restored_replicas rs ++ replicate (length rs - length (restored_replicas rs)) Replica_new.
Proof using.
  unfold restored_replicas. rewrite length_map. induction rs as [|r rs IH]; [done|]. cbn [map strip_empty length]. rewrite IH.
  destruct (strip_empty rs) as [|x l]; cbn [map app length]; [|done].
  destruct (no_blocks r) eqn:E; cbn [map app length].
  - rewrite Nat.sub_0_r. cbn. unfold restored_replica. by rewrite E.
  - by rewrite Nat.sub_0_r, Nat.sub_succ, Nat.sub_0_r.
Qed.

(** Filling the slot after those of [done]. *)
Lemma put_replica_restored b done r :
  no_blocks r = false -> bi_replicas b = restored_replicas done ->
  put_replica b (Z.of_nat (length done) + 1) (set_rep_blocks r (restored_blocks (rp_blocks r))) =
  set_replicas b (restored_replicas (done ++ [r])).
Proof using.
  intros Hr Hb. unfold put_replica, GetReplica. rewrite (proj2 (Z.leb_gt _ _)) by lia. rewrite Hb.
  pose proof (strip_empty_length done) as Hl. assert (length (restored_replicas done) <= length done)%nat as Hl'
    by (unfold restored_replicas; by rewrite length_map).
  rewrite (proj2 (Nat.ltb_lt _ _)) by lia. f_equal.
  assert (restored_replicas (done ++ [r]) = map restored_replica done ++ [restored_replica r]) as ->
    by (unfold restored_replicas; by rewrite strip_empty_snoc, Hr, map_app).
  rewrite strip_empty_pad. set (L := restored_replicas done) in *.
  replace (Z.to_nat (Z.of_nat (length done) + 1)) with (S (length done)) by lia.
  replace (S (length done) - length L)%nat with (S (length done - length L)) by lia.
  rewrite replicate_S_end, app_assoc.
  rewrite insert_app_r_alt by (rewrite length_app, length_replicate; lia).
  rewrite length_app, length_replicate. replace (S (length done) - 1 - (length L + (length done - length L)))%nat with 0%nat by lia. cbn. unfold restored_replica. by rewrite Hr.
Qed.

Fixpoint replica_entries (key : str) (i : Z) (rs : list Replica) : list Entry :=
  match rs with
  | [] => []
  | r :: rs => (if no_blocks r then [] else [EntReplica key (i + 1) r]) ++ replica_entries key (i + 1) rs
  end.
Definition blob_entries (kb : str * BlobInfo) : list Entry :=
  EntBlob (fst kb) (snd kb) :: replica_entries (fst kb) 0 (bi_replicas (snd kb)).
Definition snapshot_entries (tags : list (TagId * TagInfo)) (blobs : list (str * BlobInfo)) : list Entry :=
  map (fun it => EntTag (fst it) (snd it)) tags ++ concat (map blob_entries blobs).

Lemma replica_entries_bytes key i rs : map entry_bytes (replica_entries key i rs) = replica_records key i rs.
Proof using. revert i. induction rs as [|r rs IH]; intros i; cbn; [done|]. destruct (no_blocks r); cbn; by rewrite IH. Qed.

Lemma snapshot_entries_bytes tags blobs : map entry_bytes (snapshot_entries tags blobs) = snapshot_records tags blobs.
Proof using.
  unfold snapshot_entries, snapshot_records. rewrite map_app, map_map. f_equal. rewrite concat_map, map_map. f_equal.
  apply map_ext. intros [key b]. unfold blob_entries, blob_records. cbn [map fst snd]. by rewrite replica_entries_bytes.
Qed.

Lemma apply_replicas key s b done rs :
  mt_blobs (fst s) !! key = Some b -> bi_replicas b = restored_replicas done ->
  fold_left apply_entry (replica_entries key (Z.of_nat (length done)) rs) s =
  (put_blob (fst s) key (set_replicas b (restored_replicas (done ++ rs))), snd s).
Proof using.
  revert s b done. induction rs as [|r rs IH]; intros s b done Hb Hr; cbn [replica_entries fold_left].
  - rewrite app_nil_r, <- Hr. destruct s as [m mx], b, m. cbn in *. unfold put_blob, set_blobs. cbn. by rewrite insert_id.
  - replace (done ++ r :: rs) with ((done ++ [r]) ++ rs) by (by rewrite <- app_assoc).
    assert (Z.of_nat (length done) + 1 = Z.of_nat (length (done ++ [r]))) as El by (rewrite length_app; cbn; lia).
    destruct (no_blocks r) eqn:E; cbn [app fold_left].
    + rewrite El. apply IH; [done|]. unfold restored_replicas. by rewrite strip_empty_snoc, E.
    + cbn [apply_entry]. rewrite Hb, put_replica_restored by done. rewrite El.
      rewrite (IH _ (set_replicas b (restored_replicas (done ++ [r])))).
      * cbn [fst snd]. unfold put_blob, set_blobs. cbn [mt_blobs mt_names mt_tags mt_next_minor]. by rewrite insert_insert_eq.
      * cbn. by rewrite lookup_insert_eq.
      * done.
Qed.

Lemma apply_blob kb s : fold_left apply_entry (blob_entries kb) s = (put_blob (fst s) (fst kb) (restored_blob (snd kb)), snd s).
Proof using.
  destruct kb as [key b]. unfold blob_entries. cbn [fst snd fold_left apply_entry].
  change 0 with (Z.of_nat (@length Replica [])).
  rewrite (apply_replicas key _ (set_blocks (set_replicas b []) (restored_blocks (bi_blocks b))) []).
  - cbn [fst snd]. unfold put_blob, set_blobs. cbn [mt_blobs mt_names mt_tags mt_next_minor]. by rewrite insert_insert_eq.
  - cbn. by rewrite lookup_insert_eq.
  - done.
Qed.

Lemma apply_blobs blobs s :
  fold_left apply_entry (concat (map blob_entries blobs)) s =
  (set_blobs (fst s) (foldl (fun m kb => <[kb.1 := restored_blob kb.2]> m) (mt_blobs (fst s)) blobs), snd s).
Proof using.
  revert s. induction blobs as [|kb blobs IH]; intros s; cbn [map concat].
  - by destruct s as [[] ?].
  - rewrite fold_left_app, apply_blob, IH. done.
Qed.

(** ** The whole snapshot *)

(** Ranges of the fields, and each tag bound under its own name. *)
Record meta_fits (m : Meta) : Prop := {
  mf_tag : forall id t, mt_tags m !! id = Some t ->
    tag_fits id t /\ ti_id t = id /\ mt_names m !! ti_name t = Some id /\ snd id < 2 ^ 32 - 1;
  mf_blob : forall key b, mt_blobs m !! key = Some b ->
    is_name key /\ blob_fits b /\ Forall replica_fits (bi_replicas b) /\ Z.of_nat (length (bi_replicas b)) < 2 ^ 31
}.

Lemma snapshot_entries_fit m tags blobs :
  meta_fits m -> tags ≡ₚ map_to_list (mt_tags m) -> blobs ≡ₚ map_to_list (mt_blobs m) ->
  Forall entry_fits (snapshot_entries tags blobs).
Proof using.
  intros [Ht Hb] Etags Eblobs. apply Forall_app_2.
  - apply Forall_forall. intros e (it & -> & Hit)%list_elem_of_fmap. rewrite Etags in Hit.
    destruct it as [id t]. apply elem_of_map_to_list in Hit. apply (Ht _ _ Hit).
  - apply Forall_concat, Forall_forall. intros l (kb & -> & Hkb)%list_elem_of_fmap. rewrite Eblobs in Hkb.
    destruct kb as [key b]. apply elem_of_map_to_list in Hkb. destruct (Hb _ _ Hkb) as (Hk & Hf & Hr & Hl).
    unfold blob_entries. cbn [fst snd]. constructor; [done|]. clear Hf Hkb Ht Hb Etags Eblobs tags blobs m.
    enough (forall i, 0 <= i -> i + Z.of_nat (length (bi_replicas b)) < 2 ^ 31 ->
      Forall entry_fits (replica_entries key i (bi_replicas b))) as H by (apply H; lia).
    clear Hl. induction Hr as [|r rs Hr Hrs IH]; intros i Hi Hl; cbn [replica_entries length] in *; [constructor|].
    apply Forall_app_2; [|apply IH; lia]. destruct (no_blocks r); [constructor|].
    constructor; [|constructor]. cbn. unfold is_u32. split; [done|]. split; [lia|done].
Qed.

Lemma apply_tags tags s :
  fold_left apply_entry (map (fun it => EntTag (fst it) (snd it)) tags) s =
  (mkMeta (fold_insert (fun it => ti_name (snd it)) fst (mt_names (fst s)) tags)
     (fold_insert fst (fun it => mkTagInfo (ti_name (snd it)) (fst it) (ti_total (snd it)) []) (mt_tags (fst s)) tags)
     (mt_blobs (fst s)) (mt_next_minor (fst s)),
   fold_left (fun mx (it : TagId * TagInfo) => if mx <=? snd (fst it) then u32 (snd (fst it) + 1) else mx) tags (snd s)).
Proof using.
  revert s. induction tags as [|[id t] tags IH]; intros [m mx]; cbn [map fold_left]; [by destruct m|].
  rewrite IH. done.
Qed.

Lemma fold_max_minor (tags : list (TagId * TagInfo)) mx :
  Forall (fun it => 0 <= snd (fst it) < 2 ^ 32 - 1) tags ->
  let mx' := fold_left (fun mx (it : TagId * TagInfo) => if mx <=? snd (fst it) then u32 (snd (fst it) + 1) else mx) tags mx in
  mx <= mx' /\ Forall (fun it => snd (fst it) < mx') tags.
Proof using.
  intros H. revert mx. induction H as [|[id t] tags Hit Htags IH]; intros mx; cbn [fold_left]; [split; [lia|constructor]|].
  cbn [fst snd] in *. destruct (IH (if mx <=? snd id then u32 (snd id + 1) else mx)) as [H1 H2].
  rewrite u32_small in * by lia. destruct (Z.leb_spec mx (snd id)); (split; [lia|]); (constructor; [cbn; lia|done]).
Qed.

(** ** The restored maps *)

Definition restored_tag (t : TagInfo) : TagInfo := mkTagInfo (ti_name t) (ti_id t) (ti_total t) [].

Record restored (m m' : Meta) : Prop := {
  rs_tags : mt_tags m' = restored_tag <$> mt_tags m;
  rs_blobs : mt_blobs m' = restored_blob <$> mt_blobs m;
  rs_names : forall name id, mt_names m' !! name = Some id <-> exists t, mt_tags m !! id = Some t /\ ti_name t = name;
  rs_next : forall id t, mt_tags m !! id = Some t -> snd id < mt_next_minor m'
}.

Lemma NoDup_names m tags :
  meta_fits m -> tags ≡ₚ map_to_list (mt_tags m) -> NoDup ((fun it : TagId * TagInfo => ti_name (snd it)) <$> tags).
Proof using.
  intros [Ht _] E. apply NoDup_fmap_2_strong; [|rewrite E; apply NoDup_map_to_list].
  intros [id t] [id' t'] H H'. rewrite E in H, H'. apply elem_of_map_to_list in H, H'. cbn. intros En.
  destruct (Ht _ _ H) as (_ & _ & H1 & _), (Ht _ _ H') as (_ & _ & H2 & _). rewrite En in H1. rewrite H1 in H2.
  injection H2 as ->. rewrite H in H'. by injection H' as ->.
Qed.

Lemma restore_snapshot m tags blobs next :
  meta_fits m -> tags ≡ₚ map_to_list (mt_tags m) -> blobs ≡ₚ map_to_list (mt_blobs m) ->
  restored m (RestoreMetadataFromLog (Some (concat (snapshot_records tags blobs))) (empty_meta next)).
Proof using.
  intros Hm Et Eb. unfold RestoreMetadataFromLog. rewrite <- snapshot_entries_bytes.
  rewrite restore_loop_entries; [|by apply (snapshot_entries_fit m)|lia].
  unfold snapshot_entries. rewrite fold_left_app, apply_blobs, apply_tags. cbn [fst snd].
  match goal with |- context [fold_left ?f tags 0] => set (mx := fold_left f tags 0) end.
  assert (forall id t, mt_tags m !! id = Some t -> snd id < mx) as Hmx.
  { destruct (fold_max_minor tags 0) as [_ H].
    - apply Forall_forall. intros [id t] H. rewrite Et in H. apply elem_of_map_to_list in H.
      destruct (mf_tag _ Hm _ _ H) as ([[_ H1] _] & _ & _ & H2). cbn. lia.
    - intros id t Hid. rewrite Forall_forall in H. apply (H (id, t)). rewrite Et. by apply elem_of_map_to_list. }
  assert (NoDup (fst <$> tags)) as Hnd by (rewrite Et; apply NoDup_fst_map_to_list).
  split.
  - assert (fold_insert fst (fun it => mkTagInfo (ti_name (snd it)) (fst it) (ti_total (snd it)) []) ∅ tags =
      restored_tag <$> mt_tags m) as <-; [|by case_match].
    apply fold_insert_map_to_list; [done|]. intros id v. rewrite lookup_fmap_Some. split.
    + intros (t & <- & H). exists (id, t). rewrite Et, elem_of_map_to_list. split; [done|]. split; [done|].
      unfold restored_tag. cbn. by destruct (mf_tag _ Hm _ _ H) as (_ & -> & _).
    + intros ([id' t] & H & <- & <-). rewrite Et, elem_of_map_to_list in H. exists t. split; [|done].
      unfold restored_tag. cbn. by destruct (mf_tag _ Hm _ _ H) as (_ & -> & _).
  - assert (fold_insert fst (fun kb => restored_blob (snd kb)) ∅ blobs = restored_blob <$> mt_blobs m) as <-; [|by case_match].
    apply fold_insert_map_to_list; [rewrite Eb; apply NoDup_fst_map_to_list|]. intros k v. rewrite lookup_fmap_Some. split.
    + intros (b & <- & H). exists (k, b). by rewrite Eb, elem_of_map_to_list.
    + intros ([k' b] & H & <- & <-). rewrite Eb, elem_of_map_to_list in H. by exists b.
  - intros name id. assert (fold_insert (fun it => ti_name (snd it)) fst ∅ tags !! name = Some id <->
      exists t, mt_tags m !! id = Some t /\ ti_name t = name) as <-; [|by case_match].
    rewrite lookup_fold_insert by (by apply (NoDup_names m)). rewrite lookup_empty. split.
    + intros [([id' t] & H & <- & <-)|[_ ?]]; [|done]. rewrite Et, elem_of_map_to_list in H. by exists t.
    + intros (t & H & <-). left. exists (id, t). by rewrite Et, elem_of_map_to_list.
  - intros id t H. specialize (Hmx _ _ H). cbn. destruct (Z.ltb_spec next mx); cbn; lia.
Qed.
End Restore.

(** A map whose entries a boolean test accepts satisfies a predicate on them. *)
Lemma map_forall_decide {K V} `{Countable K} (P : K -> V -> Prop) `{!forall k v, Decision (P k v)} (m : gmap K V) :
  forallb (fun kv => bool_decide (P (fst kv) (snd kv))) (map_to_list m) = true ->
  forall k v, m !! k = Some v -> P k v.
Proof.
  intros Hall k v Hk. rewrite forallb_forall in Hall. specialize (Hall (k, v)).
  rewrite <- list_elem_of_In, elem_of_map_to_list in Hall. specialize (Hall Hk).
  cbn in Hall. by apply bool_decide_eq_true in Hall.
Qed.

(** * Properties *)

(** A flush, then a restart. Whatever the order in which the maps are visited,
    the snapshot a flush writes restores every tag under its own name, with its
    size; every blob with its attributes, its blocks on lasting targets and a
    size that is their sum; and its replicas up to the last one that has blocks,
    in their own slots. No other tag, name or blob appears, and a new tag gets
    an id that none of the restored ones has. Aliases are not restored. *)
Theorem FlushMetadata_RestoreMetadataFromLog (query_size : nat) (is_volatile : TagId -> bool) (m : Meta)
    (tags : list (TagId * TagInfo)) (blobs : list (str * BlobInfo)) (capacity next : Z) (can_truncate : bool)
    (f f' : MetaFiles) (rc : Z) (n : nat) :
  meta_fits query_size m -> tags ≡ₚ map_to_list (mt_tags m) -> blobs ≡ₚ map_to_list (mt_blobs m) ->
  FlushMetadata tags blobs capacity true can_truncate f = (rc, n, f') ->
  rc = 0 /\ restored is_volatile m (RestoreMetadataFromLog query_size is_volatile (mf_snapshot f') (empty_meta next)).
Proof.
  intros Hm Et Eb HF. assert (rc = 0 /\ mf_snapshot f' = Some (concat (snapshot_records tags blobs))) as [-> ->].
  { unfold FlushMetadata in HF. cbn in HF. destruct (mf_blob_logs f); [by injection HF as <- _ <-|].
    destruct (_ <? _); by injection HF as <- _ <-. }
  split; [done|]. by apply restore_snapshot.
Qed.

Definition example_meta : Meta :=
  let block pool off := mkBlobBlock (pool, 1) [Byte.x01; Byte.x02] off 100 4096 in
  mkMeta {[lit "t" := (1, 5)]}
    {[(1, 5) := mkTagInfo (lit "t") (1, 5) 200 []]}
    {[composite_key (1, 5) (lit "b") :=
        mkBlobInfo (lit "b") [block 7 0; block 8 4096]
          [Replica_new; mkReplica (lit "nvme") [block 8 8192] 100 0 2 0 0; Replica_new] 0 3 1 2 0 200]} 6.

Lemma example_meta_fits : meta_fits 2 example_meta.
Proof.
  split.
  - apply (map_forall_decide (fun id t => tag_fits id t /\ ti_id t = id /\ mt_names example_meta !! ti_name t = Some id /\ snd id < 2 ^ 32 - 1)).
    vm_compute. reflexivity.
  - apply (map_forall_decide (fun key b => is_name key /\ blob_fits 2 b /\ Forall (replica_fits 2) (bi_replicas b) /\
      Z.of_nat (length (bi_replicas b)) < 2 ^ 31)).
    vm_compute. reflexivity.
Qed.

(** Target 7 is volatile: the blob keeps its block on target 8, and the replica
    keeps its slot. *)
Lemma FlushMetadata_RestoreMetadataFromLog_witness :
  exists f', FlushMetadata (map_to_list (mt_tags example_meta)) (map_to_list (mt_blobs example_meta)) 4096 true true
    (mkMetaFiles None [] []) = (0, 3%nat, f') /\
  let m' := RestoreMetadataFromLog 2 (fun id => fst id =? 7) (mf_snapshot f') (empty_meta 1) in
  restored (fun id => fst id =? 7) example_meta m' /\
  (bi_total <$> mt_blobs m' !! composite_key (1, 5) (lit "b")) = Some 100 /\ mt_next_minor m' = 6.
Proof.
  eexists. split; [vm_compute; reflexivity|].
  split; [|split; vm_compute; reflexivity].
  eapply (FlushMetadata_RestoreMetadataFromLog 2 (fun id => fst id =? 7) example_meta (map_to_list (mt_tags example_meta))
            (map_to_list (mt_blobs example_meta)) 4096 1 true (mkMetaFiles None [] [])).
  - exact example_meta_fits.
  - done.
  - done.
  - vm_compute. reflexivity.
Defined.

(** The snapshot is rewritten in place: a crash inside the write leaves a file
    whose restore keeps a blob with only the first of its blocks. *)
Theorem torn_snapshot_truncates_blob :
  let file := concat (snapshot_records (map_to_list (mt_tags example_meta)) (map_to_list (mt_blobs example_meta))) in
  let m' := RestoreMetadataFromLog 2 (fun _ => false) (Some (take 100 file)) (empty_meta 1) in
  (bi_total <$> mt_blobs example_meta !! composite_key (1, 5) (lit "b")) = Some 200 /\
  (bi_total <$> mt_blobs m' !! composite_key (1, 5) (lit "b")) = Some 100.
Proof. split; vm_compute; reflexivity. Qed.
