(* ===== verification/MetaReplay.v ===== *)
(** Replay of the write-ahead logs of the context transfer engine
    ([context-transfer-engine/core/src/core_runtime.cc]:
    [ReplayTransactionLogs]), and what a restart recovers.

    Each worker has a log of tag operations and one of blob operations. A
    restart restores the snapshot, replays every tag log, then every blob log,
    and recomputes the tag sizes. *)
From Stdlib Require Import ZArith Lia Strings.String.
From stdpp Require Import base list gmap relations.
From S2P Require Import Prelude TxnLog Text BlobMeta MetaLog.

Open Scope Z_scope.

Definition TxnType_of_u8 (z : Z) : option TxnType :=
  match z with
  | 0 => Some kCreateNewBlob | 1 => Some kExtendBlob | 2 => Some kClearBlob | 3 => Some kDelBlob
  | 4 => Some kCreateTag | 5 => Some kDelTag | 6 => Some kSetBlobTransform | 7 => Some kExtendReplica
  | _ => None
  end.

Definition is_tag_txn (ty : TxnType) : bool := match ty with kCreateTag | kDelTag => true | _ => false end.

Definition ref_key (r : TxnBlobRef) : str := composite_key (tx_tag_major r, tx_tag_minor r) (tx_blob_name r).
Definition txn_tag_id (t : TxnTag) : TagId := (tt_tag_major t, tt_tag_minor t).

Section Replay.
Context (query_size : nat).
Context (is_volatile : TagId -> bool).

(** * Replay *)

Definition block_of_txn (tb : TxnExtendBlobBlock) : BlobBlock :=
  BlobBlock_new (tb_bdev_major tb, tb_bdev_minor tb) (tb_target_query tb) (tb_target_offset tb) (tb_size tb).

(** The blocks of a record, those of volatile targets dropped. *)
Definition replayed_blocks (tbs : list TxnExtendBlobBlock) : list BlobBlock :=
  map block_of_txn (filter (fun tb => is_volatile (tb_bdev_major tb, tb_bdev_minor tb) = false) tbs).

(** The maps and the next tag minor seen so far. *)
Definition replay_tag (s : Meta * Z) (t : Txn) : Meta * Z :=
  match t with
  | CreateTag t =>
      let id := txn_tag_id t in
      (put_tag (fst s) id (TagInfo_new (tt_tag_name t) id), if snd s <=? snd id then u32 (snd id + 1) else snd s)
  | DelTag t =>
      let id := txn_tag_id t in
      let m := fst s in
      (mkMeta (delete (tt_tag_name t) (mt_names m)) (delete id (mt_tags m))
         (filter (fun kb => has_tag_prefix id (fst kb) = false) (mt_blobs m)) (mt_next_minor m), snd s)
  | _ => s
  end.

(** A record that changes an existing blob and is skipped when there is none. *)
Definition update_blob (m : Meta) (r : TxnBlobRef) (f : BlobInfo -> BlobInfo) : Meta :=
  match mt_blobs m !! ref_key r with
  | Some b => put_blob m (ref_key r) (f b)
  | None => m
  end.

Definition create_blob (r : TxnBlobRef) (score : Z) (existing : option BlobInfo) : BlobInfo :=
  let b := mkBlobInfo (tx_blob_name r) [] [] score 0 0 2 0 0 in
  match existing with
  | Some e => set_blocks (set_replicas (set_transform b (bi_transform e)) (bi_replicas e)) (bi_blocks e)
  | None => b
  end.

Definition replay_blob (m : Meta) (t : Txn) : Meta :=
  match t with
  | CreateNewBlob t => put_blob m (ref_key (cb_ref t)) (create_blob (cb_ref t) (cb_score t) (mt_blobs m !! ref_key (cb_ref t)))
  | ExtendBlob t => update_blob m (xb_ref t) (fun b => set_blocks b (replayed_blocks (xb_new_blocks t)))
  | ExtendReplica t =>
      update_blob m (xr_ref t) (fun b =>
        put_replica b (xr_replica t)
          (set_rep_blocks (mkReplica (xr_replica_name t) [] 0 (xr_score t) (xr_flags t) (xr_transform_flags t) (xr_min_score t))
             (replayed_blocks (xr_new_blocks t))))
  | ClearBlob r => update_blob m r (fun b => set_blocks b [])
  | SetBlobTransform t => update_blob m (sx_ref t) (fun b => set_transform b (Z.lor (bi_transform b) (sx_transform_flags t)))
  | DelBlob r => set_blobs m (delete (ref_key r) (mt_blobs m))
  | _ => m
  end.

(** One shard's file: each record of a type the phase handles is deserialized
    and applied; [None] is a payload read past its end, which the source does
    not check. *)
Fixpoint replay_entries {S} (handled : TxnType -> bool) (f : S -> Txn -> S) (s : S) (es : list (Z * list u8)) : option S :=
  match es with
  | [] => Some s
  | (ty, payload) :: es =>
      match TxnType_of_u8 ty with
      | Some ty =>
          if handled ty then t ← Deserialize query_size ty payload; replay_entries handled f (f s t) es
          else replay_entries handled f s es
      | None => replay_entries handled f s es
      end
  end.

Definition load_shard (file : list u8) : list (Z * list u8) := Load (Open (mkTransactionLog false 0 [] (Some file)) 0 true).

Fixpoint replay_shards {S} (handled : TxnType -> bool) (f : S -> Txn -> S) (s : S) (files : list (list u8)) : option S :=
  match files with
  | [] => Some s
  | file :: files => s ← replay_entries handled f s (load_shard file); replay_shards handled f s files
  end.

(** Phase 3 for one tag: the sizes of the blobs under its prefix. *)
Definition tag_total (blobs : gmap str BlobInfo) (id : TagId) : Z :=
  fold_left (fun total kb => if has_tag_prefix id (fst kb) then u64 (total + bi_total (snd kb)) else total) (map_to_list blobs) 0.

Definition recompute_totals (m : Meta) : Meta :=
  set_tags m (map_imap (fun id t => Some (mkTagInfo (ti_name t) (ti_id t) (tag_total (mt_blobs m) id) (ti_aliases t))) (mt_tags m)).

(** [tag_files] and [blob_files] are the shards, numbered from 0. *)
Definition ReplayTransactionLogs (tag_files blob_files : list (list u8)) (m : Meta) : option Meta :=
  '(m, max_minor) ← replay_shards is_tag_txn replay_tag (m, mt_next_minor m) tag_files;
  m ← replay_shards (fun ty => negb (is_tag_txn ty)) replay_blob m blob_files;
  let m := recompute_totals m in
  Some (if mt_next_minor m <? max_minor then set_next m max_minor else m).

(** * What lasts of a blob

    A blob as a restart can know it: its name, its transform flags, its blocks
    on lasting targets, and the replicas that have such blocks. *)

Record BlobView := mkBlobView {
  bv_name : str; bv_transform : Z; bv_blocks : list BlobBlock; bv_replicas : gmap nat Replica
}.

Abbreviation kept := (restored_blocks is_volatile).

Definition replica_view (r : Replica) : option Replica :=
  match kept (rp_blocks r) with
  | [] => None
  | bs => Some (set_rep_blocks r bs)
  end.

Definition replicas_view (rs : list Replica) : gmap nat Replica := omap replica_view (map_seq 0 rs).

Definition view (b : BlobInfo) : BlobView :=
  mkBlobView (bi_name b) (bi_transform b) (kept (bi_blocks b)) (replicas_view (bi_replicas b)).

(** What a record makes of the view of the blob stored under [key]. *)
Definition update_view (x : option BlobView) (f : BlobView -> BlobView) : option BlobView := f <$> x.

Definition alter_slot (idx : Z) (r : option Replica) (m : gmap nat Replica) : gmap nat Replica :=
  if idx <=? 0 then m else partial_alter (fun _ => r) (Z.to_nat idx - 1)%nat m.

Definition set_view_replica (v : BlobView) (idx : Z) (r : Replica) : BlobView :=
  mkBlobView (bv_name v) (bv_transform v) (bv_blocks v)
    (alter_slot idx (replica_view r) (bv_replicas v)).

Definition txn_replica (t : TxnExtendReplica) : Replica :=
  set_rep_blocks (mkReplica (xr_replica_name t) [] 0 (xr_score t) (xr_flags t) (xr_transform_flags t) (xr_min_score t))
    (replayed_blocks (xr_new_blocks t)).

Definition view_op (t : Txn) (x : option BlobView) : option BlobView :=
  match t with
  | CreateNewBlob t =>
      let name := tx_blob_name (cb_ref t) in
      Some match x with
           | Some v => mkBlobView name (bv_transform v) (bv_blocks v) (bv_replicas v)
           | None => mkBlobView name 0 [] ∅
           end
  | ExtendBlob t =>
      update_view x (fun v => mkBlobView (bv_name v) (bv_transform v) (replayed_blocks (xb_new_blocks t)) (bv_replicas v))
  | ExtendReplica t => update_view x (fun v => set_view_replica v (xr_replica t) (txn_replica t))
  | ClearBlob _ => update_view x (fun v => mkBlobView (bv_name v) (bv_transform v) [] (bv_replicas v))
  | SetBlobTransform t =>
      update_view x (fun v => mkBlobView (bv_name v) (Z.lor (bv_transform v) (sx_transform_flags t)) (bv_blocks v) (bv_replicas v))
  | DelBlob _ => None
  | CreateTag _ | DelTag _ => x
  end.

(** The blob a record is about. *)
Definition txn_key (t : Txn) : option str :=
  match t with
  | CreateNewBlob t => Some (ref_key (cb_ref t))
  | ExtendBlob t => Some (ref_key (xb_ref t))
  | ExtendReplica t => Some (ref_key (xr_ref t))
  | ClearBlob r | DelBlob r => Some (ref_key r)
  | SetBlobTransform t => Some (ref_key (sx_ref t))
  | CreateTag _ | DelTag _ => None
  end.

Definition key_op (key : str) (t : Txn) (x : option BlobView) : option BlobView :=
  if decide (txn_key t = Some key) then view_op t x else x.

Definition blob_view (m : Meta) (key : str) : option BlobView := view <$> mt_blobs m !! key.

(** ** Views are kept by a restore and a replay *)

Lemma kept_kept bs : kept (kept bs) = kept bs.
Proof using.
  unfold restored_blocks. induction bs as [|b bs IH]; [done|]. rewrite filter_cons. destruct (decide _) as [Hb|Hb]; [|done].
  cbn [map]. rewrite filter_cons. cbn [BlobBlock_new bb_pool]. rewrite decide_True by done. cbn [map]. by rewrite IH.
Qed.

Lemma kept_replayed tbs : kept (replayed_blocks tbs) = replayed_blocks tbs.
Proof using.
  unfold restored_blocks, replayed_blocks. induction tbs as [|b bs IH]; [done|]. rewrite filter_cons.
  destruct (decide _) as [Hb|Hb]; [|done]. cbn [map]. rewrite filter_cons. rewrite decide_True by done. cbn [map]. by rewrite IH.
Qed.

Lemma replicas_view_lookup rs i : replicas_view rs !! i = rs !! i ≫= replica_view.
Proof using. unfold replicas_view. by rewrite lookup_omap, lookup_map_seq_0. Qed.

Lemma replica_view_empty r : no_blocks r = true -> replica_view r = None.
Proof using. unfold no_blocks, replica_view. by destruct (rp_blocks r). Qed.

Lemma replica_view_restored r : replica_view (restored_replica is_volatile r) = replica_view r.
Proof using.
  unfold restored_replica. destruct (no_blocks r) eqn:E; [by rewrite (replica_view_empty r)|].
  unfold replica_view. cbn [set_rep_blocks rp_blocks]. rewrite kept_kept. by destruct (kept (rp_blocks r)).
Qed.

Lemma strip_empty_view rs i : (strip_empty rs !! i) ≫= replica_view = rs !! i ≫= replica_view.
Proof using.
  revert i. induction rs as [|r rs IH]; intros i; [done|]. cbn [strip_empty]. destruct (strip_empty rs) as [|x l] eqn:E.
  - destruct (no_blocks r) eqn:Er.
    + rewrite lookup_nil. destruct i as [|i]; cbn; [by rewrite (replica_view_empty r)|]. by rewrite <- IH.
    + destruct i as [|i]; cbn; [done|]. by rewrite <- IH.
  - destruct i as [|i]; [done|]. cbn [lookup list_lookup]. apply IH.
Qed.

Lemma replicas_view_restored rs : replicas_view (restored_replicas is_volatile rs) = replicas_view rs.
Proof using.
  apply map_eq. intros i. rewrite !replicas_view_lookup. unfold restored_replicas. rewrite list_lookup_fmap, <- strip_empty_view.
  destruct (strip_empty rs !! i) as [r|]; cbn; [apply replica_view_restored|done].
Qed.

Lemma view_restored b : view (restored_blob is_volatile b) = view b.
Proof using.
  unfold view, restored_blob. cbn [set_blocks set_replicas bi_name bi_transform bi_blocks bi_replicas].
  by rewrite kept_kept, replicas_view_restored.
Qed.

Lemma replicas_view_new rs n : replicas_view (rs ++ replicate n Replica_new) = replicas_view rs.
Proof using.
  apply map_eq. intros i. rewrite !replicas_view_lookup. destruct (decide (i < length rs)%nat).
  - by rewrite lookup_app_l.
  - rewrite lookup_app_r by lia. rewrite (lookup_ge_None_2 rs) by lia. cbn.
    destruct (replicate n Replica_new !! (i - length rs)%nat) eqn:E; [|done]. by apply lookup_replicate in E as [-> _].
Qed.

Lemma replicas_view_insert rs i r :
  (i < length rs)%nat -> replicas_view (<[i := r]> rs) = partial_alter (fun _ => replica_view r) i (replicas_view rs).
Proof using.
  intros Hi. apply map_eq. intros j. rewrite replicas_view_lookup. destruct (decide (i = j)) as [<-|Hj].
  - by rewrite list_lookup_insert_eq, lookup_partial_alter_eq.
  - by rewrite list_lookup_insert_ne, lookup_partial_alter_ne, replicas_view_lookup.
Qed.

Lemma view_put_replica b idx r : view (put_replica b idx r) = set_view_replica (view b) idx r.
Proof using.
  unfold put_replica, GetReplica, set_view_replica, alter_slot. destruct (Z.leb_spec idx 0); [reflexivity|].
  destruct (Nat.ltb_spec (length (bi_replicas b)) (Z.to_nat idx)).
  - unfold view. cbn [set_replicas bi_name bi_transform bi_blocks bi_replicas bv_name bv_transform bv_blocks bv_replicas].
    rewrite replicas_view_insert by (rewrite length_app, length_replicate; lia). by rewrite replicas_view_new.
  - unfold view. cbn [set_replicas bi_name bi_transform bi_blocks bi_replicas bv_name bv_transform bv_blocks bv_replicas].
    by rewrite replicas_view_insert by lia.
Qed.

Lemma view_set_blocks b bs :
  view (set_blocks b bs) = mkBlobView (bv_name (view b)) (bv_transform (view b)) (kept bs) (bv_replicas (view b)).
Proof using. done. Qed.

Lemma blob_view_put m key b k : blob_view (put_blob m key b) k = if decide (key = k) then Some (view b) else blob_view m k.
Proof using.
  unfold blob_view, put_blob, set_blobs. cbn [mt_blobs]. destruct (decide (key = k)) as [<-|Hk].
  - by rewrite lookup_insert_eq.
  - by rewrite lookup_insert_ne.
Qed.

Lemma blob_view_update m r f g k :
  (forall b, view (f b) = g (view b)) ->
  blob_view (update_blob m r f) k = if decide (ref_key r = k) then update_view (blob_view m k) g else blob_view m k.
Proof using.
  intros Hfg. unfold update_blob. destruct (mt_blobs m !! ref_key r) as [b|] eqn:E.
  - rewrite blob_view_put. destruct (decide _) as [<-|]; [|done]. unfold blob_view. rewrite E. cbn. by rewrite Hfg.
  - destruct (decide _) as [<-|]; [|done]. unfold blob_view. by rewrite E.
Qed.

Lemma key_op_Some key t x k : txn_key t = Some k -> key_op key t x = if decide (k = key) then view_op t x else x.
Proof using. intros E. unfold key_op. rewrite E. repeat case_decide; congruence. Qed.

Lemma blob_view_replay m t key : blob_view (replay_blob m t) key = key_op key t (blob_view m key).
Proof using.
  destruct t as [t|t|r|r|t|t|t|t]; cbn [replay_blob]; try (by unfold key_op; case_decide);
    erewrite (key_op_Some key) by reflexivity.
  - rewrite blob_view_put. destruct (decide _) as [<-|]; [|done]. unfold blob_view. destruct (mt_blobs m !! _) as [b|]; [|done].
    done.
  - rewrite (blob_view_update _ _ _ (fun v => mkBlobView (bv_name v) (bv_transform v) (replayed_blocks (xb_new_blocks t)) (bv_replicas v)));
      [done|]. intros b. by rewrite view_set_blocks, kept_replayed.
  - by rewrite (blob_view_update _ _ _ (fun v => mkBlobView (bv_name v) (bv_transform v) [] (bv_replicas v))).
  - unfold blob_view. cbn. destruct (decide _) as [<-|].
    + by rewrite lookup_delete_eq.
    + by rewrite lookup_delete_ne.
  - by rewrite (blob_view_update _ _ _ (fun v => mkBlobView (bv_name v) (Z.lor (bv_transform v) (sx_transform_flags t)) (bv_blocks v) (bv_replicas v))).
  - rewrite (blob_view_update _ _ _ (fun v => set_view_replica v (xr_replica t) (txn_replica t))); [done|].
    intros b. apply view_put_replica.
Qed.

(** * Running, and logging what was done

    [logged r x t y]: an operation on the blob named by [r] takes its entry in
    the map from [x] to [y] and logs [t]. *)

Definition txn_block (b : BlobBlock) : TxnExtendBlobBlock :=
  mkTxnBlock (fst (bb_pool b)) (snd (bb_pool b)) (bb_query b) (bb_offset b) (bb_size b).

Definition new_blob (r : TxnBlobRef) (score : Z) : BlobInfo := mkBlobInfo (tx_blob_name r) [] [] score 0 0 2 0 0.

Definition extend_record (r : TxnBlobRef) (b : BlobInfo) : Txn := ExtendBlob (mkTxnExtendBlob r (map txn_block (bi_blocks b))).

Definition extend_replica_record (r : TxnBlobRef) (idx : Z) (rep : Replica) : Txn :=
  ExtendReplica (mkTxnExtendReplica r idx (rp_name rep) (rp_score rep) (rp_flags rep) (rp_transform rep) (rp_min_score rep)
    (map txn_block (rp_blocks rep))).

Inductive logged (r : TxnBlobRef) : option BlobInfo -> Txn -> option BlobInfo -> Prop :=
| logged_create score :
    logged r None (CreateNewBlob (mkTxnCreateNewBlob r score)) (Some (new_blob r score))
| logged_extend b b' :
    bi_name b' = bi_name b -> bi_transform b' = bi_transform b -> bi_replicas b' = bi_replicas b ->
    logged r (Some b) (extend_record r b') (Some b')
| logged_clear b b' :
    bi_name b' = bi_name b -> bi_transform b' = bi_transform b -> bi_replicas b' = bi_replicas b -> bi_blocks b' = [] ->
    logged r (Some b) (ClearBlob r) (Some b')
| logged_transform b kind :
    logged r (Some b) (SetBlobTransform (mkTxnSetBlobTransform r (bi_transform (MarkTransformed b kind)))) (Some (MarkTransformed b kind))
| logged_replica b idx rep :
    0 < idx -> logged r (Some b) (extend_replica_record r idx rep) (Some (put_replica b idx rep))
| logged_delete b :
    logged r (Some b) (DelBlob r) None.

(** A change of a blob that is not logged touches only scores, compression
    hints, the maintained size and replicas that have no blocks on lasting targets. *)
Definition unlogged (b b' : BlobInfo) : Prop := view b' = view b.

(** One step of the running container and the record it logs. A new tag has a
    name and an id that are free; a tag is deleted when its blobs and its
    aliases are gone. *)
Inductive live_step : Meta -> option Txn -> Meta -> Prop :=
| live_blob m r x t y :
    mt_blobs m !! ref_key r = x -> logged r x t y ->
    live_step m (Some t) (set_blobs m (partial_alter (fun _ => y) (ref_key r) (mt_blobs m)))
| live_unlogged m key b b' :
    mt_blobs m !! key = Some b -> unlogged b b' -> live_step m None (put_blob m key b')
| live_create_tag m t next :
    mt_names m !! tt_tag_name t = None -> mt_tags m !! txn_tag_id t = None ->
    live_step m (Some (CreateTag t)) (set_next (put_tag m (txn_tag_id t) (TagInfo_new (tt_tag_name t) (txn_tag_id t))) next)
| live_delete_tag m t info :
    mt_tags m !! txn_tag_id t = Some info -> ti_name info = tt_tag_name t ->
    (forall key b, mt_blobs m !! key = Some b -> has_tag_prefix (txn_tag_id t) key = false) ->
    live_step m (Some (DelTag t))
      (mkMeta (delete (tt_tag_name t) (mt_names m)) (delete (txn_tag_id t) (mt_tags m)) (mt_blobs m) (mt_next_minor m))
| live_touch_tag m id info info' :
    mt_tags m !! id = Some info -> ti_name info' = ti_name info -> ti_id info' = ti_id info ->
    live_step m None (set_tags m (<[id := info']> (mt_tags m)))
| live_alias m a id info :
    mt_names m !! a = None -> mt_tags m !! id = Some info -> ti_name info <> a ->
    live_step m None (set_names m (<[a := id]> (mt_names m)))
| live_unalias m a :
    (forall id info, mt_tags m !! id = Some info -> ti_name info <> a) ->
    live_step m None (set_names m (delete a (mt_names m))).

(** A run and the records it logged, in order. *)
Inductive live_run : Meta -> list Txn -> Meta -> Prop :=
| run_nil m : live_run m [] m
| run_step m t m' l m'' : live_step m t m' -> live_run m' l m'' -> live_run m (option_list t ++ l) m''.

(** ** The view of one blob along a run *)

(** When a record can be logged, seen from one blob. *)
Definition key_guard (key : str) (t : Txn) (x : option BlobView) : Prop :=
  match t with
  | DelTag t => has_tag_prefix (txn_tag_id t) key = true -> x = None
  | CreateNewBlob _ => txn_key t = Some key -> x = None
  | _ => txn_key t = Some key -> x <> None
  end.

Lemma kept_txn bs : replayed_blocks (map txn_block bs) = kept bs.
Proof using.
  unfold replayed_blocks, restored_blocks. induction bs as [|b bs IH]; [done|]. cbn [map]. rewrite !filter_cons.
  assert ((tb_bdev_major (txn_block b), tb_bdev_minor (txn_block b)) = bb_pool b) as -> by (by destruct b as [[]]).
  destruct (decide _) as [Hb|Hb]; [|done]. cbn [map]. rewrite IH. f_equal. by destruct b as [[]].
Qed.

Lemma replica_view_txn r idx rep b :
  replica_view (txn_replica (mkTxnExtendReplica r idx (rp_name rep) (rp_score rep) (rp_flags rep) (rp_transform rep)
    (rp_min_score rep) (map txn_block b))) = replica_view (mkReplica (rp_name rep) b (rp_total rep) (rp_score rep) (rp_flags rep) (rp_transform rep) (rp_min_score rep)).
Proof using.
  unfold txn_replica, replica_view. cbn [xr_new_blocks set_rep_blocks rp_blocks]. rewrite kept_txn, kept_kept. by destruct (kept b).
Qed.

Lemma logged_view r x t y key :
  logged r x t y ->
  txn_key t = Some (ref_key r) /\
  (key = ref_key r -> key_guard key t (view <$> x) /\ view_op t (view <$> x) = view <$> y).
Proof using.
  intros H; inversion H as [score|b b' E1 E2 E3|b b' E1 E2 E3 E4|b kind|b idx rep Hidx|b]; subst x t y;
    (split; [done|]); intros ->; (split; [done|]); unfold view_op, extend_record, extend_replica_record; cbn [update_view fmap option_fmap option_map].
  - done.
  - cbn [xb_new_blocks]. rewrite kept_txn. unfold view. cbn [bv_name bv_transform bv_replicas]. congruence.
  - unfold view. rewrite E1, E2, E3, E4. done.
  - unfold view. cbn. do 2 f_equal. apply Z.bits_inj'. intros n _. rewrite !Z.lor_spec. by destruct (Z.testbit (bi_transform b) n).
  - rewrite view_put_replica. unfold set_view_replica. rewrite replica_view_txn. by destruct rep.
  - done.
Qed.

Fixpoint key_guards (key : str) (l : list Txn) (x : option BlobView) : Prop :=
  match l with
  | [] => True
  | t :: l => key_guard key t x /\ key_guards key l (key_op key t x)
  end.

Definition key_run (key : str) (l : list Txn) (x : option BlobView) : option BlobView := fold_left (fun x t => key_op key t x) l x.

Lemma key_guards_app key l l' x : key_guards key (l ++ l') x <-> key_guards key l x /\ key_guards key l' (key_run key l x).
Proof using.
  revert x. induction l as [|t l IH]; intros x; cbn [app key_guards]; [tauto|]. rewrite IH. cbn [key_run fold_left]. tauto.
Qed.

Lemma key_run_app key l l' x : key_run key (l ++ l') x = key_run key l' (key_run key l x).
Proof using. apply fold_left_app. Qed.

Lemma key_guard_other key t x k : txn_key t = Some k -> k <> key -> key_guard key t x.
Proof using. destruct t; cbn; congruence. Qed.

Lemma blob_view_alter m key y k :
  blob_view (set_blobs m (partial_alter (fun _ => y) key (mt_blobs m))) k = if decide (key = k) then view <$> y else blob_view m k.
Proof using.
  unfold blob_view. cbn [set_blobs mt_blobs]. destruct (decide _) as [<-|].
  - by rewrite lookup_partial_alter_eq.
  - by rewrite lookup_partial_alter_ne.
Qed.

Lemma live_step_view m t m' key :
  live_step m t m' -> key_guards key (option_list t) (blob_view m key) /\ key_run key (option_list t) (blob_view m key) = blob_view m' key.
Proof using.
  intros H. inversion H as [? r x u y Hx Hl|? k b b' Hb Hv|? u next Hn Hi|? u info Hi Hn Hd|? id info info' Hi| |]; subst t; subst.
  - destruct (logged_view r _ u y key Hl) as [Ht Hk]. rewrite blob_view_alter.
    change (option_list (Some u)) with [u]. cbn [key_guards key_run fold_left].
    rewrite (key_op_Some key u _ _ Ht). destruct (decide (ref_key r = key)) as [<-|Hne].
    + by destruct (Hk eq_refl).
    + split; [|done]. split; [|done]. by apply (key_guard_other _ _ _ (ref_key r)).
  - split; [done|]. change (key_run _ _ _) with (blob_view m key). rewrite blob_view_put. destruct (decide _) as [<-|]; [|done].
    unfold blob_view. rewrite Hb. cbn. by rewrite Hv.
  - done.
  - split; [|done]. split; [|done]. intros Hp. unfold blob_view.
    destruct (mt_blobs m !! key) as [b|] eqn:E; [|done]. specialize (Hd _ _ E). congruence.
  - done.
  - done.
  - done.
Qed.

Lemma live_run_view m l m' key :
  live_run m l m' -> key_guards key l (blob_view m key) /\ key_run key l (blob_view m key) = blob_view m' key.
Proof using.
  induction 1 as [|m t m1 l m2 Hs Hr [IHg IHr]]; [done|].
  destruct (live_step_view _ _ _ key Hs) as [Hg Hk]. rewrite key_guards_app, key_run_app, Hk. done.
Qed.

(** ** Replaying over a later state *)

Definition deletes (key : str) (t : Txn) : Prop := match t with DelBlob r => ref_key r = key | _ => False end.
(** A tag deletion that erases the blob. *)
Definition marks (key : str) (t : Txn) : bool := match t with DelTag t => has_tag_prefix (txn_tag_id t) key | _ => false end.

(** A deletion in the log settles everything before it. *)
Lemma key_run_deleted key l x y : Exists (deletes key) l -> key_run key l x = key_run key l y.
Proof using.
  intros H. revert x y. induction H as [t l Ht|t l Hl IH]; intros x y; cbn [key_run fold_left]; [|apply IH].
  destruct t; cbn in Ht; try done. subst key. unfold key_op. cbn [txn_key view_op]. by rewrite !decide_True.
Qed.

(** The records of an existing blob that is not deleted. *)
Definition view_upd (key : str) (t : Txn) (v : BlobView) : BlobView :=
  if decide (txn_key t = Some key) then default v (view_op t (Some v)) else v.
Definition view_upds (key : str) (l : list Txn) (v : BlobView) : BlobView := fold_left (fun v t => view_upd key t v) l v.

Lemma key_op_upd key t v : ~ deletes key t -> key_op key t (Some v) = Some (view_upd key t v).
Proof using.
  intros H. unfold key_op, view_upd. destruct (decide _) as [Hk|]; [|done]. destruct t; cbn in *; try done. congruence.
Qed.

Lemma key_run_upds key l v : Forall (fun t => ~ deletes key t) l -> key_run key l (Some v) = Some (view_upds key l v).
Proof using.
  intros H. revert v. induction H as [|t l Ht Hl IH]; intros v; [done|]. cbn [key_run fold_left]. rewrite key_op_upd by done.
  apply IH.
Qed.

Lemma alter_slot_lookup i r m k :
  alter_slot i r m !! k = if decide (0 < i /\ k = (Z.to_nat i - 1)%nat) then r else m !! k.
Proof using.
  unfold alter_slot. destruct (Z.leb_spec i 0); [by rewrite decide_False by lia|].
  destruct (decide _) as [[_ ->]|Hk]; [by rewrite lookup_partial_alter_eq|].
  apply lookup_partial_alter_ne. lia.
Qed.

Lemma alter_slot_rel i j r s m m' :
  alter_slot i r m = alter_slot i r m' -> alter_slot i r (alter_slot j s m) = alter_slot i r (alter_slot j s m').
Proof using.
  intros E. apply map_eq. intros k. apply (f_equal (.!! k)) in E. rewrite !alter_slot_lookup in *. by repeat case_decide.
Qed.

Lemma alter_slot_twice i r m : alter_slot i r (alter_slot i r m) = alter_slot i r m.
Proof using. apply map_eq. intros k. rewrite !alter_slot_lookup. by case_decide. Qed.

Lemma lor_rel a b f g : Z.lor a f = Z.lor b f -> Z.lor (Z.lor a g) f = Z.lor (Z.lor b g) f.
Proof using. intros E. rewrite <- !Z.lor_assoc, !(Z.lor_comm g f), !Z.lor_assoc. by rewrite E. Qed.

Lemma view_upd_idemp key t v : view_upd key t (view_upd key t v) = view_upd key t v.
Proof using.
  unfold view_upd. destruct (decide _); [|done]. destruct v. destruct t; cbn; try done.
  - f_equal. rewrite <- Z.lor_assoc. by rewrite Z.lor_diag.
  - unfold set_view_replica. cbn. f_equal. apply alter_slot_twice.
Qed.

Lemma view_upd_rel key t u v w :
  view_upd key t v = view_upd key t w -> view_upd key t (view_upd key u v) = view_upd key t (view_upd key u w).
Proof using.
  unfold view_upd. destruct (decide (txn_key t = _)), (decide (txn_key u = _)); try done; [|congruence].
  destruct v, w. destruct t, u; cbn; unfold set_view_replica; cbn; intros [=]; subst; try done; f_equal; try done; first [by apply lor_rel|by apply alter_slot_rel].
Qed.

(** What a record settles stays settled whatever is replayed before it. *)
Lemma view_upds_absorb key t l v : view_upd key t (view_upds key l (view_upd key t v)) = view_upd key t (view_upds key l v).
Proof using.
  assert (forall v w, view_upd key t v = view_upd key t w -> view_upd key t (view_upds key l v) = view_upd key t (view_upds key l w)) as H.
  { induction l as [|u l IH]; intros v' w E; cbn [view_upds fold_left]; [done|]. apply IH. by apply view_upd_rel. }
  apply H, view_upd_idemp.
Qed.

Lemma view_upds_idemp key l v : view_upds key l (view_upds key l v) = view_upds key l v.
Proof using.
  revert v. induction l as [|t l IH] using rev_ind; intros v; [done|].
  assert (forall w, view_upds key (l ++ [t]) w = view_upd key t (view_upds key l w)) as E by (intros w; apply fold_left_app).
  rewrite !E, view_upds_absorb. by rewrite IH.
Qed.

(** Records already in the state change nothing when they are replayed. *)
Lemma key_run_again key l x :
  Forall (fun t => ~ deletes key t) l -> key_guards key l x -> key_run key l (key_run key l x) = key_run key l x.
Proof using.
  intros Hd. destruct x as [v|]; [intros _; by rewrite !key_run_upds, view_upds_idemp by done|].
  induction Hd as [|t l Ht Hd IH]; [done|]. intros [Hg Hgs].
  assert (forall z, key_run key (t :: l) z = key_run key l (key_op key t z)) as Ec by done. rewrite !Ec. clear Ec.
  destruct (decide (txn_key t = Some key)) as [Hk|Hk].
  - destruct t as [c|?|?|?|?|?|?|?]; cbn in Hg; try (by destruct Hg); try done.
    assert (key_op key (CreateNewBlob c) None = Some (mkBlobView (tx_blob_name (cb_ref c)) 0 [] ∅)) as E
      by (unfold key_op; by rewrite decide_True).
    rewrite E, key_run_upds by done. rewrite key_op_upd by done. rewrite key_run_upds by done. f_equal.
    set (v := mkBlobView _ _ _ _). assert (v = view_upd key (CreateNewBlob c) v) as Ev
      by (unfold view_upd; by rewrite decide_True).
    rewrite Ev at 1. rewrite Ev at 2. apply (view_upds_idemp key (CreateNewBlob c :: l)).
  - assert (forall x, key_op key t x = x) as E by (intros x; unfold key_op; by rewrite decide_False).
    rewrite !E. apply IH. by rewrite E in Hgs.
Qed.

(** A live tag deletion finds no blob, so none was there before it either. *)
Lemma key_guards_marked key l x :
  Forall (fun t => ~ deletes key t) l -> key_guards key l x -> existsb (marks key) l = true -> x = None.
Proof using.
  intros Hd. revert x. induction Hd as [|t l Ht Hd IH]; intros x; cbn [existsb key_guards]; [done|]. intros [Hg Hgs] Hm.
  destruct x as [v|]; [exfalso|done]. apply orb_true_iff in Hm as [Hm|Hm].
  - destruct t; cbn in Hm, Hg; try done. by specialize (Hg Hm).
  - rewrite key_op_upd in Hgs by done. by specialize (IH _ Hgs Hm).
Qed.

#[local] Instance deletes_dec key t : Decision (deletes key t).
Proof using. unfold deletes. destruct t; apply _. Defined.

Lemma replay_key key l1 l2 x :
  key_guards key (l1 ++ l2) x ->
  key_run key (l1 ++ l2) (if existsb (marks key) (l1 ++ l2) then None else key_run key l1 x) = key_run key (l1 ++ l2) x.
Proof using.
  intros Hg. destruct (decide (Exists (deletes key) (l1 ++ l2))) as [Hd|Hd]; [by apply key_run_deleted|].
  apply Forall_Exists_neg in Hd. destruct (existsb (marks key) (l1 ++ l2)) eqn:Em; [by rewrite (key_guards_marked _ _ _ Hd Hg Em)|].
  apply key_guards_app in Hg as [Hg _]. apply Forall_app in Hd as [Hd _]. rewrite !key_run_app. by rewrite key_run_again.
Qed.

(** ** The replayed shards *)

Lemma TxnType_of_to_u8 ty : TxnType_of_u8 (TxnType_to_u8 ty) = Some ty.
Proof using. by destruct ty. Qed.

Definition tag_txns (l : list Txn) : list Txn := filter (fun t => is_tag_txn (txn_type t) = true) l.
Definition blob_txns (l : list Txn) : list Txn := filter (fun t => is_tag_txn (txn_type t) = false) l.

Lemma replay_entries_records {S} (handled : TxnType -> bool) (f : S -> Txn -> S) s ts :
  Forall (txn_ok query_size) ts -> Forall (fun t => handled (txn_type t) = true) ts ->
  replay_entries handled f s (map txn_record ts) = Some (fold_left f ts s).
Proof using.
  intros Hok Hh. revert s. induction Hok as [|t ts [Ht _] Hok IH]; intros s; [done|]. apply Forall_cons in Hh as [Hh1 Hh].
  cbn [map replay_entries txn_record]. rewrite TxnType_of_to_u8, Hh1, Deserialize_payload by done. cbn. by apply IH.
Qed.

Lemma load_shard_txns ts : Forall (txn_ok query_size) ts -> load_shard (txns_bytes ts) = map txn_record ts.
Proof using.
  intros Hok. unfold load_shard, Load, Open. cbn [tl_file default]. rewrite <- (app_nil_r (txns_bytes ts)).
  apply (load_loop_records query_size); [done|reflexivity|apply load_loop_nil].
Qed.

Lemma replay_shards_txns {S} (handled : TxnType -> bool) (f : S -> Txn -> S) s ts :
  Forall (txn_ok query_size) ts -> Forall (fun t => handled (txn_type t) = true) ts ->
  replay_shards handled f s [txns_bytes ts] = Some (fold_left f ts s).
Proof using. intros Hok Hh. cbn [replay_shards]. rewrite load_shard_txns by done. by rewrite replay_entries_records. Qed.

Lemma replay_blobs_view key ts m :
  blob_view (fold_left replay_blob ts m) key = key_run key ts (blob_view m key).
Proof using. revert m. induction ts as [|t ts IH]; intros m; [done|]. cbn [fold_left key_run]. by rewrite IH, blob_view_replay. Qed.

Lemma key_run_blob_txns key l x : key_run key (blob_txns l) x = key_run key l x.
Proof using.
  revert x. induction l as [|t l IH]; intros x; [done|].
  change (key_run key (t :: l) x) with (key_run key l (key_op key t x)). rewrite <- IH.
  unfold blob_txns. rewrite filter_cons. destruct (decide _) as [Ht|Ht]; [done|].
  f_equal. by destruct t.
Qed.

(** Phase 1 erases the blobs of deleted tags. *)
Lemma replay_tags_blobs key ts s :
  blob_view (fst (fold_left replay_tag ts s)) key = if existsb (marks key) ts then None else blob_view (fst s) key.
Proof using.
  revert s. induction ts as [|t ts IH]; intros s; [done|]. cbn [fold_left existsb]. rewrite IH.
  destruct (existsb (marks key) ts); [by rewrite orb_true_r|]. rewrite orb_false_r.
  destruct t as [| | | |t|t| |]; try done. cbn [replay_tag fst marks]. unfold blob_view. cbn [mt_blobs].
  destruct (has_tag_prefix (txn_tag_id t) key) eqn:E.
  - rewrite (proj2 (map_lookup_filter_None _ _ _)); [done|]. right. intros b _. cbn. congruence.
  - destruct (mt_blobs s.1 !! key) as [b|] eqn:Eb.
    + by rewrite (proj2 (map_lookup_filter_Some _ _ _ b)).
    + rewrite (proj2 (map_lookup_filter_None _ _ _)); [done|]. by left.
Qed.

Lemma existsb_tag_txns key l : existsb (marks key) (tag_txns l) = existsb (marks key) l.
Proof using.
  unfold tag_txns. induction l as [|t l IH]; [done|]. rewrite filter_cons. destruct (decide _) as [Ht|Ht]; cbn [existsb].
  - by rewrite IH.
  - rewrite IH. by destruct t.
Qed.

(** ** Tags and names *)

(** A record that assigns a cell, or leaves it alone. *)
Section Assign.
Context {X : Type} (op : Txn -> X -> X) (op_assigns : forall t, (forall x, op t x = x) \/ (forall x y, op t x = op t y)).

Lemma assign_again l x : fold_left (fun x t => op t x) l (fold_left (fun x t => op t x) l x) = fold_left (fun x t => op t x) l x.
Proof using op_assigns.
  assert ((forall y, fold_left (fun x t => op t x) l y = y) \/
          (forall y z, fold_left (fun x t => op t x) l y = fold_left (fun x t => op t x) l z)) as [H|H].
  { induction l as [|t l [IH|IH]]; cbn [fold_left]; [by left| |].
    - destruct (op_assigns t) as [Ht|Ht]; [left; intros y; by rewrite IH, Ht|right; intros y z; by rewrite !IH, (Ht y z)].
    - right. intros y z. apply IH. }
  - by rewrite !H.
  - apply H.
Qed.
End Assign.

(** The name of a tag, and the tag a name is the canonical one of. *)
Definition tag_name (m : Meta) (id : TagId) : option str := ti_name <$> mt_tags m !! id.

Definition canonical (m : Meta) (name : str) : option TagId :=
  match mt_names m !! name with
  | Some id => if decide (tag_name m id = Some name) then Some id else None
  | None => None
  end.

Definition tag_op (id : TagId) (t : Txn) (x : option str) : option str :=
  match t with
  | CreateTag t => if decide (txn_tag_id t = id) then Some (tt_tag_name t) else x
  | DelTag t => if decide (txn_tag_id t = id) then None else x
  | _ => x
  end.

Definition name_op (name : str) (t : Txn) (x : option TagId) : option TagId :=
  match t with
  | CreateTag t => if decide (tt_tag_name t = name) then Some (txn_tag_id t) else x
  | DelTag t => if decide (tt_tag_name t = name) then None else x
  | _ => x
  end.

Lemma tag_op_assigns id t : (forall x, tag_op id t x = x) \/ (forall x y, tag_op id t x = tag_op id t y).
Proof using. destruct t; cbn; try (by left); case_decide; (by left) || (by right). Qed.

Lemma name_op_assigns name t : (forall x, name_op name t x = x) \/ (forall x y, name_op name t x = name_op name t y).
Proof using. destruct t; cbn; try (by left); case_decide; (by left) || (by right). Qed.

Definition tag_run id l x := fold_left (fun x t => tag_op id t x) l x.
Definition name_run name l x := fold_left (fun x t => name_op name t x) l x.

Lemma tag_name_insert m id t id' :
  ti_name <$> (<[id := t]> (mt_tags m) : gmap TagId TagInfo) !! id' = if decide (id = id') then Some (ti_name t) else tag_name m id'.
Proof using. destruct (decide _) as [<-|]; [by rewrite lookup_insert_eq|by rewrite lookup_insert_ne]. Qed.

Lemma live_step_tag m t m' id : live_step m t m' -> tag_run id (option_list t) (tag_name m id) = tag_name m' id.
Proof using.
  intros H. inversion H as [? r x u y Hx Hl|? k b b' Hb Hv|? u next Hn Hi|? u info Hi Hn Hd|? id' info info' Hi Hn| |]; subst t; subst;
    try done.
  - inversion Hl; subst u; done.
  - unfold tag_run, tag_name. cbn. destruct (decide _) as [<-|]; [by rewrite lookup_insert_eq|by rewrite lookup_insert_ne].
  - unfold tag_run, tag_name. cbn. destruct (decide _) as [<-|]; [by rewrite lookup_delete_eq|by rewrite lookup_delete_ne].
  - unfold tag_run, tag_name. cbn. destruct (decide (id' = id)) as [<-|]; [|by rewrite lookup_insert_ne].
    rewrite lookup_insert_eq, Hi. cbn. by rewrite Hn.
Qed.

Lemma live_step_name m t m' name : live_step m t m' -> name_run name (option_list t) (canonical m name) = canonical m' name.
Proof using.
  intros H. pose proof (fun id => live_step_tag _ _ _ id H) as Htag. unfold canonical, name_run.
  inversion H as [? r x u y Hx Hl|? k b b' Hb Hv|? u next Hn Hi|? u info Hi Hn Hd|? id' info info' Hi Hn|? a id info Ha Hi Hn|? a Ha];
    subst t; subst; try done.
  - inversion Hl; subst u; done.
  - cbn. cbn in Htag. destruct (decide (tt_tag_name u = name)) as [<-|Hne].
    + rewrite lookup_insert_eq. rewrite decide_True; [done|]. rewrite <- Htag. cbn. by rewrite decide_True.
    + rewrite lookup_insert_ne by done. destruct (mt_names m !! name) as [id|] eqn:E; [|done].
      rewrite <- Htag. cbn. destruct (decide (txn_tag_id u = id)) as [<-|]; [|done].
      rewrite !decide_False; [done|congruence|]. unfold tag_name. by rewrite Hi.
  - cbn. cbn in Htag. destruct (decide (tt_tag_name u = name)) as [<-|Hne]; [by rewrite lookup_delete_eq|].
    rewrite lookup_delete_ne by done. destruct (mt_names m !! name) as [id|] eqn:E; [|done].
    rewrite <- Htag. cbn. destruct (decide (txn_tag_id u = id)) as [<-|]; [|done].
    rewrite !decide_False; [done|done|]. unfold tag_name. rewrite Hi. cbn. congruence.
  - cbn. cbn in Htag. destruct (mt_names m !! name) as [id|]; [|done]. by rewrite <- Htag.
  - cbn. destruct (decide (a = name)) as [<-|Hne].
    + rewrite lookup_insert_eq, Ha, decide_False; [done|]. unfold tag_name. cbn. rewrite Hi. cbn. congruence.
    + by rewrite lookup_insert_ne.
  - cbn. destruct (decide (a = name)) as [<-|Hne]; [|by rewrite lookup_delete_ne].
    rewrite lookup_delete_eq. destruct (mt_names m !! a) as [id|]; [|done]. rewrite decide_False; [done|].
    unfold tag_name. destruct (mt_tags m !! id) as [info|] eqn:E; [|done]. cbn. intros [=]. by apply (Ha id info).
Qed.

Lemma live_run_tag m l m' id : live_run m l m' -> tag_run id l (tag_name m id) = tag_name m' id.
Proof using.
  induction 1 as [|m t m1 l m2 Hs Hr IH]; [done|]. unfold tag_run. rewrite fold_left_app.
  change (tag_run id l (tag_run id (option_list t) (tag_name m id)) = tag_name m2 id). by rewrite (live_step_tag _ _ _ _ Hs).
Qed.

Lemma live_run_name m l m' name : live_run m l m' -> name_run name l (canonical m name) = canonical m' name.
Proof using.
  induction 1 as [|m t m1 l m2 Hs Hr IH]; [done|]. unfold name_run. rewrite fold_left_app.
  change (name_run name l (name_run name (option_list t) (canonical m name)) = canonical m2 name). by rewrite (live_step_name _ _ _ _ Hs).
Qed.

Lemma tag_run_tag_txns id l x : tag_run id (tag_txns l) x = tag_run id l x.
Proof using.
  revert x. induction l as [|t l IH]; intros x; [done|].
  change (tag_run id (t :: l) x) with (tag_run id l (tag_op id t x)). rewrite <- IH.
  unfold tag_txns. rewrite filter_cons. destruct (decide _) as [Ht|Ht]; [done|]. f_equal. by destruct t.
Qed.

Lemma name_run_tag_txns name l x : name_run name (tag_txns l) x = name_run name l x.
Proof using.
  revert x. induction l as [|t l IH]; intros x; [done|].
  change (name_run name (t :: l) x) with (name_run name l (name_op name t x)). rewrite <- IH.
  unfold tag_txns. rewrite filter_cons. destruct (decide _) as [Ht|Ht]; [done|]. f_equal. by destruct t.
Qed.

Lemma replay_tags_names ts s id name :
  tag_name (fst (fold_left replay_tag ts s)) id = tag_run id ts (tag_name (fst s) id) /\
  mt_names (fst (fold_left replay_tag ts s)) !! name = name_run name ts (mt_names (fst s) !! name).
Proof using.
  revert s. induction ts as [|t ts IH]; intros s; [done|]. cbn [fold_left tag_run name_run].
  destruct (IH (replay_tag s t)) as [-> ->]. unfold tag_run, name_run.
  destruct t; cbn; try done.
  - unfold tag_name. cbn. split; f_equal; destruct (decide _) as [<-|]; by rewrite ?lookup_insert_eq, ?lookup_insert_ne.
  - unfold tag_name. cbn. split; f_equal; destruct (decide _) as [<-|]; by rewrite ?lookup_delete_eq, ?lookup_delete_ne.
Qed.

(** ** Sizes and the next tag id *)

(** A block list as a restart builds it, with its maintained size: every block
    is on a lasting target, without spare capacity. *)
Definition wf_blocks (bs : list BlobBlock) (total : Z) : Prop := kept bs = bs /\ total = ComputeTotalSizeSlow bs.
Definition wf_blob (b : BlobInfo) : Prop :=
  wf_blocks (bi_blocks b) (bi_total b) /\ Forall (fun r => wf_blocks (rp_blocks r) (rp_total r)) (bi_replicas b).

(** Every blob is, and tags are under their ids. *)
Definition sized (m : Meta) : Prop := map_Forall (fun _ b => wf_blob b) (mt_blobs m).
Definition tagged (m : Meta) : Prop := map_Forall (fun id t => ti_id t = id) (mt_tags m).

Lemma sized_put m key b : sized m -> wf_blob b -> sized (put_blob m key b).
Proof using. intros Hm Hb. by apply map_Forall_insert_2. Qed.

Lemma sized_update m r f : sized m -> (forall b, wf_blob b -> wf_blob (f b)) -> sized (update_blob m r f).
Proof using.
  intros Hm Hf. unfold update_blob. destruct (mt_blobs m !! _) as [b|] eqn:E; [|done].
  apply sized_put; [done|]. apply Hf, (Hm _ _ E).
Qed.

Lemma wf_set_blocks b bs : wf_blob b -> kept bs = bs -> wf_blob (set_blocks b bs).
Proof using. intros [_ Hr] Hbs. split; [by split|done]. Qed.

Lemma wf_put_replica b idx r bs : wf_blob b -> kept bs = bs -> wf_blob (put_replica b idx (set_rep_blocks r bs)).
Proof using.
  intros [Hb Hr] Hbs. unfold put_replica, GetReplica. destruct (_ <=? 0); [by split|].
  assert (wf_blocks (rp_blocks (set_rep_blocks r bs)) (rp_total (set_rep_blocks r bs))) as Hnew by (by split).
  destruct (_ <? _)%nat; (split; [done|]); apply Forall_insert; try done.
  apply Forall_app_2; [done|]. apply Forall_replicate. by split.
Qed.

Lemma replay_blob_sized m t : sized m -> sized (replay_blob m t).
Proof using.
  intros Hm. destruct t as [c|c|r|r| | |c|c]; cbn [replay_blob]; try done.
  - apply sized_put; [done|]. unfold create_blob. destruct (mt_blobs m !! _) as [b|] eqn:E; [|by repeat split].
    destruct (Hm _ _ E) as [[H1 H2] H3]. by repeat split.
  - apply sized_update; [done|]. intros b Hb. apply wf_set_blocks; [done|apply kept_replayed].
  - apply sized_update; [done|]. intros b Hb. by apply wf_set_blocks.
  - by apply map_Forall_delete.
  - apply sized_update; [done|]. by intros b [Hb Hr].
  - apply sized_update; [done|]. intros b Hb. apply wf_put_replica; [done|apply kept_replayed].
Qed.

Lemma replay_blobs_keep ts m :
  let m' := fold_left replay_blob ts m in
  (sized m -> sized m') /\ mt_names m' = mt_names m /\ mt_tags m' = mt_tags m /\ mt_next_minor m' = mt_next_minor m.
Proof using.
  revert m. induction ts as [|t ts IH]; intros m; [done|]. cbn [fold_left]. destruct (IH (replay_blob m t)) as (H1 & H2 & H3 & H4).
  split; [intros H; by apply H1, replay_blob_sized|]. cbv zeta. rewrite H2, H3, H4.
  destruct t; cbn; try done; unfold update_blob; by destruct (mt_blobs m !! _).
Qed.

Lemma replay_tags_sized ts s : sized (fst s) -> sized (fst (fold_left replay_tag ts s)).
Proof using.
  revert s. induction ts as [|t ts IH]; intros s Hs; [done|]. cbn [fold_left]. apply IH. destruct t; cbn; try done.
  intros k b Hk. apply map_lookup_filter_Some in Hk as [Hk _]. by apply (Hs k).
Qed.

(** A minor that leaves room for a next one. *)
Definition minor_ok (t : Txn) : Prop := match t with CreateTag t => 0 <= tt_tag_minor t < 2 ^ 32 - 1 | _ => True end.

Lemma replay_tags_next ts s :
  Forall minor_ok ts -> (forall id t, mt_tags (fst s) !! id = Some t -> snd id < snd s) ->
  let s' := fold_left replay_tag ts s in
  snd s <= snd s' /\ mt_next_minor (fst s') = mt_next_minor (fst s) /\
  (forall id t, mt_tags (fst s') !! id = Some t -> snd id < snd s') /\
  (forall t, CreateTag t ∈ ts -> tt_tag_minor t < snd s').
Proof using.
  intros Hts. revert s. induction Hts as [|t ts Ht Hts IH]; intros s Hs; cbn [fold_left].
  - split; [lia|]. split; [done|]. split; [done|]. intros t Ht. by apply elem_of_nil in Ht.
  - assert (snd s <= snd (replay_tag s t) /\ mt_next_minor (fst (replay_tag s t)) = mt_next_minor (fst s) /\
      (forall id u, mt_tags (fst (replay_tag s t)) !! id = Some u -> snd id < snd (replay_tag s t)) /\
      forall u, CreateTag u = t -> tt_tag_minor u < snd (replay_tag s t)) as (H1 & H2 & H3 & H4).
    { destruct t as [| | | |u|u| |]; cbn; try (split; [lia|]; split; [done|]; split; [done|done]).
      - cbn in Ht. rewrite u32_small by (cbn; lia). destruct (Z.leb_spec (snd s) (tt_tag_minor u));
          (split; [lia|]); (split; [done|]); (split; [|intros ? [= <-]; lia]);
          intros id w Hid; apply lookup_insert_Some in Hid as [[<- _]|[_ Hid]]; cbn; try lia; specialize (Hs _ _ Hid); lia.
      - split; [lia|]. split; [done|]. split; [|done]. intros id w Hid. apply lookup_delete_Some in Hid as [_ Hid]. by apply (Hs _ _ Hid). }
    destruct (IH _ H3) as (H5 & H6 & H7 & H8). split; [lia|]. split; [congruence|]. split; [done|].
    intros u [E|Hu]%elem_of_cons; [specialize (H4 u E); lia|by apply H8].
Qed.

(** * What a restart recovers *)

Record recovered (m : Meta) (l : list Txn) (m' : Meta) : Prop := {
  rc_blobs : forall key, blob_view m' key = blob_view m key;
  rc_tags : forall id, tag_name m' id = tag_name m id;
  rc_names : forall name, mt_names m' !! name = canonical m name;
  rc_sizes : sized m';
  rc_totals : forall id t, mt_tags m' !! id = Some t -> ti_total t = tag_total (mt_blobs m') id;
  rc_next : (forall id t, mt_tags m' !! id = Some t -> snd id < mt_next_minor m') /\
    (forall t, CreateTag t ∈ l -> tt_tag_minor t < mt_next_minor m')
}.

Lemma recompute_totals_facts m :
  mt_blobs (recompute_totals m) = mt_blobs m /\ mt_names (recompute_totals m) = mt_names m /\
  mt_next_minor (recompute_totals m) = mt_next_minor m /\
  (forall id, tag_name (recompute_totals m) id = tag_name m id) /\
  (forall id t, mt_tags (recompute_totals m) !! id = Some t -> ti_total t = tag_total (mt_blobs m) id /\ is_Some (mt_tags m !! id)).
Proof using.
  split; [done|]. split; [done|]. split; [done|]. unfold recompute_totals, tag_name. cbn [set_tags mt_tags mt_blobs].
  split; intros id.
  - rewrite map_lookup_imap. by destruct (mt_tags m !! id).
  - intros t. rewrite map_lookup_imap. destruct (mt_tags m !! id) as [u|]; [|done]. cbn. intros [= <-]. by split; [|eexists].
Qed.

Lemma restored_facts m m' :
  meta_fits query_size m -> restored is_volatile m m' ->
  (forall key, blob_view m' key = blob_view m key) /\ (forall id, tag_name m' id = tag_name m id) /\
  (forall name, mt_names m' !! name = canonical m name) /\ sized m' /\
  (forall id t, mt_tags m' !! id = Some t -> snd id < mt_next_minor m').
Proof using.
  intros Hm [Ht Hb Hn Hx]. split; [|split; [|split; [|split]]].
  - intros key. unfold blob_view. rewrite Hb, lookup_fmap, <- option_fmap_compose. destruct (mt_blobs m !! key); [|done]. cbn.
    by rewrite view_restored.
  - intros id. unfold tag_name. rewrite Ht, lookup_fmap. by destruct (mt_tags m !! id).
  - intros name. apply option_eq. intros id. rewrite Hn. unfold canonical, tag_name. split.
    + intros (t & Hid & <-). destruct (mf_tag _ _ Hm _ _ Hid) as (_ & _ & -> & _). by rewrite Hid, decide_True.
    + destruct (mt_names m !! name) as [id'|]; [|done]. destruct (decide _) as [E|]; [|done]. intros [= ->].
      destruct (mt_tags m !! id) as [t|]; [|done]. cbn in E. injection E as <-. by exists t.
  - intros key b. rewrite Hb, lookup_fmap. destruct (mt_blobs m !! key) as [b'|]; [|done]. intros [= <-].
    split; [split; [apply kept_kept|done]|]. apply Forall_forall. intros r' (r & -> & _)%list_elem_of_fmap.
    unfold restored_replica. destruct (no_blocks r); [done|]. split; [apply kept_kept|done].
  - intros id t. rewrite Ht, lookup_fmap. destruct (mt_tags m !! id) as [u|] eqn:E; [|done]. intros _. by apply (Hx _ _ E).
Qed.

Lemma Forall_filter_list (P Q : Txn -> Prop) `{!forall t, Decision (Q t)} l : Forall P l -> Forall P (filter Q l).
Proof using. rewrite !Forall_forall. intros HP t Ht. apply list_elem_of_filter in Ht as [_ Ht]. by apply HP. Qed.

Lemma Forall_filter_holds (Q : Txn -> Prop) `{!forall t, Decision (Q t)} l : Forall Q (filter Q l).
Proof using. apply Forall_forall. intros t Ht. by apply list_elem_of_filter in Ht as [Ht _]. Qed.

(** The two phases over the snapshot of an intermediate state. *)
Lemma replay_recovers mi mj mn l1 l2 m0 :
  live_run mi l1 mj -> live_run mj l2 mn -> meta_fits query_size mj -> restored is_volatile mj m0 ->
  Forall minor_ok (l1 ++ l2) ->
  let s := fold_left replay_tag (tag_txns (l1 ++ l2)) (m0, mt_next_minor m0) in
  let m := recompute_totals (fold_left replay_blob (blob_txns (l1 ++ l2)) (fst s)) in
  recovered mn (l1 ++ l2) (if mt_next_minor m <? snd s then set_next m (snd s) else m).
Proof using.
  intros R1 R2 Hfit Hres Hminor s m. destruct (restored_facts _ _ Hfit Hres) as (Hb & Ht & Hn & Hs & Hx).
  destruct (replay_blobs_keep (blob_txns (l1 ++ l2)) (fst s)) as (Ksz & Kn & Kt & Kx).
  set (mb := fold_left replay_blob (blob_txns (l1 ++ l2)) (fst s)) in *.
  destruct (recompute_totals_facts mb) as (Tb & Tn & Tx & Tt & Ttot). fold m in Tb, Tn, Tx, Tt, Ttot.
  assert (forall B, (forall m', mt_blobs m' = mt_blobs m -> mt_names m' = mt_names m -> mt_tags m' = mt_tags m ->
    mt_next_minor m' = Z.max (mt_next_minor m) (snd s) -> recovered mn (l1 ++ l2) m') ->
    B = snd s -> recovered mn (l1 ++ l2) (if mt_next_minor m <? B then set_next m B else m)) as Hsplit.
  { intros B H ->. destruct (Z.ltb_spec (mt_next_minor m) (snd s)); apply H; try done; cbn; lia. }
  apply Hsplit; [clear Hsplit|done]. intros m' Eb En Et Ex.
  destruct (replay_tags_next (tag_txns (l1 ++ l2)) (m0, mt_next_minor m0)) as (_ & Nx & Nt & Nc);
    [by apply Forall_filter_list|done|]. fold s in Nx, Nt, Nc.
  split.
  - intros key. unfold blob_view at 1. rewrite Eb, Tb. change (blob_view mb key = blob_view mn key).
    unfold mb. rewrite replay_blobs_view, key_run_blob_txns. unfold s. rewrite replay_tags_blobs, existsb_tag_txns. cbn [fst].
    rewrite Hb. destruct (live_run_view _ _ _ key R1) as [G1 E1]. destruct (live_run_view _ _ _ key R2) as [G2 E2].
    rewrite <- E2, <- E1, <- key_run_app. apply replay_key. apply key_guards_app. by rewrite E1.
  - intros id. unfold tag_name at 1. rewrite Et. change (tag_name m id = tag_name mn id). rewrite Tt.
    unfold tag_name at 1. rewrite Kt. change (tag_name (fst s) id = tag_name mn id).
    unfold s. rewrite (proj1 (replay_tags_names _ _ id [])). cbn [fst]. rewrite Ht, tag_run_tag_txns.
    rewrite <- (live_run_tag _ _ _ id R2), <- (live_run_tag _ _ _ id R1). unfold tag_run. rewrite fold_left_app.
    f_equal. apply assign_again, tag_op_assigns.
  - intros name. rewrite En, Tn, Kn. unfold s. rewrite (proj2 (replay_tags_names _ _ (0, 0) name)). cbn [fst]. rewrite Hn, name_run_tag_txns.
    rewrite <- (live_run_name _ _ _ name R2), <- (live_run_name _ _ _ name R1). unfold name_run. rewrite fold_left_app.
    f_equal. apply assign_again, name_op_assigns.
  - unfold sized. rewrite Eb, Tb. by apply Ksz, replay_tags_sized.
  - intros id t. rewrite Et, Eb, Tb. apply Ttot.
  - split.
    + intros id t. rewrite Et. intros Hid. destruct (Ttot _ _ Hid) as [_ [u Hu]]. rewrite Kt in Hu. specialize (Nt _ _ Hu). lia.
    + intros t Hin. enough (tt_tag_minor t < snd s) by lia. apply Nc. apply list_elem_of_filter. split; [done|done].
Qed.

(** ** Any files at all *)

Definition wf_meta (m : Meta) : Prop := sized m /\ tagged m.

Lemma get_blocks_kept n bs : kept (fst (get_blocks query_size is_volatile n bs)) = fst (get_blocks query_size is_volatile n bs).
Proof using.
  revert bs. induction n as [|n IH]; intros bs; [done|]. cbn [get_blocks]. destruct (get_block query_size bs) as [[b rest]|] eqn:Eb; [|done].
  specialize (IH rest). destruct (get_blocks query_size is_volatile n rest) as [l r]. cbn [fst] in *.
  destruct (is_volatile (bb_pool b)) eqn:Ev; [done|]. cbn [fst]. unfold restored_blocks in *. rewrite filter_cons, decide_True by done.
  cbn [map]. rewrite IH. f_equal. unfold get_block in Eb.
  destruct (get_id bs) as [[pool bs1]|]; [|done]. cbn in Eb. destruct (get_bytes query_size bs1) as [[q bs2]|]; [|done]. cbn in Eb.
  destruct (get_le 8 bs2) as [[o bs3]|]; [|done]. cbn in Eb. destruct (get_le 8 bs3) as [[z bs4]|]; [|done]. cbn in Eb.
  by injection Eb as <- _.
Qed.

Lemma get_blob_no_blocks flags bs key b n rest : get_blob flags bs = Some (key, b, n, rest) -> bi_replicas b = [].
Proof using.
  unfold get_blob. intros H. repeat match goal with
  | H : (?x ≫= _) = Some _ |- _ => destruct x as [[? ?]|]; cbn [mbind option_bind] in H; [|done]
  end. injection H as _ <- _ _. by destruct (negb flags && _).
Qed.

Lemma restore_entry_wf s bs : wf_meta (fst s) -> wf_meta (fst (fst (restore_entry query_size is_volatile s bs))).
Proof using.
  intros [Hs Ht]. unfold restore_entry. destruct (get_le 1 bs) as [[ty rest]|]; [|done]. destruct (ty =? 0).
  { destruct (get_tag rest) as [[[[name id] total] rest']|]; [|done]. split; [done|]. by apply map_Forall_insert_2. }
  destruct ((ty =? 1) || (ty =? 2)).
  { destruct (get_blob (ty =? 2) rest) as [[[[key b] n] rest']|] eqn:Eb; [|done]. apply get_blob_no_blocks in Eb.
    pose proof (get_blocks_kept (Z.to_nat n) rest') as Hk. destruct (get_blocks _ _ _ rest') as [blocks r]. cbn [fst] in *.
    split; [|done]. apply sized_put; [done|]. split; [by split|]. cbn. by rewrite Eb. }
  destruct (ty =? 3); [|done]. destruct (get_replica rest) as [[[[[key idx] r] n] rest']|]; [|done].
  pose proof (get_blocks_kept (Z.to_nat n) rest') as Hk. destruct (get_blocks _ _ _ rest') as [blocks r']. cbn [fst] in *.
  destruct (mt_blobs s.1 !! key) as [b|] eqn:E; [|done]. split; [|done]. apply sized_put; [done|].
  apply wf_put_replica; [|done]. by apply (Hs key).
Qed.

Lemma restore_wf file m : wf_meta m -> wf_meta (RestoreMetadataFromLog query_size is_volatile file m).
Proof using.
  intros Hm. unfold RestoreMetadataFromLog. destruct file as [bs|]; [|done].
  assert (forall fuel s bs, wf_meta (fst s) -> wf_meta (fst (restore_loop query_size is_volatile fuel s bs))) as H.
  { intros fuel. induction fuel as [|fuel IH]; intros s bs' Hs; [done|]. cbn [restore_loop]. destruct bs' as [|x bs']; [done|].
    pose proof (restore_entry_wf s (x :: bs') Hs) as He. destruct (restore_entry _ _ s _) as [s' [rest|]]; [by apply IH|done]. }
  specialize (H (length bs) (m, 0) bs Hm). destruct (restore_loop _ _ _ _ _) as [m' mx]. by destruct (_ <? _).
Qed.

Lemma replay_tag_wf s t : wf_meta (fst s) -> wf_meta (fst (replay_tag s t)).
Proof using.
  intros [Hs Ht]. split; [by apply (replay_tags_sized [t])|]. destruct t as [| | | |t|t| |]; try done.
  - by apply map_Forall_insert_2.
  - by apply map_Forall_delete.
Qed.

Lemma replay_blob_wf m t : wf_meta m -> wf_meta (replay_blob m t).
Proof using.
  intros [Hs Ht]. split; [by apply replay_blob_sized|]. destruct (replay_blobs_keep [t] m) as (_ & _ & E & _). cbn in E.
  unfold tagged. by rewrite E.
Qed.

Lemma replay_shards_inv {S} (P : S -> Prop) handled f s files s' :
  (forall s t, P s -> P (f s t)) -> P s -> replay_shards handled f s files = Some s' -> P s'.
Proof using.
  intros Hf. revert s. induction files as [|file files IH]; intros s Hs; cbn [replay_shards]; [by intros [= <-]|].
  destruct (replay_entries _ _ _ _) as [s1|] eqn:E; [|done]. cbn. apply IH. clear IH.
  revert s Hs E. induction (load_shard file) as [|[ty payload] es IHe]; intros s Hs; cbn [replay_entries]; [by intros [= <-]|].
  destruct (TxnType_of_u8 ty) as [ty'|]; [|by apply IHe]. destruct (handled ty'); [|by apply IHe].
  destruct (Deserialize _ _ _) as [t|]; [|done]. cbn. by apply IHe, Hf.
Qed.

Lemma replay_wf tag_files blob_files m m' :
  wf_meta m -> ReplayTransactionLogs tag_files blob_files m = Some m' ->
  wf_meta m' /\ map_Forall (fun id t => ti_total t = tag_total (mt_blobs m') id) (mt_tags m').
Proof using.
  intros Hm. unfold ReplayTransactionLogs. destruct (replay_shards _ replay_tag _ _) as [[m1 mx]|] eqn:E1; [|done].
  cbn [mbind option_bind]. destruct (replay_shards _ replay_blob _ _) as [m2|] eqn:E2; [|done]. cbn [mbind option_bind].
  apply (replay_shards_inv (fun s => wf_meta (fst s))) in E1; [|intros; by apply replay_tag_wf|done].
  apply (replay_shards_inv wf_meta) in E2; [|intros; by apply replay_blob_wf|done]. clear E1. destruct E2 as [Hs Ht].
  destruct (recompute_totals_facts m2) as (Tb & _ & _ & _ & Tt).
  assert (wf_meta (recompute_totals m2)) as Hwf.
  { split; [done|]. intros id t Hid. unfold recompute_totals in Hid. cbn in Hid. rewrite map_lookup_imap in Hid.
    destruct (mt_tags m2 !! id) as [u|] eqn:Eu; [|done]. cbn in Hid. injection Hid as <-. cbn. by apply (Ht id). }
  intros [= <-]. destruct (_ <? _); (split; [done|]); intros id t Hid; by destruct (Tt id t Hid).
Qed.
End Replay.

(** * Properties *)

(** C29. Whatever the files hold. A restart from any snapshot and any logs, torn or
    corrupt, that reads no record past its end gives well-formed metadata: every
    block of a blob or a replica is on a lasting target and without spare
    capacity, every maintained size is the sum of its blocks, every tag is
    stored under its own id, and its size is the sum over the blobs with its
    prefix. *)
Theorem restart_well_formed (query_size : nat) (is_volatile : TagId -> bool) (snapshot : option (list u8))
    (tag_files blob_files : list (list u8)) (next : Z) (m : Meta) :
  ReplayTransactionLogs query_size is_volatile tag_files blob_files
    (RestoreMetadataFromLog query_size is_volatile snapshot (empty_meta next)) = Some m ->
  wf_meta is_volatile m /\ map_Forall (fun id t => ti_total t = tag_total (mt_blobs m) id) (mt_tags m).
Proof.
  apply replay_wf, restore_wf. split; apply map_Forall_empty.
Qed.

(** The snapshot of a state on a run, and the records of the whole run. *)
Lemma replayed_snapshot (query_size : nat) (is_volatile : TagId -> bool) (mi mj mn : Meta) (l1 l2 : list Txn)
    (tags : list (TagId * TagInfo)) (blobs : list (str * BlobInfo)) (next : Z) :
  live_run is_volatile mi l1 mj -> live_run is_volatile mj l2 mn ->
  meta_fits query_size mj -> tags ≡ₚ map_to_list (mt_tags mj) -> blobs ≡ₚ map_to_list (mt_blobs mj) ->
  Forall (fun t => txn_ok query_size t /\ minor_ok t) (l1 ++ l2) ->
  exists m,
    ReplayTransactionLogs query_size is_volatile [txns_bytes (tag_txns (l1 ++ l2))] [txns_bytes (blob_txns (l1 ++ l2))]
      (RestoreMetadataFromLog query_size is_volatile (Some (concat (snapshot_records tags blobs))) (empty_meta next)) = Some m /\
    recovered is_volatile mn (l1 ++ l2) m.
Proof.
  intros R1 R2 Hfit Et Eb Hok. apply Forall_and in Hok as [Hok Hminor].
  pose proof (restore_snapshot query_size is_volatile mj tags blobs next Hfit Et Eb) as Hres.
  set (m0 := RestoreMetadataFromLog _ _ _ _) in *. unfold ReplayTransactionLogs.
  rewrite replay_shards_txns; [|by apply Forall_filter_list|apply Forall_filter_holds].
  cbn [mbind option_bind]. pose proof (replay_recovers query_size is_volatile mi mj mn l1 l2 m0 R1 R2 Hfit Hres Hminor) as Hrec.
  cbv zeta in Hrec. destruct (fold_left replay_tag _ _) as [mt mx]. cbn [fst snd] in Hrec.
  rewrite replay_shards_txns; [|by apply Forall_filter_list|].
  - cbn [mbind option_bind]. eexists. split; [done|]. exact Hrec.
  - eapply Forall_impl; [apply (Forall_filter_holds (fun t => is_tag_txn (txn_type t) = false))|]. intros t Ht. cbv beta in Ht. by rewrite Ht.
Qed.


(** A tag with a blob of two blocks, the first on the volatile target 7. The
    snapshot is written before the blob's transform is recorded. *)
Definition ex_volatile (id : TagId) : bool := fst id =? 7.
Definition ex_ref : TxnBlobRef := mkBlobRef 1 5 (lit "b").
Definition ex_tag : TxnTag := mkTxnTag (lit "t") 1 5.
Definition ex_blocks : list BlobBlock :=
  [mkBlobBlock (7, 1) [Byte.x01; Byte.x02] 0 100 4096; mkBlobBlock (8, 1) [Byte.x01; Byte.x02] 4096 50 4096].
Definition ex_blob : BlobInfo := set_blocks (new_blob ex_ref 0) ex_blocks.
Definition ex_l1 : list Txn :=
  [CreateTag ex_tag; CreateNewBlob (mkTxnCreateNewBlob ex_ref 0); extend_record ex_ref ex_blob].
Definition ex_l2 : list Txn := [SetBlobTransform (mkTxnSetBlobTransform ex_ref 3)].
Definition ex_mi : Meta := empty_meta 5.
Definition ex_m1 : Meta := set_next (put_tag ex_mi (1, 5) (TagInfo_new (lit "t") (1, 5))) 6.
Definition ex_m2 : Meta := set_blobs ex_m1 (partial_alter (fun _ => Some (new_blob ex_ref 0)) (ref_key ex_ref) (mt_blobs ex_m1)).
Definition ex_mj : Meta := set_blobs ex_m2 (partial_alter (fun _ => Some ex_blob) (ref_key ex_ref) (mt_blobs ex_m2)).
Definition ex_mn : Meta :=
  set_blobs ex_mj (partial_alter (fun _ => Some (MarkTransformed ex_blob 2)) (ref_key ex_ref) (mt_blobs ex_mj)).

Lemma ex_run1 : live_run ex_volatile ex_mi ex_l1 ex_mj.
Proof.
  apply (run_step _ _ (Some (CreateTag ex_tag)) ex_m1 [_; _] ex_mj); [by apply live_create_tag|].
  apply (run_step _ _ (Some (CreateNewBlob (mkTxnCreateNewBlob ex_ref 0))) ex_m2 [_] ex_mj);
    [by apply (live_blob _ _ ex_ref None); [|apply logged_create]|].
  apply (run_step _ _ (Some (extend_record ex_ref ex_blob)) ex_mj [] ex_mj); [|constructor].
  by apply (live_blob _ _ ex_ref (Some (new_blob ex_ref 0))); [|apply logged_extend].
Qed.

Lemma ex_run2 : live_run ex_volatile ex_mj ex_l2 ex_mn.
Proof.
  apply (run_step _ _ (Some (SetBlobTransform (mkTxnSetBlobTransform ex_ref 3))) ex_mn [] ex_mn); [|constructor].
  apply (live_blob _ _ ex_ref (Some ex_blob)); [done|]. apply (logged_transform ex_ref ex_blob 2).
Qed.

Lemma ex_fits : meta_fits 2 ex_mj.
Proof.
  split.
  - apply (map_forall_decide (fun id t => tag_fits id t /\ ti_id t = id /\ mt_names ex_mj !! ti_name t = Some id /\ snd id < 2 ^ 32 - 1)).
    vm_compute. reflexivity.
  - apply (map_forall_decide (fun key b => is_name key /\ blob_fits 2 b /\ Forall (replica_fits 2) (bi_replicas b) /\
      Z.of_nat (length (bi_replicas b)) < 2 ^ 31)).
    vm_compute. reflexivity.
Qed.

Lemma ex_txns : Forall (fun t => txn_ok 2 t /\ minor_ok t) (ex_l1 ++ ex_l2).
Proof.
  repeat (apply Forall_cons; split; [split; [|cbn; lia]|]); [..|apply Forall_nil_2];
    (split; [cbn; unfold ref_ok, blocks_ok, tag_ok, is_u32, is_u64, is_name; cbn; repeat split;
       try lia; repeat constructor; cbn; unfold is_u32, is_u64; cbn; lia|vm_compute; reflexivity]).
Qed.


(** A snapshot torn inside the blob's blocks, and a log whose tail is garbage. *)
Lemma restart_well_formed_witness :
  let snapshot := take 100 (concat (snapshot_records (map_to_list (mt_tags example_meta)) (map_to_list (mt_blobs example_meta)))) in
  exists m, ReplayTransactionLogs 2 (fun _ => false) [txns_bytes [CreateTag ex_tag] ++ [Byte.x07; Byte.xff]] []
    (RestoreMetadataFromLog 2 (fun _ => false) (Some snapshot) (empty_meta 1)) = Some m /\
  (ti_total <$> mt_tags m !! (1, 5)) = Some 100 /\
  wf_meta (fun _ => false) m /\ map_Forall (fun id t => ti_total t = tag_total (mt_blobs m) id) (mt_tags m).
Proof.
  intros snapshot. eexists. split; [vm_compute; reflexivity|]. split; [vm_compute; reflexivity|].
  apply (restart_well_formed 2 (fun _ => false) (Some snapshot) [txns_bytes [CreateTag ex_tag] ++ [Byte.x07; Byte.xff]] [] 1).
  vm_compute. reflexivity.
Defined.

(** ** What the logs do not recover *)

(** Each worker logs to its own shard, and the shards are replayed one after
    the other: a blob that worker 1 created and worker 0 then deleted is back
    after a restart. *)
Theorem cross_worker_delete_resurrects :
  let m := set_blobs ex_m1 (partial_alter (fun _ => None) (ref_key ex_ref) (mt_blobs ex_m2)) in
  live_run ex_volatile ex_m1 [CreateNewBlob (mkTxnCreateNewBlob ex_ref 0); DelBlob ex_ref] m /\
  mt_blobs m !! ref_key ex_ref = None /\
  exists m', ReplayTransactionLogs 2 ex_volatile [] [txns_bytes [DelBlob ex_ref]; txns_bytes [CreateNewBlob (mkTxnCreateNewBlob ex_ref 0)]]
    ex_m1 = Some m' /\ is_Some (mt_blobs m' !! ref_key ex_ref).
Proof.
  intros m. split; [|split; [vm_compute; reflexivity|]].
  - apply (run_step _ _ (Some (CreateNewBlob (mkTxnCreateNewBlob ex_ref 0))) ex_m2 [_] m);
      [by apply (live_blob _ _ ex_ref None); [|apply logged_create]|].
    apply (run_step _ _ (Some (DelBlob ex_ref)) m [] m); [|constructor].
    by apply (live_blob _ ex_m2 ex_ref (Some (new_blob ex_ref 0))); [|apply logged_delete].
  - eexists. split; [vm_compute; reflexivity|]. vm_compute. by eexists.
Qed.

(** A record of a blob's creation that outlives a snapshot overwrites the score
    and the compression library that the snapshot restored. *)
Theorem replayed_create_resets_score :
  let b := mkBlobInfo (lit "b") ex_blocks [] 1065353216 3 4 1 9 150 in
  let m := put_blob ex_m1 (ref_key ex_ref) b in
  exists m', ReplayTransactionLogs 2 (fun _ => false) [] [txns_bytes [CreateNewBlob (mkTxnCreateNewBlob ex_ref 0)]] m = Some m' /\
    exists b', mt_blobs m' !! ref_key ex_ref = Some b' /\
      (bi_score b', bi_lib b', bi_trace b') = (0, 0, 0) /\ bi_transform b' = 3.
Proof. eexists. split; [vm_compute; reflexivity|]. eexists. split; vm_compute; done. Qed.

(** A rename is not logged: the record of the tag's creation, replayed over a
    snapshot taken after the rename, gives the tag its old name back. *)
Theorem replayed_create_undoes_rename :
  let m := put_tag (empty_meta 6) (1, 5) (TagInfo_new (lit "new") (1, 5)) in
  exists m', ReplayTransactionLogs 2 ex_volatile [txns_bytes [CreateTag (mkTxnTag (lit "old") 1 5)]] [] m = Some m' /\
    tag_name m' (1, 5) = Some (lit "old") /\ mt_names m' !! lit "old" = Some (1, 5).
Proof. eexists. split; [vm_compute; reflexivity|]. split; vm_compute; reflexivity. Qed.
