(* ===== verification/RestartLog.v ===== *)
(** The log of the compose files to start again with the runtime
    ([context-runtime/src/restart_log.cc], [include/clio_runtime/restart_log.h]).

    The file is its bytes, or absent. An append may leave the file alone (it cannot
    be opened) or stop half-way; a compaction may fail before its rename, which is
    atomic. *)
From Stdlib Require Import ZArith Lia.
From coqutil Require Import Byte.
From stdpp Require Import base list gmap.
From S2P Require Import Prelude Text.

Open Scope Z_scope.

(** * Records *)

Definition path := list u8.
Inductive Op := kAdd | kRm.
#[export] Instance Op_eq_dec : EqDecision Op.
Proof. solve_decision. Defined.
Record Entry := mkEntry { en_op : Op; en_path : path }.
Implicit Types (p : path) (e : Entry) (es : list Entry) (file : option (list u8)).

Definition op_byte (op : Op) : Z := match op with kAdd => 0 | kRm => 1 end.

(** What [AppendEntry] writes: the length is cast to 32 bits. *)
Definition write_entry e : list u8 :=
  let len := u32 (Z.of_nat (length (en_path e))) in
  le_bytes 1 (op_byte (en_op e)) ++ le_bytes 4 len ++ take (Z.to_nat len) (en_path e).

(** How an append ends: written, not opened, or cut after [n] bytes. *)
Inductive outcome := Written | NotOpened | Torn (n : nat).
Definition file_bytes file : list u8 := default [] file.
Definition AppendEntry file e (o : outcome) : bool * option (list u8) :=
  match o with
  | Written => (true, Some (file_bytes file ++ write_entry e))
  | NotOpened => (false, file)
  | Torn n => (false, Some (file_bytes file ++ take n (write_entry e)))
  end.
Definition AppendAdd file p (o : outcome) : bool * option (list u8) := AppendEntry file (mkEntry kAdd p) o.
Definition AppendRm file p (o : outcome) : bool * option (list u8) := AppendEntry file (mkEntry kRm p) o.

Fixpoint read_entries (fuel : nat) (bs : list u8) : list Entry :=
  match fuel with
  | O => []
  | S fuel =>
      match get_le 1 bs with
      | None => []
      | Some (op, bs) =>
          match get_le 4 bs with
          | None => []
          | Some (len, bs) =>
              match get_bytes (Z.to_nat len) bs with
              | None => []
              | Some (p, bs) => mkEntry (if op =? 1 then kRm else kAdd) p :: read_entries fuel bs
              end
          end
      end
  end.
Definition ReadAll file : list Entry := read_entries (length (file_bytes file)) (file_bytes file).

(** * The live set *)

(** The order of the insertions, and the paths that are live. *)
Definition replay (s : list path * gset path) e : list path * gset path :=
  let '(order, live) := s in
  match en_op e with
  | kAdd => if decide (en_path e ∈ live) then (order, live) else (order ++ [en_path e], {[ en_path e ]} ∪ live)
  | kRm => (order, live ∖ {[ en_path e ]})
  end.
Definition live_of es : list path :=
  let '(order, live) := fold_left replay es ([], ∅) in filter (fun p => p ∈ live) order.
Definition LiveSet file : list path := live_of (ReadAll file).
Definition IsRestartable file p : bool := bool_decide (p ∈ LiveSet file).

(** * Compaction *)

Fixpoint IsMinimal es (live : list path) : bool :=
  match es, live with
  | [], [] => true
  | e :: es, p :: live => bool_decide (en_op e = kAdd) && bool_decide (en_path e = p) && IsMinimal es live
  | _, _ => false
  end.
Definition minimal_bytes (live : list path) : list u8 := concat (map (fun p => write_entry (mkEntry kAdd p)) live).

(** [ok]: the temporary file could be written and renamed. *)
Definition Compact file (ok : bool) : bool * option (list u8) :=
  if IsMinimal (ReadAll file) (LiveSet file) then (true, file)
  else if ok then (true, Some (minimal_bytes (LiveSet file))) else (false, file).

(** * Reading what was written *)

Definition fits e : Prop := Z.of_nat (length (en_path e)) < 2 ^ 32.
Definition all_bytes es : list u8 := concat (map write_entry es).

Lemma write_entry_fits e : fits e -> write_entry e = le_bytes 1 (op_byte (en_op e)) ++ le_bytes 4 (Z.of_nat (length (en_path e))) ++ en_path e.
Proof. intros Hf. unfold write_entry. unfold fits in Hf. rewrite u32_small by lia. by rewrite Nat2Z.id, firstn_all. Qed.

Lemma length_write_entry e : fits e -> length (write_entry e) = (5 + length (en_path e))%nat.
Proof. intros Hf. rewrite write_entry_fits by done. by rewrite !length_app, !length_le_bytes. Qed.

Lemma read_entries_cons fuel e rest : fits e -> read_entries (S fuel) (write_entry e ++ rest) = e :: read_entries fuel rest.
Proof.
  intros Hf. rewrite write_entry_fits by done. cbn [read_entries]. rewrite <- !app_assoc.
  rewrite get_le_app by (destruct (en_op e); cbn; lia). rewrite get_le_app by (unfold fits in Hf; lia).
  rewrite Nat2Z.id, get_bytes_app by done. f_equal. by destruct e as [[] p].
Qed.

Lemma read_entries_torn fuel e n : fits e -> (n < length (write_entry e))%nat -> read_entries fuel (take n (write_entry e)) = [].
Proof.
  intros Hf Hn. rewrite length_write_entry in Hn by done. rewrite write_entry_fits by done. destruct fuel as [|fuel]; [done|]. cbn [read_entries].
  rewrite take_app, length_le_bytes. destruct (decide (n < 1)%nat) as [H1|H1].
  { rewrite get_le_short; [done|]. rewrite length_app, !length_take. lia. }
  rewrite (take_ge (le_bytes 1 _)) by (rewrite length_le_bytes; lia). rewrite get_le_app by (destruct (en_op e); cbn; lia).
  rewrite take_app, length_le_bytes. destruct (decide (n < 5)%nat) as [H5|H5].
  { rewrite get_le_short; [done|]. rewrite length_app, !length_take, length_le_bytes. lia. }
  rewrite (take_ge (le_bytes 4 _)) by (rewrite length_le_bytes; lia). rewrite get_le_app by (unfold fits in Hf; lia).
  rewrite get_bytes_short; [done|]. rewrite length_take. lia.
Qed.

(** A torn record at the end of the file is ignored. *)
Definition torn_tail (bs : list u8) : Prop := exists e n, fits e /\ (n < length (write_entry e))%nat /\ bs = take n (write_entry e).

Lemma read_entries_all es bs fuel : Forall fits es -> torn_tail bs -> (length (all_bytes es) <= fuel)%nat -> read_entries fuel (all_bytes es ++ bs) = es.
Proof.
  intros Hes (e & n & Hf & Hn & ->). revert fuel. induction Hes as [|e' es He _ IH]; intros fuel Hfuel; [by apply read_entries_torn|].
  unfold all_bytes in *. cbn [map concat] in *. rewrite length_app, length_write_entry in Hfuel by done. rewrite <- app_assoc.
  destruct fuel as [|fuel]; [lia|]. rewrite read_entries_cons by done. f_equal. apply IH. lia.
Qed.

Lemma no_tail : torn_tail [].
Proof. exists (mkEntry kAdd []), 0%nat. split; [unfold fits; cbn; lia|]. split; [by vm_compute; lia|done]. Qed.

Lemma ReadAll_all es bs file : Forall fits es -> torn_tail bs -> file_bytes file = all_bytes es ++ bs -> ReadAll file = es.
Proof. intros Hes Hbs E. unfold ReadAll. rewrite E. apply read_entries_all; [done..|]. rewrite length_app. lia. Qed.

(** * Which paths are live *)

(** The specification: a set. *)
Definition live_step (M : gset path) e : gset path := match en_op e with kAdd => {[ en_path e ]} ∪ M | kRm => M ∖ {[ en_path e ]} end.

Lemma replay_live es order M : snd (fold_left replay es (order, M)) = fold_left live_step es M /\
  ((forall p, p ∈ M -> p ∈ order) -> forall p, p ∈ fold_left live_step es M -> p ∈ fst (fold_left replay es (order, M))).
Proof.
  revert order M. induction es as [|e es IH]; intros order M; [done|]. cbn [fold_left]. unfold replay at 2 4, live_step at 2 4. destruct (en_op e).
  - case_decide as Hd.
    + assert ({[en_path e]} ∪ M = M) as -> by set_solver. apply IH.
    + destruct (IH (order ++ [en_path e]) ({[en_path e]} ∪ M)) as [E H]. split; [done|]. intros Hs. apply H. intros p. rewrite elem_of_app, list_elem_of_singleton. set_solver.
  - destruct (IH order (M ∖ {[en_path e]})) as [E H]. split; [done|]. intros Hs. apply H. set_solver.
Qed.

Lemma live_of_spec es p : p ∈ live_of es <-> p ∈ fold_left live_step es ∅.
Proof.
  unfold live_of. destruct (replay_live es [] ∅) as [E H]. destruct (fold_left replay es ([], ∅)) as [order live]. cbn in E, H. subst live.
  rewrite list_elem_of_filter. split; [by intros []|]. intros Hp. split; [done|]. apply H; [set_solver|done].
Qed.

(** Adds alone give a set of the paths added. *)
Lemma live_adds (l : list path) M p : p ∈ fold_left live_step (map (mkEntry kAdd) l) M <-> p ∈ l \/ p ∈ M.
Proof. revert M. induction l as [|q l IH]; intros M; cbn; [set_solver|]. rewrite IH. unfold live_step. cbn. rewrite elem_of_cons. set_solver. Qed.

(** * Histories *)

Inductive log_op := LAppend e (o : outcome) | LCompact (ok : bool).
Definition log_step file (o : log_op) : option (list u8) :=
  match o with LAppend e o => snd (AppendEntry file e o) | LCompact ok => snd (Compact file ok) end.
(** What a completed append means; nothing else changes the set. *)
Definition log_spec (M : gset path) (o : log_op) : gset path := match o with LAppend e Written => live_step M e | _ => M end.

(** An append that leaves no torn record behind. *)
Definition whole (o : log_op) : Prop := match o with LAppend e (Torn _) => False | LAppend e _ => fits e | LCompact _ => True end.

Definition log_ok (M : gset path) file : Prop :=
  exists es, Forall fits es /\ file_bytes file = all_bytes es /\ forall p, p ∈ fold_left live_step es ∅ <-> p ∈ M.

Lemma log_step_ok M file o : log_ok M file -> whole o -> log_ok (log_spec M o) (log_step file o).
Proof.
  intros (es & Hes & Eb & Hl) Hw. assert (ReadAll file = es) as Er by (apply (ReadAll_all es [] file Hes no_tail); by rewrite app_nil_r).
  destruct o as [e [| |n]|ok]; cbn in *; [|by exists es|done|].
  - exists (es ++ [e]). split_and!; [apply Forall_app; split; [done|by repeat constructor]|unfold all_bytes in *; rewrite map_app, concat_app; cbn; by rewrite app_nil_r, Eb|].
    intros p. rewrite fold_left_app. cbn. unfold live_step at 1 3. destruct (en_op e); set_solver.
  - unfold Compact. destruct (IsMinimal _ _); [by exists es|]. destruct ok; [|by exists es]. exists (map (mkEntry kAdd) (LiveSet file)). split_and!.
    + apply Forall_forall. intros e He. apply list_elem_of_fmap in He as (p & -> & Hp). unfold LiveSet in Hp. rewrite Er, live_of_spec in Hp.
      assert (forall es M, Forall fits es -> (forall q, q ∈ M -> Z.of_nat (length q) < 2 ^ 32) -> forall q, q ∈ fold_left live_step es M -> Z.of_nat (length q) < 2 ^ 32) as Hfit.
      { clear. intros es M Hes. revert M. induction Hes as [|e es He _ IH]; intros M HM; [done|]. cbn. apply IH. unfold live_step. intros q. unfold fits in He. destruct (en_op e); set_solver. }
      apply (Hfit es ∅ Hes); [set_solver|done].
    + cbn. unfold minimal_bytes, all_bytes. by rewrite map_map.
    + intros p. rewrite live_adds. unfold LiveSet. rewrite Er, live_of_spec, Hl. set_solver.
Qed.

Lemma log_steps_ok M file ops : log_ok M file -> Forall whole ops -> log_ok (fold_left log_spec ops M) (fold_left log_step ops file).
Proof. intros Hok Hw. revert M file Hok. induction Hw as [|o ops Ho _ IH]; intros M file Hok; [done|]. cbn. by apply IH, log_step_ok. Qed.

(** C37. The restart log holds what was registered: after any appends that complete or
    do not start and any compactions that succeed or fail, then one append cut
    anywhere or none, a path is restartable exactly when the last completed append
    that names it added it. *)
Theorem restart_log_live ops e n p : Forall whole ops -> fits e -> (n < length (write_entry e))%nat ->
  IsRestartable (fold_left log_step (ops ++ [LAppend e (Torn n)]) None) p = bool_decide (p ∈ fold_left log_spec ops ∅).
Proof.
  intros Hw Hf Hn. destruct (log_steps_ok ∅ None ops) as (es & Hes & Eb & Hl); [by exists []|done|]. rewrite fold_left_app. cbn.
  unfold IsRestartable. apply bool_decide_ext. unfold LiveSet.
  rewrite (ReadAll_all es (take n (write_entry e))) by (first [done|by exists e, n|cbn; by rewrite Eb]). by rewrite live_of_spec.
Qed.

Definition bytes_of (zs : list Z) : list u8 := map byte.of_Z zs.
Definition ex_ops : list log_op :=
  [LAppend (mkEntry kAdd (bytes_of [97])) Written; LAppend (mkEntry kAdd (bytes_of [98])) Written; LAppend (mkEntry kRm (bytes_of [97])) Written; LCompact true].
Lemma restart_log_live_witness :
  IsRestartable (fold_left log_step (ex_ops ++ [LAppend (mkEntry kRm (bytes_of [98])) (Torn 5)]) None) (bytes_of [98]) = true.
Proof.
  rewrite (restart_log_live ex_ops (mkEntry kRm (bytes_of [98])) 5 (bytes_of [98])); [by vm_compute| |by vm_compute|by vm_compute; lia].
  repeat constructor; by vm_compute.
Defined.

(** A path that was removed and added again is listed, and started, twice; a
    compaction writes it twice. *)
Definition readded : list Entry := map (fun '(o, z) => mkEntry o (bytes_of [z])) [(kAdd, 97); (kAdd, 98); (kRm, 97); (kAdd, 97)].
Example readded_path_twice :
  LiveSet (Some (all_bytes readded)) = map bytes_of [[97]; [98]; [97]] /\
  ReadAll (snd (Compact (Some (all_bytes readded)) true)) = map (mkEntry kAdd) (map bytes_of [[97]; [98]; [97]]).
Proof. by vm_compute. Qed.

(** A torn record is not cut off before the next append: what is registered after it
    is lost. *)
Example append_after_torn_record_lost :
  let torn := snd (AppendAdd None (bytes_of [97; 97; 97; 97; 97; 97; 97; 97]) (Torn 6)) in
  let '(ok, file) := AppendAdd torn (bytes_of [98]) Written in ok = true /\ ReadAll file = [].
Proof. by vm_compute. Qed.
