(* ===== verification/PoolQuery.v ===== *)
(** The routing queries of the runtime
    ([context-runtime/include/clio_runtime/pool_query.h] and
    [context-runtime/src/pool_query.cc]): the modes, the queries' factories and
    their text form.

    A float is its 32-bit pattern. *)
From Stdlib Require Import ZArith Lia Strings.String Strings.Byte.
From coqutil Require Import Byte.
From stdpp Require Import base list gmap.
From S2P Require Import Prelude Text.

Open Scope Z_scope.

Module RoutingMode.
Inductive t := Local | DirectId | DirectHash | Range | Broadcast | Physical | Dynamic | ToLocalCpu | Null | ManyToOne | AllToOne.
End RoutingMode.
#[export] Instance RoutingMode_eq_dec : EqDecision RoutingMode.t.
Proof. solve_decision. Defined.

Definition kInvalidContainerId : Z := 2 ^ 32 - 1.
Definition minus_one : Z := 0xbf800000.

Record PoolQuery := mkQuery {
  routing_mode_ : RoutingMode.t;
  hash_value_ : Z;
  container_id_ : Z;
  range_offset_ : Z;
  range_count_ : Z;
  node_id_ : Z;
  ret_node_ : Z;
  net_timeout_ : Z;
  ttl_ : Z;
  parallelism_ : Z;
  batch_key_ : Z;
  batch_for_ns_ : Z }.

(** * Factories *)

(** What the factories leave at the defaults of the constructor. *)
Definition query (mode : RoutingMode.t) (hash cid offset count node timeout par key window : Z) : PoolQuery :=
  mkQuery mode hash cid offset count node 0 timeout minus_one par key window.
Definition Local (parallelism : Z) : PoolQuery := query RoutingMode.Local 0 kInvalidContainerId 0 0 0 minus_one parallelism 0 0.
Definition DirectId (container_id timeout : Z) : PoolQuery := query RoutingMode.DirectId 0 container_id 0 0 0 timeout 32 0 0.
Definition DirectHash (hash timeout : Z) : PoolQuery := query RoutingMode.DirectHash hash 0 0 0 0 timeout 32 0 0.
Definition Range (offset count timeout : Z) : PoolQuery := query RoutingMode.Range 0 0 offset count 0 timeout 32 0 0.
Definition Broadcast (timeout : Z) : PoolQuery := query RoutingMode.Broadcast 0 0 0 0 0 timeout 32 0 0.
Definition Physical (node timeout : Z) : PoolQuery := query RoutingMode.Physical 0 0 0 0 node timeout 32 0 0.
Definition Dynamic (timeout : Z) : PoolQuery := query RoutingMode.Dynamic 0 0 0 0 0 timeout 32 0 0.
Definition ManyToOne (container_hash batch_key batch_for_ns : Z) : PoolQuery :=
  query RoutingMode.ManyToOne container_hash 0 0 0 0 minus_one 32 batch_key batch_for_ns.
Definition AllToOne (container_hash batch_key : Z) : PoolQuery :=
  query RoutingMode.AllToOne container_hash 0 0 0 0 minus_one 32 batch_key 0.
Definition ToLocalCpu (parallelism : Z) : PoolQuery := query RoutingMode.ToLocalCpu 0 kInvalidContainerId 0 0 0 minus_one parallelism 0 0.
Definition Null : PoolQuery := query RoutingMode.Null 0 kInvalidContainerId 0 0 0 minus_one 32 0 0.

Definition SetReturnNode (ret : Z) (q : PoolQuery) : PoolQuery :=
  mkQuery (routing_mode_ q) (hash_value_ q) (container_id_ q) (range_offset_ q) (range_count_ q) (node_id_ q) ret
    (net_timeout_ q) (ttl_ q) (parallelism_ q) (batch_key_ q) (batch_for_ns_ q).
Definition IsMode (m : RoutingMode.t) (q : PoolQuery) : bool := bool_decide (routing_mode_ q = m).
Definition IsCollectiveMode (q : PoolQuery) : bool := IsMode RoutingMode.ManyToOne q || IsMode RoutingMode.AllToOne q.

(** * The text form *)

Definition colon : u8 := Byte.x3a.

Definition ToString (q : PoolQuery) : str :=
  match routing_mode_ q with
  | RoutingMode.Local => lit "local"
  | RoutingMode.Broadcast => lit "broadcast"
  | RoutingMode.Dynamic => lit "dynamic"
  | RoutingMode.DirectId => lit "direct_id:" ++ to_string (container_id_ q)
  | RoutingMode.DirectHash => lit "direct_hash:" ++ to_string (hash_value_ q)
  | RoutingMode.Range => lit "range:" ++ to_string (range_offset_ q) ++ colon :: to_string (range_count_ q)
  | RoutingMode.Physical => lit "physical:" ++ to_string (node_id_ q)
  | RoutingMode.ManyToOne =>
      lit "many_to_one:" ++ to_string (hash_value_ q) ++ colon :: to_string (batch_key_ q) ++ colon :: to_string (batch_for_ns_ q)
  | RoutingMode.AllToOne => lit "all_to_one:" ++ to_string (hash_value_ q) ++ colon :: to_string (batch_key_ q)
  | RoutingMode.ToLocalCpu | RoutingMode.Null => lit "unknown"
  end.

Definition tolower (c : u8) : u8 :=
  if (65 <=? byte.unsigned c) && (byte.unsigned c <=? 90) then byte.of_Z (byte.unsigned c + 32) else c.

(** [s.rfind(p, 0) == 0], with what follows the prefix. *)
Fixpoint strip (p s : str) : option str :=
  match p, s with
  | [], _ => Some s
  | a :: p, b :: s => if decide (a = b) then strip p s else None
  | _ :: _, [] => None
  end.

(** The text up to the first colon and, if there is one, the text after it. *)
Definition cut (s : str) : str * option str :=
  match find_char colon s with Some i => (take i s, Some (drop (S i) s)) | None => (s, None) end.

Definition from_range (s : str) : option PoolQuery :=
  match cut s with
  | (a, Some b) => offset ← stoul a; count ← stoul b; Some (Range (u32 offset) (u32 count) minus_one)
  | (_, None) => None
  end.
Definition from_many_to_one (s : str) : option PoolQuery :=
  let '(a, rest) := cut s in
  hash ← stoul a;
  match rest with
  | None => Some (ManyToOne (u32 hash) 0 10000)
  | Some rest =>
      let '(b, rest) := cut rest in
      key ← stoul b;
      match rest with
      | None => Some (ManyToOne (u32 hash) key 10000)
      | Some c => window ← stoul c; Some (ManyToOne (u32 hash) key window)
      end
  end.
Definition from_all_to_one (s : str) : option PoolQuery :=
  let '(a, rest) := cut s in
  hash ← stoul a;
  match rest with None => Some (AllToOne (u32 hash) 0) | Some b => key ← stoul b; Some (AllToOne (u32 hash) key) end.

Definition prefixes : list (str * (str -> option PoolQuery)) :=
  [(lit "direct_id:", fun s => id ← stoul s; Some (DirectId (u32 id) minus_one));
   (lit "direct_hash:", fun s => hash ← stoul s; Some (DirectHash (u32 hash) minus_one));
   (lit "range:", from_range);
   (lit "physical:", fun s => node ← stoul s; Some (Physical (u32 node) minus_one));
   (lit "many_to_one:", from_many_to_one);
   (lit "all_to_one:", from_all_to_one)].
Fixpoint from_prefix (ps : list (str * (str -> option PoolQuery))) (s : str) : option PoolQuery :=
  match ps with
  | [] => None
  | (p, f) :: ps => match strip p s with Some rest => f rest | None => from_prefix ps s end
  end.
(** [None] is an exception. *)
Definition FromString (text : str) : option PoolQuery :=
  let s := map tolower text in
  if decide (s = lit "local") then Some (Local 32)
  else if decide (s = lit "broadcast") then Some (Broadcast minus_one)
  else if decide (s = lit "dynamic") then Some (Dynamic minus_one)
  else from_prefix prefixes s.

Example parse_1 : FromString (lit "Range:3:17") = Some (Range 3 17 minus_one).
Proof. by vm_compute. Qed.
Example parse_2 : FromString (lit "many_to_one:7:5") = Some (ManyToOne 7 5 10000).
Proof. by vm_compute. Qed.

(** Numbers that do not fit are cut down to 32 bits, not rejected. *)
Example wide_id_is_cut : FromString (lit "direct_id:4294967299") = Some (DirectId 3 minus_one) /\
  FromString (lit "direct_id:-1") = Some (DirectId kInvalidContainerId minus_one).
Proof. by vm_compute. Qed.

(** * Round trip *)

Create HintDb pool_query.

(** The queries that have a text: those of the factories, with the defaults. *)
Inductive canonical : PoolQuery -> Prop :=
| local_text : canonical (Local 32)
| broadcast_text : canonical (Broadcast minus_one)
| dynamic_text : canonical (Dynamic minus_one)
| direct_id_text id : 0 <= id < 2 ^ 32 -> canonical (DirectId id minus_one)
| direct_hash_text hash : 0 <= hash < 2 ^ 32 -> canonical (DirectHash hash minus_one)
| range_text offset count : 0 <= offset < 2 ^ 32 -> 0 <= count < 2 ^ 32 -> canonical (Range offset count minus_one)
| physical_text node : 0 <= node < 2 ^ 32 -> canonical (Physical node minus_one)
| many_to_one_text hash key window : 0 <= hash < 2 ^ 32 -> 0 <= key < 2 ^ 64 -> 0 <= window < 2 ^ 64 -> canonical (ManyToOne hash key window)
| all_to_one_text hash key : 0 <= hash < 2 ^ 32 -> 0 <= key < 2 ^ 64 -> canonical (AllToOne hash key).
#[export] Hint Constructors canonical : pool_query.

Lemma canonical_of_text s q : FromString s = Some q -> canonical q.
Proof.
  assert (forall z z', stoul z = Some z' -> 0 <= z' < 2 ^ 64) as Hr by apply stoul_range.
  unfold FromString. generalize (map tolower s); clear s; intros s. do 3 (case_decide; [intros [= <-]; constructor|]).
  unfold prefixes, from_prefix, from_range, from_many_to_one, from_all_to_one, cut. intros Hq.
  repeat (case_match; simplify_option_eq); constructor; eauto using u32_range; lia.
Qed.

Lemma strip_app p s : strip p (p ++ s) = Some s.
Proof. induction p as [|c p IH]; [done|]. cbn. by rewrite decide_True. Qed.

Lemma lower_digit c : is_digit c = true -> tolower c = c.
Proof. unfold is_digit, tolower. intros H. by rewrite (proj2 (andb_false_iff _ _)) by (left; lia). Qed.

Lemma lower_to_string z : 0 <= z < 2 ^ 64 -> map tolower (to_string z) = to_string z.
Proof.
  intros Hz. destruct (to_string_spec z Hz) as [Hd _]. induction Hd as [|c s Hc _ IH]; [done|]. cbn [map]. by rewrite lower_digit, IH.
Qed.

Lemma cut_app a b : colon ∉ a -> cut (a ++ colon :: b) = (a, Some b).
Proof.
  intros Ha. unfold cut. rewrite find_char_app by done. rewrite take_app_length. do 2 f_equal.
  replace (S (length a)) with (length a + 1)%nat by lia. by rewrite <- drop_drop, drop_app_length.
Qed.

Lemma cut_all a : colon ∉ a -> cut a = (a, None).
Proof. intros Ha. unfold cut. by rewrite find_char_none. Qed.

Lemma no_colon z : 0 <= z < 2 ^ 64 -> colon ∉ to_string z.
Proof. by apply to_string_no. Qed.

Lemma is_u64 z : 0 <= z < 2 ^ 32 -> 0 <= z < 2 ^ 64.
Proof. lia. Qed.
#[local] Hint Resolve is_u64 no_colon : core.

(** The first prefix that fits decides. *)
Lemma from_prefix_hit p f ps s : from_prefix ((p, f) :: ps) (p ++ s) = f s.
Proof. cbn [from_prefix]. by rewrite strip_app. Qed.
Lemma from_prefix_skip p f ps s : strip p s = None -> from_prefix ((p, f) :: ps) s = from_prefix ps s.
Proof. cbn [from_prefix]. by intros ->. Qed.
Ltac find_prefix := first [apply from_prefix_hit | rewrite from_prefix_skip by reflexivity; find_prefix].
Ltac read_numbers := rewrite ?cut_app, ?cut_all by auto; repeat (rewrite stoul_to_string by auto; cbn [mbind option_bind]); by rewrite ?u32_small.

Lemma FromString_ToString q : canonical q -> FromString (ToString q) = Some q.
Proof.
  unfold FromString. intros []; [by vm_compute..| | | | | |]; unfold ToString; cbn [routing_mode_ query DirectId DirectHash Range Physical ManyToOne AllToOne
    container_id_ hash_value_ range_offset_ range_count_ node_id_ batch_key_ batch_for_ns_];
    rewrite ?map_app, ?map_cons, ?map_app, ?map_cons, !lower_to_string by auto; do 3 (rewrite decide_False by done).
  all: repeat match goal with |- context [map tolower (lit ?x)] => change (map tolower (lit x)) with (lit x) end.
  all: etransitivity; [unfold prefixes; find_prefix|].
  - read_numbers.
  - read_numbers.
  - unfold from_range. read_numbers.
  - read_numbers.
  - unfold from_many_to_one. read_numbers.
  - unfold from_all_to_one. read_numbers.
Qed.

