(* ===== verification/PoolManager.v ===== *)
(** The pools of a node ([context-runtime/src/pool_manager.cc],
    [context-runtime/include/clio_runtime/pool_manager.h]) and the recovery of
    the containers of a dead node ([RecoverContainers], [ChangeAddressTable] and
    [ComputeRecoveryPlan] of [modules/admin/src/admin_runtime.cc]).

    A container is a handle: the id it was made for and the object's identity.
    Constructing one may fail, so each construction is an argument. Which
    container an unordered map starts with is a parameter. Time stamps of the
    write-ahead log are arguments. The statistics models, access control and the
    container's own [Create] and [Recover] are not modelled. *)
From Stdlib Require Import ZArith Lia Strings.String Strings.Byte.
From coqutil Require Import Byte.
From stdpp Require Import base list gmap fin_maps.
From S2P Require Import Prelude Text PoolQuery.

Open Scope Z_scope.

Abbreviation PoolId := (Z * Z)%type.
(** The log files of a node, one per pool. *)
Abbreviation Wal := (gmap PoolId (list u8)).
Definition NullPool : PoolId := (0, 0).
Definition kStaticContainerId : Z := 2 ^ 32 - 2.

Record handle := mkHandle { h_container : Z; h_object : Z }.
#[export] Instance handle_eq_dec : EqDecision handle.
Proof. solve_decision. Defined.

Record PoolInfo := mkPool {
  pool_name_ : str;
  num_containers_ : Z;
  containers_ : gmap Z handle;
  address_map_ : gmap Z Z;
  static_container_ : option handle;
  local_container_ : option handle }.
Record PoolManager := mkManager { is_initialized_ : bool; pool_metadata_ : gmap PoolId PoolInfo }.
Implicit Types (info : PoolInfo) (pm : PoolManager) (pid : PoolId) (cid node : Z) (h : handle).

Definition with_containers info cs local : PoolInfo :=
  mkPool (pool_name_ info) (num_containers_ info) cs (address_map_ info) (static_container_ info) local.
Definition with_static info (h : option handle) : PoolInfo :=
  mkPool (pool_name_ info) (num_containers_ info) (containers_ info) (address_map_ info) h (local_container_ info).
Definition with_addresses info am : PoolInfo :=
  mkPool (pool_name_ info) (num_containers_ info) (containers_ info) am (static_container_ info) (local_container_ info).

Definition GetPoolInfo pm pid : option PoolInfo := if is_initialized_ pm then pool_metadata_ pm !! pid else None.
Definition HasPool pm pid : bool := bool_decide (is_Some (GetPoolInfo pm pid)).
Definition UpdatePoolMetadata pm pid info : PoolManager :=
  if is_initialized_ pm then mkManager true (<[pid := info]> (pool_metadata_ pm)) else pm.
Definition ErasePoolMetadata pm pid : PoolManager := mkManager (is_initialized_ pm) (delete pid (pool_metadata_ pm)).
(** What changes the entry of a pool in place. *)
Definition update_pool pm pid (f : PoolInfo -> PoolInfo) : PoolManager := mkManager (is_initialized_ pm) (alter f pid (pool_metadata_ pm)).

(** * Look-ups *)

Definition HasContainer pm pid cid : bool :=
  match GetPoolInfo pm pid with Some info => bool_decide (is_Some (containers_ info !! cid)) | None => false end.
Definition GetContainer pm pid cid : option handle :=
  match GetPoolInfo pm pid with
  | None => None
  | Some info =>
      match (if cid =? kInvalidContainerId then None else containers_ info !! cid) with
      | Some h => Some h
      | None => local_container_ info
      end
  end.
Definition GetContainerRaw pm pid cid : option handle := info ← GetPoolInfo pm pid; containers_ info !! cid.
Definition GetStaticContainer pm pid : option handle := info ← GetPoolInfo pm pid; static_container_ info.
Definition GetRealOrStaticContainer pm pid : option handle :=
  info ← GetPoolInfo pm pid; match local_container_ info with Some h => Some h | None => static_container_ info end.
Definition GetContainerNodeId pm pid cid : Z :=
  match GetPoolInfo pm pid with Some info => default 0 (address_map_ info !! cid) | None => 0 end.
Definition FindPoolByName pm (name : str) : PoolId :=
  if is_initialized_ pm then
    match List.find (fun p => bool_decide (pool_name_ (snd p) = name)) (map_to_list (pool_metadata_ pm)) with Some p => fst p | None => NullPool end
  else NullPool.

(** * Changes *)

Definition EnsureStaticContainer pm pid (made : option handle) : PoolManager :=
  match GetPoolInfo pm pid with
  | None => pm
  | Some info =>
      match static_container_ info, made with
      | None, Some h => update_pool pm pid (fun info => with_static info (Some h))
      | _, _ => pm
      end
  end.

(** [made] is the static container, were one to be constructed. *)
Definition RegisterContainer pm pid cid (container made : option handle) : bool * PoolManager :=
  match container with
  | Some h =>
      if negb (is_initialized_ pm) then (false, pm) else
      let pm := EnsureStaticContainer pm pid made in
      match GetPoolInfo pm pid with
      | None => (false, pm)
      | Some _ =>
          (true, update_pool pm pid (fun info => with_containers info (<[cid := h]> (containers_ info))
                   (match local_container_ info with None => Some h | l => l end)))
      end
  | None => (false, pm)
  end.

Section PoolManager.
(** [containers_.begin()] *)
Variable begin_ : gmap Z handle -> option handle.

Definition RecalculateLocalContainer info : option handle :=
  if decide (containers_ info = ∅) then static_container_ info else begin_ (containers_ info).

Definition UnregisterContainer pm pid cid : bool * PoolManager :=
  match GetPoolInfo pm pid with
  | None => (false, pm)
  | Some info =>
      match containers_ info !! cid with
      | None => (false, pm)
      | Some removed =>
          let info' := with_containers info (delete cid (containers_ info)) (local_container_ info) in
          let local := if decide (local_container_ info = Some removed) then RecalculateLocalContainer info' else local_container_ info in
          (true, update_pool pm pid (fun _ => with_containers info' (containers_ info') local))
      end
  end.

Definition UnregisterAllContainers pm pid : PoolManager :=
  if is_initialized_ pm then update_pool pm pid (fun info => with_static (with_containers info ∅ None) None) else pm.

Definition InitAddressMap pm pid (num_containers : Z) : PoolManager :=
  if is_initialized_ pm then
    update_pool pm pid (fun info => with_addresses info (set_to_map (fun c => (c, c)) (list_to_set (C := gset Z) (seqZ 0 num_containers))))
  else pm.

Definition UpdateContainerNodeMapping pm pid cid new_node : bool * PoolManager :=
  match GetPoolInfo pm pid with
  | None => (false, pm)
  | Some info => (true, update_pool pm pid (fun info => with_addresses info (<[cid := new_node]> (address_map_ info))))
  end.

(** What the parts of [CreatePool] that are not modelled do: whether the names
    are valid, the containers constructed (the static
    one is tried again when its first construction failed), and whether [Create] succeeds. *)
Record creation := mkCreation { cr_valid : bool; cr_static : option handle; cr_static_again : option handle; cr_container : option handle; cr_ok : bool }.

(** On the node [node] of a cluster of [hosts] nodes: the id the task ends up with. *)
Definition CreatePool pm (hosts node : Z) (name : str) pid (c : creation) : PoolId * PoolManager :=
  if negb (is_initialized_ pm) then (pid, pm) else
  if negb (cr_valid c) then (pid, pm) else
  let existing := FindPoolByName pm name in
  if negb (bool_decide (existing = NullPool)) then (existing, pm) else
  if bool_decide (pid = NullPool) then (pid, pm) else
  if HasPool pm pid then (pid, pm) else
  let pm1 := UpdatePoolMetadata pm pid (mkPool name hosts ∅ ∅ None None) in
  let pm2 := EnsureStaticContainer (InitAddressMap pm1 pid hosts) pid (cr_static c) in
  match cr_container c with
  | None => (pid, ErasePoolMetadata pm2 pid)
  | Some h =>
      let '(ok, pm3) := RegisterContainer pm2 pid node (Some h) (cr_static_again c) in
      if negb ok then (pid, ErasePoolMetadata pm3 pid)
      else if cr_ok c then (pid, pm3)
      else (pid, ErasePoolMetadata (snd (UnregisterContainer pm3 pid node)) pid)
  end.

Definition DestroyPool pm pid : PoolManager :=
  if HasPool pm pid then ErasePoolMetadata (UnregisterAllContainers pm pid) pid else pm.

(** * The log of the address map *)
Record WalEntry := mkWal { w_timestamp : Z; w_pool : PoolId; w_container : Z; w_old : Z; w_new : Z }.
Definition wal_bytes (e : WalEntry) : list u8 :=
  le_bytes 8 (w_timestamp e) ++ le_bytes 4 (fst (w_pool e)) ++ le_bytes 4 (snd (w_pool e)) ++ le_bytes 4 (w_container e) ++
  le_bytes 4 (w_old e) ++ le_bytes 4 (w_new e).
Definition read_wal (bs : list u8) : option (WalEntry * list u8) :=
  '(ts, bs) ← get_le 8 bs;
  '(major, bs) ← get_le 4 bs;
  '(minor, bs) ← get_le 4 bs;
  '(cid, bs) ← get_le 4 bs;
  '(old, bs) ← get_le 4 bs;
  '(new, bs) ← get_le 4 bs;
  Some (mkWal ts (major, minor) cid old new, bs).

(** [opened]: whether the file could be opened. *)
Definition WriteAddressTableWAL (wal : Wal) (opened : bool) (e : WalEntry) : Wal :=
  if opened then <[w_pool e := default [] (wal !! w_pool e) ++ wal_bytes e]> wal else wal.

Fixpoint replay_wal (fuel : nat) pm (bs : list u8) : PoolManager :=
  match fuel with
  | O => pm
  | S fuel =>
      match read_wal bs with
      | None => pm
      | Some (e, bs) => replay_wal fuel (snd (UpdateContainerNodeMapping pm (w_pool e) (w_container e) (w_new e))) bs
      end
  end.
(** The files of the directory in the order it lists them. *)
Definition ReplayAddressTableWAL pm (files : list (list u8)) : PoolManager := fold_left (fun pm bs => replay_wal (length bs) pm bs) files pm.

(** * Handlers of the administration module *)

Definition ChangeAddressTable pm (wal : Wal) (ts : Z) (opened : bool) pid cid node : bool * PoolManager * Wal :=
  let wal := WriteAddressTableWAL wal opened (mkWal ts pid cid (GetContainerNodeId pm pid cid) node) in
  (UpdateContainerNodeMapping pm pid cid node, wal).

Record RecoveryAssignment := mkAssignment { ra_pool : PoolId; ra_container : Z; ra_dest : Z; ra_dead : Z }.

Section Recovery.
(** The construction of a container of a pool, and of its static container. *)
Variable make : PoolId -> Z -> option handle.
Variable make_static : PoolId -> option handle.

Definition recover_one (self : Z) (ts : Z) (opened : bool) (ra : RecoveryAssignment) (s : nat * PoolManager * Wal) : nat * PoolManager * Wal :=
  let '(n, pm, wal) := s in
  let pm := snd (UpdateContainerNodeMapping pm (ra_pool ra) (ra_container ra) (ra_dest ra)) in
  let wal := WriteAddressTableWAL wal opened (mkWal ts (ra_pool ra) (ra_container ra) (ra_dead ra) (ra_dest ra)) in
  if negb (ra_dest ra =? self) then (n, pm, wal) else
  match GetContainer pm (ra_pool ra) (ra_container ra) with
  | Some _ => (n, pm, wal)
  | None =>
      match make (ra_pool ra) (ra_container ra) with
      | None => (n, pm, wal)
      | Some h => (S n, snd (RegisterContainer pm (ra_pool ra) (ra_container ra) (Some h) (make_static (ra_pool ra))), wal)
      end
  end.
Definition RecoverContainers (self : Z) (ts : Z) (opened : bool) pm (wal : Wal) (plan : list RecoveryAssignment) : nat * PoolManager * Wal :=
  fold_left (fun s ra => recover_one self ts opened ra s) plan (0%nat, pm, wal).
End Recovery.

Definition kAdminPoolId : PoolId := (1, 0).

(** [schedule] is [ScheduleRecover] of the pool's local container here. The state
    is the round-robin index; both maps are walked in the order of their lists. *)
Definition assign (schedule : handle -> option Z) (alive : list Z) (dead : Z) pid info (s : nat * list RecoveryAssignment) (home : Z * Z)
  : nat * list RecoveryAssignment :=
  let '(rr, plan) := s in
  let '(cid, node) := home in
  if negb (node =? dead) then (rr, plan) else
  match (h ← local_container_ info; schedule h) with
  | Some dest => (rr, plan ++ [mkAssignment pid cid dest dead])
  | None => (S rr, plan ++ [mkAssignment pid cid (default 0 (alive !! (rr mod length alive)%nat)) dead])
  end.
Definition ComputeRecoveryPlan (schedule : handle -> option Z) (alive : list Z) pm (dead : Z) : list RecoveryAssignment :=
  match alive with
  | [] => []
  | _ =>
      snd (fold_left (fun s p => if decide (fst p = kAdminPoolId) then s
                                 else fold_left (assign schedule alive dead (fst p) (snd p)) (map_to_list (address_map_ (snd p))) s)
             (if is_initialized_ pm then map_to_list (pool_metadata_ pm) else []) (0%nat, []))
  end.

End PoolManager.

(** * The address map and its log *)

Definition apply_entries (es : list WalEntry) pm : PoolManager :=
  fold_left (fun pm e => snd (UpdateContainerNodeMapping pm (w_pool e) (w_container e) (w_new e))) es pm.
Definition addresses (es : list WalEntry) pid (am : gmap Z Z) : gmap Z Z :=
  fold_left (fun am e => if decide (w_pool e = pid) then <[w_container e := w_new e]> am else am) es am.

(** The address map of a pool, as look-ups see it. *)
Definition homes pm pid : option (gmap Z Z) := address_map_ <$> GetPoolInfo pm pid.

Lemma GetPoolInfo_update pm pid f q :
  GetPoolInfo (update_pool pm pid f) q = if decide (pid = q) then f <$> GetPoolInfo pm q else GetPoolInfo pm q.
Proof.
  unfold GetPoolInfo, update_pool. cbn [is_initialized_ pool_metadata_]. destruct (is_initialized_ pm); [|by case_decide]. rewrite lookup_alter. case_decide as E; [by rewrite E|done].
Qed.

Lemma homes_update pm pid f q : (forall info, address_map_ (f info) = address_map_ info) -> homes (update_pool pm pid f) q = homes pm q.
Proof.
  intros Hf. unfold homes. rewrite GetPoolInfo_update. case_decide; [|done]. destruct (GetPoolInfo pm q); [|done]. cbn. by rewrite Hf.
Qed.

Lemma homes_mapping pm pid cid node q :
  homes (snd (UpdateContainerNodeMapping pm pid cid node)) q = (fun am => if decide (pid = q) then <[cid := node]> am else am) <$> homes pm q.
Proof.
  unfold UpdateContainerNodeMapping. destruct (GetPoolInfo pm pid) as [info|] eqn:E; cbn [snd].
  - unfold homes. rewrite GetPoolInfo_update. case_decide; [subst; by rewrite E|]. by destruct (GetPoolInfo pm q).
  - unfold homes. case_decide; [subst; by rewrite E|]. by destruct (GetPoolInfo pm q).
Qed.

Lemma homes_apply es pm q : homes (apply_entries es pm) q = addresses es q <$> homes pm q.
Proof.
  revert pm. induction es as [|e es IH]; intros pm; [cbn [apply_entries fold_left]; by destruct (homes pm q)|]. cbn [apply_entries addresses fold_left].
  change (fold_left _ es ?s) with (apply_entries es s). rewrite IH, homes_mapping. destruct (homes pm q); [|done]. cbn. by case_decide.
Qed.

Lemma homes_register pm pid cid c made q : homes (snd (RegisterContainer pm pid cid c made)) q = homes pm q.
Proof.
  assert (homes (EnsureStaticContainer pm pid made) q = homes pm q) as He.
  { unfold EnsureStaticContainer. repeat case_match; try done. by apply homes_update. }
  unfold RegisterContainer. repeat (case_match; cbn [snd]; try done). by rewrite homes_update.
Qed.

Lemma addresses_filter es pid am : addresses es pid am = addresses (filter (fun e => w_pool e = pid) es) pid am.
Proof.
  revert am. induction es as [|e es IH]; intros am; [done|]. rewrite filter_cons. cbn [addresses fold_left].
  change (fold_left _ es ?s) with (addresses es pid s). case_decide as E; [|apply IH].
  cbn [addresses fold_left]. rewrite decide_True by done. apply IH.
Qed.

Lemma addresses_other es pid q am : pid <> q -> addresses (filter (fun e => w_pool e = pid) es) q am = am.
Proof.
  intros Hn. induction es as [|e es IH]; [done|]. rewrite filter_cons. case_decide as E; [|done].
  cbn [addresses fold_left]. by rewrite decide_False by congruence.
Qed.

Definition entry_fits (e : WalEntry) : Prop :=
  0 <= w_timestamp e < 2 ^ 64 /\ 0 <= fst (w_pool e) < 2 ^ 32 /\ 0 <= snd (w_pool e) < 2 ^ 32 /\ 0 <= w_container e < 2 ^ 32 /\
  0 <= w_old e < 2 ^ 32 /\ 0 <= w_new e < 2 ^ 32.

Lemma read_wal_app e rest : entry_fits e -> read_wal (wal_bytes e ++ rest) = Some (e, rest).
Proof.
  intros (H1 & H2 & H3 & H4 & H5 & H6). unfold read_wal, wal_bytes. rewrite <- !app_assoc.
  rewrite get_le_app by done. cbn [mbind option_bind]. do 5 (rewrite get_le_app by done; cbn [mbind option_bind]). by destruct e as [ts [] cid old new].
Qed.

Lemma length_wal_bytes e : length (wal_bytes e) = 28%nat.
Proof. unfold wal_bytes. by rewrite !length_app, !length_le_bytes. Qed.

Lemma read_wal_short bs : (length bs < 28)%nat -> read_wal bs = None.
Proof.
  intros Hl. unfold read_wal.
  repeat match goal with
  | |- context [get_le ?n ?b] => let E := fresh in destruct (get_le n b) as [[]|] eqn:E; [apply get_le_length in E|done]; cbn [mbind option_bind]
  end. lia.
Qed.

Lemma replay_bytes es tail fuel pm : Forall entry_fits es -> (length tail < 28)%nat -> (length es <= fuel)%nat ->
  replay_wal fuel pm (concat (map wal_bytes es) ++ tail) = apply_entries es pm.
Proof.
  intros Hes Ht. revert fuel pm. induction Hes as [|e es He _ IH]; intros fuel pm Hf.
  - destruct fuel as [|fuel]; [done|]. cbn [concat map app replay_wal]. by rewrite read_wal_short.
  - destruct fuel as [|fuel]; [cbn in Hf; lia|]. cbn [concat map replay_wal]. rewrite <- app_assoc, read_wal_app by done.
    cbn in Hf. by rewrite IH by lia.
Qed.

(** What a log file of a pool holds, and what all files together do. *)
Definition file_of (es : list WalEntry) pid : list u8 := concat (map wal_bytes (filter (fun e => w_pool e = pid) es)).

Lemma file_of_snoc es e pid : file_of (es ++ [e]) pid = file_of es pid ++ (if decide (w_pool e = pid) then wal_bytes e else []).
Proof.
  unfold file_of. rewrite filter_app, map_app, concat_app, filter_cons, filter_nil. f_equal. case_decide; [|done]. cbn [map concat]. by rewrite app_nil_r.
Qed.

Lemma homes_replay_files (es : list WalEntry) (files : list (PoolId * list u8)) pm q :
  Forall entry_fits es -> NoDup (map fst files) ->
  (forall pid bs, (pid, bs) ∈ files -> exists tail, bs = file_of es pid ++ tail /\ (length tail < 28)%nat) ->
  homes (ReplayAddressTableWAL pm (map snd files)) q =
    (if decide (q ∈ map fst files) then addresses es q <$> homes pm q else homes pm q).
Proof.
  intros He Hn Hf. revert pm. induction files as [|[pid bs] files IH]; intros pm.
  - cbn. rewrite decide_False; [done|set_solver].
  - cbn [map ReplayAddressTableWAL fold_left snd fst]. change (fold_left _ ?l ?s) with (ReplayAddressTableWAL s l).
    apply NoDup_cons in Hn as [Hni Hn]. rewrite IH by (done || intros; apply Hf; by right).
    destruct (Hf pid bs) as (tail & -> & Ht); [by left|].
    unfold file_of. rewrite replay_bytes; [|by rewrite Forall_forall in He |- *; intros e [_ Hi]%list_elem_of_filter; by apply He|done|rewrite length_app; clear; induction (filter _ es) as [|e l IHl]; [cbn; lia|cbn [map concat]; rewrite length_app, length_wal_bytes; cbn; lia]].
    rewrite homes_apply. destruct (decide (q = pid)) as [->|Hq].
    + rewrite decide_False by done. rewrite decide_True by (by left). destruct (homes pm pid); [|done]. cbn. by rewrite <- addresses_filter.
    + assert (addresses (filter (fun e => w_pool e = pid) es) q <$> homes pm q = homes pm q) as Hs.
      { destruct (homes pm q) as [am|]; [|done]. cbn. by rewrite addresses_other. }
      rewrite Hs. case_decide as H1; case_decide as H2; [done| | |done]; set_solver.
Qed.

Section Log.
Context (make : PoolId -> Z -> option handle) (make_static : PoolId -> option handle) (self : Z).

Inductive admin_op := Change (ts : Z) pid cid node | Recover (ts : Z) (plan : list RecoveryAssignment).
Definition admin_step (s : PoolManager * Wal) (o : admin_op) : PoolManager * Wal :=
  let '(pm, wal) := s in
  match o with
  | Change ts pid cid node => let '(_, pm, wal) := ChangeAddressTable pm wal ts true pid cid node in (pm, wal)
  | Recover ts plan => let '(_, pm, wal) := RecoverContainers make make_static self ts true pm wal plan in (pm, wal)
  end.
Definition run_admin (ops : list admin_op) (s : PoolManager * Wal) : PoolManager * Wal := fold_left admin_step ops s.

(** A crash inside an append: the first [n] bytes of its record. *)
Definition tear (torn : option (WalEntry * nat)) (wal : Wal) : Wal :=
  match torn with
  | None => wal
  | Some (e, n) => <[w_pool e := default [] (wal !! w_pool e) ++ take n (wal_bytes e)]> wal
  end.

Definition pool_fits pid : Prop := 0 <= fst pid < 2 ^ 32 /\ 0 <= snd pid < 2 ^ 32.
Definition assignment_fits (ra : RecoveryAssignment) : Prop :=
  pool_fits (ra_pool ra) /\ 0 <= ra_container ra < 2 ^ 32 /\ 0 <= ra_dest ra < 2 ^ 32 /\ 0 <= ra_dead ra < 2 ^ 32.
Definition op_fits (o : admin_op) : Prop :=
  match o with
  | Change ts pid cid node => 0 <= ts < 2 ^ 64 /\ pool_fits pid /\ 0 <= cid < 2 ^ 32 /\ 0 <= node < 2 ^ 32
  | Recover ts plan => 0 <= ts < 2 ^ 64 /\ Forall assignment_fits plan
  end.
Definition homes_fit pm : Prop := forall pid am cid n, homes pm pid = Some am -> am !! cid = Some n -> 0 <= n < 2 ^ 32.

Record logged pm0 (es : list WalEntry) pm (wal : Wal) : Prop := {
  lg_homes q : homes pm q = addresses es q <$> homes pm0 q;
  lg_wal pid : default [] (wal !! pid) = file_of es pid;
  lg_fits : Forall entry_fits es }.

Lemma addresses_fit es q am : Forall entry_fits es -> (forall cid n, am !! cid = Some n -> 0 <= n < 2 ^ 32) ->
  forall cid n, addresses es q am !! cid = Some n -> 0 <= n < 2 ^ 32.
Proof.
  intros He. revert am. induction He as [|e es He _ IH]; intros am Ham; [done|]. cbn [addresses fold_left].
  apply IH. case_decide; [|done]. intros cid n. rewrite lookup_insert_Some. intros [[_ <-]|[_ Hl]]; [by apply He|by eapply Ham].
Qed.

Lemma logged_node pm0 es pm wal pid cid : homes_fit pm0 -> logged pm0 es pm wal -> 0 <= GetContainerNodeId pm pid cid < 2 ^ 32.
Proof.
  intros H0 Hl. unfold GetContainerNodeId. pose proof (lg_homes _ _ _ _ Hl pid) as Hh. unfold homes in Hh at 1.
  destruct (GetPoolInfo pm pid) as [info|]; [|lia]. cbn in Hh. destruct (homes pm0 pid) as [am|] eqn:E; [|done]. cbn in Hh. injection Hh as ->.
  destruct (addresses es pid am !! cid) as [n|] eqn:En; [|cbn; lia]. cbn. eapply addresses_fit; [apply Hl| |exact En]. intros. by eapply H0.
Qed.

(** Logging an update and making it, in either order. *)
Lemma logged_entry pm0 es pm wal e : entry_fits e -> logged pm0 es pm wal ->
  logged pm0 (es ++ [e]) (snd (UpdateContainerNodeMapping pm (w_pool e) (w_container e) (w_new e))) (WriteAddressTableWAL wal true e).
Proof.
  intros He [Hh Hw Hf]. constructor.
  - intros q. rewrite homes_mapping, Hh. destruct (homes pm0 q); [|done]. cbn. f_equal. unfold addresses. by rewrite fold_left_app.
  - intros pid. unfold WriteAddressTableWAL. rewrite lookup_insert, file_of_snoc. case_decide as E; cbn [default from_option].
    + subst. by rewrite Hw.
    + by rewrite app_nil_r.
  - apply Forall_app. split; [done|by constructor].
Qed.

Lemma logged_same_homes pm0 es pm pm' wal : (forall q, homes pm' q = homes pm q) -> logged pm0 es pm wal -> logged pm0 es pm' wal.
Proof. intros Hq [Hh Hw Hf]. constructor; [|done..]. intros q. by rewrite Hq. Qed.

Lemma logged_recover pm0 ts plan n pm wal es : 0 <= ts < 2 ^ 64 -> Forall assignment_fits plan -> logged pm0 es pm wal ->
  exists es', let '(_, pm', wal') := fold_left (fun s ra => recover_one make make_static self ts true ra s) plan (n, pm, wal) in logged pm0 es' pm' wal'.
Proof.
  intros Hts Hp. revert n pm wal es. induction Hp as [|ra plan Hra _ IH]; intros n pm wal es Hl; [by exists es|]. cbn [fold_left].
  assert (logged pm0 (es ++ [mkWal ts (ra_pool ra) (ra_container ra) (ra_dead ra) (ra_dest ra)])
    (snd (UpdateContainerNodeMapping pm (ra_pool ra) (ra_container ra) (ra_dest ra)))
    (WriteAddressTableWAL wal true (mkWal ts (ra_pool ra) (ra_container ra) (ra_dead ra) (ra_dest ra)))) as Hl'.
  { apply (logged_entry pm0 es pm wal (mkWal ts _ _ _ _)); [|done]. unfold assignment_fits, pool_fits in Hra. unfold entry_fits. cbn. tauto. }
  unfold recover_one at 2. destruct (negb (ra_dest ra =? self)); [by eapply IH|]. destruct (GetContainer _ _ _); [by eapply IH|].
  destruct (make _ _); [|by eapply IH]. eapply IH, logged_same_homes; [|exact Hl']. intros q. apply homes_register.
Qed.

Lemma logged_ops pm0 ops pm wal es : homes_fit pm0 -> Forall op_fits ops -> logged pm0 es pm wal ->
  exists es', logged pm0 es' (fst (run_admin ops (pm, wal))) (snd (run_admin ops (pm, wal))).
Proof.
  intros H0 Ho. revert pm wal es. induction Ho as [|o ops Ho _ IH]; intros pm wal es Hl; [by exists es|].
  cbn [run_admin fold_left]. change (fold_left _ ops ?s) with (run_admin ops s). destruct o as [ts pid cid node|ts plan]; cbn [admin_step].
  - unfold ChangeAddressTable. pose proof (logged_node _ _ _ _ pid cid H0 Hl) as Hn. cbn [op_fits] in Ho.
    pose proof (logged_entry pm0 es pm wal (mkWal ts pid cid (GetContainerNodeId pm pid cid) node)) as Hl'. cbn [w_pool w_container w_new] in Hl'.
    destruct (UpdateContainerNodeMapping pm pid cid node) as [b pm']. eapply IH, Hl'; [unfold pool_fits in Ho; unfold entry_fits; cbn; tauto|done].
  - destruct Ho as [Hts Hp]. destruct (logged_recover pm0 ts plan 0 pm wal es Hts Hp Hl) as [es' Hl']. unfold RecoverContainers.
    destruct (fold_left _ plan _) as [[n pm'] wal']. by eapply IH.
Qed.

(** C39. The address map survives a restart: after any changes and recoveries, each
    update logged, and at most one more record torn by the crash, replaying the
    files of the log, in whatever order the directory lists them, on a manager
    whose pools are mapped as they were at first gives every pool the map it had. *)
Theorem address_wal_replay pm fresh ops torn files q :
  homes_fit pm -> Forall op_fits ops -> (forall p, homes fresh p = homes pm p) -> (forall e n, torn = Some (e, n) -> (n < 28)%nat) ->
  files ≡ₚ map_to_list (tear torn (snd (run_admin ops (pm, ∅)))) ->
  homes (ReplayAddressTableWAL fresh (map snd files)) q = homes (fst (run_admin ops (pm, ∅))) q.
Proof.
  intros Hpm Ho Hfr Ht Hp.
  destruct (logged_ops pm ops pm ∅ []) as [es [Hh Hw Hf]]; [done|done| |].
  { constructor; [|done..]. intros p. destruct (homes pm p); reflexivity. }
  set (wal := snd (run_admin ops (pm, ∅))) in *. clearbody wal.
  assert (forall pid bs, (pid, bs) ∈ files -> exists tail, bs = file_of es pid ++ tail /\ (length tail < 28)%nat) as Hfiles.
  { intros pid bs Hin. rewrite Hp, elem_of_map_to_list in Hin. specialize (Hw pid). destruct torn as [[e n]|]; cbn [tear] in Hin.
    - apply lookup_insert_Some in Hin as [[<- <-]|[_ Hl]].
      + exists (take n (wal_bytes e)). rewrite Hw. split; [done|]. specialize (Ht e n eq_refl). rewrite length_take, length_wal_bytes. lia.
      + exists []. rewrite Hl in Hw. cbn [default from_option] in Hw. rewrite app_nil_r. split; [exact Hw|cbn; lia].
    - exists []. rewrite Hin in Hw. cbn [default from_option] in Hw. rewrite app_nil_r. split; [exact Hw|cbn; lia]. }
  assert (NoDup (map fst files)) as Hn.
  { change (map fst files) with (files.*1). rewrite Hp. apply NoDup_fst_map_to_list. }
  rewrite (homes_replay_files es), Hh, Hfr by done. case_decide as Hq; [done|].
  assert (filter (fun e => w_pool e = q) es = []) as Hnil.
  { specialize (Hw q). destruct (wal !! q) as [bs|] eqn:E.
    - destruct Hq. change (map fst files) with (files.*1). rewrite Hp. apply list_elem_of_fmap.
      destruct torn as [[e n]|]; cbn [tear].
      + destruct (decide (w_pool e = q)) as [<-|Hne]; eexists (_, _); (split; [|apply elem_of_map_to_list]); cbn; [done|by rewrite lookup_insert_eq|done|by rewrite lookup_insert_ne].
      + exists (q, bs). split; [done|by apply elem_of_map_to_list].
    - unfold file_of in Hw. cbn [default from_option] in Hw. destruct (filter _ es) as [|e l]; [done|]. cbn [map concat] in Hw. apply (f_equal length) in Hw.
      rewrite length_app, length_wal_bytes in Hw. cbn in Hw. lia. }
  destruct (homes pm q); [|done]. cbn. by rewrite addresses_filter, Hnil.
Qed.
End Log.

(** * Recovery *)

Lemma addresses_lookup es q am cid n : addresses es q am !! cid = Some n ->
  (exists e, e ∈ es /\ w_pool e = q /\ w_container e = cid /\ w_new e = n) \/
  (am !! cid = Some n /\ forall e, e ∈ es -> w_pool e = q -> w_container e <> cid).
Proof.
  revert n. induction es as [|e es IH] using rev_ind; intros n; [right; split; [done|intros e He; by apply elem_of_nil in He]|].
  unfold addresses. rewrite fold_left_app. cbn [fold_left]. change (fold_left _ es am) with (addresses es q am).
  assert (addresses es q am !! cid = Some n -> (w_pool e = q -> w_container e <> cid) ->
    (exists e', e' ∈ es ++ [e] /\ w_pool e' = q /\ w_container e' = cid /\ w_new e' = n) \/
    (am !! cid = Some n /\ forall e', e' ∈ es ++ [e] -> w_pool e' = q -> w_container e' <> cid)) as Hold.
  { intros Hl Hne. destruct (IH _ Hl) as [(e' & He & Hr)|[Ha Hn]]; [left; exists e'; split; [set_solver|done]|].
    right. split; [done|]. intros e' [He| ->%list_elem_of_singleton]%elem_of_app; [by apply Hn|done]. }
  case_decide as Ep; [|by intros Hl; apply Hold].
  rewrite lookup_insert_Some. intros [[Ec <-]|[Hc Hl]]; [|apply Hold; congruence].
  left. exists e. split; [set_solver|done].
Qed.

Section Plan.
Context (schedule : handle -> option Z) (alive : list Z) (dead : Z).

(** Where a container of a dead node may go. *)
Definition good_dest info (dest : Z) : Prop := dest ∈ alive \/ exists h, local_container_ info = Some h /\ schedule h = Some dest.

Lemma assign_spec pid info (l : list (Z * Z)) s : alive <> [] ->
  let s' := fold_left (assign schedule alive dead pid info) l s in
  (forall ra, ra ∈ snd s' -> ra ∈ snd s \/
     (ra_pool ra = pid /\ ra_dead ra = dead /\ (ra_container ra, dead) ∈ l /\ good_dest info (ra_dest ra))) /\
  (forall ra, ra ∈ snd s -> ra ∈ snd s') /\
  (forall cid, (cid, dead) ∈ l -> exists ra, ra ∈ snd s' /\ ra_pool ra = pid /\ ra_container ra = cid).
Proof.
  intros Ha. revert s. induction l as [|[cid node] l IH]; intros s; cbn [fold_left].
  { split_and!; [by left|done|intros cid Hc; by apply elem_of_nil in Hc]. }
  destruct s as [rr plan]. set (s1 := assign schedule alive dead pid info (rr, plan) (cid, node)).
  destruct (IH s1) as (H1 & H2 & H3). clear IH.
  assert (forall cid', (cid', dead) ∈ l -> (cid', dead) ∈ (cid, node) :: l) as Hin by (intros; by right).
  destruct (Z.eqb_spec node dead) as [->|Hn].
  - assert (exists dest, snd s1 = plan ++ [mkAssignment pid cid dest dead] /\ good_dest info dest) as (dest & Es & Hd).
    { subst s1. unfold assign. rewrite Z.eqb_refl. cbn [negb]. destruct (local_container_ info) as [h|] eqn:El; cbn [mbind option_bind].
      - destruct (schedule h) as [dest|] eqn:Ed; [exists dest; split; [done|right; by exists h]|].
        eexists; split; [reflexivity|left]. destruct (lookup_lt_is_Some_2 alive (rr mod length alive)) as [x Hx].
        { apply Nat.mod_upper_bound. by destruct alive. } rewrite Hx. by eapply list_elem_of_lookup_2.
      - eexists; split; [reflexivity|left]. destruct (lookup_lt_is_Some_2 alive (rr mod length alive)) as [x Hx].
        { apply Nat.mod_upper_bound. by destruct alive. } rewrite Hx. by eapply list_elem_of_lookup_2. }
    rewrite Es in H1, H2. cbn [snd]. split_and!.
    + intros ra Hra. destruct (H1 ra Hra) as [[Hp| ->%list_elem_of_singleton]%elem_of_app|(?&?&?&?)]; [by left| |right; eauto].
      right. cbn. split_and!; [done..|by left|done].
    + intros ra Hra. apply H2. set_solver.
    + intros c [[= ->]|Hc]%elem_of_cons; [|by apply H3]. eexists. split; [apply H2, elem_of_app; right; by left|done].
  - assert (snd s1 = plan) as Es by (subst s1; unfold assign; by rewrite (proj2 (Z.eqb_neq _ _) Hn)).
    rewrite Es in H1, H2. split_and!; [|done|].
    + intros ra Hra. destruct (H1 ra Hra) as [?|(?&?&?&?)]; [by left|right; eauto].
    + intros c [[= _ ->]|Hc]%elem_of_cons; [done|by apply H3].
Qed.

Definition planned (pools : list (PoolId * PoolInfo)) (ra : RecoveryAssignment) : Prop :=
  exists info, (ra_pool ra, info) ∈ pools /\ ra_pool ra <> kAdminPoolId /\ ra_dead ra = dead /\
    address_map_ info !! ra_container ra = Some dead /\ good_dest info (ra_dest ra).

Lemma plan_spec (pools : list (PoolId * PoolInfo)) s : alive <> [] ->
  let s' := fold_left (fun s p => if decide (fst p = kAdminPoolId) then s
                                  else fold_left (assign schedule alive dead (fst p) (snd p)) (map_to_list (address_map_ (snd p))) s) pools s in
  (forall ra, ra ∈ snd s' -> ra ∈ snd s \/ planned pools ra) /\ (forall ra, ra ∈ snd s -> ra ∈ snd s') /\
  (forall pid info cid, (pid, info) ∈ pools -> pid <> kAdminPoolId -> address_map_ info !! cid = Some dead ->
     exists ra, ra ∈ snd s' /\ ra_pool ra = pid /\ ra_container ra = cid).
Proof.
  intros Ha. revert s. induction pools as [|[pid info] pools IH]; intros s; cbn [fold_left fst snd].
  { split_and!; [by left|done|intros ??? Hc; by apply elem_of_nil in Hc]. }
  assert (forall ra, planned pools ra -> planned ((pid, info) :: pools) ra) as Hmono.
  { intros ra (i & Hi & Hr). exists i. split; [by right|done]. }
  case_decide as Ead.
  - destruct (IH s) as (H1 & H2 & H3). split_and!; [|done|].
    + intros ra Hra. destruct (H1 ra Hra); [by left|right; by apply Hmono].
    + intros p i c [[= -> ->]|Hp]%elem_of_cons Hna Hc; [done|by eapply H3].
  - set (s1 := fold_left _ (map_to_list _) s). destruct (IH s1) as (H1 & H2 & H3).
    destruct (assign_spec pid info (map_to_list (address_map_ info)) s Ha) as (A1 & A2 & A3). fold s1 in A1, A2, A3. split_and!.
    + intros ra Hra. destruct (H1 ra Hra) as [Hs1|Hp]; [|right; by apply Hmono].
      destruct (A1 ra Hs1) as [?|(Ep & Ed & Hin & Hg)]; [by left|right]. exists info. rewrite Ep. split_and!; [by left|done|done| |done].
      by apply elem_of_map_to_list.
    + intros ra Hra. by apply H2, A2.
    + intros p i c [[= -> ->]|Hp]%elem_of_cons Hna Hc; [|by eapply H3].
      destruct (A3 c) as (ra & Hra & Hr); [by apply elem_of_map_to_list|]. exists ra. split; [by apply H2|done].
Qed.
End Plan.

Section Recovered.
Context (make : PoolId -> Z -> option handle) (make_static : PoolId -> option handle) (self ts : Z) (opened : bool).

Definition entry_of (ra : RecoveryAssignment) : WalEntry := mkWal ts (ra_pool ra) (ra_container ra) (ra_dead ra) (ra_dest ra).

Lemma recover_one_homes ra n pm wal q :
  homes (snd (fst (recover_one make make_static self ts opened ra (n, pm, wal)))) q = addresses [entry_of ra] q <$> homes pm q.
Proof.
  transitivity (homes (snd (UpdateContainerNodeMapping pm (ra_pool ra) (ra_container ra) (ra_dest ra))) q).
  - unfold recover_one. repeat (case_match; try done). cbn [fst snd]. apply homes_register.
  - rewrite homes_mapping. by destruct (homes pm q).
Qed.

Lemma recover_homes plan n pm wal q :
  homes (snd (fst (fold_left (fun s ra => recover_one make make_static self ts opened ra s) plan (n, pm, wal)))) q =
    addresses (map entry_of plan) q <$> homes pm q.
Proof.
  revert n pm wal. induction plan as [|ra plan IH]; intros n pm wal; [cbn [fold_left fst snd]; by destruct (homes pm q)|].
  cbn [fold_left map]. pose proof (recover_one_homes ra n pm wal q) as H1.
  destruct (recover_one make make_static self ts opened ra (n, pm, wal)) as [[n1 pm1] wal1]. cbn [fst snd] in H1. rewrite IH, H1. by destruct (homes pm q).
Qed.

(** The containers of a pool on this node. *)
Definition bodies pm pid : option (gmap Z handle * option handle * option handle) :=
  (fun info => (containers_ info, static_container_ info, local_container_ info)) <$> GetPoolInfo pm pid.

Lemma bodies_mapping pm pid cid node q : bodies (snd (UpdateContainerNodeMapping pm pid cid node)) q = bodies pm q.
Proof.
  unfold UpdateContainerNodeMapping. destruct (GetPoolInfo pm pid) as [info|] eqn:E; [|done]. cbn [snd].
  unfold bodies. rewrite GetPoolInfo_update. case_decide; [|done]. by destruct (GetPoolInfo pm q).
Qed.

Lemma GetContainer_bodies pm pm' pid cid : bodies pm' pid = bodies pm pid -> GetContainer pm' pid cid = GetContainer pm pid cid.
Proof. unfold bodies, GetContainer. destruct (GetPoolInfo pm' pid), (GetPoolInfo pm pid); cbn; [|done..]. intros [= -> _ ->]. done. Qed.

(** Recovery takes any container of the pool for the lost one: on a node that has
    one, nothing is constructed or registered, whatever the plan says. *)
Theorem recovery_recreates_nothing pm wal plan :
  (forall ra, ra ∈ plan -> is_Some (GetContainer pm (ra_pool ra) (ra_container ra))) ->
  let s := RecoverContainers make make_static self ts opened pm wal plan in
  fst (fst s) = 0%nat /\ forall q, bodies (snd (fst s)) q = bodies pm q.
Proof.
  cbv zeta. unfold RecoverContainers. generalize 0%nat as n. revert pm wal. induction plan as [|ra plan IH]; intros pm wal n Hs; [done|]. cbn [fold_left].
  set (pm1 := snd (UpdateContainerNodeMapping pm (ra_pool ra) (ra_container ra) (ra_dest ra))).
  assert (forall q, bodies pm1 q = bodies pm q) as Hb by (intros q; apply bodies_mapping).
  assert (exists wal1, recover_one make make_static self ts opened ra (n, pm, wal) = (n, pm1, wal1)) as [wal1 ->].
  { unfold recover_one. fold pm1. eexists. case_match; [done|]. rewrite (GetContainer_bodies pm) by done.
    destruct (Hs ra) as [h ->]; [by left|done]. }
  destruct (IH pm1 wal1 n) as [H1 H2].
  { intros r Hr. rewrite (GetContainer_bodies pm) by done. apply Hs. by right. }
  split; [done|]. intros q. by rewrite H2.
Qed.

End Recovered.

(** * Well-formed pools *)

Section Reachable.
Context (begin_ : gmap Z handle -> option handle).
Hypothesis begin_in : forall m, m <> ∅ -> exists cid h, m !! cid = Some h /\ begin_ m = Some h.
Context (make : PoolId -> Z -> option handle) (make_static : PoolId -> option handle) (self hosts : Z).

(** A constructed container carries the id it is registered under; the static
    one carries its own. *)
Definition real_for cid (c : option handle) : Prop := forall h, c = Some h -> h_container h = cid.
Definition is_static (c : option handle) : Prop := real_for kStaticContainerId c.
Hypothesis make_real : forall pid cid, real_for cid (make pid cid).
Hypothesis make_static_real : forall pid, is_static (make_static pid).

Inductive pool_op :=
  | OCreate (name : str) pid (c : creation) | ODestroy pid | OUnregister pid cid
  | OAdmin (o : admin_op).
Definition pool_step (s : PoolManager * Wal) (o : pool_op) : PoolManager * Wal :=
  let '(pm, wal) := s in
  match o with
  | OCreate name pid c => (snd (CreatePool begin_ pm hosts self name pid c), wal)
  | ODestroy pid => (DestroyPool pm pid, wal)
  | OUnregister pid cid => (snd (UnregisterContainer begin_ pm pid cid), wal)
  | OAdmin o => admin_step make make_static self (pm, wal) o
  end.
Definition sound_op (o : pool_op) : Prop :=
  match o with
  | OCreate _ _ c => is_static (cr_static c) /\ is_static (cr_static_again c) /\ real_for self (cr_container c)
  | _ => True
  end.
Definition run_pools (ops : list pool_op) : PoolManager := fst (fold_left pool_step ops (mkManager true ∅, ∅)).

Record pool_ok info : Prop := {
  pk_ids cid h : containers_ info !! cid = Some h -> h_container h = cid;
  pk_static : is_static (static_container_ info);
  pk_local h : local_container_ info = Some h -> containers_ info !! h_container h = Some h \/ static_container_ info = Some h;
  pk_none : local_container_ info = None -> containers_ info = ∅ }.
Record manager_ok pm : Prop := {
  mo_pools : map_Forall (fun _ info => pool_ok info) (pool_metadata_ pm);
  mo_null : pool_metadata_ pm !! NullPool = None;
  mo_names p q i j : pool_metadata_ pm !! p = Some i -> pool_metadata_ pm !! q = Some j -> pool_name_ i = pool_name_ j -> p = q }.

(** Changing a pool in place, its name kept. *)
Lemma update_ok pm pid f : (forall info, pool_metadata_ pm !! pid = Some info -> pool_ok info -> pool_ok (f info) /\ pool_name_ (f info) = pool_name_ info) ->
  manager_ok pm -> manager_ok (update_pool pm pid f).
Proof.
  intros Hf [Hp Hn Hu].
  assert (forall q i, alter f pid (pool_metadata_ pm) !! q = Some i -> exists i0, pool_metadata_ pm !! q = Some i0 /\ pool_ok i /\ pool_name_ i = pool_name_ i0) as Hall.
  { intros q i. rewrite lookup_alter. case_decide as E.
    - subst. intros (i0 & Hi & ->)%fmap_Some. exists i0. split; [done|]. by apply Hf; [|apply (Hp q)].
    - intros Hi. exists i. split_and!; [done|by apply (Hp q)|done]. }
  constructor; cbn [update_pool pool_metadata_].
  - intros q i Hi. by destruct (Hall q i Hi) as (? & ? & ? & ?).
  - rewrite lookup_alter. case_decide as E; [|done]. by rewrite E, Hn.
  - intros p q i j Hi Hj Hij. destruct (Hall p i Hi) as (i0 & Hi0 & _ & Ei), (Hall q j Hj) as (j0 & Hj0 & _ & Ej).
    eapply (Hu p q i0 j0); [done..|congruence].
Qed.

Lemma delete_ok pm pid : manager_ok pm -> manager_ok (ErasePoolMetadata pm pid).
Proof.
  intros [Hp Hn Hu]. constructor; cbn.
  - by apply map_Forall_delete.
  - by rewrite lookup_delete_None; right.
  - intros p q i j [_ Hi]%lookup_delete_Some [_ Hj]%lookup_delete_Some. by apply Hu.
Qed.

Lemma mapping_ok pm pid cid node : manager_ok pm -> manager_ok (snd (UpdateContainerNodeMapping pm pid cid node)).
Proof.
  intros Hm. unfold UpdateContainerNodeMapping. case_match; [|done]. cbn [snd]. apply update_ok; [|done]. intros info _ [H1 H2 H3 H4]. by split; [constructor|].
Qed.

Lemma static_ok pm pid made : is_static made -> manager_ok pm -> manager_ok (EnsureStaticContainer pm pid made).
Proof.
  intros Hs Hm. unfold EnsureStaticContainer, GetPoolInfo. destruct (is_initialized_ pm); [|done]. destruct (pool_metadata_ pm !! pid) as [info|] eqn:E; [|done].
  destruct (static_container_ info) eqn:Es; [done|]. destruct made as [h|]; [|done]. apply update_ok; [|done].
  intros info'. rewrite E. intros [= <-] [H1 H2 H3 H4]. split; [|done]. constructor; [done|cbn; exact Hs| |done].
  intros h' Hl. destruct (H3 h' Hl) as [?|?]; [by left|congruence].
Qed.

Lemma ensure_info pm pid made q : GetPoolInfo (EnsureStaticContainer pm pid made) q = GetPoolInfo pm q \/
  exists info h, GetPoolInfo pm q = Some info /\ GetPoolInfo (EnsureStaticContainer pm pid made) q = Some (with_static info (Some h)).
Proof.
  unfold EnsureStaticContainer. repeat (case_match; try (by left)). rewrite GetPoolInfo_update. case_decide; [|by left]. subst.
  right. eexists _, _. split; [done|]. by match goal with H : GetPoolInfo _ _ = Some _ |- _ => rewrite H end.
Qed.

(** Registering the first container of a pool on this node. *)
Lemma register_ok pm pid cid c made : real_for cid c -> is_static made ->
  (forall info, GetPoolInfo pm pid = Some info -> local_container_ info = None) ->
  manager_ok pm -> manager_ok (snd (RegisterContainer pm pid cid c made)).
Proof.
  intros Hc Hs Hl Hm. unfold RegisterContainer. destruct c as [h|]; [|done]. destruct (is_initialized_ pm) eqn:Ei; [|done]. cbn [negb].
  pose proof (static_ok pm pid made Hs Hm) as Hm'.
  destruct (GetPoolInfo (EnsureStaticContainer pm pid made) pid) as [i|] eqn:Eg; [|done]. cbn [snd]. apply update_ok; [|done]. intros info Hi [H1 H2 H3 H4]. split; [|done].
  assert (GetPoolInfo (EnsureStaticContainer pm pid made) pid = Some info) as Eg'.
  { unfold GetPoolInfo in Eg |- *. by destruct (is_initialized_ (EnsureStaticContainer pm pid made)). }
  assert (local_container_ info = None) as Hn.
  { destruct (ensure_info pm pid made pid) as [E|(i0 & h0 & E0 & E)]; rewrite E in Eg'; [by apply Hl|]. injection Eg' as <-. cbn. by apply Hl. }
  pose proof (Hc h eq_refl) as Hid. rewrite Hn, (H4 Hn). constructor; cbn.
  - intros cid' h'. rewrite lookup_insert_Some. intros [[<- <-]|[_ Hl']]; [done|by rewrite lookup_empty in Hl'].
  - done.
  - intros h' [= <-]. left. by rewrite Hid, lookup_insert_eq.
  - done.
Qed.

Lemma recalculate_ok info : pool_ok info -> forall cid removed, containers_ info !! cid = Some removed ->
  let info' := with_containers info (delete cid (containers_ info)) (local_container_ info) in
  pool_ok (with_containers info' (containers_ info')
    (if decide (local_container_ info = Some removed) then RecalculateLocalContainer begin_ info' else local_container_ info)).
Proof.
  intros [H1 H2 H3 H4] cid removed Hr. cbn zeta. constructor; cbn [with_containers containers_ static_container_ local_container_].
  - intros c h [_ Hh]%lookup_delete_Some. by apply H1.
  - done.
  - intros h. case_decide as Ed.
    + unfold RecalculateLocalContainer. cbn [with_containers containers_ static_container_]. case_decide as Ee; [by right|].
      destruct (begin_in _ Ee) as (c & h' & Hc & ->). intros [= <-]. left.
      assert (h_container h' = c) as -> by (apply lookup_delete_Some in Hc as [_ Hc]; by apply H1). done.
    + intros Hl. destruct (H3 h Hl) as [Hin|?]; [left|by right]. rewrite lookup_delete_ne; [done|].
      intros ->. rewrite Hin in Hr. congruence.
  - case_decide as Ed; [|intros Hl; by rewrite (H4 Hl), lookup_empty in Hr]. unfold RecalculateLocalContainer. cbn [with_containers containers_ static_container_].
    case_decide as Ee; [done|]. destruct (begin_in _ Ee) as (c & h' & _ & ->). done.
Qed.

Lemma unregister_ok pm pid cid : manager_ok pm -> manager_ok (snd (UnregisterContainer begin_ pm pid cid)).
Proof.
  intros Hm. unfold UnregisterContainer. destruct (GetPoolInfo pm pid) as [info|] eqn:E; [|done].
  destruct (containers_ info !! cid) as [removed|] eqn:Er; [|done]. cbn [snd]. apply update_ok; [|done]. intros i Hi Hok.
  assert (i = info) as -> by (unfold GetPoolInfo in E; destruct (is_initialized_ pm); [congruence|done]).
  split; [by apply recalculate_ok|done].
Qed.

Lemma find_pool_none pm name : is_initialized_ pm = true -> manager_ok pm -> FindPoolByName pm name = NullPool ->
  forall q i, pool_metadata_ pm !! q = Some i -> pool_name_ i <> name.
Proof.
  intros Hi Hm Hf q i Hq Hn. unfold FindPoolByName in Hf. rewrite Hi in Hf. destruct (List.find _ _) as [[p j]|] eqn:E.
  - apply find_some in E as [Hin _]. cbn in Hf. subst. apply list_elem_of_In, elem_of_map_to_list in Hin. by rewrite (mo_null _ Hm) in Hin.
  - assert (bool_decide (pool_name_ i = name) = false) as Hb; [|by rewrite bool_decide_eq_true_2 in Hb].
    apply (find_none _ _ E (q, i)), list_elem_of_In. by apply elem_of_map_to_list.
Qed.

Lemma create_ok pm name pid c : is_static (cr_static c) -> is_static (cr_static_again c) -> real_for self (cr_container c) ->
  manager_ok pm -> manager_ok (snd (CreatePool begin_ pm hosts self name pid c)).
Proof.
  intros H1 H2 H3 Hm. unfold CreatePool. destruct (is_initialized_ pm) eqn:Ei; [|done]. cbn [negb]. case_match; [done|].
  destruct (bool_decide (FindPoolByName pm name = NullPool)) eqn:Ef; [|done]. cbn [negb]. apply bool_decide_eq_true in Ef.
  destruct (bool_decide (pid = NullPool)) eqn:En; [done|]. apply bool_decide_eq_false in En.
  destruct (HasPool pm pid) eqn:Eh; [done|].
  assert (pool_metadata_ pm !! pid = None) as Hpid.
  { unfold HasPool, GetPoolInfo in Eh. rewrite Ei in Eh. apply bool_decide_eq_false in Eh. by apply eq_None_not_Some. }
  set (pm2 := EnsureStaticContainer _ pid (cr_static c)).
  assert (manager_ok pm2 /\ forall info, GetPoolInfo pm2 pid = Some info -> local_container_ info = None) as [Hm2 Hl2].
  { assert (manager_ok (UpdatePoolMetadata pm pid (mkPool name hosts ∅ ∅ None None))) as Hm1.
    { unfold UpdatePoolMetadata. rewrite Ei. destruct Hm as [Hp Hn Hu]. constructor; cbn.
      - apply map_Forall_insert_2; [|done]. constructor; cbn; [intros ??; by rewrite lookup_empty|by intros ?|done|done].
      - by rewrite lookup_insert_ne.
      - pose proof (find_pool_none pm name Ei (Build_manager_ok _ Hp Hn Hu) Ef) as Hnew.
        intros p q i j. rewrite !lookup_insert_Some. intros [[<- <-]|[? Hi]] [[<- <-]|[? Hj]]; cbn; [done| | |by apply Hu].
        + intros E. by destruct (Hnew q j Hj).
        + intros E. by destruct (Hnew p i Hi). }
    assert (manager_ok (InitAddressMap (UpdatePoolMetadata pm pid (mkPool name hosts ∅ ∅ None None)) pid hosts)) as Hm1'.
    { unfold InitAddressMap. case_match; [|done]. apply update_ok; [|done]. intros info _ [A B C D]. by split; [constructor|]. }
    split; [by apply static_ok|]. intros info. subst pm2.
    destruct (ensure_info (InitAddressMap (UpdatePoolMetadata pm pid (mkPool name hosts ∅ ∅ None None)) pid hosts) pid (cr_static c) pid) as [->|(i0 & h0 & E0 & ->)].
    - unfold InitAddressMap, UpdatePoolMetadata. rewrite Ei. cbn [is_initialized_]. rewrite GetPoolInfo_update, decide_True by done.
      unfold GetPoolInfo. cbn. rewrite lookup_insert_eq. by intros [= <-].
    - intros [= <-]. revert E0. unfold InitAddressMap, UpdatePoolMetadata. rewrite Ei. cbn [is_initialized_]. rewrite GetPoolInfo_update, decide_True by done.
      unfold GetPoolInfo. cbn. rewrite lookup_insert_eq. by intros [= <-]. }
  clearbody pm2. destruct (cr_container c) as [h|] eqn:Ec; [|by apply delete_ok].
  pose proof (register_ok pm2 pid self (Some h) (cr_static_again c) H3 H2 Hl2 Hm2) as Hm3.
  destruct (RegisterContainer pm2 pid self (Some h) (cr_static_again c)) as [ok pm3]. cbn [snd] in Hm3.
  repeat case_match; cbn [snd]; [by apply delete_ok|done|by apply delete_ok, unregister_ok].
Qed.

Lemma recover_ok ts plan n pm wal : manager_ok pm ->
  manager_ok (snd (fst (fold_left (fun s ra => recover_one make make_static self ts true ra s) plan (n, pm, wal)))).
Proof.
  revert n pm wal. induction plan as [|ra plan IH]; intros n pm wal Hm; [done|]. cbn [fold_left].
  pose proof (mapping_ok pm (ra_pool ra) (ra_container ra) (ra_dest ra) Hm) as Hm1. unfold recover_one at 2.
  case_match; [by apply IH|]. destruct (GetContainer _ _ _) as [h|] eqn:Eg; [by apply IH|].
  destruct (make (ra_pool ra) (ra_container ra)) as [h|] eqn:Em; [|by apply IH]. apply IH, register_ok; [by rewrite <- Em|done| |done].
  intros info Hi. unfold GetContainer in Eg. rewrite Hi in Eg. by case_match.
Qed.

Lemma pool_step_ok s o : sound_op o -> manager_ok (fst s) -> manager_ok (fst (pool_step s o)).
Proof.
  destruct s as [pm wal]. cbn [fst]. intros Ho Hm. destruct o as [name pid c|pid|pid cid|[ts pid cid node|ts plan]]; cbn [pool_step fst].
  - destruct Ho as (? & ? & ?). by apply create_ok.
  - unfold DestroyPool. case_match; [|done]. apply delete_ok. unfold UnregisterAllContainers. case_match; [|done]. apply update_ok; [|done].
    intros info _ _. split; [|done]. constructor; cbn; [intros ??; by rewrite lookup_empty|by intros ?|done|done].
  - by apply unregister_ok.
  - cbn [admin_step]. pose proof (mapping_ok pm pid cid node Hm) as Hm1. unfold ChangeAddressTable. by destruct (UpdateContainerNodeMapping pm pid cid node).
  - cbn [admin_step]. pose proof (recover_ok ts plan 0 pm wal Hm) as Hr. unfold RecoverContainers. by destruct (fold_left _ plan _) as [[n pm'] wal'].
Qed.

(** Looking a container up: after any creations, failed or not, destructions,
    migrations, remappings and recoveries, [GetContainer] returns the container
    registered under the id, if one is; else some container of the pool that this
    node has; and when it has none, the static container or nothing. *)
Theorem GetContainer_resolves ops pid cid info : Forall sound_op ops -> GetPoolInfo (run_pools ops) pid = Some info ->
  let found := GetContainer (run_pools ops) pid cid in
  (forall h, cid <> kInvalidContainerId -> containers_ info !! cid = Some h -> found = Some h /\ h_container h = cid) /\
  (containers_ info !! cid = None -> forall h, found = Some h ->
     containers_ info !! h_container h = Some h \/ (static_container_ info = Some h /\ h_container h = kStaticContainerId)) /\
  (found = None -> containers_ info = ∅).
Proof.
  intros Ho Hi. cbv zeta.
  assert (manager_ok (run_pools ops)) as Hm.
  { unfold run_pools. assert (manager_ok (fst (mkManager true ∅, ∅ : Wal))) as Hm by (constructor; cbn; [apply map_Forall_empty|done|intros ????; by rewrite lookup_empty]).
    revert Hm. generalize (mkManager true ∅, ∅ : Wal). clear Hi. induction Ho as [|o ops Ho _ IH]; intros s Hm; [done|]. cbn. by apply IH, pool_step_ok. }
  assert (pool_ok info) as [H1 H2 H3 H4].
  { apply (mo_pools _ Hm pid). unfold GetPoolInfo in Hi. by destruct (is_initialized_ (run_pools ops)). }
  unfold GetContainer. rewrite Hi. split_and!.
  - intros h Hc Hh. rewrite (proj2 (Z.eqb_neq _ _) Hc), Hh. split; [done|by apply H1].
  - intros Hn h. rewrite Hn. replace (if cid =? kInvalidContainerId then None else None) with (@None handle) by (by destruct (cid =? kInvalidContainerId)).
    intros Hl. destruct (H3 h Hl) as [?|Hs]; [by left|right; split; [done|by apply H2]].
  - intros Hn. apply H4. by destruct (if cid =? kInvalidContainerId then None else containers_ info !! cid).
Qed.
End Reachable.

(** * At work *)

Definition first_of (m : gmap Z handle) : option handle := snd <$> head (map_to_list m).
Lemma first_of_in m : m <> ∅ -> exists cid h, m !! cid = Some h /\ first_of m = Some h.
Proof.
  intros Hm. unfold first_of. destruct (map_to_list m) as [|[cid h] l] eqn:E; [by apply map_to_list_empty_iff in E|].
  exists cid, h. split; [|done]. apply elem_of_map_to_list. rewrite E. by left.
Qed.

(** Node 1 of three creates its part of a pool. *)
Definition ex_make (pid : PoolId) (cid : Z) : option handle := Some (mkHandle cid 9).
Definition ex_static (pid : PoolId) : option handle := Some (mkHandle kStaticContainerId 8).
Definition ex_pool : PoolId := (7, 0).
Definition ex_create (self object : Z) : pool_op :=
  OCreate (lit "pool") ex_pool (mkCreation true (Some (mkHandle kStaticContainerId (object + 1))) None (Some (mkHandle self object)) true).
Definition ex_run (ops : list pool_op) : PoolManager := run_pools first_of ex_make ex_static 1 3 (ex_create 1 2 :: ops).
Definition ex_plan : list RecoveryAssignment := ComputeRecoveryPlan (fun _ => None) [1; 2] (ex_run []) 0.

(** The recovery of container 0 on node 1 changes the map and recreates nothing:
    container 1 answers for it. *)
Example lost_container_stays_lost :
  let pm := ex_run [OAdmin (Recover 5 ex_plan)] in
  ex_plan = [mkAssignment ex_pool 0 1 0] /\ GetContainerNodeId pm ex_pool 0 = 1 /\ HasContainer pm ex_pool 0 = false /\
  GetContainer pm ex_pool 0 = Some (mkHandle 1 2).
Proof. by vm_compute. Qed.

(** When the node's container has moved away, look-ups yield the static container,
    which no task is meant to run on. *)
Example static_container_answers :
  GetContainer (ex_run [OUnregister ex_pool 1]) ex_pool 1 = Some (mkHandle kStaticContainerId 3).
Proof. by vm_compute. Qed.

(** A pool or container the map does not know is taken to be on node 0. *)
Example unknown_pool_is_on_node_0 : GetContainerNodeId (ex_run []) (9, 9) 2 = 0.
Proof. done. Qed.

Definition ex_ops : list pool_op := [OAdmin (Recover 5 ex_plan); OAdmin (Change 6 ex_pool 2 1)].

Lemma GetContainer_resolves_witness :
  Forall (sound_op 1) (ex_create 1 2 :: ex_ops) /\ GetContainer (ex_run ex_ops) ex_pool 1 = Some (mkHandle 1 2).
Proof.
  assert (Forall (sound_op 1) (ex_create 1 2 :: ex_ops)) as Ho by (repeat constructor; cbn; by intros h [= <-]).
  split; [done|].
  destruct (GetPoolInfo (ex_run ex_ops) ex_pool) as [info|] eqn:E; [|by vm_compute in E].
  refine (proj1 (proj1 (GetContainer_resolves first_of first_of_in ex_make ex_static 1 3 _ _ (ex_create 1 2 :: ex_ops) ex_pool 1 info Ho E) (mkHandle 1 2) _ _)).
  - by intros pid cid h [= <-].
  - by intros pid h [= <-].
  - done.
  - vm_compute in E. injection E as <-. by vm_compute.
Defined.

Lemma homes_fit_by pm : map_Forall (fun _ info => map_Forall (fun _ n => 0 <= n < 2 ^ 32) (address_map_ info)) (pool_metadata_ pm) -> homes_fit pm.
Proof.
  intros Hm pid am cid n. unfold homes, GetPoolInfo. case_match; [|done]. intros (info & Hi & ->)%fmap_Some Hl. by apply (Hm pid info Hi cid).
Qed.

(** The restarted manager has the pool with new containers. *)
Definition ex_fresh : PoolManager := run_pools first_of ex_make ex_static 1 3 [ex_create 1 20].
Definition ex_admin : list admin_op := [Recover 5 ex_plan; Change 6 ex_pool 2 1].
Definition ex_torn : option (WalEntry * nat) := Some (mkWal 7 ex_pool 1 1 2, 20%nat).
Definition ex_files : list (PoolId * list u8) := map_to_list (tear ex_torn (snd (run_admin ex_make ex_static 1 ex_admin (ex_run [], ∅)))).

Lemma address_wal_replay_witness :
  homes (ReplayAddressTableWAL ex_fresh (map snd ex_files)) ex_pool = homes (fst (run_admin ex_make ex_static 1 ex_admin (ex_run [], ∅))) ex_pool /\
  homes (ReplayAddressTableWAL ex_fresh (map snd ex_files)) ex_pool = Some (<[0 := 1]> (<[1 := 1]> (<[2 := 1]> ∅))).
Proof.
  split; [|by vm_compute].
  apply (address_wal_replay ex_make ex_static 1 (ex_run []) ex_fresh ex_admin ex_torn ex_files ex_pool).
  - apply homes_fit_by. by_decide.
  - repeat constructor; by vm_compute.
  - intros p. unfold homes, GetPoolInfo. change (is_initialized_ ex_fresh) with true. change (is_initialized_ (ex_run [])) with true. cbv iota.
    rewrite <- !lookup_fmap. by apply (f_equal (fun m : gmap PoolId (gmap Z Z) => m !! p)).
  - intros e n [= <- <-]. lia.
  - done.
Defined.

