(* ===== verification/Routing.v ===== *)
(** Where tasks go ([context-runtime/src/ipc_manager.cc]: [RouteTask],
    [RouteManyToOne], [IsTaskLocal], [RouteLocal], [RouteGlobal] and
    [ResolvePoolQuery] with its cases, [GetNeighborhoodLeaderNodeId]; and
    [SendInResolveTargetNode], [SendIn] and [RecvInHandleOne] of
    [context-runtime/src/ipc/ipc_run2run.cc]).

    A node is its pool manager; a task is its query and its pool. The worker that
    runs a task locally and the bytes on the wire are not modelled: a routed task
    ends at the container that executes it. *)
From Stdlib Require Import ZArith Lia Strings.String.
From stdpp Require Import base list gmap sorting fin_maps.
From S2P Require Import Prelude Text PoolQuery PoolManager.

Open Scope Z_scope.

Inductive NodeState := kAlive | kProbeFailed | kSuspected | kDead.
#[export] Instance NodeState_eq_dec : EqDecision NodeState.
Proof. solve_decision. Defined.

(** What a node knows: the hosts of the cluster, its configuration and its pools. *)
Record Node := mkNode {
  node_id : Z;
  hostfile_map_ : gmap Z NodeState;
  neighborhood_size_ : Z;
  force_net_ : bool;
  pools_ : PoolManager }.
Implicit Types (nd : Node) (q : PoolQuery) (pid : PoolId).

Definition GetNumHosts nd : nat := size (hostfile_map_ nd).
Definition IsAlive nd (n : Z) : bool := bool_decide (hostfile_map_ nd !! n = Some kAlive).

(** The lowest node that [p] accepts; the loops over the hosts keep the minimum. *)
Definition lowest nd (p : Z -> bool) : option Z :=
  foldr (fun '(id, st) acc =>
           if bool_decide (st = kAlive) && p id && (match acc with Some l => id <? l | None => true end) then Some id else acc)
    None (map_to_list (hostfile_map_ nd)).
Definition GetLeaderNodeId nd : Z := default 0 (lowest nd (fun _ => true)).
Definition GetNeighborhoodLeaderNodeId nd (for_node : Z) : Z :=
  let n := if neighborhood_size_ nd =? 0 then 1 else neighborhood_size_ nd in
  let base := for_node / n * n in
  default for_node (lowest nd (fun id => (base <=? id) && (id <? base + n))).

(** * Resolving a query *)

Definition ResolveDirectIdQuery nd q pid : list PoolQuery :=
  let cid := container_id_ q in
  if HasContainer (pools_ nd) pid cid then [Local 32]
  else [Physical (GetContainerNodeId (pools_ nd) pid cid) minus_one].

Definition to_container nd pid cid : list PoolQuery :=
  if HasContainer (pools_ nd) pid cid then [Local 32]
  else if GetContainerNodeId (pools_ nd) pid cid =? node_id nd then [Local 32]
  else [DirectId cid minus_one].

Definition ResolveDirectHashQuery nd q pid : list PoolQuery :=
  match GetPoolInfo (pools_ nd) pid with
  | None => [q]
  | Some info => if num_containers_ info =? 0 then [q] else to_container nd pid (hash_value_ q mod num_containers_ info)
  end.

(** The sub-ranges: [k] more of [n], the first [extra] one longer than [per]. *)
Fixpoint sub_ranges (k : nat) (offset per extra : Z) : list (Z * Z) :=
  match k with
  | O => []
  | S k =>
      let count := per + (if 0 <? extra then 1 else 0) in
      if 0 <? count then (offset, count) :: sub_ranges k (u32 (offset + count)) per (extra - 1)
      else sub_ranges k offset per (extra - 1)
  end.
(** Division by a [neighborhood_size_] of 0 is not defined; the result here is
    then meaningless. *)
Definition queries_to_create (count size : Z) : Z :=
  let ideal := u32 (count + size - 1) / size in
  let n := Z.min ideal size in
  if n <=? 1 then count else n.
Definition split_range (size offset count : Z) : list (Z * Z) :=
  let n := queries_to_create count size in
  sub_ranges (Z.to_nat n) offset (count / n) (count mod n).

Definition ResolveRangeQuery nd q pid : list PoolQuery :=
  let offset := range_offset_ q in
  let count := range_count_ q in
  if count =? 0 then []
  else if count =? 1 then to_container nd pid offset
  else map (fun '(o, c) => Range o c minus_one) (split_range (neighborhood_size_ nd) offset count).

Definition ResolveBroadcastQuery nd q pid : list PoolQuery :=
  match GetPoolInfo (pools_ nd) pid with
  | None => [q]
  | Some info => if num_containers_ info =? 0 then [q] else ResolveRangeQuery nd (Range 0 (num_containers_ info) minus_one) pid
  end.

Definition ResolvePoolQuery nd q pid : list PoolQuery :=
  if decide (pid = NullPool) then [] else
  map (SetReturnNode (node_id nd))
    match routing_mode_ q with
    | RoutingMode.Local | RoutingMode.Dynamic | RoutingMode.Physical | RoutingMode.ToLocalCpu | RoutingMode.Null => [q]
    | RoutingMode.DirectId => ResolveDirectIdQuery nd q pid
    | RoutingMode.DirectHash => ResolveDirectHashQuery nd q pid
    | RoutingMode.Range => ResolveRangeQuery nd q pid
    | RoutingMode.Broadcast => ResolveBroadcastQuery nd q pid
    | RoutingMode.ManyToOne | RoutingMode.AllToOne => [Physical (GetNeighborhoodLeaderNodeId nd (node_id nd)) minus_one]
    end.

Definition IsTaskLocal nd (qs : list PoolQuery) (originally_local : bool) : bool :=
  if force_net_ nd then originally_local else
  match qs with
  | [q] =>
      IsMode RoutingMode.Local q || (GetNumHosts nd =? 1)%nat ||
      match routing_mode_ q with
      | RoutingMode.Local | RoutingMode.Dynamic | RoutingMode.ToLocalCpu | RoutingMode.Null => true
      | RoutingMode.Physical => node_id_ q =? node_id nd
      | _ => false
      end
  | _ => (GetNumHosts nd =? 1)%nat
  end.

(** * Executing *)

(** The container that [RouteLocal] executes a task on; [None] is [Dne]. *)
Definition RouteLocal nd q pid : option handle := GetContainer (pools_ nd) pid (container_id_ q).

Definition SendInResolveTargetNode nd q pid : option Z :=
  match routing_mode_ q with
  | RoutingMode.Local | RoutingMode.Dynamic => Some (node_id nd)
  | RoutingMode.Physical => Some (node_id_ q)
  | RoutingMode.DirectId => Some (GetContainerNodeId (pools_ nd) pid (container_id_ q))
  | RoutingMode.Range => Some (GetContainerNodeId (pools_ nd) pid (range_offset_ q))
  | _ => None
  end.

(** A received task is marked as routed: it runs, once, on the container that its
    run context was begun with. *)
Definition RecvInHandleOne nd pid : option handle :=
  match GetStaticContainer (pools_ nd) pid with Some _ => GetRealOrStaticContainer (pools_ nd) pid | None => None end.

(** What becomes of a copy of a task: it ran on a container of a node, or it was
    not sent (no target, unknown host), is parked because the target is dead, or
    was dropped by the receiver. *)
Inductive outcome := Ran (node : Z) (h : handle) | NotSent | Parked (node : Z) | Dropped (node : Z).

Section Cluster.
Variable cluster : gmap Z Node.

Definition SendIn_copy nd pid q : outcome :=
  match SendInResolveTargetNode nd q pid with
  | None => NotSent
  | Some target =>
      match hostfile_map_ nd !! target with
      | None => NotSent
      | Some st =>
          if negb (bool_decide (st = kAlive)) then Parked target else
          match cluster !! target ≫= (fun nd' => RecvInHandleOne nd' pid) with
          | Some h => Ran target h
          | None => Dropped target
          end
      end
  end.

Definition SendIn nd pid (qs : list PoolQuery) : list outcome :=
  match GetStaticContainer (pools_ nd) pid with Some _ => map (SendIn_copy nd pid) qs | None => map (fun _ => NotSent) qs end.

(** The task's fate: [Batched] with a collective's leader, run here, sent away, or
    nowhere to go. [schedule] is [ScheduleTask] of the static container. *)
Inductive routed := Batched | RunsHere (h : option handle) | Sent (copies : list outcome) | Nowhere.

Definition RouteManyToOne nd pid : routed :=
  let leader := GetNeighborhoodLeaderNodeId nd (node_id nd) in
  if leader =? node_id nd then Batched
  else Sent (SendIn nd pid [SetReturnNode (node_id nd) (Physical (u32 leader) minus_one)]).

Definition RouteTask nd (schedule : PoolQuery -> PoolQuery) q pid : routed :=
  if IsCollectiveMode q then RouteManyToOne nd pid else
  let q := match GetStaticContainer (pools_ nd) pid with
           | Some _ => if IsMode RoutingMode.Dynamic q then schedule q else q
           | None => q
           end in
  match ResolvePoolQuery nd q pid with
  | [] => Nowhere
  | qs => if IsTaskLocal nd qs (IsMode RoutingMode.Local q) then RunsHere (RouteLocal nd q pid) else Sent (SendIn nd pid qs)
  end.
End Cluster.

(** * Splitting a range *)

Definition in_range (r : Z * Z) : list Z := seqZ (fst r) (snd r).

Lemma sub_ranges_spec k offset per extra : 1 <= per -> extra <= Z.of_nat k -> 0 <= offset -> offset + Z.of_nat k * per + Z.max 0 extra <= 2 ^ 32 ->
  concat (map in_range (sub_ranges k offset per extra)) = seqZ offset (Z.of_nat k * per + Z.max 0 extra) /\
  length (sub_ranges k offset per extra) = k /\ Forall (fun r => 1 <= snd r) (sub_ranges k offset per extra).
Proof.
  revert offset extra. induction k as [|k IH]; intros offset extra Hp He Ho Hb.
  - split; [|done]. cbn. rewrite Z.max_l by lia. done.
  - cbn [sub_ranges]. set (count := per + (if 0 <? extra then 1 else 0)). assert (1 <= count /\ count = per + (Z.max 0 extra - Z.max 0 (extra - 1))) as [Hc Hcv].
    { subst count. destruct (Z.ltb_spec 0 extra); lia. }
    rewrite (proj2 (Z.ltb_lt _ _)) by lia. cbn [map concat length].
    destruct (decide (k = 0%nat)) as [->|Hk].
    + cbn [sub_ranges map concat length]. rewrite app_nil_r. split_and!; [|done|by repeat constructor]. unfold in_range. cbn [fst snd].
      f_equal. nia.
    + rewrite u32_small by nia. destruct (IH (offset + count) (extra - 1)) as (E & El & Ef); [lia..|nia|].
      split_and!; [|by rewrite El|by constructor]. rewrite E. unfold in_range. cbn [fst snd].
      replace (Z.of_nat (S k) * per + Z.max 0 extra) with (count + (Z.of_nat k * per + Z.max 0 (extra - 1))) by nia.
      by rewrite (seqZ_app offset count) by nia.
Qed.

Lemma queries_bounds count size : 2 <= count -> 0 < size -> count + size <= 2 ^ 32 ->
  let n := queries_to_create count size in
  2 <= n <= count /\ (count <= size \/ size = 1 -> n = count) /\ (2 <= size < count -> n = Z.min ((count + size - 1) / size) size).
Proof.
  intros Hc Hs Hb. unfold queries_to_create. rewrite u32_small by lia. cbv zeta.
  pose proof (Z.div_mod (count + size - 1) size ltac:(lia)) as Hd. pose proof (Z.mod_pos_bound (count + size - 1) size Hs) as Hm.
  set (d := (count + size - 1) / size) in *. assert (1 <= d <= count) as Hdc by nia.
  assert (count <= size -> d = 1) as H1 by nia. assert (2 <= size < count -> 2 <= d < count) as H2 by nia.
  destruct (Z.leb_spec (Z.min d size) 1); lia.
Qed.

(** A range query is split without loss: whatever the neighborhood size, its
    sub-ranges are non-empty and put end to end are the range; there is one per
    container when the range is no longer than the neighborhood, and otherwise at
    most as many as the neighborhood has nodes, unless that is one. *)
Lemma split_range_partitions size offset count : 2 <= count -> 0 < size -> count + size <= 2 ^ 32 -> 0 <= offset -> offset + count <= 2 ^ 32 ->
  let rs := split_range size offset count in
  concat (map in_range rs) = seqZ offset count /\ Forall (fun r => 1 <= snd r) rs /\
  Z.of_nat (length rs) = (if decide (count <= size \/ size = 1) then count else Z.min ((count + size - 1) / size) size).
Proof.
  intros Hc Hs Hb Ho Hoc. cbv zeta. destruct (queries_bounds count size Hc Hs Hb) as (Hn & Hall & Hsome). unfold split_range.
  set (n := queries_to_create count size) in *. clearbody n.
  pose proof (Z.div_mod count n ltac:(lia)) as Hd. pose proof (Z.mod_pos_bound count n ltac:(lia)) as Hm.
  assert (1 <= count / n) as Hp by nia.
  destruct (sub_ranges_spec (Z.to_nat n) offset (count / n) (count mod n)) as (E & El & Ef); [lia..|rewrite Z2Nat.id by lia; nia|].
  split_and!; [|done|].
  - rewrite E. f_equal. rewrite Z2Nat.id by lia. lia.
  - rewrite El, Z2Nat.id by lia. case_decide as Hcs; [by apply Hall|apply Hsome; lia].
Qed.

Lemma sub_ranges_ones k offset extra : extra <= 0 -> 0 <= offset -> offset + Z.of_nat k <= 2 ^ 32 ->
  map fst (sub_ranges k offset 1 extra) = seqZ offset (Z.of_nat k).
Proof.
  revert offset extra. induction k as [|k IH]; intros offset extra He Ho Hb; [done|]. cbn [sub_ranges].
  rewrite (proj2 (Z.ltb_ge 0 extra)) by lia. change (1 + 0) with 1. cbn [Z.ltb Z.compare map fst]. replace (Z.of_nat (S k)) with (Z.succ (Z.of_nat k)) by lia.
  rewrite seqZ_cons by lia. f_equal. rewrite Z.pred_succ. destruct (decide (k = 0%nat)) as [->|Hk]; [done|]. rewrite u32_small by lia. by rewrite IH by lia.
Qed.

(** The first container of each sub-range. *)
Definition heads (size offset count : Z) : list Z := map fst (split_range size offset count).

Lemma heads_all size offset count : 2 <= count -> 0 < size -> count + size <= 2 ^ 32 -> 0 <= offset -> offset + count <= 2 ^ 32 ->
  count <= size \/ size = 1 -> heads size offset count = seqZ offset count.
Proof.
  intros Hc Hs Hb Ho Hoc Hall. destruct (queries_bounds count size Hc Hs Hb) as (_ & Hn & _). unfold heads, split_range. rewrite Hn by done.
  rewrite Z.div_same, Z.mod_same by lia. rewrite sub_ranges_ones by lia. by rewrite Z2Nat.id by lia.
Qed.

Lemma heads_sublist size offset count : 2 <= count -> 0 < size -> count + size <= 2 ^ 32 -> 0 <= offset -> offset + count <= 2 ^ 32 ->
  heads size offset count `sublist_of` seqZ offset count.
Proof.
  intros Hc Hs Hb Ho Hoc. destruct (split_range_partitions size offset count Hc Hs Hb Ho Hoc) as (Hp & Hpos & _).
  rewrite <- Hp. unfold heads. clear -Hpos. induction Hpos as [|[o n] rs Hn _ IH]; [done|]. cbn [map concat fst snd] in *.
  unfold in_range at 1. cbn [fst snd]. rewrite seqZ_cons by lia. cbn [app]. constructor. by apply sublist_inserts_l.
Qed.

Lemma heads_in_range size offset count c : 2 <= count -> 0 < size -> count + size <= 2 ^ 32 -> 0 <= offset -> offset + count <= 2 ^ 32 ->
  c ∈ heads size offset count -> offset <= c < offset + count.
Proof.
  intros Hc Hs Hb Ho Hoc Hin. apply elem_of_seqZ. eapply elem_of_submseteq; [exact Hin|]. by apply sublist_submseteq, heads_sublist.
Qed.

(** * A settled cluster

    The pool is created on [n] hosts, all maps agree on [home], every node that
    still runs has its own container and no other, and every home runs. So it is
    after the pool's creation, with [home] the identity, and so it is after any
    recovery, which recreates nothing. *)
Section Settled.
Context (cluster : gmap Z Node) (n N : Z) (home : Z -> Z) (own : Z -> handle) (pid : PoolId) (schedule : PoolQuery -> PoolQuery).

Record settled_node (i : Z) nd : Prop := {
  sn_id : node_id nd = i;
  sn_own : 0 <= i < n /\ home i = i;
  sn_size : neighborhood_size_ nd = N;
  sn_hosts : GetNumHosts nd = Z.to_nat n;
  sn_alive c : 0 <= c < n -> hostfile_map_ nd !! home c = Some kAlive;
  sn_pool : exists info, GetPoolInfo (pools_ nd) pid = Some info /\ num_containers_ info = n /\ containers_ info = {[i := own i]} /\
    local_container_ info = Some (own i) /\ is_Some (static_container_ info) /\ forall c, 0 <= c < n -> address_map_ info !! c = Some (home c) }.
Record settled : Prop := {
  se_node i nd : cluster !! i = Some nd -> settled_node i nd;
  se_home c : 0 <= c < n -> is_Some (cluster !! home c);
  se_bounds : 0 < n /\ 0 < N /\ n + N <= 2 ^ 32;
  se_pid : pid <> NullPool }.

(** The runs of a task, in the order of its copies. *)
Definition runs nd (r : routed) : list (Z * handle) :=
  match r with
  | RunsHere (Some h) => [(node_id nd, h)]
  | Sent copies => omap (fun o => match o with Ran m h => Some (m, h) | _ => None end) copies
  | _ => []
  end.

(** The nodes a query reaches. *)
Definition reached (self : Z) q : list Z :=
  match routing_mode_ q with
  | RoutingMode.Local => [self]
  | RoutingMode.DirectId => [home (container_id_ q)]
  | RoutingMode.DirectHash => [home (hash_value_ q mod n)]
  | RoutingMode.Physical => [node_id_ q]
  | RoutingMode.Range => if range_count_ q =? 1 then [home (range_offset_ q)] else map home (heads N (range_offset_ q) (range_count_ q))
  | RoutingMode.Broadcast => if n =? 1 then [home 0] else map home (heads N 0 n)
  | _ => []
  end.
Definition well_posed q : Prop :=
  match routing_mode_ q with
  | RoutingMode.Local | RoutingMode.Broadcast => True
  | RoutingMode.DirectId => 0 <= container_id_ q < n
  | RoutingMode.DirectHash => 0 <= hash_value_ q
  | RoutingMode.Physical => exists c, 0 <= c < n /\ node_id_ q = home c
  | RoutingMode.Range => 1 <= range_count_ q /\ 0 <= range_offset_ q /\ range_offset_ q + range_count_ q <= n
  | _ => False
  end.

Hypothesis Hset : settled.

Lemma local_is_own i nd cid : cluster !! i = Some nd -> GetContainer (pools_ nd) pid cid = Some (own i).
Proof.
  intros Hi. destruct (sn_pool _ _ (se_node Hset i nd Hi)) as (info & Hg & _ & Hc & Hl & _). unfold GetContainer. rewrite Hg, Hc, Hl.
  destruct (cid =? kInvalidContainerId); [done|]. rewrite lookup_singleton. by case_decide.
Qed.

Lemma received_by_own i nd : cluster !! i = Some nd -> RecvInHandleOne nd pid = Some (own i).
Proof.
  intros Hi. destruct (sn_pool _ _ (se_node Hset i nd Hi)) as (info & Hg & _ & _ & Hl & [s Hs] & _).
  unfold RecvInHandleOne, GetStaticContainer, GetRealOrStaticContainer. rewrite Hg. cbn [mbind option_bind]. by rewrite Hs, Hl.
Qed.

Lemma node_of i nd c : cluster !! i = Some nd -> 0 <= c < n -> GetContainerNodeId (pools_ nd) pid c = home c.
Proof.
  intros Hi Hc. destruct (sn_pool _ _ (se_node Hset i nd Hi)) as (info & Hg & _ & _ & _ & _ & Ha). unfold GetContainerNodeId. by rewrite Hg, Ha.
Qed.

Lemma has_container i nd c : cluster !! i = Some nd -> HasContainer (pools_ nd) pid c = bool_decide (c = i).
Proof.
  intros Hi. destruct (sn_pool _ _ (se_node Hset i nd Hi)) as (info & Hg & _ & Hc & _). unfold HasContainer. rewrite Hg, Hc, lookup_singleton.
  case_decide; [subst; by rewrite !bool_decide_eq_true_2|]. rewrite !bool_decide_eq_false_2; [done|congruence|by intros [? ?]].
Qed.

(** A copy sent to a home runs there. *)
Lemma copy_runs i nd c q : cluster !! i = Some nd -> 0 <= c < n -> SendInResolveTargetNode nd q pid = Some (home c) ->
  SendIn_copy cluster nd pid q = Ran (home c) (own (home c)).
Proof.
  intros Hi Hc Ht. unfold SendIn_copy. rewrite Ht, (sn_alive _ _ (se_node Hset i nd Hi)) by done. rewrite bool_decide_eq_true_2 by done. cbn [negb].
  destruct (se_home Hset c Hc) as [nd' Hn]. rewrite Hn. cbn [mbind option_bind]. by rewrite (received_by_own (home c) nd').
Qed.

Lemma sent_runs i nd qs cs : cluster !! i = Some nd -> Forall2 (fun q c => 0 <= c < n /\ SendInResolveTargetNode nd q pid = Some (home c)) qs cs ->
  runs nd (Sent (SendIn cluster nd pid qs)) = map (fun m => (m, own m)) (map home cs).
Proof.
  intros Hi Hq. destruct (sn_pool _ _ (se_node Hset i nd Hi)) as (info & Hg & _ & _ & _ & [s Hs] & _). unfold SendIn, GetStaticContainer. rewrite Hg. cbn [mbind option_bind].
  rewrite Hs. unfold runs. induction Hq as [|q c qs cs [Hc Ht] _ IH]; [done|]. cbn [map omap list_omap]. rewrite (copy_runs i nd c) by done. by f_equal.
Qed.

(** What [RouteTask] does once the query is resolved. *)
Definition dispatch nd q (qs : list PoolQuery) : routed :=
  if IsTaskLocal nd qs (IsMode RoutingMode.Local q) then RunsHere (RouteLocal nd q pid) else Sent (SendIn cluster nd pid qs).

Lemma one_host i nd c : cluster !! i = Some nd -> (GetNumHosts nd =? 1)%nat = true -> 0 <= c < n -> home c = i.
Proof.
  intros Hi Hh Hc. destruct (se_node Hset i nd Hi) as [_ [Hr Ho] _ Hs _ _]. apply Nat.eqb_eq in Hh. rewrite Hs in Hh.
  assert (n = 1) by lia. assert (c = 0 /\ i = 0) as [-> ->] by lia. done.
Qed.

Lemma dispatch_one i nd q q' c : cluster !! i = Some nd -> 0 <= c < n -> SendInResolveTargetNode nd q' pid = Some (home c) ->
  (IsTaskLocal nd [q'] (IsMode RoutingMode.Local q) = true -> home c = i) ->
  runs nd (dispatch nd q [q']) = [(home c, own (home c))].
Proof.
  intros Hi Hc Ht Hl. unfold dispatch. destruct (IsTaskLocal _ _ _) eqn:El.
  - unfold RouteLocal. rewrite (local_is_own i nd) by done. cbn. by rewrite (sn_id _ _ (se_node Hset i nd Hi)), (Hl eq_refl).
  - rewrite (sent_runs i nd [q'] [c]); [done|done|]. constructor; [by split|constructor].
Qed.

Lemma dispatch_container i nd q c : cluster !! i = Some nd -> 0 <= c < n -> routing_mode_ q <> RoutingMode.Local ->
  runs nd (dispatch nd q (map (SetReturnNode (node_id nd)) (to_container nd pid c))) = [(home c, own (home c))].
Proof.
  intros Hi Hc Hq. destruct (se_node Hset i nd Hi) as [Hid [Hr Ho] _ Hs _ _]. unfold to_container. rewrite (has_container i nd c), (node_of i nd c), Hid by done.
  case_bool_decide as Eci; [subst c|destruct (Z.eqb_spec (home c) i) as [Ehi|Hne]].
  - apply (dispatch_one i); [done|done| |done]. cbn. by rewrite Hid, Ho.
  - apply (dispatch_one i); [done|done| |done]. cbn. by rewrite Hid, Ehi.
  - apply (dispatch_one i); [done|done|cbn; by rewrite (node_of i)|]. unfold IsTaskLocal.
    destruct (force_net_ nd); [by intros E%bool_decide_eq_true|]. unfold IsMode.
    rewrite bool_decide_eq_false_2 by done. cbn [orb]. rewrite orb_false_r. intros Hh. by apply (one_host i nd).
Qed.

Lemma dispatch_range i nd q offset count : cluster !! i = Some nd -> routing_mode_ q <> RoutingMode.Local ->
  2 <= count -> 0 <= offset -> offset + count <= n ->
  runs nd (dispatch nd q (map (SetReturnNode (node_id nd)) (map (fun '(o, c) => Range o c minus_one) (split_range N offset count)))) =
    map (fun m => (m, own m)) (map home (heads N offset count)).
Proof.
  intros Hi Hq Hc Ho Hoc. destruct (se_node Hset i nd Hi) as [Hid [Hr _] _ Hs _ _]. destruct (se_bounds Hset) as (Hn & HN & Hb).
  destruct (split_range_partitions N offset count) as (_ & _ & Hlen); [lia..|].
  assert (2 <= Z.of_nat (length (split_range N offset count))) as Hl2.
  { rewrite Hlen. destruct (queries_bounds count N) as (H1 & H2 & H3); [lia..|]. case_decide as Hcs; [lia|rewrite <- H3 by lia; lia]. }
  pose proof (heads_in_range N offset count) as Hheads. unfold dispatch.
  assert (IsTaskLocal nd (map (SetReturnNode (node_id nd)) (map (fun '(o, c) => Range o c minus_one) (split_range N offset count))) (IsMode RoutingMode.Local q) = false) as ->.
  { unfold IsTaskLocal, IsMode. rewrite bool_decide_eq_false_2 by done. destruct (force_net_ nd); [done|].
    destruct (split_range N offset count) as [|[o1 c1] [|[o2 c2] l]]; [cbn in Hl2; lia..|]. cbn [map]. rewrite Hs. apply Nat.eqb_neq. lia. }
  apply (sent_runs i nd); [done|]. unfold heads.
  assert (forall r, r ∈ split_range N offset count -> 0 <= fst r < n) as Hin.
  { intros r Hr'. assert (fst r ∈ heads N offset count) as Hh by (by apply list_elem_of_fmap_2). apply Hheads in Hh; lia. }
  clear Hl2 Hlen Hheads. induction (split_range N offset count) as [|[o c] l IH]; [done|]. cbn [map fst]. constructor; [|apply IH; intros r Hr'; apply Hin; by right].
  split; [apply (Hin (o, c)); by left|]. cbn. apply f_equal, (node_of i nd o Hi), (Hin (o, c)). by left.
Qed.

Lemma RouteTask_dispatch nd q : IsCollectiveMode q = false -> routing_mode_ q <> RoutingMode.Dynamic ->
  RouteTask cluster nd schedule q pid = match ResolvePoolQuery nd q pid with [] => Nowhere | qs => dispatch nd q qs end.
Proof.
  intros Hc Hd. unfold RouteTask, dispatch. rewrite Hc.
  assert ((match GetStaticContainer (pools_ nd) pid with Some _ => if IsMode RoutingMode.Dynamic q then schedule q else q | None => q end) = q) as ->; [|done].
  unfold IsMode. rewrite bool_decide_eq_false_2 by done. by case_match.
Qed.

End Settled.

(** * What a broadcast reaches *)

Section Coverage.
Context (cluster : gmap Z Node) (n N : Z) (own : Z -> handle) (pid : PoolId) (schedule : PoolQuery -> PoolQuery).
Hypothesis Hset : settled cluster n N (fun c => c) own pid.

(** The nodes a broadcast reaches: no node twice, and all of the pool's only when
    the pool is no larger than a neighborhood (or a neighborhood is one node). *)
Lemma broadcast_reach i : let l := reached n N (fun c => c) i (Broadcast minus_one) in
  NoDup l /\ (forall m, m ∈ l -> 0 <= m < n) /\ Z.of_nat (length l) = (if decide (n <= N \/ N = 1) then n else Z.min ((n + N - 1) / N) N).
Proof.
  destruct (se_bounds _ _ _ _ _ _ Hset) as (Hn & HN & Hb). cbv zeta. unfold reached. cbn [routing_mode_ Broadcast query].
  destruct (Z.eqb_spec n 1) as [E1|Hne].
  - split_and!; [apply NoDup_singleton| |rewrite decide_True by lia; cbn; lia]. intros m ->%list_elem_of_singleton. lia.
  - rewrite (list_fmap_id : forall l : list Z, map (fun c => c) l = l).
    destruct (split_range_partitions N 0 n) as (_ & _ & Hlen); [lia..|]. split_and!.
    + eapply sublist_NoDup; [apply (NoDup_seqZ 0 n)|apply heads_sublist; lia].
    + intros m Hm. apply heads_in_range in Hm; lia.
    + unfold heads. by rewrite length_map.
Qed.

(** A collective task of a node that does not lead its neighborhood runs at once on
    the leader's container: it is sent as a physical query and received as routed,
    so the leader never batches it. *)
Lemma collective_runs_at_leader i nd q c : cluster !! i = Some nd -> IsCollectiveMode q = true ->
  GetNeighborhoodLeaderNodeId nd i = c -> 0 <= c < n ->
  if decide (c = i) then RouteTask cluster nd schedule q pid = Batched
  else runs nd (RouteTask cluster nd schedule q pid) = [(c, own c)].
Proof.
  intros Hi Hq Hl Hc. pose proof (sn_id _ _ _ _ _ _ _ (se_node _ _ _ _ _ _ Hset i nd Hi)) as Hid. destruct (se_bounds _ _ _ _ _ _ Hset) as (Hn & HN & Hb).
  unfold RouteTask, RouteManyToOne. rewrite Hq, Hid, Hl. destruct (Z.eqb_spec c i) as [->|Hne]; [by rewrite decide_True|].
  rewrite decide_False, u32_small by lia. rewrite (sent_runs cluster n N (fun c => c) own pid Hset i nd _ [c]); [done|done|]. constructor; [|constructor]. done.
Qed.
End Coverage.

(** * A concrete cluster *)

Definition ex_pid : PoolId := (7, 0).
Definition ex_own (i : Z) : handle := mkHandle i (10 + i).
Definition ex_node (n N i : Z) : Node :=
  mkNode i (list_to_map (map (fun c => (c, kAlive)) (seqZ 0 n))) N false
    (mkManager true {[ ex_pid := mkPool [] n {[i := ex_own i]} (list_to_map (map (fun c => (c, c)) (seqZ 0 n)))
                                   (Some (mkHandle kStaticContainerId 9)) (Some (ex_own i)) ]}).
Definition ex_cluster (n N : Z) : gmap Z Node := list_to_map (map (fun i => (i, ex_node n N i)) (seqZ 0 n)).

Lemma map_of_seq {A} (f : Z -> A) (n c : Z) : 0 <= c < n -> (list_to_map (map (fun i => (i, f i)) (seqZ 0 n)) : gmap Z A) !! c = Some (f c).
Proof.
  intros Hc. apply elem_of_list_to_map_1.
  - rewrite <- list_fmap_compose. change (NoDup (id <$> seqZ 0 n)). rewrite list_fmap_id. apply NoDup_seqZ.
  - apply list_elem_of_fmap. exists c. by rewrite elem_of_seqZ.
Qed.

Lemma ex_settled n N : 0 < n -> 0 < N -> n + N <= 2 ^ 32 -> settled (ex_cluster n N) n N (fun c => c) ex_own ex_pid.
Proof.
  intros Hn HN Hb. split; [|intros c Hc; eexists; by apply map_of_seq|done|done].
  intros i nd Hi. apply elem_of_list_to_map_2, list_elem_of_fmap in Hi as (j & [= -> ->] & Hj%elem_of_seqZ).
  split; [done|lia|done| |intros c Hc; by apply (map_of_seq (fun _ => kAlive))|].
  - unfold GetNumHosts. cbn. rewrite map_size_list_to_map by (rewrite <- list_fmap_compose; change (NoDup (id <$> seqZ 0 n)); rewrite list_fmap_id; apply NoDup_seqZ).
    by rewrite length_map, length_seqZ.
  - eexists. split; [unfold GetPoolInfo, ex_node; cbn [pools_ is_initialized_ pool_metadata_]; apply lookup_singleton_eq|]. cbn. split_and!; [done..|by eexists|].
    intros c Hc. by apply (map_of_seq (fun c => c)).
Qed.

(** A broadcast over three containers with neighborhoods of two: container 1 never
    runs. *)
Example broadcast_misses_container :
  runs (ex_node 3 2 0) (RouteTask (ex_cluster 3 2) (ex_node 3 2 0) id (Broadcast minus_one) ex_pid) = [(0, ex_own 0); (2, ex_own 2)].
Proof. by vm_compute. Qed.

(** Node 1 is led by node 0, which runs its collective task by itself. *)
Example forwarded_collective_is_not_batched :
  RouteTask (ex_cluster 2 2) (ex_node 2 2 0) id (ManyToOne 5 6 1000) ex_pid = Batched /\
  runs (ex_node 2 2 1) (RouteTask (ex_cluster 2 2) (ex_node 2 2 1) id (ManyToOne 5 6 1000) ex_pid) = [(0, ex_own 0)].
Proof. by vm_compute. Qed.

