(* ===== verification/Run2Run.v ===== *)
(** How the copies of a task that was sent to other nodes are gathered again
    ([context-runtime/src/ipc/ipc_run2run.cc]: [SendIn], [RecvOutDeserialize],
    [RecvOutAggregate], [ClaimOrigin], [RecvOutCompleteOriginTask],
    [RegisterOriginProgress], [MarkReplicaAccounted],
    [HandleTaskProgressResult], [FlushStaleStateForNode]).

    The handlers run on several threads. A step is one of their critical sections,
    or one access to the counter of an origin. A net key is the address of the
    origin, so the objects are a store with its own allocation: a handler keeps the
    object it holds alive. What arrives from the network, what the scans for stuck
    or dead replicas decide and what becomes of each copy are choices of the
    schedule; the merging of results is not modelled. *)
From Stdlib Require Import ZArith Lia.
From stdpp Require Import base list gmap fin_maps relations.
From S2P Require Import Prelude Threads.

Open Scope nat_scope.

Abbreviation key := Z.

(** A copy is given to a node, sent or waiting for a retry; or skipped, because the
    node is dead and the task does not wait; or has no target or an unknown host. *)
Inductive fate := Given (node : Z) | Skipped | Unsent.
#[export] Instance fate_eq_dec : EqDecision fate.
Proof. solve_decision. Defined.
Record ReplicaProgress := mkReplica { target_node_id : option Z; accounted : bool }.
(** An origin, with the fates of its copies; how often it was ended; whether it got
    the return code of a network timeout. *)
Record Origin := mkOrigin { fates : list fate; Subtasks : nat; CompletedReplicas : nat; ended : nat; timed_out : bool }.
(** [heard]: the copies whose accounting was claimed, a history. *)
Record Net := mkNet {
  send_map_ : gset key;
  progress_map_ : gmap key (list ReplicaProgress);
  objects : gmap key Origin;
  heard : gset (key * nat) }.
Implicit Types (k : key) (rid : nat) (net : Net) (fs : list fate) (targets : list (option Z)).

(** Where a thread is. [SendIn]: about to size the list of copies; about to treat
    the next copy, or to register them all. [RecvOut]: found the origin of a
    response, about to find it again; about to claim the accounting. A verdict: about
    to find the origin. All: about to count; to claim the origin; to clear its
    copies; to end it. *)
Abbreviation rest := (option (list fate * list (option Z))).
Inductive thread :=
  | Idle
  | Resize k (todo : list fate) | Copies k (todo : list fate) targets
  | Aggregate k rid | Account k rid
  | LookUp k | Count k (gone : bool)
  | Complete k (r : rest) | Clear k (r : rest) | Finish k (r : rest).
Inductive label := Go | SendOrigin k fs | Reply k rid | Gone k rid | Flush k | Free k.
Implicit Types (t : thread) (l : label) (r : rest).

Definition resume k r : thread := match r with Some (todo, targets) => Copies k todo targets | None => Idle end.
Definition update k (f : Origin -> Origin) net : Net := mkNet (send_map_ net) (progress_map_ net) (alter f k (objects net)) (heard net).

Definition add_completed (o : Origin) : Origin := mkOrigin (fates o) (Subtasks o) (S (CompletedReplicas o)) (ended o) (timed_out o).
(** [CompletedReplicas().fetch_add(1)], and whether it was the last. *)
Definition count_replica k net : Net * bool :=
  (update k add_completed net,
   match objects net !! k with Some o => S (CompletedReplicas o) =? Subtasks o | None => false end).

Definition target_of (f : fate) : option Z := match f with Given node => Some node | _ => None end.
Definition SendIn_copy net k (f : fate) (todo : list fate) targets : Net * thread :=
  let targets := targets ++ [target_of f] in
  match f with
  | Skipped => let '(net, last) := count_replica k net in (net, if last then Complete k (Some (todo, targets)) else Copies k todo targets)
  | _ => (net, Copies k todo targets)
  end.

Definition RegisterOriginProgress net k targets : Net :=
  mkNet (send_map_ net)
    (<[k := map (fun target => mkReplica target (match target with Some _ => false | None => true end)) targets]> (progress_map_ net)) (objects net) (heard net).

Definition MarkReplicaAccounted net k rid : Net * bool :=
  let claimed progress := (mkNet (send_map_ net) progress (objects net) ({[(k, rid)]} ∪ heard net), true) in
  match progress_map_ net !! k with
  | None => claimed (progress_map_ net)
  | Some replicas =>
      match replicas !! rid with
      | None => claimed (progress_map_ net)
      | Some rp =>
          if accounted rp then (net, false)
          else claimed (<[k := <[rid := mkReplica (target_node_id rp) true]> replicas]> (progress_map_ net))
      end
  end.

Definition ClaimOrigin net k : Net * bool :=
  (mkNet (send_map_ net ∖ {[k]}) (delete k (progress_map_ net)) (objects net) (heard net), bool_decide (k ∈ send_map_ net)).

Definition replica_in_range net k rid : bool :=
  match objects net !! k with Some o => bool_decide (k ∈ send_map_ net) && (rid <? Subtasks o) | None => false end.

Definition clear_copies (o : Origin) : Origin := mkOrigin (fates o) 0 (CompletedReplicas o) (ended o) (timed_out o).
Definition end_task (o : Origin) : Origin := mkOrigin (fates o) (Subtasks o) (CompletedReplicas o) (S (ended o)) (timed_out o).
Definition set_timeout (o : Origin) : Origin := mkOrigin (fates o) (Subtasks o) (CompletedReplicas o) (ended o) true.
Definition resize_copies (o : Origin) : Origin := mkOrigin (fates o) (length (fates o)) (CompletedReplicas o) (ended o) (timed_out o).

(** The object a thread keeps alive. *)
Definition held t : option key :=
  match t with
  | Resize k _ | Copies k _ _ | Account k _ | Count k _ | Complete k _ | Clear k _ | Finish k _ => Some k
  | _ => None
  end.

Definition start l (ts : list thread) net : Net * thread :=
  match l with
  | Go => (net, Idle)
  | SendOrigin k fs =>
      if decide (objects net !! k = None /\ fs <> []) then
        (mkNet ({[k]} ∪ send_map_ net) (progress_map_ net) (<[k := mkOrigin fs 0 0 0 false]> (objects net)) (heard net), Resize k fs)
      else (net, Idle)
  | Reply k rid => (net, if replica_in_range net k rid then Aggregate k rid else Idle)
  | Gone k rid => let '(net, mine) := MarkReplicaAccounted net k rid in (net, if mine then LookUp k else Idle)
  | Flush k => (net, if decide (k ∈ send_map_ net) then Count k false else Idle)
  | Free k =>
      if decide (k ∉ send_map_ net /\ Forall (fun t => held t <> Some k) ts) then
        (mkNet (send_map_ net) (progress_map_ net) (delete k (objects net)) (heard net), Idle)
      else (net, Idle)
  end.

Definition thread_step l (ts : list thread) net t : Net * thread :=
  match t with
  | Idle => start l ts net
  | Resize k todo => (update k resize_copies net, Copies k todo [])
  | Copies k [] targets => (RegisterOriginProgress net k targets, Idle)
  | Copies k (f :: todo) targets => SendIn_copy net k f todo targets
  | Aggregate k rid => (net, if replica_in_range net k rid then Account k rid else Idle)
  | Account k rid => let '(net, mine) := MarkReplicaAccounted net k rid in (net, if mine then Count k false else Idle)
  | LookUp k => (net, if decide (k ∈ send_map_ net) then Count k true else Idle)
  | Count k gone =>
      let '(net, last) := count_replica k (if gone then update k set_timeout net else net) in (net, if last then Complete k None else Idle)
  | Complete k r => let '(net, mine) := ClaimOrigin net k in (net, if mine then Clear k r else resume k r)
  | Clear k r => (update k clear_copies net, Finish k r)
  | Finish k r => (update k end_task net, resume k r)
  end.

Record world := mkWorld { w_net : Net; w_threads : list thread }.
Implicit Types (w : world) (ts : list thread).
Definition world_init (n : nat) : world := mkWorld (mkNet ∅ ∅ ∅ ∅) (replicate n Idle).

Definition move (i : nat) l w : option world :=
  match w_threads w !! i with
  | Some t => let '(net, t') := thread_step l (w_threads w) (w_net w) t in Some (mkWorld net (<[i := t']> (w_threads w)))
  | None => None
  end.
Definition step w w' : Prop := exists i l, move i l w = Some w'.
Definition reachable w : Prop := exists n, rtc step (world_init n) w.

Fixpoint exec (sched : list (nat * label)) w : option world :=
  match sched with
  | [] => Some w
  | (i, l) :: sched => match move i l w with Some w' => exec sched w' | None => None end
  end.

(** * Every origin is ended once *)

Definition closing k t : bool := match t with Clear k' _ | Finish k' _ => bool_decide (k = k') | _ => false end.

(** What a step does to the origins and the map. *)
Inductive effect (ts : list thread) net t : Net -> thread -> Prop :=
  | EQuiet f k net' t' : net' = mkNet (send_map_ net) (progress_map_ net') (alter f k (objects net)) (heard net') ->
      (forall o, ended (f o) = ended o) -> (forall k, closing k t' = closing k t) ->
      (forall k, held t' = Some k -> held t = Some k \/ k ∈ send_map_ net) -> effect ts net t net' t'
  | ESend k fs : t = Idle -> objects net !! k = None ->
      effect ts net t (mkNet ({[k]} ∪ send_map_ net) (progress_map_ net) (<[k := mkOrigin fs 0 0 0 false]> (objects net)) (heard net)) (Resize k fs)
  | EClaim k r : t = Complete k r -> k ∈ send_map_ net -> effect ts net t (fst (ClaimOrigin net k)) (Clear k r)
  | EFinish k r : t = Finish k r -> effect ts net t (update k end_task net) (resume k r)
  | EFree k : t = Idle -> k ∉ send_map_ net -> Forall (fun t => held t <> Some k) ts ->
      effect ts net t (mkNet (send_map_ net) (progress_map_ net) (delete k (objects net)) (heard net)) Idle.

Lemma quiet_effect ts net t net' t' : send_map_ net' = send_map_ net -> objects net' = objects net ->
  (forall k, closing k t' = closing k t) -> (forall k, held t' = Some k -> held t = Some k \/ k ∈ send_map_ net) -> effect ts net t net' t'.
Proof.
  intros Hs Ho Hc Hh. apply (EQuiet ts net t id 0%Z); try done. destruct net' as [sm pm obs hs]. cbn in *. subst. f_equal.
  apply map_eq. intros k. rewrite lookup_alter. case_decide; subst; [|done]. by rewrite option_fmap_id.
Qed.
Lemma update_effect ts net t k f t' : (forall o, ended (f o) = ended o) ->
  (forall k, closing k t' = closing k t) -> (forall k, held t' = Some k -> held t = Some k \/ k ∈ send_map_ net) -> effect ts net t (update k f net) t'.
Proof. intros Hf Hc Hh. by apply (EQuiet ts net t f k). Qed.

Lemma mark_same net k rid : send_map_ (fst (MarkReplicaAccounted net k rid)) = send_map_ net /\ objects (fst (MarkReplicaAccounted net k rid)) = objects net.
Proof. unfold MarkReplicaAccounted. by repeat case_match. Qed.
Lemma resume_closing k r k' : closing k' (resume k r) = false.
Proof. by destruct r as [[]|]. Qed.
Lemma resume_held k r k' : held (resume k r) = Some k' -> k' = k.
Proof. destruct r as [[]|]; cbn; congruence. Qed.
Lemma range_in_map net k rid : replica_in_range net k rid = true -> k ∈ send_map_ net.
Proof. unfold replica_in_range. case_match; [|done]. by intros [Hk%bool_decide_eq_true _]%andb_true_iff. Qed.

Lemma step_effect l ts net t net' t' : thread_step l ts net t = (net', t') -> effect ts net t net' t'.
Proof.
  destruct t as [|k todo|k [|f todo] targets|k rid|k rid|k|k gone|k r|k r|k r]; cbn [thread_step]; intros Hs.
  - destruct l as [|k fs|k rid|k rid|k|k]; cbn [start] in Hs.
    + injection Hs as <- <-. by apply quiet_effect.
    + case_decide as Hn; injection Hs as <- <-; [by apply ESend; [|apply Hn]|by apply quiet_effect].
    + destruct (replica_in_range _ _ _); injection Hs as <- <-; by apply quiet_effect.
    + pose proof (mark_same net k rid) as [Es Eo]. destruct (MarkReplicaAccounted net k rid) as [net1 mine]. injection Hs as <- <-.
      apply quiet_effect; [done..| |]; by destruct mine.
    + case_decide; injection Hs as <- <-; apply quiet_effect; try done. intros k' [= <-]. by right.
    + case_decide as Hf; injection Hs as <- <-; [by apply EFree; [|apply Hf|apply Hf]|by apply quiet_effect].
  - injection Hs as <- <-. apply update_effect; [done..|by left].
  - injection Hs as <- <-. by apply quiet_effect.
  - unfold SendIn_copy in Hs. destruct f; cbn in Hs; [| |].
    1, 3: injection Hs as <- <-; apply quiet_effect; [done..|by left].
    injection Hs as <- <-. apply update_effect; [done|intros k'; by repeat case_match|intros k'; repeat case_match; by left].
  - destruct (replica_in_range _ _ _) eqn:E; injection Hs as <- <-; apply quiet_effect; try done. intros k' [= <-]. right. by eapply range_in_map.
  - pose proof (mark_same net k rid) as [Es Eo]. destruct (MarkReplicaAccounted net k rid) as [net1 mine]. injection Hs as <- <-.
    apply quiet_effect; [done..|by destruct mine|destruct mine; [by left|done]].
  - case_decide; injection Hs as <- <-; apply quiet_effect; try done. intros k' [= <-]. by right.
  - cbn in Hs. injection Hs as <- <-. destruct gone.
    + apply (EQuiet ts net _ (fun o => add_completed (set_timeout o)) k); [|done| |].
      * unfold update. cbn. f_equal. by rewrite alter_alter_eq.
      * intros k'. by repeat case_match.
      * intros k'. repeat case_match; try done; by left.
    + apply update_effect; [done| |]; intros k'; repeat case_match; try done; by left.
  - unfold ClaimOrigin in Hs. case_bool_decide as Hk; injection Hs as <- <-; [by apply (EClaim ts net _ k r)|].
    apply quiet_effect; cbn; [set_solver|done|intros; apply resume_closing|]. intros k' ->%resume_held. by left.
  - injection Hs as <- <-. apply update_effect; [done..|by left].
  - injection Hs as <- <-. by apply (EFinish ts net _ k r).
Qed.

(** An origin that exists is in the map, or one thread is ending it, or it was
    ended; and whatever a thread holds exists. *)
Record once_ok w : Prop := {
  on_once k o : objects (w_net w) !! k = Some o ->
    ended o + count (closing k) (w_threads w) + Nat.b2n (bool_decide (k ∈ send_map_ (w_net w))) = 1;
  on_map k : k ∈ send_map_ (w_net w) -> is_Some (objects (w_net w) !! k);
  on_held i t k : w_threads w !! i = Some t -> held t = Some k -> is_Some (objects (w_net w) !! k) }.

Lemma closing_held k t : closing k t = true -> held t = Some k.
Proof. destruct t; cbn; try done; by intros ->%bool_decide_eq_true. Qed.
Lemma closing_none k ts : (forall i t, ts !! i = Some t -> held t <> Some k) -> count (closing k) ts = 0.
Proof. intros Hn. apply count_none. intros i t Hi. destruct (closing k t) eqn:E; [|done]. by apply closing_held, (Hn i) in E. Qed.

Lemma init_once n : once_ok (world_init n).
Proof. split; cbn; [by intros k o Hk| |]; [by intros k Hk|]. by intros i t k [-> _]%lookup_replicate. Qed.

Lemma altered k k' (f : Origin -> Origin) (m : gmap key Origin) o : alter f k m !! k' = Some o ->
  exists o0, m !! k' = Some o0 /\ o = (if decide (k = k') then f o0 else o0).
Proof. rewrite lookup_alter. case_decide as E; [subst|by eauto]. intros (o0 & -> & ->)%fmap_Some. eauto. Qed.
Lemma altered_some k k' (f : Origin -> Origin) (m : gmap key Origin) : is_Some (m !! k') -> is_Some (alter f k m !! k').
Proof. rewrite lookup_alter. case_decide; [|done]. subst. by rewrite fmap_is_Some. Qed.

Lemma effect_once i ts net t net' t' : once_ok (mkWorld net ts) -> ts !! i = Some t -> effect ts net t net' t' ->
  once_ok (mkWorld net' (<[i := t']> ts)).
Proof.
  intros [Ho Hm Hh] Hi He. cbn in *.
  assert (forall j u k, <[i := t']> ts !! j = Some u -> held u = Some k -> held t' = Some k \/ is_Some (objects net !! k)) as Hh'.
  { intros j u k [[-> ->]|[_ Hj]]%(lookup_moved _ _ _ _ _ _ Hi) Hk; [by left|right; by eapply Hh]. }
  pose proof (fun k => count_insert (closing k) ts i t t' Hi) as Hc.
  destruct He as [f k0 net' t' Hnet Hf Hcl Hhe|k fs -> Hn|k r -> Hk|k r ->|k -> Hk Hfree]; split; cbn.
  - intros k o. rewrite Hnet. cbn. intros (o0 & Hk & ->)%altered. specialize (Ho k o0 Hk). specialize (Hc k). rewrite Hcl in Hc.
    destruct (decide (k0 = k)); [rewrite Hf|]; lia.
  - rewrite Hnet. cbn. intros k Hk. by apply altered_some, Hm.
  - intros j u k Hj Hk. rewrite Hnet. cbn. apply altered_some. destruct (Hh' j u k Hj Hk) as [Ht|]; [|done].
    destruct (Hhe k Ht) as [Ht'|Hin]; [by eapply Hh|by apply Hm].
  - intros k' o. specialize (Hc k'). cbn in Hc. destruct (decide (k = k')) as [<-|Hne].
    + rewrite lookup_insert_eq. intros [= <-]. cbn. rewrite bool_decide_eq_true_2 by set_solver.
      assert (count (closing k) ts = 0) as Hz; [|cbn; lia]. apply closing_none. intros j u Hj Hu. destruct (Hh j u k Hj Hu) as [o Ho']. congruence.
    + rewrite lookup_insert_ne by done. intros Hk. specialize (Ho k' o Hk).
      rewrite (bool_decide_ext _ (k' ∈ send_map_ net)) by set_solver. lia.
  - intros k' [->%elem_of_singleton|Hk]%elem_of_union; [rewrite lookup_insert_eq; by eexists|].
    destruct (decide (k = k')) as [<-|]; [rewrite lookup_insert_eq; by eexists|rewrite lookup_insert_ne by done; by apply Hm].
  - intros j u k' Hj Hk. destruct (decide (k = k')) as [<-|Hne]; [rewrite lookup_insert_eq; by eexists|rewrite lookup_insert_ne by done].
    destruct (Hh' j u k' Hj Hk) as [[= ->]|]; done.
  - intros k' o Ho'. specialize (Ho k' o Ho'). specialize (Hc k'). cbn in Hc. destruct (decide (k = k')) as [<-|Hne].
    + rewrite bool_decide_eq_true_2 in Ho by done. rewrite bool_decide_eq_true_2 in Hc by done. rewrite bool_decide_eq_false_2 by set_solver. cbn in *. lia.
    + rewrite (bool_decide_eq_false_2 (k' = k)) in Hc by done. rewrite (bool_decide_ext _ (k' ∈ send_map_ net)) by set_solver. cbn in *. lia.
  - intros k' Hk'. apply Hm. set_solver.
  - intros j u k' Hj Hk'. destruct (Hh' j u k' Hj Hk') as [[= <-]|]; [by apply Hm|done].
  - intros k' o (o0 & Ho' & ->)%altered. specialize (Ho k' o0 Ho'). specialize (Hc k'). rewrite resume_closing in Hc. cbn in Hc.
    destruct (decide (k = k')) as [<-|Hne].
    + rewrite bool_decide_eq_true_2 in Hc by done. cbn in *. lia.
    + rewrite bool_decide_eq_false_2 in Hc by done. cbn in *. lia.
  - intros k' Hk'. by apply altered_some, Hm.
  - intros j u k' Hj Hk'. apply altered_some. destruct (Hh' j u k' Hj Hk') as [->%resume_held|]; [by eapply Hh|done].
  - intros k' o [Hne Ho']%lookup_delete_Some. specialize (Ho k' o Ho'). specialize (Hc k'). cbn in Hc. lia.
  - intros k' Hk'. destruct (decide (k = k')) as [<-|]; [done|rewrite lookup_delete_ne by done; by apply Hm].
  - intros j u k' Hj Hk'. destruct (decide (k = k')) as [<-|]; [|rewrite lookup_delete_ne by done; by destruct (Hh' j u k' Hj Hk')].
    apply (lookup_moved _ _ _ _ _ _ Hi) in Hj as [[-> ->]|[_ Hj]]; [done|]. rewrite Forall_lookup in Hfree. by apply Hfree in Hj.
Qed.

Lemma reachable_once w : reachable w -> once_ok w.
Proof.
  intros [n Hr]. pattern w. eapply rtc_ind_r; [apply init_once| |exact Hr]. intros [net ts] w' _ (i & l & Hm) IH. unfold move in Hm. cbn in Hm.
  destruct (ts !! i) as [t|] eqn:Hi; [|done]. destruct (thread_step l ts net t) as [net' t'] eqn:Hs. injection Hm as <-.
  eapply effect_once; [done..|by apply (step_effect l)].
Qed.

(** C9. No task is ended twice: whatever arrives, in whatever order the handlers of
    responses, verdicts, timeouts and flushes interleave, and even when the address
    of a finished task is used again, an origin is ended at most once; one that is
    still awaited or being ended was not ended yet, and no thread works on one that
    is gone. *)
Theorem origins_end_once w k : reachable w ->
  (forall o, objects (w_net w) !! k = Some o -> ended o <= 1 /\ (k ∈ send_map_ (w_net w) -> ended o = 0)) /\
  (k ∈ send_map_ (w_net w) -> is_Some (objects (w_net w) !! k)) /\
  (forall i t, w_threads w !! i = Some t -> held t = Some k -> is_Some (objects (w_net w) !! k)) /\
  (forall i t, w_threads w !! i = Some t -> closing k t = true -> exists o, objects (w_net w) !! k = Some o /\ ended o = 0).
Proof.
  intros [Ho Hm Hh]%reachable_once. split_and!.
  - intros o Hk. specialize (Ho k o Hk). split; [lia|]. intros Hin. rewrite bool_decide_eq_true_2 in Ho by done. cbn in Ho. lia.
  - apply Hm.
  - intros i t Hi Ht. by eapply Hh.
  - intros i t Hi Ht. destruct (Hh i t k Hi (closing_held _ _ Ht)) as [o Hk]. exists o. split; [done|]. specialize (Ho k o Hk).
    assert (count (closing k) (w_threads w) <> 0); [|lia]. intros Hz. by rewrite (count_zero _ _ i t Hz Hi) in Ht.
Qed.

(** * When an origin is ended

    A run is orderly when the accounting of a copy is claimed only for an origin
    that was sent and, while it is awaited, only once its copies are registered;
    when nothing is flushed; and when no address is used again. *)

Definition tracked net k rid : Prop :=
  is_Some (objects net !! k) /\ (k ∈ send_map_ net -> exists e, progress_map_ net !! k = Some e /\ rid < length e).
Definition orderly net l t : Prop :=
  match t, l with
  | Idle, Gone k rid => tracked net k rid
  | Idle, (Flush _ | Free _) => False
  | Account k rid, _ => tracked net k rid
  | _, _ => True
  end.
Definition orderly_step w w' : Prop := exists i l t, w_threads w !! i = Some t /\ orderly (w_net w) l t /\ move i l w = Some w'.
Definition orderly_reachable w : Prop := exists n, rtc orderly_step (world_init n) w.

Definition is_unsent (f : fate) : bool := match f with Unsent => true | _ => false end.
Definition is_skipped (f : fate) : bool := match f with Skipped => true | _ => false end.

(** Every copy was skipped, or was given to a node and has been accounted for. *)
Definition all_in net k (o : Origin) : Prop := forall rid f, fates o !! rid = Some f -> f = Skipped \/ (f <> Unsent /\ (k, rid) ∈ heard net).

Definition sends k t : bool :=
  match t with
  | Resize k' _ | Copies k' _ _ | Complete k' (Some _) | Clear k' (Some _) | Finish k' (Some _) => bool_decide (k = k')
  | _ => false
  end.
Definition counts k t : bool := match t with LookUp k' | Count k' _ => bool_decide (k = k') | _ => false end.
Definition completes k t : bool := match t with Complete k' _ => bool_decide (k = k') | _ => false end.
Definition plain k t : Prop := sends k t = false /\ counts k t = false /\ completes k t = false.
(** What a thread is about, held or not. *)
Definition subject t : option key := match t with Aggregate k _ | LookUp k => Some k | _ => held t end.

(** What [SendIn] knows of the copies it has treated. *)
Definition treated (o : Origin) (todo : list fate) targets : Prop :=
  exists fs, fates o = fs ++ todo /\ targets = map target_of fs /\ Subtasks o = length (fates o) /\ CompletedReplicas o = count is_skipped fs.
Definition sender_ok (o : Origin) t : Prop :=
  match t with
  | Resize _ todo => fates o = todo /\ CompletedReplicas o = 0
  | Copies _ todo targets | Complete _ (Some (todo, targets)) | Clear _ (Some (todo, targets)) | Finish _ (Some (todo, targets)) => treated o todo targets
  | _ => True
  end.

Record registering net ts k (o : Origin) : Prop := {
  rg_progress : progress_map_ net !! k = None;
  rg_heard rid : (k, rid) ∉ heard net;
  rg_counts : count (counts k) ts = 0;
  rg_sends : count (sends k) ts = 1;
  rg_sender j u : ts !! j = Some u -> sends k u = true -> sender_ok o u }.

Record awaiting net ts k (o : Origin) (e : list ReplicaProgress) : Prop := {
  aw_progress : progress_map_ net !! k = Some e;
  aw_length : length e = length (fates o);
  aw_accounted rid f rp : fates o !! rid = Some f -> e !! rid = Some rp ->
    (accounted rp = true <-> f = Skipped \/ f = Unsent \/ (k, rid) ∈ heard net);
  aw_sends : count (sends k) ts = 0;
  aw_subtasks : Subtasks o = length (fates o);
  aw_completed : CompletedReplicas o + count (counts k) ts + count is_unsent (fates o) = count accounted e }.

Record gathered net ts k (o : Origin) : Prop := {
  gt_copies : fates o <> [];
  gt_complete j u : ts !! j = Some u -> completes k u = true -> all_in net k o;
  gt_closed : k ∉ send_map_ net -> all_in net k o;
  gt_open : k ∈ send_map_ net -> registering net ts k o \/ exists e, awaiting net ts k o e;
  gt_last : k ∈ send_map_ net -> CompletedReplicas o = length (fates o) -> count (completes k) ts <> 0 }.

Record unknown net ts k : Prop := {
  uk_map : k ∉ send_map_ net;
  uk_progress : progress_map_ net !! k = None;
  uk_heard rid : (k, rid) ∉ heard net;
  uk_threads j u : ts !! j = Some u -> subject u <> Some k }.

Definition gather_ok net ts k : Prop := match objects net !! k with Some o => gathered net ts k o | None => unknown net ts k end.

Lemma subject_plain k t : subject t <> Some k -> plain k t.
Proof.
  intros H. assert (forall k', subject t = Some k' -> k' <> k) as Hk by congruence.
  unfold plain. destruct t as [|k' ?|k' ? ?|k' ?|k' ?|k'|k' ?|k' [[]|]|k' [[]|]|k' [[]|]]; cbn in *; try done; specialize (Hk k' eq_refl); rewrite ?bool_decide_eq_false_2 by congruence; done.
Qed.
Lemma held_subject t k : held t = Some k -> subject t = Some k.
Proof. by destruct t. Qed.
Lemma closing_subject k t : closing k t = true -> subject t = Some k.
Proof. intros H. by apply held_subject, closing_held. Qed.

(** A step that does not change where the copies of [k] stand. *)
Definition alike k t t' : Prop :=
  sends k t = false /\ sends k t' = false /\ counts k t' = counts k t /\ completes k t = false /\ completes k t' = false.
Lemma plain_alike k t t' : plain k t -> plain k t' -> alike k t t'.
Proof. intros (? & ? & ?) (? & ? & ?). unfold alike. by split_and!; [..|congruence| |]. Qed.
Lemma gather_frame net ts net' i t t' k : ts !! i = Some t -> objects net' !! k = objects net !! k -> (k ∈ send_map_ net' <-> k ∈ send_map_ net) ->
  progress_map_ net' !! k = progress_map_ net !! k -> (forall rid, (k, rid) ∈ heard net' <-> (k, rid) ∈ heard net) ->
  alike k t t' -> (subject t' = Some k -> is_Some (objects net !! k)) -> gather_ok net ts k -> gather_ok net' (<[i := t']> ts) k.
Proof.
  intros Hi Eo Em Ep Eh (Hs & Hs' & Hc' & Hf & Hf') Hsub. unfold gather_ok. rewrite Eo.
  pose proof (count_insert (sends k) ts i t t' Hi) as Cs. rewrite Hs, Hs' in Cs. pose proof (count_insert (counts k) ts i t t' Hi) as Cc. rewrite Hc' in Cc.
  pose proof (count_insert (completes k) ts i t t' Hi) as Cf. rewrite Hf, Hf' in Cf. cbn in Cs, Cc, Cf.
  destruct (objects net !! k) as [o|].
  - assert (forall net1 net2, (forall rid, (k, rid) ∈ heard net1 <-> (k, rid) ∈ heard net2) -> all_in net2 k o -> all_in net1 k o) as Hall.
    { intros net1 net2 E Ha rid f Hl. rewrite E. by apply Ha. }
    intros [G1 G2 G3 G4 G5]. split; [done| | | |].
    + intros j u [[-> ->]|[_ Hj]]%(lookup_moved _ _ _ _ _ _ Hi) Hu; [congruence|]. eapply Hall; [exact Eh|by eapply G2].
    + rewrite Em. intros Hk. eapply Hall; [exact Eh|by apply G3].
    + rewrite Em. intros Hk. destruct (G4 Hk) as [[R1 R2 R3 R4 R5]|(e & [A1 A2 A3 A4 A5 A6])].
      * left. split; [by rewrite Ep|by setoid_rewrite Eh|lia|lia|]. intros j u [[-> ->]|[_ Hj]]%(lookup_moved _ _ _ _ _ _ Hi) Hu; [congruence|by eapply R5].
      * right. exists e. split; [by rewrite Ep|done| |lia|done|lia]. intros rid f rp Hl He. rewrite Eh. by apply A3.
    + rewrite Em. intros Hk Hn. specialize (G5 Hk Hn). lia.
  - intros [U1 U2 U3 U4]. split; [by rewrite Em|by rewrite Ep|by setoid_rewrite Eh|].
    intros j u [[-> ->]|[_ Hj]]%(lookup_moved _ _ _ _ _ _ Hi); [intros E; by destruct (Hsub E)|by apply U4 in Hj].
Qed.

(** An origin that is no longer awaited. *)
Lemma gather_closed net ts k o : objects net !! k = Some o -> k ∉ send_map_ net -> fates o <> [] -> all_in net k o -> gather_ok net ts k.
Proof. intros Ho Hk Hf Ha. unfold gather_ok. rewrite Ho. by split. Qed.

(** The last copy was counted. *)
Lemma all_counted net ts k o e : awaiting net ts k o e -> fates o <> [] -> count accounted e - count is_unsent (fates o) = length (fates o) -> all_in net k o.
Proof.
  intros [_ Hl Ha _ _ Hc] Hne Hn. pose proof (count_length accounted e) as Hle. rewrite Hl in Hle. assert (length (fates o) <> 0) as Hpos by (by destruct (fates o)).
  assert (count accounted e = length e /\ count is_unsent (fates o) = 0) as [Hacc Hun] by lia.
  intros rid f Hf. destruct (lookup_lt_is_Some_2 e rid) as [rp Hrp]; [rewrite Hl; by eapply lookup_lt_Some|].
  assert (accounted rp = true) as Hrpa.
  { destruct (accounted rp) eqn:E; [done|]. pose proof (count_room accounted e rid rp (mkReplica None true) Hrp eq_refl) as Hr. rewrite E in Hr. cbn in Hr. lia. }
  apply (Ha rid f rp Hf Hrp) in Hrpa as [->|[->|Hh]]; [by left| |right].
  - by apply (count_zero is_unsent _ _ _ Hun) in Hf.
  - split; [|done]. intros ->. by apply (count_zero is_unsent _ _ _ Hun) in Hf.
Qed.

(** The origin that a step concerns. *)
Definition concern l t : option key :=
  match t with
  | Idle => match l with Go => None | SendOrigin k _ | Reply k _ | Gone k _ | Flush k | Free k => Some k end
  | _ => subject t
  end.

Lemma mark_other net k rid k' : k' <> k -> let net' := fst (MarkReplicaAccounted net k rid) in
  progress_map_ net' !! k' = progress_map_ net !! k' /\ forall rid', (k', rid') ∈ heard net' <-> (k', rid') ∈ heard net.
Proof.
  intros Hne. cbv zeta. unfold MarkReplicaAccounted. repeat case_match; cbn; rewrite ?lookup_insert_ne by done; (split; [done|]); set_solver.
Qed.

Lemma other_origins l ts net t net' t' k : concern l t <> Some k -> thread_step l ts net t = (net', t') ->
  objects net' !! k = objects net !! k /\ (k ∈ send_map_ net' <-> k ∈ send_map_ net) /\ progress_map_ net' !! k = progress_map_ net !! k /\
  (forall rid, (k, rid) ∈ heard net' <-> (k, rid) ∈ heard net) /\ subject t <> Some k /\ subject t' <> Some k.
Proof.
  assert (forall k' r, k' <> k -> subject (resume k' r) <> Some k) as Hres by (intros k' [[]|]; cbn; congruence).
  destruct t as [|k' todo|k' [|f todo] targets|k' rid|k' rid|k'|k' gone|k' r|k' r|k' r]; cbn [concern subject held thread_step]; intros Hc Hs;
    [|assert (k' <> k) as Hne by congruence..].
  - destruct l as [|k' fs|k' rid|k' rid|k'|k']; cbn [start concern] in Hc, Hs; [by injection Hs as <- <-|..].
    all: assert (k' <> k) as Hne by congruence.
    + case_decide; injection Hs as <- <-; [|done]. cbn. rewrite lookup_insert_ne by done. split_and!; try done; try congruence; set_solver.
    + injection Hs as <- <-. split_and!; try done. case_match; cbn; congruence.
    + pose proof (mark_same net k' rid) as [Es Eo]. pose proof (mark_other net k' rid k ltac:(done)) as [Ep Eh].
      destruct (MarkReplicaAccounted net k' rid) as [net1 mine]. injection Hs as <- <-. cbn in *. rewrite Es, Eo. split_and!; try done. destruct mine; cbn; congruence.
    + injection Hs as <- <-. split_and!; try done. case_decide; cbn; congruence.
    + case_decide; injection Hs as <- <-; [|done]. cbn. rewrite lookup_delete_ne by done. done.
  - injection Hs as <- <-. cbn. rewrite lookup_alter_ne by done. split_and!; done.
  - injection Hs as <- <-. cbn. rewrite lookup_insert_ne by done. split_and!; done.
  - unfold SendIn_copy, count_replica in Hs. destruct f; cbn in Hs; injection Hs as <- <-; cbn; rewrite ?lookup_alter_ne by done; split_and!; try done.
    repeat case_match; cbn; congruence.
  - injection Hs as <- <-. split_and!; try done. case_match; cbn; congruence.
  - pose proof (mark_same net k' rid) as [Es Eo]. pose proof (mark_other net k' rid k ltac:(done)) as [Ep Eh].
    destruct (MarkReplicaAccounted net k' rid) as [net1 mine]. injection Hs as <- <-. cbn in *. rewrite Es, Eo. split_and!; try done. destruct mine; cbn; congruence.
  - injection Hs as <- <-. split_and!; try done. case_decide; cbn; congruence.
  - cbn in Hs. injection Hs as <- <-. destruct gone; cbn; rewrite ?lookup_alter_ne by done; split_and!; try done; repeat case_match; cbn; congruence.
  - unfold ClaimOrigin in Hs. injection Hs as <- <-. cbn. rewrite lookup_delete_ne by done. split_and!; try done; try set_solver.
    case_bool_decide; [cbn; congruence|by apply Hres].
  - injection Hs as <- <-. cbn. rewrite lookup_alter_ne by done. split_and!; done.
  - injection Hs as <- <-. cbn. rewrite lookup_alter_ne by done. split_and!; try done. by apply Hres.
Qed.

(** A copy whose accounting is claimed is on its way to be counted. *)
Lemma gather_mark net ts i t k rid net' mine t' : ts !! i = Some t -> plain k t -> tracked net k rid ->
  MarkReplicaAccounted net k rid = (net', mine) -> sends k t' = false -> completes k t' = false -> counts k t' = mine ->
  gather_ok net ts k -> gather_ok net' (<[i := t']> ts) k.
Proof.
  intros Hi (Hs & Hc & Hf) [[o Ho] Htr] Hm Hs' Hf' Hc'. pose proof (mark_same net k rid) as [Es Eo]. rewrite Hm in Es, Eo. cbn in Es, Eo.
  unfold gather_ok at 1. rewrite Ho. intros [G1 G2 G3 G4 G5].
  assert (heard net ⊆ heard net') as Hsub.
  { unfold MarkReplicaAccounted in Hm. repeat case_match; simplify_eq; cbn; set_solver. }
  assert (all_in net k o -> all_in net' k o) as Hall.
  { intros Ha rid' f Hl. destruct (Ha rid' f Hl) as [->|[Hu Hh]]; [by left|right]. split; [done|]. by apply Hsub. }
  destruct (decide (k ∈ send_map_ net)) as [Hk|Hk]; [|apply (gather_closed _ _ _ o); [by rewrite Eo|by rewrite Es|done|by auto]].
  destruct (Htr Hk) as (e & He & Hlt). destruct (G4 Hk) as [[R1 _ _ _ _]|(e' & [A1 A2 A3 A4 A5 A6])]; [congruence|].
  rewrite He in A1. injection A1 as <-. destruct (lookup_lt_is_Some_2 e rid Hlt) as [rp Hrp].
  unfold MarkReplicaAccounted in Hm. rewrite He, Hrp in Hm.
  pose proof (count_insert (sends k) ts i t t' Hi) as Cs. rewrite Hs, Hs' in Cs. pose proof (count_insert (completes k) ts i t t' Hi) as Cf. rewrite Hf, Hf' in Cf.
  pose proof (count_insert (counts k) ts i t t' Hi) as Cc. rewrite Hc, Hc' in Cc. cbn in Cs, Cc, Cf.
  unfold gather_ok. rewrite Eo, Ho. split; [done| |by rewrite Es| |rewrite Es; intros _ Hn; specialize (G5 Hk Hn); lia].
  { intros j u [[-> ->]|[_ Hj]]%(lookup_moved _ _ _ _ _ _ Hi) Hu; [congruence|]. apply Hall. by eapply G2. }
  intros _. right. destruct (accounted rp) eqn:Eacc; injection Hm as <- <-.
  - exists e. cbn in Cc. split; [done..|lia|done|lia].
  - eexists. pose proof (count_insert accounted e rid rp (mkReplica (target_node_id rp) true) Hrp) as Ca. rewrite Eacc in Ca. cbn in Cc, Ca.
    split; cbn; [by rewrite lookup_insert_eq|by rewrite length_insert| |lia|done|lia].
    intros rid' f rp' Hl [[-> ->]|[Hne Hl']]%(lookup_moved _ _ _ _ _ _ Hrp); [set_solver|].
    rewrite (A3 rid' f rp' Hl Hl'). set_solver.
Qed.

Lemma sends_subject k t : sends k t = true -> subject t = Some k.
Proof. destruct t as [| | | | | | |? [[]|]|? [[]|]|? [[]|]]; cbn; try done; by intros ->%bool_decide_eq_true. Qed.
Lemma counts_subject k t : counts k t = true -> subject t = Some k.
Proof. destruct t; cbn; try done; by intros ->%bool_decide_eq_true. Qed.

Lemma unsent_split fs : count (fun f => is_unsent f || is_skipped f) fs = count is_unsent fs + count is_skipped fs.
Proof. induction fs as [|[] fs IH]; [done|..]; unfold count in *; cbn; lia. Qed.
Lemma tally_app {T} (p : T -> bool) xs ys : count p (xs ++ ys) = count p xs + count p ys.
Proof. unfold count. by rewrite List.filter_app, length_app. Qed.

(** Registering marks the copies that were not given to a node as accounted for. *)
Definition registered fs : list ReplicaProgress :=
  map (fun target => mkReplica target (match target with Some _ => false | None => true end)) (map target_of fs).
Lemma registered_lookup fs rid rp : registered fs !! rid = Some rp -> exists f, fs !! rid = Some f /\ (accounted rp = true <-> f = Skipped \/ f = Unsent).
Proof.
  unfold registered. rewrite map_map. change (map ?g fs) with (g <$> fs). rewrite list_lookup_fmap. intros (f & Hf & ->)%fmap_Some. exists f. split; [done|].
  destruct f; cbn; split; try done; try (by auto); by intros [].
Qed.
Lemma registered_count fs : count accounted (registered fs) = count is_unsent fs + count is_skipped fs.
Proof.
  rewrite <- unsent_split. unfold count, registered. rewrite map_map. induction fs as [|f fs IH]; [done|]. cbn. by destruct f; cbn; rewrite ?IH.
Qed.

(** [SendIn] has finished with the copies. *)
Lemma gather_register net ts i k targets : ts !! i = Some (Copies k [] targets) -> gather_ok net ts k -> is_Some (objects net !! k) ->
  gather_ok (RegisterOriginProgress net k targets) (<[i := Idle]> ts) k.
Proof.
  intros Hi Hg [o Ho]. unfold gather_ok in *. cbn. rewrite Ho in *. pose proof (count_insert (sends k) ts i _ Idle Hi) as Cs. pose proof (count_insert (counts k) ts i _ Idle Hi) as Cc.
  pose proof (count_insert (completes k) ts i _ Idle Hi) as Cf. cbn in Cs, Cc, Cf. rewrite bool_decide_eq_true_2 in Cs by done. cbn in Cs.
  destruct Hg as [G1 G2 G3 G4 G5]. split; [done| |done| |cbn; intros Hk Hn; specialize (G5 Hk Hn); lia].
  { intros j u [[-> ->]|[_ Hj]]%(lookup_moved _ _ _ _ _ _ Hi) Hu; [done|by eapply (G2 j u)]. }
  cbn. intros Hk. right. destruct (G4 Hk) as [[R1 R2 R3 R4 R5]|(e & [_ _ _ A4 _ _])]; [|lia].
  destruct (R5 i _ Hi) as (fs & Hfs & -> & Hsub & Hcomp); [cbn; by rewrite bool_decide_eq_true_2|]. rewrite app_nil_r in Hfs. subst fs.
  exists (registered (fates o)). split; cbn; [by rewrite lookup_insert_eq|unfold registered; by rewrite !length_map| |lia|done|rewrite registered_count; lia].
  intros rid f rp Hf Hrp. destruct (registered_lookup _ _ _ Hrp) as (f' & Hf' & ->). rewrite Hf in Hf'. injection Hf' as <-. specialize (R2 rid). tauto.
Qed.

(** [SendIn] goes on with the copies. *)
Lemma gather_sends net ts i k t t' f : ts !! i = Some t -> sends k t = true -> sends k t' = true ->
  objects net !! k <> None -> (forall o, fates (f o) = fates o) -> (k ∈ send_map_ net -> completes k t = false) ->
  (forall o, objects net !! k = Some o -> k ∈ send_map_ net -> sender_ok o t -> sender_ok (f o) t' /\ (completes k t' = true -> all_in net k (f o)) /\
     (CompletedReplicas (f o) = length (fates o) -> CompletedReplicas o <> length (fates o) -> completes k t' = true)) ->
  gather_ok net ts k -> gather_ok (update k f net) (<[i := t']> ts) k.
Proof.
  intros Hi Hs Hs' Hobj Hfates Hnc Hf. unfold gather_ok. cbn. rewrite lookup_alter_eq. destruct (objects net !! k) as [o|] eqn:Ho; [|done]. cbn. clear Hobj.
  intros Hg. assert (all_in net k o -> all_in (update k f net) k (f o)) as Hall by (intros Ha rid x; rewrite Hfates; by apply Ha).
  pose proof (gt_copies _ _ _ _ Hg) as G1. destruct (decide (k ∈ send_map_ net)) as [Hk|Hk].
  2: { pose proof (gt_closed _ _ _ _ Hg Hk) as Ha. split; [by rewrite Hfates|by auto|by auto|done|done]. }
  destruct Hg as [_ G2 G3 G4 G5]. specialize (Hnc Hk).
  pose proof (count_insert (sends k) ts i t t' Hi) as Cs. rewrite Hs, Hs' in Cs. pose proof (count_insert (counts k) ts i t t' Hi) as Cc.
  assert (forall u, sends k u = true -> counts k u = false) as Hnot by (by intros []).
  rewrite !Hnot in Cc by done. pose proof (count_insert (completes k) ts i t t' Hi) as Cf. rewrite Hnc in Cf. cbn in Cs, Cc, Cf.
  destruct (G4 Hk) as [[R1 R2 R3 R4 R5]|(e & [_ _ _ A4 _ _])]; [|by rewrite (count_zero _ _ _ _ A4 Hi) in Hs].
  destruct (Hf o eq_refl Hk (R5 i t Hi Hs)) as (Hok & Hin & Hlast).
  split; [by rewrite Hfates| |done| |].
  - intros j u [[-> ->]|[_ Hj]]%(lookup_moved _ _ _ _ _ _ Hi) Hu; [by apply Hin|]. apply Hall. by eapply G2.
  - intros _. left. split; cbn; [done..|lia|lia|]. intros j u [[-> ->]|[Hne Hj]]%(lookup_moved _ _ _ _ _ _ Hi) Hu; [done|].
    pose proof (count_insert (sends k) ts j u Idle Hj) as C1. rewrite Hu in C1. cbn in C1.
    assert (<[j := Idle]> ts !! i = Some t) as Hi' by (by rewrite list_lookup_insert_ne).
    assert (count (sends k) (<[j := Idle]> ts) = 0) as Hz by lia. pose proof (count_zero (sends k) _ i t Hz Hi'). congruence.
  - rewrite Hfates. intros _ Hn. destruct (decide (CompletedReplicas o = length (fates o))) as [E|E]; [specialize (G5 Hk E); lia|].
    rewrite (Hlast Hn E) in Cf. cbn in Cf. lia.
Qed.

(** A copy is counted. *)
Lemma gather_count net ts i k gone : ts !! i = Some (Count k gone) -> is_Some (objects net !! k) ->
  let '(net', t') := thread_step Go ts net (Count k gone) in gather_ok net ts k -> gather_ok net' (<[i := t']> ts) k.
Proof.
  intros Hi [o Ho]. cbn -[Nat.eqb]. set (net1 := if gone then update k set_timeout net else net).
  assert (exists o1, objects net1 !! k = Some o1 /\ fates o1 = fates o /\ Subtasks o1 = Subtasks o /\ CompletedReplicas o1 = CompletedReplicas o) as (o1 & Ho1 & Ef1 & Es1 & Ec1).
  { subst net1. destruct gone; cbn; [rewrite lookup_alter_eq|]; rewrite Ho; cbn; eauto. }
  assert (send_map_ net1 = send_map_ net /\ progress_map_ net1 = progress_map_ net /\ heard net1 = heard net) as (Em & Ep & Eh) by (by subst net1; destruct gone).
  clearbody net1. rewrite Ho1. unfold gather_ok. cbn -[Nat.eqb]. rewrite lookup_alter_eq, Ho1, Ho. cbn -[Nat.eqb]. rewrite Es1, Ec1.
  set (t' := if S (CompletedReplicas o) =? Subtasks o then Complete k None else Idle). intros Hg.
  assert (all_in net k o -> all_in (update k add_completed net1) k (add_completed o1)) as Hall.
  { intros Ha rid f. cbn. rewrite Ef1, Eh. apply Ha. }
  pose proof (gt_copies _ _ _ _ Hg) as G1. destruct (decide (k ∈ send_map_ net)) as [Hk|Hk].
  2: { pose proof (gt_closed _ _ _ _ Hg Hk) as Ha. split; cbn; [by rewrite Ef1|by auto|by auto|by rewrite Em|by rewrite Em]. }
  destruct Hg as [_ G2 G3 G4 G5]. pose proof (count_insert (counts k) ts i _ t' Hi) as Cc. pose proof (count_insert (sends k) ts i _ t' Hi) as Cs.
  pose proof (count_insert (completes k) ts i _ t' Hi) as Cf.
  assert (counts k (Count k gone) = true) as Hck by (cbn; by rewrite bool_decide_eq_true_2). rewrite Hck in Cc. cbn in Cs, Cc, Cf.
  destruct (G4 Hk) as [[_ _ R3 _ _]|(e & Haw)]; [by rewrite (count_zero _ _ _ _ R3 Hi) in Hck|]. pose proof Haw as [A1 A2 A3 A4 A5 A6].
  assert (counts k t' = false /\ sends k t' = false /\ completes k t' = (S (CompletedReplicas o) =? Subtasks o)) as (Ect & Est & Eft).
  { subst t'. case_match; cbn; [by rewrite bool_decide_eq_true_2|done]. }
  clearbody t'. rewrite Ect in Cc. rewrite Est in Cs. rewrite Eft in Cf. cbn in Cc, Cs.
  assert (S (CompletedReplicas o) = Subtasks o -> all_in net k o) as Hlast.
  { intros E. apply (all_counted net ts k o e Haw G1). pose proof (count_length accounted e). lia. }
  split; cbn; [by rewrite Ef1| |by rewrite Em| |].
  - intros j u [[-> ->]|[_ Hj]]%(lookup_moved _ _ _ _ _ _ Hi) Hu; apply Hall; [|by eapply G2]. rewrite Eft in Hu. by apply Hlast, Nat.eqb_eq.
  - intros _. right. exists e. split; cbn; [by rewrite Ep|by rewrite Ef1| |lia|by rewrite Es1, Ef1|rewrite Ec1, Ef1; lia].
    intros rid f rp. rewrite Ef1, Eh. apply A3.
  - intros _. rewrite Ec1, Ef1. intros Hn. rewrite (proj2 (Nat.eqb_eq (S (CompletedReplicas o)) (Subtasks o))) in Cf by lia. cbn in Cf. lia.
Qed.

Lemma count_all {T} (p : T -> bool) xs i x : count p xs = length xs -> xs !! i = Some x -> p x = true.
Proof.
  revert i. induction xs as [|y xs IH]; intros i Hc Hi; [done|]. change (y :: xs) with ([y] ++ xs) in Hc. rewrite tally_app, length_app in Hc.
  pose proof (count_length p xs). pose proof (count_length p [y]). cbn [length] in *. destruct i; [|apply (IH i); [lia|done]].
  injection Hi as ->. assert (count p [x] = 1) as E by lia. unfold count in E. cbn in E. by destruct (p x).
Qed.

Lemma update_id k net : update k id net = net.
Proof. destruct net. unfold update. cbn. f_equal. apply map_eq. intros k'. rewrite lookup_alter. case_decide; subst; [|done]. by rewrite option_fmap_id. Qed.

(** The next copy. *)
Lemma gather_copy net ts i k f todo targets : ts !! i = Some (Copies k (f :: todo) targets) -> is_Some (objects net !! k) ->
  let '(net', t') := SendIn_copy net k f todo targets in gather_ok net ts k -> gather_ok net' (<[i := t']> ts) k.
Proof.
  intros Hi [o Ho]. assert (objects net !! k <> None) as Hobj by congruence.
  assert (sends k (Copies k (f :: todo) targets) = true) as Hs by (cbn; by rewrite bool_decide_eq_true_2).
  assert (forall o, treated o (f :: todo) targets -> f <> Skipped -> treated o todo (targets ++ [target_of f])) as Hnext.
  { intros o' (fs & Ef & -> & Es & Ec) Hf. exists (fs ++ [f]). rewrite map_app, tally_app, <- app_assoc. split_and!; [done..|]. rewrite Ec. replace (count is_skipped [f]) with 0 by (by destruct f). lia. }
  assert (f <> Skipped -> gather_ok net ts k -> gather_ok net (<[i := Copies k todo (targets ++ [target_of f])]> ts) k) as Hplain.
  { intros Hf Hg. rewrite <- (update_id k net) at 1. apply (gather_sends net ts i k _ _ id Hi Hs); try done. intros o' _ _ Ht.
    split_and!; try done. by apply Hnext. }
  unfold SendIn_copy. destruct f as [node| |]; [by apply Hplain| |by apply Hplain].
  unfold count_replica. rewrite Ho. set (last := S (CompletedReplicas o) =? Subtasks o).
  apply (gather_sends net ts i k _ _ add_completed Hi Hs); try done.
  - destruct last; cbn; by rewrite bool_decide_eq_true_2.
  - intros o' Ho' _ (fs & Ef & -> & Es & Ec). rewrite Ho in Ho'. injection Ho' as <-.
    assert (count is_skipped (fs ++ [Skipped]) = S (count is_skipped fs)) as E1 by (rewrite tally_app; unfold count; cbn; lia).
    assert (treated (add_completed o) todo (map target_of fs ++ [None])) as Ht.
    { exists (fs ++ [Skipped]). rewrite map_app, <- app_assoc. cbn. rewrite E1. by split_and!; [..|congruence]. }
    subst last. destruct (Nat.eqb_spec (S (CompletedReplicas o)) (Subtasks o)) as [E|E]; split_and!; try done.
    + intros _ rid f Hl. left. cbn in Hl. pose proof (count_length is_skipped (fs ++ [Skipped])) as Hle. rewrite Es, Ef, Ec, <- E1, length_app in E.
      rewrite length_app in Hle. cbn in Hle, E. destruct todo; [|cbn in E; lia]. rewrite Ef in Hl.
      assert (is_skipped f = true) as Hsk; [|by destruct f]. eapply count_all; [|exact Hl]. rewrite length_app. cbn. lia.
    + cbn. intros E' _. rewrite Es in E. lia.
Qed.

(** The origin is being closed. *)
Lemma gather_close net ts net' ts' i t k : once_ok (mkWorld net ts) -> ts !! i = Some t -> held t = Some k -> gather_ok net ts k ->
  (k ∉ send_map_ net \/ completes k t = true) -> (forall o, objects net !! k = Some o -> exists o', objects net' !! k = Some o' /\ fates o' = fates o) ->
  k ∉ send_map_ net' -> heard net' = heard net -> gather_ok net' ts' k.
Proof.
  intros Hon Hi Ht Hg Hk Hobj Hk' Hh. destruct (on_held _ Hon i t k Hi Ht) as [o Ho]. cbn in Ho. destruct (Hobj o Ho) as (o' & Ho' & Ef).
  unfold gather_ok in Hg. rewrite Ho in Hg. apply (gather_closed _ _ _ o'); [done..|rewrite Ef; by apply (gt_copies _ _ _ _ Hg)|].
  assert (all_in net k o) as Ha by (destruct Hk; [by apply (gt_closed _ _ _ _ Hg)|by apply (gt_complete _ _ _ _ Hg i t)]).
  intros rid f. rewrite Ef, Hh. apply Ha.
Qed.

Lemma closing_not_in_map net ts i t k : once_ok (mkWorld net ts) -> ts !! i = Some t -> closing k t = true -> k ∉ send_map_ net.
Proof.
  intros Hon Hi Ht Hk. destruct (on_map _ Hon k Hk) as [o Ho]. pose proof (on_once _ Hon k o Ho) as E. cbn in E.
  rewrite bool_decide_eq_true_2 in E by done. assert (count (closing k) ts <> 0) as Hn; [|cbn in E; lia]. intros Hz. by rewrite (count_zero _ _ _ _ Hz Hi) in Ht.
Qed.

Lemma gather_send net ts i k fs : ts !! i = Some Idle -> objects net !! k = None -> fs <> [] -> gather_ok net ts k ->
  gather_ok (mkNet ({[k]} ∪ send_map_ net) (progress_map_ net) (<[k := mkOrigin fs 0 0 0 false]> (objects net)) (heard net)) (<[i := Resize k fs]> ts) k.
Proof.
  intros Hi Hn Hfs. unfold gather_ok. rewrite Hn. cbn. rewrite lookup_insert_eq. intros [U1 U2 U3 U4].
  assert (forall p : thread -> bool, (forall u, p u = true -> subject u = Some k) -> count p ts = 0) as Hz.
  { intros p Hp. apply count_none. intros j u Hj. destruct (p u) eqn:E; [|done]. by apply Hp, (U4 j) in E. }
  pose proof (count_insert (sends k) ts i _ (Resize k fs) Hi) as Cs. pose proof (count_insert (counts k) ts i _ (Resize k fs) Hi) as Cc.
  rewrite Hz in Cs by apply sends_subject. rewrite Hz in Cc by apply counts_subject. cbn in Cs, Cc. rewrite bool_decide_eq_true_2 in Cs by done. cbn in Cs.
  assert (forall j u, <[i := Resize k fs]> ts !! j = Some u -> subject u = Some k -> u = Resize k fs) as Honly.
  { intros j u [[-> ->]|[_ Hj]]%(lookup_moved _ _ _ _ _ _ Hi) Hu; [done|by apply U4 in Hj]. }
  split; cbn; [done| |set_solver| |by destruct fs].
  - intros j u Hj Hu. rewrite (Honly j u Hj) in Hu; [done|]. apply held_subject. destruct u; try done. cbn in Hu |- *. by apply bool_decide_eq_true in Hu as ->.
  - intros _. left. split; cbn; [done..|lia|lia|]. intros j u Hj Hu%sends_subject. by rewrite (Honly j u Hj Hu).
Qed.

Lemma gather_step net ts i l t net' t' k : once_ok (mkWorld net ts) -> (forall k, gather_ok net ts k) -> ts !! i = Some t -> orderly net l t ->
  thread_step l ts net t = (net', t') -> gather_ok net' (<[i := t']> ts) k.
Proof.
  intros Hon Hg Hi Hord Hs. pose proof (on_held _ Hon i t) as Hheld. cbn in Hheld.
  destruct (decide (concern l t = Some k)) as [Hc|Hc].
  2: { destruct (other_origins l ts net t net' t' k Hc Hs) as (Eo & Em & Ep & Eh & Ht & Ht').
       apply (gather_frame net ts net' i t t' k); try done. apply plain_alike; by apply subject_plain. }
  specialize (Hg k). assert (forall u, subject u = Some k -> is_Some (objects net !! k) -> plain k t -> plain k u -> net' = net -> t' = u -> gather_ok net' (<[i := t']> ts) k) as Hsame.
  { intros u Hu Hobj Hp Hp' -> ->. apply (gather_frame net ts net i t u k); try done. by apply plain_alike. }
  destruct t as [|k' todo|k' [|f todo] targets|k' rid|k' rid|k'|k' gone|k' r|k' r|k' r]; cbn [concern subject held] in Hc; try (injection Hc as ->).
  - assert (gather_ok net (<[i := Idle]> ts) k) as Hidle by (by rewrite list_insert_id).
    cbn [thread_step start] in Hs. destruct l as [|k' fs|k' rid|k' rid|k'|k']; cbn [start] in Hc, Hs; try done; injection Hc as ->.
    + case_decide as Hn; injection Hs as <- <-; [|done]. destruct Hn as [Hn Hfs]. by apply gather_send.
    + destruct (replica_in_range net k rid) eqn:E; injection Hs as <- <-; [|done]. apply (Hsame (Aggregate k rid)); try done.
      unfold replica_in_range in E. by destruct (objects net !! k).
    + destruct (MarkReplicaAccounted net k rid) as [net1 mine] eqn:Em. injection Hs as <- <-.
      eapply (gather_mark net ts i Idle k rid _ mine); try done; try (by destruct mine). destruct mine; [|done]. cbn. by rewrite bool_decide_eq_true_2.
  - injection Hs as <- <-. apply (gather_sends net ts i k _ _ resize_copies Hi); try done; try (cbn; by rewrite bool_decide_eq_true_2).
    + by destruct (Hheld k Hi eq_refl) as [o ->].
    + intros o _ _ [Ef Ec]. split_and!; [|done..]. by exists [].
  - injection Hs as <- <-. apply gather_register; [done..|by apply Hheld].
  - cbn [thread_step] in Hs. pose proof (gather_copy net ts i k f todo targets Hi (Hheld k Hi eq_refl)) as H. rewrite Hs in H. by apply H.
  - cbn in Hs. injection Hs as <- <-. destruct (replica_in_range net k rid) eqn:E.
    + apply (Hsame (Account k rid)); try done. unfold replica_in_range in E. by destruct (objects net !! k).
    + by apply (gather_frame net ts net i (Aggregate k rid) Idle k).
  - cbn [thread_step] in Hs. destruct (MarkReplicaAccounted net k rid) as [net1 mine] eqn:Em. injection Hs as <- <-.
    eapply (gather_mark net ts i (Account k rid) k rid _ mine); try done; try (by destruct mine). destruct mine; [|done]. cbn. by rewrite bool_decide_eq_true_2.
  - cbn [thread_step] in Hs. injection Hs as <- <-. assert (exists o, objects net !! k = Some o) as [o Ho].
    { unfold gather_ok in Hg. destruct (objects net !! k); [by eauto|]. by apply (uk_threads _ _ _ Hg) in Hi. }
    destruct (decide (k ∈ send_map_ net)) as [Hk|Hk].
    + by apply (gather_frame net ts net i (LookUp k) (Count k true) k).
    + unfold gather_ok in Hg. rewrite Ho in Hg. apply (gather_closed _ _ _ o); [done..|by apply (gt_copies _ _ _ _ Hg)|by apply (gt_closed _ _ _ _ Hg)].
  - pose proof (gather_count net ts i k gone Hi (Hheld k Hi eq_refl)) as H. change (thread_step Go ts net (Count k gone)) with (thread_step l ts net (Count k gone)) in H.
    rewrite Hs in H. by apply H.
  - cbn in Hs. injection Hs as <- <-. eapply (gather_close net ts _ _ i _ k Hon Hi); try done; cbn; [right; by rewrite bool_decide_eq_true_2|by eauto|set_solver].
  - assert (closing k (Clear k r) = true) as Hcl by (cbn; by rewrite bool_decide_eq_true_2). pose proof (closing_not_in_map _ _ _ _ _ Hon Hi Hcl) as Hk.
    injection Hs as <- <-. eapply (gather_close net ts _ _ i _ k Hon Hi); try done; cbn; [by left|]. intros o Ho. rewrite lookup_alter_eq, Ho. cbn. by eauto.
  - assert (closing k (Finish k r) = true) as Hcl by (cbn; by rewrite bool_decide_eq_true_2). pose proof (closing_not_in_map _ _ _ _ _ Hon Hi Hcl) as Hk.
    injection Hs as <- <-. eapply (gather_close net ts _ _ i _ k Hon Hi); try done; cbn; [by left|]. intros o Ho. rewrite lookup_alter_eq, Ho. cbn. by eauto.
Qed.

Lemma init_gather n k : gather_ok (w_net (world_init n)) (w_threads (world_init n)) k.
Proof. unfold gather_ok. cbn. rewrite lookup_empty. split; try done. by intros j u [-> _]%lookup_replicate. Qed.

Lemma orderly_ok w : orderly_reachable w -> reachable w /\ forall k, gather_ok (w_net w) (w_threads w) k.
Proof.
  intros [n Hr]. assert (reachable w /\ once_ok w /\ forall k, gather_ok (w_net w) (w_threads w) k) as (? & _ & ?); [|done]. pattern w. eapply rtc_ind_r; [| |exact Hr].
  - split_and!; [exists n; constructor|apply init_once|apply init_gather].
  - intros [net ts] w' _ (i & l & t & Hi & Hord & Hm) ([m Hreach] & Hon & Hg). cbn in *. assert (reachable w') as Hreach'.
    { exists m. eapply rtc_r; [exact Hreach|]. by exists i, l. }
    split; [done|]. split; [by apply reachable_once|]. unfold move in Hm. cbn in Hm. rewrite Hi in Hm. destruct (thread_step l ts net t) as [net' t'] eqn:Hs.
    injection Hm as <-. intros k. by eapply (gather_step net ts i l t).
Qed.

Lemma count_full {T} (p : T -> bool) xs : (forall i x, xs !! i = Some x -> p x = true) -> count p xs = length xs.
Proof.
  induction xs as [|x xs IH]; intros H; [done|]. change (x :: xs) with ([x] ++ xs). rewrite tally_app, length_app, IH by (intros i y Hy; by apply (H (S i))).
  unfold count. cbn. by rewrite (H 0 x).
Qed.

(** C19. A task is ended when all of its copies are in: in an orderly run, whenever
    an origin has been ended each of its copies was skipped or was answered or given
    up; and once the handlers have returned, an origin all of whose copies are in
    has been ended. *)
Theorem origins_end_when_all_in w k o : orderly_reachable w -> objects (w_net w) !! k = Some o ->
  (ended o = 1 -> all_in (w_net w) k o) /\ (Forall (fun t => t = Idle) (w_threads w) -> all_in (w_net w) k o -> ended o = 1).
Proof.
  intros Hr Ho. destruct (orderly_ok w Hr) as [Hre Hg]. pose proof (on_once _ (reachable_once w Hre) k o Ho) as Hon. specialize (Hg k). unfold gather_ok in Hg. rewrite Ho in Hg.
  destruct Hg as [G1 G2 G3 G4 G5]. split.
  - intros He. apply G3. intros Hk. rewrite bool_decide_eq_true_2 in Hon by done. cbn in Hon. lia.
  - intros Hidle Hall. rewrite Forall_lookup in Hidle. assert (forall p, p Idle = false -> count p (w_threads w) = 0) as Hz.
    { intros p Hp. apply count_none. by intros i t ->%Hidle. }
    rewrite Hz in Hon by done. destruct (decide (k ∈ send_map_ (w_net w))) as [Hk|Hk]; [|rewrite bool_decide_eq_false_2 in Hon by done; cbn in Hon; lia].
    destruct (G4 Hk) as [[_ _ _ R4 _]|(e & [A1 A2 A3 A4 A5 A6])]; [by rewrite Hz in R4|]. rewrite Hz in A6 by done. exfalso.
    apply (G5 Hk); [|by apply Hz]. rewrite (count_none is_unsent) in A6.
    2: { intros i f Hf. destruct (Hall i f Hf) as [->|[Hu _]]; [done|by destruct f]. }
    rewrite (count_full accounted) in A6; [lia|]. intros i rp Hrp. destruct (lookup_lt_is_Some_2 (fates o) i) as [f Hf]; [rewrite <- A2; by eapply lookup_lt_Some|].
    apply (A3 i f rp Hf Hrp). destruct (Hall i f Hf) as [->|[_ Hh]]; [by left|by right; right].
Qed.

(** How many steps a handler still needs. *)
Definition rank_rest r : nat := match r with Some (todo, _) => 1 + 4 * length todo | None => 0 end.
Definition rank t : nat :=
  match t with
  | Idle => 0
  | Resize _ todo => 2 + 4 * length todo
  | Copies _ todo _ => 1 + 4 * length todo
  | Aggregate _ _ => 6 | Account _ _ | LookUp _ => 5 | Count _ _ => 4
  | Complete _ r => 3 + rank_rest r | Clear _ r => 2 + rank_rest r | Finish _ r => 1 + rank_rest r
  end.

Lemma rank_resume k r : rank (resume k r) = rank_rest r.
Proof. by destruct r as [[]|]. Qed.
Lemma rank_down ts net t : t <> Idle -> rank (snd (thread_step Go ts net t)) < rank t.
Proof.
  intros Hne. destruct t as [|k todo|k [|f todo] targets|k rid|k rid|k|k gone|k r|k r|k r]; cbn; try done; try lia.
  - unfold SendIn_copy. destruct f; cbn; [lia| |lia]. repeat case_match; cbn; lia.
  - case_match; cbn; lia.
  - destruct (MarkReplicaAccounted net k rid) as [net' []]; cbn; lia.
  - case_decide; cbn; lia.
  - repeat case_match; cbn; lia.
  - case_bool_decide; [cbn; lia|rewrite rank_resume; lia].
  - rewrite rank_resume. lia.
Qed.

(** Every handler returns, without waiting for another. *)
Lemma handlers_return w i t : w_threads w !! i = Some t ->
  exists n w', n <= rank t /\ exec (replicate n (i, Go)) w = Some w' /\ w_threads w' = <[i := Idle]> (w_threads w).
Proof.
  remember (rank t) as n eqn:En. revert w t En. induction n as [n IH] using lt_wf_ind. intros w t -> Hi. destruct (decide (rank t = 0)) as [E|E].
  - exists 0, w. split_and!; [lia|done|]. symmetry. apply list_insert_id. rewrite Hi. destruct t; cbn in E; try done; lia.
  - assert (t <> Idle) as Hne by (by intros ->). pose proof (rank_down (w_threads w) (w_net w) t Hne) as Hd.
    destruct (thread_step Go (w_threads w) (w_net w) t) as [net' t'] eqn:Hs. cbn in Hd.
    destruct (IH (rank t') Hd (mkWorld net' (<[i := t']> (w_threads w))) t' eq_refl) as (n & w' & Hn & Hx & Hw).
    { cbn. apply list_lookup_insert_eq. by eapply lookup_lt_Some. }
    exists (S n), w'. split_and!; [lia| |by rewrite Hw; cbn; rewrite list_insert_insert_eq]. cbn. unfold move. by rewrite Hi, Hs.
Qed.

(** * Schedules *)

Definition go (i n : nat) : list (nat * label) := replicate n (i, Go).
(** Thread 0 sends; thread 1 handles responses, thread 2 verdicts and flushes. *)
Definition ex_send fs : list (nat * label) := (0, SendOrigin 7 fs) :: go 0 (2 + length fs).
Definition ex_reply rid : list (nat * label) := (1, Reply 7 rid) :: go 1 6.
Definition ex_gone rid : list (nat * label) := (2, Gone 7 rid) :: go 2 5.
Definition ex_exec sched : option world := exec sched (world_init 3).

Lemma sched_reachable sched w w' n : rtc step (world_init n) w -> exec sched w = Some w' -> reachable w'.
Proof.
  revert w. induction sched as [|[i l] sched IH]; intros w Hr Hx; cbn in Hx; [injection Hx as <-; by exists n|].
  destruct (move i l w) as [w1|] eqn:Hm; [|done]. apply (IH w1); [|done]. eapply rtc_r; [exact Hr|]. by exists i, l.
Qed.

(** An orderly run, checked along the way. *)
Definition tracked_now net k rid : bool :=
  match objects net !! k with
  | Some _ => if decide (k ∈ send_map_ net) then match progress_map_ net !! k with Some e => rid <? length e | None => false end else true
  | None => false
  end.
Definition orderly_now net l t : bool :=
  match t, l with
  | Idle, Gone k rid => tracked_now net k rid
  | Idle, (Flush _ | Free _) => false
  | Account k rid, _ => tracked_now net k rid
  | _, _ => true
  end.
Lemma orderly_now_ok net l t : orderly_now net l t = true -> orderly net l t.
Proof.
  assert (forall k rid, tracked_now net k rid = true -> tracked net k rid) as Ht.
  { unfold tracked_now, tracked. intros k rid. destruct (objects net !! k) eqn:E; [|done]. intros H. split; [by eexists|]. intros Hk. rewrite decide_True in H by done.
    destruct (progress_map_ net !! k); [|done]. eexists. split; [done|]. by apply Nat.ltb_lt. }
  destruct t, l; cbn; try done; apply Ht.
Qed.
Fixpoint orderly_exec (sched : list (nat * label)) w : option world :=
  match sched with
  | [] => Some w
  | (i, l) :: sched =>
      match w_threads w !! i, move i l w with
      | Some t, Some w' => if orderly_now (w_net w) l t then orderly_exec sched w' else None
      | _, _ => None
      end
  end.
Lemma orderly_exec_reachable sched w w' n : rtc orderly_step (world_init n) w -> orderly_exec sched w = Some w' -> orderly_reachable w'.
Proof.
  revert w. induction sched as [|[i l] sched IH]; intros w Hr Hx; cbn in Hx; [injection Hx as <-; by exists n|].
  destruct (w_threads w !! i) as [t|] eqn:Ht; [|done]. destruct (move i l w) as [w1|] eqn:Hm; [|done]. destruct (orderly_now _ _ _) eqn:Ho; [|done].
  apply (IH w1); [|done]. eapply rtc_r; [exact Hr|]. exists i, l, t. split_and!; [done|by apply orderly_now_ok|done].
Qed.

(** What can be asked of a final state: how often the origin was ended, whether with
    a timeout, whether it is still awaited, which copies are heard of. *)
Definition report (ow : option world) : option (nat * bool * bool * list nat) :=
  w ← ow; o ← objects (w_net w) !! 7%Z;
  Some (ended o, timed_out o, bool_decide (7%Z ∈ send_map_ (w_net w)), filter (fun rid => (7%Z, rid) ∈ heard (w_net w)) (seq 0 2)).

Definition ex_orderly := ex_send [Given 1; Given 2] ++ ex_reply 0 ++ ex_gone 1.
Example one_answered_one_given_up : report (ex_exec ex_orderly) = Some (1, true, false, [0; 1]).
Proof. by vm_compute. Qed.

(** A response that arrives before [SendIn] has registered the copies leaves its copy
    unaccounted. The next probe finds it gone from its node and counts it again: the
    origin is ended, with a timeout, while its other copy still runs. *)
Example early_response_counts_twice :
  report (ex_exec ((0, SendOrigin 7 [Given 1; Given 2]) :: go 0 2 ++ ex_reply 0 ++ go 0 2 ++ ex_gone 0)) = Some (1, true, false, [0]).
Proof. by vm_compute. Qed.

(** A discarded retry is counted and not accounted for, so a probe counts it again. *)
Example flushed_retry_counts_twice :
  report (ex_exec (ex_send [Given 1; Given 2] ++ (2, Flush 7) :: go 2 1 ++ ex_gone 0)) = Some (1, true, false, [0]).
Proof. by vm_compute. Qed.

(** A copy without a target or with an unknown host is never counted: the origin waits
    for ever although every copy that was sent has been answered. *)
Example unsent_copy_blocks : report (ex_exec (ex_send [Given 1; Unsent] ++ ex_reply 0)) = Some (0, false, true, [0]).
Proof. by vm_compute. Qed.

(** After a timeout the address of the origin is used again, and the late response to
    the old task ends the new one. *)
Example late_response_ends_another_task :
  report (ex_exec (ex_send [Given 1] ++ ex_gone 0 ++ (0, Free 7) :: ex_send [Given 2] ++ ex_reply 0)) = Some (1, false, false, [0]).
Proof. by vm_compute. Qed.

(** [SendIn] registers an origin that has ended meanwhile; the entry stays, and its
    copies are probed for ever. *)
Example registered_after_its_end :
  (w ← ex_exec ((0, SendOrigin 7 [Given 1]) :: go 0 2 ++ ex_reply 0 ++ go 0 1); progress_map_ (w_net w) !! 7%Z) = Some [mkReplica (Some 1%Z) false].
Proof. by vm_compute. Qed.

Lemma origins_end_once_witness : exists w, ex_exec ex_orderly = Some w /\ forall o, objects (w_net w) !! 7%Z = Some o -> ended o <= 1.
Proof.
  destruct (ex_exec ex_orderly) as [w|] eqn:E; [|by vm_compute in E]. exists w. split; [done|].
  apply (proj1 (origins_end_once w 7 (sched_reachable _ _ _ 3 (rtc_refl _ _) E))).
Defined.

Lemma origins_end_when_all_in_witness : exists w o, orderly_exec ex_orderly (world_init 3) = Some w /\ objects (w_net w) !! 7%Z = Some o /\ ended o = 1 /\ all_in (w_net w) 7 o.
Proof.
  destruct (orderly_exec ex_orderly (world_init 3)) as [w|] eqn:E; [|by vm_compute in E].
  destruct (objects (w_net w) !! 7%Z) as [o|] eqn:Ho; [|vm_compute in E; injection E as <-; by vm_compute in Ho].
  assert (ended o = 1) as He by (vm_compute in E; injection E as <-; vm_compute in Ho; by injection Ho as <-).
  exists w, o. split_and!; [done..|]. by apply (proj1 (origins_end_when_all_in w 7 o (orderly_exec_reachable _ _ _ 3 (rtc_refl _ _) E) Ho)).
Defined.
