(* ===== verification/BatchManager.v ===== *)
(** The batching of collective tasks on the leader of a neighborhood
    ([context-runtime/src/batch_manager.cc],
    [context-runtime/include/clio_runtime/batch_manager.h]).

    A step is a critical section of a handler: [Add] of a parked task; the choice of
    the due groups by [FlushDue]; [BuildAndSubmit] of one of them, whose two sections
    nobody sees between, since the id they register is new; and the two sections of
    [OnAggregateComplete]. The clock, the size of a pool, the order in which the
    table is walked and whether a container is found are choices of the schedule.
    The combining of inputs and the copying of results are the container's. *)
From Stdlib Require Import ZArith Lia.
From stdpp Require Import base list gmap fin_maps relations.
From S2P Require Import Prelude Text PoolQuery PoolManager.

Open Scope Z_scope.

Record GroupKey := mkKey { pool_id : PoolId; method : Z; container_hash : Z; batch_key : Z }.
#[export] Instance GroupKey_eq_dec : EqDecision GroupKey.
Proof. solve_decision. Defined.
#[export] Instance GroupKey_countable : Countable GroupKey.
Proof.
  refine (inj_countable' (fun k => (pool_id k, method k, container_hash k, batch_key k)) (fun '(p, m, h, b) => mkKey p m h b) _). by intros [].
Defined.

(** A parked task. *)
Record member := mkMember { m_id : Z; m_pool : PoolId; m_method : Z; m_query : PoolQuery }.
Record Group := mkGroup { members : list member; deadline_ns : Z; count_based : bool }.
Implicit Types (key : GroupKey) (g : Group) (m : member) (now uid : Z).

Definition key_of m : GroupKey := mkKey (m_pool m) (m_method m) (hash_value_ (m_query m)) (batch_key_ (m_query m)).

(** [due]: chosen by a flush and not yet built. [running]: aggregates that were
    submitted; [settled]: those whose key was released. [completed] (a task and its
    aggregate) and [dropped] are histories. *)
Record Batch := mkBatch {
  groups_ : gmap GroupKey Group;
  in_flight_ : gset GroupKey;
  agg_group_ : gmap Z GroupKey;
  pending_ : gmap Z (list member);
  due : list (GroupKey * Group);
  running : gset Z;
  settled : gset Z;
  completed : list (member * Z);
  dropped : list member }.
Implicit Types (b : Batch).
Definition Batch_new : Batch := mkBatch ∅ ∅ ∅ ∅ [] ∅ ∅ [] [].

Definition Add b now m : Batch :=
  let key := key_of m in
  let group := default (mkGroup [] 0 false) (groups_ b !! key) in
  let group :=
    match members group with
    | [] =>
        let count_based := IsMode RoutingMode.AllToOne (m_query m) in
        mkGroup [] (if count_based then deadline_ns group else u64 (now + batch_for_ns_ (m_query m))) count_based
    | _ => group
    end in
  mkBatch (<[key := mkGroup (members group ++ [m]) (deadline_ns group) (count_based group)]> (groups_ b)) (in_flight_ b)
    (agg_group_ b) (pending_ b) (due b) (running b) (settled b) (completed b) (dropped b).

Section Flush.
Variable num_containers : PoolId -> option Z.

Definition ready now key g : bool :=
  if count_based g then
    let n := default 0 (num_containers (pool_id key)) in (0 <? n) && (n <=? Z.of_nat (length (members g)))
  else deadline_ns g <=? now.

(** One group of the walk. *)
Definition flush_group now (s : gmap GroupKey Group * gset GroupKey * list (GroupKey * Group)) (kg : GroupKey * Group) :=
  let '(groups, in_flight, due) := s in
  let '(key, g) := kg in
  if ready now key g then
    if decide (key ∈ in_flight) then s else (delete key groups, {[key]} ∪ in_flight, due ++ [(key, g)])
  else s.
(** [walk] is the table in the order in which it is walked. *)
Definition FlushDue b now (walk : list (GroupKey * Group)) : Batch :=
  let '(groups, in_flight, d) := fold_left (flush_group now) walk (groups_ b, in_flight_ b, due b) in
  mkBatch groups in_flight (agg_group_ b) (pending_ b) d (running b) (settled b) (completed b) (dropped b).
(** What [FlushDue] answers: whether anything was due or is left. *)
Definition flush_busy b now (walk : list (GroupKey * Group)) : bool :=
  negb (bool_decide (groups_ b = ∅)) &&
  (existsb (fun '(key, g) => ready now key g && negb (bool_decide (key ∈ in_flight_ b))) walk || negb (bool_decide (groups_ (FlushDue b now walk) = ∅))).
End Flush.

(** [uid] names the aggregate; [made]: the container was found and the first member
    copied. *)
Definition BuildAndSubmit b uid (made : bool) : Batch :=
  match due b with
  | [] => b
  | (key, g) :: rest =>
      match members g with
      | [] => mkBatch (groups_ b) (in_flight_ b) (agg_group_ b) (pending_ b) rest (running b) (settled b) (completed b) (dropped b)
      | _ =>
          if made then
            mkBatch (groups_ b) (in_flight_ b) (<[uid := key]> (agg_group_ b)) (<[uid := members g]> (pending_ b)) rest
              ({[uid]} ∪ running b) (settled b) (completed b) (dropped b)
          else
            mkBatch (groups_ b) (in_flight_ b ∖ {[key]}) (agg_group_ b) (pending_ b) rest (running b) (settled b) (completed b) (dropped b ++ members g)
      end
  end.

(** [OnAggregateComplete]: the release of the key, then the members. *)
Definition release b uid : Batch :=
  mkBatch (groups_ b)
    (match agg_group_ b !! uid with Some key => in_flight_ b ∖ {[key]} | None => in_flight_ b end)
    (delete uid (agg_group_ b)) (pending_ b) (due b) (running b ∖ {[uid]}) ({[uid]} ∪ settled b) (completed b) (dropped b).
Definition complete_members b uid (found : bool) : Batch :=
  match pending_ b !! uid with
  | None => mkBatch (groups_ b) (in_flight_ b) (agg_group_ b) (pending_ b) (due b) (running b) (settled b ∖ {[uid]}) (completed b) (dropped b)
  | Some ms =>
      mkBatch (groups_ b) (in_flight_ b) (agg_group_ b) (delete uid (pending_ b)) (due b) (running b) (settled b ∖ {[uid]})
        (completed b ++ (if found then map (fun m => (m, uid)) ms else [])) (dropped b ++ (if found then [] else ms))
  end.

(** * The leader at work *)

Inductive event :=
  | EAdd now m
  | EFlush (num_containers : PoolId -> option Z) now (walk : list (GroupKey * Group))
  | EBuild uid (made : bool)
  | ERelease uid
  | EComplete uid (found : bool).
Definition used b uid : Prop := uid ∈ running b \/ uid ∈ settled b \/ is_Some (pending_ b !! uid) \/ uid ∈ map snd (completed b).

Inductive step : Batch -> event -> Batch -> Prop :=
  | SAdd b now m : step b (EAdd now m) (Add b now m)
  | SFlush b num now walk : walk ≡ₚ map_to_list (groups_ b) -> step b (EFlush num now walk) (FlushDue num b now walk)
  | SBuild b uid made : due b <> [] -> ~ used b uid -> step b (EBuild uid made) (BuildAndSubmit b uid made)
  | SRelease b uid : uid ∈ running b -> step b (ERelease uid) (release b uid)
  | SComplete b uid found : uid ∈ settled b -> step b (EComplete uid found) (complete_members b uid found).

(** [added]: the tasks parked so far. *)
Inductive run : list member -> Batch -> Prop :=
  | RNew : run [] Batch_new
  | RStep added b e b' : run added b -> step b e b' -> run (match e with EAdd _ m => added ++ [m] | _ => added end) b'.

(** * Where the parked tasks are *)

Definition in_groups (gs : gmap GroupKey Group) : list member := concat (map (fun kg => members (snd kg)) (map_to_list gs)).
Definition in_due (d : list (GroupKey * Group)) : list member := concat (map (fun kg => members (snd kg)) d).
Definition in_pending (ps : gmap Z (list member)) : list member := concat (map snd (map_to_list ps)).
Definition everyone b : list member := in_groups (groups_ b) ++ in_due (due b) ++ in_pending (pending_ b) ++ map fst (completed b) ++ dropped b.

Lemma concat_perm {A} (xs ys : list (list A)) : xs ≡ₚ ys -> concat xs ≡ₚ concat ys.
Proof.
  induction 1 as [|x xs ys _ IH|x y xs|xs ys zs _ IH1 _ IH2]; cbn; [done|by rewrite IH| |by rewrite IH1].
  rewrite !app_assoc. by rewrite (Permutation_app_comm x y).
Qed.
Lemma in_groups_insert gs key g : gs !! key = None -> in_groups (<[key := g]> gs) ≡ₚ members g ++ in_groups gs.
Proof. intros Hn. unfold in_groups. rewrite (concat_perm _ (map (fun kg => members (snd kg)) ((key, g) :: map_to_list gs))); [done|]. apply (fmap_Permutation (fun kg : GroupKey * Group => members (snd kg))). by apply map_to_list_insert. Qed.
Lemma in_groups_delete gs key g : gs !! key = Some g -> in_groups gs ≡ₚ members g ++ in_groups (delete key gs).
Proof. intros Hg. rewrite <- in_groups_insert by apply lookup_delete_eq. by rewrite insert_delete_id. Qed.
Lemma in_pending_insert ps uid ms : ps !! uid = None -> in_pending (<[uid := ms]> ps) ≡ₚ ms ++ in_pending ps.
Proof. intros Hn. unfold in_pending. rewrite (concat_perm _ (map snd ((uid, ms) :: map_to_list ps))); [done|]. apply (fmap_Permutation snd). by apply map_to_list_insert. Qed.
Lemma in_pending_delete ps uid ms : ps !! uid = Some ms -> in_pending ps ≡ₚ ms ++ in_pending (delete uid ps).
Proof. intros Hg. rewrite <- in_pending_insert by apply lookup_delete_eq. by rewrite insert_delete_id. Qed.
Lemma in_due_app d1 d2 : in_due (d1 ++ d2) = in_due d1 ++ in_due d2.
Proof. unfold in_due. by rewrite map_app, concat_app. Qed.

Lemma everyone_add b now m : everyone (Add b now m) ≡ₚ m :: everyone b.
Proof.
  unfold everyone. cbn -[in_groups]. set (key := key_of m). set (g := default (mkGroup [] 0 false) (groups_ b !! key)).
  assert (forall g', members g' = members g ++ [m] -> in_groups (<[key := g']> (groups_ b)) ≡ₚ m :: in_groups (groups_ b)) as H.
  { intros g' Hg'. subst g. destruct (groups_ b !! key) as [g0|] eqn:E; cbn in Hg'.
    - rewrite (in_groups_delete _ key g0 E). rewrite (in_groups_delete (<[key := g']> (groups_ b)) key g') by apply lookup_insert_eq.
      rewrite delete_insert_eq, Hg'. rewrite <- app_assoc. cbn. symmetry. apply Permutation_middle.
    - rewrite in_groups_insert by done. by rewrite Hg'. }
  rewrite H; [done|]. destruct (members g) eqn:E; cbn; [done|by rewrite E].
Qed.

Section FlushSteps.
Variable num : PoolId -> option Z.

(** The chosen groups move; the others stay. *)
Record flushed now b (gs : gmap GroupKey Group) (fl : gset GroupKey) (d : list (GroupKey * Group)) : Prop := {
  fl_due : exists chosen, d = due b ++ chosen /\ NoDup (map fst chosen) /\ fl = list_to_set (map fst chosen) ∪ in_flight_ b /\
    (forall key g, (key, g) ∈ chosen -> groups_ b !! key = Some g /\ ready num now key g = true /\ key ∉ in_flight_ b /\ gs !! key = None) /\
    (forall key g, gs !! key = Some g <-> groups_ b !! key = Some g /\ key ∉ map fst chosen);
  fl_everyone : in_groups gs ++ in_due d ≡ₚ in_groups (groups_ b) ++ in_due (due b) }.

Lemma flush_fold now b done todo : done ++ todo ≡ₚ map_to_list (groups_ b) ->
  forall gs fl d, fold_left (flush_group num now) done (groups_ b, in_flight_ b, due b) = (gs, fl, d) ->
  flushed now b gs fl d /\ (forall key g, (key, g) ∈ todo -> gs !! key = Some g) /\
  (forall key g, (key, g) ∈ done -> gs !! key = Some g -> ready num now key g = false \/ key ∈ in_flight_ b).
Proof.
  revert todo. induction done as [|[key g] done IH] using rev_ind; intros todo Hperm gs fl d Hf.
  - cbn in Hf. injection Hf as <- <- <-. split_and!.
    + split; [|done]. exists []. rewrite app_nil_r. split_and!; [done|constructor|set_solver|by intros ? ? ?%elem_of_nil|]. intros key g. split; [|by intros []]. intros H. split; [done|]. cbn. apply not_elem_of_nil.
    + intros key g Hin. apply elem_of_map_to_list. cbn in Hperm. by rewrite <- Hperm.
    + by intros ? ? ?%elem_of_nil.
  - rewrite fold_left_app in Hf. destruct (fold_left _ done _) as [[gs0 fl0] d0] eqn:E. rewrite <- app_assoc in Hperm. cbn in Hperm.
    destruct (IH ((key, g) :: todo) Hperm gs0 fl0 d0 eq_refl) as ([(ch & -> & Hnd & -> & Hch & Hgs) Hev] & Htodo & Hleft).
    assert (gs0 !! key = Some g) as Hkg by (apply Htodo; by left).
    assert (NoDup (map fst (done ++ (key, g) :: todo))) as Hkeys.
    { change (NoDup ((done ++ (key, g) :: todo).*1)). rewrite Hperm. apply NoDup_fst_map_to_list. }
    rewrite map_app in Hkeys. cbn in Hkeys. apply NoDup_app in Hkeys as (Hnd1 & Hdisj & Hnd2). apply NoDup_cons in Hnd2 as [Hkt Hnd2].
    assert (key ∉ map fst done) as Hkd by (intros Hin; apply (Hdisj key Hin); by left).
    pose proof (proj1 (Hgs key g) Hkg) as [Hbk Hnot]. cbn in Hf. destruct (ready num now key g) eqn:Er; [case_decide as Hfl|]; injection Hf as <- <- <-.
    + assert (key ∈ in_flight_ b) as Hin by (apply elem_of_union in Hfl as [Hin%elem_of_list_to_set|]; done).
      split_and!; [split; [|done]; by exists ch|intros; apply Htodo; by right|].
      intros key' g' [Hi|[= -> ->]%list_elem_of_singleton]%elem_of_app Hl; [by apply Hleft|by right].
    + split_and!.
      * split.
        -- exists (ch ++ [(key, g)]). rewrite map_app. cbn [map fst]. split_and!.
           ++ by rewrite app_assoc.
           ++ apply NoDup_app. split_and!; [done| |apply NoDup_singleton]. by intros k Hk ->%list_elem_of_singleton.
           ++ rewrite list_to_set_app_L. cbn. set_solver.
           ++ intros k g' [Hi|[= -> ->]%list_elem_of_singleton]%elem_of_app.
              ** destruct (Hch k g' Hi) as (H1 & H2 & H3 & H4). split_and!; try done. destruct (decide (key = k)) as [->|]; [congruence|by rewrite lookup_delete_ne].
              ** split_and!; [done..|set_solver|apply lookup_delete_eq].
           ++ intros k g'. rewrite elem_of_app, list_elem_of_singleton, lookup_delete_Some, Hgs. cbn. naive_solver.
        -- rewrite <- Hev, (in_due_app _ [(key, g)]), (in_groups_delete gs0 key g Hkg).
           assert (in_due [(key, g)] = members g) as -> by (unfold in_due; cbn; apply app_nil_r).
           rewrite (Permutation_app_comm (in_due _) (members g)), app_assoc. by rewrite (Permutation_app_comm (in_groups _) (members g)).
      * intros k g' Hi. rewrite lookup_delete_ne; [apply Htodo; by right|]. intros ->. apply Hkt. by apply (list_elem_of_fmap_2 fst _ (k, g')).
      * intros k g' [Hi|[= -> ->]%list_elem_of_singleton]%elem_of_app Hl; [|by rewrite lookup_delete_eq in Hl].
        apply lookup_delete_Some in Hl as [_ Hl]. by apply Hleft.
    + split_and!; [split; [|done]; by exists ch|intros; apply Htodo; by right|].
      intros key' g' [Hi|[= -> ->]%list_elem_of_singleton]%elem_of_app Hl; [by apply Hleft|by left].
Qed.
End FlushSteps.

(** * The invariant of the leader *)

Definition of_key key (ms : list member) : Prop := ms <> [] /\ Forall (fun m => key_of m = key) ms.

Record leader_ok b : Prop := {
  lo_groups key g : groups_ b !! key = Some g -> of_key key (members g);
  lo_due key g : (key, g) ∈ due b -> of_key key (members g);
  lo_claims : map fst (due b) ++ map snd (map_to_list (agg_group_ b)) ≡ₚ elements (in_flight_ b);
  lo_agg uid key : agg_group_ b !! uid = Some key -> uid ∈ running b /\ exists ms, pending_ b !! uid = Some ms /\ of_key key ms;
  lo_running uid : uid ∈ running b -> is_Some (agg_group_ b !! uid);
  lo_settled uid : uid ∈ settled b -> uid ∉ running b /\ exists key ms, pending_ b !! uid = Some ms /\ of_key key ms;
  lo_pending uid : is_Some (pending_ b !! uid) -> uid ∈ running b \/ uid ∈ settled b;
  lo_done m uid : (m, uid) ∈ completed b -> uid ∉ running b /\ uid ∉ settled b;
  lo_same m m' uid : (m, uid) ∈ completed b -> (m', uid) ∈ completed b -> key_of m = key_of m' }.

Lemma leader_new : leader_ok Batch_new.
Proof.
  split; cbn; try done; try (by intros ? ? ?%elem_of_nil); try (by intros ? [? ?]); try set_solver.
Qed.

(** The keys in flight: those of the groups chosen and of the aggregates that run,
    each once. *)
Lemma claims_nodup b : leader_ok b -> NoDup (map fst (due b) ++ map snd (map_to_list (agg_group_ b))).
Proof. intros H. rewrite (lo_claims _ H). apply NoDup_elements. Qed.
Lemma claimed b key : leader_ok b -> key ∈ in_flight_ b <-> key ∈ map fst (due b) \/ exists uid, agg_group_ b !! uid = Some key.
Proof.
  intros H. rewrite <- elem_of_elements, <- (lo_claims _ H), elem_of_app. f_equiv. change (key ∈ (map_to_list (agg_group_ b)).*2 <-> exists uid, agg_group_ b !! uid = Some key).
  rewrite list_elem_of_fmap. split.
  - intros ([uid k] & -> & Hin%elem_of_map_to_list). by exists uid.
  - intros [uid Hu]. exists (uid, key). by rewrite elem_of_map_to_list.
Qed.

Lemma add_leader b now m : leader_ok b -> leader_ok (Add b now m).
Proof.
  intros [H1 H2 H3 H4 H5 H6 H7 H8 H9]. split; cbn; try done. intros key g. rewrite lookup_insert. case_decide as E; [|apply H1]. intros [= <-]. cbn. subst key.
  set (g := default (mkGroup [] 0 false) (groups_ b !! key_of m)).
  assert (Forall (fun m' => key_of m' = key_of m) (members g)) as Hg.
  { subst g. destruct (groups_ b !! key_of m) as [g|] eqn:E; cbn; [by apply (H1 _ g E)|constructor]. }
  assert (forall g', members g' = members g -> of_key (key_of m) (members g' ++ [m])) as Hok.
  { intros g' ->. split; [by destruct (members g)|]. apply Forall_app. split; [done|by repeat constructor]. }
  destruct (members g) as [|m0 ms] eqn:Em; cbn; [apply (Hok (mkGroup [] 0 false))|apply (Hok g)]; done.
Qed.

Lemma flush_leader num b now walk : leader_ok b -> walk ≡ₚ map_to_list (groups_ b) -> leader_ok (FlushDue num b now walk).
Proof.
  intros H Hw. unfold FlushDue. destruct (fold_left _ walk _) as [[gs fl] d] eqn:E.
  destruct (flush_fold num now b walk [] ltac:(by rewrite app_nil_r) gs fl d E) as ([(ch & -> & Hnd & -> & Hch & Hgs) _] & _ & _).
  pose proof H as [H1 H2 H3 H4 H5 H6 H7 H8 H9]. split; cbn; try done.
  - intros key g [Hl _]%Hgs. by apply H1.
  - intros key g [Hin|Hin]%elem_of_app; [by apply H2|]. apply Hch in Hin as (Hl & _). by apply H1.
  - rewrite map_app, <- app_assoc, (Permutation_app_comm (map fst ch)), app_assoc, H3. rewrite Permutation_app_comm, elements_disj_union.
    + by rewrite elements_list_to_set.
    + intros key Hin%elem_of_list_to_set. change (key ∈ ch.*1) in Hin. apply list_elem_of_fmap in Hin as ([k g] & -> & Hin). by apply Hch in Hin as (_ & _ & Hnot & _).
Qed.

Lemma build_leader b uid made : leader_ok b -> ~ used b uid -> leader_ok (BuildAndSubmit b uid made).
Proof.
  intros H Hu. pose proof H as [H1 H2 H3 H4 H5 H6 H7 H8 H9]. unfold BuildAndSubmit. destruct (due b) as [|[key g] rest] eqn:Ed; [done|].
  assert (of_key key (members g)) as Hg by (apply H2; by left). destruct (members g) as [|m ms] eqn:Em; [by destruct Hg|]. rewrite <- Em in *.
  assert (forall k g', (k, g') ∈ rest -> of_key k (members g')) as Hrest by (intros k g' Hin; apply H2; by right).
  assert (uid ∉ running b /\ uid ∉ settled b /\ pending_ b !! uid = None /\ forall m, (m, uid) ∉ completed b) as (U1 & U2 & U3 & U4).
  { unfold used in Hu. split_and!; [tauto..| |]; [destruct (pending_ b !! uid); [destruct Hu; right; right; left; by eexists|done]|].
    intros m' Hin. apply Hu. right. right. right. by apply (list_elem_of_fmap_2 snd _ (m', uid)). }
  assert (agg_group_ b !! uid = None) as U5 by (destruct (agg_group_ b !! uid) as [k|] eqn:Ea; [by apply H4 in Ea as [? _]|done]).
  destruct made; split; cbn; try done.
  - rewrite map_to_list_insert by done. cbn. rewrite <- H3. cbn. symmetry. apply Permutation_middle.
  - intros u k. rewrite !lookup_insert. case_decide as E; [subst; intros [= <-]; split; [set_solver|by eauto]|].
    intros (Hr & Hm)%H4. split; [set_solver|done].
  - intros u [->%elem_of_singleton|Hr]%elem_of_union; [rewrite lookup_insert_eq; by eexists|]. rewrite lookup_insert_ne by (by intros ->). by apply H5.
  - intros u Hs. destruct (H6 u Hs) as [Hn Hm]. assert (u <> uid) by (by intros ->). rewrite lookup_insert_ne by done. split; [set_solver|done].
  - intros u. destruct (decide (uid = u)) as [<-|]; [set_solver|]. rewrite lookup_insert_ne by done. intros [Hr|]%H7; [left; set_solver|by right].
  - intros m' u Hin. destruct (H8 m' u Hin). assert (u <> uid) by (intros ->; by apply (U4 m')). set_solver.
  - cbn in H3. assert (key ∈ in_flight_ b) as Hk by (apply elem_of_elements; rewrite <- H3; by left).
    apply (Permutation_cons_inv (a := key)). rewrite H3, <- elements_union_singleton by set_solver. apply elements_proper. intros k.
    rewrite elem_of_union, elem_of_singleton, elem_of_difference, elem_of_singleton. destruct (decide (k = key)); naive_solver.
Qed.

Lemma keys_delete (ag : gmap Z GroupKey) uid key : ag !! uid = Some key -> map snd (map_to_list ag) ≡ₚ key :: map snd (map_to_list (delete uid ag)).
Proof. intros Ha. by rewrite <- (fmap_Permutation snd _ _ (map_to_list_delete ag uid key Ha)). Qed.
Lemma elements_remove (X : gset GroupKey) key l : key ∈ X -> elements X ≡ₚ key :: l -> l ≡ₚ elements (X ∖ {[key]}).
Proof.
  intros Hk Hl. apply (Permutation_cons_inv (a := key)). rewrite <- Hl, <- elements_union_singleton by set_solver. apply elements_proper. intros k.
  rewrite elem_of_union, elem_of_singleton, elem_of_difference, elem_of_singleton. destruct (decide (k = key)); naive_solver.
Qed.

Lemma release_leader b uid : leader_ok b -> uid ∈ running b -> leader_ok (release b uid).
Proof.
  intros H Hr. pose proof H as [H1 H2 H3 H4 H5 H6 H7 H8 H9]. destruct (H5 uid Hr) as [key Ha]. destruct (H4 uid key Ha) as (_ & ms & Hp & Hms).
  unfold release. rewrite Ha. split; cbn; try done.
  - apply elements_remove; [apply (claimed b key H); right; by exists uid|]. rewrite <- H3, (keys_delete _ uid key Ha). symmetry. apply Permutation_middle.
  - intros u k [Hne (Hu & Hm)%H4]%lookup_delete_Some. split; [set_solver|done].
  - intros u [Hu Hne]%elem_of_difference. rewrite lookup_delete_ne by set_solver. by apply H5.
  - intros u [->%elem_of_singleton|Hs]%elem_of_union; [split; [set_solver|by eauto]|]. destruct (H6 u Hs). split; [set_solver|done].
  - intros u Hu. destruct (decide (u = uid)) as [->|]; [right; set_solver|]. destruct (H7 u Hu); [left|right]; set_solver.
  - intros m u Hin. destruct (H8 m u Hin). assert (u <> uid) by (by intros ->). set_solver.
Qed.

Lemma complete_leader b uid found : leader_ok b -> uid ∈ settled b -> leader_ok (complete_members b uid found).
Proof.
  intros H Hs. pose proof H as [H1 H2 H3 H4 H5 H6 H7 H8 H9]. destruct (H6 uid Hs) as (Hr & key & ms & Hp & [Hne Hms]).
  assert (forall m u, (m, u) ∈ completed b ++ (if found then map (fun m => (m, uid)) ms else []) -> (m, u) ∈ completed b \/ (u = uid /\ m ∈ ms)) as Hin.
  { intros m u [|Hm]%elem_of_app; [by left|right]. destruct found; [|by apply elem_of_nil in Hm].
    change (map ?f ms) with (f <$> ms) in Hm. apply list_elem_of_fmap in Hm as (m' & [= -> ->] & Hm). done. }
  rewrite Forall_forall in Hms. unfold complete_members. rewrite Hp. split; cbn; try done.
  - intros u k Ha. destruct (H4 u k Ha) as (Hu & Hm). split; [done|]. rewrite lookup_delete_ne; [done|]. by intros ->.
  - intros u [Hu Hne']%elem_of_difference. destruct (H6 u Hu) as (Hn & Hm). split; [done|]. rewrite lookup_delete_ne by set_solver. done.
  - intros u [ms' [Hne' Hu]%lookup_delete_Some]. destruct (H7 u ltac:(by eexists)); [by left|right; set_solver].
  - intros m u [Hm|[-> _]]%Hin; [|set_solver]. destruct (H8 m u Hm). set_solver.
  - intros m m' u Hm Hm'. apply Hin in Hm, Hm'. destruct Hm as [Hm|[-> Hm]], Hm' as [Hm'|[E Hm']].
    + by apply (H9 m m' u).
    + subst u. by destruct (H8 m uid Hm).
    + by destruct (H8 m' uid Hm').
    + by rewrite (Hms m Hm), (Hms m' Hm').
Qed.

Lemma step_leader b e b' : leader_ok b -> step b e b' -> leader_ok b'.
Proof. intros H Hs. destruct Hs; [by apply add_leader|by apply flush_leader|by apply build_leader|by apply release_leader|by apply complete_leader]. Qed.

Lemma move_inner {A} (P C M D : list A) : P ++ (C ++ M) ++ D ≡ₚ (M ++ P) ++ C ++ D.
Proof. rewrite <- !app_assoc, (Permutation_app_comm M (P ++ C ++ D)), <- !app_assoc. do 2 apply Permutation_app_head. apply Permutation_app_comm. Qed.
Lemma move_last {A} (P C M D : list A) : P ++ (C ++ []) ++ D ++ M ≡ₚ (M ++ P) ++ C ++ D.
Proof. rewrite app_nil_r, <- !app_assoc, (Permutation_app_comm M (P ++ C ++ D)). by rewrite <- !app_assoc. Qed.

Lemma step_everyone b e b' : leader_ok b -> step b e b' -> everyone b' ≡ₚ everyone b ++ match e with EAdd _ m => [m] | _ => [] end.
Proof.
  intros H Hs. destruct Hs as [b now m|b num now walk Hw|b uid made Hd Hu|b uid Hr|b uid found Hs]; rewrite ?app_nil_r.
  - rewrite everyone_add. apply Permutation_cons_append.
  - unfold FlushDue, everyone. destruct (fold_left _ walk _) as [[gs fl] d] eqn:E. cbn.
    destruct (flush_fold num now b walk [] ltac:(by rewrite app_nil_r) gs fl d E) as ([_ He] & _). by rewrite !app_assoc, He.
  - unfold BuildAndSubmit, everyone. destruct (due b) as [|[key g] rest]; [done|].
    assert (in_due ((key, g) :: rest) = members g ++ in_due rest) as -> by done.
    assert (pending_ b !! uid = None) as Hp by (destruct (pending_ b !! uid) eqn:Ep; [destruct Hu; right; right; left; by eexists|done]).
    destruct (members g) as [|m ms]; [done|]. destruct made; cbn -[in_groups in_due in_pending app]; apply Permutation_app_head.
    + rewrite in_pending_insert by done. rewrite <- !app_assoc, !(app_assoc (in_due rest)), (Permutation_app_comm (in_due rest)). by rewrite <- !app_assoc.
    + rewrite !app_assoc, (Permutation_app_comm _ (m :: ms)). by rewrite !app_assoc.
  - done.
  - unfold complete_members, everyone. destruct (lo_settled _ H uid Hs) as (_ & key & ms & Hp & _). rewrite Hp. cbn -[in_groups in_due in_pending]. rewrite map_app.
    rewrite (in_pending_delete (pending_ b) uid ms Hp). do 2 apply Permutation_app_head. destruct found; [|apply move_last].
    rewrite map_map. cbn. rewrite map_id, app_nil_r. apply move_inner.
Qed.

Lemma run_ok added b : run added b -> leader_ok b /\ everyone b ≡ₚ added.
Proof.
  induction 1 as [|added b e b' _ [Hok Hev] Hs]; [split; [apply leader_new|done]|]. split; [by eapply step_leader|].
  rewrite (step_everyone b e b' Hok Hs), Hev. destruct e; by rewrite ?app_nil_r.
Qed.


(** * Ready groups run *)

Definition works b b' : Prop := exists e, (forall now m, e <> EAdd now m) /\ step b e b'.
Definition quiet b : Prop := due b = [] /\ running b = ∅ /\ settled b = ∅.
Definition backlog b : nat := (3 * length (due b) + 2 * size (running b) + size (settled b))%nat.

Lemma works_step b e b' : (forall now m, e <> EAdd now m) -> step b e b' -> works b b'.
Proof. intros He Hs. by exists e. Qed.
Lemma unused b : exists uid, ~ used b uid.
Proof.
  exists (fresh (running b ∪ settled b ∪ dom (pending_ b) ∪ list_to_set (map snd (completed b)) : gset Z)).
  pose proof (is_fresh (running b ∪ settled b ∪ dom (pending_ b) ∪ list_to_set (map snd (completed b)) : gset Z)) as Hf.
  set (x := fresh _) in *. clearbody x. unfold used. intros [Hx|[Hx|[Hx|Hx]]]; apply Hf; [set_solver..| |].
  - apply elem_of_dom in Hx. set_solver.
  - apply elem_of_union. right. by apply elem_of_list_to_set.
Qed.

(** A step that finishes some of the work; no group is touched, and what was on its
    way stays on its way or is completed. *)
Definition on_its_way b m : Prop := m ∈ in_due (due b) ++ in_pending (pending_ b) ++ map fst (completed b).
Lemma work_goes_on b : leader_ok b -> ~ quiet b ->
  exists b', works b b' /\ (backlog b' < backlog b)%nat /\ groups_ b' = groups_ b /\ forall m, on_its_way b m -> on_its_way b' m.
Proof.
  intros H Hq. unfold on_its_way. destruct (decide (settled b = ∅)) as [Es|Es]; [destruct (decide (running b = ∅)) as [Er|Er]|].
  - destruct (due b) as [|[key g] rest] eqn:Ed; [by destruct Hq|]. destruct (unused b) as [uid Hu]. exists (BuildAndSubmit b uid true).
    split; [apply (works_step _ (EBuild uid true)); [done|apply SBuild; by rewrite ?Ed]|]. unfold BuildAndSubmit. rewrite Ed.
    destruct (members g) as [|m ms] eqn:Em; [by destruct (proj1 (lo_due _ H key g ltac:(rewrite Ed; by left)))|].
    assert (pending_ b !! uid = None) as Hp by (destruct (pending_ b !! uid) eqn:Ep; [destruct Hu; right; right; left; by eexists|done]).
    split_and!; [|done|].
    + unfold backlog. cbn. rewrite Ed, Er, Es. rewrite size_union, size_singleton, size_empty by set_solver. cbn. lia.
    + cbn -[in_due in_pending]. intros x. assert (in_due ((key, g) :: rest) = members g ++ in_due rest) as -> by done. rewrite in_pending_insert by done. rewrite Em, !elem_of_app. tauto.
  - apply set_choose_L in Er as [uid Hr]. exists (release b uid). split; [apply (works_step _ (ERelease uid)); [done|by apply SRelease]|].
    split_and!; [|done|done]. unfold backlog. cbn. rewrite Es. rewrite size_difference, size_singleton by set_solver.
    assert (size (running b) <> 0%nat) by (apply size_non_empty_iff; set_solver).
    rewrite (size_union {[uid]} ∅), size_singleton, !size_empty by set_solver. lia.
  - apply set_choose_L in Es as [uid Hs]. exists (complete_members b uid true). split; [apply (works_step _ (EComplete uid true)); [done|by apply SComplete]|].
    destruct (lo_settled _ H uid Hs) as (_ & key & ms & Hp & _). unfold complete_members. rewrite Hp. split_and!; [|done|].
    + unfold backlog. cbn. rewrite size_difference, size_singleton by set_solver. assert (size (settled b) <> 0%nat) by (apply size_non_empty_iff; set_solver). lia.
    + intros m. rewrite (in_pending_delete _ uid ms Hp). cbn -[in_due in_pending]. rewrite map_app, map_map. cbn. rewrite map_id, !elem_of_app. tauto.
Qed.

Lemma drained b : leader_ok b -> exists b', rtc works b b' /\ leader_ok b' /\ quiet b' /\ groups_ b' = groups_ b /\ forall m, on_its_way b m -> m ∈ map fst (completed b').
Proof.
  remember (backlog b) as n eqn:En. revert b En. induction n as [n IH] using lt_wf_ind. intros b -> H.
  destruct (decide (due b = [] /\ running b = ∅ /\ settled b = ∅)) as [Hq|Hq].
  - exists b. split_and!; try done. destruct Hq as (Ed & Er & Es). unfold on_its_way. intros m. rewrite !elem_of_app, Ed.
    intros [Hm|[Hm|Hm]]; [by apply elem_of_nil in Hm| |done]. assert (pending_ b = ∅) as Ep.
    { apply map_eq. intros uid. rewrite lookup_empty. destruct (pending_ b !! uid) as [ms|] eqn:E; [|done]. destruct (lo_pending _ H uid ltac:(by eexists)); set_solver. }
    rewrite Ep in Hm. unfold in_pending in Hm. rewrite map_to_list_empty in Hm. by apply elem_of_nil in Hm.
  - destruct (work_goes_on b H Hq) as (b1 & Hw & Hlt & Hg & Hway). assert (leader_ok b1) as H1 by (destruct Hw as (e & _ & Hs); by eapply step_leader).
    destruct (IH (backlog b1) Hlt b1 eq_refl H1) as (b' & Hr & H' & Hq' & Hg' & Hway'). exists b'. split_and!; try done; [by eapply rtc_l|congruence|auto].
Qed.

(** C20. A batch that is due runs: from any state the leader can finish, without more
    tasks arriving, so that every task of a group that is ready by then is completed,
    where a group with a window is ready when the window has elapsed and a barrier
    when as many tasks have arrived as the pool has containers; groups that are not
    ready are left as they are. *)
Theorem due_batches_run added b num now : run added b ->
  exists b', rtc works b b' /\
    (forall key g m, groups_ b !! key = Some g -> ready num now key g = true -> m ∈ members g -> m ∈ map fst (completed b')) /\
    (forall key g, groups_ b' !! key = Some g <-> groups_ b !! key = Some g /\ ready num now key g = false).
Proof.
  intros [Hok _]%run_ok. destruct (drained b Hok) as (b1 & Hr1 & H1 & (Ed & Er & _) & Hg1 & _).
  assert (in_flight_ b1 = ∅) as Efl.
  { apply elem_of_equiv_empty_L. intros key [Hk|[uid Ha]]%(claimed b1 key H1); [rewrite Ed in Hk; by apply elem_of_nil in Hk|].
    apply (lo_agg _ H1) in Ha as [Hu _]. set_solver. }
  set (walk := map_to_list (groups_ b1)). assert (step b1 (EFlush num now walk) (FlushDue num b1 now walk)) as Hs by (by apply SFlush).
  assert (leader_ok (FlushDue num b1 now walk)) as H2 by (by eapply step_leader).
  destruct (drained _ H2) as (b' & Hr2 & _ & _ & Hg2 & Hway). exists b'. unfold FlushDue in Hg2, Hway.
  destruct (fold_left _ walk _) as [[gs fl] d] eqn:E. destruct (flush_fold num now b1 walk [] ltac:(by rewrite app_nil_r) gs fl d E) as ([(ch & -> & _ & _ & Hch & Hgs) _] & _ & Hleft).
  cbn in Hg2, Hway. rewrite Efl in Hleft.
  assert (forall key g, groups_ b1 !! key = Some g -> ready num now key g = true -> (key, g) ∈ ch) as Hall.
  { intros key g Hg Hrd. destruct (decide (key ∈ map fst ch)) as [Hin|Hin].
    - change (key ∈ ch.*1) in Hin. apply list_elem_of_fmap in Hin as ([k g'] & -> & Hin). pose proof (Hch _ _ Hin) as [Hg' _]. cbn in Hg. rewrite Hg in Hg'. by injection Hg' as ->.
    - assert (gs !! key = Some g) as Hl by (by apply Hgs). destruct (Hleft key g) as [Hf|Hf]; [by apply elem_of_map_to_list|done|congruence|set_solver]. }
  split_and!.
  - etrans; [exact Hr1|]. eapply rtc_l; [|exact Hr2]. by apply (works_step _ (EFlush num now walk)).
  - intros key g m Hg Hrd Hm. apply Hway. unfold on_its_way. cbn -[in_due in_pending]. apply elem_of_app. left. rewrite in_due_app. apply elem_of_app. right.
    rewrite <- Hg1 in Hg. specialize (Hall key g Hg Hrd). unfold in_due. apply list_elem_of_In, in_concat. exists (members g). split; [|by apply list_elem_of_In].
    apply in_map_iff. exists (key, g). split; [done|]. by apply list_elem_of_In.
  - intros key g. rewrite Hg2, Hgs, Hg1. split.
    + intros [Hg Hn]. split; [done|]. destruct (ready num now key g) eqn:Hrd; [|done]. destruct Hn. rewrite <- Hg1 in Hg. by apply (list_elem_of_fmap_2 fst _ (key, g)), Hall.
    + intros [Hg Hn]. split; [done|]. intros Hin. change (key ∈ ch.*1) in Hin. apply list_elem_of_fmap in Hin as ([k g'] & -> & Hin). pose proof (Hch _ _ Hin) as (Hg' & Hrd & _).
      cbn in *. rewrite Hg1, Hg in Hg'. injection Hg' as ->. congruence.
Qed.

(** * Concrete batches *)

Definition ex_member (id : Z) (q : PoolQuery) : member := mkMember id (7, 0) 3 q.
Definition ex_key : GroupKey := mkKey (7, 0) 3 5 6.
Definition ex_num (n : Z) : PoolId -> option Z := fun _ => Some n.
Definition ex_all_to_one (id : Z) : member := ex_member id (AllToOne 5 6).
Definition ex_many_to_one (id window : Z) : member := ex_member id (ManyToOne 5 6 window).
Definition flush_all num b now : Batch := FlushDue num b now (map_to_list (groups_ b)).
Definition chosen b : list (GroupKey * list Z) := map (fun kg => (fst kg, map m_id (members (snd kg)))) (due b).

(** A barrier of two waits for the second task. *)
Example barrier_waits :
  let b := Add Batch_new 0 (ex_all_to_one 1) in
  chosen (flush_all (ex_num 2) b 1000) = [] /\ chosen (flush_all (ex_num 2) (Add b 500 (ex_all_to_one 2)) 1000) = [(ex_key, [1; 2])].
Proof. by vm_compute. Qed.

(** The mode is not part of the key: behind a task with a window a barrier runs when
    the window has elapsed, with one of its three tasks. *)
Example window_releases_barrier :
  chosen (flush_all (ex_num 3) (Add (Add Batch_new 0 (ex_many_to_one 1 100)) 10 (ex_all_to_one 2)) 100) = [(ex_key, [1; 2])].
Proof. by vm_compute. Qed.

(** A window that reaches beyond the range of the clock is over at once. *)
Example long_window_is_over : chosen (flush_all (ex_num 1) (Add Batch_new 50 (ex_many_to_one 1 (2 ^ 64 - 1))) 50) = [(ex_key, [1])].
Proof. by vm_compute. Qed.

(** When the pool is gone at the flush its tasks are dropped: nobody ends them. *)
Example dropped_tasks_are_not_ended :
  let b := BuildAndSubmit (flush_all (ex_num 1) (Add Batch_new 0 (ex_all_to_one 1)) 0) 9 false in
  map m_id (dropped b) = [1] /\ completed b = [] /\ groups_ b = ∅ /\ in_flight_ b = ∅.
Proof. by vm_compute. Qed.

Definition ex_one : Batch := Add (Add Batch_new 0 (ex_all_to_one 1)) 10 (ex_all_to_one 2).
Lemma ex_one_run : run [ex_all_to_one 1; ex_all_to_one 2] ex_one.
Proof. apply (RStep [ex_all_to_one 1] (Add Batch_new 0 (ex_all_to_one 1)) (EAdd 10 (ex_all_to_one 2))); [apply (RStep [] Batch_new (EAdd 0 (ex_all_to_one 1))); [apply RNew|apply SAdd]|apply SAdd]. Qed.
Definition ex_built : Batch := BuildAndSubmit (flush_all (ex_num 2) ex_one 20) 9 true.
Lemma ex_built_run : run [ex_all_to_one 1; ex_all_to_one 2] ex_built.
Proof.
  apply (RStep _ (flush_all (ex_num 2) ex_one 20) (EBuild 9 true)).
  - apply (RStep _ ex_one (EFlush (ex_num 2) 20 (map_to_list (groups_ ex_one)))); [apply ex_one_run|by apply SFlush].
  - apply SBuild; [by vm_compute|]. unfold used. by_decide.
Qed.


Lemma due_batches_run_witness : exists b', rtc works ex_one b' /\ ex_all_to_one 1 ∈ map fst (completed b') /\ ex_all_to_one 2 ∈ map fst (completed b').
Proof.
  destruct (due_batches_run _ _ (ex_num 2) 20 ex_one_run) as (b' & Hr & Hm & _). exists b'. split; [done|].
  assert (groups_ ex_one !! ex_key = Some (mkGroup [ex_all_to_one 1; ex_all_to_one 2] 0 true)) as Hg by (by vm_compute).
  split; apply (Hm ex_key _ _ Hg); [done|by left|done|by right; left].
Defined.
