(* ===== verification/Swim.v ===== *)
(** The failure detector of a node ([HeartbeatProbe], [TriggerRecovery],
    [ClaimRecovery] and [AnnounceShutdown] of
    [context-runtime/modules/admin/src/admin_runtime.cc]; [SetDead], [SetAlive],
    [SetNodeState], [NoteInbound], [SecondsSinceInbound] and [IsLeader] of
    [context-runtime/src/ipc_manager.cc]; what [RecvInHandleOne] and a failed send
    tell it, [context-runtime/src/ipc/ipc_run2run.cc]).

    Times are those of one clock, in any unit, timeouts too; the rounding of seconds
    to floats is not modelled. A probe is its future, named by a number; which
    futures are complete at a tick, and with which result, is given. The order in
    which the table of hosts is walked is a parameter, and so is the shuffle of the
    helpers. A recovery that was started is recorded; its plan is in PoolManager. *)
From Stdlib Require Import ZArith Lia.
From stdpp Require Import base list gmap fin_maps.
From S2P Require Import Prelude Text PoolQuery PoolManager Routing.

Open Scope Z_scope.

Record Host := mkHost { state : NodeState; state_changed_at : Z; last_inbound : Z }.
Record probe := mkProbe { future : Z; target_node_id : Z; helper_node_id : Z; sent_at : Z }.
(** [heard] and [probed] are histories: who gave a sign of life when, and who was
    probed directly when. *)
Record Detector := mkDetector {
  hosts_ : gmap Z Host;
  dead_nodes_ : list (Z * Z);
  membership_epoch_ : Z;
  self_fenced_ : bool;
  pending_direct_probes_ : list probe;
  pending_indirect_probes_ : list probe;
  probe_round_robin_idx_ : nat;
  futures : Z;
  initiated : gset (Z * Z);
  recoveries : list Z;
  heard : list (Z * Z);
  probed : list (Z * Z) }.
Implicit Types (d : Detector) (n now : Z) (h : Host) (p : probe).

Definition with_hosts d (hs : gmap Z Host) : Detector :=
  mkDetector hs (dead_nodes_ d) (membership_epoch_ d) (self_fenced_ d) (pending_direct_probes_ d) (pending_indirect_probes_ d)
    (probe_round_robin_idx_ d) (futures d) (initiated d) (recoveries d) (heard d) (probed d).
Definition with_dead d (dead : list (Z * Z)) : Detector :=
  mkDetector (hosts_ d) dead (membership_epoch_ d) (self_fenced_ d) (pending_direct_probes_ d) (pending_indirect_probes_ d)
    (probe_round_robin_idx_ d) (futures d) (initiated d) (recoveries d) (heard d) (probed d).
Definition next_epoch d : Detector :=
  mkDetector (hosts_ d) (dead_nodes_ d) (u64 (membership_epoch_ d + 1)) (self_fenced_ d) (pending_direct_probes_ d) (pending_indirect_probes_ d)
    (probe_round_robin_idx_ d) (futures d) (initiated d) (recoveries d) (heard d) (probed d).
Definition with_probes d (direct indirect : list probe) : Detector :=
  mkDetector (hosts_ d) (dead_nodes_ d) (membership_epoch_ d) (self_fenced_ d) direct indirect
    (probe_round_robin_idx_ d) (futures d) (initiated d) (recoveries d) (heard d) (probed d).
Definition note d n now : Detector :=
  mkDetector (hosts_ d) (dead_nodes_ d) (membership_epoch_ d) (self_fenced_ d) (pending_direct_probes_ d) (pending_indirect_probes_ d)
    (probe_round_robin_idx_ d) (futures d) (initiated d) (recoveries d) (heard d ++ [(n, now)]) (probed d).

(** * Membership *)

Definition GetNodeState d n : NodeState := match hosts_ d !! n with Some h => state h | None => kDead end.
Definition SetNodeState d n (st : NodeState) now : Detector := with_hosts d (alter (fun h => mkHost st now (last_inbound h)) n (hosts_ d)).
Definition NoteInbound d n now : Detector := with_hosts d (alter (fun h => mkHost (state h) (state_changed_at h) now) n (hosts_ d)).
Definition SetDead d n now : Detector :=
  let d := next_epoch d in
  match hosts_ d !! n with
  | Some h => if decide (state h = kDead) then d else let d := SetNodeState d n kDead now in with_dead d (dead_nodes_ d ++ [(n, now)])
  | None => d
  end.
Definition SetAlive d n now : Detector :=
  let d := next_epoch d in
  match hosts_ d !! n with
  | Some h =>
      if decide (state h = kAlive) then d
      else let d := SetNodeState d n kAlive now in with_dead d (List.filter (fun e => negb (fst e =? n)) (dead_nodes_ d))
  | None => d
  end.

Section Swim.
Variables (self : Z) (order : list Z).
(** The timeouts of direct probes, indirect probes and suspicions. *)
Variables (kDirect kIndirect kSuspicion : Z).
Definition kIndirectProbeHelpers : nat := 3.

Definition GetAllHosts d : list (Z * Host) := omap (fun n => h ← hosts_ d !! n; Some (n, h)) order.
Definition SwimLeader d : Z :=
  default 0 (foldr (fun '(id, h) acc =>
    if bool_decide (state h = kAlive) && (match acc with Some l => id <? l | None => true end) then Some id else acc) None (GetAllHosts d)).
Definition IsLeader d : bool := self =? SwimLeader d.

Definition ClaimRecovery d n : bool * Detector :=
  (bool_decide ((membership_epoch_ d, n) ∉ initiated d),
   mkDetector (hosts_ d) (dead_nodes_ d) (membership_epoch_ d) (self_fenced_ d) (pending_direct_probes_ d) (pending_indirect_probes_ d)
     (probe_round_robin_idx_ d) (futures d) ({[(membership_epoch_ d, n)]} ∪ initiated d) (recoveries d) (heard d) (probed d)).
Definition TriggerRecovery d n : Detector :=
  if negb (IsLeader d) then d else
  let '(mine, d) := ClaimRecovery d n in
  if negb mine then d else if self_fenced_ d then d else
  mkDetector (hosts_ d) (dead_nodes_ d) (membership_epoch_ d) (self_fenced_ d) (pending_direct_probes_ d) (pending_indirect_probes_ d)
    (probe_round_robin_idx_ d) (futures d) (initiated d) (recoveries d ++ [n]) (heard d) (probed d).

(** * A tick of the detector *)

Section Tick.
Variables (now : Z) (done : Z -> option Z) (shuffle : list Z -> list Z).

(** A probe got through. *)
Definition revive d n : Detector :=
  note (if decide (GetNodeState d n = kDead) then SetAlive d n now else SetNodeState d n kAlive now) n now.

Definition ask_helpers d (target : Z) : Detector :=
  let candidates := map fst (List.filter (fun '(id, h) => negb (id =? self) && negb (id =? target) && bool_decide (state h = kAlive)) (GetAllHosts d)) in
  let helpers := take kIndirectProbeHelpers (shuffle candidates) in
  mkDetector (hosts_ d) (dead_nodes_ d) (membership_epoch_ d) (self_fenced_ d) (pending_direct_probes_ d)
    (pending_indirect_probes_ d ++ imap (fun i helper => mkProbe (futures d + Z.of_nat i) target helper now) helpers)
    (probe_round_robin_idx_ d) (futures d + Z.of_nat (length helpers)) (initiated d) (recoveries d) (heard d) (probed d).

(** The direct probes; [kept] are those still awaited. *)
Fixpoint check_direct (ps kept : list probe) d : Detector :=
  match ps with
  | [] => with_probes d kept (pending_indirect_probes_ d)
  | p :: ps =>
      match done (future p) with
      | Some _ => check_direct ps kept (revive d (target_node_id p))
      | None =>
          if kDirect <? now - sent_at p then
            let n := target_node_id p in
            check_direct ps kept (ask_helpers (if decide (GetNodeState d n = kDead) then d else SetNodeState d n kProbeFailed now) n)
          else check_direct ps (kept ++ [p]) d
      end
  end.

(** The indirect probes. *)
Definition suspect d n (left : list probe) : Detector :=
  if negb (existsb (fun p => target_node_id p =? n) left) && bool_decide (GetNodeState d n = kProbeFailed)
  then SetNodeState d n kSuspected now else d.
Fixpoint check_indirect (ps kept : list probe) d : Detector :=
  match ps with
  | [] => with_probes d (pending_direct_probes_ d) kept
  | p :: ps =>
      match done (future p) with
      | Some 0 =>
          with_probes (revive d (target_node_id p)) (pending_direct_probes_ d)
            (List.filter (fun p' => negb (target_node_id p' =? target_node_id p)) (kept ++ p :: ps))
      | Some _ => check_indirect ps kept (suspect d (target_node_id p) (kept ++ ps))
      | None =>
          if kIndirect <? now - sent_at p then check_indirect ps kept (suspect d (target_node_id p) (kept ++ ps))
          else check_indirect ps (kept ++ [p]) d
      end
  end.

Definition check_suspicion d (nh : Z * Host) : Detector :=
  let '(n, h) := nh in
  if bool_decide (state h = kSuspected) && (kSuspicion <=? now - state_changed_at h) then
    match hosts_ d !! n with
    | Some h' => if now - last_inbound h' <? kSuspicion then d else TriggerRecovery (SetDead d n now) n
    | None => TriggerRecovery (SetDead d n now) n
    end
  else d.

Definition check_fence d : Detector :=
  let others := List.filter (fun nh => negb (fst nh =? self)) (GetAllHosts d) in
  let bad := List.filter (fun nh => bool_decide (state (snd nh) = kSuspected \/ state (snd nh) = kDead)) others in
  mkDetector (hosts_ d) (dead_nodes_ d) (membership_epoch_ d)
    ((0 <? length others)%nat && (length others <? length bad * 2)%nat) (pending_direct_probes_ d) (pending_indirect_probes_ d)
    (probe_round_robin_idx_ d) (futures d) (initiated d) (recoveries d) (heard d) (probed d).

Definition may_probe d (nh : Z * Host) : bool :=
  negb (fst nh =? self) && negb (bool_decide (state (snd nh) = kSuspected)) && negb (bool_decide (state (snd nh) = kProbeFailed)) &&
  negb (existsb (fun p => target_node_id p =? fst nh) (pending_direct_probes_ d)).
Definition send_probe d : Detector :=
  let hosts := GetAllHosts d in
  let size := length hosts in
  if (1 <? size)%nat then
    match List.find (fun i => match hosts !! i with Some nh => may_probe d nh | None => false end)
            (map (fun i => ((probe_round_robin_idx_ d + i) mod size)%nat) (seq 0 size)) with
    | Some i =>
        match hosts !! i with
        | Some (n, _) =>
            mkDetector (hosts_ d) (dead_nodes_ d) (membership_epoch_ d) (self_fenced_ d)
              (pending_direct_probes_ d ++ [mkProbe (futures d) n 0 now]) (pending_indirect_probes_ d)
              (S i mod size)%nat (futures d + 1) (initiated d) (recoveries d) (heard d) (probed d ++ [(n, now)])
        | None => d
        end
    | None => d
    end
  else d.

Definition HeartbeatProbe d : Detector :=
  let d := check_direct (pending_direct_probes_ d) [] d in
  let d := check_indirect (pending_indirect_probes_ d) [] d in
  let d := fold_left check_suspicion (GetAllHosts d) d in
  send_probe (check_fence d).
End Tick.

(** * What else happens *)

(** A task arrives: [sender] is the node of its id, [ret] the node to answer. *)
Definition receive d (sender ret now : Z) : Detector :=
  let d := if negb (sender =? self) && negb (bool_decide (GetNodeState d sender = kAlive)) then SetAlive d sender now else d in
  let d := note d sender now in
  let d := if negb (ret =? self) then NoteInbound d ret now else d in
  if negb (ret =? self) && bool_decide (GetNodeState d ret = kDead) then SetAlive d ret now else d.
Definition AnnounceShutdown d n now : Detector :=
  let d := SetDead d n now in
  if IsLeader d then TriggerRecovery d n else d.

Inductive event :=
  | Tick (done : Z -> option Z) (shuffle : list Z -> list Z)
  | Receive (sender ret : Z)
  | SendFailed n
  | Announced n.
Definition step now d (e : event) : Detector :=
  match e with
  | Tick done shuffle => HeartbeatProbe now done shuffle d
  | Receive sender ret => receive d sender ret now
  | SendFailed n => SetDead d n now
  | Announced n => AnnounceShutdown d n now
  end.
End Swim.

(** * What the detector believes *)

Section Belief.
Variables (self : Z) (order : list Z) (kDirect kIndirect kSuspicion : Z).

Definition doubted (st : NodeState) : Prop := st = kProbeFailed \/ st = kSuspected.

(** A node in doubt has left a direct probe unanswered and has given no sign of life
    since its state changed; the dead nodes are those that are listed. *)
Record core d (clock : Z) : Prop := {
  co_times n h : hosts_ d !! n = Some h -> state_changed_at h <= clock;
  co_heard n t : (n, t) ∈ heard d -> t <= clock;
  co_doubt n h : hosts_ d !! n = Some h -> doubted (state h) ->
    n <> self /\ (exists t, (n, t) ∈ probed d /\ t + kDirect < state_changed_at h) /\ forall t, (n, t) ∈ heard d -> t <= state_changed_at h;
  co_dead n : n ∈ map fst (dead_nodes_ d) <-> exists h, hosts_ d !! n = Some h /\ state h = kDead;
  co_once : NoDup (map fst (dead_nodes_ d)) }.
Definition awaited d (clock : Z) (ps : list probe) : Prop :=
  forall p, p ∈ ps -> (target_node_id p, sent_at p) ∈ probed d /\ target_node_id p <> self /\ sent_at p <= clock.

(** Operations that leave the core alone. *)
Definition alike_core d d' : Prop := hosts_ d' = hosts_ d /\ dead_nodes_ d' = dead_nodes_ d /\ heard d' = heard d /\ probed d' = probed d.
Lemma core_alike d d' clock : alike_core d d' -> core d clock -> core d' clock.
Proof. intros (Eh & Ed & Ee & Ep) [H1 H2 H3 H4 H5]. split; rewrite ?Eh, ?Ed, ?Ee, ?Ep; done. Qed.
Lemma core_later d clock now : clock <= now -> core d clock -> core d now.
Proof. intros Hc [H1 H2 H3 H4 H5]. split; try done; [intros n h Hn; specialize (H1 n h Hn); lia|intros n t Hn; specialize (H2 n t Hn); lia]. Qed.
Lemma awaited_later d d' clock now ps : clock <= now -> probed d' = probed d -> awaited d clock ps -> awaited d' now ps.
Proof. intros Hc Ep H p Hp. rewrite Ep. destruct (H p Hp) as (? & ? & ?). split_and!; [done..|lia]. Qed.

Lemma set_state_lookup d n st now m : hosts_ (SetNodeState d n st now) !! m =
  if decide (n = m) then (fun h => mkHost st now (last_inbound h)) <$> hosts_ d !! m else hosts_ d !! m.
Proof. unfold SetNodeState. cbn. rewrite lookup_alter. case_decide; by subst. Qed.

(** A change of state now, to [st], that neither buries nor revives. *)
Lemma core_set_state d n st now : core d now -> st <> kDead -> GetNodeState d n <> kDead \/ hosts_ d !! n = None ->
  (doubted st -> n <> self /\ exists t, (n, t) ∈ probed d /\ t + kDirect < now) -> core (SetNodeState d n st now) now.
Proof.
  intros [H1 H2 H3 H4 H5] Hst Hn Hd. split; try done.
  - intros m h. rewrite set_state_lookup. case_decide; [|apply H1]. intros (h0 & _ & ->)%fmap_Some. cbn. lia.
  - intros m h. rewrite set_state_lookup. case_decide; [subst m|apply H3]. intros (h0 & Hh0 & ->)%fmap_Some. cbn. intros Hdb.
    destruct (Hd Hdb) as [Hs Ht]. split_and!; [done..|]. intros t Ht'. by apply (H2 n t).
  - intros m. cbn [dead_nodes_ SetNodeState with_hosts]. rewrite H4. rewrite set_state_lookup. case_decide as E; [subst m|done].
    destruct (hosts_ d !! n) as [h0|] eqn:E0; cbn; [|naive_solver]. destruct Hn as [Hn|]; [|done]. unfold GetNodeState in Hn. rewrite E0 in Hn.
    split; [intros (h & [= <-] & ?); done|]. intros (h & [= <-] & Hx). done.
Qed.

Lemma core_note d n now : core d now -> (n <> self -> GetNodeState d n = kAlive \/ hosts_ d !! n = None) -> core (note d n now) now.
Proof.
  intros [H1 H2 H3 H4 H5] Hn. split; try done.
  - cbn. intros m t [Hm|[= -> ->]%list_elem_of_singleton]%elem_of_app; [by eapply H2|lia].
  - cbn. intros m h Hm Hd. destruct (H3 m h Hm Hd) as (Hs & Hp & Hh). split_and!; [done..|].
    intros t [Ht|[= -> ->]%list_elem_of_singleton]%elem_of_app; [by apply Hh|]. destruct (Hn Hs) as [Ha|Ha]; [|congruence].
    unfold GetNodeState in Ha. rewrite Hm in Ha. by destruct Hd as [Hd|Hd]; rewrite Hd in Ha.
Qed.

Lemma dead_listed d clock n : core d clock -> n ∈ map fst (dead_nodes_ d) <-> GetNodeState d n = kDead /\ is_Some (hosts_ d !! n).
Proof.
  intros H. rewrite (co_dead _ _ H). unfold GetNodeState. destruct (hosts_ d !! n) as [h|]; [|by split; [intros (? & ? & _)|intros [_ []]]].
  split; [intros (? & [= <-] & ?); by eauto|]. intros [Hs _]. by eauto.
Qed.

Lemma core_alive d n now : core d now -> core (SetAlive d n now) now /\ (GetNodeState (SetAlive d n now) n = kAlive \/ hosts_ (SetAlive d n now) !! n = None).
Proof.
  intros H. unfold SetAlive, GetNodeState. change (hosts_ (next_epoch d)) with (hosts_ d). destruct (hosts_ d !! n) as [h|] eqn:Eh.
  2: { change (hosts_ (next_epoch d)) with (hosts_ d). rewrite Eh. split; [|by right]. by apply (core_alike d). }
  case_decide as Ha; [change (hosts_ (next_epoch d)) with (hosts_ d); rewrite Eh; split; [by apply (core_alike d)|by left]|].
  destruct H as [H1 H2 H3 H4 H5]. split; [|left; cbn; by rewrite lookup_alter_eq, Eh]. split; cbn [hosts_ dead_nodes_ heard probed with_dead SetNodeState with_hosts next_epoch]; try done.
  - intros m h'. rewrite lookup_alter. case_decide; [|apply H1]. intros (h0 & _ & ->)%fmap_Some. cbn. lia.
  - intros m h'. rewrite lookup_alter. case_decide; [|apply H3]. intros (h0 & _ & ->)%fmap_Some. by intros [?|?].
  - intros m. rewrite lookup_alter. assert (m ∈ map fst (List.filter (fun e => negb (fst e =? n)) (dead_nodes_ d)) <-> m <> n /\ m ∈ map fst (dead_nodes_ d)) as ->.
    { change (map fst ?l) with (l.*1). rewrite !list_elem_of_fmap. split.
      - intros (e & -> & [Hin Hf]%list_elem_of_In%filter_In%(conj I)%proj2). apply negb_true_iff, Z.eqb_neq in Hf. split; [done|]. exists e. split; [done|]. by apply list_elem_of_In.
      - intros (Hne & e & -> & Hin). exists e. split; [done|]. apply list_elem_of_In, filter_In. split; [by apply list_elem_of_In|]. by apply negb_true_iff, Z.eqb_neq. }
    rewrite H4. case_decide as E; [subst m; rewrite Eh; cbn|]; naive_solver.
  - clear -H5. induction (dead_nodes_ d) as [|e l IH]; [constructor|]. cbn in *. apply NoDup_cons in H5 as [Hn Hl]. destruct (negb _); [|by apply IH]. cbn. apply NoDup_cons. split; [|by apply IH].
    intros Hin. apply Hn. change (map fst ?l) with (l.*1) in *. apply list_elem_of_fmap in Hin as (e' & -> & Hin). apply list_elem_of_In, filter_In in Hin as [Hin _].
    apply list_elem_of_fmap_2. by apply list_elem_of_In.
Qed.

Lemma core_dead d n now : core d now -> core (SetDead d n now) now.
Proof.
  intros H. unfold SetDead. change (hosts_ (next_epoch d)) with (hosts_ d). destruct (hosts_ d !! n) as [h|] eqn:Eh; [|by apply (core_alike d)].
  case_decide as Ha; [by apply (core_alike d)|]. assert (n ∉ map fst (dead_nodes_ d)) as Hnot.
  { rewrite (co_dead _ _ H). intros (h' & Hh' & Hs). congruence. }
  destruct H as [H1 H2 H3 H4 H5]. split; cbn [hosts_ dead_nodes_ heard probed with_dead SetNodeState with_hosts next_epoch]; try done.
  - intros m h'. rewrite lookup_alter. case_decide; [|apply H1]. intros (h0 & _ & ->)%fmap_Some. cbn. lia.
  - intros m h'. rewrite lookup_alter. case_decide; [|apply H3]. intros (h0 & _ & ->)%fmap_Some. by intros [?|?].
  - intros m. rewrite map_app, elem_of_app. cbn. rewrite list_elem_of_singleton, H4, lookup_alter. case_decide as E; [subst m; rewrite Eh; cbn; naive_solver|]. naive_solver.
  - rewrite map_app. apply NoDup_app. split_and!; [done| |apply NoDup_singleton]. by intros m Hm ->%list_elem_of_singleton.
Qed.

(** * Each part of a tick *)

Section Parts.
Variables (now : Z) (done : Z -> option Z) (shuffle : list Z -> list Z).

(** What happens to the states in a part that buries nobody. *)
Definition buries_none d d' : Prop := forall n, GetNodeState d' n = kDead -> GetNodeState d n = kDead.
Lemma buries_none_refl d : buries_none d d.
Proof. by intros n Hn. Qed.
#[local] Hint Resolve buries_none_refl : core.
Lemma buries_none_trans d1 d2 d3 : buries_none d1 d2 -> buries_none d2 d3 -> buries_none d1 d3.
Proof. intros H1 H2 n Hn. by apply H1, H2. Qed.

Lemma set_state_buries d n st : st <> kDead -> buries_none d (SetNodeState d n st now).
Proof.
  intros Hst m. unfold GetNodeState. rewrite set_state_lookup. case_decide; [subst m|done]. destruct (hosts_ d !! n); cbn; [by intros ?|done].
Qed.
Lemma alive_buries d n : buries_none d (SetAlive d n now).
Proof.
  intros m. unfold SetAlive. change (hosts_ (next_epoch d)) with (hosts_ d). destruct (hosts_ d !! n) as [h|]; [case_decide|]; [done| |done].
  apply (set_state_buries (next_epoch d) n kAlive ltac:(done) m).
Qed.

Lemma revive_ok d n : core d now -> core (revive now d n) now /\ buries_none d (revive now d n) /\ probed (revive now d n) = probed d.
Proof.
  intros H. unfold revive. case_decide as Hd.
  - destruct (core_alive d n now H) as [Hc Ha]. split_and!; [by apply core_note|apply alive_buries|]. unfold SetAlive. cbn. by repeat case_match.
  - split_and!; [|by apply set_state_buries|done]. apply core_note; [apply core_set_state; [done..|by left|by intros [?|?]]|]. intros _.
    unfold GetNodeState. rewrite set_state_lookup, decide_True by done. destruct (hosts_ d !! n); [by left|by right].
Qed.

Lemma ask_alike d n : alike_core d (ask_helpers self order now shuffle d n).
Proof. done. Qed.

Lemma check_direct_ok ps : forall kept d, core d now -> awaited d now ps -> awaited d now kept ->
  let d' := check_direct self order kDirect now done shuffle ps kept d in
  core d' now /\ awaited d' now (pending_direct_probes_ d') /\ buries_none d d'.
Proof.
  induction ps as [|p ps IH]; intros kept d H Hps Hkept; cbn [check_direct].
  - split_and!; [by apply (core_alike d)|exact Hkept|by intros n Hn].
  - assert (awaited d now ps) as Hps' by (intros q Hq; apply Hps; by right). destruct (Hps p ltac:(by left)) as (Hp & Hs & Ht).
    destruct (done (future p)).
    + destruct (revive_ok d (target_node_id p) H) as (Hc & Hb & Ep).
      destruct (IH kept (revive now d (target_node_id p)) Hc) as (Hc' & Ha' & Hb'); [by apply (awaited_later d _ now)..|]. split_and!; [done..|by eapply buries_none_trans].
    + destruct (Z.ltb_spec kDirect (now - sent_at p)) as [Hlt|_].
      * set (d1 := if decide (GetNodeState d (target_node_id p) = kDead) then d else SetNodeState d (target_node_id p) kProbeFailed now).
        assert (core d1 now /\ buries_none d d1 /\ probed d1 = probed d) as (Hc & Hb & Ep).
        { subst d1. case_decide as Hd; [done|]. split_and!; [|by apply set_state_buries|done]. apply core_set_state; [done..|by left|]. intros _. split; [done|].
          exists (sent_at p). split; [done|lia]. }
        clearbody d1. destruct (IH kept (ask_helpers self order now shuffle d1 (target_node_id p))) as (Hc' & Ha' & Hb'); [by apply (core_alike d1)|by apply (awaited_later d _ now)..|].
        split_and!; [done..|]. eapply buries_none_trans; [exact Hb|exact Hb'].
      * apply IH; [done..|]. intros q [Hq| ->%list_elem_of_singleton]%elem_of_app; [by apply Hkept|done].
Qed.

Lemma suspect_ok d n left : core d now -> core (suspect now d n left) now /\ buries_none d (suspect now d n left) /\ probed (suspect now d n left) = probed d /\
  pending_direct_probes_ (suspect now d n left) = pending_direct_probes_ d.
Proof.
  intros H. unfold suspect. destruct (negb _); [|done]. case_bool_decide as Hf; [|done]. cbn [andb]. split_and!; [|by apply set_state_buries|done..].
  unfold GetNodeState in Hf. destruct (hosts_ d !! n) as [h|] eqn:Eh; [|done]. apply core_set_state; [done..|left; unfold GetNodeState; rewrite Eh; by rewrite Hf|].
  intros _. destruct (co_doubt _ _ H n h Eh ltac:(by left)) as (Hs & (t & Ht & Hlt) & _). split; [done|]. exists t. split; [done|]. pose proof (co_times _ _ H n h Eh). lia.
Qed.

Lemma check_indirect_ok ps : forall kept d, core d now -> let d' := check_indirect kIndirect now done ps kept d in
  core d' now /\ buries_none d d' /\ probed d' = probed d /\ pending_direct_probes_ d' = pending_direct_probes_ d.
Proof.
  induction ps as [|p ps IH]; intros kept d H; cbn [check_indirect]; [split_and!; [by apply (core_alike d)|by intros n Hn|done..]|].
  assert (forall left, let d' := check_indirect kIndirect now done ps kept (suspect now d (target_node_id p) left) in
    core d' now /\ buries_none d d' /\ probed d' = probed d /\ pending_direct_probes_ d' = pending_direct_probes_ d) as Hsus.
  { intros left. destruct (suspect_ok d (target_node_id p) left H) as (Hc & Hb & Ep & Ed). destruct (IH kept _ Hc) as (Hc' & Hb' & Ep' & Ed').
    cbv zeta. split_and!; [done|by eapply buries_none_trans|congruence|congruence]. }
  destruct (done (future p)) as [[| |]|]; try apply Hsus.
  - destruct (revive_ok d (target_node_id p) H) as (Hc & Hb & Ep). split_and!; [by apply (core_alike (revive now d (target_node_id p)))|exact Hb|exact Ep|].
    unfold revive, SetAlive. cbn. by repeat case_match.
  - destruct (kIndirect <? now - sent_at p); [apply Hsus|by apply IH].
Qed.

Lemma trigger_alike d n : alike_core d (TriggerRecovery self order d n) /\ pending_direct_probes_ (TriggerRecovery self order d n) = pending_direct_probes_ d.
Proof. unfold TriggerRecovery, ClaimRecovery. by repeat case_match. Qed.
Lemma set_dead_same d n : heard (SetDead d n now) = heard d /\ probed (SetDead d n now) = probed d /\ pending_direct_probes_ (SetDead d n now) = pending_direct_probes_ d.
Proof. unfold SetDead. cbn. by repeat case_match. Qed.

(** A suspicion is confirmed. *)
Definition due (nh : Z * Host) : Prop := state (snd nh) = kSuspected /\ kSuspicion <= now - state_changed_at (snd nh).
Lemma check_suspicion_ok nhs : forall d, core d now -> let d' := fold_left (check_suspicion self order kSuspicion now) nhs d in
  core d' now /\ heard d' = heard d /\ probed d' = probed d /\ pending_direct_probes_ d' = pending_direct_probes_ d /\
  (forall n, GetNodeState d' n = kDead -> GetNodeState d n = kDead \/ exists h, (n, h) ∈ nhs /\ due (n, h)).
Proof.
  induction nhs as [|[n h] nhs IH]; intros d H; cbn [fold_left]; [split_and!; try done; by left|].
  assert (exists d1, check_suspicion self order kSuspicion now d (n, h) = d1 /\ core d1 now /\ heard d1 = heard d /\ probed d1 = probed d /\
    pending_direct_probes_ d1 = pending_direct_probes_ d /\ forall m, GetNodeState d1 m = kDead -> GetNodeState d m = kDead \/ (m = n /\ due (n, h))) as (d1 & -> & Hc & Eh & Ep & Ed & Hm).
  { eexists. split; [done|]. unfold check_suspicion. case_bool_decide as Hs; [|split_and!; try done; by left]. destruct (Z.leb_spec kSuspicion (now - state_changed_at h)) as [Hd|_]; [|split_and!; try done; by left].
    cbn [andb]. assert (let d1 := TriggerRecovery self order (SetDead d n now) n in core d1 now /\ heard d1 = heard d /\ probed d1 = probed d /\
      pending_direct_probes_ d1 = pending_direct_probes_ d /\ forall m, GetNodeState d1 m = kDead -> GetNodeState d m = kDead \/ (m = n /\ due (n, h))) as Hdie.
    { destruct (trigger_alike (SetDead d n now) n) as [Ha Ed]. destruct (set_dead_same d n) as (Eh & Ep & Epd). cbv zeta. split_and!.
      - apply (core_alike _ _ _ Ha). by apply core_dead.
      - destruct Ha as (_ & _ & -> & _). done.
      - destruct Ha as (_ & _ & _ & ->). done.
      - by rewrite Ed.
      - intros m. unfold GetNodeState. destruct Ha as (-> & _). unfold SetDead. change (hosts_ (next_epoch d)) with (hosts_ d).
        destruct (hosts_ d !! n) as [h0|]; [case_decide; [by left|]|by left]. cbn. rewrite lookup_alter. case_decide; [subst m; intros _; right; done|by left]. }
    destruct (hosts_ d !! n); [|exact Hdie]. destruct (_ <? _); [split_and!; try done; by left|exact Hdie]. }
  destruct (IH d1 Hc) as (Hc' & Eh' & Ep' & Ed' & Hm'). split_and!; [done|congruence..|].
  intros m Hd. destruct (Hm' m Hd) as [Hd1|(h' & Hin & Hdue)]; [|right; exists h'; split; [by right|done]].
  destruct (Hm m Hd1) as [?|[-> Hdue]]; [by left|right]. exists h. split; [by left|done].
Qed.

Lemma send_probe_ok d : core d now -> awaited d now (pending_direct_probes_ d) -> let d' := send_probe self order now d in
  core d' now /\ awaited d' now (pending_direct_probes_ d') /\ hosts_ d' = hosts_ d /\ heard d' = heard d /\ probed d ⊆ probed d'.
Proof.
  intros H Ha. unfold send_probe. destruct (_ <? _)%nat; [|done]. destruct (List.find _ _) as [i|] eqn:Ef; [|done].
  apply find_some in Ef as [_ Hmay]. destruct (GetAllHosts order d !! i) as [[n h]|]; [|done].
  assert (n <> self) as Hn. { unfold may_probe in Hmay. cbn in Hmay. rewrite !andb_true_iff, negb_true_iff in Hmay. by apply Z.eqb_neq, Hmay. }
  cbv zeta. cbn. split_and!; [| |done|done|intros x Hx; apply elem_of_app; by left].
  - destruct H as [H1 H2 H3 H4 H5]. split; cbn; try done. intros m h' Hm Hd. destruct (H3 m h' Hm Hd) as (Hs & (t & Ht & Hlt) & Hh). split_and!; [done| |done].
    exists t. split; [apply elem_of_app; by left|done].
  - intros p [Hp| ->%list_elem_of_singleton]%elem_of_app; cbn.
    + destruct (Ha p Hp) as (? & ? & ?). split_and!; [apply elem_of_app; by left|done..].
    + split_and!; [apply elem_of_app; right; by left|done|lia].
Qed.
End Parts.

(** * The detector over time *)

Abbreviation after now d e := (step self order kDirect kIndirect kSuspicion now d e).

Inductive run : Detector -> Z -> Prop :=
  | RunStart d clock : (forall n h, hosts_ d !! n = Some h -> state h = kAlive /\ state_changed_at h <= clock) ->
      dead_nodes_ d = [] -> pending_direct_probes_ d = [] -> heard d = [] -> probed d = [] -> run d clock
  | RunStep d clock now e : run d clock -> clock <= now -> run (after now d e) now.

Lemma note_inbound_ok d n now : core d now -> core (NoteInbound d n now) now.
Proof.
  intros [H1 H2 H3 H4 H5]. assert (forall m h, hosts_ (NoteInbound d n now) !! m = Some h ->
    exists h0, hosts_ d !! m = Some h0 /\ state h = state h0 /\ state_changed_at h = state_changed_at h0) as Hl.
  { intros m h. unfold NoteInbound. cbn. rewrite lookup_alter. case_decide; [subst m|by eauto]. intros (h0 & -> & ->)%fmap_Some. by eauto. }
  split; try done.
  - intros m h (h0 & Hm & _ & ->)%Hl. by apply (H1 m).
  - intros m h (h0 & Hm & -> & ->)%Hl. by apply H3.
  - intros m. cbn. rewrite H4. rewrite lookup_alter. case_decide; [subst m|done]. destruct (hosts_ d !! n) as [h0|]; cbn; [|naive_solver].
    split; (intros (h & [= <-] & Hs); eexists; split; [done|exact Hs]).
Qed.

Lemma set_alive_same d n now : heard (SetAlive d n now) = heard d /\ probed (SetAlive d n now) = probed d /\ pending_direct_probes_ (SetAlive d n now) = pending_direct_probes_ d.
Proof. unfold SetAlive. cbn. by repeat case_match. Qed.

Lemma receive_ok d sender ret now : core d now ->
  core (receive self d sender ret now) now /\ probed (receive self d sender ret now) = probed d /\
  pending_direct_probes_ (receive self d sender ret now) = pending_direct_probes_ d.
Proof.
  intros H. unfold receive. set (d1 := if negb (sender =? self) && _ then _ else d).
  assert (core d1 now /\ (sender <> self -> GetNodeState d1 sender = kAlive \/ hosts_ d1 !! sender = None) /\ probed d1 = probed d /\ pending_direct_probes_ d1 = pending_direct_probes_ d) as (Hc1 & Ha1 & Ep1 & Ed1).
  { subst d1. destruct (Z.eqb_spec sender self) as [Hs|Hs]; cbn [negb andb]; [by split_and!|]. case_bool_decide as Ha; cbn [negb]; [split_and!; try done; by left|].
    destruct (core_alive d sender now H) as [Hc Hx]. destruct (set_alive_same d sender now) as (_ & ? & ?). by split_and!. }
  clearbody d1. pose proof (core_note d1 sender now Hc1 Ha1) as Hc2. set (d3 := if negb (ret =? self) then NoteInbound (note d1 sender now) ret now else note d1 sender now).
  assert (core d3 now /\ probed d3 = probed d /\ pending_direct_probes_ d3 = pending_direct_probes_ d) as (Hc3 & Ep3 & Ed3).
  { subst d3. destruct (negb _); [split_and!; [by apply note_inbound_ok|done..]|by split_and!]. }
  clearbody d3. destruct (negb _ && _); [|by split_and!]. destruct (core_alive d3 ret now Hc3) as [Hc _]. destruct (set_alive_same d3 ret now) as (_ & ? & ?).
  split_and!; [done|congruence..].
Qed.

(** The four parts of a tick. *)
Lemma tick_ok d now done shuffle : core d now -> awaited d now (pending_direct_probes_ d) ->
  let d' := HeartbeatProbe self order kDirect kIndirect kSuspicion now done shuffle d in
  core d' now /\ awaited d' now (pending_direct_probes_ d') /\
  forall n, GetNodeState d' n = kDead -> GetNodeState d n = kDead \/
    hosts_ d' !! n = None \/ exists h t, due now (n, h) /\ (n, t) ∈ probed d' /\ t + kDirect < state_changed_at h /\ forall t, (n, t) ∈ heard d' -> t <= state_changed_at h.
Proof.
  intros H Ha. unfold HeartbeatProbe.
  destruct (check_direct_ok now done shuffle (pending_direct_probes_ d) [] d H Ha ltac:(by intros p ?%elem_of_nil)) as (H1 & Ha1 & B1).
  set (d1 := check_direct _ _ _ _ _ _ _ _ _) in *. clearbody d1.
  destruct (check_indirect_ok now done (pending_indirect_probes_ d1) [] d1 H1) as (H2 & B2 & Ep2 & Ed2). set (d2 := check_indirect _ _ _ _ _ _) in *. clearbody d2.
  destruct (check_suspicion_ok now (GetAllHosts order d2) d2 H2) as (H3 & Eh3 & Ep3 & Ed3 & B3). set (d3 := fold_left _ _ _) in *. clearbody d3.
  destruct (send_probe_ok now (check_fence self order d3)) as (H4 & Ha4 & Eho4 & Eh4 & Hsub4).
  { by apply (core_alike d3). }
  { intros p Hp. change (p ∈ pending_direct_probes_ d3) in Hp. rewrite Ed3, Ed2 in Hp. destruct (Ha1 p Hp) as (? & ? & ?).
    change (probed (check_fence self order d3)) with (probed d3). rewrite Ep3, Ep2. done. }
  cbv zeta. split_and!; [done..|]. intros n Hn. unfold GetNodeState in Hn. rewrite Eho4 in Hn. change (GetNodeState d3 n = kDead) in Hn.
  destruct (B3 n Hn) as [Hd|(h & Hin & Hdue)]; [left; by apply B1, B2|]. right. right.
  unfold GetAllHosts in Hin. apply list_elem_of_omap in Hin as (m & _ & Hm). destruct (hosts_ d2 !! m) as [h'|] eqn:Eh; [|done]. cbn in Hm. injection Hm as -> ->.
  destruct (co_doubt _ _ H2 n h Eh ltac:(right; apply Hdue)) as (_ & (t & Ht & Hlt) & Hh). exists h, t. split_and!; [done| |done|].
  - apply Hsub4. change (probed (check_fence self order d3)) with (probed d3). by rewrite Ep3.
  - rewrite Eh4. change (heard (check_fence self order d3)) with (heard d3). by rewrite Eh3.
Qed.

Lemma run_sound d clock : run d clock -> core d clock /\ awaited d clock (pending_direct_probes_ d).
Proof.
  induction 1 as [d clock Hh Ed Ep Ehd Epd|d clock now e _ [Hc Ha] Hle].
  - rewrite Ep. split; [|by intros p ?%elem_of_nil]. split.
    + intros n h Hn. by apply (Hh n h).
    + rewrite Ehd. by intros n t ?%elem_of_nil.
    + intros n h Hn. destruct (Hh n h Hn) as [-> _]. by intros [?|?].
    + intros n. rewrite Ed. cbn. rewrite elem_of_nil. split; [done|]. intros (h & Hn & Hs). destruct (Hh n h Hn) as [E _]. congruence.
    + rewrite Ed. constructor.
  - apply (core_later _ _ now Hle) in Hc. apply (awaited_later d d clock now _ Hle eq_refl) in Ha. destruct e as [done shuffle|sender ret|n|n]; cbn [step].
    + destruct (tick_ok d now done shuffle Hc Ha) as (? & ? & _). done.
    + destruct (receive_ok d sender ret now Hc) as (? & Ep & Ed). rewrite Ed. split; [done|]. by apply (awaited_later d _ now).
    + destruct (set_dead_same now d n) as (_ & Ep & Ed). rewrite Ed. split; [by apply core_dead|]. by apply (awaited_later d _ now).
    + unfold AnnounceShutdown. destruct (set_dead_same now d n) as (_ & Ep & Ed). pose proof (core_dead d n now Hc) as Hcd.
      destruct (IsLeader self order (SetDead d n now)).
      * destruct (trigger_alike (SetDead d n now) n) as [Hal Ed']. split; [by apply (core_alike _ _ _ Hal)|]. rewrite Ed', Ed.
        apply (awaited_later d _ now); [done| |done]. destruct Hal as (_ & _ & _ & ->). done.
      * rewrite Ed. split; [done|]. by apply (awaited_later d _ now).
Qed.

End Belief.

(** * A silent node is declared dead

    Node [n] is silent; node [k] answers, so there is somebody to ask. *)

Section Silence.
Variables (self : Z) (order : list Z) (kDirect kIndirect kSuspicion : Z) (n k : Z).
Hypothesis nodes_in : n ∈ order /\ k ∈ order /\ NoDup order.
Hypothesis nodes_apart : n <> self /\ k <> self /\ k <> n.

Definition of_n (ps : list probe) : list probe := List.filter (fun p => target_node_id p =? n) ps.
Lemma of_n_app xs ys : of_n (xs ++ ys) = of_n xs ++ of_n ys.
Proof. apply List.filter_app. Qed.
Definition helper_up d : Prop := exists h, hosts_ d !! k = Some h /\ state h = kAlive.

Lemma set_state_other d m st now : m <> n -> hosts_ (SetNodeState d m st now) !! n = hosts_ d !! n.
Proof. intros Hm. rewrite set_state_lookup. by rewrite decide_False. Qed.
Lemma set_alive_other d m now : m <> n -> hosts_ (SetAlive d m now) !! n = hosts_ d !! n.
Proof. intros Hm. unfold SetAlive. cbn. repeat case_match; try done. cbn. by rewrite lookup_alter_ne. Qed.
Lemma revive_other now d m : m <> n -> hosts_ (revive now d m) !! n = hosts_ d !! n.
Proof. intros Hm. unfold revive. cbn. case_decide; [by apply set_alive_other|by apply set_state_other]. Qed.
Lemma revive_indirect now d m : pending_indirect_probes_ (revive now d m) = pending_indirect_probes_ d.
Proof. unfold revive, SetAlive. cbn. by repeat case_match. Qed.
Lemma set_state_up d m st now : m <> k -> helper_up d -> helper_up (SetNodeState d m st now).
Proof. intros Hm (h & Hh & Hs). exists h. rewrite set_state_lookup, decide_False by done. done. Qed.
Lemma revive_up now d m : helper_up d -> helper_up (revive now d m).
Proof.
  intros (h & Hh & Hs). unfold revive. destruct (decide (m = k)) as [->|Hm].
  - unfold helper_up, GetNodeState. rewrite Hh, decide_False by (rewrite Hs; done). eexists. cbn [hosts_ note]. rewrite set_state_lookup, decide_True, Hh by done. done.
  - exists h. cbn. case_decide; [|by rewrite set_state_lookup, decide_False by done]. unfold SetAlive. cbn. repeat case_match; cbn; rewrite ?lookup_alter_ne by done; done.
Qed.

Section Tick.
Variables (now : Z) (done : Z -> option Z) (shuffle : list Z -> list Z).
Hypothesis shuffles : forall l, shuffle l ≡ₚ l.

Definition answered (ps : list probe) : Prop := forall p, p ∈ ps -> target_node_id p = k -> done (future p) <> None.
Definition unanswered (ps : list probe) : Prop := forall p, p ∈ ps -> target_node_id p = n -> done (future p) = None.

Lemma all_hosts_in d m h : hosts_ d !! m = Some h -> m ∈ order -> (m, h) ∈ GetAllHosts order d.
Proof. intros Hh Hm. unfold GetAllHosts. apply list_elem_of_omap. exists m. split; [done|]. by rewrite Hh. Qed.
Lemma all_hosts_lookup d m h : (m, h) ∈ GetAllHosts order d -> hosts_ d !! m = Some h.
Proof. unfold GetAllHosts. rewrite list_elem_of_omap. intros (m' & _ & Hm). destruct (hosts_ d !! m') as [h'|] eqn:E; [|done]. cbn in Hm. by injection Hm as -> ->. Qed.

(** The helpers are asked about the right node, and now; there is one for [n]. *)
Lemma asked d m : exists new, pending_indirect_probes_ (ask_helpers self order now shuffle d m) = pending_indirect_probes_ d ++ new /\
  (forall p, p ∈ new -> target_node_id p = m /\ sent_at p = now) /\ (m = n -> helper_up d -> new <> []).
Proof.
  unfold ask_helpers. eexists. split; [done|]. split.
  - intros p (i & helper & -> & _)%elem_of_lookup_imap_1. done.
  - intros -> (h & Hh & Hs) Hnil. apply (f_equal length) in Hnil. rewrite length_imap, length_take in Hnil. cbn [length] in Hnil.
    rewrite (Permutation_length (shuffles _)) in Hnil. destruct nodes_apart as (Hn & Hk & Hkn). destruct nodes_in as (_ & Hko & _).
    assert ((k, h) ∈ List.filter (fun '(id, h) => negb (id =? self) && negb (id =? n) && bool_decide (state h = kAlive)) (GetAllHosts order d)) as Hin.
    { apply list_elem_of_In, filter_In. split; [by apply list_elem_of_In, all_hosts_in|]. rewrite Hs, bool_decide_eq_true_2 by done.
      by rewrite (proj2 (Z.eqb_neq _ _) Hk), (proj2 (Z.eqb_neq _ _) Hkn). }
    rewrite length_map in Hnil. destruct (List.filter _ _); [by apply elem_of_nil in Hin|]. cbn in Hnil. unfold kIndirectProbeHelpers in Hnil. lia.
Qed.

Lemma asked_of_n d m : of_n (pending_indirect_probes_ (ask_helpers self order now shuffle d m)) = of_n (pending_indirect_probes_ d) \/ m = n.
Proof.
  destruct (decide (m = n)) as [|Hm]; [by right|left]. destruct (asked d m) as (new & -> & Hnew & _). rewrite of_n_app.
  assert (of_n new = []) as ->; [|by rewrite app_nil_r]. clear -Hnew Hm. induction new as [|p new IH]; [done|]. cbn.
  destruct (Hnew p ltac:(by left)) as [-> _]. rewrite (proj2 (Z.eqb_neq _ _) Hm). apply IH. intros q Hq. apply Hnew. by right.
Qed.

(** The direct probes. *)
Definition n_same d d' : Prop := hosts_ d' !! n = hosts_ d !! n /\ of_n (pending_indirect_probes_ d') = of_n (pending_indirect_probes_ d).
Definition n_failed d d' : Prop :=
  (forall h, hosts_ d !! n = Some h -> state h <> kDead -> hosts_ d' !! n = Some (mkHost kProbeFailed now (last_inbound h))) /\
  exists new, of_n (pending_indirect_probes_ d') = of_n (pending_indirect_probes_ d) ++ new /\ new <> [] /\ forall p, p ∈ new -> sent_at p = now.
Definition expired p : bool := kDirect <? now - sent_at p.

Lemma direct_n ps : forall kept d, helper_up d -> answered ps -> unanswered ps ->
  let d' := check_direct self order kDirect now done shuffle ps kept d in
  helper_up d' /\
  match of_n ps with
  | [] => n_same d d' /\ of_n (pending_direct_probes_ d') = of_n kept
  | [p] => if expired p then n_failed d d' /\ of_n (pending_direct_probes_ d') = of_n kept
           else n_same d d' /\ of_n (pending_direct_probes_ d') = of_n kept ++ [p]
  | _ => True
  end.
Proof.
  induction ps as [|p ps IH]; intros kept d Hk Ha Hu; cbn [check_direct of_n List.filter]; [done|].
  assert (answered ps) as Ha' by (intros q Hq; apply Ha; by right). assert (unanswered ps) as Hu' by (intros q Hq; apply Hu; by right).
  fold (of_n ps). assert (forall d1 kept1, helper_up d1 -> n_same d d1 -> of_n kept1 = of_n kept ->
    let d' := check_direct self order kDirect now done shuffle ps kept1 d1 in
    helper_up d' /\ match of_n ps with
      | [] => n_same d d' /\ of_n (pending_direct_probes_ d') = of_n kept
      | [p] => if expired p then n_failed d d' /\ of_n (pending_direct_probes_ d') = of_n kept else n_same d d' /\ of_n (pending_direct_probes_ d') = of_n kept ++ [p]
      | _ => True end) as Hgo.
  { intros d1 kept1 Hk1 [Eh Ei] Ek. cbv zeta. destruct (IH kept1 d1 Hk1 Ha' Hu') as (Hk' & H). split; [done|]. rewrite Ek in H. unfold n_same, n_failed in *. rewrite Eh, Ei in H. exact H. }
  destruct (Z.eqb_spec (target_node_id p) n) as [En|En].
  - rewrite (Hu p ltac:(by left) En). fold (expired p). destruct (of_n ps) as [|q l] eqn:Ef.
    2: { cbv zeta. split; [|done]. clear Hgo. destruct (expired p); [|by apply IH]. apply IH; [|done..]. rewrite En. change (helper_up (if decide (GetNodeState d n = kDead) then d else SetNodeState d n kProbeFailed now)).
         case_decide; [done|]. apply set_state_up; [|done]. by destruct nodes_apart as (_ & _ & ?). }
    destruct (expired p) eqn:Ex.
    + rewrite En. set (d1 := if decide (GetNodeState d n = kDead) then d else SetNodeState d n kProbeFailed now).
      assert (helper_up d1 /\ pending_indirect_probes_ d1 = pending_indirect_probes_ d /\ forall h, hosts_ d !! n = Some h -> state h <> kDead -> hosts_ d1 !! n = Some (mkHost kProbeFailed now (last_inbound h))) as (Hk1 & Ei & Hh1).
      { subst d1. unfold GetNodeState. destruct nodes_apart as (_ & _ & Hkn). case_decide as Hd; [split_and!; [done..|]; intros h Hh Hs; by rewrite Hh in Hd|].
        split_and!; [by apply set_state_up|done|]. intros h Hh _. by rewrite set_state_lookup, decide_True, Hh by done. }
      clearbody d1. destruct (asked d1 n) as (new & Enew & Hnew & Hne). destruct (IH kept (ask_helpers self order now shuffle d1 n) Hk1 Ha' Hu') as (Hk' & (Eh' & Ei') & Ed').
      split; [done|]. split; [|done]. split; [intros h Hh Hs; rewrite Eh'; by apply Hh1|]. exists new. rewrite Ei', Enew, of_n_app, Ei. split_and!; [|by apply Hne|by intros q Hq; apply Hnew].
      f_equal. clear -Hnew. induction new as [|q new IH]; [done|]. cbn. destruct (Hnew q ltac:(by left)) as [-> _]. rewrite Z.eqb_refl. f_equal. apply IH. intros q' Hq. apply Hnew. by right.
    + destruct (IH (kept ++ [p]) d Hk Ha' Hu') as (Hk' & Hs & Ed'). split_and!; [done..|]. rewrite Ed', of_n_app. cbn. by rewrite (proj2 (Z.eqb_eq _ _) En).
  - destruct (done (future p)) eqn:Edone.
    + apply Hgo; [by apply revive_up| |done]. split; [by apply revive_other|by rewrite revive_indirect].
    + destruct (kDirect <? now - sent_at p).
      * assert (target_node_id p <> k) as Epk by (intros E; by apply (Ha p ltac:(by left) E)).
        set (d1 := if decide (GetNodeState d (target_node_id p) = kDead) then d else SetNodeState d (target_node_id p) kProbeFailed now).
        assert (helper_up d1 /\ n_same d d1) as [Hk1 [Eh Ei]].
        { subst d1. case_decide; [done|]. split; [by apply set_state_up|]. split; [by apply set_state_other|done]. }
        clearbody d1. apply Hgo; [exact Hk1| |done]. split; [exact Eh|]. destruct (asked_of_n d1 (target_node_id p)) as [->|]; done.
      * apply Hgo; [done..|]. rewrite of_n_app. cbn. rewrite (proj2 (Z.eqb_neq _ _) En). by rewrite app_nil_r.
Qed.

(** The indirect probes, when none succeeds. *)
Definition still (p : probe) : bool := match done (future p) with None => negb (kIndirect <? now - sent_at p) | Some _ => false end.
Definition no_success (ps : list probe) : Prop := forall p, p ∈ ps -> done (future p) <> Some 0.

Lemma of_n_exists ps : existsb (fun p => target_node_id p =? n) ps = match of_n ps with [] => false | _ => true end.
Proof. induction ps as [|p ps IH]; [done|]. cbn. by destruct (_ =? _). Qed.

Lemma suspect_other d m left : m <> n -> hosts_ (suspect now d m left) !! n = hosts_ d !! n.
Proof. intros Hm. unfold suspect. destruct (_ && _); [by apply set_state_other|done]. Qed.
Lemma suspect_up d m left : helper_up d -> helper_up (suspect now d m left).
Proof.
  intros (h & Hh & Hs). unfold suspect. destruct (_ && _) eqn:E; [|by exists h]. apply andb_true_iff in E as [_ E%bool_decide_eq_true].
  apply set_state_up; [|by exists h]. intros ->. unfold GetNodeState in E. rewrite Hh in E. congruence.
Qed.
Lemma suspect_n d left h : hosts_ d !! n = Some h ->
  hosts_ (suspect now d n left) !! n = Some (if decide (state h = kProbeFailed /\ of_n left = []) then mkHost kSuspected now (last_inbound h) else h).
Proof.
  intros Hh. unfold suspect, GetNodeState. rewrite Hh, of_n_exists. destruct (of_n left) eqn:E; cbn [negb andb]; [|by rewrite decide_False by (by intros [_ ?])].
  case_bool_decide as Hs; [rewrite decide_True by done|by rewrite decide_False by (by intros [? _])]. by rewrite set_state_lookup, decide_True, Hh by done.
Qed.

Lemma indirect_n ps : forall kept d h, helper_up d -> no_success ps -> hosts_ d !! n = Some h ->
  let d' := check_indirect kIndirect now done ps kept d in
  helper_up d' /\ pending_direct_probes_ d' = pending_direct_probes_ d /\ pending_indirect_probes_ d' = kept ++ List.filter still ps /\
  (state h <> kProbeFailed -> hosts_ d' !! n = Some h) /\
  (state h = kProbeFailed -> of_n (kept ++ ps) <> [] ->
    hosts_ d' !! n = Some (if decide (of_n (kept ++ List.filter still ps) = []) then mkHost kSuspected now (last_inbound h) else h)).
Proof.
  induction ps as [|p ps IH]; intros kept d h Hk Hno Hh; cbn [check_indirect List.filter].
  - cbn. rewrite app_nil_r. split_and!; [done..|]. intros _ Hne. by rewrite decide_False.
  - assert (no_success ps) as Hno' by (intros q Hq; apply Hno; by right). pose proof (Hno p ltac:(by left)) as Hp.
    assert (still p = false -> let d' := check_indirect kIndirect now done ps kept (suspect now d (target_node_id p) (kept ++ ps)) in
      helper_up d' /\ pending_direct_probes_ d' = pending_direct_probes_ d /\ pending_indirect_probes_ d' = kept ++ (if still p then p :: List.filter still ps else List.filter still ps) /\
      (state h <> kProbeFailed -> hosts_ d' !! n = Some h) /\
      (state h = kProbeFailed -> of_n (kept ++ p :: ps) <> [] ->
        hosts_ d' !! n = Some (if decide (of_n (kept ++ (if still p then p :: List.filter still ps else List.filter still ps)) = []) then mkHost kSuspected now (last_inbound h) else h))) as Hdrop.
    { intros ->. set (d1 := suspect now d (target_node_id p) (kept ++ ps)). assert (helper_up d1) as Hk1 by (by apply suspect_up).
      assert (pending_direct_probes_ d1 = pending_direct_probes_ d) as Ed1 by (subst d1; unfold suspect; by case_match).
      destruct (decide (target_node_id p = n)) as [En|En].
      - assert (hosts_ d1 !! n = Some (if decide (state h = kProbeFailed /\ of_n (kept ++ ps) = []) then mkHost kSuspected now (last_inbound h) else h)) as Hh1 by (subst d1; rewrite En; by apply suspect_n).
        clearbody d1. destruct (IH kept d1 _ Hk1 Hno' Hh1) as (Hk' & Ed' & Ei' & Hns & Hpf). split_and!; [done|congruence|done| |].
        + intros Hs. rewrite decide_False in Hns by (by intros [? _]). by apply Hns.
        + intros Hs _. case_decide as Hd.
          * rewrite Hns by done. destruct Hd as [_ Hd]. rewrite decide_True; [done|]. rewrite of_n_app in Hd |- *. apply app_nil in Hd as [-> Hd]. cbn.
            clear -Hd. induction ps as [|q ps IH]; [done|]. cbn in *. destruct (target_node_id q =? n) eqn:E; [done|]. destruct (still q); cbn; [rewrite E|]; by apply IH.
          * apply Hpf; [done|]. intros Hn. by apply Hd.
      - assert (hosts_ d1 !! n = Some h) as Hh1 by (subst d1; by rewrite suspect_other). clearbody d1.
        destruct (IH kept d1 h Hk1 Hno' Hh1) as (Hk' & Ed' & Ei' & Hns & Hpf). split_and!; [done|congruence|done|done|]. intros Hs Hne. apply Hpf; [done|]. rewrite of_n_app in Hne |- *.
        cbn in Hne. by rewrite (proj2 (Z.eqb_neq _ _) En) in Hne. }
    destruct (done (future p)) as [r|] eqn:Edone.
    { assert (still p = false) as Es by (unfold still; by rewrite Edone). rewrite Es in Hdrop |- *. destruct r; [done|by apply Hdrop..]. }
    destruct (kIndirect <? now - sent_at p) eqn:Ex; (assert (still p = negb (kIndirect <? now - sent_at p)) as Es by (unfold still; by rewrite Edone));
      rewrite Ex in Es; cbn in Es; rewrite Es in Hdrop |- *; [by apply Hdrop|].
    destruct (IH (kept ++ [p]) d h Hk Hno' Hh) as (Hk' & Ed' & Ei' & Hns & Hpf). rewrite <- !app_assoc in *. by split_and!.
Qed.

(** The suspicions. *)
Lemma trigger_hosts d m : hosts_ (TriggerRecovery self order d m) = hosts_ d /\ pending_direct_probes_ (TriggerRecovery self order d m) = pending_direct_probes_ d /\
  pending_indirect_probes_ (TriggerRecovery self order d m) = pending_indirect_probes_ d.
Proof. unfold TriggerRecovery, ClaimRecovery. by repeat case_match. Qed.
Lemma set_dead_other d m x : m <> x -> hosts_ (SetDead d m now) !! x = hosts_ d !! x.
Proof. intros Hm. unfold SetDead. cbn. repeat case_match; try done. cbn. by rewrite lookup_alter_ne. Qed.
Definition buried d : Prop := exists h, hosts_ d !! n = Some h /\ state h = kDead.
Lemma set_dead_n d h : hosts_ d !! n = Some h -> exists h', hosts_ (SetDead d n now) !! n = Some h' /\ state h' = kDead.
Proof. intros Hh. unfold SetDead. cbn. rewrite Hh. case_decide as Hd; cbn; [by exists h|]. rewrite lookup_alter_eq, Hh. by eexists. Qed.

Abbreviation check := (check_suspicion self order kSuspicion now).
Lemma check_cases d m h : check d (m, h) = d \/ check d (m, h) = TriggerRecovery self order (SetDead d m now) m.
Proof. unfold check_suspicion. repeat case_match; auto. Qed.
Lemma check_probes d m h : pending_direct_probes_ (check d (m, h)) = pending_direct_probes_ d /\ pending_indirect_probes_ (check d (m, h)) = pending_indirect_probes_ d.
Proof.
  destruct (check_cases d m h) as [->| ->]; [done|]. destruct (trigger_hosts (SetDead d m now) m) as (_ & -> & ->). unfold SetDead. cbn. by repeat case_match.
Qed.
Lemma check_other d m h x : m <> x -> hosts_ (check d (m, h)) !! x = hosts_ d !! x.
Proof. intros Hm. destruct (check_cases d m h) as [->| ->]; [done|]. destruct (trigger_hosts (SetDead d m now) m) as (-> & _). by apply set_dead_other. Qed.

Lemma suspicion_probes nhs : forall d, let d' := fold_left check nhs d in
  pending_direct_probes_ d' = pending_direct_probes_ d /\ pending_indirect_probes_ d' = pending_indirect_probes_ d.
Proof.
  induction nhs as [|[m h] nhs IH]; intros d; [done|]. cbn [fold_left]. destruct (IH (check d (m, h))) as [Ed Ei]. destruct (check_probes d m h). cbv zeta. split; congruence.
Qed.
Lemma suspicion_other nhs : forall d x, x ∉ map fst nhs -> hosts_ (fold_left check nhs d) !! x = hosts_ d !! x.
Proof.
  induction nhs as [|[m h] nhs IH]; intros d x; [done|]. cbn. intros [Hm Hx]%not_elem_of_cons. rewrite IH by done. apply check_other. congruence.
Qed.

Lemma all_hosts_nodup d : NoDup (map fst (GetAllHosts order d)).
Proof.
  assert (forall l, NoDup l -> NoDup (map fst (omap (fun m => h ← hosts_ d !! m; Some (m, h)) l)) /\ forall x, x ∈ map fst (omap (fun m => h ← hosts_ d !! m; Some (m, h)) l) -> x ∈ l) as H; [|apply H, nodes_in].
  induction l as [|x l IH]; intros Hnd; [split; [constructor|done]|]. apply NoDup_cons in Hnd as [Hx Hl]. destruct (IH Hl) as [Hn Hin]. cbn.
  destruct (hosts_ d !! x) as [h|]; cbn; [|split; [done|intros y Hy; right; by apply Hin]].
  split; [apply NoDup_cons; split; [by intros Hx'%Hin|done]|]. intros y [->|Hy]%elem_of_cons; [by left|right; by apply Hin].
Qed.

(** What becomes of one node [x] that is walked over. *)
Lemma suspicion_at d x h : x ∈ order -> hosts_ d !! x = Some h ->
  hosts_ (fold_left check (GetAllHosts order d) d) !! x = hosts_ (check d (x, h)) !! x.
Proof.
  intros Hx Hh. pose proof (all_hosts_nodup d) as Hnd. pose proof (all_hosts_in d x h Hh Hx) as Hin. apply list_elem_of_split in Hin as (l1 & l2 & E). rewrite E in Hnd |- *.
  rewrite map_app in Hnd. cbn in Hnd. apply NoDup_app in Hnd as (_ & Hd & [Hx2 _]%NoDup_cons). rewrite fold_left_app. cbn [fold_left]. rewrite suspicion_other by done.
  assert (hosts_ (fold_left check l1 d) !! x = Some h) as H1. { rewrite suspicion_other; [done|]. intros Hin. apply (Hd x Hin). by left. }
  set (d1 := fold_left check l1 d) in *. unfold check_suspicion. rewrite H1, Hh. destruct (_ && _); [|by rewrite H1, Hh]. destruct (_ <? _); [by rewrite H1, Hh|].
  destruct (trigger_hosts (SetDead d1 x now) x) as (-> & _), (trigger_hosts (SetDead d x now) x) as (-> & _). unfold SetDead. cbn. rewrite H1, Hh. case_decide; cbn; [by rewrite H1, Hh|]. by rewrite !lookup_alter_eq, H1, Hh.
Qed.

Lemma suspicion_n d h : hosts_ d !! n = Some h ->
  let d' := fold_left check (GetAllHosts order d) d in
  if decide (state h = kSuspected /\ kSuspicion <= now - state_changed_at h /\ kSuspicion <= now - last_inbound h) then buried d' else hosts_ d' !! n = Some h.
Proof.
  intros Hh. cbv zeta. unfold buried. rewrite (suspicion_at d n h) by (try done; apply nodes_in). unfold check_suspicion. rewrite Hh.
  case_bool_decide as Hs; cbn [andb]; [|by rewrite decide_False by (by intros (? & _))].
  destruct (Z.leb_spec kSuspicion (now - state_changed_at h)); [|rewrite decide_False by lia; done].
  destruct (Z.ltb_spec (now - last_inbound h) kSuspicion); [rewrite decide_False by lia; done|]. rewrite decide_True by done.
  destruct (trigger_hosts (SetDead d n now) n) as (-> & _). by apply (set_dead_n d h).
Qed.
Lemma suspicion_up d : helper_up d -> helper_up (fold_left check (GetAllHosts order d) d).
Proof.
  intros (h & Hh & Hs). exists h. split; [|done]. rewrite (suspicion_at d k h) by (try done; apply nodes_in). unfold check_suspicion. by rewrite bool_decide_eq_false_2 by (rewrite Hs; done).
Qed.

(** The new probe. *)
Lemma send_n d h : hosts_ d !! n = Some h -> let d' := send_probe self order now d in
  hosts_ d' = hosts_ d /\ pending_indirect_probes_ d' = pending_indirect_probes_ d /\
  (state h = kProbeFailed \/ state h = kSuspected \/ of_n (pending_direct_probes_ d) <> [] -> of_n (pending_direct_probes_ d') = of_n (pending_direct_probes_ d)).
Proof.
  intros Hh. unfold send_probe. destruct (_ <? _)%nat; [|done]. destruct (List.find _ _) as [i|] eqn:Ef; [|done]. apply find_some in Ef as [_ Hmay].
  destruct (GetAllHosts order d !! i) as [[m h']|] eqn:Ei; [|done]. cbn. split_and!; [done..|]. intros Hn. rewrite of_n_app. cbn.
  destruct (Z.eqb_spec m n) as [->|]; [|by rewrite app_nil_r]. exfalso. apply list_elem_of_lookup_2, all_hosts_lookup in Ei. rewrite Hh in Ei. injection Ei as <-.
  unfold may_probe in Hmay. cbn in Hmay. rewrite of_n_exists in Hmay. destruct Hn as [Hn|[Hn|Hn]]; rewrite ?Hn in Hmay; [by rewrite !andb_false_r in Hmay..|].
  destruct (of_n (pending_direct_probes_ d)); [done|]. by rewrite !andb_false_r in Hmay.
Qed.
Lemma send_hosts d : hosts_ (send_probe self order now d) = hosts_ d.
Proof. unfold send_probe. by repeat case_match. Qed.
End Tick.

(** The indirect probes that a tick looks at. *)
Definition asked_now now done shuffle d : list probe :=
  pending_indirect_probes_ (check_direct self order kDirect now done shuffle (pending_direct_probes_ d) [] d).

(** A tick during which [n] does not answer, [k] does, and no indirect probe succeeds. *)
Record silent_tick now (done : Z -> option Z) (shuffle : list Z -> list Z) d : Prop := {
  si_shuffle l : shuffle l ≡ₚ l;
  si_helper : answered done (pending_direct_probes_ d);
  si_node : unanswered done (pending_direct_probes_ d);
  si_asked : no_success done (asked_now now done shuffle d) }.

Lemma dead_stays now done shuffle h ps : forall kept d, hosts_ d !! n = Some h -> state h = kDead -> unanswered done ps ->
  hosts_ (check_direct self order kDirect now done shuffle ps kept d) !! n = Some h.
Proof.
  induction ps as [|p ps IH]; intros kept d Hh Hd Hu; cbn [check_direct]; [done|].
  assert (unanswered done ps) as Hu' by (intros q Hq; apply Hu; by right).
  destruct (decide (target_node_id p = n)) as [En|En].
  - rewrite (Hu p ltac:(by left) En). destruct (_ <? _); [|by apply IH]. apply IH; [|done..]. rewrite En. unfold GetNodeState. rewrite Hh. by rewrite decide_True.
  - destruct (done (future p)); [apply IH; [by rewrite revive_other|done..]|].
    destruct (_ <? _); [|by apply IH]. apply IH; [|done..]. cbn. case_decide; [done|]. by rewrite set_state_other.
Qed.

Section Bound.
(** The probe was sent at [t0]; ticks are at most [delta] apart. *)
Variables (t0 delta : Z).
Hypothesis timeouts : 0 <= kDirect /\ 0 <= kIndirect /\ 0 < kSuspicion /\ 0 <= delta.

Inductive stage d (T : Z) : Prop :=
  | Waiting h p : hosts_ d !! n = Some h -> state h = kAlive -> last_inbound h <= t0 -> of_n (pending_direct_probes_ d) = [p] -> sent_at p = t0 ->
      (forall q, q ∈ of_n (pending_indirect_probes_ d) -> sent_at q <= T) -> T <= t0 + kDirect -> stage d T
  | Asking h A : hosts_ d !! n = Some h -> state h = kProbeFailed -> last_inbound h <= t0 -> of_n (pending_direct_probes_ d) = [] ->
      of_n (pending_indirect_probes_ d) <> [] -> (forall q, q ∈ of_n (pending_indirect_probes_ d) -> sent_at q <= A) ->
      A <= t0 + kDirect + delta -> T <= A + kIndirect -> t0 <= T -> stage d T
  | Doubted h : hosts_ d !! n = Some h -> state h = kSuspected -> last_inbound h <= t0 -> t0 <= state_changed_at h -> of_n (pending_direct_probes_ d) = [] ->
      state_changed_at h <= t0 + kDirect + kIndirect + 2 * delta -> T < state_changed_at h + kSuspicion -> stage d T
  | Buried : buried d -> stage d T.

(** What follows the probes in a tick. *)
Definition rest_of_tick now d : Detector := send_probe self order now (check_fence self order (fold_left (check_suspicion self order kSuspicion now) (GetAllHosts order d) d)).
Lemma rest_up now d : helper_up d -> helper_up (rest_of_tick now d).
Proof. intros Hk. unfold rest_of_tick, helper_up. rewrite send_hosts. by apply suspicion_up. Qed.
Lemma rest_same now d h : hosts_ d !! n = Some h -> ~ (state h = kSuspected /\ kSuspicion <= now - state_changed_at h /\ kSuspicion <= now - last_inbound h) ->
  (state h = kProbeFailed \/ state h = kSuspected \/ of_n (pending_direct_probes_ d) <> []) ->
  hosts_ (rest_of_tick now d) !! n = Some h /\ of_n (pending_direct_probes_ (rest_of_tick now d)) = of_n (pending_direct_probes_ d) /\
  pending_indirect_probes_ (rest_of_tick now d) = pending_indirect_probes_ d.
Proof.
  intros Hh Hd Hs. pose proof (suspicion_n now d h Hh) as H. cbv zeta in H. rewrite decide_False in H by done. destruct (suspicion_probes now (GetAllHosts order d) d) as [Ed Ei].
  unfold rest_of_tick. set (d3 := fold_left _ _ d) in *. destruct (send_n now (check_fence self order d3) h H) as (Eh & Ei' & Ed'). rewrite Eh, Ei', Ed'.
  - by split_and!; [|change (of_n (pending_direct_probes_ d3) = of_n (pending_direct_probes_ d)); rewrite Ed|].
  - change (pending_direct_probes_ (check_fence self order d3)) with (pending_direct_probes_ d3). by rewrite Ed.
Qed.
Lemma rest_buries now d h : hosts_ d !! n = Some h -> state h = kSuspected /\ kSuspicion <= now - state_changed_at h /\ kSuspicion <= now - last_inbound h ->
  buried (rest_of_tick now d).
Proof.
  intros Hh Hd. pose proof (suspicion_n now d h Hh) as H. cbv zeta in H. rewrite decide_True in H by done. unfold rest_of_tick, buried in *. by rewrite send_hosts.
Qed.
Lemma rest_dead now d : buried d -> buried (rest_of_tick now d).
Proof.
  intros (h & Hh & Hd). pose proof (suspicion_n now d h Hh) as H. cbv zeta in H. rewrite decide_False in H by (intros [? _]; congruence).
  exists h. split; [|done]. unfold rest_of_tick. rewrite send_hosts. exact H.
Qed.

Lemma of_n_still now done ps : forall q, q ∈ of_n (List.filter (still now done) ps) -> q ∈ of_n ps /\ still now done q = true.
Proof. intros q. unfold of_n. rewrite !list_elem_of_In, !filter_In. tauto. Qed.

Lemma stage_tick d T now done shuffle : stage d T -> helper_up d -> T <= now <= T + delta -> silent_tick now done shuffle d ->
  let d' := HeartbeatProbe self order kDirect kIndirect kSuspicion now done shuffle d in stage d' now /\ helper_up d'.
Proof.
  intros Hst Hk Hnow [Hsh Ha Hu Hno]. cbv zeta. unfold HeartbeatProbe. unfold asked_now in Hno.
  destruct (direct_n now done shuffle Hsh (pending_direct_probes_ d) [] d Hk Ha Hu) as [Hk1 H1].
  pose proof (fun h => dead_stays now done shuffle h (pending_direct_probes_ d) [] d) as Hdead1.
  set (d1 := check_direct _ _ _ _ _ _ _ _ _) in *. clearbody d1.
  pose proof (fun h1 => indirect_n now done (pending_indirect_probes_ d1) [] d1 h1 Hk1 Hno) as H2. set (d2 := check_indirect _ _ _ _ _ _) in *. clearbody d2. cbn [app] in H2.
  fold (rest_of_tick now d2). assert (is_Some (hosts_ d1 !! n) -> helper_up (rest_of_tick now d2)) as Hup by (intros [h1 Hh1]; by apply rest_up, (H2 h1)).
  destruct Hst as [h p Hh Hs Hl Hp Ht Hq HT|h A Hh Hs Hl Hp Hne HA HAb HT Ht|h Hh Hs Hl Hc Hp Hcb HT|(h & Hh & Hs)].
  - rewrite Hp in H1. destruct (expired now p) eqn:Ex.
    + unfold expired in Ex. apply Z.ltb_lt in Ex. destruct H1 as [[Hf (new & Ei & Hnew & Hsent)] Ed]. specialize (Hf h Hh ltac:(rewrite Hs; done)). cbn in Ed.
      destruct (H2 _ Hf) as (Hk2 & Ed2 & Ei2 & _ & Hpf). specialize (Hpf eq_refl). rewrite Ei in Hpf. specialize (Hpf ltac:(by destruct (of_n (pending_indirect_probes_ d))%list, new)).
      split; [|apply Hup; by eexists]. cbn in Hpf. rewrite <- Ed2 in Ed. case_decide as Hd2.
      * destruct (rest_same now d2 _ Hpf) as (Hh' & Ed' & _); [intros (_ & Hx & _); cbn in Hx; lia|by right; left|]. eapply Doubted; [exact Hh'|done|done|cbn; lia|congruence|cbn; lia..].
      * destruct (rest_same now d2 _ Hpf) as (Hh' & Ed' & Ei'); [by intros [? _]|by left|]. eapply (Asking _ _ _ now); [exact Hh'|done|done|congruence|by rewrite Ei', Ei2| |lia..].
        intros q. rewrite Ei', Ei2. intros [Hq' _]%of_n_still. rewrite Ei in Hq'. apply elem_of_app in Hq' as [Hq'|Hq']; [specialize (Hq q Hq'); lia|rewrite (Hsent q Hq'); lia].
    + destruct H1 as [[Eh Ei] Ed]. cbn in Ed. rewrite Hh in Eh. destruct (H2 _ Eh) as (Hk2 & Ed2 & Ei2 & Hns & _). specialize (Hns ltac:(rewrite Hs; done)).
      split; [|apply Hup; by eexists]. rewrite <- Ed2 in Ed. destruct (rest_same now d2 _ Hns) as (Hh' & Ed' & Ei'); [rewrite Hs; by intros [? _]|right; right; by rewrite Ed|].
      unfold expired in Ex. apply Z.ltb_ge in Ex. eapply (Waiting _ _ h p); [exact Hh'|done|done|congruence|done| |lia]. intros q. rewrite Ei', Ei2. intros [Hq' _]%of_n_still. rewrite Ei in Hq'. specialize (Hq q Hq'). lia.
  - rewrite Hp in H1. destruct H1 as [[Eh Ei] Ed]. cbn in Ed. rewrite Hh in Eh. destruct (H2 _ Eh) as (Hk2 & Ed2 & Ei2 & _ & Hpf). specialize (Hpf Hs). rewrite Ei in Hpf. specialize (Hpf Hne).
    split; [|apply Hup; by eexists]. rewrite <- Ed2 in Ed. case_decide as Hd2.
    + destruct (rest_same now d2 _ Hpf) as (Hh' & Ed' & _); [intros (_ & Hx & _); cbn in Hx; lia|by right; left|]. eapply Doubted; [exact Hh'|done|done|cbn; lia|congruence|cbn; lia..].
    + destruct (rest_same now d2 _ Hpf) as (Hh' & Ed' & Ei'); [rewrite Hs; by intros [? _]|by left|].
      assert (forall q, q ∈ of_n (pending_indirect_probes_ (rest_of_tick now d2)) -> sent_at q <= A /\ now <= sent_at q + kIndirect) as Hq.
      { intros q. rewrite Ei', Ei2. intros [Hq' Hst]%of_n_still. rewrite Ei in Hq'. split; [by apply HA|]. unfold still in Hst. destruct (done (future q)); [done|].
        apply negb_true_iff, Z.ltb_ge in Hst. lia. }
      eapply (Asking _ _ _ A); [exact Hh'|done|done|congruence|by rewrite Ei', Ei2|intros q Hin; by apply Hq|done| |lia].
      rewrite Ei', Ei2 in Hq. destruct (of_n (List.filter (still now done) (pending_indirect_probes_ d1))) as [|q l]; [done|]. destruct (Hq q ltac:(by left)). lia.
  - rewrite Hp in H1. destruct H1 as [[Eh Ei] Ed]. cbn in Ed. rewrite Hh in Eh. destruct (H2 _ Eh) as (Hk2 & Ed2 & Ei2 & Hns & _). specialize (Hns ltac:(rewrite Hs; done)).
    split; [|apply Hup; by eexists]. rewrite <- Ed2 in Ed. destruct (decide (kSuspicion <= now - state_changed_at h)) as [Hdue|Hdue].
    + apply Buried. apply (rest_buries now d2 h Hns). split_and!; [done..|lia].
    + destruct (rest_same now d2 _ Hns) as (Hh' & Ed' & _); [tauto|by right; left|]. eapply Doubted; [exact Hh'|done|done|done|congruence|done|lia].
  - specialize (Hdead1 h Hh Hs Hu). destruct (H2 _ Hdead1) as (Hk2 & _ & _ & Hns & _). split; [|apply Hup; by eexists]. apply Buried, rest_dead. exists h. split; [|done]. apply Hns. by rewrite Hs.
Qed.

(** Ticks and the tasks of others, from a tick at [T] to one at [T']. *)
Inductive silence d (T : Z) : Detector -> Z -> Prop :=
  | SilenceBegins : silence d T d T
  | SilentTick d1 T1 now done shuffle : silence d T d1 T1 -> T1 <= now <= T1 + delta -> silent_tick now done shuffle d1 ->
      silence d T (step self order kDirect kIndirect kSuspicion now d1 (Tick done shuffle)) now
  | OthersTalk d1 T1 now sender ret : silence d T d1 T1 -> sender <> n -> ret <> n ->
      silence d T (step self order kDirect kIndirect kSuspicion now d1 (Receive sender ret)) T1.

Lemma receive_other d sender ret now : sender <> n -> ret <> n -> let d' := receive self d sender ret now in
  hosts_ d' !! n = hosts_ d !! n /\ pending_direct_probes_ d' = pending_direct_probes_ d /\ pending_indirect_probes_ d' = pending_indirect_probes_ d.
Proof.
  intros Hs Hr. assert (forall d m, m <> n -> hosts_ (SetAlive d m now) !! n = hosts_ d !! n /\ pending_direct_probes_ (SetAlive d m now) = pending_direct_probes_ d /\
    pending_indirect_probes_ (SetAlive d m now) = pending_indirect_probes_ d) as Hal.
  { intros d0 m Hm. split; [by apply set_alive_other|]. unfold SetAlive. cbn. by repeat case_match. }
  unfold receive. set (d1 := if negb (sender =? self) && _ then _ else d).
  assert (hosts_ d1 !! n = hosts_ d !! n /\ pending_direct_probes_ d1 = pending_direct_probes_ d /\ pending_indirect_probes_ d1 = pending_indirect_probes_ d) as H1 by (subst d1; case_match; [by apply Hal|done]).
  clearbody d1. set (d2 := if negb (ret =? self) then _ else _).
  assert (hosts_ d2 !! n = hosts_ d !! n /\ pending_direct_probes_ d2 = pending_direct_probes_ d /\ pending_indirect_probes_ d2 = pending_indirect_probes_ d) as H2.
  { subst d2. case_match; [|done]. cbn. by rewrite lookup_alter_ne. }
  clearbody d2. cbv zeta. case_match; [|done]. destruct (Hal d2 ret Hr) as (-> & -> & ->). done.
Qed.
Lemma alive_up d m now : helper_up d -> helper_up (SetAlive d m now).
Proof.
  intros (h & Hh & Hs). destruct (decide (m = k)) as [->|Hm].
  - exists h. unfold SetAlive. cbn. rewrite Hh, decide_True by done. done.
  - exists h. split; [|done]. unfold SetAlive. cbn. repeat case_match; try done. cbn. by rewrite lookup_alter_ne.
Qed.
Lemma receive_up d sender ret now : helper_up d -> helper_up (receive self d sender ret now).
Proof.
  intros Hk. unfold receive. set (d1 := if negb (sender =? self) && _ then _ else d). assert (helper_up d1) as H1 by (subst d1; case_match; [by apply alive_up|done]). clearbody d1.
  set (d2 := if negb (ret =? self) then _ else _). assert (helper_up d2) as H2; [|case_match; [by apply alive_up|done]].
  subst d2. case_match; [|done]. destruct H1 as (h & Hh & Hs). unfold helper_up. cbn. destruct (decide (ret = k)) as [->|Hne].
  - rewrite lookup_alter_eq, Hh. by eexists.
  - exists h. by rewrite lookup_alter_ne.
Qed.

Lemma stage_silence d T d' T' : silence d T d' T' -> stage d T -> helper_up d -> stage d' T' /\ helper_up d'.
Proof.
  induction 1 as [|d1 T1 now complete shuffle _ IH Hnow Hsi|d1 T1 now sender ret _ IH Hs Hr]; intros Hst Hk; [done|..]; destruct (IH Hst Hk) as [Hst1 Hk1].
  - by apply (stage_tick d1 T1).
  - split; [|by apply receive_up]. destruct (receive_other d1 sender ret now Hs Hr) as (Eh & Ed & Ei). cbn [step]. set (d2 := receive _ _ _ _ _) in *. clearbody d2.
    destruct Hst1 as [h p|h A|h|(h & Hh & Hd)].
    + apply (Waiting _ _ h p); by rewrite ?Eh, ?Ed, ?Ei.
    + apply (Asking _ _ h A); by rewrite ?Eh, ?Ed, ?Ei.
    + apply (Doubted _ _ h); by rewrite ?Eh, ?Ed, ?Ei.
    + apply Buried. exists h. by rewrite Eh.
Qed.

End Bound.
End Silence.

(** * Concrete clusters *)

Definition ex_hosts (nodes : list Z) : gmap Z Host := list_to_map (map (fun m => (m, mkHost kAlive 0 0)) nodes).
Definition ex_start (nodes : list Z) : Detector := mkDetector (ex_hosts nodes) [] 0 false [] [] 0 0 ∅ [] [] [].
Definition ex_ticks (self : Z) (nodes : list Z) (ticks : list (Z * (Z -> option Z))) d : Detector :=
  fold_left (fun d '(now, done) => step self nodes 30 15 60 now d (Tick done id)) ticks d.
Definition nobody : Z -> option Z := fun _ => None.
(** The futures of the silent nodes. *)
Definition but (silent : list Z) : Z -> option Z := fun f => if bool_decide (f ∈ silent) then None else Some 0.

(** A cluster of two: there is nobody to ask, and the silent peer is neither suspected
    nor probed nor declared dead. *)
Example no_helper_no_verdict :
  let d := ex_ticks 0 [0; 1] [(0, nobody); (31, nobody); (100, nobody); (1000, nobody); (100000, nobody)] (ex_start [0; 1]) in
  GetNodeState d 1 = kProbeFailed /\ dead_nodes_ d = [] /\ pending_direct_probes_ d = [] /\ pending_indirect_probes_ d = [].
Proof. by vm_compute. Qed.

(** A probe of a dead node that was ended with the network timeout is complete, and a
    complete probe revives the node. *)
Example timed_out_probe_revives :
  let d := step 0 [0; 1; 2] 30 15 60 5 (ex_start [0; 1; 2]) (Announced 1) in
  GetNodeState d 1 = kDead /\
  GetNodeState (ex_ticks 0 [0; 1; 2] [(40, nobody); (42, fun _ => Some (-1000))] d) 1 = kAlive.
Proof. by vm_compute. Qed.

(** A node whose connection fails is dead at once and is not recovered, neither then nor
    at any later tick: recovery starts with the step from suspected to dead. *)
Example failed_send_is_not_recovered :
  let d := ex_ticks 0 [0; 1; 2] [(6, nobody); (60, nobody); (1000, nobody)] (step 0 [0; 1; 2] 30 15 60 5 (ex_start [0; 1; 2]) (SendFailed 1)) in
  IsLeader 0 [0; 1; 2] d = true /\ GetNodeState d 1 = kDead /\ recoveries d = [].
Proof. by vm_compute. Qed.

(** A node that dies before the leader is recovered by nobody: its death was seen while
    another node led. *)
Example death_before_leader_is_not_recovered :
  let seen := step 2 [0; 1; 2; 3] 30 15 60 5 (ex_start [0; 1; 2; 3]) (Announced 1) in
  let d := step 2 [0; 1; 2; 3] 30 15 60 7 seen (Announced 0) in
  recoveries seen = [] /\ IsLeader 2 [0; 1; 2; 3] d = true /\ recoveries d = [0] /\ GetNodeState d 1 = kDead.
Proof. by vm_compute. Qed.

(** A fenced leader uses up the claim and recovers nothing; the claim stays used when the
    fence is lifted. *)
Example fenced_claim_is_used_up :
  let fenced := check_fence 0 [0; 1; 2] (SetNodeState (SetNodeState (ex_start [0; 1; 2]) 1 kSuspected 3) 2 kSuspected 3) in
  let d := step 0 [0; 1; 2] 30 15 60 5 fenced (Announced 1) in
  let lifted := check_fence 0 [0; 1; 2] (SetNodeState d 2 kAlive 9) in
  self_fenced_ fenced = true /\ recoveries d = [] /\ self_fenced_ lifted = false /\ recoveries (TriggerRecovery 0 [0; 1; 2] lifted 1) = [].
Proof. by vm_compute. Qed.

(** * The theorems at work *)

Fixpoint in_order (clock : Z) (ticks : list (Z * (Z -> option Z))) : bool :=
  match ticks with [] => true | (now, _) :: ticks => (clock <=? now) && in_order now ticks end.
Lemma ticks_run self nodes ticks : forall d clock, run self nodes 30 15 60 d clock -> in_order clock ticks = true ->
  run self nodes 30 15 60 (ex_ticks self nodes ticks d) (fold_left (fun _ => fst) ticks clock).
Proof.
  induction ticks as [|[now complete] ticks IH]; intros d clock Hr Ho; [done|]. cbn in Ho. apply andb_true_iff in Ho as [Hle%Z.leb_le Ho].
  apply IH; [|done]. by eapply RunStep.
Qed.
Lemma start_run self nodes : NoDup nodes -> run self nodes 30 15 60 (ex_start nodes) 0.
Proof.
  intros Hnd. apply RunStart; try done. intros m h Hm. apply elem_of_list_to_map_2, list_elem_of_fmap in Hm as (x & [= -> ->] & _). done.
Qed.

(** Node 1 is silent: its probe is future 0, the helper's answer would be future 3. *)
Definition ex_silent : list (Z * (Z -> option Z)) := map (fun now => (now, but [0; 3])) [0; 2; 4; 31; 47].
Definition ex_before : Detector := ex_ticks 0 [0; 1; 2] ex_silent (ex_start [0; 1; 2]).
Abbreviation ex_after := (step 0 [0; 1; 2] 30 15 60 107 ex_before (Tick (but [0; 3]) id)).
Lemma ex_before_run : run 0 [0; 1; 2] 30 15 60 ex_before 47.
Proof. apply (ticks_run 0 [0; 1; 2] ex_silent (ex_start [0; 1; 2]) 0); [apply start_run; by_decide|by vm_compute]. Qed.

Definition silent_now (self n k : Z) (order : list Z) (done : Z -> option Z) now d : bool :=
  forallb (fun p => implb (target_node_id p =? k) (negb (bool_decide (done (future p) = None))) && implb (target_node_id p =? n) (bool_decide (done (future p) = None))) (pending_direct_probes_ d) &&
  forallb (fun p => negb (bool_decide (done (future p) = Some 0))) (asked_now self order 30 now done id d).
Lemma silent_now_ok self n k order done now d : silent_now self n k order done now d = true -> silent_tick self order 30 n k now done id d.
Proof.
  unfold silent_now. intros [Hd Ha]%andb_true_iff. rewrite forallb_forall in Hd, Ha. split; [done|..]; intros p Hp%list_elem_of_In.
  - intros E. specialize (Hd p Hp). rewrite E, Z.eqb_refl in Hd. cbn in Hd. apply andb_true_iff in Hd as [Hd _]. by apply negb_true_iff, bool_decide_eq_false in Hd.
  - intros E. specialize (Hd p Hp). rewrite E, Z.eqb_refl in Hd. apply andb_true_iff in Hd as [_ Hd]. by apply bool_decide_eq_true in Hd.
  - specialize (Ha p Hp). by apply negb_true_iff, bool_decide_eq_false in Ha.
Qed.

(** Ticks every 31: node 1 is silent and node 2 answers. *)
Definition ex_probed : Detector := ex_ticks 0 [0; 1; 2] [(0, nobody)] (ex_start [0; 1; 2]).
Fixpoint silent_from (times : list Z) d (T : Z) : option (Detector * Z) :=
  match times with
  | [] => Some (d, T)
  | now :: times =>
      if (T <=? now) && (now <=? T + 31) && silent_now 0 1 2 [0; 1; 2] (but [0; 1; 5; 6]) now d
      then silent_from times (step 0 [0; 1; 2] 30 15 60 now d (Tick (but [0; 1; 5; 6]) id)) now else None
  end.
Lemma silent_from_ok times : forall d T d' T', silence 0 [0; 1; 2] 30 15 60 1 2 31 ex_probed 0 d T -> silent_from times d T = Some (d', T') ->
  silence 0 [0; 1; 2] 30 15 60 1 2 31 ex_probed 0 d' T'.
Proof.
  induction times as [|now times IH]; intros d T d' T' Hs; cbn [silent_from]; [by intros [= <- <-]|].
  destruct (Z.leb_spec T now); [|done]. destruct (Z.leb_spec now (T + 31)); [|done]. cbn [andb]. destruct (silent_now _ _ _ _ _ _ _) eqn:E; [|done].
  apply IH. eapply SilentTick; [exact Hs|lia|by apply silent_now_ok].
Qed.

