(* ===== verification/RingBuffer.v ===== *)
(** The ring buffer of the transport primitives
    ([clio_ctp/data_structures/ipc/ring_buffer.h]), which carries the runtime's
    task queues: its operations run alone, under every flag combination.

    [RingMachine] splits the lock-free path at its atomic accesses. The lane fields
    (worker, signal descriptor, thread), which no operation reads, are left out. *)
From Stdlib Require Import ZArith Lia.
From stdpp Require Import base list.
From S2P Require Import Prelude.

Open Scope Z_scope.

(** * Configuration *)

Definition RING_BUFFER_SPSC_FLAGS : Z := 0x01.
Definition RING_BUFFER_MPSC_FLAGS : Z := 0x02.
Definition RING_BUFFER_WAIT_FOR_SPACE : Z := 0x04.
Definition RING_BUFFER_ERROR_ON_NO_SPACE : Z := 0x08.
Definition RING_BUFFER_DYNAMIC_SIZE : Z := 0x10.
Definition RING_BUFFER_FIXED_SIZE : Z := 0x20.
Definition RING_BUFFER_LOCK_POP : Z := 0x40.
Definition RING_BUFFER_LOCK_PUSH : Z := 0x100.

Definition has_flag (FLAGS bit : Z) : bool := negb (Z.land FLAGS bit =? 0).
Definition WaitForSpace (FLAGS : Z) : bool := has_flag FLAGS RING_BUFFER_WAIT_FOR_SPACE.
Definition ErrorOnNoSpace (FLAGS : Z) : bool := has_flag FLAGS RING_BUFFER_ERROR_ON_NO_SPACE.
Definition DynamicSize (FLAGS : Z) : bool := has_flag FLAGS RING_BUFFER_DYNAMIC_SIZE.
Definition LockPop (FLAGS : Z) : bool := has_flag FLAGS RING_BUFFER_LOCK_POP.

Definition ext_ring_buffer : Z := Z.lor RING_BUFFER_SPSC_FLAGS RING_BUFFER_DYNAMIC_SIZE.
Definition ext_spsc_queue : Z :=
  Z.lor (Z.lor RING_BUFFER_MPSC_FLAGS RING_BUFFER_DYNAMIC_SIZE) (Z.lor RING_BUFFER_LOCK_PUSH RING_BUFFER_LOCK_POP).
Definition spsc_ring_buffer : Z :=
  Z.lor (Z.lor RING_BUFFER_SPSC_FLAGS RING_BUFFER_FIXED_SIZE) RING_BUFFER_ERROR_ON_NO_SPACE.
Definition mpsc_ring_buffer : Z :=
  Z.lor (Z.lor RING_BUFFER_MPSC_FLAGS RING_BUFFER_FIXED_SIZE) RING_BUFFER_WAIT_FOR_SPACE.
Definition circular_mpsc_ring_buffer : Z := Z.lor RING_BUFFER_MPSC_FLAGS RING_BUFFER_FIXED_SIZE.
Definition mpmc_ring_buffer : Z :=
  Z.lor (Z.lor RING_BUFFER_MPSC_FLAGS RING_BUFFER_FIXED_SIZE) (Z.lor RING_BUFFER_WAIT_FOR_SPACE RING_BUFFER_LOCK_POP).

(** * Data *)

(** An entry: the atomic bit field, whose bit 0 says the data is ready. *)
Record RingBufferEntry (T : Type) := mkEntry { flags_ : Z; data_ : T }.
Arguments mkEntry {T}. Arguments flags_ {T}. Arguments data_ {T}.

Record ring_buffer (T : Type) := mkRing {
  queue_ : list (RingBufferEntry T);
  head_ : Z;
  tail_ : Z }.
Arguments mkRing {T}. Arguments queue_ {T}. Arguments head_ {T}. Arguments tail_ {T}.

Section Ring.
Context {T : Type} (T0 : T).   (** [T()] *)
Implicit Types (r : ring_buffer T) (e : RingBufferEntry T) (v : T).

Definition IsReady e : bool := negb (Z.land (flags_ e) 1 =? 0).
Definition SetReady e : RingBufferEntry T := mkEntry (Z.lor (flags_ e) 1) (data_ e).
Definition set_data v e : RingBufferEntry T := mkEntry (flags_ e) v.
Definition set_flags (z : Z) e : RingBufferEntry T := mkEntry z (data_ e).

Definition fresh_entry : RingBufferEntry T := mkEntry 0 T0.

(** [ring_buffer(alloc, depth)]: one slot is kept empty. *)
Definition ring_new (depth : nat) : ring_buffer T := mkRing (replicate (depth + 1) fresh_entry) 0 0.

(** [queue_.size()] and the index of a position. *)
Definition queue_size r : Z := Z.of_nat (length (queue_ r)).
Definition idx_of r (pos : Z) : nat := Z.to_nat (pos mod queue_size r).

(** An assignment to the entry at a position. *)
Definition at_pos (f : RingBufferEntry T -> RingBufferEntry T) (pos : Z) r : ring_buffer T :=
  mkRing (alter f (idx_of r pos) (queue_ r)) (head_ r) (tail_ r).
Definition store_head r (z : Z) : ring_buffer T := mkRing (queue_ r) (u64 z) (tail_ r).
Definition store_tail r (z : Z) : ring_buffer T := mkRing (queue_ r) (head_ r) (u64 z).

(** * Observers *)

Definition Size r : Z := if head_ r <=? tail_ r then tail_ r - head_ r else 0.
Definition Capacity r : Z := if 0 <? queue_size r then queue_size r - 1 else 0.
Definition Empty r : bool := head_ r =? tail_ r.
Definition Full r : bool := u64 (tail_ r - head_ r) =? u64 (queue_size r - 1).

Definition Peek r (idx : Z) : option T :=
  if (idx <? head_ r) || (tail_ r <=? idx) then None
  else match queue_ r !! idx_of r idx with
       | Some e => if IsReady e then Some (data_ e) else None
       | None => None
       end.

(** * Operations run alone *)

Definition Grow r : ring_buffer T :=
  let old_size := length (queue_ r) in
  let new_size := if (1 <? old_size)%nat then ((old_size - 1) * 2 + 1)%nat else 2%nat in
  let new_queue := for_ (Z.to_nat (tail_ r - head_ r)) (fun i q =>
      let pos := head_ r + Z.of_nat i in
      match queue_ r !! idx_of r pos with
      | Some e => <[Z.to_nat (pos mod Z.of_nat new_size) := e]> q
      | None => q
      end) (replicate new_size fresh_entry) in
  mkRing new_queue (head_ r) (tail_ r).

(** Writing an entry and publishing it. *)
Definition publish r (pos : Z) v : ring_buffer T := at_pos SetReady pos (at_pos (set_data v) pos r).

(** [None]: the producer waits for a consumer. *)
Definition EmplaceFixed (FLAGS : Z) r v : option (bool * ring_buffer T) :=
  let head := head_ r in
  let tail := tail_ r in
  let r := store_tail r (tail + 1) in
  let size := u64 (tail - head + 1) in
  if WaitForSpace FLAGS then
    if queue_size r <=? size then None else Some (true, publish r tail v)
  else if ErrorOnNoSpace FLAGS && (queue_size r <=? size) then
    Some (false, store_tail r (tail_ r - 1))
  else Some (true, publish r tail v).

Definition Emplace (FLAGS : Z) r v : option (bool * ring_buffer T) :=
  if DynamicSize FLAGS then
    let r := if queue_size r <=? u64 (tail_ r - head_ r + 1) then Grow r else r in
    Some (true, store_tail (publish r (tail_ r) v) (tail_ r + 1))
  else EmplaceFixed FLAGS r v.

Definition Push (FLAGS : Z) r v : option (bool * ring_buffer T) := Emplace FLAGS r v.

(** [bool Pop(T &val)]: the value, [None] for [false]. *)
Definition Pop r : option T * ring_buffer T :=
  let head := head_ r in
  let tail := tail_ r in
  if tail <=? head then (None, r)
  else
    match queue_ r !! idx_of r head with
    | None => (None, r)
    | Some e =>
        if negb (IsReady e) then (None, r)
        else if negb (flags_ e =? 1) then (None, r)
        else
          let r := at_pos (set_flags 0) head r in
          let r := at_pos (set_data T0) head r in
          (Some (data_ e), store_head r (head + 1))
    end.

(** [PopDevice] keeps the slot's copy of the element. *)
Definition PopDevice r : option T * ring_buffer T :=
  let head := head_ r in
  let tail := tail_ r in
  if tail <=? head then (None, r)
  else
    match queue_ r !! idx_of r head with
    | None => (None, r)
    | Some e =>
        if negb (IsReady e) then (None, r)
        else if negb (flags_ e =? 1) then (None, r)
        else (Some (data_ e), store_head (at_pos (set_flags 0) head r) (head + 1))
    end.

Definition Clear r : ring_buffer T := mkRing (map (set_flags 0) (queue_ r)) 0 0.

(** The copy constructor: the vector is built with one slot less than the other's
    and then assigned all of its entries; [None] is an assignment past the end. *)
Definition ring_copy (other : ring_buffer T) : option (ring_buffer T) :=
  let n := length (queue_ other) in
  option_map (fun q => mkRing q (head_ other) (tail_ other))
    (for_opt n (fun i q =>
       match queue_ other !! i with
       | Some e => if (i <? length q)%nat then Some (<[i := e]> q) else None
       | None => None
       end) (replicate (n - 1) fresh_entry)).

(** * Positions and slots *)

Lemma idx_of_lt r pos : queue_ r <> [] -> (idx_of r pos < length (queue_ r))%nat.
Proof.
  intros Hne. assert (0 < queue_size r) by (unfold queue_size; destruct (queue_ r); [done|cbn; lia]).
  unfold idx_of. pose proof (Z.mod_pos_bound pos (queue_size r) ltac:(lia)). unfold queue_size in *. lia.
Qed.

Lemma mod_window_inj n p q : 0 < n -> Z.abs (p - q) < n -> p mod n = q mod n -> p = q.
Proof.
  intros Hn Hd Hm. pose proof (Z.div_mod p n ltac:(lia)). pose proof (Z.div_mod q n ltac:(lia)).
  assert (p - q = n * (p / n - q / n)) as E by lia.
  destruct (Z.eq_dec (p / n) (q / n)) as [Eq|Ne]; [rewrite Eq in E; lia|nia].
Qed.

(** Positions less than a lap apart have different slots. *)
Lemma idx_of_inj r p q : Z.abs (p - q) < queue_size r -> idx_of r p = idx_of r q -> p = q.
Proof.
  intros Hd He. apply (mod_window_inj (queue_size r)); [lia|done|]. unfold idx_of in He.
  pose proof (Z.mod_pos_bound p (queue_size r) ltac:(lia)). pose proof (Z.mod_pos_bound q (queue_size r) ltac:(lia)). lia.
Qed.

Definition entry_at r (pos : Z) : option (RingBufferEntry T) := queue_ r !! idx_of r pos.

Lemma entry_at_is_Some r pos : queue_ r <> [] -> exists e, entry_at r pos = Some e.
Proof. intros Hne. apply lookup_lt_is_Some_2. by apply idx_of_lt. Qed.

Lemma queue_size_at_pos f pos r : queue_size (at_pos f pos r) = queue_size r.
Proof. unfold queue_size. cbn. by rewrite length_alter. Qed.

Lemma idx_of_at_pos f pos r q : idx_of (at_pos f pos r) q = idx_of r q.
Proof. unfold idx_of. by rewrite queue_size_at_pos. Qed.

Lemma entry_at_pos f pos r : entry_at (at_pos f pos r) pos = f <$> entry_at r pos.
Proof. unfold entry_at. rewrite idx_of_at_pos. apply list_lookup_alter_eq. Qed.

Lemma entry_at_pos_ne f pos r q :
  Z.abs (pos - q) < queue_size r -> pos <> q -> entry_at (at_pos f pos r) q = entry_at r q.
Proof.
  intros Hd Hne. unfold entry_at. rewrite idx_of_at_pos. apply list_lookup_alter_ne.
  intros He. apply Hne. by apply (idx_of_inj r).
Qed.

Lemma queue_at_pos_nil f pos r : queue_ r <> [] -> queue_ (at_pos f pos r) <> [].
Proof. intros Hne He. apply Hne, length_zero_iff_nil. apply (f_equal length) in He. cbn in He. by rewrite length_alter in He. Qed.

(** * Refinement of a bounded queue *)

Record bounded_queue := mkQueue { bq_cap : nat; bq_items : list T; bq_head : Z }.
Implicit Types q : bounded_queue.

Definition bq_new (depth : nat) : bounded_queue := mkQueue depth [] 0.

Definition bq_push (FLAGS : Z) q v : option (bool * bounded_queue) :=
  let full := (bq_cap q <=? length (bq_items q))%nat in
  let add cap := Some (true, mkQueue cap (bq_items q ++ [v]) (bq_head q)) in
  if DynamicSize FLAGS then
    add (if full then if (0 <? bq_cap q)%nat then (2 * bq_cap q)%nat else 1%nat else bq_cap q)
  else if full then if WaitForSpace FLAGS then None else Some (false, q)
  else add (bq_cap q).

Definition bq_pop q : option T * bounded_queue :=
  match bq_items q with
  | [] => (None, q)
  | v :: l => (Some v, mkQueue (bq_cap q) l (bq_head q + 1))
  end.

Definition bq_peek q (idx : Z) : option T :=
  if idx <? bq_head q then None else bq_items q !! Z.to_nat (idx - bq_head q).

Definition bq_clear q : bounded_queue := mkQueue (bq_cap q) [] 0.

Inductive ring_op := OpPush (v : T) | OpPop | OpPeek (idx : Z) | OpClear | OpSize | OpFull | OpCapacity.
Inductive ring_result := RBool (b : bool) | RValue (o : option T) | RNumber (z : Z) | RDone.

Definition ring_do (FLAGS : Z) r (op : ring_op) : option (ring_result * ring_buffer T) :=
  match op with
  | OpPush v => '(b, r) ← Push FLAGS r v; Some (RBool b, r)
  | OpPop => let '(o, r) := Pop r in Some (RValue o, r)
  | OpPeek idx => Some (RValue (Peek r idx), r)
  | OpClear => Some (RDone, Clear r)
  | OpSize => Some (RNumber (Size r), r)
  | OpFull => Some (RBool (Full r), r)
  | OpCapacity => Some (RNumber (Capacity r), r)
  end.

Definition bq_do (FLAGS : Z) q (op : ring_op) : option (ring_result * bounded_queue) :=
  match op with
  | OpPush v => '(b, q) ← bq_push FLAGS q v; Some (RBool b, q)
  | OpPop => let '(o, q) := bq_pop q in Some (RValue o, q)
  | OpPeek idx => Some (RValue (bq_peek q idx), q)
  | OpClear => Some (RDone, bq_clear q)
  | OpSize => Some (RNumber (Z.of_nat (length (bq_items q))), q)
  | OpFull => Some (RBool (length (bq_items q) =? bq_cap q)%nat, q)
  | OpCapacity => Some (RNumber (Z.of_nat (bq_cap q)), q)
  end.

(** The results of a run; [None] from the operation that waits on. *)
Fixpoint run {S : Type} (do : S -> ring_op -> option (ring_result * S)) (s : S) (ops : list ring_op)
    : list (option ring_result) :=
  match ops with
  | [] => []
  | op :: ops =>
      match do s op with
      | None => [None]
      | Some (res, s) => Some res :: run do s ops
      end
  end.

(** The ring holds [l]: the live positions are ready, the others are not. *)
Record ring_ok r (l : list T) : Prop := {
  ro_queue : queue_ r <> [];
  ro_head : 0 <= head_ r;
  ro_tail : tail_ r = head_ r + Z.of_nat (length l);
  ro_bound : tail_ r < 2 ^ 63;
  ro_size : Z.of_nat (length l) < queue_size r < 2 ^ 64;
  ro_live : forall i v, l !! i = Some v -> entry_at r (head_ r + Z.of_nat i) = Some (mkEntry 1 v);
  ro_free : forall p, tail_ r <= p < head_ r + queue_size r -> exists d, entry_at r p = Some (mkEntry 0 d) }.

Lemma ring_ok_tail r l : ring_ok r l -> 0 <= tail_ r - head_ r < queue_size r /\ u64 (tail_ r - head_ r + 1) = tail_ r - head_ r + 1.
Proof. intros [_ H0 Ht Hb Hs _ _]. split; [lia|]. apply u64_small. lia. Qed.

(** Publishing at the tail appends. *)
Lemma publish_ok r l v :
  ring_ok r l -> Z.of_nat (length l) + 1 < queue_size r -> tail_ r + 1 < 2 ^ 63 ->
  ring_ok (store_tail (publish r (tail_ r) v) (tail_ r + 1)) (l ++ [v]).
Proof.
  intros [Hq H0 Ht Hb Hs Hl Hf] Hroom Hb'. unfold publish.
  set (r1 := at_pos (set_data v) (tail_ r) r). set (r2 := at_pos SetReady (tail_ r) r1).
  assert (queue_size r2 = queue_size r) as Hn by (unfold r2, r1; by rewrite !queue_size_at_pos).
  assert (forall p, tail_ r <> p -> Z.abs (tail_ r - p) < queue_size r -> entry_at r2 p = entry_at r p) as Hne.
  { intros p Hp Hd. unfold r2, r1. rewrite entry_at_pos_ne by (rewrite ?queue_size_at_pos; done).
    by apply entry_at_pos_ne. }
  split; cbn [head_ tail_ queue_ store_tail]; change (queue_size (store_tail r2 (tail_ r + 1))) with (queue_size r2).
  - by apply queue_at_pos_nil, queue_at_pos_nil.
  - done.
  - rewrite u64_small, length_app by lia. cbn. change (head_ r2) with (head_ r). lia.
  - rewrite u64_small; lia.
  - rewrite length_app. cbn. lia.
  - intros i w Hi. change (head_ r2) with (head_ r). change (entry_at (store_tail r2 _)) with (entry_at r2).
    apply lookup_app_Some in Hi as [Hi|[Hge Hi]].
    + pose proof (lookup_lt_Some _ _ _ Hi). rewrite Hne by lia. by apply Hl.
    + apply list_lookup_singleton_Some in Hi as [Hi <-]. replace (head_ r + Z.of_nat i) with (tail_ r) by lia.
      unfold r2, r1. rewrite !entry_at_pos. destruct (Hf (tail_ r) ltac:(lia)) as [d ->]. done.
  - intros p Hp. change (head_ r2) with (head_ r) in Hp. change (entry_at (store_tail r2 _)) with (entry_at r2).
    rewrite u64_small in Hp by lia. rewrite Hne by lia. apply Hf. lia.
Qed.

(** Popping takes the first. *)
Lemma Pop_ok r v l :
  ring_ok r (v :: l) -> exists r', Pop r = (Some v, r') /\ ring_ok r' l /\ queue_size r' = queue_size r /\ head_ r' = head_ r + 1.
Proof.
  intros [Hq H0 Ht Hb Hs Hl Hf]. cbn [length] in *. unfold Pop. rewrite (proj2 (Z.leb_gt _ _)) by lia.
  pose proof (Hl 0%nat v eq_refl) as Hv. rewrite Z.add_0_r in Hv. unfold entry_at in Hv. rewrite Hv. cbn [IsReady flags_ negb].
  change (Z.land 1 1) with 1. change (negb (1 =? 0)) with true. cbn [negb]. change (negb (1 =? 1)) with false. cbn [data_].
  set (r2 := at_pos (set_data T0) (head_ r) (at_pos (set_flags 0) (head_ r) r)). eexists. split; [done|].
  assert (queue_size r2 = queue_size r) as Hn by (unfold r2; by rewrite !queue_size_at_pos).
  assert (forall p, head_ r <> p -> Z.abs (head_ r - p) < queue_size r -> entry_at r2 p = entry_at r p) as Hne.
  { intros p Hp Hd. unfold r2. rewrite entry_at_pos_ne by (rewrite ?queue_size_at_pos; done).
    by apply entry_at_pos_ne. }
  split_and!; cbn [head_ store_head]; [|done|apply u64_small; lia].
  split; cbn [head_ tail_ queue_ store_head]; change (queue_size (store_head r2 (head_ r + 1))) with (queue_size r2);
    rewrite ?(u64_small (head_ r + 1)) by lia; change (tail_ r2) with (tail_ r).
  - by apply queue_at_pos_nil, queue_at_pos_nil.
  - lia.
  - lia.
  - lia.
  - lia.
  - intros i w Hi. change (entry_at (store_head r2 _)) with (entry_at r2). pose proof (lookup_lt_Some _ _ _ Hi).
    rewrite Hne by lia. replace (head_ r + 1 + Z.of_nat i) with (head_ r + Z.of_nat (S i)) by lia. by apply Hl.
  - intros p Hp. change (entry_at (store_head r2 _)) with (entry_at r2). rewrite Hn in Hp.
    destruct (Z.eq_dec p (head_ r + queue_size r)) as [->|Hpne]; [|rewrite Hne by lia; apply Hf; lia].
    exists T0. transitivity (entry_at r2 (head_ r)).
    { unfold entry_at, idx_of. rewrite Hn. f_equal. f_equal. rewrite <- (Z.mul_1_l (queue_size r)) at 1.
      apply Z_mod_plus_full. }
    unfold r2. rewrite !entry_at_pos. unfold entry_at. rewrite Hv. done.
Qed.

Lemma Pop_nil_ok r : ring_ok r [] -> Pop r = (None, r).
Proof. intros Hr. pose proof (ro_tail _ _ Hr). cbn in *. unfold Pop. by rewrite (proj2 (Z.leb_le _ _)) by lia. Qed.

(** Growing keeps the contents. *)
Lemma Grow_entries r l (new_size : nat) :
  ring_ok r l -> (length l < new_size)%nat ->
  let es := for_ (Z.to_nat (tail_ r - head_ r)) (fun i es =>
      let pos := head_ r + Z.of_nat i in
      match queue_ r !! idx_of r pos with
      | Some e => <[Z.to_nat (pos mod Z.of_nat new_size) := e]> es
      | None => es
      end) (replicate new_size fresh_entry) in
  length es = new_size /\
  forall p, head_ r <= p < head_ r + Z.of_nat new_size ->
    es !! Z.to_nat (p mod Z.of_nat new_size) = if p <? tail_ r then entry_at r p else Some fresh_entry.
Proof.
  intros [Hq H0 Ht Hb Hs Hl Hf] Hn. cbv zeta. set (N := Z.of_nat new_size).
  replace (Z.to_nat (tail_ r - head_ r)) with (length l) by lia.
  assert (forall p, (Z.to_nat (p mod N) < new_size)%nat) as Hlt.
  { intros p. pose proof (Z.mod_pos_bound p N ltac:(unfold N; lia)). unfold N in *. lia. }
  match goal with |- context [for_ _ ?g ?s] => set (step := g); set (q0 := s) end.
  assert (let es := for_ (length l) step q0 in length es = new_size /\
    forall p, head_ r <= p < head_ r + N ->
      es !! Z.to_nat (p mod N) = if p <? head_ r + Z.of_nat (length l) then entry_at r p else Some fresh_entry) as [H1 H2].
  { apply (for_ind (fun i es => length es = new_size /\ forall p, head_ r <= p < head_ r + N ->
      es !! Z.to_nat (p mod N) = if p <? head_ r + Z.of_nat i then entry_at r p else Some fresh_entry)).
    - split; [apply length_replicate|]. intros p Hp. rewrite (proj2 (Z.ltb_ge _ _)) by lia.
      apply lookup_replicate_2, Hlt.
    - intros i es Hi [Hlen IH]. unfold step. fold N. destruct (entry_at_is_Some r (head_ r + Z.of_nat i) Hq) as [e He].
      unfold entry_at in He. rewrite He. split; [by rewrite length_insert|]. intros p Hp.
      destruct (Z.eq_dec p (head_ r + Z.of_nat i)) as [->|Hne].
      + rewrite (proj2 (Z.ltb_lt _ _)) by lia. rewrite list_lookup_insert_eq by (rewrite Hlen; apply Hlt). done.
      + rewrite list_lookup_insert_ne.
        * rewrite IH by done. destruct (Z.ltb_spec p (head_ r + Z.of_nat i)), (Z.ltb_spec p (head_ r + Z.of_nat (S i))); try done; lia.
        * intros He'. apply Hne. apply (mod_window_inj N); [unfold N; lia|unfold N in *; lia|].
          pose proof (Z.mod_pos_bound p N ltac:(unfold N; lia)).
          pose proof (Z.mod_pos_bound (head_ r + Z.of_nat i) N ltac:(unfold N; lia)). lia. }
  split; [done|]. intros p Hp. by rewrite H2, Ht.
Qed.

Definition grown (n : nat) : nat := if (1 <? n)%nat then ((n - 1) * 2 + 1)%nat else 2%nat.

Lemma Grow_ok r l :
  ring_ok r l -> Z.of_nat (grown (length (queue_ r))) < 2 ^ 64 ->
  ring_ok (Grow r) l /\ length (queue_ (Grow r)) = grown (length (queue_ r)) /\
  head_ (Grow r) = head_ r /\ tail_ (Grow r) = tail_ r.
Proof.
  intros Hr Hbig. pose proof Hr as [Hq H0 Ht Hb Hs Hl Hf].
  assert (length (queue_ r) <= grown (length (queue_ r)))%nat as Hge.
  { unfold grown. destruct (1 <? length (queue_ r))%nat eqn:E; [|apply Nat.ltb_ge in E; lia]. lia. }
  unfold queue_size in Hs.
  pose proof (Grow_entries r l (grown (length (queue_ r))) Hr ltac:(lia)) as HG.
  unfold Grow. change (if (1 <? length (queue_ r))%nat then _ else _) with (grown (length (queue_ r))).
  cbv zeta in HG. match type of HG with length ?q0 = _ /\ _ => set (q := q0) in * end.
  destruct HG as [Hlen Hq']. split_and!; [|done..].
  assert (queue_size (mkRing q (head_ r) (tail_ r)) = Z.of_nat (grown (length (queue_ r)))) as Hsz by (unfold queue_size; cbn; lia).
  split; cbn [head_ tail_ queue_]; rewrite ?Hsz.
  - intros He. apply (f_equal length) in He. cbn in He. destruct (queue_ r); [done|]. cbn [length] in *. lia.
  - done.
  - done.
  - done.
  - lia.
  - intros i v Hi. pose proof (lookup_lt_Some _ _ _ Hi). unfold entry_at, idx_of. cbn [queue_]. rewrite Hsz, Hq' by lia.
    rewrite (proj2 (Z.ltb_lt _ _)) by lia. by apply Hl.
  - intros p Hp. unfold entry_at, idx_of. cbn [queue_]. rewrite Hsz, Hq' by lia.
    rewrite (proj2 (Z.ltb_ge _ _)) by lia. by eexists.
Qed.

Lemma Clear_ok r l : ring_ok r l -> ring_ok (Clear r) [].
Proof.
  intros [Hq H0 Ht Hb Hs Hl Hf].
  assert (queue_size (Clear r) = queue_size r) as Hn by (unfold queue_size; cbn; by rewrite length_map).
  split; rewrite ?Hn; cbn [head_ tail_ Clear length queue_]; try lia.
  - by destruct (queue_ r).
  - intros i v Hi. by rewrite lookup_nil in Hi.
  - intros p _. destruct (entry_at_is_Some r p Hq) as [e He]. exists (data_ e). unfold entry_at, idx_of in *.
    rewrite Hn. cbn [queue_ Clear]. match goal with |- context [map ?f ?l] => change (map f l) with (f <$> l) end.
    by rewrite list_lookup_fmap, He.
Qed.

Lemma Peek_ok r l idx :
  ring_ok r l -> Peek r idx = bq_peek (mkQueue 0 l (head_ r)) idx.
Proof.
  intros [Hq H0 Ht Hb Hs Hl Hf]. unfold Peek, bq_peek. cbn [bq_head bq_items].
  destruct (Z.ltb_spec idx (head_ r)) as [|Hge]; [done|]. cbn [orb].
  destruct (Z.leb_spec (tail_ r) idx) as [Hle|Hlt].
  - symmetry. apply lookup_ge_None_2. lia.
  - destruct (lookup_lt_is_Some_2 l (Z.to_nat (idx - head_ r)) ltac:(lia)) as [v Hv]. rewrite Hv.
    pose proof (Hl _ _ Hv) as He. replace (head_ r + Z.of_nat (Z.to_nat (idx - head_ r))) with idx in He by lia.
    unfold entry_at in He. by rewrite He.
Qed.

(** The ring after [k] pushes implements the bounded queue. *)
Record ring_rel (depth : nat) (k : Z) r (q : bounded_queue) : Prop := {
  rr_ok : ring_ok r (bq_items q);
  rr_head : bq_head q = head_ r;
  rr_cap : queue_size r = Z.of_nat (bq_cap q) + 1;
  rr_tail : tail_ r <= k;
  rr_depth : Z.of_nat (bq_cap q) <= Z.max (Z.of_nat depth) (2 * k) }.

Definition blocks_or_fails (FLAGS : Z) : bool := DynamicSize FLAGS || WaitForSpace FLAGS || ErrorOnNoSpace FLAGS.

Lemma ring_new_rel depth : Z.of_nat depth < 2 ^ 62 -> ring_rel depth 0 (ring_new depth) (bq_new depth).
Proof.
  intros Hd. assert (queue_size (ring_new depth) = Z.of_nat depth + 1) as Hn.
  { unfold queue_size. cbn. rewrite length_replicate. lia. }
  split; cbn [bq_cap bq_head bq_new head_ tail_ ring_new]; [|lia..].
  split; rewrite ?Hn; cbn [bq_items bq_new length]; try (cbn; lia).
  - cbn. by rewrite Nat.add_1_r.
  - intros i v Hi. by rewrite lookup_nil in Hi.
  - intros p Hp. exists T0. unfold entry_at, ring_new. cbn [queue_]. apply lookup_replicate_2.
    pose proof (idx_of_lt (ring_new depth) p) as Hl. cbn [queue_ ring_new] in Hl. rewrite length_replicate in Hl.
    apply Hl. by rewrite Nat.add_1_r.
Qed.

Lemma publish_rel depth k r l cap v :
  ring_ok r l -> queue_size r = Z.of_nat cap + 1 -> (length l < cap)%nat -> tail_ r <= k < 2 ^ 62 - 1 ->
  Z.of_nat cap <= Z.max (Z.of_nat depth) (2 * (k + 1)) ->
  ring_rel depth (k + 1) (store_tail (publish r (tail_ r) v) (tail_ r + 1)) (mkQueue cap (l ++ [v]) (head_ r)).
Proof.
  intros Hr Hn Hroom Hk Hcap. pose proof (ro_head _ _ Hr). pose proof (ro_tail _ _ Hr).
  split; cbn [bq_items bq_head bq_cap].
  - apply publish_ok; [done|lia|lia].
  - done.
  - change (queue_size (publish r (tail_ r) v) = Z.of_nat cap + 1). unfold publish. by rewrite !queue_size_at_pos.
  - cbn [tail_ store_tail]. rewrite u64_small; lia.
  - done.
Qed.

Lemma Push_rel FLAGS depth k r q v :
  blocks_or_fails FLAGS = true -> Z.of_nat depth < 2 ^ 62 -> 0 <= k < 2 ^ 62 - 1 -> ring_rel depth k r q ->
  match bq_push FLAGS q v with
  | None => Push FLAGS r v = None
  | Some (b, q') => exists r', Push FLAGS r v = Some (b, r') /\ ring_rel depth (k + 1) r' q'
  end.
Proof.
  intros HF Hd Hk [Hr Hhd Hcap Htl Hdp]. destruct q as [cap l hd]. cbn [bq_items bq_head bq_cap] in *. subst hd.
  destruct (ring_ok_tail _ _ Hr) as [Hrng Hu]. pose proof (ro_tail _ _ Hr) as Ht. pose proof (ro_size _ _ Hr) as Hs.
  pose proof (ro_head _ _ Hr) as H0.
  assert ((queue_size r <=? tail_ r - head_ r + 1) = (cap <=? length l)%nat) as Hfull.
  { destruct (Nat.leb_spec cap (length l)); [apply Z.leb_le|apply Z.leb_gt]; lia. }
  unfold Push, Emplace, EmplaceFixed, bq_push, blocks_or_fails in *. cbn [bq_items bq_head bq_cap].
  change (queue_size (store_tail r (tail_ r + 1))) with (queue_size r). rewrite Hu, Hfull.
  destruct (DynamicSize FLAGS); cbn [orb] in HF.
  - eexists. split; [done|]. destruct (Nat.leb_spec cap (length l)) as [Hle|Hlt]; [|apply publish_rel; done || lia].
    assert (cap = length l) as -> by lia. unfold queue_size in Hcap.
    assert (grown (length (queue_ r)) = S (if (0 <? length l)%nat then 2 * length l else 1)) as Hg.
    { unfold grown. replace (length (queue_ r)) with (S (length l)) by lia.
      destruct (Nat.ltb_spec 1 (S (length l))), (Nat.ltb_spec 0 (length l)); lia. }
    destruct (Grow_ok r l Hr) as (Hr' & Hl' & Hh' & Ht').
    { rewrite Hg. destruct (Nat.ltb_spec 0 (length l)); lia. }
    rewrite <- Hh'. apply publish_rel; [done| | |lia|].
    + unfold queue_size. rewrite Hl', Hg. lia.
    + destruct (Nat.ltb_spec 0 (length l)); lia.
    + destruct (Nat.ltb_spec 0 (length l)); lia.
  - destruct (Nat.leb_spec cap (length l)) as [Hle|Hlt]; destruct (WaitForSpace FLAGS); cbn [orb] in HF.
    + done.
    + rewrite HF. cbn [andb]. eexists. split; [done|].
      replace (store_tail (store_tail r (tail_ r + 1)) _) with r; [by split; cbn; try lia|].
      destruct r as [es h t]. unfold store_tail. cbn [tail_ queue_ head_] in *. f_equal.
      pose proof (ro_bound _ _ Hr). cbn in *. rewrite (u64_small (t + 1)), u64_small; lia.
    + eexists. split; [done|]. apply (publish_rel depth k r l cap v); done || lia.
    + rewrite HF. cbn [andb]. eexists. split; [done|]. apply (publish_rel depth k r l cap v); done || lia.
Qed.

Lemma ring_do_rel FLAGS depth k r q op :
  blocks_or_fails FLAGS = true -> Z.of_nat depth < 2 ^ 62 -> 0 <= k < 2 ^ 62 - 1 -> ring_rel depth k r q ->
  match bq_do FLAGS q op with
  | None => ring_do FLAGS r op = None
  | Some (res, q') => exists r', ring_do FLAGS r op = Some (res, r') /\ ring_rel depth (k + 1) r' q'
  end.
Proof.
  intros HF Hd Hk Hrel. pose proof Hrel as [Hr Hhd Hcap Htl Hdp].
  assert (ring_rel depth (k + 1) r q) as Hsame by (split; [done..|lia|lia]).
  pose proof (ro_head _ _ Hr). pose proof (ro_tail _ _ Hr). pose proof (ro_size _ _ Hr). pose proof (ro_bound _ _ Hr).
  destruct op; cbn [bq_do ring_do].
  - pose proof (Push_rel FLAGS depth k r q v HF Hd Hk Hrel) as HP. destruct (bq_push FLAGS q v) as [[b q']|].
    + destruct HP as (r' & -> & ?). cbn. by eexists.
    + by rewrite HP.
  - unfold bq_pop. destruct q as [cap [|v l] hd]; cbn [bq_items bq_head bq_cap] in *.
    + rewrite Pop_nil_ok by done. by eexists.
    + destruct (Pop_ok r v l Hr) as (r' & -> & Hr' & Hn' & Hh'). eexists. split; [done|].
      pose proof (ro_tail _ _ Hr') as Ht'. cbn [length] in *. split; cbn [bq_items bq_head bq_cap]; try done; lia.
  - eexists. split; [|done]. rewrite (Peek_ok r (bq_items q)) by done. unfold bq_peek. cbn. by rewrite Hhd.
  - eexists. split; [done|]. split; cbn [bq_items bq_head bq_cap bq_clear head_ tail_ Clear]; try done; [by eapply Clear_ok| |lia|lia].
    unfold queue_size in *. cbn. by rewrite length_map.
  - eexists. split; [|done]. unfold Size. rewrite (proj2 (Z.leb_le _ _)) by lia. do 3 f_equal. lia.
  - eexists. split; [|done]. unfold Full. rewrite (u64_small (queue_size r - 1)), u64_small by lia. do 3 f_equal.
    destruct (Nat.eqb_spec (length (bq_items q)) (bq_cap q)); [apply Z.eqb_eq|apply Z.eqb_neq]; lia.
  - eexists. split; [|done]. unfold Capacity. rewrite (proj2 (Z.ltb_lt _ _)) by lia. do 3 f_equal. lia.
Qed.

Lemma ring_run_rel FLAGS depth ops : forall k r q,
  blocks_or_fails FLAGS = true -> Z.of_nat depth < 2 ^ 62 -> 0 <= k -> k + Z.of_nat (length ops) < 2 ^ 62 ->
  ring_rel depth k r q -> run (ring_do FLAGS) r ops = run (bq_do FLAGS) q ops.
Proof.
  induction ops as [|op ops IH]; intros k r q HF Hd Hk Hlen Hrel; [done|]. cbn [run]. cbn [length] in Hlen.
  pose proof (ring_do_rel FLAGS depth k r q op HF Hd ltac:(lia) Hrel) as HS.
  destruct (bq_do FLAGS q op) as [[res q']|].
  - destruct HS as (r' & -> & Hrel'). f_equal. apply (IH (k + 1)); done || lia.
  - by rewrite HS.
Qed.
End Ring.


(** * Properties *)

Section Properties.
Context {T : Type} (T0 : T).

(** C30. Run alone, the ring is a bounded queue: under every flag combination that
    waits, fails or grows when full, any sequence of fewer than 2^62 operations
    gives the results of a queue of [depth] elements, wrapped indices and the
    doubling of a growing ring included. *)
Theorem ring_refines_bounded_queue (FLAGS : Z) (depth : nat) (ops : list ring_op) :
  blocks_or_fails FLAGS = true -> Z.of_nat depth < 2 ^ 62 -> Z.of_nat (length ops) < 2 ^ 62 ->
  run (ring_do T0 FLAGS) (ring_new T0 depth) ops = run (bq_do FLAGS) (@bq_new T depth) ops.
Proof.
  intros HF Hd Hl. apply (ring_run_rel T0 FLAGS depth ops 0); [done..|lia|lia|]. by apply ring_new_rel.
Qed.
End Properties.

Lemma ring_refines_bounded_queue_witness :
  run (bq_do ext_ring_buffer) (bq_new 1) [OpPush 5%nat; OpPush 6%nat; OpPush 7%nat; OpPop; OpCapacity; OpPeek 2] =
    [Some (RBool true); Some (RBool true); Some (RBool true); Some (RValue (Some 5%nat)); Some (RNumber 4); Some (RValue (Some 7%nat))] /\
  run (ring_do 0%nat ext_ring_buffer) (ring_new 0%nat 1) [OpPush 5%nat; OpPush 6%nat; OpPush 7%nat; OpPop; OpCapacity; OpPeek 2] =
  run (bq_do ext_ring_buffer) (bq_new 1) [OpPush 5%nat; OpPush 6%nat; OpPush 7%nat; OpPop; OpCapacity; OpPeek 2].
Proof.
  split; [reflexivity|]. apply ring_refines_bounded_queue.
  - reflexivity.
  - lia.
  - cbn. lia.
Defined.

(** The copy constructor of any ring assigns past the end of its vector. *)
Theorem ring_copy_overruns {T} (T0 : T) (other : ring_buffer T) : queue_ other <> [] -> ring_copy T0 other = None.
Proof.
  intros Hne. unfold ring_copy. set (n := length (queue_ other)).
  assert (0 < n)%nat by (unfold n; destruct (queue_ other); [done|cbn; lia]).
  match goal with |- option_map _ (for_opt n ?g ?s) = None => destruct (for_opt n g s) as [q|] eqn:E; [|done] end. exfalso.
  assert ((n = n -> False) /\ length q = (n - 1)%nat) as [H1 _]; [|by apply H1].
  refine (for_opt_ind (fun i q => (i = n -> False) /\ length q = (n - 1)%nat) n _ _ _ E _ _).
  - split; [lia|apply length_replicate].
  - intros i es es' Hi [_ Hlen]. destruct (queue_ other !! i); [|done].
    destruct (Nat.ltb_spec i (length es)); [|done]. intros [= <-]. rewrite length_insert. split; [lia|done].
Qed.
