(* ===== verification/RingMachine.v ===== *)
(** The lock-free path of the ring buffer
    ([clio_ctp/data_structures/ipc/ring_buffer.h]: [EmplaceFixed], [PushSystem] and
    [PopUnlocked]) under any interleaving of producers and consumers.

    Memory is sequentially consistent: the fences and the scopes of the loads,
    which matter between a GPU and its host, are not modelled. *)
From Stdlib Require Import ZArith Lia.
From stdpp Require Import base list relations.
From S2P Require Import Prelude RingBuffer.

Open Scope Z_scope.

(** * Producers and consumers that interleave

    The lock-free path of [EmplaceFixed] under [RING_BUFFER_WAIT_FOR_SPACE] and
    [PopUnlocked], one step per access to shared memory; a test of a local value
    goes with the access after it. [lock_pop] is [LockPop FLAGS]: a consumer then
    holds [lock_] over its whole [Pop]. The ghost fields record the reservations
    in the order of their [fetch_add]s, and the values the consumers took. *)

(** The program counter and the locals of an [EmplaceFixed] call. *)
Inductive producer (T : Type) :=
| PIdle
| PLoaded (v : T) (head : Z)            (** [head = head_.load()] *)
| PReserved (v : T) (head tail : Z)     (** [tail = tail_.fetch_add(1)] *)
| PWritten (tail : Z).                  (** [entry.data_ = v] *)
Arguments PIdle {T}. Arguments PLoaded {T}. Arguments PReserved {T}. Arguments PWritten {T}.

(** Those of a [PopUnlocked] call. *)
Inductive consumer (T : Type) :=
| CIdle
| CStart                                (** about to load [head_] *)
| CHead (head : Z)                      (** [head = head_.load()] *)
| CTail (head tail : Z)                 (** [tail = tail_.load()] *)
| CReady (head : Z)                     (** [IsReadySystem()] was true *)
| CClaimed (head : Z)                   (** the exchange 1 -> 0 succeeded *)
| CRead (head : Z) (v : T)              (** [val = entry.data_] *)
| CCleared (head : Z) (v : T).          (** [entry.data_ = T()] *)
Arguments CIdle {T}. Arguments CStart {T}. Arguments CHead {T}. Arguments CTail {T}.
Arguments CReady {T}. Arguments CClaimed {T}. Arguments CRead {T}. Arguments CCleared {T}.

Record world (T : Type) := mkWorld {
  w_ring : ring_buffer T;
  w_producers : list (producer T);
  w_consumers : list (consumer T);
  w_lock : option nat;
  w_log : list (nat * T);       (** ghost: reservations *)
  w_popped : list T }.          (** ghost: values taken *)
Arguments mkWorld {T}. Arguments w_ring {T}. Arguments w_producers {T}. Arguments w_consumers {T}.
Arguments w_lock {T}. Arguments w_log {T}. Arguments w_popped {T}.

Section Machine.
Context {T : Type} (T0 : T) (lock_pop : bool).
Implicit Types (r : ring_buffer T) (v : T) (w : world T) (ps : list (producer T)) (cs : list (consumer T))
  (log : list (nat * T)) (popped : list T).

Definition world_init (depth producers consumers : nat) : world T :=
  mkWorld (ring_new T0 depth) (replicate producers PIdle) (replicate consumers CIdle) None [] [].

(** Entering and leaving [Pop]. *)
Definition acquire (lk : option nat) (j : nat) (lk' : option nat) : Prop :=
  if lock_pop then lk = None /\ lk' = Some j else lk' = lk.
Definition release (lk : option nat) : option nat := if lock_pop then None else lk.

Inductive ring_step : world T -> world T -> Prop :=
| push_load r ps cs lk log popped i v :
    ps !! i = Some PIdle ->
    ring_step (mkWorld r ps cs lk log popped)
              (mkWorld r (<[i := PLoaded v (head_ r)]> ps) cs lk log popped)
| push_reserve r ps cs lk log popped i v head :
    ps !! i = Some (PLoaded v head) ->
    ring_step (mkWorld r ps cs lk log popped)
              (mkWorld (store_tail r (tail_ r + 1)) (<[i := PReserved v head (tail_ r)]> ps) cs lk (log ++ [(i, v)]) popped)
| push_wait r ps cs lk log popped i v head tail :
    ps !! i = Some (PReserved v head tail) -> queue_size r <= u64 (tail - head + 1) ->
    ring_step (mkWorld r ps cs lk log popped)
              (mkWorld r (<[i := PReserved v (head_ r) tail]> ps) cs lk log popped)
| push_write r ps cs lk log popped i v head tail :
    ps !! i = Some (PReserved v head tail) -> u64 (tail - head + 1) < queue_size r ->
    ring_step (mkWorld r ps cs lk log popped)
              (mkWorld (at_pos (set_data v) tail r) (<[i := PWritten tail]> ps) cs lk log popped)
| push_ready r ps cs lk log popped i tail :
    ps !! i = Some (PWritten tail) ->
    ring_step (mkWorld r ps cs lk log popped)
              (mkWorld (at_pos SetReady tail r) (<[i := PIdle]> ps) cs lk log popped)
| pop_enter r ps cs lk lk' log popped j :
    cs !! j = Some CIdle -> acquire lk j lk' ->
    ring_step (mkWorld r ps cs lk log popped) (mkWorld r ps (<[j := CStart]> cs) lk' log popped)
| pop_head r ps cs lk log popped j :
    cs !! j = Some CStart ->
    ring_step (mkWorld r ps cs lk log popped) (mkWorld r ps (<[j := CHead (head_ r)]> cs) lk log popped)
| pop_tail r ps cs lk log popped j head :
    cs !! j = Some (CHead head) ->
    ring_step (mkWorld r ps cs lk log popped) (mkWorld r ps (<[j := CTail head (tail_ r)]> cs) lk log popped)
| pop_empty r ps cs lk log popped j head tail :
    cs !! j = Some (CTail head tail) -> tail <= head ->
    ring_step (mkWorld r ps cs lk log popped) (mkWorld r ps (<[j := CIdle]> cs) (release lk) log popped)
| pop_is_ready r ps cs lk log popped j head tail e :
    cs !! j = Some (CTail head tail) -> head < tail -> entry_at r head = Some e ->
    ring_step (mkWorld r ps cs lk log popped)
      (if IsReady e then mkWorld r ps (<[j := CReady head]> cs) lk log popped
       else mkWorld r ps (<[j := CIdle]> cs) (release lk) log popped)
| pop_claim r ps cs lk log popped j head e :
    cs !! j = Some (CReady head) -> entry_at r head = Some e ->
    ring_step (mkWorld r ps cs lk log popped)
      (if flags_ e =? 1 then mkWorld (at_pos (set_flags 0) head r) ps (<[j := CClaimed head]> cs) lk log popped
       else mkWorld r ps (<[j := CIdle]> cs) (release lk) log popped)
| pop_read r ps cs lk log popped j head e :
    cs !! j = Some (CClaimed head) -> entry_at r head = Some e ->
    ring_step (mkWorld r ps cs lk log popped) (mkWorld r ps (<[j := CRead head (data_ e)]> cs) lk log popped)
| pop_clear r ps cs lk log popped j head v :
    cs !! j = Some (CRead head v) ->
    ring_step (mkWorld r ps cs lk log popped)
              (mkWorld (at_pos (set_data T0) head r) ps (<[j := CCleared head v]> cs) lk log popped)
| pop_advance r ps cs lk log popped j head v :
    cs !! j = Some (CCleared head v) ->
    ring_step (mkWorld r ps cs lk log popped)
              (mkWorld (store_head r (head + 1)) ps (<[j := CIdle]> cs) (release lk) log (popped ++ [v])).

(** The position a producer has reserved and not published. *)
Definition reserved (p : producer T) : option Z :=
  match p with
  | PReserved _ _ tail | PWritten tail => Some tail
  | _ => None
  end.

Definition pending ps (pos : Z) : Prop := Exists (fun p => reserved p = Some pos) ps.

(** A consumer has taken the flag of the head's entry and not moved the head. *)
Definition claims (c : consumer T) : bool :=
  match c with CClaimed _ | CRead _ _ | CCleared _ _ => true | _ => false end.
Definition claimed cs : Prop := Exists (fun c => claims c = true) cs.

Definition idle (c : consumer T) : bool := match c with CIdle => true | _ => false end.

(** [v] is published at a position. *)
Definition stored r (pos : Z) v : Prop := entry_at r pos = Some (mkEntry 1 v).

Definition log_at log (pos : Z) : option (nat * T) := if pos <? 0 then None else log !! Z.to_nat pos.

(** ** The invariant *)

Definition producer_ok r log (i : nat) (p : producer T) : Prop :=
  match p with
  | PIdle => True
  | PLoaded _ head => 0 <= head <= head_ r
  | PReserved v head tail =>
      0 <= head <= head_ r /\ head_ r <= tail < tail_ r /\ log_at log tail = Some (i, v)
  | PWritten tail =>
      head_ r <= tail < tail_ r /\ tail < head_ r + queue_size r - 1 /\
      exists v, log_at log tail = Some (i, v) /\ entry_at r tail = Some (mkEntry 0 v)
  end.

Definition taking r ps log (head : Z) v : Prop :=
  head = head_ r /\ head < tail_ r /\ ~ pending ps head /\ exists i, log_at log head = Some (i, v).

Definition consumer_ok r ps log (c : consumer T) : Prop :=
  match c with
  | CIdle | CStart => True
  | CHead head => head = head_ r
  | CTail head tail => head = head_ r /\ tail <= tail_ r
  | CReady head => exists v, taking r ps log head v /\ stored r head v
  | CClaimed head => exists v, taking r ps log head v /\ entry_at r head = Some (mkEntry 0 v)
  | CRead head v | CCleared head v => taking r ps log head v
  end.

(** Under the lock, or alone, at most one consumer is inside [Pop]. *)
Definition one_consumer cs (lk : option nat) : Prop :=
  if lock_pop then forall j c, cs !! j = Some c -> idle c = false -> lk = Some j
  else (length cs <= 1)%nat.

Record ring_inv w : Prop := {
  ri_queue : queue_ (w_ring w) <> [];
  ri_head : head_ (w_ring w) = Z.of_nat (length (w_popped w));
  ri_tail : tail_ (w_ring w) = Z.of_nat (length (w_log w));
  ri_le : head_ (w_ring w) <= tail_ (w_ring w);
  ri_popped : w_popped w = take (length (w_popped w)) (map snd (w_log w));
  ri_producers : forall i p, w_producers w !! i = Some p -> producer_ok (w_ring w) (w_log w) i p;
  ri_one : one_consumer (w_consumers w) (w_lock w);
  ri_consumers : forall j c, w_consumers w !! j = Some c -> consumer_ok (w_ring w) (w_producers w) (w_log w) c;
  ri_room : forall p, head_ (w_ring w) <= p < tail_ (w_ring w) -> ~ pending (w_producers w) p ->
    p < head_ (w_ring w) + queue_size (w_ring w) - 1;
  ri_live : forall p, head_ (w_ring w) <= p < tail_ (w_ring w) -> ~ pending (w_producers w) p ->
    ~ (p = head_ (w_ring w) /\ claimed (w_consumers w)) ->
    exists i v, log_at (w_log w) p = Some (i, v) /\ stored (w_ring w) p v;
  ri_free : forall p, head_ (w_ring w) <= p < head_ (w_ring w) + queue_size (w_ring w) ->
    tail_ (w_ring w) <= p \/ pending (w_producers w) p \/ (p = head_ (w_ring w) /\ claimed (w_consumers w)) ->
    exists d, entry_at (w_ring w) p = Some (mkEntry 0 d) }.

(** ** Bookkeeping *)

Lemma pending_lookup ps pos : pending ps pos <-> exists i p, ps !! i = Some p /\ reserved p = Some pos.
Proof.
  unfold pending. rewrite Exists_exists. setoid_rewrite list_elem_of_lookup. naive_solver.
Qed.

Lemma claimed_lookup cs : claimed cs <-> exists j c, cs !! j = Some c /\ claims c = true.
Proof. unfold claimed. rewrite Exists_exists. setoid_rewrite list_elem_of_lookup. naive_solver. Qed.

Lemma lookup_insert_cases {A} (l : list A) i j x y :
  (<[i := x]> l) !! j = Some y -> (i = j /\ y = x) \/ (i <> j /\ l !! j = Some y).
Proof. intros H. apply list_lookup_insert_Some in H. naive_solver. Qed.

(** An update that keeps the reservation keeps all of them. *)
Lemma pending_same ps i p p' pos :
  ps !! i = Some p -> reserved p' = reserved p -> pending (<[i := p']> ps) pos <-> pending ps pos.
Proof.
  intros Hi Hr. rewrite !pending_lookup. split.
  - intros (j & q & Hj & Hq). apply lookup_insert_cases in Hj as [[<- ->]|[Hne Hj]]; [exists i, p|exists j, q]; by rewrite <- ?Hr.
  - intros (j & q & Hj & Hq). destruct (decide (i = j)) as [<-|Hne].
    + exists i, p'. rewrite list_lookup_insert_eq by (by eapply lookup_lt_Some). split; [done|]. congruence.
    + exists j, q. by rewrite list_lookup_insert_ne.
Qed.

Lemma claimed_same cs j c c' :
  cs !! j = Some c -> claims c' = claims c -> claimed (<[j := c']> cs) <-> claimed cs.
Proof.
  intros Hi Hr. rewrite !claimed_lookup. split.
  - intros (i & q & Hj & Hq). apply lookup_insert_cases in Hj as [[<- ->]|[Hne Hj]]; [exists j, c|exists i, q]; by rewrite <- ?Hr.
  - intros (i & q & Hj & Hq). destruct (decide (j = i)) as [<-|Hne].
    + exists j, c'. rewrite list_lookup_insert_eq by (by eapply lookup_lt_Some). split; [done|]. congruence.
    + exists i, q. by rewrite list_lookup_insert_ne.
Qed.

Lemma log_at_app log x pos : 0 <= pos < Z.of_nat (length log) -> log_at (log ++ [x]) pos = log_at log pos.
Proof. intros Hp. unfold log_at. rewrite (proj2 (Z.ltb_ge _ _)) by lia. apply lookup_app_l. lia. Qed.

Lemma log_at_end log x : log_at (log ++ [x]) (Z.of_nat (length log)) = Some x.
Proof.
  unfold log_at. rewrite (proj2 (Z.ltb_ge _ _)) by lia. rewrite Nat2Z.id. by rewrite list_lookup_middle.
Qed.

(** The consumer inside [Pop] is the only one. *)
Lemma one_consumer_unique cs lk j j' c c' :
  one_consumer cs lk -> cs !! j = Some c -> cs !! j' = Some c' -> idle c = false -> idle c' = false -> j = j'.
Proof.
  unfold one_consumer. destruct lock_pop; intros H Hj Hj' Hc Hc'.
  - pose proof (H _ _ Hj Hc). pose proof (H _ _ Hj' Hc'). congruence.
  - apply lookup_lt_Some in Hj, Hj'. lia.
Qed.

(** A consumer that goes on inside [Pop], or leaves it. *)
Lemma one_consumer_step cs lk j c c' :
  one_consumer cs lk -> cs !! j = Some c -> idle c = false -> idle c' = false -> one_consumer (<[j := c']> cs) lk.
Proof.
  unfold one_consumer. destruct lock_pop; [|by rewrite length_insert]. intros H Hj Hc Hc' i q Hq Hi.
  apply lookup_insert_cases in Hq as [[<- ->]|[Hne Hq]]; by eapply H.
Qed.

Lemma one_consumer_leave cs lk j c :
  one_consumer cs lk -> cs !! j = Some c -> idle c = false -> one_consumer (<[j := CIdle]> cs) (release lk).
Proof.
  unfold one_consumer, release. destruct lock_pop; [|by rewrite length_insert]. intros H Hj Hc i q Hq Hi.
  apply lookup_insert_cases in Hq as [[<- ->]|[Hne Hq]]; [done|].
  exfalso. apply Hne. pose proof (H _ _ Hj Hc). pose proof (H _ _ Hq Hi). congruence.
Qed.

(** When the active consumer holds no claim, none does. *)
Lemma not_claimed cs lk j c :
  one_consumer cs lk -> cs !! j = Some c -> idle c = false -> claims c = false -> ~ claimed cs.
Proof.
  intros H Hj Hc Hcl Hcl'. apply claimed_lookup in Hcl' as (i & q & Hi & Hq).
  assert (idle q = false) by (by destruct q).
  assert (i = j) as -> by (by eapply (one_consumer_unique cs lk)). congruence.
Qed.

Lemma others_idle cs lk j c j' c' :
  one_consumer cs lk -> cs !! j = Some c -> idle c = false -> j <> j' -> cs !! j' = Some c' -> c' = CIdle.
Proof.
  intros H Hj Hc Hne Hj'. destruct (idle c') eqn:E; [by destruct c'|]. exfalso. apply Hne.
  by eapply (one_consumer_unique cs lk).
Qed.

Lemma claimed_not_pending w : ring_inv w -> claimed (w_consumers w) -> ~ pending (w_producers w) (head_ (w_ring w)).
Proof.
  intros Hw Hcl. apply claimed_lookup in Hcl as (j & c & Hj & Hc). pose proof (ri_consumers _ Hw _ _ Hj) as Hok.
  destruct c; try done; cbn in Hok; unfold taking in Hok; naive_solver.
Qed.

(** A reserved position belongs to one producer. *)
Lemma reserved_unique w i j p q pos :
  ring_inv w -> w_producers w !! i = Some p -> w_producers w !! j = Some q ->
  reserved p = Some pos -> reserved q = Some pos -> i = j.
Proof.
  intros Hw Hi Hj Hp Hq. pose proof (ri_producers _ Hw _ _ Hi) as Oi. pose proof (ri_producers _ Hw _ _ Hj) as Oj.
  destruct p; try done; destruct q; try done; cbn in *; simplify_eq; naive_solver.
Qed.

Lemma producer_ok_frame r r' log log' i p :
  producer_ok r log i p -> head_ r = head_ r' -> tail_ r <= tail_ r' -> queue_size r' = queue_size r ->
  (forall pos, head_ r <= pos < tail_ r -> log_at log' pos = log_at log pos) ->
  (forall pos v, p = PWritten pos -> entry_at r pos = Some (mkEntry 0 v) -> entry_at r' pos = Some (mkEntry 0 v)) ->
  producer_ok r' log' i p.
Proof.
  intros Hok Hh Ht Hn Hlog He. destruct p as [|v h|v h t|t]; cbn in *.
  - done.
  - by rewrite <- Hh.
  - destruct Hok as (? & ? & Hl). rewrite Hlog, <- Hh by lia. split_and!; [lia..|done].
  - destruct Hok as (? & ? & v & Hl & Hv). rewrite Hn, <- Hh. split_and!; [lia..|]. exists v.
    rewrite Hlog by lia. split; [done|]. by apply He.
Qed.

Lemma consumer_ok_frame r r' ps ps' log log' c :
  consumer_ok r ps log c -> head_ r' = head_ r -> tail_ r <= tail_ r' ->
  (forall pos, head_ r <= pos < tail_ r -> log_at log' pos = log_at log pos) ->
  (head_ r < tail_ r -> ~ pending ps (head_ r) -> ~ pending ps' (head_ r) /\ entry_at r' (head_ r) = entry_at r (head_ r)) ->
  consumer_ok r' ps' log' c.
Proof.
  intros Hok Hh Ht Hlog He.
  assert (forall h v, taking r ps log h v -> taking r' ps' log' h v /\ h = head_ r /\ entry_at r' h = entry_at r h) as HT.
  { intros h v (-> & Hlt & Hnp & i & Hl). destruct (He Hlt Hnp) as [Hnp' He'].
    split_and!; [|done..]. unfold taking. rewrite Hh, Hlog by lia. split_and!; [done|lia|done|eauto]. }
  destruct c as [| |h|h t|h|h|h v|h v]; cbn in *; unfold stored in *.
  - done.
  - done.
  - by rewrite Hh.
  - rewrite Hh. lia.
  - destruct Hok as (v & Hv & Hs). destruct (HT _ _ Hv) as (? & _ & Heq). exists v. by rewrite Heq.
  - destruct Hok as (v & Hv & Hs). destruct (HT _ _ Hv) as (? & _ & Heq). exists v. by rewrite Heq.
  - by apply HT.
  - by apply HT.
Qed.

(** ** The steps preserve it *)

Lemma producer_local r ps cs lk log popped i p p' :
  ring_inv (mkWorld r ps cs lk log popped) -> ps !! i = Some p -> reserved p' = reserved p -> producer_ok r log i p' ->
  ring_inv (mkWorld r (<[i := p']> ps) cs lk log popped).
Proof.
  intros Hw Hi Hr Hok. pose proof (pending_same ps i p p') as HP. destruct Hw as [I1 I2 I3 I4 I5 I6 I7 I8 I9 I10 I11].
  split; cbn in *; try done.
  - intros j q Hj. apply lookup_insert_cases in Hj as [[<- ->]|[_ Hj]]; [done|by apply I6].
  - intros j c Hj. eapply consumer_ok_frame; [by eapply I8|done..|]. intros _ Hnp. by rewrite HP.
  - intros pos Hpos. rewrite HP by done. by apply I9.
  - intros pos Hpos. rewrite HP by done. by apply I10.
  - intros pos Hpos. rewrite HP by done. by apply I11.
Qed.

Lemma consumer_local r ps cs lk lk' log popped j c c' :
  ring_inv (mkWorld r ps cs lk log popped) -> cs !! j = Some c -> claims c' = claims c -> consumer_ok r ps log c' ->
  one_consumer (<[j := c']> cs) lk' ->
  ring_inv (mkWorld r ps (<[j := c']> cs) lk' log popped).
Proof.
  intros Hw Hj Hr Hok H1. pose proof (claimed_same cs j c c') as HP. destruct Hw as [I1 I2 I3 I4 I5 I6 I7 I8 I9 I10 I11].
  split; cbn in *; try done.
  - intros i q Hi. apply lookup_insert_cases in Hi as [[<- ->]|[_ Hi]]; [done|by eapply I8].
  - intros pos Hpos. rewrite HP by done. by apply I10.
  - intros pos Hpos. rewrite HP by done. by apply I11.
Qed.

Lemma reserve_inv r ps cs lk log popped i v head :
  ring_inv (mkWorld r ps cs lk log popped) -> ps !! i = Some (PLoaded v head) -> Z.of_nat (length log) + 1 < 2 ^ 64 ->
  ring_inv (mkWorld (store_tail r (tail_ r + 1)) (<[i := PReserved v head (tail_ r)]> ps) cs lk (log ++ [(i, v)]) popped).
Proof.
  intros Hw Hi Hb. pose proof (ri_producers _ Hw _ _ Hi) as Hok. destruct Hw as [I1 I2 I3 I4 I5 I6 I7 I8 I9 I10 I11]. cbn in *.
  assert (forall pos, pending (<[i := PReserved v head (tail_ r)]> ps) pos <-> pos = tail_ r \/ pending ps pos) as HP.
  { intros pos. rewrite !pending_lookup. split.
    - intros (j & q & Hj & Hq). apply lookup_insert_cases in Hj as [[<- ->]|[_ Hj]]; [left; by injection Hq|right; eauto].
    - intros [->|(j & q & Hj & Hq)].
      + exists i, (PReserved v head (tail_ r)). rewrite list_lookup_insert_eq by (by eapply lookup_lt_Some). done.
      + exists j, q. rewrite list_lookup_insert_ne by (intros ->; congruence || (rewrite Hi in Hj; by simplify_eq)). done. }
  assert (forall pos, head_ r <= pos < tail_ r -> log_at (log ++ [(i, v)]) pos = log_at log pos) as HL.
  { intros pos Hpos. apply log_at_app. lia. }
  assert (tail_ (store_tail r (tail_ r + 1)) = tail_ r + 1) as Ht by (cbn; rewrite u64_small; lia).
  split; cbn [w_ring w_producers w_consumers w_lock w_log w_popped]; rewrite ?Ht; try done.
  - cbn. rewrite length_app. cbn. lia.
  - cbn. lia.
  - cbn. rewrite map_app, take_app_le; [done|]. rewrite length_map. lia.
  - intros j q Hj. apply lookup_insert_cases in Hj as [[<- ->]|[_ Hj]].
    + cbn [producer_ok]. rewrite Ht. cbn [head_ store_tail]. split_and!; [lia..|]. rewrite I3. apply log_at_end.
    + eapply producer_ok_frame; [by eapply I6|done| |done..]. rewrite Ht. lia.
  - intros j c Hj. eapply consumer_ok_frame; [by eapply I8|done| |done|]; [rewrite Ht; lia|].
    intros Hlt Hnp. split; [|done]. rewrite HP. intros [|]; [lia|done].
  - intros pos Hpos Hnp. rewrite HP in Hnp. apply I9; [cbn in *; lia|tauto].
  - intros pos Hpos Hnp Hncl. rewrite HP in Hnp. cbn [head_ store_tail] in *.
    destruct (I10 pos ltac:(lia) ltac:(tauto) Hncl) as (k & u & Hl & Hs). exists k, u. rewrite HL by lia. done.
  - intros pos Hpos Hor. apply I11; [done|]. rewrite HP in Hor. cbn [head_ store_tail] in *. destruct Hor as [|[[->|]|]]; auto; lia.
Qed.

Lemma write_inv r ps cs lk log popped i v head tail :
  ring_inv (mkWorld r ps cs lk log popped) -> ps !! i = Some (PReserved v head tail) ->
  Z.of_nat (length log) < 2 ^ 64 -> u64 (tail - head + 1) < queue_size r ->
  ring_inv (mkWorld (at_pos (set_data v) tail r) (<[i := PWritten tail]> ps) cs lk log popped).
Proof.
  intros Hw Hi Hb Hroom. pose proof (ri_producers _ Hw _ _ Hi) as Hok. cbn in Hok. destruct Hok as (Hh & Ht & Hl).
  assert (forall j q, ps !! j = Some q -> reserved q = Some tail -> j = i) as Hu.
  { intros j q Hj Hq. by eapply (reserved_unique _ j i q _ tail Hw Hj Hi Hq). }
  pose proof (pending_same ps i (PReserved v head tail) (PWritten tail)) as HP. pose proof (claimed_not_pending _ Hw) as Hcl.
  destruct Hw as [I1 I2 I3 I4 I5 I6 I7 I8 I9 I10 I11]. cbn in *.
  rewrite u64_small in Hroom by lia.
  assert (pending ps tail) as Hpt by (apply pending_lookup; eauto).
  destruct (I11 tail ltac:(lia) ltac:(auto)) as [d Hd].
  assert (forall p, head_ r <= p < head_ r + queue_size r -> p <> tail -> entry_at (at_pos (set_data v) tail r) p = entry_at r p) as Hne.
  { intros p Hp Hpt'. apply entry_at_pos_ne; [lia|done]. }
  assert (entry_at (at_pos (set_data v) tail r) tail = Some (mkEntry 0 v)) as Heq by (rewrite entry_at_pos, Hd; done).
  split; cbn [w_ring w_producers w_consumers w_lock w_log w_popped]; rewrite ?queue_size_at_pos; try done.
  - by apply queue_at_pos_nil.
  - intros j q Hj. apply lookup_insert_cases in Hj as [[<- ->]|[Hji Hj]].
    + cbn [producer_ok]. rewrite queue_size_at_pos. change (head_ (at_pos _ _ r)) with (head_ r).
      change (tail_ (at_pos _ _ r)) with (tail_ r). split_and!; [lia..|]. eauto.
    + pose proof (I6 _ _ Hj) as Hq. eapply producer_ok_frame; [by eapply I6|done|done|apply queue_size_at_pos|done|].
      intros pos u -> He. cbn in Hq. rewrite Hne; [done|lia|]. intros ->. apply Hji. symmetry. by eapply Hu.
  - intros j c Hj. eapply consumer_ok_frame; [by eapply I8|done..|]. intros Hlt Hnp.
    rewrite HP by done. split; [done|]. apply Hne; [lia|]. by intros <-.
  - intros pos Hpos. rewrite HP by done. by apply I9.
  - intros pos Hpos. rewrite HP by done. intros Hnp Hncl. unfold stored. rewrite Hne; [by apply I10| |by intros ->].
    pose proof (I9 pos Hpos Hnp). cbn in *. lia.
  - intros pos Hpos. rewrite HP by done. intros Hor. destruct (Z.eq_dec pos tail) as [->|Hn']; [eauto|].
    rewrite Hne by done. by apply I11.
Qed.

Lemma ready_inv r ps cs lk log popped i tail :
  ring_inv (mkWorld r ps cs lk log popped) -> ps !! i = Some (PWritten tail) ->
  ring_inv (mkWorld (at_pos SetReady tail r) (<[i := PIdle]> ps) cs lk log popped).
Proof.
  intros Hw Hi. pose proof (ri_producers _ Hw _ _ Hi) as Hok. cbn in Hok. destruct Hok as (Ht & Hroom & v & Hl & Hv).
  assert (forall j q, ps !! j = Some q -> reserved q = Some tail -> j = i) as Hu.
  { intros j q Hj Hq. by eapply (reserved_unique _ j i q _ tail Hw Hj Hi Hq). }
  pose proof (claimed_not_pending _ Hw) as Hcl.
  destruct Hw as [I1 I2 I3 I4 I5 I6 I7 I8 I9 I10 I11]. cbn in *.
  assert (pending ps tail) as Hpt by (apply pending_lookup; eauto).
  assert (forall pos, pending (<[i := PIdle]> ps) pos <-> pos <> tail /\ pending ps pos) as HP.
  { intros pos. rewrite !pending_lookup. split.
    - intros (j & q & Hj & Hq). apply lookup_insert_cases in Hj as [[<- ->]|[Hne Hj]]; [done|].
      split; [|eauto]. intros ->. apply Hne. symmetry. by eapply Hu.
    - intros (Hne & j & q & Hj & Hq). exists j, q. rewrite list_lookup_insert_ne; [done|]. intros ->.
      rewrite Hi in Hj. injection Hj as <-. cbn in Hq. congruence. }
  assert (forall p, head_ r <= p < head_ r + queue_size r -> p <> tail -> entry_at (at_pos SetReady tail r) p = entry_at r p) as Hne.
  { intros p Hp Hpt'. apply entry_at_pos_ne; [lia|done]. }
  assert (stored (at_pos SetReady tail r) tail v) as Heq by (unfold stored; rewrite entry_at_pos, Hv; done).
  split; cbn [w_ring w_producers w_consumers w_lock w_log w_popped]; rewrite ?queue_size_at_pos; try done.
  - by apply queue_at_pos_nil.
  - intros j q Hj. apply lookup_insert_cases in Hj as [[<- ->]|[Hji Hj]]; [done|].
    pose proof (I6 _ _ Hj) as Hq. eapply producer_ok_frame; [by eapply I6|done|done|apply queue_size_at_pos|done|].
    intros pos u -> He. cbn in Hq. rewrite Hne; [done|lia|]. intros ->. apply Hji. symmetry. by eapply Hu.
  - intros j c Hj. eapply consumer_ok_frame; [by eapply I8|done..|]. intros Hlt Hnp.
    rewrite HP. split; [tauto|]. apply Hne; [lia|]. by intros <-.
  - intros pos Hpos Hnp. change (head_ (at_pos _ _ r)) with (head_ r). rewrite HP in Hnp.
    destruct (Z.eq_dec pos tail) as [->|]; [done|]. apply I9; tauto.
  - intros pos Hpos Hnp Hncl. rewrite HP in Hnp. destruct (Z.eq_dec pos tail) as [->|Hn']; [eauto|].
    assert (~ pending ps pos) as Hnp' by tauto. pose proof (I9 pos Hpos Hnp'). cbn in *.
    unfold stored. rewrite Hne by (done || lia). by apply I10.
  - intros pos Hpos. rewrite HP. change (head_ (at_pos _ _ r)) with (head_ r) in *. change (tail_ (at_pos _ _ r)) with (tail_ r).
    intros Hor. rewrite Hne; [apply I11; [done|tauto]|done|]. intros ->. destruct Hor as [|[[]|[-> Hc]]]; [lia|done|].
    by apply Hcl.
Qed.

(** The active consumer rewrites the head's entry: claims it, or clears its data. *)
Lemma head_entry_inv f r ps cs lk log popped j c c' v :
  ring_inv (mkWorld r ps cs lk log popped) -> cs !! j = Some c -> idle c = false -> claims c' = true ->
  taking r ps log (head_ r) v -> (exists d, entry_at (at_pos f (head_ r) r) (head_ r) = Some (mkEntry 0 d)) ->
  consumer_ok (at_pos f (head_ r) r) ps log c' ->
  ring_inv (mkWorld (at_pos f (head_ r) r) ps (<[j := c']> cs) lk log popped).
Proof.
  intros Hw Hj Hid Hc' (_ & Hlt & Hnp & k & Hlog) Hfree Hok.
  assert (idle c' = false) as Hid' by (by destruct c').
  destruct Hw as [I1 I2 I3 I4 I5 I6 I7 I8 I9 I10 I11]. cbn in *. pose proof (I9 (head_ r) ltac:(lia) Hnp) as Hn2.
  assert (claimed (<[j := c']> cs)) as Hcl.
  { apply claimed_lookup. exists j, c'. rewrite list_lookup_insert_eq by (by eapply lookup_lt_Some). done. }
  assert (forall p, head_ r <= p < head_ r + queue_size r -> p <> head_ r -> entry_at (at_pos f (head_ r) r) p = entry_at r p) as Hne.
  { intros p Hp Hpt'. apply entry_at_pos_ne; [lia|done]. }
  split; cbn [w_ring w_producers w_consumers w_lock w_log w_popped]; rewrite ?queue_size_at_pos; try done.
  - by apply queue_at_pos_nil.
  - intros i q Hi. pose proof (I6 _ _ Hi) as Hq. eapply producer_ok_frame; [by eapply I6|done|done|apply queue_size_at_pos|done|].
    intros pos u -> He. cbn in Hq. rewrite Hne; [done|lia|]. intros ->. apply Hnp. apply pending_lookup. eauto.
  - by eapply one_consumer_step.
  - intros i q Hi. apply lookup_insert_cases in Hi as [[<- ->]|[Hji Hi]]; [done|].
    by rewrite (others_idle cs lk j c i q) by done.
  - intros pos Hpos Hnp' Hncl. assert (pos <> head_ r) as Hpne by (intros ->; by apply Hncl).
    pose proof (I9 pos Hpos Hnp'). change (tail_ (at_pos _ _ r)) with (tail_ r) in *. change (head_ (at_pos _ _ r)) with (head_ r) in *.
    unfold stored. rewrite Hne by (done || lia). apply I10; [done..|]. tauto.
  - intros pos Hpos Hor. change (tail_ (at_pos _ _ r)) with (tail_ r) in *. change (head_ (at_pos _ _ r)) with (head_ r) in *.
    destruct (Z.eq_dec pos (head_ r)) as [->|Hpne]; [done|]. rewrite Hne by done. apply I11; [done|].
    destruct Hor as [|[|[? _]]]; auto; done.
Qed.

Lemma advance_inv r ps cs lk log popped j head v :
  ring_inv (mkWorld r ps cs lk log popped) -> cs !! j = Some (CCleared head v) -> Z.of_nat (length log) < 2 ^ 64 ->
  ring_inv (mkWorld (store_head r (head + 1)) ps (<[j := CIdle]> cs) (release lk) log (popped ++ [v])).
Proof.
  intros Hw Hj Hb. pose proof (ri_consumers _ Hw _ _ Hj) as (-> & Hlt & Hnp & k & Hlog). cbn in Hlt, Hnp, Hlog.
  destruct Hw as [I1 I2 I3 I4 I5 I6 I7 I8 I9 I10 I11]. cbn in *. cbn [w_ring] in *.
  assert (head_ (store_head r (head_ r + 1)) = head_ r + 1) as Hh by (cbn; rewrite u64_small; lia).
  assert (forall i q, (<[j := CIdle]> cs) !! i = Some q -> q = CIdle) as Hidle.
  { intros i q Hi. apply lookup_insert_cases in Hi as [[<- ->]|[Hji Hi]]; [done|]. by eapply (others_idle cs lk j _ i q). }
  assert (~ claimed (<[j := CIdle]> cs)) as Hncl'.
  { intros Hc. apply claimed_lookup in Hc as (i & q & Hi & Hq). by rewrite (Hidle _ _ Hi) in Hq. }
  assert (claimed cs) as Hcl by (apply claimed_lookup; eauto).
  assert (exists d, entry_at r (head_ r) = Some (mkEntry 0 d)) as [d Hd] by (apply I11; [pose proof (I9 (head_ r) ltac:(lia) Hnp); lia|auto]).
  split; cbn [w_ring w_producers w_consumers w_lock w_log w_popped]; rewrite ?Hh; try done.
  - rewrite length_app. cbn. lia.
  - cbn. lia.
  - rewrite length_app, Nat.add_1_r. cbn [length]. rewrite I5 at 1. symmetry. apply take_S_r.
    unfold log_at in Hlog. rewrite (proj2 (Z.ltb_ge _ _)), I2, Nat2Z.id in Hlog by lia.
    rewrite list_lookup_fmap, Hlog. done.
  - intros i q Hi. pose proof (I6 _ _ Hi) as Hq.
    assert (reserved q <> Some (head_ r)) as Hrq by (intros Hr; apply Hnp, pending_lookup; eauto).
    destruct q as [|u h|u h t|t]; cbn [producer_ok reserved] in *; rewrite ?Hh; change (tail_ (store_head r _)) with (tail_ r).
    + done.
    + lia.
    + destruct Hq as (? & ? & ?). assert (t <> head_ r) by congruence. split_and!; [lia..|done].
    + destruct Hq as (? & ? & u & ? & ?). assert (t <> head_ r) by congruence.
      split_and!; [lia|lia|change (queue_size (store_head r _)) with (queue_size r); lia|by exists u].
  - by eapply one_consumer_leave.
  - intros i q Hi. by rewrite (Hidle _ _ Hi).
  - intros pos Hpos Hnp'. change (tail_ (store_head r _)) with (tail_ r) in Hpos. pose proof (I9 pos ltac:(lia) Hnp').
    change (queue_size (store_head r _)) with (queue_size r). lia.
  - intros pos Hpos Hnp' _. apply I10; [change (tail_ (store_head r _)) with (tail_ r) in Hpos; lia|done|]. intros [-> _]. lia.
  - intros pos Hpos Hor. change (queue_size (store_head r _)) with (queue_size r) in Hpos.
    change (entry_at (store_head r _)) with (entry_at r).
    destruct (Z.eq_dec pos (head_ r + queue_size r)) as [->|Hne].
    + exists d. rewrite <- Hd. unfold entry_at, idx_of. f_equal. f_equal.
      rewrite <- (Z.mul_1_l (queue_size r)) at 1. apply Z_mod_plus_full.
    + apply I11; [lia|]. destruct Hor as [|[|[_ ?]]]; auto; done.
Qed.

Lemma ring_step_inv w w' :
  ring_inv w -> ring_step w w' -> Z.of_nat (length (w_log w')) < 2 ^ 64 -> ring_inv w'.
Proof.
  intros Hw Hs Hb. destruct Hs; cbn [w_log] in Hb.
  - (* push_load *) pose proof (ri_head _ Hw). eapply producer_local; [done..|]. cbn in *. lia.
  - rewrite length_app in Hb. cbn in Hb. eapply reserve_inv; [done..|lia].
  - (* push_wait *) pose proof (ri_producers _ Hw _ _ H) as Hok. pose proof (ri_head _ Hw).
    eapply producer_local; [done..|]. cbn in *. split_and!; try lia. apply Hok.
  - by eapply write_inv.
  - by eapply ready_inv.
  - (* pop_enter *) eapply consumer_local; [done..|]. pose proof (ri_one _ Hw) as H1. unfold one_consumer, acquire in *. cbn in H1.
    destruct lock_pop; [|by rewrite length_insert]. destruct H0 as [-> ->]. intros i q Hi Hq.
    apply lookup_insert_cases in Hi as [[<- ->]|[_ Hi]]; [done|]. by pose proof (H1 _ _ Hi Hq).
  - eapply consumer_local; [done..|]. eapply one_consumer_step; [apply (ri_one _ Hw)|done..].
  - pose proof (ri_consumers _ Hw _ _ H) as Hok. cbn in Hok. eapply consumer_local; [done|done|done| |].
    + split; [done|]. cbn. lia.
    + eapply one_consumer_step; [apply (ri_one _ Hw)|done..].
  - eapply consumer_local; [done..|]. eapply one_consumer_leave; [apply (ri_one _ Hw)|done..].
  - (* pop_is_ready *) pose proof (ri_consumers _ Hw _ _ H) as Hok. cbn in Hok. destruct Hok as [-> Ht].
    destruct (IsReady e) eqn:Er.
    2: { eapply consumer_local; [done..|]. eapply one_consumer_leave; [apply (ri_one _ Hw)|done..]. }
    eapply consumer_local; [done|done|done| |eapply one_consumer_step; [apply (ri_one _ Hw)|done..]].
    assert (queue_size r > 0) as Hq.
    { pose proof (ri_queue _ Hw) as Hne. cbn in Hne. unfold queue_size. destruct (queue_ r); [done|]. cbn. lia. }
    assert (~ pending ps (head_ r)) as Hnp.
    { intros Hp. destruct (ri_free _ Hw (head_ r) ltac:(cbn; lia) ltac:(auto)) as [d Hd]. cbn in Hd. rewrite H1 in Hd.
      injection Hd as ->. done. }
    destruct (ri_live _ Hw (head_ r)) as (k & v & Hl & Hst).
    + pose proof (ri_head _ Hw). cbn in *. lia.
    + done.
    + intros [_ Hcl]. by eapply (not_claimed cs lk j); [apply (ri_one _ Hw)|..].
    + exists v. split; [|done]. split_and!; [done|lia|done|eauto].
  - (* pop_claim *) pose proof (ri_consumers _ Hw _ _ H) as Hok. cbn in Hok. destruct Hok as (v & Ht & Hst). pose proof Ht as [-> _].
    unfold stored in Hst. rewrite H0 in Hst. injection Hst as ->. cbn [flags_]. change (1 =? 1) with true. cbv iota.
    assert (entry_at (at_pos (set_flags 0) (head_ r) r) (head_ r) = Some (mkEntry 0 v)) as He by (rewrite entry_at_pos, H0; done).
    eapply (head_entry_inv _ _ _ _ _ _ _ _ _ _ v); [done|done|done|done|done|by eexists|]. by exists v.
  - (* pop_read *) pose proof (ri_consumers _ Hw _ _ H) as Hok. cbn in Hok. destruct Hok as (v & Ht & He).
    rewrite H0 in He. injection He as ->. eapply consumer_local; [done|done|done|done|].
    eapply one_consumer_step; [apply (ri_one _ Hw)|done..].
  - (* pop_clear *) pose proof (ri_consumers _ Hw _ _ H) as Ht. cbn in Ht. pose proof Ht as [-> Ht'].
    eapply (head_entry_inv _ _ _ _ _ _ _ _ _ _ v); [done|done|done|done|done| |done].
    destruct (ri_free _ Hw (head_ r)) as [d Hd].
    + pose proof (ri_room _ Hw (head_ r)) as Hr. cbn in *. destruct Ht' as (? & ? & _). specialize (Hr ltac:(lia) ltac:(done)). lia.
    + right; right. split; [done|]. apply claimed_lookup. by eexists _, _.
    + exists T0. cbn in Hd. by rewrite entry_at_pos, Hd.
  - by apply advance_inv.
Qed.

Lemma ring_init_inv depth producers consumers :
  lock_pop = true \/ (consumers <= 1)%nat -> ring_inv (world_init depth producers consumers).
Proof.
  intros Hone.
  assert (forall p, ~ pending (replicate producers (@PIdle T)) p) as Hnp.
  { intros p Hp. apply pending_lookup in Hp as (i & q & Hi & Hq). by apply lookup_replicate in Hi as [-> _]. }
  assert (forall p, exists d, entry_at (ring_new T0 depth) p = Some (mkEntry 0 d)) as Hfree.
  { intros p. exists T0. unfold entry_at, ring_new. cbn [queue_]. apply lookup_replicate_2.
    pose proof (idx_of_lt (ring_new T0 depth) p) as Hl. cbn [queue_ ring_new] in Hl. rewrite length_replicate in Hl.
    apply Hl. by rewrite Nat.add_1_r. }
  split; cbn [w_ring w_producers w_consumers w_lock w_log w_popped world_init]; try done.
  - cbn. by rewrite Nat.add_1_r.
  - intros i p Hi. by apply lookup_replicate in Hi as [-> _].
  - unfold one_consumer. destruct lock_pop; [|rewrite length_replicate; by destruct Hone].
    intros j c Hj Hc. by apply lookup_replicate in Hj as [-> _].
  - intros j c Hj. by apply lookup_replicate in Hj as [-> _].
  - intros p Hp. cbn in Hp. lia.
  - intros p Hp. cbn in Hp. lia.
Qed.

Lemma ring_step_grows w w' : ring_step w w' ->
  (length (w_log w) <= length (w_log w'))%nat /\ queue_size (w_ring w') = queue_size (w_ring w) /\
  length (w_consumers w') = length (w_consumers w).
Proof.
  destruct 1; cbn [w_log w_ring w_consumers]; rewrite ?length_app, ?queue_size_at_pos, ?length_insert; split_and!; try done; try lia;
    repeat case_match; cbn [w_log w_ring w_consumers]; by rewrite ?queue_size_at_pos, ?length_insert.
Qed.

Lemma ring_reachable w w' :
  ring_inv w -> rtc ring_step w w' -> Z.of_nat (length (w_log w')) < 2 ^ 64 ->
  ring_inv w' /\ queue_size (w_ring w') = queue_size (w_ring w) /\ length (w_consumers w') = length (w_consumers w).
Proof.
  intros Hw Hr. induction Hr as [w|w w1 w2 Hs Hr IH]; intros Hb; [done|].
  assert (length (w_log w1) <= length (w_log w2))%nat as Hle.
  { clear -Hr. induction Hr as [|x y z Hs Hr IH]; [done|]. pose proof (proj1 (ring_step_grows _ _ Hs)). lia. }
  destruct (ring_step_grows _ _ Hs) as (_ & <- & <-). apply IH; [|done]. eapply ring_step_inv; [done..|lia].
Qed.

(** ** Delivery *)

(** The producer of the head's position finishes on its own. *)
Lemma producer_finishes r ps cs lk log popped :
  ring_inv (mkWorld r ps cs lk log popped) -> Z.of_nat (length log) < 2 ^ 64 -> 2 <= queue_size r ->
  pending ps (head_ r) ->
  exists r' ps', rtc ring_step (mkWorld r ps cs lk log popped) (mkWorld r' ps' cs lk log popped) /\
    ~ pending ps' (head_ r') /\ head_ r' = head_ r /\ tail_ r' = tail_ r.
Proof.
  intros Hw Hb Hn Hp.
  assert (forall r1 ps1 i, ring_inv (mkWorld r1 ps1 cs lk log popped) -> ps1 !! i = Some (PWritten (head_ r1)) ->
    exists r' ps', rtc ring_step (mkWorld r1 ps1 cs lk log popped) (mkWorld r' ps' cs lk log popped) /\
      ~ pending ps' (head_ r') /\ head_ r' = head_ r1 /\ tail_ r' = tail_ r1) as Hlast.
  { intros r1 ps1 i Hw1 Hi. eexists _, _. split; [apply rtc_once; by apply push_ready|]. split_and!; [|done..].
    intros Hp1. apply pending_lookup in Hp1 as (k & q & Hk & Hq). apply lookup_insert_cases in Hk as [[<- ->]|[Hne Hk]]; [done|].
    apply Hne. by eapply (reserved_unique _ i k (PWritten (head_ r1)) q (head_ r1) Hw1). }
  assert (forall ps1 i v, ring_inv (mkWorld r ps1 cs lk log popped) -> ps1 !! i = Some (PReserved v (head_ r) (head_ r)) ->
    exists r' ps', rtc ring_step (mkWorld r ps1 cs lk log popped) (mkWorld r' ps' cs lk log popped) /\
      ~ pending ps' (head_ r') /\ head_ r' = head_ r /\ tail_ r' = tail_ r) as Hwrite.
  { intros ps1 i v Hw1 Hi. assert (u64 (head_ r - head_ r + 1) < queue_size r) as Hroom by (rewrite u64_small; lia).
    destruct (Hlast _ _ i (write_inv _ _ _ _ _ _ _ _ _ _ Hw1 Hi Hb Hroom)) as (r' & ps' & Hr & ?).
    { apply list_lookup_insert_eq. by eapply lookup_lt_Some. }
    exists r', ps'. split; [|done]. eapply rtc_l; [by eapply push_write|done]. }
  apply pending_lookup in Hp as (i & q & Hi & Hq). pose proof (ri_producers _ Hw _ _ Hi) as Hok.
  destruct q as [|v h|v h t|t]; try done; cbn in Hq, Hok; injection Hq as ->; [|by eapply Hlast].
  destruct (Z.lt_ge_cases (u64 (head_ r - h + 1)) (queue_size r)) as [Hlt|Hge].
  - destruct (Hlast _ _ i (write_inv _ _ _ _ _ _ _ _ _ _ Hw Hi Hb Hlt)) as (r' & ps' & Hr & ?).
    { apply list_lookup_insert_eq. by eapply lookup_lt_Some. }
    exists r', ps'. split; [|done]. eapply rtc_l; [by eapply push_write|done].
  - pose proof (push_wait r ps cs lk log popped i v h (head_ r) Hi Hge) as Hs.
    assert (ring_inv (mkWorld r (<[i := PReserved v (head_ r) (head_ r)]> ps) cs lk log popped)) as Hw1 by (by eapply ring_step_inv).
    destruct (Hwrite _ i v Hw1) as (r' & ps' & Hr & ?).
    { apply list_lookup_insert_eq. by eapply lookup_lt_Some. }
    exists r', ps'. split; [|done]. by eapply rtc_l.
Qed.

(** A consumer alone takes a published head. *)
Lemma consumer_takes r ps cs log popped j i v :
  ring_inv (mkWorld r ps cs None log popped) -> cs !! j = Some CIdle -> ~ claimed cs ->
  head_ r < tail_ r -> ~ pending ps (head_ r) -> log_at log (head_ r) = Some (i, v) ->
  exists r' cs' lk', rtc ring_step (mkWorld r ps cs None log popped) (mkWorld r' ps cs' lk' log (popped ++ [v])).
Proof.
  intros Hw Hj Hncl Hlt Hnp Hlog. pose proof (ri_head _ Hw) as Hh. cbn in Hh.
  destruct (ri_live _ Hw (head_ r) ltac:(cbn; lia) Hnp ltac:(tauto)) as (i' & v' & Hl' & Hst). cbn in Hl', Hst.
  rewrite Hlog in Hl'. injection Hl' as <- <-. unfold stored in Hst.
  assert (forall c, (<[j := c]> cs) !! j = Some c) as HL by (intros c; apply list_lookup_insert_eq; by eapply lookup_lt_Some).
  assert (exists lk', acquire None j lk') as [lk' Hacq] by (unfold acquire; destruct lock_pop; eauto).
  assert (forall r1 c1 r2 c2, ring_step (mkWorld r1 ps (<[j := c1]> cs) lk' log popped) (mkWorld r2 ps (<[j := c2]> (<[j := c1]> cs)) lk' log popped) ->
    ring_step (mkWorld r1 ps (<[j := c1]> cs) lk' log popped) (mkWorld r2 ps (<[j := c2]> cs) lk' log popped)) as Hcol.
  { intros r1 c1 r2 c2. by rewrite list_insert_insert_eq. }
  set (r1 := at_pos (set_flags 0) (head_ r) r).
  assert (entry_at r1 (head_ r) = Some (mkEntry 0 v)) as He1 by (unfold r1; by rewrite entry_at_pos, Hst).
  eexists _, _, _.
  eapply rtc_l; [by apply (pop_enter r ps cs None lk' log popped j)|].
  eapply rtc_l; [apply (Hcol r CStart); by apply pop_head|].
  eapply rtc_l; [apply (Hcol r (CHead (head_ r))); by apply pop_tail|].
  eapply rtc_l.
  { apply (Hcol r (CTail (head_ r) (tail_ r)) r (CReady (head_ r))).
    exact (pop_is_ready r ps _ lk' log popped j _ _ _ (HL _) Hlt Hst). }
  eapply rtc_l.
  { apply (Hcol r (CReady (head_ r)) r1 (CClaimed (head_ r))). exact (pop_claim r ps _ lk' log popped j _ _ (HL _) Hst). }
  eapply rtc_l.
  { apply (Hcol r1 (CClaimed (head_ r)) r1 (CRead (head_ r) v)). exact (pop_read r1 ps _ lk' log popped j _ _ (HL _) He1). }
  eapply rtc_l.
  { apply (Hcol r1 (CRead (head_ r) v)). exact (pop_clear r1 ps _ lk' log popped j _ v (HL _)). }
  apply rtc_once. by apply pop_advance.
Qed.
End Machine.

(** * Properties *)

Section Properties.
Context {T : Type} (T0 : T).

(** C26. The lock-free queue is first-in first-out and loses nothing: with any
    number of producers, and one consumer or consumers that share the lock, in
    every reachable state the values taken are, in order, the first of the
    reserved ones; every other reserved value is stored in its slot, being written
    by its producer, or being taken by the consumer; and the stored ones are never
    more than the ring's depth. *)
Theorem ring_buffer_fifo (FLAGS : Z) (depth producers consumers : nat) (w : world T) :
  WaitForSpace FLAGS = true -> DynamicSize FLAGS = false -> LockPop FLAGS = true \/ (consumers <= 1)%nat ->
  rtc (ring_step T0 (LockPop FLAGS)) (world_init T0 depth producers consumers) w ->
  Z.of_nat (length (w_log w)) < 2 ^ 64 ->
  let head := Z.of_nat (length (w_popped w)) in
  w_popped w = take (length (w_popped w)) (map snd (w_log w)) /\
  forall pos i v, head <= pos -> log_at (w_log w) pos = Some (i, v) ->
    (stored (w_ring w) pos v /\ pos < head + Z.of_nat depth) \/
    (exists p, w_producers w !! i = Some p /\ reserved p = Some pos) \/
    (pos = head /\ claimed (w_consumers w)).
Proof.
  intros _ _ Hone Hr Hb. cbv zeta.
  destruct (ring_reachable T0 _ _ w (ring_init_inv T0 (LockPop FLAGS) depth producers consumers Hone) Hr Hb) as (Hw & Hn & _).
  split; [apply (ri_popped _ _ Hw)|]. intros pos i v Hpos Hl. rewrite <- (ri_head _ _ Hw) in *.
  assert (pos < tail_ (w_ring w)) as Hlt.
  { rewrite (ri_tail _ _ Hw). unfold log_at in Hl. destruct (pos <? 0); [done|]. apply lookup_lt_Some in Hl. lia. }
  destruct (decide (pending (w_producers w) pos)) as [Hp|Hnp].
  - right; left. apply pending_lookup in Hp as (j & q & Hj & Hq). pose proof (ri_producers _ _ Hw _ _ Hj) as Hok.
    assert (j = i) as -> by (destruct q; try done; cbn in Hq, Hok; simplify_eq; naive_solver). eauto.
  - destruct (decide (pos = head_ (w_ring w) /\ claimed (w_consumers w))) as [|Hnc]; [by right; right|]. left.
    destruct (ri_live _ _ Hw pos ltac:(lia) Hnp Hnc) as (i' & v' & Hl' & Hs). rewrite Hl in Hl'. injection Hl' as <- <-.
    split; [done|]. pose proof (ri_room _ _ Hw pos ltac:(lia) Hnp) as Hrm. rewrite Hn in Hrm.
    unfold world_init, ring_new, queue_size in Hrm. cbn [w_ring queue_] in Hrm. rewrite length_replicate in Hrm. lia.
Qed.

(** The queue never deadlocks: from every reachable state in which no consumer
    is inside [Pop], the oldest value not yet taken can be delivered by running
    only its producer, which needs no other thread to make room, and then one
    consumer. *)
Theorem ring_buffer_delivers (FLAGS : Z) (depth producers consumers : nat) (w : world T) (i : nat) (v : T) :
  WaitForSpace FLAGS = true -> DynamicSize FLAGS = false -> LockPop FLAGS = true \/ (consumers <= 1)%nat ->
  (0 < consumers)%nat -> (0 < depth)%nat ->
  rtc (ring_step T0 (LockPop FLAGS)) (world_init T0 depth producers consumers) w ->
  Z.of_nat (length (w_log w)) < 2 ^ 64 ->
  Forall (fun c => c = CIdle) (w_consumers w) -> w_lock w = None ->
  log_at (w_log w) (Z.of_nat (length (w_popped w))) = Some (i, v) ->
  exists w', rtc (ring_step T0 (LockPop FLAGS)) w w' /\ w_popped w' = w_popped w ++ [v] /\ w_log w' = w_log w.
Proof.
  intros _ _ Hone Hcons Hd Hr Hb Hidle Hlk Hl.
  destruct (ring_reachable T0 _ _ w (ring_init_inv T0 (LockPop FLAGS) depth producers consumers Hone) Hr Hb) as (Hw & Hn & Hlc).
  destruct w as [r ps cs lk log popped]. cbn in *. subst lk. rewrite length_replicate in Hlc.
  assert (queue_size r = Z.of_nat depth + 1) as Hsz.
  { rewrite Hn. unfold queue_size. cbn. rewrite length_replicate. lia. }
  destruct (lookup_lt_is_Some_2 cs 0 ltac:(lia)) as [c Hc].
  assert (c = CIdle) as -> by (by eapply (Forall_lookup_1 (fun c => c = CIdle))).
  pose proof (ri_head _ _ Hw) as Hh. pose proof (ri_tail _ _ Hw) as Ht. cbn in Hh, Ht. rewrite <- Hh in Hl.
  assert (head_ r < tail_ r) as Hlt.
  { unfold log_at in Hl. destruct (head_ r <? 0); [done|]. apply lookup_lt_Some in Hl. lia. }
  assert (~ claimed cs) as Hncl.
  { intros Hcl. apply claimed_lookup in Hcl as (j & q & Hj & Hq).
    by rewrite (Forall_lookup_1 (fun c => c = CIdle) _ _ _ Hidle Hj) in Hq. }
  assert (exists r' ps', rtc (ring_step T0 (LockPop FLAGS)) (mkWorld r ps cs None log popped) (mkWorld r' ps' cs None log popped) /\
    ~ pending ps' (head_ r') /\ head_ r' = head_ r /\ tail_ r' = tail_ r) as (r' & ps' & Hr1 & Hnp & Hh' & Ht').
  { destruct (decide (pending ps (head_ r))) as [Hp|Hnp]; [|by exists r, ps].
    apply (producer_finishes T0 _ r ps cs None log popped Hw Hb ltac:(lia) Hp). }
  destruct (ring_reachable T0 _ _ _ Hw Hr1 Hb) as (Hw1 & _ & _).
  destruct (consumer_takes T0 _ r' ps' cs log popped 0 i v Hw1 Hc Hncl ltac:(lia) Hnp ltac:(by rewrite Hh')) as (r2 & cs2 & lk2 & Hr2).
  eexists. split; [etransitivity; [exact Hr1|exact Hr2]|done].
Qed.

End Properties.

(** * Schedules

    The machine as a function of the thread that moves next. *)

Inductive ring_move (T : Type) :=
| MPush (i : nat) (v : T)     (** producer [i] calls [Emplace] *)
| MProducer (i : nat)
| MPop (j : nat)              (** consumer [j] calls [Pop] *)
| MConsumer (j : nat).
Arguments MPush {T}. Arguments MProducer {T}. Arguments MPop {T}. Arguments MConsumer {T}.

Section Schedule.
Context {T : Type} (T0 : T) (lock_pop : bool).

Definition move_producer (w : world T) (i : nat) : option (world T) :=
  let '(mkWorld r ps cs lk log popped) := w in
  p ← ps !! i;
  match p with
  | PIdle => None
  | PLoaded v head =>
      Some (mkWorld (store_tail r (tail_ r + 1)) (<[i := PReserved v head (tail_ r)]> ps) cs lk (log ++ [(i, v)]) popped)
  | PReserved v head tail =>
      if queue_size r <=? u64 (tail - head + 1)
      then Some (mkWorld r (<[i := PReserved v (head_ r) tail]> ps) cs lk log popped)
      else Some (mkWorld (at_pos (set_data v) tail r) (<[i := PWritten tail]> ps) cs lk log popped)
  | PWritten tail => Some (mkWorld (at_pos SetReady tail r) (<[i := PIdle]> ps) cs lk log popped)
  end.

Definition move_consumer (w : world T) (j : nat) : option (world T) :=
  let '(mkWorld r ps cs lk log popped) := w in
  let goes r c := Some (mkWorld r ps (<[j := c]> cs) lk log popped) in
  let leaves := Some (mkWorld r ps (<[j := CIdle]> cs) (release lock_pop lk) log popped) in
  c ← cs !! j;
  match c with
  | CIdle => None
  | CStart => goes r (CHead (head_ r))
  | CHead head => goes r (CTail head (tail_ r))
  | CTail head tail =>
      if tail <=? head then leaves
      else e ← entry_at r head; if IsReady e then goes r (CReady head) else leaves
  | CReady head => e ← entry_at r head; if flags_ e =? 1 then goes (at_pos (set_flags 0) head r) (CClaimed head) else leaves
  | CClaimed head => e ← entry_at r head; goes r (CRead head (data_ e))
  | CRead head v => goes (at_pos (set_data T0) head r) (CCleared head v)
  | CCleared head v =>
      Some (mkWorld (store_head r (head + 1)) ps (<[j := CIdle]> cs) (release lock_pop lk) log (popped ++ [v]))
  end.

Definition ring_do_move (w : world T) (m : ring_move T) : option (world T) :=
  match m with
  | MPush i v =>
      p ← w_producers w !! i;
      if p is PIdle
      then Some (mkWorld (w_ring w) (<[i := PLoaded v (head_ (w_ring w))]> (w_producers w)) (w_consumers w) (w_lock w)
                   (w_log w) (w_popped w))
      else None
  | MProducer i => move_producer w i
  | MPop j =>
      c ← w_consumers w !! j;
      lk' ← (if lock_pop then if w_lock w is None then Some (Some j) else None else Some (w_lock w));
      if c is CIdle
      then Some (mkWorld (w_ring w) (w_producers w) (<[j := CStart]> (w_consumers w)) lk' (w_log w) (w_popped w))
      else None
  | MConsumer j => move_consumer w j
  end.

Fixpoint ring_schedule (w : world T) (ms : list (ring_move T)) : option (world T) :=
  match ms with
  | [] => Some w
  | m :: ms => w ← ring_do_move w m; ring_schedule w ms
  end.

Lemma ring_do_move_step w m w' : ring_do_move w m = Some w' -> ring_step T0 lock_pop w w'.
Proof.
  destruct w as [r ps cs lk log popped], m as [i v|i|j|j]; cbn.
  - destruct (ps !! i) as [[]|] eqn:E; intros [= <-]. by constructor.
  - destruct (ps !! i) as [[| | v head tail|]|] eqn:E; cbn; try done.
    + intros [= <-]. by apply push_reserve.
    + destruct (Z.leb_spec (queue_size r) (u64 (tail - head + 1))); intros [= <-]; [by eapply push_wait|by eapply push_write].
    + intros [= <-]. by apply push_ready.
  - destruct (cs !! j) as [c|] eqn:E; cbn; [|done].
    destruct lock_pop eqn:El; [destruct lk; [done|]|]; cbn; destruct c; intros [= <-]; by apply pop_enter.
  - destruct (cs !! j) as [[| |h|h t|h|h|h v|h v]|] eqn:E; cbn; try done.
    + intros [= <-]. by apply pop_head.
    + intros [= <-]. by apply pop_tail.
    + destruct (Z.leb_spec t h); [intros [= <-]; by eapply pop_empty|].
      destruct (entry_at r h) as [e|] eqn:Ee; cbn; [|done]. intros Hw.
      pose proof (pop_is_ready T0 lock_pop r ps cs lk log popped j h t e E ltac:(lia) Ee). by destruct (IsReady e); injection Hw as <-.
    + destruct (entry_at r h) as [e|] eqn:Ee; cbn; [|done]. intros Hw.
      pose proof (pop_claim T0 lock_pop r ps cs lk log popped j h e E Ee). by destruct (flags_ e =? 1); injection Hw as <-.
    + destruct (entry_at r h) as [e|] eqn:Ee; cbn; [|done]. intros [= <-]. by eapply pop_read.
    + intros [= <-]. by apply pop_clear.
    + intros [= <-]. by eapply pop_advance.
Qed.

Lemma ring_schedule_reachable ms : forall w w',
  ring_schedule w ms = Some w' -> rtc (ring_step T0 lock_pop) w w'.
Proof.
  induction ms as [|m ms IH]; intros w w'; cbn; [by intros [= ->]|].
  destruct (ring_do_move w m) as [w1|] eqn:E; cbn; [|done]. intros H. eapply rtc_l; [by eapply ring_do_move_step|by apply IH].
Qed.
End Schedule.

(** * Instances and gaps *)

(** Two producers reserve in the other order than they started; the consumer has
    taken the first value and the second waits for room. *)
Definition ring_example : world nat :=
  mkWorld (mkRing [mkEntry 0 0%nat; mkEntry 0 0%nat] 1 2) [PReserved 7%nat 0 1; PIdle] [CIdle] None
    [(1, 8); (0, 7)]%nat [8%nat].

(** The moves of a [Push] and of a [Pop] that succeeds. *)
Definition push_moves (i v : nat) : list (ring_move nat) := MPush i v :: replicate 3 (MProducer i).
Definition pop_moves (j : nat) : list (ring_move nat) := MPop j :: replicate 7 (MConsumer j).

Lemma ring_example_reachable :
  rtc (ring_step 0%nat (LockPop mpsc_ring_buffer)) (world_init 0%nat 1 2 1) ring_example.
Proof.
  apply (ring_schedule_reachable _ _
    ([MPush 0 7; MPush 1 8; MProducer 1; MProducer 0; MProducer 1; MProducer 1] ++ pop_moves 0)%nat).
  vm_compute. reflexivity.
Qed.

Lemma ring_buffer_fifo_witness :
  w_popped ring_example = [8%nat] /\
  ((stored (w_ring ring_example) 1 7%nat /\ 1 < 2) \/
   (exists p, w_producers ring_example !! 0%nat = Some p /\ reserved p = Some 1) \/
   (1 = 1 /\ claimed (w_consumers ring_example))).
Proof.
  destruct (ring_buffer_fifo 0%nat mpsc_ring_buffer 1 2 1 ring_example) as [Hp H].
  - reflexivity.
  - reflexivity.
  - right. lia.
  - exact ring_example_reachable.
  - cbn. lia.
  - split; [exact Hp|]. apply (H 1 0%nat 7%nat); [cbn; lia|reflexivity].
Defined.

Lemma ring_buffer_delivers_witness :
  exists w', rtc (ring_step 0%nat (LockPop mpsc_ring_buffer)) ring_example w' /\
    w_popped w' = [8; 7]%nat /\ w_log w' = w_log ring_example.
Proof.
  apply (ring_buffer_delivers 0%nat mpsc_ring_buffer 1 2 1 ring_example 0%nat 7%nat).
  - reflexivity.
  - reflexivity.
  - right. lia.
  - lia.
  - lia.
  - exact ring_example_reachable.
  - cbn. lia.
  - by repeat constructor.
  - reflexivity.
  - reflexivity.
Defined.

(** Without the lock two consumers are not safe, although the exchange on the flag
    gives no value twice: a consumer that loaded [head_] a lap ago claims the
    newer value in the slot and moves the head back. The ring is then stuck:
    [Pop] fails, and a producer waits, for ever. *)
Theorem unlocked_consumers_wedge :
  exists w, rtc (ring_step 0%nat (LockPop mpsc_ring_buffer)) (world_init 0%nat 2 1 2) w /\
    map snd (w_log w) = [10; 11; 12; 13]%nat /\ w_popped w = [10; 11; 13]%nat /\
    Forall (fun c => c = CIdle) (w_consumers w) /\ Forall (fun p => p = PIdle) (w_producers w) /\
    Pop 0%nat (w_ring w) = (None, w_ring w) /\ Size (w_ring w) = 3 /\ Push 0%nat mpsc_ring_buffer (w_ring w) 14%nat = None.
Proof.
  eexists. split.
  - apply (ring_schedule_reachable _ _
      (push_moves 0 10 ++ [MPop 0; MConsumer 0; MConsumer 0] ++ pop_moves 1 ++ push_moves 0 11 ++ pop_moves 1 ++
       push_moves 0 12 ++ push_moves 0 13 ++ replicate 5 (MConsumer 0))%nat).
    vm_compute. reflexivity.
  - vm_compute. split_and!; try reflexivity; by repeat constructor.
Qed.
