(* ===== verification/Telemetry.v ===== *)
(** The telemetry log of the context transfer engine
    ([context-transfer-engine/core/src/core_runtime.cc]: [LogTelemetry],
    [GetTelemetryEntries], [PollTelemetryLog]), a circular ring buffer. *)
From Stdlib Require Import ZArith Lia.
From stdpp Require Import base list.
From S2P Require Import Prelude RingBuffer.

Open Scope Z_scope.

(** * The telemetry log *)

Record CteTelemetry := mkTelemetry {
  op_ : Z;
  off_ : Z;
  size_ : Z;
  tag_id_ : Z * Z;
  mod_time_ : Z;
  read_time_ : Z;
  logical_time_ : Z }.

(** [CteTelemetry()]; [TagId::GetNull()] is an argument of the model. *)
Section Telemetry.
Context (null_tag : Z * Z).
Definition CteTelemetry_new : CteTelemetry := mkTelemetry 0 0 0 null_tag 0 0 0.

Record telemetry := mkTelemetryLog { telemetry_log_ : ring_buffer CteTelemetry; telemetry_counter_ : Z }.

Definition kTelemetryRingSize : nat := 1024.
Definition telemetry_init (size : nat) : telemetry := mkTelemetryLog (ring_new CteTelemetry_new size) 0.

(** A push on a circular ring: it neither waits nor fails. *)
Definition telemetry_push (r : ring_buffer CteTelemetry) (e : CteTelemetry) : ring_buffer CteTelemetry :=
  match Push CteTelemetry_new circular_mpsc_ring_buffer r e with Some (_, r) => r | None => r end.

Definition LogTelemetry (t : telemetry) (op off size : Z) (tag_id : Z * Z) (mod_time read_time : Z) : telemetry :=
  let logical_time := u64 (telemetry_counter_ t + 1) in
  mkTelemetryLog
    (telemetry_push (telemetry_log_ t) (mkTelemetry op off size tag_id mod_time read_time logical_time))
    logical_time.

Definition GetTelemetryQueueSize (t : telemetry) : Z := Size (telemetry_log_ t).

(** The loop that pops at most [n] entries. *)
Fixpoint pop_entries (n : nat) (r : ring_buffer CteTelemetry) : list CteTelemetry * ring_buffer CteTelemetry :=
  match n with
  | O => ([], r)
  | S n =>
      match Pop CteTelemetry_new r with
      | (None, r) => ([], r)
      | (Some e, r) => let '(es, r) := pop_entries n r in (e :: es, r)
      end
  end.

Definition GetTelemetryEntries (t : telemetry) (max_entries : Z) : list CteTelemetry * telemetry :=
  let entries_to_read := Z.min max_entries (GetTelemetryQueueSize t) in
  let '(temp_entries, r) := pop_entries (Z.to_nat entries_to_read) (telemetry_log_ t) in
  (temp_entries, mkTelemetryLog (fold_left telemetry_push (rev temp_entries) r) (telemetry_counter_ t)).

(** [entries_], [last_logical_time_]. *)
Definition PollTelemetryLog (t : telemetry) (minimum_logical_time : Z) : list CteTelemetry * Z * telemetry :=
  let '(all_entries, t) := GetTelemetryEntries t 1000 in
  let entries := List.filter (fun e => minimum_logical_time <=? logical_time_ e) all_entries in
  (entries, fold_left Z.max (map logical_time_ entries) minimum_logical_time, t).

Lemma pop_entries_ok l : forall r rest,
  ring_ok r (l ++ rest) -> exists r', pop_entries (length l) r = (l, r') /\ ring_ok r' rest /\
    queue_size r' = queue_size r /\ tail_ r' = tail_ r.
Proof.
  induction l as [|e l IH]; intros r rest Hr; cbn [length pop_entries app] in *; [by exists r|].
  destruct (Pop_ok CteTelemetry_new r e (l ++ rest) Hr) as (r1 & -> & Hr1 & Hn1 & Hh1).
  destruct (IH r1 rest Hr1) as (r2 & -> & Hr2 & Hn2 & Ht2). exists r2. split_and!; [done|done|lia|].
  pose proof (ro_tail _ _ Hr). pose proof (ro_tail _ _ Hr1). cbn [length] in *. lia.
Qed.

Lemma telemetry_push_ok r l e :
  ring_ok r l -> Z.of_nat (length l) + 1 < queue_size r -> tail_ r + 1 < 2 ^ 63 ->
  ring_ok (telemetry_push r e) (l ++ [e]) /\ queue_size (telemetry_push r e) = queue_size r /\
  tail_ (telemetry_push r e) = tail_ r + 1.
Proof.
  intros Hr Hroom Hb. pose proof (ro_head _ _ Hr). pose proof (ro_tail _ _ Hr).
  change (telemetry_push r e) with (store_tail (publish r (tail_ r) e) (tail_ r + 1)).
  split_and!; [by apply publish_ok| |cbn; rewrite u64_small; lia].
  change (queue_size (publish r (tail_ r) e) = queue_size r). unfold publish. by rewrite !queue_size_at_pos.
Qed.

Lemma telemetry_pushes_ok es : forall r l,
  ring_ok r l -> Z.of_nat (length l + length es) < queue_size r -> tail_ r + Z.of_nat (length es) < 2 ^ 63 ->
  ring_ok (fold_left telemetry_push es r) (l ++ es).
Proof.
  induction es as [|e es IH]; intros r l Hr Hroom Hb; cbn [fold_left length] in *; [by rewrite app_nil_r|].
  destruct (telemetry_push_ok r l e Hr ltac:(lia) ltac:(lia)) as (Hr1 & Hn1 & Ht1).
  rewrite (cons_middle e l es), app_assoc. apply IH; [done| |lia]. rewrite length_app, Hn1. cbn. lia.
Qed.

(** Reading the telemetry returns the oldest entries in order, and puts them back
    behind the others in reverse: the order of the log is lost. *)
Theorem GetTelemetryEntries_reverses (t : telemetry) (l : list CteTelemetry) (max_entries : Z) :
  ring_ok (telemetry_log_ t) l -> 0 <= max_entries ->
  tail_ (telemetry_log_ t) + Z.of_nat (length l) < 2 ^ 63 ->
  let m := Nat.min (Z.to_nat max_entries) (length l) in
  let '(entries, t') := GetTelemetryEntries t max_entries in
  entries = take m l /\ ring_ok (telemetry_log_ t') (drop m l ++ rev (take m l)).
Proof.
  intros Hr Hmax Hb. cbv zeta. set (m := Nat.min (Z.to_nat max_entries) (length l)).
  assert (Z.to_nat (Z.min max_entries (GetTelemetryQueueSize t)) = length (take m l)) as Hm.
  { pose proof (ro_tail _ _ Hr). unfold GetTelemetryQueueSize, Size. rewrite (proj2 (Z.leb_le _ _)) by lia.
    rewrite length_take. unfold m. lia. }
  unfold GetTelemetryEntries. rewrite Hm. rewrite <- (take_drop m l) in Hr.
  destruct (pop_entries_ok (take m l) _ _ Hr) as (r' & -> & Hr' & Hn & Ht). cbn [telemetry_log_]. split; [done|].
  assert (length (rev (take m l)) = m /\ length (drop m l) = (length l - m)%nat) as [Hl1 Hl2].
  { rewrite length_rev, length_take, length_drop. unfold m. lia. }
  pose proof (ro_size _ _ Hr) as Hs. rewrite take_drop in Hs.
  apply telemetry_pushes_ok; [done|rewrite Hl1, Hl2, Hn; unfold m in *; lia|].
  rewrite Hl1. unfold m in *. lia.
Qed.
End Telemetry.

Definition log_n (n : nat) : telemetry :=
  for_ n (fun _ t => LogTelemetry (0, 0) t 0 0 0 (0, 0) 0 0) (telemetry_init (0, 0) kTelemetryRingSize).

(** Once two entries more than its size were logged, the circular ring is neither
    a window on the latest entries nor a queue: a first poll returns the newest
    entry before the second oldest, and a second one stops after 25 entries
    although the ring reports 1026. *)
Theorem telemetry_overflow_disorders :
  let t0 := log_n 1026 in
  let '(es1, _, t1) := PollTelemetryLog (0, 0) t0 0 in
  let '(es2, _, t2) := PollTelemetryLog (0, 0) t1 0 in
  take 3 (map logical_time_ es1) = [1026; 2; 3] /\ GetTelemetryQueueSize t1 = 1026 /\
  take 3 (map logical_time_ es2) = [1026; 1002; 1003] /\ length es2 = 25%nat.
Proof. vm_compute. split_and!; reflexivity. Qed.
