(* ===== verification/Extents.v ===== *)
(** Extents of a memory, and how often a list of them covers an address: the
    bookkeeping of ownership that the allocators and their clients share. *)
From Stdlib Require Import ZArith Lia.
From stdpp Require Import base list.
From S2P Require Import Prelude.

Open Scope Z_scope.

(** * Extents of memory *)

(** Start and length. *)
Abbreviation extent := (Z * Z)%type (only parsing).
Definition covers (x : Z) (e : extent) : bool := (fst e <=? x) && (x <? fst e + snd e).

(** How often a byte is covered. *)
Definition owned (x : Z) (l : list extent) : Z := zsum (fun e => Z.b2z (covers x e)) l.

Lemma covers_spec x e : covers x e = true <-> fst e <= x < fst e + snd e.
Proof. unfold covers. rewrite andb_true_iff, Z.leb_le, Z.ltb_lt. done. Qed.

Lemma owned_app x l l' : owned x (l ++ l') = owned x l + owned x l'.
Proof. apply zsum_app. Qed.

Lemma owned_cons x e l : owned x (e :: l) = Z.b2z (covers x e) + owned x l.
Proof. done. Qed.

Lemma owned_nonneg x l : 0 <= owned x l.
Proof. apply zsum_nonneg, Forall_forall. intros e _. by destruct (covers x e). Qed.

Lemma owned_in x e l : e ∈ l -> fst e <= x < fst e + snd e -> 1 <= owned x l.
Proof.
  intros He Hx. apply list_elem_of_split in He as (l1 & l2 & ->). rewrite owned_app, owned_cons.
  rewrite (proj2 (covers_spec x e) Hx). pose proof (owned_nonneg x l1). pose proof (owned_nonneg x l2). cbn. lia.
Qed.

Lemma owned_pos x l : 0 < owned x l -> exists e, e ∈ l /\ fst e <= x < fst e + snd e.
Proof.
  induction l as [|e l IH]; [by cbn|]. rewrite owned_cons. destruct (covers x e) eqn:E; cbn.
  - intros _. exists e. split; [by left|]. by apply covers_spec.
  - intros Hp. destruct IH as (e' & He & Hx); [lia|]. exists e'. split; [by right|done].
Qed.

(** The parts of an extent cover no more than it does. *)
Lemma covers_split x a n k l : 0 <= k -> 0 <= l -> k + l <= n ->
  Z.b2z (covers x (a, k)) + Z.b2z (covers x (a + k, l)) <= Z.b2z (covers x (a, n)).
Proof.
  intros Hk Hl Hn. unfold covers. cbn.
  destruct (Z.leb_spec a x), (Z.ltb_spec x (a + k)), (Z.leb_spec (a + k) x), (Z.ltb_spec x (a + k + l)), (Z.ltb_spec x (a + n)); cbn; lia.
Qed.

Lemma covers_prefix x a n k : k <= n -> Z.b2z (covers x (a, k)) <= Z.b2z (covers x (a, n)).
Proof.
  intros Hn. unfold covers. cbn. destruct (Z.leb_spec a x), (Z.ltb_spec x (a + k)), (Z.ltb_spec x (a + n)); cbn; lia.
Qed.

Lemma owned_perm {A} x (f : A -> extent) l l' rest :
  l ≡ₚ l' ++ rest -> owned x (f <$> l) = owned x (f <$> l') + owned x (f <$> rest).
Proof. intros Hp. rewrite <- owned_app, <- fmap_app. apply zsum_Permutation. by rewrite Hp. Qed.

Lemma owned_Permutation x l l' : l ≡ₚ l' -> owned x l = owned x l'.
Proof. apply zsum_Permutation. Qed.
