(* ===== verification/BuddyAllocator.v ===== *)
(** The buddy allocator of the transport primitives
    ([clio_ctp/memory/allocator/buddy_allocator.h], with [heap.h] and the
    intrusive lists of [slist_pre.h]), in its shared mode, which links pages by
    offset.

    Memory is addressed in bytes relative to the backend and read and written in
    64-bit words, the only accesses the allocator makes; its initial contents are
    arbitrary. The mutex makes each operation one step. [Compact], which only
    tests call, is not modelled. *)
From Stdlib Require Import ZArith Lia.
From stdpp Require Import base list relations.
From S2P Require Import Prelude.

Open Scope Z_scope.

(** * Memory *)

Definition memory : Type := Z -> Z.
Definition wr (m : memory) (a v : Z) : memory := fun x => if x =? a then v else m x.

Definition kNull : Z := 2 ^ 64 - 1.        (** [OffsetPtr<>::GetNull()] *)
Definition sizeof_PageT : Z := 16.         (** [next_], then [size_] *)

(** * Page headers *)

Definition kFreeMask : Z := 2 ^ 63.
Definition next_ (m : memory) (p : Z) : Z := m p.
Definition size_ (m : memory) (p : Z) : Z := m (p + 8).
Definition set_next (m : memory) (p v : Z) : memory := wr m p v.
Definition set_size (m : memory) (p v : Z) : memory := wr m (p + 8) v.

Definition MarkFree (m : memory) (p : Z) : memory := set_size m p (Z.lor (size_ m p) kFreeMask).
Definition MarkAllocated (m : memory) (p : Z) : memory := set_size m p (Z.ldiff (size_ m p) kFreeMask).
Definition IsFree (m : memory) (p : Z) : bool := negb (Z.land (size_ m p) kFreeMask =? 0).
Definition GetSize (m : memory) (p : Z) : Z := Z.ldiff (size_ m p) kFreeMask.

(** * Lists of pages *)

Record slist := mkSlist { count_ : Z; first_ : Z }.

Definition slist_Init : slist := mkSlist 0 kNull.
Definition slist_empty (l : slist) : bool := count_ l =? 0.

Definition slist_emplace (m : memory) (l : slist) (p : Z) : memory * slist :=
  (set_next m p (first_ l), mkSlist (u64 (count_ l + 1)) p).

Definition slist_pop (m : memory) (l : slist) : option Z * slist :=
  if count_ l =? 0 then (None, l)
  else if first_ l =? kNull then (None, mkSlist 0 (first_ l))
  else (Some (first_ l), mkSlist (u64 (count_ l - 1)) (next_ m (first_ l))).

(** [PopAt] an iterator; it is at the head when its previous node is null. *)
Definition slist_PopAt (m : memory) (l : slist) (prev current : Z) : memory * slist :=
  if (current =? kNull) || (count_ l =? 0) then (m, l)
  else if prev =? kNull then (m, mkSlist (u64 (count_ l - 1)) (next_ m current))
  else (set_next m prev (next_ m current), mkSlist (u64 (count_ l - 1)) (first_ l)).

(** * The bump heap *)

Record BumpHeap := mkBumpHeap { heap_ : Z; max_offset_ : Z }.

Definition BumpHeap_Allocate (h : BumpHeap) (size : Z) : Z * BumpHeap :=
  if max_offset_ h <? u64 (heap_ h + size) then (0, h)
  else
    let off := heap_ h in
    let h := mkBumpHeap (u64 (heap_ h + size)) (max_offset_ h) in
    if max_offset_ h <? u64 (off + size) then (0, mkBumpHeap (u64 (heap_ h - size)) (max_offset_ h))
    else (off, h).

(** * Size classes *)

(** [while (x > 0) { x >>= 1; ++width; }] on 64 bits. *)
Fixpoint bit_width (fuel : nat) (x width : Z) : Z :=
  match fuel with
  | O => width
  | S fuel => if 0 <? x then bit_width fuel (Z.shiftr x 1) (width + 1) else width
  end.
Definition BitWidth (x : Z) : Z := bit_width 64 x 0.
Definition FloorLog2 (x : Z) : Z := u64 (BitWidth x - 1).
Definition CeilLog2 (x : Z) : Z := if x <=? 1 then 0 else BitWidth (x - 1).

Definition kMinSize : Z := 32.
Definition kSmallThreshold : Z := 16384.
Definition kMinLog2 : Z := 5.
Definition kSmallLog2 : Z := 14.
Definition kMaxLog2 : Z := 20.
Definition kMaxSmallPages : Z := kSmallLog2 - kMinLog2 + 1.
Definition kMaxLargePages : Z := kMaxLog2 - kSmallLog2.
Definition kSmallArenaSize : Z := 65536.
Definition kSmallArenaPages : Z := 128.

(** The list index, and the size rounded up. *)
Definition GetSmallPageListIndexForAlloc (alloc_size : Z) : Z * Z :=
  if alloc_size <=? kMinSize then (0, kMinSize)
  else
    let log2 := CeilLog2 alloc_size in
    if log2 <? kMinLog2 then (0, kMinSize)
    else if kSmallLog2 <? log2 then (kMaxSmallPages - 1, kSmallThreshold)
    else (log2 - kMinLog2, Z.shiftl 1 log2).

Definition GetSmallPageListIndexForFree (size : Z) : Z :=
  if size <=? kMinSize then 0
  else
    let log2 := FloorLog2 size in
    if log2 <? kMinLog2 then 0
    else if kSmallLog2 <? log2 then kMaxSmallPages - 1
    else log2 - kMinLog2.

Definition GetLargePageListIndexForAlloc (size : Z) : Z :=
  if size <=? kSmallThreshold then 0
  else
    let log2 := FloorLog2 size in
    if log2 <=? kSmallLog2 then 0
    else if kMaxLog2 <? log2 then kMaxLargePages - 1
    else log2 - kSmallLog2 - 1.

Definition GetLargePageListIndexForFree (size : Z) : Z := GetLargePageListIndexForAlloc size.

(** * The allocator *)

Record ArenaState := mkArena { arena_off_ : Z; arena_cur_ : Z; arena_end_ : Z }.
Definition no_arena : ArenaState := mkArena 0 0 0.
Definition IsActive (a : ArenaState) : bool := negb (arena_off_ a =? 0).

Record BuddyAllocator := mkBuddy {
  big_heap_ : BumpHeap;
  small_arena_ : BumpHeap;
  small_pages_ : list slist;
  large_pages_ : list slist;
  regions_ : slist;
  cur_arena_ : ArenaState;
  mem_ : memory }.

Definition set_mem (b : BuddyAllocator) (m : memory) : BuddyAllocator :=
  mkBuddy (big_heap_ b) (small_arena_ b) (small_pages_ b) (large_pages_ b) (regions_ b) (cur_arena_ b) m.
Definition set_big (b : BuddyAllocator) (h : BumpHeap) : BuddyAllocator :=
  mkBuddy h (small_arena_ b) (small_pages_ b) (large_pages_ b) (regions_ b) (cur_arena_ b) (mem_ b).
Definition set_small_arena (b : BuddyAllocator) (h : BumpHeap) : BuddyAllocator :=
  mkBuddy (big_heap_ b) h (small_pages_ b) (large_pages_ b) (regions_ b) (cur_arena_ b) (mem_ b).
Definition set_cur_arena (b : BuddyAllocator) (a : ArenaState) : BuddyAllocator :=
  mkBuddy (big_heap_ b) (small_arena_ b) (small_pages_ b) (large_pages_ b) (regions_ b) a (mem_ b).
Definition set_small (b : BuddyAllocator) (i : Z) (l : slist) : BuddyAllocator :=
  mkBuddy (big_heap_ b) (small_arena_ b) (<[Z.to_nat i := l]> (small_pages_ b)) (large_pages_ b) (regions_ b)
    (cur_arena_ b) (mem_ b).
Definition set_large (b : BuddyAllocator) (i : Z) (l : slist) : BuddyAllocator :=
  mkBuddy (big_heap_ b) (small_arena_ b) (small_pages_ b) (<[Z.to_nat i := l]> (large_pages_ b)) (regions_ b)
    (cur_arena_ b) (mem_ b).
Definition small_list (b : BuddyAllocator) (i : Z) : slist := nth (Z.to_nat i) (small_pages_ b) slist_Init.
Definition large_list (b : BuddyAllocator) (i : Z) : slist := nth (Z.to_nat i) (large_pages_ b) slist_Init.

Definition EmplaceToList (m : memory) (l : slist) (page_offset : Z) : memory * slist :=
  slist_emplace (set_next m page_offset kNull) l page_offset.

(** The popped page, 0 for none. *)
Definition PopFromList (m : memory) (l : slist) : Z * slist :=
  if slist_empty l then (0, l)
  else match slist_pop m l with
       | (None, l) => (0, l)
       | (Some p, l) => (p, l)
       end.

Definition emplace_small (b : BuddyAllocator) (i p : Z) : BuddyAllocator :=
  let '(m, l) := EmplaceToList (mem_ b) (small_list b i) p in set_small (set_mem b m) i l.
Definition emplace_large (b : BuddyAllocator) (i p : Z) : BuddyAllocator :=
  let '(m, l) := EmplaceToList (mem_ b) (large_list b i) p in set_large (set_mem b m) i l.

(** The user's offset of a page. *)
Definition FinalizeAllocation (b : BuddyAllocator) (page_offset user_size : Z) : Z * BuddyAllocator :=
  let m := set_size (mem_ b) page_offset user_size in
  (u64 (page_offset + sizeof_PageT), set_mem b (MarkAllocated m page_offset)).

(** Filing a free page under its size. *)
Definition file_page (b : BuddyAllocator) (page_offset data_size : Z) : BuddyAllocator :=
  if data_size <=? kSmallThreshold
  then emplace_small b (GetSmallPageListIndexForFree data_size) page_offset
  else emplace_large b (GetLargePageListIndexForFree data_size) page_offset.

Definition AddRemainderToFreeList (b : BuddyAllocator) (page_offset total_size : Z) : BuddyAllocator :=
  if total_size <? sizeof_PageT + kMinSize then b
  else
    let data_size := total_size - sizeof_PageT in
    let m := MarkFree (set_size (mem_ b) page_offset data_size) page_offset in
    file_page (set_mem b m) page_offset data_size.

(** The iterator's loop of [FindFirstFit]; [None] is out of fuel. *)
Fixpoint find_fit (fuel : nat) (m : memory) (l : slist) (prev current required_size : Z) : option (Z * memory * slist) :=
  match fuel with
  | O => None
  | S fuel =>
      if current =? kNull then Some (0, m, l)
      else if required_size <=? u64 (GetSize m current + sizeof_PageT) then
        let '(m, l) := slist_PopAt m l prev current in Some (current, m, l)
      else if next_ m current =? kNull then Some (0, m, l)
      else find_fit fuel m l current (next_ m current) required_size
  end.

(** The fuel is one more than the number of pages of the list. *)
Definition FindFirstFit (b : BuddyAllocator) (list_idx required_size : Z) : option (Z * BuddyAllocator) :=
  let l := large_list b list_idx in
  if slist_empty l then Some (0, b)
  else
    '(off, m, l) ← find_fit (S (Z.to_nat (count_ l))) (mem_ b) l kNull (first_ l) required_size;
    Some (off, set_large (set_mem b m) list_idx l).

(** The [while] loop of one size class of [DivideArenaIntoPages]. *)
Fixpoint divide_class (fuel : nat) (i remaining_offset remaining_size : Z) (b : BuddyAllocator)
    : option (Z * Z * BuddyAllocator) :=
  match fuel with
  | O => None
  | S fuel =>
      let page_data_size := Z.shiftl 1 (i + kMinLog2) in
      let page_total_size := page_data_size + sizeof_PageT in
      if page_total_size <=? remaining_size then
        let m := MarkFree (set_size (mem_ b) remaining_offset page_data_size) remaining_offset in
        divide_class fuel i (u64 (remaining_offset + page_total_size)) (remaining_size - page_total_size)
          (emplace_small (set_mem b m) i remaining_offset)
      else Some (remaining_offset, remaining_size, b)
  end.

(** The classes from the largest down. *)
Fixpoint divide_from (n : nat) (remaining_offset remaining_size : Z) (b : BuddyAllocator) : option BuddyAllocator :=
  match n with
  | O => Some b
  | S n =>
      let i := Z.of_nat n in
      '(off, size, b) ← divide_class (S (Z.to_nat remaining_size)) i remaining_offset remaining_size b;
      divide_from n off size b
  end.

(** The pages of a heap's rest, and the heap left empty. *)
Definition DivideArenaIntoPages (heap : BumpHeap) (b : BuddyAllocator) : option (BumpHeap * BuddyAllocator) :=
  let arena_begin := heap_ heap in
  let arena_end := max_offset_ heap in
  let remaining_size := u64 (arena_end - arena_begin) in
  if remaining_size =? 0 then Some (heap, b)
  else
    b ← divide_from (Z.to_nat kMaxSmallPages) arena_begin remaining_size b;
    Some (mkBumpHeap arena_end arena_end, b).

(** The loop over the large lists, from [list_idx] on, for a page of [size] bytes. *)
Fixpoint first_fit_from (n : nat) (list_idx size : Z) (b : BuddyAllocator) : option (Z * BuddyAllocator) :=
  match n with
  | O => Some (0, b)
  | S n =>
      '(off, b) ← FindFirstFit b list_idx size;
      if negb (off =? 0) then Some (off, b) else first_fit_from n (list_idx + 1) size b
  end.

Definition RepopulateSmallArena (b : BuddyAllocator) : option (bool * BuddyAllocator) :=
  let arena_size := kSmallArenaSize + kSmallArenaPages * sizeof_PageT in
  '(arena, b) ← DivideArenaIntoPages (small_arena_ b) b;
  let b := set_small_arena b arena in
  let '(heap_offset, big) := BumpHeap_Allocate (big_heap_ b) arena_size in
  let b := set_big b big in
  if negb (heap_offset =? 0) then
    Some (true, set_small_arena b (mkBumpHeap heap_offset (u64 (heap_offset + arena_size))))
  else
    '(offset, b) ← first_fit_from (Z.to_nat kMaxLargePages) 0 arena_size b;
    if offset =? 0 then Some (false, b)
    else
      let page_total_size := u64 (GetSize (mem_ b) offset + sizeof_PageT) in
      let b := set_small_arena b (mkBumpHeap offset (u64 (offset + arena_size))) in
      Some (true,
        if (arena_size <? page_total_size) && (sizeof_PageT + kMinSize <=? page_total_size - arena_size)
        then AddRemainderToFreeList b (u64 (offset + arena_size)) (page_total_size - arena_size)
        else b).

(** The loop over the small lists, from list [i] on; 0 for none. *)
Fixpoint pop_small_from (n : nat) (i : Z) (b : BuddyAllocator) : Z * BuddyAllocator :=
  match n with
  | O => (0, b)
  | S n =>
      let '(off, l) := PopFromList (mem_ b) (small_list b i) in
      let b := set_small b i l in
      if negb (off =? 0) then (off, b) else pop_small_from n (i + 1) b
  end.

Definition AllocateSmall (b : BuddyAllocator) (size : Z) : option (Z * BuddyAllocator) :=
  let '(list_idx, size) := GetSmallPageListIndexForAlloc size in
  let lists := Z.to_nat (kMaxSmallPages - list_idx) in
  let '(off, b) := pop_small_from lists list_idx b in
  if negb (off =? 0) then Some (FinalizeAllocation b off (GetSize (mem_ b) off))
  else
    let total_size := u64 (size + sizeof_PageT) in
    let '(arena_offset, arena) := BumpHeap_Allocate (small_arena_ b) total_size in
    let b := set_small_arena b arena in
    if negb (arena_offset =? 0) then Some (FinalizeAllocation b arena_offset size)
    else
      '(repopulated, b) ← RepopulateSmallArena b;
      let '(off, b) := if (repopulated : bool) then pop_small_from lists list_idx b else (0, b) in
      if negb (off =? 0) then Some (FinalizeAllocation b off (GetSize (mem_ b) off))
      else
        let '(heap_offset, big) := BumpHeap_Allocate (big_heap_ b) total_size in
        let b := set_big b big in
        if negb (heap_offset =? 0) then Some (FinalizeAllocation b heap_offset size) else Some (kNull, b).

Definition AllocateLarge (b : BuddyAllocator) (size : Z) : option (Z * BuddyAllocator) :=
  let total_size := u64 (size + sizeof_PageT) in
  let list_idx := GetLargePageListIndexForAlloc size in
  '(found_offset, b) ← first_fit_from (Z.to_nat (kMaxLargePages - list_idx)) list_idx total_size b;
  if negb (found_offset =? 0) then
    let page_data_size := GetSize (mem_ b) found_offset in
    let page_total_size := u64 (page_data_size + sizeof_PageT) in
    if (total_size <? page_total_size) && (sizeof_PageT + kMinSize <=? page_total_size - total_size) then
      let b := AddRemainderToFreeList b (u64 (found_offset + total_size)) (page_total_size - total_size) in
      Some (FinalizeAllocation b found_offset size)
    else Some (FinalizeAllocation b found_offset page_data_size)
  else
    let '(heap_offset, big) := BumpHeap_Allocate (big_heap_ b) total_size in
    let b := set_big b big in
    if negb (heap_offset =? 0) then Some (FinalizeAllocation b heap_offset size) else Some (kNull, b).

(** The result is an offset, or null; [None] is out of fuel. *)
Definition AllocateOffset (b : BuddyAllocator) (requested_size : Z) : option (Z * BuddyAllocator) :=
  let a := cur_arena_ b in
  let aligned_cur := Z.ldiff (u64 (arena_cur_ a + 15)) 15 in
  if IsActive a && (u64 (aligned_cur + requested_size) <=? arena_end_ a) then
    Some (aligned_cur, set_cur_arena b (mkArena (arena_off_ a) (u64 (aligned_cur + requested_size)) (arena_end_ a)))
  else
    let requested_size := if requested_size <? kMinSize then kMinSize else requested_size in
    let requested_size := Z.ldiff (u64 (requested_size + 7)) 7 in
    if requested_size <=? kSmallThreshold then AllocateSmall b requested_size else AllocateLarge b requested_size.

Definition FreeOffsetNoNullCheck (b : BuddyAllocator) (off : Z) : BuddyAllocator :=
  let a := cur_arena_ b in
  if IsActive a && (arena_off_ a <=? off) && (off <? arena_end_ a) then b
  else
    let page_offset := u64 (off - sizeof_PageT) in
    let data_size := GetSize (mem_ b) page_offset in
    file_page (set_mem b (MarkFree (mem_ b) page_offset)) page_offset data_size.

Definition FreeOffset (b : BuddyAllocator) (offset : Z) : BuddyAllocator :=
  if offset =? kNull then b else FreeOffsetNoNullCheck b offset.

(** [memcpy] of a page's data, a multiple of 8 bytes. *)
Definition copy_words (m : memory) (dst src : Z) (bytes : Z) : memory :=
  fun x => if (dst <=? x) && (x <? dst + bytes) then m (x - dst + src) else m x.

Definition ReallocateOffset (b : BuddyAllocator) (offset new_size : Z) : option (Z * BuddyAllocator) :=
  if offset =? kNull then AllocateOffset b new_size
  else
    let old_size := GetSize (mem_ b) (u64 (offset - sizeof_PageT)) in
    if new_size <=? old_size then Some (offset, b)
    else
      '(new_offset, b) ← AllocateOffset b new_size;
      if new_offset =? kNull then Some (kNull, b)
      else Some (new_offset, FreeOffset (set_mem b (copy_words (mem_ b) new_offset offset old_size)) offset).

(** Success, the prior state, the block. *)
Definition PushArenaState (b : BuddyAllocator) (size : Z) : option (bool * ArenaState * Z * BuddyAllocator) :=
  let prior := cur_arena_ b in
  '(block, b) ← AllocateOffset (set_cur_arena b no_arena) size;
  if block =? kNull then Some (false, prior, block, set_cur_arena b prior)
  else Some (true, prior, block, set_cur_arena b (mkArena block block (u64 (block + size)))).

Definition PopArenaState (b : BuddyAllocator) (prior : ArenaState) (block : Z) : BuddyAllocator :=
  let b := set_cur_arena b prior in
  if block =? kNull then b else FreeOffset b block.

Definition Expand (b : BuddyAllocator) (region region_size : Z) : option BuddyAllocator :=
  if (region =? kNull) || (region_size =? 0) then Some b
  else if region_size <=? sizeof_PageT then Some b
  else
    let m := set_size (mem_ b) region region_size in
    let '(m, l) := EmplaceToList m (regions_ b) region in
    let b := mkBuddy (big_heap_ b) (small_arena_ b) (small_pages_ b) (large_pages_ b) l (cur_arena_ b) m in
    let region := u64 (region + sizeof_PageT) in
    let region_size := region_size - sizeof_PageT in
    '(_, b) ← DivideArenaIntoPages (big_heap_ b) b;
    Some (set_big b (mkBumpHeap region (u64 (region + region_size)))).

(** [shm_init] at offset [this_] of a backend of [capacity] bytes; [header] is
    [sizeof(_BuddyAllocator)]. *)
Definition shm_init (m : memory) (this_ header capacity region_size : Z) (shifted : bool)
    : option (bool * BuddyAllocator) :=
  let shift_ := if shifted then this_ else 0 in
  let data_start_ := if shifted then 0 else header in
  let region_size := if region_size =? 0 then if shifted then capacity else u64 (capacity - this_) else region_size in
  let b := mkBuddy (mkBumpHeap 0 0) (mkBumpHeap 0 0) (replicate (Z.to_nat kMaxSmallPages) slist_Init)
             (replicate (Z.to_nat kMaxLargePages) slist_Init) slist_Init no_arena m in
  if region_size <? kMinSize then Some (false, b)
  else
    b ← Expand b (u64 (this_ + data_start_ - shift_)) (u64 (region_size - data_start_));
    Some (true, b).

(** * Bits and size classes *)

Lemma MarkFree_size s : 0 <= s < 2 ^ 63 -> Z.ldiff (Z.lor s kFreeMask) kFreeMask = s.
Proof.
  intros Hs. apply Z.bits_inj'. intros n Hn. rewrite Z.ldiff_spec, Z.lor_spec. unfold kFreeMask.
  rewrite Z.pow2_bits_eqb by lia. destruct (Z.eqb_spec 63 n) as [<-|Hne]; cbn [negb].
  - rewrite andb_false_r. symmetry. destruct (Z.eq_dec s 0) as [->|]; [done|].
    apply Z.bits_above_log2; [lia|]. apply Z.log2_lt_pow2; lia.
  - by rewrite orb_false_r, andb_true_r.
Qed.

Lemma unmarked_size s : 0 <= s < 2 ^ 63 -> Z.ldiff s kFreeMask = s.
Proof.
  intros Hs. apply Z.bits_inj'. intros n Hn. rewrite Z.ldiff_spec. unfold kFreeMask.
  rewrite Z.pow2_bits_eqb by lia. destruct (Z.eqb_spec 63 n) as [<-|Hne]; cbn [negb]; [|apply andb_true_r].
  rewrite andb_false_r. symmetry. destruct (Z.eq_dec s 0) as [->|]; [done|].
  apply Z.bits_above_log2; [lia|]. apply Z.log2_lt_pow2; lia.
Qed.

(** Clearing the low bits rounds down. *)
Lemma ldiff_round k x : 0 <= k -> 0 <= x -> Z.ldiff x (2 ^ k - 1) = 2 ^ k * (x / 2 ^ k).
Proof.
  intros Hk Hx. replace (2 ^ k - 1) with (Z.ones k) by (rewrite Z.ones_equiv; lia).
  rewrite Z.ldiff_ones_r, Z.shiftr_div_pow2, Z.shiftl_mul_pow2 by lia. lia.
Qed.

Lemma round8_spec n : 0 <= n < 2 ^ 63 ->
  exists q, Z.ldiff (u64 (n + 7)) 7 = 8 * q /\ n <= 8 * q < n + 8.
Proof.
  intros Hn. rewrite u64_small by lia. change 7 with (2 ^ 3 - 1) at 2. rewrite ldiff_round by lia.
  exists ((n + 7) / 2 ^ 3). split; [done|]. change (2 ^ 3) with 8.
  pose proof (Z.div_mod (n + 7) 8 ltac:(lia)). pose proof (Z.mod_pos_bound (n + 7) 8 ltac:(lia)). lia.
Qed.

Lemma bit_width_spec fuel : forall x w, 0 < x < 2 ^ Z.of_nat fuel -> bit_width fuel x w = w + Z.log2 x + 1.
Proof.
  induction fuel as [|fuel IH]; intros x w Hx; [cbn in Hx; lia|]. cbn [bit_width].
  rewrite (proj2 (Z.ltb_lt _ _)) by lia. rewrite Z.shiftr_div_pow2 by lia. change (2 ^ 1) with 2.
  rewrite Nat2Z.inj_succ, Z.pow_succ_r in Hx by lia.
  destruct (Z.eq_dec x 1) as [->|Hne].
  - change (1 / 2) with 0. destruct fuel; cbn; lia.
  - assert (1 <= x / 2 < 2 ^ Z.of_nat fuel) as H2.
    { split; [apply Z.div_le_lower_bound; lia|apply Z.div_lt_upper_bound; lia]. }
    rewrite IH by lia. pose proof (Z.log2_shiftr x 1 ltac:(lia)) as Hl. rewrite Z.shiftr_div_pow2 in Hl by lia.
    change (2 ^ 1) with 2 in Hl. assert (1 <= Z.log2 x) by (apply Z.log2_le_pow2; cbn; lia). lia.
Qed.

Lemma BitWidth_spec x : 0 < x < 2 ^ 64 -> BitWidth x = Z.log2 x + 1.
Proof. intros Hx. unfold BitWidth. rewrite bit_width_spec by (cbn; lia). lia. Qed.

Lemma FloorLog2_spec x : 0 < x < 2 ^ 64 -> FloorLog2 x = Z.log2 x.
Proof.
  intros Hx. unfold FloorLog2. rewrite BitWidth_spec by done. rewrite u64_small; [lia|].
  pose proof (Z.log2_nonneg x). assert (Z.log2 x < 64) by (apply Z.log2_lt_pow2; lia). lia.
Qed.

Lemma CeilLog2_spec x : 1 < x < 2 ^ 64 -> CeilLog2 x = Z.log2_up x.
Proof.
  intros Hx. unfold CeilLog2. rewrite (proj2 (Z.leb_gt _ _)) by lia. rewrite BitWidth_spec by lia.
  rewrite Z.log2_up_eqn by lia. rewrite <- Z.sub_1_r. lia.
Qed.

(** A request is served from a list whose pages all hold it. *)
Lemma small_class_alloc n : 32 <= n <= kSmallThreshold ->
  let '(i, s) := GetSmallPageListIndexForAlloc n in
  0 <= i < kMaxSmallPages /\ s = 2 ^ (i + kMinLog2) /\ n <= s.
Proof.
  intros Hn. unfold GetSmallPageListIndexForAlloc, kMinSize, kSmallThreshold, kMaxSmallPages, kSmallLog2, kMinLog2 in *.
  destruct (Z.leb_spec n 32); [cbn; lia|]. rewrite CeilLog2_spec by lia.
  pose proof (Z.log2_up_spec n ltac:(lia)) as [Hlo Hhi].
  assert (5 < Z.log2_up n) by (apply Z.log2_up_lt_pow2; cbn; lia).
  assert (Z.log2_up n <= 14) by (apply Z.log2_up_le_pow2; cbn; lia).
  rewrite !(proj2 (Z.ltb_ge _ _)) by lia. rewrite Z.shiftl_mul_pow2 by lia.
  replace (Z.log2_up n - 5 + 5) with (Z.log2_up n) by lia. lia.
Qed.

(** A page is filed under a list whose requests it holds. *)
Lemma small_class_free s : 32 <= s <= kSmallThreshold ->
  0 <= GetSmallPageListIndexForFree s < kMaxSmallPages /\ 2 ^ (GetSmallPageListIndexForFree s + kMinLog2) <= s.
Proof.
  intros Hn. unfold GetSmallPageListIndexForFree, kMinSize, kSmallThreshold, kMaxSmallPages, kSmallLog2, kMinLog2 in *.
  destruct (Z.leb_spec s 32); [cbn; lia|]. rewrite FloorLog2_spec by lia.
  pose proof (Z.log2_spec s ltac:(lia)) as [Hlo Hhi].
  assert (5 <= Z.log2 s) by (apply Z.log2_le_pow2; cbn; lia).
  assert (Z.log2 s <= 14) by (apply Z.lt_succ_r, Z.log2_lt_pow2; cbn; lia).
  rewrite !(proj2 (Z.ltb_ge _ _)) by lia. replace (Z.log2 s - 5 + 5) with (Z.log2 s) by lia. lia.
Qed.

Lemma large_class s : 0 <= s < 2 ^ 64 -> 0 <= GetLargePageListIndexForAlloc s < kMaxLargePages.
Proof.
  intros Hn. unfold GetLargePageListIndexForAlloc, kSmallThreshold, kMaxLargePages, kMaxLog2, kSmallLog2 in *.
  destruct (Z.leb_spec s 16384); [cbn; lia|]. rewrite FloorLog2_spec by lia.
  destruct (Z.leb_spec (Z.log2 s) 14); [cbn; lia|]. destruct (Z.ltb_spec 20 (Z.log2 s)); [cbn; lia|lia].
Qed.
