(* ===== verification/BuddySafety.v ===== *)
(** The invariant of the buddy allocator and its preservation by every
    operation: no byte belongs to two of the free pages, the region headers, the
    two heaps and the callers' blocks; the lists are chains of marked pages of
    their size class; nothing a caller holds changes. *)
From Stdlib Require Import ZArith Lia.
From stdpp Require Import base list relations.
From S2P Require Import Prelude Extents BuddyAllocator.

Open Scope Z_scope.

#[local] Arguments owned : simpl never.
#[local] Arguments covers : simpl never.

(** * The invariant *)

(** A page: its offset and the size of its data. *)
Abbreviation page := (Z * Z)%type (only parsing).
Definition page_extent (p : page) : extent := (fst p, sizeof_PageT + snd p).

(** The free pages of the lists, and the headers of the regions. *)
Record shape := mkShape { sh_small : list (list page); sh_large : list (list page); sh_regions : list Z }.
Definition free_pages (sh : shape) : list page := concat (sh_small sh) ++ concat (sh_large sh).

Fixpoint chain (m : memory) (h : Z) (pages : list page) : Prop :=
  match pages with
  | [] => h = kNull
  | (p, s) :: pages => h = p /\ size_ m p = Z.lor s kFreeMask /\ chain m (next_ m p) pages
  end.

Definition slist_ok (m : memory) (l : slist) (pages : list page) : Prop :=
  count_ l = Z.of_nat (length pages) /\ chain m (first_ l) pages.

Definition heap_extent (h : BumpHeap) : extent := (heap_ h, max_offset_ h - heap_ h).

(** All memory that is in use or can be given out; [held] is the callers' part. *)
Definition extents (b : BuddyAllocator) (sh : shape) (held : list extent) : list extent :=
  (page_extent <$> free_pages sh) ++ ((fun r => (r, sizeof_PageT)) <$> sh_regions sh) ++
  [heap_extent (small_arena_ b); heap_extent (big_heap_ b)] ++ held.

#[local] Arguments extents : simpl never.

Lemma owned_extents x b sh held :
  owned x (extents b sh held) =
  owned x (page_extent <$> concat (sh_small sh)) + owned x (page_extent <$> concat (sh_large sh)) +
  owned x ((fun r => (r, sizeof_PageT)) <$> sh_regions sh) +
  Z.b2z (covers x (heap_extent (small_arena_ b))) + Z.b2z (covers x (heap_extent (big_heap_ b))) + owned x held.
Proof. unfold extents, free_pages. rewrite fmap_app, !owned_app, !owned_cons. change (owned x []) with 0. lia. Qed.

Section Invariant.
Context (lo hi : Z).   (** the managed memory *)

(** Inside the memory, and word-aligned. *)
Definition extent_ok (e : extent) : Prop :=
  0 <= snd e /\ (0 < snd e -> lo <= fst e /\ fst e + snd e <= hi /\ (8 | fst e - lo) /\ (8 | snd e)).

Lemma extent_ok_pos e : extent_ok e -> 0 < snd e ->
  lo <= fst e /\ fst e + snd e <= hi /\ (8 | fst e - lo) /\ (8 | snd e).
Proof. intros [_ H] Hp. by apply H. Qed.

Definition heap_ok (h : BumpHeap) : Prop :=
  0 <= heap_ h <= max_offset_ h /\ max_offset_ h <= hi /\
  (heap_ h < max_offset_ h -> 0 < heap_ h /\ lo <= heap_ h /\ (8 | heap_ h - lo) /\ (8 | max_offset_ h - lo)).

Lemma heap_extent_ok h : heap_ok h -> extent_ok (heap_extent h).
Proof.
  intros (H0 & Hm & Ha). split; cbn; [lia|]. intros Hp. destruct (Ha ltac:(lia)) as (_ & ? & ? & ?).
  split_and!; [lia|lia|done|]. replace (max_offset_ h - heap_ h) with ((max_offset_ h - lo) - (heap_ h - lo)) by lia.
  by apply Z.divide_sub_r.
Qed.

Definition page_ok (p : page) : Prop := 0 < fst p /\ kMinSize <= snd p /\ extent_ok (page_extent p).

Definition small_fits (i : nat) (p : page) : Prop := 2 ^ (Z.of_nat i + kMinLog2) <= snd p.

Record buddy_inv (b : BuddyAllocator) (sh : shape) (held : list extent) : Prop := {
  bi_range : 0 <= lo /\ hi <= 2 ^ 62;
  bi_small : Forall2 (slist_ok (mem_ b)) (small_pages_ b) (sh_small sh);
  bi_large : Forall2 (slist_ok (mem_ b)) (large_pages_ b) (sh_large sh);
  bi_lists : length (small_pages_ b) = Z.to_nat kMaxSmallPages /\ length (large_pages_ b) = Z.to_nat kMaxLargePages;
  bi_class : forall i l, sh_small sh !! i = Some l -> Forall (small_fits i) l;
  bi_pages : Forall page_ok (free_pages sh);
  bi_heaps : heap_ok (small_arena_ b) /\ heap_ok (big_heap_ b);
  bi_regions : Forall (fun r => extent_ok (r, sizeof_PageT)) (sh_regions sh);
  bi_held : Forall extent_ok held;
  bi_own : forall x, owned x (extents b sh held) <= 1 }.

(** Memory that does not belong to [held] is another's. *)
Definition same_outside (held : list extent) (m m' : memory) : Prop := forall x, owned x held = 0 -> m' x = m x.
Definition same_inside (held : list extent) (m m' : memory) : Prop := forall x, 0 < owned x held -> m' x = m x.

Lemma same_inside_refl held m : same_inside held m m.
Proof. done. Qed.

Lemma same_inside_trans held m1 m2 m3 : same_inside held m1 m2 -> same_inside held m2 m3 -> same_inside held m1 m3.
Proof. intros H1 H2 x Hx. rewrite (H2 x Hx). by apply H1. Qed.

Lemma same_inside_weaken held held' m m' :
  (forall x, owned x held <= owned x held') -> same_inside held' m m' -> same_inside held m m'.
Proof. intros Hle H x Hx. apply H. pose proof (Hle x). lia. Qed.

Lemma concat_lookup_perm {A} (ls : list (list A)) i l l' :
  ls !! i = Some l -> exists rest, concat ls ≡ₚ l ++ rest /\ concat (<[i := l']> ls) ≡ₚ l' ++ rest.
Proof.
  revert i. induction ls as [|l0 ls IH]; intros [|i] Hi; cbn in *; try done.
  - injection Hi as ->. by exists (concat ls).
  - destruct (IH i Hi) as (rest & H1 & H2). exists (l0 ++ rest). rewrite H1, H2. split.
    + by rewrite !app_assoc, (Permutation_app_comm l0 l).
    + by rewrite !app_assoc, (Permutation_app_comm l0 l').
Qed.

Lemma chain_frame m m' pages : forall h,
  (forall p, p ∈ pages -> m' (fst p) = m (fst p) /\ m' (fst p + 8) = m (fst p + 8)) -> chain m h pages -> chain m' h pages.
Proof.
  induction pages as [|[p s] pages IH]; intros h Hm; cbn; [done|]. intros (-> & Hs & Hc).
  destruct (Hm (p, s) ltac:(by left)) as [H1 H2]. cbn in H1, H2. unfold size_, next_ in *. rewrite H1, H2.
  split_and!; [done..|]. apply IH; [|done]. intros q Hq. apply Hm. by right.
Qed.

Lemma slists_frame m m' ls pss :
  (forall p, p ∈ concat pss -> m' (fst p) = m (fst p) /\ m' (fst p + 8) = m (fst p + 8)) ->
  Forall2 (slist_ok m) ls pss -> Forall2 (slist_ok m') ls pss.
Proof.
  intros Hm HF. induction HF as [|l ps ls pss [Hc Hch] HF IH]; [done|]. constructor.
  - split; [done|]. eapply chain_frame; [|done]. intros p Hp. apply Hm. cbn. apply elem_of_app. by left.
  - apply IH. intros p Hp. apply Hm. cbn. apply elem_of_app. by right.
Qed.

(** A free page's header is not in [held]. *)
Lemma free_page_not_held b sh held p k :
  buddy_inv b sh held -> p ∈ free_pages sh -> 0 <= k < 16 -> owned (fst p + k) held = 0.
Proof.
  intros Hb Hp Hk. pose proof (bi_own _ _ _ Hb (fst p + k)) as Hx. unfold extents in Hx. rewrite !owned_app in Hx.
  pose proof (bi_pages _ _ _ Hb) as HP. rewrite Forall_forall in HP. destruct (HP p Hp) as (_ & Hmin & _).
  assert (1 <= owned (fst p + k) ((page_extent <$> free_pages sh))) as H1.
  { apply (owned_in _ (page_extent p)); [by apply list_elem_of_fmap_2|].
    unfold page_extent, sizeof_PageT, kMinSize in *. cbn. lia. }
  pose proof (owned_nonneg (fst p + k) (((fun r => (r, sizeof_PageT)) <$> sh_regions sh))).
  pose proof (owned_nonneg (fst p + k) [heap_extent (small_arena_ b); heap_extent (big_heap_ b)]).
  pose proof (owned_nonneg (fst p + k) held). lia.
Qed.

(** Writing what one holds. *)
Lemma inv_set_mem b sh held m' :
  buddy_inv b sh held -> same_outside held (mem_ b) m' -> buddy_inv (set_mem b m') sh held.
Proof.
  intros Hb Hm.
  assert (forall p, p ∈ free_pages sh -> m' (fst p) = mem_ b (fst p) /\ m' (fst p + 8) = mem_ b (fst p + 8)) as Hp.
  { intros p Hp. split; apply Hm; [rewrite <- (Z.add_0_r (fst p))|]; eapply free_page_not_held; done || lia. }
  destruct Hb as [B1 B2 B3 B4 B5 B6 B7 B8 B9 B10]. split; try done; cbn.
  - eapply slists_frame; [|done]. intros p Hin. apply Hp. apply elem_of_app. by left.
  - eapply slists_frame; [|done]. intros p Hin. apply Hp. apply elem_of_app. by right.
Qed.

(** Holding less, or the same in other pieces. *)
Lemma inv_held b sh held held' :
  buddy_inv b sh held -> Forall extent_ok held' -> (forall x, owned x held' <= owned x held) -> buddy_inv b sh held'.
Proof.
  intros [B1 B2 B3 B4 B5 B6 B7 B8 B9 B10] Hok Hle. split; try done. intros x. specialize (B10 x). specialize (Hle x).
  unfold extents in *. rewrite !owned_app in *. lia.
Qed.

(** ** Lists *)

Lemma free_pages_NoDup l :
  (forall x, owned x (page_extent <$> l) <= 1) -> Forall page_ok l -> NoDup (fst <$> l).
Proof.
  induction l as [|p l IH]; intros Hown Hok; cbn; [constructor|]. inversion Hok as [|? ? [_ [Hp _]] Hok']; subst.
  constructor.
  - intros Hin. apply list_elem_of_fmap in Hin as (q & Hq & Hin).
    assert (page_ok q) as (_ & Hq' & _) by (rewrite Forall_forall in Hok'; by apply Hok').
    specialize (Hown (fst p)). cbn in Hown. rewrite owned_cons in Hown.
    rewrite (proj2 (covers_spec (fst p) (page_extent p))) in Hown by (unfold page_extent, sizeof_PageT, kMinSize in *; cbn; lia).
    pose proof (owned_in (fst p) (page_extent q) (page_extent <$> l) ltac:(by apply list_elem_of_fmap_2)) as H1.
    unfold page_extent, sizeof_PageT, kMinSize in *. cbn [fst snd Z.b2z] in *. lia.
  - apply IH; [|done]. intros x. specialize (Hown x). cbn in Hown. rewrite owned_cons in Hown.
    destruct (covers x (page_extent p)); cbn in Hown; lia.
Qed.

Lemma owned_free_le b sh held x : buddy_inv b sh held ->
  owned x (page_extent <$> free_pages sh) + owned x held <= 1.
Proof.
  intros Hb. pose proof (bi_own _ _ _ Hb x) as Hx. unfold extents in Hx. rewrite !owned_app in Hx.
  pose proof (owned_nonneg x ((fun r => (r, sizeof_PageT)) <$> sh_regions sh)).
  pose proof (owned_nonneg x [heap_extent (small_arena_ b); heap_extent (big_heap_ b)]). lia.
Qed.

Lemma free_pages_bound b sh held : buddy_inv b sh held -> Z.of_nat (length (free_pages sh)) <= Z.max 0 (hi - lo).
Proof.
  intros Hb. pose proof (bi_pages _ _ _ Hb) as HP.
  assert (NoDup (fst <$> free_pages sh)) as Hnd.
  { apply free_pages_NoDup; [|done]. intros x. pose proof (owned_free_le _ _ _ x Hb). pose proof (owned_nonneg x held). lia. }
  assert ((fst <$> free_pages sh) ⊆+ seqZ lo (hi - lo)) as Hsub.
  { apply NoDup_submseteq; [done|]. intros x Hx. apply list_elem_of_fmap in Hx as (q & -> & Hq).
    rewrite Forall_forall in HP. destruct (HP q Hq) as (_ & Hmin & He). unfold kMinSize in Hmin.
    destruct (extent_ok_pos _ He) as (H1 & H2 & _); unfold page_extent, sizeof_PageT in *; cbn [fst snd] in *; [lia|].
    apply elem_of_seqZ. lia. }
  apply submseteq_length in Hsub. rewrite length_fmap, length_seqZ in Hsub. lia.
Qed.

Lemma concat_bound {A} (ls : list (list A)) i l : ls !! i = Some l -> (length l <= length (concat ls))%nat.
Proof.
  intros Hi. destruct (concat_lookup_perm ls i l [] Hi) as (rest & H1 & _). rewrite H1, length_app. lia.
Qed.

Lemma small_lookup b sh held i : buddy_inv b sh held -> 0 <= i < kMaxSmallPages ->
  exists ps, sh_small sh !! Z.to_nat i = Some ps /\ slist_ok (mem_ b) (small_list b i) ps /\ Z.of_nat (length ps) <= 2 ^ 62.
Proof.
  intros Hb Hi. destruct (bi_lists _ _ _ Hb) as [Hl _].
  destruct (lookup_lt_is_Some_2 (small_pages_ b) (Z.to_nat i) ltac:(lia)) as [l Hlk].
  destruct (Forall2_lookup_l _ _ _ _ _ (bi_small _ _ _ Hb) Hlk) as (ps & Hps & Hok). exists ps. split; [done|].
  assert (small_list b i = l) as ->.
  { unfold small_list. pose proof (nth_lookup (small_pages_ b) (Z.to_nat i) slist_Init) as E. rewrite Hlk in E. done. }
  split; [done|]. pose proof (concat_bound _ _ _ Hps). pose proof (free_pages_bound _ _ _ Hb) as Hf.
  unfold free_pages in Hf. rewrite length_app in Hf. destruct (bi_range _ _ _ Hb). lia.
Qed.

Lemma large_lookup b sh held i : buddy_inv b sh held -> 0 <= i < kMaxLargePages ->
  exists ps, sh_large sh !! Z.to_nat i = Some ps /\ slist_ok (mem_ b) (large_list b i) ps /\ Z.of_nat (length ps) <= 2 ^ 62.
Proof.
  intros Hb Hi. destruct (bi_lists _ _ _ Hb) as [_ Hl].
  destruct (lookup_lt_is_Some_2 (large_pages_ b) (Z.to_nat i) ltac:(lia)) as [l Hlk].
  destruct (Forall2_lookup_l _ _ _ _ _ (bi_large _ _ _ Hb) Hlk) as (ps & Hps & Hok). exists ps. split; [done|].
  assert (large_list b i = l) as ->.
  { unfold large_list. pose proof (nth_lookup (large_pages_ b) (Z.to_nat i) slist_Init) as E. rewrite Hlk in E. done. }
  split; [done|]. pose proof (concat_bound _ _ _ Hps). pose proof (free_pages_bound _ _ _ Hb) as Hf.
  unfold free_pages in Hf. rewrite length_app in Hf. destruct (bi_range _ _ _ Hb). lia.
Qed.

(** Exchanging pages between one list and the holders. *)
Lemma small_replace b sh held held' i l' ps ps' :
  buddy_inv b sh held -> 0 <= i < kMaxSmallPages -> sh_small sh !! Z.to_nat i = Some ps ->
  slist_ok (mem_ b) l' ps' -> Forall (small_fits (Z.to_nat i)) ps' -> Forall page_ok ps' -> Forall extent_ok held' ->
  (forall x, owned x (page_extent <$> ps') + owned x held' <= owned x (page_extent <$> ps) + owned x held) ->
  buddy_inv (set_small b i l') (mkShape (<[Z.to_nat i := ps']> (sh_small sh)) (sh_large sh) (sh_regions sh)) held'.
Proof.
  intros Hb Hi Hps Hl' Hfit Hok Hheld Hle. destruct Hb as [B1 B2 B3 B4 B5 B6 B7 B8 B9 B10].
  destruct (concat_lookup_perm (sh_small sh) _ ps ps' Hps) as (rest & H1 & H2).
  split; cbn; try done.
  - by apply Forall2_insert.
  - by rewrite length_insert.
  - intros j l Hj. apply list_lookup_insert_Some in Hj as [(<- & <- & _)|[_ Hj]]; [done|by eapply B5].
  - unfold free_pages in *. cbn. rewrite H2. rewrite H1 in B6. rewrite !Forall_app in *. tauto.
  - intros x. specialize (B10 x). specialize (Hle x). rewrite owned_extents in B10. rewrite owned_extents. cbn [sh_small sh_large sh_regions].
    rewrite (owned_perm _ _ _ _ _ H1) in B10. rewrite (owned_perm _ _ _ _ _ H2).
    change (small_arena_ (set_small b i l')) with (small_arena_ b). change (big_heap_ (set_small b i l')) with (big_heap_ b). lia.
Qed.

Lemma large_replace b sh held held' i l' ps ps' :
  buddy_inv b sh held -> 0 <= i < kMaxLargePages -> sh_large sh !! Z.to_nat i = Some ps ->
  slist_ok (mem_ b) l' ps' -> Forall page_ok ps' -> Forall extent_ok held' ->
  (forall x, owned x (page_extent <$> ps') + owned x held' <= owned x (page_extent <$> ps) + owned x held) ->
  buddy_inv (set_large b i l') (mkShape (sh_small sh) (<[Z.to_nat i := ps']> (sh_large sh)) (sh_regions sh)) held'.
Proof.
  intros Hb Hi Hps Hl' Hok Hheld Hle. destruct Hb as [B1 B2 B3 B4 B5 B6 B7 B8 B9 B10].
  destruct (concat_lookup_perm (sh_large sh) _ ps ps' Hps) as (rest & H1 & H2).
  split; cbn; try done.
  - by apply Forall2_insert.
  - by rewrite length_insert.
  - unfold free_pages in *. cbn. rewrite H2. rewrite H1 in B6. rewrite !Forall_app in *. tauto.
  - intros x. specialize (B10 x). specialize (Hle x). rewrite owned_extents in B10. rewrite owned_extents. cbn [sh_small sh_large sh_regions].
    rewrite (owned_perm _ _ _ _ _ H1) in B10. rewrite (owned_perm _ _ _ _ _ H2).
    change (small_arena_ (set_large b i l')) with (small_arena_ b). change (big_heap_ (set_large b i l')) with (big_heap_ b). lia.
Qed.

(** ** Small steps *)

(** What is held twice is held once. *)
Lemma held_apart b sh e held x : buddy_inv b sh (e :: held) -> fst e <= x < fst e + snd e -> owned x held = 0.
Proof.
  intros Hb Hx. pose proof (bi_own _ _ _ Hb x) as Ho. rewrite owned_extents, owned_cons in Ho.
  rewrite (proj2 (covers_spec x e) Hx) in Ho. cbn [Z.b2z] in Ho.
  pose proof (owned_nonneg x (page_extent <$> concat (sh_small sh))). pose proof (owned_nonneg x (page_extent <$> concat (sh_large sh))).
  pose proof (owned_nonneg x ((fun r => (r, sizeof_PageT)) <$> sh_regions sh)). pose proof (owned_nonneg x held).
  destruct (covers x (heap_extent (small_arena_ b))), (covers x (heap_extent (big_heap_ b))); cbn [Z.b2z] in Ho; lia.
Qed.

(** A write in the first extent held. *)
Lemma inv_write b sh e held m' :
  buddy_inv b sh (e :: held) -> (forall x, ~ (fst e <= x < fst e + snd e) -> m' x = mem_ b x) ->
  buddy_inv (set_mem b m') sh (e :: held) /\ same_inside held (mem_ b) m'.
Proof.
  intros Hb Hm. split.
  - apply inv_set_mem; [done|]. intros x Hx. apply Hm. intros Hin. rewrite owned_cons in Hx.
    rewrite (proj2 (covers_spec x e) Hin) in Hx. pose proof (owned_nonneg x held). cbn in Hx. lia.
  - intros x Hx. apply Hm. intros Hin. pose proof (held_apart _ _ _ _ _ Hb Hin). lia.
Qed.

Lemma page_extent_in p x : page_ok p -> fst p <= x < fst p + 16 -> fst (page_extent p) <= x < fst (page_extent p) + snd (page_extent p).
Proof. intros (_ & Hm & _) Hx. unfold page_extent, sizeof_PageT, kMinSize in *. cbn. lia. Qed.

Lemma page_size_bound b sh held p s : buddy_inv b sh held -> page_ok (p, s) -> 0 < p < 2 ^ 62 /\ 32 <= s < 2 ^ 62 /\ p + 16 + s <= 2 ^ 62.
Proof.
  intros Hb (H0 & Hm & He). destruct (bi_range _ _ _ Hb). unfold page_extent, sizeof_PageT, kMinSize in *. cbn in *.
  destruct (extent_ok_pos _ He) as (E1 & E2 & _); cbn in *; lia.
Qed.

Lemma cons_page_ext p ps : page_extent <$> (p :: ps) = page_extent p :: (page_extent <$> ps).
Proof. done. Qed.

Lemma PopFromList_ok b sh held i :
  buddy_inv b sh held -> 0 <= i < kMaxSmallPages ->
  exists off l sh', PopFromList (mem_ b) (small_list b i) = (off, l) /\
    ((off = 0 /\ buddy_inv (set_small b i l) sh' held) \/
     exists s, off <> 0 /\ page_ok (off, s) /\ 2 ^ (i + kMinLog2) <= s /\ size_ (mem_ b) off = Z.lor s kFreeMask /\
       buddy_inv (set_small b i l) sh' (page_extent (off, s) :: held)).
Proof.
  intros Hb Hi. destruct (small_lookup _ _ _ _ Hb Hi) as (ps & Hps & [Hc Hch] & Hlen).
  pose proof (bi_class _ _ _ Hb _ _ Hps) as Hfit.
  assert (Forall page_ok ps) as Hok.
  { pose proof (bi_pages _ _ _ Hb) as HP. unfold free_pages in HP. apply Forall_app in HP as [HP _].
    destruct (concat_lookup_perm _ _ _ [] Hps) as (rest & H1 & _). rewrite H1 in HP. by apply Forall_app in HP as [HP _]. }
  pose proof (bi_held _ _ _ Hb) as Hheld.
  unfold PopFromList, slist_empty, slist_pop. destruct ps as [|[p s] ps]; cbn [length chain] in *.
  - rewrite (proj2 (Z.eqb_eq _ _)) by lia. eexists _, _, _. split; [done|]. left. split; [done|].
    apply (small_replace b sh held held i (small_list b i) [] []); done || by split.
  - destruct Hch as (Hf & Hs & Hch). rewrite (proj2 (Z.eqb_neq _ _)) by lia.
    inversion Hok as [|? ? Hp Hok']; subst. inversion Hfit as [|? ? Hft Hfit']; subst.
    destruct (page_size_bound _ _ _ _ _ Hb Hp). rewrite (proj2 (Z.eqb_neq _ kNull)) by (unfold kNull; lia).
    eexists _, _, _. split; [done|]. right. exists s. split_and!; [lia|done| |done|].
    + unfold small_fits in Hft. cbn in Hft. by rewrite Z2Nat.id in Hft by lia.
    + eapply (small_replace b sh held _ i _ _ ps); try done.
      * split; [|done]. cbn [count_]. rewrite Hc, u64_small; lia.
      * constructor; [|done]. by destruct Hp as (_ & _ & ?).
      * intros x. rewrite cons_page_ext, !owned_cons. lia.
Qed.

Lemma pop_small_from_ok n : forall b sh held i,
  buddy_inv b sh held -> 0 <= i -> i + Z.of_nat n = kMaxSmallPages ->
  exists off b' sh', pop_small_from n i b = (off, b') /\ mem_ b' = mem_ b /\
    ((off = 0 /\ buddy_inv b' sh' held) \/
     exists s, off <> 0 /\ page_ok (off, s) /\ 2 ^ (i + kMinLog2) <= s /\ size_ (mem_ b) off = Z.lor s kFreeMask /\
       buddy_inv b' sh' (page_extent (off, s) :: held)).
Proof.
  induction n as [|n IH]; intros b sh held i Hb Hi Hn; cbn [pop_small_from].
  - exists 0, b, sh. split_and!; [done..|]. by left.
  - destruct (PopFromList_ok b sh held i Hb ltac:(lia)) as (off & l & sh1 & -> & [[-> Hb1]|(s & Hne & Hp & Hs & Hz & Hb1)]).
    + change (negb (0 =? 0)) with false. cbv iota.
      destruct (IH _ _ _ (i + 1) Hb1 ltac:(lia) ltac:(lia)) as (off & b2 & sh2 & -> & Hm & Hor).
      exists off, b2, sh2. split_and!; [done..|]. destruct Hor as [|(s & H1 & H2 & H3 & H4 & H5)]; [by left|right].
      exists s. split_and!; try done. etransitivity; [|exact H3]. apply Z.pow_le_mono_r; unfold kMinLog2; lia.
    + rewrite (proj2 (Z.eqb_neq off 0) Hne). cbn [negb]. eexists _, _, _. split; [done|]. split; [done|]. right. by exists s.
Qed.

Lemma emplace_small_ok b sh held i p s :
  buddy_inv b sh (page_extent (p, s) :: held) -> 0 <= i < kMaxSmallPages -> page_ok (p, s) ->
  2 ^ (i + kMinLog2) <= s -> size_ (mem_ b) p = Z.lor s kFreeMask ->
  exists sh', buddy_inv (emplace_small b i p) sh' held /\ same_inside held (mem_ b) (mem_ (emplace_small b i p)).
Proof.
  intros Hb Hi Hp Hfit Hs. unfold emplace_small, EmplaceToList, slist_emplace. cbn [fst snd].
  set (m1 := set_next (set_next (mem_ b) p kNull) p (first_ (small_list b i))).
  assert (forall x, x <> p -> m1 x = mem_ b x) as Hm1.
  { intros x Hx. unfold m1, set_next, wr. by rewrite !(proj2 (Z.eqb_neq _ _) Hx). }
  assert (m1 p = first_ (small_list b i)) as Hm1p by (unfold m1, set_next, wr; by rewrite Z.eqb_refl).
  destruct (inv_write b sh _ held m1 Hb) as [Hb1 Hin].
  { intros x Hx. apply Hm1. intros ->. apply Hx. apply page_extent_in; [done|cbn; lia]. }
  destruct (small_lookup _ _ _ _ Hb1 Hi) as (ps & Hps & [Hc Hch] & Hlen).
  change (small_list (set_mem b m1) i) with (small_list b i) in *. change (mem_ (set_mem b m1)) with m1 in *.
  pose proof (bi_class _ _ _ Hb1 _ _ Hps) as Hcl. pose proof (bi_held _ _ _ Hb1) as Hheld. inversion Hheld as [|? ? _ Hheld']; subst.
  assert (Forall page_ok ps) as Hok.
  { pose proof (bi_pages _ _ _ Hb1) as HP. unfold free_pages in HP. apply Forall_app in HP as [HP _].
    destruct (concat_lookup_perm _ _ _ [] Hps) as (rest & H1 & _). rewrite H1 in HP. by apply Forall_app in HP as [HP _]. }
  eexists. split; [|exact Hin]. apply (small_replace _ _ _ held i _ _ ((p, s) :: ps) Hb1 Hi Hps).
  - split; cbn [count_ first_ length chain]; [rewrite Hc, u64_small; lia|]. split_and!; [done| |].
    + unfold size_. cbn. rewrite Hm1 by lia. done.
    + unfold next_. cbn. by rewrite Hm1p.
  - constructor; [|done]. unfold small_fits. cbn. by rewrite Z2Nat.id by lia.
  - by constructor.
  - done.
  - intros x. rewrite cons_page_ext, !owned_cons. lia.
Qed.

Lemma large_pages_ok b sh held i ps : buddy_inv b sh held -> sh_large sh !! i = Some ps -> Forall page_ok ps.
Proof.
  intros Hb Hps. pose proof (bi_pages _ _ _ Hb) as HP. unfold free_pages in HP. apply Forall_app in HP as [_ HP].
  destruct (concat_lookup_perm _ _ _ [] Hps) as (rest & H1 & _). rewrite H1 in HP. by apply Forall_app in HP as [HP _].
Qed.

Lemma emplace_large_ok b sh held i p s :
  buddy_inv b sh (page_extent (p, s) :: held) -> 0 <= i < kMaxLargePages -> page_ok (p, s) ->
  size_ (mem_ b) p = Z.lor s kFreeMask ->
  exists sh', buddy_inv (emplace_large b i p) sh' held /\ same_inside held (mem_ b) (mem_ (emplace_large b i p)).
Proof.
  intros Hb Hi Hp Hs. unfold emplace_large, EmplaceToList, slist_emplace. cbn [fst snd].
  set (m1 := set_next (set_next (mem_ b) p kNull) p (first_ (large_list b i))).
  assert (forall x, x <> p -> m1 x = mem_ b x) as Hm1.
  { intros x Hx. unfold m1, set_next, wr. by rewrite !(proj2 (Z.eqb_neq _ _) Hx). }
  assert (m1 p = first_ (large_list b i)) as Hm1p by (unfold m1, set_next, wr; by rewrite Z.eqb_refl).
  destruct (inv_write b sh _ held m1 Hb) as [Hb1 Hin].
  { intros x Hx. apply Hm1. intros ->. apply Hx. apply page_extent_in; [done|cbn; lia]. }
  destruct (large_lookup _ _ _ _ Hb1 Hi) as (ps & Hps & [Hc Hch] & Hlen).
  change (large_list (set_mem b m1) i) with (large_list b i) in *. change (mem_ (set_mem b m1)) with m1 in *.
  pose proof (bi_held _ _ _ Hb1) as Hheld. inversion Hheld as [|? ? _ Hheld']; subst.
  pose proof (large_pages_ok _ _ _ _ _ Hb1 Hps) as Hok.
  eexists. split; [|exact Hin]. apply (large_replace _ _ _ held i _ _ ((p, s) :: ps) Hb1 Hi Hps).
  - split; cbn [count_ first_ length chain]; [rewrite Hc, u64_small; lia|]. split_and!; [done| |].
    + unfold size_. cbn. rewrite Hm1 by lia. done.
    + unfold next_. cbn. by rewrite Hm1p.
  - by constructor.
  - done.
  - intros x. rewrite cons_page_ext, !owned_cons. lia.
Qed.

Lemma file_page_ok b sh held p s :
  buddy_inv b sh (page_extent (p, s) :: held) -> page_ok (p, s) -> size_ (mem_ b) p = Z.lor s kFreeMask ->
  exists sh', buddy_inv (file_page b p s) sh' held /\ same_inside held (mem_ b) (mem_ (file_page b p s)).
Proof.
  intros Hb Hp Hs. pose proof (page_size_bound _ _ _ _ _ Hb Hp) as (_ & Hsz & _). unfold file_page.
  destruct (Z.leb_spec s kSmallThreshold).
  - destruct (small_class_free s ltac:(lia)) as [Hi Hfit]. by apply (emplace_small_ok b sh held _ p s).
  - apply (emplace_large_ok b sh held _ p s); try done. apply large_class. lia.
Qed.

(** Turning an extent into a page. *)
Lemma make_page_ok b sh held a n :
  buddy_inv b sh ((a, n) :: held) -> 0 < a -> sizeof_PageT + kMinSize <= n ->
  page_ok (a, n - sizeof_PageT) /\ page_extent (a, n - sizeof_PageT) = (a, n) /\
  let m := MarkFree (set_size (mem_ b) a (n - sizeof_PageT)) a in
  buddy_inv (set_mem b m) sh ((a, n) :: held) /\ same_inside held (mem_ b) m /\
  size_ m a = Z.lor (n - sizeof_PageT) kFreeMask.
Proof.
  intros Hb Ha Hn. assert (page_extent (a, n - sizeof_PageT) = (a, n)) as He by (unfold page_extent; cbn; f_equal; lia).
  pose proof (bi_held _ _ _ Hb) as Hheld. inversion Hheld as [|? ? He0 _]; subst.
  split_and!; [|done|].
  - split_and!; [done|cbn; unfold sizeof_PageT in *; lia|]. by rewrite He.
  - cbv zeta. set (m := MarkFree _ _).
    assert (size_ m a = Z.lor (n - sizeof_PageT) kFreeMask) as Hs.
    { unfold m, MarkFree, size_, set_size, wr. by rewrite !Z.eqb_refl. }
    destruct (inv_write b sh (a, n) held m Hb) as [H1 H2]; [|done].
    intros x Hx. cbn in Hx. unfold m, MarkFree, set_size, wr. unfold sizeof_PageT, kMinSize in Hn.
    rewrite !(proj2 (Z.eqb_neq x (a + 8))) by lia. done.
Qed.

Lemma AddRemainder_ok b sh held a n :
  buddy_inv b sh ((a, n) :: held) -> 0 < a ->
  exists sh', buddy_inv (AddRemainderToFreeList b a n) sh' held /\
    same_inside held (mem_ b) (mem_ (AddRemainderToFreeList b a n)).
Proof.
  intros Hb Ha. unfold AddRemainderToFreeList. destruct (Z.ltb_spec n (sizeof_PageT + kMinSize)).
  - exists sh. split; [|done]. pose proof (bi_held _ _ _ Hb) as Hheld. inversion Hheld; subst.
    apply (inv_held _ _ ((a, n) :: held)); [done..|]. intros x. rewrite owned_cons. destruct (covers x (a, n)); cbn; lia.
  - destruct (make_page_ok b sh held a n Hb Ha ltac:(lia)) as (Hp & He & Hb1 & Hin & Hs).
    rewrite <- He in Hb1. destruct (file_page_ok _ sh held _ _ Hb1 Hp Hs) as (sh' & Hb2 & Hin2).
    exists sh'. split; [done|]. by eapply same_inside_trans.
Qed.

(** ** The heaps *)

Lemma BumpHeap_Allocate_ok h size : heap_ok h -> hi <= 2 ^ 62 -> 0 < size <= 2 ^ 63 -> (8 | size) ->
  exists off h', BumpHeap_Allocate h size = (off, h') /\ heap_ok h' /\
    ((off = 0 /\ h' = h /\ max_offset_ h < heap_ h + size) \/
     (0 < off /\ off = heap_ h /\ h' = mkBumpHeap (off + size) (max_offset_ h) /\ off + size <= max_offset_ h /\ extent_ok (off, size))).
Proof.
  intros Hh Hhi Hsz Hd. pose proof Hh as (H0 & Hm & Ha). unfold BumpHeap_Allocate. rewrite (u64_small (heap_ h + size)) by lia.
  destruct (Z.ltb_spec (max_offset_ h) (heap_ h + size)) as [Hlt|Hge].
  - eexists _, _. split; [done|]. split; [done|]. left. split_and!; [done|done|lia].
  - destruct (Ha ltac:(lia)) as (Hp & Hlo & Hal & Hal'). cbn [max_offset_ heap_]. rewrite (proj2 (Z.ltb_ge _ _)) by lia.
    eexists _, _. split; [done|]. split.
    + split_and!; cbn; [lia|lia|lia|]. intros _. split_and!; [lia|lia| |done].
      replace (heap_ h + size - lo) with (heap_ h - lo + size) by lia. by apply Z.divide_add_r.
    + right. split_and!; [lia|done|done|lia|]. split; cbn; [lia|]. intros _. split_and!; [lia|lia|done|done].
Qed.

Lemma covers_heap_split x off size m : 0 <= size -> off + size <= m ->
  Z.b2z (covers x (off, size)) + Z.b2z (covers x (heap_extent (mkBumpHeap (off + size) m))) <= Z.b2z (covers x (off, m - off)).
Proof. intros Hs Hm. apply (covers_split x off (m - off) size (m - (off + size))); lia. Qed.

Lemma small_arena_alloc b sh held size :
  buddy_inv b sh held -> 0 < size <= 2 ^ 63 -> (8 | size) ->
  exists off h', BumpHeap_Allocate (small_arena_ b) size = (off, h') /\
    ((off = 0 /\ buddy_inv (set_small_arena b h') sh held) \/
     (0 < off /\ buddy_inv (set_small_arena b h') sh ((off, size) :: held))).
Proof.
  intros Hb Hsz Hd. destruct (bi_heaps _ _ _ Hb) as [Hs Hbig]. destruct (bi_range _ _ _ Hb) as [_ Hhi].
  destruct (BumpHeap_Allocate_ok (small_arena_ b) size Hs Hhi Hsz Hd) as (off & h' & -> & Hh' & Hor).
  eexists _, _. split; [done|]. destruct Hor as [(-> & -> & _)|(Hp & -> & -> & Hle & He)].
  - left. split; [done|]. by destruct b.
  - right. split; [done|]. destruct Hb as [B1 B2 B3 B4 B5 B6 B7 B8 B9 B10]. split; try done; [by constructor|].
    intros x. specialize (B10 x). rewrite owned_extents in B10. rewrite owned_extents, owned_cons.
    change (big_heap_ (set_small_arena _ _)) with (big_heap_ b). cbn [small_arena_ set_small_arena].
    pose proof (covers_heap_split x (heap_ (small_arena_ b)) size (max_offset_ (small_arena_ b)) ltac:(lia) Hle).
    unfold heap_extent in *. cbn [heap_ max_offset_] in *. lia.
Qed.

Lemma big_heap_alloc b sh held size :
  buddy_inv b sh held -> 0 < size <= 2 ^ 63 -> (8 | size) ->
  exists off h', BumpHeap_Allocate (big_heap_ b) size = (off, h') /\
    ((off = 0 /\ buddy_inv (set_big b h') sh held) \/
     (0 < off /\ buddy_inv (set_big b h') sh ((off, size) :: held))).
Proof.
  intros Hb Hsz Hd. destruct (bi_heaps _ _ _ Hb) as [Hs Hbig]. destruct (bi_range _ _ _ Hb) as [_ Hhi].
  destruct (BumpHeap_Allocate_ok (big_heap_ b) size Hbig Hhi Hsz Hd) as (off & h' & -> & Hh' & Hor).
  eexists _, _. split; [done|]. destruct Hor as [(-> & -> & _)|(Hp & -> & -> & Hle & He)].
  - left. split; [done|]. by destruct b.
  - right. split; [done|]. destruct Hb as [B1 B2 B3 B4 B5 B6 B7 B8 B9 B10]. split; try done; [by constructor|].
    intros x. specialize (B10 x). rewrite owned_extents in B10. rewrite owned_extents, owned_cons.
    change (small_arena_ (set_big _ _)) with (small_arena_ b). cbn [big_heap_ set_big].
    pose proof (covers_heap_split x (heap_ (big_heap_ b)) size (max_offset_ (big_heap_ b)) ltac:(lia) Hle).
    unfold heap_extent in *. cbn [heap_ max_offset_] in *. lia.
Qed.

(** The rest of a heap goes to the holder. *)
Lemma covers_empty_heap x e : Z.b2z (covers x (heap_extent (mkBumpHeap e e))) = 0.
Proof. unfold covers, heap_extent. cbn. destruct (Z.leb_spec e x), (Z.ltb_spec x (e + (e - e))); cbn; lia. Qed.

Lemma empty_heap_ok e : 0 <= e <= hi -> heap_ok (mkBumpHeap e e).
Proof. intros He. split_and!; cbn; lia. Qed.

Lemma take_small_arena b sh held e :
  buddy_inv b sh held -> 0 <= e <= hi ->
  buddy_inv (set_small_arena b (mkBumpHeap e e)) sh (heap_extent (small_arena_ b) :: held).
Proof.
  intros [B1 B2 B3 B4 B5 B6 B7 B8 B9 B10] He. split; try done.
  - split; [by apply empty_heap_ok|apply B7].
  - constructor; [apply heap_extent_ok, B7|done].
  - intros x. specialize (B10 x). rewrite owned_extents in B10. rewrite owned_extents, owned_cons.
    change (big_heap_ (set_small_arena _ _)) with (big_heap_ b). cbn [small_arena_ set_small_arena].
    rewrite covers_empty_heap. lia.
Qed.

Lemma take_big_heap b sh held e :
  buddy_inv b sh held -> 0 <= e <= hi ->
  buddy_inv (set_big b (mkBumpHeap e e)) sh (heap_extent (big_heap_ b) :: held).
Proof.
  intros [B1 B2 B3 B4 B5 B6 B7 B8 B9 B10] He. split; try done.
  - split; [apply B7|by apply empty_heap_ok].
  - constructor; [apply heap_extent_ok, B7|done].
  - intros x. specialize (B10 x). rewrite owned_extents in B10. rewrite owned_extents, owned_cons.
    change (small_arena_ (set_big _ _)) with (small_arena_ b). cbn [big_heap_ set_big].
    rewrite covers_empty_heap. lia.
Qed.

(** An extent becomes the small arena, whose rest was empty, or the big heap. *)
Lemma give_small_arena b sh held a n :
  buddy_inv b sh ((a, n) :: held) -> 0 < a -> 0 < n -> heap_ (small_arena_ b) = max_offset_ (small_arena_ b) ->
  buddy_inv (set_small_arena b (mkBumpHeap a (a + n))) sh held.
Proof.
  intros [B1 B2 B3 B4 B5 B6 B7 B8 B9 B10] Ha Hn Hempty. inversion B9 as [|? ? He B9']; subst.
  pose proof (extent_ok_pos _ He Hn) as (H1 & H2 & H3 & H4). cbn in *. split; try done.
  - split; [|apply B7]. split_and!; cbn; [lia|lia|lia|]. intros _. split_and!; [lia|lia|done|].
    replace (a + n - lo) with (a - lo + n) by lia. by apply Z.divide_add_r.
  - intros x. specialize (B10 x). rewrite owned_extents, owned_cons in B10. rewrite owned_extents.
    change (big_heap_ (set_small_arena _ _)) with (big_heap_ b). cbn [small_arena_ set_small_arena].
    unfold heap_extent in *. cbn [heap_ max_offset_]. replace (a + n - a) with n by lia.
    destruct (covers x (heap_ (small_arena_ b), max_offset_ (small_arena_ b) - heap_ (small_arena_ b))); cbn [Z.b2z] in B10; lia.
Qed.

Lemma give_big_heap b sh held a n :
  buddy_inv b sh ((a, n) :: held) -> 0 < a -> 0 < n -> heap_ (big_heap_ b) = max_offset_ (big_heap_ b) ->
  buddy_inv (set_big b (mkBumpHeap a (a + n))) sh held.
Proof.
  intros [B1 B2 B3 B4 B5 B6 B7 B8 B9 B10] Ha Hn Hempty. inversion B9 as [|? ? He B9']; subst.
  pose proof (extent_ok_pos _ He Hn) as (H1 & H2 & H3 & H4). cbn in *. split; try done.
  - split; [apply B7|]. split_and!; cbn; [lia|lia|lia|]. intros _. split_and!; [lia|lia|done|].
    replace (a + n - lo) with (a - lo + n) by lia. by apply Z.divide_add_r.
  - intros x. specialize (B10 x). rewrite owned_extents, owned_cons in B10. rewrite owned_extents.
    change (small_arena_ (set_big _ _)) with (small_arena_ b). cbn [big_heap_ set_big].
    unfold heap_extent in *. cbn [heap_ max_offset_]. replace (a + n - a) with n by lia.
    destruct (covers x (heap_ (big_heap_ b), max_offset_ (big_heap_ b) - heap_ (big_heap_ b))); cbn [Z.b2z] in B10; lia.
Qed.

(** ** Dividing a rest into pages *)

Lemma divide_class_ok fuel : forall b sh held off rem i,
  buddy_inv b sh ((off, rem) :: held) -> 0 <= i < kMaxSmallPages -> 0 < off -> (Z.to_nat rem < fuel)%nat ->
  exists off' rem' b' sh', divide_class fuel i off rem b = Some (off', rem', b') /\
    buddy_inv b' sh' ((off', rem') :: held) /\ 0 < off' /\ rem' <= rem /\ same_inside held (mem_ b) (mem_ b').
Proof.
  induction fuel as [|fuel IH]; intros b sh held off rem i Hb Hi Hoff Hf; [lia|]. cbn [divide_class].
  rewrite Z.shiftl_mul_pow2, Z.mul_1_l by (unfold kMinLog2; lia). set (d := 2 ^ (i + kMinLog2)).
  assert (kMinSize <= d <= kSmallThreshold) as Hd.
  { unfold d, kMinSize, kSmallThreshold, kMaxSmallPages, kSmallLog2, kMinLog2 in *. change 32 with (2 ^ 5). change 16384 with (2 ^ 14).
    split; apply Z.pow_le_mono_r; lia. }
  assert ((8 | d)) as H8.
  { unfold d, kMinLog2. replace (i + 5) with (3 + (i + 2)) by lia. rewrite Z.pow_add_r by lia. apply Z.divide_factor_l. }
  pose proof (bi_held _ _ _ Hb) as Hheld. inversion Hheld as [|? ? He Hheld']; subst. destruct (bi_range _ _ _ Hb) as [Hlo Hhi].
  destruct (Z.leb_spec (d + sizeof_PageT) rem) as [Hle|Hgt].
  - unfold kMinSize, kSmallThreshold, sizeof_PageT in *.
    destruct (extent_ok_pos _ He ltac:(cbn; lia)) as (H1 & H2 & H3 & H4). cbn [fst snd] in *.
    assert (extent_ok (off, d + 16)) as He1.
    { split; cbn; [lia|]. intros _. split_and!; [lia|lia|done|]. apply Z.divide_add_r; [done|]. by exists 2. }
    assert (extent_ok (off + (d + 16), rem - (d + 16))) as He2.
    { assert ((8 | d + 16)) by (apply Z.divide_add_r; [done|]; by exists 2).
      split; cbn; [lia|]. intros _. split_and!; [lia|lia| |by apply Z.divide_sub_r].
      replace (off + (d + 16) - lo) with (off - lo + (d + 16)) by lia. by apply Z.divide_add_r. }
    assert (buddy_inv b sh ((off, d + 16) :: (off + (d + 16), rem - (d + 16)) :: held)) as Hb1.
    { apply (inv_held _ _ _ _ Hb); [constructor; [done|by constructor]|]. intros x. rewrite !owned_cons.
      pose proof (covers_split x off rem (d + 16) (rem - (d + 16)) ltac:(lia) ltac:(lia) ltac:(lia)). lia. }
    destruct (make_page_ok _ _ _ _ _ Hb1 Hoff ltac:(unfold sizeof_PageT, kMinSize; lia)) as (Hp & Hpe & Hb2 & Hin2 & Hs2).
    unfold sizeof_PageT in *. replace (d + 16 - 16) with d in * by lia. rewrite <- Hpe in Hb2.
    set (m := MarkFree (set_size (mem_ b) off d) off) in *.
    destruct (emplace_small_ok _ _ _ i off d Hb2 Hi Hp ltac:(unfold d; lia) Hs2) as (sh3 & Hb3 & Hin3).
    rewrite u64_small by lia.
    destruct (IH _ _ _ _ _ i Hb3 Hi ltac:(lia) ltac:(lia)) as (off' & rem' & b' & sh' & -> & Hb' & Ho' & Hr' & Hin').
    exists off', rem', b', sh'. split_and!; [done|done|done|lia|].
    apply (same_inside_trans _ _ (mem_ (emplace_small (set_mem b m) i off))); [|done].
    apply (same_inside_weaken _ ((off + (d + 16), rem - (d + 16)) :: held)).
    + intros x. rewrite owned_cons. destruct (covers x _); cbn; lia.
    + by eapply same_inside_trans.
  - by exists off, rem, b, sh.
Qed.

Lemma divide_from_ok n : forall b sh held off rem,
  buddy_inv b sh ((off, rem) :: held) -> (n <= Z.to_nat kMaxSmallPages)%nat -> 0 < off ->
  exists b' sh', divide_from n off rem b = Some b' /\ buddy_inv b' sh' held /\ same_inside held (mem_ b) (mem_ b').
Proof.
  induction n as [|n IH]; intros b sh held off rem Hb Hn Hoff; cbn [divide_from].
  - exists b, sh. split; [done|]. split; [|done]. pose proof (bi_held _ _ _ Hb) as Hheld. inversion Hheld; subst.
    apply (inv_held _ _ _ _ Hb); [done|]. intros x. rewrite owned_cons. destruct (covers x (off, rem)); cbn; lia.
  - destruct (divide_class_ok (S (Z.to_nat rem)) b sh held off rem (Z.of_nat n) Hb ltac:(lia) Hoff ltac:(lia))
      as (off' & rem' & b1 & sh1 & -> & Hb1 & Ho1 & _ & Hin1). cbn [mbind option_bind].
    destruct (IH b1 sh1 held off' rem' Hb1 ltac:(lia) Ho1) as (b2 & sh2 & -> & Hb2 & Hin2).
    exists b2, sh2. split_and!; [done|done|by eapply same_inside_trans].
Qed.

(** Dividing touches the lists and the memory only. *)
Lemma divide_class_commutes (f : BuddyAllocator -> BuddyAllocator) fuel :
  (forall b i p, emplace_small (f b) i p = f (emplace_small b i p)) -> (forall b m, set_mem (f b) m = f (set_mem b m)) ->
  (forall b, mem_ (f b) = mem_ b) ->
  forall b i off rem, divide_class fuel i off rem (f b) = '(o, r, b) ← divide_class fuel i off rem b; Some (o, r, f b).
Proof.
  intros H1 H2 H3. induction fuel as [|fuel IH]; intros b i off rem; cbn [divide_class]; [done|].
  case_match; [|done]. by rewrite H3, H2, H1, IH.
Qed.

Lemma divide_from_commutes (f : BuddyAllocator -> BuddyAllocator) n :
  (forall b i p, emplace_small (f b) i p = f (emplace_small b i p)) -> (forall b m, set_mem (f b) m = f (set_mem b m)) ->
  (forall b, mem_ (f b) = mem_ b) ->
  forall b off rem, divide_from n off rem (f b) = b ← divide_from n off rem b; Some (f b).
Proof.
  intros H1 H2 H3. induction n as [|n IH]; intros b off rem; cbn [divide_from]; [done|].
  rewrite (divide_class_commutes f) by done. destruct (divide_class _ _ _ _ b) as [[[o r] b1]|]; [|done]. cbn. by rewrite IH.
Qed.

Lemma Divide_small_arena_ok b sh held :
  buddy_inv b sh held ->
  exists h b' sh', DivideArenaIntoPages (small_arena_ b) b = Some (h, b') /\ buddy_inv (set_small_arena b' h) sh' held /\
    same_inside held (mem_ b) (mem_ b') /\ heap_ h = max_offset_ h.
Proof.
  intros Hb. destruct (bi_heaps _ _ _ Hb) as [(H0 & Hm & Ha) _]. destruct (bi_range _ _ _ Hb) as [Hlo Hhi].
  unfold DivideArenaIntoPages. rewrite u64_small by lia.
  destruct (Z.eqb_spec (max_offset_ (small_arena_ b) - heap_ (small_arena_ b)) 0) as [Hz|Hnz].
  - exists (small_arena_ b), b, sh. split_and!; [done| |done|lia]. by destruct b.
  - set (e := max_offset_ (small_arena_ b)). destruct (Ha ltac:(lia)) as (Hp & _).
    pose proof (take_small_arena b sh held e Hb ltac:(unfold e; lia)) as Hb1.
    destruct (divide_from_ok (Z.to_nat kMaxSmallPages) _ sh held _ _ Hb1 ltac:(lia) Hp) as (b' & sh' & HD & Hb' & Hin).
    rewrite (divide_from_commutes (fun b => set_small_arena b (mkBumpHeap e e))) in HD by done.
    fold e. destruct (divide_from _ _ _ b) as [b2|]; [|done]. cbn in HD |- *. injection HD as <-.
    eexists _, _, sh'. split; [done|]. split_and!; done.
Qed.

Lemma Divide_big_heap_ok b sh held :
  buddy_inv b sh held ->
  exists h b' sh', DivideArenaIntoPages (big_heap_ b) b = Some (h, b') /\ buddy_inv (set_big b' h) sh' held /\
    same_inside held (mem_ b) (mem_ b') /\ heap_ h = max_offset_ h.
Proof.
  intros Hb. destruct (bi_heaps _ _ _ Hb) as [_ (H0 & Hm & Ha)]. destruct (bi_range _ _ _ Hb) as [Hlo Hhi].
  unfold DivideArenaIntoPages. rewrite u64_small by lia.
  destruct (Z.eqb_spec (max_offset_ (big_heap_ b) - heap_ (big_heap_ b)) 0) as [Hz|Hnz].
  - exists (big_heap_ b), b, sh. split_and!; [done| |done|lia]. by destruct b.
  - set (e := max_offset_ (big_heap_ b)). destruct (Ha ltac:(lia)) as (Hp & _).
    pose proof (take_big_heap b sh held e Hb ltac:(unfold e; lia)) as Hb1.
    destruct (divide_from_ok (Z.to_nat kMaxSmallPages) _ sh held _ _ Hb1 ltac:(lia) Hp) as (b' & sh' & HD & Hb' & Hin).
    rewrite (divide_from_commutes (fun b => set_big b (mkBumpHeap e e))) in HD by done.
    fold e. destruct (divide_from _ _ _ b) as [b2|]; [|done]. cbn in HD |- *. injection HD as <-.
    eexists _, _, sh'. split; [done|]. split_and!; done.
Qed.

(** ** The search for a large page *)

(** Headers of two pages of one list do not overlap. *)
Lemma headers_apart l1 p l2 q :
  (forall x, owned x (page_extent <$> (l1 ++ p :: l2)) <= 1) -> Forall page_ok (l1 ++ p :: l2) -> q ∈ l1 ++ l2 ->
  fst q <> fst p /\ fst q + 8 <> fst p.
Proof.
  intros Ho Hok Hq. rewrite Forall_forall in Hok.
  assert (page_ok p) as Hp by (apply Hok, elem_of_app; right; by left).
  assert (page_ok q) as Hqok by (apply Hok, elem_of_app; apply elem_of_app in Hq as [|]; [by left|right; by right]).
  assert (owned (fst p) (page_extent <$> (l1 ++ l2)) <= 0) as Hx.
  { pose proof (Ho (fst p)) as Hx. rewrite fmap_app, cons_page_ext, owned_app, owned_cons in Hx.
    rewrite (proj2 (covers_spec _ _) (page_extent_in p (fst p) Hp ltac:(lia))) in Hx. rewrite fmap_app, owned_app. cbn in Hx. lia. }
  assert (forall k, 0 <= k < 16 -> fst q + k <> fst p) as Hk.
  { intros k Hk Heq. pose proof (owned_in (fst p) (page_extent q) (page_extent <$> (l1 ++ l2)) ltac:(by apply list_elem_of_fmap_2)) as H1.
    pose proof (page_extent_in q (fst p) Hqok ltac:(lia)). specialize (H1 ltac:(done)). lia. }
  split; [rewrite <- (Z.add_0_r (fst q))|]; apply Hk; lia.
Qed.

(** Unlinking the page after [prev]. *)
Lemma chain_unlink m prev sp p s l2 : forall l1 h,
  chain m h (l1 ++ (prev, sp) :: (p, s) :: l2) ->
  (forall q, q ∈ l1 ++ (p, s) :: l2 -> fst q <> prev /\ fst q + 8 <> prev) ->
  chain (set_next m prev (next_ m p)) h (l1 ++ (prev, sp) :: l2).
Proof.
  assert (forall x, x <> prev -> set_next m prev (next_ m p) x = m x) as Hne.
  { intros x Hx. unfold set_next, wr. by rewrite (proj2 (Z.eqb_neq _ _) Hx). }
  assert (set_next m prev (next_ m p) prev = next_ m p) as Heq by (unfold set_next, wr; by rewrite Z.eqb_refl).
  induction l1 as [|[q t] l1 IH]; intros h Hch Hap; cbn [app chain] in *.
  - destruct Hch as (-> & Hs & Hp & Hs2 & Hch). split_and!; [done|unfold size_ in *; by rewrite Hne by lia|].
    change (next_ (set_next m prev (next_ m p)) prev) with (set_next m prev (next_ m p) prev). rewrite Heq.
    eapply chain_frame; [|exact Hch]. intros q Hq. destruct (Hap q ltac:(by right)). split; apply Hne; done.
  - destruct Hch as (-> & Hs & Hch). destruct (Hap (q, t) ltac:(by left)) as [A1 A2]. cbn in A1, A2.
    split_and!; [done|unfold size_ in *; by rewrite Hne|]. change (next_ (set_next m prev (next_ m p)) q) with (set_next m prev (next_ m p) q).
    rewrite Hne by done. apply IH; [done|]. intros q' Hq'. apply Hap. by right.
Qed.

(** A list of pages that may be searched. *)
Record searchable (m : memory) (l : slist) (pages : list page) : Prop := {
  se_ok : slist_ok m l pages;
  se_pages : Forall page_ok pages;
  se_range : Forall (fun p => 0 < fst p < 2 ^ 62 /\ snd p < 2 ^ 62) pages;
  se_len : Z.of_nat (length pages) <= 2 ^ 62;
  se_own : forall x, owned x (page_extent <$> pages) <= 1 }.

Lemma PopAt_ok m l before p s after :
  searchable m l (before ++ (p, s) :: after) ->
  let prev := match last before with Some q => fst q | None => kNull end in
  exists m' l', slist_PopAt m l prev p = (m', l') /\ slist_ok m' l' (before ++ after) /\ size_ m' p = size_ m p /\
    forall x, m' x <> m x -> exists q, q ∈ before /\ x = fst q.
Proof.
  intros [[Hc Hch] Hok Hr Hlen Ho]. cbv zeta. unfold slist_PopAt.
  rewrite !Forall_app, Forall_cons in Hr. destruct Hr as (Hr1 & [Hp _] & _). cbn in Hp.
  rewrite (proj2 (Z.eqb_neq p kNull)) by (unfold kNull; lia).
  rewrite length_app in Hc, Hlen. cbn [length] in Hc, Hlen. rewrite (proj2 (Z.eqb_neq (count_ l) 0)) by lia. cbn [orb].
  destruct before as [|[prev sp] before _] using rev_ind.
  - rewrite Z.eqb_refl. cbn in Hch. destruct Hch as (_ & Hs & Hch). eexists _, _. split; [done|].
    split_and!; [|done|done]. split; [|done]. cbn [count_ app length] in *. rewrite Hc, u64_small; lia.
  - rewrite last_snoc. cbn [fst]. apply Forall_app in Hr1 as [_ Hr1]. inversion Hr1 as [|? ? [Hpr _] _]; subst. cbn in Hpr.
    rewrite (proj2 (Z.eqb_neq prev kNull)) by (unfold kNull; lia). rewrite <- app_assoc in *. cbn [app] in *.
    assert (forall q, q ∈ before ++ (p, s) :: after -> fst q <> prev /\ fst q + 8 <> prev) as Hap.
    { intros q Hq. by apply (headers_apart before (prev, sp) ((p, s) :: after) q). }
    eexists _, _. split; [done|]. split_and!.
    + split; [|by apply (chain_unlink _ _ _ _ s)]. cbn [count_].
      rewrite !length_app in *. cbn [length] in *. rewrite Hc, u64_small; lia.
    + destruct (Hap (p, s)) as [A1 A2]; [apply elem_of_app; right; by left|]. cbn in A1, A2.
      unfold size_, set_next, wr. by rewrite (proj2 (Z.eqb_neq _ _) A2).
    + intros x Hx. exists (prev, sp). split; [apply elem_of_app; right; by left|]. cbn.
      unfold set_next, wr in Hx. by destruct (Z.eqb_spec x prev).
Qed.

Lemma find_fit_ok fuel m l req pages : forall before rest cur,
  searchable m l pages -> pages = before ++ rest -> chain m cur rest -> (length rest < fuel)%nat ->
  let prev := match last before with Some q => fst q | None => kNull end in
  exists off m' l', find_fit fuel m l prev cur req = Some (off, m', l') /\
    ((off = 0 /\ m' = m /\ l' = l) \/
     exists a s c, pages = a ++ (off, s) :: c /\ req <= s + 16 /\ slist_ok m' l' (a ++ c) /\ size_ m' off = Z.lor s kFreeMask /\
       forall x, m' x <> m x -> exists q, q ∈ pages /\ x = fst q).
Proof.
  induction fuel as [|fuel IH]; intros before rest cur Hse -> Hch Hf; [lia|]. cbv zeta. cbn [find_fit].
  destruct rest as [|[p s] rest]; cbn [chain] in Hch.
  - subst cur. rewrite Z.eqb_refl. eexists _, _, _. split; [done|by left].
  - destruct Hch as (-> & Hs & Hch). pose proof (se_range _ _ _ Hse) as Hr. rewrite Forall_app, Forall_cons in Hr.
    destruct Hr as (_ & [Hp Hsz] & _). cbn in Hp, Hsz. rewrite (proj2 (Z.eqb_neq p kNull)) by (unfold kNull; lia).
    assert (0 <= s) as Hs0.
    { pose proof (se_pages _ _ _ Hse) as Hok. rewrite Forall_app, Forall_cons in Hok. destruct Hok as (_ & (_ & Hm & _) & _).
      unfold kMinSize in Hm. cbn in Hm. lia. }
    unfold GetSize. rewrite Hs, MarkFree_size, u64_small by (unfold sizeof_PageT; lia).
    destruct (Z.leb_spec req (s + sizeof_PageT)) as [Hle|Hgt].
    + destruct (PopAt_ok m l before p s rest Hse) as (m' & l' & -> & Hok' & Hsz' & Hm'). eexists _, _, _. split; [done|].
      right. exists before, s, rest. split_and!; [done|done|done|by rewrite Hsz'|].
      intros x Hx. destruct (Hm' x Hx) as (q & Hq & ->). exists q. split; [apply elem_of_app; by left|done].
    + destruct (Z.eqb_spec (next_ m p) kNull) as [Hn|Hn]; [eexists _, _, _; split; [done|by left]|].
      cbn [length] in Hf. pose proof (IH (before ++ [(p, s)]) rest (next_ m p) Hse ltac:(by rewrite <- app_assoc) Hch ltac:(lia)) as HI.
      cbv zeta in HI. rewrite last_snoc in HI. exact HI.
Qed.

Lemma set_large_twice b m i l l' : set_large (set_mem (set_large b i l) m) i l' = set_large (set_mem b m) i l'.
Proof. unfold set_large. cbn. by rewrite list_insert_insert_eq. Qed.

Lemma FindFirstFit_ok b sh held i req :
  buddy_inv b sh held -> 0 <= i < kMaxLargePages ->
  exists off b' sh', FindFirstFit b i req = Some (off, b') /\ same_inside held (mem_ b) (mem_ b') /\
    ((off = 0 /\ buddy_inv b' sh' held) \/
     exists s, off <> 0 /\ page_ok (off, s) /\ req <= s + 16 /\ size_ (mem_ b') off = Z.lor s kFreeMask /\
       buddy_inv b' sh' (page_extent (off, s) :: held)).
Proof.
  intros Hb Hi. destruct (large_lookup _ _ _ _ Hb Hi) as (ps & Hps & Hsl & Hlen). pose proof (large_pages_ok _ _ _ _ _ Hb Hps) as Hok.
  unfold FindFirstFit, slist_empty. destruct (Z.eqb_spec (count_ (large_list b i)) 0) as [Hz|Hz].
  { exists 0, b, sh. split_and!; [done|done|by left]. }
  assert (exists rest, concat (sh_large sh) ≡ₚ ps ++ rest) as [rest Hperm].
  { destruct (concat_lookup_perm _ _ _ [] Hps) as (rest & H1 & _). by exists rest. }
  assert (searchable (mem_ b) (large_list b i) ps) as Hse.
  { split; [done|done| |done|].
    - rewrite Forall_forall in *. intros [p s] Hq. pose proof (page_size_bound _ _ _ _ _ Hb (Hok _ Hq)). cbn. lia.
    - intros x. pose proof (bi_own _ _ _ Hb x) as Ho. rewrite owned_extents, (owned_perm _ _ _ _ _ Hperm) in Ho.
      pose proof (owned_nonneg x (page_extent <$> rest)). pose proof (owned_nonneg x (page_extent <$> concat (sh_small sh))).
      pose proof (owned_nonneg x ((fun r => (r, sizeof_PageT)) <$> sh_regions sh)). pose proof (owned_nonneg x held).
      destruct (covers x (heap_extent (small_arena_ b))), (covers x (heap_extent (big_heap_ b))); cbn [Z.b2z] in Ho; lia. }
  destruct (find_fit_ok (S (Z.to_nat (count_ (large_list b i)))) (mem_ b) (large_list b i) req ps [] ps (first_ (large_list b i)) Hse)
    as (off & m' & l' & HF & Hor); [done|apply Hsl|rewrite (proj1 Hsl); lia|]. cbn [last] in HF. rewrite HF. cbn [mbind option_bind].
  pose proof (bi_held _ _ _ Hb) as Hheld.
  destruct Hor as [(-> & -> & ->)|(a & s & c & -> & Hreq & Hsl' & Hs & Hm')].
  - eexists _, _, _. split; [done|]. split; [done|]. left. split; [done|].
    apply (large_replace (set_mem b (mem_ b)) sh held held i _ ps ps); [by destruct b|done..].
  - assert (page_ok (off, s)) as Hp by (rewrite Forall_app, Forall_cons in Hok; tauto).
    destruct (page_size_bound _ _ _ _ _ Hb Hp) as [Hoff _].
    (* the list's pages are held while one of them is unlinked *)
    assert (buddy_inv (set_large b i slist_Init) (mkShape (sh_small sh) (<[Z.to_nat i := []]> (sh_large sh)) (sh_regions sh))
              ((page_extent <$> (a ++ (off, s) :: c)) ++ held)) as Hb1.
    { apply (large_replace b sh held _ i _ (a ++ (off, s) :: c) []); try done.
      - apply Forall_app. split; [|done]. apply Forall_fmap. eapply Forall_impl; [exact Hok|]. intros q (_ & _ & ?). done.
      - intros x. rewrite owned_app. change (owned x (page_extent <$> [])) with 0. lia. }
    assert (same_outside ((page_extent <$> (a ++ (off, s) :: c)) ++ held) (mem_ b) m' /\ same_inside held (mem_ b) m') as [Ho Hin].
    { assert (forall x, m' x <> mem_ b x -> 1 <= owned x (page_extent <$> (a ++ (off, s) :: c))) as Hown.
      { intros x Hx. destruct (Hm' x Hx) as (q & Hq & ->). apply (owned_in _ (page_extent q)); [by apply list_elem_of_fmap_2|].
        apply page_extent_in; [|lia]. rewrite Forall_forall in Hok. by apply Hok. }
      split; intros x Hx; destruct (Z.eq_dec (m' x) (mem_ b x)) as [|Hne]; try done; specialize (Hown x Hne); exfalso.
      - rewrite owned_app in Hx. pose proof (owned_nonneg x held). lia.
      - pose proof (bi_own _ _ _ Hb1 x) as Hx1. rewrite owned_extents, owned_app in Hx1.
        pose proof (owned_nonneg x (page_extent <$> concat (sh_small sh))).
        pose proof (owned_nonneg x (page_extent <$> concat (<[Z.to_nat i:=[]]> (sh_large sh)))).
        pose proof (owned_nonneg x ((fun r => (r, sizeof_PageT)) <$> sh_regions sh)). cbn [sh_small sh_large sh_regions] in Hx1.
        destruct (covers x (heap_extent (small_arena_ (set_large b i slist_Init)))),
          (covers x (heap_extent (big_heap_ (set_large b i slist_Init)))); cbn [Z.b2z] in Hx1; lia. }
    pose proof (inv_set_mem _ _ _ m' Hb1 Ho) as Hb2.
    eexists _, _, _. split; [done|]. split; [done|]. right. exists s. split_and!; [lia|done|done|done|].
    rewrite <- (set_large_twice b m' i slist_Init l').
    apply (large_replace _ _ _ (page_extent (off, s) :: held) i l' [] (a ++ c) Hb2 Hi).
    + cbn. apply list_lookup_insert_eq. by eapply lookup_lt_Some.
    + done.
    + rewrite Forall_app, Forall_cons in Hok. apply Forall_app. tauto.
    + constructor; [apply Hp|done].
    + intros x. rewrite !fmap_app, cons_page_ext, !owned_app, !owned_cons. change (owned x (page_extent <$> [])) with 0. lia.
Qed.

Lemma first_fit_from_ok n : forall b sh held i req,
  buddy_inv b sh held -> 0 <= i -> i + Z.of_nat n = kMaxLargePages ->
  exists off b' sh', first_fit_from n i req b = Some (off, b') /\ same_inside held (mem_ b) (mem_ b') /\
    ((off = 0 /\ buddy_inv b' sh' held) \/
     exists s, off <> 0 /\ page_ok (off, s) /\ req <= s + 16 /\ size_ (mem_ b') off = Z.lor s kFreeMask /\
       buddy_inv b' sh' (page_extent (off, s) :: held)).
Proof.
  induction n as [|n IH]; intros b sh held i req Hb Hi Hn; cbn [first_fit_from].
  - exists 0, b, sh. split_and!; [done..|]. by left.
  - destruct (FindFirstFit_ok b sh held i req Hb ltac:(lia)) as (off & b1 & sh1 & -> & Hin1 & Hor). cbn [mbind option_bind].
    destruct Hor as [[-> Hb1]|(s & Hne & Hrest)].
    + change (negb (0 =? 0)) with false. cbv iota.
      destruct (IH _ _ _ (i + 1) req Hb1 ltac:(lia) ltac:(lia)) as (off & b2 & sh2 & -> & Hin2 & Hor).
      exists off, b2, sh2. split_and!; [done|by eapply same_inside_trans|done].
    + rewrite (proj2 (Z.eqb_neq off 0) Hne). cbn [negb]. eexists _, _, _. split; [done|]. split; [done|]. right. by exists s.
Qed.

Lemma FindFirstFit_arenas b i req off b' :
  FindFirstFit b i req = Some (off, b') -> small_arena_ b' = small_arena_ b /\ cur_arena_ b' = cur_arena_ b.
Proof.
  unfold FindFirstFit. destruct (slist_empty _); [by intros [= _ <-]|].
  destruct (find_fit _ _ _ _ _ _) as [[[o m] l]|]; [|done]. cbn. by intros [= _ <-].
Qed.

Lemma first_fit_from_arenas n : forall i req b off b',
  first_fit_from n i req b = Some (off, b') -> small_arena_ b' = small_arena_ b /\ cur_arena_ b' = cur_arena_ b.
Proof.
  induction n as [|n IH]; intros i req b off b'; cbn [first_fit_from]; [by intros [= _ <-]|].
  destruct (FindFirstFit b i req) as [[o b1]|] eqn:E; [|done]. cbn [mbind option_bind].
  destruct (FindFirstFit_arenas _ _ _ _ _ E) as [<- <-]. case_match; [by intros [= _ <-]|]. apply IH.
Qed.

(** An extent cut in two. *)
Lemma inv_cut b sh held a n k :
  buddy_inv b sh ((a, n) :: held) -> 0 < k <= n -> (8 | k) -> buddy_inv b sh ((a, k) :: (a + k, n - k) :: held).
Proof.
  intros Hb Hk H8. pose proof (bi_held _ _ _ Hb) as Hheld. inversion Hheld as [|? ? He Hheld']; subst.
  destruct (extent_ok_pos _ He ltac:(cbn; lia)) as (H1 & H2 & H3 & H4). cbn [fst snd] in *.
  apply (inv_held _ _ _ _ Hb).
  - constructor; [|constructor; [|done]].
    + split; cbn; [lia|]. intros _. split_and!; done || lia.
    + split; cbn; [lia|]. intros _. split_and!; [lia|lia| |by apply Z.divide_sub_r].
      replace (a + k - lo) with (a - lo + k) by lia. by apply Z.divide_add_r.
  - intros x. rewrite !owned_cons. pose proof (covers_split x a n k (n - k) ltac:(lia) ltac:(lia) ltac:(lia)). lia.
Qed.

Lemma inv_drop b sh held e : buddy_inv b sh (e :: held) -> buddy_inv b sh held.
Proof.
  intros Hb. pose proof (bi_held _ _ _ Hb) as Hheld. inversion Hheld; subst.
  apply (inv_held _ _ _ _ Hb); [done|]. intros x. rewrite owned_cons. destruct (covers x e); cbn; lia.
Qed.

Lemma held_bound b sh held a n : buddy_inv b sh ((a, n) :: held) -> 0 < n -> a + n <= 2 ^ 62.
Proof.
  intros Hb Hn. pose proof (bi_held _ _ _ Hb) as Hheld. inversion Hheld as [|? ? He _]; subst.
  destruct (extent_ok_pos _ He Hn) as (_ & H2 & _). destruct (bi_range _ _ _ Hb). cbn in *. lia.
Qed.

(** The small arena gets new space, or nothing is lost. *)
Lemma Repopulate_ok b sh held :
  buddy_inv b sh held ->
  exists ok b' sh', RepopulateSmallArena b = Some (ok, b') /\ buddy_inv b' sh' held /\ same_inside held (mem_ b) (mem_ b').
Proof.
  intros Hb. unfold RepopulateSmallArena. change (kSmallArenaSize + kSmallArenaPages * sizeof_PageT) with 67584.
  destruct (Divide_small_arena_ok _ _ _ Hb) as (h & b1 & sh1 & -> & Hb1 & Hin1 & Hempty). cbn [mbind option_bind].
  destruct (big_heap_alloc _ _ _ 67584 Hb1 ltac:(lia) ltac:(by exists 8448)) as (off & big & Hal & Hor).
  change (big_heap_ (set_small_arena b1 h)) with (big_heap_ b1) in *. rewrite Hal.
  destruct Hor as [[-> Hb2]|[Hp Hb2]].
  - change (negb (0 =? 0)) with false. cbv iota.
    destruct (first_fit_from_ok (Z.to_nat kMaxLargePages) _ _ _ 0 67584 Hb2 ltac:(lia) ltac:(done))
      as (off & b3 & sh3 & HF & Hin3 & Hor). rewrite HF. cbn [mbind option_bind].
    destruct (first_fit_from_arenas _ _ _ _ _ _ HF) as [Ha3 _]. change (mem_ (set_big (set_small_arena b1 h) big)) with (mem_ b1) in Hin3.
    pose proof (same_inside_trans _ _ _ _ Hin1 Hin3) as Hin.
    destruct Hor as [[-> Hb3]|(s & Hne & Hpg & Hreq & Hs & Hb3)].
    + change (0 =? 0) with true. cbv iota. by eexists _, _, _.
    + rewrite (proj2 (Z.eqb_neq off 0) Hne). destruct (page_size_bound _ _ _ _ _ Hb3 Hpg) as (Hoff & Hsz & Hend).
      unfold GetSize. rewrite Hs, MarkFree_size by lia. unfold sizeof_PageT. rewrite !u64_small by lia.
      change (page_extent (off, s)) with (off, 16 + s) in Hb3.
      pose proof (inv_cut _ _ _ _ _ 67584 Hb3 ltac:(lia) ltac:(by exists 8448)) as Hb4.
      pose proof (give_small_arena _ _ _ _ _ Hb4 ltac:(lia) ltac:(lia) ltac:(by rewrite Ha3)) as Hb5.
      replace (16 + s - 67584) with (s + 16 - 67584) in Hb5 by lia. set (b5 := set_small_arena b3 _) in *.
      case_match.
      * destruct (AddRemainder_ok _ _ _ _ _ Hb5 ltac:(lia)) as (sh6 & Hb6 & Hin6).
        eexists _, _, _. split; [done|]. split; [done|]. by eapply same_inside_trans.
      * eexists _, _, _. split; [done|]. split; [by eapply inv_drop|done].
  - rewrite (proj2 (Z.eqb_neq off 0)) by lia. cbn [negb]. pose proof (held_bound _ _ _ _ _ Hb2 ltac:(lia)).
    rewrite u64_small by lia. eexists _, _, _. split; [done|]. split; [|done].
    apply (give_small_arena _ _ held off 67584 Hb2 Hp ltac:(lia)). done.
Qed.

(** ** Allocation *)

(** Null and the caller's memory as it was, or a page of at least [size] bytes. *)
Definition allocated (b : BuddyAllocator) (held : list extent) (size : Z) (res : Z * BuddyAllocator) : Prop :=
  let '(r, b') := res in
  same_inside held (mem_ b) (mem_ b') /\ cur_arena_ b' = cur_arena_ b /\
  ((r = kNull /\ exists sh', buddy_inv b' sh' held) \/
   exists p s sh', r = p + sizeof_PageT /\ page_ok (p, s) /\ size <= s /\ size_ (mem_ b') p = s /\
     buddy_inv b' sh' (page_extent (p, s) :: held)).

Lemma Finalize_ok b0 b sh held p s size :
  buddy_inv b sh (page_extent (p, s) :: held) -> page_ok (p, s) -> size <= s ->
  same_inside held (mem_ b0) (mem_ b) -> cur_arena_ b = cur_arena_ b0 ->
  allocated b0 held size (FinalizeAllocation b p s).
Proof.
  intros Hb Hp Hs Hin Hcur. destruct (page_size_bound _ _ _ _ _ Hb Hp) as (Hpb & Hsb & Hend).
  unfold FinalizeAllocation, allocated. set (m := MarkAllocated _ _).
  assert (size_ m p = s) as Hm.
  { unfold m, MarkAllocated, size_, set_size, wr. rewrite !Z.eqb_refl. apply unmarked_size. lia. }
  destruct (inv_write b sh _ held m Hb) as [Hb1 Hin1].
  { intros x Hx. unfold m, MarkAllocated, size_, set_size, wr. unfold page_extent, sizeof_PageT in Hx. cbn in Hx.
    by rewrite !(proj2 (Z.eqb_neq x (p + 8))) by lia. }
  split_and!; [by eapply same_inside_trans|done|]. right. exists p, s, sh. split_and!; try done.
  apply u64_small. unfold sizeof_PageT. lia.
Qed.

(** The page made of what a heap gave. *)
Lemma heap_page_ok b sh held off size :
  buddy_inv b sh ((off, size + sizeof_PageT) :: held) -> 0 < off -> kMinSize <= size ->
  page_ok (off, size) /\ buddy_inv b sh (page_extent (off, size) :: held).
Proof.
  intros Hb Hoff Hs. pose proof (bi_held _ _ _ Hb) as Hheld. inversion Hheld as [|? ? He _]; subst.
  assert (page_extent (off, size) = (off, size + sizeof_PageT)) as HE by (unfold page_extent; cbn; f_equal; lia).
  unfold page_ok. rewrite HE. done.
Qed.

(** The current arena is the business of the outermost operations only. *)
Lemma AddRemainder_arena b a n : cur_arena_ (AddRemainderToFreeList b a n) = cur_arena_ b.
Proof. unfold AddRemainderToFreeList, file_page. by repeat case_match. Qed.

Lemma divide_class_arena fuel : forall i off rem b o r b',
  divide_class fuel i off rem b = Some (o, r, b') -> cur_arena_ b' = cur_arena_ b.
Proof.
  induction fuel as [|fuel IH]; intros i off rem b o r b'; cbn [divide_class]; [done|].
  case_match; [|by intros [= _ _ <-]]. intros HD. by rewrite (IH _ _ _ _ _ _ _ HD).
Qed.

Lemma divide_from_arena n : forall off rem b b', divide_from n off rem b = Some b' -> cur_arena_ b' = cur_arena_ b.
Proof.
  induction n as [|n IH]; intros off rem b b'; cbn [divide_from]; [by intros [= <-]|].
  destruct (divide_class _ _ _ _ b) as [[[o r] b1]|] eqn:E; [|done]. cbn [mbind option_bind].
  intros HD. by rewrite (IH _ _ _ _ HD), (divide_class_arena _ _ _ _ _ _ _ _ E).
Qed.

Lemma Divide_arena h b h' b' : DivideArenaIntoPages h b = Some (h', b') -> cur_arena_ b' = cur_arena_ b.
Proof.
  unfold DivideArenaIntoPages. case_match; [by intros [= _ <-]|].
  destruct (divide_from _ _ _ b) as [b1|] eqn:E; [|done]. cbn. intros [= _ <-]. by eapply divide_from_arena.
Qed.

Lemma Repopulate_arena b ok b' : RepopulateSmallArena b = Some (ok, b') -> cur_arena_ b' = cur_arena_ b.
Proof.
  unfold RepopulateSmallArena. destruct (DivideArenaIntoPages _ b) as [[h b1]|] eqn:E; [|done]. cbn [mbind option_bind].
  rewrite <- (Divide_arena _ _ _ _ E). destruct (BumpHeap_Allocate _ _) as [off big]. case_match; [by intros [= _ <-]|].
  destruct (first_fit_from _ _ _ _) as [[o b2]|] eqn:E2; [|done]. cbn [mbind option_bind].
  destruct (first_fit_from_arenas _ _ _ _ _ _ E2) as [_ Hc]. case_match; intros [= _ <-]; [done|].
  case_match; [by rewrite AddRemainder_arena|done].
Qed.

Lemma pop_small_from_arena n : forall i b, cur_arena_ (snd (pop_small_from n i b)) = cur_arena_ b.
Proof.
  induction n as [|n IH]; intros i b; cbn [pop_small_from]; [done|].
  destruct (PopFromList _ _) as [off l]. case_match; [done|]. by rewrite IH.
Qed.

(** The last resort of both sizes. *)
Definition from_big_heap (b : BuddyAllocator) (total_size size : Z) : option (Z * BuddyAllocator) :=
  let '(heap_offset, big) := BumpHeap_Allocate (big_heap_ b) total_size in
  let b := set_big b big in
  if negb (heap_offset =? 0) then Some (FinalizeAllocation b heap_offset size) else Some (kNull, b).

Lemma from_big_heap_ok b0 b sh held sz size :
  buddy_inv b sh held -> kMinSize <= sz <= 2 ^ 62 -> size <= sz -> (8 | sz) ->
  same_inside held (mem_ b0) (mem_ b) -> cur_arena_ b = cur_arena_ b0 ->
  exists res, from_big_heap b (sz + sizeof_PageT) sz = Some res /\ allocated b0 held size res.
Proof.
  intros Hb Hsz Hle H8 Hin Hc. unfold from_big_heap.
  destruct (big_heap_alloc _ _ _ (sz + sizeof_PageT) Hb ltac:(unfold kMinSize, sizeof_PageT in *; lia)) as (o & hb & -> & Hor).
  { apply Z.divide_add_r; [done|by exists 2]. }
  destruct Hor as [[-> Hb5]|[Hoff Hb5]].
  - change (negb (0 =? 0)) with false. cbv iota. eexists. split; [done|]. split_and!; [done|done|]. left. split; [done|by exists sh].
  - rewrite (proj2 (Z.eqb_neq o 0)) by lia. cbn [negb]. destruct (heap_page_ok _ _ _ _ _ Hb5 Hoff ltac:(lia)) as [Hpg Hb6].
    eexists. split; [done|]. by apply (Finalize_ok b0 _ sh).
Qed.

(** A page of the small lists, or what comes [next]. *)
Lemma pop_small_then b0 b sh held i size next :
  buddy_inv b sh held -> 0 <= i < kMaxSmallPages -> size <= 2 ^ (i + kMinLog2) ->
  same_inside held (mem_ b0) (mem_ b) -> cur_arena_ b = cur_arena_ b0 ->
  (forall b1 sh1, buddy_inv b1 sh1 held -> same_inside held (mem_ b0) (mem_ b1) -> cur_arena_ b1 = cur_arena_ b0 ->
     exists res, next b1 = Some res /\ allocated b0 held size res) ->
  let '(off, b1) := pop_small_from (Z.to_nat (kMaxSmallPages - i)) i b in
  exists res, (if negb (off =? 0) then Some (FinalizeAllocation b1 off (GetSize (mem_ b1) off)) else next b1) = Some res /\
    allocated b0 held size res.
Proof.
  intros Hb Hi Hsize Hin Hc Hnext.
  destruct (pop_small_from_ok (Z.to_nat (kMaxSmallPages - i)) b sh held i Hb ltac:(lia) ltac:(lia)) as (off & b1 & sh1 & HP & Hm & Hor).
  pose proof (pop_small_from_arena (Z.to_nat (kMaxSmallPages - i)) i b) as Hc1. rewrite HP in *. cbn [snd] in Hc1.
  destruct Hor as [[-> Hb1]|(s & Hne & Hpg & Hfit & Hs & Hb1)].
  - change (negb (0 =? 0)) with false. cbv iota. apply (Hnext b1 sh1 Hb1); [by rewrite Hm|by rewrite Hc1].
  - rewrite (proj2 (Z.eqb_neq off 0) Hne). cbn [negb]. destruct (page_size_bound _ _ _ _ _ Hb1 Hpg) as (_ & Hsb & _).
    unfold GetSize. rewrite Hm, Hs, MarkFree_size by lia. eexists. split; [done|].
    apply (Finalize_ok b0 b1 sh1); [done|done|lia|by rewrite Hm|by rewrite Hc1].
Qed.

Lemma AllocateSmall_ok b sh held size :
  buddy_inv b sh held -> kMinSize <= size <= kSmallThreshold ->
  exists res, AllocateSmall b size = Some res /\ allocated b held size res.
Proof.
  intros Hb Hsz. unfold AllocateSmall. pose proof (small_class_alloc size Hsz) as HC.
  destruct (GetSmallPageListIndexForAlloc size) as [i sz]. destruct HC as (Hi & Hszi & Hle).
  assert (kMinSize <= sz <= kSmallThreshold) as Hszb.
  { unfold kMinSize, kSmallThreshold, kMaxSmallPages, kSmallLog2, kMinLog2 in *. split; [lia|]. subst sz.
    change 16384 with (2 ^ 14). apply Z.pow_le_mono_r; lia. }
  assert ((8 | sz)) as H8.
  { subst sz. unfold kMinLog2. replace (i + 5) with (3 + (i + 2)) by lia. rewrite Z.pow_add_r by lia. apply Z.divide_factor_l. }
  unfold kSmallThreshold in Hszb. rewrite u64_small by (unfold kMinSize, sizeof_PageT in *; lia).
  pose proof (pop_small_then b b sh held i size) as HP.
  match goal with |- exists res, (let '(off, b) := ?p in if negb (off =? 0) then _ else @?next b) = _ /\ _ => specialize (HP next) end.
  specialize (HP Hb Hi ltac:(lia) (same_inside_refl _ _) eq_refl).
  cbv beta in HP. destruct (pop_small_from _ i b) as [off b1]. apply HP. clear HP off b1.
  intros b1 sh1 Hb1 Hin1 Hc1.
  destruct (small_arena_alloc _ _ _ (sz + sizeof_PageT) Hb1 ltac:(unfold kMinSize, sizeof_PageT in *; lia)) as (off & h & -> & Hor).
  { apply Z.divide_add_r; [done|by exists 2]. }
  destruct Hor as [[-> Hb2]|[Hoff Hb2]].
  2: { rewrite (proj2 (Z.eqb_neq off 0)) by lia. cbn [negb]. destruct (heap_page_ok _ _ _ _ _ Hb2 Hoff ltac:(lia)) as [Hpg Hb3].
       eexists. split; [done|]. by apply (Finalize_ok b _ sh1). }
  change (negb (0 =? 0)) with false. cbv iota.
  destruct (Repopulate_ok _ _ _ Hb2) as (ok & b3 & sh3 & HR & Hb3 & Hin3). pose proof (Repopulate_arena _ _ _ HR) as Hc3.
  rewrite HR. cbn [mbind option_bind].
  assert (same_inside held (mem_ b) (mem_ b3)) as Hin3' by (by eapply same_inside_trans).
  assert (forall b4 sh4, buddy_inv b4 sh4 held -> same_inside held (mem_ b) (mem_ b4) -> cur_arena_ b4 = cur_arena_ b ->
    exists res, from_big_heap b4 (sz + sizeof_PageT) sz = Some res /\ allocated b held size res) as Hnext.
  { intros b4 sh4 Hb4 Hin4 Hc4. apply (from_big_heap_ok b b4 sh4); done || lia. }
  destruct ok.
  - pose proof (pop_small_then b b3 sh3 held i size _ Hb3 Hi ltac:(lia) Hin3' ltac:(by rewrite Hc3) Hnext) as HP.
    by destruct (pop_small_from _ i b3).
  - change (negb (0 =? 0)) with false. cbv iota. apply (Hnext b3 sh3 Hb3 Hin3'). by rewrite Hc3.
Qed.

Lemma AllocateLarge_ok b sh held size :
  buddy_inv b sh held -> kMinSize <= size <= 2 ^ 62 -> (8 | size) ->
  exists res, AllocateLarge b size = Some res /\ allocated b held size res.
Proof.
  intros Hb Hsz H8. unfold AllocateLarge. unfold kMinSize in Hsz. rewrite u64_small by (unfold sizeof_PageT; lia).
  pose proof (large_class size ltac:(lia)) as Hi.
  destruct (first_fit_from_ok (Z.to_nat (kMaxLargePages - GetLargePageListIndexForAlloc size)) b sh held
    (GetLargePageListIndexForAlloc size) (size + sizeof_PageT) Hb ltac:(lia) ltac:(lia)) as (off & b1 & sh1 & HF & Hin1 & Hor).
  destruct (first_fit_from_arenas _ _ _ _ _ _ HF) as [_ Hc1]. rewrite HF. cbn [mbind option_bind].
  destruct Hor as [[-> Hb1]|(s & Hne & Hpg & Hreq & Hs & Hb1)].
  { change (negb (0 =? 0)) with false. cbv iota. apply (from_big_heap_ok b b1 sh1); done || lia. }
  rewrite (proj2 (Z.eqb_neq off 0) Hne). cbn [negb]. destruct (page_size_bound _ _ _ _ _ Hb1 Hpg) as (Hoff & Hsb & Hend).
  unfold sizeof_PageT in *. unfold GetSize. rewrite Hs, MarkFree_size, !u64_small by lia.
  destruct (_ && _) eqn:Hsplit.
  - apply andb_prop in Hsplit as [Hlt Hrem]. apply Z.ltb_lt in Hlt. apply Z.leb_le in Hrem.
    change (page_extent (off, s)) with (off, 16 + s) in Hb1.
    pose proof (inv_cut _ _ _ _ _ (size + 16) Hb1 ltac:(lia) ltac:(apply Z.divide_add_r; [done|by exists 2])) as Hb2.
    pose proof (bi_held _ _ _ Hb2) as Hh2. inversion Hh2 as [|? ? E1 Hh2']; subst. inversion Hh2' as [|? ? E2 Hh2'']; subst.
    assert (buddy_inv b1 sh1 ((off + (size + 16), s + 16 - (size + 16)) :: (off, size + 16) :: held)) as Hb3.
    { replace (s + 16) with (16 + s) by lia. apply (inv_held _ _ _ _ Hb2); [by constructor; [|constructor]|].
      intros x. rewrite !owned_cons. lia. }
    destruct (AddRemainder_ok _ _ _ _ _ Hb3 ltac:(lia)) as (sh4 & Hb4 & Hin4).
    destruct (heap_page_ok _ _ _ _ _ Hb4 ltac:(lia) ltac:(unfold kMinSize; lia)) as [Hpg4 Hb5].
    eexists. split; [done|]. apply (Finalize_ok b _ sh4); [done|done|lia| |by rewrite AddRemainder_arena].
    apply (same_inside_trans _ _ (mem_ b1)); [done|]. apply (same_inside_weaken _ ((off, size + 16) :: held)); [|done].
    intros x. rewrite owned_cons. destruct (covers x _); cbn; lia.
  - eexists. split; [done|]. apply (Finalize_ok b b1 sh1); done || lia.
Qed.

(** Outside an arena every request is served by the pages. *)
Lemma AllocateOffset_ok b sh held size :
  buddy_inv b sh held -> IsActive (cur_arena_ b) = false -> 0 <= size <= 2 ^ 61 ->
  exists res, AllocateOffset b size = Some res /\ allocated b held size res.
Proof.
  intros Hb Ha Hsz. unfold AllocateOffset. rewrite Ha. cbn [andb].
  set (n := if size <? kMinSize then kMinSize else size).
  assert (kMinSize <= n /\ size <= n <= 2 ^ 61) as [Hn1 Hn2].
  { unfold n, kMinSize. destruct (Z.ltb_spec size 32); lia. }
  unfold kMinSize in Hn1. destruct (round8_spec n ltac:(lia)) as (q & -> & Hq).
  assert (forall res, allocated b held (8 * q) res -> allocated b held size res) as Hweak.
  { intros [r b'] (H1 & H2 & H3). split_and!; [done|done|]. destruct H3 as [|(p & s & sh' & -> & Hp & Hs & Hz & Hb')]; [by left|right].
    exists p, s, sh'. split_and!; try done. lia. }
  destruct (Z.leb_spec (8 * q) kSmallThreshold).
  - destruct (AllocateSmall_ok b sh held (8 * q) Hb ltac:(unfold kMinSize; lia)) as (res & -> & Hres). eauto.
  - destruct (AllocateLarge_ok b sh held (8 * q) Hb ltac:(unfold kMinSize; lia) ltac:(apply Z.divide_factor_l)) as (res & -> & Hres). eauto.
Qed.

(** ** Freeing *)

Lemma Free_ok b sh held p s :
  buddy_inv b sh (page_extent (p, s) :: held) -> page_ok (p, s) -> size_ (mem_ b) p = s -> IsActive (cur_arena_ b) = false ->
  exists sh', buddy_inv (FreeOffset b (p + sizeof_PageT)) sh' held /\
    same_inside held (mem_ b) (mem_ (FreeOffset b (p + sizeof_PageT))) /\
    cur_arena_ (FreeOffset b (p + sizeof_PageT)) = cur_arena_ b.
Proof.
  intros Hb Hp Hs Ha. destruct (page_size_bound _ _ _ _ _ Hb Hp) as (Hpb & Hsb & Hend).
  unfold FreeOffset, FreeOffsetNoNullCheck. rewrite Ha. cbn [andb].
  rewrite (proj2 (Z.eqb_neq _ kNull)) by (unfold kNull, sizeof_PageT; lia).
  replace (u64 (p + sizeof_PageT - sizeof_PageT)) with p by (rewrite u64_small; lia).
  unfold GetSize. rewrite Hs, unmarked_size by lia.
  destruct (inv_write b sh _ held (MarkFree (mem_ b) p) Hb) as [Hb1 Hin1].
  { intros x Hx. unfold MarkFree, set_size, wr. unfold page_extent, sizeof_PageT in Hx. cbn in Hx.
    by rewrite (proj2 (Z.eqb_neq x (p + 8))) by lia. }
  assert (size_ (MarkFree (mem_ b) p) p = Z.lor s kFreeMask) as Hm.
  { unfold MarkFree, size_ at 1, set_size, wr. by rewrite Z.eqb_refl, Hs. }
  destruct (file_page_ok _ _ _ _ _ Hb1 Hp Hm) as (sh' & Hb2 & Hin2). exists sh'. split_and!; [done| |].
  - by eapply same_inside_trans.
  - unfold file_page. by case_match.
Qed.

Lemma inv_perm b sh held held' : held ≡ₚ held' -> buddy_inv b sh held -> buddy_inv b sh held'.
Proof.
  intros Hp Hb. apply (inv_held _ _ _ _ Hb); [rewrite <- Hp; apply (bi_held _ _ _ Hb)|].
  intros x. by rewrite (owned_Permutation x _ _ Hp).
Qed.

(** What one holds stays readable: the header of a live page. *)
Lemma same_inside_page held m m' p s k :
  same_inside held m m' -> page_extent (p, s) ∈ held -> 0 <= k < 16 + s -> m' (p + k) = m (p + k).
Proof.
  intros Hin Hp Hk. apply Hin. pose proof (owned_in (p + k) _ _ Hp) as H1. unfold page_extent, sizeof_PageT in H1. cbn in H1. lia.
Qed.

(** The contents of a block move with it. *)
Lemma Reallocate_ok b sh held p s new_size :
  buddy_inv b sh (page_extent (p, s) :: held) -> page_ok (p, s) -> size_ (mem_ b) p = s -> IsActive (cur_arena_ b) = false ->
  0 <= new_size <= 2 ^ 61 ->
  exists r b' sh', ReallocateOffset b (p + sizeof_PageT) new_size = Some (r, b') /\ IsActive (cur_arena_ b') = false /\
    same_inside held (mem_ b) (mem_ b') /\
    ((r = kNull /\ buddy_inv b' sh' (page_extent (p, s) :: held) /\ size_ (mem_ b') p = s /\ s < new_size /\
      forall k, 0 <= k < s -> mem_ b' (p + 16 + k) = mem_ b (p + 16 + k)) \/
     exists p' s', r = p' + sizeof_PageT /\ page_ok (p', s') /\ size_ (mem_ b') p' = s' /\ new_size <= s' /\
       buddy_inv b' sh' (page_extent (p', s') :: held) /\
       forall k, 0 <= k < Z.min s new_size -> mem_ b' (r + k) = mem_ b (p + sizeof_PageT + k)).
Proof.
  intros Hb Hp Hs Ha Hsz. destruct (page_size_bound _ _ _ _ _ Hb Hp) as (Hpb & Hsb & Hend).
  unfold ReallocateOffset. rewrite (proj2 (Z.eqb_neq _ kNull)) by (unfold kNull, sizeof_PageT; lia).
  replace (u64 (p + sizeof_PageT - sizeof_PageT)) with p by (rewrite u64_small; lia).
  unfold GetSize. rewrite Hs, unmarked_size by lia. unfold sizeof_PageT.
  destruct (Z.leb_spec new_size s) as [Hle|Hgt].
  { eexists _, _, sh. split; [done|]. split_and!; [done|done|]. right. by exists p, s. }
  destruct (AllocateOffset_ok b sh _ new_size Hb Ha Hsz) as ([r b1] & -> & Hin1 & Hc1 & Hor). cbn [mbind option_bind].
  assert (page_extent (p, s) ∈ page_extent (p, s) :: held) as Hpin by (by left).
  assert (size_ (mem_ b1) p = s) as Hs1 by (rewrite <- Hs; unfold size_; by apply (same_inside_page _ _ _ p s _ Hin1 Hpin); lia).
  assert (forall hs e, same_inside (e :: hs) (mem_ b) (mem_ b1) -> same_inside hs (mem_ b) (mem_ b1)) as Htl.
  { intros hs e. apply same_inside_weaken. intros x. rewrite owned_cons. destruct (covers x e); cbn; lia. }
  destruct Hor as [[-> [sh1 Hb1]]|(p2 & s2 & sh1 & -> & Hp2 & Hle2 & Hs2 & Hb1)].
  { rewrite Z.eqb_refl. eexists _, _, _. split; [done|]. split_and!; [by rewrite Hc1|by eapply Htl|]. left.
    split_and!; [done|exact Hb1|done|done|]. intros k Hk.
    rewrite <- Z.add_assoc. apply (same_inside_page _ _ _ p s _ Hin1 Hpin). lia. }
  destruct (page_size_bound _ _ _ _ _ Hb1 Hp2) as (Hpb2 & Hsb2 & Hend2). unfold sizeof_PageT.
  rewrite (proj2 (Z.eqb_neq _ kNull)) by (unfold kNull; lia). set (m2 := copy_words _ _ _ _).
  destruct (inv_write b1 sh1 _ _ m2 Hb1) as [Hb2 Hin2].
  { intros x Hx. unfold m2, copy_words. unfold page_extent, sizeof_PageT in Hx. cbn in Hx.
    destruct (Z.leb_spec (p2 + 16) x), (Z.ltb_spec x (p2 + 16 + s)); cbn; try done. lia. }
  assert (size_ m2 p2 = s2) as Hm2.
  { unfold m2, copy_words, size_. rewrite (proj2 (Z.leb_gt _ _)) by lia. exact Hs2. }
  pose proof (inv_perm _ _ _ _ (Permutation_swap _ _ _) Hb2) as Hb3.
  assert (size_ (mem_ (set_mem b1 m2)) p = s) as Hs3.
  { rewrite <- Hs1. unfold size_. by apply (same_inside_page _ _ _ p s _ Hin2 Hpin); lia. }
  destruct (Free_ok _ _ _ p s Hb3 Hp Hs3 ltac:(by cbn; rewrite Hc1)) as (sh4 & Hb4 & Hin4 & Hc4).
  set (b4 := FreeOffset _ _) in *. exists (p2 + 16), b4, sh4. split; [done|].
  assert (page_extent (p2, s2) ∈ page_extent (p2, s2) :: held) as Hpin2 by (by left).
  split_and!; [by rewrite Hc4; cbn; rewrite Hc1|by eapply same_inside_trans; [by eapply Htl|eapply same_inside_trans;
    [eapply same_inside_weaken, Hin2|eapply same_inside_weaken, Hin4]; intros x; rewrite owned_cons; destruct (covers x _); cbn; lia]|].
  right. exists p2, s2. split_and!; [done|done| |done|exact Hb4|].
  - rewrite <- Hm2. unfold size_. by apply (same_inside_page _ _ _ p2 s2 _ Hin4 Hpin2); lia.
  - intros k Hk. rewrite <- Z.add_assoc. rewrite (same_inside_page _ _ _ p2 s2 _ Hin4 Hpin2) by lia. cbn [mem_ set_mem].
    unfold m2, copy_words. rewrite (proj2 (Z.leb_le _ _)), (proj2 (Z.ltb_lt _ _)) by lia. cbn [andb].
    replace (p2 + (16 + k) - (p2 + 16) + (p + 16)) with (p + (16 + k)) by lia.
    rewrite <- Z.add_assoc. apply (same_inside_page _ _ _ p s _ Hin1 Hpin). lia.
Qed.

(** ** Regions *)

(** A held extent becomes a region's header, which is never given out. *)
Lemma inv_region b sh held r l :
  buddy_inv b sh ((r, sizeof_PageT) :: held) ->
  buddy_inv (mkBuddy (big_heap_ b) (small_arena_ b) (small_pages_ b) (large_pages_ b) l (cur_arena_ b) (mem_ b))
    (mkShape (sh_small sh) (sh_large sh) (r :: sh_regions sh)) held.
Proof.
  intros [B1 B2 B3 B4 B5 B6 B7 B8 B9 B10]. inversion B9 as [|? ? He B9']; subst. split; try done; [by constructor|].
  intros x. specialize (B10 x). rewrite owned_extents, owned_cons in B10. rewrite owned_extents.
  cbn [sh_small sh_large sh_regions]. rewrite fmap_cons, owned_cons. cbn [small_arena_ big_heap_]. lia.
Qed.

Lemma Expand_ok b sh held region size :
  buddy_inv b sh ((region, size) :: held) -> 0 <= region -> sizeof_PageT < size ->
  exists b' sh', Expand b region size = Some b' /\ buddy_inv b' sh' held /\ same_inside held (mem_ b) (mem_ b') /\
    cur_arena_ b' = cur_arena_ b.
Proof.
  intros Hb Hr Hsz. pose proof (held_bound _ _ _ _ _ Hb ltac:(unfold sizeof_PageT in *; lia)) as Hend. unfold sizeof_PageT in Hsz.
  unfold Expand. rewrite (proj2 (Z.eqb_neq region kNull)) by (unfold kNull; lia). rewrite (proj2 (Z.eqb_neq size 0)) by lia. cbn [orb].
  rewrite (proj2 (Z.leb_gt size sizeof_PageT)) by (unfold sizeof_PageT; lia). unfold EmplaceToList, slist_emplace.
  set (m := set_next _ _ _).
  pose proof (inv_cut _ _ _ _ _ 16 Hb ltac:(lia) ltac:(by exists 2)) as Hb1.
  destruct (inv_write _ _ _ _ m Hb1) as [Hb2 Hin2].
  { intros x Hx. cbn in Hx. unfold m, set_next, set_size, wr.
    rewrite !(proj2 (Z.eqb_neq x region)), !(proj2 (Z.eqb_neq x (region + 8))) by lia. done. }
  apply (inv_region _ _ _ _ (mkSlist (u64 (count_ (regions_ b) + 1)) region)) in Hb2. cbn in Hb2.
  set (b2 := mkBuddy _ _ _ _ _ _ _) in *.
  destruct (Divide_big_heap_ok _ _ _ Hb2) as (h & b3 & sh3 & HD & Hb3 & Hin3 & Hempty). rewrite HD. cbn [mbind option_bind]. unfold sizeof_PageT. rewrite !u64_small by (rewrite ?u64_small; lia).
  pose proof (give_big_heap _ _ _ _ _ Hb3 ltac:(lia) ltac:(lia) Hempty) as Hb4.
  exists (set_big b3 (mkBumpHeap (region + 16) (region + 16 + (size - 16)))), sh3. split_and!; [done|exact Hb4| |].
  - apply (same_inside_weaken _ ((region + 16, size - 16) :: held)).
    + intros x. rewrite owned_cons. destruct (covers x _); cbn; lia.
    + exact (same_inside_trans _ _ _ _ Hin2 Hin3).
  - cbn. by rewrite (Divide_arena _ _ _ _ HD).
Qed.

Definition empty_buddy (m : memory) : BuddyAllocator :=
  mkBuddy (mkBumpHeap 0 0) (mkBumpHeap 0 0) (replicate (Z.to_nat kMaxSmallPages) slist_Init)
    (replicate (Z.to_nat kMaxLargePages) slist_Init) slist_Init no_arena m.

Lemma empty_buddy_inv m held :
  0 <= lo -> 0 <= hi <= 2 ^ 62 -> Forall extent_ok held -> (forall x, owned x held <= 1) ->
  buddy_inv (empty_buddy m) (mkShape (replicate (Z.to_nat kMaxSmallPages) []) (replicate (Z.to_nat kMaxLargePages) []) []) held.
Proof.
  intros Hlo Hhi Hheld Hown. split; try done.
  - lia.
  - apply Forall2_replicate. by split.
  - apply Forall2_replicate. by split.
  - intros i l Hl. cbn [sh_small] in Hl. by apply lookup_replicate in Hl as [-> _].
  - split; apply (empty_heap_ok 0); lia.
  - intros x. rewrite owned_extents. cbn [sh_small sh_large sh_regions]. specialize (Hown x).
    change (owned x (page_extent <$> concat (replicate _ []))) with 0.
    change (small_arena_ (empty_buddy m)) with (mkBumpHeap 0 0). change (big_heap_ (empty_buddy m)) with (mkBumpHeap 0 0).
    rewrite covers_empty_heap. change (owned x (_ <$> [])) with 0.
    change (owned x (page_extent <$> concat (replicate (Z.to_nat kMaxLargePages) []))) with 0. lia.
Qed.
End Invariant.
