(* ===== verification/BuddyHistory.v ===== *)
(** Histories of the buddy allocator: callers allocate, release, reallocate and
    write into their blocks, and regions are added. *)
From Stdlib Require Import ZArith Lia.
From stdpp Require Import base list relations.
From S2P Require Import Prelude Extents BuddyAllocator BuddySafety.

Open Scope Z_scope.

#[local] Arguments owned : simpl never.
#[local] Arguments covers : simpl never.
#[local] Arguments extents : simpl never.

(** * Histories *)

Section Machine.
Context (lo hi : Z).

(** The allocator, the blocks in callers' hands (offset, requested size), and the
    regions that may still be added. *)
Record buddy_state := mkState { bs_buddy : BuddyAllocator; bs_live : list (Z * Z); bs_spare : list extent }.

Inductive buddy_step : buddy_state -> buddy_state -> Prop :=
| buddy_allocate b live spare size r b' :
    0 <= size <= 2 ^ 61 -> AllocateOffset b size = Some (r, b') ->
    buddy_step (mkState b live spare) (mkState b' (if r =? kNull then live else (r, size) :: live) spare)
| buddy_free b live live' spare off n :
    live ≡ₚ (off, n) :: live' ->
    buddy_step (mkState b live spare) (mkState (FreeOffset b off) live' spare)
| buddy_reallocate b live live' spare off n size r b' :
    live ≡ₚ (off, n) :: live' -> 0 <= size <= 2 ^ 61 -> ReallocateOffset b off size = Some (r, b') ->
    buddy_step (mkState b live spare) (mkState b' (if r =? kNull then live else (r, size) :: live') spare)
| buddy_write b live spare off n x v :
    (off, n) ∈ live -> off <= x < off + n -> (8 | x - off) ->
    buddy_step (mkState b live spare) (mkState (set_mem b (wr (mem_ b) x v)) live spare)
| buddy_expand b live spare spare' region size b' :
    spare ≡ₚ (region, size) :: spare' -> sizeof_PageT < size -> Expand b region size = Some b' ->
    buddy_step (mkState b live spare) (mkState b' live spare').

(** A block in a caller's hands is a page. *)
Definition live_page (m : memory) (blk : Z * Z) (p : page) : Prop :=
  fst blk = fst p + sizeof_PageT /\ snd blk <= snd p /\ page_ok lo hi p /\ size_ m (fst p) = snd p.

Definition buddy_good (st : buddy_state) : Prop :=
  exists sh pages, Forall2 (live_page (mem_ (bs_buddy st))) (bs_live st) pages /\
    buddy_inv lo hi (bs_buddy st) sh ((page_extent <$> pages) ++ bs_spare st) /\ IsActive (cur_arena_ (bs_buddy st)) = false.

Lemma live_pages_frame m m' live pages held :
  Forall2 (live_page m) live pages -> same_inside held m m' -> (forall p, p ∈ pages -> page_extent p ∈ held) ->
  Forall2 (live_page m') live pages.
Proof.
  intros HF Hin Hp. induction HF as [|blk p live pages (H1 & H2 & H3 & H4) HF IH]; [done|]. constructor.
  - split_and!; try done. rewrite <- H4. unfold size_. destruct p as [p s].
    apply (same_inside_page _ _ _ p s _ Hin); [apply Hp; by left|]. destruct H3 as (_ & Hm & _). unfold kMinSize in Hm. cbn in *. lia.
  - apply IH. intros q Hq. apply Hp. by right.
Qed.

Lemma live_pages_cons m live live' pages off n :
  live ≡ₚ (off, n) :: live' -> Forall2 (live_page m) live pages ->
  exists p s pages', pages ≡ₚ (p, s) :: pages' /\ off = p + sizeof_PageT /\ n <= s /\ page_ok lo hi (p, s) /\ size_ m p = s /\
    Forall2 (live_page m) live' pages'.
Proof.
  intros Hp HF. destruct (Permutation_Forall2 Hp HF) as (k & Hk & HF2). inversion HF2 as [|? [p s] ? k' (H1 & H2 & H3 & H4) HF3]; subst.
  exists p, s, k'. cbn in *. split_and!; done.
Qed.

Lemma page_extents_cons pages pages' p spare :
  pages ≡ₚ p :: pages' -> (page_extent <$> pages) ++ spare ≡ₚ page_extent p :: (page_extent <$> pages') ++ spare.
Proof. intros Hp. by rewrite Hp. Qed.

Lemma in_extents (pages : list page) p (spare : list extent) : p ∈ pages -> page_extent p ∈ (page_extent <$> pages) ++ spare.
Proof. intros Hp. apply elem_of_app. left. by apply list_elem_of_fmap_2. Qed.

Lemma good_allocate b live spare size r b' :
  buddy_good (mkState b live spare) -> 0 <= size <= 2 ^ 61 -> AllocateOffset b size = Some (r, b') ->
  buddy_good (mkState b' (if r =? kNull then live else (r, size) :: live) spare).
Proof.
  intros (sh & pages & HF & Hb & Ha) Hsz HA. cbn [bs_buddy bs_live bs_spare] in *.
  destruct (AllocateOffset_ok _ _ _ _ _ _ Hb Ha Hsz) as ([r' b2] & HA' & Hin & Hc & Hor). rewrite HA in HA'. injection HA' as <- <-.
  pose proof (live_pages_frame _ _ _ _ _ HF Hin (fun p => in_extents pages p spare)) as HF'.
  destruct Hor as [[-> [sh' Hb']]|(p & s & sh' & -> & Hp & Hs & Hz & Hb')].
  - rewrite Z.eqb_refl. exists sh', pages. split_and!; [done|done|by cbn; rewrite Hc].
  - destruct (page_size_bound _ _ _ _ _ _ _ Hb' Hp) as (Hpb & Hsb & Hend).
    rewrite (proj2 (Z.eqb_neq _ kNull)) by (unfold kNull, sizeof_PageT; lia).
    exists sh', ((p, s) :: pages). split_and!; [|done|by cbn; rewrite Hc]. by constructor.
Qed.

Lemma good_free b live live' spare off n :
  buddy_good (mkState b live spare) -> live ≡ₚ (off, n) :: live' -> buddy_good (mkState (FreeOffset b off) live' spare).
Proof.
  intros (sh & pages & HF & Hb & Ha) Hl. cbn [bs_buddy bs_live bs_spare] in *.
  destruct (live_pages_cons _ _ _ _ _ _ Hl HF) as (p & s & pages' & Hpp & -> & Hn & Hp & Hs & HF').
  pose proof (inv_perm _ _ _ _ _ _ (page_extents_cons _ _ _ spare Hpp) Hb) as Hb1.
  destruct (Free_ok _ _ _ _ _ _ _ Hb1 Hp Hs Ha) as (sh' & Hb2 & Hin & Hc). exists sh', pages'. cbn [bs_buddy bs_live bs_spare].
  split_and!; [|done|by rewrite Hc]. eapply live_pages_frame; [done|exact Hin|]. intros q. apply in_extents.
Qed.

Lemma good_reallocate b live live' spare off n size r b' :
  buddy_good (mkState b live spare) -> live ≡ₚ (off, n) :: live' -> 0 <= size <= 2 ^ 61 ->
  ReallocateOffset b off size = Some (r, b') ->
  buddy_good (mkState b' (if r =? kNull then live else (r, size) :: live') spare).
Proof.
  intros (sh & pages & HF & Hb & Ha) Hl Hsz HR. cbn [bs_buddy bs_live bs_spare] in *.
  destruct (live_pages_cons _ _ _ _ _ _ Hl HF) as (p & s & pages' & Hpp & -> & Hn & Hp & Hs & HF').
  pose proof (inv_perm _ _ _ _ _ _ (page_extents_cons _ _ _ spare Hpp) Hb) as Hb1.
  destruct (Reallocate_ok _ _ _ _ _ _ _ _ Hb1 Hp Hs Ha Hsz) as (r' & b2 & sh' & HR' & Hc & Hin & Hor).
  rewrite HR in HR'. injection HR' as <- <-.
  pose proof (live_pages_frame _ _ _ _ _ HF' Hin (fun p => in_extents pages' p spare)) as HF2.
  destruct Hor as [(-> & Hb2 & Hs2 & _)|(p2 & s2 & -> & Hp2 & Hs2 & Hle & Hb2 & _)].
  - rewrite Z.eqb_refl. assert (Forall2 (live_page (mem_ b')) ((p + sizeof_PageT, n) :: live') ((p, s) :: pages')) as HF3 by (by constructor).
    destruct (Permutation_Forall2 (symmetry Hl) HF3) as (k & Hk & HF4). exists sh', k. split_and!; [done| |done].
    cbn [bs_buddy bs_spare]. eapply inv_perm; [|exact Hb2]. symmetry. by apply page_extents_cons.
  - destruct (page_size_bound _ _ _ _ _ _ _ Hb2 Hp2) as (Hpb & Hsb & Hend).
    rewrite (proj2 (Z.eqb_neq _ kNull)) by (unfold kNull, sizeof_PageT; lia).
    exists sh', ((p2, s2) :: pages'). split_and!; [by constructor|done|done].
Qed.

Lemma good_write b live spare off n x v :
  buddy_good (mkState b live spare) -> (off, n) ∈ live -> off <= x < off + n ->
  buddy_good (mkState (set_mem b (wr (mem_ b) x v)) live spare).
Proof.
  intros (sh & pages & HF & Hb & Ha) Hl Hx. cbn [bs_buddy bs_live bs_spare] in *.
  assert (exists live', live ≡ₚ (off, n) :: live') as [live' Hp] by (apply list_elem_of_split in Hl as (l1 & l2 & ->); exists (l1 ++ l2); by rewrite Permutation_middle).
  destruct (live_pages_cons _ _ _ _ _ _ Hp HF) as (p & s & pages' & Hpp & -> & Hn & Hpg & Hs & HF').
  pose proof (inv_perm _ _ _ _ _ _ (page_extents_cons _ _ _ spare Hpp) Hb) as Hb1.
  assert (forall y, y <> x -> wr (mem_ b) x v y = mem_ b y) as Hw by (intros y Hy; unfold wr; by rewrite (proj2 (Z.eqb_neq _ _) Hy)).
  unfold sizeof_PageT in Hx.
  destruct (inv_write _ _ _ _ _ _ (wr (mem_ b) x v) Hb1) as [Hb2 Hin].
  { intros y Hy. apply Hw. intros ->. unfold page_extent, sizeof_PageT in Hy. cbn in Hy. lia. }
  assert (Forall2 (live_page (wr (mem_ b) x v)) ((p + sizeof_PageT, n) :: live') ((p, s) :: pages')) as HF3.
  { constructor; [|eapply live_pages_frame; [exact HF'|exact Hin|intros q; apply in_extents]].
    split_and!; [done|done|done|]. cbn. rewrite <- Hs. unfold size_. apply Hw. lia. }
  destruct (Permutation_Forall2 (symmetry Hp) HF3) as (k & Hk & HF4). exists sh, k. split_and!; [done| |done].
  cbn [bs_buddy bs_spare]. eapply inv_perm; [|exact Hb2]. symmetry. by apply page_extents_cons.
Qed.

Lemma good_expand b live spare spare' region size b' :
  buddy_good (mkState b live spare) -> spare ≡ₚ (region, size) :: spare' -> sizeof_PageT < size ->
  Expand b region size = Some b' -> buddy_good (mkState b' live spare').
Proof.
  intros (sh & pages & HF & Hb & Ha) Hsp Hsz HE. cbn [bs_buddy bs_live bs_spare] in *.
  assert ((page_extent <$> pages) ++ spare ≡ₚ (region, size) :: (page_extent <$> pages) ++ spare') as Hperm.
  { rewrite Hsp. symmetry. apply Permutation_middle. }
  pose proof (inv_perm _ _ _ _ _ _ Hperm Hb) as Hb1. pose proof (bi_held _ _ _ _ _ Hb1) as Hh. inversion Hh as [|? ? He _]; subst.
  unfold sizeof_PageT in Hsz. destruct (extent_ok_pos _ _ _ He ltac:(cbn; lia)) as (Hlo & _). destruct (bi_range _ _ _ _ _ Hb1). cbn in Hlo.
  destruct (Expand_ok _ _ _ _ _ _ _ Hb1 ltac:(lia) ltac:(done)) as (b2 & sh' & HE' & Hb2 & Hin & Hc). rewrite HE in HE'. injection HE' as <-.
  exists sh', pages. split_and!; [|done|by cbn; rewrite Hc]. eapply live_pages_frame; [done|exact Hin|]. intros q. apply in_extents.
Qed.

Lemma buddy_step_good st st' : buddy_good st -> buddy_step st st' -> buddy_good st'.
Proof.
  intros Hg Hs. destruct Hs; [by eapply good_allocate|by eapply good_free|by eapply good_reallocate|by eapply good_write|by eapply good_expand].
Qed.
End Machine.

(** * Properties *)

(** The memory that [shm_init] manages. *)
Definition managed (this_ header capacity region_size : Z) (shifted : bool) : extent :=
  let region_size := if region_size =? 0 then if shifted then capacity else capacity - this_ else region_size in
  if shifted then (0, region_size) else (this_ + header, region_size - header).

(** The conditions on a backend and the regions that may be added to it, which
    start and end at multiples of 8 from [lo] and do not overlap. *)
Record backend_ok (lo hi this_ header capacity region_size : Z) (shifted : bool) (spare : list extent) : Prop := {
  bk_bounds : 0 <= lo /\ 0 <= hi <= 2 ^ 62 /\ 0 <= this_ <= 2 ^ 62 /\ 0 <= header <= 2 ^ 62 /\ 0 <= capacity <= 2 ^ 62 /\
    0 <= region_size <= 2 ^ 62;
  bk_room : sizeof_PageT < snd (managed this_ header capacity region_size shifted);
  bk_extents : Forall (extent_ok lo hi) (managed this_ header capacity region_size shifted :: spare);
  bk_apart : forall x, owned x (managed this_ header capacity region_size shifted :: spare) <= 1 }.

Lemma shm_init_good lo hi m this_ header capacity region_size shifted spare b :
  shm_init m this_ header capacity region_size shifted = Some (true, b) ->
  backend_ok lo hi this_ header capacity region_size shifted spare ->
  buddy_good lo hi (mkState b [] spare).
Proof.
  intros HI [(Hlo & Hhi & Ht & Hh & Hc & Hr) Hsz Hok Hown]. unfold managed, shm_init in *.
  assert (u64 (capacity - this_) = capacity - this_ \/ shifted = true \/ region_size <> 0) as Hcap.
  { destruct shifted; [by right; left|]. destruct (Z.eqb_spec region_size 0) as [->|]; [left|by right; right].
    cbn in Hsz. unfold sizeof_PageT in Hsz. apply u64_small. lia. }
  set (rs := if region_size =? 0 then if shifted then capacity else u64 (capacity - this_) else region_size) in HI.
  assert (rs = if region_size =? 0 then if shifted then capacity else capacity - this_ else region_size) as Hrs.
  { unfold rs. destruct (Z.eqb_spec region_size 0), shifted; try done. by destruct Hcap as [|[|]]. }
  rewrite <- Hrs in *. destruct (Z.ltb_spec rs kMinSize) as [|Hrs1]; [done|].
  set (e := if shifted then (0, rs) else (this_ + header, rs - header)) in *.
  assert (rs <= 2 ^ 62 /\ 0 <= snd e <= 2 ^ 62 /\ 0 <= fst e) as (Hb1 & Hb2 & Hb3).
  { assert (rs <= 2 ^ 62) by (rewrite Hrs; destruct (region_size =? 0), shifted; lia).
    unfold sizeof_PageT in Hsz. unfold e in *. destruct shifted; cbn in *; lia. }
  assert (u64 (this_ + (if shifted then 0 else header) - (if shifted then this_ else 0)) = fst e) as Hf.
  { unfold e. destruct shifted; cbn; rewrite u64_small; lia. }
  assert (u64 (rs - (if shifted then 0 else header)) = snd e) as Hs.
  { unfold e in *. destruct shifted; cbn in *; rewrite u64_small; lia. }
  rewrite Hf, Hs in HI. destruct e as [off size]. cbn [fst snd] in *.
  destruct (Expand_ok lo hi _ _ _ off size (empty_buddy_inv lo hi m _ Hlo Hhi Hok Hown) ltac:(lia) Hsz) as (b2 & sh & HE & Hb & _ & Hcur).
  change (mkBuddy _ _ _ _ _ _ _) with (empty_buddy m) in HI. rewrite HE in HI. cbn in HI. injection HI as <-.
  exists sh, []. split_and!; [constructor|done|]. cbn. by rewrite Hcur.
Qed.

(** [m] and [m'] agree on the blocks. *)
Definition kept (live : list (Z * Z)) (b b' : BuddyAllocator) : Prop :=
  forall off n x, (off, n) ∈ live -> off <= x < off + n -> mem_ b' x = mem_ b x.

Section Statements.
Context (lo hi : Z).

Lemma live_pages_kept m live pages spare b b' :
  Forall2 (live_page lo hi m) live pages -> same_inside ((page_extent <$> pages) ++ spare) (mem_ b) (mem_ b') -> kept live b b'.
Proof.
  intros HF Hin off n x Hl Hx. apply list_elem_of_lookup in Hl as [i Hi].
  destruct (Forall2_lookup_l _ _ _ _ _ HF Hi) as ([p s] & Hp & H1 & H2 & H3 & H4). cbn in *. unfold sizeof_PageT in *.
  replace x with (p + (x - p)) by lia. apply (same_inside_page _ _ _ p s _ Hin); [|lia].
  apply in_extents. by eapply list_elem_of_lookup_2.
Qed.

Lemma buddy_reachable_good st st' : buddy_good lo hi st -> rtc buddy_step st st' -> buddy_good lo hi st'.
Proof. intros Hg Hr. induction Hr as [|x y z Hs Hr IH]; [done|]. apply IH. by eapply buddy_step_good. Qed.

(** Two pages of a list share no byte. *)
Lemma pages_apart (pages : list page) i j p p' x :
  (forall x, owned x (page_extent <$> pages) <= 1) -> pages !! i = Some p -> pages !! j = Some p' -> i <> j ->
  fst p <= x < fst p + sizeof_PageT + snd p -> fst p' <= x < fst p' + sizeof_PageT + snd p' -> False.
Proof.
  intros Ho Hi Hj Hne Hx Hx'. specialize (Ho x).
  rewrite (owned_perm x page_extent pages [p] (delete i pages)) in Ho by (by apply delete_Permutation).
  assert (p' ∈ delete i pages) as Hin.
  { apply list_elem_of_lookup. destruct (Nat.lt_ge_cases j i).
    - exists j. by rewrite list_lookup_delete_lt.
    - exists (pred j). rewrite list_lookup_delete_ge by lia. by replace (S (pred j)) with j by lia. }
  rewrite cons_page_ext, owned_cons in Ho. rewrite (proj2 (covers_spec x (page_extent p))) in Ho by (unfold page_extent; cbn; lia).
  pose proof (owned_in x (page_extent p') (page_extent <$> delete i pages) ltac:(by apply list_elem_of_fmap_2)
    ltac:(unfold page_extent; cbn; lia)). change (owned x (page_extent <$> [])) with 0 in Ho. cbn in Ho. lia.
Qed.

(** C25. Blocks never overlap: after any sequence of allocations, releases,
    reallocations, added regions and arbitrary writes of callers into their own
    blocks, the blocks in callers' hands are pairwise disjoint, word-aligned, hold
    at least the requested bytes inside the managed memory, and a further request
    returns. So no write a caller may make harms another block or the
    allocator's own lists, which live in the same memory. *)
Theorem buddy_blocks_disjoint (m : memory) (this_ header capacity region_size : Z) (shifted : bool) (spare : list extent)
    (b : BuddyAllocator) (st : buddy_state) :
  shm_init m this_ header capacity region_size shifted = Some (true, b) ->
  backend_ok lo hi this_ header capacity region_size shifted spare ->
  rtc buddy_step (mkState b [] spare) st ->
  (forall i j off n off' n', bs_live st !! i = Some (off, n) -> bs_live st !! j = Some (off', n') -> i <> j ->
     off + n <= off' \/ off' + n' <= off) /\
  (forall off n, (off, n) ∈ bs_live st -> lo <= off /\ off + n <= hi /\ (8 | off - lo)) /\
  (forall size, 0 <= size <= 2 ^ 61 -> is_Some (AllocateOffset (bs_buddy st) size)).
Proof.
  intros HI Hbk Hr.
  pose proof (shm_init_good lo hi m this_ header capacity region_size shifted spare b HI Hbk) as Hg.
  destruct (buddy_reachable_good _ _ Hg Hr) as (sh & pages & HF & Hb & Ha).
  split_and!.
  - intros i j off n off' n' Hi Hj Hne.
    destruct (Forall2_lookup_l _ _ _ _ _ HF Hi) as ([p s] & Hp & E1 & E2 & E3 & E4).
    destruct (Forall2_lookup_l _ _ _ _ _ HF Hj) as ([p' s'] & Hp' & F1 & F2 & F3 & F4). cbn in *. unfold sizeof_PageT in *.
    destruct E3 as (_ & E3 & _), F3 as (_ & F3 & _). unfold kMinSize in *. cbn in E3, F3.
    destruct (Z.le_gt_cases (off + n) off') as [|Hlt]; [by left|]. right.
    destruct (Z.le_gt_cases (off' + n') off) as [|Hlt']; [done|]. exfalso.
    apply (pages_apart pages i j (p, s) (p', s') (Z.max p p')); try done; unfold sizeof_PageT; cbn; [|lia..].
    intros x. pose proof (bi_own _ _ _ _ _ Hb x) as Ho. rewrite owned_extents, owned_app in Ho.
    pose proof (owned_nonneg x (page_extent <$> concat (sh_small sh))). pose proof (owned_nonneg x (page_extent <$> concat (sh_large sh))).
    pose proof (owned_nonneg x ((fun r => (r, sizeof_PageT)) <$> sh_regions sh)). pose proof (owned_nonneg x (bs_spare st)).
    destruct (covers x (heap_extent (small_arena_ (bs_buddy st)))), (covers x (heap_extent (big_heap_ (bs_buddy st)))); cbn [Z.b2z] in Ho; lia.
  - intros off n Hl. apply list_elem_of_lookup in Hl as [i Hi].
    destruct (Forall2_lookup_l _ _ _ _ _ HF Hi) as ([p s] & Hp & E1 & E2 & E3 & E4). cbn in *.
    destruct E3 as (E0 & E3 & E5). unfold page_extent, sizeof_PageT, kMinSize in *. cbn in *.
    destruct (extent_ok_pos _ _ _ E5 ltac:(cbn; lia)) as (G1 & G2 & G3 & _). cbn in *. split_and!; [lia|lia|].
    replace (off - lo) with (p - lo + 2 * 8) by lia. by apply Z.divide_add_r; [|apply Z.divide_factor_r].
  - intros size Hs. destruct (AllocateOffset_ok _ _ _ _ _ _ Hb Ha Hs) as (res & -> & _). done.
Qed.

(** Contents are kept: in every reachable state, allocating, releasing or
    reallocating a block leaves every byte of every other block as it was, and a
    reallocation carries the contents over up to the smaller size, or fails and
    leaves the block alone. *)
Theorem buddy_contents_kept (m : memory) (this_ header capacity region_size : Z) (shifted : bool) (spare : list extent)
    (b : BuddyAllocator) (st : buddy_state) :
  shm_init m this_ header capacity region_size shifted = Some (true, b) ->
  backend_ok lo hi this_ header capacity region_size shifted spare ->
  rtc buddy_step (mkState b [] spare) st ->
  (forall size r b', 0 <= size <= 2 ^ 61 -> AllocateOffset (bs_buddy st) size = Some (r, b') -> kept (bs_live st) (bs_buddy st) b') /\
  (forall off n live', bs_live st ≡ₚ (off, n) :: live' -> kept live' (bs_buddy st) (FreeOffset (bs_buddy st) off)) /\
  (forall off n live' size, bs_live st ≡ₚ (off, n) :: live' -> 0 <= size <= 2 ^ 61 ->
     exists r b', ReallocateOffset (bs_buddy st) off size = Some (r, b') /\ kept live' (bs_buddy st) b' /\
       if r =? kNull then kept [(off, n)] (bs_buddy st) b'
       else forall k, 0 <= k < Z.min n size -> mem_ b' (r + k) = mem_ (bs_buddy st) (off + k)).
Proof.
  intros HI Hbk Hr.
  pose proof (shm_init_good lo hi m this_ header capacity region_size shifted spare b HI Hbk) as Hg.
  destruct (buddy_reachable_good _ _ Hg Hr) as (sh & pages & HF & Hb & Ha). cbn [bs_buddy bs_live bs_spare] in *.
  split_and!.
  - intros size r b' Hs HA. destruct (AllocateOffset_ok _ _ _ _ _ _ Hb Ha Hs) as ([r' b2] & HA' & Hin & _). rewrite HA in HA'.
    injection HA' as <- <-. by eapply live_pages_kept.
  - intros off n live' Hl. destruct (live_pages_cons _ _ _ _ _ _ _ _ Hl HF) as (p & s & pages' & Hpp & -> & Hn & Hp & Hs & HF').
    pose proof (inv_perm _ _ _ _ _ _ (page_extents_cons _ _ _ (bs_spare st) Hpp) Hb) as Hb1.
    destruct (Free_ok _ _ _ _ _ _ _ Hb1 Hp Hs Ha) as (sh' & _ & Hin & _). by eapply live_pages_kept.
  - intros off n live' size Hl Hs. destruct (live_pages_cons _ _ _ _ _ _ _ _ Hl HF) as (p & s & pages' & Hpp & -> & Hn & Hp & Hz & HF').
    pose proof (inv_perm _ _ _ _ _ _ (page_extents_cons _ _ _ (bs_spare st) Hpp) Hb) as Hb1.
    destruct (Reallocate_ok _ _ _ _ _ _ _ _ Hb1 Hp Hz Ha Hs) as (r & b' & sh' & HR & _ & Hin & Hor).
    exists r, b'. split; [done|]. split; [by eapply live_pages_kept|].
    destruct Hor as [(-> & _ & _ & _ & Hk)|(p2 & s2 & -> & Hp2 & _ & Hle & Hb2 & Hk)].
    + rewrite Z.eqb_refl. intros off' n' x Hin' Hx. apply list_elem_of_singleton in Hin'. injection Hin' as -> ->.
      unfold sizeof_PageT in *. specialize (Hk (x - (p + 16)) ltac:(lia)).
      by replace (p + 16 + (x - (p + 16))) with x in Hk by lia.
    + destruct (page_size_bound _ _ _ _ _ _ _ Hb2 Hp2) as (Hpb & Hsb & Hend).
      rewrite (proj2 (Z.eqb_neq _ kNull)) by (unfold kNull, sizeof_PageT; lia). intros k Hk'. apply Hk. lia.
Qed.
End Statements.

(** ** A run *)

Definition run_allocate (st : buddy_state) (size : Z) : buddy_state :=
  match AllocateOffset (bs_buddy st) size with
  | Some (r, b) => mkState b (if r =? kNull then bs_live st else (r, size) :: bs_live st) (bs_spare st)
  | None => st
  end.

Definition run_init (capacity : Z) : buddy_state :=
  match shm_init (fun _ => 0) 0 1000 capacity 0 false with
  | Some (_, b) => mkState b [] []
  | None => mkState (empty_buddy (fun _ => 0)) [] []
  end.

Lemma run_allocate_step st size : 0 <= size <= 2 ^ 61 ->
  bool_decide (is_Some (AllocateOffset (bs_buddy st) size)) = true -> buddy_step st (run_allocate st size).
Proof.
  intros Hs Hi. apply bool_decide_eq_true in Hi as [[r b] HA]. unfold run_allocate. rewrite HA. destruct st as [b0 live spare].
  by constructor.
Qed.

Lemma run_init_ok capacity : 1048 <= capacity <= 2 ^ 62 -> (8 | capacity - 1000) ->
  backend_ok 1000 capacity 0 1000 capacity 0 false [].
Proof.
  intros Hc Hd. assert (managed 0 1000 capacity 0 false = (1000, capacity - 1000)) as Hm by (unfold managed; cbn; f_equal; lia).
  split; rewrite ?Hm; cbn [fst snd]; unfold sizeof_PageT in *; [lia|lia| |].
  - constructor; [|constructor]. split; cbn; [lia|]. intros _. split_and!; [lia|lia|by exists 0|done].
  - intros x. rewrite owned_cons. change (owned x []) with 0. destruct (covers x _); cbn; lia.
Qed.

Definition two_blocks : buddy_state := run_allocate (run_allocate (run_init 201016) 100) 200.

Lemma two_blocks_reached : rtc buddy_step (run_init 201016) two_blocks.
Proof.
  eapply rtc_l; [apply (run_allocate_step _ 100); [lia|by vm_compute]|].
  apply rtc_once, run_allocate_step; [lia|by vm_compute].
Qed.

Lemma two_blocks_parts :
  bs_live two_blocks = [(1032, 200); (68616, 100)] /\
  shm_init (fun _ => 0) 0 1000 201016 0 false = Some (true, bs_buddy (run_init 201016)) /\
  rtc buddy_step (mkState (bs_buddy (run_init 201016)) [] []) two_blocks.
Proof. split_and!; [by vm_compute|reflexivity|exact two_blocks_reached]. Qed.

Lemma buddy_blocks_disjoint_witness :
  bs_live two_blocks = [(1032, 200); (68616, 100)] /\
  forall size, 0 <= size <= 2 ^ 61 -> is_Some (AllocateOffset (bs_buddy two_blocks) size).
Proof.
  destruct two_blocks_parts as (Hl & HI & Hr). split; [exact Hl|].
  exact (proj2 (proj2 (buddy_blocks_disjoint 1000 201016 (fun _ => 0) 0 1000 201016 0 false [] (bs_buddy (run_init 201016)) _
    HI (run_init_ok 201016 ltac:(lia) ltac:(by exists 25002)) Hr))).
Defined.

Lemma buddy_contents_kept_witness :
  exists r b', ReallocateOffset (bs_buddy two_blocks) 68616 5000 = Some (r, b') /\ kept [(1032, 200)] (bs_buddy two_blocks) b'.
Proof.
  destruct two_blocks_parts as (Hl & HI & Hr).
  destruct (proj2 (proj2 (buddy_contents_kept 1000 201016 (fun _ => 0) 0 1000 201016 0 false [] (bs_buddy (run_init 201016)) _
    HI (run_init_ok 201016 ltac:(lia) ltac:(by exists 25002)) Hr)) 68616 100 [(1032, 200)] 5000) as (r & b' & HR & Hk & _).
  - rewrite Hl. apply Permutation_swap.
  - lia.
  - exact (ex_intro _ r (ex_intro _ b' (conj HR Hk))).
Defined.

(** ** Requests the allocator does not serve *)

(** A small request that replenishes the small arena is not served from it: its
    lists are still empty, and it falls through to the big heap. When that is
    spent, the request fails although 67584 bytes were just set aside for it, and
    the same request succeeds the second time. *)
Theorem first_small_request_fails :
  fst <$> AllocateOffset (bs_buddy (run_init 68704)) 100 = Some kNull /\
  fst <$> AllocateOffset (bs_buddy (run_allocate (run_init 68704) 100)) 100 = Some 1032.
Proof. split; by vm_compute. Qed.

(** The rounding of a request near 2^64 wraps to 0, and the caller gets a page of
    32 bytes. *)
Theorem huge_request_undersized :
  (fun '(r, b) => (r, size_ (mem_ b) (r - sizeof_PageT))) <$> AllocateOffset (bs_buddy (run_init 201016)) (2 ^ 64 - 1) =
  Some (68616, 32).
Proof. by vm_compute. Qed.
