(* ===== verification/BlobDevice.v ===== *)
(** What the data path of the CTE asks of its environment: block devices, a
    placement engine and a buffer pool, as type classes, with the laws its
    theorems rest on.

    A device hands out extents, takes them back, and reads and writes them
    ([clio_runtime/bdev/bdev_client.h]). A failed operation may leave its own
    range in any state and nothing else. *)
From Stdlib Require Import ZArith Lia.
From coqutil Require Import Byte.
From stdpp Require Import base list.
From S2P Require Import Prelude Extents BlockAllocator.

Open Scope Z_scope.

(** * Operations *)

Class BlockDevice (D : Type) := {
  dev_inline : D -> list u8 -> bool;                  (** the container is in this process and the query local *)
  dev_alloc : D -> Z -> option (list Block) * D;
  dev_free : D -> list Block -> bool * D;             (** the return code is 0 *)
  dev_write : D -> Z -> list u8 -> Z * D;             (** [bytes_written_] *)
  dev_read : D -> Z -> Z -> Z * list u8 * D           (** [bytes_read_], and what arrived in the buffer *)
}.

Class BufferPool (I : Type) := { AllocateBuffer : I -> Z -> bool * I; FreeBuffer : I -> Z -> I }.

(** * Laws *)

Definition block_extent (b : Block) : extent := (b_offset b, b_size b).

(** The bytes at [a .. a + n). *)
Definition bytes_at (f : Z -> u8) (a n : Z) : list u8 := map (fun i => f (a + i)) (seqZ 0 n).

Definition same_on (l : list extent) (f g : Z -> u8) : Prop := forall x, 0 < owned x l -> g x = f x.

Class BlockDeviceLaws (D : Type) `{BlockDevice D} := {
  dev_byte : D -> Z -> u8;
  dev_ok : D -> list extent -> Prop;                  (** these extents are in callers' hands *)
  dev_ok_perm d l l' : l ≡ₚ l' -> dev_ok d l -> dev_ok d l';
  dev_ok_drop d e l : dev_ok d (e :: l) -> dev_ok d l;
  dev_ok_apart d l : dev_ok d l ->
    (forall x, owned x l <= 1) /\ Forall (fun e => 0 <= fst e /\ 0 <= snd e /\ fst e + snd e <= 2 ^ 62) l;
  dev_alloc_ok d l size r d' : dev_ok d l -> 0 < size <= 2 ^ 62 -> dev_alloc d size = (r, d') ->
    dev_ok d' (map block_extent (default [] r) ++ l) /\ same_on l (dev_byte d) (dev_byte d');
  dev_free_ok d bs l r d' : dev_ok d (map block_extent bs ++ l) -> dev_free d bs = (r, d') ->
    dev_ok d' l /\ same_on l (dev_byte d) (dev_byte d');
  dev_write_ok d l off data n d' : dev_ok d l -> (forall i, 0 <= i < Z.of_nat (length data) -> 0 < owned (off + i) l) ->
    dev_write d off data = (n, d') ->
    dev_ok d' l /\
    (forall x, (x < off \/ off + Z.of_nat (length data) <= x) -> 0 < owned x l -> dev_byte d' x = dev_byte d x) /\
    (n = Z.of_nat (length data) -> bytes_at (dev_byte d') off n = data);
  dev_read_ok d l off size n bs d' : dev_ok d l -> (forall i, 0 <= i < size -> 0 < owned (off + i) l) -> 0 <= size ->
    dev_read d off size = (n, bs, d') ->
    dev_ok d' l /\ same_on l (dev_byte d) (dev_byte d') /\ Z.of_nat (length bs) <= size /\
    (n = size -> bs = bytes_at (dev_byte d) off size)
}.
