(* ===== verification/BlobStore.v ===== *)
(** The data path of the CTE core
    ([context-transfer-engine/core/src/core_runtime.cc]): [PutBlob], [GetBlob],
    [TruncateBlob], [DelBlob], [ReorganizeBlob] and the helpers they share, for a
    blob's primary copy and its replicas.

    A handler that changes a blob holds its write token and a get pins its extents
    ([BlobLock] is about both and about requests that interleave); here each
    handler is one step, run alone.
    Writes and reads are sent to the devices together and awaited after; their
    ranges are disjoint, so they are done in order. A float is its 32-bit pattern.
    Devices, the placement engine and the buffer pool are arguments. Time stamps,
    access counts, telemetry, the mirrors in shared and GPU memory, emulated times
    and the invalidation of copies on other nodes are left out. *)
From Stdlib Require Import ZArith Lia Floats.SpecFloat.
From Stdlib Require Strings.String.
Import String.StringSyntax.
From coqutil Require Import Byte.
From stdpp Require Import base list gmap.
From S2P Require Import Prelude BlockAllocator TxnLog Text BlobMeta BlobDevice.

Open Scope Z_scope.

(** * Scores *)

Definition float_one : Z := 1065353216.
Definition float_infinity : Z := 2139095040.
(** [s < 0.0f] and [s > 1.0f]; a NaN is neither. *)
Definition f32_negative (s : Z) : bool :=
  let m := Z.land s (2 ^ 31 - 1) in (2 ^ 31 <=? s) && (0 <? m) && (m <=? float_infinity).
Definition f32_above_one (s : Z) : bool := (float_one <? s) && (s <=? float_infinity).

Definition f32_of_bits (s : Z) : spec_float :=
  let sign := 2 ^ 31 <=? s in
  let e := Z.land (Z.shiftr s 23) 255 in
  let m := Z.land s (2 ^ 23 - 1) in
  if e =? 255 then if m =? 0 then S754_infinity sign else S754_nan
  else if e =? 0 then match m with Zpos p => S754_finite sign p (-149) | _ => S754_zero sign end
  else S754_finite sign (Z.to_pos (m + 2 ^ 23)) (e - 150).

(** [a < b], [std::abs(a - b) < t] *)
Definition f32_lt (a b : Z) : bool := SFltb (f32_of_bits a) (f32_of_bits b).
Definition f32_near (a b t : Z) : bool := SFltb (SFabs (SFsub 24 128 (f32_of_bits a) (f32_of_bits b))) (f32_of_bits t).

(** * Targets *)

Record TargetInfo := mkTarget {
  tg_pool : TagId; tg_query : str; tg_score : Z; tg_remaining : Z; tg_ttl : Z; tg_persistence : Z;
  tg_write_bandwidth : Z; tg_read_latency : Z; tg_write_latency : Z }.   (** 64-bit patterns *)

Definition kLongTerm : Z := 2.

Definition set_remaining (t : TargetInfo) (z : Z) : TargetInfo :=
  mkTarget (tg_pool t) (tg_query t) (tg_score t) z (tg_ttl t) (tg_persistence t) (tg_write_bandwidth t) (tg_read_latency t)
    (tg_write_latency t).

(** [DataPlacementEngine]: the targets to try, in order. *)
Class Dpe (P : Type) := { SelectTargets : P -> list TargetInfo -> Z -> Z -> list TargetInfo * P }.

(** * State *)

Record Runtime (D P I : Type) := mkRuntime {
  rt_meta : Meta;
  rt_targets : gmap TagId TargetInfo;      (** [registered_targets_] *)
  rt_target_list : list TargetInfo;        (** its mirror, refreshed now and then *)
  rt_devs : gmap TagId D;
  rt_dpe : P;
  rt_ipc : I;
  rt_logging : bool;                       (** [!blob_txn_logs_.empty()] *)
  rt_wal : list Txn;
  rt_threshold : Z }.                      (** [score_difference_threshold_] *)
Arguments mkRuntime {D P I}. Arguments rt_meta {D P I}. Arguments rt_targets {D P I}. Arguments rt_target_list {D P I}.
Arguments rt_devs {D P I}. Arguments rt_dpe {D P I}. Arguments rt_ipc {D P I}. Arguments rt_logging {D P I}.
Arguments rt_wal {D P I}. Arguments rt_threshold {D P I}.

(** A new block list and size of a blob. *)
Definition with_layout (b : BlobInfo) (blocks : list BlobBlock) (total : Z) : BlobInfo :=
  mkBlobInfo (bi_name b) blocks (bi_replicas b) (bi_score b) (bi_transform b) (bi_lib b) (bi_preset b) (bi_trace b) total.
Definition with_score (b : BlobInfo) (score : Z) : BlobInfo :=
  mkBlobInfo (bi_name b) (bi_blocks b) (bi_replicas b) score (bi_transform b) (bi_lib b) (bi_preset b) (bi_trace b) (bi_total b).
Definition with_codec (b : BlobInfo) (lib preset trace : Z) : BlobInfo :=
  mkBlobInfo (bi_name b) (bi_blocks b) (bi_replicas b) (bi_score b) (bi_transform b) lib preset trace (bi_total b).

Section Operations.
Context {D P I : Type} `{BlockDevice D} `{Dpe P} `{BufferPool I}.
Abbreviation rt := (Runtime D P I).
Implicit Types (st : rt) (b : BlobInfo) (blk : BlobBlock) (t : TargetInfo).

Definition set_meta st m : rt :=
  mkRuntime m (rt_targets st) (rt_target_list st) (rt_devs st) (rt_dpe st) (rt_ipc st) (rt_logging st) (rt_wal st) (rt_threshold st).
Definition set_targets st (ts : gmap TagId TargetInfo) : rt :=
  mkRuntime (rt_meta st) ts (rt_target_list st) (rt_devs st) (rt_dpe st) (rt_ipc st) (rt_logging st) (rt_wal st) (rt_threshold st).
Definition set_devs st d : rt :=
  mkRuntime (rt_meta st) (rt_targets st) (rt_target_list st) d (rt_dpe st) (rt_ipc st) (rt_logging st) (rt_wal st) (rt_threshold st).
Definition set_dpe st p : rt :=
  mkRuntime (rt_meta st) (rt_targets st) (rt_target_list st) (rt_devs st) p (rt_ipc st) (rt_logging st) (rt_wal st) (rt_threshold st).
Definition set_ipc st i : rt :=
  mkRuntime (rt_meta st) (rt_targets st) (rt_target_list st) (rt_devs st) (rt_dpe st) i (rt_logging st) (rt_wal st) (rt_threshold st).
Definition wal_log st (t : Txn) : rt :=
  if rt_logging st
  then mkRuntime (rt_meta st) (rt_targets st) (rt_target_list st) (rt_devs st) (rt_dpe st) (rt_ipc st) (rt_logging st)
         (rt_wal st ++ [t]) (rt_threshold st)
  else st.

Definition alloc_buffer st (size : Z) : bool * rt :=
  let '(ok, i) := AllocateBuffer (rt_ipc st) size in (ok, set_ipc st i).
Definition free_buffer st (size : Z) : rt := set_ipc st (FreeBuffer (rt_ipc st) size).

(** * Blocks *)

(** One bdev request of [ModifyExistingData] or [ReadData]: its place on the
    device and in the caller's buffer. *)
Record io := mkIo { io_pool : TagId; io_offset : Z; io_size : Z; io_buffer : Z }.

(** The loop over the blocks, from a block that starts at [block_offset]. *)
Fixpoint io_plan (blocks : list BlobBlock) (block_offset data_offset data_size remaining : Z) : list io :=
  match blocks with
  | [] => []
  | blk :: blocks =>
      if remaining =? 0 then []
      else
        let block_end := u64 (block_offset + bb_size blk) in
        let data_end := u64 (data_offset + data_size) in
        if (data_offset <? block_end) && (block_offset <? data_end) then
          let start := Z.max data_offset block_offset in
          let size := u64 (Z.min data_end block_end - start) in
          mkIo (bb_pool blk) (u64 (bb_offset blk + u64 (start - block_offset))) size (u64 (start - data_offset))
          :: io_plan blocks block_end data_offset data_size (u64 (remaining - size))
        else io_plan blocks block_end data_offset data_size remaining
  end.

Definition slice (data : list u8) (off size : Z) : list u8 := take (Z.to_nat size) (drop (Z.to_nat off) data).

Definition write_io (devs : gmap TagId D) (data : list u8) (x : io) : bool * gmap TagId D :=
  match devs !! io_pool x with
  | None => (false, devs)
  | Some d =>
      let '(n, d) := dev_write d (io_offset x) (slice data (io_buffer x) (io_size x)) in
      (n =? io_size x, <[io_pool x := d]> devs)
  end.

(** Every request is sent; the first short one is the error. *)
Fixpoint write_all (devs : gmap TagId D) (data : list u8) (xs : list io) : bool * gmap TagId D :=
  match xs with
  | [] => (true, devs)
  | x :: xs =>
      let '(ok, devs) := write_io devs data x in
      let '(oks, devs) := write_all devs data xs in
      (ok && oks, devs)
  end.

(** [start_idx] and [start_off]: where to enter the block list. The result is the
    error code. *)
Definition ModifyExistingData st (blocks : list BlobBlock) (data : list u8) (size offset : Z) (start_idx : nat) (start_off : Z)
    : Z * rt :=
  let '(ok, devs) := write_all (rt_devs st) data (io_plan (drop start_idx blocks) start_off offset size size) in
  (if ok then 0 else 1, set_devs st devs).

(** Writing [bs] into the buffer at [off]. *)
Definition store_buffer (buf : list u8) (off : Z) (bs : list u8) : list u8 :=
  take (Z.to_nat off) buf ++ bs ++ drop (Z.to_nat off + length bs) buf.

Definition read_io (devs : gmap TagId D) (buf : list u8) (x : io) : bool * list u8 * gmap TagId D :=
  match devs !! io_pool x with
  | None => (false, buf, devs)
  | Some d =>
      let '(n, bs, d) := dev_read d (io_offset x) (io_size x) in
      (n =? io_size x, store_buffer buf (io_buffer x) bs, <[io_pool x := d]> devs)
  end.

Fixpoint read_all (devs : gmap TagId D) (buf : list u8) (xs : list io) : bool * list u8 * gmap TagId D :=
  match xs with
  | [] => (true, buf, devs)
  | x :: xs =>
      let '(ok, buf, devs) := read_io devs buf x in
      let '(oks, buf, devs) := read_all devs buf xs in
      (ok && oks, buf, devs)
  end.

(** The error code, and the caller's buffer. *)
Definition ReadData st (blocks : list BlobBlock) (buf : list u8) (size offset : Z) : Z * list u8 * rt :=
  let '(ok, buf, devs) := read_all (rt_devs st) buf (io_plan blocks 0 offset size size) in
  (if ok then 0 else 1, buf, set_devs st devs).

(** ** Allocation *)

Definition AllocateFromTarget st t (size : Z) : option (list Block) * rt :=
  if tg_remaining t <? size then (None, st)
  else
    match rt_devs st !! tg_pool t with
    | None => (None, st)
    | Some d =>
        let '(first, d) := if dev_inline d (tg_query t) then dev_alloc d size else (None, d) in
        match first with
        | Some bs => (Some bs, set_devs st (<[tg_pool t := d]> (rt_devs st)))
        | None => let '(second, d) := dev_alloc d size in (second, set_devs st (<[tg_pool t := d]> (rt_devs st)))
        end
    end.

(** Growing the last block into its spare capacity: the blocks, and by how much. *)
Definition fill_spare (blocks : list BlobBlock) (additional_size : Z) : list BlobBlock * Z :=
  match last blocks with
  | Some blk =>
      if bb_size blk <? bb_capacity blk then
        let fill := Z.min (bb_capacity blk - bb_size blk) additional_size in
        (<[(length blocks - 1)%nat :=
            mkBlobBlock (bb_pool blk) (bb_query blk) (bb_offset blk) (bb_size blk + fill) (bb_capacity blk)]> blocks, fill)
      else (blocks, 0)
  | None => (blocks, 0)
  end.

(** The mirror with the free space as it is now. *)
Definition available_targets st : list TargetInfo :=
  map (fun t => match rt_targets st !! tg_pool t with Some c => set_remaining t (tg_remaining c) | None => t end)
    (rt_target_list st).

(** The filters by persistence level and by predicted device health. *)
Definition level_ok (min_persistence_level : Z) t : bool :=
  if 0 <? min_persistence_level then min_persistence_level <=? tg_persistence t else true.
Definition health_ok t : bool :=
  if 7 <? tg_ttl t then true else if 1 <=? tg_ttl t then tg_persistence t <? kLongTerm else false.

(** The blob blocks made of the device's, the logical bytes left, the physical
    bytes taken. *)
Fixpoint place_blocks t (need : Z) (bs : list Block) : list BlobBlock * Z * Z :=
  match bs with
  | [] => ([], need, 0)
  | x :: bs =>
      let logical := Z.min (b_size x) need in
      let '(blocks, rest, physical) := place_blocks t (need - logical) bs in
      (mkBlobBlock (tg_pool t) (tg_query t) (b_offset x) logical (b_size x) :: blocks, rest, u64 (b_size x + physical))
  end.

Definition debit st (pool : TagId) (physical : Z) : rt :=
  match rt_targets st !! pool with
  | Some t =>
      set_targets st (<[pool := set_remaining t (if physical <? tg_remaining t then tg_remaining t - physical else 0)]> (rt_targets st))
  | None => st
  end.

(** One target of the loop of [ExtendBlob]. *)
Definition extend_on st b (pool : TagId) (preallocate remaining : Z) : rt * BlobInfo * Z :=
  match rt_targets st !! pool with
  | None => (st, b, remaining)
  | Some t =>
      let logical_need := Z.min remaining (tg_remaining t) in
      if logical_need =? 0 then (st, b, remaining)
      else
        let req := Z.min (Z.max logical_need preallocate) (tg_remaining t) in
        let '(out_blocks, st) := AllocateFromTarget st t req in
        match out_blocks with
        | None | Some [] => (st, b, remaining)
        | Some bs =>
            let '(blocks, need, physical) := place_blocks t logical_need bs in
            let placed := logical_need - need in
            (debit st pool physical, with_layout b (bi_blocks b ++ blocks) (u64 (bi_total b + placed)), remaining - placed)
        end
  end.

Fixpoint extend_loop st b (ts : list TargetInfo) (preallocate remaining : Z) : rt * BlobInfo * Z :=
  match ts with
  | [] => (st, b, remaining)
  | t :: ts =>
      if remaining =? 0 then (st, b, remaining)
      else let '(st, b, remaining) := extend_on st b (tg_pool t) preallocate remaining in extend_loop st b ts preallocate remaining
  end.

(** The error code, and the state. *)
Definition ExtendBlob st b (offset size score min_persistence_level preallocate : Z) : Z * rt * BlobInfo :=
  let required_size := u64 (offset + size) in
  if required_size <=? bi_total b then (0, st, b)
  else
    let additional_size := required_size - bi_total b in
    let '(blocks, fill) := fill_spare (bi_blocks b) additional_size in
    let b := with_layout b blocks (u64 (bi_total b + fill)) in
    let additional_size := additional_size - fill in
    if additional_size =? 0 then (0, st, with_layout b (bi_blocks b) required_size)
    else if (length (rt_target_list st) =? 0)%nat then (1, st, b)
    else
      let '(ordered, dpe) := SelectTargets (rt_dpe st) (available_targets st) score additional_size in
      let st := set_dpe st dpe in
      match List.filter (fun t => level_ok min_persistence_level t && health_ok t) ordered with
      | [] => (2, st, b)
      | ordered =>
          let '(st, b, remaining) := extend_loop st b ordered preallocate additional_size in
          if 0 <? remaining then (3, st, with_layout b (bi_blocks b) (ComputeTotalSizeSlow (bi_blocks b)))
          else (0, st, with_layout b (bi_blocks b) required_size)
      end.

(** ** Release *)

(** The physical extent of a block. *)
Definition free_block blk : Block := mkBlock (bb_offset blk) (bb_capacity blk) 0.

Definition credit st (pool : TagId) (bytes : Z) : rt :=
  match rt_targets st !! pool with
  | Some t => set_targets st (<[pool := set_remaining t (u64 (tg_remaining t + bytes))]> (rt_targets st))
  | None => st
  end.

Definition free_pool st (blocks : list BlobBlock) (pool : TagId) : rt :=
  let bs := map free_block (List.filter (fun blk => bool_decide (bb_pool blk = pool)) blocks) in
  match rt_devs st !! pool with
  | None => st
  | Some d =>
      let '(ok, d) := dev_free d bs in
      let st := set_devs st (<[pool := d]> (rt_devs st)) in
      if ok then credit st pool (fold_left (fun n x => u64 (n + b_size x)) bs 0) else st
  end.

(** [FreeBlocks] once per pool. *)
Definition free_by_pool st (blocks : list BlobBlock) : rt :=
  fold_left (fun st pool => free_pool st blocks pool) (remove_dups (map bb_pool blocks)) st.

Definition FreeAllBlobBlocks st b : rt * BlobInfo := (free_by_pool st (bi_blocks b), with_layout b [] 0).

(** Whether the blob was cleared. *)
Definition ClearBlob st b (score offset : Z) : bool * rt * BlobInfo :=
  if f32_negative score || f32_above_one score then (false, st, b)
  else if negb (offset =? 0) || (bi_total b =? 0) then (false, st, b)
  else let '(st, b) := FreeAllBlobBlocks st b in (true, st, b).

(** The blocks kept and dropped by a shrink. *)
Fixpoint split_blocks (block_start new_size : Z) (blocks : list BlobBlock) : list BlobBlock * list BlobBlock :=
  match blocks with
  | [] => ([], [])
  | blk :: blocks =>
      let block_end := u64 (block_start + bb_size blk) in
      let '(keep, drop) := split_blocks block_end new_size blocks in
      if new_size <=? block_start then (keep, blk :: drop)
      else if new_size <? block_end
      then (mkBlobBlock (bb_pool blk) (bb_query blk) (bb_offset blk) (new_size - block_start) (bb_capacity blk) :: keep, drop)
      else (blk :: keep, drop)
  end.

Definition zeros (n : Z) : list u8 := replicate (Z.to_nat n) Byte.x00.

(** Writing zeros over [offset, offset + n) through a pool buffer: the error of
    the write, or [None] when there is no buffer. *)
Definition zero_fill st (blocks : list BlobBlock) (n offset : Z) (start_idx : nat) (start_off : Z) : option Z * rt :=
  let '(ok, st) := alloc_buffer st n in
  if (ok : bool) then
    let '(err, st) := ModifyExistingData st blocks (zeros n) n offset start_idx start_off in
    (Some err, free_buffer st n)
  else (None, st).

Definition ResizeBlob st b (new_size score min_persistence_level : Z) : Z * rt * BlobInfo :=
  if new_size =? bi_total b then (0, st, b)
  else if bi_total b <? new_size then
    let current_size := bi_total b in
    let '(err, st, b) := ExtendBlob st b 0 new_size score min_persistence_level 0 in
    if negb (err =? 0) then (err, st, b)
    else
      let '(zero, st) := zero_fill st (bi_blocks b) (new_size - current_size) current_size 0 0 in
      (default 4 zero, st, b)
  else
    let '(keep, drop) := split_blocks 0 new_size (bi_blocks b) in
    (0, free_by_pool st drop, with_layout b keep new_size).

(** * Handlers *)

(** A region of a vectored request; its buffer is [None] when null. *)
Record segment := mkSegment { sg_offset : Z; sg_size : Z; sg_data : option (list u8) }.

Record Context := mkContext {
  cx_emulate : bool; cx_min_persistence : Z; cx_preallocate : Z; cx_transform : Z; cx_lib : Z; cx_preset : Z; cx_trace : Z;
  cx_replica : Z; cx_replica_flags : Z; cx_replica_min_score : Z }.
Definition Context_new : Context := mkContext false 0 0 0 0 2 0 0 0 float_minus_one.

Record PutBlobTask := mkPut {
  pt_tag : TagId; pt_name : str; pt_page : option Z; pt_offset : Z; pt_size : Z; pt_data : option (list u8); pt_score : Z;
  pt_context : Context; pt_flags : Z; pt_segments : list segment }.

Definition kAllReplicas : Z := -1.
Definition kCtePutReplace : Z := 1.
Definition REPLICA_PERSISTENT : Z := 2.
Definition REPLICA_FIXED : Z := 1.
Definition REPLICA_UPDATE_ONLY : Z := 8.
Definition REPLICA_VERIFY_COMPLETE : Z := 16.
Definition kReplicaAbsentRc : Z := 12.

(** The per-page suffix of a GPU client. *)
Definition page_name (name : str) (page : option Z) : str :=
  match page with Some i => name ++ lit "_pi" ++ to_string i | None => name end.

(** The union of the segments, or the return code of the first bad one. *)
Fixpoint union_of (emulate : bool) (lo hi : Z) (segs : list segment) : Z + Z * Z :=
  match segs with
  | [] => inr (lo, u64 (hi - lo))
  | s :: segs =>
      if sg_size s =? 0 then inl 2
      else if (if sg_data s is None then negb emulate else false) then inl 3
      else
        let e := u64 (sg_offset s + sg_size s) in
        union_of emulate (if sg_offset s <? lo then sg_offset s else lo) (if hi <? e then e else hi) segs
  end.

Definition put_range (t : PutBlobTask) : Z + Z * Z :=
  match pt_segments t with
  | [] => inr (pt_offset t, pt_size t)
  | segs => union_of (cx_emulate (pt_context t)) (2 ^ 64 - 1) 0 segs
  end.

Definition CheckBlobExists st (name : str) (tag : TagId) : option BlobInfo :=
  match name with [] => None | _ => mt_blobs (rt_meta st) !! composite_key tag name end.

Definition blob_ref (tag : TagId) (name : str) : TxnBlobRef := mkBlobRef (fst tag) (snd tag) name.

Definition CreateNewBlob st (name : str) (tag : TagId) (score : Z) : BlobInfo * rt :=
  let b := with_score (mkBlobInfo name [] [] 0 0 0 2 0 0) score in
  let st := set_meta st (put_blob (rt_meta st) (composite_key tag name) b) in
  (b, wal_log st (TxnLog.CreateNewBlob (mkTxnCreateNewBlob (blob_ref tag name) score))).

Definition txn_block blk : TxnExtendBlobBlock :=
  mkTxnBlock (fst (bb_pool blk)) (snd (bb_pool blk)) (bb_query blk) (bb_offset blk) (bb_size blk).

(** The full-replacement record of a layout, unless it is empty. *)
Definition log_layout st (tag : TagId) (name : str) (blocks : list BlobBlock) : rt :=
  match blocks with
  | [] => st
  | _ => wal_log st (TxnLog.ExtendBlob (mkTxnExtendBlob (blob_ref tag name) (map txn_block blocks)))
  end.

Definition store_blob st (tag : TagId) (name : str) b : rt := set_meta st (put_blob (rt_meta st) (composite_key tag name) b).

(** The writes of a put's data, in list order; the first error ends them. *)
Fixpoint write_segments st (blocks : list BlobBlock) (segs : list segment) (start_idx : nat) (start_off : Z) : Z * rt :=
  match segs with
  | [] => (0, st)
  | s :: segs =>
      let '(err, st) := ModifyExistingData st blocks (default [] (sg_data s)) (sg_size s) (sg_offset s) start_idx start_off in
      if negb (err =? 0) then (err, st) else write_segments st blocks segs start_idx start_off
  end.

Definition put_segments (t : PutBlobTask) : list segment :=
  match pt_segments t with [] => [mkSegment (pt_offset t) (pt_size t) (pt_data t)] | segs => segs end.

(** Zeroing the hole of a sparse write, then the data: the return code. *)
Definition put_data st (t : PutBlobTask) (blocks : list BlobBlock) (old_size offset : Z) (hint_idx : nat) (hint_off : Z) : Z * rt :=
  let '(hole, st) :=
    if old_size <? offset then zero_fill st blocks (offset - old_size) old_size hint_idx hint_off else (Some 0, st) in
  match hole with
  | None => (6, st)
  | Some err =>
      if negb (err =? 0) then (20 + err, st)
      else
        let '(err, st) := write_segments st blocks (put_segments t) hint_idx hint_off in
        (if err =? 0 then 0 else 20 + err, st)
  end.

(** The tag's accounting; a tag not known here gets an entry without a name. *)
Definition add_tag_size (m : Meta) (tag : TagId) (change : Z) : Meta :=
  let t := default (TagInfo_new [] tag) (mt_tags m !! tag) in
  BlobMeta.set_tags m (<[tag := mkTagInfo (ti_name t) (ti_id t) (u64 (ti_total t + change)) (ti_aliases t)]> (mt_tags m)).

(** ** Replicas *)

Definition set_replica b (i : nat) (r : Replica) : BlobInfo := set_replicas b (<[i := r]> (bi_replicas b)).

Definition MinPersistenceLevel (r : Replica) (requested : Z) : Z :=
  if negb (Z.land (rp_flags r) REPLICA_PERSISTENT =? 0) && (requested <? 1) then 1 else requested.

(** A blob that borrows the blocks of a replica. *)
Definition staging_of b (r : Replica) (score : Z) : BlobInfo :=
  with_layout (with_score (mkBlobInfo (bi_name b) [] [] 0 0 0 2 0 0) score) (rp_blocks r) (ComputeTotalSizeSlow (rp_blocks r)).

(** [replica_idx] is a slot number from 1. The result is the error code. *)
Definition WriteReplicaData st (t : PutBlobTask) b (name : str) (replica_idx offset size requested_score fallback_score : Z)
    : Z * rt * BlobInfo :=
  let cx := pt_context t in
  match GetReplica (bi_replicas b) replica_idx true with
  | (_, None) => (8, st, b)
  | (rs, Some i) =>
      let r := nth i rs Replica_new in
      let flags := Z.lor (rp_flags r)
                     (Z.ldiff (cx_replica_flags cx) (Z.lor REPLICA_UPDATE_ONLY REPLICA_VERIFY_COMPLETE)) in
      let min_score := if f32_negative (cx_replica_min_score cx) then rp_min_score r else cx_replica_min_score cx in
      let r := mkReplica (rp_name r) (rp_blocks r) (rp_total r) (rp_score r) flags (cx_transform cx) min_score in
      let min_persistence := MinPersistenceLevel r (cx_min_persistence cx) in
      let score :=
        if f32_negative requested_score then if f32_negative (rp_score r) then fallback_score else rp_score r
        else requested_score in
      let staging := staging_of b r score in
      let old_size := bi_total staging in
      let '(err, st, staging) := ExtendBlob st staging offset size score min_persistence (cx_preallocate cx) in
      let '(rc, st) :=
        if negb (err =? 0) then (10 + err, st)
        else if cx_emulate cx then (0, st)
        else put_data st t (bi_blocks staging) old_size offset 0 0 in
      let r := mkReplica (rp_name r) (bi_blocks staging) (bi_total staging) (if rc =? 0 then score else rp_score r)
                 (rp_flags r) (rp_transform r) (rp_min_score r) in
      let b := set_replica (set_replicas b rs) i r in
      let st :=
        if (rc =? 0) && negb (cx_emulate cx) && negb (length (rp_blocks r) =? 0)%nat then
          wal_log st (TxnLog.ExtendReplica (mkTxnExtendReplica (blob_ref (pt_tag t) name) replica_idx (rp_name r) (rp_score r)
            (rp_flags r) (rp_transform r) (rp_min_score r) (map txn_block (rp_blocks r))))
        else st in
      (rc, st, b)
  end.

(** Write-through: the existing replicas from slot [i], [n] of them. *)
Fixpoint write_through st (t : PutBlobTask) b (name : str) (offset size fallback_score : Z) (i : Z) (n : nat) : Z * rt * BlobInfo :=
  match n with
  | O => (0, st, b)
  | S n =>
      let '(rc, st, b) := WriteReplicaData st t b name i offset size float_minus_one fallback_score in
      if negb (rc =? 0) then (rc, st, b) else write_through st t b name offset size fallback_score (i + 1) n
  end.

(** ** PutBlob *)

(** The replica a put is diverted to: its slot, 0 for none; or the return code. *)
Definition put_replica_target b (cx : Context) : Z + list Replica * Z :=
  if (cx_replica cx =? kCacheReplica) || (0 <? cx_replica cx) then
    let update_only := negb (Z.land (cx_replica_flags cx) REPLICA_UPDATE_ONLY =? 0) in
    let '(rs, i) := ResolveReplicaSel (bi_replicas b) (cx_replica cx) (negb update_only) in
    if update_only && ((i =? 0) || (rp_total (nth (Z.to_nat (i - 1)) rs Replica_new) =? 0)) then inl kReplicaAbsentRc
    else inr (rs, i)
  else inr (bi_replicas b, 0).

(** The write of the primary copy and of the copies that follow it. *)
Definition put_primary st (t : PutBlobTask) b (name : str) (offset size score : Z) : Z * rt * BlobInfo :=
  let cx := pt_context t in
  let tag := pt_tag t in
  let replace := negb (Z.land (pt_flags t) kCtePutReplace =? 0) in
  let old_size := bi_total b in
  let '(err, st, b') :=
    if replace then ResizeBlob st b (u64 (offset + size)) score (cx_min_persistence cx)
    else ExtendBlob st b offset size score (cx_min_persistence cx) (cx_preallocate cx) in
  if negb (err =? 0) then (10 + err, st, b')
  else
    let tail := negb replace && (old_size <=? offset) && negb (length (bi_blocks b) =? 0)%nat in
    let hint_idx := if tail then (length (bi_blocks b) - 1)%nat else 0%nat in
    let hint_off := if tail then old_size - bb_size (default (mkBlobBlock (0, 0) [] 0 0 0) (last (bi_blocks b))) else 0 in
    let st := if cx_emulate cx then st else log_layout st tag name (bi_blocks b') in
    let '(rc, st) := if cx_emulate cx then (0, st) else put_data st t (bi_blocks b') old_size offset hint_idx hint_off in
    if negb (rc =? 0) then (rc, st, b')
    else
      let '(rc, st, b') :=
        if cx_replica cx =? kAllReplicas
        then write_through st t b' name offset size score 1 (length (bi_replicas b'))
        else (0, st, b') in
      if negb (rc =? 0) then (rc, st, b')
      else
        let before := bi_transform b' in
        let b' := if cx_transform cx =? 0 then b' else MarkTransformed b' (cx_transform cx) in
        let st := if bi_transform b' =? before then st
                  else wal_log st (TxnLog.SetBlobTransform (mkTxnSetBlobTransform (blob_ref tag name) (bi_transform b'))) in
        let b' := with_codec b' (cx_lib cx) (cx_preset cx) (cx_trace cx) in
        let st := set_meta st (add_tag_size (rt_meta st) tag (bi_total b' - old_size)) in
        (0, st, with_score b' score).

Definition PutBlob st (t : PutBlobTask) : Z * rt :=
  let cx := pt_context t in
  let name := page_name (pt_name t) (pt_page t) in
  let tag := pt_tag t in
  match put_range t with
  | inl rc => (rc, st)
  | inr (offset, size) =>
      if size =? 0 then (2, st)
      else if match pt_segments t with [] => if pt_data t is None then negb (cx_emulate cx) else false | _ => false end
      then (3, st)
      else if (length name =? 0)%nat then (4, st)
      else
        let found := CheckBlobExists st name tag in
        let score :=
          if f32_negative (pt_score t) then match found with Some b => bi_score b | None => float_one end else pt_score t in
        if f32_above_one score then (5, st)
        else
          let '(b, st) := match found with Some b => (b, st) | None => CreateNewBlob st name tag score end in
          match put_replica_target b cx with
          | inl rc => (rc, st)
          | inr (rs, i) =>
              let b := set_replicas b rs in
              let '(rc, st, b) :=
                if 0 <? i then WriteReplicaData st t b name i offset size (pt_score t) score
                else put_primary st t b name offset size score in
              (rc, store_blob st tag name b)
          end
  end.

(** ** GetBlob *)

Record GetBlobTask := mkGet {
  gt_tag : TagId; gt_name : str; gt_page : option Z; gt_offset : Z; gt_size : Z; gt_data : list u8; gt_replica : Z;
  gt_emulate : bool; gt_segments : list segment }.

Fixpoint get_union (lo hi : Z) (segs : list segment) : option (Z * Z) :=
  match segs with
  | [] => Some (lo, u64 (hi - lo))
  | s :: segs =>
      if (sg_size s =? 0) || (if sg_data s is None then true else false) then None
      else
        let e := u64 (sg_offset s + sg_size s) in
        get_union (if sg_offset s <? lo then sg_offset s else lo) (if hi <? e then e else hi) segs
  end.

Definition get_range (t : GetBlobTask) : option (Z * Z) :=
  match gt_segments t with [] => Some (gt_offset t, gt_size t) | segs => get_union (2 ^ 64 - 1) 0 segs end.

Definition get_segments (t : GetBlobTask) : list segment :=
  match gt_segments t with [] => [mkSegment (gt_offset t) (gt_size t) (Some (gt_data t))] | segs => segs end.

(** The buffers after the reads; the first error ends them. *)
Fixpoint read_segments st (blocks : list BlobBlock) (segs : list segment) : Z * list (list u8) * rt :=
  match segs with
  | [] => (0, [], st)
  | s :: segs =>
      let '(err, buf, st) := ReadData st blocks (default [] (sg_data s)) (sg_size s) (sg_offset s) in
      if negb (err =? 0) then (err, buf :: map (fun s => default [] (sg_data s)) segs, st)
      else let '(err, bufs, st) := read_segments st blocks segs in (err, buf :: bufs, st)
  end.

(** The blocks, the size and the transform flags of the copy a read names. *)
Definition read_source b (replica : Z) : option (list BlobBlock * Z * Z) :=
  if (replica =? kCacheReplica) || (0 <? replica) then
    let '(rs, i) := ResolveReplicaSel (bi_replicas b) replica false in
    if i =? 0 then None
    else let r := nth (Z.to_nat (i - 1)) rs Replica_new in Some (rp_blocks r, rp_total r, rp_transform r)
  else if replica <? 0 then None
  else Some (bi_blocks b, bi_total b, bi_transform b).

(** The return code, the buffers of the regions, the transform flags if they were
    reported. *)
Definition GetBlob st (t : GetBlobTask) : Z * list (list u8) * option Z * rt :=
  let name := page_name (gt_name t) (gt_page t) in
  let bufs := map (fun s => default [] (sg_data s)) (get_segments t) in
  match get_range t with
  | None => (1, bufs, None, st)
  | Some (offset, size) =>
      if (size =? 0) || (length name =? 0)%nat then (1, bufs, None, st)
      else
        match CheckBlobExists st name (gt_tag t) with
        | None => (1, bufs, None, st)
        | Some b =>
            match read_source b (gt_replica t) with
            | None => (1, bufs, None, st)
            | Some (blocks, total, transform) =>
                if total =? 0 then (1, bufs, if gt_replica t =? 0 then Some transform else None, st)
                else if gt_emulate t then (0, bufs, Some transform, st)
                else let '(err, bufs, st) := read_segments st blocks (get_segments t) in (err, bufs, Some transform, st)
            end
        end
  end.

(** ** TruncateBlob *)

Definition sub_tag_size (m : Meta) (tag : TagId) (bytes : Z) : Meta :=
  match mt_tags m !! tag with
  | Some t =>
      BlobMeta.set_tags m (<[tag := mkTagInfo (ti_name t) (ti_id t)
                                     (if bytes <=? ti_total t then ti_total t - bytes else 0) (ti_aliases t)]> (mt_tags m))
  | None => m
  end.

Definition TruncateBlob st (tag : TagId) (name : str) (new_size : Z) : Z * rt :=
  match name with
  | [] => (1, st)
  | _ =>
      match CheckBlobExists st name tag with
      | None => (0, st)
      | Some b =>
          let old_size := bi_total b in
          let '(err, st, b) := ResizeBlob st b new_size (bi_score b) 0 in
          let st := store_blob st tag name b in
          if negb (err =? 0) then (10 + err, st)
          else
            let final_size := bi_total b in
            let st :=
              match mt_tags (rt_meta st) !! tag with
              | None => st
              | Some _ =>
                  set_meta st (if old_size <=? final_size then add_tag_size (rt_meta st) tag (final_size - old_size)
                               else sub_tag_size (rt_meta st) tag (old_size - final_size))
              end in
            (0, log_layout st tag name (bi_blocks b))
      end
  end.

(** ** DelBlob *)

Definition DelBlob st (tag : TagId) (name : str) : Z * rt :=
  match name with
  | [] => (1, st)
  | _ =>
      match CheckBlobExists st name tag with
      | None => (1, st)
      | Some b =>
          let blob_size := bi_total b in
          let st := free_by_pool st (bi_blocks b ++ concat (map rp_blocks (bi_replicas b))) in
          let st := set_meta st (sub_tag_size (rt_meta st) tag blob_size) in
          let st := set_meta st (set_blobs (rt_meta st) (delete (composite_key tag name) (mt_blobs (rt_meta st)))) in
          (0, wal_log st (TxnLog.DelBlob (blob_ref tag name)))
      end
  end.

(** ** ReorganizeBlob *)

(** The best score of a persistent replica that has blocks. *)
Definition best_persistent (rs : list Replica) : Z :=
  fold_left (fun best r =>
    if negb (Z.land (rp_flags r) REPLICA_PERSISTENT =? 0) && negb (length (rp_blocks r) =? 0)%nat then
      let s := if f32_negative (rp_score r) then 0 else rp_score r in if f32_lt best s then s else best
    else best) rs float_minus_one.

(** The attempts to place the bytes again, from attempt [k] on: the attempt that
    succeeded and the staged blob. *)
Fixpoint replace_attempts st (staging : BlobInfo) (data : list u8) (size new_score current_score min_persistence : Z)
    (k : nat) (n : nat) : option (nat * Z * BlobInfo) * rt :=
  match n with
  | O => (None, st)
  | S n =>
      let score := if (k <? 2)%nat then new_score else current_score in
      let '(err, st, staging) := ExtendBlob st staging 0 size score min_persistence 0 in
      let '(err, st) :=
        if err =? 0 then ModifyExistingData st (bi_blocks staging) data size 0 0 0 else (err, st) in
      if err =? 0 then (Some (k, score, staging), st)
      else
        let '(st, staging) := FreeAllBlobBlocks st staging in
        replace_attempts st staging data size new_score current_score min_persistence (S k) n
  end.

Definition bad_score (s : Z) : bool := f32_negative s || f32_above_one s.

(** Dropping a primary whose bytes a better persistent replica has. *)
Definition drop_primary st (tag : TagId) (name : str) b (new_score : Z) : rt :=
  let blob_size := bi_total b in
  let '(st, b) := FreeAllBlobBlocks st b in
  let st := store_blob st tag name (with_score b new_score) in
  let st := set_meta st (sub_tag_size (rt_meta st) tag blob_size) in
  wal_log st (TxnLog.ClearBlob (blob_ref tag name)).

(** The primary placed anew, once its bytes have been read. *)
Definition replace_primary st (tag : TagId) (name : str) b (data : list u8) (new_score : Z) : Z * rt :=
  let current_score := bi_score b in
  let size := bi_total b in
  let '(cleared, st, b) := ClearBlob st b current_score 0 in
  if negb cleared then (6, free_buffer st size)
  else
    let st := store_blob st tag name b in
    match replace_attempts st BlobInfo_new data size new_score current_score 0 0 3 with
    | (None, st) => (7, free_buffer st size)
    | (Some (k, score, staging), st) =>
        let b := with_score (with_layout b (bi_blocks staging) (bi_total staging)) score in
        let st := log_layout (store_blob st tag name b) tag name (bi_blocks b) in
        (if (k =? 2)%nat then 7 else 0, free_buffer st size)
    end.

Definition ReorganizeBlobInternal st (tag : TagId) (name : str) (new_score : Z) : Z * rt :=
  if (length name =? 0)%nat || bad_score new_score then (1, st)
  else
    match CheckBlobExists st name tag with
    | None => (3, st)
    | Some b =>
        let current_score := bi_score b in
        let size := bi_total b in
        let best := best_persistent (bi_replicas b) in
        if f32_near new_score current_score (rt_threshold st) then (0, st)
        else if size =? 0 then (0, st)
        else if negb (f32_negative best) && f32_lt new_score best then (0, drop_primary st tag name b new_score)
        else
          let '(ok, st) := alloc_buffer st size in
          if negb ok then (5, st)
          else
            let '(err, data, st) := ReadData st (bi_blocks b) (zeros size) size 0 in
            if negb (err =? 0) then (6, free_buffer st size)
            else
              replace_primary st tag name b data new_score
    end.

(** ** Replicas that move or go *)

(** [s >= 0.0f] *)
Definition f32_nonneg (s : Z) : bool := SFleb (S754_zero false) (f32_of_bits s).

Definition ReplicaBlocksOnFailingTarget st (r : Replica) : bool :=
  existsb (fun blk =>
    match rt_targets st !! bb_pool blk with
    | Some t => (tg_ttl t <? 1) || ((tg_ttl t <=? 7) && (tg_persistence t =? kLongTerm))
    | None => false
    end) (rp_blocks r).

Definition with_rep_layout (r : Replica) (blocks : list BlobBlock) (total : Z) : Replica :=
  mkReplica (rp_name r) blocks total (rp_score r) (rp_flags r) (rp_transform r) (rp_min_score r).
Definition with_rep_score (r : Replica) (score : Z) : Replica :=
  mkReplica (rp_name r) (rp_blocks r) (rp_total r) score (rp_flags r) (rp_transform r) (rp_min_score r).

Definition log_replica st (tag : TagId) (name : str) (idx : Z) (r : Replica) : rt :=
  wal_log st (TxnLog.ExtendReplica (mkTxnExtendReplica (blob_ref tag name) idx (rp_name r) (rp_score r) (rp_flags r)
    (rp_transform r) (rp_min_score r) (map txn_block (rp_blocks r)))).

(** Moving the bytes of the replica in slot [idx] of [b]. *)
Definition move_replica st (tag : TagId) (name : str) b (idx : Z) (r : Replica) (new_score current_score : Z) : Z * rt :=
  let size := rp_total r in
  let slot := Z.to_nat (idx - 1) in
  let '(ok, st) := alloc_buffer st size in
  if negb ok then (5, st)
  else
    let '(err, data, st) := ReadData st (rp_blocks r) (zeros size) size 0 in
    if negb (err =? 0) then (6, free_buffer st size)
    else
      let st := store_blob st tag name (set_replica b slot (with_rep_layout r [] 0)) in
      let st := free_by_pool st (rp_blocks r) in
      match replace_attempts st BlobInfo_new data size new_score current_score (MinPersistenceLevel r 0) 0 3 with
      | (None, st) => (7, free_buffer st size)
      | (Some (k, score, staging), st) =>
          let r := with_rep_score (with_rep_layout r (bi_blocks staging) (bi_total staging)) score in
          let st := log_replica (store_blob st tag name (set_replica b slot r)) tag name idx r in
          (if (k =? 2)%nat then 7 else 0, free_buffer st size)
      end.

Definition ReorganizeReplicaInternal st (tag : TagId) (name : str) (replica_idx new_score : Z) : Z * rt :=
  if (length name =? 0)%nat || (replica_idx <=? 0) || bad_score new_score then (1, st)
  else
    match CheckBlobExists st name tag with
    | None => (3, st)
    | Some b =>
        let '(rs, idx) := ResolveReplicaSel (bi_replicas b) replica_idx false in
        if idx =? 0 then (3, st)
        else
          let slot := Z.to_nat (idx - 1) in
          match rs !! slot with
          | None => (3, st)
          | Some r =>
              let new_score :=
                if f32_nonneg (rp_min_score r) && f32_lt new_score (rp_min_score r) then rp_min_score r else new_score in
              let fixed := negb (Z.land (rp_flags r) REPLICA_FIXED =? 0) in
              let evacuating := fixed && ReplicaBlocksOnFailingTarget st r in
              if fixed && negb evacuating then (0, st)
              else
                let current_score := if f32_nonneg (rp_score r) then rp_score r else bi_score b in
                if negb evacuating && f32_near new_score current_score (rt_threshold st) then (0, st)
                else if rp_total r =? 0
                then (0, store_blob st tag name (set_replica b slot (with_rep_score r new_score)))
                else move_replica st tag name b idx r new_score current_score
          end
    end.

Definition ReorganizeBlob st (tag : TagId) (name : str) (replica new_score : Z) : Z * rt :=
  if 0 <? replica then ReorganizeReplicaInternal st tag name replica new_score
  else if replica <? 0 then (1, st)
  else ReorganizeBlobInternal st tag name new_score.

(** The bytes freed, and the return code. *)
Definition ReclaimCacheReplica st (tag : TagId) (name : str) : Z * Z * rt :=
  match CheckBlobExists st name tag with
  | None => (0, 1, st)
  | Some b =>
      let '(_, idx) := CacheReplicaIndex (bi_replicas b) false in
      let slot := Z.to_nat (idx - 1) in
      match (if 0 <? idx then bi_replicas b !! slot else None) with
      | None => (0, 0, st)
      | Some r =>
          match rp_blocks r with
          | [] => (0, 0, st)
          | blocks =>
              let freed := fold_left (fun n blk => u64 (n + bb_capacity blk)) blocks 0 in
              let st := free_by_pool st blocks in
              let r := with_rep_layout r [] 0 in
              (freed, 0, log_replica (store_blob st tag name (set_replica b slot r)) tag name idx r)
          end
      end
  end.

(** [MultiPutBlob] once its batch is decoded: the puts that succeeded, the first
    error. *)
Fixpoint MultiPutBlob st (puts : list PutBlobTask) (num_ok first_rc : Z) : Z * Z * rt :=
  match puts with
  | [] => (num_ok, first_rc, st)
  | t :: puts =>
      let '(rc, st) := PutBlob st t in
      if rc =? 0 then MultiPutBlob st puts (num_ok + 1) first_rc
      else MultiPutBlob st puts num_ok (if first_rc =? 0 then rc else first_rc)
  end.
End Operations.
