(* ===== verification/BlobBlocks.v ===== *)
(** The blocks of the CTE's blobs and what they hold: ownership of device
    extents, contents, and what [ModifyExistingData], [ReadData] and the release
    of blocks do to them. *)
From Stdlib Require Import ZArith Lia.
From coqutil Require Import Byte.
From stdpp Require Import base list gmap.
From S2P Require Import Prelude Extents BlockAllocator TxnLog Text BlobMeta BlobDevice BlobStore.

Open Scope Z_scope.

(** * Byte strings *)

Definition len (l : list u8) : Z := Z.of_nat (length l).

Lemma length_bytes_at f a n : length (bytes_at f a n) = Z.to_nat n.
Proof. unfold bytes_at. rewrite length_map, length_seqZ. done. Qed.

Lemma lookup_bytes_at f a n i : 0 <= i < n -> bytes_at f a n !! Z.to_nat i = Some (f (a + i)).
Proof.
  intros Hi. unfold bytes_at. rewrite list_lookup_fmap, lookup_seqZ_lt by lia. cbn. do 2 f_equal. lia.
Qed.

Lemma bytes_at_ext f g a n : (forall i, 0 <= i < n -> f (a + i) = g (a + i)) -> bytes_at f a n = bytes_at g a n.
Proof.
  intros Hfg. apply list_eq. intros i. destruct (decide (Z.of_nat i < n)) as [Hi|Hi].
  - replace i with (Z.to_nat (Z.of_nat i)) by lia. rewrite !lookup_bytes_at by lia. f_equal. apply Hfg. lia.
  - rewrite !lookup_ge_None_2 by (rewrite length_bytes_at; lia). done.
Qed.

Lemma length_slice data off n : 0 <= off -> 0 <= n -> off + n <= len data -> length (slice data off n) = Z.to_nat n.
Proof. intros. unfold slice, len in *. rewrite length_take, length_drop. lia. Qed.

Lemma lookup_slice data off n i : 0 <= off -> 0 <= i < n -> slice data off n !! Z.to_nat i = data !! Z.to_nat (off + i).
Proof. intros. unfold slice. rewrite lookup_take_lt by lia. rewrite lookup_drop. f_equal. lia. Qed.

(** * Ownership and contents *)

Section Blocks.
Context {D : Type} `{BlockDeviceLaws D}.
Implicit Types (devs : gmap TagId D) (blk : BlobBlock) (blocks held : list BlobBlock).

Definition blk_extent blk : extent := (bb_offset blk, bb_capacity blk).
Definition on_pool (p : TagId) blocks : list BlobBlock := List.filter (fun blk => bool_decide (bb_pool blk = p)) blocks.

Definition blk_ok devs blk : Prop := 0 <= bb_size blk <= bb_capacity blk /\ is_Some (devs !! bb_pool blk).

(** Each block's physical extent is allocated on its device, to it alone. *)
Definition devs_ok devs blocks : Prop :=
  Forall (blk_ok devs) blocks /\
  forall p d, devs !! p = Some d -> dev_ok d (map blk_extent (on_pool p blocks)).

Definition blk_byte devs blk (i : Z) : u8 :=
  match devs !! bb_pool blk with Some d => dev_byte d (bb_offset blk + i) | None => Byte.x00 end.
Definition blk_bytes devs blk : list u8 := map (blk_byte devs blk) (seqZ 0 (bb_size blk)).
Definition content devs blocks : list u8 := concat (map (blk_bytes devs) blocks).

Definition total_size blocks : Z := zsum bb_size blocks.

(** The physical bytes of these blocks are what they were. *)
Definition same_blocks devs devs' blocks : Prop :=
  forall blk i, blk ∈ blocks -> 0 <= i < bb_capacity blk -> blk_byte devs' blk i = blk_byte devs blk i.

Definition same_pools devs devs' : Prop := forall p, is_Some (devs !! p) -> is_Some (devs' !! p).

Lemma same_blocks_refl devs blocks : same_blocks devs devs blocks.
Proof. by intros ???. Qed.

Lemma same_blocks_trans devs1 devs2 devs3 blocks :
  same_blocks devs1 devs2 blocks -> same_blocks devs2 devs3 blocks -> same_blocks devs1 devs3 blocks.
Proof. intros H1 H2 blk i Hb Hi. rewrite (H2 blk i Hb Hi). by apply H1. Qed.

Lemma same_blocks_sub devs devs' l l' : l ⊆ l' -> same_blocks devs devs' l' -> same_blocks devs devs' l.
Proof. intros Hs H1 blk i Hb. apply H1. by apply Hs. Qed.

Lemma length_blk_bytes devs blk : length (blk_bytes devs blk) = Z.to_nat (bb_size blk).
Proof. unfold blk_bytes. by rewrite length_map, length_seqZ. Qed.

Lemma lookup_blk_bytes devs blk i : 0 <= i < bb_size blk -> blk_bytes devs blk !! Z.to_nat i = Some (blk_byte devs blk i).
Proof. intros Hi. unfold blk_bytes. rewrite list_lookup_fmap, lookup_seqZ_lt by lia. cbn. do 2 f_equal. lia. Qed.

Lemma content_app devs l l' : content devs (l ++ l') = content devs l ++ content devs l'.
Proof. unfold content. by rewrite map_app, concat_app. Qed.

Lemma content_cons devs blk l : content devs (blk :: l) = blk_bytes devs blk ++ content devs l.
Proof. done. Qed.

Lemma len_app a b : len (a ++ b) = len a + len b.
Proof. unfold len. rewrite length_app. lia. Qed.

Lemma len_content devs blocks : Forall (blk_ok devs) blocks -> len (content devs blocks) = total_size blocks.
Proof.
  induction 1 as [|blk l [Hs _] _ IH]; [done|]. rewrite content_cons, len_app, IH. unfold total_size. rewrite zsum_cons.
  unfold len. rewrite length_blk_bytes. lia.
Qed.

Lemma blk_bytes_same devs devs' blk blocks :
  same_blocks devs devs' blocks -> blk ∈ blocks -> bb_size blk <= bb_capacity blk -> blk_bytes devs' blk = blk_bytes devs blk.
Proof.
  intros Hs Hb Hc. apply list_eq. intros i. destruct (decide (Z.of_nat i < bb_size blk)) as [Hi|Hi].
  - replace i with (Z.to_nat (Z.of_nat i)) by lia. rewrite !lookup_blk_bytes by lia. f_equal. apply Hs; [done|lia].
  - rewrite !lookup_ge_None_2 by (rewrite length_blk_bytes; lia). done.
Qed.

Lemma content_same devs devs' blocks : same_blocks devs devs' blocks -> Forall (blk_ok devs) blocks -> content devs' blocks = content devs blocks.
Proof.
  intros Hs Hok. unfold content. f_equal. apply map_ext_in. intros blk Hb. apply list_elem_of_In in Hb.
  eapply blk_bytes_same; [exact Hs|done|]. rewrite Forall_forall in Hok. apply Hok. done.
Qed.

Lemma on_pool_app p l l' : on_pool p (l ++ l') = on_pool p l ++ on_pool p l'.
Proof. apply List.filter_app. Qed.

Lemma on_pool_in p blk blocks : blk ∈ on_pool p blocks <-> blk ∈ blocks /\ bb_pool blk = p.
Proof. unfold on_pool. rewrite !list_elem_of_In, filter_In, bool_decide_eq_true. done. Qed.

(** [devs_ok] only sees the pools and the extents. *)
Definition place blk : TagId * extent := (bb_pool blk, blk_extent blk).

Lemma on_pool_places p l : map blk_extent (on_pool p l) = map snd (List.filter (fun x => bool_decide (fst x = p)) (map place l)).
Proof.
  unfold on_pool. induction l as [|blk l IH]; [done|]. cbn. destruct (bool_decide (bb_pool blk = p)); cbn; by rewrite IH.
Qed.

Lemma filter_Permutation' {A} (f : A -> bool) l l' : l ≡ₚ l' -> List.filter f l ≡ₚ List.filter f l'.
Proof.
  induction 1 as [|x l l' _ IH|x y l|l l' l'' _ IH1 _ IH2]; cbn; [done| | |by rewrite IH1].
  - destruct (f x); by rewrite IH.
  - destruct (f x), (f y); by constructor || done.
Qed.

Lemma devs_ok_places devs l l' : map place l ≡ₚ map place l' -> Forall (blk_ok devs) l' -> devs_ok devs l -> devs_ok devs l'.
Proof.
  intros Hp Hok [_ Hd]. split; [done|]. intros p d Hpd. specialize (Hd p d Hpd). rewrite on_pool_places in *.
  eapply dev_ok_perm; [|exact Hd]. apply Permutation_map. by apply filter_Permutation'.
Qed.

Lemma devs_ok_perm devs l l' : l ≡ₚ l' -> devs_ok devs l -> devs_ok devs l'.
Proof.
  intros Hp Hd. apply (devs_ok_places devs l); [by rewrite Hp| |done]. destruct Hd as [Hf _]. by rewrite <- Hp.
Qed.

Lemma devs_ok_middle devs blk blocks held : devs_ok devs ((blk :: blocks) ++ held) <-> devs_ok devs (blocks ++ blk :: held).
Proof. split; apply devs_ok_perm; cbn; [|symmetry]; apply Permutation_middle. Qed.

Lemma devs_ok_extents devs blocks blk : devs_ok devs blocks -> blk ∈ blocks -> 0 <= bb_offset blk /\ bb_offset blk + bb_capacity blk <= 2 ^ 62.
Proof.
  intros [Hf Hd] Hb. rewrite Forall_forall in Hf. destruct (Hf _ Hb) as [_ [d Hdev]].
  destruct (dev_ok_apart d _ (Hd _ _ Hdev)) as [_ Hr]. rewrite Forall_forall in Hr.
  destruct (Hr (blk_extent blk)) as (? & ? & ?); [|cbn in *; lia].
  apply list_elem_of_fmap_2. by apply on_pool_in.
Qed.

(** A byte of one block is no byte of another. *)
Lemma blocks_apart devs blk held blk' i j d :
  devs_ok devs (blk :: held) -> blk' ∈ held -> devs !! bb_pool blk = Some d -> bb_pool blk' = bb_pool blk ->
  0 <= i < bb_capacity blk -> 0 <= j < bb_capacity blk' -> bb_offset blk + i <> bb_offset blk' + j.
Proof.
  intros [_ Hd] Hb Hdev Hp Hi Hj E. destruct (dev_ok_apart d _ (Hd _ _ Hdev)) as [Ho _]. specialize (Ho (bb_offset blk + i)).
  unfold on_pool in Ho. cbn [List.filter] in Ho. rewrite bool_decide_true in Ho by done. cbn [map] in Ho. rewrite owned_cons in Ho.
  rewrite (proj2 (covers_spec _ _)) in Ho by (cbn; lia). cbn in Ho.
  assert (blk_extent blk' ∈ map blk_extent (on_pool (bb_pool blk) held)) as Hin by (apply list_elem_of_fmap_2; by apply on_pool_in).
  pose proof (owned_in (bb_offset blk + i) _ _ Hin ltac:(cbn; lia)) as Hle. unfold on_pool in Hle. lia.
Qed.

(** * Writing *)

Lemma devs_ok_update devs p d l : devs_ok devs l -> dev_ok d (map blk_extent (on_pool p l)) -> devs_ok (<[p := d]> devs) l.
Proof.
  intros [Hf Hd] Hp. split.
  - eapply Forall_impl; [exact Hf|]. intros blk [Hs Hi]. split; [done|]. by apply lookup_insert_is_Some'; right.
  - intros q d' Hq. destruct (decide (p = q)) as [<-|Hne].
    + rewrite lookup_insert_eq in Hq. by injection Hq as <-.
    + rewrite lookup_insert_ne in Hq by done. by apply Hd.
Qed.

Lemma blk_byte_insert devs p d blk i :
  blk_byte (<[p := d]> devs) blk i = if decide (bb_pool blk = p) then dev_byte d (bb_offset blk + i) else blk_byte devs blk i.
Proof.
  unfold blk_byte. case_decide as E; [by rewrite E, lookup_insert_eq|]. by rewrite lookup_insert_ne.
Qed.

Lemma blk_byte_at devs blk d i : devs !! bb_pool blk = Some d -> blk_byte devs blk i = dev_byte d (bb_offset blk + i).
Proof. intros E. unfold blk_byte. by rewrite E. Qed.

(** A device step that changes none of the bytes callers hold. *)
Lemma same_blocks_step devs p d d' l :
  devs !! p = Some d -> same_on (map blk_extent (on_pool p l)) (dev_byte d) (dev_byte d') -> same_blocks devs (<[p := d']> devs) l.
Proof.
  intros Hp Hs blk i Hb Hi. rewrite blk_byte_insert. case_decide as E; [|done]. subst p. rewrite (blk_byte_at _ _ _ _ Hp).
  apply Hs. assert (blk_extent blk ∈ map blk_extent (on_pool (bb_pool blk) l)) as Hin by (apply list_elem_of_fmap_2; by apply on_pool_in).
  pose proof (owned_in (bb_offset blk + i) _ _ Hin ltac:(cbn; lia)). lia.
Qed.

Lemma owned_inside devs blk held d i : devs_ok devs (blk :: held) -> devs !! bb_pool blk = Some d -> 0 <= i < bb_capacity blk ->
  0 < owned (bb_offset blk + i) (map blk_extent (on_pool (bb_pool blk) (blk :: held))).
Proof.
  intros Hd Hp Hi. assert (blk_extent blk ∈ map blk_extent (on_pool (bb_pool blk) (blk :: held))) as Hin.
  { apply list_elem_of_fmap_2. apply on_pool_in. split; [by left|done]. }
  pose proof (owned_in (bb_offset blk + i) _ _ Hin ltac:(cbn; lia)). lia.
Qed.

Lemma write_io_ok devs blk held data s n bo ok devs' :
  devs_ok devs (blk :: held) -> 0 <= s -> 0 <= n -> s + n <= bb_capacity blk -> 0 <= bo -> bo + n <= len data ->
  write_io devs data (mkIo (bb_pool blk) (bb_offset blk + s) n bo) = (ok, devs') ->
  devs_ok devs' (blk :: held) /\ same_blocks devs devs' held /\
  (forall i, 0 <= i < bb_capacity blk -> ~ s <= i < s + n -> blk_byte devs' blk i = blk_byte devs blk i) /\
  (ok = true -> forall i, s <= i < s + n -> data !! Z.to_nat (bo + (i - s)) = Some (blk_byte devs' blk i)).
Proof.
  intros Hd Hs Hn Hc Hbo Hlen. unfold write_io. cbn [io_pool io_offset io_size io_buffer].
  pose proof Hd as [Hf Hdev]. inversion Hf as [|? ? [Hsz [d Hp]] _]; subst. rewrite Hp.
  destruct (dev_write d (bb_offset blk + s) (slice data bo n)) as [k d'] eqn:E. intros [= <- <-].
  assert (Z.of_nat (length (slice data bo n)) = n) as Hl by (rewrite length_slice; unfold len in *; lia).
  assert (forall i, 0 <= i < Z.of_nat (length (slice data bo n)) ->
    0 < owned (bb_offset blk + s + i) (map blk_extent (on_pool (bb_pool blk) (blk :: held)))) as Hpre.
  { intros i Hi. rewrite Hl in Hi. rewrite <- Z.add_assoc. eapply owned_inside; [exact Hd|exact Hp|lia]. }
  destruct (dev_write_ok d _ _ _ k d' (Hdev _ _ Hp) Hpre E) as (Hok' & Hout & Hin).
  rewrite Hl in Hout. split_and!.
  - by apply devs_ok_update.
  - intros blk' j Hb Hj. rewrite blk_byte_insert. case_decide as Ep; [|done].
    rewrite (blk_byte_at devs blk' d) by (by rewrite Ep). apply Hout.
    + pose proof (fun i Hi => blocks_apart devs blk held blk' i j d Hd Hb Hp Ep Hi Hj) as Ha.
      destruct (Z.lt_ge_cases (bb_offset blk' + j) (bb_offset blk + s)); [by left|].
      destruct (Z.lt_ge_cases (bb_offset blk' + j) (bb_offset blk + s + n)); [|by right].
      exfalso. apply (Ha (bb_offset blk' + j - bb_offset blk)); lia.
    + assert (blk_extent blk' ∈ map blk_extent (on_pool (bb_pool blk) (blk :: held))) as Hi2.
      { apply list_elem_of_fmap_2. apply on_pool_in. split; [by right|done]. }
      pose proof (owned_in (bb_offset blk' + j) _ _ Hi2 ltac:(cbn; lia)). lia.
  - intros i Hi Hni. rewrite blk_byte_insert, decide_True, (blk_byte_at devs blk d) by done.
    apply Hout; [lia|]. by eapply owned_inside.
  - intros Hk i Hi. apply Z.eqb_eq in Hk. rewrite Hl in Hin. specialize (Hin Hk). rewrite blk_byte_insert, decide_True by done.
    rewrite Hk in Hin. replace (bo + (i - s)) with (bo + (i - s)) by lia. rewrite <- (lookup_slice data bo n (i - s)) by lia.
    rewrite <- Hin, lookup_bytes_at by lia. do 2 f_equal. lia.
Qed.

(** [c'] is [c] with the bytes of [off .. off + size) that fall into it written,
    if all went well; [bo] is where [c] starts. *)
Definition written (data : list u8) (off size bo : Z) (ok : bool) (c c' : list u8) : Prop :=
  length c' = length c /\
  forall i, 0 <= i < len c ->
    (~ off <= bo + i < off + size -> c' !! Z.to_nat i = c !! Z.to_nat i) /\
    (off <= bo + i < off + size -> ok = true -> c' !! Z.to_nat i = data !! Z.to_nat (bo + i - off)).

Lemma written_app data off size bo ok1 ok2 c1 c1' c2 c2' :
  written data off size bo ok1 c1 c1' -> written data off size (bo + len c1) ok2 c2 c2' ->
  written data off size bo (ok1 && ok2) (c1 ++ c2) (c1' ++ c2').
Proof.
  intros [Hl1 H1] [Hl2 H2]. split; [rewrite !length_app; lia|]. intros i Hi. rewrite len_app in Hi.
  destruct (Z.lt_ge_cases i (len c1)) as [Hlt|Hge]; unfold len in *.
  - destruct (H1 i ltac:(lia)) as [Ha Hb]. rewrite !lookup_app_l by lia. split; [done|]. intros Hr [Ho _]%andb_prop. by apply Hb.
  - destruct (H2 (i - Z.of_nat (length c1)) ltac:(lia)) as [Ha Hb]. rewrite !lookup_app_r by lia. rewrite Hl1.
    replace (Z.to_nat i - length c1)%nat with (Z.to_nat (i - Z.of_nat (length c1))) by lia.
    replace (bo + Z.of_nat (length c1) + (i - Z.of_nat (length c1))) with (bo + i) in * by lia.
    split; [done|]. intros Hr [_ Ho]%andb_prop. by apply Hb.
Qed.

Lemma written_none data off size bo c : (forall i, 0 <= i < len c -> ~ off <= bo + i < off + size) -> written data off size bo true c c.
Proof. intros Hn. split; [done|]. intros i Hi. split; [done|]. intros Hr. by destruct (Hn i Hi). Qed.

(** What is left to transfer when the walk is at [bo]. *)
Definition io_rest (off size bo : Z) : Z := off + size - Z.max off (Z.min bo (off + size)).

Lemma io_plan_cons blk blocks bo off size :
  0 <= bo -> 0 <= bb_size blk -> bo + bb_size blk <= 2 ^ 62 -> 0 <= off -> 0 <= size -> off + size <= 2 ^ 62 ->
  0 <= bb_offset blk -> bb_offset blk + bb_size blk <= 2 ^ 62 ->
  io_plan (blk :: blocks) bo off size (io_rest off size bo) =
  if io_rest off size bo =? 0 then []
  else if (off <? bo + bb_size blk) && (bo <? off + size) then
    let s := Z.max off bo in let n := Z.min (off + size) (bo + bb_size blk) - s in
    mkIo (bb_pool blk) (bb_offset blk + (s - bo)) n (s - off) ::
    io_plan blocks (bo + bb_size blk) off size (io_rest off size (bo + bb_size blk))
  else io_plan blocks (bo + bb_size blk) off size (io_rest off size (bo + bb_size blk)).
Proof.
  intros. cbn [io_plan]. destruct (Z.eqb_spec (io_rest off size bo) 0); [done|].
  rewrite (u64_small (bo + bb_size blk)), (u64_small (off + size)) by lia.
  destruct (Z.ltb_spec off (bo + bb_size blk)), (Z.ltb_spec bo (off + size)); cbn [andb];
    try (by f_equal; unfold io_rest in *; lia).
  cbn zeta. rewrite (u64_small (Z.max off bo - bo)), (u64_small (Z.max off bo - off)),
    (u64_small (Z.min (off + size) (bo + bb_size blk) - Z.max off bo)) by lia.
  rewrite (u64_small (bb_offset blk + _)) by lia. rewrite u64_small by (unfold io_rest in *; lia).
  f_equal. f_equal. unfold io_rest in *. lia.
Qed.

Lemma write_plan_ok data off size blocks : forall devs held bo ok devs',
  devs_ok devs (blocks ++ held) -> 0 <= bo -> bo + total_size blocks <= 2 ^ 62 -> 0 <= off -> 0 <= size -> off + size <= 2 ^ 62 ->
  size <= len data ->
  write_all devs data (io_plan blocks bo off size (io_rest off size bo)) = (ok, devs') ->
  devs_ok devs' (blocks ++ held) /\ same_blocks devs devs' held /\
  written data off size bo ok (content devs blocks) (content devs' blocks).
Proof.
  induction blocks as [|blk blocks IH]; intros devs held bo ok devs' Hd Hbo Htot Hoff Hsz Hend Hlen.
  { intros [= <- <-]. split_and!; [done|apply same_blocks_refl|]. apply written_none. unfold len. cbn. lia. }
  pose proof Hd as [Hf _]. inversion Hf as [|? ? [Hbs [d Hp]] Hf']; subst.
  assert (Forall (blk_ok devs) blocks) as Hfb by (by apply Forall_app in Hf' as [? _]).
  assert (0 <= total_size blocks) as Htn by (rewrite <- (len_content devs) by done; unfold len; lia).
  destruct (devs_ok_extents _ _ blk Hd ltac:(by left)) as [Ho He].
  unfold total_size in Htot. rewrite zsum_cons in Htot. fold (total_size blocks) in Htot.
  assert (len (blk_bytes devs blk) = bb_size blk) as Hlb by (unfold len; rewrite length_blk_bytes; lia).
  rewrite io_plan_cons by lia. destruct (Z.eqb_spec (io_rest off size bo) 0) as [Hz|Hz].
  { intros [= <- <-]. split_and!; [done|apply same_blocks_refl|]. apply written_none. intros i Hi. unfold io_rest in Hz. lia. }
  destruct (Z.ltb_spec off (bo + bb_size blk)), (Z.ltb_spec bo (off + size)); cbn [andb]; cycle 1.
  1-3: intros HW;
    destruct (IH devs (blk :: held) (bo + bb_size blk) ok devs' (proj1 (devs_ok_middle _ _ _ _) Hd) ltac:(lia) ltac:(lia) Hoff Hsz Hend Hlen HW) as (G1 & G2 & G3);
    split_and!; [by apply devs_ok_middle|eapply same_blocks_sub, G2; set_solver|];
    rewrite !content_cons; rewrite (blk_bytes_same devs devs' blk (blk :: held)) by (done || set_solver || lia);
    change ok with (true && ok); apply written_app; [apply written_none; rewrite Hlb; lia|by rewrite Hlb].
  cbn zeta. cbn [write_all]. set (s := Z.max off bo). set (n := Z.min (off + size) (bo + bb_size blk) - s).
  destruct (write_io devs data _) as [ok1 devs1] eqn:E1. destruct (write_all devs1 data _) as [ok2 devs2] eqn:E2.
  intros [= <- <-].
  destruct (write_io_ok devs blk (blocks ++ held) data (s - bo) n (s - off) ok1 devs1 Hd ltac:(lia) ltac:(lia) ltac:(lia) ltac:(lia) ltac:(lia) E1)
    as (D1 & S1 & O1 & I1).
  destruct (IH devs1 (blk :: held) (bo + bb_size blk) ok2 devs2 (proj1 (devs_ok_middle _ _ _ _) D1) ltac:(lia) ltac:(lia) Hoff Hsz Hend Hlen E2)
    as (D2 & S2 & W2).
  split_and!.
  - by apply devs_ok_middle.
  - eapply same_blocks_trans; [eapply same_blocks_sub, S1|eapply same_blocks_sub, S2]; set_solver.
  - rewrite !content_cons. rewrite (blk_bytes_same devs1 devs2 blk (blk :: held)) by (done || set_solver || lia).
    rewrite <- (content_same devs devs1 blocks) by (done || by eapply same_blocks_sub, S1; set_solver).
    apply written_app; [|by rewrite Hlb]. split; [by rewrite !length_blk_bytes|].
    intros i Hi. rewrite Hlb in Hi. rewrite !lookup_blk_bytes by lia. split.
    + intros Hn. f_equal. apply O1; lia.
    + intros Hr Hok. rewrite <- (I1 Hok i) by lia. do 2 f_equal. lia.
Qed.

(** * Reading *)

Lemma length_store_buffer buf off bs : 0 <= off -> off + len bs <= len buf -> length (store_buffer buf off bs) = length buf.
Proof. unfold store_buffer, len. intros. rewrite !length_app, length_take, length_drop. lia. Qed.

Lemma lookup_store_buffer buf off bs i : 0 <= off -> off + len bs <= len buf -> 0 <= i ->
  store_buffer buf off bs !! Z.to_nat i =
  if (off <=? i) && (i <? off + len bs) then bs !! Z.to_nat (i - off) else buf !! Z.to_nat i.
Proof.
  unfold store_buffer, len. intros. destruct (Z.leb_spec off i), (Z.ltb_spec i (off + Z.of_nat (length bs))); cbn [andb].
  - rewrite lookup_app_r by (rewrite length_take; lia). rewrite lookup_app_l by (rewrite length_take; lia).
    f_equal. rewrite length_take. lia.
  - rewrite lookup_app_r by (rewrite length_take; lia). rewrite lookup_app_r by (rewrite length_take; lia).
    rewrite lookup_drop. f_equal. rewrite length_take. lia.
  - rewrite lookup_app_l by (rewrite length_take; lia). by rewrite lookup_take_lt by lia.
  - lia.
Qed.

Lemma read_io_ok devs blk held buf s n bo ok buf' devs' :
  devs_ok devs (blk :: held) -> 0 <= s -> 0 <= n -> s + n <= bb_capacity blk -> 0 <= bo -> bo + n <= len buf ->
  read_io devs buf (mkIo (bb_pool blk) (bb_offset blk + s) n bo) = (ok, buf', devs') ->
  devs_ok devs' (blk :: held) /\ same_blocks devs devs' (blk :: held) /\ length buf' = length buf /\
  forall j, 0 <= j < len buf ->
    (~ bo <= j < bo + n -> buf' !! Z.to_nat j = buf !! Z.to_nat j) /\
    (bo <= j < bo + n -> ok = true -> buf' !! Z.to_nat j = Some (blk_byte devs blk (s + (j - bo)))).
Proof.
  intros Hd Hs Hn Hc Hbo Hlen. unfold read_io. cbn [io_pool io_offset io_size io_buffer].
  pose proof Hd as [Hf Hdev]. inversion Hf as [|? ? [Hsz [d Hp]] _]; subst. rewrite Hp.
  destruct (dev_read d (bb_offset blk + s) n) as [[k bs] d'] eqn:E. intros [= <- <- <-].
  assert (forall i, 0 <= i < n -> 0 < owned (bb_offset blk + s + i) (map blk_extent (on_pool (bb_pool blk) (blk :: held)))) as Hpre.
  { intros i Hi. rewrite <- Z.add_assoc. eapply owned_inside; [exact Hd|exact Hp|lia]. }
  destruct (dev_read_ok d _ _ _ k bs d' (Hdev _ _ Hp) Hpre Hn E) as (Hok' & Hsame & Hl & Hin). fold (len bs) in Hl.
  split_and!; [by apply devs_ok_update|by eapply same_blocks_step|apply length_store_buffer; lia|].
  intros j Hj. rewrite lookup_store_buffer by lia. split.
  - intros Hnj. rewrite (proj2 (andb_false_iff _ _)); [done|]. lia.
  - intros Hr Hk. apply Z.eqb_eq in Hk. rewrite (Hin Hk) in *. unfold len in *. rewrite length_bytes_at in *.
    rewrite (proj2 (Z.leb_le _ _)), (proj2 (Z.ltb_lt _ _)) by lia. cbn [andb]. rewrite lookup_bytes_at by lia.
    rewrite (blk_byte_at devs blk d) by done. do 2 f_equal. lia.
Qed.

(** [buf'] is [buf] with the bytes that [c], at [bo] in the blob, has of
    [off .. off + size), if all went well. *)
Definition fetched (c : list u8) (off size bo : Z) (ok : bool) (buf buf' : list u8) : Prop :=
  length buf' = length buf /\
  forall j, 0 <= j < len buf ->
    (~ (j < size /\ bo <= off + j < bo + len c) -> buf' !! Z.to_nat j = buf !! Z.to_nat j) /\
    (j < size -> bo <= off + j < bo + len c -> ok = true -> buf' !! Z.to_nat j = c !! Z.to_nat (off + j - bo)).

Lemma fetched_app c1 c2 off size bo ok1 ok2 buf buf1 buf2 :
  fetched c1 off size bo ok1 buf buf1 -> fetched c2 off size (bo + len c1) ok2 buf1 buf2 ->
  fetched (c1 ++ c2) off size bo (ok1 && ok2) buf buf2.
Proof.
  intros [L1 H1] [L2 H2]. split; [lia|]. intros j Hj. rewrite len_app.
  destruct (H1 j Hj) as [A1 B1], (H2 j ltac:(unfold len in *; lia)) as [A2 B2]. unfold len in *. split.
  - intros Hn. rewrite A2, A1; [done|lia..].
  - intros Hs Hr [-> ->]%andb_prop. destruct (Z.lt_ge_cases (off + j) (bo + Z.of_nat (length c1))).
    + rewrite A2, B1 by (done || lia). rewrite lookup_app_l; [done|lia].
    + rewrite B2 by (done || lia). rewrite lookup_app_r by lia. f_equal. lia.
Qed.

Lemma fetched_none c off size bo buf : (forall j, 0 <= j < size -> ~ bo <= off + j < bo + len c) -> fetched c off size bo true buf buf.
Proof. intros Hn. split; [done|]. intros j Hj. split; [done|]. intros Hs Hr. exfalso. apply (Hn j); lia. Qed.

Lemma read_plan_ok off size blocks : forall devs held buf bo ok buf' devs',
  devs_ok devs (blocks ++ held) -> 0 <= bo -> bo + total_size blocks <= 2 ^ 62 -> 0 <= off -> 0 <= size -> off + size <= 2 ^ 62 ->
  size <= len buf ->
  read_all devs buf (io_plan blocks bo off size (io_rest off size bo)) = (ok, buf', devs') ->
  devs_ok devs' (blocks ++ held) /\ same_blocks devs devs' (blocks ++ held) /\ fetched (content devs blocks) off size bo ok buf buf'.
Proof.
  induction blocks as [|blk blocks IH]; intros devs held buf bo ok buf' devs' Hd Hbo Htot Hoff Hsz Hend Hlen.
  { intros [= <- <- <-]. split_and!; [done|apply same_blocks_refl|]. apply fetched_none. unfold len. cbn. lia. }
  pose proof Hd as [Hf _]. inversion Hf as [|? ? [Hbs [d Hp]] Hf']; subst.
  assert (Forall (blk_ok devs) blocks) as Hfb by (by apply Forall_app in Hf' as [? _]).
  assert (0 <= total_size blocks) as Htn by (rewrite <- (len_content devs) by done; unfold len; lia).
  destruct (devs_ok_extents _ _ blk Hd ltac:(by left)) as [Ho He].
  unfold total_size in Htot. rewrite zsum_cons in Htot. fold (total_size blocks) in Htot.
  assert (len (blk_bytes devs blk) = bb_size blk) as Hlb by (unfold len; rewrite length_blk_bytes; lia).
  rewrite content_cons. rewrite io_plan_cons by lia. destruct (Z.eqb_spec (io_rest off size bo) 0) as [Hz|Hz].
  { intros [= <- <- <-]. split_and!; [done|apply same_blocks_refl|]. apply fetched_none. intros i Hi. unfold io_rest in Hz. lia. }
  destruct (Z.ltb_spec off (bo + bb_size blk)), (Z.ltb_spec bo (off + size)); cbn [andb]; cycle 1.
  1-3: intros HR;
    destruct (IH devs (blk :: held) buf (bo + bb_size blk) ok buf' devs' (proj1 (devs_ok_middle _ _ _ _) Hd) ltac:(lia) ltac:(lia) Hoff Hsz Hend Hlen HR) as (G1 & G2 & G3);
    split_and!; [by apply devs_ok_middle|eapply same_blocks_sub, G2; set_solver|];
    change ok with (true && ok); eapply fetched_app; [apply fetched_none; rewrite Hlb; lia|by rewrite Hlb].
  cbn zeta. cbn [read_all]. set (s := Z.max off bo). set (n := Z.min (off + size) (bo + bb_size blk) - s).
  destruct (read_io devs buf _) as [[ok1 buf1] devs1] eqn:E1. destruct (read_all devs1 buf1 _) as [[ok2 buf2] devs2] eqn:E2.
  intros [= <- <- <-].
  destruct (read_io_ok devs blk (blocks ++ held) buf (s - bo) n (s - off) ok1 buf1 devs1 Hd ltac:(lia) ltac:(lia) ltac:(lia) ltac:(lia) ltac:(lia) E1)
    as (D1 & S1 & L1 & R1).
  destruct (IH devs1 (blk :: held) buf1 (bo + bb_size blk) ok2 buf2 devs2 (proj1 (devs_ok_middle _ _ _ _) D1) ltac:(lia) ltac:(lia) Hoff Hsz Hend
    ltac:(unfold len in *; lia) E2) as (D2 & S2 & W2).
  split_and!.
  - by apply devs_ok_middle.
  - eapply same_blocks_trans; [exact S1|eapply same_blocks_sub, S2]; set_solver.
  - apply (fetched_app _ _ _ _ _ _ _ _ buf1).
    + split; [done|]. intros j Hj. destruct (R1 j Hj) as [A B]. rewrite Hlb. split.
      * intros Hn. apply A. lia.
      * intros Hs Hr Hok. rewrite B by (done || lia). rewrite lookup_blk_bytes by lia. do 2 f_equal. lia.
    + rewrite Hlb. rewrite <- (content_same devs devs1 blocks); [exact W2| |done]. eapply same_blocks_sub, S1. set_solver.
Qed.
End Blocks.

(** * The two helpers *)

Section Helpers.
Context {D P I : Type} `{BlockDeviceLaws D} `{Dpe P} `{BufferPool I}.
Implicit Types (st : Runtime D P I) (blocks held : list BlobBlock).

Lemma total_size_take_le (devs : gmap TagId D) blocks n : Forall (blk_ok devs) blocks -> 0 <= total_size (take n blocks) <= total_size blocks.
Proof.
  intros Hf. rewrite <- (take_drop n blocks) in Hf. apply Forall_app in Hf as [H1' H2'].
  assert (total_size blocks = total_size (take n blocks) + total_size (drop n blocks)) as ->.
  { unfold total_size. by rewrite <- zsum_app, take_drop. }
  rewrite <- (len_content devs) by done. rewrite <- (len_content devs (drop n blocks)) by done. unfold len. lia.
Qed.

Lemma ModifyExistingData_ok st blocks held data size offset idx start_off err st' :
  devs_ok (rt_devs st) (blocks ++ held) -> total_size blocks <= 2 ^ 62 -> 0 <= offset -> 0 <= size -> offset + size <= 2 ^ 62 ->
  size <= len data -> start_off = total_size (take idx blocks) -> start_off <= offset ->
  ModifyExistingData st blocks data size offset idx start_off = (err, st') ->
  exists devs', st' = set_devs st devs' /\ devs_ok devs' (blocks ++ held) /\ same_blocks (rt_devs st) devs' held /\
    written data offset size 0 (err =? 0) (content (rt_devs st) blocks) (content devs' blocks) /\ (err = 0 \/ err = 1).
Proof.
  intros Hd Htot Hoff Hsz Hend Hlen -> Hst. unfold ModifyExistingData.
  destruct (write_all _ _ _) as [ok devs'] eqn:E. intros [= <- <-].
  pose proof Hd as [Hf _]. apply Forall_app in Hf as [Hf _]. pose proof (total_size_take_le _ blocks idx Hf) as Hle.
  assert (total_size blocks = total_size (take idx blocks) + total_size (drop idx blocks)) as Hsum.
  { unfold total_size. by rewrite <- zsum_app, take_drop. }
  assert (blocks ++ held ≡ₚ drop idx blocks ++ (take idx blocks ++ held)) as Hperm.
  { rewrite <- (take_drop idx blocks) at 1. by rewrite (Permutation_app_comm (take idx blocks)), <- app_assoc. }
  pose proof (devs_ok_perm _ _ _ Hperm Hd) as Hd2.
  replace size with (io_rest offset size (total_size (take idx blocks))) in E at 2 by (unfold io_rest; lia).
  destruct (write_plan_ok data offset size (drop idx blocks) _ _ (total_size (take idx blocks)) ok devs' Hd2 ltac:(lia) ltac:(lia) Hoff Hsz Hend Hlen E) as (D1 & S1 & W1).
  exists devs'. split_and!; [done| | | |by destruct ok; [left|right]].
  - by eapply devs_ok_perm; [symmetry|].
  - eapply same_blocks_sub, S1. set_solver.
  - assert (Forall (blk_ok (rt_devs st)) (take idx blocks)) as Hft by by apply Forall_take.
    assert (forall d : gmap TagId D, content d blocks = content d (take idx blocks) ++ content d (drop idx blocks)) as Hc.
    { intros d. by rewrite <- content_app, take_drop. }
    rewrite !Hc, (content_same (rt_devs st) devs' (take idx blocks)) by (done || by eapply same_blocks_sub, S1; set_solver).
    replace ((if ok then 0 else 1) =? 0) with (true && ok) by (by destruct ok).
    pose proof (len_content (rt_devs st) _ Hft) as Hlt.
    apply written_app; [apply written_none; rewrite Hlt; lia|by rewrite Hlt].
Qed.

Lemma ReadData_ok st blocks held buf size offset err buf' st' :
  devs_ok (rt_devs st) (blocks ++ held) -> total_size blocks <= 2 ^ 62 -> 0 <= offset -> 0 <= size -> offset + size <= 2 ^ 62 ->
  size <= len buf -> ReadData st blocks buf size offset = (err, buf', st') ->
  exists devs', st' = set_devs st devs' /\ devs_ok devs' (blocks ++ held) /\ same_blocks (rt_devs st) devs' (blocks ++ held) /\
    fetched (content (rt_devs st) blocks) offset size 0 (err =? 0) buf buf' /\ (err = 0 \/ err = 1).
Proof.
  intros Hd Htot Hoff Hsz Hend Hlen. unfold ReadData.
  destruct (read_all _ _ _) as [[ok b] devs'] eqn:E. intros [= <- <- <-].
  replace size with (io_rest offset size 0) in E at 2 by (unfold io_rest; lia).
  destruct (read_plan_ok offset size blocks _ _ _ 0 ok b devs' Hd ltac:(lia) ltac:(lia) Hoff Hsz Hend Hlen E) as (D1 & S1 & W1).
  exists devs'. split_and!; [done|done|done| |by destruct ok; [left|right]]. by destruct ok.
Qed.
End Helpers.
