(* ===== verification/BlobSafety.v ===== *)
(** What the helpers of the CTE's data path promise: extending, resizing and
    releasing a blob, and writing a put's data, keep everything any other blob
    holds and have the stated effect on the contents of this one. *)
From Stdlib Require Import ZArith Lia.
From coqutil Require Import Byte.
From stdpp Require Import base list gmap.
From S2P Require Import Prelude Extents BlockAllocator TxnLog Text BlobMeta BlobDevice BlobStore BlobBlocks.

Open Scope Z_scope.

Section Helpers.
Context {D P I : Type} `{BlockDeviceLaws D} `{Dpe P} `{BufferPool I}.
Implicit Types (st : Runtime D P I) (b : BlobInfo) (blk : BlobBlock) (blocks held : list BlobBlock) (t : TargetInfo).

(** * Steps of the state *)

Definition targets_ok st : Prop := forall p t, rt_targets st !! p = Some t -> 0 <= tg_remaining t.

(** What no helper touches. *)
Definition same_rest st st' : Prop :=
  rt_meta st' = rt_meta st /\ rt_wal st' = rt_wal st /\ rt_logging st' = rt_logging st /\ rt_target_list st' = rt_target_list st /\
  rt_threshold st' = rt_threshold st.

(** A step that keeps what the blocks of [held] hold. *)
Record keeps (held : list BlobBlock) st st' : Prop := {
  kp_same : same_blocks (rt_devs st) (rt_devs st') held;
  kp_rest : same_rest st st';
  kp_targets : targets_ok st -> targets_ok st' }.

Lemma keeps_refl held st : keeps held st st.
Proof. split; [apply same_blocks_refl|by repeat split|done]. Qed.

Lemma keeps_trans held st1 st2 st3 : keeps held st1 st2 -> keeps held st2 st3 -> keeps held st1 st3.
Proof.
  intros [S1 R1 T1] [S2 R2 T2]. split; [by eapply same_blocks_trans| |by auto].
  destruct R1 as (?&?&?&?&?), R2 as (?&?&?&?&?). repeat split; congruence.
Qed.

Lemma keeps_sub held held' st st' : held ⊆ held' -> keeps held' st st' -> keeps held st st'.
Proof. intros Hs [S1 R1 T1]. split; [by eapply same_blocks_sub|done|done]. Qed.

Lemma keeps_devs held st devs : same_blocks (rt_devs st) devs held -> keeps held st (set_devs st devs).
Proof. intros Hs. split; [done|by repeat split|done]. Qed.

Lemma keeps_ipc held st i : keeps held st (set_ipc st i).
Proof. split; [apply same_blocks_refl|by repeat split|done]. Qed.

Lemma keeps_dpe held st p : keeps held st (set_dpe st p).
Proof. split; [apply same_blocks_refl|by repeat split|done]. Qed.

Lemma keeps_target held st pool t : (targets_ok st -> 0 <= tg_remaining t) -> keeps held st (set_targets st (<[pool := t]> (rt_targets st))).
Proof.
  intros Ht. split; [apply same_blocks_refl|by repeat split|]. intros Hok p t'. cbn. intros Hp.
  destruct (decide (pool = p)) as [<-|Hne]; [rewrite lookup_insert_eq in Hp; injection Hp as <-; auto|].
  rewrite lookup_insert_ne in Hp by done. by eapply Hok.
Qed.

(** * Extending *)

Definition blob_ok b : Prop := bi_total b = total_size (bi_blocks b) /\ bi_total b <= 2 ^ 62.

(** A longer blob whose contents start with what they were. *)
Record grows (held : list BlobBlock) st b st' b' : Prop := {
  gr_devs : devs_ok (rt_devs st') (bi_blocks b' ++ held);
  gr_keeps : keeps held st st';
  gr_content : exists e, content (rt_devs st') (bi_blocks b') = content (rt_devs st) (bi_blocks b) ++ e;
  gr_blob : b' = with_layout b (bi_blocks b') (bi_total b');
  gr_blocks : forall n, (n < length (bi_blocks b))%nat -> take n (bi_blocks b') = take n (bi_blocks b);
  gr_length : (length (bi_blocks b) <= length (bi_blocks b'))%nat }.

Lemma with_layout_id b : with_layout b (bi_blocks b) (bi_total b) = b.
Proof. by destruct b. Qed.

Lemma grows_refl held st b : devs_ok (rt_devs st) (bi_blocks b ++ held) -> grows held st b st b.
Proof. intros Hd. split; [done|apply keeps_refl|exists []; by rewrite app_nil_r|by rewrite with_layout_id|done|done]. Qed.

Lemma grows_trans held st1 b1 st2 b2 st3 b3 : grows held st1 b1 st2 b2 -> grows held st2 b2 st3 b3 -> grows held st1 b1 st3 b3.
Proof.
  intros [D1 K1 [e1 C1] B1 T1 L1] [D2 K2 [e2 C2] B2 T2 L2]. split; [done|by eapply keeps_trans| | | |lia].
  - exists (e1 ++ e2). by rewrite C2, C1, app_assoc.
  - rewrite B2, B1. done.
  - intros n Hn. rewrite T2, T1 by lia. done.
Qed.

(** The size field follows the blocks. *)
Lemma grows_total held st b st' b' n : grows held st b st' b' -> grows held st b st' (with_layout b' (bi_blocks b') n).
Proof. intros [D1 K1 C1 E1 T1 L1]. split; [done..| |done|done]. cbn [bi_blocks bi_total with_layout]. by rewrite E1 at 1. Qed.

Lemma total_size_app l l' : total_size (l ++ l') = total_size l + total_size l'.
Proof. apply zsum_app. Qed.

Lemma devs_ok_left devs l l' : devs_ok (D := D) devs (l ++ l') -> Forall (blk_ok devs) l.
Proof. intros [Hf _]. by apply Forall_app in Hf as [? _]. Qed.

Lemma fill_spare_ok devs blocks held add blocks' fill :
  devs_ok (D := D) devs (blocks ++ held) -> 0 <= add -> fill_spare blocks add = (blocks', fill) ->
  0 <= fill <= add /\ devs_ok devs (blocks' ++ held) /\ total_size blocks' = total_size blocks + fill /\
  (exists e, content devs blocks' = content devs blocks ++ e) /\
  (forall n, (n < length blocks)%nat -> take n blocks' = take n blocks) /\ length blocks' = length blocks.
Proof.
  intros Hd Hadd. unfold fill_spare. destruct (last blocks) as [blk|] eqn:El; cycle 1.
  { intros [= <- <-]. split_and!; [lia|lia|done|lia|exists []; by rewrite app_nil_r|done|done]. }
  apply last_Some in El as [l ->]. destruct (Z.ltb_spec (bb_size blk) (bb_capacity blk)) as [Hlt|Hge]; cycle 1.
  { intros [= <- <-]. split_and!; [lia|lia|done|lia|exists []; by rewrite app_nil_r|done|done]. }
  set (f := Z.min _ _). intros [= <- <-].
  pose proof (devs_ok_left _ _ _ Hd) as Hf. apply Forall_app in Hf as [Hfl Hfb]. inversion Hfb as [|? ? [Hs Hp] _]; subst.
  rewrite length_app. cbn [length]. replace (length l + 1 - 1)%nat with (length l + 0)%nat by lia.
  rewrite insert_app_r. cbn [list_insert insert]. set (blk' := mkBlobBlock _ _ _ _ _).
  assert (0 <= f <= bb_capacity blk - bb_size blk /\ f <= add) as Hfr by lia.
  split_and!; [lia|lia| | | | |by rewrite !length_app].
  - apply (devs_ok_places devs ((l ++ [blk]) ++ held)); [|destruct Hd as [Hff _]|done].
    + rewrite !map_app. cbn. done.
    + rewrite !Forall_app in *. destruct Hff as [[H3 H4] H5]. split_and!; [done| |done]. constructor; [|done]. split; [cbn; lia|done].
  - rewrite !total_size_app. unfold total_size. cbn. lia.
  - exists (map (blk_byte devs blk) (seqZ (bb_size blk) f)). rewrite !content_app, <- app_assoc. f_equal.
    rewrite !content_cons. cbn [content map concat]. rewrite !app_nil_r. unfold blk_bytes. cbn [bb_size blk'].
    rewrite seqZ_app by lia. rewrite map_app. done.
  - intros n Hn. by rewrite !take_app_le by lia.
Qed.

Definition new_block t (x : Block) : BlobBlock := mkBlobBlock (tg_pool t) (tg_query t) (b_offset x) 0 (b_size x).

Lemma on_pool_new p t l :
  map blk_extent (on_pool p (map (new_block t) l)) = if decide (tg_pool t = p) then map block_extent l else [].
Proof.
  induction l as [|x l IH]; [by case_decide|]. unfold on_pool in *. cbn [map List.filter new_block bb_pool]. case_decide as E.
  - rewrite bool_decide_true by done. cbn. by rewrite IH.
  - by rewrite bool_decide_false.
Qed.

Lemma AllocateFromTarget_ok st t size held r st' :
  devs_ok (rt_devs st) held -> 0 < size <= 2 ^ 62 -> AllocateFromTarget st t size = (r, st') ->
  devs_ok (rt_devs st') (map (new_block t) (default [] r) ++ held) /\ keeps held st st'.
Proof.
  intros Hd Hsz. unfold AllocateFromTarget. destruct (tg_remaining t <? size); [intros [= <- <-]; by split; [|apply keeps_refl]|].
  destruct (rt_devs st !! tg_pool t) as [d|] eqn:Ed; [|intros [= <- <-]; by split; [|apply keeps_refl]].
  assert (forall d1 q d2, dev_ok d1 (map blk_extent (on_pool (tg_pool t) held)) ->
    same_on (map blk_extent (on_pool (tg_pool t) held)) (dev_byte d) (dev_byte d1) -> dev_alloc d1 size = (q, d2) ->
    devs_ok (<[tg_pool t := d2]> (rt_devs st)) (map (new_block t) (default [] q) ++ held) /\
    keeps held st (set_devs st (<[tg_pool t := d2]> (rt_devs st))) /\
    (q = None -> dev_ok d2 (map blk_extent (on_pool (tg_pool t) held))) /\
    same_on (map blk_extent (on_pool (tg_pool t) held)) (dev_byte d) (dev_byte d2)) as Hstep.
  { intros d1 q d2 Hok Hs1 Ha. destruct (dev_alloc_ok d1 _ size q d2 Hok Hsz Ha) as [Hok2 Hs2].
    assert (same_on (map blk_extent (on_pool (tg_pool t) held)) (dev_byte d) (dev_byte d2)) as Hs3.
    { intros x Hx. by rewrite Hs2, Hs1. }
    split_and!; [| |by intros ->|done].
    - split.
      + apply Forall_app. split.
        * apply Forall_forall. intros blk Hb. apply list_elem_of_fmap in Hb as (x & -> & Hx). split; [|by apply lookup_insert_is_Some'; left].
          destruct (dev_ok_apart d2 _ Hok2) as [_ Hr]. rewrite Forall_forall in Hr.
          destruct (Hr (block_extent x)) as (_ & Hr2 & _); [apply elem_of_app; left; by apply list_elem_of_fmap_2|]. cbn in *. lia.
        * eapply Forall_impl; [exact (proj1 Hd)|]. intros blk [Hx Hy]. split; [done|]. by apply lookup_insert_is_Some'; right.
      + intros p d' Hp. rewrite on_pool_app, map_app. destruct (decide (tg_pool t = p)) as [<-|Hne].
        * rewrite lookup_insert_eq in Hp. injection Hp as <-. by rewrite on_pool_new, decide_True.
        * rewrite lookup_insert_ne in Hp by done.
          rewrite on_pool_new, decide_False by done. by apply (proj2 Hd).
    - apply keeps_devs. by eapply same_blocks_step. }
  pose proof (proj2 Hd _ _ Ed) as Hok.
  destruct (dev_inline d (tg_query t)).
  - destruct (dev_alloc d size) as [[bs|] d1] eqn:E1; destruct (Hstep d _ d1 Hok ltac:(done) E1) as (G1 & G2 & G3 & G4).
    + intros [= <- <-]. done.
    + destruct (dev_alloc d1 size) as [q d2] eqn:E2. intros [= <- <-]. destruct (Hstep d1 _ d2 (G3 eq_refl) G4 E2) as (? & ? & _). done.
  - destruct (dev_alloc d size) as [q d2] eqn:E2. intros [= <- <-]. destruct (Hstep d _ d2 Hok ltac:(done) E2) as (? & ? & _). done.
Qed.

Lemma place_blocks_ok t bs : forall need blocks rest physical,
  Forall (fun x => 0 <= b_size x) bs -> 0 <= need -> place_blocks t need bs = (blocks, rest, physical) ->
  0 <= rest <= need /\ total_size blocks = need - rest /\ map place blocks = map place (map (new_block t) bs) /\
  Forall (fun blk => bb_pool blk = tg_pool t /\ 0 <= bb_size blk <= bb_capacity blk) blocks.
Proof.
  induction bs as [|x bs IH]; intros need blocks rest physical Hbs Hn; cbn.
  { intros [= <- <- <-]. split_and!; [lia|lia|unfold total_size; cbn; lia|done|constructor]. }
  inversion Hbs as [|? ? Hx Hbs']; subst. destruct (place_blocks t _ bs) as [[l r] ph] eqn:E. intros [= <- <- <-].
  destruct (IH (need - Z.min (b_size x) need) _ _ _ Hbs' ltac:(lia) E) as (H3 & H4 & H5 & H6).
  split_and!; [lia|lia| | |].
  - unfold total_size in *. rewrite zsum_cons. cbn [bb_size]. lia.
  - cbn [map]. by rewrite H5.
  - constructor; [|done]. cbn. split; [done|lia].
Qed.

Lemma keeps_debit held st pool n : keeps held st (debit st pool n).
Proof.
  unfold debit. destruct (rt_targets st !! pool) as [t|] eqn:E; [|apply keeps_refl]. apply keeps_target. intros Hok.
  pose proof (Hok _ _ E). cbn. destruct (Z.ltb_spec n (tg_remaining t)); lia.
Qed.

Lemma debit_devs st pool n : rt_devs (debit st pool n) = rt_devs st.
Proof. unfold debit. by destruct (rt_targets st !! pool). Qed.

(** The part of the request that is still to be placed, next to the blob. *)
Definition extended (held : list BlobBlock) (required : Z) st b (remaining : Z) st' b' (remaining' : Z) : Prop :=
  grows held st b st' b' /\ targets_ok st' /\ 0 <= remaining' <= remaining /\ bi_total b' = total_size (bi_blocks b') /\
  bi_total b' + remaining' = required.

Lemma extend_on_ok held required st b pool preallocate remaining st' b' remaining' :
  devs_ok (rt_devs st) (bi_blocks b ++ held) -> targets_ok st -> bi_total b = total_size (bi_blocks b) ->
  0 <= remaining -> bi_total b + remaining = required -> required <= 2 ^ 62 -> preallocate <= 2 ^ 62 ->
  extend_on st b pool preallocate remaining = (st', b', remaining') ->
  extended held required st b remaining st' b' remaining'.
Proof.
  intros Hd Ht Hb Hr Hreq Hmax Hpre. unfold extend_on.
  assert (extended held required st b remaining st b remaining) as Hnone by (split_and!; [by apply grows_refl|done|lia|lia|done|lia]).
  destruct (rt_targets st !! pool) as [t|] eqn:Et; [|by intros [= <- <- <-]]. pose proof (Ht _ _ Et) as Htn.
  destruct (Z.eqb_spec (Z.min remaining (tg_remaining t)) 0) as [|Hne]; [by intros [= <- <- <-]|].
  set (need := Z.min remaining (tg_remaining t)) in *.
  pose proof (devs_ok_left _ _ _ Hd) as Hf. pose proof (len_content _ _ Hf) as Hlen.
  assert (0 <= total_size (bi_blocks b)) as Htot by (rewrite <- Hlen; unfold len; lia).
  destruct (AllocateFromTarget st t _) as [out st1] eqn:Ea.
  destruct (AllocateFromTarget_ok st t (Z.min (Z.max need preallocate) (tg_remaining t)) (bi_blocks b ++ held) out st1 Hd ltac:(lia) Ea)
    as [D1 K1].
  assert (default [] out = [] -> extended held required st b remaining st1 b remaining) as Hfail.
  { intros Ho. rewrite Ho in D1. split_and!; [|by apply (kp_targets _ _ _ K1)|lia|lia|done|lia].
    split; [exact D1|eapply keeps_sub, K1; set_solver| |by rewrite with_layout_id|done|done].
    exists []. rewrite app_nil_r. apply content_same; [|done]. eapply same_blocks_sub, K1. set_solver. }
  destruct out as [[|x bs]|]; [by intros [= <- <- <-]; apply Hfail| |by intros [= <- <- <-]; apply Hfail].
  cbn [default] in D1. set (new := x :: bs) in *. destruct (place_blocks t need new) as [[blocks rest] physical] eqn:Ep.
  intros [= <- <- <-].
  assert (Forall (fun x => 0 <= b_size x) new) as Hnew.
  { pose proof (devs_ok_left _ _ _ D1) as Hn. rewrite Forall_map in Hn. eapply Forall_impl; [exact Hn|]. intros y [Hy _]. cbn in Hy. lia. }
  destruct (place_blocks_ok t new need blocks rest physical Hnew ltac:(lia) Ep) as (H3 & H4 & H5 & H6).
  split_and!; [|apply (kp_targets _ _ _ (keeps_debit held _ _ _)), K1, Ht|lia|lia| |].
  - split; cbn [bi_blocks with_layout]; rewrite ?debit_devs.
    + apply (devs_ok_places _ (map (new_block t) new ++ bi_blocks b ++ held)); [| |done].
      * rewrite !map_app, H5. rewrite <- app_assoc. apply Permutation_app_swap_app.
      * rewrite <- app_assoc. destruct D1 as [Hf1 _]. rewrite !Forall_app in *. destruct Hf1 as (G1 & G2 & G3). split_and!; [done| |done].
        assert (is_Some (rt_devs st1 !! tg_pool t)) as Hp by (inversion G1 as [|? ? [_ G4] _]; subst; exact G4).
        eapply Forall_impl; [exact H6|]. intros blk [E1 E2]. split; [done|]. by rewrite E1.
    + eapply keeps_trans; [eapply keeps_sub, K1; set_solver|apply keeps_debit].
    + exists (content (rt_devs st1) blocks). rewrite content_app. f_equal. apply content_same; [|done]. eapply same_blocks_sub, K1. set_solver.
    + done.
    + intros n Hn. by rewrite take_app_le by lia.
    + rewrite length_app. lia.
  - cbn [bi_total bi_blocks with_layout]. rewrite total_size_app, u64_small by lia. lia.
  - cbn [bi_total with_layout]. rewrite u64_small by lia. lia.
Qed.

Lemma extend_loop_ok held required preallocate ts : forall st b remaining st' b' remaining',
  devs_ok (rt_devs st) (bi_blocks b ++ held) -> targets_ok st -> bi_total b = total_size (bi_blocks b) ->
  0 <= remaining -> bi_total b + remaining = required -> required <= 2 ^ 62 -> preallocate <= 2 ^ 62 ->
  extend_loop st b ts preallocate remaining = (st', b', remaining') ->
  extended held required st b remaining st' b' remaining'.
Proof.
  induction ts as [|t ts IH]; intros st b remaining st' b' remaining' Hd Ht Hb Hr Hreq Hmax Hpre; cbn.
  { intros [= <- <- <-]. split_and!; [by apply grows_refl|done|lia|lia|done|lia]. }
  destruct (remaining =? 0); [intros [= <- <- <-]; split_and!; [by apply grows_refl|done|lia|lia|done|lia]|].
  destruct (extend_on st b _ _ _) as [[st1 b1] r1] eqn:E.
  destruct (extend_on_ok held required st b _ preallocate remaining st1 b1 r1 Hd Ht Hb Hr Hreq Hmax Hpre E) as (G1 & T1 & R1 & B1 & Q1).
  intros EL. destruct (IH st1 b1 r1 st' b' remaining' (gr_devs _ _ _ _ _ G1) T1 B1 ltac:(lia) Q1 Hmax Hpre EL) as (G2 & T2 & R2 & B2 & Q2).
  split_and!; [by eapply grows_trans|done|lia|lia|done|done].
Qed.

Lemma ComputeTotalSizeSlow_total devs blocks :
  Forall (blk_ok (D := D) devs) blocks -> total_size blocks <= 2 ^ 62 -> ComputeTotalSizeSlow blocks = total_size blocks.
Proof.
  intros Hf. unfold ComputeTotalSizeSlow. enough (forall n, 0 <= n -> n + total_size blocks <= 2 ^ 62 ->
    fold_left (fun total blk => u64 (total + bb_size blk)) blocks n = n + total_size blocks) as Hn by (intros; rewrite Hn; lia).
  induction Hf as [|blk l [Hs _] Hf IH]; intros n Hn Hle; cbn [fold_left]; [unfold total_size; cbn; lia|].
  unfold total_size in *. rewrite zsum_cons in *. pose proof (len_content _ _ Hf) as Hlen. unfold total_size, len in Hlen.
  rewrite u64_small by lia. rewrite IH by lia. lia.
Qed.

(** Success: the blob spans the range, its contents start with what they were.
    Failure: it may have grown within the range all the same. *)
Lemma ExtendBlob_ok held st b offset size score minp preallocate err st' b' :
  devs_ok (rt_devs st) (bi_blocks b ++ held) -> targets_ok st -> blob_ok b ->
  0 <= offset -> 0 <= size -> offset + size <= 2 ^ 62 -> preallocate <= 2 ^ 62 ->
  ExtendBlob st b offset size score minp preallocate = (err, st', b') ->
  grows held st b st' b' /\ targets_ok st' /\ blob_ok b' /\
  (if err =? 0 then bi_total b' = Z.max (bi_total b) (offset + size)
   else 0 < err <= 3 /\ bi_total b <= bi_total b' <= Z.max (bi_total b) (offset + size)).
Proof.
  intros Hd Ht [Hb Hb2] Hoff Hsz Hend Hpre. unfold ExtendBlob. rewrite u64_small by lia.
  destruct (Z.leb_spec (offset + size) (bi_total b)) as [Hle|Hlt].
  { intros [= <- <- <-]. split_and!; [by apply grows_refl|done|by split|]. cbn. lia. }
  destruct (fill_spare (bi_blocks b) _) as [blocks fill] eqn:Ef.
  destruct (fill_spare_ok _ _ held (offset + size - bi_total b) _ _ Hd ltac:(lia) Ef) as (Hfill & Hd1 & Htot & He & Hpre1 & Hlen1).
  pose proof (len_content _ _ (devs_ok_left _ _ _ Hd)) as Hlen. unfold len in Hlen.
  set (b1 := with_layout b blocks (u64 (bi_total b + fill))).
  assert (bi_total b1 = total_size (bi_blocks b1)) as Hb1 by (unfold b1; cbn [bi_total bi_blocks with_layout]; rewrite u64_small; lia).
  assert (bi_total b1 = bi_total b + fill) as Hb1' by (unfold b1; cbn [bi_total bi_blocks with_layout]; rewrite u64_small; lia).
  assert (grows held st b st b1) as G1 by (split; [done|apply keeps_refl|done|done|done|cbn; lia]).
  destruct (Z.eqb_spec (offset + size - bi_total b - fill) 0) as [Hz|Hz].
  { intros [= <- <- <-]. split_and!; [|done|split; cbn [bi_total bi_blocks with_layout Z.eqb Pos.eqb] in *; lia|cbn [bi_total bi_blocks with_layout Z.eqb Pos.eqb] in *; lia]. by apply (grows_total _ _ _ _ b1). }
  destruct (length (rt_target_list st) =? 0)%nat; [intros [= <- <- <-]; split_and!; [done|done|split; lia|cbn [bi_total bi_blocks with_layout Z.eqb Pos.eqb] in *; lia..]|].
  destruct (SelectTargets _ _ _ _) as [ordered dpe]. set (st1 := set_dpe st dpe).
  assert (grows held st b st1 b1) as G2.
  { destruct G1 as [D1 K1 C1 E1 T1 L1]. split; [done|eapply keeps_trans; [exact K1|apply keeps_dpe]|done..]. }
  destruct (List.filter _ ordered) as [|t ts]; [intros [= <- <- <-]; split_and!; [done|done|split; lia|cbn [bi_total bi_blocks with_layout Z.eqb Pos.eqb] in *; lia..]|].
  destruct (extend_loop st1 b1 (t :: ts) preallocate _) as [[st2 b2] remaining] eqn:EL.
  destruct (extend_loop_ok held (offset + size) preallocate (t :: ts) st1 b1 (offset + size - bi_total b - fill) st2 b2 remaining (gr_devs _ _ _ _ _ G2) Ht Hb1 ltac:(lia) ltac:(lia) Hend Hpre EL)
    as (G3 & T3 & R3 & B3 & Q3).
  pose proof (grows_trans _ _ _ _ _ _ _ G2 G3) as G4. pose proof (gr_devs _ _ _ _ _ G4) as D4.
  destruct (Z.ltb_spec 0 remaining) as [Hp|Hp]; intros [= <- <- <-].
  - assert (ComputeTotalSizeSlow (bi_blocks b2) = bi_total b2) as Hc.
    { rewrite B3. eapply ComputeTotalSizeSlow_total; [by eapply devs_ok_left|lia]. }
    rewrite Hc, with_layout_id. split_and!; [done|done|split; lia|cbn; lia..].
  - assert (offset + size = bi_total b2) as -> by lia. rewrite with_layout_id. split_and!; [done|done|split; lia|cbn; lia..].
Qed.

(** * Releasing *)

Definition in_pools (ps : list TagId) blocks : list BlobBlock := List.filter (fun blk => bool_decide (bb_pool blk ∈ ps)) blocks.

Lemma on_pool_in_pools p ps blocks : on_pool p (in_pools ps blocks) = if decide (p ∈ ps) then on_pool p blocks else [].
Proof.
  unfold on_pool, in_pools. induction blocks as [|blk l IH]; [by case_decide|]. cbn [List.filter].
  destruct (bool_decide_reflect (bb_pool blk ∈ ps)) as [Hin|Hin]; cbn [List.filter]; rewrite IH;
    destruct (bool_decide_reflect (bb_pool blk = p)) as [<-|Hne]; repeat case_decide; done.
Qed.

Lemma in_pools_all blocks : in_pools (remove_dups (map bb_pool blocks)) blocks = blocks.
Proof.
  enough (forall ps, map bb_pool blocks ⊆ ps -> in_pools ps blocks = blocks) as Hall.
  { apply Hall. intros p. by rewrite elem_of_remove_dups. }
  unfold in_pools. induction blocks as [|blk l IH]; intros ps Hs; [done|]. cbn in *.
  rewrite bool_decide_true by set_solver. by rewrite IH by set_solver.
Qed.

Lemma in_pools_nil blocks : in_pools [] blocks = [].
Proof. unfold in_pools. induction blocks as [|blk l IH]; [done|]. cbn [List.filter]. by rewrite bool_decide_false by set_solver. Qed.

Lemma free_extents l : map block_extent (map free_block l) = map blk_extent l.
Proof. by rewrite map_map. Qed.

Lemma keeps_credit held st pool n : keeps held st (credit st pool n).
Proof.
  unfold credit. destruct (rt_targets st !! pool) as [t|]; [|apply keeps_refl]. apply keeps_target. intros _. cbn. apply u64_range.
Qed.

Lemma credit_devs st pool n : rt_devs (credit st pool n) = rt_devs st.
Proof. unfold credit. by destruct (rt_targets st !! pool). Qed.

Lemma free_pool_ok held st blocks p ps :
  p ∉ ps -> devs_ok (rt_devs st) (in_pools (p :: ps) blocks ++ held) ->
  devs_ok (rt_devs (free_pool st blocks p)) (in_pools ps blocks ++ held) /\
  keeps (in_pools ps blocks ++ held) st (free_pool st blocks p).
Proof.
  intros Hp [Hf Hd]. unfold free_pool. fold (on_pool p blocks).
  assert (Forall (blk_ok (rt_devs st)) (in_pools ps blocks ++ held)) as Hf'.
  { rewrite Forall_app in *. destruct Hf as [H3 H4]. split; [|done]. rewrite Forall_forall in *. intros blk Hb. apply H3.
    unfold in_pools in *. rewrite list_elem_of_In, filter_In, bool_decide_eq_true in *. set_solver. }
  assert (forall q, q <> p -> on_pool q (in_pools (p :: ps) blocks ++ held) = on_pool q (in_pools ps blocks ++ held)) as Hother.
  { intros q Hq. rewrite !on_pool_app, !on_pool_in_pools. f_equal. repeat case_decide; set_solver. }
  destruct (rt_devs st !! p) as [d|] eqn:Ed; cycle 1.
  { split; [|apply keeps_refl]. split; [done|]. intros q d Hq. rewrite <- Hother by congruence. by apply Hd. }
  destruct (dev_free d _) as [ok d'] eqn:E. specialize (Hd p d Ed) as Hdp.
  rewrite on_pool_app, on_pool_in_pools, decide_True, map_app, <- free_extents in Hdp by set_solver.
  destruct (dev_free_ok d _ _ ok d' Hdp E) as [Hok' Hsame].
  assert (on_pool p (in_pools ps blocks ++ held) = on_pool p held) as Hp'.
  { by rewrite on_pool_app, on_pool_in_pools, decide_False. }
  assert (devs_ok (<[p := d']> (rt_devs st)) (in_pools ps blocks ++ held)) as Hd'.
  { split.
    - eapply Forall_impl; [exact Hf'|]. intros blk [Hx Hy]. split; [done|]. by apply lookup_insert_is_Some'; right.
    - intros q d2 Hq. destruct (decide (p = q)) as [<-|Hne].
      + rewrite lookup_insert_eq in Hq. injection Hq as <-. by rewrite Hp'.
      + rewrite lookup_insert_ne in Hq by done. rewrite <- Hother by done. by apply Hd. }
  assert (keeps (in_pools ps blocks ++ held) st (set_devs st (<[p := d']> (rt_devs st)))) as Hk.
  { apply keeps_devs. eapply same_blocks_step; [exact Ed|]. by rewrite Hp'. }
  destruct ok; [|done]. rewrite credit_devs. split; [done|]. eapply keeps_trans; [exact Hk|apply keeps_credit].
Qed.

Lemma free_by_pool_ok held st blocks :
  devs_ok (rt_devs st) (blocks ++ held) ->
  devs_ok (rt_devs (free_by_pool st blocks)) held /\ keeps held st (free_by_pool st blocks).
Proof.
  unfold free_by_pool. rewrite <- (in_pools_all blocks) at 1. generalize (NoDup_remove_dups (map bb_pool blocks)).
  generalize (remove_dups (map bb_pool blocks)) as ps. intros ps Hnd. revert st.
  induction Hnd as [|p ps Hp _ IH]; intros st Hd; cbn [fold_left].
  - rewrite in_pools_nil in Hd. split; [done|apply keeps_refl].
  - destruct (free_pool_ok held st blocks p ps Hp Hd) as [D1 K1]. destruct (IH _ D1) as [D2 K2]. split; [done|].
    eapply keeps_trans; [eapply keeps_sub, K1; set_solver|done].
Qed.

(** * Resizing *)

Lemma blk_bytes_shrink devs blk n :
  0 <= n <= bb_size blk ->
  blk_bytes (D := D) devs (mkBlobBlock (bb_pool blk) (bb_query blk) (bb_offset blk) n (bb_capacity blk)) = take (Z.to_nat n) (blk_bytes devs blk).
Proof.
  intros Hn. unfold blk_bytes. cbn [bb_size]. replace (bb_size blk) with (n + (bb_size blk - n)) by lia.
  rewrite (seqZ_app 0 n) by lia. rewrite map_app, take_app_length'; [done|]. rewrite length_map, length_seqZ. done.
Qed.

Lemma split_blocks_ok devs new_size blocks : forall start keep drop,
  Forall (blk_ok (D := D) devs) blocks -> 0 <= start -> start + total_size blocks <= 2 ^ 62 ->
  split_blocks start new_size blocks = (keep, drop) ->
  map place (keep ++ drop) ≡ₚ map place blocks /\ Forall (blk_ok devs) keep /\ Forall (blk_ok devs) drop /\
  content devs keep = take (Z.to_nat (new_size - start)) (content devs blocks).
Proof.
  induction blocks as [|blk blocks IH]; intros start keep drop Hf Hs Htot; cbn [split_blocks].
  { intros [= <- <-]. split_and!; [done|done|done|symmetry; apply take_nil]. }
  inversion Hf as [|? ? Hb Hf']; subst. destruct Hb as [Hsz Hp]. unfold total_size in Htot. rewrite zsum_cons in Htot.
  fold (total_size blocks) in Htot. pose proof (len_content _ _ Hf') as Hlen. unfold len in Hlen. rewrite u64_small by lia.
  destruct (split_blocks _ new_size blocks) as [keep' drop'] eqn:E.
  destruct (IH (start + bb_size blk) _ _ Hf' ltac:(lia) ltac:(lia) E) as (P1 & F1 & F2 & C1).
  pose proof (length_blk_bytes devs blk) as Hl. rewrite content_cons.
  destruct (Z.leb_spec new_size start); [|destruct (Z.ltb_spec new_size (start + bb_size blk))]; intros [= <- <-]; split_and!;
    try done; try (constructor; [split; [cbn; lia|done]|done]).
  - rewrite <- Permutation_middle. cbn. by rewrite P1.
  - rewrite C1. replace (Z.to_nat (new_size - (start + bb_size blk))) with 0%nat by lia.
    by replace (Z.to_nat (new_size - start)) with 0%nat by lia.
  - cbn. by rewrite P1.
  - rewrite content_cons, C1, blk_bytes_shrink by lia. replace (Z.to_nat (new_size - (start + bb_size blk))) with 0%nat by lia.
    rewrite take_0, app_nil_r, take_app_le by lia. done.
  - cbn. by rewrite P1.
  - rewrite content_cons, C1, take_app_ge by lia. f_equal. f_equal. lia.
Qed.

End Helpers.
