(* ===== verification/BlobPut.v ===== *)
(** What a write does to the contents of one copy of a blob: resizing, zeroing
    the hole of a sparse write, and writing the regions of a vectored put. *)
From Stdlib Require Import ZArith Lia.
From coqutil Require Import Byte.
From stdpp Require Import base list gmap.
From S2P Require Import Prelude Extents BlockAllocator TxnLog Text BlobMeta BlobDevice BlobStore BlobBlocks BlobSafety.

Open Scope Z_scope.

(** * Contents as the caller means them *)

(** What the regions of a request, in list order, leave at position [i]. *)
Fixpoint seg_byte (segs : list segment) (i : Z) : option u8 :=
  match segs with
  | [] => None
  | s :: segs =>
      match seg_byte segs i with
      | Some x => Some x
      | None =>
          if (sg_offset s <=? i) && (i <? sg_offset s + sg_size s)
          then default [] (sg_data s) !! Z.to_nat (i - sg_offset s)
          else None
      end
  end.

(** A region that fits: its buffer holds its bytes. *)
Definition seg_ok (s : segment) : Prop :=
  0 <= sg_offset s /\ 0 <= sg_size s /\ sg_offset s + sg_size s <= 2 ^ 62 /\ sg_size s <= len (default [] (sg_data s)).

(** [new] is [old] after the regions were written over it, zeros first put over
    [lo .. hi); when [ok] is false what was to be written is unknown. *)
Definition overwritten (lo hi : Z) (segs : list segment) (ok : bool) (old new : list u8) : Prop :=
  length new = length old /\
  forall i, 0 <= i < len old ->
    match seg_byte segs i with
    | Some x => ok = true -> new !! Z.to_nat i = Some x
    | None =>
        if (lo <=? i) && (i <? hi) then ok = true -> new !! Z.to_nat i = Some Byte.x00
        else new !! Z.to_nat i = old !! Z.to_nat i
    end.

(** One copy after a put of [off .. off + size): the regions' bytes, zeros in the
    hole before a sparse write, elsewhere what was there. A replacing put also
    cuts the copy at the end of the range. Between the regions of a vectored put,
    past the old end, nothing is said. *)
Definition copy_put (replace ok : bool) (off size : Z) (segs : list segment) (old new : list u8) : Prop :=
  (if replace then Z.min (len old) (off + size) <= len new else len old <= len new) /\
  len new <= Z.max (len old) (off + size) /\
  (ok = true -> len new = if replace then off + size else Z.max (len old) (off + size)) /\
  forall i, 0 <= i < len new ->
    match seg_byte segs i with
    | Some x => ok = true -> new !! Z.to_nat i = Some x
    | None =>
        if i <? len old then new !! Z.to_nat i = old !! Z.to_nat i
        else ok = true -> replace || (i <? off) = true -> new !! Z.to_nat i = Some Byte.x00
    end.

(** [std::vector::resize] with zeros. *)
Definition resized (n : Z) (old : list u8) : list u8 := resize (Z.to_nat n) Byte.x00 old.

Lemma len_resized n old : 0 <= n -> len (resized n old) = n.
Proof. intros. unfold resized, len. rewrite length_resize. lia. Qed.

Lemma lookup_resized n old i : 0 <= i < n -> resized n old !! Z.to_nat i = if i <? len old then old !! Z.to_nat i else Some Byte.x00.
Proof.
  intros Hi. unfold resized, len. destruct (Z.ltb_spec i (Z.of_nat (length old))).
  - rewrite lookup_resize; [done|lia..].
  - rewrite lookup_resize_new; [done|lia..].
Qed.

Lemma list_eq_Z {A} (l l' : list A) : length l = length l' -> (forall i, 0 <= i < Z.of_nat (length l) -> l !! Z.to_nat i = l' !! Z.to_nat i) -> l = l'.
Proof.
  intros Hl Hi. apply list_eq. intros i. destruct (decide (i < length l)%nat).
  - replace i with (Z.to_nat (Z.of_nat i)) by lia. apply Hi. lia.
  - by rewrite !lookup_ge_None_2 by lia.
Qed.

Section Writing.
Context {D P I : Type} `{BlockDeviceLaws D} `{Dpe P} `{BufferPool I}.
Implicit Types (st : Runtime D P I) (b : BlobInfo) (blk : BlobBlock) (blocks held : list BlobBlock) (t : PutBlobTask).

(** A step that changes the bytes of these blocks, and of no other. *)
Record rewrites (held blocks : list BlobBlock) st st' (R : list u8 -> list u8 -> Prop) : Prop := {
  rw_devs : devs_ok (rt_devs st') (blocks ++ held);
  rw_keeps : keeps held st st';
  rw_content : R (content (rt_devs st) blocks) (content (rt_devs st') blocks) }.

Lemma rewrites_trans held blocks st1 st2 st3 (R1 R2 R3 : list u8 -> list u8 -> Prop) :
  (forall x y z, R1 x y -> R2 y z -> R3 x z) -> rewrites held blocks st1 st2 R1 -> rewrites held blocks st2 st3 R2 ->
  rewrites held blocks st1 st3 R3.
Proof. intros HR [D1 K1 C1] [D2 K2 C2]. split; [done|by eapply keeps_trans|by eapply HR]. Qed.

Lemma rewrites_impl held blocks st st' (R R' : list u8 -> list u8 -> Prop) :
  (forall x y, R x y -> R' x y) -> rewrites held blocks st st' R -> rewrites held blocks st st' R'.
Proof. intros HR [D1 K1 C1]. split; auto. Qed.

(** * Zeroing *)

Lemma lookup_zeros n i : 0 <= i < n -> zeros n !! Z.to_nat i = Some Byte.x00.
Proof. intros Hi. unfold zeros. apply lookup_replicate_2. lia. Qed.

Lemma zero_fill_ok st blocks held n offset idx start_off z st' :
  devs_ok (rt_devs st) (blocks ++ held) -> total_size blocks <= 2 ^ 62 -> 0 <= offset -> 0 <= n -> offset + n <= 2 ^ 62 ->
  start_off = total_size (take idx blocks) -> start_off <= offset -> zero_fill st blocks n offset idx start_off = (z, st') ->
  rewrites held blocks st st' (overwritten offset (offset + n) [] (bool_decide (z = Some 0))) /\ (z = None \/ z = Some 0 \/ z = Some 1).
Proof.
  intros Hd Htot Ho Hn He Hst Hs. unfold zero_fill, alloc_buffer. destruct (AllocateBuffer (rt_ipc st) n) as [ok i].
  set (st1 := set_ipc st i). destruct ok.
  - destruct (ModifyExistingData st1 blocks (zeros n) n offset idx start_off) as [err st2] eqn:E. intros [= <- <-].
    destruct (ModifyExistingData_ok st1 blocks held (zeros n) n offset idx start_off err st2 Hd Htot Ho Hn He) as (devs' & -> & D1 & S1 & [L1 W1] & Herr);
      [unfold len, zeros; rewrite length_replicate; lia|done..|].
    split; [|destruct Herr as [-> | ->]; auto]. split; [done|eapply keeps_trans; [apply keeps_ipc|]; eapply keeps_trans; [by apply keeps_devs|apply keeps_ipc]|].
    split; [done|]. intros j Hj. cbn [seg_byte]. destruct (W1 j Hj) as [A B]. cbn [Z.add] in A, B.
    destruct (Z.leb_spec offset j), (Z.ltb_spec j (offset + n)); cbn [andb]; [|apply A; lia..].
    intros Hok%bool_decide_eq_true. injection Hok as ->. rewrite <- (lookup_zeros n (j - offset)) by lia. by apply B; [lia|].
  - intros [= <- <-]. split; [|auto]. split; [done|apply keeps_ipc|]. split; [done|]. intros j Hj. cbn [seg_byte].
    destruct ((offset <=? j) && (j <? offset + n)); [done|done].
Qed.

(** * The regions *)

Lemma seg_byte_some segs i x : seg_byte segs i = Some x -> exists s, s ∈ segs /\ sg_offset s <= i < sg_offset s + sg_size s.
Proof.
  induction segs as [|s segs IH]; cbn [seg_byte]; [done|]. destruct (seg_byte segs i) as [y|].
  - intros E. destruct (IH E) as (s' & Hs & Hr). exists s'. split; [by right|done].
  - destruct (Z.leb_spec (sg_offset s) i), (Z.ltb_spec i (sg_offset s + sg_size s)); cbn [andb]; try done.
    intros _. exists s. split; [by left|lia].
Qed.

Lemma seg_byte_none segs i s : Forall seg_ok segs -> seg_byte segs i = None -> s ∈ segs -> ~ sg_offset s <= i < sg_offset s + sg_size s.
Proof.
  intros Hf. induction Hf as [|s' segs (Ho & Hz & _ & Hl) Hf IH]; cbn [seg_byte]; [set_solver|].
  destruct (seg_byte segs i) as [y|]; [done|]. intros E [->|Hs]%elem_of_cons; [|by apply IH]. intros Hr.
  rewrite (proj2 (Z.leb_le _ _)), (proj2 (Z.ltb_lt _ _)) in E by lia. apply lookup_ge_None_1 in E. unfold len in Hl. lia.
Qed.

Lemma overwritten_cons s segs ok1 ok2 c0 c1 c2 :
  seg_ok s -> written (default [] (sg_data s)) (sg_offset s) (sg_size s) 0 ok1 c0 c1 ->
  overwritten 0 0 segs ok2 c1 c2 -> overwritten 0 0 (s :: segs) (ok1 && ok2) c0 c2.
Proof.
  intros (Ho & Hz & _ & Hl) [L1 W1] [L2 W2]. split; [congruence|]. intros i Hi. cbn [seg_byte].
  specialize (W2 i ltac:(unfold len in *; lia)). destruct (W1 i Hi) as [A B]. cbn [Z.add] in A, B.
  destruct (seg_byte segs i) as [y|]; [intros [_ E]%andb_prop; by apply W2|].
  rewrite (proj2 (andb_false_iff (0 <=? i) (i <? 0))) in * by lia.
  destruct (Z.leb_spec (sg_offset s) i), (Z.ltb_spec i (sg_offset s + sg_size s)); cbn [andb]; try (rewrite W2; apply A; lia).
  destruct (default [] (sg_data s) !! Z.to_nat (i - sg_offset s)) as [y|] eqn:E.
  - intros [E1 _]%andb_prop. rewrite W2. rewrite <- E. by apply B; [lia|].
  - apply lookup_ge_None_1 in E. unfold len in Hl. lia.
Qed.

Lemma overwritten_none lo hi ok c : hi <= lo -> overwritten lo hi [] ok c c.
Proof. intros Hl. split; [done|]. intros i Hi. cbn [seg_byte]. by rewrite (proj2 (andb_false_iff _ _)) by lia. Qed.

Lemma overwritten_weaken segs segs' c c' :
  (forall i, is_Some (seg_byte segs i) -> is_Some (seg_byte segs' i)) -> overwritten 0 0 segs false c c' -> overwritten 0 0 segs' false c c'.
Proof.
  intros Hs [L W]. split; [done|]. intros i Hi. specialize (W i Hi). destruct (seg_byte segs' i) eqn:E; [done|].
  destruct (seg_byte segs i) eqn:E'; [|done]. destruct (Hs i) as [y Hy]; [by rewrite E'|congruence].
Qed.

Lemma write_segments_ok held blocks segs idx start_off : forall st err st',
  devs_ok (rt_devs st) (blocks ++ held) -> total_size blocks <= 2 ^ 62 -> start_off = total_size (take idx blocks) ->
  Forall (fun s => seg_ok s /\ start_off <= sg_offset s) segs -> write_segments st blocks segs idx start_off = (err, st') ->
  rewrites held blocks st st' (overwritten 0 0 segs (err =? 0)) /\ (err = 0 \/ err = 1).
Proof.
  induction segs as [|s segs IH]; intros st err st' Hd Htot Hst Hsegs; cbn [write_segments].
  { intros [= <- <-]. split; [|by left]. split; [done|apply keeps_refl|by apply overwritten_none]. }
  inversion Hsegs as [|? ? [Hs Hso] Hsegs']; subst x l. pose proof Hs as (Ho & Hz & He & Hl).
  destruct (ModifyExistingData _ _ _ _ _ _ _) as [err1 st1] eqn:E.
  destruct (ModifyExistingData_ok st blocks held _ _ _ idx start_off err1 st1 Hd Htot Ho Hz He Hl Hst Hso E)
    as (devs' & -> & D1 & S1 & W1 & Herr1).
  assert (keeps held st (set_devs st devs')) as K1 by by apply keeps_devs.
  destruct (Z.eqb_spec err1 0) as [->|Hne]; cbn [negb].
  - intros Hw. destruct (IH (set_devs st devs') _ _ D1 Htot Hst Hsegs' Hw) as [[D2 K2 C2] Herr2]. split; [|done].
    split; [done|by eapply keeps_trans|]. change (err =? 0) with (true && (err =? 0)). by eapply overwritten_cons.
  - intros [= <- <-]. split; [|done]. split; [done|done|]. destruct Herr1 as [->| ->]; [done|].
    apply (overwritten_weaken [s]); [intros i [y Hy]; cbn [seg_byte] in *; destruct (seg_byte segs i); [done|by exists y]|].
    change false with (false && true). eapply overwritten_cons; [done|exact W1|by apply overwritten_none].
Qed.

(** The hole, then the regions, which start past it. *)
Lemma overwritten_hole lo hi segs ok1 ok2 c0 c1 c2 :
  0 <= lo -> Forall (fun s => seg_ok s /\ hi <= sg_offset s) segs -> overwritten lo hi [] ok1 c0 c1 -> overwritten 0 0 segs ok2 c1 c2 ->
  overwritten lo hi segs (ok1 && ok2) c0 c2.
Proof.
  intros Hlo Hf [L1 W1] [L2 W2]. split; [congruence|]. intros i Hi. specialize (W1 i Hi). specialize (W2 i ltac:(unfold len in *; lia)).
  cbn [seg_byte] in W1. destruct (seg_byte segs i) as [y|]; [intros [_ ?]%andb_prop; by apply W2|].
  rewrite (proj2 (andb_false_iff (0 <=? i) (i <? 0))) in W2 by lia. rewrite W2.
  destruct ((lo <=? i) && (i <? hi)); [|done]. intros [? _]%andb_prop. by apply W1.
Qed.

Lemma put_data_ok st t blocks held old_size offset idx hint_off rc st' :
  devs_ok (rt_devs st) (blocks ++ held) -> total_size blocks <= 2 ^ 62 -> 0 <= old_size -> 0 <= offset <= 2 ^ 62 ->
  hint_off = total_size (take idx blocks) -> hint_off <= old_size -> hint_off <= offset ->
  Forall (fun s => seg_ok s /\ offset <= sg_offset s) (put_segments t) ->
  put_data st t blocks old_size offset idx hint_off = (rc, st') ->
  rewrites held blocks st st' (overwritten old_size offset (put_segments t) (rc =? 0)) /\ (rc = 0 \/ rc = 6 \/ rc = 21).
Proof.
  intros Hd Htot Hold Hoff Hhint Ho1 Ho2 Hsegs. unfold put_data.
  assert (Forall (fun s => seg_ok s /\ hint_off <= sg_offset s) (put_segments t)) as Hsegs'.
  { eapply Forall_impl; [exact Hsegs|]. intros s [? ?]. split; [done|lia]. }
  destruct (if old_size <? offset then _ else _) as [hole st1] eqn:Eh.
  assert (rewrites held blocks st st1 (overwritten old_size offset [] (bool_decide (hole = Some 0))) /\
    (hole = None \/ hole = Some 0 \/ hole = Some 1)) as [R1 Hh].
  { destruct (Z.ltb_spec old_size offset).
    - destruct (zero_fill_ok st blocks held (offset - old_size) old_size idx hint_off hole st1 Hd Htot Hold ltac:(lia) ltac:(lia) Hhint Ho1 Eh).
      replace (old_size + (offset - old_size)) with offset in * by lia. done.
    - injection Eh as <- <-. split; [|auto]. split; [done|apply keeps_refl|]. apply overwritten_none. lia. }
  assert (forall rc', rc' <> 0 -> hole <> Some 0 -> rewrites held blocks st st1 (overwritten old_size offset (put_segments t) (rc' =? 0))) as Hfail.
  { intros rc' Hrc Hn. eapply rewrites_impl; [|exact R1]. intros c c' [L W]. split; [done|]. intros i Hi. specialize (W i Hi).
    rewrite (proj2 (Z.eqb_neq rc' 0)) by done. cbn [seg_byte] in W. destruct (seg_byte _ i); [done|].
    destruct ((old_size <=? i) && (i <? offset)); [done|]. done. }
  destruct hole as [e|]; [|intros [= <- <-]; split; [by apply Hfail|auto]].
  destruct (Z.eqb_spec e 0) as [->|Hne]; cbn [negb].
  - destruct (write_segments st1 blocks _ idx hint_off) as [err st2] eqn:E2. intros [= <- <-].
    destruct (write_segments_ok held blocks _ idx hint_off st1 err st2 (rw_devs _ _ _ _ _ R1) Htot Hhint Hsegs' E2) as [R2 Herr].
    split; [|destruct Herr as [->| ->]; auto]. eapply rewrites_trans; [|exact R1|exact R2]. intros c0 c1 c2 W1 W2.
    replace ((if err =? 0 then 0 else 20 + err) =? 0) with (true && (err =? 0)) by (destruct Herr as [->| ->]; done).
    eapply overwritten_hole; [done|done|exact W1|exact W2].
  - intros [= <- <-]. destruct Hh as [?|[?|[= ->]]]; [done|congruence|]. split; [by apply Hfail|auto].
Qed.

(** * One copy *)

(** A step that gives a copy new blocks, size and contents, and keeps all that
    [held] holds; it may log. *)
Record updates (held : list BlobBlock) st b st' b' (R : list u8 -> list u8 -> Prop) : Prop := {
  up_devs : devs_ok (rt_devs st') (bi_blocks b' ++ held);
  up_same : same_blocks (rt_devs st) (rt_devs st') held;
  up_meta : rt_meta st' = rt_meta st;
  up_targets : targets_ok st';
  up_layout : b' = with_layout b (bi_blocks b') (bi_total b');
  up_ok : blob_ok b';
  up_content : R (content (rt_devs st) (bi_blocks b)) (content (rt_devs st') (bi_blocks b')) }.

Lemma updates_impl held st b st' b' (R R' : list u8 -> list u8 -> Prop) :
  (forall c c', R c c' -> R' c c') -> updates held st b st' b' R -> updates held st b st' b' R'.
Proof. intros HR [????? ? C]. split; auto. Qed.

Lemma updates_grows held st b st' b' (R : list u8 -> list u8 -> Prop) :
  grows held st b st' b' -> targets_ok st' -> blob_ok b' ->
  (forall e, len (content (rt_devs st) (bi_blocks b)) + len e = bi_total b' -> R (content (rt_devs st) (bi_blocks b)) (content (rt_devs st) (bi_blocks b) ++ e)) ->
  updates held st b st' b' R.
Proof.
  intros [D1 K1 [e C1] B1 _ _] Ht Hb HR. split; [done|apply K1|apply K1|done|done|done|]. rewrite C1. apply HR.
  rewrite <- len_app, <- C1, (proj1 Hb). apply len_content. by eapply devs_ok_left.
Qed.

Lemma updates_rewrites held st b st1 b1 st2 st3 (R1 R2 R3 : list u8 -> list u8 -> Prop) :
  updates held st b st1 b1 R1 -> rt_devs st2 = rt_devs st1 -> rt_targets st2 = rt_targets st1 -> rt_meta st2 = rt_meta st1 ->
  rewrites held (bi_blocks b1) st2 st3 R2 ->
  (forall c c1 c2, len c1 = bi_total b1 -> R1 c c1 -> R2 c1 c2 -> R3 c c2) -> updates held st b st3 b1 R3.
Proof.
  intros [D1 S1 M1 T1 L1 O1 C1] Ed Et Em [D2 K2 C2] HR. rewrite <- Ed in *. split; [done| | | |done|done|].
  - eapply same_blocks_trans; [exact S1|apply K2].
  - rewrite (proj1 (kp_rest _ _ _ K2)). congruence.
  - apply (kp_targets _ _ _ K2). unfold targets_ok. by rewrite Et.
  - eapply HR; [|exact C1|exact C2]. rewrite (proj1 O1). apply len_content. by eapply devs_ok_left.
Qed.

Lemma updates_fields held st b st' b' R b1 :
  bi_blocks b1 = bi_blocks b -> updates held st b st' b' R -> updates held st b1 st' (with_layout b1 (bi_blocks b') (bi_total b')) R.
Proof. intros Hb [D1 S1 M1 T1 L1 O1 C1]. split; try done. by rewrite Hb. Qed.

Lemma bi_total_nonneg held st b : devs_ok (rt_devs st) (bi_blocks b ++ held) -> blob_ok b -> 0 <= bi_total b.
Proof. intros Hd [-> _]. rewrite <- (len_content (rt_devs st)); [unfold len; lia|]. by eapply devs_ok_left. Qed.

(** The pieces of [copy_put]. *)
Lemma copy_put_refl off size segs c : copy_put false false off size segs c c.
Proof. split_and!; [lia|lia|done|]. intros i Hi. rewrite (proj2 (Z.ltb_lt _ _)) by lia. by destruct (seg_byte segs i). Qed.

Lemma copy_put_weaken replace ok off size segs c c' : copy_put replace ok off size segs c c' -> copy_put replace false off size segs c c'.
Proof.
  intros (H3 & H4 & H5 & H6). split_and!; [done|done|done|]. intros i Hi. specialize (H6 i Hi).
  destruct (seg_byte segs i); [done|]. by destruct (i <? len c).
Qed.

Lemma copy_put_fail replace off size segs c e :
  len c + len e <= Z.max (len c) (off + size) -> copy_put replace false off size segs c (c ++ e).
Proof.
  intros He. split_and!; rewrite ?len_app; [destruct replace; unfold len in *; lia|done|done|]. intros i Hi.
  destruct (seg_byte segs i); [done|]. destruct (Z.ltb_spec i (len c)) as [Hl|Hl]; [|done].
  rewrite lookup_app_l; [done|unfold len in *; lia].
Qed.

Lemma copy_put_extended ok off size segs c e c2 :
  0 <= off -> len c + len e = Z.max (len c) (off + size) -> overwritten (len c) off segs ok (c ++ e) c2 -> copy_put false ok off size segs c c2.
Proof.
  intros Ho He [L W]. assert (len c2 = len c + len e) as Hl by (rewrite <- len_app; unfold len; by rewrite L).
  split_and!; [unfold len in *; lia|lia|lia|]. intros i Hi. rewrite len_app in W. specialize (W i ltac:(lia)).
  destruct (seg_byte segs i); [done|]. rewrite orb_false_l. destruct (Z.ltb_spec i (len c)).
  - rewrite (proj2 (andb_false_iff _ _)) in W by lia. rewrite W. rewrite lookup_app_l; [done|unfold len in *; lia].
  - rewrite (proj2 (Z.leb_le _ _)) in W by lia. cbn [andb] in W. intros Hok Hlt. rewrite Hlt in W. by apply W.
Qed.

Lemma copy_put_resized ok off size segs c c2 :
  0 <= off -> 0 <= size -> overwritten (len c) off segs ok (resized (off + size) c) c2 -> copy_put true ok off size segs c c2.
Proof.
  intros Ho Hs [L W]. assert (len c2 = off + size) as Hl by (rewrite <- (len_resized (off + size) c) by lia; unfold len; by rewrite L).
  split_and!; [unfold len in *; lia|lia|lia|]. intros i Hi. rewrite len_resized in W by lia. specialize (W i ltac:(lia)).
  destruct (seg_byte segs i); [done|]. rewrite orb_true_l. rewrite lookup_resized in W by lia. destruct (Z.ltb_spec i (len c)).
  - by rewrite (proj2 (andb_false_iff _ _)) in W by lia.
  - rewrite (proj2 (Z.leb_le _ _)) in W by lia. cbn [andb] in W. intros Hok _. destruct (i <? off); auto.
Qed.

(** ** Resizing *)

Definition resize_result (err n : Z) (c c' : list u8) : Prop :=
  if err =? 0 then c' = resized n c else len c <= n /\ exists e, c' = c ++ e /\ len c' <= n.

Lemma resized_grow c e n : len c + len e = n -> (forall i, len c <= i < n -> (c ++ e) !! Z.to_nat i = Some Byte.x00) -> c ++ e = resized n c.
Proof.
  intros Hl Hz. pose proof (len_resized n c ltac:(unfold len in *; lia)) as Hr. apply list_eq_Z.
  - rewrite length_app. unfold len in *. lia.
  - fold (len (c ++ e)). rewrite len_app. intros i Hi. rewrite lookup_resized by lia. destruct (Z.ltb_spec i (len c)); [|apply Hz; lia].
    rewrite lookup_app_l; [done|unfold len in *; lia].
Qed.

Lemma overwritten_tail lo hi ok c e c2 :
  len c <= lo -> overwritten lo hi [] ok (c ++ e) c2 -> exists e2, c2 = c ++ e2 /\ len e2 = len e.
Proof.
  intros Hlo [L W]. exists (drop (length c) c2). split; [|unfold len; rewrite length_drop, L, length_app; lia].
  rewrite <- (take_drop (length c) c2) at 1. f_equal. apply list_eq_Z; rewrite length_take, L, length_app; [lia|].
  intros i Hi. rewrite lookup_take_lt by lia. specialize (W i ltac:(rewrite len_app; unfold len; lia)). cbn [seg_byte] in W.
  rewrite (proj2 (andb_false_iff _ _)) in W by (unfold len in *; lia). rewrite W. by rewrite lookup_app_l by lia.
Qed.

Lemma ResizeBlob_shrink held st b n :
  devs_ok (rt_devs st) (bi_blocks b ++ held) -> targets_ok st -> blob_ok b -> 0 <= n < bi_total b ->
  let '(keep, dropped) := split_blocks 0 n (bi_blocks b) in
  updates held st b (free_by_pool st dropped) (with_layout b keep n) (fun c c' => c' = resized n c).
Proof.
  intros Hd Ht [Hbt Hb2] Hn. pose proof (len_content _ _ (devs_ok_left _ _ _ Hd)) as Hlen. rewrite <- Hbt in Hlen.
  destruct (split_blocks 0 n (bi_blocks b)) as [keep dropped] eqn:Es.
  destruct (split_blocks_ok (rt_devs st) n (bi_blocks b) 0 keep dropped (devs_ok_left _ _ _ Hd) ltac:(lia) ltac:(lia) Es) as (P1 & F1 & F2 & C1).
  assert (devs_ok (rt_devs st) (dropped ++ keep ++ held)) as Hd2.
  { apply (devs_ok_places _ (bi_blocks b ++ held)); [| |done].
    - rewrite !map_app in *. rewrite <- P1, <- app_assoc. apply Permutation_app_swap_app.
    - destruct Hd as [Hf _]. rewrite !Forall_app in *. tauto. }
  destruct (free_by_pool_ok (keep ++ held) st dropped Hd2) as [D3 K3].
  assert (content (rt_devs (free_by_pool st dropped)) keep = resized n (content (rt_devs st) (bi_blocks b))) as Hc.
  { rewrite (content_same (rt_devs st)) by (done || by eapply same_blocks_sub, K3; set_solver). rewrite C1, Z.sub_0_r. unfold resized.
    rewrite resize_le; [done|]. unfold len in Hlen. lia. }
  split; cbn [bi_blocks bi_total with_layout]; [done|eapply same_blocks_sub, K3; set_solver|apply K3|by apply K3|done| |done].
  split; cbn [bi_blocks bi_total with_layout]; [|lia].
  rewrite <- (len_content (rt_devs (free_by_pool st dropped))) by (by eapply devs_ok_left). rewrite Hc. by rewrite len_resized by lia.
Qed.

Lemma ResizeBlob_ok held st b n score minp err st' b' :
  devs_ok (rt_devs st) (bi_blocks b ++ held) -> targets_ok st -> blob_ok b -> 0 <= n <= 2 ^ 62 ->
  ResizeBlob st b n score minp = (err, st', b') -> updates held st b st' b' (resize_result err n) /\ 0 <= err.
Proof.
  intros Hd Ht Hb Hn. pose proof (bi_total_nonneg _ _ _ Hd Hb) as Hpos. pose proof Hb as [Hbt Hb2].
  pose proof (len_content _ _ (devs_ok_left _ _ _ Hd)) as Hlen. rewrite <- Hbt in Hlen. unfold ResizeBlob.
  destruct (Z.eqb_spec n (bi_total b)) as [->|Hne].
  { intros [= <- <- <-]. split; [|done]. apply updates_grows; [by apply grows_refl|done|done|]. intros e He.
    unfold resize_result. cbn [Z.eqb]. apply resized_grow; [lia|]. intros i Hi. lia. }
  destruct (Z.ltb_spec (bi_total b) n) as [Hlt|Hge].
  - destruct (ExtendBlob st b 0 n score minp 0) as [[err1 st1] b1] eqn:E1.
    destruct (ExtendBlob_ok held st b 0 n score minp 0 err1 st1 b1 Hd Ht Hb ltac:(lia) ltac:(lia) ltac:(lia) ltac:(lia) E1) as (G1 & T1 & O1 & Z1).
    rewrite Z.add_0_l in Z1. destruct (Z.eqb_spec err1 0) as [->|Hne1]; cbn [negb].
    + destruct (zero_fill st1 _ _ _ _ _) as [z st2] eqn:Ez. intros [= <- <- <-]. pose proof O1 as [Hb1 Hb1'].
      destruct (zero_fill_ok st1 (bi_blocks b1) held (n - bi_total b) (bi_total b) 0 0 z st2 (gr_devs _ _ _ _ _ G1) ltac:(lia) Hpos ltac:(lia) ltac:(lia)
        eq_refl Hpos Ez) as [W1 Hz].
      split; [|destruct Hz as [->|[->| ->]]; done].
      apply (updates_rewrites held st b st1 b1 st1 st2 (fun c c1 => c = content (rt_devs st) (bi_blocks b) /\ exists e, c1 = c ++ e) _ _ ltac:(apply updates_grows; eauto) eq_refl eq_refl eq_refl W1).
      intros c c1 c2 Hl1 [-> [e ->]] [L2 W2]. rewrite len_app in *. unfold resize_result.
      destruct (overwritten_tail (bi_total b) (bi_total b + (n - bi_total b)) (bool_decide (z = Some 0)) (content (rt_devs st) (bi_blocks b)) e c2)
        as (e2 & -> & He2); [lia|split; [done|by rewrite len_app]|].
      destruct (Z.eqb_spec (default 4 z) 0) as [Hz0|Hz0].
      * destruct z as [z|]; cbn in Hz0; [|done]. subst z. apply resized_grow; [lia|]. intros i Hi. specialize (W2 i ltac:(lia)). cbn [seg_byte] in W2.
        rewrite (proj2 (Z.leb_le _ _)), (proj2 (Z.ltb_lt _ _)) in W2 by lia. by apply W2.
      * split; [lia|]. exists e2. split; [done|]. rewrite len_app. lia.
    + intros [= <- <- <-]. split; [|lia]. apply updates_grows; [done..|]. intros e He. unfold resize_result. rewrite (proj2 (Z.eqb_neq _ _)) by done.
      split; [lia|]. exists e. split; [done|]. rewrite len_app. lia.
  - pose proof (ResizeBlob_shrink held st b n Hd Ht Hb ltac:(lia)) as Hs. destruct (split_blocks 0 n (bi_blocks b)) as [keep dropped].
    by intros [= <- <- <-].
Qed.

(** ** Releasing *)

Lemma FreeAllBlobBlocks_ok held st b st' b' :
  devs_ok (rt_devs st) (bi_blocks b ++ held) -> targets_ok st -> FreeAllBlobBlocks st b = (st', b') ->
  updates held st b st' b' (fun _ c' => c' = []).
Proof.
  intros Hd Ht [= <- <-]. destruct (free_by_pool_ok held st (bi_blocks b) Hd) as [D1 K1].
  split; cbn [bi_blocks bi_total with_layout]; [done|apply K1|apply K1|by apply K1|done| |done]. split; cbn; lia.
Qed.

End Writing.
