(* ===== verification/BlobCopies.v ===== *)
(** The copies of one blob: what a put does to the primary and to each replica,
    and that no copy, and no other blob, loses a byte by it. *)
From Stdlib Require Import ZArith Lia.
From coqutil Require Import Byte.
From stdpp Require Import base list gmap.
From S2P Require Import Prelude Extents BlockAllocator TxnLog Text BlobMeta BlobDevice BlobStore BlobBlocks BlobSafety BlobPut.

Open Scope Z_scope.

(** All the blocks of a blob. *)
Definition blob_blocks (b : BlobInfo) : list BlobBlock := bi_blocks b ++ concat (map rp_blocks (bi_replicas b)).

Definition rep_ok (r : Replica) : Prop := rp_total r = total_size (rp_blocks r) /\ rp_total r <= 2 ^ 62.
Definition blob_wf (b : BlobInfo) : Prop := blob_ok b /\ Forall rep_ok (bi_replicas b).

Section Copies.
Context {D P I : Type} `{BlockDeviceLaws D} `{Dpe P} `{BufferPool I}.
Implicit Types (st : Runtime D P I) (b : BlobInfo) (blk : BlobBlock) (blocks held : list BlobBlock) (t : PutBlobTask).

(** The contents of the copies: the primary, then the replicas by slot. *)
Definition view (devs : gmap TagId D) b : list (list u8) :=
  content devs (bi_blocks b) :: map (fun r => content devs (rp_blocks r)) (bi_replicas b).

Lemma lookup_view_S devs b i : view devs b !! S i = (fun r => content devs (rp_blocks r)) <$> bi_replicas b !! i.
Proof. apply (list_lookup_fmap (fun r => content devs (rp_blocks r))). Qed.

Lemma length_view devs b : length (view devs b) = S (length (bi_replicas b)).
Proof. cbn. by rewrite length_map. Qed.

Record changes (held : list BlobBlock) st b st' b' (R : list (list u8) -> list (list u8) -> Prop) : Prop := {
  ch_devs : devs_ok (rt_devs st') (blob_blocks b' ++ held);
  ch_same : same_blocks (rt_devs st) (rt_devs st') held;
  ch_blobs : mt_blobs (rt_meta st') = mt_blobs (rt_meta st);
  ch_targets : targets_ok st';
  ch_wf : blob_wf b';
  ch_view : R (view (rt_devs st) b) (view (rt_devs st') b') }.

Lemma changes_impl held st b st' b' (R R' : list (list u8) -> list (list u8) -> Prop) :
  (forall v v', R v v' -> R' v v') -> changes held st b st' b' R -> changes held st b st' b' R'.
Proof. intros HR [????? C]. split; auto. Qed.

Lemma changes_trans held st1 b1 st2 b2 st3 b3 (R1 R2 R3 : list (list u8) -> list (list u8) -> Prop) :
  (forall x y z, R1 x y -> R2 y z -> R3 x z) -> changes held st1 b1 st2 b2 R1 -> changes held st2 b2 st3 b3 R2 ->
  changes held st1 b1 st3 b3 R3.
Proof.
  intros HR [D1 S1 M1 T1 W1 V1] [D2 S2 M2 T2 W2 V2]. split; [done|by eapply same_blocks_trans|congruence|done|done|by eapply HR].
Qed.

(** A step that logs, and sets fields no copy depends on. *)
Lemma changes_fields held st b st' b' st2 b2 R :
  rt_devs st2 = rt_devs st' -> rt_targets st2 = rt_targets st' -> mt_blobs (rt_meta st2) = mt_blobs (rt_meta st') ->
  bi_blocks b2 = bi_blocks b' -> bi_replicas b2 = bi_replicas b' -> bi_total b2 = bi_total b' ->
  changes held st b st' b' R -> changes held st b st2 b2 R.
Proof.
  intros Ed Et Em Eb Er Ez [D1 S1 M1 T1 [[W1 W2] W3] V1].
  split; unfold blob_blocks, view, blob_wf, blob_ok, targets_ok in *; rewrite ?Ed, ?Et, ?Em, ?Eb, ?Er, ?Ez; done.
Qed.

Lemma changes_refl held st b (R : list (list u8) -> list (list u8) -> Prop) :
  devs_ok (rt_devs st) (blob_blocks b ++ held) -> targets_ok st -> blob_wf b -> R (view (rt_devs st) b) (view (rt_devs st) b) ->
  changes held st b st b R.
Proof. intros. split; [done|apply same_blocks_refl|done..]. Qed.

(** The copies in the slots [lo .. lo + n), 0 for the primary, went through [R];
    the others are what they were. *)
Definition on_slots (lo : Z) (n : nat) (R : list u8 -> list u8 -> Prop) (v v' : list (list u8)) : Prop :=
  length v' = length v /\
  forall i c c', v !! i = Some c -> v' !! i = Some c' ->
    if (lo <=? Z.of_nat i) && (Z.of_nat i <? lo + Z.of_nat n) then R c c' else c' = c.

Lemma map_content_same devs devs' (rs : list Replica) held :
  same_blocks (D := D) devs devs' held -> (forall r, r ∈ rs -> rp_blocks r ⊆ held) -> Forall (blk_ok devs) (concat (map rp_blocks rs)) ->
  map (fun r => content devs' (rp_blocks r)) rs = map (fun r => content devs (rp_blocks r)) rs.
Proof.
  intros Hs. induction rs as [|r rs IH]; intros Hsub Hf; [done|]. cbn in *. apply Forall_app in Hf as [Hf1 Hf2].
  rewrite IH by (done || set_solver). f_equal. apply content_same; [|done]. eapply same_blocks_sub; [|exact Hs]. set_solver.
Qed.

Lemma replica_blocks_sub (rs : list Replica) r : r ∈ rs -> rp_blocks r ⊆ concat (map rp_blocks rs).
Proof.
  intros Hr blk Hb. apply list_elem_of_In, in_concat. exists (rp_blocks r). rewrite <- !list_elem_of_In. split; [|done].
  by apply list_elem_of_fmap_2.
Qed.

Lemma Forall_blk_ok_concat devs (rs : list Replica) l : devs_ok (D := D) devs (l ++ concat (map rp_blocks rs)) -> Forall (blk_ok devs) (concat (map rp_blocks rs)).
Proof. intros [Hf _]. by apply Forall_app in Hf as [_ ?]. Qed.

Lemma changes_primary held st b st' b' R :
  devs_ok (rt_devs st) (blob_blocks b ++ held) -> blob_wf b ->
  updates (concat (map rp_blocks (bi_replicas b)) ++ held) st b st' b' R -> changes held st b st' b' (on_slots 0 1 R).
Proof.
  intros Hd [_ Hw] [D1 S1 M1 T1 L1 O1 C1]. assert (bi_replicas b' = bi_replicas b) as Er by by rewrite L1.
  unfold blob_blocks in *. rewrite <- app_assoc in Hd.
  split; unfold blob_blocks; rewrite ?Er, <- ?app_assoc; [done|eapply same_blocks_sub, S1; set_solver|by rewrite M1|done|split; [done|by rewrite Er]|].
  unfold view. rewrite Er. rewrite (map_content_same (rt_devs st) (rt_devs st') (bi_replicas b) (concat (map rp_blocks (bi_replicas b)) ++ held)).
  - split; [done|]. intros [|i] c c'; [by intros [= <-] [= <-]|]. intros E1 E2.
    rewrite between_false by lia. cbn in E1, E2. congruence.
  - done.
  - intros r Hr. etrans; [by apply replica_blocks_sub|]. set_solver.
  - destruct Hd as [Hf _]. rewrite !Forall_app in Hf. tauto.
Qed.

Lemma replicas_split (rs : list Replica) i r : rs !! i = Some r -> concat (map rp_blocks rs) ≡ₚ rp_blocks r ++ concat (map rp_blocks (delete i rs)).
Proof. intros Hr. rewrite (delete_Permutation _ _ _ Hr) at 1. done. Qed.

Lemma delete_insert_same {A} (l : list A) i x : delete i (<[i:=x]> l) = delete i l.
Proof. revert i. induction l as [|y l IH]; intros [|i]; cbn; [done..|]. f_equal. apply IH. Qed.

(** A step of the copy in one slot, seen as a blob of its own. *)
Lemma changes_replica held st b i r st' sb sb' R :
  devs_ok (rt_devs st) (blob_blocks b ++ held) -> blob_wf b -> bi_replicas b !! i = Some r -> bi_blocks sb = rp_blocks r ->
  updates (bi_blocks b ++ concat (map rp_blocks (delete i (bi_replicas b))) ++ held) st sb st' sb' R ->
  forall r', rp_blocks r' = bi_blocks sb' -> rp_total r' = bi_total sb' ->
  changes held st b st' (set_replica b i r') (on_slots (Z.of_nat i + 1) 1 R).
Proof.
  intros Hd [[W1 W2] Hw] Hi Hsb [D1 S1 M1 T1 _ [O1 O2] C1] r' Hr' Hz. pose proof (lookup_lt_Some _ _ _ Hi) as Hlt.
  assert (<[i:=r']> (bi_replicas b) !! i = Some r') as Hi' by by rewrite list_lookup_insert_eq.
  assert (devs_ok (rt_devs st') (blob_blocks (set_replica b i r') ++ held)) as D2.
  { eapply devs_ok_perm; [|exact D1]. unfold blob_blocks. cbn [set_replica set_replicas bi_blocks bi_replicas].
    rewrite (replicas_split _ _ _ Hi'), delete_insert_same, Hr', <- !app_assoc. apply Permutation_app_swap_app. }
  destruct Hd as [Hf _]. unfold blob_blocks in Hf. rewrite !Forall_app in Hf. destruct Hf as [[Hf1 Hf2] _].
  split; [done|eapply same_blocks_sub, S1; set_solver|by rewrite M1|done| |].
  - split; [by split|]. cbn [set_replica set_replicas bi_replicas]. apply Forall_insert; [done|]. split; congruence.
  - split; [rewrite !length_view; cbn [set_replica set_replicas bi_replicas]; by rewrite length_insert|].
    intros [|j] c c'.
    + intros [= <-] [= <-]. rewrite between_false by lia. apply content_same; [|done]. eapply same_blocks_sub, S1. set_solver.
    + rewrite !lookup_view_S. cbn [set_replica set_replicas bi_replicas]. intros Ec Ec'.
      destruct (decide (j = i)) as [->|Hne].
      * rewrite Hi in Ec. rewrite Hi' in Ec'. cbn in Ec, Ec'. injection Ec as <-. injection Ec' as <-.
        rewrite between_true by lia. by rewrite Hr', <- Hsb.
      * rewrite list_lookup_insert_ne in Ec' by done. rewrite between_false by lia.
        destruct (bi_replicas b !! j) as [rj|] eqn:Ej; [|done]. cbn in Ec, Ec'. injection Ec as <-. injection Ec' as <-.
        assert (rp_blocks rj ⊆ concat (map rp_blocks (delete i (bi_replicas b)))) as Hsub.
        { apply replica_blocks_sub. apply list_elem_of_lookup. destruct (decide (j < i)%nat).
          - exists j. by rewrite list_lookup_delete_lt.
          - exists (j - 1)%nat. rewrite list_lookup_delete_ge by lia. by replace (S (j - 1)) with j by lia. }
        apply content_same; [eapply same_blocks_sub, S1; set_solver|]. rewrite Forall_forall in *. intros blk Hb. apply Hf2.
        by eapply replica_blocks_sub; [by eapply list_elem_of_lookup_2|].
Qed.
(** * One put of one copy *)

(** What a handler asks of the request; the range is that of [put_range]. *)
Record put_ok t (off size : Z) : Prop := {
  po_off : 0 <= off;
  po_size : 0 <= size;
  po_end : off + size <= 2 ^ 62;
  po_prealloc : cx_preallocate (pt_context t) <= 2 ^ 62;
  po_real : cx_emulate (pt_context t) = false;
  po_segs : Forall (fun s => seg_ok s /\ off <= sg_offset s) (put_segments t) }.

(** Where [put_primary] enters the block list. *)
Definition put_hint b (off : Z) (idx : nat) (hint : Z) : Prop :=
  idx = 0%nat /\ hint = 0 \/
  exists l x, bi_blocks b = l ++ [x] /\ bi_total b <= off /\ idx = length l /\ hint = bi_total b - bb_size x.

Lemma put_hint_ok held st b off idx hint st1 b1 :
  devs_ok (rt_devs st) (bi_blocks b ++ held) -> blob_ok b -> 0 <= off -> grows held st b st1 b1 -> put_hint b off idx hint ->
  hint = total_size (take idx (bi_blocks b1)) /\ hint <= bi_total b /\ hint <= off.
Proof.
  intros Hd Hb Hoff G [[-> ->]|(l & x & El & Hle & -> & ->)].
  { pose proof (bi_total_nonneg _ _ _ Hd Hb). rewrite take_0. unfold total_size. cbn. lia. }
  rewrite (gr_blocks _ _ _ _ _ G) by (rewrite El, length_app; cbn; lia). rewrite El, take_app_length.
  pose proof (devs_ok_left _ _ _ Hd) as Hf. destruct Hb as [Hb _]. rewrite Hb, El in *. rewrite total_size_app in *.
  apply Forall_app in Hf as [_ Hf]. inversion Hf as [|? ? [Hx _] _]; subst. unfold total_size in *. cbn in *. lia.
Qed.

Lemma extend_put_ok held st b t off size score minp pre err st1 b1 :
  devs_ok (rt_devs st) (bi_blocks b ++ held) -> targets_ok st -> blob_ok b -> put_ok t off size -> pre <= 2 ^ 62 ->
  ExtendBlob st b off size score minp pre = (err, st1, b1) ->
  (err <> 0 -> 0 < err <= 3 /\ updates held st b st1 b1 (copy_put false false off size (put_segments t))) /\
  (err = 0 -> forall st2 idx hint rc st3, rt_devs st2 = rt_devs st1 -> rt_targets st2 = rt_targets st1 -> rt_meta st2 = rt_meta st1 ->
    put_hint b off idx hint -> put_data st2 t (bi_blocks b1) (bi_total b) off idx hint = (rc, st3) ->
    updates held st b st3 b1 (copy_put false (rc =? 0) off size (put_segments t)) /\ (rc = 0 \/ rc = 6 \/ rc = 21)).
Proof.
  intros Hd Ht Hb [Ho Hs He _ _ Hsegs] Hpre E.
  destruct (ExtendBlob_ok held st b off size score minp pre err st1 b1 Hd Ht Hb Ho Hs He Hpre E) as (G & T1 & O1 & Z1).
  pose proof (bi_total_nonneg _ _ _ Hd Hb) as Hpos.
  pose proof (len_content _ _ (devs_ok_left _ _ _ Hd)) as Hlen. rewrite <- (proj1 Hb) in Hlen. split.
  - intros Hne. rewrite (proj2 (Z.eqb_neq err 0)) in Z1 by done. split; [apply Z1|]. apply updates_grows; [done..|].
    intros e Hl. apply copy_put_fail. lia.
  - intros ->. cbn [Z.eqb] in Z1. intros st2 idx hint rc st3 Ed Et Em Hh Hp.
    destruct (put_hint_ok held st b off idx hint st1 b1 Hd Hb Ho G Hh) as (Hh1 & Hh2 & Hh3).
    pose proof (gr_devs _ _ _ _ _ G) as D1. rewrite <- Ed in D1. destruct O1 as [O1 O2].
    destruct (put_data_ok st2 t (bi_blocks b1) held (bi_total b) off idx hint rc st3 D1 ltac:(lia) Hpos ltac:(lia) Hh1 Hh2 Hh3 Hsegs Hp) as [W Hrc].
    split; [|done].
    apply (updates_rewrites held st b st1 b1 st2 st3 (fun c c1 => c = content (rt_devs st) (bi_blocks b) /\ exists e, c1 = c ++ e) _ _
      ltac:(apply updates_grows; [exact G|done|done|eauto]) Ed Et Em W).
    intros c c1 c2 Hl [-> [e ->]] W2. rewrite len_app in Hl. rewrite <- Hlen in W2. eapply copy_put_extended; [done| |exact W2]. lia.
Qed.

Lemma resize_put_ok held st b t off size score minp err st1 b1 :
  devs_ok (rt_devs st) (bi_blocks b ++ held) -> targets_ok st -> blob_ok b -> put_ok t off size ->
  ResizeBlob st b (u64 (off + size)) score minp = (err, st1, b1) ->
  (err <> 0 -> 0 < err /\ updates held st b st1 b1 (copy_put true false off size (put_segments t))) /\
  (err = 0 -> forall st2 rc st3, rt_devs st2 = rt_devs st1 -> rt_targets st2 = rt_targets st1 -> rt_meta st2 = rt_meta st1 ->
    put_data st2 t (bi_blocks b1) (bi_total b) off 0 0 = (rc, st3) ->
    updates held st b st3 b1 (copy_put true (rc =? 0) off size (put_segments t)) /\ (rc = 0 \/ rc = 6 \/ rc = 21)).
Proof.
  intros Hd Ht Hb [Ho Hs He _ _ Hsegs]. rewrite u64_small by lia. intros E.
  destruct (ResizeBlob_ok held st b (off + size) score minp err st1 b1 Hd Ht Hb ltac:(lia) E) as [U Herr].
  pose proof (bi_total_nonneg _ _ _ Hd Hb) as Hpos.
  pose proof (len_content _ _ (devs_ok_left _ _ _ Hd)) as Hlen. rewrite <- (proj1 Hb) in Hlen. split.
  - intros Hne. split; [lia|]. eapply updates_impl; [|exact U]. unfold resize_result. rewrite (proj2 (Z.eqb_neq err 0)) by done.
    intros c c' (Hl & e & -> & Hl'). rewrite len_app in Hl'. apply copy_put_fail. lia.
  - intros ->. intros st2 rc st3 Ed Et Em Hp. pose proof (up_devs _ _ _ _ _ _ U) as D1. rewrite <- Ed in D1.
    pose proof (up_ok _ _ _ _ _ _ U) as [O1 O2].
    destruct (put_data_ok st2 t (bi_blocks b1) held (bi_total b) off 0 0 rc st3 D1 ltac:(lia) Hpos ltac:(lia) eq_refl Hpos Ho Hsegs Hp) as [W Hrc].
    split; [|done].
    assert (updates held st b st1 b1 (fun c c1 => c = content (rt_devs st) (bi_blocks b) /\ c1 = resized (off + size) c)) as U2.
    { destruct U as [????? ? C]. by split. }
    apply (updates_rewrites held st b st1 b1 st2 st3 _ _ _ U2 Ed Et Em W).
    intros c c1 c2 Hl [-> ->] W2. rewrite <- Hlen in W2. by apply copy_put_resized.
Qed.

(** * Replicas *)

Lemma set_replicas_same b : set_replicas b (bi_replicas b) = b.
Proof. by destruct b. Qed.

Lemma GetReplica_slot (rs : list Replica) idx create :
  0 < idx <= Z.of_nat (length rs) -> GetReplica rs idx create = (rs, Some (Z.to_nat idx - 1)%nat).
Proof.
  intros Hi. unfold GetReplica. rewrite (proj2 (Z.leb_gt _ _)) by lia. by rewrite (proj2 (Nat.ltb_ge _ _)) by lia.
Qed.

Lemma changes_log held st b st' b' x R : changes held st b st' b' R -> changes held st b (wal_log st' x) b' R.
Proof. unfold wal_log. destruct (rt_logging st'); [|done]. by apply changes_fields. Qed.

Lemma WriteReplicaData_ok held st t b name idx off size requested fallback rc st' b' :
  devs_ok (rt_devs st) (blob_blocks b ++ held) -> targets_ok st -> blob_wf b -> put_ok t off size ->
  0 < idx <= Z.of_nat (length (bi_replicas b)) ->
  WriteReplicaData st t b name idx off size requested fallback = (rc, st', b') ->
  changes held st b st' b' (on_slots idx 1 (copy_put false (rc =? 0) off size (put_segments t))).
Proof.
  intros Hd Ht Hw Hp Hi. unfold WriteReplicaData. rewrite GetReplica_slot by done. set (i := (Z.to_nat idx - 1)%nat).
  destruct (lookup_lt_is_Some_2 (bi_replicas b) i ltac:(lia)) as [r0 Hr]. rewrite (nth_lookup_Some _ _ _ _ Hr).
  rewrite set_replicas_same. cbv zeta.
  set (r := mkReplica (rp_name r0) (rp_blocks r0) (rp_total r0) _ _ _ _).
  set (score := if f32_negative requested then _ else _). set (sb := staging_of b r score).
  assert (rep_ok r0) as [Hr1 Hr2] by (destruct Hw as [_ Hw]; by eapply Forall_lookup_1 in Hw).
  assert (devs_ok (rt_devs st) (bi_blocks sb ++ bi_blocks b ++ concat (map rp_blocks (delete i (bi_replicas b))) ++ held)) as Hd2.
  { eapply devs_ok_perm; [|exact Hd]. unfold blob_blocks. rewrite (replicas_split _ _ _ Hr), <- !app_assoc. apply Permutation_app_swap_app. }
  assert (bi_total sb = total_size (rp_blocks r0)) as Hsb.
  { cbn. eapply ComputeTotalSizeSlow_total; [by eapply devs_ok_left|lia]. }
  assert (blob_ok sb) as Hsok by (split; [done|lia]).
  destruct (ExtendBlob st sb off size score _ _) as [[err st1] sb1] eqn:E.
  destruct (extend_put_ok _ st sb t off size score _ _ err st1 sb1 Hd2 Ht Hsok Hp (po_prealloc _ _ _ Hp) E) as [Hfail Hgood].
  rewrite (po_real _ _ _ Hp).
  destruct (if negb (err =? 0) then _ else _) as [rc1 st2] eqn:E2. intros [= <- <- <-].
  assert (updates (bi_blocks b ++ concat (map rp_blocks (delete i (bi_replicas b))) ++ held) st sb st2 sb1
    (copy_put false (rc1 =? 0) off size (put_segments t))) as U.
  { destruct (Z.eqb_spec err 0) as [->|Hne]; cbn [negb] in E2.
    - by apply (Hgood eq_refl st1 0%nat 0 rc1 st2 eq_refl eq_refl eq_refl (or_introl (conj eq_refl eq_refl)) E2).
    - injection E2 as <- <-. destruct (Hfail Hne) as [Herr U]. by rewrite (proj2 (Z.eqb_neq (10 + err) 0)) by lia. }
  replace idx with (Z.of_nat i + 1) by lia.
  set (r' := mkReplica _ (bi_blocks sb1) _ _ _ _ _).
  pose proof (changes_replica held st b i r0 st2 sb sb1 _ Hd Hw Hr eq_refl U r' eq_refl eq_refl) as C.
  destruct (_ && _ && _); [by apply changes_log|exact C].
Qed.

(** ** Write-through *)

Lemma on_slots_length lo n R devs devs' b b' :
  on_slots lo n R (view devs b) (view devs' b') -> length (bi_replicas b') = length (bi_replicas b).
Proof. intros [L _]. rewrite !length_view in L. lia. Qed.

Lemma on_slots_join lo n (R1 R2 R : list u8 -> list u8 -> Prop) v1 v2 v3 :
  (forall c c', R1 c c' -> R c c') -> (forall c c', R2 c c' -> R c c') ->
  on_slots lo 1 R1 v1 v2 -> on_slots (lo + 1) n R2 v2 v3 -> on_slots lo (S n) R v1 v3.
Proof.
  intros H1' H2' [L1 S1] [L2 S2]. split; [congruence|]. intros i c c3 Hc Hc3.
  assert (is_Some (v2 !! i)) as [c2 Hc2] by (apply lookup_lt_is_Some_2; apply lookup_lt_Some in Hc; lia).
  specialize (S1 i c c2 Hc Hc2). specialize (S2 i c2 c3 Hc2 Hc3).
  destruct (decide (Z.of_nat i = lo)) as [E|E].
  - rewrite between_true in S1 by lia. rewrite between_false in S2 by lia. rewrite between_true by lia. subst. auto.
  - rewrite between_false in S1 by lia. subst c2. destruct (decide (lo + 1 <= Z.of_nat i < lo + 1 + Z.of_nat n)).
    + rewrite between_true in * by lia. auto.
    + rewrite between_false in * by lia. done.
Qed.

Lemma copy_put_ok_any replace ok off size segs c c' : copy_put replace true off size segs c c' -> copy_put replace ok off size segs c c'.
Proof. destruct ok; [done|]. apply copy_put_weaken. Qed.

Lemma write_through_ok held t name off size fallback n : forall st b i rc st' b',
  devs_ok (rt_devs st) (blob_blocks b ++ held) -> targets_ok st -> blob_wf b -> put_ok t off size ->
  0 < i -> i + Z.of_nat n - 1 <= Z.of_nat (length (bi_replicas b)) ->
  write_through st t b name off size fallback i n = (rc, st', b') ->
  changes held st b st' b' (on_slots i n (copy_put false (rc =? 0) off size (put_segments t))).
Proof.
  induction n as [|n IH]; intros st b i rc st' b' Hd Ht Hw Hp Hi Hn; cbn [write_through].
  { intros [= <- <- <-]. apply changes_refl; [done..|]. split; [done|]. intros j c c' E1 E2. rewrite between_false by lia. congruence. }
  destruct (WriteReplicaData st t b name i off size float_minus_one fallback) as [[rc1 st1] b1] eqn:E.
  pose proof (WriteReplicaData_ok held st t b name i off size _ _ rc1 st1 b1 Hd Ht Hw Hp ltac:(lia) E) as C1.
  pose proof (on_slots_length _ _ _ _ _ _ _ (ch_view _ _ _ _ _ _ C1)) as L1.
  destruct (Z.eqb_spec rc1 0) as [->|Hne]; cbn [negb].
  - intros E2. destruct C1 as [D1 S1 M1 T1 W1 V1].
    pose proof (IH st1 b1 (i + 1) rc st' b' D1 T1 W1 Hp ltac:(lia) ltac:(lia) E2) as C2.
    eapply changes_trans; [|by split|exact C2]. intros v1 v2 v3. cbn beta. apply on_slots_join; [|done]. intros c c'. apply copy_put_ok_any.
  - intros [= <- <- <-]. eapply changes_impl; [|exact C1]. intros v v' V. rewrite (proj2 (Z.eqb_neq rc1 0)) in * by done.
    eapply (on_slots_join _ _ _ _ _ _ v'); [| |exact V|]; [done|intros c c' Hc; exact Hc|]. split; [done|].
    intros j c c' E1 E2. assert (c' = c) as -> by congruence. destruct (_ && _); [apply copy_put_refl|done].
Qed.

(** * The primary *)

Definition replaces t : bool := negb (Z.land (pt_flags t) kCtePutReplace =? 0).

(** The copies a put that resolved to slot [idx] writes: that replica, or the
    primary, with every replica when it writes through. *)
Definition touched t (idx i : Z) : bool :=
  if 0 <? idx then i =? idx else (i =? 0) || (cx_replica (pt_context t) =? kAllReplicas).

Definition put_effect t (idx off size : Z) (ok : bool) (v v' : list (list u8)) : Prop :=
  length v' = length v /\
  forall i c c', v !! i = Some c -> v' !! i = Some c' ->
    if touched t idx (Z.of_nat i)
    then copy_put (replaces t && (Z.of_nat i =? 0)) ok off size (put_segments t) c c'
    else c' = c.

Lemma put_primary_only t off size ok (v v' : list (list u8)) :
  on_slots 0 1 (copy_put (replaces t) ok off size (put_segments t)) v v' ->
  cx_replica (pt_context t) <> kAllReplicas \/ ok = false -> put_effect t 0 off size ok v v'.
Proof.
  intros [L S] Hor. split; [done|]. intros i c c' E1 E2. specialize (S i c c' E1 E2). unfold touched. cbn [Z.ltb Z.compare].
  destruct (Z.eqb_spec (Z.of_nat i) 0) as [Hi|Hi].
  - rewrite between_true in S by lia. cbn. by rewrite andb_true_r.
  - rewrite between_false in S by lia. subst c'. rewrite andb_false_r. cbn. destruct (Z.eqb_spec (cx_replica (pt_context t)) kAllReplicas); [|done].
    destruct Hor as [?| ->]; [done|]. apply copy_put_refl.
Qed.

Lemma put_all_copies t off size ok (v1 v2 v3 : list (list u8)) :
  cx_replica (pt_context t) = kAllReplicas ->
  on_slots 0 1 (copy_put (replaces t) true off size (put_segments t)) v1 v2 ->
  on_slots 1 (length v1 - 1) (copy_put false ok off size (put_segments t)) v2 v3 -> put_effect t 0 off size ok v1 v3.
Proof.
  intros Hall [L1 S1] [L2 S2]. split; [congruence|]. intros i c c3 Hc Hc3. unfold touched. cbn [Z.ltb Z.compare].
  assert (is_Some (v2 !! i)) as [c2 Hc2] by (apply lookup_lt_is_Some_2; apply lookup_lt_Some in Hc; lia).
  specialize (S1 i c c2 Hc Hc2). specialize (S2 i c2 c3 Hc2 Hc3). rewrite Hall, Z.eqb_refl, orb_true_r.
  apply lookup_lt_Some in Hc. destruct (Z.eqb_spec (Z.of_nat i) 0) as [Hi|Hi].
  - rewrite between_true in S1 by lia. rewrite between_false in S2 by lia. subst. rewrite andb_true_r. by apply copy_put_ok_any.
  - rewrite between_false in S1 by lia. rewrite between_true in S2 by lia. subst. by rewrite andb_false_r.
Qed.

Lemma changes_layout_log held st b st' b' tag name blocks R :
  changes held st b st' b' R -> changes held st b (log_layout st' tag name blocks) b' R.
Proof. intros C. unfold log_layout. destruct blocks; [done|]. by apply changes_log. Qed.
(** Growing or cutting the primary, before any of the data is written. *)
Lemma primary_space_ok held st b t off size score err st1 b1 :
  devs_ok (rt_devs st) (bi_blocks b ++ held) -> targets_ok st -> blob_ok b -> put_ok t off size ->
  (if replaces t then ResizeBlob st b (u64 (off + size)) score (cx_min_persistence (pt_context t))
   else ExtendBlob st b off size score (cx_min_persistence (pt_context t)) (cx_preallocate (pt_context t))) = (err, st1, b1) ->
  (err <> 0 -> 0 < err /\ updates held st b st1 b1 (copy_put (replaces t) false off size (put_segments t))) /\
  (err = 0 -> forall st2 idx hint rc st3, rt_devs st2 = rt_devs st1 -> rt_targets st2 = rt_targets st1 -> rt_meta st2 = rt_meta st1 ->
    (if replaces t then idx = 0%nat /\ hint = 0 else put_hint b off idx hint) ->
    put_data st2 t (bi_blocks b1) (bi_total b) off idx hint = (rc, st3) ->
    updates held st b st3 b1 (copy_put (replaces t) (rc =? 0) off size (put_segments t)) /\ (rc = 0 \/ rc = 6 \/ rc = 21)).
Proof.
  intros Hd Ht Hb Hp. destruct (replaces t); intros E.
  - destruct (resize_put_ok _ _ _ _ _ _ _ _ _ _ _ Hd Ht Hb Hp E) as [Hfail Hgood]. split; [done|].
    intros Herr st2 idx hint rc st3 Ed Et Em [-> ->]. by apply Hgood.
  - destruct (extend_put_ok _ _ _ _ _ _ _ _ _ _ _ _ Hd Ht Hb Hp (po_prealloc _ _ _ Hp) E) as [Hfail Hgood]. split; [|done].
    intros Hne. destruct (Hfail Hne). split; [lia|done].
Qed.

Lemma put_primary_hint b t off :
  let tail := negb (replaces t) && (bi_total b <=? off) && negb (length (bi_blocks b) =? 0)%nat in
  let idx := if tail then (length (bi_blocks b) - 1)%nat else 0%nat in
  let hint := if tail then bi_total b - bb_size (default (mkBlobBlock (0, 0) [] 0 0 0) (last (bi_blocks b))) else 0 in
  if replaces t then idx = 0%nat /\ hint = 0 else put_hint b off idx hint.
Proof.
  cbv zeta. destruct (replaces t); [done|]. cbn [negb andb]. destruct (Z.leb_spec (bi_total b) off); [|by left]. cbn [andb].
  destruct (last (bi_blocks b)) as [x|] eqn:E.
  - apply last_Some in E as [l El]. right. exists l, x. rewrite El, length_app. cbn [length].
    rewrite (proj2 (Nat.eqb_neq _ _)) by lia. cbn [negb default id]. split_and!; done || lia || reflexivity.
  - apply last_None in E as ->. by left.
Qed.

Lemma put_primary_ok held st t b name off size score rc st' b' :
  devs_ok (rt_devs st) (blob_blocks b ++ held) -> targets_ok st -> blob_wf b -> put_ok t off size ->
  put_primary st t b name off size score = (rc, st', b') ->
  changes held st b st' b' (put_effect t 0 off size (rc =? 0)).
Proof.
  intros Hd Ht Hw Hp. unfold put_primary. fold (replaces t). rewrite (po_real _ _ _ Hp). cbv zeta.
  assert (devs_ok (rt_devs st) (bi_blocks b ++ concat (map rp_blocks (bi_replicas b)) ++ held)) as Hd2.
  { unfold blob_blocks in Hd. by rewrite <- app_assoc in Hd. }
  pose proof (put_primary_hint b t off) as Hint. cbv zeta in Hint.
  set (tail := negb (replaces t) && _ && _) in *.
  set (idx := if tail then (length (bi_blocks b) - 1)%nat else 0%nat) in *. set (hint := if tail then bi_total b - _ else 0) in *.
  destruct (if replaces t then _ else _) as [[err st1] b1] eqn:E.
  destruct (primary_space_ok _ _ _ _ _ _ _ _ _ _ Hd2 Ht (proj1 Hw) Hp E) as [Hfail Hgood].
  destruct (Z.eqb_spec err 0) as [->|Hne]; cbn [negb]; cycle 1.
  { intros [= <- <- <-]. destruct (Hfail Hne) as [Herr U]. rewrite (proj2 (Z.eqb_neq (10 + err) 0)) by lia.
    eapply changes_impl; [|by apply (changes_primary held)]. intros v v' V. apply put_primary_only; [exact V|by right]. }
  destruct (put_data _ _ _ _ _ _ _) as [rc1 st2] eqn:E2.
  assert (rt_devs (log_layout st1 (pt_tag t) name (bi_blocks b1)) = rt_devs st1 /\
    rt_targets (log_layout st1 (pt_tag t) name (bi_blocks b1)) = rt_targets st1 /\
    rt_meta (log_layout st1 (pt_tag t) name (bi_blocks b1)) = rt_meta st1) as (L1 & L2 & L3).
  { unfold log_layout, wal_log. destruct (bi_blocks b1), (rt_logging st1); done. }
  destruct (Hgood eq_refl _ idx hint rc1 st2 L1 L2 L3 Hint E2) as [U Hrc].
  pose proof (changes_primary held st b st2 b1 _ Hd Hw U) as C.
  destruct (Z.eqb_spec rc1 0) as [->|Hne1]; cbn [negb]; cycle 1.
  { intros [= <- <- <-]. rewrite (proj2 (Z.eqb_neq rc1 0)) in * by done.
    eapply changes_impl; [|exact C]. intros v v' V. apply put_primary_only; [exact V|by right]. }
  destruct (if cx_replica (pt_context t) =? kAllReplicas then _ else _) as [[rc2 st3] b3] eqn:E3.
  assert (changes held st b st3 b3 (put_effect t 0 off size (rc2 =? 0))) as C3.
  { destruct (Z.eqb_spec (cx_replica (pt_context t)) kAllReplicas) as [Hall|Hall].
    - destruct C as [D4 S4 M4 T4 W4 V4]. pose proof (on_slots_length _ _ _ _ _ _ _ V4) as Hl.
      destruct (write_through_ok held t name off size score (length (bi_replicas b1)) st2 b1 1 rc2 st3 b3 D4 T4 W4 Hp ltac:(lia) ltac:(lia) E3) as [D5 S5 M5 T5 W5 V5].
      split; [done|by eapply same_blocks_trans|congruence|done|done|].
      eapply put_all_copies; [done|exact V4|]. rewrite length_view, <- Hl. by replace (S (length (bi_replicas b1)) - 1)%nat with (length (bi_replicas b1)) by lia.
    - injection E3 as <- <- <-. eapply changes_impl; [|exact C]. intros v v' V. apply put_primary_only; [exact V|by left]. }
  destruct (Z.eqb_spec rc2 0) as [->|Hne2]; cbn [negb]; intros [= <- <- <-]; [|by rewrite (proj2 (Z.eqb_neq rc2 0)) in * by done].
  set (b4 := if cx_transform (pt_context t) =? 0 then b3 else _).
  assert (bi_blocks b4 = bi_blocks b3 /\ bi_replicas b4 = bi_replicas b3 /\ bi_total b4 = bi_total b3) as (F1 & F2 & F3).
  { subst b4. by destruct (cx_transform (pt_context t) =? 0). }
  assert (forall st4, rt_devs st4 = rt_devs st3 -> rt_targets st4 = rt_targets st3 -> mt_blobs (rt_meta st4) = mt_blobs (rt_meta st3) ->
    forall n, changes held st b (set_meta st4 (add_tag_size (rt_meta st4) (pt_tag t) n)) (with_score (with_codec b4 (cx_lib (pt_context t))
      (cx_preset (pt_context t)) (cx_trace (pt_context t))) score) (put_effect t 0 off size true)) as Hfin.
  { intros st4 G1 G2 G3 n. by eapply changes_fields, C3. }
  destruct (bi_transform b4 =? bi_transform b3); apply Hfin; try done; unfold wal_log; by destruct (rt_logging st3).
Qed.
End Copies.
