(* ===== verification/BlobStep.v ===== *)
(** The whole store: no two blobs share a byte, and what [PutBlob], [GetBlob],
    [TruncateBlob] and [DelBlob] do to the contents of every copy. *)
From Stdlib Require Import ZArith Lia.
From coqutil Require Import Byte.
From stdpp Require Import base list gmap.
From S2P Require Import Prelude Extents BlockAllocator TxnLog Text BlobMeta BlobDevice BlobStore BlobBlocks BlobSafety BlobPut BlobCopies.

Open Scope Z_scope.

(** All the blocks of a map of blobs. *)
Definition all_blocks (m : gmap str BlobInfo) : list BlobBlock := concat (map (fun x => blob_blocks (snd x)) (map_to_list m)).

Lemma all_blocks_take (m : gmap str BlobInfo) k b : m !! k = Some b -> all_blocks m ≡ₚ blob_blocks b ++ all_blocks (delete k m).
Proof. intros Hk. unfold all_blocks. by rewrite <- (map_to_list_delete m k b Hk). Qed.

Lemma all_blocks_put (m : gmap str BlobInfo) k b : all_blocks (<[k := b]> m) ≡ₚ blob_blocks b ++ all_blocks (delete k m).
Proof. rewrite (all_blocks_take _ k b) by apply lookup_insert_eq. by rewrite delete_insert_eq. Qed.

Lemma all_blocks_sub (m : gmap str BlobInfo) k b : m !! k = Some b -> blob_blocks b ⊆ all_blocks m.
Proof. intros Hk. rewrite (all_blocks_take _ _ _ Hk). set_solver. Qed.

Section Store.
Context {D P I : Type} `{BlockDeviceLaws D} `{Dpe P} `{BufferPool I}.
Implicit Types (st : Runtime D P I) (b : BlobInfo) (blocks held : list BlobBlock) (t : PutBlobTask).

Abbreviation blobs st := (mt_blobs (rt_meta st)).

(** Every block of every copy of every blob is allocated, to it alone. *)
Record store_ok st : Prop := {
  so_devs : devs_ok (rt_devs st) (all_blocks (blobs st));
  so_targets : targets_ok st;
  so_blobs : map_Forall (fun _ => blob_wf) (blobs st) }.

(** The contents of every copy of every blob. *)
Definition reads st : gmap str (list (list u8)) := view (rt_devs st) <$> blobs st.

Lemma view_same devs devs' b held :
  same_blocks (D := D) devs devs' held -> blob_blocks b ⊆ held -> Forall (blk_ok devs) (blob_blocks b) -> view devs' b = view devs b.
Proof.
  intros Hs Hsub Hf. unfold view, blob_blocks in *. apply Forall_app in Hf as [Hf1 Hf2].
  rewrite (content_same devs devs') by (done || by eapply same_blocks_sub, Hs; set_solver). f_equal.
  apply (map_content_same devs devs' _ held); [done| |done]. intros r Hr. apply replica_blocks_sub in Hr. set_solver.
Qed.

Lemma devs_ok_sub_Forall devs l l' : devs_ok (D := D) devs l -> l' ⊆ l -> Forall (blk_ok devs) l'.
Proof. intros [Hf _] Hs. rewrite Forall_forall in *. auto. Qed.

(** The contents seen through the same map, and the same up to one blob. *)
Lemma views_same (m : gmap str BlobInfo) devs devs' :
  devs_ok (D := D) devs (all_blocks m) -> same_blocks devs devs' (all_blocks m) -> view devs' <$> m = view devs <$> m.
Proof.
  intros Hd Hs. apply map_eq. intros k. rewrite !lookup_fmap. destruct (m !! k) as [b|] eqn:E; [|done]. cbn. f_equal.
  pose proof (all_blocks_sub _ _ _ E) as Hsub. eapply view_same; [exact Hs|done|by eapply devs_ok_sub_Forall].
Qed.

Lemma views_put (m : gmap str BlobInfo) devs devs' k b :
  devs_ok (D := D) devs (all_blocks (delete k m)) -> same_blocks devs devs' (all_blocks (delete k m)) ->
  view devs' <$> <[k := b]> m = <[k := view devs' b]> (view devs <$> m).
Proof.
  intros Hd Hs. rewrite <- insert_delete_eq, fmap_insert, (views_same _ devs devs') by done. by rewrite fmap_delete, insert_delete_eq.
Qed.

Lemma store_take st k b : store_ok st -> blobs st !! k = Some b -> devs_ok (rt_devs st) (blob_blocks b ++ all_blocks (delete k (blobs st))).
Proof. intros [Hd _ _] Hk. eapply devs_ok_perm; [|exact Hd]. by apply all_blocks_take. Qed.

Lemma devs_ok_right devs l l' : devs_ok (D := D) devs (l ++ l') -> devs_ok devs l'.
Proof.
  intros [Hf Hd]. split; [by apply Forall_app in Hf as [_ ?]|]. intros p d Hp. specialize (Hd p d Hp).
  rewrite on_pool_app, map_app in Hd. induction (map blk_extent (on_pool p l)) as [|e es IH]; [done|]. apply IH. by eapply dev_ok_drop.
Qed.

(** A blob's new copies put into the map. *)
Lemma store_commit st k b st' b' R :
  devs_ok (rt_devs st) (all_blocks (delete k (blobs st))) -> map_Forall (fun _ => blob_wf) (blobs st) ->
  changes (all_blocks (delete k (blobs st))) st b st' b' R ->
  store_ok (set_meta st' (put_blob (rt_meta st') k b')) /\
  reads (set_meta st' (put_blob (rt_meta st') k b')) = <[k := view (rt_devs st') b']> (reads st).
Proof.
  intros Hd Hw [D1 S1 M1 T1 W1 V1]. split.
  - split; cbn [rt_meta rt_devs set_meta put_blob set_blobs mt_blobs].
    + rewrite M1. eapply devs_ok_perm; [|exact D1]. symmetry. apply all_blocks_put.
    + exact T1.
    + rewrite M1. by apply map_Forall_insert_2.
  - unfold reads. cbn [rt_meta rt_devs set_meta put_blob set_blobs mt_blobs]. rewrite M1. by apply views_put.
Qed.
(** * PutBlob *)

(** A region of a request: within the address space, its buffer as long as it says. *)
Definition region_ok (s : segment) : Prop :=
  0 <= sg_offset s /\ 0 <= sg_size s /\ sg_offset s + sg_size s <= 2 ^ 62 /\ forall d, sg_data s = Some d -> sg_size s <= len d.

Record put_request_ok t : Prop := {
  pr_segs : Forall region_ok (put_segments t);
  pr_real : cx_emulate (pt_context t) = false;
  pr_prealloc : cx_preallocate (pt_context t) <= 2 ^ 62 }.

Lemma region_seg_ok s : region_ok s -> sg_data s <> None -> seg_ok s.
Proof. intros (Ho & Hz & He & Hl) Hn. destruct (sg_data s) as [d|] eqn:E; [|done]. unfold seg_ok. rewrite E. split_and!; auto. Qed.

Lemma union_of_ok segs : forall lo hi off size,
  Forall region_ok segs -> 0 <= lo -> 0 <= hi <= 2 ^ 62 -> union_of false lo hi segs = inr (off, size) ->
  exists e, 0 <= off <= lo /\ hi <= e <= 2 ^ 62 /\ size = u64 (e - off) /\
    Forall (fun s => seg_ok s /\ 0 < sg_size s /\ off <= sg_offset s /\ sg_offset s + sg_size s <= e) segs.
Proof.
  induction segs as [|s segs IH]; intros lo hi off size Hf Hlo Hhi; cbn [union_of].
  { intros [= <- <-]. exists hi. split_and!; try done; try lia; constructor. }
  inversion Hf as [|? ? Hs Hf']; subst x l. pose proof Hs as (Ho & Hz & He & _). rewrite u64_small by lia.
  destruct (Z.eqb_spec (sg_size s) 0); [done|]. destruct (sg_data s) as [d|] eqn:Ed; [|done]. intros E.
  destruct (IH (Z.min (sg_offset s) lo) (Z.max hi (sg_offset s + sg_size s)) off size Hf') as (e & H3 & H4 & H5 & H6); [lia|lia| |].
  { rewrite <- E. f_equal; [destruct (Z.ltb_spec (sg_offset s) lo)|destruct (Z.ltb_spec hi (sg_offset s + sg_size s))]; lia. }
  exists e. split_and!; try done; try lia. constructor; [|done]. split_and!; [apply region_seg_ok; [done|by rewrite Ed]|lia..].
Qed.

Lemma union_of_err e segs : forall lo hi rc, union_of e lo hi segs = inl rc -> rc <> 0.
Proof.
  induction segs as [|s segs IH]; intros lo hi rc; cbn; [done|]. destruct (sg_size s =? 0); [by intros [= <-]|].
  destruct (sg_data s); [apply IH|]. destruct (negb _); [by intros [= <-]|apply IH].
Qed.

Lemma put_range_ok t off size :
  put_request_ok t -> put_range t = inr (off, size) -> size <> 0 -> (pt_segments t = [] -> pt_data t <> None) ->
  put_ok t off size /\ 0 < size.
Proof.
  intros [Hs He Hp] Hr Hne Hd. unfold put_range, put_segments in *. destruct (pt_segments t) as [|s segs] eqn:Eg.
  - injection Hr as <- <-. inversion Hs as [|? ? Hr _]; subst. pose proof Hr as (H3 & H4 & H5 & _). cbn [sg_offset sg_size] in *.
    split; [|lia]. split; try done. unfold put_segments. rewrite Eg. constructor; [|done]. split; [|cbn; lia].
    apply region_seg_ok; [done|]. cbn. by apply Hd.
  - rewrite He in Hr. destruct (union_of_ok (s :: segs) (2 ^ 64 - 1) 0 off size Hs ltac:(lia) ltac:(lia) Hr) as (e & H3 & H4 & H5 & H6).
    inversion H6 as [|? ? (_ & G1 & G2 & G3) _]; subst x l. rewrite u64_small in H5 by lia.
    split; [|lia]. split; try lia; try done. unfold put_segments. rewrite Eg. eapply Forall_impl; [exact H6|]. by intros s' (? & _ & ? & _).
Qed.

Lemma ResolveReplicaSel_shape rs sel create rs' idx :
  ResolveReplicaSel rs sel create = (rs', idx) ->
  (exists new, rs' = rs ++ new /\ Forall (fun r => rp_blocks r = [] /\ rep_ok r) new) /\ 0 <= idx <= Z.of_nat (length rs') /\
  (create = true -> sel = kCacheReplica \/ 0 < sel -> 0 < idx).
Proof.
  assert (rep_ok Replica_new) as Hnew by done.
  assert (exists new : list Replica, rs = rs ++ new /\ Forall (fun r => rp_blocks r = [] /\ rep_ok r) new) as Hnone.
  { exists []. by rewrite app_nil_r. }
  unfold ResolveReplicaSel. destruct (Z.eqb_spec sel kCacheReplica) as [->|Hk].
  - unfold CacheReplicaIndex. destruct (find_cache 0 rs) as [j|] eqn:E.
    + intros [= <- <-]. destruct (find_cache_Some _ _ _ E) as (k & r & -> & Hr & _). apply lookup_lt_Some in Hr. split; [done|lia].
    + destruct create; intros [= <- <-]; [|split; [done|lia]].
      split; [by eexists; split; [done|]; repeat constructor|]. rewrite length_app. cbn [length]. lia.
  - destruct (Z.leb_spec sel 0); [intros [= <- <-]; split; [done|lia]|].
    destruct (find_sel 0 0 sel rs) as [j|n] eqn:E.
    + intros [= <- <-]. destruct (find_sel_inl _ _ _ _ _ ltac:(done) E) as (k & r & -> & Hr & _). apply lookup_lt_Some in Hr. split; [done|lia].
    + destruct (find_sel_inr _ _ _ _ _ ltac:(done) E) as [-> Hn]. destruct create; intros [= <- <-]; [|split; [done|lia]].
      split; [by eexists; split; [done|]; apply Forall_replicate|]. rewrite length_app, length_replicate. lia.
Qed.

Lemma ResolveReplicaSel_read rs sel rs' idx : ResolveReplicaSel rs sel false = (rs', idx) -> rs' = rs.
Proof. unfold ResolveReplicaSel, CacheReplicaIndex. repeat case_match; congruence. Qed.

(** The replica slot a put is diverted to, 0 for the primary. *)
Lemma put_replica_target_ok b cx rs idx :
  put_replica_target b cx = inr (rs, idx) ->
  (exists new, rs = bi_replicas b ++ new /\ Forall (fun r => rp_blocks r = [] /\ rep_ok r) new) /\
  0 <= idx <= Z.of_nat (length rs) /\ (0 < idx <-> cx_replica cx = kCacheReplica \/ 0 < cx_replica cx).
Proof.
  unfold put_replica_target. destruct ((cx_replica cx =? kCacheReplica) || (0 <? cx_replica cx)) eqn:Ec; cycle 1.
  { intros [= <- <-]. split; [exists []; by rewrite app_nil_r|]. split; [lia|]. unfold kCacheReplica in *. lia. }
  cbv zeta. set (u := negb (Z.land _ _ =? 0)). destruct (ResolveReplicaSel (bi_replicas b) (cx_replica cx) (negb u)) as [rs' i] eqn:E.
  destruct (ResolveReplicaSel_shape _ _ _ _ _ E) as ([new [-> Hnew]] & Hi & Hc).
  destruct (u && _) eqn:Eu; [done|]. intros [= <- <-]. split; [by exists new|]. split; [lia|].
  assert (0 < i) by (destruct u; cbn in *; [|apply Hc; [done|unfold kCacheReplica in *; lia]]; destruct (Z.eqb_spec i 0); [done|lia]).
  unfold kCacheReplica in *. lia.
Qed.

Definition put_key t : str := composite_key (pt_tag t) (page_name (pt_name t) (pt_page t)).
Definition put_slot st t : Z :=
  match put_replica_target (default BlobInfo_new (blobs st !! put_key t)) (pt_context t) with inr (_, i) => i | inl _ => 1 end.

(** The copies of a blob, empty ones put after them. *)
Definition pad (n : nat) (v : list (list u8)) : list (list u8) := v ++ replicate (n - length v) [].

(** A put that is turned down changes nothing; any other changes the copies it
    resolves to of the blob it names, as [put_effect] says, and creates what is
    missing of it. *)
Definition put_outcome t (idx : Z) (m : gmap str (list (list u8))) (rc : Z) (m' : gmap str (list (list u8))) : Prop :=
  rc <> 0 /\ m' = m \/
  exists off size v', put_range t = inr (off, size) /\ 0 < size /\ m' = <[put_key t := v']> m /\
    let v := default [[]] (m !! put_key t) in (length v <= length v')%nat /\ put_effect t idx off size (rc =? 0) (pad (length v') v) v'.

Lemma put_effect_refl t idx off size v : replaces t = false \/ 0 < idx -> put_effect t idx off size false v v.
Proof.
  intros Hor. split; [done|]. intros i c c' E1 E2. assert (c' = c) as -> by congruence. unfold touched.
  destruct (Z.ltb_spec 0 idx); [|destruct Hor as [->|]; [|lia]; cbn; by destruct (_ || _); [apply copy_put_refl|]].
  destruct (Z.eqb_spec (Z.of_nat i) idx); [|done]. rewrite (proj2 (Z.eqb_neq (Z.of_nat i) 0)) by lia. rewrite andb_false_r. apply copy_put_refl.
Qed.

Lemma pad_same v : pad (length v) v = v.
Proof. unfold pad. by rewrite Nat.sub_diag, app_nil_r. Qed.

(** The blob a put works on. *)
Lemma put_blob_found st name tag score b st1 :
  store_ok st -> name <> [] ->
  match CheckBlobExists st name tag with Some b => (b, st) | None => CreateNewBlob st name tag score end = (b, st1) ->
  let key := composite_key tag name in
  store_ok st1 /\ blobs st1 !! key = Some b /\ reads st1 = <[key := default [[]] (reads st !! key)]> (reads st) /\
  view (rt_devs st1) b = default [[]] (reads st !! key) /\ bi_replicas b = bi_replicas (default BlobInfo_new (blobs st !! key)).
Proof.
  intros [Hd Ht Hb] Hname. unfold CheckBlobExists. destruct name as [|x name]; [done|]. set (key := composite_key tag (x :: name)). cbv zeta.
  destruct (blobs st !! key) as [b0|] eqn:E.
  - intros [= <- <-]. assert (reads st !! key = Some (view (rt_devs st) b0)) as Er by (unfold reads; by rewrite lookup_fmap, E).
    rewrite Er, E. cbn [default id]. by rewrite insert_id.
  - unfold CreateNewBlob. set (nb := with_score _ score). intros [= <- <-].
    assert (all_blocks (<[key := nb]> (blobs st)) ≡ₚ all_blocks (blobs st)) as Hp.
    { rewrite all_blocks_put. cbn. by rewrite delete_id. }
    assert (store_ok (set_meta st (put_blob (rt_meta st) key nb))) as Hok.
    { split; [|done|].
      - eapply devs_ok_perm; [symmetry; exact Hp|done].
      - apply map_Forall_insert_2; [|done]. split; [split; done|constructor]. }
    assert (reads (set_meta st (put_blob (rt_meta st) key nb)) = <[key := [[]]]> (reads st)) as Hr.
    { unfold reads. cbn [rt_meta rt_devs set_meta put_blob set_blobs mt_blobs]. by rewrite fmap_insert. }
    assert (reads st !! key = None) as Er by (unfold reads; by rewrite lookup_fmap, E). rewrite Er, ?E. cbn [default].
    unfold wal_log. destruct (rt_logging _); split_and!; try done; try (apply lookup_insert_eq); destruct Hok; by split.
Qed.

Lemma set_replicas_wf b new :
  blob_wf b -> Forall (fun r => rp_blocks r = [] /\ rep_ok r) new ->
  let b' := set_replicas b (bi_replicas b ++ new) in
  blob_wf b' /\ blob_blocks b' = blob_blocks b /\ forall devs, view (D := D) devs b' = pad (length (view devs b')) (view devs b).
Proof.
  intros [W1 W2] Hn. cbv zeta. split_and!.
  - split; [done|]. cbn. apply Forall_app. split; [done|]. eapply Forall_impl; [exact Hn|]. by intros r [_ ?].
  - unfold blob_blocks. cbn. rewrite map_app, concat_app. f_equal. rewrite <- (app_nil_r (concat (map rp_blocks (bi_replicas b)))) at 2. f_equal.
    induction Hn as [|r l [Hr _] _ IH]; [done|]. cbn. by rewrite Hr, IH.
  - intros devs. unfold pad. rewrite !length_view. cbn [set_replicas bi_replicas]. rewrite length_app.
    replace (S (length (bi_replicas b) + length new) - S (length (bi_replicas b)))%nat with (length new) by lia.
    unfold view. cbn. rewrite map_app. f_equal. f_equal. induction Hn as [|r l [Hr _] _ IH]; [done|]. cbn. by rewrite Hr, IH.
Qed.

(** Storing the blob a put made of [b]. *)
Lemma put_commit st tag name b rs new t idx off size st' b' rc :
  let key := composite_key tag name in
  store_ok st -> blobs st !! key = Some b -> rs = bi_replicas b ++ new -> Forall (fun r => rp_blocks r = [] /\ rep_ok r) new ->
  (devs_ok (rt_devs st) (blob_blocks (set_replicas b rs) ++ all_blocks (delete key (blobs st))) -> targets_ok st -> blob_wf (set_replicas b rs) ->
   changes (all_blocks (delete key (blobs st))) st (set_replicas b rs) st' b' (put_effect t idx off size (rc =? 0))) ->
  store_ok (store_blob st' tag name b') /\
  exists v', reads (store_blob st' tag name b') = <[key := v']> (reads st) /\ (length (view (rt_devs st) b) <= length v')%nat /\
    put_effect t idx off size (rc =? 0) (pad (length v') (view (rt_devs st) b)) v'.
Proof.
  cbv zeta. intros Hok Hb -> Hnew HC. set (key := composite_key tag name) in *.
  pose proof (so_blobs _ Hok _ _ Hb) as Hwb. destruct (set_replicas_wf b new Hwb Hnew) as (W2 & B2 & V2).
  assert (devs_ok (rt_devs st) (blob_blocks b ++ all_blocks (delete key (blobs st)))) as Hd by by apply store_take.
  rewrite <- B2 in Hd. specialize (HC Hd (so_targets _ Hok) W2).
  destruct (store_commit st key _ st' b' _ (devs_ok_right _ _ _ Hd) (so_blobs _ Hok) HC) as [Hok' Hr].
  split; [done|]. exists (view (rt_devs st') b'). split; [done|]. destruct HC as [_ _ _ _ _ HE]. pose proof (proj1 HE) as Hl.
  rewrite (V2 (rt_devs st)) in HE. rewrite Hl. split; [|done].
  rewrite !length_view. cbn [set_replicas bi_replicas]. rewrite length_app. lia.
Qed.

Lemma PutBlob_ok st t rc st' :
  store_ok st -> put_request_ok t -> PutBlob st t = (rc, st') ->
  store_ok st' /\ put_outcome t (put_slot st t) (reads st) rc (reads st').
Proof.
  intros Hok Hreq. unfold PutBlob. set (name := page_name (pt_name t) (pt_page t)). set (tag := pt_tag t). set (cx := pt_context t).
  assert (forall rc', rc' <> 0 -> store_ok st /\ put_outcome t (put_slot st t) (reads st) rc' (reads st)) as Hno by (split; [done|by left]).
  destruct (put_range t) as [rc0|[off size]] eqn:Er.
  { intros [= <- <-]. apply Hno. unfold put_range in Er. destruct (pt_segments t) as [|s segs]; [done|].
    by eapply union_of_err. }
  destruct (Z.eqb_spec size 0) as [|Hsz]; [intros [= <- <-]; by apply Hno|].
  destruct (match pt_segments t with [] => _ | _ :: _ => false end) eqn:Enull; [intros [= <- <-]; by apply Hno|].
  destruct (put_range_ok t off size Hreq Er Hsz) as [Hp Hpos].
  { intros E E'. pose proof (pr_real _ Hreq) as Hre. fold cx in Hre. rewrite E, E', Hre in Enull. done. }
  destruct (length name =? 0)%nat eqn:En; [intros [= <- <-]; by apply Hno|].
  assert (name <> []) as Hname by (intros ->; done). clear En Enull.
  cbv zeta. destruct (f32_above_one _); [intros [= <- <-]; by apply Hno|]. set (score := if f32_negative (pt_score t) then _ else _).
  destruct (match CheckBlobExists st name tag with Some b => (b, st) | None => CreateNewBlob st name tag score end) as [b st1] eqn:Ef.
  destruct (put_blob_found st name tag score b st1 Hok Hname Ef) as (Hok1 & Hb & Hr1 & Hv & Hreps). fold name tag in Hr1, Hv, Hreps.
  change (composite_key tag name) with (put_key t) in *.
  assert (put_replica_target b cx = put_replica_target (default BlobInfo_new (blobs st !! put_key t)) cx) as Htg.
  { unfold put_replica_target. by rewrite Hreps. }
  destruct (put_replica_target b cx) as [rc0|[rs idx]] eqn:Et.
  { intros [= <- <-]. split; [done|]. right. exists off, size, (default [[]] (reads st !! put_key t)). cbv zeta. split_and!; try done.
    assert (rc0 = kReplicaAbsentRc) as ->.
    { unfold put_replica_target in Et. destruct (_ || _); [|done]. destruct (ResolveReplicaSel _ _ _) as [? ?]. destruct (_ && _); congruence. }
    rewrite pad_same. apply put_effect_refl. right. unfold put_slot. fold cx. by rewrite <- Htg. }
  destruct (put_replica_target_ok b cx rs idx Et) as ((new & -> & Hnew) & Hidx & _).
  assert (put_slot st t = idx) as -> by (unfold put_slot; fold cx; by rewrite <- Htg).
  destruct (if 0 <? idx then _ else _) as [[rc1 st2] b2] eqn:Ew. intros [= <- <-].
  destruct (put_commit st1 tag name b _ new t idx off size st2 b2 rc1 Hok1 Hb eq_refl Hnew) as (Hok2 & v' & Hr2 & Hl & He).
  - intros Hd Ht W. destruct (Z.ltb_spec 0 idx).
    + pose proof (WriteReplicaData_ok _ st1 t _ name idx off size _ _ rc1 st2 b2 Hd Ht W Hp ltac:(cbn; lia) Ew) as C.
      eapply changes_impl; [|exact C]. intros v w [L S]. split; [done|]. intros i c c' E1 E2. specialize (S i c c' E1 E2).
      unfold touched. rewrite (proj2 (Z.ltb_lt 0 idx)) by lia. destruct (Z.eqb_spec (Z.of_nat i) idx) as [Hi|Hi].
      * rewrite between_true in S by lia. rewrite (proj2 (Z.eqb_neq (Z.of_nat i) 0)) by lia. by rewrite andb_false_r.
      * by rewrite between_false in S by lia.
    + assert (idx = 0) as -> by lia. by eapply put_primary_ok.
  - split; [done|]. right. exists off, size, v'. cbv zeta. rewrite <- Hv. split_and!; [done|done| |done|done].
    rewrite Hr2, Hr1. change (composite_key tag name) with (put_key t). apply insert_insert_eq.
Qed.

(** * GetBlob *)

Record get_request_ok (g : GetBlobTask) : Prop := {
  gr_segs : Forall region_ok (get_segments g);
  gr_real : gt_emulate g = false }.

Definition get_key (g : GetBlobTask) : str := composite_key (gt_tag g) (page_name (gt_name g) (gt_page g)).

(** The copy a selector leads a read to, 0 for the primary. *)
Definition read_slot b (sel : Z) : option nat :=
  if (sel =? kCacheReplica) || (0 <? sel) then
    let i := snd (ResolveReplicaSel (bi_replicas b) sel false) in if i =? 0 then None else Some (Z.to_nat i)
  else if sel <? 0 then None else Some 0%nat.

(** The buffers of a request after a read of [c]; past the end they are as they were. *)
Definition filled (c : list u8) (segs : list segment) (bufs : list (list u8)) : Prop :=
  Forall2 (fun s buf => fetched c (sg_offset s) (sg_size s) 0 true (default [] (sg_data s)) buf) segs bufs.

Lemma read_segments_ok held blocks segs : forall st err bufs st',
  devs_ok (rt_devs st) (blocks ++ held) -> total_size blocks <= 2 ^ 62 -> Forall seg_ok segs ->
  read_segments st blocks segs = (err, bufs, st') ->
  exists devs', st' = set_devs st devs' /\ devs_ok devs' (blocks ++ held) /\ same_blocks (rt_devs st) devs' (blocks ++ held) /\
    (err = 0 -> filled (content (rt_devs st) blocks) segs bufs).
Proof.
  induction segs as [|s segs IH]; intros st err bufs st' Hd Htot Hf; cbn [read_segments].
  { intros [= <- <- <-]. exists (rt_devs st). split_and!; [by destruct st|done|apply same_blocks_refl|constructor]. }
  inversion Hf as [|? ? (Ho & Hz & He & Hl) Hf']; subst x l.
  destruct (ReadData st blocks _ (sg_size s) (sg_offset s)) as [[err1 buf] st1] eqn:E.
  destruct (ReadData_ok st blocks held _ _ _ err1 buf st1 Hd Htot Ho Hz He Hl E) as (devs1 & -> & D1 & S1 & F1 & _).
  destruct (Z.eqb_spec err1 0) as [->|Hne]; cbn [negb]; cycle 1.
  { intros [= <- <- <-]. exists devs1. by split_and!. }
  destruct (read_segments _ blocks segs) as [[err2 bufs2] st2] eqn:E2. intros [= <- <- <-].
  destruct (IH (set_devs st devs1) err2 bufs2 st2 D1 Htot Hf' E2) as (devs2 & -> & D2 & S2 & F2).
  exists devs2. split_and!; [done|done|by eapply same_blocks_trans|]. intros Herr. constructor; [exact F1|].
  assert (Forall (blk_ok (rt_devs st)) blocks) as Hb by (by eapply devs_ok_left).
  specialize (F2 Herr). cbn [rt_devs set_devs] in F2. rewrite (content_same (rt_devs st)) in F2; [done| |done]. eapply same_blocks_sub, S1. set_solver.
Qed.

Lemma get_union_ok segs : forall lo hi r,
  Forall region_ok segs -> get_union lo hi segs = Some r -> Forall seg_ok segs.
Proof.
  induction segs as [|s segs IH]; intros lo hi r Hf; cbn [get_union]; [done|]. inversion Hf as [|? ? Hs Hf']; subst x l.
  destruct (sg_data s) as [d|] eqn:Ed; [|by rewrite orb_true_r]. destruct (sg_size s =? 0); [done|]. cbn [orb]. intros E.
  constructor; [apply region_seg_ok; [done|by rewrite Ed]|by eapply IH].
Qed.

(** A copy's blocks, apart from everything else. *)
Lemma read_source_ok st key b sel blocks total tr :
  store_ok st -> blobs st !! key = Some b -> read_source b sel = Some (blocks, total, tr) ->
  exists k rest, read_slot b sel = Some k /\ view (rt_devs st) b !! k = Some (content (rt_devs st) blocks) /\ total_size blocks <= 2 ^ 62 /\
    all_blocks (blobs st) ≡ₚ blocks ++ rest.
Proof.
  intros Hok Hb. destruct (so_blobs _ Hok _ _ Hb) as [[W1 W2] W3]. unfold read_source, read_slot.
  destruct ((sel =? kCacheReplica) || (0 <? sel)).
  - destruct (ResolveReplicaSel (bi_replicas b) sel false) as [rs i] eqn:Es. cbn [snd].
    assert (rs = bi_replicas b) as -> by (by eapply ResolveReplicaSel_read).
    destruct (ResolveReplicaSel_shape _ _ _ _ _ Es) as (_ & Hi & _).
    destruct (Z.eqb_spec i 0) as [|Hne]; [done|]. intros [= <- <- <-].
    destruct (lookup_lt_is_Some_2 (bi_replicas b) (Z.to_nat (i - 1)) ltac:(lia)) as [r Hr]. rewrite (nth_lookup_Some _ _ _ _ Hr).
    pose proof (Forall_lookup_1 _ _ _ _ W3 Hr) as [R1 R2].
    exists (Z.to_nat i), (bi_blocks b ++ concat (map rp_blocks (delete (Z.to_nat (i - 1)) (bi_replicas b))) ++ all_blocks (delete key (blobs st))).
    split_and!; [done| |lia|].
    + replace (Z.to_nat i) with (S (Z.to_nat (i - 1))) by lia. by rewrite lookup_view_S, Hr.
    + rewrite (all_blocks_take _ _ _ Hb). unfold blob_blocks. rewrite (replicas_split _ _ _ Hr), <- !app_assoc. apply Permutation_app_swap_app.
  - destruct (sel <? 0); [done|]. intros [= <- <- <-]. exists 0%nat, (concat (map rp_blocks (bi_replicas b)) ++ all_blocks (delete key (blobs st))).
    split_and!; [done|done|lia|]. rewrite (all_blocks_take _ _ _ Hb). unfold blob_blocks. by rewrite <- app_assoc.
Qed.

(** A step of the devices alone. *)
Lemma store_devs st devs' :
  store_ok st -> devs_ok devs' (all_blocks (blobs st)) -> same_blocks (rt_devs st) devs' (all_blocks (blobs st)) ->
  store_ok (set_devs st devs') /\ reads (set_devs st devs') = reads st.
Proof. intros [Hd Ht Hb] Hd' Hs. split; [by split|]. by apply views_same. Qed.

Lemma GetBlob_ok st g rc bufs tr st' :
  store_ok st -> get_request_ok g -> GetBlob st g = (rc, bufs, tr, st') ->
  store_ok st' /\ reads st' = reads st /\ rt_meta st' = rt_meta st /\
  (rc = 0 -> exists b k v c, blobs st !! get_key g = Some b /\ read_slot b (gt_replica g) = Some k /\ reads st !! get_key g = Some v /\
     v !! k = Some c /\ filled c (get_segments g) bufs).
Proof.
  intros Hok [Hs He]. unfold GetBlob. set (name := page_name (gt_name g) (gt_page g)).
  destruct (get_range g) as [[off size]|] eqn:Er; [|by intros [= <- <- <- <-]].
  assert (Forall seg_ok (get_segments g)) as Hsegs.
  { unfold get_range, get_segments in *. destruct (gt_segments g) as [|s segs]; [|by eapply get_union_ok].
    constructor; [|done]. inversion Hs; subst. by apply region_seg_ok. }
  destruct ((size =? 0) || (length name =? 0)%nat); [by intros [= <- <- <- <-]|].
  destruct (CheckBlobExists st name (gt_tag g)) as [b|] eqn:Ef; [|by intros [= <- <- <- <-]].
  assert (blobs st !! get_key g = Some b) as Hb.
  { unfold CheckBlobExists, get_key in *. fold name. by destruct name. }
  destruct (read_source b (gt_replica g)) as [[[blocks total] trn]|] eqn:Es; [|by intros [= <- <- <- <-]].
  destruct (total =? 0); [by intros [= <- <- <- <-]|]. rewrite He.
  destruct (read_segments st blocks (get_segments g)) as [[err bufs'] st1] eqn:E. intros [= <- <- <- <-].
  destruct (read_source_ok st _ b _ _ _ _ Hok Hb Es) as (k & rest & Hk & Hv & Htot & Hp).
  pose proof (devs_ok_perm _ _ _ Hp (so_devs _ Hok)) as Hd.
  destruct (read_segments_ok rest blocks _ st err bufs' st1 Hd Htot Hsegs E) as (devs' & -> & D1 & S1 & F1).
  destruct (store_devs st devs' Hok) as [Hok' Hr'].
  - by eapply devs_ok_perm; [symmetry|].
  - eapply same_blocks_sub, S1. intros x Hx. by rewrite <- Hp.
  - split_and!; [done|done|done|]. intros Herr. exists b, k, (view (rt_devs st) b), (content (rt_devs st) blocks).
    split_and!; [done|done|unfold reads; by rewrite lookup_fmap, Hb|done|by apply F1].
Qed.

(** * TruncateBlob and DelBlob *)

Definition truncated (rc n : Z) (v v' : list (list u8)) : Prop :=
  exists c c' vs, v = c :: vs /\ v' = c' :: vs /\ (if rc =? 0 then c' = resized n c else len c <= n /\ exists e, c' = c ++ e /\ len c' <= n).

Lemma on_slots_primary R (v v' : list (list u8)) : v <> [] -> on_slots 0 1 R v v' -> exists c c' vs, v = c :: vs /\ v' = c' :: vs /\ R c c'.
Proof.
  intros Hv [L S]. destruct v as [|c vs]; [done|]. destruct v' as [|c' vs']; [done|]. exists c, c', vs. split_and!; [done| |apply (S 0%nat); done].
  f_equal. apply list_eq. intros i. destruct (vs !! i) as [x|] eqn:E1, (vs' !! i) as [y|] eqn:E2; [|apply lookup_ge_None in E2; apply lookup_lt_Some in E1; cbn in L; lia|apply lookup_ge_None in E1; apply lookup_lt_Some in E2; cbn in L; lia|done].
  specialize (S (Datatypes.S i) x y E1 E2). rewrite between_false in S by lia. congruence.
Qed.

(** A step of the tag accounting or of the log. *)
Lemma store_same st st' :
  rt_devs st' = rt_devs st -> rt_targets st' = rt_targets st -> blobs st' = blobs st -> store_ok st ->
  store_ok st' /\ reads st' = reads st.
Proof.
  intros G1 G2 G3 [I1 I2 I3]. unfold reads. rewrite G1, G3. split; [|done].
  split; [by rewrite G1, G3|unfold targets_ok; by rewrite G2|by rewrite G3].
Qed.

Lemma log_layout_same st tag name blocks :
  rt_devs (log_layout st tag name blocks) = rt_devs st /\ rt_targets (log_layout st tag name blocks) = rt_targets st /\
  rt_meta (log_layout st tag name blocks) = rt_meta st.
Proof. unfold log_layout, wal_log. by destruct blocks, (rt_logging st). Qed.

Lemma sub_tag_blobs m tag n : mt_blobs (sub_tag_size m tag n) = mt_blobs m.
Proof. unfold sub_tag_size. by destruct (mt_tags m !! tag). Qed.

Lemma TruncateBlob_ok st tag name n rc st' :
  store_ok st -> 0 <= n <= 2 ^ 62 -> TruncateBlob st tag name n = (rc, st') ->
  store_ok st' /\
  match reads st !! composite_key tag name with
  | Some v => name <> [] -> exists v', reads st' = <[composite_key tag name := v']> (reads st) /\ truncated rc n v v'
  | None => st' = st
  end.
Proof.
  intros Hok Hn. unfold TruncateBlob. destruct name as [|x name]; [intros [= <- <-]; by case_match|].
  set (nm := x :: name). set (key := composite_key tag nm). change (CheckBlobExists st nm tag) with (blobs st !! key).
  unfold reads at 1. rewrite lookup_fmap. destruct (blobs st !! key) as [b|] eqn:Eb; [|by intros [= <- <-]]. cbn [fmap option_fmap option_map].
  destruct (ResizeBlob st b n (bi_score b) 0) as [[err st1] b1] eqn:E.
  pose proof (store_take st key b Hok Eb) as Hd. pose proof (so_blobs _ Hok _ _ Eb) as Hw.
  assert (devs_ok (rt_devs st) (bi_blocks b ++ concat (map rp_blocks (bi_replicas b)) ++ all_blocks (delete key (blobs st)))) as Hd2.
  { unfold blob_blocks in Hd. by rewrite <- app_assoc in Hd. }
  destruct (ResizeBlob_ok _ st b n _ _ err st1 b1 Hd2 (so_targets _ Hok) (proj1 Hw) Hn E) as [U Herr].
  pose proof (changes_primary _ _ _ _ _ _ Hd Hw U) as C.
  destruct (store_commit st key b st1 b1 _ (devs_ok_right _ _ _ Hd) (so_blobs _ Hok) C) as [Hok1 Hr1].
  change (set_meta st1 _) with (store_blob st1 tag nm b1) in Hok1, Hr1.
  assert (truncated (if err =? 0 then 0 else 10 + err) n (view (rt_devs st) b) (view (rt_devs st1) b1)) as Htr.
  { destruct (on_slots_primary _ (view (rt_devs st) b) _ ltac:(done) (ch_view _ _ _ _ _ _ C)) as (c & c' & vs & E1 & E2 & HR). exists c, c', vs. split_and!; [done|done|].
    unfold resize_result in HR. destruct (Z.eqb_spec err 0) as [->|Hne]; [done|]. by rewrite (proj2 (Z.eqb_neq (10 + err) 0)) by lia. }
  destruct (Z.eqb_spec err 0) as [->|Hne]; cbn [negb]; intros [= <- <-].
  - set (st2 := match mt_tags _ !! tag with Some _ => _ | None => _ end).
    assert (rt_devs st2 = rt_devs (store_blob st1 tag nm b1) /\ rt_targets st2 = rt_targets (store_blob st1 tag nm b1) /\
      blobs st2 = blobs (store_blob st1 tag nm b1)) as (G1 & G2 & G3).
    { subst st2. destruct (mt_tags _ !! tag); [|done]. destruct (bi_total b <=? bi_total b1); [done|]. cbn. by rewrite sub_tag_blobs. }
    destruct (log_layout_same st2 tag nm (bi_blocks b1)) as (L1 & L2 & L3).
    destruct (store_same (store_blob st1 tag nm b1) (log_layout st2 tag nm (bi_blocks b1))) as [Hok2 Hr2]; [congruence..|done|].
    split; [done|]. intros _. exists (view (rt_devs st1) b1). by rewrite Hr2, Hr1.
  - split; [done|]. intros _. by exists (view (rt_devs st1) b1).
Qed.

Lemma DelBlob_ok st tag name rc st' :
  store_ok st -> DelBlob st tag name = (rc, st') ->
  store_ok st' /\ (rc <> 0 /\ st' = st \/ rc = 0 /\ is_Some (reads st !! composite_key tag name) /\ reads st' = delete (composite_key tag name) (reads st)).
Proof.
  intros Hok. unfold DelBlob. destruct name as [|x name]; [intros [= <- <-]; split; [done|by left]|].
  set (nm := x :: name). set (key := composite_key tag nm). change (CheckBlobExists st nm tag) with (blobs st !! key).
  destruct (blobs st !! key) as [b|] eqn:Eb; [|intros [= <- <-]; split; [done|by left]].
  fold (blob_blocks b). set (st1 := free_by_pool st (blob_blocks b)). intros [= <- <-].
  pose proof (store_take st key b Hok Eb) as Hd.
  destruct (free_by_pool_ok (all_blocks (delete key (blobs st))) st (blob_blocks b) Hd) as [D1 [S1 R1 T1]]. fold st1 in D1, S1, R1, T1.
  destruct R1 as [M1 _]. set (m2 := sub_tag_size (rt_meta st1) tag (bi_total b)).
  set (st2 := set_meta (set_meta st1 m2) (set_blobs m2 (delete key (mt_blobs m2)))).
  assert (blobs st2 = delete key (blobs st)) as Hm by (cbn; unfold m2; rewrite sub_tag_blobs; by rewrite M1).
  assert (store_ok st2 /\ reads st2 = delete key (reads st)) as [Hok2 Hr2].
  { split.
    - split; [by rewrite Hm|exact (T1 (so_targets _ Hok))|rewrite Hm; apply map_Forall_delete, (so_blobs _ Hok)].
    - unfold reads. rewrite Hm. cbn [rt_devs st2 set_meta]. rewrite (views_same (delete key (blobs st)) (rt_devs st) (rt_devs st1) (devs_ok_right _ _ _ Hd) S1); apply fmap_delete. }
  unfold wal_log. split.
  - destruct (rt_logging _); [|done]. by refine (proj1 (store_same st2 _ _ _ _ Hok2)).
  - right. split; [done|]. split; [unfold reads; by rewrite lookup_fmap, Eb|]. by destruct (rt_logging _).
Qed.

End Store.
