(* ===== verification/BlobMove.v ===== *)
(** Blobs that move: [ReorganizeBlob] places a copy's bytes anew, and
    [ReclaimCacheReplica] gives a cached copy up. *)
From Stdlib Require Import ZArith Lia.
From coqutil Require Import Byte.
From stdpp Require Import base list gmap.
From S2P Require Import Prelude Extents BlockAllocator TxnLog Text BlobMeta BlobDevice BlobStore BlobBlocks BlobSafety BlobPut BlobCopies BlobStep.

Open Scope Z_scope.

Section Moves.
Context {D P I : Type} `{BlockDeviceLaws D} `{Dpe P} `{BufferPool I}.
Implicit Types (st : Runtime D P I) (b : BlobInfo) (blocks held : list BlobBlock).

Abbreviation blobs st := (mt_blobs (rt_meta st)).

(** * Blocks that leave the store and blocks that enter it *)

Lemma free_pool_meta st m blocks p : free_pool (set_meta st m) blocks p = set_meta (free_pool st blocks p) m.
Proof.
  unfold free_pool. cbn [rt_devs set_meta]. destruct (rt_devs st !! p); [|done]. destruct (dev_free _ _) as [[] d']; [|done].
  unfold credit. cbn [rt_targets set_meta set_devs]. by destruct (rt_targets st !! p).
Qed.

Lemma free_by_pool_meta st m blocks : free_by_pool (set_meta st m) blocks = set_meta (free_by_pool st blocks) m.
Proof.
  unfold free_by_pool. generalize (remove_dups (map bb_pool blocks)) as ps. intros ps. revert st.
  induction ps as [|p ps IH]; intros st; [done|]. cbn [fold_left]. by rewrite free_pool_meta, IH.
Qed.

(** A blob that gives some of its blocks up. *)
Lemma free_store st tag name b b' blocks :
  let key := composite_key tag name in
  store_ok st -> blobs st !! key = Some b -> blob_blocks b ≡ₚ blocks ++ blob_blocks b' -> blob_wf b' ->
  store_ok (store_blob (free_by_pool st blocks) tag name b') /\
  reads (store_blob (free_by_pool st blocks) tag name b') = <[key := view (rt_devs st) b']> (reads st).
Proof.
  cbv zeta. intros Hok Hb Hp Hw. set (key := composite_key tag name) in *. set (held := all_blocks (delete key (blobs st))).
  assert (devs_ok (rt_devs st) (blocks ++ blob_blocks b' ++ held)) as Hd.
  { eapply devs_ok_perm; [|exact (so_devs _ Hok)]. by rewrite (all_blocks_take _ _ _ Hb), Hp, <- app_assoc. }
  destruct (free_by_pool_ok _ _ _ Hd) as [D1 [S1 [M1 _] T1]]. unfold store_blob, reads. fold key. cbn [rt_meta rt_devs set_meta put_blob set_blobs mt_blobs].
  rewrite M1. split.
  - split; cbn [rt_meta rt_devs set_meta put_blob set_blobs mt_blobs].
    + eapply devs_ok_perm; [|exact D1]. symmetry. apply all_blocks_put.
    + exact (T1 (so_targets _ Hok)).
    + apply map_Forall_insert_2; [done|]. apply (so_blobs _ Hok).
  - pose proof (devs_ok_right _ _ _ (devs_ok_right _ _ _ Hd)) as Hh.
    rewrite (views_put (blobs st) (rt_devs st)); [|done|eapply same_blocks_sub, S1; set_solver]. f_equal.
    eapply view_same; [exact S1|set_solver|]. eapply devs_ok_sub_Forall; [exact Hd|set_solver].
Qed.

(** A blob that takes blocks in. *)
Lemma store_swap st tag name b b' blocks :
  let key := composite_key tag name in
  devs_ok (rt_devs st) (blocks ++ all_blocks (blobs st)) -> targets_ok st -> map_Forall (fun _ => blob_wf) (blobs st) ->
  blobs st !! key = Some b -> blob_blocks b' ≡ₚ blocks ++ blob_blocks b -> blob_wf b' ->
  store_ok (store_blob st tag name b') /\
  reads (store_blob st tag name b') = <[key := view (rt_devs st) b']> (reads st).
Proof.
  cbv zeta. intros Hd Ht Hf Hb Hp Hw. set (key := composite_key tag name) in *.
  unfold store_blob, reads. fold key. split.
  - split; cbn [rt_meta rt_devs set_meta put_blob set_blobs mt_blobs]; [|done|by apply map_Forall_insert_2].
    eapply devs_ok_perm; [|exact Hd]. by rewrite all_blocks_put, Hp, (all_blocks_take _ _ _ Hb), app_assoc.
  - cbn [rt_meta rt_devs set_meta put_blob set_blobs mt_blobs]. apply fmap_insert.
Qed.

Lemma store_Forall st key b l : store_ok st -> blobs st !! key = Some b -> l ⊆ blob_blocks b -> Forall (blk_ok (rt_devs st)) l.
Proof.
  intros Hok Hb Hl. eapply devs_ok_sub_Forall; [exact (so_devs _ Hok)|]. etrans; [exact Hl|]. by eapply all_blocks_sub.
Qed.

Lemma reads_at st key b : blobs st !! key = Some b -> reads st !! key = Some (view (rt_devs st) b).
Proof. intros Hb. unfold reads. by rewrite lookup_fmap, Hb. Qed.

(** * Placing bytes anew *)

Lemma written_all data c c' : len c = len data -> written data 0 (len data) 0 true c c' -> c' = data.
Proof.
  intros Hl [L W]. apply list_eq_Z; [unfold len in *; lia|]. intros i Hi. destruct (W i) as [_ B]; [unfold len in *; lia|].
  rewrite B by (done || unfold len in *; lia). f_equal. lia.
Qed.

Lemma replace_attempts_ok held data size new_score current_score minp n : forall st sb k r st',
  devs_ok (rt_devs st) held -> targets_ok st -> bi_blocks sb = [] -> bi_total sb = 0 -> len data = size -> size <= 2 ^ 62 ->
  replace_attempts st sb data size new_score current_score minp k n = (r, st') ->
  same_blocks (rt_devs st) (rt_devs st') held /\ rt_meta st' = rt_meta st /\ targets_ok st' /\
  match r with
  | None => devs_ok (rt_devs st') held
  | Some (_, _, sb') => devs_ok (rt_devs st') (bi_blocks sb' ++ held) /\ blob_ok sb' /\ content (rt_devs st') (bi_blocks sb') = data
  end.
Proof.
  induction n as [|n IH]; intros st sb k r st' Hd Ht Hb Hz Hlen Hmax; cbn [replace_attempts].
  { intros [= <- <-]. split_and!; [apply same_blocks_refl|done|done|done]. }
  set (score := if (k <? 2)%nat then new_score else current_score).
  assert (devs_ok (rt_devs st) (bi_blocks sb ++ held)) as Hd0 by by rewrite Hb.
  assert (blob_ok sb) as Hok by (split; [by rewrite Hb, Hz|lia]). assert (0 <= size) as Hs by (unfold len in Hlen; lia).
  destruct (ExtendBlob st sb 0 size score minp 0) as [[err st1] sb1] eqn:E.
  destruct (ExtendBlob_ok held st sb 0 size score minp 0 err st1 sb1 Hd0 Ht Hok ltac:(lia) Hs ltac:(lia) ltac:(lia) E) as (G & T1 & O1 & Z1).
  destruct (if err =? 0 then _ else _) as [err2 st2] eqn:E2.
  assert (devs_ok (rt_devs st2) (bi_blocks sb1 ++ held) /\ same_blocks (rt_devs st1) (rt_devs st2) held /\ rt_meta st2 = rt_meta st1 /\
    targets_ok st2 /\ (err2 = 0 -> content (rt_devs st2) (bi_blocks sb1) = data)) as (D2 & S2 & M2 & T2 & C2).
  { pose proof (gr_devs _ _ _ _ _ G) as D1. destruct (Z.eqb_spec err 0) as [->|Hne].
    - cbn [Z.eqb] in Z1. destruct O1 as [O1 O2].
      destruct (ModifyExistingData_ok st1 (bi_blocks sb1) held data size 0 0 0 err2 st2 D1 ltac:(lia) ltac:(lia) Hs ltac:(lia) ltac:(lia) eq_refl ltac:(lia) E2)
        as (devs' & -> & D2 & S2 & W2 & Herr).
      split_and!; [done|done|done|done|]. intros ->. cbn [Z.eqb] in W2. subst size. eapply written_all; [|exact W2].
      rewrite (len_content (rt_devs st1)) by (by eapply devs_ok_left). lia.
    - injection E2 as <- <-. split_and!; [done|apply same_blocks_refl|done|done|done]. }
  pose proof (gr_keeps _ _ _ _ _ G) as [S1 [M1 _] _].
  destruct (Z.eqb_spec err2 0) as [->|Hne2].
  - intros [= <- <-]. split_and!; [by eapply same_blocks_trans|congruence|done|done|done|by apply C2].
  - destruct (FreeAllBlobBlocks st2 sb1) as [st3 sb3] eqn:E3. intros E4.
    destruct (FreeAllBlobBlocks_ok held st2 sb1 st3 sb3 D2 T2 E3) as [D3 S3 M3 T3 L3 _ _].
    injection E3 as _ <-.
    destruct (IH st3 (with_layout sb1 [] 0) (S k) r st' D3 T3 eq_refl eq_refl Hlen Hmax E4) as (S4 & M4 & T4 & R4).
    split_and!; [|congruence|done|done]. eapply same_blocks_trans; [exact S1|]. eapply same_blocks_trans; [exact S2|]. by eapply same_blocks_trans.
Qed.

(** Reading a whole copy. *)
Lemma fetched_all c buf buf' : len buf = len c -> fetched c 0 (len c) 0 true buf buf' -> buf' = c.
Proof.
  intros Hl [L F]. apply list_eq_Z; [unfold len in *; lia|]. intros i Hi. destruct (F i) as [_ B]; [unfold len in *; lia|].
  rewrite B by (done || unfold len in *; lia). f_equal. lia.
Qed.

Lemma len_zeros n : 0 <= n -> len (zeros n) = n.
Proof. intros. unfold len, zeros. rewrite length_replicate. lia. Qed.

Lemma read_copy_ok st blocks rest size err data st' :
  store_ok st -> all_blocks (blobs st) ≡ₚ blocks ++ rest -> total_size blocks = size -> size <= 2 ^ 62 ->
  ReadData st blocks (zeros size) size 0 = (err, data, st') ->
  store_ok st' /\ reads st' = reads st /\ rt_meta st' = rt_meta st /\
  (err = 0 -> data = content (rt_devs st) blocks /\ len data = size).
Proof.
  intros Hok Hp Hs Hmax E. pose proof (devs_ok_perm _ _ _ Hp (so_devs _ Hok)) as Hd.
  pose proof (len_content _ _ (devs_ok_left _ _ _ Hd)) as Hlen. rewrite Hs in Hlen. assert (0 <= size) as H0' by (unfold len in Hlen; lia).
  pose proof (len_zeros size H0') as Hz.
  destruct (ReadData_ok st blocks rest (zeros size) size 0 err data st' Hd ltac:(lia) ltac:(lia) H0' ltac:(lia) ltac:(lia) E) as (devs' & -> & D1 & S1 & F1 & _).
  destruct (store_devs st devs' Hok) as [Hok' Hr].
  - by eapply devs_ok_perm; [symmetry|].
  - eapply same_blocks_sub, S1. intros x Hx. by rewrite <- Hp.
  - split_and!; [done|done|done|]. intros ->. cbn [Z.eqb] in F1. rewrite <- Hlen in F1 at 1. apply fetched_all in F1 as ->; [done|lia].
Qed.
(** The attempts, with every blob of the store untouched by them. *)
Lemma replace_store_ok st data size new_score current_score minp k n r st' :
  store_ok st -> len data = size -> size <= 2 ^ 62 ->
  replace_attempts st BlobInfo_new data size new_score current_score minp k n = (r, st') ->
  rt_meta st' = rt_meta st /\ targets_ok st' /\ reads st' = reads st /\
  match r with
  | None => store_ok st'
  | Some (_, _, sb) => devs_ok (rt_devs st') (bi_blocks sb ++ all_blocks (blobs st')) /\ blob_ok sb /\ content (rt_devs st') (bi_blocks sb) = data
  end.
Proof.
  intros [Hd Ht Hb] Hlen Hmax E.
  destruct (replace_attempts_ok _ _ _ _ _ _ _ st BlobInfo_new _ _ _ Hd Ht eq_refl eq_refl Hlen Hmax E) as (S1 & M1 & T1 & R1).
  split_and!; [done|done|unfold reads; rewrite M1; by apply views_same|]. destruct r as [[[j score] sb]|]; [by rewrite M1|]. split; by rewrite ?M1.
Qed.

(** ** The primary *)

Definition persistent_copy (r : Replica) : Prop := Z.land (rp_flags r) REPLICA_PERSISTENT <> 0 /\ rp_blocks r <> [].

Lemma best_persistent_copy rs : f32_negative (best_persistent rs) = false -> Exists persistent_copy rs.
Proof.
  unfold best_persistent. enough (forall best, f32_negative (fold_left (fun best r =>
    if negb (Z.land (rp_flags r) REPLICA_PERSISTENT =? 0) && negb (length (rp_blocks r) =? 0)%nat then
      let s := if f32_negative (rp_score r) then 0 else rp_score r in if f32_lt best s then s else best
    else best) rs best) = false -> f32_negative best = false \/ Exists persistent_copy rs) as Hall.
  { intros Hn. destruct (Hall _ Hn) as [E|]; [|done]. by vm_compute in E. }
  induction rs as [|r rs IH]; intros best; cbn [fold_left]; [by left|]. intros Hn. destruct (IH _ Hn) as [E|E]; [|right; by right].
  destruct (negb (Z.land _ _ =? 0)) eqn:E1; cbn [andb] in E; [|by left]. destruct (negb (length _ =? 0)%nat) eqn:E2; [|by left].
  right. left. split; [lia|]. intros E3. rewrite E3 in E2. done.
Qed.

Lemma store_ipc st i : store_ok st -> store_ok (set_ipc st i) /\ reads (set_ipc st i) = reads st.
Proof. by apply store_same. Qed.

Lemma clear_wf b : blob_wf b -> blob_wf (with_layout b [] 0).
Proof. intros [_ W]. split; [|done]. split; cbn; lia. Qed.

Lemma view_clear devs b : view (D := D) devs (with_layout b [] 0) = [] :: tail (view devs b).
Proof. done. Qed.

Lemma drop_primary_ok st tag name b score :
  store_ok st -> blobs st !! composite_key tag name = Some b ->
  store_ok (drop_primary st tag name b score) /\
  reads (drop_primary st tag name b score) = <[composite_key tag name := [] :: tail (view (rt_devs st) b)]> (reads st).
Proof.
  intros Hok Hb. unfold drop_primary, FreeAllBlobBlocks.
  destruct (free_store st tag name b (with_score (with_layout b [] 0) score) (bi_blocks b) Hok Hb) as [Hok1 Hr1];
    [done|apply clear_wf, (so_blobs _ Hok _ _ Hb)|].
  change ([] :: tail (view (rt_devs st) b)) with (view (rt_devs st) (with_score (with_layout b [] 0) score)).
  rewrite <- Hr1. apply store_same; [..|done]; unfold wal_log; destruct (rt_logging _); try done; apply sub_tag_blobs.
Qed.

(** What a move may leave of a blob: its copies as they were, or the one in slot
    [k] empty. *)
Definition moved (k : nat) (lost : Prop) (v v' : list (list u8)) : Prop := v' = v \/ lost /\ v' = <[k := []]> v.

Lemma free_buffer_ok st n : store_ok st -> store_ok (free_buffer st n) /\ reads (free_buffer st n) = reads st.
Proof. apply store_ipc. Qed.

Lemma replace_primary_ok st tag name b new_score rc st' :
  let key := composite_key tag name in
  store_ok st -> blobs st !! key = Some b -> replace_primary st tag name b (content (rt_devs st) (bi_blocks b)) new_score = (rc, st') ->
  store_ok st' /\ (reads st' = reads st \/ reads st' = <[key := [] :: tail (view (rt_devs st) b)]> (reads st) /\ rc = 7).
Proof.
  cbv zeta. intros Hok Hb. set (key := composite_key tag name) in *. pose proof (so_blobs _ Hok _ _ Hb) as Hw. pose proof Hw as [[W1 W2] W3].
  unfold replace_primary. destruct (ClearBlob st b (bi_score b) 0) as [[cleared st1] b1] eqn:E.
  assert (cleared = false /\ st1 = st \/ cleared = true /\ st1 = free_by_pool st (bi_blocks b) /\ b1 = with_layout b [] 0) as [(-> & ->)|(-> & -> & ->)].
  { unfold ClearBlob, FreeAllBlobBlocks in E. destruct (_ || _); [left; by injection E as <- <- _|].
    destruct (_ || _); [left; by injection E as <- <- _|]. right. by injection E as <- <- <-. }
  { cbn [negb]. intros [= <- <-]. destruct (free_buffer_ok st (bi_total b) Hok). auto. }
  cbn [negb]. destruct (free_store st tag name b (with_layout b [] 0) (bi_blocks b) Hok Hb) as [Hok1 Hr1]; [done|by apply clear_wf|].
  fold key in Hr1. rewrite view_clear in Hr1. set (st1 := store_blob _ tag name _) in *.
  assert (blobs st1 !! key = Some (with_layout b [] 0)) as Hb1 by apply lookup_insert_eq.
  pose proof (len_content (rt_devs st) (bi_blocks b) (store_Forall st key b (bi_blocks b) Hok Hb ltac:(unfold blob_blocks; set_solver))) as Hlen.
  rewrite <- W1 in Hlen.
  destruct (replace_attempts st1 _ _ _ _ _ _ _ _) as [r st2] eqn:E2.
  destruct (replace_store_ok _ _ _ _ _ _ _ _ _ _ Hok1 Hlen W2 E2) as (M2 & T2 & Hr2 & R2).
  destruct r as [[[k score] sb]|]; intros [= <- <-]; cycle 1.
  { destruct (free_buffer_ok st2 (bi_total b) R2) as [Hok3 Hr3]. split; [done|]. right. split; [congruence|done]. }
  destruct R2 as (D2 & O2 & C2). assert (blobs st2 !! key = Some (with_layout b [] 0)) as Hb2 by by rewrite M2.
  set (b3 := with_score _ score). destruct (store_swap st2 tag name (with_layout b [] 0) b3 (bi_blocks sb) D2 T2) as [Hok3 Hr3];
    [rewrite M2; apply (so_blobs _ Hok1)|done|done|by split|]. fold key in Hr3.
  destruct (log_layout_same (store_blob st2 tag name b3) tag name (bi_blocks sb)) as (L1 & L2 & L3).
  destruct (store_same _ _ L1 L2 (f_equal mt_blobs L3) Hok3) as [Hok4 Hr4].
  destruct (free_buffer_ok _ (bi_total b) Hok4) as [Hok5 Hr5]. split; [done|]. left. rewrite Hr5, Hr4, Hr3, Hr2, Hr1, insert_insert_eq.
  apply insert_id. unfold reads. rewrite lookup_fmap, Hb. cbn [fmap option_fmap option_map]. f_equal.
  assert (view (rt_devs st2) (with_layout b [] 0) = [] :: tail (view (rt_devs st) b)) as Ev.
  { apply (reads_at st2 key) in Hb2. rewrite Hr2, Hr1, lookup_insert_eq in Hb2. apply (inj Some) in Hb2. by symmetry. }
  unfold view in Ev. cbn [bi_blocks bi_replicas with_layout content map concat tail] in Ev. injection Ev as Ev.
  unfold view. cbn [bi_blocks bi_replicas with_score with_layout b3]. by rewrite C2, Ev.
Qed.

Lemma ReorganizeBlobInternal_ok st tag name new_score rc st' :
  store_ok st -> ReorganizeBlobInternal st tag name new_score = (rc, st') ->
  store_ok st' /\
  (reads st' = reads st \/
   exists b, blobs st !! composite_key tag name = Some b /\
     reads st' = <[composite_key tag name := [] :: tail (view (rt_devs st) b)]> (reads st) /\
     (rc = 7 \/ rc = 0 /\ Exists persistent_copy (bi_replicas b))).
Proof.
  intros Hok. unfold ReorganizeBlobInternal. set (key := composite_key tag name).
  destruct (length name =? 0)%nat eqn:En; [intros [= <- <-]; auto|]. cbn [orb]. destruct (bad_score new_score); [intros [= <- <-]; auto|].
  assert (CheckBlobExists st name tag = blobs st !! key) as -> by by destruct name.
  destruct (blobs st !! key) as [b|] eqn:Hb; [|intros [= <- <-]; auto].
  pose proof (so_blobs _ Hok _ _ Hb) as Hw. pose proof Hw as [[W1 W2] W3].
  destruct (f32_near _ _ _); [intros [= <- <-]; auto|]. destruct (Z.eqb_spec (bi_total b) 0); [intros [= <- <-]; auto|].
  destruct (negb (f32_negative _) && _) eqn:Eb.
  { intros [= <- <-]. destruct (drop_primary_ok st tag name b new_score Hok Hb) as [Hok1 Hr1]. split; [done|]. right. exists b.
    split_and!; [done|done|]. right. split; [done|]. apply best_persistent_copy. destruct (f32_negative _); [done|done]. }
  unfold alloc_buffer. destruct (AllocateBuffer (rt_ipc st) (bi_total b)) as [ok i]. destruct (store_ipc st i Hok) as [Hok0 Hr0].
  destruct ok; cbn [negb]; [|intros [= <- <-]; auto]. set (st0 := set_ipc st i) in *.
  destruct (ReadData st0 (bi_blocks b) _ _ _) as [[err data] st1] eqn:E1.
  assert (all_blocks (blobs st0) ≡ₚ bi_blocks b ++ concat (map rp_blocks (bi_replicas b)) ++ all_blocks (delete key (blobs st0))) as Hp.
  { rewrite (all_blocks_take (blobs st0) key b Hb). unfold blob_blocks. by rewrite <- app_assoc. }
  destruct (read_copy_ok st0 _ _ _ err data st1 Hok0 Hp (eq_sym W1) W2 E1) as (Hok1 & Hr1 & M1 & Hdata).
  destruct (Z.eqb_spec err 0) as [->|Hne]; cbn [negb]; cycle 1.
  { intros [= <- <-]. destruct (free_buffer_ok st1 (bi_total b) Hok1). split; [done|]. left. congruence. }
  destruct (Hdata eq_refl) as [-> _]. assert (blobs st1 !! key = Some b) as Hb1 by by rewrite M1.
  assert (view (rt_devs st1) b = view (rt_devs st) b) as Ev.
  { apply (reads_at st1 key) in Hb1. apply (reads_at st key) in Hb. congruence. }
  assert (content (rt_devs st0) (bi_blocks b) = content (rt_devs st1) (bi_blocks b)) as -> by (injection Ev as Ev _; by rewrite Ev).
  intros E2. destruct (replace_primary_ok st1 tag name b new_score rc st' Hok1 Hb1 E2) as [Hok2 Hr2]. split; [done|].
  rewrite Hr1, Hr0, Ev in Hr2. destruct Hr2 as [Hr2|[Hr2 ->]]; [by left|right]. exists b. split_and!; [done|done|by left].
Qed.
(** ** A replica *)

Lemma slot_blocks b i r r' :
  bi_replicas b !! i = Some r ->
  blob_blocks (set_replica b i r') ≡ₚ rp_blocks r' ++ bi_blocks b ++ concat (map rp_blocks (delete i (bi_replicas b))).
Proof.
  intros Hi. unfold blob_blocks. cbn [set_replica set_replicas bi_blocks bi_replicas].
  assert (<[i:=r']> (bi_replicas b) !! i = Some r') as Hi' by (rewrite list_lookup_insert_eq; [done|by eapply lookup_lt_Some]).
  rewrite (replicas_split _ _ _ Hi'), delete_insert_same. apply Permutation_app_swap_app.
Qed.

Lemma slot_blocks_id b i r :
  bi_replicas b !! i = Some r -> blob_blocks b ≡ₚ rp_blocks r ++ bi_blocks b ++ concat (map rp_blocks (delete i (bi_replicas b))).
Proof. intros Hi. rewrite <- (slot_blocks b i r r Hi). unfold set_replica. by rewrite list_insert_id, set_replicas_same. Qed.

Lemma view_set_replica devs b i r : view (D := D) devs (set_replica b i r) = <[S i := content devs (rp_blocks r)]> (view devs b).
Proof. unfold view. cbn. f_equal. apply (list_fmap_insert (fun r => content devs (rp_blocks r))). Qed.

Lemma set_replica_wf b i r : blob_wf b -> rep_ok r -> blob_wf (set_replica b i r).
Proof. intros [W1 W2] Hr. split; [done|]. by apply Forall_insert. Qed.

Lemma empty_rep_ok r : rep_ok (with_rep_layout r [] 0).
Proof. split; cbn; lia. Qed.

(** A replica gives its blocks up. *)
Lemma free_replica st tag name b i r blocks r0 :
  let key := composite_key tag name in
  store_ok st -> blobs st !! key = Some b -> bi_replicas b !! i = Some r -> rp_blocks r = blocks ->
  rp_blocks r0 = [] -> rp_total r0 = 0 ->
  store_ok (store_blob (free_by_pool st blocks) tag name (set_replica b i r0)) /\
  reads (store_blob (free_by_pool st blocks) tag name (set_replica b i r0)) = <[key := <[S i := []]> (view (rt_devs st) b)]> (reads st).
Proof.
  cbv zeta. intros Hok Hb Hi <- H0' Hz. destruct (free_store st tag name b (set_replica b i r0) (rp_blocks r) Hok Hb) as [Hok1 Hr1].
  - by rewrite (slot_blocks _ _ _ r0 Hi), H0', (slot_blocks_id _ _ _ Hi).
  - apply set_replica_wf; [apply (so_blobs _ Hok _ _ Hb)|]. split; rewrite ?H0', Hz; cbn; lia.
  - split; [done|]. by rewrite Hr1, view_set_replica, H0'.
Qed.

Lemma log_replica_same st tag name idx r :
  rt_devs (log_replica st tag name idx r) = rt_devs st /\ rt_targets (log_replica st tag name idx r) = rt_targets st /\
  rt_meta (log_replica st tag name idx r) = rt_meta st.
Proof. unfold log_replica, wal_log. by destruct (rt_logging st). Qed.

(** The same, for the states a handler leaves. *)
Lemma log_replica_ok st tag name idx r :
  store_ok st -> store_ok (log_replica st tag name idx r) /\ reads (log_replica st tag name idx r) = reads st.
Proof. destruct (log_replica_same st tag name idx r) as (L1 & L2 & L3). apply store_same; [done|done|by rewrite L3]. Qed.

Lemma store_then_free st tag name b blocks :
  rt_meta (free_by_pool st blocks) = rt_meta st ->
  free_by_pool (store_blob st tag name b) blocks = store_blob (free_by_pool st blocks) tag name b.
Proof. intros Hm. unfold store_blob. by rewrite free_by_pool_meta, Hm. Qed.

Lemma move_replica_ok st tag name b i r new_score current_score rc st' :
  let key := composite_key tag name in
  store_ok st -> blobs st !! key = Some b -> bi_replicas b !! i = Some r ->
  move_replica st tag name b (Z.of_nat i + 1) r new_score current_score = (rc, st') ->
  store_ok st' /\ (reads st' = reads st \/ reads st' = <[key := <[S i := []]> (view (rt_devs st) b)]> (reads st) /\ rc = 7).
Proof.
  cbv zeta. intros Hok Hb Hi. set (key := composite_key tag name) in *. pose proof (so_blobs _ Hok _ _ Hb) as Hw.
  pose proof (Forall_lookup_1 _ _ _ _ (proj2 Hw) Hi) as [W1 W2]. unfold move_replica.
  replace (Z.to_nat (Z.of_nat i + 1 - 1)) with i by lia. unfold alloc_buffer.
  destruct (AllocateBuffer (rt_ipc st) (rp_total r)) as [ok p]. destruct (store_ipc st p Hok) as [Hok0 Hr0].
  destruct ok; cbn [negb]; [|intros [= <- <-]; auto]. set (st0 := set_ipc st p) in *.
  destruct (ReadData st0 (rp_blocks r) _ _ _) as [[err data] st1] eqn:E1.
  assert (all_blocks (blobs st0) ≡ₚ rp_blocks r ++ bi_blocks b ++ concat (map rp_blocks (delete i (bi_replicas b))) ++ all_blocks (delete key (blobs st0))) as Hp.
  { rewrite (all_blocks_take (blobs st0) key b Hb), (slot_blocks_id _ _ _ Hi). by rewrite <- !app_assoc. }
  destruct (read_copy_ok st0 _ _ _ err data st1 Hok0 Hp (eq_sym W1) W2 E1) as (Hok1 & Hr1 & M1 & Hdata).
  destruct (Z.eqb_spec err 0) as [->|Hne]; cbn [negb]; cycle 1.
  { intros [= <- <-]. destruct (free_buffer_ok st1 (rp_total r) Hok1). split; [done|]. left. congruence. }
  destruct (Hdata eq_refl) as [Hd Hlen]. assert (blobs st1 !! key = Some b) as Hb1 by by rewrite M1.
  assert (view (rt_devs st1) b = view (rt_devs st) b) as Ev.
  { apply (reads_at st1 key) in Hb1. apply (reads_at st key) in Hb. congruence. }
  assert (rt_meta (free_by_pool st1 (rp_blocks r)) = rt_meta st1) as Mf.
  { destruct (free_by_pool_ok _ st1 (rp_blocks r) (devs_ok_perm _ _ _ ltac:(rewrite <- M1 in Hp; exact Hp) (so_devs _ Hok1))) as [_ [_ [M _] _]]. exact M. }
  rewrite store_then_free by done.
  destruct (free_replica st1 tag name b i r (rp_blocks r) (with_rep_layout r [] 0) Hok1 Hb1 Hi eq_refl eq_refl eq_refl) as [Hok2 Hr2].
  fold key in Hr2. rewrite Hr1, Hr0, Ev in Hr2. set (st2 := store_blob _ tag name _) in *. set (b2 := set_replica b i (with_rep_layout r [] 0)) in *.
  destruct (replace_attempts st2 _ _ _ _ _ _ _ _) as [q st3] eqn:E3.
  destruct (replace_store_ok _ _ _ _ _ _ _ _ _ _ Hok2 Hlen W2 E3) as (M3 & T3 & Hr3 & R3).
  destruct q as [[[k score] sb]|]; intros [= <- <-]; cycle 1.
  { destruct (free_buffer_ok st3 (rp_total r) R3) as [Hok4 Hr4]. split; [done|]. right. split; [congruence|done]. }
  destruct R3 as (D3 & O3 & C3). assert (blobs st3 !! key = Some b2) as Hb3 by (rewrite M3; apply lookup_insert_eq).
  set (r' := with_rep_score _ score).
  destruct (store_swap st3 tag name b2 (set_replica b i r') (bi_blocks sb) D3 T3) as [Hok4 Hr4];
    [rewrite M3; apply (so_blobs _ Hok2)|done|unfold b2; by rewrite (slot_blocks b i r r' Hi), (slot_blocks b i r (with_rep_layout r [] 0) Hi)|by apply set_replica_wf|]. fold key in Hr4.
  destruct (log_replica_ok _ tag name (Z.of_nat i + 1) r' Hok4) as [Hok5 Hr5].
  destruct (free_buffer_ok _ (rp_total r) Hok5) as [Hok6 Hr6]. split; [done|]. left. rewrite Hr6, Hr5, Hr4, Hr3, Hr2, insert_insert_eq.
  apply insert_id. rewrite (reads_at _ _ _ Hb). f_equal.
  assert (view (rt_devs st3) b2 = <[S i := []]> (view (rt_devs st) b)) as Ev3.
  { apply (reads_at st3 key) in Hb3. rewrite Hr3, Hr2, lookup_insert_eq in Hb3. apply (inj Some) in Hb3. by symmetry. }
  assert (set_replica b i r' = set_replica b2 i r') as ->.
  { unfold b2, set_replica. cbn. by rewrite list_insert_insert_eq. }
  rewrite view_set_replica, Ev3, list_insert_insert_eq. symmetry. apply list_insert_id.
  rewrite lookup_view_S, Hi. cbn [fmap option_fmap option_map]. f_equal. change (rp_blocks r') with (bi_blocks sb). by rewrite C3, Hd.
Qed.
Lemma ReorganizeReplicaInternal_ok st tag name replica new_score rc st' :
  store_ok st -> ReorganizeReplicaInternal st tag name replica new_score = (rc, st') ->
  store_ok st' /\
  (reads st' = reads st \/
   exists b i, blobs st !! composite_key tag name = Some b /\ (i < length (bi_replicas b))%nat /\
     reads st' = <[composite_key tag name := <[S i := []]> (view (rt_devs st) b)]> (reads st) /\ rc = 7).
Proof.
  intros Hok. unfold ReorganizeReplicaInternal. set (key := composite_key tag name).
  destruct (length name =? 0)%nat eqn:En; [intros [= <- <-]; auto|]. cbn [orb]. destruct (_ || _); [intros [= <- <-]; auto|].
  assert (CheckBlobExists st name tag = blobs st !! key) as -> by by destruct name.
  destruct (blobs st !! key) as [b|] eqn:Hb; [|intros [= <- <-]; auto].
  destruct (ResolveReplicaSel (bi_replicas b) replica false) as [rs idx] eqn:Es.
  pose proof (ResolveReplicaSel_read _ _ _ _ Es) as ->. destruct (ResolveReplicaSel_shape _ _ _ _ _ Es) as (_ & Hi & _).
  destruct (Z.eqb_spec idx 0); [intros [= <- <-]; auto|].
  assert (exists i, idx = Z.of_nat i + 1) as [i ->] by (exists (Z.to_nat (idx - 1)); lia).
  replace (Z.to_nat (Z.of_nat i + 1 - 1)) with i by lia.
  destruct (bi_replicas b !! i) as [r|] eqn:Er; [|intros [= <- <-]; auto].
  set (fixed := negb (Z.land _ _ =? 0)). set (evac := fixed && ReplicaBlocksOnFailingTarget st r). set (ns := if f32_nonneg _ && _ then _ else _).
  set (cs := if f32_nonneg _ then _ else _). destruct (fixed && negb evac); [intros [= <- <-]; auto|].
  destruct (negb evac && _); [intros [= <- <-]; auto|]. destruct (rp_total r =? 0).
  - intros [= <- <-]. set (r' := with_rep_score r ns).
    destruct (store_swap st tag name b (set_replica b i r') []) as [Hok1 Hr1]; [exact (so_devs _ Hok)|exact (so_targets _ Hok)|exact (so_blobs _ Hok)|done| | |].
    + by rewrite (slot_blocks _ _ _ r' Er), (slot_blocks_id _ _ _ Er).
    + pose proof (so_blobs _ Hok _ _ Hb) as Hw. apply set_replica_wf; [done|]. exact (Forall_lookup_1 _ _ _ _ (proj2 Hw) Er).
    + split; [done|]. left. fold key in Hr1. rewrite Hr1. apply insert_id. rewrite (reads_at _ _ _ Hb). f_equal.
      rewrite view_set_replica. symmetry. apply list_insert_id. by rewrite lookup_view_S, Er.
  - intros E. destruct (move_replica_ok st tag name b i r ns cs rc st' Hok Hb Er E) as [Hok1 [Hr1|[Hr1 ->]]]; [auto|].
    split; [done|]. right. exists b, i. split_and!; [done|by eapply lookup_lt_Some|done|done].
Qed.

Lemma ReclaimCacheReplica_ok st tag name freed rc st' :
  store_ok st -> ReclaimCacheReplica st tag name = (freed, rc, st') ->
  store_ok st' /\
  (reads st' = reads st \/
   exists b i r, blobs st !! composite_key tag name = Some b /\ bi_replicas b !! i = Some r /\ is_cache r = true /\ rc = 0 /\
     reads st' = <[composite_key tag name := <[S i := []]> (view (rt_devs st) b)]> (reads st)).
Proof.
  intros Hok. unfold ReclaimCacheReplica. destruct name as [|x name]; [intros [= <- <- <-]; auto|].
  set (nm := x :: name). set (key := composite_key tag nm). change (CheckBlobExists st nm tag) with (blobs st !! key).
  destruct (blobs st !! key) as [b|] eqn:Hb; [|intros [= <- <- <-]; auto].
  unfold CacheReplicaIndex. destruct (find_cache 0 (bi_replicas b)) as [j|] eqn:Ec; [|intros [= <- <- <-]; auto].
  destruct (find_cache_Some _ _ _ Ec) as (i & r & -> & Hi & Hc & _). rewrite (proj2 (Z.ltb_lt _ _)) by lia.
  replace (Z.to_nat (0 + Z.of_nat i + 1 - 1)) with i by lia. rewrite Hi.
  destruct (rp_blocks r) as [|blk blocks] eqn:Eb; [intros [= <- <- <-]; auto|]. intros [= <- <- <-].
  destruct (free_replica st tag nm b i r (blk :: blocks) (with_rep_layout r [] 0) Hok Hb Hi Eb eq_refl eq_refl) as [Hok1 Hr1].
  destruct (log_replica_ok _ tag nm (0 + Z.of_nat i + 1) (with_rep_layout r [] 0) Hok1) as [Hok2 Hr2].
  split; [done|]. right. exists b, i, r. split_and!; [done|done|done|done|]. by rewrite Hr2.
Qed.
End Moves.
