(* ===== verification/MemBdev.v ===== *)
(** The memory-backed block device: [MemBdevTransport]
    ([runtime/modules/bdev/.../mem_bdev_transport.{h,cc}]) under the handlers of
    [bdev_runtime.cc], and that it keeps the promises of [BlockDevice] once its
    pages are in place.

    A device's bytes are one shared mapping, or 1 GiB pages of the process's heap,
    or both. A page is a function from its offsets; [new char\[\]] hands out pages
    with whatever was there ([md_heap]). Copies from and to GPU memory have the
    same effect as [memcpy] and are not told apart. The population of the mapping
    ahead of use, the counters and the [kNoop] device are left out. *)
From Stdlib Require Import ZArith Lia.
From coqutil Require Import Byte.
From stdpp Require Import base list gmap.
From S2P Require Import Prelude Extents BlockAllocator BlobDevice.

Open Scope Z_scope.

Definition kRamPageSize : Z := 2 ^ 30.

Abbreviation ram_page := (Z -> u8).

Record MemBdevTransport := mkMem {
  md_allocator : StandardBlockAllocator;
  md_capacity : Z;
  md_shm : option (Z * (Z -> u8));            (** [shm_usable_] and the mapping, when [shm_backed_] *)
  md_pages : gmap Z ram_page;                 (** the committed pages of [ram_pages_] *)
  md_heap : Z -> ram_page;                    (** what an allocation of the page finds *)
  md_workers : list Z                         (** the workers the next calls run on *)
}.

Definition set_allocator (m : MemBdevTransport) a : MemBdevTransport :=
  mkMem a (md_capacity m) (md_shm m) (md_pages m) (md_heap m) (md_workers m).
Definition set_shm (m : MemBdevTransport) s : MemBdevTransport :=
  mkMem (md_allocator m) (md_capacity m) s (md_pages m) (md_heap m) (md_workers m).
Definition set_pages (m : MemBdevTransport) p : MemBdevTransport :=
  mkMem (md_allocator m) (md_capacity m) (md_shm m) p (md_heap m) (md_workers m).

(** The id of the calling worker; 0 outside of one. *)
Definition worker_id (m : MemBdevTransport) : Z * MemBdevTransport :=
  (hd 0 (md_workers m), mkMem (md_allocator m) (md_capacity m) (md_shm m) (md_pages m) (md_heap m) (tl (md_workers m))).

(** * Pages *)

Definition ShmPageInBounds (usable page_idx : Z) : bool :=
  if usable / kRamPageSize <? page_idx then false else u64 (page_idx * kRamPageSize) <? usable.

Definition shm_page (m : MemBdevTransport) (page_idx : Z) : option (Z -> u8) :=
  match md_shm m with Some (usable, mem) => if ShmPageInBounds usable page_idx then Some mem else None | None => None end.

(** Committing the page that a write is about to touch. *)
Definition EnsureRamPage (m : MemBdevTransport) (page_idx : Z) : MemBdevTransport :=
  match shm_page m page_idx, md_pages m !! page_idx with
  | None, None => set_pages m (<[page_idx := md_heap m page_idx]> (md_pages m))
  | _, _ => m
  end.

(** One byte as a read sees it: of the mapping, of a committed page, or zero. *)
Definition page_byte (m : MemBdevTransport) (page_idx i : Z) : u8 :=
  match shm_page m page_idx with
  | Some mem => mem (page_idx * kRamPageSize + i)
  | None => match md_pages m !! page_idx with Some p => p i | None => Byte.x00 end
  end.

Definition overlay (f : Z -> u8) (at_ : Z) (bs : list u8) : Z -> u8 :=
  fun x => if (at_ <=? x) && (x <? at_ + Z.of_nat (length bs)) then nth (Z.to_nat (x - at_)) bs Byte.x00 else f x.

(** [memcpy(page + intra, data, chunk)] *)
Definition write_page (m : MemBdevTransport) (page_idx intra : Z) (bs : list u8) : MemBdevTransport :=
  match shm_page m page_idx, md_shm m with
  | Some mem, Some (usable, _) => set_shm m (Some (usable, overlay mem (page_idx * kRamPageSize + intra) bs))
  | _, _ =>
      let m := EnsureRamPage m page_idx in
      match md_pages m !! page_idx with
      | Some p => set_pages m (<[page_idx := overlay p intra bs]> (md_pages m))
      | None => m
      end
  end.

(** The page loop of one block. *)
Fixpoint write_pages (fuel : nat) (m : MemBdevTransport) (cur_off : Z) (data : list u8) : MemBdevTransport :=
  match fuel, data with
  | S fuel, _ :: _ =>
      let intra := cur_off mod kRamPageSize in
      let chunk := Z.min (Z.of_nat (length data)) (kRamPageSize - intra) in
      write_pages fuel (write_page m (cur_off / kRamPageSize) intra (take (Z.to_nat chunk) data))
        (cur_off + chunk) (drop (Z.to_nat chunk) data)
  | _, _ => m
  end.

Fixpoint read_pages (fuel : nat) (m : MemBdevTransport) (cur_off left : Z) : list u8 :=
  match fuel with
  | O => []
  | S fuel =>
      if left =? 0 then []
      else
        let intra := cur_off mod kRamPageSize in
        let chunk := Z.min left (kRamPageSize - intra) in
        map (fun i => page_byte m (cur_off / kRamPageSize) (intra + i)) (seqZ 0 chunk)
          ++ read_pages fuel m (cur_off + chunk) (left - chunk)
  end.

(** The pages a range touches. *)
Definition page_fuel (cur_off n : Z) : nat := Z.to_nat ((cur_off mod kRamPageSize + n) / kRamPageSize + 1).

(** * The transport *)

(** The block loops; the results are the return code and the bytes moved. *)
Fixpoint WriteBlocksCpu (m : MemBdevTransport) (blocks : list Block) (data : list u8) (remaining total : Z) : Z * Z * MemBdevTransport :=
  match blocks with
  | [] => (0, total, m)
  | block :: blocks =>
      if remaining =? 0 then (0, total, m)
      else
        let size := Z.min remaining (b_size block) in
        if negb (md_capacity m =? 2 ^ 64 - 1) && (md_capacity m <? u64 (b_offset block + size)) then (1, total, m)
        else
          let m := write_pages (page_fuel (b_offset block) size) m (b_offset block) (take (Z.to_nat size) data) in
          WriteBlocksCpu m blocks (drop (Z.to_nat size) data) (remaining - size) (total + size)
  end.

Fixpoint ReadBlocksCpu (m : MemBdevTransport) (blocks : list Block) (remaining total : Z) : Z * Z * list u8 :=
  match blocks with
  | [] => (0, total, [])
  | block :: blocks =>
      if remaining =? 0 then (0, total, [])
      else
        let size := Z.min remaining (b_size block) in
        if negb (md_capacity m =? 2 ^ 64 - 1) && (md_capacity m <? u64 (b_offset block + size)) then (1, total, [])
        else
          let bs := read_pages (page_fuel (b_offset block) size) m (b_offset block) size in
          let '(rc, n, rest) := ReadBlocksCpu m blocks (remaining - size) (total + size) in (rc, n, bs ++ rest)
  end.

(** [Init], with the mapping the backend gave, if any. *)
Definition mem_align (alignment : Z) : Z := if (alignment =? 0) || (alignment =? 4096) then 512 else alignment.
Definition PreallocateRamPages (m : MemBdevTransport) : MemBdevTransport :=
  match md_shm m with
  | Some _ => m
  | None =>
      set_pages m (list_to_map (map (fun i => (i, fun _ => Byte.x00)) (seqZ 0 (u64 (md_capacity m + kRamPageSize - 1) / kRamPageSize))))
  end.
Definition MemBdev_Init (num_workers : nat) (capacity alignment : Z) (shm : option Z) (preallocate : bool) (heap : Z -> ram_page)
    (workers : list Z) : MemBdevTransport :=
  let m := mkMem (Allocator_Init num_workers capacity (mem_align alignment)) capacity (option_map (fun n => (n, fun _ => Byte.x00)) shm) ∅ heap workers in
  if preallocate then PreallocateRamPages m else m.

(** * The handlers *)

(** [AllocateBlocks], and [InlineOp] when it succeeds: the blocks, if any. *)
Definition Bdev_AllocateBlocks (m : MemBdevTransport) (size : Z) : option (list Block) * MemBdevTransport :=
  let '(worker, m) := worker_id m in
  match BlockAllocator.AllocateBlocks (md_allocator m) size worker [] with
  | Some (true, bs, a) => (Some bs, set_allocator m a)
  | Some (false, _, a) => (None, set_allocator m a)
  | None => (None, m)
  end.

Definition Bdev_FreeBlocks (m : MemBdevTransport) (bs : list Block) : bool * MemBdevTransport :=
  let '(worker, m) := worker_id m in (true, set_allocator m (BlockAllocator.FreeBlocks (md_allocator m) worker bs)).

(** [Write] and [Read] of [length] bytes at the blocks, as [bytes_written_] and [bytes_read_]. *)
Definition Bdev_Write (m : MemBdevTransport) (blocks : list Block) (data : list u8) (length : Z) : Z * MemBdevTransport :=
  let '(_, n, m) := WriteBlocksCpu m blocks data length 0 in (n, m).
Definition Bdev_Read (m : MemBdevTransport) (blocks : list Block) (length : Z) : Z * list u8 :=
  let '(_, n, bs) := ReadBlocksCpu m blocks length 0 in (n, bs).

(** As the CTE calls it: one block per request, allocations inline first. *)
#[export] Instance MemBdev_ops : BlockDevice MemBdevTransport := {
  dev_inline _ _ := true;
  dev_alloc := Bdev_AllocateBlocks;
  dev_free := Bdev_FreeBlocks;
  dev_write m off data := Bdev_Write m [mkBlock off (Z.of_nat (length data)) 0] data (Z.of_nat (length data));
  dev_read m off size := (Bdev_Read m [mkBlock off size 0] size, m)
}.

(** * Contents *)

Definition mem_byte (m : MemBdevTransport) (x : Z) : u8 := page_byte m (x / kRamPageSize) (x mod kRamPageSize).

(** Every page of the device is in the mapping or committed. *)
Definition resolved (m : MemBdevTransport) : Prop :=
  forall i, 0 <= i -> i * kRamPageSize < md_capacity m -> is_Some (shm_page m i) \/ is_Some (md_pages m !! i).

(** What the copies leave alone. *)
Definition same_mem (m m' : MemBdevTransport) : Prop :=
  md_allocator m' = md_allocator m /\ md_capacity m' = md_capacity m /\ md_heap m' = md_heap m /\ md_workers m' = md_workers m.

Lemma page_size_pos : 0 < kRamPageSize.
Proof. unfold kRamPageSize. lia. Qed.

Lemma page_of x i : 0 <= x - i * kRamPageSize < kRamPageSize -> x / kRamPageSize = i /\ x mod kRamPageSize = x - i * kRamPageSize.
Proof.
  intros Hx. pose proof page_size_pos. split.
  - symmetry. apply (Z.div_unique_pos x kRamPageSize i (x - i * kRamPageSize)); lia.
  - symmetry. apply (Z.mod_unique_pos x kRamPageSize i (x - i * kRamPageSize)); lia.
Qed.

Lemma overlay_nth f at_ bs x :
  overlay f at_ bs x = if (at_ <=? x) && (x <? at_ + Z.of_nat (length bs)) then nth (Z.to_nat (x - at_)) bs Byte.x00 else f x.
Proof. done. Qed.

Lemma overlay_nil f at_ x : overlay f at_ [] x = f x.
Proof. rewrite overlay_nth. cbn [length Z.of_nat]. by rewrite between_false by lia. Qed.

(** One chunk. *)
Lemma write_page_ok m i intra bs :
  resolved m -> 0 <= i -> i * kRamPageSize < md_capacity m -> 0 <= intra -> intra + Z.of_nat (length bs) <= kRamPageSize ->
  let m' := write_page m i intra bs in
  same_mem m m' /\ resolved m' /\
  forall x, mem_byte m' x = overlay (mem_byte m) (i * kRamPageSize + intra) bs x.
Proof.
  intros Hr Hi Hcap Hin Hlen. pose proof page_size_pos as Hps. cbv zeta. unfold write_page.
  assert (forall x, (i * kRamPageSize + intra <= x < i * kRamPageSize + intra + Z.of_nat (length bs)) -> x / kRamPageSize = i /\ x mod kRamPageSize = x - i * kRamPageSize) as Hpage.
  { intros x Hx. apply page_of. lia. }
  assert (forall x, x = x / kRamPageSize * kRamPageSize + x mod kRamPageSize) as Hdiv by (intros; rewrite Z.mul_comm; apply Z.div_mod; lia).
  destruct (shm_page m i) as [mem|] eqn:Es.
  - unfold shm_page in Es. destruct (md_shm m) as [[usable mem']|] eqn:Em; [|done]. destruct (ShmPageInBounds usable i) eqn:Eb; [|done]. injection Es as ->.
    split; [done|]. split.
    + intros j Hj Hc. specialize (Hr j Hj Hc). unfold shm_page in *. cbn. rewrite Em in Hr. destruct (ShmPageInBounds usable j); [by left|done].
    + intros x. unfold mem_byte, page_byte, shm_page. cbn [set_shm md_shm md_pages]. rewrite Em.
      rewrite !overlay_nth. destruct ((i * kRamPageSize + intra <=? x) && (x <? i * kRamPageSize + intra + Z.of_nat (length bs))) eqn:Ex.
      * destruct (Hpage x ltac:(lia)) as [-> ->]. rewrite Eb. replace (i * kRamPageSize + (x - i * kRamPageSize)) with x by lia. by rewrite overlay_nth, Ex.
      * destruct (ShmPageInBounds usable (x / kRamPageSize)); [|done]. rewrite <- Hdiv. by rewrite overlay_nth, Ex.
  - destruct (Hr i Hi Hcap) as [[? ?]|[p Hp]]; [congruence|]. unfold EnsureRamPage. rewrite Es, Hp, Hp. split; [done|]. split.
    + intros j Hj Hc. destruct (Hr j Hj Hc) as [|Hs]; [by left|right]. cbn. by apply lookup_insert_is_Some'; right.
    + intros x. unfold mem_byte, page_byte. change (shm_page (set_pages m _)) with (shm_page m). cbn [set_pages md_pages].
      rewrite !overlay_nth. destruct ((i * kRamPageSize + intra <=? x) && (x <? i * kRamPageSize + intra + Z.of_nat (length bs))) eqn:Ex.
      * destruct (Hpage x ltac:(lia)) as [-> ->]. rewrite Es, lookup_insert_eq, overlay_nth.
        rewrite between_true by lia. f_equal. lia.
      * destruct (shm_page m (x / kRamPageSize)); [done|]. destruct (decide (i = x / kRamPageSize)) as [->|Hne].
        -- rewrite lookup_insert_eq, Hp, overlay_nth. rewrite between_false; [done|]. specialize (Hdiv x). lia.
        -- by rewrite lookup_insert_ne.
Qed.

Lemma same_mem_trans m1 m2 m3 : same_mem m1 m2 -> same_mem m2 m3 -> same_mem m1 m3.
Proof. unfold same_mem. intuition congruence. Qed.

Lemma overlay_app f at_ bs bs' x :
  overlay (overlay f at_ bs) (at_ + Z.of_nat (length bs)) bs' x = overlay f at_ (bs ++ bs') x.
Proof.
  rewrite !overlay_nth, length_app.
  destruct ((at_ + Z.of_nat (length bs) <=? x) && (x <? at_ + Z.of_nat (length bs) + Z.of_nat (length bs'))) eqn:E1.
  - rewrite between_true by lia. rewrite app_nth2 by lia. f_equal. lia.
  - destruct ((at_ <=? x) && (x <? at_ + Z.of_nat (length bs))) eqn:E2.
    + rewrite between_true by lia. by rewrite app_nth1 by lia.
    + by rewrite between_false by lia.
Qed.

(** The loop ends before the fuel does: each round but the last reaches the end of a page. *)
Lemma write_pages_ok fuel : forall m cur data,
  resolved m -> 0 <= cur -> cur + Z.of_nat (length data) <= md_capacity m ->
  data = [] \/ cur + Z.of_nat (length data) <= (cur / kRamPageSize + Z.of_nat fuel) * kRamPageSize ->
  let m' := write_pages fuel m cur data in
  same_mem m m' /\ resolved m' /\ forall x, mem_byte m' x = overlay (mem_byte m) cur data x.
Proof.
  pose proof page_size_pos as Hps.
  assert (forall m cur, same_mem m m /\ forall x, mem_byte m x = overlay (mem_byte m) cur [] x) as Hnil.
  { intros m cur. split; [done|]. intros x. by rewrite overlay_nil. }
  induction fuel as [|fuel IH]; intros m cur data Hr Hc Hcap Hf; cbn [write_pages].
  { pose proof (Z.div_mod cur kRamPageSize ltac:(lia)) as Hd. pose proof (Z.mod_pos_bound cur kRamPageSize Hps).
    assert (data = []) as -> by (destruct data; [done|]; destruct Hf as [|Hf]; [done|]; cbn in Hf; lia). destruct (Hnil m cur). by split_and!. }
  destruct data as [|d data]; [destruct (Hnil m cur); by split_and!|]. destruct Hf as [|Hf]; [done|]. set (l := d :: data) in *.
  pose proof (Z.div_mod cur kRamPageSize ltac:(lia)) as Hd. pose proof (Z.mod_pos_bound cur kRamPageSize Hps) as Hm.
  pose proof (Z.div_pos cur kRamPageSize Hc Hps) as Hq. assert (0 < Z.of_nat (length l)) as Hl by (cbn; lia).
  set (chunk := Z.min (Z.of_nat (length l)) (kRamPageSize - cur mod kRamPageSize)).
  assert (Z.of_nat (length (take (Z.to_nat chunk) l)) = chunk) as Hlt by (rewrite length_take; lia).
  destruct (write_page_ok m (cur / kRamPageSize) (cur mod kRamPageSize) (take (Z.to_nat chunk) l) Hr Hq ltac:(lia) ltac:(lia) ltac:(lia)) as (S1 & R1 & B1).
  cbv zeta in *. set (m1 := write_page _ _ _ _) in *.
  assert (cur / kRamPageSize * kRamPageSize + cur mod kRamPageSize = cur) as Hcur by lia. rewrite Hcur in B1.
  destruct (IH m1 (cur + chunk) (drop (Z.to_nat chunk) l) R1 ltac:(lia)) as (S2 & R2 & B2).
  - rewrite length_drop. destruct S1 as (_ & -> & _). lia.
  - destruct (Z.le_gt_cases (Z.of_nat (length l)) (kRamPageSize - cur mod kRamPageSize)) as [Hle|Hgt].
    + left. apply nil_length_inv. rewrite length_drop. lia.
    + assert (chunk = kRamPageSize - cur mod kRamPageSize) as Ech by lia.
      assert (cur + chunk = (cur / kRamPageSize + 1) * kRamPageSize) as E by (rewrite Ech, Z.mul_add_distr_r; lia).
      destruct (page_of (cur + chunk) (cur / kRamPageSize + 1)) as [-> _]; [lia|]. right. rewrite length_drop. lia.
  - split; [by eapply same_mem_trans|]. split; [done|]. intros x. rewrite B2. rewrite !overlay_nth.
    transitivity (overlay (overlay (mem_byte m) cur (take (Z.to_nat chunk) l)) (cur + Z.of_nat (length (take (Z.to_nat chunk) l))) (drop (Z.to_nat chunk) l) x).
    + rewrite Hlt. rewrite !(overlay_nth _ (cur + chunk)). destruct (_ && _); [done|]. by rewrite B1.
    + rewrite overlay_app, take_drop. done.
Qed.

Lemma read_pages_ok fuel : forall m cur left,
  0 <= cur -> 0 <= left -> left = 0 \/ cur + left <= (cur / kRamPageSize + Z.of_nat fuel) * kRamPageSize ->
  read_pages fuel m cur left = bytes_at (mem_byte m) cur left.
Proof.
  pose proof page_size_pos as Hps. induction fuel as [|fuel IH]; intros m cur left Hc Hl Hf; cbn [read_pages].
  { pose proof (Z.div_mod cur kRamPageSize ltac:(lia)). pose proof (Z.mod_pos_bound cur kRamPageSize Hps).
    assert (left = 0) as -> by (destruct Hf as [|Hf]; [done|]; cbn in Hf; lia). done. }
  destruct (Z.eqb_spec left 0) as [->|Hne]; [done|]. destruct Hf as [|Hf]; [done|].
  pose proof (Z.div_mod cur kRamPageSize ltac:(lia)) as Hd. pose proof (Z.mod_pos_bound cur kRamPageSize Hps) as Hm.
  set (chunk := Z.min left (kRamPageSize - cur mod kRamPageSize)).
  rewrite IH; [| lia | lia |].
  - unfold bytes_at. replace left with (chunk + (left - chunk)) at 2 by lia. rewrite seqZ_app by lia. rewrite map_app. f_equal.
    + apply map_ext_in. intros i Hi. apply list_elem_of_In, elem_of_seqZ in Hi. unfold mem_byte.
      destruct (page_of (cur + i) (cur / kRamPageSize)) as [-> ->]; [lia|]. f_equal. lia.
    + apply list_eq. intros i. destruct (decide (Z.of_nat i < left - chunk)) as [Hi|Hi].
      * rewrite !list_lookup_fmap, !lookup_seqZ_lt by lia. cbn. do 2 f_equal. lia.
      * rewrite !lookup_ge_None_2; [done|rewrite length_map, length_seqZ; lia..].
  - destruct (Z.le_gt_cases left (kRamPageSize - cur mod kRamPageSize)) as [Hle|Hgt]; [left; lia|right].
    assert (chunk = kRamPageSize - cur mod kRamPageSize) as Ech by lia.
    assert (cur + chunk = (cur / kRamPageSize + 1) * kRamPageSize) as E by (rewrite Ech, Z.mul_add_distr_r; lia).
    destruct (page_of (cur + chunk) (cur / kRamPageSize + 1)) as [-> _]; [lia|]. lia.
Qed.

Lemma page_fuel_enough cur n : 0 <= cur -> 0 <= n -> cur + n <= (cur / kRamPageSize + Z.of_nat (page_fuel cur n)) * kRamPageSize.
Proof.
  intros Hc Hn. pose proof page_size_pos as Hps. unfold page_fuel. pose proof (Z.mod_pos_bound cur kRamPageSize Hps) as Hm.
  pose proof (Z.div_pos (cur mod kRamPageSize + n) kRamPageSize ltac:(lia) Hps). rewrite Z2Nat.id by lia.
  pose proof (Z.div_mod cur kRamPageSize ltac:(lia)). pose proof (Z.div_mod (cur mod kRamPageSize + n) kRamPageSize ltac:(lia)).
  pose proof (Z.mod_pos_bound (cur mod kRamPageSize + n) kRamPageSize Hps). rewrite !Z.mul_add_distr_r. lia.
Qed.

(** * The promises *)

Definition to_block (e : extent) : Block := mkBlock (fst e) (snd e) 0.

(** Types are of no account to the allocator's invariant. *)
Lemma relabel_pool al heap (f : Block -> Block) l rest :
  (forall b, b_offset (f b) = b_offset b /\ b_size (f b) = b_size b) -> pool_ok al heap (l ++ rest) -> pool_ok al heap (map f l ++ rest).
Proof.
  intros Hf [Hc Hz]. assert (forall b, footprint al (f b) = footprint al b) as Hfp by (intros b; unfold footprint; by rewrite (proj2 (Hf b))).
  split.
  - intros x. rewrite <- Hc. clear Hc Hz. unfold cover_count. induction l as [|b l IH]; [done|]. cbn [map app List.filter].
    assert (BlockAllocator.covers al x (f b) = BlockAllocator.covers al x b) as -> by (unfold BlockAllocator.covers; by rewrite Hfp, (proj1 (Hf b))).
    destruct (BlockAllocator.covers al x b); cbn [length]; by rewrite IH.
  - rewrite <- Hz, !zsum_app. f_equal. clear Hc Hz. induction l as [|b l IH]; [done|]. cbn [map]. by rewrite !zsum_cons, IH, Hfp.
Qed.

Lemma relabel_inv a (f : Block -> Block) live :
  (forall b, b_offset (f b) = b_offset b /\ b_size (f b) = b_size b) -> sa_inv a live -> sa_inv a (map f live).
Proof.
  intros Hf [Hp Ha]. split.
  - destruct Hp. split; try done; [|by apply relabel_pool]. rewrite Forall_map. eapply Forall_impl; [exact sp_live|]. intros b. cbn. by rewrite (proj2 (Hf b)).
  - rewrite Ha. clear Hp Ha. induction live as [|b l IH]; [done|]. cbn [map]. rewrite !zsum_cons, IH. unfold footprint. by rewrite (proj2 (Hf b)).
Qed.

Lemma FreeBlocks_relabel a worker (f : Block -> Block) bs :
  (forall b, b_offset (f b) = b_offset b /\ b_size (f b) = b_size b) -> FreeBlocks a worker (map f bs) = FreeBlocks a worker bs.
Proof.
  intros Hf. unfold FreeBlocks. f_equal. assert (forall st, fold_left (free_one worker) (map f bs) st = fold_left (free_one worker) bs st) as ->; [|done].
  induction bs as [|b bs IH]; intros st; [done|]. cbn [map fold_left]. rewrite IH. f_equal. destruct st as [n a']. unfold free_one.
  destruct (Hf b) as [-> ->]. done.
Qed.

Definition retype (b : Block) : Block := to_block (block_extent b).

Lemma retype_same b : b_offset (retype b) = b_offset b /\ b_size (retype b) = b_size b.
Proof. done. Qed.

Lemma map_retype bs : map to_block (map block_extent bs) = map retype bs.
Proof. by rewrite map_map. Qed.

Lemma retype_to_block l : map retype (map to_block l) = map to_block l.
Proof. rewrite map_map. apply map_ext. by intros []. Qed.

(** These extents are allocated, and so may be others that were lost track of. *)
Definition mem_dev_ok (m : MemBdevTransport) (l : list extent) : Prop :=
  resolved m /\ md_capacity m = capacity_ (md_allocator m) /\ exists leaked, sa_inv (md_allocator m) (map to_block (l ++ leaked)).

Lemma mem_dev_perm m l l' : l ≡ₚ l' -> mem_dev_ok m l -> mem_dev_ok m l'.
Proof.
  intros Hp (Hr & Hc & leaked & Hi). split_and!; [done|done|]. exists leaked. eapply sa_inv_perm; [|exact Hi].
  apply Permutation_map. by rewrite Hp.
Qed.

Lemma mem_dev_drop m e l : mem_dev_ok m (e :: l) -> mem_dev_ok m l.
Proof.
  intros (Hr & Hc & leaked & Hi). split_and!; [done|done|]. exists (e :: leaked). eapply sa_inv_perm; [|exact Hi].
  apply Permutation_map. cbn. apply Permutation_middle.
Qed.

Lemma cover_count_owned al x bs : Forall (fun b => b_size b <= footprint al b) bs -> owned x (map block_extent bs) <= Z.of_nat (cover_count al x bs).
Proof.
  induction 1 as [|b l Hb _ IH]; [done|]. cbn [map]. rewrite owned_cons. unfold cover_count in *. cbn [List.filter].
  destruct (Extents.covers x (block_extent b)) eqn:E.
  - apply covers_spec in E. cbn in E. rewrite (proj2 (covers_iff al x b)) by lia. cbn [length Z.b2z]. lia.
  - destruct (BlockAllocator.covers al x b); cbn [length Z.b2z]; lia.
Qed.

Lemma mem_dev_apart m l : mem_dev_ok m l ->
  (forall x, owned x l <= 1) /\ Forall (fun e => 0 <= fst e /\ 0 < snd e /\ fst e + snd e <= md_capacity m) l /\ 0 < md_capacity m <= 2 ^ 62.
Proof.
  intros (Hr & Hc & leaked & Hi & _). set (bs := map to_block (l ++ leaked)) in *. set (al := default_alignment (alignment_ (md_allocator m))).
  pose proof (sp_pool _ _ Hi) as Hpool. pose proof (sp_heap _ _ Hi). pose proof (sp_cap _ _ Hi).
  assert (Forall (fun b => 0 < b_size b <= footprint al b) bs) as Hf.
  { eapply Forall_impl; [exact (sp_live _ _ Hi)|]. intros b Hb. cbn in Hb.
    destruct (AlignSize_spec _ _ (b_size b) Hi ltac:(lia)) as (q & _ & Hge & _). change (AlignSize (md_allocator m) (b_size b)) with (footprint al b) in Hge. lia. }
  assert (map block_extent bs = l ++ leaked) as Hex.
  { unfold bs. rewrite map_map. rewrite <- (map_id (l ++ leaked)) at 2. apply map_ext. by intros []. }
  split_and!; [| |lia|lia].
  - intros x. pose proof (cover_count_owned al x bs ltac:(eapply Forall_impl; [exact Hf|]; cbn; lia)) as Ho. rewrite Hex, owned_app in Ho.
    pose proof (owned_nonneg x leaked). destruct Hpool as [Hcov _]. specialize (Hcov x). unfold cover_count in *. rewrite List.filter_app, length_app in Hcov.
    fold al in Hcov. case_decide; lia.
  - apply Forall_forall. intros e He. assert (to_block e ∈ bs) as Hb by (apply list_elem_of_fmap_2, elem_of_app; by left).
    rewrite Forall_forall in Hf. specialize (Hf _ Hb). destruct (pool_range al _ _ (to_block e) Hpool) as [H1 H2]; [apply elem_of_app; by left|lia|].
    cbn in *. lia.
Qed.

(** One block of the device, written and read. *)
Lemma Bdev_Write_ok m off data n m' :
  resolved m -> 0 <= off -> off + Z.of_nat (length data) <= md_capacity m -> md_capacity m <= 2 ^ 62 ->
  Bdev_Write m [mkBlock off (Z.of_nat (length data)) 0] data (Z.of_nat (length data)) = (n, m') ->
  same_mem m m' /\ resolved m' /\ n = Z.of_nat (length data) /\ forall x, mem_byte m' x = overlay (mem_byte m) off data x.
Proof.
  intros Hr Ho He Hcap. unfold Bdev_Write. cbn [WriteBlocksCpu b_size b_offset].
  destruct (Z.eqb_spec (Z.of_nat (length data)) 0) as [Hz|Hz].
  { intros [= <- <-]. split_and!; [done|done|done|]. intros x. rewrite overlay_nth. by rewrite between_false by lia. }
  rewrite Z.min_id, u64_small, (proj2 (Z.ltb_ge _ _)), andb_false_r by lia. intros [= <- <-].
  rewrite Nat2Z.id, firstn_all. destruct (write_pages_ok (page_fuel off (Z.of_nat (length data))) m off data Hr Ho He) as (S1 & R1 & B1).
  - right. apply page_fuel_enough; lia.
  - by split_and!.
Qed.

Lemma Bdev_Read_ok m off size :
  0 <= off -> 0 <= size -> off + size <= md_capacity m -> md_capacity m <= 2 ^ 62 ->
  Bdev_Read m [mkBlock off size 0] size = (size, bytes_at (mem_byte m) off size).
Proof.
  intros Ho Hs He Hcap. unfold Bdev_Read. cbn [ReadBlocksCpu b_size b_offset]. destruct (Z.eqb_spec size 0) as [->|Hz]; [done|].
  rewrite Z.min_id, u64_small, (proj2 (Z.ltb_ge _ _)), andb_false_r by lia. rewrite app_nil_r. f_equal.
  apply read_pages_ok; [lia|lia|]. right. apply page_fuel_enough; lia.
Qed.

Lemma owned_within l cap off n :
  Forall (fun e => 0 <= fst e /\ 0 < snd e /\ fst e + snd e <= cap) l -> 0 < n -> (forall i, 0 <= i < n -> 0 < owned (off + i) l) ->
  0 <= off /\ off + n <= cap.
Proof.
  intros Hf Hn Ho. rewrite Forall_forall in Hf.
  destruct (owned_pos (off + 0) l) as (e & He & Hr); [apply Ho; lia|]. destruct (owned_pos (off + (n - 1)) l) as (e' & He' & Hr'); [apply Ho; lia|].
  pose proof (Hf _ He). pose proof (Hf _ He'). lia.
Qed.

Lemma mem_dev_allocator m a l leaked :
  resolved m -> md_capacity m = capacity_ a -> sa_inv a (map to_block (l ++ leaked)) -> mem_dev_ok (set_allocator m a) l.
Proof. intros Hr Hc Hi. split_and!; [done|done|]. by exists leaked. Qed.

Lemma mem_alloc_ok m l size r m' :
  mem_dev_ok m l -> 0 < size <= 2 ^ 62 -> Bdev_AllocateBlocks m size = (r, m') ->
  mem_dev_ok m' (map block_extent (default [] r) ++ l) /\ forall x, mem_byte m' x = mem_byte m x.
Proof.
  intros (Hr & Hc & leaked & Hi) Hs. unfold Bdev_AllocateBlocks, worker_id. cbn [md_allocator].
  destruct (AllocateBlocks_spec (md_allocator m) _ size (hd 0 (md_workers m)) Hi ltac:(lia)) as ([[ok bs] a] & -> & Hpost).
  destruct ok.
  - intros [= <- <-]. split; [|done]. destruct Hpost as (Hi' & _ & Hcap & _). apply (mem_dev_allocator _ a _ leaked); [exact Hr|cbn; lia|].
    apply (relabel_inv a retype _ retype_same) in Hi'. rewrite map_app, (retype_to_block (l ++ leaked)) in Hi'.
    cbn [default]. by rewrite <- app_assoc, map_app, map_retype.
  - intros [= <- <-]. split; [|done]. destruct Hpost as (_ & Hi' & (_ & Hcap & _) & _). apply (mem_dev_allocator _ a _ leaked); [exact Hr|cbn; lia|done].
Qed.

Lemma mem_free_ok m bs l r m' :
  mem_dev_ok m (map block_extent bs ++ l) -> Bdev_FreeBlocks m bs = (r, m') ->
  mem_dev_ok m' l /\ forall x, mem_byte m' x = mem_byte m x.
Proof.
  intros (Hr & Hc & leaked & Hi). unfold Bdev_FreeBlocks, worker_id. intros [= <- <-]. cbn [md_allocator]. split; [|done].
  rewrite <- app_assoc, map_app, map_retype in Hi.
  destruct (FreeBlocks_spec (md_allocator m) _ (hd 0 (md_workers m)) (map retype bs) Hi) as (Hi' & Hcap & _).
  rewrite (FreeBlocks_relabel _ _ retype bs retype_same) in Hi', Hcap.
  apply (mem_dev_allocator _ _ _ leaked); [exact Hr|cbn; lia|done].
Qed.

Lemma mem_write_ok m l off data n m' :
  mem_dev_ok m l -> (forall i, 0 <= i < Z.of_nat (length data) -> 0 < owned (off + i) l) ->
  dev_write m off data = (n, m') ->
  mem_dev_ok m' l /\ n = Z.of_nat (length data) /\ forall x, mem_byte m' x = overlay (mem_byte m) off data x.
Proof.
  intros Hok Ho E. destruct (mem_dev_apart m l Hok) as (_ & Hf & Hcap). destruct Hok as (Hr & Hc & leaked & Hi).
  destruct data as [|d data].
  { change (dev_write m off []) with (0, m) in E. injection E as <- <-. split; [split_and!; [done|done|by exists leaked]|]. split; [done|]. intros x. by rewrite overlay_nil. }
  destruct (owned_within l (md_capacity m) off (Z.of_nat (length (d :: data))) Hf ltac:(cbn; lia) Ho) as [H1 H2].
  destruct (Bdev_Write_ok m off (d :: data) n m' Hr H1 H2 ltac:(lia) E) as ((Ha & Hc' & _) & R1 & -> & B1).
  split; [split_and!; [done|by rewrite Ha, Hc'|by exists leaked; rewrite Ha]|by split].
Qed.

Lemma mem_read_ok m l off size :
  mem_dev_ok m l -> (forall i, 0 <= i < size -> 0 < owned (off + i) l) -> 0 <= size ->
  dev_read m off size = (size, bytes_at (mem_byte m) off size, m).
Proof.
  intros Hok Ho Hs. destruct (mem_dev_apart m l Hok) as (_ & Hf & Hcap). cbn [dev_read MemBdev_ops].
  destruct (Z.eq_dec size 0) as [->|Hne]; [done|]. destruct (owned_within l (md_capacity m) off size Hf ltac:(lia) Ho) as [H1 H2].
  by rewrite Bdev_Read_ok by lia.
Qed.

(** A device whose pages are in place keeps the promises of [BlockDevice]. *)
#[export, refine] Instance MemBdev_laws : BlockDeviceLaws MemBdevTransport := {
  dev_byte := mem_byte;
  dev_ok := mem_dev_ok
}.
Proof.
  - exact mem_dev_perm.
  - exact mem_dev_drop.
  - intros m l Hok. destruct (mem_dev_apart m l Hok) as (Ho & Hf & Hc). split; [done|].
    eapply Forall_impl; [exact Hf|]. intros e. cbn. lia.
  - intros m l size r m' Hok Hs E. destruct (mem_alloc_ok m l size r m' Hok Hs E) as [Hok' Hb]. split; [done|]. intros x _. apply Hb.
  - intros m bs l r m' Hok E. destruct (mem_free_ok m bs l r m' Hok E) as [Hok' Hb]. split; [done|]. intros x _. apply Hb.
  - intros m l off data n m' Hok Ho E. destruct (mem_write_ok m l off data n m' Hok Ho E) as (Hok' & -> & Hb). split_and!; [done| |].
    + intros x Hx _. rewrite Hb, overlay_nth. by rewrite between_false by lia.
    + intros _. apply list_eq. intros i. unfold bytes_at. rewrite list_lookup_fmap. destruct (decide (i < length data)%nat) as [Hi|Hi].
      * rewrite lookup_seqZ_lt by lia. cbn. rewrite Hb, overlay_nth, between_true by lia.
        replace (Z.to_nat (off + (0 + Z.of_nat i) - off)) with i by lia.
        destruct (lookup_lt_is_Some_2 data i Hi) as [y Hy]. by rewrite Hy, (nth_lookup_Some _ _ _ _ Hy).
      * rewrite lookup_seqZ_ge by lia. symmetry. apply lookup_ge_None_2. lia.
  - intros m l off size n bs m' Hok Ho Hs E. rewrite (mem_read_ok m l off size Hok Ho Hs) in E. injection E as <- <- <-.
    split_and!; [done|done| |done]. unfold bytes_at. rewrite length_map, length_seqZ. lia.
Defined.

(** A new device has its pages in place when the mapping covers it, or when it
    was preallocated. *)
Lemma MemBdev_Init_ok workers capacity alignment shm preallocate heap ws :
  (0 < workers)%nat -> 0 < capacity <= 2 ^ 62 -> 0 <= alignment < 2 ^ 32 ->
  match shm with Some usable => capacity <= usable < 2 ^ 63 | None => preallocate = true end ->
  mem_dev_ok (MemBdev_Init workers capacity alignment shm preallocate heap ws) [].
Proof.
  intros Hw Hc Ha Hs. pose proof page_size_pos as Hps. assert (0 <= mem_align alignment < 2 ^ 32) as Ha'.
  { unfold mem_align. destruct (_ || _); lia. }
  pose proof (Allocator_Init_inv workers capacity (mem_align alignment) Hw Hc Ha') as Hi. unfold MemBdev_Init.
  destruct shm as [usable|]; cbn [option_map].
  - assert (forall b : bool, (if b then PreallocateRamPages (mkMem (Allocator_Init workers capacity (mem_align alignment)) capacity
      (Some (usable, fun _ => Byte.x00)) ∅ heap ws) else mkMem (Allocator_Init workers capacity (mem_align alignment)) capacity
      (Some (usable, fun _ => Byte.x00)) ∅ heap ws) = mkMem (Allocator_Init workers capacity (mem_align alignment)) capacity
      (Some (usable, fun _ => Byte.x00)) ∅ heap ws) as -> by by intros [].
    split_and!; [|done|by exists []]. intros i Hi0 Hcap. left. unfold shm_page. cbn in *. unfold ShmPageInBounds.
    pose proof (Z.div_le_lower_bound usable kRamPageSize i Hps ltac:(lia)). rewrite (proj2 (Z.ltb_ge _ _)) by lia.
    rewrite u64_small by lia. rewrite (proj2 (Z.ltb_lt _ _)) by lia. by eexists.
  - rewrite Hs. unfold PreallocateRamPages. cbn [md_shm md_capacity]. split_and!; [|done|by exists []].
    intros i Hi0 Hcap. right. cbn [set_pages md_pages md_capacity] in *. exists (fun _ => Byte.x00). apply elem_of_list_to_map_1.
    + rewrite <- list_fmap_compose. rewrite (list_fmap_ext _ id) by done. rewrite list_fmap_id. apply NoDup_seqZ.
    + apply list_elem_of_fmap. exists i. split; [done|]. apply elem_of_seqZ. rewrite u64_small by (unfold kRamPageSize in *; lia).
      pose proof (Z.div_le_lower_bound (capacity + kRamPageSize - 1) kRamPageSize (i + 1) Hps ltac:(lia)). lia.
Qed.
