(* ===== verification/BlobRefine.v ===== *)
(** The CTE's blob store as a map from keys to byte strings: every history of
    requests, whatever is placed where and whatever fails, follows [spec_step].
    Below, one such store over memory-backed devices. *)
From Stdlib Require Import ZArith Lia.
From coqutil Require Import Byte.
From stdpp Require Import base list gmap.
From S2P Require Import Prelude Extents BlockAllocator TxnLog Text BlobMeta BlobDevice BlobStore BlobBlocks BlobSafety BlobPut BlobCopies BlobStep BlobMove MemBdev.

Open Scope Z_scope.

(** * Requests *)

Inductive request :=
| RPut (t : PutBlobTask)
| RMultiPut (ts : list PutBlobTask)
| RGet (g : GetBlobTask)
| RTruncate (tag : TagId) (name : str) (new_size : Z)
| RDel (tag : TagId) (name : str)
| RReorganize (tag : TagId) (name : str) (replica score : Z)
| RReclaim (tag : TagId) (name : str).

(** What the store relies on: ranges that exist and buffers as long as they say. *)
Definition request_ok (r : request) : Prop :=
  match r with
  | RPut t => put_request_ok t
  | RMultiPut ts => Forall put_request_ok ts
  | RGet g => get_request_ok g
  | RTruncate _ _ n => 0 <= n <= 2 ^ 62
  | RDel _ _ | RReorganize _ _ _ _ | RReclaim _ _ => True
  end.

(** The return code, the buffers of a read, the puts of a batch that succeeded. *)
Record reply := mkReply { rp_rc : Z; rp_bufs : list (list u8); rp_ok : Z }.

(** * The specification *)

Abbreviation store_map := (gmap str (list u8)).

(** A put with selector 0, and one that writes through, is for the primary. *)
Definition to_primary (t : PutBlobTask) : bool :=
  negb ((cx_replica (pt_context t) =? kCacheReplica) || (0 <? cx_replica (pt_context t))).

Definition spec_put (t : PutBlobTask) (m : store_map) (rc : Z) (m' : store_map) : Prop :=
  rc <> 0 /\ m' = m \/
  exists off size c', put_range t = inr (off, size) /\ 0 < size /\ m' = <[put_key t := c']> m /\
    let c := default [] (m !! put_key t) in
    if to_primary t then copy_put (replaces t) (rc =? 0) off size (put_segments t) c c' else c' = c.

(** A batch goes on after a put that failed; the first error is returned. *)
Inductive spec_puts : list PutBlobTask -> store_map -> Z -> Z -> Z -> Z -> store_map -> Prop :=
| spec_puts_nil m ok rc : spec_puts [] m ok rc ok rc m
| spec_puts_cons t ts m rc1 m1 ok rc ok' rc' m' :
    spec_put t m rc1 m1 ->
    spec_puts ts m1 (if rc1 =? 0 then ok + 1 else ok) (if (rc1 =? 0) || negb (rc =? 0) then rc else rc1) ok' rc' m' ->
    spec_puts (t :: ts) m ok rc ok' rc' m'.

Definition spec_step (r : request) (m : store_map) (p : reply) (m' : store_map) : Prop :=
  match r with
  | RPut t => spec_put t m (rp_rc p) m'
  | RMultiPut ts => spec_puts ts m 0 0 (rp_ok p) (rp_rc p) m'
  | RGet g =>
      m' = m /\
      (rp_rc p = 0 -> gt_replica g = 0 -> exists c, m !! get_key g = Some c /\ filled c (get_segments g) (rp_bufs p))
  | RTruncate tag name n =>
      let key := composite_key tag name in
      match name, m !! key with
      | _ :: _, Some c =>
          exists c', m' = <[key := c']> m /\
            if rp_rc p =? 0 then c' = resized n c else len c <= n /\ exists e, c' = c ++ e /\ len c' <= n
      | _, _ => m' = m
      end
  | RDel tag name =>
      let key := composite_key tag name in
      rp_rc p <> 0 /\ m' = m \/ rp_rc p = 0 /\ is_Some (m !! key) /\ m' = delete key m
  | RReorganize tag name replica _ =>
      let key := composite_key tag name in
      m' = m \/ replica = 0 /\ (rp_rc p = 0 \/ rp_rc p = 7) /\ is_Some (m !! key) /\ m' = <[key := []]> m
  | RReclaim _ _ => m' = m
  end.

Inductive spec_run : list request -> store_map -> list reply -> store_map -> Prop :=
| spec_run_nil m : spec_run [] m [] m
| spec_run_cons r rs m p m1 ps m' : spec_step r m p m1 -> spec_run rs m1 ps m' -> spec_run (r :: rs) m (p :: ps) m'.

(** * The store *)

Section Store.
Context {D P I : Type} `{BlockDeviceLaws D} `{Dpe P} `{BufferPool I}.
Implicit Types (st : Runtime D P I) (b : BlobInfo).

Abbreviation blobs st := (mt_blobs (rt_meta st)).

Definition handle st (r : request) : reply * Runtime D P I :=
  match r with
  | RPut t => let '(rc, st) := PutBlob st t in (mkReply rc [] 0, st)
  | RMultiPut ts => let '(ok, rc, st) := MultiPutBlob st ts 0 0 in (mkReply rc [] ok, st)
  | RGet g => let '(rc, bufs, _, st) := GetBlob st g in (mkReply rc bufs 0, st)
  | RTruncate tag name n => let '(rc, st) := TruncateBlob st tag name n in (mkReply rc [] 0, st)
  | RDel tag name => let '(rc, st) := DelBlob st tag name in (mkReply rc [] 0, st)
  | RReorganize tag name replica score => let '(rc, st) := ReorganizeBlob st tag name replica score in (mkReply rc [] 0, st)
  | RReclaim tag name => let '(freed, rc, st) := ReclaimCacheReplica st tag name in (mkReply rc [] freed, st)
  end.

Fixpoint run st (rs : list request) : list reply * Runtime D P I :=
  match rs with
  | [] => ([], st)
  | r :: rs => let '(p, st) := handle st r in let '(ps, st) := run st rs in (p :: ps, st)
  end.

(** What a read of the primary returns, blob by blob. *)
Definition contents st : store_map := (fun b => content (rt_devs st) (bi_blocks b)) <$> blobs st.

Lemma contents_reads st : contents st = hd [] <$> reads st.
Proof. unfold contents, reads. by rewrite <- map_fmap_compose. Qed.

Lemma contents_insert st st' k v : reads st' = <[k := v]> (reads st) -> contents st' = <[k := hd [] v]> (contents st).
Proof. intros E. by rewrite !contents_reads, E, fmap_insert. Qed.

Lemma contents_same st st' : reads st' = reads st -> contents st' = contents st.
Proof. intros E. by rewrite !contents_reads, E. Qed.

Lemma contents_lookup st k : contents st !! k = hd [] <$> reads st !! k.
Proof. by rewrite contents_reads, lookup_fmap. Qed.

Lemma reads_nonempty st k v : reads st !! k = Some v -> exists c vs, v = c :: vs.
Proof. unfold reads. rewrite lookup_fmap. destruct (blobs st !! k); [|done]. cbn. intros [= <-]. by eexists _, _. Qed.

(** The slots other than the primary do not show. *)
Lemma contents_slot st st' k i v c :
  reads st !! k = Some v -> reads st' = <[k := <[S i := c]> v]> (reads st) -> contents st' = contents st.
Proof.
  intros Hv E. rewrite (contents_insert _ _ _ _ E). destruct (reads_nonempty _ _ _ Hv) as (c0 & vs & ->). cbn.
  apply insert_id. by rewrite contents_lookup, Hv.
Qed.

Lemma put_slot_primary st t : (0 <? put_slot st t) = negb (to_primary t).
Proof.
  unfold put_slot, to_primary. rewrite negb_involutive.
  destruct (put_replica_target _ (pt_context t)) as [rc|[rs i]] eqn:E.
  - unfold put_replica_target in E. by destruct (_ || _).
  - destruct (put_replica_target_ok _ _ _ _ E) as (_ & Hi & Hiff). unfold kCacheReplica in *.
    destruct (Z.ltb_spec 0 i); symmetry; [apply orb_true_iff|apply orb_false_iff]; lia.
Qed.

Lemma put_effect_primary t idx off size ok n v v' :
  (length v <= length v')%nat -> (1 <= length v)%nat -> put_effect t idx off size ok (pad n v) v' ->
  if 0 <? idx then hd [] v' = hd [] v else copy_put (replaces t) ok off size (put_segments t) (hd [] v) (hd [] v').
Proof.
  intros Hl Hv [_ He]. destruct v as [|c v]; [cbn in Hv; lia|]. destruct v' as [|c' v']; [cbn in *; lia|].
  specialize (He 0%nat c c' eq_refl eq_refl). unfold touched in He. change (Z.of_nat 0) with 0 in He. destruct (Z.ltb_spec 0 idx) as [Hi|Hi].
  - rewrite (proj2 (Z.eqb_neq 0 idx)) in He by lia. done.
  - cbn in He. by rewrite andb_true_r in He.
Qed.

Lemma put_refines st t rc st' :
  store_ok st -> put_request_ok t -> PutBlob st t = (rc, st') -> store_ok st' /\ spec_put t (contents st) rc (contents st').
Proof.
  intros Hok Hr E. destruct (PutBlob_ok st t rc st' Hok Hr E) as [Hok' Hout]. split; [done|].
  destruct Hout as [[Hrc Hsame]|(off & size & v' & Hrange & Hsz & Hm & Hl & He)]; [left; split; [done|by apply contents_same]|right].
  exists off, size, (hd [] v'). split_and!; [done|done|by apply contents_insert|].
  assert (default [] (contents st !! put_key t) = hd [] (default [[]] (reads st !! put_key t))) as ->.
  { rewrite contents_lookup. by destruct (reads st !! put_key t). }
  assert (1 <= length (default [[]] (reads st !! put_key t)))%nat as Hv.
  { destruct (reads st !! put_key t) as [v|] eqn:Ev; [|done]. destruct (reads_nonempty _ _ _ Ev) as (c & vs & ->). cbn. lia. }
  pose proof (put_effect_primary t _ off size _ _ _ _ Hl Hv He) as Hp. rewrite put_slot_primary in Hp. by destruct (to_primary t).
Qed.

Lemma puts_refine ts : forall st ok rc ok' rc' st',
  store_ok st -> Forall put_request_ok ts -> MultiPutBlob st ts ok rc = (ok', rc', st') ->
  store_ok st' /\ spec_puts ts (contents st) ok rc ok' rc' (contents st').
Proof.
  induction ts as [|t ts IH]; intros st ok rc ok' rc' st' Hok Hf; cbn [MultiPutBlob].
  { intros [= <- <- <-]. split; [done|constructor]. }
  inversion Hf as [|? ? Ht Hf']; subst. destruct (PutBlob st t) as [rc1 st1] eqn:E.
  destruct (put_refines st t rc1 st1 Hok Ht E) as [Hok1 Hs1]. destruct (Z.eqb_spec rc1 0) as [->|Hne]; intros E2.
  - destruct (IH _ _ _ _ _ _ Hok1 Hf' E2) as [Hok2 Hs2]. split; [done|]. by econstructor.
  - destruct (IH _ _ _ _ _ _ Hok1 Hf' E2) as [Hok2 Hs2]. split; [done|]. econstructor; [exact Hs1|].
    rewrite (proj2 (Z.eqb_neq rc1 0)) by done. cbn [orb]. by destruct (rc =? 0).
Qed.

Lemma handle_refines st r p st' :
  store_ok st -> request_ok r -> handle st r = (p, st') -> store_ok st' /\ spec_step r (contents st) p (contents st').
Proof.
  intros Hok Hr. destruct r as [t|ts|g|tag name n|tag name|tag name replica score|tag name]; cbn [handle request_ok spec_step] in *.
  - destruct (PutBlob st t) as [rc st1] eqn:E. intros [= <- <-]. by apply put_refines.
  - destruct (MultiPutBlob st ts 0 0) as [[ok rc] st1] eqn:E. intros [= <- <-]. by eapply puts_refine.
  - destruct (GetBlob st g) as [[[rc bufs] tr] st1] eqn:E. intros [= <- <-].
    destruct (GetBlob_ok st g rc bufs tr st1 Hok Hr E) as (Hok1 & Hr1 & _ & Hget). split; [done|]. split; [by apply contents_same|].
    cbn [rp_rc rp_bufs]. intros Hrc Hsel. destruct (Hget Hrc) as (b & k & v & c & Hb & Hk & Hv & Hc & Hf).
    unfold read_slot in Hk. rewrite Hsel in Hk. injection Hk as <-. exists c. split; [|done].
    rewrite contents_lookup, Hv. destruct (reads_nonempty _ _ _ Hv) as (c0 & vs & ->). cbn in *. congruence.
  - destruct (TruncateBlob st tag name n) as [rc st1] eqn:E. intros [= <- <-].
    destruct (TruncateBlob_ok st tag name n rc st1 Hok Hr E) as [Hok1 Ht]. split; [done|].
    destruct name as [|x name]; [by injection E as <- <-|]. rewrite contents_lookup.
    destruct (reads st !! composite_key tag (x :: name)) as [v|] eqn:Ev; cbn [fmap option_fmap option_map]; [|by rewrite Ht].
    destruct (Ht ltac:(done)) as (v' & Hr1 & c & c' & vs & -> & -> & Hres). exists c'. cbn. split; [|done].
    exact (contents_insert _ _ _ _ Hr1).
  - destruct (DelBlob st tag name) as [rc st1] eqn:E. intros [= <- <-]. destruct (DelBlob_ok st tag name rc st1 Hok E) as [Hok1 [[Hrc ->]|(-> & Hs & Hr1)]].
    + split; [done|by left].
    + split; [done|]. right. split; [done|]. split; [rewrite contents_lookup; destruct Hs as [v ->]; by eexists|].
      by rewrite !contents_reads, Hr1, fmap_delete.
  - destruct (ReorganizeBlob st tag name replica score) as [rc st1] eqn:E. intros [= <- <-]. unfold ReorganizeBlob in E. cbn [rp_rc].
    destruct (Z.ltb_spec 0 replica).
    + destruct (ReorganizeReplicaInternal_ok st tag name replica score rc st1 Hok E) as [Hok1 [Hr1|(b & i & Hb & _ & Hr1 & _)]];
        (split; [done|]; left); [by apply contents_same|]. eapply contents_slot; [by apply reads_at|exact Hr1].
    + destruct (Z.ltb_spec replica 0); [injection E as <- <-; split; [done|by left]|].
      destruct (ReorganizeBlobInternal_ok st tag name score rc st1 Hok E) as [Hok1 [Hr1|(b & Hb & Hr1 & Hrc)]]; (split; [done|]);
        [left; by apply contents_same|right]. split; [lia|]. split; [tauto|]. split; [rewrite contents_lookup, (reads_at _ _ _ Hb); by eexists|].
      exact (contents_insert _ _ _ _ Hr1).
  - destruct (ReclaimCacheReplica st tag name) as [[freed rc] st1] eqn:E. intros [= <- <-].
    destruct (ReclaimCacheReplica_ok st tag name freed rc st1 Hok E) as [Hok1 [Hr1|(b & i & r & Hb & _ & _ & _ & Hr1)]];
      (split; [done|]); [by apply contents_same|]. eapply contents_slot; [by apply reads_at|exact Hr1].
Qed.

Lemma run_refines rs : forall st ps st',
  store_ok st -> Forall request_ok rs -> run st rs = (ps, st') -> store_ok st' /\ spec_run rs (contents st) ps (contents st').
Proof.
  induction rs as [|r rs IH]; intros st ps st' Hok Hf; cbn [run].
  { intros [= <- <-]. split; [done|constructor]. }
  inversion Hf as [|? ? Hr Hf']; subst. destruct (handle st r) as [p st1] eqn:E1. destruct (run st1 rs) as [ps1 st2] eqn:E2. intros [= <- <-].
  destruct (handle_refines st r p st1 Hok Hr E1) as [Hok1 Hs1]. destruct (IH _ _ _ Hok1 Hf' E2) as [Hok2 Hs2].
  split; [done|]. by econstructor.
Qed.

(** A store that holds no blob yet. *)
Definition fresh st : Prop :=
  blobs st = ∅ /\ (forall p d, rt_devs st !! p = Some d -> dev_ok d []) /\ targets_ok st.

Lemma fresh_ok st : fresh st -> store_ok st /\ contents st = ∅.
Proof.
  intros (Hb & Hd & Ht). split; [|unfold contents; by rewrite Hb].
  split; rewrite ?Hb; [|done|apply map_Forall_empty]. unfold all_blocks. rewrite map_to_list_empty.
  split; [constructor|]. intros p d Hp. exact (Hd p d Hp).
Qed.
End Store.
