(* ===== verification/Placement.v ===== *)
(** The placement engines of the CTE ([cte/src/dpe/], [dpe.h]) as instances of
    [Dpe]: which targets they offer for a request and in which order, and what
    that order means for [ExtendBlob].

    [std::shuffle] is an argument, a permutation drawn per call; [std::sort] is a
    merge sort, one of the orders it may give equal elements. *)
From Stdlib Require Import ZArith Lia Floats.SpecFloat.
From Stdlib Require Strings.String.
Import String.StringSyntax.
From stdpp Require Import base list sorting gmap.
From S2P Require Import Prelude Text BlobMeta BlobDevice BlobStore.

Open Scope Z_scope.

(** * Doubles *)

Definition f64_of_bits (s : Z) : spec_float :=
  let sign := 2 ^ 63 <=? s in
  let e := Z.land (Z.shiftr s 52) 2047 in
  let m := Z.land s (2 ^ 52 - 1) in
  if e =? 2047 then if m =? 0 then S754_infinity sign else S754_nan
  else if e =? 0 then match m with Zpos p => S754_finite sign p (-1074) | _ => S754_zero sign end
  else S754_finite sign (Z.to_pos (m + 2 ^ 52)) (e - 1075).

Definition f32_le (a b : Z) : bool := SFleb (f32_of_bits a) (f32_of_bits b).

(** * The engines *)

Inductive DpeType := kRandom | kRoundRobin | kMaxBW.

Definition StringToDpeType (s : str) : DpeType :=
  if bool_decide (s = lit "random") then kRandom
  else if bool_decide (s = lit "round_robin") || bool_decide (s = lit "roundrobin") then kRoundRobin
  else if bool_decide (s = lit "max_bw") || bool_decide (s = lit "maxbw") then kMaxBW
  else kRandom.
Definition DpeTypeToString (t : DpeType) : str :=
  match t with kRandom => lit "random" | kRoundRobin => lit "round_robin" | kMaxBW => lit "max_bw" end.

(** The targets with room, the preferred ones (no better than the blob deserves)
    apart from the others. *)
Definition has_room (data_size : Z) (t : TargetInfo) : bool := data_size <=? tg_remaining t.
Definition preferred (blob_score : Z) (t : TargetInfo) : bool := f32_le (tg_score t) blob_score.
Definition low_score_targets (targets : list TargetInfo) (blob_score data_size : Z) : list TargetInfo :=
  List.filter (preferred blob_score) (List.filter (has_room data_size) targets).
Definition high_score_targets (targets : list TargetInfo) (blob_score data_size : Z) : list TargetInfo :=
  List.filter (fun t => negb (preferred blob_score t)) (List.filter (has_room data_size) targets).

(** ** Random *)

Record RandomDpe := mkRandom { rng_ : list (list TargetInfo -> list TargetInfo) }.
Definition shuffle (r : RandomDpe) (l : list TargetInfo) : list TargetInfo * RandomDpe :=
  match rng_ r with f :: rng => (f l, mkRandom rng) | [] => (l, r) end.

#[export] Instance RandomDpe_engine : Dpe RandomDpe := {
  SelectTargets r targets blob_score data_size :=
    match targets with
    | [] => ([], r)
    | _ =>
        let '(low, r) := shuffle r (low_score_targets targets blob_score data_size) in
        let '(high, r) := shuffle r (high_score_targets targets blob_score data_size) in
        (low ++ high, r)
    end
}.

(** ** Round robin *)

(** [round_robin_counter_], shared by all engines of the process. *)
Record RoundRobinDpe := mkRoundRobin { round_robin_counter_ : Z }.

Definition rotate_by (counter : Z) (l : list TargetInfo) : list TargetInfo :=
  let shift := Z.to_nat (counter mod Z.of_nat (length l)) in drop shift l ++ take shift l.

#[export] Instance RoundRobinDpe_engine : Dpe RoundRobinDpe := {
  SelectTargets r targets blob_score data_size :=
    match targets with
    | [] => ([], r)
    | _ =>
        let counter := round_robin_counter_ r in
        (rotate_by counter (low_score_targets targets blob_score data_size)
           ++ rotate_by counter (high_score_targets targets blob_score data_size),
         mkRoundRobin (u32 (counter + 1)))
    end
}.

(** ** Maximal bandwidth *)

Record MaxBwDpe := mkMaxBw {}.

Definition kLatencyThreshold : Z := 32 * 1024.

Definition avg_latency (t : TargetInfo) : spec_float :=
  SFdiv 53 1024 (SFadd 53 1024 (f64_of_bits (tg_read_latency t)) (f64_of_bits (tg_write_latency t))) (S754_finite false 2 0).

(** [a] before [b] *)
Definition perf_comparator (data_size : Z) (a b : TargetInfo) : bool :=
  if kLatencyThreshold <=? data_size
  then SFltb (f64_of_bits (tg_write_bandwidth b)) (f64_of_bits (tg_write_bandwidth a))
  else SFltb (avg_latency a) (avg_latency b).

(** [std::sort] by a strict order: no element comes after one it is to precede. *)
Definition not_after (cmp : TargetInfo -> TargetInfo -> bool) (a b : TargetInfo) : Prop := cmp b a = false.
#[export] Instance not_after_dec cmp : RelDecision (not_after cmp).
Proof. intros a b. unfold not_after. apply _. Defined.
Definition sort_targets (cmp : TargetInfo -> TargetInfo -> bool) (l : list TargetInfo) : list TargetInfo := merge_sort (not_after cmp) l.

#[export] Instance MaxBwDpe_engine : Dpe MaxBwDpe := {
  SelectTargets d targets blob_score data_size :=
    (sort_targets (perf_comparator data_size) (low_score_targets targets blob_score data_size)
       ++ sort_targets (fun a b => perf_comparator data_size b a) (high_score_targets targets blob_score data_size), d)
}.

(** * What they share *)

Lemma split_targets targets blob_score data_size :
  low_score_targets targets blob_score data_size ++ high_score_targets targets blob_score data_size ≡ₚ List.filter (has_room data_size) targets.
Proof.
  unfold low_score_targets, high_score_targets. induction (List.filter (has_room data_size) targets) as [|t l IH]; [done|]. cbn [List.filter].
  destruct (preferred blob_score t); cbn [negb app]; [by rewrite IH|]. rewrite <- Permutation_middle. by rewrite IH.
Qed.

Lemma rotate_by_Permutation c l : rotate_by c l ≡ₚ l.
Proof. unfold rotate_by. rewrite Permutation_app_comm. by rewrite take_drop. Qed.

Lemma low_preferred targets s n : Forall (fun t => preferred s t = true) (low_score_targets targets s n).
Proof. apply Forall_forall. intros t Ht. apply list_elem_of_In, filter_In in Ht. tauto. Qed.

Lemma high_not_preferred targets s n : Forall (fun t => preferred s t = false) (high_score_targets targets s n).
Proof. apply Forall_forall. intros t Ht. apply list_elem_of_In, filter_In in Ht as [_ Ht]. by apply negb_true_iff. Qed.

(** An engine that offers exactly the targets with room for all of the data, the
    preferred ones first. *)
Class DpeSound (P : Type) `{Dpe P} := {
  dpe_ok : P -> Prop;
  SelectTargets_sound p targets s n ordered p' :
    dpe_ok p -> SelectTargets p targets s n = (ordered, p') ->
    dpe_ok p' /\ exists low high, ordered = low ++ high /\
      low ≡ₚ low_score_targets targets s n /\ high ≡ₚ high_score_targets targets s n
}.

#[export, refine] Instance RandomDpe_sound : DpeSound RandomDpe := { dpe_ok r := Forall (fun f => forall l, f l ≡ₚ l) (rng_ r) }.
Proof.
  intros r targets s n ordered r' Hr. cbn [SelectTargets RandomDpe_engine].
  destruct targets as [|t targets]; [intros [= <- <-]; split; [done|]; by exists [], []|].
  assert (forall r l l' r', Forall (fun f => forall l, f l ≡ₚ l) (rng_ r) -> shuffle r l = (l', r') ->
    Forall (fun f => forall l, f l ≡ₚ l) (rng_ r') /\ l' ≡ₚ l) as Hsh.
  { intros q l l' q' Hq. unfold shuffle. destruct (rng_ q) as [|f rng] eqn:E; intros [= <- <-]; [by rewrite E|].
    inversion Hq as [|? ? Hf Hq']; subst. split; [done|apply Hf]. }
  destruct (shuffle r _) as [low r1] eqn:E1. destruct (shuffle r1 _) as [high r2] eqn:E2. intros [= <- <-].
  destruct (Hsh _ _ _ _ Hr E1) as [Hr1 P1]. destruct (Hsh _ _ _ _ Hr1 E2) as [Hr2 P2]. split; [done|]. by exists low, high.
Defined.

#[export, refine] Instance RoundRobinDpe_sound : DpeSound RoundRobinDpe := { dpe_ok _ := True }.
Proof.
  intros r targets s n ordered r' _. cbn [SelectTargets RoundRobinDpe_engine].
  destruct targets as [|t targets]; [intros [= <- <-]; split; [done|]; by exists [], []|].
  intros [= <- <-]. split; [done|]. eexists _, _. split; [done|]. split; apply rotate_by_Permutation.
Defined.

#[export, refine] Instance MaxBwDpe_sound : DpeSound MaxBwDpe := { dpe_ok _ := True }.
Proof.
  intros d targets s n ordered d' _. cbn [SelectTargets MaxBwDpe_engine]. intros E. apply (f_equal fst) in E. cbn [fst] in E. subst ordered. split; [done|]. eexists _, _. split; [done|]. split; apply merge_sort_Permutation.
Defined.

(** * Orders *)

Lemma SFcompare_antisym a b : SFcompare b a = option_map CompOpp (SFcompare a b).
Proof.
  destruct a as [s|s| |s m e], b as [s'|s'| |s' m' e']; cbn [SFcompare option_map]; try reflexivity;
    try (destruct s; reflexivity); try (destruct s'; reflexivity); try (destruct s, s'; reflexivity).
  destruct s, s'; try reflexivity; rewrite (Z.compare_antisym e e'); destruct (Z.compare e e'); cbn [CompOpp option_map]; try reflexivity;
    rewrite (Pos.compare_cont_antisym m m' Eq); cbn [CompOpp]; destruct (Pos.compare_cont Eq m m'); reflexivity.
Qed.

Lemma SFltb_asym a b : SFltb a b = true -> SFltb b a = false.
Proof. unfold SFltb. rewrite (SFcompare_antisym a b). by destruct (SFcompare a b) as [[]|]. Qed.

Lemma perf_comparator_total n : forall a b, not_after (perf_comparator n) a b \/ not_after (perf_comparator n) b a.
Proof.
  intros a b. unfold not_after, perf_comparator. destruct (kLatencyThreshold <=? n).
  - destruct (SFltb (f64_of_bits (tg_write_bandwidth a)) (f64_of_bits (tg_write_bandwidth b))) eqn:E; [right; by apply SFltb_asym|by left].
  - destruct (SFltb (avg_latency b) (avg_latency a)) eqn:E; [right; by apply SFltb_asym|by left].
Qed.

Lemma sort_targets_sorted cmp l :
  (forall a b, not_after cmp a b \/ not_after cmp b a) -> Sorted (not_after cmp) (sort_targets cmp l).
Proof. intros Ht. apply Sorted_merge_sort. exact Ht. Qed.

Lemma lookup_rotate c (l : list TargetInfo) j :
  0 <= c -> (j < length l)%nat -> rotate_by c l !! j = l !! Z.to_nat ((c + Z.of_nat j) mod Z.of_nat (length l)).
Proof.
  intros Hc Hj. unfold rotate_by. set (k := Z.of_nat (length l)). assert (0 < k) as Hk by lia.
  pose proof (Z.mod_pos_bound c k Hk) as Hm. set (s := c mod k) in *.
  assert ((c + Z.of_nat j) mod k = (s + Z.of_nat j) mod k) as -> by (unfold s; by rewrite Z.add_mod_idemp_l by lia).
  destruct (Z.lt_ge_cases (s + Z.of_nat j) k) as [Hlt|Hge].
  - rewrite Z.mod_small by lia. rewrite lookup_app_l by (rewrite length_drop; lia). rewrite lookup_drop. f_equal. lia.
  - assert ((s + Z.of_nat j) mod k = s + Z.of_nat j - k) as -> by (symmetry; apply (Z.mod_unique_pos _ _ 1); lia).
    rewrite lookup_app_r by (rewrite length_drop; lia). rewrite length_drop, lookup_take_lt by lia. f_equal. lia.
Qed.

(** * Properties *)

(** Each engine offers exactly the targets that have room for the whole
    request, in an order of its own but with every target no better than the
    blob's score before every other: shuffled, rotated, or, for the
    bandwidth engine, sorted so that within the preferred group no target comes
    after one that performs worse. *)
Theorem engines_offer_targets_with_room (r : RandomDpe) (q : RoundRobinDpe) (w : MaxBwDpe) (targets : list TargetInfo) (score n : Z) :
  Forall (fun f => forall l, f l ≡ₚ l) (rng_ r) ->
  Forall (fun ordered => ordered ≡ₚ List.filter (has_room n) targets /\
      exists low high, ordered = low ++ high /\ Forall (fun t => preferred score t = true) low /\ Forall (fun t => preferred score t = false) high)
    [fst (SelectTargets r targets score n); fst (SelectTargets q targets score n); fst (SelectTargets w targets score n)] /\
  exists low high, fst (SelectTargets w targets score n) = low ++ high /\
    Sorted (not_after (perf_comparator n)) low /\ low ≡ₚ low_score_targets targets score n.
Proof.
  intros Hr.
  assert (forall (P : Type) (D : Dpe P) (S : DpeSound P) (p : P), dpe_ok p ->
    fst (SelectTargets p targets score n) ≡ₚ List.filter (has_room n) targets /\
    exists low high, fst (SelectTargets p targets score n) = low ++ high /\ Forall (fun t => preferred score t = true) low /\
      Forall (fun t => preferred score t = false) high) as Hall.
  { intros P D S p Hp. destruct (SelectTargets p targets score n) as [ordered p'] eqn:E.
    destruct (SelectTargets_sound p targets score n ordered p' Hp E) as (_ & low & high & -> & P1 & P2). cbn [fst]. split.
    - rewrite P1, P2. apply split_targets.
    - exists low, high. split; [done|]. rewrite P1, P2. split; [apply low_preferred|apply high_not_preferred]. }
  split; [constructor; [by apply (Hall _ _ _ r)|constructor; [by apply (Hall _ _ _ q)|constructor; [by apply (Hall _ _ _ w)|constructor]]]|]. eexists _, _. split; [reflexivity|]. split; [apply sort_targets_sorted, perf_comparator_total|].
  apply merge_sort_Permutation.
Qed.

Definition example_target (pool remaining score bandwidth : Z) : TargetInfo :=
  mkTarget (pool, 0) [] score remaining 100 0 bandwidth 0 0.
Definition example_targets : list TargetInfo :=
  [example_target 1 60 0 4607182418800017408; example_target 2 70 0 4611686018427387904; example_target 3 5 0 0].

Lemma engines_offer_targets_with_room_witness :
  let r := mkRandom [fun l => l; fun l => l] in
  Forall (fun f => forall l, f l ≡ₚ l) (rng_ r) /\
  fst (SelectTargets r example_targets float_one 10) ≡ₚ List.filter (has_room 10) example_targets.
Proof.
  intros r. assert (Forall (fun f => forall l, f l ≡ₚ l) (rng_ r)) as Hr by (do 2 (constructor; [intros l; reflexivity|]); constructor).
  split; [exact Hr|].
  destruct (engines_offer_targets_with_room r (mkRoundRobin 0) mkMaxBw example_targets float_one 10 Hr) as [Hf _].
  rewrite Forall_cons in Hf. exact (proj1 (proj1 Hf)).
Defined.

(** [n] consecutive calls with the same targets: what each puts first. *)
Fixpoint first_choices (n : nat) (q : RoundRobinDpe) (targets : list TargetInfo) (score size : Z) : list (option TargetInfo) :=
  match n with
  | O => []
  | S n => let '(ordered, q) := SelectTargets q targets score size in head ordered :: first_choices n q targets score size
  end.

Lemma first_choices_nth n q targets score size :
  0 <= round_robin_counter_ q -> round_robin_counter_ q + Z.of_nat n < 2 ^ 32 -> low_score_targets targets score size <> [] ->
  first_choices n q targets score size = map (fun j => rotate_by (round_robin_counter_ q + Z.of_nat j) (low_score_targets targets score size) !! 0%nat) (seq 0 n).
Proof.
  revert q. induction n as [|n IH]; intros q H0 Hc Hl; [done|]. cbn [first_choices]. set (low := low_score_targets targets score size) in *.
  assert (targets <> []) as Ht by (intros ->; by apply Hl).
  destruct (SelectTargets q targets score size) as [ordered q'] eqn:E. cbn [SelectTargets RoundRobinDpe_engine] in E.
  destruct targets as [|t targets']; [done|]. injection E as <- <-. fold low. cbn [seq map].
  rewrite IH; cbn [round_robin_counter_]; rewrite ?(u32_small (round_robin_counter_ q + 1)) by lia; [|lia|lia|done].
  f_equal.
  - replace (round_robin_counter_ q + Z.of_nat 0) with (round_robin_counter_ q) by lia.
    pose proof (Permutation_length (rotate_by_Permutation (round_robin_counter_ q) low)) as Hlen.
    destruct (rotate_by (round_robin_counter_ q) low) as [|x l]; [destruct low; [done|cbn in Hlen; lia]|done].
  - rewrite <- (seq_shift n 0), map_map. apply map_ext. intros j. do 2 f_equal. lia.
Qed.

(** The round-robin engine is fair: as many consecutive requests as there are
    preferred targets with room put each of them first exactly once. *)
Theorem round_robin_fair (q : RoundRobinDpe) (targets : list TargetInfo) (score size : Z) :
  let low := low_score_targets targets score size in
  low <> [] -> 0 <= round_robin_counter_ q -> round_robin_counter_ q + Z.of_nat (length low) < 2 ^ 32 ->
  first_choices (length low) q targets score size ≡ₚ Some <$> low.
Proof.
  intros low Hl H0 Hc. rewrite first_choices_nth by done. fold low.
  assert (map (fun j => rotate_by (round_robin_counter_ q + Z.of_nat j) low !! 0%nat) (seq 0 (length low)) = Some <$> rotate_by (round_robin_counter_ q) low) as ->.
  { apply list_eq. intros j. rewrite list_lookup_fmap. pose proof (Permutation_length (rotate_by_Permutation (round_robin_counter_ q) low)) as Hlen.
    destruct (decide (j < length low)%nat) as [Hj|Hj].
    - rewrite lookup_seq_lt by lia. cbn [fmap option_fmap option_map]. rewrite list_lookup_fmap. rewrite Nat.add_0_l, lookup_rotate by (destruct low; [done|cbn; lia] || lia).
      rewrite Z.add_0_r, <- lookup_rotate by lia.
      destruct (lookup_lt_is_Some_2 (rotate_by (round_robin_counter_ q) low) j ltac:(lia)) as [x Hx]. by rewrite Hx.
    - rewrite lookup_seq_ge by lia. rewrite list_lookup_fmap, lookup_ge_None_2 by lia. done. }
  apply fmap_Permutation, rotate_by_Permutation.
Qed.

Lemma round_robin_fair_witness :
  first_choices 2 (mkRoundRobin 7) example_targets float_one 10 ≡ₚ Some <$> low_score_targets example_targets float_one 10.
Proof. apply (round_robin_fair (mkRoundRobin 7) example_targets float_one 10); [discriminate|cbn; lia|reflexivity]. Defined.

(** ** What the order means for [ExtendBlob] *)

Section Extend.
Context {D P I : Type} `{BlockDevice D} `{DpeSound P} `{BufferPool I}.
Implicit Types (st : Runtime D P I) (b : BlobInfo).

(** A request is placed only where one target has room for all of it: when the
    bytes that do not fit in the last block's slack exceed the free space of
    every target, [ExtendBlob] fails with code 1 or 2 and allocates nothing,
    however much the targets have together; only the slack is used up. *)
Theorem placement_needs_whole_room st b offset size score level preallocate :
  dpe_ok (rt_dpe st) -> bi_total b < u64 (offset + size) ->
  let '(blocks, fill) := fill_spare (bi_blocks b) (u64 (offset + size) - bi_total b) in
  let additional := u64 (offset + size) - bi_total b - fill in
  additional <> 0 -> (forall t, In t (available_targets st) -> tg_remaining t < additional) ->
  let '(rc, st', b') := ExtendBlob st b offset size score level preallocate in
  rc = (if (length (rt_target_list st) =? 0)%nat then 1 else 2) /\ rt_devs st' = rt_devs st /\ rt_targets st' = rt_targets st /\
  bi_blocks b' = blocks /\ bi_total b' = u64 (bi_total b + fill).
Proof.
  intros Hok Hlt. destruct (fill_spare _ _) as [blocks fill] eqn:Efill. intros additional Hne Hroom. unfold ExtendBlob.
  rewrite (proj2 (Z.leb_gt _ _)) by lia. rewrite Efill. fold additional. rewrite (proj2 (Z.eqb_neq _ _)) by done.
  destruct (length (rt_target_list st) =? 0)%nat; [done|].
  destruct (SelectTargets (rt_dpe st) (available_targets st) score additional) as [ordered dpe] eqn:E.
  destruct (SelectTargets_sound _ _ _ _ _ _ Hok E) as (_ & low & high & -> & P1 & P2).
  assert (low ++ high = []) as ->; [|done].
  apply Permutation_nil. rewrite P1, P2, split_targets.
  destruct (List.filter (has_room additional) (available_targets st)) as [|t l] eqn:Ef; [done|].
  assert (In t (List.filter (has_room additional) (available_targets st))) as [Hin Hr]%filter_In by (rewrite Ef; by left).
  unfold has_room in Hr. specialize (Hroom t Hin). lia.
Qed.
End Extend.

#[local] Instance unit_device : BlockDevice unit := {
  dev_inline _ _ := false; dev_alloc _ _ := (None, tt); dev_free _ _ := (false, tt);
  dev_write _ _ _ := (0, tt); dev_read _ _ _ := (0, [], tt) }.
(** A buffer pool that never runs out, for the examples. *)
#[export] Instance unit_pool : BufferPool unit := { AllocateBuffer _ _ := (true, tt); FreeBuffer _ _ := tt }.

(** 135 bytes free, 100 asked for, no target with more than 70. *)
Definition example_runtime : Runtime unit MaxBwDpe unit :=
  mkRuntime (empty_meta 0) ∅ example_targets ∅ mkMaxBw tt false [] 0.

Lemma placement_needs_whole_room_witness :
  fold_left (fun n t => n + tg_remaining t) example_targets 0 = 135 /\
  fst (fst (ExtendBlob example_runtime BlobInfo_new 0 100 float_one 0 0)) = 2.
Proof.
  split; [reflexivity|].
  pose proof (placement_needs_whole_room example_runtime BlobInfo_new 0 100 float_one 0 0 Logic.I eq_refl) as Hp.
  vm_compute in Hp. vm_compute. apply Hp; [discriminate|]. intros t [<-|[<-|[<-|[]]]]; reflexivity.
Defined.
