(* ===== verification/BlobLog.v ===== *)
(** The data path writes its log: a history of requests that succeed is a run of
    MetaReplay's logging container, so a restart finds every blob with the
    blocks, the replicas and the transform flags it had. *)
From Stdlib Require Import ZArith Lia.
From coqutil Require Import Byte.
From stdpp Require Import base list gmap.
From S2P Require Import Prelude Extents BlockAllocator TxnLog Text BlobMeta MetaLog MetaReplay BlobDevice BlobStore BlobBlocks BlobSafety BlobPut BlobCopies BlobStep BlobMove BlobRefine.

Open Scope Z_scope.

Section Log.
Context (is_volatile : TagId -> bool).
Context {D P I : Type} `{BlockDeviceLaws D} `{Dpe P} `{BufferPool I}.
Implicit Types (st : Runtime D P I) (b : BlobInfo) (t : PutBlobTask) (r : TxnBlobRef) (m : Meta).

Abbreviation blob_view := (MetaReplay.view is_volatile).
Abbreviation live_run := (MetaReplay.live_run is_volatile).

(** * Steps that do not log *)

#[local] Instance same_rest_preorder : PreOrder (same_rest (D := D) (P := P) (I := I)).
Proof.
  split; [by repeat split|]. intros x y z (?&?&?&?&?) (?&?&?&?&?). repeat split; congruence.
Qed.

Lemma same_rest_targets st ts : same_rest st (set_targets st ts).
Proof. by repeat split. Qed.
Lemma same_rest_devs st ds : same_rest st (set_devs st ds).
Proof. by repeat split. Qed.
Lemma same_rest_ipc st i : same_rest st (set_ipc st i).
Proof. by repeat split. Qed.

Lemma ModifyExistingData_rest st blocks data size off idx o rc st' :
  ModifyExistingData st blocks data size off idx o = (rc, st') -> same_rest st st'.
Proof. unfold ModifyExistingData. destruct (write_all _ _ _). by intros [= <- <-]. Qed.

Lemma ReadData_rest st blocks buf size off rc buf' st' : ReadData st blocks buf size off = (rc, buf', st') -> same_rest st st'.
Proof. unfold ReadData. destruct (read_all _ _ _) as [[? ?] ?]. by intros [= <- <- <-]. Qed.

Lemma write_segments_rest blocks segs idx o : forall st rc st', write_segments st blocks segs idx o = (rc, st') -> same_rest st st'.
Proof.
  induction segs as [|s segs IH]; intros st rc st'; cbn [write_segments]; [by intros [= <- <-]|].
  destruct (ModifyExistingData _ _ _ _ _ _ _) as [err st1] eqn:E. apply ModifyExistingData_rest in E.
  destruct (negb _); [by intros [= <- <-]|]. intros E2. rewrite E. by eapply IH.
Qed.

Lemma read_segments_rest blocks segs : forall st rc bufs st', read_segments st blocks segs = (rc, bufs, st') -> same_rest st st'.
Proof.
  induction segs as [|s segs IH]; intros st rc bufs st'; cbn [read_segments]; [by intros [= <- <- <-]|].
  destruct (ReadData _ _ _ _ _) as [[err buf] st1] eqn:E. apply ReadData_rest in E.
  destruct (negb _); [by intros [= <- <- <-]|]. destruct (read_segments st1 blocks segs) as [[err2 bufs2] st2] eqn:E2. intros [= <- <- <-].
  rewrite E. by eapply IH.
Qed.

Lemma alloc_buffer_rest st n ok st' : alloc_buffer st n = (ok, st') -> same_rest st st'.
Proof. unfold alloc_buffer. destruct (AllocateBuffer _ _). by intros [= <- <-]. Qed.

Lemma zero_fill_rest st blocks n off idx o rc st' : zero_fill st blocks n off idx o = (rc, st') -> same_rest st st'.
Proof.
  unfold zero_fill. destruct (alloc_buffer st n) as [[] st1] eqn:E; apply alloc_buffer_rest in E; [|by intros [= <- <-]].
  destruct (ModifyExistingData _ _ _ _ _ _ _) as [err st2] eqn:E2. apply ModifyExistingData_rest in E2. intros [= <- <-]. by rewrite E, E2.
Qed.

Lemma put_data_rest st t blocks old off idx o rc st' : put_data st t blocks old off idx o = (rc, st') -> same_rest st st'.
Proof.
  unfold put_data. destruct (if old <? off then _ else _) as [hole st1] eqn:E.
  assert (same_rest st st1) as E1 by (destruct (old <? off); [by eapply zero_fill_rest|by injection E as <- <-]).
  destruct hole as [err|]; [|by intros [= <- <-]]. destruct (negb _); [by intros [= <- <-]|].
  destruct (write_segments _ _ _ _ _) as [err2 st2] eqn:E2. apply write_segments_rest in E2. intros [= <- <-]. by rewrite E1, E2.
Qed.

Lemma free_by_pool_rest st blocks : same_rest st (free_by_pool st blocks).
Proof.
  unfold free_by_pool. revert st. induction (remove_dups (map bb_pool blocks)) as [|p ps IH]; intros st; [done|]. cbn [fold_left]. rewrite <- IH.
  unfold free_pool. destruct (rt_devs st !! p) as [d|]; [|done]. destruct (dev_free d _) as [[] d']; [|done].
  unfold credit. by destruct (rt_targets _ !! p).
Qed.

(** A layout that has at least as many blocks. *)
Definition extended b b' : Prop := b' = with_layout b (bi_blocks b') (bi_total b') /\ (length (bi_blocks b) <= length (bi_blocks b'))%nat.

Lemma extended_refl b : extended b b.
Proof. split; [by destruct b|done]. Qed.

Lemma extended_trans b1 b2 b3 : extended b1 b2 -> extended b2 b3 -> extended b1 b3.
Proof. intros [E1 L1] [E2 L2]. split; [by rewrite E2, E1|lia]. Qed.

Lemma extended_total b b' n : extended b b' -> extended b (with_layout b' (bi_blocks b') n).
Proof. intros [E L]. split; [|done]. cbn. by rewrite E at 1. Qed.

Lemma AllocateFromTarget_rest st ti n bs st' : AllocateFromTarget st ti n = (bs, st') -> same_rest st st'.
Proof.
  unfold AllocateFromTarget. destruct (_ <? _); [by intros [= <- <-]|]. destruct (rt_devs st !! _); [|by intros [= <- <-]].
  destruct (if dev_inline _ _ then _ else _) as [[bs1|] d1]; [by intros [= <- <-]|]. destruct (dev_alloc d1 n). by intros [= <- <-].
Qed.

Lemma extend_on_rest st b pool pre n st' b' n' : extend_on st b pool pre n = (st', b', n') -> same_rest st st' /\ extended b b'.
Proof.
  unfold extend_on. destruct (rt_targets st !! pool) as [ti|]; [|intros [= <- <- <-]; by split; [|apply extended_refl]].
  destruct (_ =? 0); [intros [= <- <- <-]; by split; [|apply extended_refl]|].
  destruct (AllocateFromTarget _ _ _) as [bs st1] eqn:E. apply AllocateFromTarget_rest in E.
  destruct bs as [[|x bs]|]; [by intros [= <- <- <-]; split; [|apply extended_refl]| |by intros [= <- <- <-]; split; [|apply extended_refl]].
  destruct (place_blocks ti _ (x :: bs)) as [[blocks need] phys]. intros [= <- <- <-]. split.
  - rewrite E. unfold debit. by destruct (rt_targets st1 !! pool).
  - split; [done|]. cbn. rewrite length_app. lia.
Qed.

Lemma extend_loop_rest ts pre : forall st b n st' b' n',
  extend_loop st b ts pre n = (st', b', n') -> same_rest st st' /\ extended b b'.
Proof.
  induction ts as [|ti ts IH]; intros st b n st' b' n'; cbn [extend_loop]; [intros [= <- <- <-]; by split; [|apply extended_refl]|].
  destruct (n =? 0); [intros [= <- <- <-]; by split; [|apply extended_refl]|].
  destruct (extend_on _ _ _ _ _) as [[st1 b1] n1] eqn:E. apply extend_on_rest in E as [E1 E2]. intros E.
  destruct (IH _ _ _ _ _ _ E) as [E3 E4]. split; [by rewrite E1|by eapply extended_trans].
Qed.

Lemma fill_spare_length blocks n blocks' fill : fill_spare blocks n = (blocks', fill) -> length blocks' = length blocks.
Proof.
  unfold fill_spare. destruct (last blocks); [|by intros [= <- <-]]. destruct (_ <? _); [|by intros [= <- <-]].
  intros [= <- <-]. apply length_insert.
Qed.

Lemma ExtendBlob_rest st b off n score level pre rc st' b' :
  ExtendBlob st b off n score level pre = (rc, st', b') -> same_rest st st' /\ extended b b'.
Proof.
  unfold ExtendBlob. destruct (_ <=? _); [intros [= <- <- <-]; by split; [|apply extended_refl]|].
  destruct (fill_spare _ _) as [blocks fill] eqn:Ef. set (b0 := with_layout b blocks _).
  assert (extended b b0) as Hb0 by (split; [done|]; cbn; by rewrite (fill_spare_length _ _ _ _ Ef)). clearbody b0.
  destruct (_ =? 0); [intros [= <- <- <-]; by split; [|apply extended_total]|]. destruct (length _ =? 0)%nat; [by intros [= <- <- <-]|].
  destruct (SelectTargets _ _ _ _) as [ordered dpe]. destruct (List.filter _ ordered) as [|ti ts]; [by intros [= <- <- <-]|].
  destruct (extend_loop _ _ _ _ _) as [[st2 b2] n2] eqn:E. apply extend_loop_rest in E as [E1 E2].
  assert (same_rest st st2) as E3 by (etransitivity; [|exact E1]; by repeat split).
  pose proof (extended_trans _ _ _ Hb0 E2). destruct (0 <? n2); intros [= <- <- <-]; by split; [|apply extended_total].
Qed.

Lemma ExtendBlob_code st b off n score level pre : 0 <= fst (fst (ExtendBlob st b off n score level pre)).
Proof.
  unfold ExtendBlob. destruct (_ <=? _); [done|]. destruct (fill_spare _ _) as [blocks fill].
  destruct (_ =? 0); [done|]. destruct (length _ =? 0)%nat; [done|].
  destruct (SelectTargets _ _ _ _) as [ordered dpe]. destruct (List.filter _ ordered) as [|ti ts]; [done|].
  destruct (extend_loop _ _ _ _ _) as [[st2 b2] n2]. by destruct (0 <? n2).
Qed.

Lemma ResizeBlob_code st b n score level : 0 <= fst (fst (ResizeBlob st b n score level)).
Proof.
  unfold ResizeBlob. destruct (_ =? _); [done|]. destruct (_ <? _).
  - pose proof (ExtendBlob_code st b 0 n score level 0) as Hc. destruct (ExtendBlob _ _ _ _ _ _ _) as [[err st1] b1].
    destruct (negb _); [done|]. unfold zero_fill. destruct (alloc_buffer st1 _) as [[] st2]; [|done].
    unfold ModifyExistingData. by destruct (write_all _ _ _) as [[] ?].
  - by destruct (split_blocks _ _ _) as [keep drop].
Qed.

Lemma ResizeBlob_rest st b n score level rc st' b' :
  ResizeBlob st b n score level = (rc, st', b') -> same_rest st st' /\ b' = with_layout b (bi_blocks b') (bi_total b').
Proof.
  unfold ResizeBlob. destruct (_ =? _); [intros [= <- <- <-]; by split; [|destruct b]|]. destruct (_ <? _).
  - destruct (ExtendBlob _ _ _ _ _ _ _) as [[err st1] b1] eqn:E. apply ExtendBlob_rest in E as [E1 [E2 _]].
    destruct (negb _); [by intros [= <- <- <-]|]. destruct (zero_fill _ _ _ _ _ _) as [z st2] eqn:Ez. apply zero_fill_rest in Ez.
    intros [= <- <- <-]. split; [by rewrite E1|done].
  - destruct (split_blocks _ _ _) as [keep drop]. intros [= <- <- <-]. split; [apply free_by_pool_rest|done].
Qed.

(** * Steps that do *)

Lemma live_run_app m1 l1 m2 l2 m3 : live_run m1 l1 m2 -> live_run m2 l2 m3 -> live_run m1 (l1 ++ l2) m3.
Proof. induction 1 as [|m t m' l m'' Hs _ IH]; [done|]. intros Hr. rewrite <- app_assoc. econstructor; [exact Hs|by apply IH]. Qed.

Lemma live_run_one m x m' : live_step is_volatile m x m' -> live_run m (option_list x) m'.
Proof. intros Hs. rewrite <- (app_nil_r (option_list x)). econstructor; [exact Hs|constructor]. Qed.

(** The records a step on the blob [r] appends are those of a run of the
    container that takes the blob from [b] to [b']. *)
Definition logs r st b st' b' : Prop :=
  rt_logging st' = rt_logging st /\ rt_meta st' = rt_meta st /\
  exists l, rt_wal st' = rt_wal st ++ l /\ forall m, mt_blobs m !! ref_key r = Some b -> live_run m l (put_blob m (ref_key r) b').

Lemma logs_view r st b st' b' : same_rest st st' -> blob_view b' = blob_view b -> logs r st b st' b'.
Proof.
  intros (R1 & R2 & R3 & _) Hv. split; [done|]. split; [done|]. exists []. split; [by rewrite app_nil_r|]. intros m Hm.
  apply (live_run_one m None). by apply (live_unlogged _ _ _ b).
Qed.

Lemma logs_trans r st1 b1 st2 b2 st3 b3 : logs r st1 b1 st2 b2 -> logs r st2 b2 st3 b3 -> logs r st1 b1 st3 b3.
Proof.
  intros (G1 & M1 & l1 & W1 & R1) (G2 & M2 & l2 & W2 & R2). split; [congruence|]. split; [congruence|].
  exists (l1 ++ l2). split; [by rewrite W2, W1, app_assoc|]. intros m Hm.
  assert (put_blob m (ref_key r) b3 = put_blob (put_blob m (ref_key r) b2) (ref_key r) b3) as ->.
  { unfold put_blob, set_blobs. cbn. by rewrite insert_insert_eq. }
  eapply live_run_app; [by apply R1|]. apply R2. apply lookup_insert_eq.
Qed.

Lemma logs_record r st b b' x : rt_logging st = true -> logged r (Some b) x (Some b') -> logs r st b (wal_log st x) b'.
Proof.
  intros Hl Hx. unfold wal_log. rewrite Hl. split; [done|]. split; [done|]. exists [x]. split; [done|]. intros m Hm.
  apply (live_run_one m (Some x)). by apply (live_blob _ m r (Some b) x (Some b')).
Qed.

(** A quiet step before a record. *)
Lemma logs_after r st st1 b st' b' : same_rest st st1 -> logs r st1 b st' b' -> logs r st b st' b'.
Proof. intros R. apply logs_trans. by apply logs_view. Qed.

Lemma logs_then r st b st1 b1 st' b' : logs r st b st1 b1 -> same_rest st1 st' -> blob_view b' = blob_view b1 -> logs r st b st' b'.
Proof. intros L R Hv. eapply logs_trans; [exact L|]. by apply logs_view. Qed.

Lemma logs_logging r st b st' b' : logs r st b st' b' -> rt_logging st' = rt_logging st.
Proof. by intros (? & _). Qed.

Lemma log_layout_logs st tag name b b' :
  rt_logging st = true -> b' = with_layout b (bi_blocks b') (bi_total b') -> bi_blocks b' <> [] ->
  logs (blob_ref tag name) st b (log_layout st tag name (bi_blocks b')) b'.
Proof.
  intros Hl Hb Hne. unfold log_layout. destruct (bi_blocks b') as [|x bs] eqn:E; [done|]. rewrite <- E.
  apply logs_record; [done|]. apply logged_extend; by rewrite Hb.
Qed.

(** A replica without blocks on lasting targets does not last. *)
Lemma view_empty_slot b idx rep :
  rp_blocks rep = [] -> (forall rep0, bi_replicas b !! (Z.to_nat idx - 1)%nat = Some rep0 -> rp_blocks rep0 = []) ->
  blob_view (put_replica b idx rep) = blob_view b.
Proof.
  intros Hr Hold. assert (forall rep', rp_blocks rep' = [] -> replica_view is_volatile rep' = None) as Hnone.
  { intros rep' E. unfold replica_view. by rewrite E. }
  rewrite view_put_replica. unfold set_view_replica, alter_slot. destruct (idx <=? 0); [done|]. rewrite Hnone by done.
  destruct (blob_view b) as [n x bs reps] eqn:E. cbn. f_equal. change (delete (Z.to_nat idx - 1)%nat reps = reps). apply delete_id.
  assert (reps = replicas_view is_volatile (bi_replicas b)) as -> by (unfold MetaReplay.view in E; congruence).
  rewrite replicas_view_lookup. destruct (bi_replicas b !! _) as [rep0|] eqn:Er; [|done]. cbn. by apply Hnone, Hold.
Qed.

Lemma put_replica_slot b rs idx i rep : GetReplica (bi_replicas b) idx true = (rs, Some i) -> put_replica b idx rep = set_replica (set_replicas b rs) i rep.
Proof. unfold put_replica. by intros ->. Qed.

Lemma GetReplica_create rs idx rs' i : GetReplica rs idx true = (rs', Some i) -> 0 < idx /\ i = (Z.to_nat idx - 1)%nat /\
  forall r0 : Replica, rs !! i = Some r0 -> nth i rs' Replica_new = r0.
Proof.
  unfold GetReplica. destruct (Z.leb_spec idx 0); [done|]. destruct (length rs <? Z.to_nat idx)%nat; intros [= <- <-]; (split; [lia|]); (split; [done|]);
    intros r0 Hr; apply nth_lookup_Some; [|done]. by apply lookup_app_l_Some.
Qed.

Lemma WriteReplicaData_logs st t b name idx off n requested fallback st' b' :
  rt_logging st = true -> cx_emulate (pt_context t) = false ->
  WriteReplicaData st t b name idx off n requested fallback = (0, st', b') ->
  logs (blob_ref (pt_tag t) name) st b st' b' /\ bi_blocks b' = bi_blocks b.
Proof.
  intros Hl He. unfold WriteReplicaData. rewrite He. destruct (GetReplica (bi_replicas b) idx true) as [rs [i|]] eqn:Eg; [|done].
  destruct (GetReplica_create _ _ _ _ Eg) as (Hidx & Hi & Hold). cbv zeta.
  set (rep := mkReplica _ _ _ _ _ _ _). set (score := if f32_negative requested then _ else _).
  pose proof (ExtendBlob_code st (staging_of b rep score) off n score (MinPersistenceLevel rep (cx_min_persistence (pt_context t)))
    (cx_preallocate (pt_context t))) as Hcode.
  destruct (ExtendBlob _ _ _ _ _ _ _) as [[err st1] sb] eqn:E. cbn [fst] in Hcode. apply ExtendBlob_rest in E as [E1 [_ E2]]. cbn [bi_blocks staging_of with_layout] in E2.
  destruct (if negb (err =? 0) then _ else _) as [rc st2] eqn:E3.
  assert (rc = 0 -> same_rest st st2) as R2.
  { intros ->. destruct (Z.eqb_spec err 0); cbn [negb] in E3; [|injection E3 as ? ?; lia]. rewrite E1. by eapply put_data_rest. }
  intros [= -> <- <-]. cbn [Z.eqb andb negb]. specialize (R2 eq_refl). set (rep' := mkReplica _ (bi_blocks sb) _ _ _ _ _).
  rewrite <- (put_replica_slot _ _ _ _ rep' Eg). split; [|unfold put_replica; by rewrite Eg].
  destruct (bi_blocks sb) as [|x bs] eqn:Es; cbn [length Nat.eqb negb rp_blocks rep'].
  - apply logs_view; [done|]. apply view_empty_slot; [done|]. intros r0 Hr. rewrite <- Hi in Hr. apply Hold in Hr.
    destruct (rp_blocks r0) as [|y ys] eqn:Ey; [done|]. exfalso. subst rep. cbn [rp_blocks] in E2. rewrite Hr, Ey in E2. cbn in E2. lia.
  - apply (logs_after _ _ st2); [done|]. destruct R2 as (_ & _ & L2 & _). apply logs_record; [by rewrite L2|].
    change (x :: bs) with (rp_blocks rep'). by apply (logged_replica _ b idx rep').
Qed.

Lemma write_through_logs t name off n fallback : forall k st b i st' b',
  rt_logging st = true -> cx_emulate (pt_context t) = false ->
  write_through st t b name off n fallback i k = (0, st', b') ->
  logs (blob_ref (pt_tag t) name) st b st' b' /\ bi_blocks b' = bi_blocks b.
Proof.
  induction k as [|k IH]; intros st b i st' b' Hl He; cbn [write_through]; [intros [= <- <-]; by split; [apply logs_view|]|].
  destruct (WriteReplicaData _ _ _ _ _ _ _ _ _) as [[rc st1] b1] eqn:E. destruct (Z.eqb_spec rc 0) as [->|Hne]; cbn [negb]; [|intros [= ? _ _]; lia].
  destruct (WriteReplicaData_logs _ _ _ _ _ _ _ _ _ _ _ Hl He E) as [L1 B1]. intros E2.
  destruct (IH _ _ _ _ _ ltac:(by rewrite (logs_logging _ _ _ _ _ L1)) He E2) as [L2 B2]. split; [by eapply logs_trans|congruence].
Qed.

(** Recording a transform, where it adds a flag. *)
Lemma transform_logs st b tag name kind :
  rt_logging st = true ->
  let b' := if kind =? 0 then b else MarkTransformed b kind in
  logs (blob_ref tag name) st b
    (if bi_transform b' =? bi_transform b then st
     else wal_log st (TxnLog.SetBlobTransform (mkTxnSetBlobTransform (blob_ref tag name) (bi_transform b')))) b'.
Proof.
  intros Hl. cbv zeta. destruct (Z.eqb_spec kind 0); [rewrite Z.eqb_refl; by apply logs_view|].
  destruct (Z.eqb_spec (bi_transform (MarkTransformed b kind)) (bi_transform b)) as [Eq|Hne].
  - apply logs_view; [done|]. unfold MetaReplay.view. by rewrite Eq.
  - apply logs_record; [done|]. apply logged_transform.
Qed.

Lemma put_primary_logs st t b name off n score st' b' :
  rt_logging st = true -> cx_emulate (pt_context t) = false ->
  put_primary st t b name off n score = (0, st', b') -> bi_blocks b' <> [] ->
  exists st3 d, logs (blob_ref (pt_tag t) name) st b st3 b' /\ st' = set_meta st3 (add_tag_size (rt_meta st3) (pt_tag t) d).
Proof.
  intros Hl He. unfold put_primary. rewrite He. cbv zeta. set (repl := negb _).
  set (tail := _ && _ && _). set (idx := if tail then _ else _). set (hint := if tail then _ else _).
  destruct (if repl then _ else _) as [[err st1] b1] eqn:E.
  assert (0 <= err /\ same_rest st st1 /\ b1 = with_layout b (bi_blocks b1) (bi_total b1)) as (Hcode & R1 & B1).
  { destruct repl.
    - pose proof (ResizeBlob_code st b (u64 (off + n)) score (cx_min_persistence (pt_context t))) as Hc. rewrite E in Hc.
      apply ResizeBlob_rest in E as [? ?]. by split.
    - pose proof (ExtendBlob_code st b off n score (cx_min_persistence (pt_context t)) (cx_preallocate (pt_context t))) as Hc. rewrite E in Hc.
      apply ExtendBlob_rest in E as [? [? _]]. by split. }
  destruct (Z.eqb_spec err 0) as [->|Hne]; cbn [negb]; [|intros [= ? _ _]; lia]. clear E.
  destruct (put_data _ _ _ _ _ _ _) as [rc1 st2] eqn:E2. apply put_data_rest in E2.
  destruct (Z.eqb_spec rc1 0) as [->|Hne1]; cbn [negb]; [|intros [= ? _ _]; lia].
  destruct (if cx_replica (pt_context t) =? kAllReplicas then _ else _) as [[rc2 st3] b3] eqn:E3.
  destruct (Z.eqb_spec rc2 0) as [->|Hne2]; cbn [negb]; [|intros [= ? _ _]; lia]. intros [= <- <-] Hblocks.
  set (b4 := if cx_transform _ =? 0 then b3 else _) in *.
  assert (rt_logging st1 = true) as Hl1 by (destruct R1 as (_ & _ & -> & _); exact Hl).
  assert (bi_blocks b4 = bi_blocks b3) as F by (subst b4; by destruct (cx_transform (pt_context t) =? 0)).
  assert (bi_blocks b3 = bi_blocks b1 /\ (bi_blocks b1 <> [] -> logs (blob_ref (pt_tag t) name) st b st3 b3)) as [F1 L3].
  { assert (bi_blocks b1 <> [] -> logs (blob_ref (pt_tag t) name) st b st2 b1) as L2.
    { intros Hb1. eapply logs_then; [|exact E2|done]. eapply logs_after; [exact R1|]. by apply log_layout_logs. }
    destruct (cx_replica (pt_context t) =? kAllReplicas).
    - assert (rt_logging st2 = true) as Hl2.
      { destruct E2 as (_ & _ & -> & _). unfold log_layout, wal_log. rewrite Hl1. by destruct (bi_blocks b1). }
      destruct (write_through_logs _ _ _ _ _ _ _ _ _ _ _ Hl2 He E3) as [L ?]. split; [done|]. intros Hb1. eapply logs_trans; [by apply L2|exact L].
    - injection E3 as <- <-. by split. }
  change (bi_blocks b4 <> []) in Hblocks. rewrite F, F1 in Hblocks. specialize (L3 Hblocks). eexists _, _. split; [|reflexivity].
  assert (rt_logging st3 = true) as Hl3 by (by rewrite (logs_logging _ _ _ _ _ L3)).
  pose proof (transform_logs st3 b3 (pt_tag t) name (cx_transform (pt_context t)) Hl3) as L4. cbv zeta in L4. fold b4 in L4.
  pose proof (logs_trans _ _ _ _ _ _ _ L3 L4) as L5. refine (logs_then _ _ _ _ _ _ _ L5 _ _); [|done]. by repeat split.
Qed.

(** * Requests *)

(** From one state of the container to another, logging. *)
Definition ran st st' : Prop :=
  rt_logging st' = rt_logging st /\
  (forall id, is_Some (mt_tags (rt_meta st) !! id) -> is_Some (mt_tags (rt_meta st') !! id)) /\
  exists l, rt_wal st' = rt_wal st ++ l /\ live_run (rt_meta st) l (rt_meta st').

#[local] Instance ran_preorder : PreOrder ran.
Proof.
  split.
  - intros st. split; [done|]. split; [done|]. exists []. split; [by rewrite app_nil_r|constructor].
  - intros x y z (G1 & T1 & l1 & W1 & R1) (G2 & T2 & l2 & W2 & R2). split; [congruence|]. split; [auto|].
    exists (l1 ++ l2). split; [by rewrite W2, W1, app_assoc|by eapply live_run_app].
Qed.

Lemma ran_rest st st' : same_rest st st' -> ran st st'.
Proof. intros (R1 & R2 & R3 & _). split; [done|]. rewrite R1, R2. split; [done|]. exists []. split; [by rewrite app_nil_r|constructor]. Qed.

Lemma ran_logs r st b st' b' :
  logs r st b st' b' -> mt_blobs (rt_meta st) !! ref_key r = Some b -> ran st (set_meta st' (put_blob (rt_meta st') (ref_key r) b')).
Proof.
  intros (G & M & l & W & R) Hb. split; [done|]. cbn [rt_meta set_meta rt_wal]. rewrite M. split; [done|]. exists l. split; [done|by apply R].
Qed.

(** Tag accounting does not log. *)
Lemma ran_tag st tag info info' :
  mt_tags (rt_meta st) !! tag = Some info -> ti_name info' = ti_name info -> ti_id info' = ti_id info ->
  ran st (set_meta st (BlobMeta.set_tags (rt_meta st) (<[tag := info']> (mt_tags (rt_meta st))))).
Proof.
  intros Ht Hn Hi. split; [done|]. split.
  - intros id Hid. cbn. by apply lookup_insert_is_Some'; right.
  - exists []. split; [by rewrite app_nil_r|]. apply (live_run_one _ None). by eapply live_touch_tag.
Qed.

Lemma ran_add st tag d : is_Some (mt_tags (rt_meta st) !! tag) -> ran st (set_meta st (add_tag_size (rt_meta st) tag d)).
Proof. intros [info Hi]. unfold add_tag_size. rewrite Hi. by eapply ran_tag. Qed.

Lemma ran_sub st tag d : ran st (set_meta st (sub_tag_size (rt_meta st) tag d)).
Proof.
  unfold sub_tag_size. destruct (mt_tags (rt_meta st) !! tag) as [info|] eqn:E; [by eapply ran_tag|]. apply ran_rest. by repeat split.
Qed.

(** ** PutBlob *)

Lemma ref_key_blob tag name : ref_key (blob_ref tag name) = composite_key tag name.
Proof. by destruct tag. Qed.

Lemma view_new_slots b new :
  Forall (fun rep => rp_blocks rep = [] /\ rep_ok rep) new -> blob_view (set_replicas b (bi_replicas b ++ new)) = blob_view b.
Proof.
  intros Hn. unfold MetaReplay.view. cbn [set_replicas bi_name bi_transform bi_blocks bi_replicas]. f_equal. apply map_eq. intros i.
  rewrite !replicas_view_lookup. destruct (decide (i < length (bi_replicas b))%nat); [by rewrite lookup_app_l by done|].
  rewrite lookup_app_r by lia. rewrite (lookup_ge_None_2 (bi_replicas b)) by lia. destruct (new !! _) as [rep|] eqn:E; [|done].
  destruct (Forall_lookup_1 _ _ _ _ Hn E) as [Hr _]. cbn. unfold replica_view. by rewrite Hr.
Qed.

(** The blob a put works on, found or created. *)
Lemma put_blob_ran st name tag score b st1 :
  rt_logging st = true -> name <> [] ->
  match CheckBlobExists st name tag with Some b => (b, st) | None => CreateNewBlob st name tag score end = (b, st1) ->
  ran st st1 /\ mt_blobs (rt_meta st1) !! composite_key tag name = Some b.
Proof.
  intros Hl Hname. unfold CheckBlobExists. destruct name as [|x name]; [done|].
  destruct (mt_blobs (rt_meta st) !! composite_key tag (x :: name)) as [b0|] eqn:E; [by intros [= <- <-]|].
  unfold CreateNewBlob, wal_log. cbn [rt_logging set_meta]. rewrite Hl. intros [= <- <-]. split; [|apply lookup_insert_eq].
  split; [done|]. split; [done|]. eexists. split; [reflexivity|]. cbn [rt_meta set_meta].
  set (r := blob_ref tag (x :: name)). rewrite <- (ref_key_blob tag (x :: name)) in *. fold r in E |- *.
  exact (live_run_one _ (Some _) _ (live_blob is_volatile _ r None _ (Some (new_blob r score)) E (logged_create r score))).
Qed.

Lemma put_range_nonneg t off n : put_request_ok t -> put_range t = inr (off, n) -> 0 <= off.
Proof.
  intros [Hs He _]. unfold put_range, put_segments in *. destruct (pt_segments t) as [|s segs] eqn:Eg.
  - intros [= <- <-]. inversion Hs as [|? ? (? & _) _]; subst. done.
  - rewrite He. intros Hr. destruct (union_of_ok (s :: segs) (2 ^ 64 - 1) 0 off n Hs ltac:(lia) ltac:(lia) Hr) as (e & Ho & _). lia.
Qed.

(** The blocks a put that succeeded leaves the primary. *)
Lemma put_blocks st t st' b' :
  store_ok st -> put_request_ok t -> PutBlob st t = (0, st') -> put_slot st t = 0 ->
  mt_blobs (rt_meta st') !! put_key t = Some b' -> bi_blocks b' <> [].
Proof.
  intros Hok Ht E Hs Hb Hnil. destruct (PutBlob_ok st t 0 st' Hok Ht E) as [Hok' [[? _]|(off & n & v' & Hr & Hn & Hv & Hl & [L He])]]; [done|].
  assert (reads st' !! put_key t = Some v') as Hv' by (rewrite Hv; apply lookup_insert_eq).
  unfold reads in Hv'. rewrite lookup_fmap, Hb in Hv'. injection Hv' as Hv'.
  assert (v' !! 0%nat = Some []) as Hnone by (rewrite <- Hv'; unfold BlobCopies.view; by rewrite Hnil).
  destruct (lookup_lt_is_Some_2 (pad (length v') (default [[]] (reads st !! put_key t))) 0) as [c Hc].
  { rewrite <- L. by eapply lookup_lt_Some. }
  specialize (He 0%nat c [] Hc Hnone). rewrite Hs in He. unfold touched in He. cbn [Z.ltb Z.compare Z.eqb Z.of_nat orb] in He.
  pose proof (put_range_nonneg t off n Ht Hr) as Hoff.
  destruct He as (_ & _ & Hlen & _). specialize (Hlen eq_refl). change (len []) with 0 in Hlen. destruct (_ && _); lia.
Qed.

Lemma PutBlob_ran st t st' :
  store_ok st -> put_request_ok t -> rt_logging st = true -> is_Some (mt_tags (rt_meta st) !! pt_tag t) -> PutBlob st t = (0, st') ->
  ran st st'.
Proof.
  intros Hok Ht Hl Htag E. pose proof (put_blocks st t st') as Hblocks. specialize (fun b' => Hblocks b' Hok Ht E). revert E Hblocks.
  unfold PutBlob, put_key, put_slot. set (name := page_name (pt_name t) (pt_page t)). set (tag := pt_tag t) in *. set (cx := pt_context t).
  destruct (put_range t) as [rc0|[off n]]; [intros [= -> <-] _; reflexivity|]. destruct (n =? 0); [done|].
  destruct (match pt_segments t with [] => _ | _ :: _ => false end); [done|].
  destruct (length name =? 0)%nat eqn:En; [done|]. assert (name <> []) as Hname by (intros ->; done).
  cbv zeta. destruct (f32_above_one _); [done|]. set (score := if f32_negative (pt_score t) then _ else _).
  destruct (match CheckBlobExists st name tag with Some b => (b, st) | None => CreateNewBlob st name tag score end) as [b st1] eqn:Ef.
  destruct (put_blob_found st name tag score b st1 Hok Hname Ef) as (_ & _ & _ & _ & Hreps).
  destruct (put_blob_ran st name tag score b st1 Hl Hname Ef) as [R1 Hb].
  assert (put_replica_target b cx = put_replica_target (default BlobInfo_new (mt_blobs (rt_meta st) !! composite_key tag name)) cx) as ->.
  { unfold put_replica_target. by rewrite Hreps. }
  assert (bi_replicas b = bi_replicas (default BlobInfo_new (mt_blobs (rt_meta st) !! composite_key tag name))) as Hreps' by exact Hreps.
  destruct (put_replica_target _ cx) as [rc0|[rs i]] eqn:Et; [intros [= -> <-] _; exact R1|].
  destruct (put_replica_target_ok _ cx rs i Et) as ((new & -> & Hnew) & Hi & _). rewrite <- Hreps' in *.
  set (b0 := set_replicas b (bi_replicas b ++ new)).
  destruct (if 0 <? i then _ else _) as [[rc st2] b2] eqn:Ew. intros [= -> <-] Hblocks.
  assert (rt_logging st1 = true) as Hl1 by (destruct R1 as [-> _]; exact Hl). set (r := blob_ref tag name).
  assert (logs r st1 b st1 b0) as L0 by (by apply logs_view, view_new_slots).
  rewrite <- (ref_key_blob tag name) in Hb, Hblocks. fold r in Hb, Hblocks.
  assert (store_blob st2 tag name b2 = set_meta st2 (put_blob (rt_meta st2) (ref_key r) b2)) as Hst by (unfold store_blob, r; by rewrite ref_key_blob).
  rewrite Hst in *. rewrite R1. destruct (Z.ltb_spec 0 i).
  - destruct (WriteReplicaData_logs _ _ _ _ _ _ _ _ _ _ _ Hl1 (pr_real _ Ht) Ew) as [L _].
    exact (ran_logs _ _ _ _ _ (logs_trans _ _ _ _ _ _ _ L0 L) Hb).
  - assert (bi_blocks b2 <> []) as Hne by (apply (Hblocks b2); [lia|apply lookup_insert_eq]).
    destruct (put_primary_logs _ _ _ _ _ _ _ _ _ Hl1 (pr_real _ Ht) Ew Hne) as (st3 & d & L & ->).
    pose proof (ran_logs _ _ _ _ _ (logs_trans _ _ _ _ _ _ _ L0 L) Hb) as R3. rewrite R3. fold tag.
    apply (ran_add (set_meta st3 (put_blob (rt_meta st3) (ref_key r) b2)) tag d). apply R3, R1, Htag.
Qed.

Lemma MultiPutBlob_ran ts : forall st ok rc ok' st',
  store_ok st -> Forall put_request_ok ts -> rt_logging st = true -> Forall (fun t => is_Some (mt_tags (rt_meta st) !! pt_tag t)) ts ->
  MultiPutBlob st ts ok rc = (ok', 0, st') -> rc = 0 -> ran st st'.
Proof.
  induction ts as [|t ts IH]; intros st ok rc ok' st' Hok Hts Hl Htags; cbn [MultiPutBlob]; [by intros [= <- <- <-]|].
  inversion Hts as [|? ? Ht Hts']; subst. inversion Htags as [|? ? Htag Htags']; subst.
  destruct (PutBlob st t) as [rc1 st1] eqn:E. destruct (PutBlob_ok st t rc1 st1 Hok Ht E) as [Hok1 _]. intros E2 ->.
  destruct (Z.eqb_spec rc1 0) as [->|Hne].
  - pose proof (PutBlob_ran st t st1 Hok Ht Hl Htag E) as R1. rewrite R1. eapply IH; [done|done| | |exact E2|done].
    + by destruct R1 as [-> _].
    + eapply Forall_impl; [exact Htags'|]. intros t' Ht'. by apply R1.
  - exfalso. cbn [Z.eqb] in E2. assert (forall ts (st : Runtime D P I) ok rc, rc <> 0 -> snd (fst (MultiPutBlob st ts ok rc)) = rc) as Hkeep.
    { clear. intros ts. induction ts as [|t ts IH]; intros st ok rc Hrc; [done|]. cbn [MultiPutBlob]. destruct (PutBlob st t) as [rc' st'].
      destruct (rc' =? 0); [by apply IH|]. rewrite (proj2 (Z.eqb_neq rc 0)) by done. by apply IH. }
    specialize (Hkeep ts st1 ok rc1 Hne). rewrite E2 in Hkeep. by apply Hne.
Qed.

(** ** The others *)

Lemma GetBlob_ran st g rc bufs tr st' : GetBlob st g = (rc, bufs, tr, st') -> ran st st'.
Proof.
  unfold GetBlob. intros E. apply ran_rest. revert E. destruct (get_range g) as [[off n]|]; [|by intros [= <- <- <- <-]].
  destruct (_ || _); [by intros [= <- <- <- <-]|]. destruct (CheckBlobExists _ _ _) as [b|]; [|by intros [= <- <- <- <-]].
  destruct (read_source _ _) as [[[blocks total] tf]|]; [|by intros [= <- <- <- <-]]. destruct (_ =? _); [by intros [= <- <- <- <-]|].
  destruct (gt_emulate g); [by intros [= <- <- <- <-]|]. destruct (read_segments _ _ _) as [[err bufs'] st1] eqn:E. intros [= <- <- <- <-].
  by eapply read_segments_rest.
Qed.

Lemma TruncateBlob_ran st tag name n st' :
  store_ok st -> rt_logging st = true -> 0 < n <= 2 ^ 62 -> TruncateBlob st tag name n = (0, st') -> ran st st'.
Proof.
  intros Hok Hl Hn E. pose proof (TruncateBlob_ok st tag name n 0 st' Hok ltac:(lia) E) as [Hok' Ht]. revert E Ht.
  unfold TruncateBlob. destruct name as [|x name]; [done|]. set (nm := x :: name). unfold CheckBlobExists. cbn [nm]. fold nm.
  set (key := composite_key tag nm). destruct (mt_blobs (rt_meta st) !! key) as [b|] eqn:Eb; [|intros [= <-] _; reflexivity].
  destruct (ResizeBlob _ _ _ _ _) as [[err st1] b1] eqn:E. pose proof (ResizeBlob_code st b n (bi_score b) 0) as Hc. rewrite E in Hc.
  apply ResizeBlob_rest in E as [R1 B1]. destruct (Z.eqb_spec err 0) as [->|Hne]; cbn [negb]; [|intros [= ?]; cbn in Hc; lia].
  set (stb := store_blob st1 tag nm b1). set (st2 := match mt_tags (rt_meta stb) !! tag with Some _ => _ | None => _ end).
  assert (mt_blobs (rt_meta st2) = mt_blobs (rt_meta stb)) as Hm2.
  { subst st2. destruct (mt_tags (rt_meta stb) !! tag); [|done]. cbn [rt_meta set_meta]. destruct (_ <=? _); [done|apply sub_tag_blobs]. }
  intros [= <-] Hread. destruct (log_layout_same st2 tag nm (bi_blocks b1)) as (_ & _ & Hmeta).
  assert (bi_blocks b1 <> []) as Hne.
  { intros Hnil. unfold reads in Hread at 1. rewrite lookup_fmap, Eb in Hread. destruct (Hread ltac:(done)) as (v' & Hv & c & c' & vs & _ & Hv' & Hc').
    cbn [Z.eqb] in Hc'. assert (reads (log_layout st2 tag nm (bi_blocks b1)) !! key = Some v') as Hk by (rewrite Hv; apply lookup_insert_eq).
    unfold reads in Hk. rewrite lookup_fmap, Hmeta, Hm2 in Hk. unfold stb in Hk. cbn [rt_meta store_blob set_meta put_blob set_blobs mt_blobs] in Hk.
    fold key in Hk. rewrite lookup_insert_eq in Hk. cbn [fmap option_fmap option_map] in Hk. injection Hk as Hk. rewrite <- Hk in Hv'.
    unfold BlobCopies.view in Hv'. rewrite Hnil in Hv'. injection Hv' as Hv' _. pose proof (len_resized n c ltac:(lia)) as Hlen.
    rewrite <- Hc', <- Hv' in Hlen. change (0 = n) in Hlen. lia. }
  set (r := blob_ref tag nm). assert (rt_logging st1 = true) as Hl1 by (destruct R1 as (_ & _ & -> & _); exact Hl).
  pose proof (logs_after r st st1 b _ b1 R1 (log_layout_logs st1 tag nm b b1 Hl1 B1 Hne)) as L.
  pose proof (ran_logs r st b _ b1 L) as R2. replace (ref_key r) with key in R2 by (symmetry; apply ref_key_blob). specialize (R2 Eb).
  set (stx := set_meta (log_layout st1 tag nm (bi_blocks b1)) _) in R2. destruct (log_layout_same st1 tag nm (bi_blocks b1)) as (_ & _ & Hmx).
  assert (rt_meta stx = rt_meta stb) as Hx by (cbn [stx set_meta rt_meta]; by rewrite Hmx).
  assert (forall m, log_layout (set_meta st1 m) tag nm (bi_blocks b1) = set_meta stx m) as Hset.
  { intros m. subst stx. unfold log_layout, wal_log. cbn [set_meta rt_logging]. by destruct (bi_blocks b1), (rt_logging st1). }
  rewrite R2. subst st2. destruct (mt_tags (rt_meta stb) !! tag) as [info|] eqn:Ei.
  - cbn [set_meta]. change (set_meta stb ?m) with (set_meta st1 m). rewrite Hset, <- Hx. destruct (_ <=? _); [apply ran_add; rewrite Hx, Ei; by eexists|apply ran_sub].
  - change stb with (set_meta st1 (rt_meta stb)). rewrite Hset, <- Hx. reflexivity.
Qed.

Lemma DelBlob_ran st tag name st' : rt_logging st = true -> DelBlob st tag name = (0, st') -> ran st st'.
Proof.
  intros Hl. unfold DelBlob. destruct name as [|x name]; [done|]. set (nm := x :: name). unfold CheckBlobExists. cbn [nm]. fold nm.
  destruct (mt_blobs (rt_meta st) !! composite_key tag nm) as [b|] eqn:Eb; [|done]. set (st1 := free_by_pool st _).
  assert (same_rest st st1) as R1 by apply free_by_pool_rest. set (st2 := set_meta st1 _). intros [= <-].
  assert (ran st st2) as R2 by (rewrite (ran_rest _ _ R1); apply ran_sub). rewrite R2.
  assert (rt_logging st2 = true) as Hl2 by (destruct R1 as (_ & _ & E & _); exact (eq_trans E Hl)).
  assert (mt_blobs (rt_meta st2) !! ref_key (blob_ref tag nm) = Some b) as Hb2.
  { rewrite ref_key_blob. cbn [st2 set_meta rt_meta]. rewrite sub_tag_blobs. by destruct R1 as [-> _]. }
  unfold wal_log. cbn [set_meta rt_logging]. rewrite Hl2. split; [by symmetry|]. split; [done|]. eexists. split; [reflexivity|]. cbn [rt_meta].
  rewrite <- (ref_key_blob tag nm).
  exact (live_run_one _ (Some _) _ (live_blob is_volatile _ (blob_ref tag nm) (Some b) _ None Hb2 (logged_delete _ b))).
Qed.

(** *** Moving the primary *)

Lemma wal_log_meta st m x : wal_log (set_meta st m) x = set_meta (wal_log st x) m.
Proof. unfold wal_log. cbn [set_meta rt_logging]. by destruct (rt_logging st). Qed.

Lemma extend_on_empty st b pool pre n st' b' n' : extend_on st b pool pre n = (st', b', n') -> bi_blocks b' = [] -> n' = n.
Proof.
  unfold extend_on. destruct (rt_targets st !! pool) as [ti|]; [|by intros [= <- <- <-]]. destruct (_ =? 0); [by intros [= <- <- <-]|].
  destruct (AllocateFromTarget _ _ _) as [[[|x bs]|] st1]; [by intros [= <- <- <-]| |by intros [= <- <- <-]]. cbn [place_blocks].
  destruct (place_blocks ti _ bs) as [[blocks need] phys]. intros [= <- <- <-]. cbn. intros Hnil. by destruct (bi_blocks b).
Qed.

Lemma extend_loop_empty ts pre : forall st b n st' b' n',
  extend_loop st b ts pre n = (st', b', n') -> bi_blocks b' = [] -> n' = n.
Proof.
  induction ts as [|ti ts IH]; intros st b n st' b' n'; cbn [extend_loop]; [by intros [= <- <- <-]|].
  destruct (n =? 0); [by intros [= <- <- <-]|]. destruct (extend_on _ _ _ _ _) as [[st1 b1] n1] eqn:E. intros E2 Hnil.
  rewrite (IH _ _ _ _ _ _ E2 Hnil). eapply extend_on_empty; [exact E|]. apply extend_loop_rest in E2 as [_ [_ Hl]]. rewrite Hnil in Hl.
  by destruct (bi_blocks b1); [|cbn in Hl; lia].
Qed.

Lemma ExtendBlob_blocks st b n score level pre st' b' :
  bi_blocks b = [] -> bi_total b = 0 -> 0 < n < 2 ^ 64 -> ExtendBlob st b 0 n score level pre = (0, st', b') -> bi_blocks b' <> [].
Proof.
  intros Hb Hz Hn. unfold ExtendBlob. rewrite Hz, Hb, u64_small by lia. rewrite (proj2 (Z.leb_gt _ _)) by lia. cbn [fill_spare last].
  rewrite (proj2 (Z.eqb_neq _ 0)) by lia. destruct (length _ =? 0)%nat; [done|]. destruct (SelectTargets _ _ _ _) as [ordered dpe].
  destruct (List.filter _ ordered) as [|ti ts]; [done|]. destruct (extend_loop _ _ _ _ _) as [[st2 b2] n2] eqn:E.
  destruct (Z.ltb_spec 0 n2); [done|]. intros [= <- <-] Hnil. cbn [bi_blocks with_layout] in Hnil. pose proof (extend_loop_empty _ _ _ _ _ _ _ _ E Hnil). lia.
Qed.

Lemma replace_attempts_rest data size new_score current_score minp n : forall st sb k placed st',
  bi_blocks sb = [] -> bi_total sb = 0 -> 0 < size < 2 ^ 64 ->
  replace_attempts st sb data size new_score current_score minp k n = (placed, st') ->
  same_rest st st' /\ forall j score sb', placed = Some (j, score, sb') -> bi_blocks sb' <> [].
Proof.
  induction n as [|n IH]; intros st sb k placed st' Hb Hz Hs; cbn [replace_attempts]; [by intros [= <- <-]|].
  destruct (ExtendBlob _ _ _ _ _ _ _) as [[err st1] sb1] eqn:E. pose proof (ExtendBlob_rest _ _ _ _ _ _ _ _ _ _ E) as [R1 _].
  destruct (if err =? 0 then _ else _) as [err2 st2] eqn:E2.
  assert (same_rest st st2 /\ (err2 = 0 -> err = 0)) as [R2 Herr].
  { destruct (Z.eqb_spec err 0) as [->|]; [|by injection E2 as <- <-]. apply ModifyExistingData_rest in E2. split; [by rewrite R1|done]. }
  destruct (Z.eqb_spec err2 0) as [->|Hne].
  - intros [= <- <-]. split; [done|]. intros j score sb' [= _ _ <-]. rewrite (Herr eq_refl) in E. by eapply ExtendBlob_blocks.
  - unfold FreeAllBlobBlocks. intros E4. destruct (IH _ (with_layout sb1 [] 0) _ _ _ eq_refl eq_refl Hs E4) as [R4 H4]. split; [|done].
    rewrite R2, <- R4. apply free_by_pool_rest.
Qed.

Lemma drop_primary_ran st tag name b score :
  rt_logging st = true -> mt_blobs (rt_meta st) !! composite_key tag name = Some b -> ran st (drop_primary st tag name b score).
Proof.
  intros Hl Hb. unfold drop_primary, FreeAllBlobBlocks. set (st1 := free_by_pool st (bi_blocks b)).
  set (b1 := with_score (with_layout b [] 0) score). set (r := blob_ref tag name). rewrite <- (ref_key_blob tag name) in Hb. fold r in Hb.
  assert (same_rest st st1) as R1 by apply free_by_pool_rest. assert (rt_logging st1 = true) as Hl1 by (destruct R1 as (_ & _ & -> & _); exact Hl).
  assert (logs r st b (wal_log st1 (TxnLog.ClearBlob r)) b1) as L by (apply (logs_after _ _ st1); [done|]; apply logs_record; [done|by apply logged_clear]).
  rewrite wal_log_meta. unfold store_blob. rewrite wal_log_meta.
  pose proof (ran_logs _ _ _ _ _ L Hb) as R2. assert (rt_meta (wal_log st1 (TxnLog.ClearBlob r)) = rt_meta st1) as Hm by (unfold wal_log; by destruct (rt_logging st1)).
  rewrite Hm in R2. replace (ref_key r) with (composite_key tag name) in R2 by (symmetry; apply ref_key_blob). rewrite R2.
  exact (ran_sub (set_meta (wal_log st1 (TxnLog.ClearBlob r)) (put_blob (rt_meta st1) (composite_key tag name) b1)) tag (bi_total b)).
Qed.

(** A record that replaces a blob cleared meanwhile. *)
Lemma ran_replaced st st' tag name b b' x :
  rt_logging st = true -> mt_blobs (rt_meta st) !! composite_key tag name = Some b ->
  logged (blob_ref tag name) (Some b) x (Some b') -> rt_logging st' = true -> rt_wal st' = rt_wal st ++ [x] ->
  rt_meta st' = put_blob (rt_meta st) (composite_key tag name) b' -> ran st st'.
Proof.
  intros Hl Hb Hx Hl' Hw Hm. rewrite <- (ref_key_blob tag name) in *. split; [congruence|]. rewrite Hm. split; [done|]. exists [x]. split; [done|].
  exact (live_run_one _ (Some x) _ (live_blob is_volatile _ (blob_ref tag name) (Some b) x (Some b') Hb Hx)).
Qed.

Lemma put_blob_twice m key b b' : put_blob (put_blob m key b) key b' = put_blob m key b'.
Proof. unfold put_blob, set_blobs. cbn. by rewrite insert_insert_eq. Qed.

Lemma replace_primary_ran st tag name b data new_score st' :
  rt_logging st = true -> mt_blobs (rt_meta st) !! composite_key tag name = Some b -> 0 < bi_total b < 2 ^ 64 ->
  replace_primary st tag name b data new_score = (0, st') -> ran st st'.
Proof.
  intros Hl Hb Hs. unfold replace_primary. destruct (ClearBlob st b (bi_score b) 0) as [[cleared st1] b1] eqn:E.
  assert (cleared = false \/ same_rest st st1 /\ b1 = with_layout b [] 0) as [->|[R1 ->]]; [|done|].
  { unfold ClearBlob, FreeAllBlobBlocks in E. destruct (_ || _); [left; by injection E as <- _ _|].
    destruct (_ || _); [left; by injection E as <- _ _|]. right. injection E as _ <- <-. by split; [apply free_by_pool_rest|]. }
  destruct cleared; [|done]. cbn [negb]. set (st1b := store_blob st1 tag name _).
  destruct (replace_attempts st1b _ _ _ _ _ _ _ _) as [[[[k score] sb]|] st2] eqn:E2; [|done].
  destruct (replace_attempts_rest _ _ _ _ _ _ st1b BlobInfo_new _ _ _ eq_refl eq_refl Hs E2) as [(M2 & W2 & L2 & _) Hne].
  specialize (Hne _ _ _ eq_refl). intros [= _ <-]. set (b3 := with_score _ score). destruct R1 as (M1 & W1 & L1 & _).
  change (bi_blocks (with_score ?x ?y)) with (bi_blocks sb). unfold log_layout. destruct (bi_blocks sb) as [|x bs] eqn:Es; [done|].
  unfold wal_log. cbn [store_blob set_meta rt_logging]. assert (rt_logging st2 = true) as Hl2 by (rewrite L2; exact (eq_trans L1 Hl)). rewrite Hl2.
  eapply (ran_replaced _ _ tag name b b3); [done|done|apply (logged_extend _ b b3); done|done| |].
  - change (rt_wal st2 ++ [extend_record (blob_ref tag name) (with_layout b3 (x :: bs) 0)] = rt_wal st ++ [extend_record (blob_ref tag name) b3]).
    assert (rt_wal st2 = rt_wal st) as -> by (rewrite W2; exact W1). reflexivity.
  - change (put_blob (rt_meta st2) (composite_key tag name) b3 = put_blob (rt_meta st) (composite_key tag name) b3). rewrite M2.
    change (put_blob (put_blob (rt_meta st1) (composite_key tag name) (with_layout b [] 0)) (composite_key tag name) b3 =
      put_blob (rt_meta st) (composite_key tag name) b3). rewrite M1. apply put_blob_twice.
Qed.

Lemma ReorganizeBlobInternal_ran st tag name new_score st' :
  store_ok st -> rt_logging st = true -> ReorganizeBlobInternal st tag name new_score = (0, st') -> ran st st'.
Proof.
  intros Hok Hl. unfold ReorganizeBlobInternal. destruct (length name =? 0)%nat eqn:En; [done|]. cbn [orb]. destruct (bad_score new_score); [done|].
  assert (CheckBlobExists st name tag = mt_blobs (rt_meta st) !! composite_key tag name) as -> by by destruct name.
  destruct (mt_blobs (rt_meta st) !! composite_key tag name) as [b|] eqn:Hb; [|done].
  destruct (f32_near _ _ _); [by intros [= <-]|]. destruct (Z.eqb_spec (bi_total b) 0); [by intros [= <-]|].
  destruct (negb (f32_negative _) && _); [intros [= <-]; by apply drop_primary_ran|].
  destruct (alloc_buffer st (bi_total b)) as [[] st1] eqn:E1; cbn [negb]; [|done]. apply alloc_buffer_rest in E1.
  destruct (ReadData st1 _ _ _ _) as [[err data] st2] eqn:E2. apply ReadData_rest in E2. destruct (Z.eqb_spec err 0) as [->|]; cbn [negb]; [|done].
  assert (same_rest st st2) as R2 by (by rewrite E1). intros E. rewrite (ran_rest _ _ R2). destruct R2 as (M2 & _ & L2 & _).
  assert (0 <= bi_total b <= 2 ^ 62) as Hs.
  { destruct (so_blobs _ Hok _ _ Hb) as [W _]. split; [|apply W]. pose proof (store_take st _ b Hok Hb) as Hd.
    unfold blob_blocks in Hd. rewrite <- app_assoc in Hd. by eapply bi_total_nonneg. }
  eapply replace_primary_ran; [by rewrite L2|by rewrite M2| |exact E]. lia.
Qed.

Lemma ReclaimCacheReplica_ran st tag name freed rc st' :
  rt_logging st = true -> ReclaimCacheReplica st tag name = (freed, rc, st') -> ran st st'.
Proof.
  intros Hl. unfold ReclaimCacheReplica. unfold CheckBlobExists. destruct name as [|x name]; [by intros [= <- <- <-]|]. set (nm := x :: name).
  destruct (mt_blobs (rt_meta st) !! composite_key tag nm) as [b|] eqn:Hb; [|by intros [= <- <- <-]].
  destruct (CacheReplicaIndex _ _) as [rs idx]. destruct (Z.ltb_spec 0 idx); [|by intros [= <- <- <-]].
  destruct (bi_replicas b !! Z.to_nat (idx - 1)) as [rep|] eqn:Er; [|by intros [= <- <- <-]].
  destruct (rp_blocks rep) as [|y ys]; [by intros [= <- <- <-]|]. intros [= <- <- <-]. set (rep' := with_rep_layout rep [] 0).
  destruct (free_by_pool_rest st (y :: ys)) as (M1 & W1 & L1 & _). set (st1 := free_by_pool st (y :: ys)) in *.
  unfold log_replica, wal_log. cbn [store_blob set_meta rt_logging]. rewrite L1, Hl.
  assert (put_replica b idx rep' = set_replica b (Z.to_nat (idx - 1)) rep') as Hput.
  { pose proof (lookup_lt_Some _ _ _ Er). unfold put_replica. rewrite GetReplica_slot by lia. unfold set_replica.
    by replace (Z.to_nat idx - 1)%nat with (Z.to_nat (idx - 1)) by lia. }
  eapply (ran_replaced _ _ tag nm b (set_replica b (Z.to_nat (idx - 1)) rep')); [done|done| |reflexivity| |].
  - rewrite <- Hput. by apply logged_replica.
  - change (rt_wal st1 ++ [extend_replica_record (blob_ref tag nm) idx rep'] = rt_wal st ++ [extend_replica_record (blob_ref tag nm) idx rep']).
    by rewrite W1.
  - change (put_blob (rt_meta st1) (composite_key tag nm) (set_replica b (Z.to_nat (idx - 1)) rep') =
      put_blob (rt_meta st) (composite_key tag nm) (set_replica b (Z.to_nat (idx - 1)) rep')). by rewrite M1.
Qed.

(** ** A history *)

(** The requests that log all they change when they succeed, on known tags. A
    truncation to 0 does not, nor does the move of a replica of size 0. *)
Definition loggable (tags : gset TagId) (q : request) : Prop :=
  match q with
  | RPut t => pt_tag t ∈ tags
  | RMultiPut ts => Forall (fun t => pt_tag t ∈ tags) ts
  | RTruncate _ _ n => 0 < n
  | RReorganize _ _ replica _ => replica <= 0
  | RGet _ | RDel _ _ | RReclaim _ _ => True
  end.

(** Reads and reclaims may fail. *)
Definition succeeded (q : request) (p : reply) : Prop := match q with RGet _ | RReclaim _ _ => True | _ => rp_rc p = 0 end.

Definition known (tags : gset TagId) st : Prop := forall tag, tag ∈ tags -> is_Some (mt_tags (rt_meta st) !! tag).

Lemma handle_ran tags st q p st' :
  store_ok st -> rt_logging st = true -> known tags st -> request_ok q -> loggable tags q -> handle st q = (p, st') -> succeeded q p -> ran st st'.
Proof.
  intros Hok Hl Hk Hq Hg. destruct q as [t|ts|g|tag name n|tag name|tag name replica score|tag name]; cbn [handle request_ok loggable succeeded] in *.
  - destruct (PutBlob st t) as [rc st1] eqn:E. intros [= <- <-]. cbn. intros ->. apply (PutBlob_ran st t st1); auto.
  - destruct (MultiPutBlob st ts 0 0) as [[ok rc] st1] eqn:E. intros [= <- <-]. cbn. intros ->.
    apply (MultiPutBlob_ran ts st 0 0 ok st1); auto. eapply Forall_impl; [exact Hg|]. auto.
  - destruct (GetBlob st g) as [[[rc bufs] tr] st1] eqn:E. intros [= <- <-] _. by eapply GetBlob_ran.
  - destruct (TruncateBlob st tag name n) as [rc st1] eqn:E. intros [= <- <-]. cbn. intros ->. eapply TruncateBlob_ran; [done|done| |exact E]. lia.
  - destruct (DelBlob st tag name) as [rc st1] eqn:E. intros [= <- <-]. cbn. intros ->. by eapply DelBlob_ran.
  - destruct (ReorganizeBlob st tag name replica score) as [rc st1] eqn:E. intros [= <- <-]. cbn. intros ->. unfold ReorganizeBlob in E.
    rewrite (proj2 (Z.ltb_ge 0 replica)) in E by lia. destruct (replica <? 0); [done|]. by eapply ReorganizeBlobInternal_ran.
  - destruct (ReclaimCacheReplica st tag name) as [[freed rc] st1] eqn:E. intros [= <- <-] _. by eapply ReclaimCacheReplica_ran.
Qed.

Lemma run_ran tags rs : forall st ps st',
  store_ok st -> rt_logging st = true -> known tags st -> Forall request_ok rs -> Forall (loggable tags) rs ->
  run st rs = (ps, st') -> Forall2 succeeded rs ps -> store_ok st' /\ ran st st'.
Proof.
  induction rs as [|q rs IH]; intros st ps st' Hok Hl Hk Hq Hg; cbn [run].
  { intros [= <- <-] _. by split. }
  inversion Hq; inversion Hg; subst. destruct (handle st q) as [p st1] eqn:E1. destruct (run st1 rs) as [ps1 st2] eqn:E2. intros [= <- <-] Hs.
  inversion Hs; subst. pose proof (handle_ran tags st q p st1) as R1. destruct (handle_refines st q p st1) as [Hok1 _]; [done..|].
  specialize (R1 ltac:(done) ltac:(done) ltac:(done) ltac:(done) ltac:(done) E1 ltac:(done)). destruct (IH st1 ps1 st2) as [Hok2 R2]; [done| | |done|done|done|done|].
  - by destruct R1 as [-> _].
  - intros tag Ht. apply R1. by apply Hk.
  - split; [done|by rewrite R1].
Qed.

End Log.
