(* ===== verification/BlobTheorems.v ===== *)
(** What the CTE's blob store guarantees to its clients, and one such store over
    two memory-backed devices with the placement engine [MaxBwDpe]. *)
From Stdlib Require Import ZArith Lia.
From Stdlib Require Strings.String.
Import String.StringSyntax.
From coqutil Require Import Byte.
From stdpp Require Import base list gmap.
From S2P Require Import Prelude Extents BlockAllocator TxnLog Text BlobMeta BlobDevice BlobStore BlobBlocks BlobSafety BlobPut BlobCopies BlobStep BlobMove MemBdev BlobRefine Placement.

Open Scope Z_scope.

(** * A store *)

Definition two_mib : Z := 2 ^ 21.

Definition example_dev (workers : list Z) : MemBdevTransport :=
  MemBdev_Init 2 two_mib 4096 (Some two_mib) false (fun _ _ => Byte.xaa) workers.
Definition example_targets : list TargetInfo :=
  [mkTarget (512, 1) (lit "q") 0 two_mib 100 0 0 0 0; mkTarget (512, 2) (lit "q") float_one two_mib 100 2 0 0 0].

Definition example_store : Runtime MemBdevTransport MaxBwDpe unit :=
  mkRuntime (put_tag (empty_meta 2) (512, 1) (TagInfo_new (lit "t") (512, 1)))
    (list_to_map (map (fun t => (tg_pool t, t)) example_targets)) example_targets
    (list_to_map [((512, 1), example_dev [0; 1]); ((512, 2), example_dev [])]) mkMaxBw tt true [] 0.

Lemma example_store_fresh : fresh example_store.
Proof.
  split; [done|]. split.
  - intros p d Hp. apply elem_of_list_to_map_2 in Hp.
    assert (exists ws, d = example_dev ws) as [ws ->] by (apply list_elem_of_In in Hp as [[= <- <-]|[[= <- <-]|[]]]; by eexists).
    apply MemBdev_Init_ok; unfold two_mib; lia.
  - intros p t Hp. apply elem_of_list_to_map_2, list_elem_of_In in Hp. by destruct Hp as [[= <- <-]|[[= <- <-]|[]]].
Qed.

Definition ex_bytes (s : String.string) : list u8 := lit s.
Definition ex_ctx (replica : Z) : Context := mkContext false 0 0 0 0 2 0 replica 0 float_minus_one.
(** A put of a string at [off] of blob ["b"]. *)
Definition ex_put (off : Z) (s : list u8) (replica : Z) : PutBlobTask :=
  mkPut (512, 1) (lit "b") None off (len s) (Some s) float_one (ex_ctx replica) 0 [].
Definition ex_get (off n replica : Z) : GetBlobTask :=
  mkGet (512, 1) (lit "b") None off n (zeros n) replica false [].

Lemma ex_put_ok off s replica : 0 <= off <= 2 ^ 32 -> len s <= 2 ^ 32 -> put_request_ok (ex_put off s replica).
Proof.
  intros Ho Hs. split; [|done|cbn; lia]. constructor; [|constructor]. change (region_ok (mkSegment off (len s) (Some s))). unfold region_ok, len in *. cbn [sg_offset sg_size sg_data]. split_and!; [lia..|].
  intros d [= <-]. lia.
Qed.

Lemma ex_get_ok off n replica : 0 <= off <= 2 ^ 32 -> 0 <= n <= 2 ^ 32 -> get_request_ok (ex_get off n replica).
Proof.
  intros Ho Hn. split; [|done]. constructor; [|constructor]. change (region_ok (mkSegment off n (Some (zeros n)))). unfold region_ok. cbn [sg_offset sg_size sg_data]. split_and!; [lia..|].
  intros d [= <-]. unfold len, zeros. rewrite length_replicate. lia.
Qed.

(** A hole, an overlap, a copy of its own, a shrink and a move to the other device. *)
Definition ex_requests : list request :=
  [RPut (ex_put 3 (lit "hello") 0); RPut (ex_put 6 (lit "world") 0); RPut (ex_put 0 (lit "copy") 1); RGet (ex_get 0 12 0);
   RReorganize (512, 1) (lit "b") 0 0; RTruncate (512, 1) (lit "b") 9; RGet (ex_get 0 12 0); RGet (ex_get 0 12 1);
   RPut (mkPut (512, 1) (lit "c") None 0 4 None float_one Context_new 0 []); RDel (512, 1) (lit "b"); RGet (ex_get 0 12 0)].

Lemma ex_requests_ok : Forall request_ok ex_requests.
Proof.
  assert (put_request_ok (mkPut (512, 1) (lit "c") None 0 4 None float_one Context_new 0 [])) as Hp.
  { split; [|done|cbn; lia]. constructor; [|constructor]. unfold region_ok. cbn. by split_and!. }
  unfold ex_requests. repeat apply Forall_cons_2; [..|apply Forall_nil_2]; cbn [request_ok];
    first [exact Hp|apply ex_put_ok; unfold len; cbn; lia|apply ex_get_ok; lia|lia|exact Logic.I].
Qed.

Definition ex_end := snd (run example_store ex_requests).
Definition ex_replies := fst (run example_store ex_requests).
Lemma ex_run rs : run example_store rs = (fst (run example_store rs), snd (run example_store rs)).
Proof. apply surjective_pairing. Qed.

(** * Guarantees *)

Section Guarantees.
Context {D P I : Type} `{BlockDeviceLaws D} `{Dpe P} `{BufferPool I}.
Implicit Types (st : Runtime D P I).

(** C2. The blob store implements a map from keys to byte strings. Whatever the
    placement engine chooses, wherever the devices put the blocks, and however
    devices, allocations and buffers fail, every history of puts, batches, gets,
    truncations, deletes, reorganisations and cache reclaims on an empty store
    answers and leaves the contents as the specification says: a put that
    succeeded wrote its bytes over a zero-extended copy, a put that failed left
    every byte outside its ranges alone, a get that succeeded returns the
    current bytes, and no request touches a blob it does not name. *)
Theorem blob_store_refines st rs ps st' :
  fresh st -> Forall request_ok rs -> run st rs = (ps, st') -> spec_run rs ∅ ps (contents st').
Proof.
  intros Hf Hr E. destruct (fresh_ok st Hf) as [Hok Hc]. destruct (run_refines rs st ps st' Hok Hr E) as [_ Hs]. by rewrite Hc in Hs.
Qed.

(** C8. In every state the store can reach, two blocks of the same device, of
    whatever blobs and copies, have no byte in common, each is inside its device
    and holds no more than its extent. *)
Theorem blobs_never_share_bytes st rs ps st' i j x y :
  fresh st -> Forall request_ok rs -> run st rs = (ps, st') -> i <> j ->
  all_blocks (mt_blobs (rt_meta st')) !! i = Some x -> all_blocks (mt_blobs (rt_meta st')) !! j = Some y -> bb_pool x = bb_pool y ->
  0 <= bb_offset x /\ bb_offset x + bb_capacity x <= 2 ^ 62 /\ 0 <= bb_size x <= bb_capacity x /\
  forall a b, 0 <= a < bb_capacity x -> 0 <= b < bb_capacity y -> bb_offset x + a <> bb_offset y + b.
Proof.
  intros Hf Hr E Hij Hx Hy Hp. destruct (fresh_ok st Hf) as [Hok _]. destruct (run_refines rs st ps st' Hok Hr E) as [[Hd _ _] _].
  pose proof (devs_ok_extents _ _ _ Hd (list_elem_of_lookup_2 _ _ _ Hx)) as [Hlo Hhi].
  pose proof (Forall_lookup_1 _ _ _ _ (proj1 Hd) Hx) as [Hsz [d Hdev]]. split; [done|]. split; [done|]. split; [done|].
  intros a b Ha Hb. pose proof (devs_ok_perm _ _ _ (delete_Permutation _ _ _ Hx) Hd) as Hd'.
  refine (blocks_apart _ _ _ y a b d Hd' _ Hdev (eq_sym Hp) Ha Hb).
  assert (y ∈ x :: delete i (all_blocks (mt_blobs (rt_meta st')))) as Hin by (rewrite <- (delete_Permutation _ _ _ Hx); by eapply list_elem_of_lookup_2).
  clear Hin. destruct (decide (i < j)%nat).
  - apply (list_elem_of_lookup_2 _ (j - 1)). rewrite list_lookup_delete_ge by lia. by replace (S (j - 1)) with j by lia.
  - apply (list_elem_of_lookup_2 _ j). by rewrite list_lookup_delete_lt by lia.
Qed.

Lemma put_range_single (t : PutBlobTask) off n data off' size :
  put_segments t = [mkSegment off n (Some data)] -> 0 <= off -> 0 <= n -> off + n <= 2 ^ 62 ->
  put_range t = inr (off', size) -> off' = off /\ size = n.
Proof.
  unfold put_segments, put_range. intros Es Ho Hn He. destruct (pt_segments t) as [|s segs].
  - injection Es as <- <- _. by intros [= <- <-].
  - injection Es as -> ->. cbn [union_of sg_size sg_data sg_offset]. destruct (Z.eqb_spec n 0); [done|]. intros [= <- <-].
    rewrite (proj2 (Z.ltb_lt off _)) by lia. rewrite (u64_small (off + n)) by lia. rewrite (proj2 (Z.ltb_lt 0 _)) by lia.
    split; [done|]. rewrite u64_small; lia.
Qed.

(** C14. What a successful put wrote, a successful get of the same range returns,
    from the copy the put was for, and from every replica when the put wrote
    through; other buffers' contents and other requests before do not matter. *)
Theorem put_then_get st rs ps st1 t st2 g bufs tr st3 off n data buf b k :
  fresh st -> Forall request_ok rs -> put_request_ok t -> get_request_ok g -> run st rs = (ps, st1) ->
  put_segments t = [mkSegment off n (Some data)] -> get_segments g = [mkSegment off n (Some buf)] -> get_key g = put_key t ->
  PutBlob st1 t = (0, st2) -> GetBlob st2 g = (0, bufs, tr, st3) ->
  mt_blobs (rt_meta st2) !! put_key t = Some b -> read_slot b (gt_replica g) = Some k -> touched t (put_slot st1 t) (Z.of_nat k) = true ->
  len data = n -> len buf = n -> bufs = [data].
Proof.
  intros Hf Hr Ht Hg E Es Eg Ek E1 E2 Hb Hk Htouch Hld Hlb. destruct (fresh_ok st Hf) as [Hok _].
  destruct (run_refines rs st ps st1 Hok Hr E) as [Hok1 _]. destruct (PutBlob_ok st1 t 0 st2 Hok1 Ht E1) as [Hok2 Ho].
  destruct Ho as [[? _]|(off' & size & v' & Hrange & Hsz & Hr2 & Hl & He)]; [done|].
  destruct (GetBlob_ok st2 g 0 bufs tr st3 Hok2 Hg E2) as (_ & _ & _ & Hget). destruct (Hget eq_refl) as (b' & k' & v & c & B1 & B2 & B3 & B4 & B5).
  rewrite Ek in B1, B3. assert (b' = b) as -> by congruence. assert (k' = k) as -> by congruence.
  rewrite Hr2, lookup_insert_eq in B3. injection B3 as <-. rewrite Eg in B5. unfold filled in B5.
  inversion B5 as [|? buf' ? l [F1 F2] B6]; subst. inversion B6; subst. cbn [sg_offset sg_size sg_data default id] in *. f_equal.
  destruct He as [L He]. destruct (lookup_lt_is_Some_2 (pad (length v') (default [[]] (reads st1 !! put_key t))) k) as [c0 Hc0].
  { rewrite <- L. by eapply lookup_lt_Some. }
  specialize (He k c0 c Hc0 B4). rewrite Htouch in He. destruct He as (_ & _ & Hlen & Hw). rewrite Es in Hw.
  cbn [seg_byte sg_offset sg_size sg_data default id] in Hw. pose proof (pr_segs _ Ht) as Hs. rewrite Es in Hs.
  inversion Hs as [|? ? (S1 & S2 & S3 & _) _]; subst. cbn [sg_offset sg_size sg_data] in *.
  destruct (put_range_single t off (len data) data off' size Es S1 S2 S3 Hrange) as [-> ->].
  assert (off + len data <= len c) as Hend by (specialize (Hlen eq_refl); destruct (replaces t && _); lia).
  apply list_eq_Z; [unfold len in *; lia|]. intros i Hi. rewrite F1 in Hi. fold (len buf) in Hi.
  destruct (F2 i Hi) as [_ ->]; [|lia|lia|done]. rewrite Z.sub_0_r. specialize (Hw (off + i) ltac:(lia)). rewrite between_true in Hw by lia.
  replace (off + i - off) with i in Hw by lia.
  destruct (lookup_lt_is_Some_2 data (Z.to_nat i) ltac:(unfold len in *; lia)) as [x Ex]. rewrite Ex in *. by apply Hw.
Qed.

End Guarantees.

(** ** On the example *)

Lemma blob_store_refines_witness :
  spec_run ex_requests ∅ ex_replies (contents ex_end) /\
  map rp_rc ex_replies = [0; 0; 0; 0; 0; 0; 0; 0; 3; 0; 1] /\
  rp_bufs <$> ex_replies !! 3%nat = Some [[Byte.x00; Byte.x00; Byte.x00] ++ lit "helworld" ++ [Byte.x00]].
Proof.
  split; [|split; vm_compute; reflexivity].
  exact (blob_store_refines example_store ex_requests ex_replies ex_end example_store_fresh ex_requests_ok (ex_run ex_requests)).
Defined.

Definition ex_mid := snd (run example_store (take 3 ex_requests)).

(** Two blocks of the primary and one of the replica, all on the first device. *)
Lemma blobs_never_share_bytes_witness :
  map (fun x => (bb_pool x, bb_size x, bb_capacity x)) (all_blocks (mt_blobs (rt_meta ex_mid))) =
    [((512, 1), 8, 8); ((512, 1), 3, 3); ((512, 1), 4, 4)] /\
  forall x y, all_blocks (mt_blobs (rt_meta ex_mid)) !! 1%nat = Some x -> all_blocks (mt_blobs (rt_meta ex_mid)) !! 2%nat = Some y ->
    0 <= bb_offset x /\ bb_offset x + bb_capacity x <= 2 ^ 62 /\ 0 <= bb_size x <= bb_capacity x /\
    forall a b, 0 <= a < bb_capacity x -> 0 <= b < bb_capacity y -> bb_offset x + a <> bb_offset y + b.
Proof.
  split; [vm_compute; reflexivity|]. intros x y Hx Hy.
  apply (blobs_never_share_bytes example_store (take 3 ex_requests) _ ex_mid 1 2 x y example_store_fresh
           (Forall_take _ 3 _ ex_requests_ok) (ex_run _)); [discriminate|exact Hx|exact Hy|].
  revert Hx Hy. vm_compute. intros [= <-] [= <-]. reflexivity.
Defined.

Lemma with_rc2 {A B} (x : A * B) r : fst x = r -> x = (r, snd x).
Proof. by destruct x as [a b]; intros <-. Qed.
Lemma with_rc4 {A B C D} (x : A * B * C * D) r : fst (fst (fst x)) = r -> x = (r, snd (fst (fst x)), snd (fst x), snd x).
Proof. by destruct x as [[[a b] c] d]; intros <-. Qed.

(** A put that writes through to the replica, read back from the replica. *)
Lemma put_then_get_witness :
  let t := ex_put 2 (lit "through") kAllReplicas in
  let g := ex_get 2 7 1 in
  let st2 := snd (PutBlob ex_mid t) in
  fst (PutBlob ex_mid t) = 0 /\ fst (fst (fst (GetBlob st2 g))) = 0 /\ snd (fst (fst (GetBlob st2 g))) = [lit "through"].
Proof.
  intros t g st2. assert (fst (PutBlob ex_mid t) = 0) as Hput by (vm_compute; reflexivity).
  assert (fst (fst (fst (GetBlob st2 g))) = 0) as Hget by (vm_compute; reflexivity).
  split; [exact Hput|]. split; [exact Hget|].
  destruct (mt_blobs (rt_meta st2) !! put_key t) as [b|] eqn:Eb; [|revert Eb; vm_compute; discriminate].
  apply (put_then_get example_store (take 3 ex_requests) (fst (run example_store (take 3 ex_requests))) ex_mid t st2 g (snd (fst (fst (GetBlob st2 g)))) (snd (fst (GetBlob st2 g))) (snd (GetBlob st2 g)) 2 7
           (lit "through") (zeros 7) b 1 example_store_fresh (Forall_take _ 3 _ ex_requests_ok)).
  - apply ex_put_ok; unfold len; cbn; lia.
  - apply ex_get_ok; lia.
  - apply ex_run.
  - reflexivity.
  - reflexivity.
  - reflexivity.
  - exact (with_rc2 (PutBlob ex_mid t) 0 Hput).
  - exact (with_rc4 (GetBlob st2 g) 0 Hget).
  - exact Eb.
  - revert Eb. vm_compute. intros [= <-]. reflexivity.
  - vm_compute. reflexivity.
  - reflexivity.
  - reflexivity.
Defined.
