(* ===== verification/BlobGaps.v ===== *)
(** What the CTE's data path does not guarantee: what a failure, a crash or a
    recycled block shows of it, on the example store of BlobTheorems. *)
From Stdlib Require Import ZArith Lia.
From Stdlib Require Strings.String.
Import String.StringSyntax.
From coqutil Require Import Byte.
From stdpp Require Import base list gmap.
From S2P Require Import Prelude BlockAllocator TxnLog Text BlobMeta MetaReplay BlobDevice BlobStore BlobStep MemBdev BlobRefine Placement BlobTheorems.

Open Scope Z_scope.

Definition named (name : str) (t : PutBlobTask) : PutBlobTask :=
  mkPut (pt_tag t) name (pt_page t) (pt_offset t) (pt_size t) (pt_data t) (pt_score t) (pt_context t) (pt_flags t) (pt_segments t).
Definition key_of (name : str) : str := composite_key (512, 1) name.
Definition get_of (name : str) (n : Z) : request := RGet (mkGet (512, 1) name None 0 n (zeros n) 0 false []).

(** ** Truncation to nothing *)

Lemma split_blocks_zero st blocks : 0 <= st -> split_blocks st 0 blocks = ([], blocks).
Proof.
  revert st. induction blocks as [|x l IH]; intros st Hs; [done|]. cbn. rewrite IH by apply u64_range.
  by rewrite (proj2 (Z.leb_le _ _)) by lia.
Qed.

Section Truncate.
Context {D P I : Type} `{BlockDevice D} `{Dpe P} `{BufferPool I}.

Lemma free_by_pool_wal (st : Runtime D P I) blocks : rt_wal (free_by_pool st blocks) = rt_wal st.
Proof.
  unfold free_by_pool. revert st. induction (remove_dups (map bb_pool blocks)) as [|p ps IH]; intros st; [done|]. cbn [fold_left]. rewrite IH.
  unfold free_pool. destruct (rt_devs st !! p) as [d|]; [|done]. destruct (dev_free d _) as [[] d']; [|done].
  unfold credit. by destruct (rt_targets _ !! p).
Qed.

(** Cutting a blob to size 0 frees all of its blocks and logs nothing: the log still
    holds the layout the blob had before. *)
Theorem truncate_to_zero_not_logged (st : Runtime D P I) tag name b rc st' :
  CheckBlobExists st name tag = Some b -> 0 < bi_total b -> TruncateBlob st tag name 0 = (rc, st') ->
  rc = 0 /\ rt_wal st' = rt_wal st /\ exists b', mt_blobs (rt_meta st') !! composite_key tag name = Some b' /\ bi_blocks b' = [].
Proof.
  intros Hb Hpos. unfold TruncateBlob. rewrite Hb. destruct name as [|x name]; [done|]. unfold ResizeBlob.
  rewrite (proj2 (Z.eqb_neq _ _)) by lia. rewrite (proj2 (Z.ltb_ge _ _)) by lia. rewrite split_blocks_zero by lia.
  set (b' := with_layout b [] 0). set (st1 := store_blob _ _ _ _).
  assert (mt_blobs (rt_meta st1) !! composite_key tag (x :: name) = Some b') as Hm by apply lookup_insert_eq.
  assert (rt_wal st1 = rt_wal st) as Hw by (unfold st1; cbn [store_blob set_meta rt_wal]; apply free_by_pool_wal).
  clearbody st1. cbn [negb Z.eqb]. intros E. assert (rc = 0 /\ rt_wal st' = rt_wal st1 /\ mt_blobs (rt_meta st') = mt_blobs (rt_meta st1)) as (-> & -> & ->).
  { change (bi_blocks b') with (@nil BlobBlock) in E. cbn [log_layout] in E. injection E as <- <-.
    destruct (mt_tags (rt_meta st1) !! tag); [|done]. cbn [set_meta rt_wal rt_meta]. split_and!; [done..|].
    destruct (_ <=? _); [done|apply sub_tag_blobs]. }
  split; [done|]. split; [done|]. by exists b'.
Qed.
End Truncate.

(** The truncated blob's extent goes to the next put; after a crash the log
    gives it back to the truncated blob as well. *)
Definition ex_lost : list request :=
  [RPut (ex_put 0 (lit "mine") 0); RTruncate (512, 1) (lit "b") 0; RPut (named (lit "c") (ex_put 0 (lit "your") 0))].

Definition restarted (st : Runtime MemBdevTransport MaxBwDpe unit) : option Meta :=
  ReplayTransactionLogs 1 (fun _ => false) [] [txns_bytes (rt_wal st)] (rt_meta example_store).

(** So a restart after a crash can make two blobs own the same bytes: ["b"] was
    cut to nothing and its extent went to ["c"], yet the replayed log gives it to both. *)
Theorem truncate_then_restart_shares_bytes :
  let st := snd (run example_store ex_lost) in
  map rp_rc (fst (run example_store ex_lost)) = [0; 0; 0] /\
  (bi_blocks <$> mt_blobs (rt_meta st) !! key_of (lit "b")) = Some [] /\
  exists m x, restarted st = Some m /\ (bi_blocks <$> mt_blobs m !! key_of (lit "b")) = Some [x] /\
    (bi_blocks <$> mt_blobs m !! key_of (lit "c")) = Some [x] /\ 0 < bb_size x.
Proof.
  split; [vm_compute; reflexivity|]. split; [vm_compute; reflexivity|].
  eexists _, _. split; [vm_compute; reflexivity|]. split_and!; vm_compute; reflexivity.
Qed.

(** ** Recycled bytes *)

(** A vectored put zeroes the hole before its first region but not the gaps
    between its regions: past the old end they show what a deleted blob left in
    the recycled block. *)
Theorem vectored_put_shows_old_bytes :
  let gaps := [mkSegment 0 1 (Some (lit "<")); mkSegment 7 1 (Some (lit ">"))] in
  let rs := [RPut (ex_put 0 (lit "password") 0); RDel (512, 1) (lit "b");
             RPut (mkPut (512, 1) (lit "c") None 0 0 None float_one Context_new 0 gaps); get_of (lit "c") 8] in
  map (fun p => (rp_rc p, rp_bufs p)) (fst (run example_store rs)) = [(0, []); (0, []); (0, []); (0, [lit "<asswor>"])].
Proof. vm_compute. reflexivity. Qed.

(** A put of [n] bytes whose buffer does not matter. *)
Definition big_put (off n : Z) : PutBlobTask :=
  mkPut (512, 1) (lit "b") None off n (Some (lit "!")) float_one (ex_ctx 0) 0 [].

(** A put that finds no space is not undone: the blob has grown over the slack
    of its last block, reads show what the block held before, and the size
    accounted to the tag no longer is the sum of its blobs. *)
Theorem failed_append_grows_blob :
  let rs := [RPut (ex_put 0 (lit "password") 0); RDel (512, 1) (lit "b"); RPut (ex_put 0 (lit "new") 0);
             RPut (big_put 3 (2 ^ 30)); get_of (lit "b") 8] in
  let '(ps, st) := run example_store rs in
  map (fun p => (rp_rc p, rp_bufs p)) ps = [(0, []); (0, []); (0, []); (12, []); (0, [lit "newsword"])] /\
  (bi_total <$> mt_blobs (rt_meta st) !! key_of (lit "b")) = Some 512 /\ (ti_total <$> mt_tags (rt_meta st) !! (512, 1)) = Some 3.
Proof. vm_compute. split_and!; reflexivity. Qed.

(** The mirror of the targets after a sweep that predicts that they fail within a day. *)
Definition dying (st : Runtime MemBdevTransport MaxBwDpe unit) : Runtime MemBdevTransport MaxBwDpe unit :=
  mkRuntime (rt_meta st) (rt_targets st)
    (map (fun t => mkTarget (tg_pool t) (tg_query t) (tg_score t) (tg_remaining t) 0 (tg_persistence t) (tg_write_bandwidth t)
                     (tg_read_latency t) (tg_write_latency t)) (rt_target_list st))
    (rt_devs st) (rt_dpe st) (rt_ipc st) (rt_logging st) (rt_wal st) (rt_threshold st).

(** Moving a blob when every device is predicted to fail loses it: the old
    blocks are freed before new ones are found, the code returned is that of a
    move that left the blob at its old score, and the log is not told. *)
Theorem reorganize_can_lose_the_blob :
  let st := dying (snd (run example_store [RPut (ex_put 0 (lit "mine") 0)])) in
  let '(ps, st') := run st [get_of (lit "b") 4; RReorganize (512, 1) (lit "b") 0 0; get_of (lit "b") 4] in
  map (fun p => (rp_rc p, rp_bufs p)) ps = [(0, [lit "mine"]); (7, []); (1, [zeros 4])] /\
  (bi_blocks <$> mt_blobs (rt_meta st') !! key_of (lit "b")) = Some [] /\ rt_wal st' = rt_wal st.
Proof. vm_compute. split_and!; reflexivity. Qed.

(** ** Blocks and pages *)

(** Small appends do not share a slab while the device serves them from its
    heap: it reports a block's logical size, so without preallocation a block has
    no slack and every append adds one. *)
Theorem appends_add_a_block_each :
  let rs := map (fun i => RPut (ex_put i (lit "x") 0)) (seqZ 0 12) in
  (map bb_size <$> (bi_blocks <$> mt_blobs (rt_meta (snd (run example_store rs))) !! key_of (lit "b"))) = Some (replicate 12 1) /\
  map bb_capacity <$> (bi_blocks <$> mt_blobs (rt_meta (snd (run example_store rs))) !! key_of (lit "b")) = Some (replicate 12 1).
Proof. split; vm_compute; reflexivity. Qed.

(** A device whose pages are committed by the first write reads zeros before
    it and, after it, whatever the heap had anywhere else in that page. *)
Theorem committed_page_shows_heap :
  let m := MemBdev_Init 1 two_mib 4096 None false (fun _ _ => Byte.xaa) [] in
  let m' := snd (dev_write m 0 (lit "x")) in
  fst (dev_read m 4096 2) = (2, [Byte.x00; Byte.x00]) /\ fst (dev_read m' 4096 2) = (2, [Byte.xaa; Byte.xaa]).
Proof. split; vm_compute; reflexivity. Qed.
