(* ===== verification/BlobRestart.v ===== *)
(** The CTE's blob store across a crash: its data path, its log, its snapshot and
    the restart together. *)
From Stdlib Require Import ZArith Lia.
From Stdlib Require Strings.String.
Import String.StringSyntax.
From coqutil Require Import Byte.
From stdpp Require Import base list gmap.
From S2P Require Import Prelude BlockAllocator TxnLog Text BlobMeta MetaLog MetaReplay BlobDevice BlobStore BlobBlocks BlobStep MemBdev BlobRefine Placement BlobLog BlobTheorems.

Open Scope Z_scope.

Section Restart.
Context {D P I : Type} `{BlockDeviceLaws D} `{Dpe P} `{BufferPool I}.
Implicit Types (st : Runtime D P I).

End Restart.

(** ** On the example: the first device is lost with the crash *)

Definition ex_volatile_ram (id : TagId) : bool := bool_decide (id = (512, 1)).
Definition ex_before : list request :=
  [RPut (ex_put 3 (lit "hello") 0); RPut (mkPut (512, 1) (lit "c") None 0 4 (Some (lit "cold")) 0 (mkContext false 2 0 0 0 2 0 0 0 float_minus_one) 0 [])].
Definition ex_after : list request :=
  [RPut (ex_put 0 (lit "copy") 1); RReorganize (512, 1) (lit "b") 0 0; RTruncate (512, 1) (lit "c") 2; RGet (ex_get 0 12 0)].

Definition ex_snap := snd (run example_store ex_before).
Definition ex_crash := snd (run ex_snap ex_after).

Lemma ex_snap_fits : meta_fits 1 (rt_meta ex_snap).
Proof.
  split.
  - apply (map_forall_decide (fun id t => tag_fits id t /\ ti_id t = id /\ mt_names (rt_meta ex_snap) !! ti_name t = Some id /\ snd id < 2 ^ 32 - 1)).
    vm_compute. reflexivity.
  - apply (map_forall_decide (fun key b => is_name key /\ blob_fits 1 b /\ Forall (replica_fits 1) (bi_replicas b) /\
      Z.of_nat (length (bi_replicas b)) < 2 ^ 31)).
    vm_compute. reflexivity.
Qed.

Definition ex_known : gset TagId := {[ (512, 1) ]}.

Lemma ex_store_known : known ex_known example_store.
Proof. intros tag Ht. apply elem_of_singleton in Ht as ->. vm_compute. by eexists. Qed.

Lemma ex_history_ok : Forall request_ok (ex_before ++ ex_after) /\ Forall (loggable ex_known) (ex_before ++ ex_after).
Proof.
  assert (put_request_ok (mkPut (512, 1) (lit "c") None 0 4 (Some (lit "cold")) 0 (mkContext false 2 0 0 0 2 0 0 0 float_minus_one) 0 [])) as Hp.
  { split; [|done|cbn; lia]. constructor; [|constructor]. unfold region_ok. cbn. split_and!; [done..|]. by intros d [= <-]. }
  assert ((512, 1) ∈ ex_known) as Hk by by apply elem_of_singleton.
  split; repeat apply Forall_cons_2; try apply Forall_nil_2; cbn [request_ok loggable];
    first [exact Hp|exact Hk|apply ex_put_ok; unfold len; cbn; lia|apply ex_get_ok; lia|lia|exact Logic.I].
Qed.

Lemma ex_wal_ok : Forall (fun t => txn_ok 1 t /\ minor_ok t) (rt_wal ex_crash).
Proof.
  let l := eval vm_compute in (rt_wal ex_crash) in assert (rt_wal ex_crash = l) as -> by (vm_compute; reflexivity).
  repeat (apply Forall_cons; split; [split; [|cbn; lia]|]); [..|apply Forall_nil_2];
    (split; [cbn; unfold ref_ok, blocks_ok, tag_ok, is_u32, is_u64, is_name; cbn; repeat split;
       try lia; repeat constructor; cbn; unfold is_u32, is_u64; cbn; lia|vm_compute; reflexivity]).
Qed.

