(* ===== verification/BlobLock.v ===== *)
(** The locks of a blob ([context-transfer-engine/core/include/clio_cte/core/core_tasks.h])
    and how the data path uses them ([core_runtime.cc]): a write token that one
    task holds from its first access to its last, and reader pins that keep the
    extents a get is reading from being freed.

    Requests run as coroutines that interleave at every suspension; a step is what
    one of them does between two suspensions, or one atomic access to a lock word
    where a method makes several. A loop that polls is a step that is not enabled
    yet. The heap of [BlobInfo] objects and the map from names to them are explicit:
    a request keeps the object it found when the name is erased or bound anew. The
    blocks stand for one copy of a blob; the handlers themselves are in [BlobStore]. *)
From Stdlib Require Import ZArith Lia.
From Stdlib Require Strings.String.
Import String.StringSyntax.
From stdpp Require Import base list gmap relations.
From S2P Require Import Prelude Threads Extents BlockAllocator TxnLog Text BlobMeta BlobDevice BlobStore BlobBlocks.

Open Scope Z_scope.

(** * The lock words *)

Record BlobLock := mkLock { write_owner_ : Z; read_state_ : Z }.
Definition BlobLock_new : BlobLock := mkLock 0 0.

Definition TryLockWrite (l : BlobLock) (tok : Z) : bool * BlobLock :=
  if write_owner_ l =? 0 then (true, mkLock tok (read_state_ l)) else (write_owner_ l =? tok, l).
Definition UnlockWrite (l : BlobLock) (tok : Z) : BlobLock :=
  if write_owner_ l =? tok then mkLock 0 (read_state_ l) else l.
Definition IsWriteLocked (l : BlobLock) : bool := negb (write_owner_ l =? 0).

Definition kReadDrainBit : Z := 2 ^ 63.
Definition draining (read_state : Z) : bool := negb (Z.land read_state kReadDrainBit =? 0).

(** [read_state_.fetch_add(1)], [read_state_.fetch_sub(1)] *)
Definition fetch_add (l : BlobLock) : BlobLock := mkLock (write_owner_ l) (u64 (read_state_ l + 1)).
Definition fetch_sub (l : BlobLock) : BlobLock := mkLock (write_owner_ l) (u64 (read_state_ l - 1)).

(** The method without interference; the machine below interleaves its accesses. *)
Definition TryPinRead (l : BlobLock) : bool * BlobLock :=
  if draining (read_state_ l) then (false, l)
  else let prev := read_state_ l in
       let l := fetch_add l in
       if draining prev then (false, fetch_sub l) else (true, l).
Definition UnpinRead (l : BlobLock) : BlobLock := fetch_sub l.

Definition BeginDrainReaders (l : BlobLock) : BlobLock := mkLock (write_owner_ l) (Z.lor (read_state_ l) kReadDrainBit).
Definition EndDrainReaders (l : BlobLock) : BlobLock := mkLock (write_owner_ l) (Z.land (read_state_ l) (2 ^ 64 - 1 - kReadDrainBit)).
Definition HasReadPins (l : BlobLock) : bool := negb (Z.land (read_state_ l) (2 ^ 64 - 1 - kReadDrainBit) =? 0).

(** * Requests that interleave *)

Inductive op :=
| OPut                      (** [PutBlob] *)
| OReplace (size : Z)       (** [PutBlob] with [kCtePutReplace] *)
| OTruncate (size : Z)      (** [TruncateBlob] *)
| ODel                      (** [DelBlob] *)
| OMove.                    (** [ReorganizeBlob] *)

(** Where a request is. A number is the index of the [BlobInfo] it has found. *)
Inductive task :=
| Start (k : op) (name : str)
| Wait (k : op) (name : str) (o : nat)              (** polls [TryLockWrite] *)
| Held (k : op) (name : str) (o : nat)              (** holds the token *)
| Drain (k : op) (name : str) (o : nat)             (** about to call [BeginDrainReaders] *)
| Poll (k : op) (name : str) (o : nat)              (** polls [HasReadPins] *)
| Freeing (k : op) (name : str) (o : nat) (rest : list BlobBlock)   (** blocks still to free *)
| Placing (o : nat)                                 (** a move has freed the old blocks *)
| EndDrain (k : op) (o : nat) (rc : Z)              (** the drain's guard *)
| Writing (o : nat)                                 (** the writes of a put are in flight *)
| Unlock (o : nat) (rc : Z)                         (** the token's guard *)
| Get (name : str) (size : Z)                       (** [GetBlob] of the bytes below [size] *)
| GetWait (o : nat) (size : Z)                      (** polls the size and [IsWriteLocked] *)
| GetPin (o : nat)                                  (** [TryPinRead]: about to load *)
| GetAdd (o : nat)                                  (** about to add *)
| GetBack (o : nat)                                 (** about to subtract again *)
| GetPinned (o : nat)
| Reading (o : nat) (blocks : list BlobBlock)       (** the reads of a snapshot are in flight *)
| Unpin (o : nat) (rc : Z)                          (** the pin's guard *)
| Done (rc : Z).

Record blob := mkBlob { bl_lock : BlobLock; bl_blocks : list BlobBlock }.

(** The heap of blobs, [tag_blob_name_to_info_], the requests, and ghost state:
    the extents the devices have given out, with the blob that asked for them. *)
Record world := mkWorld {
  w_blobs : list blob;
  w_names : gmap str nat;
  w_tasks : list task;
  w_used : list (nat * (TagId * extent)) }.

(** The task's address. *)
Definition tok (i : nat) : Z := Z.of_nat i + 1.

Definition set_task (i : nat) (t : task) (w : world) : world := mkWorld (w_blobs w) (w_names w) (<[i := t]> (w_tasks w)) (w_used w).
Definition set_lock (o : nat) (l : BlobLock) (w : world) : world :=
  mkWorld (alter (fun b => mkBlob l (bl_blocks b)) o (w_blobs w)) (w_names w) (w_tasks w) (w_used w).
Definition set_bl_blocks (o : nat) (bs : list BlobBlock) (w : world) : world :=
  mkWorld (alter (fun b => mkBlob (bl_lock b) bs) o (w_blobs w)) (w_names w) (w_tasks w) (w_used w).
Definition erase_name (name : str) (w : world) : world := mkWorld (w_blobs w) (delete name (w_names w)) (w_tasks w) (w_used w).

(** ** Devices *)

(** Extents no byte of which is in both. *)
Definition apart (e e' : TagId * extent) : bool :=
  negb (bool_decide (fst e = fst e')) ||
  (fst (snd e) + snd (snd e) <=? fst (snd e')) || (fst (snd e') + snd (snd e') <=? fst (snd e)).

Fixpoint all_apart (es : list (TagId * extent)) : bool :=
  match es with [] => true | e :: es => forallb (apart e) es && all_apart es end.

(** What a device may give: extents that are not empty and apart from those in use. *)
Definition fresh (bs : list BlobBlock) (used : list (nat * (TagId * extent))) : bool :=
  forallb (fun blk => (0 <? bb_capacity blk) && forallb (fun x => apart (place blk) (snd x)) used) bs && all_apart (map place bs).

Definition take_blocks (o : nat) (bs : list BlobBlock) (w : world) : world :=
  mkWorld (w_blobs w) (w_names w) (w_tasks w) (map (fun blk => (o, place blk)) bs ++ w_used w).
Definition free_blocks (o : nat) (bs : list BlobBlock) (w : world) : world :=
  mkWorld (w_blobs w) (w_names w) (w_tasks w)
    (List.filter (fun x => negb (bool_decide (x ∈ map (fun blk => (o, place blk)) bs))) (w_used w)).

(** ** Steps *)

(** What the devices and the placement decide: the blocks a blob has afterwards and
    whether the request got all it needed; the pool whose blocks are freed next. *)
Inductive choice := Go | Alloc (bs : list BlobBlock) (ok : bool) | FreePool (p : TagId).

Definition creates (k : op) : bool := match k with OPut | OReplace _ => true | _ => false end.
(** The return code when the name is not bound. *)
Definition absent_rc (k : op) : Z := match k with OTruncate _ => 0 | OMove => 3 | _ => 1 end.

(** The blocks a request frees, and those it leaves to the blob meanwhile. *)
Definition to_free (k : op) (bs : list BlobBlock) : list BlobBlock * list BlobBlock :=
  match k with
  | OReplace n | OTruncate n => split_blocks 0 n bs
  | ODel | OMove => (bs, bs)
  | OPut => (bs, [])
  end.

(** The blob's blocks grow: those it has stay where they are, new ones follow. *)
Definition grown (bs bs' : list BlobBlock) : bool := bool_decide (map place (take (length bs) bs') = map place bs).

Definition alloc_step (i o : nat) (b : blob) (c : choice) (w : world) : option world :=
  match c with
  | Alloc bs ok =>
      let new := drop (length (bl_blocks b)) bs in
      if grown (bl_blocks b) bs && fresh new (w_used w)
      then Some (set_task i (if ok then Writing o else Unlock o 12) (set_bl_blocks o bs (take_blocks o new w))) else None
  | _ => None
  end.

(** The blocks of a moved blob: all of them new, or none. *)
Definition place_step (i o : nat) (c : choice) (w : world) : option world :=
  match c with
  | Alloc bs ok =>
      if ok && fresh bs (w_used w) then Some (set_task i (EndDrain OMove o 0) (set_bl_blocks o bs (take_blocks o bs w)))
      else if ok then None else Some (set_task i (EndDrain OMove o 7) w)
  | _ => None
  end.

(** The request holds the token. *)
Definition held_step (i : nat) (k : op) (name : str) (o : nat) (b : blob) (c : choice) (w : world) : option world :=
  let total := total_size (bl_blocks b) in
  match k with
  | OPut => alloc_step i o b c w
  | OReplace n | OTruncate n =>
      if n <? total then Some (set_task i (Drain k name o) w)
      else if total <? n then alloc_step i o b c w
      else Some (set_task i (if creates k then Writing o else Unlock o 0) w)
  | ODel => Some (set_task i (Drain k name o) w)
  | OMove => if total =? 0 then Some (set_task i (Unlock o 0) w) else Some (set_task i (Drain k name o) w)
  end.

Definition free_step (i : nat) (k : op) (name : str) (o : nat) (rest : list BlobBlock) (c : choice) (w : world) : option world :=
  match rest, c with
  | [], _ =>
      Some match k with
           | ODel => set_task i (EndDrain k o 0) (erase_name name (set_bl_blocks o [] w))
           | OMove => set_task i (Placing o) (set_bl_blocks o [] w)
           | _ => set_task i (EndDrain k o 0) w
           end
  | _, FreePool p =>
      let bs := on_pool p rest in
      if (length bs =? 0)%nat then None
      else Some (set_task i (Freeing k name o (List.filter (fun blk => negb (bool_decide (bb_pool blk = p))) rest)) (free_blocks o bs w))
  | _, _ => None
  end.

(** [GetBlob]: the states of a get. *)
Definition get_step (i : nat) (t : task) (w : world) : option world :=
  match t with
  | Get name size =>
      match w_names w !! name with
      | Some o => Some (set_task i (GetWait o size) w)
      | None => Some (set_task i (Done 1) w)
      end
  | GetWait o size =>
      b ← w_blobs w !! o;
      if (total_size (bl_blocks b) <? size) && IsWriteLocked (bl_lock b) then None else Some (set_task i (GetPin o) w)
  | GetPin o => b ← w_blobs w !! o; if draining (read_state_ (bl_lock b)) then None else Some (set_task i (GetAdd o) w)
  | GetAdd o =>
      b ← w_blobs w !! o;
      Some (set_task i (if draining (read_state_ (bl_lock b)) then GetBack o else GetPinned o) (set_lock o (fetch_add (bl_lock b)) w))
  | GetBack o => b ← w_blobs w !! o; Some (set_task i (GetPin o) (set_lock o (fetch_sub (bl_lock b)) w))
  | GetPinned o =>
      b ← w_blobs w !! o;
      Some (set_task i (if total_size (bl_blocks b) =? 0 then Unpin o 1 else Reading o (bl_blocks b)) w)
  | Reading o _ => Some (set_task i (Unpin o 0) w)
  | Unpin o rc => b ← w_blobs w !! o; Some (set_task i (Done rc) (set_lock o (UnpinRead (bl_lock b)) w))
  | _ => None
  end.

Definition task_step (i : nat) (c : choice) (w : world) : option world :=
  t ← w_tasks w !! i;
  match t with
  | Start k name =>
      match w_names w !! name with
      | Some o => Some (set_task i (Wait k name o) w)
      | None =>
          if creates k
          then Some (set_task i (Wait k name (length (w_blobs w)))
                      (mkWorld (w_blobs w ++ [mkBlob BlobLock_new []]) (<[name := length (w_blobs w)]> (w_names w)) (w_tasks w) (w_used w)))
          else Some (set_task i (Done (absent_rc k)) w)
      end
  | Wait k name o =>
      b ← w_blobs w !! o;
      let '(ok, l) := TryLockWrite (bl_lock b) (tok i) in
      if ok then Some (set_task i (Held k name o) (set_lock o l w)) else None
  | Held k name o => b ← w_blobs w !! o; held_step i k name o b c w
  | Drain k name o => b ← w_blobs w !! o; Some (set_task i (Poll k name o) (set_lock o (BeginDrainReaders (bl_lock b)) w))
  | Poll k name o =>
      b ← w_blobs w !! o;
      if HasReadPins (bl_lock b) then None
      else let '(keep, drop) := to_free k (bl_blocks b) in
           Some (set_task i (Freeing k name o drop) (set_bl_blocks o keep w))
  | Freeing k name o rest => free_step i k name o rest c w
  | Placing o => place_step i o c w
  | EndDrain k o rc =>
      b ← w_blobs w !! o;
      Some (set_task i (if creates k then Writing o else Unlock o rc) (set_lock o (EndDrainReaders (bl_lock b)) w))
  | Writing o => Some (set_task i (Unlock o 0) w)
  | Unlock o rc => b ← w_blobs w !! o; Some (set_task i (Done rc) (set_lock o (UnlockWrite (bl_lock b) (tok i)) w))
  | Done _ => None
  | _ => get_step i t w
  end.

Definition step (w w' : world) : Prop := exists i c, task_step i c w = Some w'.

(** Requests that have not started, on an empty store. *)
Definition request_start (t : task) : bool := match t with Start _ _ | Get _ _ => true | _ => false end.
Definition init (requests : list task) : world := mkWorld [] ∅ requests [].

(** A schedule: which request goes next, and what is decided for it. *)
Fixpoint schedule (xs : list (nat * choice)) (w : world) : option world :=
  match xs with [] => Some w | (i, c) :: xs => w ← task_step i c w; schedule xs w end.

(** * The lock words tell who is where *)

(** Who holds the token, has set the drain bit, is counted as a pin, reads with a
    pin, frees. *)
Definition holds (t : task) : option nat :=
  match t with
  | Held _ _ o | Drain _ _ o | Poll _ _ o | Freeing _ _ o _ | Placing o | EndDrain _ o _ | Writing o | Unlock o _ => Some o
  | _ => None
  end.
Definition drains (t : task) : option nat :=
  match t with Poll _ _ o | Freeing _ _ o _ | Placing o | EndDrain _ o _ => Some o | _ => None end.
Definition frees (t : task) : option nat := match t with Freeing _ _ o _ | Placing o => Some o | _ => None end.
Definition reads (t : task) : option nat := match t with GetPinned o | Reading o _ | Unpin o _ => Some o | _ => None end.
Definition pins (t : task) : option nat := match t with GetBack o => Some o | _ => reads t end.

Definition at_ (f : task -> option nat) (o : nat) (t : task) : bool := bool_decide (f t = Some o).

(** The words of blob [o] against the tasks: the owner is the task that holds the
    token, the bit is set while one drains, the count is that of the pins; nothing
    is freed while a get reads. *)
Definition owner_ok (o : nat) (owner : Z) (ts : list task) : Prop :=
  (forall i t, ts !! i = Some t -> holds t = Some o -> owner = tok i) /\
  (owner <> 0 -> exists i t, ts !! i = Some t /\ holds t = Some o).
Definition state_ok (o : nat) (state : Z) (ts : list task) : Prop :=
  exists b, state = Z.of_nat (count (at_ pins o) ts) + Z.b2z b * kReadDrainBit /\
    (b = true <-> exists i t, ts !! i = Some t /\ drains t = Some o).
Definition quiet (o : nat) (ts : list task) : Prop :=
  forall i t j t', ts !! i = Some t -> ts !! j = Some t' -> frees t = Some o -> reads t' = Some o -> False.

(** The arithmetic of the two parts of [read_state_]. *)
Lemma state_bit n b : 0 <= n < 2 ^ 63 -> Z.land (n + Z.b2z b * kReadDrainBit) kReadDrainBit = Z.b2z b * kReadDrainBit.
Proof.
  intros Hn. unfold kReadDrainBit. apply Z.bits_inj'. intros k Hk. rewrite Z.land_spec, Z.pow2_bits_eqb by lia.
  destruct (Z.eqb_spec 63 k) as [<-|Hne].
  - rewrite andb_true_r. rewrite !Z.testbit_eqb by lia. f_equal. destruct b; cbn [Z.b2z].
    + rewrite Z.div_add, Z.mul_1_l by lia. rewrite Z.div_small by lia. by vm_compute.
    + rewrite Z.mul_0_l, Z.add_0_r, Z.div_small by lia. done.
  - rewrite andb_false_r. destruct b; cbn [Z.b2z]; [rewrite Z.mul_1_l, Z.pow2_bits_eqb by lia|by rewrite Z.mul_0_l, Z.bits_0].
    by apply Z.eqb_neq in Hne as ->.
Qed.

Lemma state_draining n b : 0 <= n < 2 ^ 63 -> draining (n + Z.b2z b * kReadDrainBit) = b.
Proof. intros Hn. unfold draining. rewrite state_bit by done. by destruct b. Qed.

Lemma state_pins n b : 0 <= n < 2 ^ 63 -> Z.land (n + Z.b2z b * kReadDrainBit) (2 ^ 64 - 1 - kReadDrainBit) = n.
Proof.
  intros Hn. change (2 ^ 64 - 1 - kReadDrainBit) with (Z.ones 63). rewrite Z.land_ones by lia.
  unfold kReadDrainBit. rewrite Z.mod_add by lia. apply Z.mod_small. lia.
Qed.

Lemma state_set n b : 0 <= n < 2 ^ 63 -> Z.lor (n + Z.b2z b * kReadDrainBit) kReadDrainBit = n + Z.b2z true * kReadDrainBit.
Proof.
  intros Hn. pose proof (Z.add_lor_land (n + Z.b2z b * kReadDrainBit) kReadDrainBit) as H. rewrite state_bit in H by done.
  destruct b; cbn [Z.b2z] in *; lia.
Qed.

Lemma at_true f o t : at_ f o t = true <-> f t = Some o.
Proof. apply bool_decide_eq_true. Qed.

Lemma drains_holds t o : drains t = Some o -> holds t = Some o.
Proof. by destruct t. Qed.
Lemma frees_drains t o : frees t = Some o -> drains t = Some o.
Proof. by destruct t. Qed.
Lemma reads_pins t o : reads t = Some o -> pins t = Some o.
Proof. by destruct t. Qed.
Lemma tok_inj i j : tok i = tok j -> i = j.
Proof. unfold tok. lia. Qed.
Lemma tok_pos i : tok i <> 0.
Proof. unfold tok. lia. Qed.

(** One task moves. *)
Section Move.
Context (ts : list task) (i : nat) (t t' : task) (o : nat) (Hi : ts !! i = Some t).

Lemma other_task (f : task -> option nat) j u : at_ f o t' = at_ f o t -> <[i := t']> ts !! j = Some u -> f u = Some o ->
  exists u', ts !! j = Some u' /\ f u' = Some o.
Proof.
  intros He Hj Hf. destruct (decide (i = j)) as [<-|Hne]; [|rewrite list_lookup_insert_ne in Hj by done; eauto].
  rewrite list_lookup_insert_eq in Hj by by eapply lookup_lt_Some. injection Hj as <-.
  exists t. split; [done|]. apply at_true. rewrite <- He. by apply at_true.
Qed.

Lemma this_task : <[i := t']> ts !! i = Some t'.
Proof. apply list_lookup_insert_eq. by eapply lookup_lt_Some. Qed.

Lemma exists_same (f : task -> option nat) : at_ f o t' = at_ f o t ->
  (exists j u, <[i := t']> ts !! j = Some u /\ f u = Some o) <-> (exists j u, ts !! j = Some u /\ f u = Some o).
Proof.
  intros He. split; intros (j & u & Hj & Hf).
  - destruct (other_task f j u He Hj Hf) as (u' & Hu & Hf'). eauto.
  - destruct (decide (i = j)) as [<-|Hne]; [|exists j, u; by rewrite list_lookup_insert_ne].
    exists i, t'. split; [apply this_task|]. apply at_true. rewrite He. apply at_true. congruence.
Qed.

Lemma owner_same z : at_ holds o t' = at_ holds o t -> owner_ok o z ts -> owner_ok o z (<[i := t']> ts).
Proof.
  intros He [H1 H2]. split; [|intros Hz; by apply exists_same, H2].
  intros j u Hj Hu. destruct (other_task holds j u He Hj Hu) as (u' & Hj' & Hu'). eauto.
Qed.

Lemma owner_acquire : holds t' = Some o -> owner_ok o 0 ts -> owner_ok o (tok i) (<[i := t']> ts).
Proof.
  intros Ht [H1 _]. split; [|intros _; exists i, t'; split; [apply this_task|done]].
  intros j u Hj Hu. destruct (decide (i = j)) as [<-|Hne]; [done|]. rewrite list_lookup_insert_ne in Hj by done.
  pose proof (H1 j u Hj Hu) as E. by edestruct tok_pos.
Qed.

Lemma owner_release z : holds t = Some o -> holds t' <> Some o -> owner_ok o z ts -> owner_ok o 0 (<[i := t']> ts).
Proof.
  intros Ht Ht' [H1 _]. split; [|done]. intros j u Hj Hu. destruct (decide (i = j)) as [<-|Hne].
  - rewrite this_task in Hj. congruence.
  - rewrite list_lookup_insert_ne in Hj by done. pose proof (H1 j u Hj Hu) as E1. rewrite (H1 i t Hi Ht) in E1. by apply tok_inj in E1.
Qed.

Lemma count_same : at_ pins o t' = at_ pins o t -> count (at_ pins o) (<[i := t']> ts) = count (at_ pins o) ts.
Proof. intros He. pose proof (count_insert (at_ pins o) ts i t t' Hi) as E. rewrite He in E. lia. Qed.

Lemma state_same z : at_ pins o t' = at_ pins o t -> at_ drains o t' = at_ drains o t -> state_ok o z ts -> state_ok o z (<[i := t']> ts).
Proof. intros Hp Hd (b & -> & Hb). exists b. rewrite count_same by done. split; [done|]. by rewrite exists_same. Qed.

Context (Hlen : Z.of_nat (length ts) < 2 ^ 63).

Lemma pins_range : 0 <= Z.of_nat (count (at_ pins o) ts) < 2 ^ 63.
Proof. pose proof (count_length (at_ pins o) ts). lia. Qed.

Lemma state_begin z : at_ pins o t' = at_ pins o t -> drains t' = Some o -> state_ok o z ts ->
  state_ok o (Z.lor z kReadDrainBit) (<[i := t']> ts).
Proof.
  intros Hp Hd (b & -> & Hb). exists true. rewrite state_set by apply pins_range. rewrite count_same by done.
  split; [done|]. split; [|done]. intros _. exists i, t'. split; [apply this_task|done].
Qed.

Lemma state_end z owner : at_ pins o t' = at_ pins o t -> drains t = Some o -> drains t' <> Some o -> owner_ok o owner ts -> state_ok o z ts ->
  state_ok o (Z.land z (2 ^ 64 - 1 - kReadDrainBit)) (<[i := t']> ts).
Proof.
  intros Hp Hd Hd' [H1 _] (b & -> & Hb). exists false. rewrite state_pins by apply pins_range. rewrite count_same by done.
  split; [cbn [Z.b2z]; lia|]. split; [done|]. intros (j & u & Hj & Hu). destruct (decide (i = j)) as [<-|Hne].
  - rewrite this_task in Hj. congruence.
  - rewrite list_lookup_insert_ne in Hj by done. destruct Hne. apply tok_inj.
    by rewrite <- (H1 j u Hj (drains_holds _ _ Hu)), (H1 i t Hi (drains_holds _ _ Hd)).
Qed.

Lemma state_add z : pins t <> Some o -> pins t' = Some o -> at_ drains o t' = at_ drains o t -> state_ok o z ts ->
  state_ok o (u64 (z + 1)) (<[i := t']> ts).
Proof.
  intros Hp Hp' Hd (b & -> & Hb). exists b. rewrite exists_same by done. split; [|done].
  pose proof (count_insert (at_ pins o) ts i t t' Hi) as E. pose proof (count_length (at_ pins o) (<[i:=t']> ts)) as E'. rewrite length_insert in E'.
  apply at_true in Hp'. rewrite Hp' in E. destruct (at_ pins o t) eqn:Et; [by apply at_true in Et; congruence|]. cbn [Nat.b2n] in E.
  unfold kReadDrainBit. rewrite u64_small; [lia|]. destruct b; cbn [Z.b2z]; lia.
Qed.

Lemma state_sub z : pins t = Some o -> pins t' <> Some o -> at_ drains o t' = at_ drains o t -> state_ok o z ts ->
  state_ok o (u64 (z - 1)) (<[i := t']> ts).
Proof.
  intros Hp Hp' Hd (b & -> & Hb). exists b. rewrite exists_same by done. split; [|done].
  pose proof (count_insert (at_ pins o) ts i t t' Hi) as E. pose proof pins_range as Hr.
  apply at_true in Hp. rewrite Hp in E. destruct (at_ pins o t') eqn:Et; [by apply at_true in Et|]. cbn [Nat.b2n] in E.
  unfold kReadDrainBit. rewrite u64_small; [lia|]. destruct b; cbn [Z.b2z]; lia.
Qed.

Lemma quiet_same : (frees t' = Some o -> frees t = Some o) -> (reads t' = Some o -> reads t = Some o) -> quiet o ts -> quiet o (<[i := t']> ts).
Proof.
  intros Hf Hr Hq j u j' u' Hj Hj' Hu Hu'.
  assert (exists v, ts !! j = Some v /\ frees v = Some o) as (v & Hv & Hfv).
  { destruct (decide (i = j)) as [<-|Hne]; [rewrite this_task in Hj; injection Hj as <-; eauto|rewrite list_lookup_insert_ne in Hj by done; eauto]. }
  assert (exists v, ts !! j' = Some v /\ reads v = Some o) as (v' & Hv' & Hrv).
  { destruct (decide (i = j')) as [<-|Hne]; [rewrite this_task in Hj'; injection Hj' as <-; eauto|rewrite list_lookup_insert_ne in Hj' by done; eauto]. }
  by eapply (Hq j v j' v').
Qed.

(** A drainer that sees no pins may free. *)
Lemma quiet_free z : state_ok o z ts -> Z.land z (2 ^ 64 - 1 - kReadDrainBit) = 0 -> reads t' <> Some o -> quiet o (<[i := t']> ts).
Proof.
  intros (b & -> & _) Hz Hr j u j' u' Hj Hj' _ Hu'. rewrite state_pins in Hz by apply pins_range.
  destruct (decide (i = j')) as [<-|Hne]; [rewrite this_task in Hj'; congruence|]. rewrite list_lookup_insert_ne in Hj' by done.
  pose proof (count_zero (at_ pins o) ts j' u' ltac:(lia) Hj') as H. apply reads_pins, at_true in Hu'. congruence.
Qed.

(** A reader that saw no drain may read. *)
Lemma quiet_read z : state_ok o z ts -> draining z = false -> frees t' <> Some o -> quiet o (<[i := t']> ts).
Proof.
  intros (b & -> & Hb) Hz Hf j u j' u' Hj _ Hu _. rewrite state_draining in Hz by apply pins_range. subst b.
  destruct (decide (i = j)) as [<-|Hne]; [rewrite this_task in Hj; congruence|]. rewrite list_lookup_insert_ne in Hj by done.
  enough (false = true) by done. apply Hb. exists j, u. split; [done|]. by apply frees_drains.
Qed.
End Move.

(** * The invariant *)

Definition lock_ok (o : nat) (l : BlobLock) (ts : list task) : Prop :=
  owner_ok o (write_owner_ l) ts /\ state_ok o (read_state_ l) ts /\ quiet o ts.
Definition locks_ok (ls : list BlobLock) (ts : list task) : Prop := forall o l, ls !! o = Some l -> lock_ok o l ts.
Definition locks (w : world) : list BlobLock := map bl_lock (w_blobs w).

(** The blob a request has found. *)
Definition found (t : task) : option nat :=
  match t with
  | Wait _ _ o | Held _ _ o | Drain _ _ o | Poll _ _ o | Freeing _ _ o _ | Placing o | EndDrain _ o _ | Writing o | Unlock o _
  | GetWait o _ | GetPin o | GetAdd o | GetBack o | GetPinned o | Reading o _ | Unpin o _ => Some o
  | _ => None
  end.

Definition indices_ok (w : world) : Prop :=
  (forall i t o, w_tasks w !! i = Some t -> found t = Some o -> (o < length (w_blobs w))%nat) /\
  (forall name o, w_names w !! name = Some o -> (o < length (w_blobs w))%nat) /\
  Z.of_nat (length (w_tasks w)) < 2 ^ 63.

(** A move that changes nothing the words of blob [o] depend on. *)
Definition neutral (o : nat) (t t' : task) : Prop :=
  at_ holds o t' = at_ holds o t /\ at_ pins o t' = at_ pins o t /\ at_ drains o t' = at_ drains o t /\
  (frees t' = Some o -> frees t = Some o) /\ (reads t' = Some o -> reads t = Some o).

Lemma lock_ok_neutral ts i t t' o l : ts !! i = Some t -> neutral o t t' -> lock_ok o l ts -> lock_ok o l (<[i := t']> ts).
Proof.
  intros Hi (H1 & H2 & H3 & H4 & H5) (L1 & L2 & L3). split_and!; [by eapply owner_same|by eapply state_same|by eapply quiet_same].
Qed.

Lemma locks_stay ls ts i t t' : ts !! i = Some t -> (forall o, neutral o t t') -> locks_ok ls ts -> locks_ok ls (<[i := t']> ts).
Proof. intros Hi Hn Hl o l Ho. eapply lock_ok_neutral; eauto. Qed.

(** The lock of blob [o] may change with the move, the others do not. *)
Lemma locks_move ls ts i t t' o l l' : ts !! i = Some t -> ls !! o = Some l -> (forall o', o' <> o -> neutral o' t t') ->
  (lock_ok o l ts -> lock_ok o l' (<[i := t']> ts)) -> locks_ok ls ts -> locks_ok (<[o := l']> ls) (<[i := t']> ts).
Proof.
  intros Hi Ho Hn Hm Hl o' k Hk. destruct (decide (o = o')) as [<-|Hne].
  - rewrite list_lookup_insert_eq in Hk by by eapply lookup_lt_Some. injection Hk as <-. auto.
  - rewrite list_lookup_insert_ne in Hk by done. eapply lock_ok_neutral; eauto.
Qed.

Lemma locks_set_lock o l w : locks (set_lock o l w) = <[o := l]> (locks w).
Proof.
  unfold locks. cbn. revert o. induction (w_blobs w) as [|b bs IH]; intros [|o]; cbn; [done..|]. by rewrite IH.
Qed.
Lemma locks_set_blocks o bs w : locks (set_bl_blocks o bs w) = locks w.
Proof.
  unfold locks. cbn. revert o. induction (w_blobs w) as [|b l IH]; intros [|o]; cbn; [done..|]. by rewrite IH.
Qed.
Lemma locks_lookup w o b : w_blobs w !! o = Some b -> locks w !! o = Some (bl_lock b).
Proof. intros H. unfold locks. apply list_lookup_fmap_Some. eauto. Qed.

(** A blob no request has found. *)
Lemma lock_ok_new ts o : (forall i t, ts !! i = Some t -> found t <> Some o) -> lock_ok o BlobLock_new ts.
Proof.
  intros Hf. assert (forall f : task -> option nat, (forall t, f t = Some o -> found t = Some o) -> forall i t, ts !! i = Some t -> f t <> Some o) as Hno.
  { intros f Hs i t Hi E. by apply (Hf i t Hi), Hs. }
  assert (forall t, holds t = Some o -> found t = Some o) as H1 by by intros [].
  assert (forall t, drains t = Some o -> found t = Some o) as H2 by by intros [].
  assert (forall t, frees t = Some o -> found t = Some o) as H3 by by intros [].
  assert (forall t, pins t = Some o -> found t = Some o) as H4 by by intros [].
  split_and!.
  - split; [intros i t Hi Ht; by edestruct (Hno holds)|done].
  - exists false. split.
    + destruct (decide (count (at_ pins o) ts = 0%nat)) as [->|Hc]; [done|]. apply count_pos in Hc as (i & t & Hi & Hp).
      apply at_true in Hp. by edestruct (Hno pins).
    + split; [done|]. intros (i & t & Hi & Ht). by edestruct (Hno drains).
  - intros i t j t' Hi _ Ht _. by edestruct (Hno frees).
Qed.

Lemma locks_new w : indices_ok w -> locks_ok (locks w) (w_tasks w) -> locks_ok (locks w ++ [BlobLock_new]) (w_tasks w).
Proof.
  intros (Hf & _) Hl o l Ho. apply lookup_app_Some in Ho as [Ho|[Hge Ho]]; [auto|].
  apply list_lookup_singleton_Some in Ho as [Hz <-]. apply lock_ok_new. intros i t Hi Ht. specialize (Hf i t o Hi Ht).
  unfold locks in *. rewrite length_map in *. lia.
Qed.

(** Decides the attributes of concrete requests. *)
Ltac attrs := unfold neutral, at_ in *; cbn [holds drains frees reads pins found] in *; repeat case_bool_decide; split_and?; try congruence; try done.

(** What the holder of a token does next. *)
Lemma held_step_spec i k name o b c w w' : held_step i k name o b c w = Some w' ->
  (exists t', w' = set_task i t' w /\ (t' = Drain k name o \/ t' = Writing o \/ t' = Unlock o 0)) \/
  alloc_step i o b c w = Some w'.
Proof.
  unfold held_step. intros H. destruct k; repeat case_match; simplify_eq; try (by right); left; eexists; split; try done; auto.
Qed.

Lemma alloc_step_spec i o b c w w' : alloc_step i o b c w = Some w' -> exists bs t',
  map place (take (length (bl_blocks b)) bs) = map place (bl_blocks b) /\
  fresh (drop (length (bl_blocks b)) bs) (w_used w) = true /\ (t' = Writing o \/ t' = Unlock o 12) /\
  w' = set_task i t' (set_bl_blocks o bs (take_blocks o (drop (length (bl_blocks b)) bs) w)).
Proof.
  unfold alloc_step. intros H. destruct c as [|bs ok|]; [done| |done]. destruct (grown _ _ && _) eqn:E; [|done]. simplify_eq.
  apply andb_true_iff in E as [E1 E2]. apply bool_decide_eq_true in E1. exists bs, (if ok then Writing o else Unlock o 12).
  split_and!; [done|done|destruct ok; auto|done].
Qed.

Lemma free_step_spec i k name o rest c w w' : free_step i k name o rest c w = Some w' ->
  (rest = [] /\ (k = ODel /\ w' = set_task i (EndDrain k o 0) (erase_name name (set_bl_blocks o [] w)) \/
    k = OMove /\ w' = set_task i (Placing o) (set_bl_blocks o [] w) \/
    k <> ODel /\ k <> OMove /\ w' = set_task i (EndDrain k o 0) w)) \/
  exists p, on_pool p rest <> [] /\
    w' = set_task i (Freeing k name o (List.filter (fun blk => negb (bool_decide (bb_pool blk = p))) rest)) (free_blocks o (on_pool p rest) w).
Proof.
  unfold free_step. destruct rest as [|x rest].
  - intros [= <-]. left. split; [done|]. destruct k; auto.
  - destruct c as [| |p]; [done..|]. destruct (Nat.eqb_spec (length (on_pool p (x :: rest))) 0) as [E|E]; [done|]. intros [= <-]. right.
    exists p. split; [|done]. intros E'. by rewrite E' in E.
Qed.

Lemma place_step_spec i o c w w' : place_step i o c w = Some w' ->
  w' = set_task i (EndDrain OMove o 7) w \/
  exists bs, fresh bs (w_used w) = true /\ w' = set_task i (EndDrain OMove o 0) (set_bl_blocks o bs (take_blocks o bs w)).
Proof.
  unfold place_step. destruct c as [|bs [] |]; [done| | |done]; cbn [andb]; [|intros [= <-]; by left].
  destruct (fresh bs _) eqn:E; [|done]. intros [= <-]. right. by exists bs.
Qed.

Lemma TryLockWrite_spec l n : match TryLockWrite l (tok n) with
  | (true, l') => read_state_ l' = read_state_ l /\ write_owner_ l' = tok n /\ (write_owner_ l = 0 \/ write_owner_ l = tok n)
  | (false, l') => write_owner_ l <> 0
  end.
Proof.
  unfold TryLockWrite. destruct (Z.eqb_spec (write_owner_ l) 0); [by auto|]. destruct (Z.eqb_spec (write_owner_ l) (tok n)); by auto.
Qed.

Lemma acquire_ok ts i t t' o l l' : ts !! i = Some t -> TryLockWrite l (tok i) = (true, l') -> holds t = None -> holds t' = Some o ->
  at_ pins o t' = at_ pins o t -> at_ drains o t' = at_ drains o t -> frees t' = None -> reads t' = None ->
  lock_ok o l ts -> lock_ok o l' (<[i := t']> ts).
Proof.
  intros Hi E Ht Ht' Hp Hd Hf Hr (L1 & L2 & L3). pose proof (TryLockWrite_spec l i) as H. rewrite E in H. unfold lock_ok. destruct H as (-> & -> & H).
  split_and!; [|by eapply state_same|eapply quiet_same; [done|congruence..|done]]. destruct H as [H|H]; [rewrite H in L1; by eapply owner_acquire|].
  destruct L1 as [L1 L1']. destruct L1' as (j & u & Hj & Hu); [rewrite H; apply tok_pos|].
  pose proof (L1 j u Hj Hu) as E'. rewrite H in E'. apply tok_inj in E' as <-. congruence.
Qed.

Lemma release_ok ts i t t' o l : ts !! i = Some t -> holds t = Some o -> holds t' = None ->
  at_ pins o t' = at_ pins o t -> at_ drains o t' = at_ drains o t -> frees t' = None -> reads t' = None ->
  lock_ok o l ts -> lock_ok o (UnlockWrite l (tok i)) (<[i := t']> ts).
Proof.
  intros Hi Ht Ht' Hp Hd Hf Hr (L1 & L2 & L3). unfold UnlockWrite. rewrite (proj1 L1 i t Hi Ht), Z.eqb_refl.
  split_and!; [|by eapply state_same|eapply quiet_same; [done|congruence..|done]]. eapply owner_release; [done|done|congruence|done].
Qed.

(** Every step keeps the words true. *)
Lemma step_locks w i c w' : indices_ok w -> locks_ok (locks w) (w_tasks w) -> task_step i c w = Some w' -> locks_ok (locks w') (w_tasks w').
Proof.
  intros Hx Hl H. pose proof Hx as (Hwf & _ & Hlen). unfold task_step, get_step in H. apply bind_Some in H as (t & Hi & H). destruct t.
  all: try (apply bind_Some in H as (b & Ho & H); pose proof (locks_lookup _ _ _ Ho) as Hlo).
  - destruct (w_names w !! name) as [o|]; [injection H as <-; eapply locks_stay; [done|intros o'; attrs|done]|].
    destruct (creates k); injection H as <-; [|eapply locks_stay; [done|intros o'; attrs|done]].
    eapply locks_stay; [done|intros o'; attrs|]. unfold locks. cbn. rewrite map_app. by apply locks_new.
  - destruct (TryLockWrite _ _) as [[] l] eqn:E; [|done]. injection H as <-. cbn [set_task w_tasks set_lock]. 
    change (locks (set_task _ _ ?w)) with (locks w). rewrite locks_set_lock.
    eapply locks_move; [done|done|intros o' Hne; attrs|intros; eapply acquire_ok; try done; attrs|done].
  - apply held_step_spec in H as [(t' & -> & Ht')|H].
    { eapply locks_stay; [done| |done]. intros o'. destruct Ht' as [->|[->| ->]]; attrs. }
    apply alloc_step_spec in H as (bs & t' & _ & _ & Ht' & ->). change (locks (set_task _ _ ?w)) with (locks w). rewrite locks_set_blocks.
    eapply locks_stay; [done| |done]. intros o'. destruct Ht' as [->| ->]; attrs.
  - injection H as <-. change (locks (set_task _ _ ?w)) with (locks w). rewrite locks_set_lock. 
    eapply locks_move; [done|done|intros o' Hne; attrs| |done]. intros (L1 & L2 & L3). split_and!; [by eapply owner_same|by eapply state_begin|by eapply quiet_same].
  - destruct (HasReadPins _) eqn:E; [done|]. destruct (to_free _ _) as [keep drop]. injection H as <-.
    change (locks (set_task _ _ ?w)) with (locks w). rewrite locks_set_blocks. unfold HasReadPins in E. apply negb_false_iff, Z.eqb_eq in E.
    intros o' l' Ho'. destruct (decide (o' = o)) as [->|Hne]; [|eapply lock_ok_neutral; [done|attrs|by apply Hl]].
    rewrite Hlo in Ho'. injection Ho' as <-. destruct (Hl _ _ Hlo) as (L1 & L2 & L3).
    split_and!; [eapply owner_same; [done|attrs|done]|eapply state_same; [done|attrs|attrs|done]|by eapply quiet_free].
  - apply free_step_spec in H as [[_ [[-> ->]|[[-> ->]|(_ & _ & ->)]]]|(p & _ & ->)];
      repeat change (locks (set_task _ _ ?w)) with (locks w); repeat change (locks (erase_name _ ?w)) with (locks w); rewrite ?locks_set_blocks;
      eapply locks_stay; try done; intros o'; attrs.
  - apply place_step_spec in H as [->|(bs & _ & ->)]; change (locks (set_task _ _ ?w)) with (locks w); rewrite ?locks_set_blocks;
      eapply locks_stay; try done; intros o'; attrs.
  - injection H as <-. change (locks (set_task _ _ ?w)) with (locks w). rewrite locks_set_lock.
    eapply locks_move; [done|done|intros o' Hne; destruct (creates k); attrs| |done]. intros (L1 & L2 & L3).
    split_and!; [eapply owner_same; [done|destruct (creates k); attrs|done]| |eapply quiet_same; [done|destruct (creates k); attrs..|done]].
    eapply state_end; try done; destruct (creates k); attrs.
  - injection H as <-. eapply locks_stay; [done|intros o'; attrs|done].
  - injection H as <-. change (locks (set_task _ _ ?w)) with (locks w). rewrite locks_set_lock.
    eapply locks_move; [done|done|intros o' Hne; attrs|intros; eapply release_ok; try done; attrs|done].
  - destruct (w_names w !! name) as [o|]; simplify_eq; (eapply locks_stay; [done|intros o0; attrs|done]).
  - destruct (_ && _); [done|]. injection H as <-. eapply locks_stay; [done|intros o'; attrs|done].
  - destruct (draining _); [done|]. injection H as <-. eapply locks_stay; [done|intros o'; attrs|done].
  - injection H as <-. change (locks (set_task _ _ ?w)) with (locks w). rewrite locks_set_lock.
    eapply locks_move; [done|done|intros o' Hne; case_match; attrs| |done]. intros (L1 & L2 & L3). cbn [fetch_add write_owner_ read_state_].
    destruct (draining _) eqn:E; (split_and!; [eapply owner_same; [done|attrs|done]|eapply state_add; try done; attrs|]).
    + eapply quiet_same; [done|attrs..|done].
    + by eapply quiet_read.
  - injection H as <-. change (locks (set_task _ _ ?w)) with (locks w). rewrite locks_set_lock.
    eapply locks_move; [done|done|intros o' Hne; attrs| |done]. intros (L1 & L2 & L3).
    split_and!; [eapply owner_same; [done|attrs|done]|eapply state_sub; try done; attrs|eapply quiet_same; [done|attrs..|done]].
  - injection H as <-. eapply locks_stay; [done|intros o'; case_match; attrs|done].
  - injection H as <-. eapply locks_stay; [done|intros o'; attrs|done].
  - injection H as <-. change (locks (set_task _ _ ?w)) with (locks w). rewrite locks_set_lock.
    eapply locks_move; [done|done|intros o' Hne; attrs| |done]. intros (L1 & L2 & L3).
    split_and!; [eapply owner_same; [done|attrs|done]|eapply state_sub; try done; attrs|eapply quiet_same; [done|attrs..|done]].
  - done.
Qed.

Lemma indices_move w w' i t t' : indices_ok w -> w_tasks w !! i = Some t -> (length (w_blobs w) <= length (w_blobs w'))%nat ->
  w_tasks w' = <[i := t']> (w_tasks w) -> (forall o, found t' = Some o -> (o < length (w_blobs w'))%nat) ->
  (forall name o, w_names w' !! name = Some o -> w_names w !! name = Some o \/ (o < length (w_blobs w'))%nat) -> indices_ok w'.
Proof.
  intros (H1 & H2 & H3) Hi Hle Ht Hf Hn. unfold indices_ok. rewrite Ht, length_insert. split_and!; [|intros name o Hname; destruct (Hn _ _ Hname) as [E|E]; [specialize (H2 _ _ E)|]; lia|done].
  intros j u o Hj Hu. destruct (decide (i = j)) as [<-|Hne]; [rewrite (this_task _ _ t) in Hj by done; injection Hj as <-; auto|].
  rewrite list_lookup_insert_ne in Hj by done. specialize (H1 j u o Hj Hu). lia.
Qed.

Lemma step_indices w i c w' : indices_ok w -> task_step i c w = Some w' -> indices_ok w'.
Proof.
  intros Hx H. pose proof Hx as (Hwf & Hnm & _). unfold task_step, get_step in H. apply bind_Some in H as (t & Hi & H).
  pose proof (fun o => Hwf i t o Hi) as Hft.
  destruct t; try (apply bind_Some in H as (b & Ho & H)).
  all: try (apply held_step_spec in H as [(t' & -> & Ht')|H]; [|apply alloc_step_spec in H as (bs & t' & _ & _ & Ht' & ->)]).
  all: try (apply free_step_spec in H as [[_ [[-> ->]|[[-> ->]|(_ & _ & ->)]]]|(p & _ & ->)]).
  all: try (apply place_step_spec in H as [->|(bs & _ & ->)]).
  all: repeat case_match; simplify_eq; (eapply indices_move; [exact Hx|exact Hi| |reflexivity| |]).
  all: cbn [set_task set_lock set_bl_blocks take_blocks free_blocks erase_name w_blobs w_names w_tasks]; rewrite ?length_alter, ?length_app; cbn [length]; try lia.
  all: try (intros; by left).
  all: try (intros o' Ho'; cbn in Ho'; simplify_eq; first [lia|by eapply Hnm|by apply Hft|by eapply lookup_lt_Some]).
  - intros name' o' Hn. destruct (decide (name = name')) as [<-|Hne].
    + rewrite lookup_insert_eq in Hn. injection Hn as <-. right. lia.
    + rewrite lookup_insert_ne in Hn by done. by left.
  - intros o' Ho'. apply Hft. by destruct Ht' as [->|[->| ->]].
  - intros o' Ho'. apply Hft. by destruct Ht' as [->| ->].
  - intros name' o' Hn. apply lookup_delete_Some in Hn as [_ Hn]. by left.
Qed.

(** ** Extents *)

Definition separate (es : list (TagId * extent)) : Prop :=
  NoDup es /\ forall x y, x ∈ es -> y ∈ es -> x <> y -> apart x y = true.
Definition owned_by (used : list (nat * (TagId * extent))) (o : nat) (bs : list BlobBlock) : Prop :=
  forall x, x ∈ bs -> (o, place x) ∈ used.
Definition blocks_of (w : world) (o : nat) : option (list BlobBlock) := bl_blocks <$> w_blobs w !! o.

(** The extents in use are apart. A blob's blocks are in use for it unless it is
    being freed; what is still to be freed and what is being read are in use. *)
Record extents_ok (w : world) : Prop := {
  ex_apart : separate (map snd (w_used w));
  ex_size o e : (o, e) ∈ w_used w -> 0 < snd (snd e);
  ex_nodup o bs : blocks_of w o = Some bs -> NoDup (map place bs);
  ex_blocks o bs : blocks_of w o = Some bs -> (forall i t, w_tasks w !! i = Some t -> frees t <> Some o) -> owned_by (w_used w) o bs;
  ex_rest i k name o rest : w_tasks w !! i = Some (Freeing k name o rest) -> owned_by (w_used w) o rest;
  ex_kept i k name o rest bs : w_tasks w !! i = Some (Freeing k name o rest) -> k <> ODel -> k <> OMove -> blocks_of w o = Some bs ->
    owned_by (w_used w) o bs /\ forall x y, x ∈ bs -> y ∈ rest -> place x <> place y;
  ex_placing i o : w_tasks w !! i = Some (Placing o) -> blocks_of w o = Some [];
  ex_reading i o bs : w_tasks w !! i = Some (Reading o bs) -> owned_by (w_used w) o bs }.

Lemma blocks_of_set_lock o l w o' : blocks_of (set_lock o l w) o' = blocks_of w o'.
Proof.
  unfold blocks_of. cbn. destruct (decide (o = o')) as [<-|Hne]; [|by rewrite list_lookup_alter_ne].
  rewrite list_lookup_alter_eq. by destruct (w_blobs w !! o).
Qed.
Lemma blocks_of_set o bs w o' : blocks_of (set_bl_blocks o bs w) o' = if decide (o = o') then (fun _ => bs) <$> blocks_of w o' else blocks_of w o'.
Proof.
  unfold blocks_of. cbn. destruct (decide (o = o')) as [<-|Hne]; [|by rewrite list_lookup_alter_ne].
  rewrite list_lookup_alter_eq. by destruct (w_blobs w !! o).
Qed.

Lemma apart_sym e e' : apart e e' = apart e' e.
Proof.
  unfold apart. rewrite (bool_decide_ext (fst e = fst e') (fst e' = fst e)) by (split; congruence).
  rewrite <- !orb_assoc. f_equal. apply orb_comm.
Qed.

Lemma apart_irrefl e : 0 < snd (snd e) -> apart e e = false.
Proof.
  intros H. unfold apart. rewrite bool_decide_eq_true_2 by done. cbn [negb orb].
  by rewrite (proj2 (Z.leb_gt (fst (snd e) + snd (snd e)) (fst (snd e)))) by lia.
Qed.

Lemma all_apart_separate es : (forall e, e ∈ es -> 0 < snd (snd e)) -> all_apart es = true -> separate es.
Proof.
  induction es as [|e es IH]; cbn [all_apart]; intros Hp H; [split; [constructor|by intros x y Hx%elem_of_nil]|].
  apply andb_true_iff in H as [H1 H2]. destruct IH as [N S]; [intros; apply Hp; by right|done|].
  rewrite forallb_forall in H1. assert (forall x, x ∈ es -> apart e x = true) as He by (intros x Hx; apply H1; by apply list_elem_of_In).
  split.
  - constructor; [|done]. intros Hin. pose proof (He e Hin) as E. rewrite apart_irrefl in E; [done|]. apply Hp. by left.
  - intros x y Hx Hy Hne. apply elem_of_cons in Hx as [->|Hx]; apply elem_of_cons in Hy as [->|Hy]; try done; auto. rewrite apart_sym. auto.
Qed.

Lemma separate_sub es es' : es' `sublist_of` es -> separate es -> separate es'.
Proof.
  intros Hs [N S]. split; [by eapply sublist_NoDup|]. intros x y Hx Hy. apply S; by eapply elem_of_sublist.
Qed.

(** What a device gives out. *)
Lemma fresh_separate o bs used : fresh bs used = true -> (forall o e, (o, e) ∈ used -> 0 < snd (snd e)) -> separate (map snd used) ->
  separate (map snd (map (fun blk => (o, place blk)) bs ++ used)) /\
  (forall o' e, (o', e) ∈ map (fun blk => (o, place blk)) bs ++ used -> 0 < snd (snd e)).
Proof.
  intros H Hp [N S]. apply andb_true_iff in H as [H1 H2]. rewrite forallb_forall in H1.
  assert (forall blk, blk ∈ bs -> 0 < bb_capacity blk /\ forall x, x ∈ used -> apart (place blk) (snd x) = true) as Hb.
  { intros blk Hin. apply list_elem_of_In, H1, andb_true_iff in Hin as [Hc Ha]. apply Z.ltb_lt in Hc. split; [done|].
    intros x Hx. rewrite forallb_forall in Ha. apply Ha. by apply list_elem_of_In. }
  destruct (all_apart_separate (map place bs)) as [N' S']; [intros e (blk & -> & Hin)%list_elem_of_fmap; by apply Hb|done|].
  split.
  - rewrite map_app, map_map. cbn [snd]. change (map (fun x => place x) bs) with (map place bs).
    assert (forall x y, x ∈ map place bs -> y ∈ map snd used -> apart x y = true) as Hc.
    { intros x y (blk & -> & Hin)%list_elem_of_fmap (u & -> & Hu)%list_elem_of_fmap. by apply Hb. }
    assert (forall x, x ∈ map place bs -> x ∉ map snd used) as Hd.
    { intros x Hx Hx'. pose proof (Hc x x Hx Hx') as E. apply list_elem_of_fmap in Hx as (blk & -> & Hin). rewrite apart_irrefl in E; [done|by apply Hb]. }
    split; [by apply NoDup_app|]. intros x y [Hx|Hx]%elem_of_app [Hy|Hy]%elem_of_app Hne; [by apply S'|by apply Hc|rewrite apart_sym; by apply Hc|by apply S].
  - intros o' e [He|He]%elem_of_app; [|by eapply Hp]. apply list_elem_of_fmap in He as (blk & [= -> ->] & Hin). by apply Hb.
Qed.

Lemma split_places n bs : forall start keep drop, split_blocks start n bs = (keep, drop) -> map place (keep ++ drop) ≡ₚ map place bs.
Proof.
  induction bs as [|blk bs IH]; intros start keep drop; cbn [split_blocks]; [by intros [= <- <-]|].
  destruct (split_blocks _ n bs) as [keep' drop'] eqn:E. specialize (IH _ _ _ E).
  repeat case_match; intros [= <- <-]; [rewrite <- Permutation_middle|..]; cbn; by rewrite IH.
Qed.

Lemma filter_sublist {A} (f : A -> bool) l : List.filter f l `sublist_of` l.
Proof. induction l as [|x l IH]; cbn; [done|]. destruct (f x); by constructor. Qed.

Lemma free_blocks_in o bs w x : x ∈ w_used (free_blocks o bs w) <-> x ∈ w_used w /\ x ∉ map (fun blk => (o, place blk)) bs.
Proof.
  cbn. rewrite !list_elem_of_In, filter_In, negb_true_iff, bool_decide_eq_false, !list_elem_of_In. done.
Qed.

(** One task holds the token of a blob. *)
Lemma one_holder w i j t u o : indices_ok w -> locks_ok (locks w) (w_tasks w) -> w_tasks w !! i = Some t -> w_tasks w !! j = Some u ->
  holds t = Some o -> holds u = Some o -> i = j.
Proof.
  intros (Hf & _) Hl Hi Hj Ht Hu. assert (found t = Some o) as Hft by by destruct t.
  pose proof (Hf i t o Hi Hft) as Ho. apply lookup_lt_is_Some in Ho as [b Hb].
  destruct (Hl o _ (locks_lookup _ _ _ Hb)) as ((H1 & _) & _). apply tok_inj. by rewrite <- (H1 i t Hi Ht), <- (H1 j u Hj Hu).
Qed.

Lemma holder_frees w i t o : indices_ok w -> locks_ok (locks w) (w_tasks w) -> w_tasks w !! i = Some t -> holds t = Some o -> frees t <> Some o ->
  forall j u, w_tasks w !! j = Some u -> frees u <> Some o.
Proof.
  intros Hx Hl Hi Ht Hn j u Hj Hu. assert (i = j) as <-; [|congruence].
  eapply one_holder; eauto. by apply drains_holds, frees_drains.
Qed.

(** A step that leaves blocks and extents alone. *)
Lemma extents_stay w w' i t t' : w_tasks w !! i = Some t -> w_tasks w' = <[i := t']> (w_tasks w) -> w_used w' = w_used w ->
  (forall o bs, blocks_of w' o = Some bs -> blocks_of w o = Some bs \/ bs = []) -> (forall o bs, blocks_of w o = Some bs -> blocks_of w' o = Some bs) ->
  frees t = None -> frees t' = None -> (forall o bs, t' = Reading o bs -> owned_by (w_used w) o bs) -> extents_ok w -> extents_ok w'.
Proof.
  intros Hi Ht Hu Hb Hb' Hf Hf' Hr [E1 E2 E3 E4 E5 E6 E7 E8].
  assert (forall j u, w_tasks w' !! j = Some u -> u = t' \/ w_tasks w !! j = Some u) as Hts.
  { intros j u. rewrite Ht. destruct (decide (i = j)) as [<-|Hne]; [rewrite (this_task _ _ t) by done; intros [= <-]; by left|].
    rewrite list_lookup_insert_ne by done. by right. }
  split; rewrite ?Hu; try done.
  - intros o bs Hob. destruct (Hb _ _ Hob) as [Ho| ->]; [by eapply E3|constructor].
  - intros o bs Hob Hn. destruct (Hb _ _ Hob) as [Ho| ->]; [|by intros x Hx%elem_of_nil]. apply E4; [done|].
    intros j u Hj. destruct (decide (i = j)) as [<-|Hne]; [congruence|]. apply (Hn j). rewrite Ht. by rewrite list_lookup_insert_ne.
  - intros j k name o rest Hj. apply Hts in Hj as [<-|Hj]; [done|by eapply E5].
  - intros j k name o rest bs Hj Hk Hk' Hob. apply Hts in Hj as [<-|Hj]; [done|]. destruct (Hb _ _ Hob) as [Ho| ->]; [by eapply E6|].
    split; [by intros x Hx%elem_of_nil|by intros x y Hx%elem_of_nil].
  - intros j o Hj. apply Hts in Hj as [<-|Hj]; [done|]. by eapply Hb', E7.
  - intros j o bs Hj. apply Hts in Hj as [<-|Hj]; [by apply Hr|by eapply E8].
Qed.

(** A step by the holder of blob [o]'s token that changes its blocks [bs] or the
    extents it owns. *)
Lemma extents_holder w w' i t t' o bs : w_tasks w !! i = Some t -> w_tasks w' = <[i := t']> (w_tasks w) ->
  blocks_of w' o = Some bs -> (forall o', o' <> o -> blocks_of w' o' = blocks_of w o') ->
  separate (map snd (w_used w')) -> (forall o' e, (o', e) ∈ w_used w' -> 0 < snd (snd e)) ->
  (forall o' e, o' <> o -> (o', e) ∈ w_used w -> (o', e) ∈ w_used w') ->
  (forall j l, w_tasks w !! j = Some (Reading o l) -> owned_by (w_used w') o l) ->
  (forall j u, j <> i -> w_tasks w !! j = Some u -> frees u <> Some o) -> (frees t = None \/ frees t = Some o) ->
  NoDup (map place bs) -> (frees t' <> Some o -> owned_by (w_used w') o bs) ->
  match t' with
  | Freeing k _ o1 rest => o1 = o /\ owned_by (w_used w') o rest /\
      (k <> ODel -> k <> OMove -> owned_by (w_used w') o bs /\ forall x y, x ∈ bs -> y ∈ rest -> place x <> place y)
  | Placing o1 => o1 = o /\ bs = []
  | Reading _ _ => False
  | _ => True
  end -> extents_ok w -> extents_ok w'.
Proof.
  intros Hi Ht Hbs Hbo Hap Hpos Hoth Hrd Hsole Hft Hnd Hown Hnew [E1 E2 E3 E4 E5 E6 E7 E8].
  assert (forall j u, w_tasks w' !! j = Some u -> u = t' \/ j <> i /\ w_tasks w !! j = Some u) as Hts.
  { intros j u. rewrite Ht. destruct (decide (i = j)) as [<-|Hne]; [rewrite (this_task _ _ t) by done; intros [= <-]; by left|].
    rewrite list_lookup_insert_ne by done. right. by split; [intros ->|]. }
  assert (forall o' l, o' <> o -> owned_by (w_used w) o' l -> owned_by (w_used w') o' l) as Hkeep.
  { intros o' l Hne Hl x Hx. apply Hoth; auto. }
  split; [done|done| | | | | |].
  - intros o' l Ho'. destruct (decide (o' = o)) as [->|Hne]; [congruence|]. rewrite Hbo in Ho' by done. by eapply E3.
  - intros o' l Ho' Hn. destruct (decide (o' = o)) as [->|Hne].
    + rewrite Hbs in Ho'. injection Ho' as <-. apply Hown, (Hn i). rewrite Ht. by eapply this_task.
    + rewrite Hbo in Ho' by done. apply Hkeep, E4; [done..|]. intros j u Hj. destruct (decide (i = j)) as [<-|Hji].
      * rewrite Hi in Hj. injection Hj as <-. destruct Hft as [->| ->]; congruence.
      * apply (Hn j). rewrite Ht. by rewrite list_lookup_insert_ne.
  - intros j k name o' rest Hj. apply Hts in Hj as [<-|[Hji Hj]]; [by destruct Hnew as (-> & ? & _)|].
    apply Hkeep; [|by eapply E5]. intros ->. by apply (Hsole _ _ Hji Hj).
  - intros j k name o' rest l Hj Hk Hk' Ho'. apply Hts in Hj as [<-|[Hji Hj]].
    + destruct Hnew as (-> & _ & Hn). rewrite Hbs in Ho'. injection Ho' as <-. auto.
    + assert (o' <> o) as Hne by (intros ->; by apply (Hsole _ _ Hji Hj)). rewrite Hbo in Ho' by done.
      destruct (E6 _ _ _ _ _ _ Hj Hk Hk' Ho') as [A B]. split; [by apply Hkeep|done].
  - intros j o' Hj. apply Hts in Hj as [<-|[Hji Hj]]; [by destruct Hnew as [-> ->]|].
    assert (o' <> o) as Hne by (intros ->; by apply (Hsole _ _ Hji Hj)). rewrite Hbo by done. by eapply E7.
  - intros j o' l Hj. apply Hts in Hj as [<-|[Hji Hj]]; [done|]. destruct (decide (o' = o)) as [->|Hne]; [by eapply Hrd|]. by eapply Hkeep, E8.
Qed.

Lemma blocks_of_task w o b : w_blobs w !! o = Some b -> blocks_of w o = Some (bl_blocks b).
Proof. unfold blocks_of. by intros ->. Qed.

(** The blob's blocks and new ones. *)
Lemma extents_alloc w i t t' o b bs new : indices_ok w -> locks_ok (locks w) (w_tasks w) -> extents_ok w ->
  w_tasks w !! i = Some t -> holds t = Some o -> w_blobs w !! o = Some b -> owned_by (w_used w) o (bl_blocks b) ->
  (frees t = None \/ frees t = Some o) -> match t' with Writing _ | Unlock _ _ | EndDrain _ _ _ => True | _ => False end ->
  map place bs = map place (bl_blocks b ++ new) -> fresh new (w_used w) = true ->
  extents_ok (set_task i t' (set_bl_blocks o bs (take_blocks o new w))).
Proof.
  intros Hx Hl He Hi Ht Hb Hown Hft Ht' Hbs Hnew. pose proof He as [E1 E2 E3 E4 E5 E6 E7 E8].
  destruct (fresh_separate o new _ Hnew E2 E1) as [Hs Hp]. pose proof (blocks_of_task _ _ _ Hb) as Hbo.
  assert (forall x, x ∈ w_used w -> x ∈ w_used (take_blocks o new w)) as Hin by (intros x Hx'; cbn; apply elem_of_app; by right).
  assert (owned_by (w_used (take_blocks o new w)) o bs) as Hob.
  { intros x Hx'. assert (place x ∈ map place (bl_blocks b ++ new)) as Hpx by (rewrite <- Hbs; by apply list_elem_of_fmap_2).
    apply list_elem_of_fmap in Hpx as (y & -> & Hy). apply elem_of_app in Hy as [Hy|Hy]; [by apply Hin, Hown|].
    cbn. apply elem_of_app. left. by apply (list_elem_of_fmap_2 (fun blk => (o, place blk))). }
  eapply (extents_holder w _ i t t' o bs); try done.
  - change (blocks_of (set_bl_blocks o bs (take_blocks o new w)) o = Some bs). rewrite blocks_of_set, decide_True by done.
    change (blocks_of (take_blocks o new w) o) with (blocks_of w o). by rewrite Hbo.
  - intros o' Hne. change (blocks_of (set_bl_blocks o bs (take_blocks o new w)) o' = blocks_of w o'). rewrite blocks_of_set. by rewrite decide_False by congruence.
  - intros o' e _ Hoe. by apply Hin.
  - intros j l Hj x Hx'. apply Hin. by eapply E8.
  - intros j u Hne Hj Hu. apply Hne. symmetry. eapply one_holder; eauto. by apply drains_holds, frees_drains.
  - rewrite Hbs, map_app. apply NoDup_app. split_and!; [by eapply E3| |].
    + intros e He1 He2. apply list_elem_of_fmap in He1 as (x & -> & Hx1). apply Hown in Hx1.
      destruct Hs as [Hn _]. cbn in Hn. rewrite map_app, map_map in Hn. apply NoDup_app in Hn as (_ & Hn & _). apply (Hn (place x)); [done|].
      by apply (list_elem_of_fmap_2 snd _ (o, place x)).
    + destruct Hs as [Hn _]. cbn in Hn. rewrite map_app, map_map in Hn. by apply NoDup_app in Hn as (Hn & _).
  - by destruct t'.
Qed.

Lemma set_same o b w : w_blobs w !! o = Some b -> set_bl_blocks o (bl_blocks b) w = w.
Proof.
  intros Ho. destruct w as [bs ns ts used]. unfold set_bl_blocks. cbn in *. f_equal. apply list_eq. intros j.
  destruct (decide (o = j)) as [<-|Hne]; [|by rewrite list_lookup_alter_ne]. rewrite list_lookup_alter_eq, Ho. cbn. by destruct b.
Qed.

(** A step to [Freeing], or within. *)
Lemma extents_freeing w i t k name o b keep rest bs : indices_ok w -> locks_ok (locks w) (w_tasks w) -> extents_ok w ->
  w_tasks w !! i = Some t -> holds t = Some o -> w_blobs w !! o = Some b -> (frees t = None \/ frees t = Some o) ->
  (forall j l, w_tasks w !! j = Some (Reading o l) -> bs = []) ->
  NoDup (map place keep) -> owned_by (w_used (free_blocks o bs w)) o rest ->
  (k <> ODel -> k <> OMove -> owned_by (w_used (free_blocks o bs w)) o keep /\ forall x y, x ∈ keep -> y ∈ rest -> place x <> place y) ->
  extents_ok (set_task i (Freeing k name o rest) (set_bl_blocks o keep (free_blocks o bs w))).
Proof.
  intros Hx Hl He Hi Ht Hb Hft Hrd Hnd Hrest Hk. pose proof He as [E1 E2 E3 E4 E5 E6 E7 E8].
  eapply (extents_holder w _ i t (Freeing k name o rest) o keep); try done.
  - change (blocks_of (set_bl_blocks o keep (free_blocks o bs w)) o = Some keep). rewrite blocks_of_set, decide_True by done.
    change (blocks_of (free_blocks o bs w) o) with (blocks_of w o). by rewrite (blocks_of_task _ _ _ Hb).
  - intros o' Hne. change (blocks_of (set_bl_blocks o keep (free_blocks o bs w)) o' = blocks_of w o'). rewrite blocks_of_set. by rewrite decide_False by congruence.
  - eapply separate_sub; [|done]. apply fmap_sublist, filter_sublist.
  - intros o' e Hin. apply (free_blocks_in o bs w) in Hin as [Hin _]. by eapply E2.
  - intros o' e Hne Hin. apply (free_blocks_in o bs w). split; [done|]. intros Hin'%list_elem_of_fmap. naive_solver.
  - intros j l Hj x Hxl. apply (free_blocks_in o bs w). rewrite (Hrd j l Hj). split; [by eapply E8|]. by intros Hn%elem_of_nil.
  - intros j u Hne Hj Hu. apply Hne. symmetry. eapply one_holder; eauto. by apply drains_holds, frees_drains.
Qed.

(** The end of a release. *)
Lemma extents_freed w w' i t t' o bs : indices_ok w -> locks_ok (locks w) (w_tasks w) -> extents_ok w ->
  w_tasks w !! i = Some t -> frees t = Some o -> w_tasks w' = <[i := t']> (w_tasks w) -> w_used w' = w_used w ->
  blocks_of w' o = Some bs -> (forall o', o' <> o -> blocks_of w' o' = blocks_of w o') ->
  owned_by (w_used w) o bs -> NoDup (map place bs) ->
  match t' with EndDrain _ _ _ => True | Placing o1 => o1 = o /\ bs = [] | _ => False end -> extents_ok w'.
Proof.
  intros Hx Hl He Hi Ht Hts Hu Hb Hbo Hown Hnd Ht'. pose proof He as [E1 E2 E3 E4 E5 E6 E7 E8].
  eapply (extents_holder w w' i t t' o bs); rewrite ?Hu; try done; [intros j l Hj; by eapply E8| |by right|by destruct t'].
  intros j u Hne Hj Hfu. apply Hne. symmetry. eapply one_holder; eauto; by apply drains_holds, frees_drains.
Qed.

Lemma to_free_spec k bs keep drop : to_free k bs = (keep, drop) -> NoDup (map place bs) ->
  NoDup (map place keep) /\ (forall x, x ∈ drop -> place x ∈ map place bs) /\ (forall x, x ∈ keep -> place x ∈ map place bs) /\
  (k <> ODel -> k <> OMove -> forall x y, x ∈ keep -> y ∈ drop -> place x <> place y).
Proof.
  intros H Hnd. assert (forall n, split_blocks 0 n bs = (keep, drop) -> NoDup (map place keep) /\ (forall x, x ∈ drop -> place x ∈ map place bs) /\
    (forall x, x ∈ keep -> place x ∈ map place bs) /\ (forall x y, x ∈ keep -> y ∈ drop -> place x <> place y)) as Hs.
  { intros n E. pose proof (split_places n bs 0 keep drop E) as Hp. rewrite <- Hp in Hnd. rewrite map_app in Hnd.
    apply NoDup_app in Hnd as (N1 & N2 & _). split_and!; [done| | |].
    - intros x Hx. rewrite <- Hp, map_app. apply elem_of_app. right. by apply list_elem_of_fmap_2.
    - intros x Hx. rewrite <- Hp, map_app. apply elem_of_app. left. by apply list_elem_of_fmap_2.
    - intros x y Hx Hy E'. apply (N2 (place x)); [by apply list_elem_of_fmap_2|]. rewrite E'. by apply list_elem_of_fmap_2. }
  destruct k; cbn in H; try (edestruct Hs as (A & B & C & E); [exact H|by auto]); simplify_eq; split_and!; try done;
    try (intros; by apply list_elem_of_fmap_2); intros; set_solver.
Qed.

Lemma free_none o w : free_blocks o [] w = w.
Proof.
  destruct w as [bs ns ts used]. unfold free_blocks. cbn [map w_blobs w_names w_tasks w_used]. f_equal.
  induction used as [|x l IH]; cbn; [done|]. f_equal. done.
Qed.

Lemma step_extents w i c w' : indices_ok w -> locks_ok (locks w) (w_tasks w) -> extents_ok w -> task_step i c w = Some w' -> extents_ok w'.
Proof.
  intros Hx Hl He H. pose proof He as [E1 E2 E3 E4 E5 E6 E7 E8]. unfold task_step, get_step in H. apply bind_Some in H as (t & Hi & H).
  assert (forall o b, holds t = Some o -> frees t = None -> w_blobs w !! o = Some b -> owned_by (w_used w) o (bl_blocks b)) as Hheld.
  { intros o b Ht Hf Hb. apply E4; [by eapply blocks_of_task|]. eapply holder_frees; try done. congruence. }
  assert (forall w1 t', w_used w1 = w_used w -> w_tasks w1 = w_tasks w -> (forall o, blocks_of w1 o = blocks_of w o) -> frees t = None -> frees t' = None ->
    (forall o l, t' = Reading o l -> owned_by (w_used w) o l) -> extents_ok (set_task i t' w1)) as Hstay.
  { intros w1 t' Hu Hts Hb Hf Hf' Hr. eapply (extents_stay w _ i t t'); try done; [by cbn; rewrite Hts| |].
    - intros o bs Ho. left. rewrite <- Hb. done.
    - intros o bs Ho. change (blocks_of w1 o = Some bs). by rewrite Hb. }
  destruct t; try (apply bind_Some in H as (b & Ho & H)).
  - destruct (w_names w !! name) as [o|]; [injection H as <-; by apply Hstay|]. destruct (creates k); injection H as <-; [|by apply Hstay].
    eapply (extents_stay w _ i); try done; intros o bs; unfold blocks_of; cbn; intros (b & Hb & ->)%fmap_Some.
    + apply lookup_app_Some in Hb as [Hb|[_ Hb]]; [left; by rewrite Hb|]. right. apply list_lookup_singleton_Some in Hb as [_ <-]. done.
    + by rewrite (lookup_app_l_Some _ _ _ _ Hb).
  - destruct (TryLockWrite _ _) as [[] l]; [|done]. injection H as <-. apply Hstay; try done. intros. apply blocks_of_set_lock.
  - apply held_step_spec in H as [(t' & -> & Ht')|H]; [apply Hstay; try done; by destruct Ht' as [->|[->| ->]]|].
    apply alloc_step_spec in H as (bs & t' & Hbs & Hf & Ht' & ->).
    apply (extents_alloc w i (Held k name o) t' o b bs); try done; [by apply Hheld|by left|by destruct Ht' as [->| ->]|].
    rewrite map_app, <- Hbs, <- map_app. by rewrite take_drop.
  - injection H as <-. apply Hstay; try done. intros. apply blocks_of_set_lock.
  - destruct (HasReadPins _) eqn:Ep; [done|]. destruct (to_free _ _) as [keep rest] eqn:Ek. injection H as <-.
    pose proof (Hheld o b eq_refl eq_refl Ho) as Hown. pose proof (E3 _ _ (blocks_of_task _ _ _ Ho)) as Hnd.
    destruct (to_free_spec _ _ _ _ Ek Hnd) as (T1 & T2 & T3 & T4).
    assert (forall l, (forall x, x ∈ l -> place x ∈ map place (bl_blocks b)) -> owned_by (w_used w) o l) as Hsub.
    { intros l Hs x Hxl. apply Hs, list_elem_of_fmap in Hxl as (y & -> & Hy). by apply Hown. }
    rewrite <- (free_none o w). 
    eapply (extents_freeing w i (Poll k name o) k name o b keep rest []); try done; [by left|rewrite free_none; by apply Hsub|].
    rewrite free_none. intros Hk Hk'. split; [by apply Hsub|by apply T4].
  - assert (is_Some (w_blobs w !! o)) as [b Ho] by (apply lookup_lt_is_Some; by eapply (proj1 Hx)).
    pose proof (blocks_of_task _ _ _ Ho) as Hb. apply free_step_spec in H as [[-> H]|(p & Hp & ->)].
    + assert (forall w1, blocks_of w1 = blocks_of (set_bl_blocks o [] w) -> blocks_of w1 o = Some [] /\ forall o', o' <> o -> blocks_of w1 o' = blocks_of w o') as Hc.
      { intros w1 ->. split; [by rewrite blocks_of_set, decide_True, Hb|]. intros o' Hne. by rewrite blocks_of_set, decide_False. }
      assert (owned_by (w_used w) o [] /\ NoDup (map place [])) as [On Nn] by (split; [by intros x Hx'%elem_of_nil|constructor]).
      destruct H as [[-> ->]|[[-> ->]|(Hk & Hk' & ->)]].
      * eapply (extents_freed w _ i _ _ o []); try done; by apply Hc.
      * eapply (extents_freed w _ i _ _ o []); try done; by apply Hc.
      * eapply (extents_freed w _ i _ _ o (bl_blocks b)); try done; [by eapply E6|by eapply E3].
    + pose proof (E5 _ _ _ _ _ Hi) as Hr. rewrite <- (set_same o b (free_blocks _ _ w)) by done.
      eapply (extents_freeing w i _ k name o b (bl_blocks b)); try done; [by right| |by eapply E3| |].
      * intros j l Hj. exfalso. destruct (Hl _ _ (locks_lookup _ _ _ Ho)) as (_ & _ & Hq). exact (Hq _ _ _ _ Hi Hj eq_refl eq_refl).
      * intros x Hxr. apply list_elem_of_In, filter_In in Hxr as [Hxr Hxp]. apply list_elem_of_In in Hxr. apply free_blocks_in. split; [by apply Hr|].
        intros (y & [= Ey _] & Hy)%list_elem_of_fmap. apply on_pool_in in Hy as [_ Hy]. apply negb_true_iff, bool_decide_eq_false in Hxp. congruence.
      * intros Hk Hk'. destruct (E6 _ _ _ _ _ _ Hi Hk Hk' Hb) as [A B]. split.
        -- intros x Hxb. apply free_blocks_in. split; [by apply A|]. intros (y & Ey & Hy)%list_elem_of_fmap. apply on_pool_in in Hy as [Hy _].
           apply (B x y Hxb Hy). exact (f_equal snd Ey).
        -- intros x y Hxb Hy. apply list_elem_of_In, filter_In in Hy as [Hy _]. apply B; [done|]. by apply list_elem_of_In.
  - assert (is_Some (w_blobs w !! o)) as [b Ho] by (apply lookup_lt_is_Some; by eapply (proj1 Hx)).
    pose proof (E7 _ _ Hi) as Hb. assert (bl_blocks b = []) as Hnil by (rewrite (blocks_of_task _ _ _ Ho) in Hb; by injection Hb).
    apply place_step_spec in H as [->|(bs & Hf & ->)].
    + eapply (extents_freed w _ i (Placing o) (EndDrain OMove o 7) o []); try done; [by intros x Hx'%elem_of_nil|constructor].
    + apply (extents_alloc w i (Placing o) (EndDrain OMove o 0) o b bs bs); try done; [|by right|by rewrite Hnil].
      rewrite Hnil. by intros x Hx'%elem_of_nil.
  - injection H as <-. apply Hstay; try done; [|by destruct (creates k)|by destruct (creates k)]. intros. apply blocks_of_set_lock.
  - injection H as <-. by apply Hstay.
  - injection H as <-. apply Hstay; try done. intros. apply blocks_of_set_lock.
  - destruct (w_names w !! name); injection H as <-; by apply Hstay.
  - destruct (_ && _); [done|]. injection H as <-. by apply Hstay.
  - destruct (draining _); [done|]. injection H as <-. by apply Hstay.
  - injection H as <-. apply Hstay; try done; [|by destruct (draining _)|by destruct (draining _)]. intros. apply blocks_of_set_lock.
  - injection H as <-. apply Hstay; try done. intros. apply blocks_of_set_lock.
  - injection H as <-. apply Hstay; try done; [by destruct (_ =? _)|]. intros o' l. destruct (_ =? _); [done|]. intros [= <- <-].
    apply E4; [by eapply blocks_of_task|]. intros j u Hj Hu. destruct (Hl _ _ (locks_lookup _ _ _ Ho)) as (_ & _ & Hq). exact (Hq _ _ _ _ Hj Hi Hu eq_refl).
  - injection H as <-. by apply Hstay.
  - injection H as <-. apply Hstay; try done. intros. apply blocks_of_set_lock.
  - done.
Qed.

Definition world_ok (w : world) : Prop := indices_ok w /\ locks_ok (locks w) (w_tasks w) /\ extents_ok w.

Lemma step_ok w w' : world_ok w -> step w w' -> world_ok w'.
Proof. intros (Hx & Hl & He) (i & c & H). split_and!; [by eapply step_indices|by eapply step_locks|by eapply step_extents]. Qed.

Lemma init_ok requests : Forall (fun t => request_start t = true) requests -> Z.of_nat (length requests) < 2 ^ 63 -> world_ok (init requests).
Proof.
  intros Hr Hlen. assert (forall i t, requests !! i = Some t -> request_start t = true) as Hs by (intros i t Hi; by eapply Forall_lookup_1 in Hr).
  split_and!.
  - split_and!; [|by intros|done]. intros i t o Hi Hf. apply Hs in Hi. by destruct t.
  - intros o l Ho. done.
  - split; try done; try (by intros; simplify_eq); try (intros; by match goal with H : w_tasks _ !! _ = Some _ |- _ => apply Hs in H end).
    + split; [constructor|by intros x y Hx%elem_of_nil].
    + by intros o e He%elem_of_nil.
Qed.

Lemma reachable_ok requests w : Forall (fun t => request_start t = true) requests -> Z.of_nat (length requests) < 2 ^ 63 ->
  rtc step (init requests) w -> world_ok w.
Proof.
  intros Hr Hlen. pose proof (init_ok _ Hr Hlen) as H0. revert H0. generalize (init requests). intros w0 H0 H. induction H as [|? ? ? H _ IH]; [done|].
  by apply IH; eapply step_ok.
Qed.

(** ** Progress *)

Definition can_step (w : world) : Prop := exists w', step w w'.

Lemma found_blob w i t o : world_ok w -> w_tasks w !! i = Some t -> found t = Some o -> exists b, w_blobs w !! o = Some b /\ lock_ok o (bl_lock b) (w_tasks w).
Proof.
  intros ((Hf & _) & Hl & _) Hi Ht. pose proof (Hf i t o Hi Ht) as Ho. apply lookup_lt_is_Some in Ho as [b Hb].
  exists b. split; [done|]. apply Hl. by apply locks_lookup.
Qed.

(** A request is one step away from the next unless its loop's condition fails. *)
Lemma go w i t w' c : w_tasks w !! i = Some t -> task_step i c w = Some w' -> can_step w.
Proof. intros _ H. exists w'. by exists i, c. Qed.

Lemma pin_can_step w i t o : world_ok w -> w_tasks w !! i = Some t -> pins t = Some o -> can_step w.
Proof.
  intros Hw Hi Ht. assert (found t = Some o) as Hf by by destruct t. destruct (found_blob _ _ _ _ Hw Hi Hf) as (b & Hb & _).
  destruct t; try done; cbn in Ht; injection Ht as ->; (eapply (go w i _ _ Go Hi); unfold task_step; rewrite Hi; cbn; rewrite ?Hb; done).
Qed.

Lemma alloc_can_step i o b w : alloc_step i o b (Alloc (bl_blocks b) true) w <> None.
Proof.
  unfold alloc_step, grown. rewrite firstn_all, bool_decide_eq_true_2 by done. rewrite skipn_all. done.
Qed.

Lemma held_can_step w i t o : world_ok w -> w_tasks w !! i = Some t -> holds t = Some o -> can_step w.
Proof.
  intros Hw Hi Ht. assert (found t = Some o) as Hf by by destruct t. destruct (found_blob _ _ _ _ Hw Hi Hf) as (b & Hb & (_ & (z & Hz & _) & _)).
  assert (forall c, task_step i c w <> None -> can_step w) as Hgo by (intros c; destruct (task_step i c w) eqn:E; [intros _; by eapply go|done]).
  destruct t; try done; cbn in Ht; injection Ht as ->.
  - apply (Hgo (Alloc (bl_blocks b) true)). unfold task_step. rewrite Hi. cbn. rewrite Hb. cbn. pose proof (alloc_can_step i o b w) as Ha.
    unfold held_step. repeat case_match; done.
  - apply (Hgo Go). unfold task_step. rewrite Hi. cbn. by rewrite Hb.
  - destruct (HasReadPins (bl_lock b)) eqn:E.
    + unfold HasReadPins in E. rewrite Hz, state_pins in E by (pose proof (count_length (at_ pins o) (w_tasks w)); pose proof (proj2 (proj2 (proj1 Hw))); lia).
      destruct (count_pos (at_ pins o) (w_tasks w)) as (j & u & Hj & Hu); [intros E'; by rewrite E' in E|]. apply at_true in Hu. by eapply pin_can_step.
    + apply (Hgo Go). unfold task_step. rewrite Hi. cbn. rewrite Hb. cbn. rewrite E. by destruct (to_free k (bl_blocks b)).
  - destruct rest as [|x rest].
    + apply (Hgo Go). unfold task_step. rewrite Hi. done.
    + apply (Hgo (FreePool (bb_pool x))). unfold task_step. rewrite Hi. cbn. rewrite bool_decide_eq_true_2 by done. done.
  - apply (Hgo (Alloc [] false)). unfold task_step. rewrite Hi. done.
  - apply (Hgo Go). unfold task_step. rewrite Hi. cbn. by rewrite Hb.
  - apply (Hgo Go). unfold task_step. rewrite Hi. done.
  - apply (Hgo Go). unfold task_step. rewrite Hi. cbn. by rewrite Hb.
Qed.

(** A locked blob is held, a drained one is drained, by a request that can go on. *)
Lemma locked_can_step w o b : world_ok w -> w_blobs w !! o = Some b -> write_owner_ (bl_lock b) <> 0 -> can_step w.
Proof.
  intros Hw Hb Hn. destruct (proj1 (proj2 Hw) o _ (locks_lookup _ _ _ Hb)) as ((_ & H) & _). destruct (H Hn) as (j & u & Hj & Hu).
  by eapply held_can_step.
Qed.

Lemma drained_can_step w o b : world_ok w -> w_blobs w !! o = Some b -> draining (read_state_ (bl_lock b)) = true -> can_step w.
Proof.
  intros Hw Hb Hd. destruct (proj1 (proj2 Hw) o _ (locks_lookup _ _ _ Hb)) as (_ & (z & Hz & Hex) & _).
  rewrite Hz, state_draining in Hd by (pose proof (count_length (at_ pins o) (w_tasks w)); pose proof (proj2 (proj2 (proj1 Hw))); lia).
  apply Hex in Hd as (j & u & Hj & Hu). eapply held_can_step; [done..|by apply drains_holds].
Qed.

Lemma no_deadlock w i t : world_ok w -> w_tasks w !! i = Some t -> (forall rc, t <> Done rc) -> can_step w.
Proof.
  intros Hw Hi Hn. destruct (found t) as [o|] eqn:Hf.
  - destruct (found_blob _ _ _ _ Hw Hi Hf) as (b & Hb & _).
    destruct (holds t) as [o'|] eqn:Hh; [by eapply held_can_step|]. destruct (pins t) as [o'|] eqn:Hp; [by eapply pin_can_step|].
    destruct t; try done; cbn in Hf; injection Hf as ->.
    + destruct (decide (write_owner_ (bl_lock b) = 0)) as [E|E]; [|by eapply locked_can_step].
      eapply (go w i _ _ Go Hi). unfold task_step. rewrite Hi. cbn. rewrite Hb. cbn. unfold TryLockWrite. rewrite E. done.
    + destruct (decide (write_owner_ (bl_lock b) = 0)) as [E|E]; [|by eapply locked_can_step].
      eapply (go w i _ _ Go Hi). unfold task_step. rewrite Hi. cbn. rewrite Hb. cbn. unfold IsWriteLocked. rewrite E, andb_false_r. done.
    + destruct (draining (read_state_ (bl_lock b))) eqn:E; [by eapply drained_can_step|].
      eapply (go w i _ _ Go Hi). unfold task_step. rewrite Hi. cbn. rewrite Hb. cbn. by rewrite E.
    + eapply (go w i _ _ Go Hi). unfold task_step. rewrite Hi. cbn. rewrite Hb. done.
  - destruct t; try done; [destruct (w_names w !! name) eqn:E, (creates k) eqn:Ek| |by edestruct Hn].
    1-4: eapply (go w i _ _ Go Hi); unfold task_step; rewrite Hi; cbn; rewrite E, ?Ek; done.
    destruct (w_names w !! name) eqn:E; eapply (go w i _ _ Go Hi); unfold task_step; rewrite Hi; cbn; rewrite E; done.
Qed.

(** ** Termination

    A request moves on through its states, except that a get that is overtaken by a
    drain between the two accesses of [TryPinRead] goes back; each drain begins once
    and can send back each get once. *)

Definition drained (ts : list task) (o : nat) : bool := existsb (at_ drains o) ts.

Definition rank (n : nat) (d : nat -> bool) (t : task) : nat :=
  match t with
  | Start _ _ => 10 + 3 * n | Wait _ _ _ => 9 + 3 * n | Held _ _ _ => 8 + 3 * n | Drain _ _ _ => 7 + 3 * n
  | Poll _ _ _ => 6 | Freeing _ _ _ _ => 5 | Placing _ => 4 | EndDrain _ _ _ => 3 | Writing _ => 2 | Unlock _ _ => 1
  | Get _ _ => 7 | GetWait _ _ => 6 | GetPin _ => 5 | GetAdd o => if d o then 7 else 4 | GetBack _ => 6
  | GetPinned _ => 3 | Reading _ _ => 2 | Unpin _ _ => 1 | Done _ => 0
  end.

Definition phase (ts : list task) : nat := sum_list_with (rank (length ts) (drained ts)) ts.
Definition unfreed (t : task) : nat := match t with Freeing _ _ _ rest => length rest | _ => 0 end.
Definition measure (w : world) : nat * nat := (phase (w_tasks w), sum_list_with unfreed (w_tasks w)).
Definition lex (a b : nat * nat) : Prop := (fst a < fst b)%nat \/ fst a = fst b /\ (snd a < snd b)%nat.

Lemma lex_wf : well_founded lex.
Proof.
  intros [x y]. revert y. induction x as [x IHx] using lt_wf_ind. intros y. induction y as [y IHy] using lt_wf_ind.
  constructor. intros [x' y'] [H|[H1 H2]]; cbn in *; [by apply IHx|]. subst. by apply IHy.
Qed.

Lemma sum_insert (f : task -> nat) ts i t t' : ts !! i = Some t ->
  (sum_list_with f (<[i := t']> ts) + f t = sum_list_with f ts + f t')%nat.
Proof.
  intros Hi. rewrite <- (take_drop_middle ts i t Hi) at 2. rewrite insert_take_drop by by eapply lookup_lt_Some.
  rewrite !sum_list_with_app. cbn. lia.
Qed.

Lemma sum_le (f g : task -> nat) k ts : (forall t, f t <= g t + k)%nat -> (sum_list_with f ts <= sum_list_with g ts + k * length ts)%nat.
Proof. intros H. induction ts as [|t ts IH]; cbn; [lia|]. specialize (H t). lia. Qed.

Lemma rank_drained n d d' t : (rank n d' t <= rank n d t + 3)%nat.
Proof. destruct t; cbn; try lia. destruct (d o), (d' o); lia. Qed.

Lemma rank_mono n d d' t : (forall o, d' o = true -> d o = true) -> (rank n d' t <= rank n d t)%nat.
Proof. intros H. destruct t; cbn; try lia. specialize (H o). destruct (d o), (d' o); try lia; by discriminate H. Qed.

Lemma drained_spec ts o : drained ts o = true <-> exists i t, ts !! i = Some t /\ drains t = Some o.
Proof.
  unfold drained. rewrite existsb_exists. split.
  - intros (t & Hin & Ht). apply list_elem_of_In, list_elem_of_lookup_1 in Hin as [i Hi]. apply at_true in Ht. eauto.
  - intros (i & t & Hi & Ht). exists t. split; [apply list_elem_of_In; by eapply list_elem_of_lookup_2|by apply at_true].
Qed.

Lemma phase_le ts i t t' k : ts !! i = Some t -> (forall u, rank (length ts) (drained (<[i := t']> ts)) u <= rank (length ts) (drained ts) u + k)%nat ->
  (phase (<[i := t']> ts) + rank (length ts) (drained ts) t <= phase ts + rank (length ts) (drained ts) t' + k * length ts)%nat.
Proof.
  intros Hi Hk. unfold phase. rewrite length_insert. rewrite <- (sum_insert _ ts i t t' Hi).
  pose proof (sum_le _ _ k (<[i := t']> ts) Hk) as H. rewrite length_insert in H. lia.
Qed.

(** A step that does not begin a drain. *)
Lemma phase_down ts i t t' : ts !! i = Some t -> (forall o, drains t' = Some o -> drains t = Some o) ->
  (phase (<[i := t']> ts) + rank (length ts) (drained ts) t <= phase ts + rank (length ts) (drained ts) t')%nat.
Proof.
  intros Hi Hd. pose proof (phase_le ts i t t' 0 Hi) as H. rewrite Nat.mul_0_l, Nat.add_0_r in H. apply H.
  intros u. rewrite Nat.add_0_r. apply rank_mono. intros o. rewrite !drained_spec. intros (j & v & Hj & Hv).
  destruct (decide (i = j)) as [<-|Hne]; [rewrite (this_task _ _ t) in Hj by done; injection Hj as <-; eauto|].
  rewrite list_lookup_insert_ne in Hj by done. eauto.
Qed.

Lemma measure_down w w' i t t' : w_tasks w !! i = Some t -> w_tasks w' = <[i := t']> (w_tasks w) ->
  (forall o, drains t' = Some o -> drains t = Some o) ->
  (rank (length (w_tasks w)) (drained (w_tasks w)) t' < rank (length (w_tasks w)) (drained (w_tasks w)) t)%nat -> lex (measure w') (measure w).
Proof. intros Hi Ht Hd Hr. left. cbn. rewrite Ht. pose proof (phase_down _ i t t' Hi Hd). lia. Qed.

Lemma step_measure w w' : world_ok w -> step w w' -> lex (measure w') (measure w).
Proof.
  intros Hw (i & c & H). unfold task_step, get_step in H. apply bind_Some in H as (t & Hi & H).
  assert (forall o b, w_blobs w !! o = Some b -> draining (read_state_ (bl_lock b)) = drained (w_tasks w) o) as Hdr.
  { intros o b Hb. destruct (proj1 (proj2 Hw) o _ (locks_lookup _ _ _ Hb)) as (_ & (z & Hz & Hex) & _).
    rewrite Hz, state_draining by (pose proof (count_length (at_ pins o) (w_tasks w)); pose proof (proj2 (proj2 (proj1 Hw))); lia).
    apply eq_true_iff_eq. by rewrite Hex, drained_spec. }
  destruct t; try (apply bind_Some in H as (b & Ho & H)); repeat case_match; simplify_eq.
  all: try (eapply measure_down; [exact Hi|reflexivity|by intros|cbn; lia]).
  - apply held_step_spec in H as [(t' & -> & Ht')|H]; [|apply alloc_step_spec in H as (bs & t' & _ & _ & Ht' & ->)].
    + destruct Ht' as [->|[->| ->]]; (eapply measure_down; [exact Hi|reflexivity|by intros|cbn; lia]).
    + destruct Ht' as [->| ->]; (eapply measure_down; [exact Hi|reflexivity|by intros|cbn; lia]).
  - left. pose proof (phase_le _ i _ (Poll k name o) 3 Hi (fun u => rank_drained _ _ _ u)) as Hp. cbn [rank] in Hp.
    unfold measure. cbn [fst set_task set_lock w_tasks]. lia.
  - apply free_step_spec in H as [[_ [[-> ->]|[[-> ->]|(_ & _ & ->)]]]|(p & Hp & ->)]; try (eapply measure_down; [exact Hi|reflexivity|by intros|cbn; lia]).
    set (t' := Freeing k name o _). pose proof (phase_down _ i _ t' Hi) as H1. pose proof (sum_insert unfreed _ i _ t' Hi) as H2.
    assert (length (List.filter (fun blk => negb (bool_decide (bb_pool blk = p))) rest) < length rest)%nat as H3.
    { unfold on_pool in Hp. clear -Hp. induction rest as [|x l IH]; cbn in *; [done|]. destruct (bool_decide (bb_pool x = p)); cbn in *; [|specialize (IH Hp); lia].
      pose proof (List.filter_length_le (fun blk => negb (bool_decide (bb_pool blk = p))) l). lia. }
    cbn [unfreed t'] in H2. specialize (H1 ltac:(done)). cbn [rank t'] in H1.
    unfold lex, measure. cbn [fst snd set_task free_blocks w_tasks]. fold t'. lia.
  - apply place_step_spec in H as [->|(bs & Hf & ->)]; (eapply measure_down; [exact Hi|reflexivity|by intros|cbn; lia]).
  - eapply measure_down; [exact Hi|reflexivity|by intros|]. cbn. erewrite <- Hdr by done. case_match; [congruence|lia].
  - eapply measure_down; [exact Hi|reflexivity|by intros|]. cbn. erewrite <- Hdr by done. case_match; [lia|congruence].
  - eapply measure_down; [exact Hi|reflexivity|by intros|]. cbn. erewrite <- Hdr by done. case_match; [congruence|lia].
Qed.

(** * What the protocol guarantees *)

(** A state that requests on an empty store can reach. *)
Definition reachable (requests : list task) (w : world) : Prop :=
  Forall (fun t => request_start t = true) requests /\ Z.of_nat (length requests) < 2 ^ 63 /\ rtc step (init requests) w.

Lemma reachable_world requests w : reachable requests w -> world_ok w.
Proof. intros (Hr & Hlen & H). by eapply reachable_ok. Qed.

(** C4. While a get has reads in flight, the extents of its snapshot are not freed and
    belong to the blob it reads: what else is in use is apart from them, and so is
    what a put to another blob may be writing. *)
Theorem reads_keep_their_extents requests w i o bs : reachable requests w -> w_tasks w !! i = Some (Reading o bs) ->
  (forall x, x ∈ bs -> (o, place x) ∈ w_used w) /\
  (forall x o' e, x ∈ bs -> (o', e) ∈ w_used w -> (o', e) = (o, place x) \/ apart e (place x) = true) /\
  (forall j o' b x y, w_tasks w !! j = Some (Writing o') -> o' <> o -> w_blobs w !! o' = Some b -> x ∈ bs -> y ∈ bl_blocks b ->
    apart (place y) (place x) = true).
Proof.
  intros Hw%reachable_world Hi. pose proof Hw as (Hx & Hl & [[N S] E2 E3 E4 E5 E6 E7 E8]). pose proof (E8 _ _ _ Hi) as Hown.
  assert (forall x o' e, x ∈ bs -> (o', e) ∈ w_used w -> (o', e) = (o, place x) \/ apart e (place x) = true) as Hap.
  { intros x o' e Hxb He. destruct (decide ((o', e) = (o, place x))) as [|Hne]; [by left|]. right. specialize (Hown x Hxb).
    apply S; [by apply (list_elem_of_fmap_2 snd _ (o', e))|by apply (list_elem_of_fmap_2 snd _ (o, place x))|]. intros Heq. apply Hne.
    apply list_elem_of_lookup_1 in He as [a Ha], Hown as [b Hb].
    assert (a = b) as <-; [|congruence]. apply (NoDup_lookup _ _ _ e N); apply list_lookup_fmap_Some; [by exists (o', e)|by exists (o, place x)]. }
  split_and!; [done|done|]. intros j o' b x y Hj Hne Hb Hxb Hy.
  assert ((o', place y) ∈ w_used w) as Hyu.
  { eapply E4; [by eapply blocks_of_task| |done]. eapply (holder_frees w j (Writing o')); done. }
  destruct (Hap x o' (place y) Hxb Hyu) as [E|E]; [congruence|done].
Qed.

(** At most one request is between acquiring and releasing the token of a blob, and
    none frees extents of a blob while another reads it under a pin. *)
Theorem one_writer_per_blob requests w i j t u o : reachable requests w -> w_tasks w !! i = Some t -> w_tasks w !! j = Some u -> holds t = Some o ->
  (holds u = Some o -> i = j) /\ (reads u = Some o -> frees t <> Some o).
Proof.
  intros Hw%reachable_world Hi Hj Ht. split; [intros Hu; eapply one_holder; [apply Hw|apply Hw|done..]|]. intros Hu Hf.
  assert (found t = Some o) as Hft by by destruct t. destruct (found_blob _ _ _ _ Hw Hi Hft) as (b & _ & (_ & _ & Hq)). exact (Hq _ _ _ _ Hi Hj Hf Hu).
Qed.

(** C16. No schedule runs for ever and none deadlocks: a run ends, and when no step is
    possible every request has returned. *)
Theorem requests_finish requests w : reachable requests w ->
  Acc (fun w' w => step w w') w /\ ((exists w', step w w') \/ forall i t, w_tasks w !! i = Some t -> exists rc, t = Done rc).
Proof.
  intros Hw%reachable_world. split.
  - remember (measure w) as m eqn:Hm. revert w Hw Hm. induction m as [m IH] using (well_founded_induction lex_wf). intros w Hw ->.
    constructor. intros w' Hs. eapply IH; [by apply step_measure|by eapply step_ok|done].
  - destruct (decide (Forall (fun t => match t with Done _ => true | _ => false end = true) (w_tasks w))) as [Hd|Hd].
    + right. intros i t Hi. eapply Forall_lookup_1 in Hd; [|done]. destruct t; try done. eauto.
    + left. apply not_Forall_Exists in Hd; [|intros t; apply _]. apply Exists_exists in Hd as (t & Hin & Ht). apply list_elem_of_lookup_1 in Hin as [i Hi].
      eapply no_deadlock; [done|done|]. intros rc ->. by apply Ht.
Qed.

(** The scenario of [test_reorganize_blob.cc] (reader pin/drain protocol). *)
Example pin_drain_protocol :
  let '(a, l) := TryPinRead BlobLock_new in let '(b, l) := TryPinRead l in
  let l := BeginDrainReaders l in
  let l1 := UnpinRead l in let l2 := UnpinRead l1 in
  let l3 := EndDrainReaders l2 in
  (a, b, HasReadPins l, fst (TryPinRead l), HasReadPins l1, HasReadPins l2, fst (TryPinRead l2), fst (TryPinRead l3)) =
  (true, true, true, false, true, false, false, true).
Proof. reflexivity. Qed.

Lemma schedule_reachable requests xs w : Forall (fun t => request_start t = true) requests -> Z.of_nat (length requests) < 2 ^ 63 ->
  schedule xs (init requests) = Some w -> reachable requests w.
Proof.
  intros Hr Hlen H. split_and!; [done|done|]. clear Hr Hlen. revert H. generalize (init requests).
  induction xs as [|[i c] xs IH]; intros w0; cbn [schedule]; [by intros [= ->]|].
  intros (w1 & H1 & H)%bind_Some. eapply rtc_l; [by exists i, c|by apply IH].
Qed.

(** ** Examples *)

Definition n_blob : str := lit "b".
Definition blk_at (off : Z) : BlobBlock := mkBlobBlock (512, 1) [] off 8 512.

(** A put that creates the blob and places it at [off], by request [i]. *)
Definition put_all (i : nat) (off : Z) : list (nat * choice) := [(i, Go); (i, Go); (i, Alloc [blk_at off] true); (i, Go); (i, Go)].
(** The rest of a delete that holds the token, of blocks on one pool. *)
Definition del_rest (i : nat) : list (nat * choice) := [(i, Go); (i, Go); (i, Go); (i, FreePool (512, 1)); (i, Go); (i, Go); (i, Go)].

(** A get reads while a delete waits for its pin and a put of another blob writes. *)
Definition ex_overlap : list task := [Start OPut n_blob; Get n_blob 8; Start ODel n_blob; Start OPut (lit "c")].
Definition ex_overlap_run : list (nat * choice) :=
  put_all 0 0 ++ [(1%nat, Go); (1%nat, Go); (1%nat, Go); (1%nat, Go); (1%nat, Go); (2%nat, Go); (2%nat, Go); (2%nat, Go); (2%nat, Go);
                  (3%nat, Go); (3%nat, Go); (3%nat, Alloc [blk_at 512] true)].
Definition ex_overlap_world : world := default (init []) (schedule ex_overlap_run (init ex_overlap)).

Lemma ex_overlap_reachable : reachable ex_overlap ex_overlap_world.
Proof. apply (schedule_reachable _ ex_overlap_run); [repeat constructor|done|vm_compute; reflexivity]. Qed.

Lemma reads_keep_their_extents_witness : (0%nat, place (blk_at 0)) ∈ w_used ex_overlap_world /\ apart (place (blk_at 512)) (place (blk_at 0)) = true.
Proof.
  destruct (reads_keep_their_extents ex_overlap ex_overlap_world 1 0 [blk_at 0] ex_overlap_reachable ltac:(vm_compute; reflexivity)) as (A & _ & B).
  split; [apply A; by left|]. eapply (B 3%nat 1%nat); [vm_compute; reflexivity|done|vm_compute; reflexivity|by left|by left].
Defined.

Lemma one_writer_per_blob_witness : holds (Poll ODel n_blob 0) = Some 0%nat /\ (reads (Reading 0 [blk_at 0]) = Some 0%nat -> frees (Poll ODel n_blob 0) <> Some 0%nat).
Proof.
  destruct (one_writer_per_blob ex_overlap ex_overlap_world 2 1 (Poll ODel n_blob 0) (Reading 0 [blk_at 0]) 0 ex_overlap_reachable
    ltac:(vm_compute; reflexivity) ltac:(vm_compute; reflexivity) eq_refl) as [_ A]. split; [reflexivity|exact A].
Defined.

Lemma requests_finish_witness : (exists w', step ex_overlap_world w') \/ forall i t, w_tasks ex_overlap_world !! i = Some t -> exists rc, t = Done rc.
Proof. apply (requests_finish ex_overlap ex_overlap_world ex_overlap_reachable). Defined.

(** * What it does not *)

(** A put looks its blob up before it waits for the token and does not look again:
    one that waits behind a delete writes to the object the delete has unlinked. It
    returns 0; no name leads to its bytes, and nothing will free its extents. *)
Theorem put_behind_delete_leaks :
  exists w, reachable [Start OPut n_blob; Start ODel n_blob; Start OPut n_blob; Get n_blob 8] w /\
    w_tasks w = [Done 0; Done 0; Done 0; Done 1] /\ w_names w = ∅ /\ w_used w = [(0%nat, place (blk_at 512))].
Proof.
  eexists. split; [|split_and!].
  - apply (schedule_reachable _ (put_all 0 0 ++ [(1%nat, Go); (1%nat, Go); (2%nat, Go)] ++ del_rest 1 ++ [(2%nat, Go); (2%nat, Alloc [blk_at 512] true); (2%nat, Go); (2%nat, Go); (3%nat, Go)]));
      [repeat constructor|done|vm_compute; reflexivity].
  - reflexivity.
  - reflexivity.
  - reflexivity.
Qed.

(** Of two deletes that found the same blob, the second erases by name what a put
    has stored since the first: that put had returned 0, and its extents stay taken. *)
Theorem second_delete_unlinks_new_blob :
  exists w, reachable [Start OPut n_blob; Start ODel n_blob; Start ODel n_blob; Start OPut n_blob; Get n_blob 8] w /\
    w_tasks w = [Done 0; Done 0; Done 0; Done 0; Done 1] /\ w_names w = ∅ /\ w_used w = [(1%nat, place (blk_at 512))].
Proof.
  eexists. split; [|split_and!].
  - apply (schedule_reachable _ (put_all 0 0 ++ [(1%nat, Go); (2%nat, Go); (1%nat, Go)] ++ del_rest 1 ++ put_all 3 512 ++
      [(2%nat, Go); (2%nat, Go); (2%nat, Go); (2%nat, Go); (2%nat, Go); (2%nat, Go); (2%nat, Go); (4%nat, Go)])); [repeat constructor|done|vm_compute; reflexivity].
  - reflexivity.
  - reflexivity.
  - reflexivity.
Qed.

(** [ExtendBlob] grows a blob's blocks as the steps above assume. *)
Section Grown.
Context {D P I : Type} `{BlockDevice D} `{Dpe P}.
Implicit Types (st : Runtime D P I) (b : BlobInfo).

Definition keeps_places (bs bs' : list BlobBlock) : Prop := map place bs `prefix_of` map place bs'.

Lemma keeps_places_refl bs : keeps_places bs bs.
Proof. unfold keeps_places. reflexivity. Qed.

Local Ltac done_places := first [apply keeps_places_refl|assumption].

Lemma keeps_places_grown bs bs' : keeps_places bs bs' -> grown bs bs' = true.
Proof.
  intros [k Hk]. apply bool_decide_eq_true. rewrite <- List.firstn_map, Hk. apply take_app_length'. by rewrite length_map.
Qed.

Lemma fill_spare_places bs add bs' fill : fill_spare bs add = (bs', fill) -> map place bs' = map place bs.
Proof.
  unfold fill_spare. destruct (last bs) as [blk|] eqn:E; [|by intros [= <- _]]. destruct (_ <? _); [|by intros [= <- _]].
  intros [= <- _]. apply last_Some in E as [l ->]. rewrite length_app. cbn [length].
  replace (length l + 1 - 1)%nat with (length l + 0)%nat by lia. rewrite insert_app_r. cbn. by rewrite !map_app.
Qed.

Lemma extend_on_places st b pool pre rem st' b' rem' : extend_on st b pool pre rem = (st', b', rem') -> keeps_places (bi_blocks b) (bi_blocks b').
Proof.
  unfold extend_on. intros Heq. assert (forall bs, keeps_places (bi_blocks b) (bi_blocks b ++ bs)) as Happ by (intros bs; unfold keeps_places; rewrite map_app; by apply prefix_app_r).
  repeat case_match; simplify_eq; cbn; first [apply Happ|apply keeps_places_refl].
Qed.

Lemma extend_loop_places ts : forall st b pre rem st' b' rem', extend_loop st b ts pre rem = (st', b', rem') -> keeps_places (bi_blocks b) (bi_blocks b').
Proof.
  induction ts as [|t ts IH]; intros st b pre rem st' b' rem'; cbn [extend_loop]; [intros [= <- <- <-]; done_places|].
  destruct (rem =? 0); [intros [= <- <- <-]; done_places|]. destruct (extend_on _ _ _ _ _) as [[st1 b1] rem1] eqn:E. intros HL.
  apply extend_on_places in E. apply IH in HL. unfold keeps_places in *. by etrans.
Qed.

Lemma ExtendBlob_grown st b offset size score minp pre rc st' b' :
  ExtendBlob st b offset size score minp pre = (rc, st', b') -> grown (bi_blocks b) (bi_blocks b') = true.
Proof.
  intros Heq. apply keeps_places_grown. revert Heq. unfold ExtendBlob. destruct (_ <=? _); [intros [= <- <- <-]; done_places|].
  destruct (fill_spare _ _) as [bs fill] eqn:Ef. apply fill_spare_places in Ef.
  assert (keeps_places (bi_blocks b) bs) as Hk by (unfold keeps_places; by rewrite Ef).
  destruct (_ =? 0); [intros [= <- <- <-]; done_places|]. destruct (_ =? 0)%nat; [intros [= <- <- <-]; done_places|].
  destruct (SelectTargets _ _ _ _) as [ordered dpe]. destruct (List.filter _ ordered) as [|t ts]; [intros [= <- <- <-]; done_places|].
  destruct (extend_loop _ _ _ _ _) as [[st2 b2] rem2] eqn:EL. apply extend_loop_places in EL. unfold keeps_places in *.
  destruct (0 <? rem2); intros [= <- <- <-]; (etrans; [exact Hk|exact EL]).
Qed.
End Grown.
