(* ===== verification/ChainMap.v ===== *)
(** The hash map that holds the metadata of the context transfer engine
    ([context-transport-primitives/.../data_structures/priv/unordered_map_ll.h]):
    buckets of chained nodes that grow by rehashing.

    An operation is one step: the map-wide lock and the bucket locks of the source
    serialise operations on a bucket and let growth run alone. A chain is the list
    of its nodes, and a pointer to a value is the key it is stored under. The hash,
    the allocator's success and the growth threshold are arguments. The theorem is
    that the map is a finite map, which is how the other files model it. *)
From Stdlib Require Import ZArith Lia.
From stdpp Require Import base list gmap.
From S2P Require Import Prelude.

Section ChainMap.
Context {K V : Type} `{Countable K} (hash : K -> nat).
(** [static_cast<size_type>(ext_percent_ * cap)] *)
Context (ext_percent : nat -> nat).

(** * The map *)

Record unordered_map_ll := mkMap {
  buckets_ : list (list (K * V));
  size_ : nat;
  ext_mult_ : nat }.
Implicit Types (m : unordered_map_ll) (k : K) (v : V) (chain : list (K * V)).

Definition with_buckets m bs : unordered_map_ll := mkMap bs (size_ m) (ext_mult_ m).
Definition with_size m n : unordered_map_ll := mkMap (buckets_ m) n (ext_mult_ m).

(** [init_buckets] and the constructor. *)
Definition init_buckets (num_buckets : nat) : list (list (K * V)) := replicate (if (num_buckets =? 0)%nat then 1 else num_buckets) [].
Definition map_new (num_buckets ext_mult : nat) : unordered_map_ll :=
  mkMap (init_buckets num_buckets) 0 (if (ext_mult <? 2)%nat then 2 else ext_mult).

Definition bucket_count m : nat := length (buckets_ m).
Definition bucket_of m k : nat := hash k mod bucket_count m.
Definition rehash_threshold (cap : nat) : nat := Nat.max 1 (ext_percent cap).

Definition bucket m (b : nat) : list (K * V) := default [] (buckets_ m !! b).
Definition set_bucket m (b : nat) chain : unordered_map_ll := with_buckets m (<[b := chain]> (buckets_ m)).

(** The walk of a chain. *)
Fixpoint find_in chain k : option V :=
  match chain with
  | [] => None
  | (k', v) :: chain => if decide (k' = k) then Some v else find_in chain k
  end.
Definition find_in_bucket m (b : nat) k : option V := find_in (bucket m b) k.

(** Assignment through the pointer to a value. *)
Fixpoint assign_in chain k v : list (K * V) :=
  match chain with
  | [] => []
  | (k', v') :: chain => if decide (k' = k) then (k', v) :: chain else (k', v') :: assign_in chain k v
  end.

Fixpoint erase_in chain k : list (K * V) :=
  match chain with
  | [] => []
  | (k', v') :: chain => if decide (k' = k) then chain else (k', v') :: erase_in chain k
  end.

(** Re-threading every node, in order, at the head of its new chain. *)
Definition rethread (n : nat) (new : list (list (K * V))) (node : K * V) : list (list (K * V)) :=
  alter (cons node) (hash (fst node) mod n) new.
Definition rehash m (new_bucket_count : nat) : unordered_map_ll :=
  let n := if (new_bucket_count =? 0)%nat then 1 else new_bucket_count in
  with_buckets m (fold_left (rethread n) (concat (buckets_ m)) (replicate n [])).

Definition maybe_rehash m : unordered_map_ll :=
  if (size_ m <? rehash_threshold (bucket_count m))%nat then m else rehash m (bucket_count m * ext_mult_ m).

(** A new node at the head of the chain. *)
Definition add_node m k v : unordered_map_ll :=
  with_size (set_bucket m (bucket_of m k) ((k, v) :: bucket m (bucket_of m k))) (size_ m + 1).

(** What the operations return: whether the key was inserted, and whether the
    pointer to its value is not null. [ok] is the allocator's success. *)
Definition insert_locked m (ok : bool) k v : bool * bool * unordered_map_ll :=
  match find_in_bucket m (bucket_of m k) k with
  | Some _ => (false, true, m)
  | None => if ok then (true, true, add_node m k v) else (false, false, m)
  end.
Definition insert m (ok : bool) k v : bool * bool * unordered_map_ll :=
  let '(inserted, ptr, m) := insert_locked m ok k v in
  (inserted, ptr, if inserted then maybe_rehash m else m).

Definition insert_or_assign m (ok : bool) k v : bool * bool * unordered_map_ll :=
  match find_in_bucket m (bucket_of m k) k with
  | Some _ => (false, true, set_bucket m (bucket_of m k) (assign_in (bucket m (bucket_of m k)) k v))
  | None => if ok then (true, true, maybe_rehash (add_node m k v)) else (false, false, m)
  end.

(** [m[k] = v]: an entry with the value [T()] if there is none, then the assignment. *)
Definition subscript m (v0 : V) k : unordered_map_ll :=
  match find_in_bucket m (bucket_of m k) k with
  | Some _ => m
  | None => maybe_rehash (add_node m k v0)
  end.
Definition store_ref m k v : unordered_map_ll := set_bucket m (bucket_of m k) (assign_in (bucket m (bucket_of m k)) k v).

Definition find m k : option V := find_in_bucket m (bucket_of m k) k.
(** A copy of the value, or [T{}]. *)
Definition get m (v0 : V) k : V := default v0 (find m k).
Definition contains m k : bool := match find m k with Some _ => true | None => false end.

Definition erase_locked m k : nat * unordered_map_ll :=
  match find_in_bucket m (bucket_of m k) k with
  | Some _ => (1, with_size (set_bucket m (bucket_of m k) (erase_in (bucket m (bucket_of m k)) k)) (size_ m - 1))
  | None => (0, m)
  end.

Definition clear m : unordered_map_ll := mkMap (replicate (bucket_count m) []) 0 (ext_mult_ m).

(** The order in which [for_each] visits the entries. *)
Definition for_each m : list (K * V) := concat (buckets_ m).
End ChainMap.

Section Correct.
Context {K V : Type} `{Countable K} (hash : K -> nat) (ext_percent : nat -> nat).
Implicit Types (m : unordered_map_ll (K := K) (V := V)) (k : K) (v : V) (chain l : list (K * V)) (M : gmap K V).

(** * Entries *)

(** Each node hangs in the bucket of its key, and no key has two. *)
Record map_ok m : Prop := {
  mo_buckets : bucket_count m <> 0%nat;
  mo_placed b chain k v : buckets_ m !! b = Some chain -> (k, v) ∈ chain -> bucket_of hash m k = b;
  mo_keys : NoDup (for_each m).*1;
  mo_size : size_ m = length (for_each m) }.

Definition contents m : gmap K V := list_to_map (for_each m).

Lemma concat_set (bs : list (list (K * V))) b chain : bs !! b = Some chain ->
  exists rest, concat bs ≡ₚ chain ++ rest /\ forall chain', concat (<[b := chain']> bs) ≡ₚ chain' ++ rest.
Proof.
  intros Hb. exists (concat (take b bs) ++ concat (drop (S b) bs)). split.
  - rewrite <- (take_drop_middle bs b chain Hb) at 1. rewrite concat_app. cbn. rewrite Permutation_app_swap_app. done.
  - intros chain'. rewrite insert_take_drop by by eapply lookup_lt_Some. rewrite concat_app. cbn. by rewrite Permutation_app_swap_app.
Qed.

Lemma find_in_elem chain k v : NoDup chain.*1 -> find_in chain k = Some v <-> (k, v) ∈ chain.
Proof.
  induction chain as [|[k' v'] chain IH]; cbn; intros Hn; [split; [done|by intros ?%elem_of_nil]|].
  apply NoDup_cons in Hn as [Hk Hn]. rewrite elem_of_cons. destruct (decide (k' = k)) as [->|Hne].
  - split; [intros [= ->]; by left|]. intros [[= ->]|Hin]; [done|]. destruct Hk. by apply (list_elem_of_fmap_2 fst _ (k, v)).
  - rewrite IH by done. split; [by right|]. intros [[= -> ->]|Hin]; done.
Qed.

Lemma find_in_none chain k : find_in chain k = None <-> k ∉ chain.*1.
Proof.
  induction chain as [|[k' v'] chain IH]; cbn; [split; [by intros _ ?%elem_of_nil|done]|]. rewrite not_elem_of_cons.
  destruct (decide (k' = k)) as [->|Hne]; [naive_solver|]. rewrite IH. naive_solver.
Qed.

(** The walks of assignment and erasure find the one node of the key. *)
Lemma chain_split chain k v0 v : find_in chain k = Some v0 ->
  exists l, chain ≡ₚ (k, v0) :: l /\ assign_in chain k v ≡ₚ (k, v) :: l /\ erase_in chain k ≡ₚ l.
Proof.
  induction chain as [|[k' v'] chain IH]; cbn; [done|]. destruct (decide (k' = k)) as [->|Hne]; [intros [= ->]; by exists chain|].
  intros Hf. destruct (IH Hf) as (l & E1 & E2 & E3). exists ((k', v') :: l).
  split; [rewrite E1; apply perm_swap|split; [rewrite E2; apply perm_swap|by rewrite E3]].
Qed.

Section Ok.
Context m (Hm : map_ok m).

Lemma bucket_lookup k : buckets_ m !! bucket_of hash m k = Some (bucket m (bucket_of hash m k)).
Proof.
  unfold bucket. assert (bucket_of hash m k < length (buckets_ m))%nat as Hlt by (apply Nat.mod_upper_bound, (mo_buckets _ Hm)).
  by destruct (lookup_lt_is_Some_2 _ _ Hlt) as [c ->].
Qed.

Lemma bucket_entries k v : (k, v) ∈ for_each m <-> (k, v) ∈ bucket m (bucket_of hash m k).
Proof.
  unfold for_each. rewrite list_elem_of_In, in_concat. split.
  - intros (c & Hc & Hin). apply list_elem_of_In in Hc, Hin. apply list_elem_of_lookup_1 in Hc as [b Hb].
    rewrite (mo_placed _ Hm b c k v Hb Hin). unfold bucket. by rewrite Hb.
  - intros Hin. exists (bucket m (bucket_of hash m k)). split; [|by apply list_elem_of_In].
    apply list_elem_of_In. eapply list_elem_of_lookup_2, bucket_lookup.
Qed.

Lemma bucket_keys k : NoDup (bucket m (bucket_of hash m k)).*1.
Proof.
  destruct (concat_set _ _ _ (bucket_lookup k)) as (rest & Hp & _). pose proof (mo_keys _ Hm) as Hn. unfold for_each in Hn.
  rewrite Hp, fmap_app in Hn. by apply NoDup_app in Hn as (Hn & _).
Qed.

Lemma find_contents k : find hash m k = contents m !! k.
Proof.
  apply option_eq. intros v. unfold find, find_in_bucket, contents. rewrite find_in_elem by apply bucket_keys.
  rewrite <- bucket_entries. apply elem_of_list_to_map, (mo_keys _ Hm).
Qed.

(** Putting another chain in place of a key's. *)
Lemma set_bucket_ok k chain' rest n m' : for_each m ≡ₚ bucket m (bucket_of hash m k) ++ rest ->
  (forall k' v', (k', v') ∈ chain' -> bucket_of hash m k' = bucket_of hash m k) -> NoDup (chain' ++ rest).*1 -> n = length (chain' ++ rest) ->
  m' = with_size (set_bucket m (bucket_of hash m k) chain') n -> map_ok m' /\ for_each m' ≡ₚ chain' ++ rest.
Proof.
  intros He Hc Hn Hlen Em. destruct (concat_set _ _ _ (bucket_lookup k)) as (rest' & Hp & Hs).
  assert (rest' ≡ₚ rest) as Hr by (apply (Permutation_app_inv_l (bucket m (bucket_of hash m k))); by rewrite <- Hp, <- He).
  assert (for_each m' ≡ₚ chain' ++ rest) as Hf by (subst m'; unfold for_each; cbn; by rewrite Hs, Hr).
  assert (bucket_count m' = bucket_count m) as Hbc by (subst m'; unfold bucket_count; cbn; apply length_insert).
  split; [|done]. split.
  - rewrite Hbc. apply (mo_buckets _ Hm).
  - intros b c k' v' Hb Hin. unfold bucket_of. rewrite Hbc. fold (bucket_of hash m k'). rewrite Em in Hb. cbn in Hb.
    destruct (decide (bucket_of hash m k = b)) as [<-|Hne].
    + rewrite list_lookup_insert_eq in Hb by (eapply lookup_lt_Some, bucket_lookup). injection Hb as <-. by eapply Hc.
    + rewrite list_lookup_insert_ne in Hb by done. by eapply (mo_placed _ Hm).
  - by rewrite Hf.
  - rewrite Hf, <- Hlen. by rewrite Em.
Qed.
End Ok.

(** * What each operation does to the entries *)

Lemma contents_perm m l : map_ok m -> for_each m ≡ₚ l -> contents m = list_to_map l.
Proof. intros Hm Hp. apply list_to_map_proper; [apply (mo_keys _ Hm)|done]. Qed.

(** A key that is present, and what is left when its node is taken out. *)
Lemma found_split m k v0 v : map_ok m -> find hash m k = Some v0 ->
  exists rest l, for_each m ≡ₚ bucket m (bucket_of hash m k) ++ rest /\ bucket m (bucket_of hash m k) ≡ₚ (k, v0) :: l /\
    assign_in (bucket m (bucket_of hash m k)) k v ≡ₚ (k, v) :: l /\ erase_in (bucket m (bucket_of hash m k)) k ≡ₚ l /\
    NoDup ((k, v0) :: l ++ rest).*1.
Proof.
  intros Hm Hf. destruct (chain_split _ _ _ v Hf) as (l & E1 & E2 & E3).
  destruct (concat_set _ _ _ (bucket_lookup m Hm k)) as (rest & Hp & _). exists rest, l. split_and!; try done.
  pose proof (mo_keys _ Hm) as Hn. unfold for_each in Hn. by rewrite Hp, E1 in Hn.
Qed.

Lemma same_bucket m k v l : map_ok m -> (forall k' v', (k', v') ∈ l -> (k', v') ∈ bucket m (bucket_of hash m k) \/ k' = k) ->
  forall k' v', (k', v') ∈ l -> bucket_of hash m k' = bucket_of hash m k.
Proof.
  intros Hm Hl k' v' Hin. destruct (Hl _ _ Hin) as [Hin'| ->]; [|done]. by eapply (mo_placed _ Hm), Hin'; apply bucket_lookup.
Qed.

Lemma add_node_ok m k v : map_ok m -> find hash m k = None ->
  map_ok (add_node hash m k v) /\ contents (add_node hash m k v) = <[k := v]> (contents m).
Proof.
  intros Hm Hf. destruct (concat_set _ _ _ (bucket_lookup m Hm k)) as (rest & Hp & _).
  assert (k ∉ (for_each m).*1) as Hk.
  { rewrite find_contents in Hf by done. by apply not_elem_of_list_to_map_2 in Hf. }
  destruct (set_bucket_ok m Hm k ((k, v) :: bucket m (bucket_of hash m k)) rest (size_ m + 1) (add_node hash m k v)) as [Hok He]; try done.
  - apply (same_bucket m k v); [done|]. intros k' v' [[= -> ->]|]%elem_of_cons; auto.
  - cbn. unfold for_each in Hk. apply NoDup_cons. rewrite <- Hp. split; [done|]. apply (mo_keys _ Hm).
  - cbn. rewrite (mo_size _ Hm). unfold for_each. rewrite Hp. lia.
  - split; [done|]. rewrite (contents_perm _ _ Hok He). cbn. f_equal. symmetry. by apply contents_perm.
Qed.

Lemma assign_ok m k v0 v : map_ok m -> find hash m k = Some v0 ->
  map_ok (store_ref hash m k v) /\ contents (store_ref hash m k v) = <[k := v]> (contents m) /\ size_ (store_ref hash m k v) = size_ m.
Proof.
  intros Hm Hf. destruct (found_split m k v0 v Hm Hf) as (rest & l & Hp & E1 & E2 & E3 & Hn).
  destruct (set_bucket_ok m Hm k (assign_in (bucket m (bucket_of hash m k)) k v) rest (size_ m) (store_ref hash m k v)) as [Hok He]; try done.
  - apply (same_bucket m k v); [done|]. intros k' v'. rewrite E2, E1. intros [[= -> ->]|Hin]%elem_of_cons; [by right|]. left. by right.
  - by rewrite E2.
  - rewrite (mo_size _ Hm), Hp, E2. by rewrite E1.
  - split_and!; [done| |done]. rewrite E2 in He. rewrite E1 in Hp. rewrite (contents_perm _ _ Hok He), (contents_perm _ _ Hm Hp). cbn. by rewrite insert_insert_eq.
Qed.

Lemma erase_ok m k v0 : map_ok m -> find hash m k = Some v0 ->
  let m' := snd (erase_locked hash m k) in map_ok m' /\ contents m' = delete k (contents m).
Proof.
  intros Hm Hf m'. destruct (found_split m k v0 v0 Hm Hf) as (rest & l & Hp & E1 & E2 & E3 & Hn).
  assert (m' = with_size (set_bucket m (bucket_of hash m k) (erase_in (bucket m (bucket_of hash m k)) k)) (size_ m - 1)) as Em.
  { unfold m', erase_locked. unfold find in Hf. by rewrite Hf. }
  apply NoDup_cons in Hn as [Hk Hn]. cbn in Hk.
  destruct (set_bucket_ok m Hm k (erase_in (bucket m (bucket_of hash m k)) k) rest (size_ m - 1) m') as [Hok He]; try done.
  - apply (same_bucket m k v0); [done|]. intros k' v'. rewrite E3, E1. intros Hin. left. by right.
  - by rewrite E3.
  - rewrite (mo_size _ Hm), Hp, E3. rewrite E1. cbn. lia.
  - split; [done|]. rewrite E3 in He. rewrite E1 in Hp. rewrite (contents_perm _ _ Hok He), (contents_perm _ _ Hm Hp). cbn.
    rewrite delete_insert_id; [done|]. by apply not_elem_of_list_to_map_1.
Qed.

Lemma rethread_all n (l : list (K * V)) (bs : list (list (K * V))) : n <> 0%nat -> length bs = n ->
  (forall b c k v, bs !! b = Some c -> (k, v) ∈ c -> hash k mod n = b) ->
  let bs' := fold_left (rethread hash n) l bs in
  length bs' = n /\ concat bs' ≡ₚ l ++ concat bs /\ (forall b c k v, bs' !! b = Some c -> (k, v) ∈ c -> hash k mod n = b).
Proof.
  intros Hn. revert bs. induction l as [|[k v] l IH]; intros bs Hlen Hpl; cbn [fold_left app]; [done|].
  assert (is_Some (bs !! (hash k mod n))) as [c Hc] by (apply lookup_lt_is_Some_2; rewrite Hlen; by apply Nat.mod_upper_bound).
  destruct (concat_set _ _ _ Hc) as (rest & Hp & Hs).
  assert (rethread hash n bs (k, v) = <[hash k mod n := (k, v) :: c]> bs) as -> by (unfold rethread; rewrite list_insert_alter; apply list_alter_ext; [by intros x; rewrite Hc; intros [= ->]|done]).
  destruct (IH (<[hash k mod n := (k, v) :: c]> bs)) as (Hl & Hcat & Hplace); [by rewrite length_insert| |].
  - intros b c' k' v' Hb Hin. destruct (decide (hash k mod n = b)) as [<-|Hne].
    + rewrite list_lookup_insert_eq in Hb by (by apply (lookup_lt_Some _ _ _ Hc)). injection Hb as <-.
      apply elem_of_cons in Hin as [[= -> ->]|Hin]; [done|]. by apply (Hpl _ _ _ _ Hc Hin).
    + rewrite list_lookup_insert_ne in Hb by done. by apply (Hpl _ _ _ _ Hb Hin).
  - split_and!; [done| |done]. rewrite Hcat, Hs, Hp. symmetry; apply Permutation_middle.
Qed.

Lemma concat_replicate_nil n : concat (replicate n ([] : list (K * V))) = [].
Proof. by induction n. Qed.

Lemma rehash_ok m n : map_ok m ->
  map_ok (rehash hash m n) /\ contents (rehash hash m n) = contents m /\ size_ (rehash hash m n) = size_ m.
Proof.
  intros Hm. unfold rehash. set (c := if (n =? 0)%nat then 1 else n). assert (c <> 0)%nat as Hc by (unfold c; destruct (Nat.eqb_spec n 0); lia).
  destruct (rethread_all c (for_each m) (replicate c []) Hc) as (Hl & Hp & Hpl); [apply length_replicate| |].
  { intros b ch k v [-> _]%lookup_replicate Hin. by apply elem_of_nil in Hin. }
  rewrite concat_replicate_nil, app_nil_r in Hp. fold (for_each m). set (bs := fold_left _ _ _) in *.
  assert (map_ok (with_buckets m bs)) as Hok; [|split_and!; [done| |done]].
  - assert (bucket_count (with_buckets m bs) = c) as Hbc by exact Hl. split.
    + by rewrite Hbc.
    + cbn. intros b ch k v Hb Hin. unfold bucket_of. rewrite Hbc. by apply (Hpl _ _ _ _ Hb Hin).
    + unfold for_each. cbn. rewrite Hp. apply (mo_keys _ Hm).
    + unfold for_each. cbn. rewrite Hp. apply (mo_size _ Hm).
  - rewrite (contents_perm _ (for_each m) Hok); [done|]. exact Hp.
Qed.

Lemma maybe_rehash_ok m : map_ok m -> map_ok (maybe_rehash hash ext_percent m) /\ contents (maybe_rehash hash ext_percent m) = contents m.
Proof. intros Hm. unfold maybe_rehash. destruct (_ <? _)%nat; [done|]. destruct (rehash_ok m (bucket_count m * ext_mult_ m) Hm) as (? & ? & _). done. Qed.

Lemma empty_ok n e : n <> 0%nat -> map_ok (mkMap (replicate n []) 0 e) /\ contents (mkMap (replicate n []) 0 e) = ∅.
Proof.
  intros Hn. assert (for_each (mkMap (replicate n []) 0 e) = []) as He by apply concat_replicate_nil. split; [split|].
  - unfold bucket_count. cbn. by rewrite length_replicate.
  - cbn. intros b c k v [-> _]%lookup_replicate Hin. by apply elem_of_nil in Hin.
  - rewrite He. constructor.
  - by rewrite He.
  - unfold contents. by rewrite He.
Qed.

Lemma size_contents m : map_ok m -> size_ m = size (contents m) /\ for_each m ≡ₚ map_to_list (contents m).
Proof.
  intros Hm. assert (for_each m ≡ₚ map_to_list (contents m)) as Hp by (symmetry; apply map_to_list_to_map, (mo_keys _ Hm)).
  split; [|done]. rewrite (mo_size _ Hm), Hp. apply length_map_to_list.
Qed.
End Correct.

(** * Histories *)

Section Histories.
Context {K V : Type} `{Countable K} (hash : K -> nat) (ext_percent : nat -> nat).
Implicit Types (m : unordered_map_ll (K := K) (V := V)) (k : K) (v : V) (M : gmap K V).

(** The calls of a client; [Assign k v0 v] is [m[k] = v] where [T()] is [v0]. *)
Inductive map_op :=
  | Insert (ok : bool) k v | InsertOrAssign (ok : bool) k v | Assign k (v0 v : V)
  | Get (v0 : V) k | Contains k | Erase k | Rehash (n : nat) | Clear.
Inductive map_result := Inserted (inserted ptr : bool) | Got v | Flag (b : bool) | Count (n : nat) | Done.

Definition map_step m (o : map_op) : map_result * unordered_map_ll :=
  match o with
  | Insert ok k v => let '(i, p, m) := insert hash ext_percent m ok k v in (Inserted i p, m)
  | InsertOrAssign ok k v => let '(i, p, m) := insert_or_assign hash ext_percent m ok k v in (Inserted i p, m)
  | Assign k v0 v => (Done, store_ref hash (subscript hash ext_percent m v0 k) k v)
  | Get v0 k => (Got (get hash m v0 k), m)
  | Contains k => (Flag (contains hash m k), m)
  | Erase k => let '(n, m) := erase_locked hash m k in (Count n, m)
  | Rehash n => (Done, rehash hash m n)
  | Clear => (Done, clear m)
  end.

(** The same calls on a finite map. *)
Definition spec_step M (o : map_op) : map_result * gmap K V :=
  match o with
  | Insert ok k v =>
      if decide (is_Some (M !! k)) then (Inserted false true, M)
      else if ok then (Inserted true true, <[k := v]> M) else (Inserted false false, M)
  | InsertOrAssign ok k v =>
      if decide (is_Some (M !! k)) then (Inserted false true, <[k := v]> M)
      else if ok then (Inserted true true, <[k := v]> M) else (Inserted false false, M)
  | Assign k v0 v => (Done, <[k := v]> M)
  | Get v0 k => (Got (default v0 (M !! k)), M)
  | Contains k => (Flag (bool_decide (is_Some (M !! k))), M)
  | Erase k => if decide (is_Some (M !! k)) then (Count 1, delete k M) else (Count 0, M)
  | Rehash n => (Done, M)
  | Clear => (Done, ∅)
  end.

Fixpoint run {S : Type} (step : S -> map_op -> map_result * S) (s : S) (ops : list map_op) : list map_result * S :=
  match ops with
  | [] => ([], s)
  | o :: ops => let '(r, s) := step s o in let '(rs, s) := run step s ops in (r :: rs, s)
  end.

Lemma subscript_ok m v0 k : map_ok hash m ->
  let m' := subscript hash ext_percent m v0 k in
  map_ok hash m' /\ exists v, find hash m' k = Some v /\ forall v', <[k := v']> (contents m') = <[k := v']> (contents m).
Proof.
  intros Hm m'. unfold m', subscript. fold (find hash m k). destruct (find hash m k) as [v|] eqn:Hf; [by eauto|].
  destruct (add_node_ok hash m k v0 Hm Hf) as [Ha Ec]. destruct (maybe_rehash_ok hash ext_percent _ Ha) as [Hr Er]. split; [done|].
  exists v0. rewrite find_contents by done. rewrite Er, Ec, lookup_insert_eq. split; [done|]. intros v'. by rewrite insert_insert_eq.
Qed.

Lemma map_step_refines m o : map_ok hash m ->
  let '(r, m') := map_step m o in map_ok hash m' /\ spec_step (contents m) o = (r, contents m').
Proof.
  intros Hm. destruct o as [ok k v|ok k v|k v0 v|v0 k|k|k|n|]; cbn [map_step spec_step].
  - unfold insert, insert_locked. rewrite <- (find_contents hash m Hm). fold (find hash m k).
    destruct (find hash m k) as [v'|] eqn:Hf; [rewrite decide_True by done; done|]. rewrite decide_False by (by intros []).
    destruct ok; [|done]. destruct (add_node_ok hash m k v Hm Hf) as [Ha Ec]. destruct (maybe_rehash_ok hash ext_percent _ Ha) as [Hr Er].
    split; [done|]. by rewrite Er, Ec.
  - unfold insert_or_assign. rewrite <- (find_contents hash m Hm). fold (find hash m k).
    destruct (find hash m k) as [v'|] eqn:Hf; [rewrite decide_True by done|rewrite decide_False by (by intros [])].
    + destruct (assign_ok hash m k v' v Hm Hf) as (Ha & Ec & _). split; [done|]. f_equal. by rewrite <- Ec.
    + destruct ok; [|done]. destruct (add_node_ok hash m k v Hm Hf) as [Ha Ec]. destruct (maybe_rehash_ok hash ext_percent _ Ha) as [Hr Er].
      split; [done|]. by rewrite Er, Ec.
  - destruct (subscript_ok m v0 k Hm) as (Hs & v' & Hf & Hc). destruct (assign_ok hash _ k v' v Hs Hf) as (Ha & Ec & _).
    split; [done|]. by rewrite Ec, Hc.
  - split; [done|]. unfold get. by rewrite (find_contents hash m Hm).
  - split; [done|]. unfold contains. rewrite (find_contents hash m Hm). by destruct (contents m !! k).
  - rewrite <- (find_contents hash m Hm). destruct (find hash m k) as [v|] eqn:Hf.
    + destruct (erase_ok hash m k v Hm Hf) as [He Ec]. rewrite decide_True by done. rewrite <- Ec. revert He.
      unfold erase_locked. unfold find in Hf. by rewrite Hf.
    + rewrite decide_False by (by intros []). unfold erase_locked. unfold find in Hf. by rewrite Hf.
  - destruct (rehash_ok hash m n Hm) as (? & Ec & _). by rewrite Ec.
  - destruct (empty_ok (V := V) hash (bucket_count m) (ext_mult_ m) (mo_buckets _ _ Hm)) as [? Ec]. split; [done|]. by rewrite <- Ec.
Qed.

Lemma history_refines ops m : map_ok hash m ->
  let '(rs, m') := run map_step m ops in map_ok hash m' /\ run spec_step (contents m) ops = (rs, contents m').
Proof.
  revert m. induction ops as [|o ops IH]; intros m Hm; [done|]. cbn [run]. pose proof (map_step_refines m o Hm) as Hs.
  destruct (map_step m o) as [r m']. destruct Hs as [Hm' ->]. specialize (IH m' Hm'). destruct (run map_step m' ops) as [rs m'']. by destruct IH as [? ->].
Qed.

(** C31. The chained map is a finite map: whatever the hash, the sizes asked for
    and the growth, any sequence of calls on a new map returns what the same calls
    return on a finite map, and leaves a table whose look-ups are that map's, whose
    counter is its size and whose traversal visits each entry once. *)
Theorem chain_map_refines num_buckets mult (ops : list map_op) :
  let '(rs, m) := run map_step (map_new num_buckets mult) ops in
  let '(srs, M) := run spec_step ∅ ops in
  rs = srs /\ (forall k, find hash m k = M !! k) /\ size_ m = size M /\ for_each m ≡ₚ map_to_list M.
Proof.
  unfold map_new, init_buckets. set (n := if (num_buckets =? 0)%nat then 1 else num_buckets).
  assert (n <> 0)%nat as Hn by (unfold n; destruct (Nat.eqb_spec num_buckets 0); lia).
  destruct (empty_ok (V := V) hash n (if (mult <? 2)%nat then 2 else mult) Hn) as [Hok Ec]. pose proof (history_refines ops _ Hok) as Hr.
  rewrite Ec in Hr. destruct (run map_step _ ops) as [rs m]. destruct Hr as [Hm ->].
  split_and!; [done|intros k; by apply find_contents|by apply (size_contents hash)..].
Qed.
End Histories.
