(* ===== verification/TicketLock.v ===== *)
(** The mutex of the transport primitives
    ([context-transport-primitives/include/clio_ctp/thread/lock/mutex.h]), a ticket
    lock, and the reentrant mutex of the runtime on top of it
    ([context-runtime/include/clio_runtime/comutex.h]).

    A step of a thread is one access to a shared word. Memory is sequentially
    consistent; the back-off between two looks at [head_] only takes time. *)
From Stdlib Require Import ZArith Lia.
From stdpp Require Import base list relations.
From S2P Require Import Prelude Threads.

Open Scope Z_scope.

(** * The lock *)

Record Mutex := mkMutex { lock_ : Z; head_ : Z; try_lock_ : Z }.
Definition Mutex_new : Mutex := mkMutex 0 0 0.
Implicit Types (m : Mutex) (tkt : Z).

(** Where a call is. [Lock]: about to draw a ticket; comparing it to [head_].
    [TryLock]: about to count itself; it was the first, about to load [lock_];
    [head_]; about to take its count back. *)
Inductive thread := Idle | Draw | Wait tkt | Held tkt | TryStart | TryLoad | TryCompare (lock : Z) | TryBack.
Inductive choice := Go | CallLock | CallTryLock.
Implicit Types (t : thread).

Definition Lock m t : Mutex * thread :=
  match t with
  | Draw => (mkMutex (u64 (lock_ m + 1)) (head_ m) (try_lock_ m), Wait (lock_ m))
  | Wait tkt => (m, if tkt =? head_ m then Held tkt else Wait tkt)
  | _ => (m, t)
  end.

Definition TryLock m t : Mutex * thread :=
  match t with
  | TryStart => (mkMutex (lock_ m) (head_ m) (u32 (try_lock_ m + 1)), if 0 <? try_lock_ m then TryBack else TryLoad)
  | TryLoad => (m, TryCompare (lock_ m))
  | TryCompare lock => (m, if head_ m <? lock then TryBack else Draw)
  | TryBack => (mkMutex (lock_ m) (head_ m) (u32 (try_lock_ m - 1)), Idle)
  | _ => (m, t)
  end.

Definition Unlock m : Mutex := mkMutex (lock_ m) (u64 (head_ m + 1)) (try_lock_ m).

Definition thread_step (c : choice) m t : Mutex * thread :=
  match t with
  | Idle => (m, match c with Go => Idle | CallLock => Draw | CallTryLock => TryStart end)
  | Draw | Wait _ => Lock m t
  | TryStart | TryLoad | TryCompare _ | TryBack => TryLock m t
  | Held _ => (Unlock m, Idle)
  end.

(** * Threads that interleave *)

Record world := mkWorld { w_mutex : Mutex; w_threads : list thread }.
Implicit Types (w : world) (ts : list thread).
Definition world_init (n : nat) : world := mkWorld Mutex_new (replicate n Idle).

Definition move (i : nat) (c : choice) w : option world :=
  match w_threads w !! i with
  | Some t => let '(m, t') := thread_step c (w_mutex w) t in Some (mkWorld m (<[i := t']> (w_threads w)))
  | None => None
  end.
Definition step w w' : Prop := exists i c, move i c w = Some w'.
Definition reachable w : Prop := exists n, Z.of_nat n < 2 ^ 31 /\ rtc step (world_init n) w.

Fixpoint exec (sched : list (nat * choice)) w : option world :=
  match sched with
  | [] => Some w
  | (i, c) :: sched => match move i c w with Some w' => exec sched w' | None => None end
  end.

Definition ticket_of t : option Z := match t with Wait tkt | Held tkt => Some tkt | _ => None end.

(** The threads that hold tickets, in the order in which they drew them; the first
    may enter, and only it is inside. *)
Record queue_ok (q : list nat) w : Prop := {
  qo_threads : Z.of_nat (length (w_threads w)) < 2 ^ 31;
  qo_distinct : NoDup q;
  qo_ticket k i : q !! k = Some i -> exists t, w_threads w !! i = Some t /\ ticket_of t = Some (u64 (head_ (w_mutex w) + Z.of_nat k));
  qo_all i t : w_threads w !! i = Some t -> is_Some (ticket_of t) -> i ∈ q;
  qo_next : lock_ (w_mutex w) = u64 (head_ (w_mutex w) + Z.of_nat (length q));
  qo_head : 0 <= head_ (w_mutex w) < 2 ^ 64;
  qo_held i tkt : w_threads w !! i = Some (Held tkt) -> tkt = head_ (w_mutex w) }.

Lemma queue_length q w : queue_ok q w -> Z.of_nat (length q) < 2 ^ 32.
Proof.
  intros Hq. assert (length q <= length (w_threads w))%nat as Hle; [|pose proof (qo_threads _ _ Hq); lia].
  rewrite <- (length_seq (length (w_threads w)) 0). apply submseteq_length, NoDup_submseteq; [apply (qo_distinct _ _ Hq)|].
  intros i Hi. apply list_elem_of_lookup in Hi as [k Hk]. destruct (qo_ticket _ _ Hq k i Hk) as (t & Ht & _).
  apply elem_of_seq. apply lookup_lt_Some in Ht. lia.
Qed.

Lemma u64_apart a k k' : 0 <= k < 2 ^ 32 -> 0 <= k' < 2 ^ 32 -> u64 (a + k) = u64 (a + k') -> k = k'.
Proof.
  unfold u64. intros Hk Hk' E. assert ((a + k - (a + k')) mod 2 ^ 64 = 0) as Hz by (rewrite Zminus_mod, E, Z.sub_diag; done).
  apply Z.mod_divide in Hz as [x Hx]; [|done]. lia.
Qed.

Lemma queue_init n : Z.of_nat n < 2 ^ 31 -> queue_ok [] (world_init n).
Proof.
  intros Hn. split; cbn; try done; try lia.
  - by rewrite length_replicate.
  - constructor.
  - intros i t [-> _]%lookup_replicate. by intros [].
  - by intros i tkt [? _]%lookup_replicate.
Qed.

Lemma step_cases c m t m' t' : thread_step c m t = (m', t') ->
  (t = Draw /\ t' = Wait (lock_ m) /\ lock_ m' = u64 (lock_ m + 1) /\ head_ m' = head_ m) \/
  (exists tkt, t = Held tkt /\ t' = Idle /\ lock_ m' = lock_ m /\ head_ m' = u64 (head_ m + 1)) \/
  (ticket_of t' = ticket_of t /\ lock_ m' = lock_ m /\ head_ m' = head_ m /\ forall tkt, t' = Held tkt -> tkt = head_ m).
Proof.
  intros Hs. destruct t; cbn in Hs; repeat case_match; simplify_eq; cbn;
    first [by left|by right; left; eauto|right; right; split_and!; try done; intros; simplify_eq; try lia].
Qed.

(** The thread that holds the lock is the first of the queue. *)
Lemma held_first q w i tkt : queue_ok q w -> w_threads w !! i = Some (Held tkt) -> exists q', q = i :: q'.
Proof.
  intros Hq Hi. pose proof (queue_length _ _ Hq) as Hl. pose proof (qo_all _ _ Hq i _ Hi ltac:(by eexists)) as Hin.
  apply list_elem_of_lookup in Hin as [k Hk]. destruct (qo_ticket _ _ Hq k i Hk) as (t & Ht & Et). rewrite Hi in Ht. injection Ht as <-.
  cbn in Et. injection Et as Et. pose proof (qo_held _ _ Hq i tkt Hi) as E. pose proof (qo_head _ _ Hq).
  apply lookup_lt_Some in Hk as Hlt. assert (Z.of_nat k = 0) as Hz.
  { symmetry. apply (u64_apart (head_ (w_mutex w))); [lia..|]. rewrite <- Et, E, Z.add_0_r. by apply u64_small. }
  destruct k; [|lia]. destruct q as [|j q]; [done|]. cbn in Hk. injection Hk as ->. eauto.
Qed.

Lemma u64_add a b : u64 (u64 a + b) = u64 (a + b).
Proof. unfold u64. by rewrite Zplus_mod_idemp_l. Qed.

Lemma queue_step q w w' : queue_ok q w -> step w w' ->
  exists q', queue_ok q' w' /\ (q' = q \/ (exists i, q' = q ++ [i]) \/ (exists i, q = i :: q')).
Proof.
  intros Hq (i & c & Hm). pose proof (queue_length _ _ Hq) as Hl. assert (forall i tkt, w_threads w !! i = Some (Held tkt) -> exists q', q = i :: q') as Hfirst by (intros; by eapply held_first).
  destruct Hq as [Hn Hd Htk Hall Hnext Hhead Hheld]. unfold move in Hm.
  destruct (w_threads w !! i) as [t|] eqn:Hi; [|done]. destruct (thread_step c (w_mutex w) t) as [m' t'] eqn:Hs. injection Hm as <-.
  assert (<[i := t']> (w_threads w) !! i = Some t') as Hi' by (apply list_lookup_insert_eq; by eapply lookup_lt_Some).
  destruct (step_cases _ _ _ _ _ Hs) as [(-> & -> & El & Eh)|[(tkt & -> & -> & El & Eh)|(Et & El & Eh & Ehl)]].
  - exists (q ++ [i]). split; [|by eauto]. assert (i ∉ q) as Hni.
    { intros Hin. apply list_elem_of_lookup in Hin as [k Hk]. destruct (Htk k i Hk) as (t & Ht & E). rewrite Hi in Ht. by injection Ht as <-. }
    split; cbn [w_mutex w_threads]; rewrite ?El, ?Eh; try done.
    + by rewrite length_insert.
    + apply NoDup_app. split_and!; [done| |apply NoDup_singleton]. intros j Hj. rewrite list_elem_of_singleton. by intros ->.
    + intros k j Hk. apply lookup_app_Some in Hk as [Hk|[Hge Hk]].
      * destruct (Htk k j Hk) as (t & Ht & E). exists t. split; [|done]. rewrite list_lookup_insert_ne; [done|]. intros <-. apply Hni. by eapply list_elem_of_lookup_2.
      * apply list_lookup_singleton_Some in Hk as [Hk <-]. exists (Wait (lock_ (w_mutex w))). split; [done|]. cbn. rewrite Hnext. f_equal. f_equal. lia.
    + intros j t Hj Ht. destruct (lookup_moved _ _ _ _ _ _ Hi Hj) as [[-> _]|[_ Hj']]; apply elem_of_app; [right; by left|left; by eapply Hall].
    + rewrite Hnext, u64_add, length_app. cbn. f_equal. lia.
    + intros j tkt Hj. destruct (lookup_moved _ _ _ _ _ _ Hi Hj) as [[_ ?]|[_ Hj']]; [done|by eapply Hheld].
  - destruct (Hfirst i tkt) as [q' ->]; [done|]. exists q'. split; [|eauto].
    apply NoDup_cons in Hd as [Hni Hd]. split; cbn [w_mutex w_threads]; rewrite ?El, ?Eh; try done.
    + by rewrite length_insert.
    + intros k j Hk. destruct (Htk (S k) j Hk) as (t & Ht & E). exists t. split.
      * rewrite list_lookup_insert_ne; [done|]. intros <-. apply Hni. by eapply list_elem_of_lookup_2.
      * rewrite E, u64_add. f_equal. f_equal. lia.
    + intros j t Hj Ht. destruct (lookup_moved _ _ _ _ _ _ Hi Hj) as [[_ ->]|[Hne Hj']]; [by destruct Ht|].
      specialize (Hall j t Hj' Ht). by apply elem_of_cons in Hall as [?|?].
    + rewrite Hnext, u64_add. cbn. f_equal. lia.
    + apply u64_range.
    + intros j k Hj. destruct (lookup_moved _ _ _ _ _ _ Hi Hj) as [[_ ?]|[Hne Hj']]; [done|].
      destruct (Hfirst j k Hj') as [q'' E]. congruence.
  - exists q. split; [|by left]. split; cbn [w_mutex w_threads]; rewrite ?El, ?Eh; try done.
    + by rewrite length_insert.
    + intros k j Hk. destruct (Htk k j Hk) as (u & Hu & E). destruct (decide (i = j)) as [<-|Hne].
      * exists t'. split; [done|]. rewrite Et. rewrite Hi in Hu. by injection Hu as <-.
      * exists u. by rewrite list_lookup_insert_ne.
    + intros j u Hj Hu. destruct (lookup_moved _ _ _ _ _ _ Hi Hj) as [[-> ->]|[_ Hj']]; [rewrite Et in Hu|]; by eapply Hall.
    + intros j tkt Hj. destruct (lookup_moved _ _ _ _ _ _ Hi Hj) as [[_ Hh]|[_ Hj']]; [by apply Ehl|by eapply Hheld].
Qed.

Lemma reachable_queue w : reachable w -> exists q, queue_ok q w.
Proof.
  intros (n & Hn & Hr). assert (exists q, queue_ok q (world_init n)) as Hq by (exists []; by apply queue_init).
  induction Hr as [|w w' w'' Hs _ IH]; [done|]. apply IH. destruct Hq as [q Hq]. destruct (queue_step _ _ _ Hq Hs) as (q' & Hq' & _). eauto.
Qed.

(** * The queue *)

(** The specification: a thread joins at the end, and the first leaves. *)
Inductive queue_spec : list nat -> list nat -> Prop :=
| spec_join q i : i ∉ q -> queue_spec q (q ++ [i])
| spec_leave q i : queue_spec (i :: q) q.

(** The threads that wait or hold are those of the queue; who holds is the first;
    the first can take the lock at its next step; the difference of tickets that
    the back-off sleeps by is the number of threads ahead. *)
Record represents w (q : list nat) : Prop := {
  re_members i : i ∈ q <-> exists t, w_threads w !! i = Some t /\ is_Some (ticket_of t);
  re_holder i tkt : w_threads w !! i = Some (Held tkt) -> head q = Some i;
  re_first i tkt : head q = Some i -> w_threads w !! i = Some (Wait tkt) ->
    move i Go w = Some (mkWorld (w_mutex w) (<[i := Held tkt]> (w_threads w)));
  re_ahead k i tkt : q !! k = Some i -> w_threads w !! i = Some (Wait tkt) -> u64 (tkt - head_ (w_mutex w)) = Z.of_nat k }.

Lemma u64_sub a b : u64 (u64 a - b) = u64 (a - b).
Proof. unfold u64. by rewrite Zminus_mod_idemp_l. Qed.

Lemma queue_represents q w : queue_ok q w -> represents w q.
Proof.
  intros Hq. pose proof (queue_length _ _ Hq) as Hl. split.
  - intros i. split; [|intros (t & Hi & Ht); by eapply (qo_all _ _ Hq)]. intros Hi. apply list_elem_of_lookup in Hi as [k Hk].
    destruct (qo_ticket _ _ Hq k i Hk) as (t & Ht & E). exists t. by rewrite E.
  - intros i tkt Hi. by destruct (held_first q w i tkt Hq Hi) as [q' ->].
  - intros i tkt Hh Hi. destruct q as [|j q]; [done|]. injection Hh as ->. destruct (qo_ticket _ _ Hq 0%nat i eq_refl) as (t & Ht & E).
    rewrite Hi in Ht. injection Ht as <-. cbn in E. injection E as ->. unfold move. rewrite Hi. cbn.
    rewrite Z.add_0_r, u64_small by apply (qo_head _ _ Hq). by rewrite Z.eqb_refl.
  - intros k i tkt Hk Hi. destruct (qo_ticket _ _ Hq k i Hk) as (t & Ht & E). rewrite Hi in Ht. injection Ht as <-. injection E as ->.
    apply lookup_lt_Some in Hk. rewrite u64_sub. rewrite u64_small by lia. lia.
Qed.

(** C32. The mutex is a fair queue: whatever the interleaving, the threads that wait
    or hold form a queue that changes only by a thread joining at its end and by its
    first leaving, its first alone may be inside and takes the lock at its next look,
    and [tkt - head_] is the number of threads ahead, counters wrapping included. *)
Theorem mutex_refines_queue n w : Z.of_nat n < 2 ^ 31 -> rtc step (world_init n) w ->
  exists q, rtc queue_spec [] q /\ represents w q.
Proof.
  intros Hn Hr. enough (exists q, rtc queue_spec [] q /\ queue_ok q w) as (q & Hs & Hq) by (exists q; split; [done|by apply queue_represents]).
  assert (exists q, rtc queue_spec [] q /\ queue_ok q (world_init n)) as Hq by (exists []; split; [done|by apply queue_init]).
  induction Hr as [|w w' w'' Hst _ IH]; [done|]. apply IH. destruct Hq as (q & Hs & Hq).
  destruct (queue_step _ _ _ Hq Hst) as (q' & Hq' & [->|[[i ->]|[i ->]]]); [by exists q| |].
  - exists (q ++ [i]). split; [|done]. eapply rtc_r; [done|]. constructor. pose proof (qo_distinct _ _ Hq') as Hd.
    apply NoDup_app in Hd as (_ & Hd & _). intros Hi. by apply (Hd i Hi), list_elem_of_singleton.
  - exists q'. split; [|done]. eapply rtc_r; [done|constructor].
Qed.

(** * [TryLock]

    The count of callers is taken back only when the call fails: [s] of them have
    succeeded. *)

Definition in_try t : bool := match t with TryLoad | TryCompare _ | TryBack => true | _ => false end.
Definition trying t : bool := match t with TryLoad | TryCompare _ => true | _ => false end.

Record try_ok (s : Z) w : Prop := {
  tr_threads : Z.of_nat (length (w_threads w)) < 2 ^ 31;
  tr_count : try_lock_ (w_mutex w) = Z.of_nat (count in_try (w_threads w)) + s;
  tr_nonneg : 0 <= s;
  tr_one : Z.of_nat (count trying (w_threads w)) + s <= 1 }.

Lemma try_step s w i c w' : try_ok s w -> move i c w = Some w' ->
  exists s', try_ok s' w' /\ s <= s' /\
    ((exists lock, w_threads w !! i = Some (TryCompare lock)) -> w_threads w' !! i = Some Draw -> s' = 1).
Proof.
  intros [Hn Hc Hs Ho] Hm. unfold move in Hm. destruct (w_threads w !! i) as [t|] eqn:Hi; [|done].
  destruct (thread_step c (w_mutex w) t) as [m' t'] eqn:Ht. injection Hm as <-.
  assert (<[i := t']> (w_threads w) !! i = Some t') as Hi' by (apply list_lookup_insert_eq; by eapply lookup_lt_Some).
  pose proof (count_insert in_try _ i t t' Hi) as E1. pose proof (count_insert trying _ i t t' Hi) as E2.
  pose proof (count_room in_try _ i t TryBack Hi eq_refl) as Hroom.
  assert (count trying (w_threads w) <= count in_try (w_threads w))%nat as Hle by (apply count_mono; by intros []).
  exists (s + if trying t && match t' with Draw => true | _ => false end then 1 else 0). cbn [w_threads w_mutex].
  destruct t as [| |tkt|tkt| | |lock|]; cbn in Ht; repeat case_match; simplify_eq; cbn [in_try trying andb Nat.b2n] in *;
    (split; [split; cbn [w_threads w_mutex try_lock_ Unlock] in *; rewrite ?length_insert; try lia|split; [lia|]]);
    try (rewrite u32_small by lia; lia); intros [l E] Hd; try (rewrite E in Hi; discriminate); try (rewrite Hi' in Hd; discriminate); lia.
Qed.

Lemma try_init n : Z.of_nat n < 2 ^ 31 -> try_ok 0 (world_init n).
Proof.
  intros Hn. split; cbn; try done; rewrite ?length_replicate; try lia; rewrite count_none; try done; by intros i t [-> _]%lookup_replicate.
Qed.

Lemma try_steps s w w' : try_ok s w -> rtc step w w' -> exists s', try_ok s' w' /\ s <= s'.
Proof.
  intros Hs Hr. revert s Hs. induction Hr as [w|w w1 w' (i & c & Hm) _ IH]; intros s Hs; [exists s; split; [done|lia]|].
  destruct (try_step _ _ _ _ _ Hs Hm) as (s1 & H1 & Hle & _). destruct (IH s1 H1) as (s' & H' & Hle'). exists s'. split; [done|lia].
Qed.

(** [TryLock] succeeds once: when a call has found the mutex free and gone on to
    draw a ticket, no later call, and none under way, gets past its first test. *)
Theorem trylock_succeeds_once w i lock c w1 w' : reachable w -> w_threads w !! i = Some (TryCompare lock) ->
  move i c w = Some w1 -> w_threads w1 !! i = Some Draw -> rtc step w1 w' ->
  0 < try_lock_ (w_mutex w') /\ forall j t, w_threads w' !! j = Some t -> trying t = false.
Proof.
  intros (n & Hn & Hr) Hi Hm Hd Hr'. destruct (try_steps 0 _ _ (try_init n Hn) Hr) as (s & Hs & _).
  destruct (try_step _ _ _ _ _ Hs Hm) as (s1 & H1 & _ & E). rewrite (E (ex_intro _ lock Hi) Hd) in H1.
  destruct (try_steps _ _ _ H1 Hr') as (s' & [Hn' Hc' _ Ho'] & Hle). split; [lia|].
  intros j t Hj. apply (count_zero trying (w_threads w') j t); [lia|done].
Qed.

(** A free mutex that [TryLock] refuses: it was locked by [TryLock] once. *)
Definition go (i n : nat) : list (nat * choice) := replicate n (i, Go).
Example free_mutex_refused :
  match exec ((0%nat, CallTryLock) :: go 0 6 ++ (0%nat, CallTryLock) :: go 0 1) (world_init 1) with
  | Some w => lock_ (w_mutex w) = head_ (w_mutex w) /\ w_threads w = [TryBack]
  | None => False
  end.
Proof. by vm_compute. Qed.

(** And a [TryLock] that waits: another call draws its ticket between the test and
    the draw. *)
Example trylock_waits :
  match exec ((0%nat, CallTryLock) :: go 0 3 ++ (1%nat, CallLock) :: go 1 2 ++ go 0 2) (world_init 2) with
  | Some w => w_threads w = [Wait 1; Held 0]
  | None => False
  end.
Proof. by vm_compute. Qed.

Lemma mutex_refines_queue_witness : exists w q, rtc queue_spec [] q /\ represents w q /\ w_threads w = [Held 0; Wait 1].
Proof.
  assert (exists w, rtc step (world_init 2) w /\ w_threads w = [Held 0; Wait 1]) as (w & Hr & Hw).
  { eexists (mkWorld (mkMutex 2 0 0) [Held 0; Wait 1]). split; [|done].
    eapply rtc_l; [by exists 0%nat, CallLock|]. eapply rtc_l; [by exists 0%nat, Go|]. eapply rtc_l; [by exists 0%nat, Go|].
    eapply rtc_l; [by exists 1%nat, CallLock|]. eapply rtc_l; [by exists 1%nat, Go|]. apply rtc_refl. }
  destruct (mutex_refines_queue 2 w ltac:(lia) Hr) as (q & Hq & Hrep). by exists w, q.
Defined.

(** * The reentrant mutex of the runtime

    [self] is the calling OS thread, [own] the task. A call is the new state and
    what it asks of the mutex; [TryLock] of the mutex is an argument. *)

Section CoMutex.
Context {Owner : Type} `{EqDecision Owner} (no_owner : Owner).

Record CoMutex := mkCo { holder_ : Owner; holder_tid_ : Z; depth_ : Z }.
Definition CoMutex_new : CoMutex := mkCo no_owner 0 0.
Inductive mutex_call := MLock | MTryLock | MUnlock.
Implicit Types (co : CoMutex) (self : Z) (own : Owner).

Definition HeldByThisThread self co : bool := negb (self =? 0) && (holder_tid_ co =? self).
Definition CoLock self own co : CoMutex * list mutex_call :=
  if HeldByThisThread self co && bool_decide (own = holder_ co) then (mkCo (holder_ co) (holder_tid_ co) (u32 (depth_ co + 1)), [])
  else (mkCo own self 1, [MLock]).
Definition CoTryLock (ok : bool) self own co : bool * CoMutex * list mutex_call :=
  if HeldByThisThread self co && bool_decide (own = holder_ co) then (true, mkCo (holder_ co) (holder_tid_ co) (u32 (depth_ co + 1)), [])
  else if ok then (true, mkCo own self 1, [MTryLock]) else (false, co, [MTryLock]).
Definition CoUnlock co : CoMutex * list mutex_call :=
  let d := u32 (depth_ co - 1) in
  if d =? 0 then (mkCo no_owner 0 d, [MUnlock]) else (mkCo (holder_ co) (holder_tid_ co) d, []).

(** [n] acquisitions, then [n] releases. *)
Definition lock_n self own (n : nat) (s : CoMutex * list mutex_call) : CoMutex * list mutex_call :=
  Nat.iter n (fun '(co, cs) => let '(co, c) := CoLock self own co in (co, cs ++ c)) s.
Definition unlock_n (n : nat) (s : CoMutex * list mutex_call) : CoMutex * list mutex_call :=
  Nat.iter n (fun '(co, cs) => let '(co, c) := CoUnlock co in (co, cs ++ c)) s.

Lemma lock_n_held self own n : self <> 0 -> Z.of_nat (S n) < 2 ^ 32 -> lock_n self own (S n) (CoMutex_new, []) = (mkCo own self (Z.of_nat (S n)), [MLock]).
Proof.
  intros Hs. induction n as [|n IH]; intros Hn.
  - cbn. unfold CoLock, HeldByThisThread, CoMutex_new. cbn [holder_tid_]. by rewrite (proj2 (Z.eqb_neq 0 self)), andb_false_r by done.
  - unfold lock_n in *. rewrite Nat.iter_succ, IH by lia. unfold CoLock, HeldByThisThread. cbn [holder_ holder_tid_ depth_].
    rewrite Z.eqb_refl, bool_decide_eq_true_2 by done. rewrite (proj2 (Z.eqb_neq self 0)) by done. cbn [negb andb]. rewrite app_nil_r.
    rewrite u32_small by lia. do 2 f_equal. lia.
Qed.

Lemma unlock_n_free self own n cs : Z.of_nat (S n) < 2 ^ 32 -> unlock_n (S n) (mkCo own self (Z.of_nat (S n)), cs) = (CoMutex_new, cs ++ [MUnlock]).
Proof.
  revert cs. induction n as [|n IH]; intros cs Hn; [done|]. unfold unlock_n in *. rewrite Nat.iter_succ_r.
  assert (CoUnlock (mkCo own self (Z.of_nat (S (S n)))) = (mkCo own self (Z.of_nat (S n)), [])) as ->.
  { unfold CoUnlock. cbn [depth_ holder_ holder_tid_]. replace (Z.of_nat (S (S n)) - 1) with (Z.of_nat (S n)) by lia.
    rewrite u32_small by lia. by rewrite (proj2 (Z.eqb_neq (Z.of_nat (S n)) 0)) by lia. }
  rewrite app_nil_r. apply IH. lia.
Qed.

(** A task that locks [n] times and unlocks [n] times leaves the mutex as it was,
    locked once and released once. *)
Theorem reentrant_locks_balance self own n : self <> 0 -> Z.of_nat (S n) < 2 ^ 32 ->
  unlock_n (S n) (lock_n self own (S n) (CoMutex_new, [])) = (CoMutex_new, [MLock; MUnlock]).
Proof. intros Hs Hn. rewrite lock_n_held by done. by apply unlock_n_free. Qed.
End CoMutex.
