(* ===== verification/RwLock.v ===== *)
(** The reader-writer lock of the transport primitives
    ([context-transport-primitives/include/clio_ctp/thread/lock/rwlock.h]), which the
    hash maps, the runtime's containers and the coroutine locks stand on.

    A step of a thread is one access to a shared word; what it does between two
    accesses goes with the first. Memory is sequentially consistent. The words
    keep their widths: [reg_uint] is 32 bits wide, [big_uint] 64. A yield that spins
    is a step that leaves the thread where it is. *)
From Stdlib Require Import ZArith Lia.
From stdpp Require Import base list relations.
From S2P Require Import Prelude Threads.

Open Scope Z_scope.

(** * The lock *)

Inductive RwLockMode := kNone | kWrite | kRead.
#[export] Instance RwLockMode_eq_dec : EqDecision RwLockMode.
Proof. solve_decision. Defined.

Record RwLock := mkRwLock {
  mode_ : RwLockMode;
  readers_ : Z;
  writers_ : Z;
  cur_writer_ : Z;
  ticket_ : Z;
  ops_since_switch_ : Z }.
Definition kFairnessBatch : Z := 32.
Definition RwLock_new : RwLock := mkRwLock kNone 0 0 0 0 0.

Implicit Types (l : RwLock) (m : RwLockMode) (wp : bool) (tkt : Z).

Definition set_mode l m : RwLock := mkRwLock m (readers_ l) (writers_ l) (cur_writer_ l) (ticket_ l) (ops_since_switch_ l).
Definition add_readers l d : RwLock := mkRwLock (mode_ l) (u32 (readers_ l + d)) (writers_ l) (cur_writer_ l) (ticket_ l) (ops_since_switch_ l).
Definition add_writers l d : RwLock := mkRwLock (mode_ l) (readers_ l) (u32 (writers_ l + d)) (cur_writer_ l) (ticket_ l) (ops_since_switch_ l).
Definition next_writer l : RwLock := mkRwLock (mode_ l) (readers_ l) (writers_ l) (u32 (cur_writer_ l + 1)) (ticket_ l) (ops_since_switch_ l).
Definition take_ticket l : RwLock := mkRwLock (mode_ l) (readers_ l) (writers_ l) (cur_writer_ l) (u64 (ticket_ l + 1)) (ops_since_switch_ l).
Definition set_ops l n : RwLock := mkRwLock (mode_ l) (readers_ l) (writers_ l) (cur_writer_ l) (ticket_ l) n.

(** * A thread

    Where an acquisition is, with its locals. [wp] is [writer_priority]; [tkt] the
    ticket of a writer, kept up to the end of [WriteUnlock] for the proofs. *)

(** Who runs the loop with [UpdateMode]. *)
Inductive side := Reader | Writer (tkt : Z).

Inductive thread :=
  | Idle
  (** [ReadLock]: [mode] is loaded; [writers_] was positive; draining a full batch;
      about to count the acquisition; waiting for the writers; about to register *)
  | RMode wp m | RBatch wp | RGate wp | REnter wp | RWait | RRegister
  (** [WriteLock], with the sides swapped; about to take a ticket *)
  | WMode m | WBatch | WGate | WEnter | WRegister | WTicket
  (** [UpdateMode]: about to load [mode_], [readers_], [writers_]; to exchange
      [mode_] for [kNone]; to reset the batch counter *)
  | Update (s : side) | UpdReaders (s : side) m | UpdWriters (s : side) m | UpdCas (s : side) m | UpdReset (s : side) m
  (** the exchange from [kNone]; a writer's second load, and its look at [cur_writer_] *)
  | RCas | WCas tkt | WReload tkt | WTurn tkt
  (** the lock is held; [WriteUnlock] between its two steps *)
  | RHeld | WHeld tkt | WLeave tkt.
Implicit Types (s : side) (t : thread).

(** What an idle thread asks for, and how a weak exchange may fail on its own. *)
Inductive choice := Go | Spurious | CallRead wp | CallWrite.

(** After [UpdateMode(mode)]: the tests on the local [mode]. *)
Definition decide_mode s m : thread :=
  match s, m with
  | Reader, kRead => RHeld
  | Reader, kNone => RCas
  | Reader, kWrite => Update Reader
  | Writer tkt, kNone => WCas tkt
  | Writer tkt, kWrite => WTurn tkt
  | Writer tkt, kRead => Update (Writer tkt)
  end.

(** [compare_exchange_weak]: whether it succeeds. *)
Definition cas_ok (c : choice) l m : bool := bool_decide (mode_ l = m) && match c with Spurious => false | _ => true end.

Definition UpdateMode (c : choice) l t : RwLock * thread :=
  match t with
  | Update s => (l, UpdReaders s (mode_ l))
  | UpdReaders s m => (l, if (readers_ l =? 0) && bool_decide (m = kRead) then UpdCas s m else UpdWriters s m)
  | UpdWriters s m => (l, if (writers_ l =? 0) && bool_decide (m = kWrite) then UpdCas s m else decide_mode s m)
  | UpdCas s m => if cas_ok c l m then (set_mode l kNone, UpdReset s m) else (l, decide_mode s (mode_ l))
  | UpdReset s m => (set_ops l 0, decide_mode s m)
  | _ => (l, t)
  end.

Definition ReadLock (c : choice) l t : RwLock * thread :=
  match t with
  | RMode wp m => (l, if (0 <? writers_ l) && bool_decide (m = kRead) then RBatch wp else REnter wp)
  | RBatch wp => (l, if kFairnessBatch <=? ops_since_switch_ l then RGate wp else REnter wp)
  | RGate wp => (l, if 0 <? readers_ l then RGate wp else REnter wp)
  | REnter wp => (set_ops l (u32 (ops_since_switch_ l + 1)), if wp then RWait else RRegister)
  | RWait => (l, if 0 <? writers_ l then RWait else RRegister)
  | RRegister => (add_readers l 1, Update Reader)
  | RCas => if cas_ok c l kNone then (set_mode l kRead, RHeld) else (l, Update Reader)
  | _ => (l, t)
  end.
Definition ReadUnlock l : RwLock := add_readers l (-1).

Definition WriteLock (c : choice) l t : RwLock * thread :=
  match t with
  | WMode m => (l, if (0 <? readers_ l) && bool_decide (m = kWrite) then WBatch else WEnter)
  | WBatch => (l, if kFairnessBatch <=? ops_since_switch_ l then WGate else WEnter)
  | WGate => (l, if 0 <? writers_ l then WGate else WEnter)
  | WEnter => (set_ops l (u32 (ops_since_switch_ l + 1)), WRegister)
  | WRegister => (add_writers l 1, WTicket)
  | WTicket => (take_ticket l, Update (Writer (ticket_ l)))
  | WCas tkt => (if cas_ok c l kNone then set_mode l kWrite else l, WReload tkt)
  | WReload tkt => (l, if bool_decide (mode_ l = kWrite) then WTurn tkt else Update (Writer tkt))
  | WTurn tkt => (l, if cur_writer_ l =? tkt then WHeld tkt else Update (Writer tkt))
  | _ => (l, t)
  end.
Definition WriteUnlock l t : RwLock * thread :=
  match t with
  | WHeld tkt => (add_writers l (-1), WLeave tkt)
  | WLeave tkt => (next_writer l, Idle)
  | _ => (l, t)
  end.
Definition IsWriteLocked l : bool := 0 <? writers_ l.

Definition thread_step (c : choice) l t : RwLock * thread :=
  match t with
  | Idle =>
      match c with
      | CallRead wp => (l, RMode wp (mode_ l))
      | CallWrite => (l, WMode (mode_ l))
      | _ => (l, Idle)
      end
  | RMode _ _ | RBatch _ | RGate _ | REnter _ | RWait | RRegister | RCas => ReadLock c l t
  | WMode _ | WBatch | WGate | WEnter | WRegister | WTicket | WCas _ | WReload _ | WTurn _ => WriteLock c l t
  | Update _ | UpdReaders _ _ | UpdWriters _ _ | UpdCas _ _ | UpdReset _ _ => UpdateMode c l t
  | RHeld => (ReadUnlock l, Idle)
  | WHeld _ | WLeave _ => WriteUnlock l t
  end.

(** * Threads that interleave *)

Record world := mkWorld { w_lock : RwLock; w_threads : list thread }.
Implicit Types (w : world) (ts : list thread).
Definition world_init (n : nat) : world := mkWorld RwLock_new (replicate n Idle).

(** Thread [i] makes its next access. *)
Definition move (i : nat) (c : choice) w : option world :=
  match w_threads w !! i with
  | Some t => let '(l, t') := thread_step c (w_lock w) t in Some (mkWorld l (<[i := t']> (w_threads w)))
  | None => None
  end.
Definition step w w' : Prop := exists i c, move i c w = Some w'.
Definition reachable w : Prop := exists n, Z.of_nat n < 2 ^ 32 /\ rtc step (world_init n) w.

Fixpoint exec (sched : list (nat * choice)) w : option world :=
  match sched with
  | [] => Some w
  | (i, c) :: sched => match move i c w with Some w' => exec sched w' | None => None end
  end.

(** Registered in [readers_], in [writers_]; the ticket a thread holds. *)
Definition of_reader s : bool := match s with Reader => true | _ => false end.
Definition is_reader t : bool :=
  match t with
  | Update s | UpdReaders s _ | UpdWriters s _ | UpdCas s _ | UpdReset s _ => of_reader s
  | RCas | RHeld => true
  | _ => false
  end.
Definition side_ticket s : option Z := match s with Reader => None | Writer tkt => Some tkt end.
Definition ticket_of t : option Z :=
  match t with
  | Update s | UpdReaders s _ | UpdWriters s _ | UpdCas s _ | UpdReset s _ => side_ticket s
  | WCas tkt | WReload tkt | WTurn tkt | WHeld tkt | WLeave tkt => Some tkt
  | _ => None
  end.
Definition has_ticket t : bool := bool_decide (is_Some (ticket_of t)).
Definition is_writer t : bool := match t with WTicket => true | WLeave _ => false | _ => has_ticket t end.

(** * Tickets

    [d] writers have released the lock. *)
Record tickets_ok (d : Z) w : Prop := {
  to_done : 0 <= d <= 2 ^ 32;
  to_cur : cur_writer_ (w_lock w) = u32 d;
  to_next : ticket_ (w_lock w) = d + Z.of_nat (count has_ticket (w_threads w));
  to_range i t tkt : w_threads w !! i = Some t -> ticket_of t = Some tkt -> d <= tkt < ticket_ (w_lock w);
  to_distinct i j t t' tkt : w_threads w !! i = Some t -> w_threads w !! j = Some t' ->
    ticket_of t = Some tkt -> ticket_of t' = Some tkt -> i = j;
  to_held i t tkt : w_threads w !! i = Some t -> t = WHeld tkt \/ t = WLeave tkt -> tkt = d /\ tkt < 2 ^ 32 }.

Record counts_ok w : Prop := {
  co_threads : Z.of_nat (length (w_threads w)) < 2 ^ 32;
  co_readers : readers_ (w_lock w) = Z.of_nat (count is_reader (w_threads w));
  co_writers : writers_ (w_lock w) = Z.of_nat (count is_writer (w_threads w)) }.

Lemma counts_init n : Z.of_nat n < 2 ^ 32 -> counts_ok (world_init n).
Proof.
  intros Hn. split; cbn; [by rewrite length_replicate| |]; rewrite count_none; try done; by intros i t [-> _]%lookup_replicate.
Qed.

Lemma tickets_init n : tickets_ok 0 (world_init n).
Proof.
  split; cbn; try lia; try done.
  - rewrite count_none; [done|]. by intros i t [-> _]%lookup_replicate.
  - by intros i t tkt [-> _]%lookup_replicate.
  - by intros i j t t' tkt [-> _]%lookup_replicate.
  - intros i t tkt [-> _]%lookup_replicate. naive_solver.
Qed.

(** What one step does to the counts and the tickets. *)
Lemma decide_mode_class s m : is_reader (decide_mode s m) = of_reader s /\ ticket_of (decide_mode s m) = side_ticket s /\
  is_writer (decide_mode s m) = negb (of_reader s).
Proof. by destruct s, m. Qed.

Arguments decide_mode : simpl never.
Arguments is_reader : simpl nomatch.
Arguments is_writer : simpl nomatch.
Arguments ticket_of : simpl nomatch.

Ltac split_step := unfold thread_step, ReadLock, WriteLock, UpdateMode, ReadUnlock, WriteUnlock in *; repeat case_match; simplify_eq; cbn in *.

Lemma decide_reader s m : is_reader (decide_mode s m) = of_reader s.
Proof. apply decide_mode_class. Qed.
Lemma decide_writer s m : is_writer (decide_mode s m) = negb (of_reader s).
Proof. apply decide_mode_class. Qed.
Lemma decide_ticket s m : ticket_of (decide_mode s m) = side_ticket s.
Proof. apply decide_mode_class. Qed.

Lemma step_readers c l t l' t' n : thread_step c l t = (l', t') -> readers_ l = Z.of_nat n -> (is_reader t = true -> n <> 0%nat) ->
  Z.of_nat n + 1 - Z.b2z (is_reader t) < 2 ^ 32 -> readers_ l' = Z.of_nat n + Z.b2z (is_reader t') - Z.b2z (is_reader t).
Proof.
  intros Hs Hr Ht Hn. destruct t; split_step; rewrite ?decide_reader; rewrite ?Hr; try lia.
  - rewrite u32_small by lia. lia.
  - specialize (Ht eq_refl). rewrite u32_small by lia. lia.
Qed.

Lemma step_writers c l t l' t' n : thread_step c l t = (l', t') -> writers_ l = Z.of_nat n -> (is_writer t = true -> n <> 0%nat) ->
  Z.of_nat n + 1 - Z.b2z (is_writer t) < 2 ^ 32 -> writers_ l' = Z.of_nat n + Z.b2z (is_writer t') - Z.b2z (is_writer t).
Proof.
  intros Hs Hr Ht Hn. destruct t; try destruct s; split_step; rewrite ?decide_writer; rewrite ?Hr; cbn; try lia.
  - rewrite u32_small by lia. lia.
  - specialize (Ht eq_refl). rewrite u32_small by lia. lia.
Qed.

Lemma counts_step w w' : counts_ok w -> step w w' -> counts_ok w'.
Proof.
  intros [Hn Hr Hw] (i & c & Hm). unfold move in Hm. destruct (w_threads w !! i) as [t|] eqn:Hi; [|done].
  destruct (thread_step c (w_lock w) t) as [l' t'] eqn:Hs. injection Hm as <-.
  assert (forall p, p t = true -> count p (w_threads w) <> 0%nat) as Hpos by (intros p Hp Hz; pose proof (count_zero _ _ _ _ Hz Hi); congruence).
  split; cbn [w_lock w_threads]; [by rewrite length_insert| |].
  - pose proof (count_room is_reader _ i t RHeld Hi eq_refl). pose proof (count_insert is_reader _ i t t' Hi).
    rewrite (step_readers _ _ _ _ _ _ Hs Hr) by (auto; destruct (is_reader t); cbn in *; lia).
    destruct (is_reader t), (is_reader t'); cbn in *; lia.
  - pose proof (count_room is_writer _ i t WTicket Hi eq_refl). pose proof (count_insert is_writer _ i t t' Hi).
    rewrite (step_writers _ _ _ _ _ _ Hs Hw) by (auto; destruct (is_writer t); cbn in *; lia).
    destruct (is_writer t), (is_writer t'); cbn in *; lia.
Qed.

Lemma decide_not_held s m tkt : decide_mode s m <> WHeld tkt /\ decide_mode s m <> WLeave tkt.
Proof. by destruct s, m. Qed.

Lemma step_ticket c l t l' t' : thread_step c l t = (l', t') ->
  (t = WTicket /\ t' = Update (Writer (ticket_ l)) /\ ticket_ l' = u64 (ticket_ l + 1) /\ cur_writer_ l' = cur_writer_ l) \/
  (exists tkt, t = WLeave tkt /\ t' = Idle /\ ticket_ l' = ticket_ l /\ cur_writer_ l' = u32 (cur_writer_ l + 1)) \/
  (ticket_of t' = ticket_of t /\ ticket_ l' = ticket_ l /\ cur_writer_ l' = cur_writer_ l /\
   forall tkt, t' = WHeld tkt \/ t' = WLeave tkt -> cur_writer_ l = tkt \/ t = WHeld tkt).
Proof.
  intros Hs. destruct t; split_step; rewrite ?decide_ticket; try (right; right; split_and!; try done; intros k [E|E]; simplify_eq; auto).
  all: try (by destruct (decide_not_held s m k)). all: try (by destruct (decide_not_held s (mode_ l') k)).
  - auto.
  - left. by apply Z.eqb_eq.
  - right. left. eauto.
Qed.

Lemma has_ticket_Some t tkt : ticket_of t = Some tkt -> has_ticket t = true.
Proof. intros E. unfold has_ticket. rewrite E. by apply bool_decide_eq_true_2. Qed.
Lemma has_ticket_None t : ticket_of t = None -> has_ticket t = false.
Proof. intros E. unfold has_ticket. rewrite E. apply bool_decide_eq_false_2. by intros []. Qed.

Lemma tickets_step d w w' : counts_ok w -> tickets_ok d w -> step w w' -> exists d', d <= d' /\ tickets_ok d' w'.
Proof.
  intros Hco [Hd Hcur Hnext Hrange Hdist Hheld] (i & c & Hm). unfold move in Hm. destruct (w_threads w !! i) as [t|] eqn:Hi; [|done].
  destruct (thread_step c (w_lock w) t) as [l' t'] eqn:Hs. injection Hm as <-. cbn [w_lock w_threads] in *.
  pose proof (count_insert has_ticket _ i t t' Hi) as Hc. pose proof (count_length has_ticket (w_threads w)) as Hl. pose proof (co_threads _ Hco) as Ht.
  destruct (step_ticket _ _ _ _ _ Hs) as [(-> & -> & En & Ec)|[(tkt & -> & -> & En & Ec)|(Et & En & Ec & Eh)]].
  - exists d. split; [lia|]. cbn [has_ticket] in Hc. rewrite u64_small in En by lia. split; cbn [w_lock w_threads]; rewrite ?En, ?Ec; try done.
    + cbn in Hc. lia.
    + intros j u tkt Hj Hu. destruct (lookup_moved _ _ _ _ _ _ Hi Hj) as [[-> ->]|[_ Hj']]; [injection Hu as <-; lia|].
      specialize (Hrange _ _ _ Hj' Hu). lia.
    + intros j j' u u' tkt Hj Hj' Hu Hu'.
      destruct (lookup_moved _ _ _ _ _ _ Hi Hj) as [[-> ->]|[Hne Hk]], (lookup_moved _ _ _ _ _ _ Hi Hj') as [[-> ->]|[Hne' Hk']]; try done.
      * injection Hu as <-. specialize (Hrange _ _ _ Hk' Hu'). lia.
      * injection Hu' as <-. specialize (Hrange _ _ _ Hk Hu). lia.
      * by eapply Hdist.
    + intros j u tkt Hj Hu. destruct (lookup_moved _ _ _ _ _ _ Hi Hj) as [[-> ->]|[_ Hj']]; [naive_solver|by eapply Hheld].
  - destruct (Hheld i _ tkt Hi ltac:(auto)) as [-> Hlt]. exists (d + 1). split; [lia|]. cbn in Hc. rewrite Hcur in Ec.
    split; cbn [w_lock w_threads]; rewrite ?En, ?Ec; try lia.
    + unfold u32. by rewrite Zplus_mod_idemp_l.
    + intros j u k Hj Hu. destruct (lookup_moved _ _ _ _ _ _ Hi Hj) as [[-> ->]|[Hne Hj']]; [done|].
      specialize (Hrange _ _ _ Hj' Hu). assert (k <> d); [|lia]. intros ->. by destruct (Hdist _ _ _ _ d Hi Hj' eq_refl Hu).
    + intros j j' u u' k Hj Hj' Hu Hu'.
      destruct (lookup_moved _ _ _ _ _ _ Hi Hj) as [[-> ->]|[Hne Hk]]; [done|].
      destruct (lookup_moved _ _ _ _ _ _ Hi Hj') as [[-> ->]|[Hne' Hk']]; [done|]. by eapply Hdist.
    + intros j u k Hj Hu. destruct (lookup_moved _ _ _ _ _ _ Hi Hj) as [[-> ->]|[Hne Hj']]; [naive_solver|].
      exfalso. destruct (Hheld _ _ _ Hj' Hu) as [-> _]. assert (ticket_of u = Some d) as Hk by (by destruct Hu as [-> | ->]).
      by destruct (Hdist _ _ _ _ d Hi Hj' eq_refl Hk).
  - assert (has_ticket t' = has_ticket t) as Eb by (unfold has_ticket; by rewrite Et). rewrite Eb in Hc.
    exists d. split; [lia|]. split; cbn [w_lock w_threads]; rewrite ?En, ?Ec; try done; try lia.
    + intros j u k Hj Hu. destruct (lookup_moved _ _ _ _ _ _ Hi Hj) as [[-> ->]|[_ Hj']]; [rewrite Et in Hu|]; by eapply Hrange.
    + intros j j' u u' k Hj Hj' Hu Hu'.
      assert (exists v, w_threads w !! j = Some v /\ ticket_of v = Some k) as (v & Hv & Ev).
      { destruct (lookup_moved _ _ _ _ _ _ Hi Hj) as [[-> ->]|[Hne Hk]]; [rewrite Et in Hu|]; eauto. }
      assert (exists v', w_threads w !! j' = Some v' /\ ticket_of v' = Some k) as (v' & Hv' & Ev').
      { destruct (lookup_moved _ _ _ _ _ _ Hi Hj') as [[-> ->]|[Hne Hk]]; [rewrite Et in Hu'|]; eauto. }
      by eapply (Hdist j j').
    + intros j u k Hj Hu. destruct (lookup_moved _ _ _ _ _ _ Hi Hj) as [[-> ->]|[_ Hj']]; [|by eapply Hheld].
      destruct (Eh k Hu) as [E|E]; [|by eapply Hheld; [exact Hi|left]].
      assert (ticket_of t = Some k) as Hk by (rewrite <- Et; by destruct Hu as [-> | ->]). specialize (Hrange _ _ _ Hi Hk).
      rewrite Hcur in E. unfold u32 in E. pose proof (Z.mod_pos_bound d (2 ^ 32) ltac:(lia)).
      destruct (decide (d = 2 ^ 32)) as [->|Hne]; [rewrite Z.mod_same in E by lia; lia|]. rewrite Z.mod_small in E by lia. lia.
Qed.

Lemma steps_inv d w w' : counts_ok w -> tickets_ok d w -> rtc step w w' -> counts_ok w' /\ exists d', d <= d' /\ tickets_ok d' w'.
Proof.
  intros Hc Ht Hr. revert d Hc Ht. induction Hr as [w|w w' w'' Hs _ IH]; intros d Hc Ht; [split; [done|]; exists d; split; [lia|done]|].
  destruct (tickets_step _ _ _ Hc Ht Hs) as (d' & Hd & Ht'). destruct (IH d' (counts_step _ _ Hc Hs) Ht') as (Hc' & d'' & Hd' & Ht'').
  split; [done|]. exists d''. split; [lia|done].
Qed.

Lemma reachable_inv w : reachable w -> counts_ok w /\ exists d, tickets_ok d w.
Proof.
  intros (n & Hn & Hr). destruct (steps_inv 0 _ _ (counts_init n Hn) (tickets_init n) Hr) as (Hc & d & _ & Ht). eauto.
Qed.

(** * Readers and writers *)

(** An exchange to [kNone] that ends a phase although the count it tested is no
    longer zero. *)
Definition stale (i : nat) (c : choice) w : bool :=
  match w_threads w !! i with
  | Some (UpdCas s m) =>
      cas_ok c (w_lock w) m &&
      (bool_decide (m = kRead) && negb (readers_ (w_lock w) =? 0) || bool_decide (m = kWrite) && negb (writers_ (w_lock w) =? 0))
  | _ => false
  end.
Definition fresh_step w w' : Prop := exists i c, move i c w = Some w' /\ stale i c w = false.
Definition reachable_fresh w : Prop := exists n, Z.of_nat n < 2 ^ 32 /\ rtc fresh_step (world_init n) w.

Definition read_held w : Prop := exists i, w_threads w !! i = Some RHeld.
Definition write_held w : Prop := exists i tkt, w_threads w !! i = Some (WHeld tkt).

(** The mode a registered thread relies on. *)
Definition relies t : option RwLockMode :=
  match t with
  | RHeld | UpdReaders Reader kRead | UpdWriters Reader kRead => Some kRead
  | WTurn _ | WHeld _ | UpdReaders (Writer _) kWrite | UpdWriters (Writer _) kWrite => Some kWrite
  | _ => None
  end.
(** A registered thread does not try to end its own phase. *)
Definition sane t : bool :=
  match t with
  | UpdCas Reader kRead | UpdReset Reader kRead | UpdCas (Writer _) kWrite | UpdReset (Writer _) kWrite
  | UpdCas _ kNone | UpdReset _ kNone => false
  | _ => true
  end.
Definition modes_ok w : Prop := forall i t, w_threads w !! i = Some t ->
  sane t = true /\ forall m, relies t = Some m -> mode_ (w_lock w) = m.

Lemma relies_counted t m : relies t = Some m -> (m = kRead /\ is_reader t = true) \/ (m = kWrite /\ is_writer t = true).
Proof. destruct t as [| | | | | | | | | | | | |[]|[] []|[] []|[] []|[] []| | | | | | |]; cbn; intros [=]; subst; auto. Qed.

Lemma step_relies c l t l' t' : thread_step c l t = (l', t') -> (is_reader t = true -> readers_ l <> 0) -> (is_writer t = true -> writers_ l <> 0) ->
  sane t = true -> (forall m, relies t = Some m -> mode_ l = m) -> sane t' = true /\ forall m, relies t' = Some m -> mode_ l' = m.
Proof.
  intros Hs Hr Hw Hsane Hrel.
  destruct t as [| | | | | | | | | | | | |[]|[] []|[] []|[] []|[] []| | | | | | |]; try (unfold sane in Hsane; discriminate);
    unfold thread_step, ReadLock, WriteLock, UpdateMode, ReadUnlock, WriteUnlock, decide_mode in Hs; repeat case_match; simplify_eq;
    repeat match goal with H : _ && _ = true |- _ => apply andb_true_iff in H as [?%Z.eqb_eq ?%bool_decide_eq_true_1] end; simplify_eq;
    try (exfalso; by apply Hr); try (exfalso; by apply Hw);
    (split; [done|]); cbn in *; intros k Hk; simplify_eq; try done; try (by apply Hrel); try congruence.
  - by destruct (mode_ l'); simplify_eq.
  - by destruct (mode_ l'); simplify_eq.
  - match goal with H : bool_decide _ = true |- _ => by apply bool_decide_eq_true_1 in H end.
Qed.

(** How a step may change the mode. *)
Lemma step_mode c l t l' t' : thread_step c l t = (l', t') ->
  mode_ l' = mode_ l \/ mode_ l = kNone \/ exists s, t = UpdCas s (mode_ l) /\ cas_ok c l (mode_ l) = true.
Proof.
  intros Hs. destruct t; split_step; auto.
  - right. right. pose proof H as E. unfold cas_ok in H. apply andb_true_iff in H as [<-%bool_decide_eq_true_1 _]. eauto.
  - right. left. unfold cas_ok in H. by apply andb_true_iff in H as [?%bool_decide_eq_true_1 _].
  - right. left. unfold cas_ok in H. by apply andb_true_iff in H as [?%bool_decide_eq_true_1 _].
Qed.

Lemma modes_init n : modes_ok (world_init n).
Proof. by intros i t [-> _]%lookup_replicate. Qed.

Lemma registered w i t : counts_ok w -> w_threads w !! i = Some t ->
  (is_reader t = true -> readers_ (w_lock w) <> 0) /\ (is_writer t = true -> writers_ (w_lock w) <> 0).
Proof.
  intros [_ Hr Hw] Hi. rewrite Hr, Hw. split; intros Ht Hz.
  - rewrite (count_zero is_reader (w_threads w) i t ltac:(lia) Hi) in Ht. done.
  - rewrite (count_zero is_writer (w_threads w) i t ltac:(lia) Hi) in Ht. done.
Qed.

Lemma modes_step w i c w' : counts_ok w -> modes_ok w -> move i c w = Some w' -> stale i c w = false -> modes_ok w'.
Proof.
  intros Hco Hmo Hm Hf. unfold move in Hm. unfold stale in Hf. destruct (w_threads w !! i) as [t|] eqn:Hi; [|done].
  destruct (thread_step c (w_lock w) t) as [l' t'] eqn:Hs. injection Hm as <-. destruct (registered w i t Hco Hi) as [Hr Hw].
  destruct (Hmo i t Hi) as [Hsane Hrel]. destruct (step_relies _ _ _ _ _ Hs Hr Hw Hsane Hrel) as [Hsane' Hrel'].
  intros j u Hj. cbn [w_lock w_threads] in *. destruct (lookup_moved _ _ _ _ _ _ Hi Hj) as [[-> ->]|[Hne Hj']]; [done|].
  destruct (Hmo j u Hj') as [Hu Hm]. split; [done|]. intros m Hk. specialize (Hm m Hk). destruct (registered w j u Hco Hj') as [Hur Huw].
  destruct (step_mode _ _ _ _ _ Hs) as [->|[E|(s & -> & Hc)]]; [done|subst m; rewrite E in Hk; by destruct (relies_counted _ _ Hk) as [[? _]|[? _]]|].
  rewrite Hm in Hf, Hc. rewrite Hc in Hf. cbn in Hf.
  destruct (relies_counted _ _ Hk) as [[-> Hu']|[-> Hu']]; cbn in Hf; rewrite ?orb_false_r in Hf.
  - by destruct (Hur Hu'); apply Z.eqb_eq, negb_false_iff.
  - by destruct (Huw Hu'); apply Z.eqb_eq, negb_false_iff.
Qed.

Lemma reachable_fresh_inv w : reachable_fresh w -> counts_ok w /\ modes_ok w.
Proof.
  intros (n & Hn & Hr). pose proof (counts_init n Hn) as Hc. pose proof (modes_init n) as Hm.
  induction Hr as [|w w' w'' (i & c & Hs & Hf) _ IH]; [done|]. apply IH; [eapply counts_step; [done|by exists i, c]|by eapply modes_step].
Qed.

(** * A lock no one else wants *)

Definition all_idle w : Prop := forall i t, w_threads w !! i = Some t -> t = Idle.

Fixpoint alone (n : nat) l t : RwLock * thread :=
  match n with
  | O => (l, t)
  | S n => let '(l, t) := thread_step Go l t in alone n l t
  end.

Lemma exec_alone n i l t ts : ts !! i = Some t ->
  exec (replicate n (i, Go)) (mkWorld l ts) = Some (mkWorld (fst (alone n l t)) (<[i := snd (alone n l t)]> ts)).
Proof.
  revert l t ts. induction n as [|n IH]; intros l t ts Hi; cbn [replicate exec alone].
  - by rewrite list_insert_id.
  - unfold move. cbn [w_threads w_lock]. rewrite Hi. destruct (thread_step Go l t) as [l' t'].
    rewrite (IH l' t') by (apply list_lookup_insert_eq; by eapply lookup_lt_Some). by rewrite list_insert_insert_eq.
Qed.

Lemma idle_lock w : reachable w -> all_idle w -> ticket_ (w_lock w) < 2 ^ 32 -> exists m k ops, w_lock w = mkRwLock m 0 0 k k ops /\ 0 <= k.
Proof.
  intros Hr Hi Ht. destruct (reachable_inv w Hr) as ([_ Er Ew] & d & [Hd Hcur Hnext _ _ _]).
  rewrite count_none in Er by (intros i t Hit; by rewrite (Hi i t Hit)). rewrite count_none in Ew by (intros i t Hit; by rewrite (Hi i t Hit)).
  rewrite count_none in Hnext by (intros i t Hit; by rewrite (Hi i t Hit)).
  destruct (w_lock w) as [m r wr c k ops]. cbn in *. subst r wr. rewrite Hcur, u32_small by lia. exists m, d, ops. split; [|lia]. f_equal; lia.
Qed.

(** The number of accesses an acquisition takes, by the mode that was left. *)
Definition read_steps wp m : nat := (match m with kNone => 7 | kRead => 6 | kWrite => 12 end + (if wp then 1 else 0))%nat.
Definition write_steps m : nat := match m with kNone => 10 | kRead => 14 | kWrite => 8 end.

Lemma read_alone wp m k ops : exists ops',
  alone (read_steps wp m) (mkRwLock m 0 0 k k ops) (RMode wp m) = (mkRwLock kRead 1 0 k k ops', RHeld).
Proof. destruct wp, m; eexists; reflexivity. Qed.

Lemma alone_S n l t : alone (S n) l t = let '(l, t) := alone n l t in thread_step Go l t.
Proof. revert l t. induction n as [|n IH]; intros l t; [cbn; by destruct (thread_step Go l t)|]. cbn [alone] in *. destruct (thread_step Go l t) as [l' t']. apply IH. Qed.

Lemma write_alone m k ops : 0 <= k < 2 ^ 32 -> exists ops',
  alone (write_steps m) (mkRwLock m 0 0 k k ops) (WMode m) = (mkRwLock kWrite 0 1 k (k + 1) ops', WHeld k).
Proof.
  intros Hk. assert (exists ops', alone (pred (write_steps m)) (mkRwLock m 0 0 k k ops) (WMode m) = (mkRwLock kWrite 0 1 k (u64 (k + 1)) ops', WTurn k)) as [ops' E]
    by (destruct m; eexists; reflexivity).
  exists ops'. replace (write_steps m) with (S (pred (write_steps m))) by by destruct m. rewrite alone_S, E. cbn. rewrite Z.eqb_refl.
  by rewrite u64_small by lia.
Qed.

Definition acquired (c : choice) t : Prop := match c with CallRead _ => t = RHeld | CallWrite => exists tkt, t = WHeld tkt | _ => False end.

(** Uncontended acquisitions succeed: while the lock has given out fewer than 2^32
    tickets and no other acquisition is under way, a thread that asks for either
    side holds it after at most fifteen accesses of its own, whatever phase earlier
    users left the lock in. *)
Theorem uncontended_acquire w i c : reachable w -> all_idle w -> ticket_ (w_lock w) < 2 ^ 32 -> (i < length (w_threads w))%nat ->
  (exists wp, c = CallRead wp) \/ c = CallWrite ->
  exists n w' t, (n <= 14)%nat /\ exec ((i, c) :: replicate n (i, Go)) w = Some w' /\ w_threads w' !! i = Some t /\ acquired c t.
Proof.
  intros Hr Hidle Ht Hi Hc. destruct (idle_lock w Hr Hidle Ht) as (m & k & ops & El & Hk).
  apply lookup_lt_is_Some in Hi as [t Hit]. rewrite (Hidle i t Hit) in Hit. destruct w as [l ts]. cbn in El, Hit, Ht. subst l. cbn in Ht.
  assert (forall u, <[i := u]> ts !! i = Some u) as Hu by (intros u; apply list_lookup_insert_eq; by eapply lookup_lt_Some).
  assert (forall n c u, thread_step c (mkRwLock m 0 0 k k ops) Idle = (mkRwLock m 0 0 k k ops, u) ->
    exec ((i, c) :: replicate n (i, Go)) (mkWorld (mkRwLock m 0 0 k k ops) ts) =
    Some (mkWorld (fst (alone n (mkRwLock m 0 0 k k ops) u)) (<[i := snd (alone n (mkRwLock m 0 0 k k ops) u)]> ts))) as Hex.
  { intros n c' u E. cbn [exec]. unfold move. cbn [w_threads w_lock]. rewrite Hit, E. rewrite (exec_alone n i _ u) by apply Hu. by rewrite list_insert_insert_eq. }
  destruct Hc as [[wp ->]| ->].
  - destruct (read_alone wp m k ops) as [ops' E].
    eexists (read_steps wp m), _, _. split; [by destruct wp, m; cbn; lia|]. rewrite (Hex _ _ (RMode wp m)) by done. split; [done|]. cbn. rewrite E. split; [apply Hu|done].
  - destruct (write_alone m k ops) as [ops' E]; [lia|].
    eexists (write_steps m), _, _. split; [by destruct m; cbn; lia|]. rewrite (Hex _ _ (WMode m)) by done. split; [done|]. cbn [w_threads]. rewrite E. split; [apply Hu|]. cbn. eauto.
Qed.

(** * Who can hold the lock *)

Lemma exec_rtc sched w w' : exec sched w = Some w' -> rtc step w w'.
Proof.
  revert w. induction sched as [|[i c] sched IH]; cbn; intros w H; [by injection H as ->|].
  destruct (move i c w) as [w1|] eqn:Hm; [|done]. eapply rtc_l; [by exists i, c|auto].
Qed.

Lemma exec_reachable n sched w : Z.of_nat n < 2 ^ 32 -> exec sched (world_init n) = Some w -> reachable w.
Proof. intros Hn H. exists n. split; [done|by eapply exec_rtc]. Qed.

(** Writers exclude each other: under any interleaving, at most one thread is
    between the return of [WriteLock] and the end of [WriteUnlock]. *)
Theorem one_writer w i j t t' tkt tkt' : reachable w -> w_threads w !! i = Some t -> w_threads w !! j = Some t' ->
  t = WHeld tkt \/ t = WLeave tkt -> t' = WHeld tkt' \/ t' = WLeave tkt' -> i = j.
Proof.
  intros Hr Hi Hj Ht Ht'. destruct (reachable_inv w Hr) as (_ & d & Hd).
  destruct (to_held _ _ Hd i t tkt Hi Ht) as [-> _]. destruct (to_held _ _ Hd j t' tkt' Hj Ht') as [-> _].
  by apply (to_distinct _ _ Hd i j t t' d); [..|destruct Ht as [-> | ->]|destruct Ht' as [-> | ->]].
Qed.


Definition go (i n : nat) : list (nat * choice) := replicate n (i, Go).

(** A thread overtaken there makes the lock fail: the writer has seen no reader in
    the phase that an earlier reader left behind, a reader enters that phase, and
    the writer then ends it and takes the lock. The reader asks for
    [writer_priority], as the users of the hash map's lock do. *)
Definition overlap : list (nat * choice) :=
  (0%nat, CallRead true) :: go 0 9 ++ (1%nat, CallWrite) :: (2%nat, CallRead true) :: go 2 3 ++ go 1 6 ++ go 2 4 ++ go 1 8.

Theorem reader_and_writer_at_once : exists w, reachable w /\ read_held w /\ write_held w.
Proof.
  destruct (exec overlap (world_init 3)) as [w|] eqn:E; [|by vm_compute in E].
  exists w. split; [by eapply (exec_reachable 3)|]. vm_compute in E. injection E as <-. split; [by exists 2%nat|by eexists 1%nat, _].
Qed.

(** * Tickets run out

    [cur_writer_] is 32 bits wide and [ticket_] 64: after 2^32 write acquisitions
    no writer's ticket is ever called again. *)

Lemma exec_app sched sched' w w' : exec sched w = Some w' -> exec (sched ++ sched') w = exec sched' w'.
Proof. revert w. induction sched as [|[i c] sched IH]; cbn; intros w H; [by injection H as ->|]. destruct (move i c w); [by apply IH|done]. Qed.

Lemma write_cycle w k : reachable w -> all_idle w -> w_threads w <> [] -> ticket_ (w_lock w) = k -> k < 2 ^ 32 ->
  exists w', rtc step w w' /\ all_idle w' /\ w_threads w' <> [] /\ ticket_ (w_lock w') = k + 1.
Proof.
  intros Hr Hidle Hne Hk Hlt. destruct (idle_lock w Hr Hidle ltac:(lia)) as (m & k' & ops & El & Hk'). destruct w as [l [|t ts]]; [done|].
  cbn in El. subst l. cbn in Hk. subst k'. pose proof (Hidle 0%nat t eq_refl) as ->. destruct (write_alone m k ops) as [ops' E]; [lia|].
  exists (mkWorld (mkRwLock kWrite 0 0 (u32 (k + 1)) (k + 1) ops') (Idle :: ts)). split_and!.
  - apply (exec_rtc ((0%nat, CallWrite) :: go 0 (S (S (write_steps m))))).
    replace (go 0 (S (S (write_steps m)))) with (go 0 (write_steps m) ++ go 0 2) by (unfold go; rewrite <- replicate_add; f_equal; lia).
    refine (eq_trans (exec_app ((0%nat, CallWrite) :: go 0 (write_steps m)) (go 0 2) _ (mkWorld (mkRwLock kWrite 0 1 k (k + 1) ops') (WHeld k :: ts)) _) _); [|done].
    cbn [exec move w_threads lookup list_lookup thread_step w_lock]. change (mode_ _) with m.
    unfold go. rewrite (exec_alone _ _ _ (WMode m)) by done. by rewrite E.
  - intros [|i] u Hi; cbn in Hi; [by injection Hi as <-|]. by apply (Hidle (S i)).
  - done.
  - done.
Qed.

Lemma write_cycles (n : nat) : Z.of_nat n <= 2 ^ 32 ->
  exists w, reachable w /\ all_idle w /\ w_threads w <> [] /\ ticket_ (w_lock w) = Z.of_nat n.
Proof.
  induction n as [|n IH]; intros Hn.
  - exists (world_init 1). split_and!; [exists 1%nat; split; [lia|apply rtc_refl]|by intros i t [-> _]%lookup_replicate|done..].
  - destruct IH as (w & Hr & Hi & Hne & Hk); [lia|]. destruct (write_cycle w _ Hr Hi Hne Hk) as (w' & Hs & Hi' & Hne' & Hk'); [lia|].
    exists w'. split_and!; [|done..|lia]. destruct Hr as (m & Hm & Hr). exists m. split; [done|by transitivity w].
Qed.

Theorem write_lock_wedges : exists w, reachable w /\ all_idle w /\ forall w', rtc step w w' -> ~ write_held w'.
Proof.
  destruct (write_cycles (Z.to_nat (2 ^ 32))) as (w & Hr & Hi & _ & Hk); [by rewrite Z2Nat.id|]. rewrite Z2Nat.id in Hk by done.
  exists w. split_and!; [done|done|]. intros w' Hw' (i & tkt & Hit). destruct (reachable_inv w Hr) as (Hc & d & Ht).
  pose proof (to_next _ _ Ht) as En. rewrite count_none in En by (intros j t Hj; by rewrite (Hi j t Hj)).
  destruct (steps_inv d _ _ Hc Ht Hw') as (_ & d' & Hd & Ht'). destruct (to_held _ _ Ht' _ _ tkt Hit ltac:(auto)) as [-> Hlt]. lia.
Qed.

(** * Nested readers

    [CoRwLock] takes the lock again for a task that already reads. Once a phase has
    served a batch and a writer waits, the nested acquisition waits for its own
    outer one. *)

Definition step_but (i : nat) w w' : Prop := exists j c, j <> i /\ move j c w = Some w'.

Lemma gate_stays i j wp w w' : reachable w -> w_threads w !! i = Some RHeld -> w_threads w !! j = Some (RGate wp) ->
  rtc (step_but i) w w' -> w_threads w' !! j = Some (RGate wp).
Proof.
  intros Hr Hi Hj Hs. destruct (reachable_inv w Hr) as [Hc _]. clear Hr. revert Hc Hi Hj.
  induction Hs as [|w w1 w' (k & c & Hne & Hm) _ IH]; intros Hc Hi Hj; [done|].
  pose proof (counts_step w w1 Hc ltac:(by exists k, c)) as Hc1. apply IH; [done| |].
  - unfold move in Hm. destruct (w_threads w !! k) as [t|]; [|done]. destruct (thread_step c (w_lock w) t). injection Hm as <-.
    cbn. by rewrite list_lookup_insert_ne.
  - destruct (registered w i RHeld Hc Hi) as [Hreg _]. specialize (Hreg eq_refl). pose proof (co_readers _ Hc) as Hn.
    unfold move in Hm. destruct (w_threads w !! k) as [t|] eqn:Hk; [|done]. destruct (thread_step c (w_lock w) t) as [l' t'] eqn:Et. injection Hm as <-.
    cbn. destruct (decide (k = j)) as [->|Hkj]; [|by rewrite list_lookup_insert_ne].
    rewrite list_lookup_insert_eq by by eapply lookup_lt_Some. assert (t = RGate wp) as -> by congruence.
    cbn in Et. rewrite (proj2 (Z.ltb_lt 0 (readers_ (w_lock w)))) in Et by lia. by injection Et as <- <-.
Qed.

(** Thread 0 reads and, as acquisition 3, reads again; 1 is other readers, 2 a writer. *)
Definition nested : list (nat * choice) :=
  (0%nat, CallRead false) :: go 0 7 ++ concat (replicate 31 ((1%nat, CallRead false) :: go 1 7)) ++ (2%nat, CallWrite) :: go 2 3 ++
  (3%nat, CallRead false) :: go 3 2.

Theorem nested_read_deadlocks : exists w, reachable w /\ w_threads w !! 0%nat = Some RHeld /\
  forall w', rtc (step_but 0) w w' -> w_threads w' !! 3%nat = Some (RGate false).
Proof.
  destruct (exec nested (world_init 4)) as [w|] eqn:E; [|by vm_compute in E].
  pose proof (exec_reachable 4 nested w ltac:(lia) E) as Hr. vm_compute in E. injection E as <-.
  eexists. split_and!; [exact Hr|done|]. intros w' Hw'. by eapply (gate_stays 0 3 false).
Qed.

Lemma uncontended_acquire_witness :
  exists n w' t, (n <= 14)%nat /\ exec ((0%nat, CallWrite) :: replicate n (0%nat, Go)) (world_init 1) = Some w' /\ w_threads w' !! 0%nat = Some t /\ acquired CallWrite t.
Proof.
  apply (uncontended_acquire (world_init 1) 0 CallWrite); [exists 1%nat; split; [lia|apply rtc_refl]|by intros i t [-> _]%lookup_replicate|cbn; lia|cbn; lia|by right].
Defined.

(** One thread holds the lock for writing while another waits for it. *)
Definition contended : list (nat * choice) := (0%nat, CallWrite) :: go 0 10 ++ (1%nat, CallWrite) :: go 1 8.
Definition contended_world : world := default (world_init 2) (exec contended (world_init 2)).

Lemma contended_reachable : reachable contended_world.
Proof. apply (exec_reachable 2 contended); [lia|]. by vm_compute. Qed.

Lemma one_writer_witness : w_threads contended_world !! 0%nat = Some (WHeld 0) /\ 0%nat = 0%nat.
Proof.
  assert (w_threads contended_world !! 0%nat = Some (WHeld 0)) as H by (vm_compute; reflexivity).
  split; [exact H|]. exact (one_writer contended_world 0 0 _ _ 0 0 contended_reachable H H (or_introl eq_refl) (or_introl eq_refl)).
Defined.

Fixpoint exec_fresh (sched : list (nat * choice)) w : bool :=
  match sched with
  | [] => true
  | (i, c) :: sched => negb (stale i c w) && match move i c w with Some w' => exec_fresh sched w' | None => false end
  end.

Lemma exec_fresh_rtc sched w w' : exec sched w = Some w' -> exec_fresh sched w = true -> rtc fresh_step w w'.
Proof.
  revert w. induction sched as [|[i c] sched IH]; cbn; intros w H Hf; [by injection H as ->|].
  apply andb_true_iff in Hf as [Hs%negb_true_iff Hf]. destruct (move i c w) as [w1|] eqn:Hm; [|done]. eapply rtc_l; [by exists i, c|auto].
Qed.

Lemma contended_fresh : reachable_fresh contended_world.
Proof. exists 2%nat. split; [lia|]. apply (exec_fresh_rtc contended); by vm_compute. Qed.


(** * The reentrant lock of the runtime

    [context-runtime/include/clio_runtime/corwlock.h]. [self] is the calling OS
    thread ([GetCoLockThreadId()], zero if it has none), [own] the task
    ([GetCurrentLockOwnerId()]). A call is the new state and what it asks of the
    underlying lock, in order. *)

Section CoRwLock.
Context {Owner : Type} `{EqDecision Owner} (no_owner : Owner).

Record CoRwLock := mkCo { holder_ : Owner; holder_tid_ : Z; write_depth_ : Z; read_depth_ : Z }.
Definition CoRwLock_new : CoRwLock := mkCo no_owner 0 0 0.
Inductive lock_call := LReadLock | LReadUnlock | LWriteLock | LWriteUnlock.
Implicit Types (co : CoRwLock) (self : Z) (own : Owner).

Definition HeldByThisThread self co : bool := negb (self =? 0) && (holder_tid_ co =? self).
Definition reenters self own co : bool := HeldByThisThread self co && bool_decide (own = holder_ co).

Definition CoReadLock self own co : CoRwLock * list lock_call :=
  if reenters self own co then (mkCo (holder_ co) (holder_tid_ co) (write_depth_ co) (u32 (read_depth_ co + 1)), [])
  else (co, [LReadLock]).
Definition CoReadUnlock self own co : CoRwLock * list lock_call :=
  if reenters self own co && (0 <? read_depth_ co) then (mkCo (holder_ co) (holder_tid_ co) (write_depth_ co) (u32 (read_depth_ co - 1)), [])
  else (co, [LReadUnlock]).
Definition CoWriteLock self own co : CoRwLock * list lock_call :=
  if reenters self own co then (mkCo (holder_ co) (holder_tid_ co) (u32 (write_depth_ co + 1)) (read_depth_ co), [])
  else (mkCo own self 1 (read_depth_ co), [LWriteLock]).
Definition CoWriteUnlock co : CoRwLock * list lock_call :=
  let d := u32 (write_depth_ co - 1) in
  if (d =? 0) && (read_depth_ co =? 0) then (mkCo no_owner 0 d (read_depth_ co), [LWriteUnlock])
  else (mkCo (holder_ co) (holder_tid_ co) d (read_depth_ co), []).

(** The guards a task holds, one scope inside another. *)
Inductive scope := ReadScope (body : list scope) | WriteScope (body : list scope).

Fixpoint run_scope self own (sc : scope) co : CoRwLock * list lock_call :=
  let body := fix body scs co := match scs with
    | [] => (co, [])
    | sc :: scs => let '(co, c1) := run_scope self own sc co in let '(co, c2) := body scs co in (co, c1 ++ c2)
    end in
  match sc with
  | ReadScope scs =>
      let '(co, c1) := CoReadLock self own co in let '(co, c2) := body scs co in let '(co, c3) := CoReadUnlock self own co in (co, c1 ++ c2 ++ c3)
  | WriteScope scs =>
      let '(co, c1) := CoWriteLock self own co in let '(co, c2) := body scs co in let '(co, c3) := CoWriteUnlock co in (co, c1 ++ c2 ++ c3)
  end.

(** The outermost guards on the underlying lock: a write guard hides what is inside it. *)
Fixpoint outer (sc : scope) : list lock_call :=
  match sc with
  | ReadScope scs => LReadLock :: concat (map outer scs) ++ [LReadUnlock]
  | WriteScope _ => [LWriteLock; LWriteUnlock]
  end.
Fixpoint height (sc : scope) : Z :=
  match sc with ReadScope scs | WriteScope scs => 1 + foldr Z.max 0 (map height scs) end.

Definition run_scopes self own : list scope -> CoRwLock -> CoRwLock * list lock_call :=
  fix body scs co := match scs with
    | [] => (co, [])
    | sc :: scs => let '(co, c1) := run_scope self own sc co in let '(co, c2) := body scs co in (co, c1 ++ c2)
    end.

Definition scope_ind' (P : scope -> Prop) (Hr : forall scs, Forall P scs -> P (ReadScope scs)) (Hw : forall scs, Forall P scs -> P (WriteScope scs)) :
  forall sc, P sc :=
  fix go sc :=
    let all := fix all scs : Forall P scs := match scs with [] => @List.Forall_nil _ P | sc :: scs => @List.Forall_cons _ P sc scs (go sc) (all scs) end in
    match sc with ReadScope scs => Hr scs (all scs) | WriteScope scs => Hw scs (all scs) end.

Lemma run_scope_eq self own sc co :
  run_scope self own sc co =
  match sc with
  | ReadScope scs =>
      let '(co, c1) := CoReadLock self own co in let '(co, c2) := run_scopes self own scs co in let '(co, c3) := CoReadUnlock self own co in (co, c1 ++ c2 ++ c3)
  | WriteScope scs =>
      let '(co, c1) := CoWriteLock self own co in let '(co, c2) := run_scopes self own scs co in let '(co, c3) := CoWriteUnlock co in (co, c1 ++ c2 ++ c3)
  end.
Proof. by destruct sc. Qed.

Lemma height_in sc scs : sc ∈ scs -> height sc <= foldr Z.max 0 (map height scs).
Proof. induction scs as [|sc' scs IH]; [by intros ?%elem_of_nil|]. intros [->|Hin]%elem_of_cons; cbn; [lia|]. specialize (IH Hin). lia. Qed.
Lemma height_pos sc : 1 <= height sc.
Proof.
  assert (forall scs : list scope, 0 <= foldr Z.max 0 (map height scs)) by (induction scs; cbn; lia).
  destruct sc as [scs|scs]; cbn; specialize (H scs); lia.
Qed.

(** Inside a write guard nothing reaches the underlying lock. *)
Definition silent self own sc : Prop := forall wd rd, 0 < wd -> 0 <= rd -> wd + height sc < 2 ^ 32 -> rd + height sc < 2 ^ 32 ->
  run_scope self own sc (mkCo own self wd rd) = (mkCo own self wd rd, []).

Lemma silent_all self own scs wd rd : Forall (silent self own) scs -> 0 < wd -> 0 <= rd ->
  wd + foldr Z.max 0 (map height scs) < 2 ^ 32 -> rd + foldr Z.max 0 (map height scs) < 2 ^ 32 ->
  run_scopes self own scs (mkCo own self wd rd) = (mkCo own self wd rd, []).
Proof.
  intros Hf. induction Hf as [|sc scs Hs _ IH]; intros Hwd Hrd Hw Hr; [done|]. cbn in *. rewrite Hs by lia. by rewrite IH by lia.
Qed.

Lemma reenters_self self own wd rd : self <> 0 -> reenters self own (mkCo own self wd rd) = true.
Proof. intros Hs. unfold reenters, HeldByThisThread. cbn. rewrite Z.eqb_refl, bool_decide_eq_true_2 by done. by rewrite (proj2 (Z.eqb_neq self 0)). Qed.

Lemma scope_silent self own sc : self <> 0 -> silent self own sc.
Proof.
  intros Hs. induction sc as [scs IH|scs IH] using scope_ind'; intros wd rd Hwd Hrd Hw Hr; rewrite run_scope_eq; cbn [height] in *;
    assert (0 <= foldr Z.max 0 (map height scs)) as Hp by (clear; induction scs; cbn; lia).
  - unfold CoReadLock. rewrite reenters_self by done. cbn [holder_ holder_tid_ write_depth_ read_depth_]. rewrite u32_small by lia.
    rewrite silent_all by (done || lia). unfold CoReadUnlock. rewrite reenters_self by done. cbn [holder_ holder_tid_ write_depth_ read_depth_].
    rewrite (proj2 (Z.ltb_lt 0 (rd + 1))) by lia. cbn [andb]. rewrite u32_small by lia. by replace (rd + 1 - 1) with rd by lia.
  - unfold CoWriteLock. rewrite reenters_self by done. cbn [holder_ holder_tid_ write_depth_ read_depth_]. rewrite u32_small by lia.
    rewrite silent_all by (done || lia). unfold CoWriteUnlock. cbn [holder_ holder_tid_ write_depth_ read_depth_].
    replace (wd + 1 - 1) with wd by lia. rewrite u32_small by lia. by rewrite (proj2 (Z.eqb_neq wd 0)) by lia.
Qed.

Lemma reenters_new self own : self <> 0 -> reenters self own CoRwLock_new = false.
Proof. intros Hs. unfold reenters, HeldByThisThread, CoRwLock_new. cbn [holder_tid_ holder_]. by rewrite (proj2 (Z.eqb_neq 0 self)), andb_false_r by done. Qed.

(** The reentrant lock balances: guards that a task on a thread with an identity
    takes and drops in nested scopes leave the lock as it was and reach the
    underlying lock exactly as their outermost parts do: a write guard and all that
    is inside it is one acquisition and one release. *)
Theorem nested_guards_balance self own sc : self <> 0 -> height sc < 2 ^ 32 - 1 ->
  run_scope self own sc CoRwLock_new = (CoRwLock_new, outer sc).
Proof.
  intros Hs. pose proof (reenters_new self own Hs) as Hn. induction sc as [scs IH|scs IH] using scope_ind'; intros Hh; rewrite run_scope_eq; cbn [height outer] in *.
  - unfold CoReadLock. rewrite Hn. assert (run_scopes self own scs CoRwLock_new = (CoRwLock_new, concat (map outer scs))) as ->.
    { induction IH as [|sc scs Hsc _ IH]; [done|]. cbn in *. rewrite Hsc by lia. by rewrite IH by lia. }
    unfold CoReadUnlock. by rewrite Hn.
  - unfold CoWriteLock. rewrite Hn. cbn [read_depth_ CoRwLock_new]. assert (0 <= foldr Z.max 0 (map height scs)) as Hp by (clear; induction scs; cbn; lia).
    rewrite silent_all; [done|apply Forall_forall; intros; by apply scope_silent|lia..].
Qed.

(** Guards dropped out of order: the write lock is not released, though the task
    has given back all it took. *)
Theorem crossed_guards_leak self own : self <> 0 ->
  let '(co, c1) := CoWriteLock self own CoRwLock_new in
  let '(co, c2) := CoReadLock self own co in
  let '(co, c3) := CoWriteUnlock co in
  let '(co, c4) := CoReadUnlock self own co in
  c1 ++ c2 ++ c3 ++ c4 = [LWriteLock] /\ write_depth_ co = 0 /\ read_depth_ co = 0.
Proof.
  intros Hs. unfold CoWriteLock. rewrite reenters_new by done.
  cbn [read_depth_ CoRwLock_new]. unfold CoReadLock. rewrite reenters_self by done. unfold CoWriteUnlock.
  cbn [holder_ holder_tid_ write_depth_ read_depth_]. change (u32 (1 - 1)) with 0. change (u32 (0 + 1)) with 1. cbn [Z.eqb andb].
  unfold CoReadUnlock. by rewrite reenters_self.
Qed.
End CoRwLock.

Lemma nested_guards_balance_witness :
  run_scope 0%nat 7 1%nat (WriteScope [ReadScope [ReadScope []]; WriteScope []]) (CoRwLock_new 0%nat) = (CoRwLock_new 0%nat, [LWriteLock; LWriteUnlock]).
Proof. apply (nested_guards_balance 0%nat 7 1%nat (WriteScope [ReadScope [ReadScope []]; WriteScope []])); [lia|cbn; lia]. Defined.
