(* ===== verification/ShmMap.v ===== *)
(** The hash map in shared memory that mirrors the metadata of the context transfer
    engine for its clients
    ([context-transport-primitives/.../data_structures/ipc/unordered_map.h], used by
    [cte/include/clio_cte/core/shm_metadata_cache.h]): a fixed table, one writer,
    readers in other processes that only load.

    A key and a value are the words they occupy, written and read one at a time, so
    a reader may see any mixture of two writes; the bytes of a string key, which the
    slot only points to, stand for its words. Memory is sequentially consistent. A
    generation is unbounded: it wraps after 2^63 writes to one slot. *)
From Stdlib Require Import ZArith Lia.
From stdpp Require Import base list gmap relations.
From S2P Require Import Prelude.

Open Scope Z_scope.

(** * The table *)

Inductive SlotState := kEmpty | kOccupied | kTombstone.
#[export] Instance SlotState_eq_dec : EqDecision SlotState.
Proof. solve_decision. Defined.

Record Slot := mkSlot { state_ : SlotState; gen_ : Z; key_ : list Z; value_ : list Z }.
Record unordered_map := mkMap { capacity_ : nat; size_ : nat; max_fill_ : nat; slots_ : list Slot }.

Definition kMaxLoadNum : nat := 7.
Definition kMaxLoadDen : nat := 8.
Definition kMaxProbe : nat := Z.to_nat 1024.

Section ShmMap.
(** The words of a key and of a value, and the hash of a key. *)
Context (key_words value_words : nat) (hash : list Z -> Z).
Implicit Types (m : unordered_map) (s : Slot) (k v : list Z) (i idx : nat).

(** [Allocate]: the capacity is rounded up to a power of two. *)
Fixpoint round_up (fuel cap capacity : nat) : nat :=
  match fuel with
  | O => cap
  | S fuel => if (cap <? capacity)%nat then round_up fuel (cap * 2) capacity else cap
  end.
Definition empty_slot : Slot := mkSlot kEmpty 0 (replicate key_words 0) (replicate value_words 0).
Definition Allocate (capacity : nat) : unordered_map :=
  let cap := round_up capacity 1 capacity in
  let fill := (cap * kMaxLoadNum / kMaxLoadDen)%nat in
  mkMap cap 0 (if (fill =? 0)%nat then (if (1 <? cap)%nat then cap - 1 else 1) else fill)%nat (replicate cap empty_slot).

Definition masked m (z : Z) : nat := Z.to_nat (Z.land z (Z.of_nat (capacity_ m) - 1)).
Definition home m k : nat := masked m (hash k).
Definition next m idx : nat := masked m (Z.of_nat (idx + 1)).
Definition probe_limit m : nat := if (capacity_ m <? kMaxProbe)%nat then capacity_ m else kMaxProbe.

Definition slot m idx : Slot := default empty_slot (slots_ m !! idx).
Definition KeyMatches s k : bool := bool_decide (key_ s = k).

Fixpoint find_from m (n idx : nat) k : option nat :=
  match n with
  | O => None
  | S n =>
      match state_ (slot m idx) with
      | kEmpty => None
      | kOccupied => if KeyMatches (slot m idx) k then Some idx else find_from m n (next m idx) k
      | kTombstone => find_from m n (next m idx) k
      end
  end.
Definition FindSlot m k : option nat := find_from m (probe_limit m) (home m k) k.

(** * Writing

    What the probe of [InsertOrAssign] decides. *)
Inductive decision := Overwrite idx | Fresh (target : nat) | Refused.
Fixpoint insert_from m (accept_new : bool) (n idx : nat) (first_tombstone : option nat) k : decision :=
  match n with
  | O => Refused
  | S n =>
      match state_ (slot m idx) with
      | kOccupied => if KeyMatches (slot m idx) k then Overwrite idx else insert_from m accept_new n (next m idx) first_tombstone k
      | kTombstone => insert_from m accept_new n (next m idx) (match first_tombstone with None => Some idx | t => t end) k
      | kEmpty => if accept_new then Fresh (default idx first_tombstone) else Refused
      end
  end.
Definition insert_decision m k : decision := insert_from m (size_ m <? max_fill_ m)%nat (probe_limit m) (home m k) None k.

(** The stores of the writer, one shared word each. *)
Inductive store :=
  | BeginWrite idx | EndWrite idx | SetState idx (st : SlotState) | SetKey idx (j : nat) (w : Z) | SetValue idx (j : nat) (w : Z)
  | SetSize (n : nat).

Definition set_slot m idx (f : Slot -> Slot) : unordered_map := mkMap (capacity_ m) (size_ m) (max_fill_ m) (alter f idx (slots_ m)).
Definition do_store (c : store) m : unordered_map :=
  match c with
  | BeginWrite i | EndWrite i => set_slot m i (fun s => mkSlot (state_ s) (gen_ s + 1) (key_ s) (value_ s))
  | SetState i st => set_slot m i (fun s => mkSlot st (gen_ s) (key_ s) (value_ s))
  | SetKey i j w => set_slot m i (fun s => mkSlot (state_ s) (gen_ s) (<[j := w]> (key_ s)) (value_ s))
  | SetValue i j w => set_slot m i (fun s => mkSlot (state_ s) (gen_ s) (key_ s) (<[j := w]> (value_ s)))
  | SetSize n => mkMap (capacity_ m) n (max_fill_ m) (slots_ m)
  end.
Definition do_stores (cs : list store) m : unordered_map := fold_left (fun m c => do_store c m) cs m.

Definition AssignKey idx k : list store := imap (SetKey idx) k.
Definition assign_value idx v : list store := imap (SetValue idx) v.

(** The calls of the writer. [ok] is whether the key's storage could be allocated. *)
Inductive op := InsertOrAssign (ok : bool) k v | Erase k.
Definition stores m (o : op) : bool * list store :=
  match o with
  | InsertOrAssign ok k v =>
      match insert_decision m k with
      | Overwrite i => (true, BeginWrite i :: assign_value i v ++ [EndWrite i])
      | Fresh i =>
          if ok then (true, BeginWrite i :: AssignKey i k ++ assign_value i v ++ [SetState i kOccupied; EndWrite i; SetSize (size_ m + 1)])
          else (false, [BeginWrite i; SetState i kEmpty; EndWrite i])
      | Refused => (false, [])
      end
  | Erase k =>
      match FindSlot m k with
      | Some i => (true, [BeginWrite i; SetState i kTombstone; EndWrite i] ++ (if (0 <? size_ m)%nat then [SetSize (size_ m - 1)] else []))
      | None => (false, [])
      end
  end.
Definition run_op m (o : op) : bool * unordered_map := let '(r, cs) := stores m o in (r, do_stores cs m).

(** * The table between calls *)

Fixpoint walk m (n idx : nat) : list nat := match n with O => [] | S n => idx :: walk m n (next m idx) end.
Definition probes m k : list nat := walk m (probe_limit m) (home m k).
Notation st m i := (state_ (slot m i)).

(** Look-ups of [k] come to slot [i] without meeting an empty one. *)
Definition reaches m k i : Prop := exists l1 l2, probes m k = l1 ++ i :: l2 /\ forall j, j ∈ l1 -> st m j <> kEmpty.
Definition held m k v : Prop := exists i, st m i = kOccupied /\ key_ (slot m i) = k /\ value_ (slot m i) = v.

Record table_ok m (M : gmap (list Z) (list Z)) : Prop := {
  to_cap : exists e, capacity_ m = (2 ^ e)%nat;
  to_len : length (slots_ m) = capacity_ m;
  to_words i s : slots_ m !! i = Some s -> length (key_ s) = key_words /\ length (value_ s) = value_words;
  to_even i s : slots_ m !! i = Some s -> Z.even (gen_ s) = true;
  to_reach i : st m i = kOccupied -> reaches m (key_ (slot m i)) i;
  to_unique i j : st m i = kOccupied -> st m j = kOccupied -> key_ (slot m i) = key_ (slot m j) -> i = j;
  to_held k v : held m k v <-> M !! k = Some v;
  to_size : size_ m = size M;
  to_fill : (size_ m <= max_fill_ m)%nat }.

Lemma masked_lt m z : (exists e, capacity_ m = (2 ^ e)%nat) -> (masked m z < capacity_ m)%nat.
Proof.
  intros [e E]. unfold masked. rewrite E, Nat2Z.inj_pow. change (Z.of_nat 2) with 2.
  replace (2 ^ Z.of_nat e - 1) with (Z.ones (Z.of_nat e)) by (rewrite Z.ones_equiv; lia).
  rewrite Z.land_ones by lia. pose proof (Z.mod_pos_bound z (2 ^ Z.of_nat e) ltac:(lia)) as Hb.
  apply Nat2Z.inj_lt. rewrite Z2Nat.id by lia. rewrite Nat2Z.inj_pow. lia.
Qed.

Lemma walk_lt m n idx j : (exists e, capacity_ m = (2 ^ e)%nat) -> (idx < capacity_ m)%nat -> j ∈ walk m n idx -> (j < capacity_ m)%nat.
Proof.
  intros He. revert idx. induction n as [|n IH]; cbn; intros idx Hi; [by intros ?%elem_of_nil|].
  intros [->|Hj]%elem_of_cons; [done|]. eapply IH; [|exact Hj]. by apply masked_lt.
Qed.

Lemma slot_in_range m i : st m i <> kEmpty -> exists s, slots_ m !! i = Some s /\ slot m i = s.
Proof. unfold slot. destruct (slots_ m !! i) as [s|]; cbn; [by eauto|done]. Qed.

Lemma KeyMatches_true s k : KeyMatches s k = true <-> key_ s = k.
Proof. apply bool_decide_eq_true. Qed.

Lemma find_from_sound m n idx k i : find_from m n idx k = Some i -> i ∈ walk m n idx /\ st m i = kOccupied /\ key_ (slot m i) = k.
Proof.
  revert idx. induction n as [|n IH]; cbn; intros idx; [done|]. destruct (st m idx) eqn:E; [done| |].
  - destruct (KeyMatches (slot m idx) k) eqn:Ek; [|intros H; apply IH in H as (? & ?); rewrite elem_of_cons; auto].
    intros [= <-]. apply KeyMatches_true in Ek. rewrite elem_of_cons. auto.
  - intros H. apply IH in H as (? & ?). rewrite elem_of_cons. auto.
Qed.

Lemma find_from_complete m n idx k i l1 l2 : walk m n idx = l1 ++ i :: l2 -> (forall j, j ∈ l1 -> st m j <> kEmpty) ->
  st m i = kOccupied -> key_ (slot m i) = k -> (forall j, st m j = kOccupied -> key_ (slot m j) = k -> j = i) -> find_from m n idx k = Some i.
Proof.
  revert idx l1. induction n as [|n IH]; cbn; intros idx l1 Hw Hl Hi Hk Hu; [by destruct l1|].
  destruct (decide (idx = i)) as [->|Hne]; [rewrite Hi; by rewrite (proj2 (KeyMatches_true _ _) Hk)|].
  destruct l1 as [|j l1]; cbn in Hw; injection Hw as Hj Hw; [congruence|]. subst j.
  assert (find_from m n (next m idx) k = Some i) as IHi by (apply (IH _ l1); try done; intros j Hj; apply Hl; by right).
  specialize (Hl idx ltac:(by left)). destruct (st m idx) eqn:E; [done| |done].
  destruct (KeyMatches (slot m idx) k) eqn:Ek; [|done]. apply KeyMatches_true in Ek. by destruct Hne; apply Hu.
Qed.

Lemma FindSlot_spec m M k i : table_ok m M -> FindSlot m k = Some i <-> st m i = kOccupied /\ key_ (slot m i) = k.
Proof.
  intros Hm. split; [intros H; by apply find_from_sound in H as (_ & ?)|]. intros [Hi Hk].
  destruct (to_reach _ _ Hm i Hi) as (l1 & l2 & Hw & Hl). rewrite Hk in Hw. eapply find_from_complete; eauto.
  intros j Hj Hkj. apply (to_unique _ _ Hm); congruence.
Qed.

Lemma FindSlot_None m M k : table_ok m M -> FindSlot m k = None <-> M !! k = None.
Proof.
  intros Hm. split; intros H.
  - apply eq_None_not_Some. intros [v Hv]. apply (to_held _ _ Hm) in Hv as (i & Hi & Hk & _).
    by rewrite (proj2 (FindSlot_spec m M k i Hm)) in H.
  - apply eq_None_not_Some. intros [i Hi]. apply (FindSlot_spec m M k i Hm) in Hi as [Hi Hk].
    assert (M !! k = Some (value_ (slot m i))) as E by (apply (to_held _ _ Hm); by exists i). congruence.
Qed.

Lemma FindSlot_value m M k i : table_ok m M -> FindSlot m k = Some i -> M !! k = Some (value_ (slot m i)).
Proof. intros Hm Hi. apply (FindSlot_spec m M k i Hm) in Hi as [Hi Hk]. apply (to_held _ _ Hm). by exists i. Qed.

(** * What the probe of an insertion decides *)

Lemma insert_from_found m acc n idx ft k i : find_from m n idx k = Some i -> insert_from m acc n idx ft k = Overwrite i.
Proof.
  revert idx ft. induction n as [|n IH]; cbn; intros idx ft; [done|]. destruct (st m idx); [done| |by apply IH].
  destruct (KeyMatches (slot m idx) k); [congruence|apply IH].
Qed.

Definition has_empty m (l : list nat) : Prop := exists i, i ∈ l /\ st m i = kEmpty.

(** The slot of a new key: it is free, and no look-up of the key meets an empty slot
    before it. *)
Lemma insert_from_fresh m acc n idx ft k t : insert_from m acc n idx ft k = Fresh t ->
  acc = true /\ has_empty m (walk m n idx) /\
  (ft = Some t \/ (ft = None /\ st m t <> kOccupied /\ exists l1 l2, walk m n idx = l1 ++ t :: l2 /\ forall j, j ∈ l1 -> st m j <> kEmpty)).
Proof.
  revert idx ft. induction n as [|n IH]; cbn; intros idx ft; [done|]. unfold has_empty. destruct (st m idx) eqn:E.
  - destruct acc; [|done]. intros [= <-]. split_and!; [done|exists idx; rewrite elem_of_cons; auto|].
    destruct ft as [f|]; cbn; [by left|]. right. split_and!; [done|by rewrite E|]. exists [], (walk m n (next m idx)). split; [done|]. by intros j ?%elem_of_nil.
  - destruct (KeyMatches (slot m idx) k); [done|]. intros H. apply IH in H as (Ha & (i & Hi & Ei) & Ht). split_and!; [done|exists i; rewrite elem_of_cons; auto|].
    destruct Ht as [|(-> & Ht & l1 & l2 & -> & Hl)]; [by left|]. right. split_and!; [done|done|]. exists (idx :: l1), l2. split; [done|].
    intros j [->|Hj]%elem_of_cons; [by rewrite E|auto].
  - intros H. apply IH in H as (Ha & (i & Hi & Ei) & Ht). split_and!; [done|exists i; rewrite elem_of_cons; auto|].
    destruct ft as [f|]; [destruct Ht as [?|[? _]]; [by left|done]|]. right. destruct Ht as [[= ->]|[? _]]; [|done].
    split_and!; [done|by rewrite E|]. exists [], (walk m n (next m t)). split; [done|]. by intros j ?%elem_of_nil.
Qed.

Lemma insert_from_empty m acc n idx ft k : find_from m n idx k = None -> acc = true -> has_empty m (walk m n idx) ->
  exists t, insert_from m acc n idx ft k = Fresh t.
Proof.
  intros Hf Ha (i & Hi & Ei). revert idx ft Hf Hi. induction n as [|n IH]; cbn; intros idx ft Hf Hi; [by apply elem_of_nil in Hi|].
  subst acc. destruct (st m idx) eqn:E; [by eauto| |].
  - destruct (KeyMatches (slot m idx) k); [done|]. apply IH; [done|]. apply elem_of_cons in Hi as [->|Hi]; [congruence|done].
  - apply IH; [done|]. apply elem_of_cons in Hi as [->|Hi]; [congruence|done].
Qed.

Lemma insert_from_overwrite m acc n idx ft k i : insert_from m acc n idx ft k = Overwrite i -> find_from m n idx k = Some i.
Proof.
  revert idx ft. induction n as [|n IH]; cbn; intros idx ft; [done|]. destruct (st m idx); [by destruct acc| |by apply IH].
  destruct (KeyMatches (slot m idx) k); [congruence|apply IH].
Qed.

(** * What the stores leave *)

Lemma do_stores_app m l l' : do_stores (l ++ l') m = do_stores l' (do_stores l m).
Proof. apply fold_left_app. Qed.

Lemma set_slot_set_slot m i f g : set_slot (set_slot m i f) i g = set_slot m i (fun s => g (f s)).
Proof. unfold set_slot. cbn. f_equal. exact (list_alter_alter_eq g f (slots_ m) i). Qed.

Lemma set_slot_ext m i f g s : slots_ m !! i = Some s -> f s = g s -> set_slot m i f = set_slot m i g.
Proof. intros Hi E. unfold set_slot. f_equal. apply list_alter_ext; [|done]. intros x Hx. congruence. Qed.

(** Writing every word of a list replaces it. *)
Lemma write_words {A} (l l' : list A) : length l = length l' -> fold_left (fun x p => <[fst p := snd p]> x) (imap pair l) l' = l.
Proof.
  assert (forall pre, length l = length l' -> fold_left (fun x p => <[fst p := snd p]> x) (imap (fun j w => ((length pre + j)%nat, w)) l) (pre ++ l') = pre ++ l) as H.
  { revert l'. induction l as [|w l IH]; intros [|w' l'] pre Hl; try done. cbn in Hl |- *. rewrite Nat.add_0_r, insert_app_r_alt by lia.
    rewrite Nat.sub_diag. cbn. specialize (IH l' (pre ++ [w]) ltac:(lia)). rewrite <- !app_assoc in IH. cbn in IH. rewrite <- IH. f_equal.
    apply imap_ext. intros j x _. cbn. rewrite length_app. cbn. f_equal. lia. }
  intros Hl. exact (H [] Hl).
Qed.

(** A sequence of stores to the words of one member of a slot. *)
Lemma do_words (C : nat -> Z -> store) (get : Slot -> list Z) (put : list Z -> Slot -> Slot) i l m s :
  (forall j w m, do_store (C j w) m = set_slot m i (fun s => put (<[j := w]> (get s)) s)) ->
  (forall x s, get (put x s) = x) -> (forall x y s, put y (put x s) = put y s) -> (forall s, put (get s) s = s) ->
  slots_ m !! i = Some s -> length l = length (get s) -> do_stores (imap C l) m = set_slot m i (put l).
Proof.
  intros Hdo Hgp Hpp Hpg Hi Hl.
  transitivity (set_slot m i (fun s => put (fold_left (fun x p => <[fst p := snd p]> x) (imap pair l) (get s)) s)); [|eapply set_slot_ext; [done|]; by rewrite write_words].
  clear Hi Hl. revert C Hdo m.
  assert (forall (f : nat -> nat) (C : nat -> Z -> store), (forall j w m, do_store (C j w) m = set_slot m i (fun s => put (<[f j := w]> (get s)) s)) -> forall m,
    do_stores (imap C l) m = set_slot m i (fun s => put (fold_left (fun x p => <[fst p := snd p]> x) (imap (fun j w => (f j, w)) l) (get s)) s)) as H; [|exact (H id)].
  induction l as [|w l IH]; intros f C Hdo m; cbn.
  - unfold set_slot. rewrite list_alter_id by apply Hpg. by destruct m.
  - unfold do_stores in IH. rewrite (IH (f ∘ S) (C ∘ S)) by (intros; apply Hdo). rewrite Hdo, set_slot_set_slot.
    unfold set_slot. f_equal. apply list_alter_ext; [|done]. intros x _. by rewrite Hgp, Hpp.
Qed.

Lemma do_AssignKey m i k s : slots_ m !! i = Some s -> length k = length (key_ s) ->
  do_stores (AssignKey i k) m = set_slot m i (fun s => mkSlot (state_ s) (gen_ s) k (value_ s)).
Proof. apply (do_words _ key_ (fun k s => mkSlot (state_ s) (gen_ s) k (value_ s))); try done. by intros []. Qed.

Lemma do_assign_value m i v s : slots_ m !! i = Some s -> length v = length (value_ s) ->
  do_stores (assign_value i v) m = set_slot m i (fun s => mkSlot (state_ s) (gen_ s) (key_ s) v).
Proof. apply (do_words _ value_ (fun v s => mkSlot (state_ s) (gen_ s) (key_ s) v)); try done. by intros []. Qed.

(** * One slot changes *)

Definition put_slot m i s n : unordered_map := mkMap (capacity_ m) n (max_fill_ m) (<[i := s]> (slots_ m)).

Lemma set_slot_put m i f s n : slots_ m !! i = Some s -> mkMap (capacity_ m) n (max_fill_ m) (slots_ (set_slot m i f)) = put_slot m i (f s) n.
Proof. intros Hi. unfold put_slot. f_equal. cbn. rewrite list_insert_alter. apply list_alter_ext; [|done]. intros x Hx. congruence. Qed.

Lemma slot_put_same m i s s0 n : slots_ m !! i = Some s0 -> slot (put_slot m i s n) i = s.
Proof. intros Hi. unfold slot, put_slot. cbn. by rewrite list_lookup_insert_eq by by eapply lookup_lt_Some. Qed.
Lemma slot_put_other m i j s n : j <> i -> slot (put_slot m i s n) j = slot m j.
Proof. intros Hne. unfold slot, put_slot. cbn. by rewrite list_lookup_insert_ne. Qed.

Lemma probes_put m i s n k : probes (put_slot m i s n) k = probes m k.
Proof.
  unfold probes. change (probe_limit (put_slot m i s n)) with (probe_limit m). change (home (put_slot m i s n) k) with (home m k).
  generalize (home m k). induction (probe_limit m) as [|p IH]; intros idx; [done|]. cbn. f_equal. apply IH.
Qed.

Lemma put_slot_ok m M M' i s s0 n : table_ok m M -> slots_ m !! i = Some s0 ->
  length (key_ s) = key_words /\ length (value_ s) = value_words -> Z.even (gen_ s) = true ->
  (st m i <> kEmpty -> state_ s <> kEmpty) -> (state_ s = kOccupied -> reaches m (key_ s) i) ->
  (state_ s = kOccupied -> forall j, j <> i -> st m j = kOccupied -> key_ (slot m j) <> key_ s) ->
  (forall k v, M' !! k = Some v <-> (state_ s = kOccupied /\ key_ s = k /\ value_ s = v) \/
    exists j, j <> i /\ st m j = kOccupied /\ key_ (slot m j) = k /\ value_ (slot m j) = v) ->
  n = size M' -> (n <= max_fill_ m)%nat -> table_ok (put_slot m i s n) M'.
Proof.
  intros Hm Hi Hw He Hst Hre Hun HM Hn Hfill. pose proof (slot_put_same m i s s0 n Hi) as Hsame.
  assert (forall j, st m j <> kEmpty -> st (put_slot m i s n) j <> kEmpty) as Hmono.
  { intros j Hj. destruct (decide (j = i)) as [->|Hne]; [rewrite Hsame; auto|by rewrite slot_put_other]. }
  assert (forall j k, reaches m k j -> reaches (put_slot m i s n) k j) as Hr.
  { intros j k (l1 & l2 & Hp & Hl). exists l1, l2. rewrite probes_put. split; [done|]. intros; apply Hmono; auto. }
  split.
  - apply (to_cap _ _ Hm).
  - cbn. rewrite length_insert. apply (to_len _ _ Hm).
  - intros j u Hj. cbn in Hj. destruct (decide (i = j)) as [<-|Hne].
    + rewrite list_lookup_insert_eq in Hj by by eapply lookup_lt_Some. by injection Hj as <-.
    + rewrite list_lookup_insert_ne in Hj by done. by eapply (to_words _ _ Hm).
  - intros j u Hj. cbn in Hj. destruct (decide (i = j)) as [<-|Hne].
    + rewrite list_lookup_insert_eq in Hj by by eapply lookup_lt_Some. by injection Hj as <-.
    + rewrite list_lookup_insert_ne in Hj by done. by eapply (to_even _ _ Hm).
  - intros j Hj. apply Hr. destruct (decide (j = i)) as [->|Hne]; [rewrite Hsame in *; auto|rewrite slot_put_other in * by done; by apply (to_reach _ _ Hm)].
  - intros j j' Hj Hj' Hk. destruct (decide (j = i)) as [->|Hne], (decide (j' = i)) as [->|Hne'];
      rewrite ?Hsame in *; rewrite ?slot_put_other in * by done; try done.
    + symmetry in Hk. by destruct (Hun Hj j' Hne' Hj' Hk).
    + by destruct (Hun Hj' j Hne Hj Hk).
    + by apply (to_unique _ _ Hm).
  - intros k v. rewrite HM. split.
    + intros (j & Hj & Hk & Hv). destruct (decide (j = i)) as [->|Hne]; [rewrite Hsame in *; by left|].
      rewrite slot_put_other in * by done. right. by exists j.
    + intros [Hs|(j & Hne & Hj)]; [exists i; by rewrite Hsame|exists j; by rewrite slot_put_other].
  - done.
  - done.
Qed.

Lemma held_value m M i k : table_ok m M -> st m i = kOccupied -> key_ (slot m i) = k -> M !! k = Some (value_ (slot m i)).
Proof. intros Hm Hi Hk. apply (to_held _ _ Hm). by exists i. Qed.

(** The three ways in which the contents change. *)
Lemma overwritten_ok m M i k v : table_ok m M -> st m i = kOccupied -> key_ (slot m i) = k -> length v = value_words ->
  table_ok (put_slot m i (mkSlot kOccupied (gen_ (slot m i) + 2) k v) (size_ m)) (<[k := v]> M).
Proof.
  intros Hm Hi Hk Hv. destruct (slot_in_range m i) as (s & Hs & Es); [by rewrite Hi|]. pose proof (to_words _ _ Hm i s Hs) as [Hkw _].
  pose proof (held_value m M i k Hm Hi Hk) as Hold.
  eapply put_slot_ok; try done; cbn.
  - rewrite <- Hk, Es. done.
  - rewrite Z.even_add, Es. by rewrite (to_even _ _ Hm i s Hs).
  - intros _. rewrite <- Hk. by apply (to_reach _ _ Hm).
  - intros _ j Hne Hj Hkj. apply Hne, (to_unique _ _ Hm); congruence.
  - intros k' v'. rewrite lookup_insert_Some. split.
    + intros [[-> ->]|[Hne Hl]]; [by left|]. apply (to_held _ _ Hm) in Hl as (j & Hj & Hkj & Hvj). right. exists j. split_and!; try done. congruence.
    + intros [(_ & -> & ->)|(j & Hne & Hj & Hkj & Hvj)]; [by left|]. right. split; [|apply (to_held _ _ Hm); by exists j].
      intros <-. apply Hne, (to_unique _ _ Hm); congruence.
  - rewrite map_size_insert_Some by by eexists. apply (to_size _ _ Hm).
  - apply (to_fill _ _ Hm).
Qed.

Lemma new_key_ok m M i k v : table_ok m M -> (i < capacity_ m)%nat -> st m i <> kOccupied -> reaches m k i -> M !! k = None ->
  length k = key_words -> length v = value_words -> (size_ m < max_fill_ m)%nat ->
  table_ok (put_slot m i (mkSlot kOccupied (gen_ (slot m i) + 2) k v) (size_ m + 1)) (<[k := v]> M).
Proof.
  intros Hm Hlt Hi Hre HMk Hk Hv Hfill. rewrite <- (to_len _ _ Hm) in Hlt. apply lookup_lt_is_Some in Hlt as [s Hs].
  assert (slot m i = s) as Es by (unfold slot; by rewrite Hs).
  eapply put_slot_ok; try done; cbn.
  - rewrite Z.even_add, Es. by rewrite (to_even _ _ Hm i s Hs).
  - intros _ j Hne Hj Hkj. pose proof (held_value m M j k Hm Hj Hkj). congruence.
  - intros k' v'. rewrite lookup_insert_Some. split.
    + intros [[-> ->]|[Hne Hl]]; [by left|]. apply (to_held _ _ Hm) in Hl as (j & Hj & Hkj & Hvj). right. exists j. split_and!; try done. congruence.
    + intros [(_ & -> & ->)|(j & Hne & Hj & Hkj & Hvj)]; [by left|]. right. split; [|apply (to_held _ _ Hm); by exists j].
      intros <-. pose proof (held_value m M j k Hm Hj Hkj). congruence.
  - rewrite map_size_insert_None by done. rewrite (to_size _ _ Hm). lia.
  - lia.
Qed.

Lemma tombstone_ok m M i k : table_ok m M -> st m i = kOccupied -> key_ (slot m i) = k ->
  table_ok (put_slot m i (mkSlot kTombstone (gen_ (slot m i) + 2) (key_ (slot m i)) (value_ (slot m i))) (size_ m - 1)) (delete k M).
Proof.
  intros Hm Hi Hk. destruct (slot_in_range m i) as (s & Hs & Es); [by rewrite Hi|]. pose proof (to_words _ _ Hm i s Hs) as Hw.
  pose proof (held_value m M i k Hm Hi Hk) as Hold.
  eapply put_slot_ok; try done; cbn.
  - by rewrite Es.
  - rewrite Z.even_add, Es. by rewrite (to_even _ _ Hm i s Hs).
  - intros k' v'. rewrite lookup_delete_Some. split.
    + intros [Hne Hl]. apply (to_held _ _ Hm) in Hl as (j & Hj & Hkj & Hvj). right. exists j. split_and!; try done. congruence.
    + intros [[? _]|(j & Hne & Hj & Hkj & Hvj)]; [done|]. split; [|apply (to_held _ _ Hm); by exists j].
      intros <-. apply Hne, (to_unique _ _ Hm); congruence.
  - rewrite map_size_delete_Some by by eexists. rewrite (to_size _ _ Hm). lia.
  - pose proof (to_fill _ _ Hm). lia.
Qed.

(** * The calls *)

Lemma set_slot_lookup m i f s : slots_ m !! i = Some s -> slots_ (set_slot m i f) !! i = Some (f s).
Proof. intros Hi. cbn. rewrite list_lookup_alter_eq. by rewrite Hi. Qed.

Lemma do_overwrite m i v s : slots_ m !! i = Some s -> length v = length (value_ s) ->
  do_stores (BeginWrite i :: assign_value i v ++ [EndWrite i]) m = put_slot m i (mkSlot (state_ s) (gen_ s + 2) (key_ s) v) (size_ m).
Proof.
  intros Hi Hv. change (BeginWrite i :: assign_value i v ++ [EndWrite i]) with ([BeginWrite i] ++ assign_value i v ++ [EndWrite i]).
  rewrite !do_stores_app. cbn [do_stores fold_left do_store].
  rewrite (do_assign_value _ i v (mkSlot (state_ s) (gen_ s + 1) (key_ s) (value_ s))) by (first [exact Hv|by rewrite (set_slot_lookup m i _ s Hi)]).
  rewrite !set_slot_set_slot. cbn. erewrite <- (set_slot_put m i (fun s => mkSlot (state_ s) (gen_ s + 2) (key_ s) v)); [|done].
  unfold set_slot. cbn. f_equal. apply list_alter_ext; [|done]. intros x _. cbn. f_equal. lia.
Qed.

Lemma do_fresh m i k v n s : slots_ m !! i = Some s -> length k = length (key_ s) -> length v = length (value_ s) ->
  do_stores (BeginWrite i :: AssignKey i k ++ assign_value i v ++ [SetState i kOccupied; EndWrite i; SetSize n]) m =
  put_slot m i (mkSlot kOccupied (gen_ s + 2) k v) n.
Proof.
  intros Hi Hk Hv. change (BeginWrite i :: ?l) with ([BeginWrite i] ++ l). rewrite !do_stores_app.
  change (do_stores [BeginWrite i] m) with (set_slot m i (fun s => mkSlot (state_ s) (gen_ s + 1) (key_ s) (value_ s))).
  rewrite (do_AssignKey _ i k (mkSlot (state_ s) (gen_ s + 1) (key_ s) (value_ s))) by (first [exact Hk|by rewrite (set_slot_lookup m i _ s Hi)]).
  rewrite set_slot_set_slot.
  rewrite (do_assign_value _ i v (mkSlot (state_ s) (gen_ s + 1) k (value_ s))) by (first [exact Hv|by rewrite (set_slot_lookup m i _ s Hi)]).
  rewrite !set_slot_set_slot. erewrite <- (set_slot_put m i (fun s => mkSlot kOccupied (gen_ s + 2) k v)); [|done].
  cbn [do_stores fold_left do_store]. rewrite !set_slot_set_slot. cbn. f_equal. apply list_alter_ext; [|done]. intros x _. cbn. f_equal. lia.
Qed.

Lemma do_state m i st' s : slots_ m !! i = Some s ->
  do_stores [BeginWrite i; SetState i st'; EndWrite i] m = put_slot m i (mkSlot st' (gen_ s + 2) (key_ s) (value_ s)) (size_ m).
Proof.
  intros Hi. cbn [do_stores fold_left do_store]. rewrite !set_slot_set_slot. cbn.
  erewrite <- (set_slot_put m i (fun s => mkSlot st' (gen_ s + 2) (key_ s) (value_ s))); [|done].
  unfold set_slot. cbn. f_equal. apply list_alter_ext; [|done]. intros x _. cbn. f_equal. lia.
Qed.

Definition op_words (o : op) : Prop :=
  match o with InsertOrAssign _ k v => length k = key_words /\ length v = value_words | Erase k => True end.
(** The storage of a key fails only where the slot was never used. *)
Definition key_safe m (o : op) : Prop :=
  match o with InsertOrAssign false k v => forall i, insert_decision m k = Fresh i -> st m i = kEmpty | _ => True end.
(** There is room for a new key: the load limit, and an empty slot among those probed. *)
Definition accepts m k : Prop := (size_ m < max_fill_ m)%nat /\ has_empty m (probes m k).

(** What a call may answer, and the map it leaves. *)
Inductive map_spec (M : gmap (list Z) (list Z)) : op -> bool -> gmap (list Z) (list Z) -> Prop :=
| spec_assign ok k v : is_Some (M !! k) -> map_spec M (InsertOrAssign ok k v) true (<[k := v]> M)
| spec_insert k v : M !! k = None -> map_spec M (InsertOrAssign true k v) true (<[k := v]> M)
| spec_refuse ok k v : M !! k = None -> map_spec M (InsertOrAssign ok k v) false M
| spec_erase k : is_Some (M !! k) -> map_spec M (Erase k) true (delete k M)
| spec_absent k : M !! k = None -> map_spec M (Erase k) false M.

Lemma unchanged_ok m M i : table_ok m M -> st m i = kEmpty -> (i < capacity_ m)%nat ->
  table_ok (put_slot m i (mkSlot kEmpty (gen_ (slot m i) + 2) (key_ (slot m i)) (value_ (slot m i))) (size_ m)) M.
Proof.
  intros Hm Hi Hlt. rewrite <- (to_len _ _ Hm) in Hlt. apply lookup_lt_is_Some in Hlt as [s Hs]. assert (slot m i = s) as Es by (unfold slot; by rewrite Hs).
  eapply put_slot_ok; try done; cbn.
  - rewrite Es. by apply (to_words _ _ Hm i).
  - rewrite Z.even_add, Es. by rewrite (to_even _ _ Hm i s Hs).
  - intros k v. rewrite <- (to_held _ _ Hm). split; [|intros [[? _]|(j & _ & Hj)]; [done|by exists j]].
    intros (j & Hj & Hv). right. exists j. split; [|done]. intros ->. congruence.
  - apply (to_size _ _ Hm).
  - apply (to_fill _ _ Hm).
Qed.

Lemma probes_lt m M k i : table_ok m M -> i ∈ probes m k -> (i < capacity_ m)%nat.
Proof. intros Hm. apply walk_lt; [apply (to_cap _ _ Hm)|]. apply masked_lt, (to_cap _ _ Hm). Qed.

(** The decision on a key that is absent. *)
Lemma fresh_reaches m M k i : table_ok m M -> insert_decision m k = Fresh i ->
  accepts m k /\ st m i <> kOccupied /\ reaches m k i /\ (i < capacity_ m)%nat /\ exists s, slots_ m !! i = Some s /\ slot m i = s.
Proof.
  intros Hm Hd. apply insert_from_fresh in Hd as (Ha & He & [?|(_ & Hi & l1 & l2 & Hw & Hl)]); [done|].
  assert (i < capacity_ m)%nat as Hlt by (apply (probes_lt m M k); [done|]; unfold probes; rewrite Hw; apply elem_of_app; right; by left).
  split_and!; [split; [by apply Nat.ltb_lt|done]|done|by exists l1, l2|done|].
  rewrite <- (to_len _ _ Hm) in Hlt. apply lookup_lt_is_Some in Hlt as [s Hs]. exists s. split; [done|]. unfold slot. by rewrite Hs.
Qed.

Lemma run_op_ok m M o : table_ok m M -> op_words o -> key_safe m o ->
  exists M', map_spec M o (fst (run_op m o)) M' /\ table_ok (snd (run_op m o)) M'.
Proof.
  intros Hm Hw Hsafe. unfold run_op. destruct o as [ok k v|k]; cbn [stores].
  - destruct Hw as [Hk Hv]. destruct (insert_decision m k) as [i|i|] eqn:Hd; cbn [fst snd].
    + apply insert_from_overwrite in Hd. pose proof (FindSlot_value m M k i Hm Hd) as HM. apply (FindSlot_spec m M k i Hm) in Hd as [Hi Hki].
      destruct (slot_in_range m i) as (s & Hs & Es); [by rewrite Hi|]. destruct (to_words _ _ Hm i s Hs) as [_ Hvw].
      exists (<[k := v]> M). split; [by constructor|]. rewrite (do_overwrite m i v s) by (done || congruence).
      rewrite <- Es, Hi, Hki. by apply overwritten_ok.
    + destruct (fresh_reaches m M k i Hm Hd) as ([Hf _] & Hi & Hre & Hlt & s & Hs & Es). destruct (to_words _ _ Hm i s Hs) as [Hkw Hvw].
      assert (M !! k = None) as HM.
      { apply (FindSlot_None m M k Hm). destruct (FindSlot m k) as [j|] eqn:Hj; [|done].
        unfold insert_decision in Hd. by rewrite (insert_from_found _ _ _ _ _ _ _ Hj) in Hd. }
      destruct ok; cbn [fst snd].
      * exists (<[k := v]> M). split; [by constructor|]. rewrite (do_fresh m i k v _ s) by (done || congruence). rewrite <- Es. by apply new_key_ok.
      * exists M. split; [by constructor|]. rewrite (do_state m i kEmpty s) by done. rewrite <- Es. apply unchanged_ok; auto.
    + exists M. split; [|done]. constructor. apply (FindSlot_None m M k Hm). destruct (FindSlot m k) as [j|] eqn:Hj; [|done].
      unfold insert_decision in Hd. by rewrite (insert_from_found _ _ _ _ _ _ _ Hj) in Hd.
  - destruct (FindSlot m k) as [i|] eqn:Hf; cbn [fst snd].
    + pose proof (FindSlot_value m M k i Hm Hf) as HM. apply (FindSlot_spec m M k i Hm) in Hf as [Hi Hki].
      destruct (slot_in_range m i) as (s & Hs & Es); [by rewrite Hi|]. exists (delete k M). split; [by constructor|].
      assert (0 < size_ m)%nat as Hpos by (rewrite (to_size _ _ Hm); pose proof (map_size_ne_0_lookup_2 M k ltac:(by eexists)); lia).
      rewrite (proj2 (Nat.ltb_lt _ _) Hpos), do_stores_app, (do_state m i kTombstone s) by done. rewrite <- Es. exact (tombstone_ok m M i k Hm Hi Hki).
    + exists M. split; [|done]. constructor. by apply (FindSlot_None m M k Hm).
Qed.

Lemma round_up_pow fuel e capacity : exists e', round_up fuel (2 ^ e) capacity = (2 ^ e')%nat.
Proof.
  revert e. induction fuel as [|fuel IH]; intros e; cbn [round_up]; [by exists e|]. destruct (2 ^ e <? capacity)%nat; [|by exists e].
  replace (2 ^ e * 2)%nat with (2 ^ S e)%nat by (cbn; lia). apply IH.
Qed.

Lemma round_up_enough fuel cap capacity : (0 < cap)%nat -> (capacity <= cap + fuel)%nat -> (cap <= capacity \/ cap = 1)%nat ->
  (capacity <= round_up fuel cap capacity)%nat /\ (round_up fuel cap capacity < 2 * Nat.max 1 capacity)%nat.
Proof.
  revert cap. induction fuel as [|fuel IH]; intros cap Hc Hf Hle; cbn [round_up]; [lia|]. destruct (Nat.ltb_spec cap capacity) as [Hlt|Hge]; [|lia].
  destruct (decide (cap * 2 <= capacity)%nat) as [Hs|Hs]; [apply IH; lia|].
  assert (round_up fuel (cap * 2) capacity = (cap * 2)%nat) as ->; [|lia]. destruct fuel; cbn [round_up]; [done|]. by rewrite (proj2 (Nat.ltb_ge _ _)) by lia.
Qed.

(** The capacity is the least power of two that is enough. *)
Lemma Allocate_capacity capacity : (capacity <= capacity_ (Allocate capacity) < 2 * Nat.max 1 capacity)%nat.
Proof. unfold Allocate. cbn [capacity_]. apply (round_up_enough capacity 1 capacity); lia. Qed.

Lemma Allocate_ok capacity : table_ok (Allocate capacity) ∅.
Proof.
  unfold Allocate. destruct (round_up_pow capacity 0 capacity) as [e E]. change (2 ^ 0)%nat with 1%nat in E. set (cap := round_up capacity 1 capacity) in *.
  assert (forall i, slot (mkMap cap 0 0 (replicate cap empty_slot)) i = empty_slot) as Hs.
  { intros i. unfold slot. cbn. by destruct (replicate cap empty_slot !! i) eqn:Hi; [apply lookup_replicate in Hi as [-> _]|]. }
  split; cbn.
  - by exists e.
  - apply length_replicate.
  - intros i s [-> _]%lookup_replicate. cbn. by rewrite !length_replicate.
  - by intros i s [-> _]%lookup_replicate.
  - intros i Hi. specialize (Hs i). unfold slot in *. cbn in *. by rewrite Hs in Hi.
  - intros i j Hi. specialize (Hs i). unfold slot in *. cbn in *. by rewrite Hs in Hi.
  - intros k v. rewrite lookup_empty. split; [|done]. intros (i & Hi & _). specialize (Hs i). unfold slot in *. cbn in *. by rewrite Hs in Hi.
  - done.
  - lia.
Qed.

Fixpoint run_ops m (ops : list op) : list bool * unordered_map :=
  match ops with
  | [] => ([], m)
  | o :: ops => let '(r, m) := run_op m o in let '(rs, m) := run_ops m ops in (r :: rs, m)
  end.
Fixpoint ops_safe m (ops : list op) : Prop :=
  match ops with [] => True | o :: ops => op_words o /\ key_safe m o /\ ops_safe (snd (run_op m o)) ops end.
Inductive maps_spec (M : gmap (list Z) (list Z)) : list op -> list bool -> gmap (list Z) (list Z) -> Prop :=
| maps_nil : maps_spec M [] [] M
| maps_cons o r M1 ops rs M2 : map_spec M o r M1 -> maps_spec M1 ops rs M2 -> maps_spec M (o :: ops) (r :: rs) M2.

Definition lookup_value m k : option (list Z) := match FindSlot m k with Some i => Some (value_ (slot m i)) | None => None end.

Lemma lookup_value_ok m M k : table_ok m M -> lookup_value m k = M !! k.
Proof.
  intros Hm. unfold lookup_value. destruct (FindSlot m k) as [i|] eqn:Hf.
  - symmetry. by apply (FindSlot_value m M k i Hm).
  - symmetry. by apply (FindSlot_None m M k Hm).
Qed.

Lemma run_ops_ok m M ops : table_ok m M -> ops_safe m ops ->
  exists M', maps_spec M ops (fst (run_ops m ops)) M' /\ table_ok (snd (run_ops m ops)) M'.
Proof.
  revert m M. induction ops as [|o ops IH]; cbn; intros m M Hm Hs; [exists M; split; [constructor|done]|].
  destruct Hs as (Hw & Hk & Hs). destruct (run_op_ok m M o Hm Hw Hk) as (M1 & Hsp & Hm1). destruct (run_op m o) as [r m1]. cbn in *.
  destruct (IH m1 M1 Hm1 Hs) as (M2 & Hsp2 & Hm2). destruct (run_ops m1 ops) as [rs m2]. cbn in *. exists M2. split; [by econstructor|done].
Qed.


(** When a new key is accepted: its storage is there, the table is below its load
    limit, and one of the slots the key may probe was never used. *)
Theorem InsertOrAssign_new_exact m M ok k v : table_ok m M -> M !! k = None ->
  fst (run_op m (InsertOrAssign ok k v)) = true <-> ok = true /\ accepts m k.
Proof.
  intros Hm HM. pose proof (proj2 (FindSlot_None m M k Hm) HM) as Hf. unfold run_op. cbn [stores].
  destruct (insert_decision m k) as [i|i|] eqn:Hd.
  - apply insert_from_overwrite in Hd. unfold FindSlot in Hf. congruence.
  - destruct (fresh_reaches m M k i Hm Hd) as (Ha & _). destruct ok; cbn; naive_solver.
  - cbn. split; [done|]. intros [_ [Hfill He]].
    destruct (insert_from_empty m (size_ m <? max_fill_ m)%nat (probe_limit m) (home m k) None k Hf) as [t Ht]; [by apply Nat.ltb_lt|done|].
    unfold insert_decision in Hd. congruence.
Qed.

(** A table whose every slot has been used once refuses all new keys, whatever has
    been erased since. *)
Theorem used_table_refuses m M ok k v : table_ok m M -> (forall i, (i < capacity_ m)%nat -> st m i <> kEmpty) -> M !! k = None ->
  run_op m (InsertOrAssign ok k v) = (false, m).
Proof.
  intros Hm Hused HM. pose proof (InsertOrAssign_new_exact m M ok k v Hm HM) as Hx. unfold run_op in *. cbn [stores] in *.
  destruct (insert_decision m k) as [i|i|] eqn:Hd; [| |done].
  - cbn in Hx. destruct (proj1 Hx eq_refl) as (_ & _ & j & Hj & E). by destruct (Hused j (probes_lt m M k j Hm Hj)).
  - destruct (fresh_reaches m M k i Hm Hd) as ((_ & j & Hj & E) & _). by destruct (Hused j (probes_lt m M k j Hm Hj)).
Qed.
End ShmMap.

(** Four keys come and go in a table of four slots: it is empty and refuses a fifth. *)
Definition one_word (k : list Z) : Z := match k with [z] => z | _ => 0 end.
Definition churn : list op :=
  concat (map (fun z => [InsertOrAssign true [z] [7]; Erase [z]]) [0; 1; 2; 3]) ++ [InsertOrAssign true [4] [7]].
Example churned_table_refuses :
  let '(rs, m) := run_ops 1 1 one_word (Allocate 1 1 4) churn in
  rs = [true; true; true; true; true; true; true; true; false] /\ size_ m = 0%nat /\ map state_ (slots_ m) = [kTombstone; kTombstone; kTombstone; kTombstone].
Proof. by vm_compute. Qed.

(** A key that cannot be stored in a reused slot cuts the probes of the keys behind
    it: [2] is in the table, is not found, cannot be erased, and is back with its
    old value once the hole is filled. *)
Definition lost_key : list op :=
  [InsertOrAssign true [1] [10]; InsertOrAssign true [2] [20]; Erase [1]; InsertOrAssign false [3] [30]; Erase [2]; InsertOrAssign true [4] [40]].
Example lost_key_returns :
  let '(rs, m) := run_ops 1 1 (fun _ => 0) (Allocate 1 1 4) lost_key in
  rs = [true; true; true; false; false; true] /\ lookup_value 1 1 (fun _ => 0) m [2] = Some [20].
Proof. by vm_compute. Qed.

