(* ===== verification/ShmSeqlock.v ===== *)
(** Readers of the shared-memory table while its writer works ([TryGet] of
    [ipc/unordered_map.h]): the per-slot sequence lock under any interleaving of the
    writer's stores and the readers' loads. A reader that dies leaves nothing
    behind: it has no step that changes the table. *)
From Stdlib Require Import ZArith Lia.
From stdpp Require Import base list gmap relations.
From S2P Require Import Prelude ShmMap.

Open Scope Z_scope.

Section Seqlock.
Context (key_words value_words : nat) (hash : list Z -> Z) (max_retries : nat).
Notation slot := (slot key_words value_words).
Notation stores := (stores key_words value_words hash).
Notation table_ok := (table_ok key_words value_words hash).
Notation op_words := (op_words key_words value_words).
Notation key_safe := (key_safe key_words value_words hash).
Implicit Types (m : unordered_map) (k : list Z) (acc : list Z) (M : gmap (list Z) (list Z)).

(** * A look-up

    Its program counter: about to load the generation of slot [idx], its state, word
    [j] of its key, the next word of its value, the generation again after a copy or
    after an empty slot. [a] retries and [p] probes are left; [g] is the generation
    it saw first, [acc] the words of the value copied. *)
Inductive reader :=
  | RIdle
  | RGen k (a p idx : nat) | RState k (a p idx : nat) (g : Z) | RKey k (a p idx : nat) (g : Z) (j : nat)
  | RValue k (a p idx : nat) (g : Z) acc | RCheck k (a p idx : nat) (g : Z) acc | RMiss k (a p idx : nat) (g : Z)
  | RDone k (r : option (list Z)).
Implicit Types (r : reader).

Definition probe_start m k (a : nat) : reader := RGen k a (probe_limit m) (home hash m k).
(** A torn read: another attempt, if there is one. *)
Definition retry m k (a : nat) : reader := match a with O | 1%nat => RDone k None | S a => probe_start m k a end.
(** The next slot of the probe, if there is one. *)
Definition advance m k (a p idx : nat) : reader := match p with O | 1%nat => RDone k None | S p => RGen k a p (next m idx) end.
Definition copied k (a p idx : nat) (g : Z) acc : reader :=
  if (length acc =? value_words)%nat then RCheck k a p idx g acc else RValue k a p idx g acc.
Definition matched k (a p idx : nat) (g : Z) (j : nat) : reader :=
  if (j =? key_words)%nat then copied k a p idx g [] else RKey k a p idx g j.

Definition TryGet m k : reader := match max_retries with O => RDone k None | S _ => probe_start m k max_retries end.

Definition reader_step m r : reader :=
  match r with
  | RGen k a p idx => if Z.even (gen_ (slot m idx)) then RState k a p idx (gen_ (slot m idx)) else retry m k a
  | RState k a p idx g =>
      match state_ (slot m idx) with
      | kEmpty => RMiss k a p idx g
      | kOccupied => matched k a p idx g 0
      | kTombstone => advance m k a p idx
      end
  | RKey k a p idx g j =>
      if decide (key_ (slot m idx) !! j = k !! j) then matched k a p idx g (S j) else advance m k a p idx
  | RValue k a p idx g acc => copied k a p idx g (acc ++ [default 0 (value_ (slot m idx) !! length acc)])
  | RCheck k a p idx g acc => if gen_ (slot m idx) =? g then RDone k (Some acc) else retry m k a
  | RMiss k a p idx g => if gen_ (slot m idx) =? g then RDone k None else retry m k a
  | RIdle | RDone _ _ => r
  end.

(** * The writer and the readers

    [w_before] and [w_after] are the map around the writer's last call. *)
Record world := mkWorld {
  w_table : unordered_map;
  w_todo : list store;
  w_readers : list reader;
  w_before : gmap (list Z) (list Z);    (** ghost *)
  w_after : gmap (list Z) (list Z) }.   (** ghost *)
Implicit Types (w : world).

Definition world_init (capacity readers : nat) : world :=
  mkWorld (Allocate key_words value_words capacity) [] (replicate readers RIdle) ∅ ∅.

(** What a call that answered [b] means. *)
Definition effect M (o : op) (b : bool) : gmap (list Z) (list Z) :=
  match o, b with InsertOrAssign _ k v, true => <[k := v]> M | Erase k, true => delete k M | _, false => M end.

Inductive step : world -> world -> Prop :=
| write_start m rs M0 M o :
    op_words o -> key_safe m o ->
    step (mkWorld m [] rs M0 M) (mkWorld m (snd (stores m o)) rs M (effect M o (fst (stores m o))))
| write_store m c cs rs M0 M : step (mkWorld m (c :: cs) rs M0 M) (mkWorld (do_store c m) cs rs M0 M)
| read_start m cs rs M0 M i r k :
    rs !! i = Some r -> r = RIdle \/ (exists k' v, r = RDone k' v) -> length k = key_words ->
    step (mkWorld m cs rs M0 M) (mkWorld m cs (<[i := TryGet m k]> rs) M0 M)
| read_load m cs rs M0 M i r :
    rs !! i = Some r -> step (mkWorld m cs rs M0 M) (mkWorld m cs (<[i := reader_step m r]> rs) M0 M).
Definition reachable w : Prop := exists capacity readers, rtc step (world_init capacity readers) w.

(** * The writer in the middle of a call *)

Definition touches (i : nat) (c : store) : Prop :=
  match c with SetState j _ | SetKey j _ _ | SetValue j _ _ => j = i | _ => False end.
Definition sizes (c : store) : Prop := match c with SetSize _ => True | _ => False end.

(** The stores of a call: one slot, between the two bumps of its generation. *)
Lemma stores_shape m o : snd (stores m o) = [] \/
  exists i body tail, snd (stores m o) = BeginWrite i :: body ++ EndWrite i :: tail /\ Forall (touches i) body /\ Forall sizes tail.
Proof.
  assert (forall (C : nat -> Z -> store) i l, (forall j z, touches i (C j z)) -> Forall (touches i) (imap C l)) as Hw.
  { intros C i l HC. apply Forall_lookup. intros j c Hj. rewrite list_lookup_imap in Hj. destruct (l !! j); [|done]. injection Hj as <-. apply HC. }
  destruct o as [ok k v|k]; cbn.
  - destruct (insert_decision _ _ _ _ _) as [i|i|]; [| |by left].
    + right. exists i, (assign_value i v), []. split_and!; [done|by apply Hw|constructor].
    + destruct ok; right.
      * exists i, (AssignKey i k ++ assign_value i v ++ [SetState i kOccupied]), [SetSize (size_ m + 1)]. split_and!.
        -- cbn. by rewrite <- !app_assoc.
        -- apply Forall_app. split; [by apply Hw|]. apply Forall_app. split; [by apply Hw|by repeat constructor].
        -- by repeat constructor.
      * exists i, [SetState i kEmpty], []. split_and!; [done|by repeat constructor..].
  - destruct (FindSlot _ _ _ _ _) as [i|]; [|by left]. right. exists i, [SetState i kTombstone], (if (0 <? size_ m)%nat then [SetSize (size_ m - 1)] else []).
    split_and!; [done|by repeat constructor|]. destruct (0 <? size_ m)%nat; by repeat constructor.
Qed.

(** How far the call has got. *)
Lemma prefix_cases done todo i body tail : done ++ todo = BeginWrite i :: body ++ EndWrite i :: tail ->
  done = [] \/ (exists b1 b2, done = BeginWrite i :: b1 /\ body = b1 ++ b2 /\ todo = b2 ++ EndWrite i :: tail) \/
  (exists t1, done = BeginWrite i :: body ++ EndWrite i :: t1 /\ tail = t1 ++ todo).
Proof.
  destruct done as [|c d]; [by left|]. cbn. intros [= -> E]. right. revert body E. induction d as [|c d IH]; intros body E.
  - left. exists [], body. done.
  - destruct body as [|c' body]; cbn in E; injection E as -> E.
    + right. exists d. split; [done|]. by rewrite <- E.
    + destruct (IH body E) as [(b1 & b2 & [= ->] & -> & Ht)|(t1 & [= ->] & Ht)]; [left; by exists (c' :: b1), b2|right; by exists t1].
Qed.

Lemma slot_set_other m i j f : j <> i -> slot (set_slot m i f) j = slot m j.
Proof. intros Hne. unfold ShmMap.slot, set_slot. cbn. by rewrite list_lookup_alter_ne. Qed.
Lemma slot_set_same m i f s : slots_ m !! i = Some s -> slot (set_slot m i f) i = f s.
Proof. intros Hi. unfold ShmMap.slot, set_slot. cbn. rewrite list_lookup_alter_eq. by rewrite Hi. Qed.
Lemma in_range_store m i c s : slots_ m !! i = Some s -> exists s', slots_ (do_store c m) !! i = Some s'.
Proof.
  intros Hi. assert (forall j f, exists s', slots_ (set_slot m j f) !! i = Some s') as Hset.
  { intros j f. apply lookup_lt_Some in Hi. apply lookup_lt_is_Some. unfold set_slot. cbn. by rewrite length_alter. }
  destruct c; try apply Hset. by exists s.
Qed.

(** Stores to slot [i] under an odd generation, and to the count. *)
Lemma touches_frame i c m s : touches i c -> slots_ m !! i = Some s ->
  gen_ (slot (do_store c m) i) = gen_ (slot m i) /\ forall j, j <> i -> slot (do_store c m) j = slot m j.
Proof.
  intros Ht Hi. assert (slot m i = s) as Es by (unfold ShmMap.slot; by rewrite Hi).
  destruct c as [j|j|j st|j n z|j n z|n]; cbn in Ht; try done; subst j; cbn [do_store];
    (split; [rewrite (slot_set_same m i _ s Hi); by rewrite Es|intros j Hne; by apply slot_set_other]).
Qed.

Lemma body_frame i b m s : Forall (touches i) b -> slots_ m !! i = Some s ->
  gen_ (slot (do_stores b m) i) = gen_ (slot m i) /\ (forall j, j <> i -> slot (do_stores b m) j = slot m j) /\ exists s', slots_ (do_stores b m) !! i = Some s'.
Proof.
  intros Hb. revert m s. induction Hb as [|c b Hc _ IH]; intros m s Hi; [split_and!; [done..|by exists s]|]. cbn.
  destruct (touches_frame i c m s Hc Hi) as [Hg Ho]. destruct (in_range_store m i c s Hi) as [s' Hi'].
  destruct (IH (do_store c m) s' Hi') as (Hg' & Ho' & Hr). unfold do_stores in *. split_and!; [congruence| |done]. intros j Hne. rewrite Ho' by done. by apply Ho.
Qed.

Lemma tail_frame t m : Forall sizes t -> slots_ (do_stores t m) = slots_ m.
Proof. intros Ht. revert m. induction Ht as [|c t Hc _ IH]; intros m; [done|]. cbn. unfold do_stores in IH. rewrite IH. by destruct c. Qed.

Lemma begin_frame m i s : slots_ m !! i = Some s -> gen_ (slot (do_store (BeginWrite i) m) i) = gen_ (slot m i) + 1 /\
  (forall j, j <> i -> slot (do_store (BeginWrite i) m) j = slot m j) /\ exists s', slots_ (do_store (BeginWrite i) m) !! i = Some s'.
Proof.
  intros Hi. assert (slot m i = s) as Es by (unfold ShmMap.slot; by rewrite Hi). split_and!.
  - cbn [do_store]. rewrite (slot_set_same m i _ s Hi). by rewrite Es.
  - intros j Hne. by apply slot_set_other.
  - by eapply in_range_store.
Qed.

Lemma stores_in_range m M o i l : table_ok m M -> snd (stores m o) = BeginWrite i :: l -> exists s, slots_ m !! i = Some s.
Proof.
  intros Hm. destruct o as [ok k v|k]; cbn.
  - destruct (insert_decision _ _ _ _ _) as [j|j|] eqn:Hd; [| |done].
    + intros [= -> _]. apply insert_from_overwrite in Hd. apply (FindSlot_spec _ _ _ m M k i Hm) in Hd as [Hi _].
      destruct (slot_in_range key_words value_words m i) as (s & Hs & _); [by rewrite Hi|by exists s].
    + intros E. assert (j = i) as -> by (destruct ok; by injection E). destruct (fresh_reaches _ _ _ m M k i Hm Hd) as (_ & _ & _ & _ & s & Hs & _). by exists s.
  - destruct (FindSlot _ _ _ _ _) as [j|] eqn:Hf; [|done]. intros [= -> _]. apply (FindSlot_spec _ _ _ m M k i Hm) in Hf as [Hi _].
    destruct (slot_in_range key_words value_words m i) as (s & Hs & _); [by rewrite Hi|by exists s].
Qed.

(** * The invariant of the writer *)

Definition writing w : Prop := exists m0 o dn,
  table_ok m0 (w_before w) /\ op_words o /\ key_safe m0 o /\ snd (stores m0 o) = dn ++ w_todo w /\
  w_table w = do_stores dn m0 /\ w_after w = effect (w_before w) o (fst (stores m0 o)).
Definition writer_ok w : Prop := (w_todo w = [] /\ table_ok (w_table w) (w_after w)) \/ writing w.

Lemma spec_effect M o b M' : map_spec M o b M' -> M' = effect M o b.
Proof. by destruct 1. Qed.

Lemma stores_ok m M o : table_ok m M -> op_words o -> key_safe m o -> table_ok (do_stores (snd (stores m o)) m) (effect M o (fst (stores m o))).
Proof.
  intros Hm Hw Hk. destruct (run_op_ok _ _ _ m M o Hm Hw Hk) as (M' & Hsp & Hok). unfold run_op in *.
  destruct (stores m o) as [b cs]. cbn in *. by rewrite <- (spec_effect _ _ _ _ Hsp).
Qed.

Lemma writer_idle w : writer_ok w -> w_todo w = [] -> table_ok (w_table w) (w_after w).
Proof.
  intros [[_ H]|(m0 & o & dn & Hm & Hw & Hk & Hs & -> & ->)] Ht; [done|]. rewrite Ht, app_nil_r in Hs. rewrite <- Hs. by apply stores_ok.
Qed.

(** Where the writer is in its call, seen from any slot [j]: untouched, being
    written, or finished. *)
Lemma writing_slot w j : writing w ->
  (exists m0, table_ok m0 (w_before w) /\ slot (w_table w) j = slot m0 j) \/
  Z.even (gen_ (slot (w_table w) j)) = false \/
  (exists m1, table_ok m1 (w_after w) /\ slot (w_table w) j = slot m1 j).
Proof.
  intros (m0 & o & dn & Hm & Hw & Hk & Hs & -> & ->). pose proof (stores_ok m0 _ o Hm Hw Hk) as Hend.
  destruct (stores_shape m0 o) as [E|(i & body & tail & E & Hb & Ht)].
  - rewrite E in Hs. symmetry in Hs. apply app_eq_nil in Hs as [-> _]. left. by exists m0.
  - destruct (stores_in_range m0 _ o i _ Hm E) as [s Hi]. destruct (begin_frame m0 i s Hi) as (Hg1 & Ho1 & s1 & Hi1).
    rewrite E in Hs. symmetry in Hs. destruct (prefix_cases _ _ _ _ _ Hs) as [->|[(b1 & b2 & -> & -> & _)|(t1 & -> & ->)]].
    + left. by exists m0.
    + apply Forall_app in Hb as [Hb _]. destruct (body_frame i b1 _ s1 Hb Hi1) as (Hg & Ho & _).
      destruct (decide (j = i)) as [->|Hne].
      * right. left. change (do_stores (BeginWrite i :: b1) m0) with (do_stores b1 (do_store (BeginWrite i) m0)). rewrite Hg, Hg1, Z.even_add. assert (slot m0 i = s) as -> by (unfold ShmMap.slot; by rewrite Hi).
        by rewrite (to_even _ _ _ _ _ Hm i s Hi).
      * left. exists m0. split; [done|]. change (do_stores (BeginWrite i :: b1) m0) with (do_stores b1 (do_store (BeginWrite i) m0)). rewrite Ho by done. by apply Ho1.
    + right. right. exists (do_stores (snd (stores m0 o)) m0). split; [done|]. rewrite E.
      apply Forall_app in Ht as [Ht1 Ht2]. unfold ShmMap.slot. f_equal. f_equal.
      change (BeginWrite i :: body ++ EndWrite i :: t1) with ((BeginWrite i :: body) ++ [EndWrite i] ++ t1).
      change (BeginWrite i :: body ++ EndWrite i :: t1 ++ w_todo w) with ((BeginWrite i :: body) ++ [EndWrite i] ++ (t1 ++ w_todo w)).
      rewrite !do_stores_app. by rewrite (tail_frame (w_todo w)).
Qed.

(** A store moves the generation of a slot on, or leaves a slot of even generation
    as it is. *)
Lemma store_frame w c cs j : writing w -> w_todo w = c :: cs ->
  gen_ (slot (w_table w) j) <= gen_ (slot (do_store c (w_table w)) j) /\
  (gen_ (slot (do_store c (w_table w)) j) = gen_ (slot (w_table w) j) -> Z.even (gen_ (slot (w_table w) j)) = true ->
   slot (do_store c (w_table w)) j = slot (w_table w) j).
Proof.
  intros (m0 & o & dn & Hm & Hw & Hk & Hs & Et & _) Hc. rewrite Hc in Hs. rewrite Et.
  assert (forall m i s, slots_ m !! i = Some s -> gen_ (slot m j) <= gen_ (slot (do_store (BeginWrite i) m) j) /\
    (gen_ (slot (do_store (BeginWrite i) m) j) = gen_ (slot m j) -> Z.even (gen_ (slot m j)) = true -> slot (do_store (BeginWrite i) m) j = slot m j)) as Hbump.
  { intros m i s Hi. destruct (begin_frame m i s Hi) as (Hg & Ho & _). destruct (decide (j = i)) as [->|Hne]; [rewrite Hg; lia|]. rewrite Ho by done. split; [lia|done]. }
  destruct (stores_shape m0 o) as [E|(i & body & tail & E & Hb & Ht)]; [rewrite E in Hs; by destruct dn|].
  destruct (stores_in_range m0 _ o i _ Hm E) as [s Hi]. destruct (begin_frame m0 i s Hi) as (Hg1 & Ho1 & s1 & Hi1).
  rewrite E in Hs. symmetry in Hs. destruct (prefix_cases _ _ _ _ _ Hs) as [->|[(b1 & b2 & -> & -> & Hb2)|(t1 & -> & ->)]].
  - injection Hs as -> _. by apply (Hbump m0 i s).
  - apply Forall_app in Hb as [Hb1 Hb2']. change (do_stores (BeginWrite i :: b1) m0) with (do_stores b1 (do_store (BeginWrite i) m0)).
    destruct (body_frame i b1 _ s1 Hb1 Hi1) as (Hg & Ho & s2 & Hi2). destruct b2 as [|c' b2]; injection Hb2 as -> Hcs; [by apply (Hbump _ i s2)|].
    apply Forall_cons in Hb2' as [Hc' _]. destruct (touches_frame i c' _ s2 Hc' Hi2) as [Hgc Hoc].
    destruct (decide (j = i)) as [->|Hne]; [|rewrite Hoc by done; split; [lia|done]]. rewrite Hgc, Hg, Hg1. split; [lia|].
    rewrite Z.even_add. assert (slot m0 i = s) as -> by (unfold ShmMap.slot; by rewrite Hi). by rewrite (to_even _ _ _ _ _ Hm i s Hi).
  - apply Forall_app in Ht as [_ Ht]. apply Forall_cons in Ht as [Hsz _].
    assert (slot (do_store c (do_stores (BeginWrite i :: body ++ EndWrite i :: t1) m0)) j = slot (do_stores (BeginWrite i :: body ++ EndWrite i :: t1) m0) j) as ->.
    { unfold ShmMap.slot. by destruct c. }
    split; [lia|done].
Qed.

(** * What a reader knows *)

Definition seen m (idx : nat) (g : Z) (P : Slot -> Prop) : Prop :=
  Z.even g = true /\ g <= gen_ (slot m idx) /\ (gen_ (slot m idx) = g -> P (slot m idx)).
Definition rd_ok m r : Prop :=
  match r with
  | RIdle | RDone _ _ => True
  | RGen k _ _ _ => length k = key_words
  | RState k _ _ idx g | RMiss k _ _ idx g => length k = key_words /\ seen m idx g (fun _ => True)
  | RKey k _ _ idx g j =>
      length k = key_words /\ (j < key_words)%nat /\ seen m idx g (fun s => state_ s = kOccupied /\ forall j', (j' < j)%nat -> key_ s !! j' = k !! j')
  | RValue k _ _ idx g acc =>
      length k = key_words /\ (length acc < value_words)%nat /\
      seen m idx g (fun s => state_ s = kOccupied /\ key_ s = k /\ acc = take (length acc) (value_ s))
  | RCheck k _ _ idx g acc => length k = key_words /\ seen m idx g (fun s => state_ s = kOccupied /\ key_ s = k /\ acc = value_ s)
  end.

(** A slot of even generation holds whole words. *)
Definition words_ok m : Prop := forall j, Z.even (gen_ (slot m j)) = true ->
  length (key_ (slot m j)) = key_words /\ length (value_ (slot m j)) = value_words.

Lemma seen_mono m m' idx g P : (gen_ (slot m idx) <= gen_ (slot m' idx)) ->
  (gen_ (slot m' idx) = gen_ (slot m idx) -> Z.even (gen_ (slot m idx)) = true -> slot m' idx = slot m idx) -> seen m idx g P -> seen m' idx g P.
Proof.
  intros Hle Hs (He & Hg & HP). split_and!; [done|lia|]. intros E. assert (gen_ (slot m idx) = g) as Eg by lia.
  rewrite Hs; [by apply HP|lia|by rewrite Eg].
Qed.

Lemma rd_mono m m' r : (forall j, gen_ (slot m j) <= gen_ (slot m' j) /\
  (gen_ (slot m' j) = gen_ (slot m j) -> Z.even (gen_ (slot m j)) = true -> slot m' j = slot m j)) -> rd_ok m r -> rd_ok m' r.
Proof. intros Hf. destruct r; cbn; try done; intros H;
  repeat match type of H with (length _ = _ /\ _) => destruct H as [? H]; split; [done|] | ((_ < _)%nat /\ _) => destruct H as [? H]; split; [done|] end;
  (eapply seen_mono; [apply Hf..|exact H]). Qed.

Lemma seen_weaken m idx g (P Q : Slot -> Prop) : (Z.even (gen_ (slot m idx)) = true -> P (slot m idx) -> Q (slot m idx)) -> seen m idx g P -> seen m idx g Q.
Proof. intros HPQ (He & Hg & HP). split_and!; [done|done|]. intros E. apply HPQ; [by rewrite E|by apply HP]. Qed.

Lemma copied_ok m k a p idx g acc : words_ok m -> length k = key_words -> (length acc <= value_words)%nat ->
  seen m idx g (fun s => state_ s = kOccupied /\ key_ s = k /\ acc = take (length acc) (value_ s)) -> rd_ok m (copied k a p idx g acc).
Proof.
  intros Hw Hk Hl Hs. unfold copied. destruct (Nat.eqb_spec (length acc) value_words) as [E|Hne]; cbn; split; [done| |done|split; [lia|done]].
  eapply seen_weaken; [|exact Hs]. intros He (H1 & H2 & H3). split_and!; [done..|]. rewrite H3, E. apply take_ge. by rewrite (proj2 (Hw idx He)).
Qed.

Lemma matched_ok m k a p idx g j : words_ok m -> length k = key_words -> (j <= key_words)%nat ->
  seen m idx g (fun s => state_ s = kOccupied /\ forall j', (j' < j)%nat -> key_ s !! j' = k !! j') -> rd_ok m (matched k a p idx g j).
Proof.
  intros Hw Hk Hj Hs. unfold matched. destruct (Nat.eqb_spec j key_words) as [->|Hne]; [|cbn; split_and!; [done|lia|done]].
  apply copied_ok; [done|done|cbn; lia|]. eapply seen_weaken; [|exact Hs]. intros He (H1 & H2). split_and!; [done| |done].
  destruct (Hw idx He) as [Hl _]. apply list_eq. intros i. destruct (decide (i < key_words)%nat) as [Hi|Hi]; [by apply H2|].
  by rewrite !lookup_ge_None_2 by lia.
Qed.

Lemma reader_step_ok m r : words_ok m -> rd_ok m r -> rd_ok m (reader_step m r).
Proof.
  intros Hw. assert (forall k a, length k = key_words -> rd_ok m (retry m k a)) as Hretry by (by intros k [|[|a]]).
  assert (forall k a p idx, length k = key_words -> rd_ok m (advance m k a p idx)) as Hadv by (by intros k a [|[|p]]).
  destruct r as [|k a p idx|k a p idx g|k a p idx g j|k a p idx g acc|k a p idx g acc|k a p idx g|]; cbn [reader_step rd_ok]; try done.
  - intros Hk. destruct (Z.even _) eqn:He; [|auto]. cbn. split; [done|]. split_and!; [done|lia|done].
  - intros [Hk Hs]. destruct (state_ (slot m idx)) eqn:E; [done| |auto]. apply matched_ok; [done|done|lia|]. eapply seen_weaken; [|exact Hs]. intros _ _. split; [done|lia].
  - intros (Hk & Hj & Hs). destruct (decide _) as [E|]; [|auto]. apply matched_ok; [done|done|lia|]. eapply seen_weaken; [|exact Hs]. intros _ (H1 & H2). split; [done|].
    intros j' Hj'. destruct (decide (j' = j)) as [->|]; [done|]. apply H2. lia.
  - intros (Hk & Hl & Hs). apply copied_ok; [done|done|rewrite length_app; cbn; lia|]. eapply seen_weaken; [|exact Hs]. intros He (H1 & H2 & H3). split_and!; [done|done|].
    destruct (Hw idx He) as [_ Hv]. destruct (lookup_lt_is_Some_2 (value_ (slot m idx)) (length acc)) as [z Hz]; [lia|]. rewrite Hz. cbn.
    rewrite length_app. cbn. rewrite Nat.add_1_r, (take_S_r _ _ z) by done. by rewrite <- H3.
  - intros (Hk & _). destruct (_ =? _); [done|auto].
  - intros (Hk & _). destruct (_ =? _); [done|auto].
Qed.

(** * Every interleaving *)

Lemma table_words m M j : table_ok m M -> length (key_ (slot m j)) = key_words /\ length (value_ (slot m j)) = value_words.
Proof.
  intros Hm. unfold ShmMap.slot. destruct (slots_ m !! j) as [s|] eqn:Hj; [by apply (to_words _ _ _ _ _ Hm j)|].
  cbn. by rewrite !length_replicate.
Qed.

Lemma writer_words w : writer_ok w -> words_ok (w_table w).
Proof.
  intros [[_ Hm]|Hw] j He; [by eapply table_words|].
  destruct (writing_slot w j Hw) as [(m0 & Hm & ->)|[E|(m1 & Hm & ->)]]; [by eapply table_words|congruence|by eapply table_words].
Qed.

Definition world_ok w : Prop := writer_ok w /\ forall i r, w_readers w !! i = Some r -> rd_ok (w_table w) r.

Lemma moved_readers (P : reader -> Prop) (rs : list reader) (i : nat) r : (forall j u, rs !! j = Some u -> P u) -> P r -> forall j u, <[i := r]> rs !! j = Some u -> P u.
Proof. intros Hall Hr j u Hj. apply list_lookup_insert_Some in Hj as [(_ & <- & _)|[_ Hj]]; [done|by eapply Hall]. Qed.

Lemma world_step_ok w w' : world_ok w -> step w w' -> world_ok w'.
Proof.
  intros [Hw Hr] Hs. destruct Hs as [m rs M0 M o Ho Hk|m c cs rs M0 M|m cs rs M0 M i r k Hi _ Hk|m cs rs M0 M i r Hi].
  - split; [|exact Hr]. right. exists m, o, []. split_and!; try done. by apply (writer_idle _ Hw).
  - assert (writing (mkWorld m (c :: cs) rs M0 M)) as Hwr by by destruct Hw as [[? _]|?]. split.
    + right. destruct Hwr as (m0 & o & dn & Hm & Ho & Hk & Hs & Et & Ea). exists m0, o, (dn ++ [c]). split_and!; try done.
      * cbn in *. by rewrite <- app_assoc.
      * cbn in *. rewrite do_stores_app, <- Et. done.
    + intros i r Hi. eapply rd_mono; [|by apply (Hr i)]. intros j. by apply (store_frame _ c cs j Hwr).
  - split; [destruct Hw as [?|?]; [by left|by right]|]. cbn. apply moved_readers; [exact Hr|]. unfold TryGet. by destruct max_retries.
  - split; [destruct Hw as [?|?]; [by left|by right]|]. cbn. apply moved_readers; [exact Hr|]. apply reader_step_ok; [by apply (writer_words _ Hw)|by apply (Hr i)].
Qed.

Lemma reachable_world_ok w : reachable w -> world_ok w.
Proof.
  intros (capacity & n & Hr). assert (world_ok (world_init capacity n)) as H0.
  { split; [left; split; [done|apply Allocate_ok]|]. by intros i r [-> _]%lookup_replicate. }
  induction Hr as [|w w' w'' Hs _ IH]; [done|]. by apply IH, (world_step_ok w).
Qed.


(** * Look-ups end *)

Definition loads_left (limit : nat) r : nat :=
  let per_probe := (key_words + value_words + 4)%nat in
  match r with
  | RIdle | RDone _ _ => 0
  | RGen _ a p _ => (a * (limit + 1) + p) * per_probe + (key_words + value_words + 3)
  | RState _ a p _ _ => (a * (limit + 1) + p) * per_probe + (key_words + value_words + 2)
  | RKey _ a p _ _ j => (a * (limit + 1) + p) * per_probe + ((key_words - j) + value_words + 1)
  | RValue _ a p _ _ acc => (a * (limit + 1) + p) * per_probe + ((value_words - length acc) + 1)
  | RCheck _ a p _ _ _ | RMiss _ a p _ _ => (a * (limit + 1) + p) * per_probe + 1
  end%nat.

Definition bounded r : Prop :=
  match r with RKey _ _ _ _ _ j => (j < key_words)%nat | RValue _ _ _ _ _ acc => (length acc < value_words)%nat | _ => True end.

Lemma reader_step_loads m r : bounded r -> bounded (reader_step m r) /\
  (loads_left (probe_limit m) (reader_step m r) < loads_left (probe_limit m) r \/ loads_left (probe_limit m) r = 0)%nat.
Proof.
  set (L := probe_limit m). set (C := (key_words + value_words + 4)%nat).
  assert (forall k a p, bounded (retry m k a) /\ loads_left L (retry m k a) < (a * (L + 1) + p) * C + 1)%nat as Hretry.
  { intros k [|[|a]] p; (split; [done|]); cbn [retry probe_start loads_left]; fold L; fold C; unfold C; nia. }
  assert (forall k a p idx, bounded (advance m k a p idx) /\ loads_left L (advance m k a p idx) < (a * (L + 1) + p) * C + 1)%nat as Hadv.
  { intros k a [|[|p]] idx; (split; [done|]); cbn [advance loads_left]; fold C; unfold C; nia. }
  assert (forall k a p idx g acc, (length acc <= value_words)%nat -> bounded (copied k a p idx g acc) /\
    loads_left L (copied k a p idx g acc) <= (a * (L + 1) + p) * C + ((value_words - length acc) + 1))%nat as Hcop.
  { intros k a p idx g acc Hl. unfold copied. destruct (Nat.eqb_spec (length acc) value_words); cbn [bounded loads_left]; fold C; (split; [lia || done|lia]). }
  assert (forall k a p idx g j, (j <= key_words)%nat -> bounded (matched k a p idx g j) /\
    loads_left L (matched k a p idx g j) <= (a * (L + 1) + p) * C + ((key_words - j) + value_words + 1))%nat as Hmat.
  { intros k a p idx g j Hj. unfold matched. destruct (Nat.eqb_spec j key_words) as [->|]; [|cbn [bounded loads_left]; fold C; split; lia].
    destruct (Hcop k a p idx g []) as [? ?]; [cbn; lia|]. split; [done|]. cbn [length] in *. lia. }
  destruct r as [|k a p idx|k a p idx g|k a p idx g j|k a p idx g acc|k a p idx g acc|k a p idx g|k v]; cbn [reader_step bounded]; intros Hb;
    try (split; [done|]; by right).
  - destruct (Z.even _); [cbn [bounded loads_left]; fold C; split; [done|lia]|]. destruct (Hretry k a p) as [? ?]. split; [done|]. cbn [loads_left]. fold C. lia.
  - destruct (state_ _); [cbn [bounded loads_left]; fold C; split; [done|lia]| |].
    + destruct (Hmat k a p idx g 0%nat) as [? ?]; [lia|]. split; [done|]. cbn [loads_left]. fold C. lia.
    + destruct (Hadv k a p idx) as [? ?]. split; [done|]. cbn [loads_left]. fold C. lia.
  - destruct (decide _).
    + destruct (Hmat k a p idx g (S j)) as [? ?]; [lia|]. split; [done|]. cbn [loads_left]. fold C. lia.
    + destruct (Hadv k a p idx) as [? ?]. split; [done|]. cbn [loads_left]. fold C. lia.
  - destruct (Hcop k a p idx g (acc ++ [default 0 (value_ (slot m idx) !! length acc)])) as [? Hl]; [rewrite length_app; cbn; lia|].
    split; [done|]. rewrite length_app in Hl. cbn [length loads_left] in *. fold C. lia.
  - destruct (_ =? _); [cbn [bounded loads_left]; fold C; split; [done|lia]|]. destruct (Hretry k a p) as [? ?]. split; [done|]. cbn [loads_left]. fold C. lia.
  - destruct (_ =? _); [cbn [bounded loads_left]; fold C; split; [done|lia]|]. destruct (Hretry k a p) as [? ?]. split; [done|]. cbn [loads_left]. fold C. lia.
Qed.

Definition key_of r : option (list Z) :=
  match r with
  | RIdle => None
  | RGen k _ _ _ | RState k _ _ _ _ | RKey k _ _ _ _ _ | RValue k _ _ _ _ _ | RCheck k _ _ _ _ _ | RMiss k _ _ _ _ | RDone k _ => Some k
  end.
Lemma key_of_step m r : key_of (reader_step m r) = key_of r.
Proof. destruct r; cbn; unfold matched, copied, retry, advance; repeat case_match; done. Qed.

(** A look-up whose [n]-th load finds the table [ms n]. *)
Fixpoint look_up (ms : nat -> unordered_map) (n : nat) r : reader :=
  match n with O => r | S n => reader_step (ms n) (look_up ms n r) end.

Definition load_bound (limit : nat) : nat := ((max_retries * (limit + 1) + limit) * (key_words + value_words + 4) + (key_words + value_words + 3))%nat.

(** C36. Look-ups are wait-free: whatever the writer does to the table between two
    loads, and even if it dies with a generation odd, [TryGet] answers after a
    number of loads that its retries, the probe limit and the sizes of the words
    bound. *)
Theorem TryGet_wait_free ms limit k n : (forall i, probe_limit (ms i) = limit) -> (load_bound limit <= n)%nat ->
  exists v, look_up ms n (TryGet (ms 0%nat) k) = RDone k v.
Proof.
  intros Hms Hn.
  assert (forall n, let r := look_up ms n (TryGet (ms 0%nat) k) in key_of r = Some k /\ bounded r /\ (loads_left limit r + n <= load_bound limit \/ loads_left limit r = 0)%nat) as H.
  { clear n Hn. induction n as [|n IH]; cbn [look_up].
    - unfold TryGet. destruct max_retries as [|a] eqn:E; (split_and!; [done|done|]); [by right|]. left. unfold probe_start. rewrite Hms. cbn [loads_left]. unfold load_bound. rewrite E. lia.
    - destruct IH as (Hk & Hb & Hl). destruct (reader_step_loads (ms n) _ Hb) as [Hb' Hl']. rewrite Hms in Hl'. rewrite key_of_step. split_and!; [done|done|]. destruct Hl' as [Hl'|Hz]; [lia|].
      right. revert Hz. generalize (look_up ms n (TryGet (ms 0%nat) k)). intros r. destruct r; cbn [loads_left reader_step]; lia. }
  destruct (H n) as (Hk & _ & [Hl|Hz]).
  - assert (loads_left limit (look_up ms n (TryGet (ms 0%nat) k)) = 0%nat) as Hz by lia. revert Hk Hz. generalize (look_up ms n (TryGet (ms 0%nat) k)).
    intros r. destruct r; cbn [loads_left key_of]; try lia; intros [= ->] _; eauto.
  - revert Hk Hz. generalize (look_up ms n (TryGet (ms 0%nat) k)). intros r. destruct r; cbn [loads_left key_of]; try lia; intros [= ->] _; eauto.
Qed.

(** * A table at rest *)

Notation run m := (rtc (fun r r' => r' = reader_step m r)).

Lemma run_step m r r' : run m (reader_step m r) r' -> run m r r'.
Proof. intros H. by eapply rtc_l. Qed.

Lemma run_value m k a p idx acc : length (value_ (slot m idx)) = value_words -> (length acc <= value_words)%nat -> acc = take (length acc) (value_ (slot m idx)) ->
  run m (copied k a p idx (gen_ (slot m idx)) acc) (RDone k (Some (value_ (slot m idx)))).
Proof.
  intros Hv. remember (value_words - length acc)%nat as d eqn:Hd. revert acc Hd. induction d as [|d IH]; intros acc Hd Hl Ha; unfold copied.
  - destruct (Nat.eqb_spec (length acc) value_words) as [E|]; [|lia]. apply run_step. cbn. rewrite Z.eqb_refl. rewrite E in Ha.
    rewrite take_ge in Ha by lia. by rewrite Ha.
  - destruct (Nat.eqb_spec (length acc) value_words) as [E|]; [lia|]. apply run_step. cbn [reader_step].
    destruct (lookup_lt_is_Some_2 (value_ (slot m idx)) (length acc)) as [z Hz]; [lia|]. rewrite Hz. cbn [default].
    apply IH; rewrite length_app; cbn; [lia|lia|]. rewrite Nat.add_1_r, (take_S_r _ _ z) by done. by rewrite <- Ha.
Qed.

Lemma run_key m k a p idx j : length (key_ (slot m idx)) = key_words -> length (value_ (slot m idx)) = value_words -> length k = key_words -> (j <= key_words)%nat ->
  (forall j', (j' < j)%nat -> key_ (slot m idx) !! j' = k !! j') ->
  run m (matched k a p idx (gen_ (slot m idx)) j)
    (if KeyMatches (slot m idx) k then RDone k (Some (value_ (slot m idx))) else advance m k a p idx).
Proof.
  intros Hk Hv Hlk. remember (key_words - j)%nat as d eqn:Hd. revert j Hd. induction d as [|d IH]; intros j Hd Hj Hs; unfold matched.
  - destruct (Nat.eqb_spec j key_words) as [->|]; [|lia]. rewrite (proj2 (KeyMatches_true _ _)); [by apply run_value; [|cbn; lia|]|].
    apply list_eq. intros i. destruct (decide (i < key_words)%nat); [by apply Hs|]. by rewrite !lookup_ge_None_2 by lia.
  - destruct (Nat.eqb_spec j key_words) as [|Hne]; [lia|]. apply run_step. cbn [reader_step]. destruct (decide _) as [E|E].
    + apply IH; [lia|lia|]. intros j' Hj'. destruct (decide (j' = j)) as [->|]; [done|]. apply Hs. lia.
    + destruct (KeyMatches (slot m idx) k) eqn:EK; [|apply rtc_refl]. apply KeyMatches_true in EK. by rewrite EK in E.
Qed.

(** On a table no one writes to, [TryGet] is the writer's own look-up. *)
Lemma TryGet_quiet m M k : table_ok m M -> length k = key_words -> (0 < max_retries)%nat -> (0 < probe_limit m)%nat ->
  run m (TryGet m k) (RDone k (M !! k)).
Proof.
  intros Hm Hk Ha Hl. rewrite <- (lookup_value_ok _ _ _ m M k Hm). unfold lookup_value, FindSlot, TryGet. destruct max_retries as [|a]; [lia|].
  unfold probe_start. generalize (S a). clear a Ha. intros a. revert Hl. generalize (home hash m k). induction (probe_limit m) as [|p IH]; intros idx Hl; [lia|].
  destruct (table_words m M idx Hm) as [Hkw Hvw].
  assert (Z.even (gen_ (slot m idx)) = true) as He.
  { unfold ShmMap.slot. destruct (slots_ m !! idx) as [s|] eqn:Hs; [by apply (to_even _ _ _ _ _ Hm idx)|done]. }
  assert (run m (advance m k a (S p) idx) (RDone k (match find_from key_words value_words m p (next m idx) k with Some i => Some (value_ (slot m i)) | None => None end))) as Hadv.
  { destruct p as [|p]; [apply rtc_refl|]. cbn [advance]. apply IH. lia. }
  apply run_step. cbn [reader_step]. rewrite He. apply run_step. cbn [reader_step find_from]. destruct (state_ (slot m idx)) eqn:E; [|..|exact Hadv].
  - apply run_step. cbn. rewrite Z.eqb_refl. apply rtc_refl.
  - etransitivity; [apply run_key; [done..|lia|]; intros; lia|]. destruct (KeyMatches (slot m idx) k); [apply rtc_refl|exact Hadv].
Qed.
End Seqlock.

(** A look-up overtaken by an overwrite of its key: it has copied the old value when
    the writer has begun the next one but not yet touched the slot. *)
Definition ex_look : reader := RCheck [0] 2 2 0 2 [7].
Definition ex_world : world :=
  mkWorld (snd (run_op 1 1 one_word (Allocate 1 1 2) (InsertOrAssign true [0] [7])))
    [BeginWrite 0; SetValue 0 0 9; EndWrite 0] [ex_look] {[ [0] := [7] ]} {[ [0] := [9] ]}.

Lemma ex_reachable : reachable 1 1 one_word 2 ex_world.
Proof.
  exists 2%nat, 1%nat. eapply rtc_l; [apply (write_start 1 1 one_word 2 _ _ _ _ (InsertOrAssign true [0] [7])); done|].
  do 6 (eapply rtc_l; [apply write_store|]).
  eapply rtc_l; [by apply (read_start 1 1 one_word 2 _ _ _ _ _ 0 RIdle [0]); [|left|]|].
  do 4 (eapply rtc_l; [eapply (read_load 1 1 one_word 2 _ _ _ _ _ 0); done|]).
  eapply rtc_l; [apply (write_start 1 1 one_word 2 _ _ _ _ (InsertOrAssign true [0] [9])); done|].
  match goal with |- rtc _ ?w ?w' => enough (w = w') as -> by reflexivity end. by vm_compute.
Qed.


Lemma TryGet_wait_free_witness : load_bound 1 1 2 2 = 53%nat /\
  exists v, look_up 1 1 one_word (fun _ => w_table ex_world) 53 (TryGet one_word 2 (w_table ex_world) [0]) = RDone [0] v.
Proof. split; [reflexivity|]. apply (TryGet_wait_free 1 1 one_word 2 (fun _ => w_table ex_world) 2 [0] 53); [by vm_compute|by vm_compute; lia]. Defined.
